(* ===== verification/_CoqProject ===== *)
-Q . S2P
Prelude.v
Bytes.v
Text.v
Utf.v
TimerQueue.v
Preempt.v
Sched.v
Kernel.v
KernelFacts.v
Timer.v
Bitmap.v
FrameAlloc.v
BlockDev.v
BlockDevSpec.v
FileDevSpec.v
Partition.v
TfsBlock.v
TfsAlloc.v
TfsInode.v
TfsCache.v
Vfs.v
TfsDir.v
TfsFile.v
TfsPath.v
TfsNode.v
TfsFs.v
TfsVolume.v
TfsZones.v
TfsNodeSpec.v
TfsWriteSpec.v
TfsContents.v
TfsReadSpec.v
TfsOpenFile.v
TfsPathSpec.v
TfsFindings.v
FatNames.v
FatNamesSpec.v
Fat32.v
Fat32Mount.v
Fat32Size.v
Fat32Tree.v
Fat32Prepare.v
Fat32Dir.v
Fat32Write.v
Fat32Volume.v
Fat32Image.v
Fat32Read.v
Fat32Chain.v
Fat32Spec.v
Fat16.v
Fat16Spec.v
Cpio.v
RamFs.v
Initramfs.v
MemFd.v
WaitQueue.v
Pipe.v
PipeSpec.v
UnixSocket.v
UnixSpec.v
Rtc.v
TimeCalls.v
PollCalls.v
PollSpec.v
Iso9660.v
Iso9660Spec.v
LineDisc.v
Font.v
Framebuffer.v
FbTerm.v
Tty.v
Canvas.v
ConsoleSpec.v
UserText.v
TwinitConfig.v
TwinitService.v
Twilogd.v
TwinitCtl.v
TwinitBroker.v
TwinitSpec.v
