(* ===== verification/Prelude.v ===== *)
(** * Twilight OS: a verification development

    Twilight OS is an x86-64 kernel in Rust with a small user space.  This library
    translates parts of both into executable definitions and proves what makes them
    correct.  Below, K/ is src/kernel/twilight_kernel/src and A/ is src/userspace/apps.

    ** The program

    - Time and scheduling.  The timer interrupt (K/sys/timer, K/driver/time) expires
      deadlines kept in a heap, wakes the processes of K/sys/proc and rearms a one-shot
      timer; the scheduler picks the next process; both run under the guards of
      K/sys/preempt.rs and the locks and wait queues of K/utils/sync.rs.
    - Memory.  Physical memory is a bitmap of frames (K/sys/memory).
    - Storage.  Disks (K/driver/disk) carry a partition table and one of TwilightFS, FAT32,
      FAT16 and ISO 9660 (K/sys/fs); an initial RAM file system is unpacked from a cpio
      archive; the virtual file system routes a path to the file system mounted there.
    - Communication.  Pipes, memory files and local sockets, and the system calls that wait
      on them or on the clock: poll, select, nanosleep.
    - Console.  Keys go through a line discipline; output goes through escape sequences to
      a terminal drawn on a framebuffer (K/sys/console, K/sys/framebuffer).
    - User space.  twinit, the first process, reads service files, supervises services,
      hands out connections and answers twinitctl; twilogd keeps the log.

    ** Files and what they model

    Common:
    - [Prelude]: machine integers, results and panics, a state and error monad, the
      tactics, the hint database [twilight], generic lemmas.  [Bytes]: little-endian
      integers, slices, [copy_from_slice].  [Text], [Utf]: strings of bytes, paths, UTF-8
      and UTF-16.  [UserText]: strings of characters, for the user programs.

    Time, scheduling, memory:
    - [TimerQueue]: K/sys/timer/queue.rs.  [Preempt]: K/sys/preempt.rs.  [Sched]: the
      scheduling, signal and descriptor parts of K/sys/proc/mod.rs.
    - [Kernel]: one record for the statics shared by K/sys/timer/mod.rs, clockevent.rs,
      utils/sync.rs and the scheduler; expiry, deferred expiry, rearming, ticks, blocking,
      waking, signals, exit.  [KernelFacts] has its frame lemmas, [Timer] its theorems.
    - [Bitmap]: K/utils/bitmap.rs.  [FrameAlloc]: K/sys/memory/bitmap.rs and phys.rs.
    - [Rtc]: K/driver/timer/cmos.rs.  [TimeCalls]: K/sys/syscall/time.rs, with the checks of
      user pointers of utils.rs.

    Storage:
    - [BlockDev]: K/driver/disk/mod.rs.  The trait [BlockDeviceIO] is a class; memory,
      dummy and handle devices, partitions, the ATA cache and the file-backed device are
      its instances or operations.  [BlockDevSpec]: the laws of a device as classes
      ([LawfulDev], [AtomicDev], [ReliableDev]) against abstract block contents, with an
      instance per device; clients are proved against the classes.  [FileDevSpec]: the
      file-backed device.  [Partition]: K/sys/fs/partition.rs and mbr.rs.
    - TwilightFS, K/sys/fs/twilight_fs: [TfsBlock] blocks and superblock, [TfsAlloc] the
      two maps, [TfsInode] inodes, [TfsCache] caches, [TfsDir] directories, [TfsFile] whole
      files, [TfsPath] paths, [TfsNode] open files, [TfsFs] the mounted file system.
      [TfsVolume] is the abstract volume a device holds, [TfsZones], [TfsNodeSpec],
      [TfsWriteSpec], [TfsReadSpec], [TfsContents], [TfsOpenFile] and [TfsPathSpec] prove
      against it, [TfsFindings] has runs that go wrong.
    - FAT, K/sys/fs/fat32 and fat16: [FatNames] and [FatNamesSpec] names and directory
      entries; [Fat32] the formatter; [Fat32Mount] a mounted volume; [Fat32Size],
      [Fat32Tree], [Fat32Prepare], [Fat32Dir], [Fat32Write], [Fat32Volume], [Fat32Image],
      [Fat32Read] and [Fat32Chain] lead to [Fat32Spec];
      [Fat16], [Fat16Spec].
    - [Iso9660], [Iso9660Spec]: K/sys/fs/iso9660.  [Vfs]: K/sys/fs/vfs.rs, its traits as
      classes.  [Cpio], [RamFs], [Initramfs]: K/sys/fs/ram_fs.

    Communication:
    - [MemFd]: K/sys/fs/memfd.rs, over an interface of frames that the bitmap allocator
      implements.  [WaitQueue]: the wait queues of K/utils/sync.rs.  [Pipe], [PipeSpec]:
      K/sys/fs/pipe.rs, with the tasks of a pipe as a transition system.
    - [UnixSocket], [UnixSpec]: K/sys/net/socket/unix.rs, over a store of sockets and
      connections.  [PollCalls], [PollSpec]: K/sys/syscall/poll.rs.

    Console:
    - [LineDisc]: the input half of K/sys/console/tty.rs.  [Tty]: its output
      half, over a class of terminals.  [Font]: font.rs.  [Framebuffer]:
      K/sys/framebuffer/mod.rs.  [FbTerm]: K/sys/console/framebuffer.rs.
      [Canvas]: the reference terminal.  [ConsoleSpec]: the two compared.

    User space:
    - [TwinitConfig]: A/twinit/src/config.rs and main.rs.
      [TwinitService]: service.rs.  [TwinitBroker]: bootstrap.rs, control.rs and the turns
      of the supervisor.  [TwinitCtl]: protocol.rs and A/twinitctl.  [Twilogd]: A/twilogd.
      [TwinitSpec]: the theorems on runs of twinit.

    ** What the theorems show

    - Timer: the interrupt batch and the deferred drain wake exactly the live due waits, in
      order, and leave none, at moments when dropping a guard does not switch tasks ([Timer]
      has a run where it does); a sleep is published and armed atomically; the hardware is
      programmed for the earliest deadline; the heap refines a bag; tokens never repeat;
      guards nest; selection is round-robin and one process runs.
    - Memory: single, contiguous and bounded allocation return free frames, mark exactly
      those, and fail only when there are none; release is the inverse.
    - Disks: a partition never touches a block outside it; runs of operations through the
      ATA cache are those of a plain disk.
    - TwilightFS: the layout covers its maps and fits; superblock and inodes survive the
      round trip; allocation takes the lowest free zones; an open file is an array of bytes
      under any sequence of reads, writes and truncations, and a write leaves the other
      files alone; path resolution ends; caches are bounded and coherent.  The theorems on
      open files hold on the geometry of any volume the code formats
      ([TfsVolume.formatted_geometry]) and for inodes whose block lies before the data
      zones: the formatter makes the table too short for the last ones.
    - FAT32: what the formatter is asked for is what the mounted volume holds, and nothing
      else, for names whose characters take one UTF-16 unit; directories are decided on any
      disk.  ISO 9660: a disc without supplementary descriptors is read as the tree it
      holds, and one with such a descriptor is refused.  The RAM file system and the archive
      reader refine a tree of files; a RAM file that cannot grow panics.
    - Pipes: over every interleaving of their tasks, bytes come out in order and no wake-up
      is lost.  Local sockets: the two ends of a connection exchange exactly the bytes and
      files sent, and when one closes the other receives the rest and then the end.  poll and select report a scan of the
      descriptors, or the end of the time or a signal; a sleep ends when it should.
    - Console: a canonical read whose buffer the line never fills returns the line as
      edited, and the screen shows it while it
      is typed; the pixels are those of a reference terminal that interprets the bytes
      written, one at a time.
    - User space: a service file means the service it describes, whatever its layout; the
      services of a run are in a consistent state and restart at a bounded rate; every
      client is told one thing and in time, or left without a word only when it could not
      be read or written to, and connected only if the policy lets it; the log holds the
      lines the services wrote, cut at the size of a datagram; twinitctl prints what twinit
      knows.
    - Where the code falls short the shortcoming is a theorem too, under the heading Defects
      of the file concerned or in [TfsFindings].

    ** Conventions, bounds and fuel

    A machine integer is a [Z] with the wrap written where the source computes at a fixed
    width (the kernel is a release build); an index is a [nat]; a byte is a [Z] below 256.
    A panic is [None] or [Panic].  Errors keep the state reached before the early return.
    An object behind an [Arc] that is shared is a number into a store.

    Loops that are not structural take fuel: the heap loops the length of the heap, the
    deferred drain the number of queued waits, [read_exact] the number of bytes, a walk
    along a FAT32 chain the bound of the source; their specifications conclude a result, so
    the fuel is enough.  The FAT16 loops and the search for a table size have no bound in
    the source: there running out of fuel is a value of its own, and the theorems say when
    it is reached with every fuel.  A call that sleeps takes the list of what wakes it, and
    [None] is a call that still sleeps after it.

    Hypotheses are what the code relies on elsewhere: the clock, the allocator, what other
    tasks do while one is switched out, the raw drive ([LawfulDev] and its companions),
    [VfsNode::read] of a file system, the answers of the system calls of a user program.
    The heap decides in two places whether memory is granted: the reservation of the timer
    queue, and the contents of a RAM file, whose length a process chooses ([VecHeap]).  Other
    allocations are taken to succeed.
    Each theorem with hypotheses is followed by a lemma that applies it at a concrete input.

    ** What is not modelled

    - Hardware: arch, ACPI, PCI, USB, network, sound and input drivers, the raw disk
      drivers, and the FreeBSD driver layer.  They are device registers, interrupts and raw
      pointers.
    - Page tables, process images, exec and context switches: entries of a third-party crate,
      assembly and register frames.  The heap is a third-party allocator.
    - TCP and UDP sockets: a third-party stack does the work.
    - procfs and devfs: text views of kernel state and dispatch to drivers.  The entry of
      system calls: the decoding of arguments around operations that are modelled.
    - Mounting at boot, the installer, the boot order and the boot animations.
    - Of twinit, the descriptors of a child before exec; the compositor and the other user
      programs; the host tools that build images.
    - Of TwilightFS, the proofs leave out encrypted files and files past the single-indirect
      block; the definitions have them. *)

From Stdlib Require Export ZArith Lia Bool.
From Stdlib Require Export Sorted Permutation.
From stdpp Require Export base numbers list gmap strings.

#[export] Set Default Goal Selector "!".
#[global] Open Scope Z_scope.
#[global] Open Scope list_scope.

Declare Scope twilight_scope.
Delimit Scope twilight_scope with tw.

(** ** Machine integers

    A [w]-bit unsigned integer is a [Z] in [[0, 2^w)].  The kernel is built with
    the release profile, so arithmetic wraps; [wrap] is written at the places
    where the source computes at a fixed width. *)

Definition wrap (w z : Z) : Z := z mod 2 ^ w.
Definition in_width (w z : Z) : Prop := 0 <= z < 2 ^ w.

Abbreviation u8 := (wrap 8).
Abbreviation u16 := (wrap 16).
Abbreviation u32 := (wrap 32).
Abbreviation u64 := (wrap 64).
Abbreviation usize := (wrap 64).

Definition U8_MAX : Z := 2 ^ 8 - 1.
Definition U32_MAX : Z := 2 ^ 32 - 1.
Definition U64_MAX : Z := 2 ^ 64 - 1.
Definition ISIZE_MAX : Z := 2 ^ 63 - 1.

(** Rust's [saturating_sub] on unsigned integers. *)
Definition saturating_sub (a b : Z) : Z := Z.max 0 (a - b).

(** Rust's [saturating_add] on [u64]/[usize]. *)
Definition saturating_add (a b : Z) : Z := Z.min U64_MAX (a + b).

(** Rust's [checked_add] on [usize]. *)
Definition checked_add (a b : Z) : option Z :=
  if a + b <=? U64_MAX then Some (a + b) else None.

(** Rust's [checked_mul] on [usize]. *)
Definition checked_mul (a b : Z) : option Z :=
  if a * b <=? U64_MAX then Some (a * b) else None.

(** ** Results, errors and panics

    [Ok]/[Err] are Rust's [Result]; [Panic] is an unwinding (here: aborting)
    failure such as an out-of-range index or [unwrap] on an error. *)

Inductive res (E A : Type) : Type :=
| Ok (a : A)
| Err (e : E)
| Panic.
Arguments Ok {E A} a.
Arguments Err {E A} e.
Arguments Panic {E A}.

(** A computation over a mutable state: the state is threaded through errors,
    because the effects made before an early return persist. *)
Definition M (S E A : Type) : Type := S -> res E A * S.

Definition retM {S E A} (a : A) : M S E A := fun s => (Ok a, s).
Definition failM {S E A} (e : E) : M S E A := fun s => (Err e, s).
Definition panicM {S E A} : M S E A := fun s => (Panic, s).
Definition bindM {S E A B} (m : M S E A) (k : A -> M S E B) : M S E B :=
  fun s => match m s with
           | (Ok a, s') => k a s'
           | (Err e, s') => (Err e, s')
           | (Panic, s') => (Panic, s')
           end.
Definition getM {S E} : M S E S := fun s => (Ok s, s).
Definition putM {S E} (s : S) : M S E unit := fun _ => (Ok tt, s).
Definition modifyM {S E} (f : S -> S) : M S E unit := fun s => (Ok tt, f s).
(** [m.map_err(f)]. *)
Definition map_errM {S E E' A} (f : E -> E') (m : M S E A) : M S E' A :=
  fun s => match m s with
           | (Ok a, s') => (Ok a, s')
           | (Err e, s') => (Err (f e), s')
           | (Panic, s') => (Panic, s')
           end.
(** [m.unwrap()]. *)
Definition unwrapM {S E E' A} (m : M S E A) : M S E' A :=
  fun s => match m s with
           | (Ok a, s') => (Ok a, s')
           | (_, s') => (Panic, s')
           end.
(** [match m { Ok(a) => Some(a), Err(_) => None }]. *)
Definition okM {S E E' A} (m : M S E A) : M S E' (option A) :=
  fun s => match m s with
           | (Ok a, s') => (Ok (Some a), s')
           | (Err _, s') => (Ok None, s')
           | (Panic, s') => (Panic, s')
           end.

Notation "x <-- m ;; k" := (bindM m (fun x => k))
  (at level 80, m at level 79, right associativity) : twilight_scope.
Notation "m >>> k" := (bindM m (fun _ => k))
  (at level 80, right associativity) : twilight_scope.

(** ** Proof automation *)

Ltac deex :=
  repeat match goal with
         | H : exists x, _ |- _ => let x' := fresh x in destruct H as [x' H]
         | H : _ /\ _ |- _ => destruct H
         end.

(** Turn the boolean tests of the code into propositions. *)
Ltac bool_to_prop :=
  repeat match goal with
         | H : (_ <? _) = true |- _ => apply Z.ltb_lt in H
         | H : (_ <? _) = false |- _ => apply Z.ltb_ge in H
         | H : (_ <=? _) = true |- _ => apply Z.leb_le in H
         | H : (_ <=? _) = false |- _ => apply Z.leb_gt in H
         | H : (_ =? _) = true |- _ => apply Z.eqb_eq in H
         | H : (_ =? _) = false |- _ => apply Z.eqb_neq in H
         | H : (_ <? _)%nat = true |- _ => apply Nat.ltb_lt in H
         | H : (_ <? _)%nat = false |- _ => apply Nat.ltb_ge in H
         | H : (_ <=? _)%nat = true |- _ => apply Nat.leb_le in H
         | H : (_ <=? _)%nat = false |- _ => apply Nat.leb_gt in H
         | H : (_ =? _)%nat = true |- _ => apply Nat.eqb_eq in H
         | H : (_ =? _)%nat = false |- _ => apply Nat.eqb_neq in H
         | H : _ && _ = true |- _ => apply andb_true_iff in H as [? ?]
         | H : _ || _ = false |- _ => apply orb_false_iff in H as [? ?]
         | H : negb _ = true |- _ => apply negb_true_iff in H
         | H : negb _ = false |- _ => apply negb_false_iff in H
         end.

(** Case analysis on the next test in the goal or a hypothesis. *)
Ltac case_if :=
  match goal with
  | |- context [if ?b then _ else _] => destruct b eqn:?
  | H : context [if ?b then _ else _] |- _ => destruct b eqn:?
  end; bool_to_prop.

Create HintDb twilight.

(** ** Sequencing *)

Lemma bindM_inv {S E A B} (m : M S E A) (k : A -> M S E B) s r s' :
  bindM m k s = (r, s') -> r <> Panic ->
  (exists a s1, m s = (Ok a, s1) /\ k a s1 = (r, s')) \/
  (exists e, m s = (Err e, s') /\ r = Err e).
Proof. unfold bindM. destruct (m s) as [[a|e|] s1]; intros ??; simplify_eq; eauto 10. Qed.

Lemma bindM_ok {S E A B} (m : M S E A) (k : A -> M S E B) s a s1 :
  m s = (Ok a, s1) -> bindM m k s = k a s1.
Proof. unfold bindM. by intros ->. Qed.

(** ** Bits *)

Lemma Z_land_le_l a b : 0 <= a -> Z.land a b <= a.
Proof.
  intros Ha. apply Z.ldiff_le; [done|]. apply Z.bits_inj'. intros i _.
  rewrite Z.ldiff_spec, Z.land_spec, Z.bits_0. by destruct (Z.testbit a i), (Z.testbit b i).
Qed.

(** ** Lists *)

Lemma filter_none {A} (P : A -> Prop) `{!forall x, Decision (P x)} (l : list A) :
  Forall (fun x => ~ P x) l -> filter P l = [].
Proof. induction 1 as [|x l Hx _ IH]; [done|]. by rewrite filter_cons_False. Qed.

Lemma filter_all {A} (P : A -> Prop) `{!forall x, Decision (P x)} (l : list A) :
  Forall P l -> filter P l = l.
Proof. induction 1 as [|x l Hx _ IH]; [done|]. by rewrite filter_cons_True, IH. Qed.

Lemma alter_insert {A} (f : A -> A) (l : list A) (i : nat) (x : A) :
  l !! i = Some x -> alter f i l = <[i := f x]> l.
Proof. revert i. induction l; intros [|i] ?; simplify_eq/=; f_equal; auto. Qed.

#[export] Hint Resolve filter_none filter_all : twilight.
