(* ===== verification/Bytes.v ===== *)
(** * Byte buffers

    Little-endian integers ([to_le_bytes], [from_le_bytes]), sub-slices and
    [copy_from_slice], which the on-disk formats are made of.  A byte is a [Z]
    below 256. *)

From Stdlib Require Import ZifyBool.
From S2P Require Import Prelude.

Definition is_byte (b : Z) : bool := (0 <=? b) && (b <? 256).
Abbreviation bytes := (Forall (fun b => is_byte b = true)).

(** ** Little-endian integers *)

Fixpoint to_le (n : nat) (v : Z) : list Z :=
  match n with O => [] | S n => v mod 256 :: to_le n (v / 256) end.
Fixpoint from_le (bs : list Z) : Z :=
  match bs with [] => 0 | b :: bs => b + 256 * from_le bs end.

Lemma to_le_length n v : length (to_le n v) = n.
Proof. revert v. induction n; intros v; cbn; auto. Qed.

Lemma to_le_bytes n v : bytes (to_le n v).
Proof.
  revert v. induction n as [|n IH]; intros v; cbn [to_le]; constructor; [|apply IH].
  unfold is_byte. pose proof (Z.mod_pos_bound v 256). lia.
Qed.

Lemma from_to_le n v : 0 <= v < 256 ^ Z.of_nat n -> from_le (to_le n v) = v.
Proof.
  revert v. induction n as [|n IH]; intros v Hv; cbn [to_le from_le].
  - change (256 ^ Z.of_nat 0) with 1 in Hv. lia.
  - rewrite Nat2Z.inj_succ, Z.pow_succ_r in Hv by lia.
    rewrite IH; [pose proof (Z.div_mod v 256); lia|].
    split; [apply Z.div_pos; lia|]. apply Z.div_lt_upper_bound; lia.
Qed.

Lemma to_from_le bs : bytes bs -> to_le (length bs) (from_le bs) = bs.
Proof.
  induction 1 as [|b bs Hb Hbs IH]; [done|]. cbn [length to_le from_le]. unfold is_byte in Hb.
  f_equal.
  - rewrite Z.mul_comm, Z_mod_plus_full. apply Z.mod_small. lia.
  - replace ((b + 256 * from_le bs) / 256) with (from_le bs); [exact IH|].
    rewrite Z.mul_comm, Z_div_plus_full, Z.div_small by lia. lia.
Qed.

Lemma from_le_bound bs : bytes bs -> 0 <= from_le bs < 256 ^ Z.of_nat (length bs).
Proof.
  induction 1 as [|b bs Hb Hbs IH]; cbn [length from_le]; [done|].
  rewrite Nat2Z.inj_succ, Z.pow_succ_r by lia. unfold is_byte in Hb. lia.
Qed.

(** ** [&buf[off..off + n]] and [buf[off..off + src.len()].copy_from_slice(src)] *)

Definition load (off n : nat) (l : list Z) : list Z := take n (drop off l).
Definition store (off : nat) (src l : list Z) : list Z :=
  take off l ++ src ++ drop (off + length src) l.

Lemma load_length off n l : (off + n <= length l)%nat -> length (load off n l) = n.
Proof. intros. unfold load. rewrite length_take, length_drop. lia. Qed.

Lemma load_bytes off n l : bytes l -> bytes (load off n l).
Proof. intros. by apply Forall_take, Forall_drop. Qed.

Lemma store_length off src l : (off + length src <= length l)%nat -> length (store off src l) = length l.
Proof. intros. unfold store. rewrite !length_app, length_take, length_drop. lia. Qed.

Lemma store_bytes off src l : bytes src -> bytes l -> bytes (store off src l).
Proof. intros. unfold store. rewrite !Forall_app. auto using Forall_take, Forall_drop. Qed.

Lemma store_lookup (off : nat) (src l : list Z) (i : nat) : (off + length src <= length l)%nat ->
  store off src l !! i = if (off <=? i)%nat && (i <? off + length src)%nat then src !! (i - off)%nat else l !! i.
Proof.
  intros H. unfold store. destruct (off <=? i)%nat eqn:E1; cbn [andb].
  - rewrite lookup_app_r by (rewrite length_take; lia). rewrite length_take, Nat.min_l by lia.
    destruct (i <? off + length src)%nat eqn:E2; [by rewrite lookup_app_l by lia|].
    rewrite lookup_app_r by lia. rewrite lookup_drop. f_equal. lia.
  - rewrite lookup_app_l by (rewrite length_take; lia). by rewrite lookup_take_lt by lia.
Qed.

(** Reading inside what was stored. *)
Lemma load_store_in off i n src l :
  (off + length src <= length l)%nat -> (i + n <= length src)%nat ->
  load (off + i) n (store off src l) = load i n src.
Proof.
  intros Hl Hi. unfold load, store. rewrite drop_app_ge by (rewrite length_take; lia).
  replace (off + i - length (take off l))%nat with i by (rewrite length_take; lia).
  rewrite drop_app_le by lia. apply take_app_le. rewrite length_drop. lia.
Qed.

(** Reading before or after it. *)
Lemma load_store_before off i n src l :
  (i + n <= off)%nat -> (off <= length l)%nat -> load i n (store off src l) = load i n l.
Proof.
  intros Hi Hl. unfold load, store. rewrite drop_app_le by (rewrite length_take; lia).
  rewrite take_app_le by (rewrite length_drop, length_take; lia).
  rewrite skipn_firstn_comm, take_take. f_equal. lia.
Qed.

Lemma load_store_after off i n src l :
  (off + length src <= i)%nat -> (off + length src <= length l)%nat ->
  load i n (store off src l) = load i n l.
Proof.
  intros Hi Hl. unfold load, store. rewrite app_assoc, drop_app_ge by (rewrite length_app, length_take; lia).
  rewrite length_app, length_take, drop_drop. do 2 f_equal. lia.
Qed.

(** Two adjacent stores are one. *)
Lemma store_app off off' a b l :
  off' = (off + length a)%nat -> (off + length a + length b <= length l)%nat ->
  store off' b (store off a l) = store off (a ++ b) l.
Proof.
  intros -> Hl. unfold store.
  rewrite (take_app_ge (take off l)) by (rewrite length_take; lia).
  rewrite length_take, (take_app_le a) by lia.
  rewrite (drop_app_ge (take off l)) by (rewrite length_take; lia).
  rewrite length_take, (drop_app_ge a) by lia.
  rewrite drop_drop, (take_ge a) by lia. rewrite <- !app_assoc, length_app. do 4 f_equal. lia.
Qed.

(** Storing what is there changes nothing. *)
Lemma store_load off n l : (off + n <= length l)%nat -> store off (load off n l) l = l.
Proof.
  intros Hl. unfold store. rewrite load_length by lia. unfold load.
  rewrite <- (drop_drop l n off). by rewrite take_drop, take_drop.
Qed.

Lemma load_app off n m l : load off n l ++ load (off + n) m l = load off (n + m) l.
Proof. unfold load. by rewrite <- (drop_drop l n off), take_take_drop. Qed.

Lemma load_load i n x m l : (i + n <= m)%nat -> load i n (load x m l) = load (x + i) n l.
Proof. intros Hi. unfold load. rewrite skipn_firstn_comm, take_take, drop_drop. f_equal. lia. Qed.

(** A field of a record laid out as the concatenation of its fields. *)
Lemma load_concat off n pre f post :
  length (concat pre) = off -> length f = n -> load off n (concat (pre ++ f :: post)) = f.
Proof.
  intros <- <-. unfold load. rewrite concat_app. cbn [concat].
  by rewrite drop_app_length, take_app_length.
Qed.

(** ** Byte vectors that grow *)

(** [data.resize(len, 0)]. *)
Definition resize_zero (len : nat) (data : list Z) : list Z :=
  take len data ++ replicate (len - length data) 0.

(** The contents after [src] is written at [off]: a gap is filled with zeros. *)
Definition overlay (off : nat) (src d : list Z) : list Z :=
  take off (d ++ replicate (off - length d) 0) ++ src ++ drop (off + length src) d.

Lemma write_overlay off src d :
  store off src (if Z.of_nat (length d) <? Z.of_nat (off + length src)
                 then resize_zero (off + length src) d else d) = overlay off src d.
Proof.
  unfold store, overlay, resize_zero. destruct (Z.ltb_spec (Z.of_nat (length d)) (Z.of_nat (off + length src))).
  - rewrite (take_ge d) by lia. f_equal; [|f_equal].
    + rewrite !take_app, !take_replicate. do 2 f_equal. lia.
    + rewrite (drop_ge d) by lia. apply drop_ge. rewrite length_app, length_replicate. lia.
  - f_equal. rewrite take_app_le by lia. done.
Qed.

(** ** Buffers made of blocks of one size *)

Section blocks.
Context (n : nat).
Implicit Types (ls : list (list Z)).

Lemma concat_blocks_length ls :
  Forall (fun b => length b = n) ls -> length (concat ls) = (length ls * n)%nat.
Proof. induction 1 as [|b ls Hb _ IH]; cbn; [done|]. rewrite length_app, IH. lia. Qed.

Lemma concat_blocks_split ls i b :
  Forall (fun b => length b = n) ls -> ls !! i = Some b ->
  exists l1 l2, concat ls = l1 ++ b ++ l2 /\ length l1 = (i * n)%nat /\ length b = n /\
    forall b', concat (<[i := b']> ls) = l1 ++ b' ++ l2.
Proof.
  intros Hls Hi. pose proof (proj1 (Forall_lookup _ _) Hls _ _ Hi) as Hb.
  exists (concat (take i ls)), (concat (drop (S i) ls)).
  rewrite <- (take_drop_middle ls i b Hi) at 1. rewrite concat_app. split; [done|].
  pose proof (lookup_lt_Some _ _ _ Hi) as Hlt.
  split; [rewrite concat_blocks_length by (by apply Forall_take); rewrite length_take; lia|].
  split; [done|]. intros b'. rewrite insert_take_drop by done. by rewrite concat_app.
Qed.

Lemma load_concat_block ls i b o c :
  Forall (fun b => length b = n) ls -> ls !! i = Some b -> (o + c <= n)%nat ->
  load o c b = load (i * n + o) c (concat ls).
Proof.
  intros Hls Hi Ho. destruct (concat_blocks_split ls i b Hls Hi) as (l1 & l2 & -> & H1 & Hb & _).
  unfold load. rewrite <- H1, <- drop_drop, drop_app_length.
  rewrite drop_app_le by lia. rewrite take_app_le by (rewrite length_drop; lia). done.
Qed.

Lemma store_concat_block ls i b o src :
  Forall (fun b => length b = n) ls -> ls !! i = Some b -> (o + length src <= n)%nat ->
  concat (<[i := store o src b]> ls) = store (i * n + o) src (concat ls).
Proof.
  intros Hls Hi Ho. destruct (concat_blocks_split ls i b Hls Hi) as (l1 & l2 & -> & H1 & Hb & ->).
  unfold store. rewrite <- H1. rewrite (take_app_ge l1) by lia.
  replace (length l1 + o - length l1)%nat with o by lia. rewrite (take_app_le b) by lia.
  rewrite (drop_app_ge l1) by lia.
  replace (length l1 + o + length src - length l1)%nat with (o + length src)%nat by lia.
  rewrite (drop_app_le b) by lia. by rewrite <- !app_assoc.
Qed.
End blocks.
