(* ===== verification/Text.v ===== *)
(** * Strings and paths

    What the kernel uses of Rust's [str]: bytes and UTF-8 validation, [split],
    [trim_matches], [join] and prefixes.  A [str] is a [string] of bytes. *)

From Stdlib Require Import Ascii ZifyBool.
From S2P Require Import Prelude Bytes.

(** ** Bytes of a string *)

Definition byte_of_ascii (c : ascii) : Z := Z.of_N (N_of_ascii c).
Definition ascii_of_byte (b : Z) : ascii := ascii_of_N (Z.to_N b).

Fixpoint as_bytes (s : string) : list Z :=
  match s with EmptyString => [] | String c s => byte_of_ascii c :: as_bytes s end.
Fixpoint of_bytes (l : list Z) : string :=
  match l with [] => EmptyString | b :: l => String (ascii_of_byte b) (of_bytes l) end.
Definition slen (s : string) : nat := length (as_bytes s).

Definition in_range (lo hi b : Z) : bool := (lo <=? b) && (b <=? hi).
Definition is_cont : Z -> bool := in_range 128 191.

(** [core::str::from_utf8]: well-formed UTF-8 has no overlong form, no surrogate
    and nothing above U+10FFFF. *)
Fixpoint utf8_valid (l : list Z) : bool :=
  match l with
  | [] => true
  | b0 :: l0 =>
    if in_range 0 127 b0 then utf8_valid l0
    else match l0 with
    | [] => false
    | b1 :: l1 =>
      if in_range 194 223 b0 then is_cont b1 && utf8_valid l1
      else match l1 with
      | [] => false
      | b2 :: l2 =>
        if (b0 =? 224) && in_range 160 191 b1
           || (in_range 225 236 b0 || in_range 238 239 b0) && is_cont b1
           || (b0 =? 237) && in_range 128 159 b1
        then is_cont b2 && utf8_valid l2
        else match l2 with
        | [] => false
        | b3 :: l3 =>
          if (b0 =? 240) && in_range 144 191 b1
             || in_range 241 243 b0 && is_cont b1
             || (b0 =? 244) && in_range 128 143 b1
          then is_cont b2 && is_cont b3 && utf8_valid l3
          else false
        end
      end
    end
  end.

Definition from_utf8 (l : list Z) : option string :=
  if utf8_valid l then Some (of_bytes l) else None.

(** ** Splitting, joining, trimming *)

Definition slash : ascii := "/"%char.

(** [s.split(c)]: always at least one piece. *)
Fixpoint split (c : ascii) (s : string) : list string :=
  match s with
  | EmptyString => [EmptyString]
  | String a s' =>
    if Ascii.eqb a c then EmptyString :: split c s'
    else match split c s' with
         | [] => [String a EmptyString]
         | p :: ps => String a p :: ps
         end
  end.

Definition is_empty (s : string) : bool := match s with EmptyString => true | _ => false end.

(** [path.split('/').filter(|c| !c.is_empty())]. *)
Definition components (path : string) : list string :=
  filter (fun s => is_empty s = false) (split slash path).

(** [parts.join(sep)]. *)
Fixpoint join (sep : string) (parts : list string) : string :=
  match parts with
  | [] => EmptyString
  | [p] => p
  | p :: ps => p +:+ sep +:+ join sep ps
  end.

Fixpoint trim_start_matches (c : ascii) (s : string) : string :=
  match s with
  | String a s' => if Ascii.eqb a c then trim_start_matches c s' else s
  | EmptyString => EmptyString
  end.
Fixpoint trim_end_matches (c : ascii) (s : string) : string :=
  match s with
  | EmptyString => EmptyString
  | String a s' =>
    let t := trim_end_matches c s' in
    if is_empty t && Ascii.eqb a c then EmptyString else String a t
  end.
Definition trim_matches (c : ascii) (s : string) : string :=
  trim_end_matches c (trim_start_matches c s).

Fixpoint contains (c : ascii) (s : string) : bool :=
  match s with EmptyString => false | String a s => Ascii.eqb a c || contains c s end.

(** The rest of [s] after [prefix], if it starts with it. *)
Fixpoint strip_prefix (prefix s : string) : option string :=
  match prefix, s with
  | EmptyString, _ => Some s
  | String a prefix, String b s => if Ascii.eqb a b then strip_prefix prefix s else None
  | String _ _, EmptyString => None
  end.
Definition starts_with (s prefix : string) : bool :=
  match strip_prefix prefix s with Some _ => true | None => false end.

(** [&s[n..]]; the callers cut at the end of a matched prefix. *)
Fixpoint slice_from (n : nat) (s : string) : string :=
  match n, s with
  | O, _ => s
  | S n, String _ s => slice_from n s
  | S _, EmptyString => EmptyString
  end.

(** A path component: not empty, no slash. *)
Definition plain (s : string) : bool := negb (is_empty s) && negb (contains slash s).

(** ** Lemmas *)

Lemma byte_ascii c : ascii_of_byte (byte_of_ascii c) = c.
Proof. unfold ascii_of_byte, byte_of_ascii. by rewrite N2Z.id, ascii_N_embedding. Qed.

Lemma ascii_byte b : is_byte b = true -> byte_of_ascii (ascii_of_byte b) = b.
Proof.
  unfold is_byte, ascii_of_byte, byte_of_ascii. intros H.
  rewrite N_ascii_embedding by lia. lia.
Qed.

Lemma of_as_bytes s : of_bytes (as_bytes s) = s.
Proof. induction s as [|c s IH]; cbn; [done|]. by rewrite byte_ascii, IH. Qed.

Lemma as_of_bytes l : bytes l -> as_bytes (of_bytes l) = l.
Proof. induction 1 as [|b l Hb _ IH]; cbn; [done|]. by rewrite ascii_byte, IH. Qed.

Lemma byte_of_ascii_byte c : is_byte (byte_of_ascii c) = true.
Proof. unfold is_byte, byte_of_ascii. pose proof (N_ascii_bounded c). lia. Qed.

Lemma as_bytes_bytes s : bytes (as_bytes s).
Proof. induction s; constructor; auto using byte_of_ascii_byte. Qed.

Lemma append_cons c s t : String c s +:+ t = String c (s +:+ t).
Proof. done. Qed.

Lemma as_bytes_app s t : as_bytes (s +:+ t) = as_bytes s ++ as_bytes t.
Proof. induction s as [|c s IH]; [done|]. rewrite append_cons. cbn. by rewrite IH. Qed.

Lemma as_bytes_inj s t : as_bytes s = as_bytes t -> s = t.
Proof. intros H. by rewrite <- (of_as_bytes s), H, of_as_bytes. Qed.

Lemma append_nil_r s : s +:+ "" = s.
Proof. induction s as [|c s IH]; [done|]. by rewrite append_cons, IH. Qed.

Lemma append_assoc s t u : (s +:+ t) +:+ u = s +:+ t +:+ u.
Proof. induction s as [|c s IH]; [done|]. by rewrite !append_cons, IH. Qed.

Lemma strip_prefix_spec p s r : strip_prefix p s = Some r <-> s = p +:+ r.
Proof.
  revert s. induction p as [|a p IH]; intros s; cbn.
  - split; [by intros [= ->]|by intros ->].
  - destruct s as [|b s]; [split; [done|discriminate]|].
    destruct (Ascii.eqb_spec a b) as [<-|Hab].
    + rewrite IH. split; [intros ->; done|by intros [= ->]].
    + split; [done|]. intros [= Hb _]. congruence.
Qed.

Lemma starts_with_spec s p : starts_with s p = true <-> exists r, s = p +:+ r.
Proof.
  unfold starts_with. split.
  - destruct (strip_prefix p s) as [r|] eqn:H; [|done]. apply strip_prefix_spec in H. eauto.
  - intros [r H]. apply strip_prefix_spec in H. by rewrite H.
Qed.

Lemma slice_from_app p r : slice_from (slen p) (p +:+ r) = r.
Proof. induction p as [|a p IH]; [done|exact IH]. Qed.

Lemma split_nonempty c s : split c s <> [].
Proof. destruct s; cbn; [done|]. case_match; [done|]. by case_match. Qed.

Lemma split_no c s : contains c s = false -> split c s = [s].
Proof.
  induction s as [|a s IH]; cbn; [done|]. intros [-> H]%orb_false_iff. by rewrite IH.
Qed.

(** The pieces up to a separator and those after it. *)
Lemma split_app_sep c s t : split c (s +:+ String c t) = split c s ++ split c t.
Proof.
  induction s as [|a s IH].
  - change (EmptyString +:+ String c t) with (String c t). cbn. by rewrite Ascii.eqb_refl.
  - rewrite append_cons. cbn [split]. rewrite IH.
    case_match; [done|]. pose proof (split_nonempty c s). by destruct (split c s).
Qed.

Lemma components_sep s t :
  components (s +:+ String slash t) = components s ++ components t.
Proof. unfold components. by rewrite split_app_sep, filter_app. Qed.

Lemma components_slash t : components (String slash t) = components t.
Proof. exact (components_sep EmptyString t). Qed.

Lemma plain_spec s : plain s = true <-> s <> EmptyString /\ contains slash s = false.
Proof.
  unfold plain. rewrite andb_true_iff, !negb_true_iff. destruct s; cbn; intuition congruence.
Qed.

Lemma components_plain s : plain s = true -> components s = [s].
Proof.
  intros [Hne Hc]%plain_spec. unfold components. rewrite split_no by done.
  rewrite filter_cons_True; [done|]. by destruct s.
Qed.

(** Joining components and splitting again gives them back. *)
Lemma components_join cs :
  Forall (fun c => plain c = true) cs -> components (join "/" cs) = cs.
Proof.
  induction 1 as [|c cs Hc Hcs IH]; [done|]. destruct cs as [|d cs].
  - by apply components_plain.
  - change (join "/" (c :: d :: cs)) with (c +:+ String slash (join "/" (d :: cs))).
    by rewrite components_sep, IH, components_plain.
Qed.

Lemma split_pieces c s : Forall (fun p => contains c p = false) (split c s).
Proof.
  induction s as [|a s IH]; cbn; [by repeat constructor|].
  destruct (Ascii.eqb a c) eqn:E; [by constructor|].
  destruct (split c s) as [|p ps]; [repeat constructor; cbn; by rewrite E|].
  apply Forall_cons in IH as [Hp Hps]. constructor; [|done]. cbn. by rewrite E.
Qed.

Lemma components_all_plain path : Forall (fun c => plain c = true) (components path).
Proof.
  unfold components. pose proof (split_pieces slash path) as H.
  apply Forall_forall. intros c [He Hc]%list_elem_of_filter.
  rewrite Forall_forall in H. apply plain_spec. split; [by destruct c|auto].
Qed.

(** Trimming slashes does not change the components. *)
Lemma components_trim_start s : components (trim_start_matches slash s) = components s.
Proof.
  induction s as [|a s IH]; [done|]. cbn [trim_start_matches].
  destruct (Ascii.eqb_spec a slash) as [->|]; [|done]. by rewrite IH, components_slash.
Qed.

Lemma components_trim_end s : components (trim_end_matches slash s) = components s.
Proof.
  assert (forall s, exists t, s = trim_end_matches slash s +:+ t /\ components t = []
            /\ (t = EmptyString \/ exists u, t = String slash u)) as H.
  { clear s. induction s as [|a s (t & Hs & Ht & Hd)]; [by exists EmptyString; eauto|].
    cbn [trim_end_matches]. destruct (is_empty (trim_end_matches slash s)) eqn:He; cbn [andb].
    - destruct (trim_end_matches slash s); [|done]. change (EmptyString +:+ t) with t in Hs. subst t.
      destruct (Ascii.eqb_spec a slash) as [->|].
      + exists (String slash s). rewrite components_slash. eauto.
      + exists s. eauto.
    - exists t. split; [|done]. rewrite append_cons. by f_equal. }
  destruct (H s) as (t & Hs & Ht & [->|[u ->]]).
  - rewrite append_nil_r in Hs. by rewrite <- Hs.
  - rewrite Hs at 2. rewrite components_sep. rewrite components_slash in Ht.
    by rewrite Ht, app_nil_r.
Qed.

Lemma components_trim s : components (trim_matches slash s) = components s.
Proof. unfold trim_matches. by rewrite components_trim_end, components_trim_start. Qed.

#[export] Hint Resolve as_bytes_bytes components_all_plain : twilight.
