(* ===== verification/Utf.v ===== *)
(** * Characters

    What the FAT code uses of Rust's [char] and [str]: iteration over characters,
    [String::push], [encode_utf16], [char::from_u32], ASCII case, [rfind].  A
    [char] is its code point; a [str] is a [string] of UTF-8 bytes. *)

From Stdlib Require Import Ascii ZifyBool.
From S2P Require Import Prelude Bytes Text.

(** [char::from_u32]: neither a surrogate nor above U+10FFFF. *)
Definition is_scalar (c : Z) : bool := in_range 0 0xD7FF c || in_range 0xE000 0x10FFFF c.
Definition char_from_u32 (v : Z) : option Z := if is_scalar v then Some v else None.

(** The bytes [String::push] appends. *)
Definition encode_utf8 (c : Z) : list Z :=
  if c <? 0x80 then [c]
  else if c <? 0x800 then [192 + c / 64; 128 + c mod 64]
  else if c <? 0x10000 then [224 + c / 4096; 128 + c / 64 mod 64; 128 + c mod 64]
  else [240 + c / 262144; 128 + c / 4096 mod 64; 128 + c / 64 mod 64; 128 + c mod 64].

(** [s.chars()] on the bytes of a valid string. *)
Fixpoint decode_utf8 (l : list Z) : list Z :=
  match l with
  | [] => []
  | b0 :: l0 =>
    if b0 <? 128 then b0 :: decode_utf8 l0
    else match l0 with
    | [] => []
    | b1 :: l1 =>
      if b0 <? 224 then (b0 - 192) * 64 + (b1 - 128) :: decode_utf8 l1
      else match l1 with
      | [] => []
      | b2 :: l2 =>
        if b0 <? 240 then (b0 - 224) * 4096 + (b1 - 128) * 64 + (b2 - 128) :: decode_utf8 l2
        else match l2 with
        | [] => []
        | b3 :: l3 =>
          (b0 - 240) * 262144 + (b1 - 128) * 4096 + (b2 - 128) * 64 + (b3 - 128) :: decode_utf8 l3
        end
      end
    end
  end.

Definition chars (s : string) : list Z := decode_utf8 (as_bytes s).
(** [iter.collect::<String>()]. *)
Definition of_chars (cs : list Z) : string := of_bytes (concat (encode_utf8 <$> cs)).

Definition utf16_units (c : Z) : list Z :=
  if c <? 0x10000 then [c] else [0xD800 + (c - 0x10000) / 1024; 0xDC00 + (c - 0x10000) mod 1024].
(** [s.encode_utf16()]. *)
Definition encode_utf16 (s : string) : list Z := concat (utf16_units <$> chars s).

(** [to_ascii_uppercase] of a character, [eq_ignore_ascii_case] of two strings. *)
Definition ascii_upper (c : Z) : Z := if in_range 97 122 c then c - 32 else c.
Definition fold_case (s : string) : list Z := ascii_upper <$> as_bytes s.
Definition eq_ignore_ascii_case (a b : string) : bool := bool_decide (fold_case a = fold_case b).

(** The pieces around the last [c]: [s.rfind(c)] with [&s[..i]] and [&s[i + 1..]]. *)
Fixpoint rsplit_once (c : ascii) (s : string) : option (string * string) :=
  match s with
  | EmptyString => None
  | String a s' =>
    match rsplit_once c s' with
    | Some (p, q) => Some (String a p, q)
    | None => if Ascii.eqb a c then Some (EmptyString, s') else None
    end
  end.

(** [s.is_ascii()]-bounded prefixes: [s.truncate(n)] where every byte is a character. *)
Definition truncate_ascii (n : nat) (s : string) : string := of_bytes (take n (as_bytes s)).

(** ** Lemmas *)

Ltac div_lia := Z.to_euclidean_division_equations; lia.

Lemma encode_2 b0 b1 :
  194 <= b0 <= 223 -> 128 <= b1 <= 191 ->
  encode_utf8 ((b0 - 192) * 64 + (b1 - 128)) = [b0; b1] /\
  is_scalar ((b0 - 192) * 64 + (b1 - 128)) = true.
Proof.
  intros. unfold encode_utf8, is_scalar, in_range. split; [|lia].
  replace (_ <? 128) with false by lia. replace (_ <? 2048) with true by lia.
  repeat f_equal; div_lia.
Qed.

Lemma encode_3 b0 b1 b2 :
  224 <= b0 <= 239 -> 128 <= b1 <= 191 -> 128 <= b2 <= 191 ->
  (b0 = 224 -> 160 <= b1) -> (b0 = 237 -> b1 <= 159) ->
  let c := (b0 - 224) * 4096 + (b1 - 128) * 64 + (b2 - 128) in
  encode_utf8 c = [b0; b1; b2] /\ is_scalar c = true.
Proof.
  intros. unfold encode_utf8, is_scalar, in_range. split; [|lia].
  replace (c <? 128) with false by lia. replace (c <? 2048) with false by lia.
  replace (c <? 65536) with true by lia. unfold c. repeat f_equal; div_lia.
Qed.

Lemma encode_4 b0 b1 b2 b3 :
  240 <= b0 <= 244 -> 128 <= b1 <= 191 -> 128 <= b2 <= 191 -> 128 <= b3 <= 191 ->
  (b0 = 240 -> 144 <= b1) -> (b0 = 244 -> b1 <= 143) ->
  let c := (b0 - 240) * 262144 + (b1 - 128) * 4096 + (b2 - 128) * 64 + (b3 - 128) in
  encode_utf8 c = [b0; b1; b2; b3] /\ is_scalar c = true.
Proof.
  intros. unfold encode_utf8, is_scalar, in_range. split; [|lia].
  replace (c <? 128) with false by lia. replace (c <? 2048) with false by lia.
  replace (c <? 65536) with false by lia. unfold c. repeat f_equal; div_lia.
Qed.

(** Decoding and encoding again gives the bytes back; the characters are scalars. *)
Lemma decode_utf8_valid n l :
  (length l <= n)%nat -> utf8_valid l = true ->
  concat (encode_utf8 <$> decode_utf8 l) = l /\ Forall (fun c => is_scalar c = true) (decode_utf8 l).
Proof.
  revert l. induction n as [|n IH]; intros [|b0 l0] Hl; cbn [length] in Hl; try lia; try done.
  assert (Hstep : forall pre c rest, b0 :: l0 = pre ++ rest -> pre <> [] ->
    encode_utf8 c = pre /\ is_scalar c = true -> utf8_valid rest = true ->
    concat (encode_utf8 <$> c :: decode_utf8 rest) = b0 :: l0 /\
    Forall (fun c => is_scalar c = true) (c :: decode_utf8 rest)).
  { intros pre c rest Heq Hne [Hc Hs] Hr. destruct (IH rest) as [H1 H2]; [|done|].
    - apply (f_equal length) in Heq. rewrite length_app in Heq. cbn in Heq.
      destruct pre; [done|]. cbn in Heq. lia.
    - rewrite fmap_cons. cbn [concat]. rewrite H1, Hc. auto. }
  cbn [utf8_valid decode_utf8]. unfold is_cont, in_range. intros Hv.
  destruct ((0 <=? b0) && (b0 <=? 127)) eqn:H0.
  { replace (b0 <? 128) with true by lia. apply (Hstep [b0]); auto.
    unfold encode_utf8, is_scalar, in_range. replace (b0 <? 128) with true by lia. split; [done|lia]. }
  destruct l0 as [|b1 l1]; [done|].
  destruct ((194 <=? b0) && (b0 <=? 223)) eqn:H1.
  { replace (b0 <? 128) with false by lia. replace (b0 <? 224) with true by lia.
    apply andb_prop in Hv as [Hb Hv]. apply (Hstep [b0; b1]); auto. apply encode_2; lia. }
  destruct l1 as [|b2 l2]; [done|].
  match type of Hv with (if ?b then _ else _) = _ => destruct b eqn:H2 end.
  { replace (b0 <? 128) with false by lia. replace (b0 <? 224) with false by lia.
    replace (b0 <? 240) with true by lia.
    apply andb_prop in Hv as [Hb Hv]. apply (Hstep [b0; b1; b2]); auto. apply encode_3; lia. }
  destruct l2 as [|b3 l3]; [done|].
  match type of Hv with (if ?b then _ else _) = _ => destruct b eqn:H3 end; [|done].
  replace (b0 <? 128) with false by lia. replace (b0 <? 224) with false by lia.
  replace (b0 <? 240) with false by lia.
  apply andb_prop in Hv as [Hb Hv]. apply (Hstep [b0; b1; b2; b3]); auto. apply encode_4; lia.
Qed.

Definition valid_str (s : string) : Prop := utf8_valid (as_bytes s) = true.

Lemma of_chars_chars s : valid_str s -> of_chars (chars s) = s.
Proof.
  intros H. unfold of_chars, chars. destruct (decode_utf8_valid _ (as_bytes s) (le_n _) H) as [-> _].
  apply of_as_bytes.
Qed.

Lemma chars_scalar s : valid_str s -> Forall (fun c => is_scalar c = true) (chars s).
Proof. intros H. by apply (decode_utf8_valid _ (as_bytes s) (le_n _)). Qed.

Lemma of_bytes_app a b : of_bytes (a ++ b) = of_bytes a +:+ of_bytes b.
Proof. induction a as [|x a IH]; [done|]. cbn [app of_bytes]. by rewrite append_cons, IH. Qed.

Lemma of_chars_app a b : of_chars (a ++ b) = of_chars a +:+ of_chars b.
Proof. unfold of_chars. by rewrite fmap_app, concat_app, of_bytes_app. Qed.

Lemma eq_ignore_ascii_case_spec a b : eq_ignore_ascii_case a b = true <-> fold_case a = fold_case b.
Proof. unfold eq_ignore_ascii_case. apply bool_decide_eq_true. Qed.

Lemma eq_ignore_ascii_case_refl a : eq_ignore_ascii_case a a = true.
Proof. by apply eq_ignore_ascii_case_spec. Qed.
