(* ===== verification/TimerQueue.v ===== *)
(** * Deadline queue (src/kernel/twilight_kernel/src/sys/timer/queue.rs)

    The binary min-heap of outstanding waits, keyed by [(deadline_ns, token)].
    [TimerQueue] is the state, one definition per method.  An access
    [self.heap[i]] outside the heap panics; the methods that index return
    [option] with [None] for that panic.  The [while]/[loop] bodies are fixpoints
    with fuel.  The specifications below conclude [Some]: on a well-formed queue
    no index panics and the fuel is enough. *)

From S2P Require Import Prelude.

(** Globally unique identifier of one outstanding wait: a [u64] newtype. *)
Inductive WaitToken := mkWaitToken (w : Z).
Definition raw (t : WaitToken) : Z := match t with mkWaitToken w => w end.
Definition EXHAUSTED : WaitToken := mkWaitToken U64_MAX.

#[export] Instance WaitToken_eq_dec : EqDecision WaitToken.
Proof. solve_decision. Defined.

Inductive WakeReason := Deadline | Event | Signal | Cancelled.
#[export] Instance WakeReason_eq_dec : EqDecision WakeReason.
Proof. solve_decision. Defined.

Inductive DeadlineKind := Sleep | IoTimeout.
#[export] Instance DeadlineKind_eq_dec : EqDecision DeadlineKind.
Proof. solve_decision. Defined.

Record DeadlineEntry := mkEntry {
  deadline_ns : Z;
  entry_pid : Z;
  entry_token : WaitToken;
  entry_kind : DeadlineKind;
}.
#[export] Instance DeadlineEntry_eq_dec : EqDecision DeadlineEntry.
Proof. solve_decision. Defined.

(** [Vec<DeadlineEntry>] with its capacity, and the token counter. *)
Record TimerQueue := mkQueue {
  heap : list DeadlineEntry;
  capacity : nat;
  next_token_counter : Z;
}.

Definition TimerQueue_new : TimerQueue := mkQueue [] 0 1.

(** ** Tokens *)

Definition next_token (q : TimerQueue) : WaitToken * TimerQueue :=
  let t := next_token_counter q in
  if t =? U64_MAX then (EXHAUSTED, q)
  else (mkWaitToken t, mkQueue (heap q) (capacity q) (t + 1)).

(** ** Heap internals *)

(** The key of an entry, [(e.deadline_ns, e.token.raw())]. *)
Definition entry_key (e : DeadlineEntry) : Z * Z := (deadline_ns e, raw (entry_token e)).

(** Rust's lexicographic [<] on pairs. *)
Definition key_ltb (a b : Z * Z) : bool :=
  (a.1 <? b.1) || ((a.1 =? b.1) && (a.2 <? b.2)).

Definition heap_key (h : list DeadlineEntry) (idx : nat) : option (Z * Z) :=
  entry_key <$> h !! idx.

(** [self.key(i) < self.key(j)]. *)
Definition key_less (h : list DeadlineEntry) (i j : nat) : option bool :=
  ki ← heap_key h i; kj ← heap_key h j; Some (key_ltb ki kj).

(** [self.heap.swap(i, j)]. *)
Definition heap_swap (h : list DeadlineEntry) (i j : nat) : option (list DeadlineEntry) :=
  x ← h !! i; y ← h !! j; Some (<[j := x]> (<[i := y]> h)).

Fixpoint sift_up_loop (fuel idx : nat) (h : list DeadlineEntry) : option (list DeadlineEntry) :=
  match fuel with
  | O => None
  | S fuel =>
      if (0 <? idx)%nat then
        let parent := ((idx - 1) / 2)%nat in
        less ← key_less h idx parent;
        if (less : bool) then h' ← heap_swap h idx parent; sift_up_loop fuel parent h'
        else Some h
      else Some h
  end.

Definition sift_up (h : list DeadlineEntry) (idx : nat) : option (list DeadlineEntry) :=
  sift_up_loop (S idx) idx h.

(** One test of [sift_down]: [if cand < n && key(cand) < key(smallest)]. *)
Definition pick_smaller (h : list DeadlineEntry) (cand smallest : nat) : option nat :=
  if (cand <? length h)%nat then
    less ← key_less h cand smallest;
    Some (if (less : bool) then cand else smallest)
  else Some smallest.

Fixpoint sift_down_loop (fuel idx : nat) (h : list DeadlineEntry) : option (list DeadlineEntry) :=
  match fuel with
  | O => None
  | S fuel =>
      let left := (2 * idx + 1)%nat in
      let right := (2 * idx + 2)%nat in
      s1 ← pick_smaller h left idx;
      smallest ← pick_smaller h right s1;
      if (smallest =? idx)%nat then Some h
      else h' ← heap_swap h idx smallest; sift_down_loop fuel smallest h'
  end.

Definition sift_down (h : list DeadlineEntry) (idx : nat) : option (list DeadlineEntry) :=
  sift_down_loop (S (length h)) idx h.

(** ** Insertion *)

(** [Vec::push]: grows by the standard library's amortised policy when full. *)
Definition push_capacity (len cap : nat) : nat :=
  if (len <? cap)%nat then cap else Nat.max 4 (Nat.max (2 * cap) (S len)).

Definition push_raw (q : TimerQueue) (entry : DeadlineEntry) : option TimerQueue :=
  let h := heap q ++ [entry] in
  h' ← sift_up h (length h - 1);
  Some (mkQueue h' (push_capacity (length (heap q)) (capacity q)) (next_token_counter q)).

Definition push_assumed (q : TimerQueue) (entry : DeadlineEntry) : option TimerQueue :=
  push_raw q entry.

(** [reserve] is the allocator's answer to [try_reserve_exact(1)] on a vector of
    a given length: the new capacity, or [None] when memory is exhausted.  The
    result is [None] for a panic, [Some (inl tt)] for [Err(())] and
    [Some (inr q')] for [Ok(())]. *)
Definition try_reserve_push (reserve : nat -> option nat) (q : TimerQueue)
    (entry : DeadlineEntry) : option (unit + TimerQueue) :=
  let grown :=
    if (length (heap q) =? capacity q)%nat then reserve (length (heap q))
    else Some (capacity q) in
  match grown with
  | None => Some (inl tt)
  | Some cap => q' ← push_raw (mkQueue (heap q) cap (next_token_counter q)) entry; Some (inr q')
  end.

(** ** Removal *)

Definition pop_head (h : list DeadlineEntry) : option (option DeadlineEntry * list DeadlineEntry) :=
  match h with
  | [] => Some (None, h)
  | _ =>
      let last_idx := (length h - 1)%nat in
      h1 ← heap_swap h 0 last_idx;
      let entry := last h1 in
      let h2 := take last_idx h1 in
      match h2 with
      | [] => Some (entry, h2)
      | _ => h3 ← sift_down h2 0; Some (entry, h3)
      end
  end.

Fixpoint pop_due_loop (fuel : nat) (now_ns : Z) (is_live : Z -> WaitToken -> bool)
    (h : list DeadlineEntry) : option (option DeadlineEntry * list DeadlineEntry) :=
  match fuel with
  | O => None
  | S fuel =>
      match head h with
      | None => Some (None, h)
      | Some hd =>
          if now_ns <? deadline_ns hd then Some (None, h)
          else '(_, h') ← pop_head h;
               if is_live (entry_pid hd) (entry_token hd) then Some (Some hd, h')
               else pop_due_loop fuel now_ns is_live h'
      end
  end.

Definition set_heap (q : TimerQueue) (h : list DeadlineEntry) : TimerQueue :=
  mkQueue h (capacity q) (next_token_counter q).

Definition pop_due (q : TimerQueue) (now_ns : Z) (is_live : Z -> WaitToken -> bool)
    : option (option DeadlineEntry * TimerQueue) :=
  '(r, h) ← pop_due_loop (S (length (heap q))) now_ns is_live (heap q);
  Some (r, set_heap q h).

Definition pop_due_unchecked (q : TimerQueue) (now_ns : Z) (is_live : Z -> WaitToken -> bool)
    : option (option DeadlineEntry * TimerQueue) :=
  '(r, h) ← pop_due_loop (S (length (heap q))) now_ns is_live (heap q);
  Some (r, set_heap q h).

Fixpoint drain_loop (fuel : nat) (is_live : Z -> WaitToken -> bool)
    (h : list DeadlineEntry) (reclaimed : bool) : option (bool * list DeadlineEntry) :=
  match fuel with
  | O => None
  | S fuel =>
      match head h with
      | None => Some (reclaimed, h)
      | Some hd =>
          if is_live (entry_pid hd) (entry_token hd) then Some (reclaimed, h)
          else '(_, h') ← pop_head h; drain_loop fuel is_live h' true
      end
  end.

Definition drain_stale_head (q : TimerQueue) (is_live : Z -> WaitToken -> bool)
    : option (bool * TimerQueue) :=
  '(r, h) ← drain_loop (S (length (heap q))) is_live (heap q) false;
  Some (r, set_heap q h).

Definition peek_deadline_ns (q : TimerQueue) (is_live : Z -> WaitToken -> bool)
    : option (option Z * TimerQueue) :=
  '(_, q') ← drain_stale_head q is_live;
  Some (deadline_ns <$> head (heap q'), q').

Definition TimerQueue_len (q : TimerQueue) : nat := length (heap q).
Definition TimerQueue_is_empty (q : TimerQueue) : bool := match heap q with [] => true | _ => false end.

(** ** The key order *)

Definition key_le (a b : Z * Z) : Prop := a.1 < b.1 \/ (a.1 = b.1 /\ a.2 <= b.2).
Definition entry_le (a b : DeadlineEntry) : Prop := key_le (entry_key a) (entry_key b).

Lemma key_ltb_true a b : key_ltb a b = true <-> ~ key_le b a.
Proof. unfold key_ltb, key_le. rewrite orb_true_iff, andb_true_iff, !Z.ltb_lt, Z.eqb_eq. lia. Qed.

Lemma key_ltb_false a b : key_ltb a b = false <-> key_le b a.
Proof. unfold key_ltb, key_le. rewrite orb_false_iff, andb_false_iff, !Z.ltb_ge, Z.eqb_neq. lia. Qed.

Lemma key_le_total a b : key_le a b \/ key_le b a.
Proof. unfold key_le. lia. Qed.

#[export] Instance key_le_trans : Transitive key_le.
Proof. intros a b c. unfold key_le. lia. Qed.

#[export] Instance key_le_refl : Reflexive key_le.
Proof. intros a. unfold key_le. lia. Qed.

#[export] Instance entry_le_trans : Transitive entry_le.
Proof. intros a b c. unfold entry_le. apply key_le_trans. Qed.

#[export] Instance entry_le_refl : Reflexive entry_le.
Proof. intros a. unfold entry_le. reflexivity. Qed.

Lemma entry_le_deadline a b : entry_le a b -> deadline_ns a <= deadline_ns b.
Proof. unfold entry_le, key_le, entry_key. simpl. lia. Qed.

(** ** Parents, children and swaps *)

Definition parent_of (i : nat) : nat := ((i - 1) / 2)%nat.

Lemma parent_lt i : (0 < i)%nat -> (parent_of i < i)%nat.
Proof. intros. unfold parent_of. apply Nat.Div0.div_lt_upper_bound. lia. Qed.

Lemma parent_child i : (0 < i)%nat -> (i = 2 * parent_of i + 1 \/ i = 2 * parent_of i + 2)%nat.
Proof.
  intros. unfold parent_of.
  pose proof (Nat.div_mod_eq (i - 1) 2). pose proof (Nat.mod_upper_bound (i - 1) 2). lia.
Qed.

Lemma parent_left i : parent_of (2 * i + 1) = i.
Proof. unfold parent_of. replace (2 * i + 1 - 1)%nat with (i * 2)%nat by lia. apply Nat.div_mul. lia. Qed.

Lemma parent_right i : parent_of (2 * i + 2) = i.
Proof.
  unfold parent_of. replace (2 * i + 2 - 1)%nat with (1 + i * 2)%nat by lia.
  rewrite Nat.div_add by lia. reflexivity.
Qed.

Lemma heap_swap_spec h i j x y :
  h !! i = Some x -> h !! j = Some y -> i <> j ->
  exists h', heap_swap h i j = Some h' /\ length h' = length h /\
    h' ≡ₚ h /\ h' !! i = Some y /\ h' !! j = Some x /\
    (forall k, k <> i -> k <> j -> h' !! k = h !! k).
Proof.
  intros Hi Hj Hne. unfold heap_swap. rewrite Hi, Hj. simpl.
  eexists; split; [done|]. rewrite !length_insert.
  pose proof (lookup_lt_Some _ _ _ Hi). pose proof (lookup_lt_Some _ _ _ Hj).
  split; [done|]. split.
  { apply Permutation_insert_swap; done. }
  split; [by rewrite list_lookup_insert_ne, list_lookup_insert_eq by done|].
  split; [by rewrite list_lookup_insert_eq by (rewrite length_insert; done)|].
  intros k ??. by rewrite !list_lookup_insert_ne by done.
Qed.

(** ** Heap order and the two sifts *)

Definition ordered (h : list DeadlineEntry) (i j : nat) : Prop :=
  forall x y, h !! i = Some x -> h !! j = Some y -> entry_le x y.

(** The heap invariant: every entry is at least its parent. *)
Definition heap_ordered (h : list DeadlineEntry) : Prop :=
  forall i, (0 < i)%nat -> ordered h (parent_of i) i.

(** The invariant of [sift_up]: only the entry at [idx] may be out of place. *)
Definition up_inv (h : list DeadlineEntry) (idx : nat) : Prop :=
  (forall i, (0 < i)%nat -> i <> idx -> ordered h (parent_of i) i) /\
  (forall c, (0 < c)%nat -> parent_of c = idx -> (0 < idx)%nat -> ordered h (parent_of idx) c).

(** The invariant of [sift_down]: only the children of [idx] may be out of place. *)
Definition down_inv (h : list DeadlineEntry) (idx : nat) : Prop :=
  (forall i, (0 < i)%nat -> parent_of i <> idx -> ordered h (parent_of i) i) /\
  (forall c, (0 < c)%nat -> parent_of c = idx -> (0 < idx)%nat -> ordered h (parent_of idx) c).

Lemma key_less_eq h i j x y :
  h !! i = Some x -> h !! j = Some y ->
  key_less h i j = Some (key_ltb (entry_key x) (entry_key y)).
Proof. intros Hi Hj. unfold key_less, heap_key. rewrite Hi, Hj. reflexivity. Qed.

Lemma up_inv_swap h h' idx x y :
  (0 < idx)%nat -> h !! idx = Some x -> h !! parent_of idx = Some y -> entry_le x y ->
  h' !! idx = Some y -> h' !! parent_of idx = Some x ->
  (forall k, k <> idx -> k <> parent_of idx -> h' !! k = h !! k) ->
  up_inv h idx -> up_inv h' (parent_of idx).
Proof.
  intros Hpos Hx Hy Hxy Hx' Hy' Hrest [Hfst Hsnd].
  pose proof (parent_lt _ Hpos) as Hlt.
  split.
  - intros i Hi Hne a b Ha Hb. pose proof (parent_lt _ Hi).
    destruct (decide (i = idx)) as [->|Hix]; [congruence|].
    rewrite (Hrest i) in Hb by done.
    destruct (decide (parent_of i = idx)) as [Heq|Hpi].
    + rewrite Heq, Hx' in Ha. simplify_eq. eapply (Hsnd i); eauto.
    + destruct (decide (parent_of i = parent_of idx)) as [Heq|Hpp].
      * rewrite Heq, Hy' in Ha. simplify_eq.
        transitivity y; [done|]. eapply (Hfst i); eauto. by rewrite Heq.
      * rewrite Hrest in Ha by done. eapply (Hfst i); eauto.
  - intros c Hc Hpc Hp a b Ha Hb.
    pose proof (parent_lt _ Hp). pose proof (parent_lt _ Hc).
    rewrite Hrest in Ha by lia.
    assert (entry_le a y) by (eapply (Hfst (parent_of idx)); eauto; lia).
    destruct (decide (c = idx)) as [->|Hci]; [congruence|].
    rewrite Hrest in Hb by lia. transitivity y; [done|].
    eapply (Hfst c); eauto. by rewrite Hpc.
Qed.

Lemma sift_up_loop_spec fuel : forall idx h,
  (idx < fuel)%nat -> (idx < length h)%nat -> up_inv h idx ->
  exists h', sift_up_loop fuel idx h = Some h' /\ h' ≡ₚ h /\ heap_ordered h'.
Proof.
  induction fuel as [|fuel IH]; intros idx h Hf Hlen Hinv; [lia|]. cbn [sift_up_loop].
  destruct (0 <? idx)%nat eqn:Hz; bool_to_prop.
  2: { exists h. split_and!; [done..|]. intros i Hi. apply Hinv; lia. }
  change ((idx - 1) / 2)%nat with (parent_of idx).
  pose proof (parent_lt _ Hz) as Hp.
  destruct (lookup_lt_is_Some_2 h idx) as [x Hx]; [lia|].
  destruct (lookup_lt_is_Some_2 h (parent_of idx)) as [y Hy]; [lia|].
  rewrite (key_less_eq _ _ _ _ _ Hx Hy). simpl.
  destruct (key_ltb _ _) eqn:Hk.
  - apply key_ltb_true in Hk.
    destruct (heap_swap_spec h idx (parent_of idx) x y) as (h1 & -> & Hl & Hperm & H1 & H2 & H3);
      [done..|lia|]. simpl.
    destruct (IH (parent_of idx) h1) as (h' & Heq & Hp' & Ho); [lia..| |].
    { eapply (up_inv_swap h h1); eauto. destruct (key_le_total (entry_key x) (entry_key y)); done. }
    exists h'. split_and!; [done| |done]. by rewrite Hp'.
  - apply key_ltb_false in Hk. exists h. split_and!; [done..|].
    intros i Hi. destruct (decide (i = idx)) as [->|]; [|by apply Hinv].
    intros a b Ha Hb. by simplify_eq.
Qed.

Lemma pick_smaller_spec h cand s x :
  h !! s = Some x ->
  exists s' y, pick_smaller h cand s = Some s' /\ (s' = s \/ s' = cand) /\ h !! s' = Some y /\
    entry_le y x /\ (forall z, h !! cand = Some z -> entry_le y z).
Proof.
  intros Hx. unfold pick_smaller. destruct (cand <? length h)%nat eqn:Hc; bool_to_prop.
  - destruct (lookup_lt_is_Some_2 h cand) as [z Hz]; [lia|].
    rewrite (key_less_eq _ _ _ _ _ Hz Hx). simpl.
    destruct (key_ltb _ _) eqn:Hk.
    + apply key_ltb_true in Hk. exists cand, z. split_and!; auto.
      * destruct (key_le_total (entry_key z) (entry_key x)); done.
      * intros ? ?. by simplify_eq.
    + apply key_ltb_false in Hk. exists s, x. split_and!; auto; [done|].
      intros ? ?. by simplify_eq.
  - exists s, x. split_and!; auto; [done|]. intros z Hz. apply lookup_lt_Some in Hz. lia.
Qed.

Lemma down_inv_swap h h' idx s x y :
  (0 < s)%nat -> parent_of s = idx -> h !! idx = Some x -> h !! s = Some y -> entry_le y x ->
  (forall c z, (0 < c)%nat -> parent_of c = idx -> h !! c = Some z -> entry_le y z) ->
  h' !! idx = Some y -> h' !! s = Some x ->
  (forall k, k <> idx -> k <> s -> h' !! k = h !! k) ->
  down_inv h idx -> down_inv h' s.
Proof.
  intros Hpos Hps Hx Hy Hyx Hmin Hx' Hy' Hrest [Hfst Hsnd].
  pose proof (parent_lt _ Hpos) as Hlt.
  split.
  - intros i Hi Hne a b Ha Hb. pose proof (parent_lt _ Hi).
    destruct (decide (i = s)) as [->|His]; [congruence|].
    destruct (decide (parent_of i = idx)) as [Heq|Hpi].
    + rewrite Heq, Hx' in Ha. rewrite Hrest in Hb by lia. simplify_eq. by eapply (Hmin i).
    + rewrite Hrest in Ha by done.
      destruct (decide (i = idx)) as [->|Hii].
      * rewrite Hx' in Hb. simplify_eq. by eapply (Hsnd s).
      * rewrite Hrest in Hb by done. by eapply (Hfst i).
  - intros c Hc Hpc Hp a b Ha Hb. pose proof (parent_lt _ Hc).
    rewrite Hps, Hx' in Ha. rewrite Hrest in Hb by lia. assert (y = a) as <- by congruence.
    eapply (Hfst c); [done|lia|by rewrite Hpc|done].
Qed.

Lemma children_min (h : list DeadlineEntry) idx x s1 s y1 y :
  h !! idx = Some x ->
  entry_le y1 x -> (forall z, h !! (2 * idx + 1)%nat = Some z -> entry_le y1 z) ->
  entry_le y y1 -> (forall z, h !! (2 * idx + 2)%nat = Some z -> entry_le y z) ->
  h !! s1 = Some y1 -> h !! s = Some y ->
  entry_le y x /\ forall c z, (0 < c)%nat -> parent_of c = idx -> h !! c = Some z -> entry_le y z.
Proof.
  intros Hx H1 H2 H3 H4 Hs1 Hs. split; [by transitivity y1|].
  intros c z Hc Hp Hz. destruct (parent_child c Hc) as [E|E]; rewrite Hp in E; subst c.
  - transitivity y1; auto.
  - auto.
Qed.

Lemma sift_down_loop_spec fuel : forall idx h,
  (length h - idx < fuel)%nat -> (idx < length h)%nat -> down_inv h idx ->
  exists h', sift_down_loop fuel idx h = Some h' /\ h' ≡ₚ h /\ heap_ordered h'.
Proof.
  induction fuel as [|fuel IH]; intros idx h Hf Hlen Hinv; [lia|]. cbn [sift_down_loop].
  destruct (lookup_lt_is_Some_2 h idx) as [x Hx]; [lia|].
  destruct (pick_smaller_spec h (2 * idx + 1) idx x Hx) as (s1 & y1 & -> & Hs1 & Hy1 & Hle1 & Hm1).
  cbn [option_bind mbind].
  destruct (pick_smaller_spec h (2 * idx + 2) s1 y1 Hy1) as (s & y & -> & Hs & Hy & Hle & Hm).
  cbn [option_bind mbind].
  destruct (children_min h idx x s1 s y1 y) as [Hyx Hmin]; [done..|].
  destruct (s =? idx)%nat eqn:Hsi; bool_to_prop.
  - subst s. exists h. split_and!; [done..|]. simplify_eq.
    intros i Hi. destruct (decide (parent_of i = idx)) as [Hpi|]; [|by apply Hinv].
    intros a b Ha Hb. rewrite Hpi in Ha. simplify_eq. by eapply Hmin.
  - assert (parent_of s = idx /\ (idx < s)%nat) as [Hps Hgt].
    { destruct Hs as [-> | ->]; [destruct Hs1 as [-> | ->]|]; try done;
        rewrite ?parent_left, ?parent_right; lia. }
    destruct (heap_swap_spec h idx s x y) as (h1 & -> & Hl & Hperm & H1 & H2 & H3); [done..|].
    simpl. pose proof (lookup_lt_Some _ _ _ Hy).
    destruct (IH s h1) as (h' & Heq & Hp' & Ho); [lia..| |].
    { eapply (down_inv_swap h h1 idx s x y); eauto; lia. }
    exists h'. split_and!; [done| |done]. by rewrite Hp'.
Qed.

Lemma sift_up_spec h idx :
  (idx < length h)%nat -> up_inv h idx ->
  exists h', sift_up h idx = Some h' /\ h' ≡ₚ h /\ heap_ordered h'.
Proof. intros. apply sift_up_loop_spec; [lia|done..]. Qed.

Lemma sift_down_spec h idx :
  (idx < length h)%nat -> down_inv h idx ->
  exists h', sift_down h idx = Some h' /\ h' ≡ₚ h /\ heap_ordered h'.
Proof. intros. apply sift_down_loop_spec; [lia|done..]. Qed.

Lemma heap_ordered_nil : heap_ordered [].
Proof. intros i _ x y H. by rewrite lookup_nil in H. Qed.

Lemma up_inv_snoc h e : heap_ordered h -> up_inv (h ++ [e]) (length h).
Proof.
  intros Hh. split.
  - intros i Hi Hne x y Hx Hy. pose proof (parent_lt i Hi).
    apply lookup_lt_Some in Hy as Hlt. rewrite length_app in Hlt. simpl in Hlt.
    rewrite lookup_app_l in Hx, Hy by lia. by eapply (Hh i).
  - intros c Hc Hp _ x y _ Hy. pose proof (parent_lt c Hc).
    apply lookup_lt_Some in Hy. rewrite length_app in Hy. simpl in Hy. lia.
Qed.

(** The root of a heap is a minimum. *)
Lemma heap_ordered_min h hd x :
  heap_ordered h -> head h = Some hd -> x ∈ h -> entry_le hd x.
Proof.
  intros Hh Hhd [i Hi]%list_elem_of_lookup.
  assert (h !! 0%nat = Some hd) as H0 by (by destruct h).
  revert x Hi. induction (lt_wf i) as [i _ IH]. intros x Hi.
  destruct (decide (i = 0%nat)) as [->|Hz]; [by simplify_eq|].
  assert (0 < i)%nat as Hpos by lia. pose proof (parent_lt _ Hpos) as Hlt.
  pose proof (lookup_lt_Some _ _ _ Hi).
  destruct (lookup_lt_is_Some_2 h (parent_of i)) as [y Hy]; [lia|].
  transitivity y; [by eapply IH|]. by eapply (Hh i).
Qed.

Lemma down_inv_root h h2 n :
  heap_ordered h -> (forall k, (0 < k)%nat -> h2 !! k = if decide (k < n)%nat then h !! k else None) ->
  down_inv h2 0.
Proof.
  intros Hh Hk. split; [|lia]. intros i Hi Hp x y Hx Hy.
  rewrite Hk in Hx, Hy by lia. repeat case_decide; try done. by eapply (Hh i).
Qed.

Lemma pop_head_spec h hd :
  heap_ordered h -> head h = Some hd ->
  exists h', pop_head h = Some (Some hd, h') /\ hd :: h' ≡ₚ h /\ heap_ordered h'.
Proof.
  intros Hh Hhd. destruct h as [|x0 [|x1 h]]; [done| |]; simplify_eq/=.
  { exists []. split_and!; [done..|]. apply heap_ordered_nil. }
  set (H := hd :: x1 :: h) in *. unfold pop_head.
  change (length H - 1)%nat with (S (length h)).
  destruct (lookup_lt_is_Some_2 H (S (length h))) as [z Hz]; [simpl; lia|].
  destruct (heap_swap_spec H 0 (S (length h)) hd z) as (h1 & -> & Hl & Hperm & H1 & H2 & H3); [done..|].
  cbn [option_bind mbind]. change (length H) with (S (S (length h))) in Hl.
  assert (h1 = take (S (length h)) h1 ++ [hd]) as Hsplit.
  { rewrite <- (take_S_r _ _ _ H2). rewrite firstn_all2 by lia. done. }
  assert (last h1 = Some hd) as ->.
  { rewrite Hsplit. apply last_snoc. }
  set (h2 := take (S (length h)) h1) in *.
  assert (length h2 = S (length h)) as Hl2 by (unfold h2; rewrite length_take; lia).
  destruct (sift_down_spec h2 0) as (h3 & Heq & Hp3 & Ho3); [lia| |].
  { apply (down_inv_root H h2 (S (length h)) Hh). intros k Hk. unfold h2.
    case_decide; [rewrite lookup_take_lt by lia; apply H3; lia|].
    apply lookup_take_ge. lia. }
  exists h3. destruct h2 as [|a h2']; [done|]. rewrite Heq. cbn [option_bind mbind].
  split_and!; [done| |done].
  rewrite Hp3, <- Hperm, Hsplit. apply Permutation_cons_append.
Qed.

(** ** What the removal loops compute

    [due] and [stale] are the two tests of the loops. *)
Definition due (now_ns : Z) (e : DeadlineEntry) : Prop := deadline_ns e <= now_ns.
Definition live (is_live : Z -> WaitToken -> bool) (e : DeadlineEntry) : Prop :=
  is_live (entry_pid e) (entry_token e) = true.
#[export] Instance due_dec now_ns e : Decision (due now_ns e).
Proof. unfold due. apply _. Defined.
#[export] Instance live_dec is_live e : Decision (live is_live e).
Proof. unfold live. apply _. Defined.

(** The abstract contract of [pop_due] on the bag of outstanding waits: [disc]
    is what is reclaimed. *)
Definition spec_pop_due (now_ns : Z) (is_live : Z -> WaitToken -> bool)
    (bag : list DeadlineEntry) (r : option DeadlineEntry) (bag' : list DeadlineEntry) : Prop :=
  exists disc,
    bag ≡ₚ disc ++ option_list r ++ bag' /\
    Forall (fun e => due now_ns e /\ ~ live is_live e) disc /\
    match r with
    | Some e => due now_ns e /\ live is_live e /\ Forall (entry_le e) bag'
    | None => Forall (fun e => ~ due now_ns e) bag'
    end.

Lemma pop_due_loop_spec now_ns is_live fuel : forall h,
  (length h < fuel)%nat -> heap_ordered h ->
  exists r h', pop_due_loop fuel now_ns is_live h = Some (r, h') /\ heap_ordered h' /\
    spec_pop_due now_ns is_live h r h'.
Proof.
  induction fuel as [|fuel IH]; intros h Hf Hh; [lia|]. cbn [pop_due_loop].
  destruct (head h) as [hd|] eqn:Hhd.
  2: { destruct h; [|done]. exists None, []. split_and!; [done..|]. exists []. by split_and!. }
  destruct (now_ns <? deadline_ns hd) eqn:Hd; bool_to_prop.
  { exists None, h. split_and!; [done..|]. exists []. split_and!; [done..|].
    apply Forall_forall. intros x Hx.
    pose proof (entry_le_deadline _ _ (heap_ordered_min _ _ _ Hh Hhd Hx)). unfold due. lia. }
  destruct (pop_head_spec h hd Hh Hhd) as (h1 & -> & Hp & Ho). cbn [option_bind mbind].
  destruct (is_live _ _) eqn:Hl.
  - exists (Some hd), h1. split_and!; [done..|]. exists []. split_and!; [by rewrite Hp|done|done|done|].
    apply Forall_forall. intros x Hx. apply (heap_ordered_min h); [done..|].
    rewrite <- Hp. by right.
  - destruct (IH h1) as (r & h2 & -> & Ho2 & disc & Hp2 & Hdisc & Hr); [|done|].
    { apply Permutation_length in Hp. simpl in Hp. lia. }
    exists r, h2. split_and!; [done..|]. exists (hd :: disc). split_and!; [|constructor|done].
    + rewrite <- Hp, Hp2. done.
    + unfold due, live. rewrite Hl. split; [lia|done].
    + done.
Qed.

Lemma drain_loop_spec is_live fuel : forall h b,
  (length h < fuel)%nat -> heap_ordered h ->
  exists b' h' disc, drain_loop fuel is_live h b = Some (b', h') /\ heap_ordered h' /\
    h ≡ₚ disc ++ h' /\ Forall (fun e => ~ live is_live e) disc /\
    (b' = b || negb (bool_decide (disc = []))) /\
    (forall e, head h' = Some e -> live is_live e).
Proof.
  induction fuel as [|fuel IH]; intros h b Hf Hh; [lia|]. cbn [drain_loop].
  destruct (head h) as [hd|] eqn:Hhd.
  2: { exists b, h, []. split_and!; [done..| |congruence]. by rewrite bool_decide_true, orb_false_r. }
  destruct (is_live _ _) eqn:Hl.
  { exists b, h, []. split_and!; [done..| |congruence]. by rewrite bool_decide_true, orb_false_r. }
  destruct (pop_head_spec h hd Hh Hhd) as (h1 & -> & Hp & Ho). cbn [option_bind mbind].
  destruct (IH h1 true) as (b' & h2 & disc & -> & Ho2 & Hp2 & Hdisc & -> & Hhead); [|done|].
  { apply Permutation_length in Hp. simpl in Hp. lia. }
  exists true, h2, (hd :: disc). split_and!; [done|done| | |by rewrite orb_true_r|done].
  - by rewrite <- Hp, Hp2.
  - constructor; [|done]. unfold live. by rewrite Hl.
Qed.

(** ** The queue invariant *)

Definition token_of (e : DeadlineEntry) : Z := raw (entry_token e).

(** Heap order, capacity, and tokens that were all minted by this queue's counter
    and are pairwise distinct. *)
Definition queue_wf (q : TimerQueue) : Prop :=
  heap_ordered (heap q) /\ (length (heap q) <= capacity q)%nat /\
  1 <= next_token_counter q <= U64_MAX /\
  NoDup (token_of <$> heap q) /\
  Forall (fun e => 0 <= token_of e < next_token_counter q) (heap q).

Lemma queue_wf_shrink q h disc :
  queue_wf q -> heap_ordered h -> heap q ≡ₚ disc ++ h -> queue_wf (set_heap q h).
Proof.
  intros (Ho & Hc & Hn & Hnd & Hf) Hh Hp. unfold queue_wf, set_heap. simpl.
  rewrite Hp in Hnd, Hf. rewrite Hp, length_app in Hc. rewrite fmap_app in Hnd.
  apply NoDup_app in Hnd as (_ & _ & Hnd). apply Forall_app in Hf as [_ Hf].
  split_and!; try done; lia.
Qed.

Lemma queue_wf_new : queue_wf TimerQueue_new.
Proof.
  unfold queue_wf. simpl. split_and!; try done; try (unfold U64_MAX; lia); try constructor.
Qed.

Lemma push_raw_spec q e :
  heap_ordered (heap q) ->
  exists h', push_raw q e =
    Some (mkQueue h' (push_capacity (length (heap q)) (capacity q)) (next_token_counter q)) /\
    h' ≡ₚ e :: heap q /\ heap_ordered h'.
Proof.
  intros Hh. unfold push_raw. rewrite length_app. simpl. rewrite Nat.add_sub.
  destruct (sift_up_spec (heap q ++ [e]) (length (heap q))) as (h' & -> & Hp & Ho).
  - rewrite length_app. simpl. lia.
  - by apply up_inv_snoc.
  - exists h'. split_and!; [done| |done]. rewrite Hp. symmetry. apply Permutation_cons_append.
Qed.

(** The capacity is only grown by [push_raw] when there is no spare slot. *)
Lemma push_capacity_spare n c : (n < c)%nat -> push_capacity n c = c.
Proof. intros. unfold push_capacity. by rewrite (proj2 (Nat.ltb_lt n c)) by done. Qed.

Lemma queue_wf_push q e h' cap :
  queue_wf q -> heap_ordered h' -> h' ≡ₚ e :: heap q -> (length h' <= cap)%nat ->
  0 <= token_of e < next_token_counter q -> token_of e ∉ token_of <$> heap q ->
  queue_wf (mkQueue h' cap (next_token_counter q)).
Proof.
  intros (Ho & Hc & Hn & Hnd & Hf) Hh Hp Hcap Ht Hfresh. unfold queue_wf. simpl.
  split_and!; try done; try lia; rewrite Hp; by constructor.
Qed.

Lemma push_raw_spare q e cap :
  queue_wf q -> 0 <= token_of e < next_token_counter q -> token_of e ∉ token_of <$> heap q ->
  (length (heap q) < cap)%nat ->
  exists q', push_raw (mkQueue (heap q) cap (next_token_counter q)) e = Some q' /\ queue_wf q' /\
    heap q' ≡ₚ e :: heap q /\ capacity q' = cap /\
    next_token_counter q' = next_token_counter q.
Proof.
  intros Hwf Ht Hfresh Hcap.
  destruct (push_raw_spec (mkQueue (heap q) cap (next_token_counter q)) e) as (h' & -> & Hp & Ho).
  { apply Hwf. }
  simpl in *. rewrite push_capacity_spare by done. pose proof (Permutation_length Hp) as Hlen.
  simpl in Hlen. eexists; split_and!; [done| |done..].
  eapply queue_wf_push; eauto. lia.
Qed.

(** ** Properties *)

Section reserve.
(** The allocator: what [Vec::try_reserve_exact(1)] promises. *)
Context (reserve : nat -> option nat).
Hypothesis reserve_spare : forall n c, reserve n = Some c -> (n < c)%nat.

Lemma try_reserve_push_spec q e :
  queue_wf q -> 0 <= token_of e < next_token_counter q -> token_of e ∉ token_of <$> heap q ->
  (length (heap q) = capacity q /\ reserve (length (heap q)) = None /\
   try_reserve_push reserve q e = Some (inl tt)) \/
  (exists q', try_reserve_push reserve q e = Some (inr q') /\ queue_wf q' /\
     heap q' ≡ₚ e :: heap q /\ next_token_counter q' = next_token_counter q).
Proof.
  intros Hwf Ht Hfresh. unfold try_reserve_push.
  destruct (length (heap q) =? capacity q)%nat eqn:Hfull; bool_to_prop.
  1: destruct (reserve (length (heap q))) as [c|] eqn:Hr; [apply reserve_spare in Hr|by left].
  2: assert (length (heap q) < capacity q)%nat as Hr by (destruct Hwf as (_ & ? & _); lia).
  all: right; cbv beta iota; edestruct (push_raw_spare q e) as (q' & Heq & ? & ? & ? & ?);
    [done..|eassumption|]; exists q'; rewrite Heq; by split_and!.
Qed.
End reserve.

Lemma pop_due_spec q now_ns is_live :
  queue_wf q ->
  exists r q', pop_due q now_ns is_live = Some (r, q') /\ queue_wf q' /\
    spec_pop_due now_ns is_live (heap q) r (heap q').
Proof.
  intros Hwf. unfold pop_due.
  destruct (pop_due_loop_spec now_ns is_live (S (length (heap q))) (heap q))
    as (r & h' & -> & Ho & Hspec); [lia|apply Hwf|].
  exists r, (set_heap q h'). split_and!; [done| |done].
  destruct Hspec as (disc & Hp & _). eapply queue_wf_shrink; [done..|].
  by rewrite Hp, app_assoc.
Qed.

Lemma peek_deadline_spec q is_live :
  queue_wf q ->
  exists r q', peek_deadline_ns q is_live = Some (r, q') /\ queue_wf q' /\
    (exists disc, heap q ≡ₚ disc ++ heap q' /\ Forall (fun e => ~ live is_live e) disc) /\
    match r with
    | Some d => exists e, e ∈ heap q /\ live is_live e /\ deadline_ns e = d /\
                  forall x, x ∈ heap q -> live is_live x -> d <= deadline_ns x
    | None => forall x, x ∈ heap q -> ~ live is_live x
    end.
Proof.
  intros Hwf. unfold peek_deadline_ns, drain_stale_head.
  destruct (drain_loop_spec is_live (S (length (heap q))) (heap q) false)
    as (b & h' & disc & -> & Ho & Hp & Hdisc & _ & Hhead); [lia|apply Hwf|].
  cbn [option_bind mbind]. eexists _, _. split; [done|].
  split; [by eapply queue_wf_shrink|]. split; [by exists disc|]. rewrite Forall_forall in Hdisc.
  simpl. destruct (head h') as [e|] eqn:Hh; simpl.
  - exists e. split_and!; [|auto|done|].
    + rewrite Hp. apply elem_of_app. right. destruct h'; [done|]. simplify_eq/=. by left.
    + intros x Hx Hlx. rewrite Hp in Hx. apply elem_of_app in Hx as [Hx|Hx].
      * by apply Hdisc in Hx.
      * apply entry_le_deadline. by eapply heap_ordered_min.
  - intros x Hx. destruct h'; [|done]. rewrite app_nil_r in Hp. rewrite Hp in Hx. by apply Hdisc.
Qed.

(** The sequence of tokens handed out by [n] calls of [next_token]. *)
Fixpoint mint (n : nat) (q : TimerQueue) : list WaitToken :=
  match n with
  | O => []
  | S n => let '(t, q') := next_token q in t :: mint n q'
  end.

Lemma mint_bound n : forall q t,
  next_token_counter q <= U64_MAX -> t ∈ mint n q -> t <> EXHAUSTED ->
  next_token_counter q <= raw t < U64_MAX.
Proof.
  induction n as [|n IH]; intros q t Hq Ht Hne; [by apply elem_of_nil in Ht|].
  simpl in Ht. unfold next_token in Ht. destruct (_ =? _) eqn:He; bool_to_prop.
  - apply elem_of_cons in Ht as [->|Ht]; [done|]. by apply IH.
  - apply elem_of_cons in Ht as [->|Ht]; [simpl; lia|].
    apply IH in Ht; simpl in *; [lia|lia|done].
Qed.

(** Tokens minted by next_token are pairwise distinct, up to the exhausted sentinel, and differ from the token of every queued entry. *)
Theorem tokens_never_repeat n q :
  queue_wf q ->
  NoDup (filter (fun t => t <> EXHAUSTED) (mint n q)) /\
  (forall t, t ∈ mint n q -> t <> EXHAUSTED -> raw t ∉ token_of <$> heap q).
Proof.
  intros (_ & _ & Hn & _ & Hf). split.
  - clear Hf. revert q Hn. induction n as [|n IH]; intros q Hn; simpl; [constructor|].
    unfold next_token. destruct (_ =? _) eqn:He; bool_to_prop; rewrite filter_cons; case_decide as Hd.
    + done.
    + by apply IH.
    + constructor; [|apply IH; simpl; lia]. intros [_ Hin]%list_elem_of_filter.
      apply mint_bound in Hin; [simpl in Hin; lia|simpl; lia|done].
    + apply IH. simpl. lia.
  - intros t Ht Hne (e & He & Hin)%list_elem_of_fmap.
    apply mint_bound in Ht; [|lia|done]. rewrite Forall_forall in Hf. apply Hf in Hin. lia.
Qed.

(** ** The queue's contract *)

(** C29. On a well-formed heap pop_due never panics and refines the bag contract: it discards only due stale entries, returns a live due entry with the smallest key of what remains or nothing when no entry is due, and keeps the heap well formed. *)
Theorem pop_due_refines_bag q now_ns is_live :
  queue_wf q ->
  exists r q', pop_due q now_ns is_live = Some (r, q') /\ queue_wf q' /\
    spec_pop_due now_ns is_live (heap q) r (heap q').
Proof. apply pop_due_spec. Qed.

(** peek_deadline_ns returns the earliest deadline of the live entries, dropping only stale ones. *)
Theorem peek_deadline_earliest_live q is_live :
  queue_wf q ->
  exists r q', peek_deadline_ns q is_live = Some (r, q') /\ queue_wf q' /\
    filter (live is_live) (heap q') ≡ₚ filter (live is_live) (heap q) /\
    match r with
    | Some d => exists e, e ∈ heap q /\ live is_live e /\ deadline_ns e = d /\
                  forall x, x ∈ heap q -> live is_live x -> d <= deadline_ns x
    | None => forall x, x ∈ heap q -> ~ live is_live x
    end.
Proof.
  intros Hwf. destruct (peek_deadline_spec q is_live Hwf) as (r & q' & H & Hwf' & (d & Hp & Hd) & Hr).
  exists r, q'. split; [done|]. split; [done|]. split; [|done].
  by rewrite Hp, filter_app, (filter_none _ d).
Qed.

(** try_reserve_push adds exactly the entry to the bag and keeps the heap well formed, or fails without a change, and only when the heap is full and memory is exhausted. *)
Theorem try_reserve_push_bag reserve q e :
  (forall n c, reserve n = Some c -> (n < c)%nat) ->
  queue_wf q -> 0 <= token_of e < next_token_counter q -> token_of e ∉ token_of <$> heap q ->
  (length (heap q) = capacity q /\ reserve (length (heap q)) = None /\
   try_reserve_push reserve q e = Some (inl tt)) \/
  (exists q', try_reserve_push reserve q e = Some (inr q') /\ queue_wf q' /\
     heap q' ≡ₚ e :: heap q /\ next_token_counter q' = next_token_counter q).
Proof. intros H. by apply try_reserve_push_spec. Qed.

(** ** Instances *)

(** Three waits, the first of which is stale: its process sleeps with another token. *)
Definition stale_entry : DeadlineEntry := mkEntry 5 1 (mkWaitToken 1) Sleep.
Definition live_entry : DeadlineEntry := mkEntry 7 2 (mkWaitToken 2) Sleep.
Definition later_entry : DeadlineEntry := mkEntry 9 3 (mkWaitToken 3) Sleep.
Definition sample_queue : TimerQueue := mkQueue [stale_entry; later_entry; live_entry] 4 4.
Definition sample_live (p : Z) (t : WaitToken) : bool := negb (p =? 1).

Lemma sample_queue_wf : queue_wf sample_queue.
Proof.
  unfold queue_wf. split; [|split; [simpl; lia|split; [unfold U64_MAX; simpl; lia|split]]].
  - intros i Hi. unfold ordered. intros x y Hx Hy. destruct i as [|[|[|i]]]; [lia| | |done];
      simpl in *; simplify_eq; unfold entry_le, key_le; simpl; lia.
  - apply (bool_decide_unpack _). by vm_compute.
  - apply (bool_decide_unpack _). by vm_compute.
Qed.

(** At time 8 the stale wait is discarded and the live one returned; then nothing is due. *)
Lemma pop_due_refines_bag_witness : exists q',
  pop_due sample_queue 8 sample_live = Some (Some live_entry, q') /\ heap q' = [later_entry] /\ queue_wf q' /\
  spec_pop_due 8 sample_live [stale_entry; later_entry; live_entry] (Some live_entry) [later_entry] /\
  spec_pop_due 8 sample_live [later_entry] None [later_entry].
Proof.
  destruct (pop_due_refines_bag sample_queue 8 sample_live sample_queue_wf) as (r & q' & H & Hw & Hs).
  vm_compute in H. injection H as <- <-.
  destruct (pop_due_refines_bag _ 8 sample_live Hw) as (r2 & q2 & H2 & _ & Hs2).
  vm_compute in H2. injection H2 as <- <-.
  eexists. split; [reflexivity|]. split; [reflexivity|]. split; [exact Hw|]. split; [exact Hs|exact Hs2].
Defined.

Lemma peek_deadline_earliest_live_witness :
  exists r q', peek_deadline_ns TimerQueue_new (fun _ _ => true) = Some (r, q') /\ queue_wf q'.
Proof.
  destruct (peek_deadline_earliest_live TimerQueue_new (fun _ _ => true) queue_wf_new) as (r & q' & H & Hw & _).
  exists r, q'. exact (conj H Hw).
Defined.

Lemma try_reserve_push_bag_witness :
  exists q', try_reserve_push (fun n => Some (S n)) TimerQueue_new (mkEntry 5 1 (mkWaitToken 0) Sleep)
    = Some (inr q') /\ queue_wf q'.
Proof.
  destruct (try_reserve_push_bag (fun n => Some (S n)) TimerQueue_new (mkEntry 5 1 (mkWaitToken 0) Sleep))
    as [(_ & H & _)|(q' & H & Hw & _)];
    [intros n c [= <-]; lia|apply queue_wf_new|unfold token_of; simpl; lia|apply not_elem_of_nil|done|].
  exists q'. exact (conj H Hw).
Defined.

Lemma tokens_never_repeat_witness :
  NoDup (filter (fun t => t <> EXHAUSTED) (mint 3 TimerQueue_new)).
Proof. apply (tokens_never_repeat 3 TimerQueue_new queue_wf_new). Defined.
