(* ===== verification/Preempt.v ===== *)
(** * Preemption and interrupt-masking accounting
      (src/kernel/twilight_kernel/src/sys/preempt.rs)

    The BSP's scheduling counters as one record, one definition per function.
    The counters are [AtomicUsize]: [fetch_add] wraps at [2^64].  Only the boot
    processor runs these paths, so an atomic read-modify-write is one step and
    the compare-exchange loops of [decrement] take one iteration.  The CPU's
    interrupt flag is part of the state; logging is not modelled. *)

From S2P Require Import Prelude.

Record Preempt := mkPreempt {
  preempt_count : Z;
  irq_depth : Z;
  in_scheduler : bool;
  irq_disable_depth : Z;
  need_resched : bool;
  quantum_deadline : Z;
  held_lock_count : Z;
  fault_context : Z;
  allocator_context : Z;
  process_table_context : Z;
  vfs_context : Z;
  pagetable_context : Z;
  interrupts_enabled : bool;
}.

Definition QUANTUM_NS : Z := 10000000.
Definition ENABLE_KERNEL_PREEMPTION : bool := false.

Definition set_preempt_count (c : Z) (s : Preempt) : Preempt :=
  mkPreempt c (irq_depth s) (in_scheduler s) (irq_disable_depth s) (need_resched s)
    (quantum_deadline s) (held_lock_count s) (fault_context s) (allocator_context s)
    (process_table_context s) (vfs_context s) (pagetable_context s) (interrupts_enabled s).
Definition set_irq_depth (c : Z) (s : Preempt) : Preempt :=
  mkPreempt (preempt_count s) c (in_scheduler s) (irq_disable_depth s) (need_resched s)
    (quantum_deadline s) (held_lock_count s) (fault_context s) (allocator_context s)
    (process_table_context s) (vfs_context s) (pagetable_context s) (interrupts_enabled s).
Definition set_in_scheduler (b : bool) (s : Preempt) : Preempt :=
  mkPreempt (preempt_count s) (irq_depth s) b (irq_disable_depth s) (need_resched s)
    (quantum_deadline s) (held_lock_count s) (fault_context s) (allocator_context s)
    (process_table_context s) (vfs_context s) (pagetable_context s) (interrupts_enabled s).
Definition set_irq_mask (d : Z) (b : bool) (s : Preempt) : Preempt :=
  mkPreempt (preempt_count s) (irq_depth s) (in_scheduler s) d (need_resched s)
    (quantum_deadline s) (held_lock_count s) (fault_context s) (allocator_context s)
    (process_table_context s) (vfs_context s) (pagetable_context s) b.
Definition store_need_resched (b : bool) (s : Preempt) : Preempt :=
  mkPreempt (preempt_count s) (irq_depth s) (in_scheduler s) (irq_disable_depth s) b
    (quantum_deadline s) (held_lock_count s) (fault_context s) (allocator_context s)
    (process_table_context s) (vfs_context s) (pagetable_context s) (interrupts_enabled s).
Definition store_quantum (q : Z) (s : Preempt) : Preempt :=
  mkPreempt (preempt_count s) (irq_depth s) (in_scheduler s) (irq_disable_depth s) (need_resched s)
    q (held_lock_count s) (fault_context s) (allocator_context s)
    (process_table_context s) (vfs_context s) (pagetable_context s) (interrupts_enabled s).
Definition set_held_lock_count (c : Z) (s : Preempt) : Preempt :=
  mkPreempt (preempt_count s) (irq_depth s) (in_scheduler s) (irq_disable_depth s) (need_resched s)
    (quantum_deadline s) c (fault_context s) (allocator_context s)
    (process_table_context s) (vfs_context s) (pagetable_context s) (interrupts_enabled s).

(** The state at boot. *)
Definition preempt_init (if_flag : bool) : Preempt :=
  mkPreempt 0 0 false 0 false 0 0 0 0 0 0 0 if_flag.

(** [decrement(counter)]: the new value, or [None] when the counter is zero. *)
Definition decrement (c : Z) : option Z := if c =? 0 then None else Some (c - 1).

(** ** Preemption count *)

Definition preempt_disable (s : Preempt) : Preempt :=
  set_preempt_count (usize (preempt_count s + 1)) s.

Definition preempt_enable_no_resched (s : Preempt) : Preempt :=
  match decrement (preempt_count s) with
  | Some c => set_preempt_count c s
  | None => s
  end.

Definition can_resched_now (s : Preempt) : bool :=
  need_resched s && (preempt_count s =? 0) && (irq_depth s =? 0) && negb (in_scheduler s).

(** Whether [cond_resched] calls [proc::schedule_now]. *)
Definition cond_resched_schedules (s : Preempt) : bool :=
  if negb (preempt_count s =? 0) then false else can_resched_now s.

(** [preempt_enable]: the new state, and whether its [cond_resched] schedules. *)
Definition preempt_enable (s : Preempt) : Preempt * bool :=
  match decrement (preempt_count s) with
  | Some c => let s' := set_preempt_count c s in
              (s', if c =? 0 then cond_resched_schedules s' else false)
  | None => (s, false)
  end.

(** ** Interrupt nesting and masking *)

Definition irq_enter (s : Preempt) : Preempt := set_irq_depth (usize (irq_depth s + 1)) s.

Definition irq_exit (s : Preempt) : Preempt :=
  match decrement (irq_depth s) with Some c => set_irq_depth c s | None => s end.

(** Returns whether interrupts were enabled before the call. *)
Definition irq_save (s : Preempt) : bool * Preempt :=
  (interrupts_enabled s, set_irq_mask (usize (irq_disable_depth s + 1)) false s).

Definition irq_restore (was_enabled : bool) (s : Preempt) : Preempt :=
  match decrement (irq_disable_depth s) with
  | Some d => set_irq_mask d (if (d =? 0) && was_enabled then true else interrupts_enabled s) s
  | None => s
  end.

(** ** Reschedule request and scheduler quantum *)

Definition set_need_resched (s : Preempt) : Preempt := store_need_resched true s.
Definition clear_need_resched (s : Preempt) : Preempt := store_need_resched false s.

Definition quantum_deadline_ns (s : Preempt) : option Z :=
  if negb (quantum_deadline s =? 0) then Some (quantum_deadline s) else None.

Definition reset_quantum (now_ns : Z) (s : Preempt) : Preempt :=
  store_quantum (saturating_add now_ns QUANTUM_NS) s.

Definition clear_quantum (s : Preempt) : Preempt := store_quantum 0 s.

Definition account_quantum (now_ns : Z) (s : Preempt) : Preempt :=
  let d := quantum_deadline s in
  if negb (d =? 0) && (d <=? now_ns) then store_quantum 0 (set_need_resched s) else s.

(** ** Lock counting and the kernel-preemption predicate *)

Definition lock_count_inc (s : Preempt) : Preempt :=
  set_held_lock_count (usize (held_lock_count s + 1)) s.
Definition lock_count_dec (s : Preempt) : Preempt :=
  match decrement (held_lock_count s) with Some c => set_held_lock_count c s | None => s end.
Definition locks_held (s : Preempt) : bool := negb (held_lock_count s =? 0).

(** ** Context guards

    [ContextGuard] names one of five counters; [enter] bumps it, dropping the
    active guard decrements it. *)

Inductive Context := FaultContext | AllocatorContext | ProcessTableContext
  | VfsContext | PagetableContext.

Definition context_counter (c : Context) (s : Preempt) : Z :=
  match c with
  | FaultContext => fault_context s
  | AllocatorContext => allocator_context s
  | ProcessTableContext => process_table_context s
  | VfsContext => vfs_context s
  | PagetableContext => pagetable_context s
  end.

Definition set_context_counter (c : Context) (n : Z) (s : Preempt) : Preempt :=
  let pick c' old := match c, c' with
    | FaultContext, FaultContext | AllocatorContext, AllocatorContext
    | ProcessTableContext, ProcessTableContext | VfsContext, VfsContext
    | PagetableContext, PagetableContext => n
    | _, _ => old
    end in
  mkPreempt (preempt_count s) (irq_depth s) (in_scheduler s) (irq_disable_depth s)
    (need_resched s) (quantum_deadline s) (held_lock_count s)
    (pick FaultContext (fault_context s)) (pick AllocatorContext (allocator_context s))
    (pick ProcessTableContext (process_table_context s)) (pick VfsContext (vfs_context s))
    (pick PagetableContext (pagetable_context s)) (interrupts_enabled s).

Definition ContextGuard_enter (c : Context) (s : Preempt) : Preempt :=
  set_context_counter c (usize (context_counter c s + 1)) s.

Definition ContextGuard_drop (c : Context) (s : Preempt) : Preempt :=
  match decrement (context_counter c s) with
  | Some n => set_context_counter c n s
  | None => s
  end.

Definition in_context (c : Context) (s : Preempt) : bool := negb (context_counter c s =? 0).

(** ** [PreemptGuard]: [resched_on_drop] distinguishes [new] and [new_no_resched]. *)

Record PreemptGuard := mkPreemptGuard { guard_active : bool; resched_on_drop : bool }.

Definition PreemptGuard_new (s : Preempt) : PreemptGuard * Preempt :=
  (mkPreemptGuard true true, preempt_disable s).
Definition PreemptGuard_new_no_resched (s : Preempt) : PreemptGuard * Preempt :=
  (mkPreemptGuard true false, preempt_disable s).

(** [Drop]: the state, and whether dropping reached [schedule_now]. *)
Definition PreemptGuard_drop (g : PreemptGuard) (s : Preempt) : Preempt * bool :=
  if guard_active g then
    if resched_on_drop g then preempt_enable s else (preempt_enable_no_resched s, false)
  else (s, false).

Definition can_preempt_kernel (enable : bool) (s : Preempt) : bool :=
  if negb enable then false
  else if negb (need_resched s) then false
  else if negb (preempt_count s =? 0) then false
  else if negb (irq_depth s =? 0) then false
  else if in_scheduler s then false
  else if locks_held s then false
  else if in_context FaultContext s then false
  else if in_context AllocatorContext s then false
  else if in_context ProcessTableContext s then false
  else if in_context VfsContext s then false
  else if in_context PagetableContext s then false
  else true.

(** ** [SchedulerGuard] *)

Definition scheduler_try_enter (s : Preempt) : bool * Preempt :=
  if in_scheduler s then (false, s)
  else if negb (preempt_count s =? 0) then (false, s)
  else
    let s := preempt_disable s in
    if in_scheduler s then (false, preempt_enable_no_resched s)
    else (true, set_in_scheduler true s).

Definition scheduler_release (s : Preempt) : Preempt :=
  preempt_enable_no_resched (set_in_scheduler false s).

(** ** Nested interrupt-disabling guards

    [IrqGuard] and [Mutex::lock_irq] guards are created and dropped in LIFO
    order; [guards] is the stack of their saved [was_enabled] flags. *)

Definition irq_config : Type := Preempt * list bool.

Inductive irq_step : irq_config -> irq_config -> Prop :=
| step_save s guards :
    irq_disable_depth s < U64_MAX ->
    irq_step (s, guards) ((irq_save s).2, (irq_save s).1 :: guards)
| step_restore s w guards :
    irq_step (s, w :: guards) (irq_restore w s, guards).

(** What nest-safety means: the depth counts the live guards, interrupts are off
    while one is live, and with none live the flag has its initial value. *)
Definition irq_inv (if0 : bool) (c : irq_config) : Prop :=
  let '(s, guards) := c in
  irq_disable_depth s = Z.of_nat (length guards) /\
  irq_disable_depth s <= U64_MAX /\
  match guards with
  | [] => interrupts_enabled s = if0
  | _ => interrupts_enabled s = false /\ last guards = Some if0 /\
         forall i, (S i < length guards)%nat -> guards !! i = Some false
  end.

Lemma irq_save_inv if0 s guards :
  irq_disable_depth s < U64_MAX -> irq_inv if0 (s, guards) ->
  irq_inv if0 ((irq_save s).2, (irq_save s).1 :: guards).
Proof.
  unfold irq_inv, irq_save. simpl. intros Hlt (Hd & Hb & Hg).
  unfold wrap. rewrite Z.mod_small by (unfold U64_MAX in *; lia).
  split_and!; [lia|lia|done| |].
  - destruct guards; [by rewrite Hg|]. simpl in *. apply Hg.
  - intros [|i] Hi; simpl in *.
    + destruct guards; [simpl in Hi; lia|]. by destruct Hg as [-> _].
    + destruct guards as [|w guards]; [simpl in Hi; lia|]. apply Hg. simpl in *. lia.
Qed.

Lemma irq_restore_inv if0 s w guards :
  irq_inv if0 (s, w :: guards) -> irq_inv if0 (irq_restore w s, guards).
Proof.
  unfold irq_inv, irq_restore, decrement. simpl. intros (Hd & Hb & Hif & Hlast & Hin).
  rewrite (proj2 (Z.eqb_neq _ _)) by lia. simpl.
  split_and!; [lia|lia|]. destruct guards as [|w' guards].
  - simpl in *. simplify_eq. rewrite (proj2 (Z.eqb_eq _ _)) by lia. simpl. by destruct if0.
  - simpl in *. rewrite (proj2 (Z.eqb_neq _ _)) by lia. simpl.
    split_and!; [done|done|]. intros i Hi. apply (Hin (S i)). simpl in *. lia.
Qed.

(** C31. For any LIFO sequence of irq_save and irq_restore the depth counts the live guards, interrupts stay off while one is live, and when none is left the flag has its initial value. *)
Theorem irq_guards_nest_safe if0 s0 c :
  irq_disable_depth s0 = 0 -> interrupts_enabled s0 = if0 ->
  rtc irq_step (s0, []) c ->
  irq_inv if0 c.
Proof.
  intros Hd Hif Hr.
  assert (irq_inv if0 (s0, [])) as H0 by (unfold irq_inv, U64_MAX; simpl; split_and!; [lia..|done]).
  revert H0. induction Hr as [c|c1 c2 c3 Hs _ IH]; [done|]. intros H1. apply IH.
  destruct Hs; [by apply irq_save_inv|by apply irq_restore_inv].
Qed.

(** The scheduler guard is granted exactly when the scheduler is not entered and preemption is enabled, excludes a second entry, and releasing it restores the state. *)
Theorem scheduler_guard_exclusive s :
  0 <= preempt_count s < U64_MAX ->
  let '(ok, s1) := scheduler_try_enter s in
  (ok = true <-> in_scheduler s = false /\ preempt_count s = 0) /\
  (ok = true -> (scheduler_try_enter s1).1 = false /\ scheduler_release s1 = s) /\
  (ok = false -> s1 = s).
Proof.
  intros Hc. unfold scheduler_try_enter.
  destruct (in_scheduler s) eqn:Hs; [naive_solver|].
  destruct (preempt_count s =? 0) eqn:Hz; bool_to_prop; simpl; [|naive_solver lia].
  rewrite Hs. simpl. split_and!; [done| |done]. intros _. split; [done|].
  destruct s; simpl in *; subst. reflexivity.
Qed.

Lemma irq_guards_nest_safe_witness :
  irq_inv true ((irq_save (irq_save (preempt_init true)).2).2, [false; true]).
Proof.
  apply (irq_guards_nest_safe true (preempt_init true)); [done|done|].
  eapply rtc_l; [apply (step_save (preempt_init true) []); done|].
  eapply rtc_l; [apply (step_save (irq_save (preempt_init true)).2 [true]); done|].
  apply rtc_refl.
Defined.

Lemma scheduler_guard_exclusive_witness :
  (scheduler_try_enter (scheduler_try_enter (preempt_init true)).2).1 = false.
Proof.
  apply (scheduler_guard_exclusive (preempt_init true)); [unfold U64_MAX; simpl; lia|done].
Defined.
