(* ===== verification/Sched.v ===== *)
(** * Processes, signals and scheduler selection
      (src/kernel/twilight_kernel/src/sys/proc/mod.rs)

    The scheduling part of a [Process], the signal operations, the file
    descriptor table and the pure parts of the scheduler: round-robin selection,
    the validation of the running owner and the state change of a switch.  The
    address-space and register fields of [Process] are not part of this model;
    an [FdEntry] is represented by the identity of its open file. *)

From S2P Require Import Prelude TimerQueue.

Inductive ProcessState :=
  Running | Runnable | Sleeping | Waiting | SignalWait | AwaitingIo | Stopped | Dead.

#[export] Instance ProcessState_eq_dec : EqDecision ProcessState.
Proof. solve_decision. Defined.

Record SignalAction := mkSignalAction {
  handler : Z; sa_mask : Z * Z; sa_flags : Z; sa_restorer : Z;
}.
#[export] Instance SignalAction_inhabited : Inhabited SignalAction :=
  populate (mkSignalAction 0 (0, 0) 0 0).

Record Process := mkProcess {
  pid : Z;
  tgid : Z;
  is_thread : bool;
  parent_pid : Z;
  state : ProcessState;
  fd_table : list (option Z);
  exit_code : Z;
  wait_status : Z;
  wait_reported : bool;
  pending_io : bool;
  signal_actions : list SignalAction;
  signal_mask : Z * Z;
  pending_signals : Z;
  wait_token : option WaitToken;
  wait_deadline_ns : option Z;
  wake_reason : option WakeReason;
}.

Definition set_state (st : ProcessState) (p : Process) : Process :=
  mkProcess (pid p) (tgid p) (is_thread p) (parent_pid p) st (fd_table p) (exit_code p)
    (wait_status p) (wait_reported p) (pending_io p) (signal_actions p) (signal_mask p)
    (pending_signals p) (wait_token p) (wait_deadline_ns p) (wake_reason p).
Definition set_parent_pid (pp : Z) (p : Process) : Process :=
  mkProcess (pid p) (tgid p) (is_thread p) pp (state p) (fd_table p) (exit_code p)
    (wait_status p) (wait_reported p) (pending_io p) (signal_actions p) (signal_mask p)
    (pending_signals p) (wait_token p) (wait_deadline_ns p) (wake_reason p).
Definition set_fd_table (t : list (option Z)) (p : Process) : Process :=
  mkProcess (pid p) (tgid p) (is_thread p) (parent_pid p) (state p) t (exit_code p)
    (wait_status p) (wait_reported p) (pending_io p) (signal_actions p) (signal_mask p)
    (pending_signals p) (wait_token p) (wait_deadline_ns p) (wake_reason p).
Definition set_pending_io (b : bool) (p : Process) : Process :=
  mkProcess (pid p) (tgid p) (is_thread p) (parent_pid p) (state p) (fd_table p) (exit_code p)
    (wait_status p) (wait_reported p) b (signal_actions p) (signal_mask p)
    (pending_signals p) (wait_token p) (wait_deadline_ns p) (wake_reason p).
Definition set_signal_mask (m : Z * Z) (p : Process) : Process :=
  mkProcess (pid p) (tgid p) (is_thread p) (parent_pid p) (state p) (fd_table p) (exit_code p)
    (wait_status p) (wait_reported p) (pending_io p) (signal_actions p) m
    (pending_signals p) (wait_token p) (wait_deadline_ns p) (wake_reason p).
Definition set_pending_signals (s : Z) (p : Process) : Process :=
  mkProcess (pid p) (tgid p) (is_thread p) (parent_pid p) (state p) (fd_table p) (exit_code p)
    (wait_status p) (wait_reported p) (pending_io p) (signal_actions p) (signal_mask p)
    s (wait_token p) (wait_deadline_ns p) (wake_reason p).
Definition set_wait (t : option WaitToken) (d : option Z) (r : option WakeReason) (p : Process)
    : Process :=
  mkProcess (pid p) (tgid p) (is_thread p) (parent_pid p) (state p) (fd_table p) (exit_code p)
    (wait_status p) (wait_reported p) (pending_io p) (signal_actions p) (signal_mask p)
    (pending_signals p) t d r.
Definition set_exit (code status : Z) (reported : bool) (p : Process) : Process :=
  mkProcess (pid p) (tgid p) (is_thread p) (parent_pid p) (state p) (fd_table p) code
    status reported (pending_io p) (signal_actions p) (signal_mask p)
    (pending_signals p) (wait_token p) (wait_deadline_ns p) (wake_reason p).

(** ** Signals *)

Definition SIGNAL_COUNT : nat := 65.
Definition SIGCHLD : Z := 17.
Definition SIGKILL : Z := 9.
Definition SIGSTOP : Z := 19.
Definition SIG_IGN : Z := 1.
Definition DEFAULT_IGNORE_SIGNALS : list Z := [SIGCHLD].

(** [1u64 << (sig - 1)]: the shift amount is masked to the width. *)
Definition signal_bit (sig : Z) : Z := u64 (Z.shiftl 1 ((sig - 1) mod 64)).

(** [u64::trailing_zeros]. *)
Fixpoint trailing_zeros_from (fuel : nat) (i z : Z) : Z :=
  match fuel with
  | O => i
  | S fuel => if Z.testbit z i then i else trailing_zeros_from fuel (i + 1) z
  end.
Definition trailing_zeros (z : Z) : Z := trailing_zeros_from 64 0 z.

(** The array has [SIGNAL_COUNT] entries and every caller passes [1 <= sig <= 64]. *)
Definition signal_interrupts_sleep (p : Process) (sig : Z) : bool :=
  if negb (Z.land (signal_mask p).1 (signal_bit sig) =? 0) then false
  else
    let h := handler (signal_actions p !!! Z.to_nat sig) in
    if h =? SIG_IGN then false
    else if SIG_IGN <? h then true
    else negb (existsb (Z.eqb sig) DEFAULT_IGNORE_SIGNALS).

(** Each iteration clears the lowest set bit, so 64 iterations are enough. *)
Fixpoint interrupting_loop (fuel : nat) (p : Process) (bits : Z) : bool :=
  match fuel with
  | O => false
  | S fuel =>
    if bits =? 0 then false
    else
      let sig := trailing_zeros bits + 1 in
      let bits' := Z.land bits (u64 (bits - 1)) in
      if signal_interrupts_sleep p sig then true else interrupting_loop fuel p bits'
  end.
Definition has_sleep_interrupting_signal (p : Process) : bool :=
  interrupting_loop 65 p (pending_signals p).

(** [Process::queue_signal]. *)
Definition Process_queue_signal (sig : Z) (p : Process) : Process :=
  if negb ((1 <=? sig) && (sig <=? 64)) then p
  else
    let p := set_pending_signals (Z.lor (pending_signals p) (signal_bit sig)) p in
    match state p with
    | Waiting | SignalWait => set_pending_io false (set_state Runnable p)
    | AwaitingIo =>
      if negb (signal_interrupts_sleep p sig) then p
      else set_wait None None (Some Signal) (set_pending_io true (set_state Runnable p))
    | Sleeping =>
      if negb (signal_interrupts_sleep p sig) then p
      else set_wait None None (Some Signal) (set_state Runnable p)
    | _ => p
    end.

Definition next_unblocked_signal (p : Process) : option Z :=
  let unblocked := Z.ldiff (pending_signals p) (signal_mask p).1 in
  if unblocked =? 0 then None else Some (trailing_zeros unblocked + 1).

Definition has_unblocked_signal (p : Process) : bool :=
  match next_unblocked_signal p with Some _ => true | None => false end.

Definition dequeue_signal (sig : Z) (p : Process) : Process :=
  if (1 <=? sig) && (sig <=? 64)
  then set_pending_signals (Z.ldiff (pending_signals p) (signal_bit sig)) p else p.

(** The mask update of [swap_signal_mask] and [restore_signal_mask]. *)
Definition install_signal_mask (m : Z * Z) (p : Process) : Process :=
  set_signal_mask (Z.ldiff (Z.ldiff m.1 (signal_bit SIGKILL)) (signal_bit SIGSTOP), m.2) p.

Definition invalidate_wait_token (p : Process) : Process := set_wait None None None p.

(** ** File descriptors *)

Inductive Errno := EINVAL | EMFILE | EBADF.
Definition I32_MAX : Z := 2 ^ 31 - 1.

Definition fd_entry (p : Process) (fd : Z) : option Z :=
  if fd <? 0 then None else mjoin (fd_table p !! Z.to_nat fd).

(** First [None] at or after [start]. *)
Fixpoint first_free (t : list (option Z)) (i : nat) : option nat :=
  match t with
  | [] => None
  | None :: _ => Some i
  | Some _ :: t => first_free t (S i)
  end.

Definition fd_result (i : nat) : Errno + Z :=
  if Z.of_nat i <=? I32_MAX then inr (Z.of_nat i) else inl EMFILE.

Definition install_fd (entry min_fd : Z) (p : Process) : (Errno + Z) * Process :=
  if min_fd <? 0 then (inl EINVAL, p)
  else
    let start := Z.to_nat min_fd in
    let t := if (length (fd_table p) <? start)%nat
             then fd_table p ++ replicate (start - length (fd_table p)) None
             else fd_table p in
    match first_free (drop start t) start with
    | Some i => (fd_result i, set_fd_table (<[i := Some entry]> t) p)
    | None => (fd_result (length t), set_fd_table (t ++ [Some entry]) p)
    end.

Definition replace_fd (fd entry : Z) (p : Process) : (Errno + option Z) * Process :=
  if fd <? 0 then (inl EBADF, p)
  else
    let i := Z.to_nat fd in
    let t := if (length (fd_table p) <=? i)%nat
             then fd_table p ++ replicate (S i - length (fd_table p)) None
             else fd_table p in
    (inr (mjoin (t !! i)), set_fd_table (<[i := Some entry]> t) p).

Definition close_fd (fd : Z) (p : Process) : (Errno + Z) * Process :=
  if fd <? 0 then (inl EBADF, p)
  else
    match mjoin (fd_table p !! Z.to_nat fd) with
    | Some e => (inr e, set_fd_table (<[Z.to_nat fd := None]> (fd_table p)) p)
    | None => (inl EBADF, p)
    end.

Definition close_all_fds (p : Process) : Process := set_fd_table [] p.

(** ** The process table *)

Fixpoint position_from (ps : list Process) (q : Z) (i : nat) : option nat :=
  match ps with
  | [] => None
  | p :: ps => if pid p =? q then Some i else position_from ps q (S i)
  end.
Definition find_process_index (ps : list Process) (q : Z) : option nat := position_from ps q 0.

(** [ProcessTable::get_process] and [proc_list.iter().find(..)]. *)
Definition get_process (ps : list Process) (q : Z) : option Process :=
  i ← find_process_index ps q; ps !! i.

(** A write through the [&mut Process] that [get_process] returns. *)
Definition update_process (f : Process -> Process) (q : Z) (ps : list Process) : list Process :=
  match find_process_index ps q with
  | Some i => alter f i ps
  | None => ps
  end.

Definition is_state (st : ProcessState) (p : Process) : bool := bool_decide (state p = st).

Definition reparent_children (exiting_pid : Z) (ps : list Process) : list Process :=
  if (exiting_pid =? 1) || negb (existsb (fun p => pid p =? 1) ps) then ps
  else
    let adopts p := negb (is_thread p) && (parent_pid p =? exiting_pid) in
    let adopted_zombie := existsb (fun p => adopts p && is_state Dead p) ps in
    let ps := (fun p => if adopts p then set_parent_pid 1 p else p) <$> ps in
    if adopted_zombie then update_process (Process_queue_signal SIGCHLD) 1 ps else ps.

(** ** Selection *)

(** The steps [step, step+1, ..] of the selection loop, [n] of them. *)
Fixpoint find_next_loop (n step : nat) (ps : list Process) (cur : nat) : option nat :=
  match n with
  | O => None
  | S n =>
    let idx := ((cur + step) mod length ps)%nat in
    if (idx =? cur)%nat then find_next_loop n (S step) ps cur
    else match ps !! idx with
         | Some p => if is_state Runnable p then Some idx else find_next_loop n (S step) ps cur
         | None => None
         end
  end.
Definition find_next_runnable_index (ps : list Process) (cur : nat) : option nat :=
  if (length ps <? 2)%nat then None else find_next_loop (length ps) 1 ps cur.

(** The indices of the Running processes, in table order. *)
Fixpoint running_from (ps : list Process) (i : nat) : list nat :=
  match ps with
  | [] => []
  | p :: ps => if is_state Running p then i :: running_from ps (S i) else running_from ps (S i)
  end.
Definition running (ps : list Process) : list nat := running_from ps 0.

Definition validate_running_owner (ps : list Process) (expected : nat) : bool :=
  match running ps with
  | [i] => (i =? expected)%nat
  | _ => false
  end.

Definition validate_pre_switch_owner (ps : list Process) (cur : nat) : bool :=
  match running ps with
  | i :: _ => if negb (i =? cur)%nat then false else (length (running ps) <=? 1)%nat
  | [] => true
  end.

(** The process-table part of [switch_by_index_guarded]: whether the switch goes
    ahead, and the table it leaves; [None] is an out-of-range index. *)
Definition switch_states (cur next : nat) (ps : list Process) : option (bool * list Process) :=
  if (cur =? next)%nat then Some (false, ps)
  else if negb (validate_pre_switch_owner ps cur) then Some (false, ps)
  else
    nx ← ps !! next;
    if negb (is_state Runnable nx) then Some (false, ps)
    else
      cu ← ps !! cur;
      let ps1 := if is_state Running cu then <[cur := set_state Runnable cu]> ps else ps in
      let ps2 := alter (set_state Running) next ps1 in
      Some (validate_running_owner ps2 next, ps2).

(** ** Lemmas on the table *)

Lemma is_state_true st p : is_state st p = true <-> state p = st.
Proof. unfold is_state. by rewrite bool_decide_eq_true. Qed.
Lemma is_state_false st p : is_state st p = false <-> state p <> st.
Proof. unfold is_state. by rewrite bool_decide_eq_false. Qed.

Lemma position_from_spec ps q : forall i,
  match position_from ps q i with
  | Some j => (i <= j)%nat /\ exists p, ps !! (j - i)%nat = Some p /\ pid p = q
  | None => q ∉ pid <$> ps
  end.
Proof.
  induction ps as [|p ps IH]; intros i; simpl; [apply not_elem_of_nil|].
  destruct (pid p =? q) eqn:Hp; bool_to_prop.
  - split; [lia|]. rewrite Nat.sub_diag. by exists p.
  - specialize (IH (S i)). destruct (position_from ps q (S i)) as [j|].
    + destruct IH as [Hj (x & Hx & Hq)]. split; [lia|]. exists x.
      by replace (j - i)%nat with (S (j - S i)) by lia.
    + apply not_elem_of_cons. by split; [congruence|].
Qed.

Lemma find_process_index_Some ps q i :
  find_process_index ps q = Some i -> exists p, ps !! i = Some p /\ pid p = q.
Proof.
  unfold find_process_index. intros H. pose proof (position_from_spec ps q 0) as Hs.
  rewrite H in Hs. destruct Hs as [_ Hs]. by rewrite Nat.sub_0_r in Hs.
Qed.

Lemma find_process_index_None ps q :
  find_process_index ps q = None -> q ∉ pid <$> ps.
Proof.
  unfold find_process_index. intros H. pose proof (position_from_spec ps q 0) as Hs.
  by rewrite H in Hs.
Qed.

(** With unique process ids, the index found is the process's own. *)
Lemma find_process_index_unique ps i p :
  NoDup (pid <$> ps) -> ps !! i = Some p -> find_process_index ps (pid p) = Some i.
Proof.
  intros Hnd Hi. destruct (find_process_index ps (pid p)) as [j|] eqn:Hj.
  - apply find_process_index_Some in Hj as (x & Hx & Hp). f_equal.
    apply (NoDup_lookup (pid <$> ps) _ _ (pid p)); [done|..]; rewrite list_lookup_fmap.
    + rewrite Hx. simpl. by f_equal.
    + by rewrite Hi.
  - apply find_process_index_None in Hj. destruct Hj.
    apply list_elem_of_fmap. exists p. split; [done|]. by eapply list_elem_of_lookup_2.
Qed.

(** ** Selection is round robin *)

Lemma find_next_loop_spec ps cur n : forall step,
  (0 < length ps)%nat ->
  match find_next_loop n step ps cur with
  | Some j => exists s, (step <= s < step + n)%nat /\ j = ((cur + s) mod length ps)%nat /\
      j <> cur /\ (exists p, ps !! j = Some p /\ state p = Runnable) /\
      forall t p, (step <= t < s)%nat -> ((cur + t) mod length ps <> cur)%nat ->
        ps !! ((cur + t) mod length ps)%nat = Some p -> state p <> Runnable
  | None => forall t p, (step <= t < step + n)%nat -> ((cur + t) mod length ps <> cur)%nat ->
        ps !! ((cur + t) mod length ps)%nat = Some p -> state p <> Runnable
  end.
Proof.
  induction n as [|n IH]; intros step Hlen; cbn [find_next_loop]; [intros; lia|].
  specialize (IH (S step) Hlen).
  assert ((cur + step) mod length ps < length ps)%nat as Hlt by (apply Nat.mod_upper_bound; lia).
  apply lookup_lt_is_Some in Hlt as [x Hx].
  destruct (_ =? cur)%nat eqn:Hc; bool_to_prop.
  2: rewrite Hx; destruct (is_state Runnable x) eqn:Hr;
     [apply is_state_true in Hr|apply is_state_false in Hr].
  2: { exists step. split_and!; [lia|lia|done|done|by exists x|intros; lia]. }
  all: destruct (find_next_loop n (S step) ps cur) as [j|].
  all: try (destruct IH as (s & Hs & -> & Hj & Hp & Hmin); exists s; split_and!; [lia|lia|done|done|done|]).
  all: intros t p Ht Hne Hl; destruct (decide (t = step)) as [->|]; [congruence|].
  all: first [eapply Hmin; [|done..]; lia|eapply IH; [|done..]; lia].
Qed.

(** Every other index is [cur + t] for one [t] of the loop. *)
Lemma other_index_step (cur i len : nat) :
  (cur < len)%nat -> (i < len)%nat -> i <> cur ->
  exists t, (1 <= t < 1 + len)%nat /\ i = ((cur + t) mod len)%nat.
Proof.
  intros Hc Hi Hne. destruct (decide (cur < i)%nat).
  - exists (i - cur)%nat. split; [lia|]. rewrite Nat.mod_small; lia.
  - exists (i + len - cur)%nat. split; [lia|].
    replace (cur + (i + len - cur))%nat with (i + 1 * len)%nat by lia.
    rewrite Nat.Div0.mod_add, Nat.mod_small; lia.
Qed.

(** C24. Selection returns the first Runnable process after the current one in cyclic table order, and None only when no other process is Runnable. *)
Theorem find_next_round_robin ps cur :
  (cur < length ps)%nat ->
  match find_next_runnable_index ps cur with
  | Some j => j <> cur /\ (exists p, ps !! j = Some p /\ state p = Runnable) /\
      exists s, (1 <= s <= length ps)%nat /\ j = ((cur + s) mod length ps)%nat /\
        forall t p, (1 <= t < s)%nat -> ((cur + t) mod length ps <> cur)%nat ->
          ps !! ((cur + t) mod length ps)%nat = Some p -> state p <> Runnable
  | None => forall i p, i <> cur -> ps !! i = Some p -> state p <> Runnable
  end.
Proof.
  intros Hc. unfold find_next_runnable_index. case_if.
  - intros i p Hi Hp. apply lookup_lt_Some in Hp. lia.
  - pose proof (find_next_loop_spec ps cur (length ps) 1 ltac:(lia)) as H.
    destruct (find_next_loop _ _ _ _) as [j|].
    + destruct H as (s & Hs & -> & Hne & Hp & Hmin). split_and!; [done|done|].
      exists s. split_and!; [lia|lia|done|done].
    + intros i p Hi Hp. destruct (other_index_step cur i (length ps)) as (t & Ht & ->);
        [done|by eapply lookup_lt_Some|done|]. by eapply H.
Qed.

(** ** One Running process *)

Lemma running_from_elem ps : forall i j,
  j ∈ running_from ps i <-> (i <= j)%nat /\ exists p, ps !! (j - i)%nat = Some p /\ state p = Running.
Proof.
  induction ps as [|p ps IH]; intros i j; simpl.
  - split; [by intros ?%elem_of_nil|]. intros (_ & x & Hx & _). by rewrite lookup_nil in Hx.
  - assert (j ∈ running_from ps (S i) <->
      (i < j)%nat /\ exists x, (p :: ps) !! (j - i)%nat = Some x /\ state x = Running) as Htl.
    { rewrite IH. split; intros [Hj (x & Hx & Hs)]; (split; [lia|]); exists x; split; [|done| |done].
      - by replace (j - i)%nat with (S (j - S i)) by lia.
      - by replace (j - i)%nat with (S (j - S i)) in Hx by lia. }
    destruct (is_state Running p) eqn:Hp; [apply is_state_true in Hp|apply is_state_false in Hp].
    all: rewrite ?elem_of_cons, Htl; split.
    + intros [-> | [? ?]]; [|by split; [lia|]]. split; [lia|]. rewrite Nat.sub_diag. by exists p.
    + intros [Hj Hx]. destruct (decide (j = i)); [by left|]. right. by split; [lia|].
    + intros [? ?]. by split; [lia|].
    + intros [Hj (x & Hx & Hs)]. destruct (decide (j = i)) as [->|].
      * rewrite Nat.sub_diag in Hx. simplify_eq/=.
      * split; [lia|]. by exists x.
Qed.

Lemma running_from_NoDup ps : forall i, NoDup (running_from ps i).
Proof.
  induction ps as [|p ps IH]; intros i; simpl; [constructor|].
  destruct (is_state Running p); [|done]. constructor; [|done].
  rewrite running_from_elem. lia.
Qed.

Lemma running_elem ps j :
  j ∈ running ps <-> exists p, ps !! j = Some p /\ state p = Running.
Proof.
  unfold running. rewrite running_from_elem, Nat.sub_0_r. split; [by intros [_ ?]|by split; [lia|]].
Qed.

Lemma NoDup_singleton_elem {A} (l : list A) x :
  NoDup l -> (forall y, y ∈ l <-> y = x) -> l = [x].
Proof.
  intros Hnd Hl. destruct l as [|a l]; [by destruct (not_elem_of_nil x (proj2 (Hl x) eq_refl))|].
  assert (a = x) as -> by (apply Hl; by left). apply NoDup_cons in Hnd as [Hx _].
  destruct l as [|b l]; [done|]. destruct Hx.
  rewrite <- (proj1 (Hl b)) by (right; by left). by left.
Qed.

Lemma pre_switch_owner_true ps cur :
  validate_pre_switch_owner ps cur = true <->
  forall i p, ps !! i = Some p -> state p = Running -> i = cur.
Proof.
  unfold validate_pre_switch_owner. pose proof (running_from_NoDup ps 0) as Hnd. fold (running ps) in Hnd.
  pose proof (running_elem ps) as He. destruct (running ps) as [|i [|j l]].
  - split; [|done]. intros _ i p Hi Hs.
    assert (i ∈ @nil nat) as []%elem_of_nil by (apply He; by exists p).
  - destruct (decide (i = cur)) as [->|Hne].
    + rewrite Nat.eqb_refl. simpl. split; [|done]. intros _ j p Hj Hs.
      apply list_elem_of_singleton, He. by exists p.
    + rewrite (proj2 (Nat.eqb_neq _ _)) by done. simpl. split; [done|]. intros H.
      destruct (proj1 (He i)) as (p & Hp & Hs); [by left|]. destruct Hne. by eapply H.
  - split; [destruct (negb _); done|]. intros H.
    destruct (proj1 (He i)) as (p & Hp & Hs); [by left|].
    destruct (proj1 (He j)) as (p' & Hp' & Hs'); [right; by left|].
    apply NoDup_cons in Hnd as [Hi _]. destruct Hi.
    rewrite (H _ _ Hp Hs), <- (H _ _ Hp' Hs'). by left.
Qed.

(** C14. When at most the current process is Running and the target is Runnable, the switch goes ahead, the second validation cannot fail, the target is the only Running process afterwards, the current one is demoted if it ran, and no other entry changes. *)
Theorem switch_one_running ps cur next c n :
  cur <> next -> ps !! cur = Some c -> ps !! next = Some n -> state n = Runnable ->
  (forall i p, ps !! i = Some p -> state p = Running -> i = cur) ->
  exists ps', switch_states cur next ps = Some (true, ps') /\
    running ps' = [next] /\ length ps' = length ps /\
    ps' !! next = Some (set_state Running n) /\
    ps' !! cur = Some (if is_state Running c then set_state Runnable c else c) /\
    (forall i, i <> cur -> i <> next -> ps' !! i = ps !! i).
Proof.
  intros Hne Hc Hn Hrn Hown. unfold switch_states.
  rewrite (proj2 (Nat.eqb_neq _ _)) by done.
  rewrite (proj2 (pre_switch_owner_true ps cur)) by done. rewrite Hn. cbn [negb option_bind mbind].
  rewrite (proj2 (is_state_true _ _)) by done. cbn [negb]. rewrite Hc. cbn [mbind option_bind].
  set (c' := if is_state Running c then set_state Runnable c else c).
  set (ps1 := if is_state Running c then _ else ps).
  assert (ps1 = <[cur := c']> ps) as ->.
  { subst ps1 c'. destruct (is_state Running c); [done|]. by rewrite list_insert_id. }
  assert (state c' <> Running) as Hc'.
  { subst c'. destruct (is_state Running c) eqn:H; [done|]. by apply is_state_false in H. }
  set (ps2 := alter _ _ _). pose proof (lookup_lt_Some _ _ _ Hc) as Hlt.
  assert (ps2 !! next = Some (set_state Running n)) as H1.
  { subst ps2. rewrite list_lookup_alter_eq, list_lookup_insert_ne, Hn by done. done. }
  assert (ps2 !! cur = Some c') as H2.
  { subst ps2. by rewrite list_lookup_alter_ne, list_lookup_insert_eq by done. }
  assert (forall i, i <> cur -> i <> next -> ps2 !! i = ps !! i) as H3.
  { intros i ? ?. subst ps2. by rewrite list_lookup_alter_ne, list_lookup_insert_ne by done. }
  assert (running ps2 = [next]) as Hrun.
  { apply NoDup_singleton_elem; [apply running_from_NoDup|]. intros i. rewrite running_elem.
    split; [|intros ->; by eexists]. intros (p & Hp & Hs).
    destruct (decide (i = next)) as [|Hin]; [done|]. destruct (decide (i = cur)) as [->|Hic].
    - rewrite H2 in Hp. by simplify_eq.
    - rewrite H3 in Hp by done. destruct Hic. by eapply Hown. }
  exists ps2. split_and!; [|done| |done|done|done].
  - unfold validate_running_owner. by rewrite Hrun, Nat.eqb_refl.
  - subst ps2. by rewrite length_alter, length_insert.
Qed.

(** ** Signals: the pending-bit loop visits every pending signal *)

Lemma trailing_zeros_from_spec fuel : forall i z,
  0 <= i -> (exists j, i <= j < i + Z.of_nat fuel /\ Z.testbit z j = true) ->
  let t := trailing_zeros_from fuel i z in
  i <= t < i + Z.of_nat fuel /\ Z.testbit z t = true /\ forall j, i <= j < t -> Z.testbit z j = false.
Proof.
  induction fuel as [|n IH]; intros i z Hi (j & Hj & Hb); [lia|]. cbn [trailing_zeros_from].
  destruct (Z.testbit z i) eqn:Hz; [split_and!; [lia|lia|done|intros; lia]|].
  destruct (IH (i + 1) z) as (Ht & Htb & Hmin).
  - lia.
  - exists j. split; [|done]. destruct (decide (j = i)); [congruence|lia].
  - split_and!; [lia|lia|done|]. intros k Hk. destruct (decide (k = i)) as [->|]; [done|].
    apply Hmin. lia.
Qed.

Lemma in_width_bit z : in_width 64 z -> z <> 0 ->
  exists j, 0 <= j < 0 + Z.of_nat 64 /\ Z.testbit z j = true.
Proof.
  intros Hw Hz. exists (Z.log2 z). unfold in_width in Hw. split.
  - split; [apply Z.log2_nonneg|]. apply Z.log2_lt_pow2; lia.
  - apply Z.bit_log2. lia.
Qed.

Lemma trailing_zeros_spec z : in_width 64 z -> z <> 0 ->
  let t := trailing_zeros z in
  0 <= t < 64 /\ Z.testbit z t = true /\ forall j, 0 <= j < t -> Z.testbit z j = false.
Proof.
  intros Hw Hz. apply (trailing_zeros_from_spec 64 0 z); [lia|]. by apply in_width_bit.
Qed.

(** [bits & (bits - 1)] clears exactly the lowest set bit. *)
Lemma clear_lowest_bit b t j :
  0 < b -> 0 <= t -> Z.testbit b t = true -> (forall i, 0 <= i < t -> Z.testbit b i = false) ->
  0 <= j -> Z.testbit (Z.land b (b - 1)) j = Z.testbit b j && negb (j =? t).
Proof.
  intros Hb Ht Hbt Hlow Hj. rewrite Z.land_spec.
  assert (b = 2 ^ t * (b / 2 ^ t)) as Hdiv.
  { apply Z.div_exact; [lia|]. apply Z.bits_inj'. intros i Hi. rewrite Z.bits_0.
    destruct (decide (i < t)); [rewrite Z.mod_pow2_bits_low by lia; apply Hlow; lia|].
    by rewrite Z.mod_pow2_bits_high by lia. }
  set (q := b / 2 ^ t) in *.
  assert (Z.odd q = true) as Hodd.
  { rewrite <- Z.bit0_odd. unfold q. rewrite Z.div_pow2_bits by lia. by rewrite Z.add_0_l. }
  apply Z.odd_spec in Hodd as [m Hm]. assert (0 < 2 ^ t) as Hp by lia.
  destruct (Z.lt_total j t) as [Hlt|[-> |Hgt]].
  - by rewrite Hlow by lia.
  - rewrite Z.eqb_refl, andb_false_r.
    assert (Z.testbit (b - 1) t = false) as ->; [|by rewrite andb_false_r].
    rewrite <- (Z.add_0_l t) at 1. rewrite <- Z.div_pow2_bits, Z.bit0_odd by lia.
    replace ((b - 1) / 2 ^ t) with (2 * m); [by rewrite Z.odd_mul|].
    apply (Z.div_unique _ _ _ (2 ^ t - 1)); [lia|]. rewrite Hdiv, Hm. lia.
  - rewrite (proj2 (Z.eqb_neq _ _)) by lia. rewrite andb_true_r.
    assert (Z.testbit (b - 1) j = Z.testbit b j) as ->; [|by rewrite andb_diag].
    replace j with (j - (t + 1) + (t + 1)) by lia. rewrite <- !Z.div_pow2_bits by lia.
    f_equal. rewrite Z.pow_add_r by lia.
    transitivity m; [symmetry; apply (Z.div_unique _ _ _ (2 ^ t - 1))|apply (Z.div_unique _ _ _ (2 ^ t))];
      rewrite ?Hdiv, ?Hm; lia.
Qed.

Lemma interrupting_loop_spec p n : forall bits,
  in_width 64 bits -> (forall j, 0 <= j < 65 - Z.of_nat n -> Z.testbit bits j = false) ->
  interrupting_loop n p bits = true <->
  exists i, 0 <= i < 64 /\ Z.testbit bits i = true /\ signal_interrupts_sleep p (i + 1) = true.
Proof.
  induction n as [|n IH]; intros bits Hw Hlow; cbn [interrupting_loop].
  { split; [done|]. intros (i & Hi & Hb & _). rewrite Hlow in Hb by lia. done. }
  destruct (bits =? 0) eqn:Hz; bool_to_prop.
  { subst. split; [done|]. intros (i & _ & Hb & _). by rewrite Z.bits_0 in Hb. }
  destruct (trailing_zeros_spec bits Hw Hz) as (Ht & Htb & Hmin).
  set (t := trailing_zeros bits) in *. unfold in_width in Hw.
  replace (u64 (bits - 1)) with (bits - 1) by (unfold wrap; rewrite Z.mod_small; lia).
  pose proof (clear_lowest_bit bits t) as Hclr.
  destruct (signal_interrupts_sleep p (t + 1)) eqn:Hs; [split; [by exists t|done]|].
  assert (65 - Z.of_nat (S n) <= t).
  { destruct (decide (65 - Z.of_nat (S n) <= t)); [done|]. rewrite Hlow in Htb by lia. done. }
  rewrite IH.
  - split; intros (i & Hi & Hb & Hsig); exists i; (split; [done|]).
    + rewrite Hclr in Hb by (lia || done). apply andb_true_iff in Hb as [? _]. done.
    + rewrite Hclr by (lia || done). rewrite Hb. split; [|done].
      destruct (i =? t) eqn:Hit; bool_to_prop; [congruence|done].
  - split; [apply Z.land_nonneg; lia|].
    eapply Z.le_lt_trans; [apply Z_land_le_l; lia|lia].
  - intros j Hj. rewrite Hclr by (lia || done).
    destruct (j =? t) eqn:Hjt; bool_to_prop; [by rewrite andb_false_r|].
    rewrite Hmin by lia. done.
Qed.

(** The pending-bit loop reports a sleep-interrupting signal exactly when some pending signal number from 1 to 64 would interrupt a sleep. *)
Theorem has_sleep_interrupting_signal_iff p :
  in_width 64 (pending_signals p) ->
  has_sleep_interrupting_signal p = true <->
  exists sig, 1 <= sig <= 64 /\ Z.testbit (pending_signals p) (sig - 1) = true /\
    signal_interrupts_sleep p sig = true.
Proof.
  intros Hw. unfold has_sleep_interrupting_signal. rewrite interrupting_loop_spec; [|done|lia].
  split.
  - intros (i & Hi & Hb & Hs). exists (i + 1). split_and!; [lia|lia| |done].
    by rewrite Z.add_simpl_r.
  - intros (sig & Hi & Hb & Hs). exists (sig - 1). split_and!; [lia|lia|done|].
    by rewrite Z.sub_add.
Qed.

(** ** File descriptors *)

Lemma first_free_spec t : forall i,
  match first_free t i with
  | Some j => (i <= j)%nat /\ t !! (j - i)%nat = Some None /\
      forall k, (i <= k < j)%nat -> exists e, t !! (k - i)%nat = Some (Some e)
  | None => forall k, (k < length t)%nat -> exists e, t !! k = Some (Some e)
  end.
Proof.
  induction t as [|[e|] t IH]; intros i; simpl.
  - intros; lia.
  - specialize (IH (S i)). destruct (first_free t (S i)) as [j|].
    + destruct IH as (Hj & Hl & Hmin). split_and!; [lia| |].
      * by replace (j - i)%nat with (S (j - S i)) by lia.
      * intros k Hk. destruct (decide (k = i)) as [->|].
        { rewrite Nat.sub_diag. by exists e. }
        destruct (Hmin k) as [e' He']; [lia|]. exists e'.
        by replace (k - i)%nat with (S (k - S i)) by lia.
    + intros [|k] Hk; [by exists e|]. apply IH. lia.
  - split_and!; [lia|by rewrite Nat.sub_diag|intros; lia].
Qed.

(** [t] padded with free slots up to index [n]. *)
Lemma padded_lookup (t : list (option Z)) (n i : nat) :
  mjoin ((t ++ replicate n None) !! i) = mjoin (t !! i).
Proof.
  destruct (decide (i < length t)%nat).
  - by rewrite lookup_app_l.
  - rewrite lookup_app_r, (lookup_ge_None_2 t) by lia. simpl.
    destruct (replicate n None !! (i - length t)%nat) as [x|] eqn:Hx; [|done].
    by apply lookup_replicate in Hx as [-> _].
Qed.

Lemma fd_entry_insert p t i e fd :
  (i < length t)%nat -> (forall j, mjoin (t !! j) = mjoin (fd_table p !! j)) ->
  fd_entry (set_fd_table (<[i := e]> t) p) fd =
    if fd =? Z.of_nat i then e else fd_entry p fd.
Proof.
  intros Hi Ht. unfold fd_entry. simpl. destruct (fd <? 0) eqn:Hfd; bool_to_prop.
  { by rewrite (proj2 (Z.eqb_neq _ _)) by lia. }
  destruct (fd =? Z.of_nat i) eqn:He; bool_to_prop.
  - subst. by rewrite Nat2Z.id, list_lookup_insert_eq by done.
  - rewrite list_lookup_insert_ne by lia. apply Ht.
Qed.

(** install_fd returns the lowest free descriptor at or above the requested minimum, binds it to the entry and changes no other descriptor. *)
Theorem install_fd_lowest_free p entry min_fd :
  0 <= min_fd -> Z.max min_fd (Z.of_nat (length (fd_table p))) <= I32_MAX ->
  exists fd p', install_fd entry min_fd p = (inr fd, p') /\
    min_fd <= fd /\ fd_entry p fd = None /\
    (forall g, min_fd <= g < fd -> exists e, fd_entry p g = Some e) /\
    (forall g, fd_entry p' g = if g =? fd then Some entry else fd_entry p g).
Proof.
  intros Hm Hmax. unfold install_fd. rewrite (proj2 (Z.ltb_ge _ _)) by lia.
  set (start := Z.to_nat min_fd). set (t := if (_ <? start)%nat then _ else fd_table p).
  assert (forall j, mjoin (t !! j) = mjoin (fd_table p !! j)) as Ht.
  { intros j. subst t. case_if; [apply padded_lookup|done]. }
  assert ((start <= length t)%nat /\ Z.of_nat (length t) <= I32_MAX) as [Hst Hlen].
  { subst t start. case_if; rewrite ?length_app, ?length_replicate; lia. }
  assert (forall k, fd_entry p (Z.of_nat k) = mjoin (t !! k)) as Hfd.
  { intros k. unfold fd_entry. by rewrite (proj2 (Z.ltb_ge _ _)), Nat2Z.id, Ht by lia. }
  assert (forall j : nat, Z.of_nat j <= I32_MAX -> fd_result j = inr (Z.of_nat j)) as Hres.
  { intros j Hj. unfold fd_result. by rewrite (proj2 (Z.leb_le _ _)). }
  pose proof (first_free_spec (drop start t) start) as Hf.
  destruct (first_free (drop start t) start) as [i|].
  - destruct Hf as (Hi & Hl & Hmin). rewrite lookup_drop in Hl.
    replace (start + (i - start))%nat with i in Hl by lia.
    pose proof (lookup_lt_Some _ _ _ Hl). rewrite Hres by lia.
    eexists _, _. split_and!; [done|lia|by rewrite Hfd, Hl| |].
    + intros g Hg. destruct (Hmin (Z.to_nat g)) as [e He]; [lia|]. rewrite lookup_drop in He.
      replace (start + (Z.to_nat g - start))%nat with (Z.to_nat g) in He by lia.
      exists e. rewrite <- (Z2Nat.id g), Hfd, He by lia. done.
    + intros g. by apply fd_entry_insert.
  - rewrite Hres by lia. eexists _, _. split_and!; [done|lia| | |].
    + by rewrite Hfd, lookup_ge_None_2.
    + intros g Hg. destruct (Hf (Z.to_nat g - start)%nat) as [e He]; [rewrite length_drop; lia|].
      rewrite lookup_drop in He.
      replace (start + (Z.to_nat g - start))%nat with (Z.to_nat g) in He by lia.
      exists e. rewrite <- (Z2Nat.id g), Hfd, He by lia. done.
    + intros g. replace (t ++ [Some entry]) with (<[length t := Some entry]> (t ++ [None])).
      2: { rewrite insert_app_r_alt, Nat.sub_diag by lia. done. }
      apply fd_entry_insert; [rewrite length_app; simpl; lia|].
      intros j. rewrite <- Ht. apply (padded_lookup t 1).
Qed.

(** A successful close_fd returns the entry that was open, frees that descriptor only, and a second close fails with EBADF. *)
Theorem close_fd_frees p fd e p' :
  close_fd fd p = (inr e, p') ->
  fd_entry p fd = Some e /\
  (forall g, fd_entry p' g = if g =? fd then None else fd_entry p g) /\
  close_fd fd p' = (inl EBADF, p').
Proof.
  unfold close_fd. destruct (fd <? 0) eqn:Hfd; [done|].
  destruct (mjoin (fd_table p !! Z.to_nat fd)) as [x|] eqn:Hx; intros; simplify_eq. bool_to_prop.
  assert (Z.to_nat fd < length (fd_table p))%nat as Hlt.
  { destruct (fd_table p !! Z.to_nat fd) eqn:H; [by eapply lookup_lt_Some|done]. }
  split_and!.
  - unfold fd_entry. by rewrite (proj2 (Z.ltb_ge _ _)) by lia.
  - intros g. rewrite fd_entry_insert by done. by rewrite Z2Nat.id by lia.
  - simpl. by rewrite list_lookup_insert_eq by done.
Qed.

(** ** Instances *)

Definition idle_process (q : Z) (st : ProcessState) : Process :=
  mkProcess q q false 0 st [Some 7; None] 0 0 false false (replicate SIGNAL_COUNT inhabitant)
    (0, 0) 2 None None None.

Lemma find_next_round_robin_witness :
  match find_next_runnable_index [idle_process 1 Running; idle_process 2 Dead; idle_process 3 Runnable] 0 with
  | Some j => j <> 0%nat
  | None => False
  end.
Proof.
  apply (find_next_round_robin [idle_process 1 Running; idle_process 2 Dead; idle_process 3 Runnable] 0).
  simpl. lia.
Defined.

Lemma switch_one_running_witness :
  exists ps', switch_states 0 1 [idle_process 1 Running; idle_process 2 Runnable] = Some (true, ps') /\
    running ps' = [1%nat].
Proof.
  destruct (switch_one_running [idle_process 1 Running; idle_process 2 Runnable] 0 1
    (idle_process 1 Running) (idle_process 2 Runnable)) as (ps' & H1 & H2 & _);
    [done|done|done|done| |exists ps'; exact (conj H1 H2)].
  intros [|[|i]] p Hp Hs; simplify_eq/=; done.
Defined.

Lemma has_sleep_interrupting_signal_iff_witness :
  has_sleep_interrupting_signal (idle_process 1 Sleeping) = true.
Proof.
  apply (has_sleep_interrupting_signal_iff (idle_process 1 Sleeping)); [unfold in_width; simpl; lia|].
  exists 2. split; [lia|done].
Defined.

Lemma install_fd_lowest_free_witness :
  exists p', install_fd 9 0 (idle_process 1 Running) = (inr 1, p') /\ fd_entry p' 1 = Some 9.
Proof.
  destruct (install_fd_lowest_free (idle_process 1 Running) 9 0) as (fd & p' & H & _ & _ & _ & Hfd);
    [lia|unfold I32_MAX; simpl; lia|].
  exists p'. assert (fd = 1) as -> by (vm_compute in H; congruence). exact (conj H (Hfd 1)).
Defined.

Lemma close_fd_frees_witness : fd_entry (idle_process 1 Running) 0 = Some 7.
Proof. eapply (close_fd_frees (idle_process 1 Running) 0 7). reflexivity. Defined.
