(* ===== verification/Kernel.v ===== *)
(** * The kernel's blocking, waking and timer paths
      (sys/timer/mod.rs, driver/time/clockevent.rs, driver/time/mod.rs, utils/sync.rs
       and the scheduler of sys/proc/mod.rs, all under src/kernel/twilight_kernel/src)

    One record holds the statics these modules share.  Operations are state
    transformers; [Panic] is an [unwrap] or index failure.  RAII guards are
    written out: acquiring and dropping them are steps, on every return path.

    The section's variables are what the sources call but do not define:
    - [clock n] is the value of the [n]-th read of the hardware clocksource;
    - [min_delta_ns] is the smallest delta the local APIC accepts;
    - [reserve n] is the capacity the allocator grants a full heap of [n] entries;
    - [resume k] is the state in which a task that was switched out of in state
      [k] is switched back in: everything other tasks and interrupts did;
    - [wait_irq k] is the state after [halt()]: interrupts taken while halted. *)

From S2P Require Import Prelude TimerQueue Preempt Sched.
Open Scope twilight_scope.

Record Kernel := mkKernel {
  PROCESS_TABLE : option (list Process);
  PID : Z;
  TIMER_QUEUE : TimerQueue;
  DEFERRED_EXPIRY_PENDING : bool;
  pre : Preempt;
  ARMED_DEADLINE : Z;
  KERNEL_HLT_DEADLINE : Z;
  lapic_timer : option Z;
  clock_reads : nat;
  TIMER_EVENTS : Z;
}.

Definition set_table (t : option (list Process)) (k : Kernel) : Kernel :=
  mkKernel t (PID k) (TIMER_QUEUE k) (DEFERRED_EXPIRY_PENDING k) (pre k) (ARMED_DEADLINE k)
    (KERNEL_HLT_DEADLINE k) (lapic_timer k) (clock_reads k) (TIMER_EVENTS k).
Definition set_PID (p : Z) (k : Kernel) : Kernel :=
  mkKernel (PROCESS_TABLE k) p (TIMER_QUEUE k) (DEFERRED_EXPIRY_PENDING k) (pre k)
    (ARMED_DEADLINE k) (KERNEL_HLT_DEADLINE k) (lapic_timer k) (clock_reads k) (TIMER_EVENTS k).
Definition set_queue (q : TimerQueue) (k : Kernel) : Kernel :=
  mkKernel (PROCESS_TABLE k) (PID k) q (DEFERRED_EXPIRY_PENDING k) (pre k) (ARMED_DEADLINE k)
    (KERNEL_HLT_DEADLINE k) (lapic_timer k) (clock_reads k) (TIMER_EVENTS k).
Definition set_deferred (b : bool) (k : Kernel) : Kernel :=
  mkKernel (PROCESS_TABLE k) (PID k) (TIMER_QUEUE k) b (pre k) (ARMED_DEADLINE k)
    (KERNEL_HLT_DEADLINE k) (lapic_timer k) (clock_reads k) (TIMER_EVENTS k).
Definition set_pre (s : Preempt) (k : Kernel) : Kernel :=
  mkKernel (PROCESS_TABLE k) (PID k) (TIMER_QUEUE k) (DEFERRED_EXPIRY_PENDING k) s
    (ARMED_DEADLINE k) (KERNEL_HLT_DEADLINE k) (lapic_timer k) (clock_reads k) (TIMER_EVENTS k).
(** The armed deadline and the hardware timer are always written together. *)
Definition set_armed (a : Z) (l : option Z) (k : Kernel) : Kernel :=
  mkKernel (PROCESS_TABLE k) (PID k) (TIMER_QUEUE k) (DEFERRED_EXPIRY_PENDING k) (pre k) a
    (KERNEL_HLT_DEADLINE k) l (clock_reads k) (TIMER_EVENTS k).
Definition set_hlt (d : Z) (k : Kernel) : Kernel :=
  mkKernel (PROCESS_TABLE k) (PID k) (TIMER_QUEUE k) (DEFERRED_EXPIRY_PENDING k) (pre k)
    (ARMED_DEADLINE k) d (lapic_timer k) (clock_reads k) (TIMER_EVENTS k).
Definition set_reads (n : nat) (k : Kernel) : Kernel :=
  mkKernel (PROCESS_TABLE k) (PID k) (TIMER_QUEUE k) (DEFERRED_EXPIRY_PENDING k) (pre k)
    (ARMED_DEADLINE k) (KERNEL_HLT_DEADLINE k) (lapic_timer k) n (TIMER_EVENTS k).
Definition set_events (n : Z) (k : Kernel) : Kernel :=
  mkKernel (PROCESS_TABLE k) (PID k) (TIMER_QUEUE k) (DEFERRED_EXPIRY_PENDING k) (pre k)
    (ARMED_DEADLINE k) (KERNEL_HLT_DEADLINE k) (lapic_timer k) (clock_reads k) n.

(** Kernel operations do not return errors of their own. *)
Abbreviation K := (M Kernel Empty_set).

Definition ARMED_NONE : Z := U64_MAX.
Definition EXPIRY_BATCH : nat := 32.

Definition on_pre (f : Preempt -> Preempt) : K unit := modifyM (fun k => set_pre (f (pre k)) k).

(** A computation that may panic, run on the timer queue. *)
Definition on_queue {A} (f : TimerQueue -> option (A * TimerQueue)) : K A :=
  fun k => match f (TIMER_QUEUE k) with
           | Some (a, q) => (Ok a, set_queue q k)
           | None => (Panic, k)
           end.

(** [Mutex::lock_irq] held around [m]: mask, count, run, and undo in drop order. *)
Definition with_lock_irq {A} (m : K A) : K A :=
  k <-- getM ;;
  let '(was_enabled, s) := irq_save (pre k) in
  putM (set_pre (lock_count_inc (preempt_disable s)) k) >>>
  a <-- m ;;
  on_pre lock_count_dec >>>
  on_pre (irq_restore was_enabled) >>>
  on_pre preempt_enable_no_resched >>>
  retM a.

(** [x86_64::instructions::interrupts::without_interrupts]. *)
Definition without_interrupts {A} (m : K A) : K A :=
  k <-- getM ;;
  let was := interrupts_enabled (pre k) in
  on_pre (fun s => set_irq_mask (irq_disable_depth s) false s) >>>
  a <-- m ;;
  (if was then on_pre (fun s => set_irq_mask (irq_disable_depth s) true s) else retM tt) >>>
  retM a.

(** [is_live_wait]. *)
Definition is_live_wait (k : Kernel) (q : Z) (token : WaitToken) : bool :=
  match PROCESS_TABLE k with
  | None => false
  | Some ps => match get_process ps q with
               | Some p => match wait_token p with
                           | Some t => raw t =? raw token
                           | None => false
                           end
               | None => false
               end
  end.

(** [next_deadline_ns]. *)
Definition next_deadline_ns : K (option Z) :=
  with_lock_irq (k <-- getM ;; on_queue (fun q => peek_deadline_ns q (is_live_wait k))).

Section kernel.
Variable clock : nat -> Z.
Variable min_delta_ns : Z.
Variable reserve : nat -> option nat.
Variable resume : Kernel -> Kernel.
Variable wait_irq : Kernel -> Kernel.

Definition monotonic_ns : K Z :=
  fun k => (Ok (clock (clock_reads k)), set_reads (S (clock_reads k)) k).

(** ** driver/time/clockevent.rs *)

Definition min_option (a b : option Z) : option Z :=
  match a, b with
  | Some x, Some y => Some (Z.min x y)
  | Some x, None => Some x
  | None, _ => b
  end.

Definition earliest_deadline : K (option Z) :=
  sw <-- next_deadline_ns ;;
  k <-- getM ;;
  let q := quantum_deadline_ns (pre k) in
  let kernel_hlt := if KERNEL_HLT_DEADLINE k =? 0 then None else Some (KERNEL_HLT_DEADLINE k) in
  retM (min_option sw (min_option q kernel_hlt)).

Definition program_delta (abs now_ns : Z) : Z := Z.max (saturating_sub abs now_ns) min_delta_ns.

Definition rearm (now_ns : Z) : K unit :=
  without_interrupts (
    target <-- earliest_deadline ;;
    match target with
    | None => modifyM (set_armed ARMED_NONE None)
    | Some abs => modifyM (set_armed abs (Some (program_delta abs now_ns)))
    end).

Definition should_replace (cur new_abs : Z) : bool := new_abs <? cur.

Definition rearm_if_earlier (now_ns new_abs : Z) : K unit :=
  modifyM (fun k =>
    if negb (should_replace (ARMED_DEADLINE k) new_abs) then k
    else set_armed new_abs (Some (program_delta new_abs now_ns)) k).

Definition disarm : K unit := modifyM (set_armed ARMED_NONE None).

Definition clockevent_init : K unit :=
  modifyM (fun k => set_hlt 0 (set_armed ARMED_NONE (lapic_timer k) k)) >>>
  now <-- monotonic_ns ;; rearm now.

Definition arm_kernel_hlt_wake (deadline : Z) : K unit :=
  modifyM (set_hlt deadline) >>> now <-- monotonic_ns ;; rearm now.

Definition clear_kernel_hlt_wake : K unit :=
  modifyM (set_hlt 0) >>> now <-- monotonic_ns ;; rearm now.

Definition account_kernel_hlt_wake (now_ns : Z) : K unit :=
  modifyM (fun k => let d := KERNEL_HLT_DEADLINE k in
                    if negb (d =? 0) && (d <=? now_ns) then set_hlt 0 k else k).

(** ** The scheduler *)

(** Return [b], dropping the scheduler guard. *)
Definition release_return {A} (b : A) : K A := on_pre scheduler_release >>> retM b.

Definition arm_quantum_for_current (ps : list Process) (cur : nat) : K unit :=
  now_ns <-- monotonic_ns ;;
  (match find_next_runnable_index ps cur with
   | Some _ => on_pre (reset_quantum now_ns)
   | None => on_pre clear_quantum
   end) >>>
  rearm now_ns.

(** Called with the scheduler guard held; [true] when the task was switched out
    and back in. *)
Definition switch_by_index_guarded (cur next : nat) : K bool :=
  k <-- getM ;;
  match PROCESS_TABLE k with
  | None => panicM
  | Some ps =>
    match switch_states cur next ps with
    | None => panicM
    | Some (false, ps') => putM (set_table (Some ps') k) >>> release_return false
    | Some (true, ps') =>
      putM (set_table (Some ps') k) >>>
      arm_quantum_for_current ps' next >>>
      match ps' !! next with
      | None => panicM
      | Some nx =>
        modifyM (set_PID (pid nx)) >>>
        on_pre scheduler_release >>>
        modifyM resume >>>
        retM true
      end
    end
  end.

Definition try_enter : K bool :=
  fun k => let '(ok, s) := scheduler_try_enter (pre k) in (Ok ok, set_pre s k).

Definition schedule_now : K bool :=
  ok <-- try_enter ;;
  if negb ok then retM false
  else
    on_pre clear_need_resched >>>
    k <-- getM ;;
    match PROCESS_TABLE k with
    | None => release_return false
    | Some ps =>
      if (length ps <? 2)%nat then release_return false
      else match find_process_index ps (PID k) with
           | None => release_return false
           | Some cur =>
             match find_next_runnable_index ps cur with
             | None => release_return false
             | Some next => switch_by_index_guarded cur next
             end
           end
    end.

Definition cond_resched : K unit :=
  k <-- getM ;;
  if cond_resched_schedules (pre k) then schedule_now >>> retM tt else retM tt.

(** A [PreemptGuard::new()] held around [m]; dropping it is a scheduling point. *)
Definition with_preempt_guard {A} (m : K A) : K A :=
  on_pre preempt_disable >>>
  a <-- m ;;
  k <-- getM ;;
  let '(s, schedules) := preempt_enable (pre k) in
  putM (set_pre s k) >>>
  (if schedules : bool then schedule_now >>> retM tt else retM tt) >>>
  retM a.

(** ** Waking *)

Definition wake_process (q : Z) : K unit :=
  with_preempt_guard (
    k <-- getM ;;
    match PROCESS_TABLE k with
    | None => panicM
    | Some ps =>
      match get_process ps q with
      | None => retM tt
      | Some p =>
        match state p with
        | AwaitingIo =>
          let woken p := set_wait (wait_token p) (wait_deadline_ns p) (Some Event)
                           (set_pending_io true (set_state Runnable p)) in
          modifyM (set_table (Some (update_process woken q ps))) >>>
          (match negb (q =? PID k), quantum_deadline_ns (pre k) with
           | true, None =>
             now <-- monotonic_ns ;;
             on_pre (reset_quantum now) >>>
             k <-- getM ;;
             match quantum_deadline_ns (pre k) with
             | Some deadline => rearm_if_earlier now deadline
             | None => retM tt
             end
           | _, _ => retM tt
           end)
        | Dead | Stopped => retM tt
        | _ => modifyM (set_table (Some (update_process (set_pending_io true) q ps)))
        end
      end
    end).

(** The table change of [wake_from_timer]. *)
Definition wake_table (q : Z) (token : WaitToken) (kind : DeadlineKind) (ps : list Process)
    : list Process :=
  match get_process ps q with
  | None => ps
  | Some p =>
    if match wait_token p with Some t => negb (raw t =? raw token) | None => true end then ps
    else match kind with
         | Sleep =>
           if negb (is_state Sleeping p) then ps
           else update_process (fun p =>
                  set_wait None None (Some Deadline) (set_state Runnable p)) q ps
         | IoTimeout =>
           if negb (is_state AwaitingIo p) then ps
           else update_process (fun p =>
                  set_wait None None (Some Deadline) (set_pending_io true (set_state Runnable p))) q ps
         end
  end.

Definition wake_from_timer (q : Z) (token : WaitToken) (kind : DeadlineKind) : K unit :=
  with_preempt_guard (modifyM (fun k =>
    match PROCESS_TABLE k with
    | None => k
    | Some ps => set_table (Some (wake_table q token kind ps)) k
    end)).

(** [proc::queue_signal]. *)
Definition queue_signal (q sig : Z) : K bool :=
  with_preempt_guard (
    k <-- getM ;;
    match PROCESS_TABLE k with
    | None => retM false
    | Some ps =>
      match get_process ps q with
      | None => retM false
      | Some _ =>
        modifyM (set_table (Some (update_process (Process_queue_signal sig) q ps))) >>>
        wake_process q >>>
        retM true
      end
    end).

(** ** sys/timer/mod.rs *)

(** The batch loop: pop up to [n] due entries. *)
Fixpoint collect_batch (n : nat) (now_ns : Z) : K (list DeadlineEntry) :=
  match n with
  | O => retM []
  | S n =>
    k <-- getM ;;
    r <-- on_queue (fun q => pop_due q now_ns (is_live_wait k)) ;;
    match r with
    | Some e => b <-- collect_batch n now_ns ;; retM (e :: b)
    | None => retM []
    end
  end.

(** The critical section of both expiry loops: the batch, and whether more is due. *)
Definition pop_batch (now_ns : Z) : K (list DeadlineEntry * bool) :=
  with_lock_irq (
    batch <-- collect_batch EXPIRY_BATCH now_ns ;;
    k <-- getM ;;
    d <-- on_queue (fun q => peek_deadline_ns q (is_live_wait k)) ;;
    retM (batch, match d with Some d => d <=? now_ns | None => false end)).

Fixpoint wake_batch (batch : list DeadlineEntry) : K unit :=
  match batch with
  | [] => retM tt
  | e :: batch => wake_from_timer (entry_pid e) (entry_token e) (entry_kind e) >>> wake_batch batch
  end.

Definition expire_due (now_ns : Z) : K unit :=
  bm <-- pop_batch now_ns ;;
  wake_batch bm.1 >>>
  (if bm.2 : bool then modifyM (set_deferred true) else retM tt).

(** Each round but the last pops a full batch, so as many rounds as the queue has
    entries are enough when no other task runs in between; [Panic] marks
    exhausted fuel. *)
Fixpoint deferred_loop (fuel : nat) (now_ns : Z) : K unit :=
  match fuel with
  | O => panicM
  | S fuel =>
    bm <-- pop_batch now_ns ;;
    wake_batch bm.1 >>>
    (if negb bm.2 then retM tt else deferred_loop fuel now_ns)
  end.

Definition process_deferred_expiry (fuel : nat) : K unit :=
  k <-- getM ;;
  if negb (DEFERRED_EXPIRY_PENDING k) then retM tt
  else
    now_ns <-- monotonic_ns ;;
    deferred_loop fuel now_ns >>>
    modifyM (set_deferred false) >>>
    now <-- monotonic_ns ;;
    rearm now.

(** driver/time/mod.rs *)
Definition handle_timer_event : K unit :=
  modifyM (fun k => set_events (u64 (TIMER_EVENTS k + 1)) k) >>>
  now <-- monotonic_ns ;;
  on_pre (account_quantum now) >>>
  account_kernel_hlt_wake now >>>
  expire_due now >>>
  rearm now.

(** sys/proc/mod.rs *)
Definition timer_preempt_common (fuel : nat) (from_user : Z) : K unit :=
  process_deferred_expiry fuel >>>
  if negb (from_user =? 0) then schedule_now >>> retM tt
  else if ENABLE_KERNEL_PREEMPTION then
    k <-- getM ;;
    (if can_preempt_kernel ENABLE_KERNEL_PREEMPTION (pre k) then schedule_now >>> retM tt else retM tt)
  else retM tt.

(** The local APIC end-of-interrupt write between the two has no state here. *)
Definition apic_timer_preempt (fuel : nat) (from_user : Z) : K unit :=
  on_pre irq_enter >>>
  handle_timer_event >>>
  on_pre irq_exit >>>
  timer_preempt_common fuel from_user.

(** ** Blocking *)

(** [executor::halt]: enable interrupts, halt, restore the disabled state. *)
Definition halt : K unit :=
  k <-- getM ;;
  let disabled := negb (interrupts_enabled (pre k)) in
  let mask b := on_pre (fun s => set_irq_mask (irq_disable_depth s) b s) in
  mask true >>> modifyM wait_irq >>> (if disabled then mask false else retM tt).

(** Push an entry; [false] is the error of [try_reserve_push]. *)
Definition push_entry (e : DeadlineEntry) : K bool :=
  on_queue (fun q => r ← try_reserve_push reserve q e;
                     Some (match r with inr q' => (true, q') | inl _ => (false, q) end)).

Definition mint_token : K WaitToken := on_queue (fun q => Some (next_token q)).

(** Steps (4) and (5) of [block_current_until]. *)
Definition block_publish (cur_pid now deadline : Z) : K (option WaitToken) :=
  with_lock_irq (
    token <-- mint_token ;;
    if raw token =? raw EXHAUSTED then retM None
    else
      pushed <-- push_entry (mkEntry deadline cur_pid token Sleep) ;;
      if negb pushed then retM None
      else
        k <-- getM ;;
        match PROCESS_TABLE k with
        | None => retM None
        | Some ps =>
          match get_process ps cur_pid with
          | None => retM None
          | Some _ =>
            modifyM (set_table (Some (update_process (fun p =>
              set_state Sleeping (set_wait (Some token) (Some deadline) None p)) cur_pid ps))) >>>
            rearm_if_earlier now deadline >>>
            retM (Some token)
          end
        end).

(** The loop of [idle_until_woken]; it ends when the task is woken or its deadline
    passes, so it takes fuel, and [Panic] marks exhausted fuel. *)
Fixpoint idle_loop (fuel : nat) (cur_pid : Z) : K unit :=
  match fuel with
  | O => panicM
  | S fuel =>
    k <-- getM ;;
    match PROCESS_TABLE k with
    | None => retM tt
    | Some ps =>
      match get_process ps cur_pid with
      | None => retM tt
      | Some cur =>
        match wake_reason cur with
        | Some _ => retM tt
        | None =>
          now <-- monotonic_ns ;;
          if default 0 (wait_deadline_ns cur) <=? now then retM tt
          else
            switched <-- schedule_now ;;
            if switched : bool then idle_loop fuel cur_pid
            else halt >>> idle_loop fuel cur_pid
        end
      end
    end
  end.

(** [IrqGuard] held around [m]. *)
Definition with_irq_guard {A} (m : K A) : K A :=
  k <-- getM ;;
  let '(was_enabled, s) := irq_save (pre k) in
  putM (set_pre s k) >>> a <-- m ;; on_pre (irq_restore was_enabled) >>> retM a.

Definition idle_until_woken (fuel : nat) (cur_pid : Z) : K unit :=
  with_irq_guard (idle_loop fuel cur_pid).

Definition read_and_clear_wake_reason (cur_pid deadline : Z) : K WakeReason :=
  with_preempt_guard (
    k <-- getM ;;
    match PROCESS_TABLE k with
    | None => retM Deadline
    | Some ps =>
      match get_process ps cur_pid with
      | None => retM Deadline
      | Some cur =>
        reason <-- match wake_reason cur with
                   | Some r => retM r
                   | None => now <-- monotonic_ns ;;
                             retM (if deadline <=? now then Deadline else Cancelled)
                   end ;;
        modifyM (set_table (Some (update_process (fun p =>
          set_state Running (set_wait None None None p)) cur_pid ps))) >>>
        retM reason
      end
    end).

Definition block_current_until (fuel : nat) (deadline : Z) : K WakeReason :=
  k <-- getM ;;
  let cur_pid := PID k in
  ok <-- try_enter ;;
  if negb ok then retM Cancelled
  else
    now <-- monotonic_ns ;;
    if deadline <=? now then release_return Deadline
    else
      k <-- getM ;;
      match PROCESS_TABLE k with
      | None => release_return Cancelled
      | Some ps =>
        if match get_process ps cur_pid with
           | Some p => has_sleep_interrupting_signal p
           | None => false
           end
        then release_return Signal
        else
          t <-- block_publish cur_pid now deadline ;;
          match t with
          | None => release_return Cancelled
          | Some _ =>
            on_pre scheduler_release >>>
            switched <-- schedule_now ;;
            (if switched : bool then retM tt else idle_until_woken fuel cur_pid) >>>
            read_and_clear_wake_reason cur_pid deadline
          end
      end.

Definition arm_current_locked (deadline : Z) (kind : DeadlineKind) : K WaitToken :=
  k <-- getM ;;
  with_lock_irq (
    token <-- mint_token ;;
    if raw token =? raw EXHAUSTED then retM token
    else
      pushed <-- push_entry (mkEntry deadline (PID k) token kind) ;;
      retM (if pushed : bool then token else EXHAUSTED)).

(** [process] is the table entry of [q], the caller's current process. *)
Definition arm_io_timeout_locked (q deadline : Z) : K (option WaitToken) :=
  token <-- arm_current_locked deadline IoTimeout ;;
  if raw token =? raw EXHAUSTED then retM None
  else
    modifyM (fun k => match PROCESS_TABLE k with
                      | Some ps => set_table (Some (update_process
                          (set_wait (Some token) (Some deadline) None) q ps)) k
                      | None => k
                      end) >>>
    now <-- monotonic_ns ;;
    rearm_if_earlier now deadline >>>
    retM (Some token).

Definition cancel_owned (token : WaitToken) : K unit :=
  with_preempt_guard (modifyM (fun k =>
    match PROCESS_TABLE k with
    | None => k
    | Some ps =>
      match get_process ps (PID k) with
      | Some cur =>
        if match wait_token cur with Some t => raw t =? raw token | None => false end
        then set_table (Some (update_process (fun p =>
               set_wait None None (wake_reason p) p) (PID k) ps)) k
        else k
      | None => k
      end
    end)).

Definition take_wake_reason (q : Z) : K WakeReason :=
  with_preempt_guard (
    k <-- getM ;;
    match PROCESS_TABLE k with
    | None => retM Event
    | Some ps =>
      match get_process ps q with
      | None => retM Event
      | Some p =>
        modifyM (set_table (Some (update_process (fun p =>
          set_wait (wait_token p) (wait_deadline_ns p) None p) q ps))) >>>
        retM (default Event (wake_reason p))
      end
    end).

(** ** Exiting *)

(** How an exit path leaves its task: halting for ever, switched away from, or
    idling until another task is runnable. *)
Inductive ExitOutcome := Halted | Switched | Idling.

(** [idle_until_runnable] up to its loop of [schedule_now] and [halt]. *)
Definition idle_until_runnable_entry : K unit :=
  on_pre clear_quantum >>>
  now <-- monotonic_ns ;;
  rearm now >>>
  on_pre (fun s => (irq_save s).2).

(** The tail shared by the exit paths: switch to [next], or release and idle. *)
Definition leave (cur : nat) (next : option nat) : K ExitOutcome :=
  match next with
  | Some next => switch_by_index_guarded cur next >>> retM Switched
  | None => on_pre scheduler_release >>> idle_until_runnable_entry >>> retM Idling
  end.

Definition parent_or_next (ps : list Process) (parent : Z) (cur : nat) : option nat :=
  match find_process_index ps parent with
  | Some i => match ps !! i with
              | Some p => if is_state Runnable p then Some i else find_next_runnable_index ps cur
              | None => find_next_runnable_index ps cur
              end
  | None => find_next_runnable_index ps cur
  end.

(** SIGCHLD to the parent, and the wake of a parent blocked in wait or I/O. *)
Definition notify_parent (parent : Z) (ps : list Process) : list Process :=
  update_process (fun p =>
    let p := Process_queue_signal SIGCHLD p in
    match state p with
    | Waiting | SignalWait | AwaitingIo => set_pending_io false (set_state Runnable p)
    | _ => p
    end) parent ps.

Definition die (code status : Z) (p : Process) : Process :=
  set_exit code status false (set_state Dead (invalidate_wait_token (close_all_fds p))).

(** A thread's exit leaves its wait status alone. *)
Definition die_thread (code : Z) (p : Process) : Process :=
  set_exit code (wait_status p) (wait_reported p)
    (set_state Dead (invalidate_wait_token (close_all_fds p))).

(** The table of [exit] once the current process is dead and its family told. *)
Definition exit_table (code status cur_pid : Z) (cur : nat) (parent : Z) (ps : list Process)
    : list Process :=
  notify_parent parent (alter (die code status) cur (reparent_children cur_pid ps)).

Definition exit (code : Z) : K ExitOutcome :=
  ok <-- try_enter ;;
  if negb ok then retM Halted
  else
    k <-- getM ;;
    match PROCESS_TABLE k with
    | None => panicM
    | Some ps =>
      match find_process_index ps (PID k) with
      | None => retM Halted
      | Some cur =>
        match ps !! cur with
        | None => panicM
        | Some c =>
          if is_thread c then
            let ps' := alter (die_thread code) cur ps in
            modifyM (set_table (Some ps')) >>> leave cur (find_next_runnable_index ps' cur)
          else
            let status := Z.shiftl (Z.land code 255) 8 in
            let ps' := exit_table code status (PID k) cur (parent_pid c) ps in
            modifyM (set_table (Some ps')) >>> leave cur (parent_or_next ps' (parent_pid c) cur)
        end
      end
    end.

Definition terminate_current_by_signal (sig : Z) : K ExitOutcome :=
  ok <-- try_enter ;;
  if negb ok then retM Halted
  else
    k <-- getM ;;
    match PROCESS_TABLE k with
    | None => panicM
    | Some ps =>
      match find_process_index ps (PID k) with
      | None => retM Halted
      | Some cur =>
        match ps !! cur with
        | None => panicM
        | Some c =>
          let ps' := exit_table (128 + sig) (Z.land sig 127) (PID k) cur (parent_pid c) ps in
          modifyM (set_table (Some ps')) >>> leave cur (parent_or_next ps' (parent_pid c) cur)
        end
      end
    end.

End kernel.
