(* ===== verification/KernelFacts.v ===== *)
(** * Facts on the kernel's guards, timer queue access and clockevent

    Lemmas that let the theorems on the timer paths reason about the bodies of
    critical sections: a lock or guard around a body is undone exactly, and the
    queue operations meet their contracts on the kernel state. *)

From S2P Require Import Prelude TimerQueue Preempt Sched Kernel.
Open Scope twilight_scope.

(** Counters that cannot wrap, and interrupts off while a masking guard is live. *)
Definition pre_ok (s : Preempt) : Prop :=
  0 <= preempt_count s < U64_MAX /\ 0 <= irq_disable_depth s < U64_MAX /\
  0 <= held_lock_count s < U64_MAX /\
  (irq_disable_depth s <> 0 -> interrupts_enabled s = false).

(** The counters inside a [lock_irq] critical section. *)
Definition locked (s : Preempt) : Preempt := lock_count_inc (preempt_disable (irq_save s).2).

Lemma decrement_inc c : 0 <= c < U64_MAX -> decrement (usize (c + 1)) = Some c.
Proof.
  intros Hc. unfold decrement, wrap. rewrite Z.mod_small by (unfold U64_MAX in *; lia).
  rewrite (proj2 (Z.eqb_neq _ _)) by lia. f_equal. lia.
Qed.

Lemma unlock_locked s : pre_ok s ->
  preempt_enable_no_resched (irq_restore (irq_save s).1 (lock_count_dec (locked s))) = s.
Proof.
  intros (Hp & Hi & Hl & Hif). destruct s. unfold locked, lock_count_dec, lock_count_inc.
  simpl in *. rewrite decrement_inc by done. unfold irq_restore. simpl. rewrite decrement_inc by done.
  unfold preempt_enable_no_resched. simpl. rewrite decrement_inc by done.
  unfold set_irq_mask, set_preempt_count, set_held_lock_count. simpl. f_equal.
  destruct (_ =? 0) eqn:Hz; bool_to_prop; simpl; [by destruct interrupts_enabled|].
  symmetry. by apply Hif.
Qed.

Lemma set_pre_pre k : set_pre (pre k) k = k.
Proof. by destruct k. Qed.

(** A critical section whose body leaves the counters alone has the effect of
    its body. *)
Lemma with_lock_irq_ok {A} (m : K A) k a k' :
  pre_ok (pre k) ->
  m (set_pre (locked (pre k)) k) = (Ok a, k') -> pre k' = locked (pre k) ->
  with_lock_irq m k = (Ok a, set_pre (pre k) k').
Proof.
  intros Hok Hm Hpre. unfold with_lock_irq, bindM, getM. simpl.
  change (set_pre _ k) with (set_pre (locked (pre k)) k). unfold putM. rewrite Hm.
  unfold on_pre, modifyM, retM. simpl. rewrite Hpre.
  change (interrupts_enabled (pre k)) with (irq_save (pre k)).1.
  rewrite unlock_locked by done. done.
Qed.

(** Dropping a guard in state [s] is not a scheduling point. *)
Definition quiet (s : Preempt) : Prop :=
  preempt_count s <> 0 \/ cond_resched_schedules s = false.

Lemma preempt_enable_disabled s :
  0 <= preempt_count s < U64_MAX -> quiet s ->
  preempt_enable (preempt_disable s) = (s, false).
Proof.
  intros Hp Hq. destruct s. unfold preempt_enable, preempt_disable. simpl in *.
  rewrite decrement_inc by done. unfold set_preempt_count. simpl. f_equal.
  destruct (_ =? 0) eqn:Hz; [|done]. bool_to_prop. destruct Hq as [Hq|Hq]; [by simpl in Hq|done].
Qed.

Section facts.
Context (clock : nat -> Z) (min_delta_ns : Z) (resume : Kernel -> Kernel).

Lemma with_preempt_guard_ok {A} (m : K A) k a k' :
  0 <= preempt_count (pre k) < U64_MAX -> quiet (pre k) ->
  m (set_pre (preempt_disable (pre k)) k) = (Ok a, k') -> pre k' = preempt_disable (pre k) ->
  with_preempt_guard clock min_delta_ns resume m k = (Ok a, set_pre (pre k) k').
Proof.
  intros Hok Hq Hm Hpre. unfold with_preempt_guard, bindM, on_pre, modifyM. simpl.
  rewrite Hm. unfold getM, putM. rewrite Hpre, preempt_enable_disabled by done. done.
Qed.

Lemma wake_from_timer_ok q token kind k ps :
  0 <= preempt_count (pre k) < U64_MAX -> quiet (pre k) -> PROCESS_TABLE k = Some ps ->
  wake_from_timer clock min_delta_ns resume q token kind k =
    (Ok tt, set_table (Some (wake_table q token kind ps)) k).
Proof.
  intros Hp Hq Ht. unfold wake_from_timer.
  erewrite with_preempt_guard_ok; [|done|done|unfold modifyM; simpl; by rewrite Ht|done].
  by destruct k.
Qed.

(** The table after a whole batch of wakes. *)
Definition wake_all (batch : list DeadlineEntry) (ps : list Process) : list Process :=
  foldl (fun ps e => wake_table (entry_pid e) (entry_token e) (entry_kind e) ps) ps batch.

Lemma wake_batch_ok batch : forall k ps,
  0 <= preempt_count (pre k) < U64_MAX -> quiet (pre k) -> PROCESS_TABLE k = Some ps ->
  wake_batch clock min_delta_ns resume batch k = (Ok tt, set_table (Some (wake_all batch ps)) k).
Proof.
  induction batch as [|e batch IH]; intros k ps Hp Hq Ht; cbn [wake_batch].
  - unfold retM, wake_all. simpl. rewrite <- Ht. by destruct k.
  - unfold bindM. erewrite wake_from_timer_ok by done. by erewrite IH.
Qed.
End facts.

(** ** Batches *)

(** What one batch takes out of the queue [h], leaving [h']. *)
Definition batch_spec (now_ns : Z) (lv : Z -> WaitToken -> bool) (n : nat)
    (h batch h' : list DeadlineEntry) : Prop :=
  (length batch <= n)%nat /\
  filter (live lv) h ≡ₚ batch ++ filter (live lv) h' /\
  (exists disc, h ≡ₚ disc ++ batch ++ h' /\ Forall (fun e => ~ live lv e) disc) /\
  Forall (fun e => due now_ns e /\ live lv e) batch /\
  StronglySorted entry_le batch /\
  (forall x y, x ∈ batch -> y ∈ h' -> entry_le x y) /\
  ((length batch < n)%nat -> Forall (fun e => ~ due now_ns e) h').

Lemma filter_disc {lv} disc r h :
  Forall (fun e => ~ live lv e) disc -> Forall (live lv) r ->
  filter (live lv) (disc ++ r ++ h) = r ++ filter (live lv) h.
Proof. intros Hd Hr. by rewrite !filter_app, (filter_none _ disc), (filter_all _ r). Qed.

Lemma batch_spec_nil now lv n h h' disc :
  h ≡ₚ disc ++ h' -> Forall (fun e => due now e /\ ~ live lv e) disc ->
  Forall (fun e => ~ due now e) h' -> batch_spec now lv n h [] h'.
Proof.
  intros Hp Hd Hn. assert (Forall (fun e => ~ live lv e) disc) as Hd' by (eapply Forall_impl; [done|naive_solver]).
  unfold batch_spec. split_and!; [simpl; lia| |by exists disc|done|constructor| |done].
  - rewrite Hp, filter_app, (filter_none _ disc) by done. done.
  - by intros x y ?%elem_of_nil.
Qed.

Lemma batch_spec_cons now lv n e h h1 batch h' :
  spec_pop_due now lv h (Some e) h1 -> batch_spec now lv n h1 batch h' ->
  batch_spec now lv (S n) h (e :: batch) h'.
Proof.
  intros (d0 & Hp & Hd0 & Hdue & Hlive & Hmin) (Hlen & Hf & (disc & Hh1 & Hdisc) & Hall & Hs & Hle & Hlast).
  assert (Forall (fun e => ~ live lv e) d0) as Hd0' by (eapply Forall_impl; [done|naive_solver]).
  rewrite Forall_forall in Hmin.
  assert (forall x, x ∈ batch \/ x ∈ h' -> entry_le e x) as He.
  { intros x Hx. apply Hmin. rewrite Hh1, !elem_of_app. naive_solver. }
  unfold batch_spec. split_and!.
  - simpl. lia.
  - rewrite Hp. cbn [option_list]. rewrite (filter_disc d0 [e]) by auto. simpl. by rewrite Hf.
  - exists (d0 ++ disc). split; [|by apply Forall_app]. rewrite Hp, Hh1. simpl.
    rewrite <- app_assoc. apply Permutation_app_head. simpl. by rewrite Permutation_middle.
  - by constructor.
  - constructor; [done|]. apply Forall_forall. auto.
  - intros x y [-> |Hx]%elem_of_cons Hy; auto.
  - simpl. intros. apply Hlast. lia.
Qed.

Lemma batch_spec_zero now lv h : batch_spec now lv 0 h [] h.
Proof.
  unfold batch_spec. split_and!; [simpl; lia|done|by exists []|constructor|constructor| |simpl; lia].
  by intros x y ?%elem_of_nil.
Qed.

Lemma collect_batch_ok now lv n : forall k,
  is_live_wait k = lv -> queue_wf (TIMER_QUEUE k) ->
  exists batch q', collect_batch n now k = (Ok batch, set_queue q' k) /\ queue_wf q' /\
    batch_spec now lv n (heap (TIMER_QUEUE k)) batch (heap q').
Proof.
  induction n as [|n IH]; intros k Hlv Hwf; cbn [collect_batch].
  { exists [], (TIMER_QUEUE k). split_and!; [by destruct k|done|apply batch_spec_zero]. }
  unfold bindM, getM, on_queue. rewrite Hlv.
  destruct (pop_due_spec (TIMER_QUEUE k) now lv Hwf) as (r & q1 & -> & Hwf1 & Hs).
  destruct r as [e|].
  - destruct (IH (set_queue q1 k)) as (batch & q' & -> & Hwf' & Hb); [done|done|].
    exists (e :: batch), q'. split_and!; [done|done|]. by eapply batch_spec_cons.
  - destruct Hs as (disc & Hp & Hd & Hn). exists [], q1. split_and!; [done|done|].
    by eapply batch_spec_nil.
Qed.
