(* ===== verification/Timer.v ===== *)
(** * Theorems on timer expiry

    What the hard-IRQ batch and its deferred remainder do to the process table:
    every live due wait is woken exactly once, in deadline order, and nothing
    else changes. *)

From S2P Require Import Prelude TimerQueue Preempt Sched Kernel KernelFacts.
Open Scope twilight_scope.

(** The process that waits on [token]. *)
Definition token_matches (p : Process) (token : WaitToken) : bool :=
  match wait_token p with Some t => raw t =? raw token | None => false end.

(** What a timer wake of the given kind does to the waiting process. *)
Definition timer_wake (kind : DeadlineKind) (p : Process) : Process :=
  match kind with
  | Sleep => if is_state Sleeping p
             then set_wait None None (Some Deadline) (set_state Runnable p) else p
  | IoTimeout => if is_state AwaitingIo p
                 then set_wait None None (Some Deadline) (set_pending_io true (set_state Runnable p))
                 else p
  end.

(** A process after the wakes of [batch]: by the entry that names it, if any. *)
Definition woken (batch : list DeadlineEntry) (p : Process) : Process :=
  match filter (fun e => entry_pid e = pid p) batch with
  | e :: _ => timer_wake (entry_kind e) p
  | [] => p
  end.

(** Every wait the queue still has to report. *)
Definition live_due (now_ns : Z) (lv : Z -> WaitToken -> bool) (e : DeadlineEntry) : Prop :=
  due now_ns e /\ live lv e.
#[export] Instance live_due_dec now_ns lv e : Decision (live_due now_ns lv e).
Proof. unfold live_due. apply _. Defined.

(** A table with unique process ids, a well-formed queue, sane counters, and a
    state in which dropping a guard is not a scheduling point. *)
Definition kernel_ok (k : Kernel) (ps : list Process) : Prop :=
  PROCESS_TABLE k = Some ps /\ NoDup (pid <$> ps) /\ queue_wf (TIMER_QUEUE k) /\
  pre_ok (pre k) /\ quiet (pre k).

Lemma pid_timer_wake kind p : pid (timer_wake kind p) = pid p.
Proof. destruct kind; simpl; by destruct (is_state _ p). Qed.
Lemma pid_woken b p : pid (woken b p) = pid p.
Proof. unfold woken. destruct (filter _ _); [done|]. apply pid_timer_wake. Qed.
Lemma pids_woken b (ps : list Process) : pid <$> (woken b <$> ps) = pid <$> ps.
Proof. rewrite <- list_fmap_compose. apply list_fmap_ext. intros. apply pid_woken. Qed.

Lemma get_process_lookup ps i p :
  NoDup (pid <$> ps) -> ps !! i = Some p -> get_process ps (pid p) = Some p.
Proof. intros Hnd Hi. unfold get_process. by rewrite (find_process_index_unique ps i p). Qed.

Lemma update_process_fmap f q ps :
  NoDup (pid <$> ps) -> update_process f q ps = (fun p => if pid p =? q then f p else p) <$> ps.
Proof.
  intros Hnd. apply list_eq. intros i. rewrite list_lookup_fmap. unfold update_process.
  destruct (ps !! i) as [p|] eqn:Hi; simpl.
  2: { destruct (find_process_index ps q); [|done]. apply lookup_ge_None.
       rewrite length_alter. by apply lookup_ge_None. }
  destruct (pid p =? q) eqn:Hp; bool_to_prop.
  - rewrite <- Hp, (find_process_index_unique ps i p), list_lookup_alter_eq, Hi by done. done.
  - destruct (find_process_index ps q) as [j|] eqn:Hj; [|done].
    apply find_process_index_Some in Hj as (p' & Hp' & Hq).
    rewrite list_lookup_alter_ne; [done|]. intros ->. congruence.
Qed.

Lemma is_live_wait_lookup k ps i p t :
  PROCESS_TABLE k = Some ps -> NoDup (pid <$> ps) -> ps !! i = Some p ->
  is_live_wait k (pid p) t = token_matches p t.
Proof. intros Ht Hnd Hi. unfold is_live_wait. by rewrite Ht, (get_process_lookup ps i p). Qed.

(** A live entry's process is in the table and publishes its token. *)
Lemma live_process k ps e :
  PROCESS_TABLE k = Some ps -> NoDup (pid <$> ps) -> live (is_live_wait k) e ->
  exists i p, ps !! i = Some p /\ pid p = entry_pid e /\ token_matches p (entry_token e) = true.
Proof.
  intros Ht Hnd. unfold live, is_live_wait. rewrite Ht. unfold get_process.
  destruct (find_process_index ps (entry_pid e)) as [i|] eqn:Hi; [|done].
  apply find_process_index_Some in Hi as (p & Hp & Hpid). simpl. rewrite Hp.
  intros Htok. by exists i, p.
Qed.

Lemma raw_inj t t' : raw t = raw t' -> t = t'.
Proof. destruct t, t'. simpl. by intros ->. Qed.

(** ** One wake *)

Lemma wake_table_fmap q t kind (ps : list Process) :
  NoDup (pid <$> ps) ->
  wake_table q t kind ps =
    (fun p => if (pid p =? q) && token_matches p t then timer_wake kind p else p) <$> ps.
Proof.
  intros Hnd.
  trans (update_process (fun p => if token_matches p t then timer_wake kind p else p) q ps).
  2: { rewrite update_process_fmap by done. apply list_fmap_ext. intros i p _.
       by destruct (pid p =? q), (token_matches p t). }
  unfold wake_table, get_process, update_process, token_matches.
  destruct (find_process_index ps q) as [i|] eqn:Hi; [|done]. simpl.
  apply find_process_index_Some in Hi as (p & Hp & _). rewrite Hp.
  assert (forall f, f p = p -> ps = alter f i ps) as Hid.
  { intros f Hf. symmetry. rewrite <- (list_alter_id id ps i) at 2 by done.
    apply list_alter_ext; [|done]. intros x Hx. by simplify_eq. }
  destruct (wait_token p) as [t'|] eqn:Hw; [|apply Hid; by rewrite Hw].
  destruct (raw t' =? raw t) eqn:Hr; simpl; [|apply Hid; by rewrite Hw, Hr].
  destruct kind; simpl; destruct (is_state _ p) eqn:Hs; simpl.
  all: try (apply Hid; by rewrite Hw, Hr, Hs).
  all: apply list_alter_ext; [|done]; intros x Hx; simplify_eq; by rewrite Hw, Hr, Hs.
Qed.

(** ** A batch of wakes *)

Definition wake1 (e : DeadlineEntry) (p : Process) : Process :=
  if (pid p =? entry_pid e) && token_matches p (entry_token e)
  then timer_wake (entry_kind e) p else p.

Lemma pid_wake1 e p : pid (wake1 e p) = pid p.
Proof. unfold wake1. destruct (_ && _); [apply pid_timer_wake|done]. Qed.

Lemma wake_all_fmap batch : forall ps : list Process,
  NoDup (pid <$> ps) -> wake_all batch ps = (fun p => foldl (fun p e => wake1 e p) p batch) <$> ps.
Proof.
  induction batch as [|e batch IH]; intros ps Hnd; unfold wake_all in *; simpl.
  { symmetry. apply list_fmap_id. }
  assert (wake_table (entry_pid e) (entry_token e) (entry_kind e) ps = wake1 e <$> ps) as ->
    by (by apply wake_table_fmap).
  rewrite IH.
  - by rewrite <- list_fmap_compose.
  - rewrite <- list_fmap_compose. erewrite list_fmap_ext; [exact Hnd|]. intros. apply pid_wake1.
Qed.

Lemma fold_wake1_other batch : forall p,
  pid p ∉ entry_pid <$> batch -> foldl (fun p e => wake1 e p) p batch = p.
Proof.
  induction batch as [|e batch IH]; intros p Hp; [done|]. rewrite fmap_cons, not_elem_of_cons in Hp.
  simpl. assert (wake1 e p = p) as ->; [|apply IH; tauto].
  unfold wake1. rewrite (proj2 (Z.eqb_neq _ _)) by tauto. done.
Qed.

Lemma woken_other batch p : pid p ∉ entry_pid <$> batch -> woken batch p = p.
Proof.
  intros Hp. unfold woken. rewrite filter_none; [done|]. apply Forall_forall. intros e He Heq.
  destruct Hp. rewrite <- Heq. apply list_elem_of_fmap. by exists e.
Qed.

Lemma fold_wake1_woken batch p :
  NoDup (entry_pid <$> batch) ->
  (forall e, e ∈ batch -> entry_pid e = pid p -> token_matches p (entry_token e) = true) ->
  foldl (fun p e => wake1 e p) p batch = woken batch p.
Proof.
  induction batch as [|e batch IH]; intros Hnd Htok; [done|]. simpl.
  rewrite fmap_cons in Hnd. apply NoDup_cons in Hnd as [He Hnd].
  unfold woken. rewrite filter_cons. unfold wake1 at 2. case_decide as Hpid.
  - rewrite Hpid, Z.eqb_refl, Htok by (done || by left). simpl.
    apply fold_wake1_other. by rewrite pid_timer_wake, <- Hpid.
  - rewrite (proj2 (Z.eqb_neq _ _)) by congruence. simpl. apply IH; [done|].
    intros e' He'. apply Htok. by right.
Qed.

(** Live waits with distinct tokens belong to distinct processes. *)
Lemma live_same_pid k (ps : list Process) e e' :
  PROCESS_TABLE k = Some ps -> NoDup (pid <$> ps) ->
  live (is_live_wait k) e -> live (is_live_wait k) e' -> entry_pid e = entry_pid e' ->
  token_of e = token_of e'.
Proof.
  intros Ht Hnd He He' Hp.
  apply (live_process k ps) in He as (i & p & Hi & Hpid & Hm); [|done..].
  unfold live in He'. rewrite <- Hp, <- Hpid, (is_live_wait_lookup k ps i p) in He' by done.
  unfold token_matches in *. destruct (wait_token p); [|done]. bool_to_prop. unfold token_of. lia.
Qed.

Lemma live_pids_NoDup k (ps : list Process) batch :
  PROCESS_TABLE k = Some ps -> NoDup (pid <$> ps) ->
  Forall (live (is_live_wait k)) batch -> NoDup (token_of <$> batch) ->
  NoDup (entry_pid <$> batch).
Proof.
  intros Ht Hnd Hl. induction Hl as [|e batch He Hl IH]; [by constructor|].
  rewrite !fmap_cons, !NoDup_cons. intros [Hx Hb]. split; [|by apply IH].
  intros (e' & Heq & Hin)%list_elem_of_fmap. destruct Hx. rewrite Forall_forall in Hl.
  erewrite (live_same_pid k ps e e'); [|auto..]. apply list_elem_of_fmap. by exists e'.
Qed.

Lemma wake_all_woken k (ps : list Process) batch :
  PROCESS_TABLE k = Some ps -> NoDup (pid <$> ps) ->
  Forall (live (is_live_wait k)) batch -> NoDup (token_of <$> batch) ->
  wake_all batch ps = woken batch <$> ps.
Proof.
  intros Ht Hnd Hl Htok. rewrite wake_all_fmap by done. apply list_fmap_ext. intros i p Hi.
  apply fold_wake1_woken; [by eapply live_pids_NoDup|]. intros e He Hp.
  rewrite Forall_forall in Hl. specialize (Hl e He). unfold live in Hl.
  by rewrite Hp, (is_live_wait_lookup k ps i p) in Hl.
Qed.

(** ** The critical section *)

Lemma batch_spec_drop now lv n h batch h' h'' disc :
  batch_spec now lv n h batch h' -> h' ≡ₚ disc ++ h'' -> Forall (fun e => ~ live lv e) disc ->
  batch_spec now lv n h batch h''.
Proof.
  intros (Hlen & Hf & (d & Hh & Hd) & Hall & Hs & Hle & Hlast) Hp Hdisc.
  unfold batch_spec. split_and!; [done| | |done|done| |].
  - rewrite Hf, Hp, filter_app, (filter_none _ disc) by done. done.
  - exists (d ++ disc). split; [|by apply Forall_app]. rewrite Hh, Hp.
    rewrite <- !app_assoc. apply Permutation_app_head. rewrite !app_assoc.
    apply Permutation_app_tail, Permutation_app_comm.
  - intros x y Hx Hy. apply Hle; [done|]. rewrite Hp. apply elem_of_app. by right.
  - intros Hl. specialize (Hlast Hl). rewrite Hp in Hlast. by apply Forall_app in Hlast as [_ ?].
Qed.

Lemma pop_batch_ok now k :
  pre_ok (pre k) -> queue_wf (TIMER_QUEUE k) ->
  exists batch more q', pop_batch now k = (Ok (batch, more), set_queue q' k) /\ queue_wf q' /\
    batch_spec now (is_live_wait k) EXPIRY_BATCH (heap (TIMER_QUEUE k)) batch (heap q') /\
    (more = true <-> exists x, x ∈ heap q' /\ live_due now (is_live_wait k) x).
Proof.
  intros Hok Hwf. set (k1 := set_pre (locked (pre k)) k).
  destruct (collect_batch_ok now (is_live_wait k) EXPIRY_BATCH k1) as (batch & q1 & Hc & Hwf1 & Hb);
    [done|done|].
  destruct (peek_deadline_spec q1 (is_live_wait k) Hwf1) as (d & q' & Hpk & Hwf' & (disc & Hp & Hd) & Hr).
  exists batch, (match d with Some d => d <=? now | None => false end), q'. split_and!.
  - unfold pop_batch. erewrite (with_lock_irq_ok _ k _ (set_queue q' k1)); [by destruct k|done| |done].
    unfold bindM. fold k1. rewrite Hc. unfold getM, on_queue. simpl.
    change (is_live_wait (set_queue q1 k1)) with (is_live_wait k). by rewrite Hpk.
  - done.
  - by eapply batch_spec_drop.
  - destruct d as [d|].
    + destruct Hr as (e & He & Hl & <- & Hmin). rewrite Z.leb_le. split.
      * intros Hdue. exists e. split; [|done]. rewrite Hp in He. apply elem_of_app in He as [He|?]; [|done].
        rewrite Forall_forall in Hd. by apply Hd in He.
      * intros (x & Hx & Hdue & Hlx). trans (deadline_ns x); [|done]. apply Hmin; [|done].
        rewrite Hp. apply elem_of_app. by right.
    + split; [done|]. intros (x & Hx & _ & Hlx). exfalso. eapply Hr; [|done].
      rewrite Hp. apply elem_of_app. by right.
Qed.

Lemma batch_tokens_NoDup now lv n q batch h' :
  queue_wf q -> batch_spec now lv n (heap q) batch h' -> NoDup (token_of <$> (batch ++ h')).
Proof.
  intros (_ & _ & _ & Hnd & _) (_ & _ & (d & Hh & _) & _).
  rewrite Hh, fmap_app in Hnd. by apply NoDup_app in Hnd as (_ & _ & ?).
Qed.

Lemma batch_spec_live now lv n h batch h' :
  batch_spec now lv n h batch h' -> Forall (live lv) batch.
Proof. intros (_ & _ & _ & Hall & _). eapply Forall_impl; [done|]. naive_solver. Qed.

Section expiry.
Context (clock : nat -> Z) (min_delta_ns : Z) (resume : Kernel -> Kernel).

(** One round of either expiry loop. *)
Lemma expiry_round now k ps :
  kernel_ok k ps ->
  exists batch more q',
    pop_batch now k = (Ok (batch, more), set_queue q' k) /\
    wake_batch clock min_delta_ns resume batch (set_queue q' k) =
      (Ok tt, set_table (Some (woken batch <$> ps)) (set_queue q' k)) /\
    queue_wf q' /\
    batch_spec now (is_live_wait k) EXPIRY_BATCH (heap (TIMER_QUEUE k)) batch (heap q') /\
    (more = true <-> exists x, x ∈ heap q' /\ live_due now (is_live_wait k) x).
Proof.
  intros (Ht & Hnd & Hwf & Hok & Hq).
  destruct (pop_batch_ok now k Hok Hwf) as (batch & more & q' & Hpb & Hwf' & Hb & Hmore).
  exists batch, more, q'. split; [done|]. split; [|done].
  rewrite (wake_batch_ok _ _ _ _ _ ps) by (apply Hok || done). do 2 f_equal.
  rewrite (wake_all_woken k ps); [done|done|done|by eapply batch_spec_live|].
  pose proof (batch_tokens_NoDup _ _ _ _ _ _ Hwf Hb) as Hn. rewrite fmap_app in Hn.
  by apply NoDup_app in Hn as [? _].
Qed.

(** C1. The hard-IRQ expiry never panics; it takes out of the queue at most 32 entries, all live and due and in (deadline, token) order, wakes exactly the processes they name and no other, keeps every other live wait, and sets the deferred flag exactly when a live due wait is left. *)
Theorem expire_due_exact now k ps :
  kernel_ok k ps ->
  exists batch more q',
    expire_due clock min_delta_ns resume now k =
      (Ok tt, set_deferred (DEFERRED_EXPIRY_PENDING k || more)
                (set_table (Some (woken batch <$> ps)) (set_queue q' k))) /\
    queue_wf q' /\
    batch_spec now (is_live_wait k) EXPIRY_BATCH (heap (TIMER_QUEUE k)) batch (heap q') /\
    (more = true <-> exists x, x ∈ heap q' /\ live_due now (is_live_wait k) x).
Proof.
  intros Hk. destruct (expiry_round now k ps Hk) as (batch & more & q' & Hpb & Hw & Hrest).
  exists batch, more, q'. split; [|done]. unfold expire_due, bindM. rewrite Hpb. simpl. rewrite Hw.
  destruct more; simpl; [by rewrite orb_true_r|]. rewrite orb_false_r. by destruct k.
Qed.
End expiry.

(** ** Draining the overflow *)

(** [all] is every live due wait of [h], in key order; [h'] keeps the others. *)
Definition drained (now_ns : Z) (lv : Z -> WaitToken -> bool)
    (h all h' : list DeadlineEntry) : Prop :=
  (exists disc, h ≡ₚ disc ++ all ++ h' /\ Forall (fun e => ~ live lv e) disc) /\
  Forall (live_due now_ns lv) all /\
  StronglySorted entry_le all /\
  Forall (fun e => ~ live_due now_ns lv e) h'.

Lemma token_matches_woken batch p t :
  (forall e, e ∈ batch -> entry_pid e = pid p -> token_matches p (entry_token e) = true) ->
  raw t ∉ token_of <$> batch -> token_matches (woken batch p) t = token_matches p t.
Proof.
  intros Hm Ht. unfold woken. destruct (filter _ batch) as [|e l] eqn:Hf; [done|].
  assert (e ∈ filter (fun e => entry_pid e = pid p) batch) as [Hp He]%list_elem_of_filter
    by (rewrite Hf; by left).
  specialize (Hm e He Hp).
  assert (token_matches p t = false) as Hn.
  { unfold token_matches in *. destruct (wait_token p); [|done]. bool_to_prop.
    apply Z.eqb_neq. intros Heq. destruct Ht. apply list_elem_of_fmap. exists e. split; [|done].
    unfold token_of. lia. }
  rewrite Hn. destruct (entry_kind e); simpl; destruct (is_state _ p); done.
Qed.

(** Waking a batch does not change which of the remaining waits are live. *)
Lemma live_after_woken k k' (ps : list Process) batch x :
  PROCESS_TABLE k = Some ps -> NoDup (pid <$> ps) -> PROCESS_TABLE k' = Some (woken batch <$> ps) ->
  Forall (live (is_live_wait k)) batch -> token_of x ∉ token_of <$> batch ->
  is_live_wait k' (entry_pid x) (entry_token x) = is_live_wait k (entry_pid x) (entry_token x).
Proof.
  intros Ht Hnd Ht' Hb Hx.
  destruct (find_process_index ps (entry_pid x)) as [i|] eqn:Hi.
  - apply find_process_index_Some in Hi as (p & Hp & <-).
    rewrite (is_live_wait_lookup k ps i p) by done.
    rewrite <- (pid_woken batch p).
    rewrite (is_live_wait_lookup k' (woken batch <$> ps) i).
    + apply token_matches_woken; [|done]. intros e He Hpid. rewrite Forall_forall in Hb.
      specialize (Hb e He). unfold live in Hb. by rewrite Hpid, (is_live_wait_lookup k ps i p) in Hb.
    + done.
    + by rewrite pids_woken.
    + by rewrite list_lookup_fmap, Hp.
  - unfold is_live_wait. rewrite Ht, Ht'. unfold get_process. rewrite Hi.
    destruct (find_process_index (woken batch <$> ps) (entry_pid x)) as [j|] eqn:Hj; [|done].
    apply find_process_index_None in Hi. destruct Hi.
    apply find_process_index_Some in Hj as (p & Hp & <-).
    rewrite <- (pids_woken batch ps). apply list_elem_of_fmap. exists p. split; [done|].
    by eapply list_elem_of_lookup_2.
Qed.

Lemma woken_app batch rest p :
  NoDup (entry_pid <$> (batch ++ rest)) -> woken rest (woken batch p) = woken (batch ++ rest) p.
Proof.
  intros Hnd. rewrite fmap_app in Hnd. apply NoDup_app in Hnd as (_ & Hdis & _).
  destruct (decide (pid p ∈ entry_pid <$> batch)) as [Hin|Hout].
  - rewrite (woken_other rest) by (rewrite pid_woken; by apply Hdis).
    apply list_elem_of_fmap in Hin as (e & Hp & He). unfold woken. rewrite filter_app.
    destruct (filter (fun e => entry_pid e = pid p) batch) as [|e' l] eqn:Hf; [|done].
    assert (e ∈ filter (fun e => entry_pid e = pid p) batch) as Hc
      by (by apply list_elem_of_filter).
    by rewrite Hf in Hc; apply elem_of_nil in Hc.
  - rewrite (woken_other batch) by done. unfold woken. rewrite filter_app.
    rewrite (filter_none _ batch); [done|]. apply Forall_forall. intros e He Heq.
    destruct Hout. apply list_elem_of_fmap. by exists e.
Qed.

Lemma StronglySorted_app_le (l1 l2 : list DeadlineEntry) :
  StronglySorted entry_le l1 -> StronglySorted entry_le l2 ->
  (forall x y, x ∈ l1 -> y ∈ l2 -> entry_le x y) -> StronglySorted entry_le (l1 ++ l2).
Proof.
  induction l1 as [|a l1 IH]; intros H1 H2 H; [done|]. simpl.
  apply StronglySorted_inv in H1 as [H1 Ha]. constructor.
  - apply IH; [done|done|]. intros x y Hx. apply H. by right.
  - apply Forall_app. split; [done|]. apply Forall_forall. intros y Hy. apply H; [by left|done].
Qed.

(** A batch followed by a full drain of the rest is a full drain. *)
Lemma drained_app now lv lv' n h batch h1 rest h2 :
  batch_spec now lv n h batch h1 -> drained now lv' h1 rest h2 ->
  (forall x, x ∈ h1 -> live lv' x <-> live lv x) -> drained now lv h (batch ++ rest) h2.
Proof.
  intros (_ & _ & (d & Hh & Hd) & Hall & Hs & Hle & _) ((d' & Hh1 & Hd') & Hr & Hsr & Hn) Hlv.
  assert (forall x, x ∈ d' \/ x ∈ rest \/ x ∈ h2 -> x ∈ h1) as Hin.
  { intros x Hx. rewrite Hh1, !elem_of_app. naive_solver. }
  rewrite !Forall_forall in *. unfold drained, live_due in *. split_and!.
  - exists (d ++ d'). split.
    + rewrite Hh, Hh1, <- !app_assoc. apply Permutation_app_head. rewrite !app_assoc.
      do 2 apply Permutation_app_tail. apply Permutation_app_comm.
    + apply Forall_app. rewrite !Forall_forall. split; [done|]. intros x Hx Hl.
      apply (Hd' x Hx). apply Hlv; auto.
  - apply Forall_app. rewrite !Forall_forall. split; [done|]. intros x Hx.
    destruct (Hr x Hx). split; [done|]. apply Hlv; auto.
  - apply StronglySorted_app_le; [done|done|]. intros x y Hx Hy. apply Hle; auto.
  - apply Forall_forall. intros x Hx [Hdue Hl]. apply (Hn x Hx). split; [done|]. apply Hlv; auto.
Qed.

Section drain.
Context (clock : nat -> Z) (min_delta_ns : Z) (resume : Kernel -> Kernel).

Lemma deferred_loop_drains now fuel : forall k ps,
  kernel_ok k ps -> (length (heap (TIMER_QUEUE k)) < fuel)%nat ->
  exists all q', deferred_loop clock min_delta_ns resume fuel now k =
      (Ok tt, set_table (Some (woken all <$> ps)) (set_queue q' k)) /\ queue_wf q' /\
    drained now (is_live_wait k) (heap (TIMER_QUEUE k)) all (heap q').
Proof.
  induction fuel as [|fuel IH]; intros k ps Hk Hf; [lia|]. cbn [deferred_loop].
  destruct (expiry_round clock min_delta_ns resume now k ps Hk)
    as (batch & more & q1 & Hpb & Hw & Hwf1 & Hb & Hmore).
  unfold bindM. rewrite Hpb. simpl. rewrite Hw.
  pose proof Hk as (Ht & Hnd & Hwf & Hok & Hq).
  pose proof (batch_tokens_NoDup _ _ _ _ _ _ Hwf Hb) as Htok.
  pose proof (batch_spec_live _ _ _ _ _ _ Hb) as Hlive.
  destruct more; simpl.
  - set (k1 := set_table (Some (woken batch <$> ps)) (set_queue q1 k)).
    assert (kernel_ok k1 (woken batch <$> ps)) as Hk1.
    { unfold kernel_ok. rewrite pids_woken. done. }
    assert (forall x, x ∈ heap q1 -> live (is_live_wait k1) x <-> live (is_live_wait k) x) as Hlv.
    { intros x Hx. unfold live. erewrite (live_after_woken k k1 ps batch x); [done|done..|].
      rewrite fmap_app in Htok. apply NoDup_app in Htok as (_ & Hdis & _). intros Hc.
      eapply Hdis; [done|]. apply list_elem_of_fmap. by exists x. }
    destruct (IH k1 (woken batch <$> ps) Hk1) as (rest & q' & -> & Hwf' & Hd).
    { simpl. pose proof Hb as (_ & _ & (d & Hh & _) & _ & _ & _ & Hlast).
      destruct (decide (length batch < EXPIRY_BATCH)%nat) as [Hl|Hl].
      - specialize (Hlast Hl). destruct (proj1 Hmore eq_refl) as (x & Hx & Hdx & _).
        rewrite Forall_forall in Hlast. by destruct (Hlast x Hx).
      - rewrite Hh, !length_app in Hf. unfold EXPIRY_BATCH in Hl. lia. }
    pose proof (drained_app _ _ _ _ _ _ _ _ _ Hb Hd Hlv) as Hall.
    exists (batch ++ rest), q'. split; [|done].
    enough (woken rest <$> (woken batch <$> ps) = woken (batch ++ rest) <$> ps) as -> by done.
    rewrite <- list_fmap_compose. apply list_fmap_ext.
    intros i p _. apply woken_app. destruct Hall as ((d & Hh & _) & Hld & _).
    eapply (live_pids_NoDup k ps); [done|done| |].
    + eapply Forall_impl; [done|]. by intros x [_ ?].
    + destruct Hwf as (_ & _ & _ & Hn & _). rewrite Hh, !fmap_app in Hn.
      apply NoDup_app in Hn as (_ & _ & Hn). rewrite fmap_app. by apply NoDup_app in Hn as [? _].
  - exists batch, q1. split; [done|]. split; [done|].
    destruct Hb as (_ & _ & Hdisc & Hall & Hs & _ & _). unfold drained.
    split_and!; [done|done|done|]. apply Forall_forall. intros x Hx Hld.
    assert (false = true) by (apply Hmore; by exists x). done.
Qed.
End drain.

(** ** The clockevent *)

(** The deadlines the hardware timer has to honour. *)
Definition deadline_source (k : Kernel) (d : Z) : Prop :=
  (exists e, e ∈ heap (TIMER_QUEUE k) /\ live (is_live_wait k) e /\ deadline_ns e = d) \/
  quantum_deadline_ns (pre k) = Some d \/
  (KERNEL_HLT_DEADLINE k <> 0 /\ KERNEL_HLT_DEADLINE k = d).

(** The timer is armed no later than any deadline. *)
Definition armed_inv (k : Kernel) : Prop := forall d, deadline_source k d -> ARMED_DEADLINE k <= d.

Lemma set_irq_mask_id s : interrupts_enabled s = false -> set_irq_mask (irq_disable_depth s) false s = s.
Proof. destruct s. simpl. by intros ->. Qed.

Lemma without_interrupts_ok {A} (m : K A) k a k' :
  let masked := set_irq_mask (irq_disable_depth (pre k)) false (pre k) in
  m (set_pre masked k) = (Ok a, k') -> pre k' = masked ->
  without_interrupts m k = (Ok a, set_pre (pre k) k').
Proof.
  intros masked Hm Hp. unfold without_interrupts, bindM, getM, on_pre, modifyM, retM.
  fold masked. rewrite Hm.
  assert (set_irq_mask (irq_disable_depth masked) (interrupts_enabled (pre k)) masked = pre k) as Hun
    by (unfold masked; by destruct (pre k)).
  destruct (interrupts_enabled (pre k)); [by rewrite Hp, Hun|].
  by rewrite <- Hun, <- Hp, set_irq_mask_id, set_pre_pre by (by rewrite Hp).
Qed.

Lemma next_deadline_ok k :
  pre_ok (pre k) -> queue_wf (TIMER_QUEUE k) ->
  exists r q' disc, next_deadline_ns k = (Ok r, set_queue q' k) /\ queue_wf q' /\
    heap (TIMER_QUEUE k) ≡ₚ disc ++ heap q' /\ Forall (fun e => ~ live (is_live_wait k) e) disc /\
    match r with
    | Some d => (exists e, e ∈ heap (TIMER_QUEUE k) /\ live (is_live_wait k) e /\ deadline_ns e = d) /\
        forall x, x ∈ heap (TIMER_QUEUE k) -> live (is_live_wait k) x -> d <= deadline_ns x
    | None => forall x, x ∈ heap (TIMER_QUEUE k) -> ~ live (is_live_wait k) x
    end.
Proof.
  intros Hok Hwf.
  destruct (peek_deadline_spec (TIMER_QUEUE k) (is_live_wait k) Hwf) as (r & q' & Hpk & Hwf' & (disc & Hp & Hd) & Hr).
  exists r, q', disc. split; [|split; [done|]; split; [done|]; split; [done|]].
  - unfold next_deadline_ns.
    erewrite (with_lock_irq_ok _ k _ (set_queue q' (set_pre (locked (pre k)) k))); [by destruct k|done| |done].
    unfold bindM, getM, on_queue. simpl.
    change (is_live_wait (set_pre (locked (pre k)) k)) with (is_live_wait k). by rewrite Hpk.
  - destruct r as [d|]; [|done]. destruct Hr as (e & He & Hl & Hde & Hmin). split; [by exists e|done].
Qed.

Lemma min_option_Some a b m :
  min_option a b = Some m ->
  (a = Some m \/ b = Some m) /\ (forall d, a = Some d \/ b = Some d -> m <= d).
Proof.
  destruct a as [x|], b as [y|]; simpl; intros; simplify_eq; split; try naive_solver lia.
  destruct (Z.min_spec x y) as [[_ ->]|[_ ->]]; auto.
Qed.

Lemma min_option_le a b d :
  a = Some d \/ b = Some d -> exists m, min_option a b = Some m /\ m <= d.
Proof. destruct a, b; simpl; intros [? | ?]; simplify_eq; eexists; split; (done || lia). Qed.

Section clockevent.
Context (min_delta_ns : Z).

(** What [rearm] leaves in the queue, the armed deadline and the hardware. *)
Lemma rearm_ok now k :
  pre_ok (pre k) -> queue_wf (TIMER_QUEUE k) ->
  exists q' disc a l, rearm min_delta_ns now k = (Ok tt, set_armed a l (set_queue q' k)) /\
    queue_wf q' /\ heap (TIMER_QUEUE k) ≡ₚ disc ++ heap q' /\
    Forall (fun e => ~ live (is_live_wait k) e) disc /\
    ((exists d, deadline_source k d /\ (forall d', deadline_source k d' -> d <= d') /\
        a = d /\ l = Some (program_delta min_delta_ns d now)) \/
     ((forall d, ~ deadline_source k d) /\ a = ARMED_NONE /\ l = None)).
Proof.
  intros Hok Hwf. set (masked := set_irq_mask (irq_disable_depth (pre k)) false (pre k)).
  destruct (next_deadline_ok (set_pre masked k)) as (sw & q' & disc & Hn & Hwf' & Hp & Hd & Hsw);
    [by destruct Hok as (? & ? & ? & ?)|done|].
  set (q := quantum_deadline_ns (pre k)).
  set (h := if KERNEL_HLT_DEADLINE k =? 0 then None else Some (KERNEL_HLT_DEADLINE k)).
  set (t := min_option sw (min_option q h)).
  exists q', disc, (default ARMED_NONE t), ((fun d => program_delta min_delta_ns d now) <$> t).
  split; [|split; [done|]; split; [done|]; split; [done|]].
  - unfold rearm.
    erewrite (without_interrupts_ok _ k tt (set_armed (default ARMED_NONE t)
      ((fun d => program_delta min_delta_ns d now) <$> t) (set_queue q' (set_pre masked k))));
      [by destruct k| |done].
    unfold earliest_deadline, bindM. fold masked. rewrite Hn. unfold getM, retM, modifyM. simpl.
    change (quantum_deadline_ns masked) with q. fold h t. by destruct t.
  - assert (forall d, deadline_source k d -> exists m, t = Some m /\ m <= d) as Hall.
    { intros d Hs.
      assert (exists d', d' <= d /\ (sw = Some d' \/ min_option q h = Some d')) as (d' & Hd' & Hm).
      { destruct Hs as [(e & He & Hl & <-)|[Hq|[Hh <-]]].
        - destruct sw as [s|]; [|by destruct (Hsw e He)]. exists s. split; [by apply Hsw|by left].
        - destruct (min_option_le q h d) as (m & ? & ?); [by left|]. exists m. auto.
        - destruct (min_option_le q h (KERNEL_HLT_DEADLINE k)) as (m & ? & ?); [|exists m; auto].
          right. unfold h. by rewrite (proj2 (Z.eqb_neq _ _)). }
      destruct (min_option_le sw (min_option q h) d' Hm) as (m & ? & ?). exists m. split; [done|lia]. }
    destruct t as [m|] eqn:Ht; simpl.
    + left. exists m. split_and!; [|intros d Hs; by destruct (Hall d Hs) as (? & [= <-] & ?)|done|done].
      apply min_option_Some in Ht as [[-> |Hqh] _]; [left; apply Hsw|right].
      apply min_option_Some in Hqh as [[Hq|Hh] _]; [by left|right]. unfold h in Hh.
      destruct (_ =? 0) eqn:Hz; bool_to_prop; by simplify_eq.
    + right. split; [|done]. intros d Hs. by destruct (Hall d Hs) as (? & ? & _).
Qed.
End clockevent.

Lemma drained_drop now lv h all h1 h2 disc :
  drained now lv h all h1 -> h1 ≡ₚ disc ++ h2 -> Forall (fun e => ~ live lv e) disc ->
  drained now lv h all h2.
Proof.
  intros ((d & Hh & Hd) & Hall & Hs & Hn) Hp Hdisc. unfold drained. split_and!; [|done|done|].
  - exists (d ++ disc). split; [|by apply Forall_app]. rewrite Hh, Hp, <- !app_assoc.
    apply Permutation_app_head. rewrite !app_assoc. apply Permutation_app_tail, Permutation_app_comm.
  - rewrite Hp in Hn. by apply Forall_app in Hn as [_ ?].
Qed.

(** Dropping stale entries adds no deadline source. *)
Lemma deadline_source_shrink k q' disc a l d :
  heap (TIMER_QUEUE k) ≡ₚ disc ++ heap q' ->
  deadline_source (set_armed a l (set_queue q' k)) d -> deadline_source k d.
Proof.
  intros Hp [(e & He & Hl & Hd)|Hs]; [left|by right]. exists e. split; [|done].
  rewrite Hp. apply elem_of_app. by right.
Qed.

Section theorems.
Context (clock : nat -> Z) (min_delta_ns : Z) (reserve : nat -> option nat)
  (resume wait_irq : Kernel -> Kernel).

Lemma rearm_armed now k :
  pre_ok (pre k) -> queue_wf (TIMER_QUEUE k) ->
  exists q' disc a l, rearm min_delta_ns now k = (Ok tt, set_armed a l (set_queue q' k)) /\
    queue_wf q' /\ heap (TIMER_QUEUE k) ≡ₚ disc ++ heap q' /\
    Forall (fun e => ~ live (is_live_wait k) e) disc /\ armed_inv (set_armed a l (set_queue q' k)).
Proof.
  intros Hok Hwf. destruct (rearm_ok min_delta_ns now k Hok Hwf)
    as (q' & disc & a & l & Hr & Hwf' & Hp & Hd & Hcase).
  exists q', disc, a, l. split; [done|]. split; [done|]. split; [done|]. split; [done|].
  intros d Hs%(deadline_source_shrink k q' disc a l d Hp). simpl.
  destruct Hcase as [(m & _ & Hmin & -> & _)|(Hno & _)]; [by apply Hmin|by destruct (Hno d)].
Qed.

(** C6. Rearming programs the hardware for the minimum of the live software deadlines, the scheduler quantum and the kernel HLT deadline, clamped to the smallest delta, or disarms when there is none; the process table and the preemption state do not change. *)
Theorem rearm_earliest now k :
  pre_ok (pre k) -> queue_wf (TIMER_QUEUE k) ->
  exists k', rearm min_delta_ns now k = (Ok tt, k') /\
    PROCESS_TABLE k' = PROCESS_TABLE k /\ pre k' = pre k /\
    ((exists d, deadline_source k d /\ (forall d', deadline_source k d' -> d <= d') /\
        ARMED_DEADLINE k' = d /\ lapic_timer k' = Some (Z.max (saturating_sub d now) min_delta_ns)) \/
     ((forall d, ~ deadline_source k d) /\ ARMED_DEADLINE k' = ARMED_NONE /\ lapic_timer k' = None)).
Proof.
  intros Hok Hwf. destruct (rearm_ok min_delta_ns now k Hok Hwf)
    as (q' & disc & a & l & Hr & _ & _ & _ & Hcase).
  eexists. split; [done|]. split; [done|]. split; [done|].
  destruct Hcase as [(d & Hs & Hmin & -> & ->)|(Hno & -> & ->)]; [left; by exists d|by right].
Qed.

(** C4. In a kernel whose processes have distinct ids and whose queue and guard counters are well formed, with the deferred flag set and at a moment when dropping a guard is not a scheduling point (preemption is disabled or no reschedule is pending), the deferred drain terminates within as many rounds as the queue has entries, wakes every live wait that is due at the sampled time in deadline order, leaves none, clears the flag, and leaves the clockevent armed no later than any remaining deadline. *)
Theorem deferred_expiry_drains fuel k ps :
  kernel_ok k ps -> DEFERRED_EXPIRY_PENDING k = true ->
  (length (heap (TIMER_QUEUE k)) < fuel)%nat ->
  exists all k', process_deferred_expiry clock min_delta_ns resume fuel k = (Ok tt, k') /\
    PROCESS_TABLE k' = Some (woken all <$> ps) /\ DEFERRED_EXPIRY_PENDING k' = false /\
    queue_wf (TIMER_QUEUE k') /\ armed_inv k' /\
    drained (clock (clock_reads k)) (is_live_wait k) (heap (TIMER_QUEUE k)) all (heap (TIMER_QUEUE k')).
Proof.
  intros Hk Hdef Hf. unfold process_deferred_expiry, bindM at 1, getM. rewrite Hdef. simpl.
  set (k0 := set_reads (S (clock_reads k)) k). set (now := clock (clock_reads k)).
  destruct (deferred_loop_drains clock min_delta_ns resume now fuel k0 ps)
    as (all & q1 & Hl & Hwf1 & Hd); [done|done|].
  unfold bindM. unfold monotonic_ns at 1. fold k0 now. rewrite Hl. unfold modifyM, monotonic_ns.
  set (k2 := set_reads _ _).
  destruct Hk as (Ht & Hnd & Hwf & Hok & Hq).
  destruct (rearm_armed (clock (clock_reads k0)) k2) as (q' & disc & a & l & Hr & Hwf' & Hp & Hdisc & Ha);
    [done|done|].
  exists all. eexists. split; [exact Hr|]. split; [done|]. split; [done|]. split; [done|]. split; [done|].
  simpl. eapply drained_drop; [exact Hd|exact Hp|]. rewrite Forall_forall in *. intros e He Hl'.
  apply (Hdisc e He). unfold live.
  pose proof Hd as ((d & Hh & _) & Hall & _).
  rewrite (live_after_woken k k2 ps all e); [done|done|done|done| |].
  - eapply Forall_impl; [done|]. by intros x [_ ?].
  - destruct Hwf as (_ & _ & _ & Hn & _). simpl in Hh. rewrite Hh, !fmap_app in Hn.
    apply NoDup_app in Hn as (_ & _ & Hn). apply NoDup_app in Hn as (_ & Hdis & _).
    intros Hc. eapply Hdis; [done|]. apply list_elem_of_fmap. exists e. split; [done|].
    simpl in Hp. rewrite Hp. apply elem_of_app. by left.
Qed.
End theorems.

(** ** Publishing a sleep *)

Section publish.
Context (clock : nat -> Z) (min_delta_ns : Z) (reserve : nat -> option nat).
(** The allocator grants room for one more entry, or fails. *)
Hypothesis reserve_spare : forall n c, reserve n = Some c -> (n < c)%nat.

Lemma next_token_fresh q :
  queue_wf q -> next_token_counter q <> U64_MAX ->
  let t := next_token_counter q in
  let q' := mkQueue (heap q) (capacity q) (t + 1) in
  next_token q = (mkWaitToken t, q') /\ queue_wf q' /\ 0 <= t < next_token_counter q' /\
  t ∉ token_of <$> heap q'.
Proof.
  intros (Ho & Hc & Hn & Hnd & Hf) Hx. unfold next_token.
  rewrite (proj2 (Z.eqb_neq _ _)) by done. simpl. split; [done|]. split; [|split; [lia|]].
  - unfold queue_wf. simpl. split_and!; [done|done|lia|lia|done|].
    eapply Forall_impl; [done|]. simpl. lia.
  - intros (e & He & Hin)%list_elem_of_fmap. rewrite Forall_forall in Hf. specialize (Hf e Hin). lia.
Qed.

Lemma push_entry_ok e k :
  queue_wf (TIMER_QUEUE k) -> 0 <= token_of e < next_token_counter (TIMER_QUEUE k) ->
  token_of e ∉ token_of <$> heap (TIMER_QUEUE k) ->
  push_entry reserve e k = (Ok false, k) \/
  exists q', push_entry reserve e k = (Ok true, set_queue q' k) /\ queue_wf q' /\
    heap q' ≡ₚ e :: heap (TIMER_QUEUE k).
Proof.
  intros Hwf Ht Hfr. unfold push_entry, on_queue.
  destruct (try_reserve_push_spec reserve reserve_spare (TIMER_QUEUE k) e Hwf Ht Hfr)
    as [(_ & _ & ->)|(q' & -> & Hwf' & Hp & _)]; simpl; [left; by destruct k|right].
  by exists q'.
Qed.

(** The sources after publication: the old ones, and the new deadline. *)
Lemma publish_sources k k' (ps : list Process) cur t deadline d :
  PROCESS_TABLE k = Some ps -> NoDup (pid <$> ps) ->
  PROCESS_TABLE k' = Some (update_process (fun p =>
    set_state Sleeping (set_wait (Some t) (Some deadline) None p)) cur ps) ->
  heap (TIMER_QUEUE k') ≡ₚ mkEntry deadline cur t Sleep :: heap (TIMER_QUEUE k) ->
  raw t ∉ token_of <$> heap (TIMER_QUEUE k) ->
  pre k' = pre k -> KERNEL_HLT_DEADLINE k' = KERNEL_HLT_DEADLINE k ->
  deadline_source k' d -> d = deadline \/ deadline_source k d.
Proof.
  intros Ht Hnd Ht' Hh Hfr Hpre Hhlt [(e & He & Hl & <-)|Hs].
  2: { right. right. by rewrite Hpre, Hhlt in Hs. }
  rewrite Hh in He. apply elem_of_cons in He as [-> |He]; [by left|]. right. left. exists e.
  split; [done|]. split; [|done]. unfold live, is_live_wait in *. rewrite Ht. rewrite Ht' in Hl.
  rewrite update_process_fmap in Hl by done. unfold get_process in *.
  set (f := fun p => if pid p =? cur then _ else p) in Hl.
  assert (pid <$> (f <$> ps) = pid <$> ps) as Hpids.
  { rewrite <- list_fmap_compose. apply list_fmap_ext. intros i p _. unfold f. simpl. by destruct (_ =? _). }
  destruct (find_process_index (f <$> ps) (entry_pid e)) as [i|] eqn:Hi; [|done].
  apply find_process_index_Some in Hi as (p' & Hp' & Hpid). rewrite list_lookup_fmap in Hp'.
  destruct (ps !! i) as [p|] eqn:Hp; [|done]. simpl in Hp'. injection Hp' as <-.
  assert (pid p = entry_pid e) as Hpe by (unfold f in Hpid; by destruct (pid p =? cur)).
  rewrite <- Hpe, (find_process_index_unique ps i p) by done. simpl in *. rewrite Hp.
  rewrite list_lookup_fmap, Hp in Hl. simpl in Hl. unfold f in Hl.
  destruct (pid p =? cur) eqn:Hc; [|done]. simpl in Hl. bool_to_prop.
  destruct Hfr. apply list_elem_of_fmap. exists e. split; [done|done].
Qed.

(** C5. Publishing a sleep either mints a token not used by any queued wait, queues one entry for it, marks the process Sleeping with that token, and leaves the timer armed no later than every deadline including the new one, or fails and leaves the table and the queued waits as they were. *)
Theorem block_publish_atomic cur now deadline k ps i p :
  PROCESS_TABLE k = Some ps -> NoDup (pid <$> ps) -> queue_wf (TIMER_QUEUE k) -> pre_ok (pre k) ->
  ps !! i = Some p -> pid p = cur -> armed_inv k ->
  exists r k', block_publish min_delta_ns reserve cur now deadline k = (Ok r, k') /\
    queue_wf (TIMER_QUEUE k') /\ armed_inv k' /\ pre k' = pre k /\
    match r with
    | Some t =>
        heap (TIMER_QUEUE k') ≡ₚ mkEntry deadline cur t Sleep :: heap (TIMER_QUEUE k) /\
        raw t ∉ token_of <$> heap (TIMER_QUEUE k) /\
        PROCESS_TABLE k' = Some (<[i := set_state Sleeping (set_wait (Some t) (Some deadline) None p)]> ps)
    | None => PROCESS_TABLE k' = PROCESS_TABLE k /\ heap (TIMER_QUEUE k') = heap (TIMER_QUEUE k)
    end.
Proof.
  intros Ht Hnd Hwf Hok Hi <- Ha. unfold block_publish. set (cur := pid p). set (k1 := set_pre (locked (pre k)) k).
  destruct (decide (next_token_counter (TIMER_QUEUE k) = U64_MAX)) as [Hx|Hx].
  { exists None, k. split; [|done]. erewrite (with_lock_irq_ok _ k None k1); [by destruct k|done| |done].
    fold k1. unfold bindM, mint_token, on_queue, next_token. simpl. rewrite Hx. simpl. by destruct k. }
  destruct (next_token_fresh _ Hwf Hx) as (Hnt & Hwf1 & Hb & Hfr).
  set (t := next_token_counter (TIMER_QUEUE k)) in *. set (q1 := mkQueue _ _ _) in *.
  assert (mint_token k1 = (Ok (mkWaitToken t), set_queue q1 k1)) as Hm.
  { unfold mint_token, on_queue. change (TIMER_QUEUE k1) with (TIMER_QUEUE k). by rewrite Hnt. }
  assert ((t =? raw EXHAUSTED) = false) as Hne by (by apply Z.eqb_neq).
  destruct (push_entry_ok (mkEntry deadline cur (mkWaitToken t) Sleep) (set_queue q1 k1))
    as [Hpush|(q' & Hpush & Hwf' & Hh)]; [done|done|done| |].
  - exists None, (set_queue q1 k). split; [|split; [done|by split_and!]].
    erewrite (with_lock_irq_ok _ k None (set_queue q1 k1)); [by destruct k|done| |done].
    fold k1. unfold bindM. rewrite Hm. cbn [raw]. rewrite Hne, Hpush. done.
  - set (ps' := update_process (fun p => set_state Sleeping
      (set_wait (Some (mkWaitToken t)) (Some deadline) None p)) cur ps).
    set (k2 := set_table (Some ps') (set_queue q' k1)).
    set (k3 := (rearm_if_earlier min_delta_ns now deadline k2).2).
    exists (Some (mkWaitToken t)), (set_pre (pre k) k3).
    assert (ARMED_DEADLINE k3 <= deadline /\ ARMED_DEADLINE k3 <= ARMED_DEADLINE k /\
            k3 = set_armed (ARMED_DEADLINE k3) (lapic_timer k3) k2) as (Hd1 & Hd2 & Hk3).
    { unfold k3, rearm_if_earlier, modifyM, should_replace. simpl.
      destruct (deadline <? ARMED_DEADLINE k) eqn:Hlt; bool_to_prop; simpl; split_and!; try lia; by destruct k. }
    split; [|split; [by rewrite Hk3|split; [|split; [done|]]]].
    + apply (with_lock_irq_ok _ k _ k3); [done| |by rewrite Hk3].
      fold k1. unfold bindM. rewrite Hm. cbn [raw]. rewrite Hne, Hpush. cbn [negb]. unfold getM.
      change (PROCESS_TABLE (set_queue q' (set_queue q1 k1))) with (PROCESS_TABLE k). rewrite Ht.
      unfold cur at 1. rewrite (get_process_lookup ps i p) by done. done.
    + intros d Hs. change (ARMED_DEADLINE (set_pre (pre k) k3)) with (ARMED_DEADLINE k3).
      rewrite Hk3 in Hs. eapply (publish_sources k _ ps cur (mkWaitToken t) deadline) in Hs; try done.
      destruct Hs as [-> |Hs]; [done|]. apply Ha in Hs. lia.
    + rewrite Hk3. split; [done|]. split; [done|]. simpl. f_equal. unfold ps', update_process.
      unfold cur. rewrite (find_process_index_unique ps i p) by done.
      by rewrite (alter_insert _ _ _ p).
Qed.
End publish.

(** ** Signals and I/O waits *)

Section signals.
Context (clock : nat -> Z) (min_delta_ns : Z) (resume : Kernel -> Kernel).

Lemma wake_process_awaiting k (ps : list Process) i p :
  PROCESS_TABLE k = Some ps -> NoDup (pid <$> ps) -> ps !! i = Some p -> state p = AwaitingIo ->
  0 <= preempt_count (pre k) < U64_MAX -> quiet (pre k) -> quantum_deadline (pre k) <> 0 ->
  wake_process clock min_delta_ns resume (pid p) k =
    (Ok tt, set_table (Some (<[i := set_wait (wait_token p) (wait_deadline_ns p) (Some Event)
                                   (set_pending_io true (set_state Runnable p))]> ps)) k).
Proof.
  intros Ht Hnd Hi Hs Hp Hq Hqd. unfold wake_process.
  erewrite with_preempt_guard_ok; [|done|done| |].
  2: { unfold bindM, getM. simpl. rewrite Ht, (get_process_lookup ps i p), Hs by done.
       unfold modifyM, retM, quantum_deadline_ns. simpl.
       rewrite (proj2 (Z.eqb_neq (quantum_deadline (pre k)) 0)) by done. simpl.
       destruct (negb _); reflexivity. }
  2: done.
  unfold update_process. rewrite (find_process_index_unique ps i p), (alter_insert _ _ _ p) by done.
  by destruct k.
Qed.

(** A signal that [signal_interrupts_sleep] rejects leaves [Process::queue_signal]'s
    waiter alone, but the table-level [queue_signal] wakes it all the same. *)
(** A signal that must not interrupt an I/O wait leaves the process AwaitingIo in Process::queue_signal, but proc::queue_signal then makes it Runnable with an Event wake. *)
Theorem masked_signal_wakes_poller k ps i p sig :
  PROCESS_TABLE k = Some ps -> NoDup (pid <$> ps) -> ps !! i = Some p -> state p = AwaitingIo ->
  1 <= sig <= 64 -> signal_interrupts_sleep p sig = false ->
  0 <= preempt_count (pre k) < U64_MAX - 1 -> quiet (pre k) -> quantum_deadline (pre k) <> 0 ->
  state (Process_queue_signal sig p) = AwaitingIo /\
  exists p', queue_signal clock min_delta_ns resume (pid p) sig k =
      (Ok true, set_table (Some (<[i := p']> ps)) k) /\
    state p' = Runnable /\ pending_io p' = true /\ wake_reason p' = Some Event.
Proof.
  intros Ht Hnd Hi Hs Hsig Hmask Hp Hq Hqd.
  set (p1 := set_pending_signals (Z.lor (pending_signals p) (signal_bit sig)) p).
  assert (Process_queue_signal sig p = p1) as Hp1.
  { unfold Process_queue_signal. rewrite !(proj2 (Z.leb_le _ _)) by lia. simpl. rewrite Hs.
    change (signal_interrupts_sleep _ sig) with (signal_interrupts_sleep p sig). by rewrite Hmask. }
  split; [by rewrite Hp1|].
  exists (set_wait (wait_token p1) (wait_deadline_ns p1) (Some Event)
    (set_pending_io true (set_state Runnable p1))).
  split; [|done].
  pose proof (lookup_lt_Some _ _ _ Hi).
  unfold queue_signal. erewrite with_preempt_guard_ok; [|lia|done| |].
  2: { unfold bindM, getM. simpl. rewrite Ht, (get_process_lookup ps i p) by done.
       unfold modifyM, update_process. rewrite (find_process_index_unique ps i p) by done.
       rewrite (alter_insert _ _ _ p), Hp1 by done.
       change (pid p) with (pid p1). rewrite (wake_process_awaiting _ (<[i := p1]> ps) i p1).
       - reflexivity.
       - done.
       - rewrite list_fmap_insert, list_insert_id; [done|]. by rewrite list_lookup_fmap, Hi.
       - by apply list_lookup_insert_eq.
       - done.
       - simpl. unfold wrap. rewrite Z.mod_small; unfold U64_MAX in *; lia.
       - left. simpl. unfold wrap. rewrite Z.mod_small; unfold U64_MAX in *; lia.
       - done. }
  2: done.
  rewrite list_insert_insert_eq. by destruct k.
Qed.
End signals.

(** ** Kernel-mode ticks *)

(** A task running in kernel mode with an elapsed quantum, and [n] sleepers whose
    deadlines have passed. *)
Definition sleeper (i : nat) : Process :=
  mkProcess (2 + Z.of_nat i) (2 + Z.of_nat i) false 1 Sleeping [] 0 0 false false [] (0, 0) 0
    (Some (mkWaitToken (1 + Z.of_nat i))) (Some 5) None.
Definition runner : Process :=
  mkProcess 1 1 false 0 Running [] 0 0 false false [] (0, 0) 0 None None None.
Definition sleeper_entry (i : nat) : DeadlineEntry :=
  mkEntry 5 (2 + Z.of_nat i) (mkWaitToken (1 + Z.of_nat i)) Sleep.
Definition crowded (n : nat) : Kernel :=
  mkKernel (Some (runner :: (sleeper <$> seq 0 n))) 1
    (mkQueue (sleeper_entry <$> seq 0 n) n (1 + Z.of_nat n)) false
    (store_quantum 5 (preempt_init false)) 5 0 (Some 0) 0 0.
Definition tick (n : nat) (from_user : Z) : res Empty_set unit * Kernel :=
  apic_timer_preempt (fun _ => 10) 1 id 64 from_user (crowded n).

(** With kernel preemption disabled, a kernel-mode timer tick with an elapsed quantum returns to the same task when 32 waits are due, and switches to another task when 33 are: dropping the wake guards of the deferred drain is a scheduling point. *)
Example kernel_tick_overflow_switches :
  ENABLE_KERNEL_PREEMPTION = false /\ PID (crowded 33) = 1 /\
  (exists k', tick 32 0 = (Ok tt, k') /\ PID k' = 1) /\
  (exists k', tick 33 0 = (Ok tt, k') /\ PID k' <> 1).
Proof.
  split; [done|]. split; [done|]. split.
  - eexists. split; [vm_compute; reflexivity|done].
  - eexists. split; [vm_compute; reflexivity|done].
Qed.

(** ** Instances *)

Lemma crowded_ok n : Z.of_nat n < 1000 -> kernel_ok (crowded n) (runner :: (sleeper <$> seq 0 n)).
Proof.
  intros Hn. split; [done|]. split; [|split; [|split]].
  - cbn [fmap list_fmap]. rewrite <- list_fmap_compose. apply NoDup_cons. split.
    + intros (i & Hi & _)%list_elem_of_fmap. simpl in Hi. lia.
    + apply NoDup_fmap; [|apply NoDup_seq]. intros i j. simpl. lia.
  - unfold queue_wf. simpl. rewrite length_fmap, length_seq.
    split; [|split; [lia|split; [unfold U64_MAX; lia|split]]].
    + intros i Hi x y Hx Hy. pose proof (parent_lt i Hi).
      rewrite list_lookup_fmap in Hx, Hy.
      destruct (seq 0 n !! parent_of i) eqn:E1; [|done]. destruct (seq 0 n !! i) eqn:E2; [|done].
      apply lookup_seq in E1 as [-> _], E2 as [-> _]. simpl in *. simplify_eq.
      unfold entry_le, key_le. simpl. lia.
    + rewrite <- list_fmap_compose. apply NoDup_fmap; [|apply NoDup_seq]. intros i j. unfold token_of. simpl. lia.
    + apply Forall_fmap, Forall_forall. intros i Hi%elem_of_seq. unfold token_of. simpl. lia.
  - unfold pre_ok, U64_MAX. simpl. split_and!; lia || done.
  - right. done.
Qed.

Lemma expire_due_exact_witness : exists k', expire_due (fun _ => 10) 1 id 5 (crowded 2) = (Ok tt, k').
Proof.
  destruct (expire_due_exact (fun _ => 10) 1 id 5 (crowded 2) _ (crowded_ok 2 ltac:(lia))) as (b & m & q & H & _).
  eexists. exact H.
Defined.

(** Forty waits are due: two rounds, after which every sleeper is runnable. *)
Lemma deferred_expiry_drains_witness : exists k',
  process_deferred_expiry (fun _ => 10) 1 id 41 (set_deferred true (crowded 40)) = (Ok tt, k') /\
  DEFERRED_EXPIRY_PENDING k' = false /\ heap (TIMER_QUEUE k') = [] /\
  (state <$> default [] (PROCESS_TABLE k')) = Running :: replicate 40 Runnable /\ armed_inv k'.
Proof.
  destruct (deferred_expiry_drains (fun _ => 10) 1 id 41 (set_deferred true (crowded 40)) _
    (crowded_ok 40 ltac:(lia)) eq_refl ltac:(simpl; lia)) as (b & k' & H & _ & Hp & _ & Ha & _).
  exists k'. split; [exact H|]. split; [exact Hp|].
  vm_compute in H. injection H as <-. split; [reflexivity|]. split; [reflexivity|exact Ha].
Defined.

Lemma rearm_earliest_witness : exists k', rearm 1 3 (crowded 2) = (Ok tt, k').
Proof.
  destruct (crowded_ok 2 ltac:(lia)) as (_ & _ & Hq & Hp & _).
  destruct (rearm_earliest 1 3 (crowded 2) Hp Hq) as (k' & H & _). exists k'. exact H.
Defined.

Lemma block_publish_atomic_witness :
  exists r k', block_publish 1 (fun n => Some (S n)) 1 3 7 (crowded 2) = (Ok r, k') /\ armed_inv k'.
Proof.
  destruct (crowded_ok 2 ltac:(lia)) as (Ht & Hnd & Hq & Hp & _).
  assert (armed_inv (crowded 2)) as Ha.
  { intros d [(e & He & _ & <-)|[Hs|[Hs _]]]; [|vm_compute in Hs; injection Hs as <-; simpl; lia|done].
    simpl in He. repeat (apply elem_of_cons in He as [-> |He]; [simpl; lia|]). by apply elem_of_nil in He. }
  destruct (block_publish_atomic 1 (fun n => Some (S n)) ltac:(intros n c [= <-]; lia)
    1 3 7 (crowded 2) _ 0%nat runner Ht Hnd Hq Hp eq_refl eq_refl Ha) as (r & k' & H & _ & Hinv & _).
  exists r, k'. exact (conj H Hinv).
Defined.

Definition poller : Process :=
  mkProcess 2 2 false 1 AwaitingIo [] 0 0 false false [] (1, 0) 0 None None None.
Definition polling : Kernel :=
  mkKernel (Some [runner; poller]) 1 TimerQueue_new false
    (store_quantum 5 (preempt_init true)) 5 0 (Some 0) 0 0.

Lemma masked_signal_wakes_poller_witness :
  exists p', queue_signal (fun _ => 0) 1 id 2 1 polling = (Ok true, set_table (Some [runner; p']) polling) /\
    state p' = Runnable.
Proof.
  destruct (masked_signal_wakes_poller (fun _ => 0) 1 id polling [runner; poller] 1%nat poller 1)
    as [_ (p' & H & Hs & _)];
    [done|apply (bool_decide_unpack _); by vm_compute|done|done|lia|done|simpl; unfold U64_MAX; lia|by right|done|].
  exists p'. exact (conj H Hs).
Defined.
