(* ===== verification/Bitmap.v ===== *)
(** * Bitmaps (src/kernel/twilight_kernel/src/utils/bitmap.rs)

    A bitmap is a vector of 64-bit words; bit [i] is bit [i mod 64] of word
    [i / 64].  [bit_at] is the abstract view, a total function from indices to
    booleans, that the operations are specified against; the frame allocator
    uses the same words and the same view. *)

From S2P Require Import Prelude.

Definition BLOCK_BITS : nat := 64.

(** [BitField::set_bit] and [get_bit] on a word. *)
Definition set_bit (w : Z) (i : nat) (b : bool) : Z :=
  if b then Z.setbit w (Z.of_nat i) else Z.clearbit w (Z.of_nat i).
Definition get_bit (w : Z) (i : nat) : bool := Z.testbit w (Z.of_nat i).

(** [usize::trailing_ones] and [trailing_zeros], from bit [i] on. *)
Fixpoint trailing_run (b : bool) (fuel i : nat) (w : Z) : nat :=
  match fuel with
  | O => i
  | S fuel => if Bool.eqb (get_bit w i) b then trailing_run b fuel (S i) w else i
  end.
Definition word_trailing_ones (w : Z) : nat := trailing_run true BLOCK_BITS 0 w.
Definition word_trailing_zeros (w : Z) : nat := trailing_run false BLOCK_BITS 0 w.

(** How many of the [n] indices from [start] satisfy [p]. *)
Fixpoint count_range (p : nat -> bool) (start n : nat) : nat :=
  match n with
  | O => 0
  | S n => (if p start then 1 else 0) + count_range p (S start) n
  end.

(** [count_ones]. *)
Definition count_ones (w : Z) : nat := count_range (get_bit w) 0 64.

Definition calculate_blocks (bits : nat) : nat :=
  if (bits mod BLOCK_BITS =? 0)%nat then (bits / BLOCK_BITS)%nat else (bits / BLOCK_BITS + 1)%nat.

Definition Bitmap_new_in (size : nat) : list Z := replicate (calculate_blocks size) 0.
Definition Bitmap_empty : list Z := [].

(** Setting a bit outside the bitmap does nothing. *)
Definition Bitmap_set (ws : list Z) (bit_idx : nat) (yes : bool) : list Z :=
  alter (fun n => set_bit n (bit_idx mod BLOCK_BITS) yes) (bit_idx / BLOCK_BITS)%nat ws.

(** Reading a bit outside the bitmap panics. *)
Definition Bitmap_is_set (ws : list Z) (bit_idx : nat) : option bool :=
  n ← ws !! (bit_idx / BLOCK_BITS)%nat; Some (get_bit n (bit_idx mod BLOCK_BITS)).

Fixpoint find_first_from (trailing : Z -> nat) (ws : list Z) (i : nat) : option nat :=
  match ws with
  | [] => None
  | block :: ws =>
    if (trailing block <? BLOCK_BITS)%nat then Some (i * BLOCK_BITS + trailing block)%nat
    else find_first_from trailing ws (S i)
  end.
Definition find_first_unset (ws : list Z) : option nat := find_first_from word_trailing_ones ws 0.
Definition find_first_set (ws : list Z) : option nat := find_first_from word_trailing_zeros ws 0.

(** ** The abstract view *)

(** Bit [i]; indices outside read as clear. *)
Definition bit_at (ws : list Z) (i : nat) : bool :=
  match ws !! (i / 64)%nat with Some w => get_bit w (i mod 64) | None => false end.

Definition words_ok (ws : list Z) : Prop := Forall (in_width 64) ws.

Lemma get_set_bit w i j b : get_bit (set_bit w i b) j = if (j =? i)%nat then b else get_bit w j.
Proof.
  unfold get_bit, set_bit. destruct (j =? i)%nat eqn:Hij; bool_to_prop.
  - subst. destruct b; [apply Z.setbit_eq; lia|apply Z.clearbit_eq].
  - destruct b; [apply Z.setbit_neq; lia|apply Z.clearbit_neq; lia].
Qed.

Lemma block_index_eq (i j : nat) :
  (i / 64 = j / 64)%nat -> (i mod 64 = j mod 64)%nat -> i = j.
Proof.
  intros Hd Hm. pose proof (Nat.div_mod_eq i 64). pose proof (Nat.div_mod_eq j 64). lia.
Qed.

Lemma in_width_testbit w z :
  0 <= w -> 0 <= z -> (forall i, w <= i -> Z.testbit z i = false) -> in_width w z.
Proof.
  intros Hw Hz H. split; [done|]. destruct (decide (z = 0)) as [->|]; [lia|].
  apply Z.log2_lt_pow2; [lia|]. destruct (decide (Z.log2 z < w)); [done|].
  pose proof (Z.bit_log2 z ltac:(lia)) as Hb. rewrite H in Hb by lia. done.
Qed.

Lemma testbit_high w z i : in_width w z -> 0 <= w -> w <= i -> Z.testbit z i = false.
Proof.
  intros [H0 H1] Hw Hi. destruct (decide (z = 0)) as [->|]; [apply Z.bits_0|].
  apply Z.bits_above_log2; [done|].
  assert (Z.log2 z < w) by (apply Z.log2_lt_pow2; lia). lia.
Qed.

Lemma set_bit_width w i b : in_width 64 w -> (i < 64)%nat -> in_width 64 (set_bit w i b).
Proof.
  intros Hw Hi. apply in_width_testbit; [lia| |].
  - unfold set_bit. destruct b.
    + rewrite Z.setbit_spec'. apply Z.lor_nonneg. split; [apply Hw|lia].
    + rewrite Z.clearbit_spec'. apply Z.ldiff_nonneg. left. apply Hw.
  - intros j Hj. pose proof (get_set_bit w i (Z.to_nat j) b) as H. unfold get_bit in H.
    rewrite Z2Nat.id in H by lia. rewrite H. rewrite (proj2 (Nat.eqb_neq _ _)) by lia.
    by eapply testbit_high.
Qed.

Lemma bit_at_set ws i j b :
  (i / 64 < length ws)%nat ->
  bit_at (Bitmap_set ws i b) j = if (j =? i)%nat then b else bit_at ws j.
Proof.
  intros Hi. unfold bit_at, Bitmap_set, BLOCK_BITS. apply lookup_lt_is_Some in Hi as [w Hw].
  destruct (decide (j / 64 = i / 64)%nat) as [Hd|Hd].
  - rewrite Hd, list_lookup_alter_eq, Hw. simpl. rewrite get_set_bit.
    destruct (j =? i)%nat eqn:Hij; bool_to_prop; [subst; by rewrite Nat.eqb_refl|].
    rewrite (proj2 (Nat.eqb_neq _ _)); [done|]. intros Hm. by apply Hij, block_index_eq.
  - rewrite list_lookup_alter_ne by done. rewrite (proj2 (Nat.eqb_neq j i)); [done|]. by intros ->.
Qed.

Lemma bit_at_set_out ws i b : (length ws <= i / 64)%nat -> Bitmap_set ws i b = ws.
Proof.
  intros Hi. unfold Bitmap_set, BLOCK_BITS. apply list_eq. intros k.
  destruct (decide (k = i / 64)%nat) as [->|].
  - rewrite list_lookup_alter_eq, lookup_ge_None_2 by done. done.
  - by rewrite list_lookup_alter_ne.
Qed.

Lemma length_Bitmap_set ws i b : length (Bitmap_set ws i b) = length ws.
Proof. apply length_alter. Qed.

Lemma words_ok_set ws i b : words_ok ws -> words_ok (Bitmap_set ws i b).
Proof.
  unfold words_ok. rewrite !Forall_lookup. intros Hw k w Hk. unfold Bitmap_set in Hk.
  destruct (decide (k = i / BLOCK_BITS)%nat) as [->|].
  - rewrite list_lookup_alter_eq in Hk. destruct (ws !! (i / BLOCK_BITS)%nat) as [w'|] eqn:Hw'; [|done].
    injection Hk as <-. apply set_bit_width; [by eapply Hw|]. apply (Nat.mod_upper_bound i 64). done.
  - rewrite list_lookup_alter_ne in Hk by done. by eapply Hw.
Qed.

Lemma Bitmap_is_set_bit_at ws i :
  (i / 64 < length ws)%nat -> Bitmap_is_set ws i = Some (bit_at ws i).
Proof.
  intros [w Hw]%lookup_lt_is_Some. unfold Bitmap_is_set, bit_at, BLOCK_BITS. by rewrite Hw.
Qed.

Lemma bit_at_replicate n i : bit_at (replicate n 0) i = false.
Proof.
  unfold bit_at. destruct (replicate n 0 !! (i / 64)%nat) as [w|] eqn:Hw; [|done].
  apply lookup_replicate in Hw as [-> _]. apply Z.bits_0.
Qed.

(** ** Counting *)

Lemma count_range_ext p q n : forall start,
  (forall i, (start <= i < start + n)%nat -> p i = q i) -> count_range p start n = count_range q start n.
Proof.
  induction n as [|n IH]; intros start H; [done|]. simpl. rewrite (H start) by lia.
  f_equal. apply IH. intros. apply H. lia.
Qed.

Lemma count_range_app p n m : forall start,
  count_range p start (n + m) = (count_range p start n + count_range p (start + n) m)%nat.
Proof.
  induction n as [|n IH]; intros start; simpl; [by rewrite Nat.add_0_r|].
  rewrite IH, <- Nat.add_assoc. do 3 f_equal. lia.
Qed.

Lemma count_range_shift p n k : forall start,
  count_range p (start + k) n = count_range (fun i => p (i + k)%nat) start n.
Proof. induction n as [|n IH]; intros start; simpl; [done|]. f_equal. apply (IH (S start)). Qed.

Lemma count_range_false p n : forall start,
  (forall i, (start <= i < start + n)%nat -> p i = false) -> count_range p start n = 0%nat.
Proof.
  induction n as [|n IH]; intros start H; [done|]. simpl. rewrite (H start) by lia.
  simpl. apply IH. intros. apply H. lia.
Qed.

Lemma count_block ws k w :
  ws !! k = Some w -> count_range (bit_at ws) (k * 64) 64 = count_ones w.
Proof.
  intros Hw. rewrite <- (Nat.add_0_l (k * 64)), count_range_shift. apply count_range_ext. intros i Hi.
  unfold bit_at. rewrite Nat.div_add, Nat.Div0.mod_add, Nat.div_small, Nat.mod_small by lia.
  simpl. by rewrite Hw.
Qed.

Lemma count_blocks ws n :
  (n <= length ws)%nat -> sum_list (count_ones <$> take n ws) = count_range (bit_at ws) 0 (n * 64).
Proof.
  induction n as [|n IH]; intros Hn; [done|].
  destruct (lookup_lt_is_Some_2 ws n) as [w Hw]; [lia|].
  rewrite (take_S_r _ _ w) by done. rewrite fmap_app, sum_list_with_app, IH by lia.
  replace (S n * 64)%nat with (n * 64 + 64)%nat by lia.
  rewrite count_range_app, Nat.add_0_l, (count_block ws n w) by done. simpl. lia.
Qed.

(** ** Searching *)

Lemma trailing_run_spec b fuel w : forall i,
  (i <= trailing_run b fuel i w <= i + fuel)%nat /\
  (forall k, (i <= k < trailing_run b fuel i w)%nat -> get_bit w k = b) /\
  ((trailing_run b fuel i w < i + fuel)%nat -> get_bit w (trailing_run b fuel i w) = negb b).
Proof.
  induction fuel as [|fuel IH]; intros i; cbn [trailing_run]; [split_and!; lia|].
  destruct (Bool.eqb (get_bit w i) b) eqn:Hb.
  - apply eqb_prop in Hb. destruct (IH (S i)) as (H1 & H2 & H3). split_and!; [lia|lia| |].
    + intros k Hk. destruct (decide (k = i)) as [->|]; [done|]. apply H2. lia.
    + intros. apply H3. lia.
  - apply eqb_false_iff in Hb. split_and!; [lia|lia|intros; lia|].
    intros _. by destruct (get_bit w i), b.
Qed.

Lemma find_first_from_spec b ws : forall i,
  match find_first_from (trailing_run b BLOCK_BITS 0) ws i with
  | Some n => (i * 64 <= n)%nat /\ (n - i * 64 < length ws * 64)%nat /\ bit_at ws (n - i * 64) = negb b /\
      forall k, (k < n - i * 64)%nat -> bit_at ws k = b
  | None => forall k, (k < length ws * 64)%nat -> bit_at ws k = b
  end.
Proof.
  assert (forall w ws k, bit_at (w :: ws) (k + 64) = bit_at ws k) as Hshift.
  { intros. unfold bit_at. replace (k + 64)%nat with (k + 1 * 64)%nat by lia.
    rewrite Nat.div_add, Nat.Div0.mod_add by done. by rewrite Nat.add_1_r. }
  assert (forall w ws k, (k < 64)%nat -> bit_at (w :: ws) k = get_bit w k) as Hhead.
  { intros. unfold bit_at. by rewrite Nat.div_small, Nat.mod_small. }
  induction ws as [|w ws IH]; intros i; cbn [find_first_from]; [simpl; lia|].
  destruct (trailing_run_spec b BLOCK_BITS w 0) as (H1 & H2 & H3). unfold BLOCK_BITS in *.
  set (t := trailing_run b 64 0 w) in *.
  destruct (t <? 64)%nat eqn:Ht; bool_to_prop.
  - replace (i * 64 + t - i * 64)%nat with t by lia. split_and!; [lia|simpl; lia| |].
    + rewrite Hhead by done. apply H3. lia.
    + intros k Hk. rewrite Hhead by lia. apply H2. lia.
  - assert (forall k, (k < 64)%nat -> bit_at (w :: ws) k = b) as Hw.
    { intros k Hk. rewrite Hhead by done. apply H2. lia. }
    assert (forall m, (forall k, (k < m)%nat -> bit_at ws k = b) ->
      forall k, (k < m + 64)%nat -> bit_at (w :: ws) k = b) as Hext.
    { intros m Hm k Hk. destruct (decide (k < 64)%nat); [by apply Hw|].
      replace k with (k - 64 + 64)%nat by lia. rewrite Hshift. apply Hm. lia. }
    specialize (IH (S i)). destruct (find_first_from _ ws (S i)) as [n|].
    + destruct IH as (G1 & G2 & G3 & G4). split_and!; [lia|simpl; lia| |].
      * replace (n - i * 64)%nat with (n - S i * 64 + 64)%nat by lia. by rewrite Hshift.
      * intros k Hk. eapply Hext; [exact G4|lia].
    + intros k Hk. eapply Hext; [exact IH|]. simpl in Hk. lia.
Qed.

(** find_first_unset returns the least clear bit, and None only when every bit is set. *)
Theorem find_first_unset_least ws :
  match find_first_unset ws with
  | Some n => (n < length ws * 64)%nat /\ bit_at ws n = false /\ forall k, (k < n)%nat -> bit_at ws k = true
  | None => forall k, (k < length ws * 64)%nat -> bit_at ws k = true
  end.
Proof.
  pose proof (find_first_from_spec true ws 0) as H. unfold find_first_unset, word_trailing_ones.
  destruct (find_first_from _ ws 0) as [n|]; [|done]. simpl in H. rewrite Nat.sub_0_r in H. tauto.
Qed.

(** In a new bitmap every bit is clear, setting a bit changes that bit only, and find_first_set then returns it. *)
Theorem bitmap_set_is_set size i j b :
  (i < size)%nat -> (j < size)%nat ->
  let ws := Bitmap_new_in size in
  Bitmap_is_set ws j = Some false /\
  Bitmap_is_set (Bitmap_set ws i b) j = Some (if (j =? i)%nat then b else false) /\
  find_first_set (Bitmap_set ws i true) = Some i.
Proof.
  intros Hi Hj ws. assert (forall k, (k < size)%nat -> (k / 64 < length ws)%nat) as Hlen.
  { intros k Hk. unfold ws, Bitmap_new_in, calculate_blocks, BLOCK_BITS. rewrite length_replicate.
    pose proof (Nat.div_mod_eq size 64). pose proof (Nat.div_mod_eq k 64).
    pose proof (Nat.mod_upper_bound k 64 ltac:(done)). pose proof (Nat.mod_upper_bound size 64 ltac:(done)).
    destruct (size mod 64 =? 0)%nat eqn:Hm; bool_to_prop; lia. }
  assert (forall k, bit_at ws k = false) as Hz by (intros; apply bit_at_replicate).
  rewrite !Bitmap_is_set_bit_at, bit_at_set, !Hz by (rewrite ?length_Bitmap_set; auto).
  split; [done|]. split; [done|]. pose proof (find_first_from_spec false (Bitmap_set ws i true) 0) as H.
  unfold find_first_set, word_trailing_zeros.
  destruct (find_first_from _ _ 0) as [n|]; [simpl in H; rewrite Nat.sub_0_r in H|].
  - destruct H as (_ & _ & Hn & _). rewrite bit_at_set, Hz in Hn by auto.
    destruct (n =? i)%nat eqn:Hni; bool_to_prop; [by subst|done].
  - specialize (H i). rewrite bit_at_set, Nat.eqb_refl, length_Bitmap_set in H by auto.
    specialize (Hlen i Hi). pose proof (Nat.div_mod_eq i 64).
    pose proof (Nat.mod_upper_bound i 64 ltac:(done)). discriminate H. lia.
Qed.

Lemma bitmap_set_is_set_witness : Bitmap_is_set (Bitmap_set (Bitmap_new_in 4096) 69 true) 69 = Some true.
Proof. apply (bitmap_set_is_set 4096 69 69 true); apply Nat.ltb_lt; reflexivity. Defined.
