(* ===== verification/FrameAlloc.v ===== *)
(** * Physical frame allocator
      (src/kernel/twilight_kernel/src/sys/memory/bitmap.rs and phys.rs)

    A [PhysFrame] is its start address, a multiple of 4096; [frame + n] adds
    [4096 * n].  Frame indices number the frames of the usable regions in order.
    [None] is a panic: an index outside the bitmap, or an address that
    [PhysAddr::new] rejects.  [usable_regions] holds the first [regions_count]
    slots of the source's array, which [init] fills in order. *)

From S2P Require Import Prelude Bitmap.

Definition PAGE : Z := 4096.

Record UsableRegion := mkRegion { first_frame : Z; frame_count : nat }.

(** [PhysFrame::containing_address(PhysAddr::new(addr))]. *)
Definition frame_at (addr : Z) : option Z :=
  if addr <? 2 ^ 52 then Some (addr - addr mod PAGE) else None.

Definition UsableRegion_new (start_addr end_addr : Z) : option UsableRegion :=
  a ← frame_at start_addr;
  b ← frame_at (u64 (end_addr - 1));
  Some (mkRegion a (Z.to_nat ((b - a) / PAGE) + 1)).

Definition frame_add (f : Z) (n : nat) : Z := f + PAGE * Z.of_nat n.
Definition last_frame (r : UsableRegion) : Z := frame_add (first_frame r) (frame_count r - 1).
Definition region_contains (r : UsableRegion) (f : Z) : bool :=
  (first_frame r <=? f) && (f <=? last_frame r).
Definition region_offset (r : UsableRegion) (f : Z) : nat := Z.to_nat ((f - first_frame r) / PAGE).

Definition MAX_REGIONS : nat := 32.

Record FrameAllocator := mkAlloc {
  bitmap : list Z;
  next_free_index : nat;
  usable_regions : list UsableRegion;
  frames_count : nat;
}.

Definition set_bitmap (ws : list Z) (s : FrameAllocator) : FrameAllocator :=
  mkAlloc ws (next_free_index s) (usable_regions s) (frames_count s).
Definition set_next_free (n : nat) (s : FrameAllocator) : FrameAllocator :=
  mkAlloc (bitmap s) n (usable_regions s) (frames_count s).

(** ** Initialisation *)

Record MemEntry := mkMemEntry { mem_base : Z; mem_length : Z; mem_usable : bool }.

Definition entry_frames (e : MemEntry) : nat :=
  if mem_usable e then Z.to_nat (mem_length e / PAGE) else 0.

(** [(n + 4095) & !4095] on [usize]. *)
Definition page_align (n : Z) : Z := Z.ldiff (u64 (n + 4095)) 4095.

(** The loop over the memory map; [placed] is [bitmap_addr]. *)
Fixpoint init_loop (bitmap_size storage : Z) (map : list MemEntry) (placed : option Z)
    (s : FrameAllocator) : option (option Z * FrameAllocator) :=
  match map with
  | [] => Some (placed, s)
  | e :: map =>
    if negb (mem_usable e) then init_loop bitmap_size storage map placed s
    else
      let region_start := mem_base e in
      let region_end := u64 (mem_base e + mem_length e) in
      let region_size := u64 (region_end - region_start) in
      let place := match placed with None => storage <=? region_size | Some _ => false end in
      let placed := if place then Some region_start else placed in
      let s := if place then set_bitmap (replicate (Z.to_nat (bitmap_size / 8)) 0) s else s in
      let here := match placed with Some a => region_start =? a | None => false end in
      let usable_start := if here then u64 (region_start + storage) else region_start in
      if here && (region_end <=? usable_start) then init_loop bitmap_size storage map placed s
      else if PAGE <=? u64 (region_end - usable_start) then
        if (MAX_REGIONS <=? length (usable_regions s))%nat then Some (placed, s)
        else
          r ← UsableRegion_new usable_start region_end;
          init_loop bitmap_size storage map placed
            (mkAlloc (bitmap s) (next_free_index s) (usable_regions s ++ [r])
               (frames_count s + frame_count r))
      else init_loop bitmap_size storage map placed s
  end.

Definition total_map_frames (map : list MemEntry) : nat := sum_list (entry_frames <$> map).
Definition bitmap_bytes (frames : nat) : Z := (Z.of_nat frames + 63) / 64 * 8.

Definition FrameAllocator_init (map : list MemEntry) : option FrameAllocator :=
  let bitmap_size := bitmap_bytes (total_map_frames map) in
  '(placed, s) ← init_loop bitmap_size (page_align bitmap_size) map None (mkAlloc [] 0 [] 0);
  match placed with Some _ => Some s | None => None end.

(** ** Indices and frames *)

Fixpoint index_to_frame_loop (rs : list UsableRegion) (base index : nat) : option Z :=
  match rs with
  | [] => None
  | r :: rs =>
    if (index <? base + frame_count r)%nat then Some (frame_add (first_frame r) (index - base))
    else index_to_frame_loop rs (base + frame_count r) index
  end.
Definition index_to_frame (s : FrameAllocator) (index : nat) : option Z :=
  if (frames_count s <=? index)%nat then None
  else index_to_frame_loop (usable_regions s) 0 index.

Fixpoint frame_to_index_loop (rs : list UsableRegion) (base : nat) (f : Z) : option nat :=
  match rs with
  | [] => None
  | r :: rs =>
    if region_contains r f then Some (base + region_offset r f)%nat
    else frame_to_index_loop rs (base + frame_count r) f
  end.
Definition frame_to_index (s : FrameAllocator) (f : Z) : option nat :=
  frame_to_index_loop (usable_regions s) 0 f.

Definition is_frame_allocated (s : FrameAllocator) (index : nat) : option bool :=
  Bitmap_is_set (bitmap s) index.
Definition set_frame_allocated (s : FrameAllocator) (index : nat) (b : bool) : option FrameAllocator :=
  if (index / 64 <? length (bitmap s))%nat then Some (set_bitmap (Bitmap_set (bitmap s) index b) s)
  else None.

Definition total_frames (s : FrameAllocator) : nat := frames_count s.

Definition allocated_frames (s : FrameAllocator) : option nat :=
  if (frames_count s =? 0)%nat then Some 0%nat
  else
    let full_words := (frames_count s / 64)%nat in
    let rem_bits := (frames_count s mod 64)%nat in
    if (length (bitmap s) <? full_words)%nat then None
    else
      let used := sum_list (count_ones <$> take full_words (bitmap s)) in
      if negb (rem_bits =? 0)%nat then
        w ← bitmap s !! full_words;
        Some (used + count_ones (Z.land w (Z.ones (Z.of_nat rem_bits))))%nat
      else Some used.

Definition free_frames (s : FrameAllocator) : option nat :=
  used ← allocated_frames s; Some (total_frames s - used)%nat.

(** ** Single frames *)

Fixpoint allocate_frame_loop (n i : nat) (s : FrameAllocator)
    : option (option Z * FrameAllocator) :=
  match n with
  | O => Some (None, s)
  | S n =>
    let index := ((next_free_index s + i) mod frames_count s)%nat in
    a ← is_frame_allocated s index;
    if negb a then
      s' ← set_frame_allocated s index true;
      let s' := set_next_free (index + 1) s' in
      Some (index_to_frame s' index, s')
    else allocate_frame_loop n (S i) s
  end.
Definition allocate_frame (s : FrameAllocator) : option (option Z * FrameAllocator) :=
  allocate_frame_loop (frames_count s) 0 s.

Definition deallocate_frame (s : FrameAllocator) (f : Z) : option FrameAllocator :=
  match frame_to_index s f with
  | Some index =>
    a ← is_frame_allocated s index;
    if a : bool then
      s' ← set_frame_allocated s index false;
      Some (set_next_free (Nat.min (next_free_index s') index) s')
    else Some s
  | None => Some s
  end.

(** ** Contiguous frames *)

(** Whether [n] frames from [index] are free; stops at the first allocated one. *)
Fixpoint run_free (n index : nat) (s : FrameAllocator) : option bool :=
  match n with
  | O => Some true
  | S n => a ← is_frame_allocated s index;
           if a : bool then Some false else run_free n (S index) s
  end.

Fixpoint mark_run (n index : nat) (s : FrameAllocator) : option FrameAllocator :=
  match n with
  | O => Some s
  | S n => s' ← set_frame_allocated s index true; mark_run n (S index) s'
  end.

(** The first [start_off] in [len] consecutive ones from [off] that has a free run. *)
Fixpoint search_run (len off base num_pages : nat) (s : FrameAllocator) : option (option nat) :=
  match len with
  | O => Some None
  | S len => ok ← run_free num_pages (base + off) s;
             if ok : bool then Some (Some off) else search_run len (S off) base num_pages s
  end.

(** The two passes over one region of which [limit] frames may be used. *)
Definition search_region (s : FrameAllocator) (base limit num_pages : nat) : option (option nat) :=
  let max_start := (limit - num_pages)%nat in
  let start0 := if (base <=? next_free_index s)%nat && (next_free_index s <? base + limit)%nat
                then Nat.min (next_free_index s - base) max_start else 0%nat in
  r ← search_run (max_start + 1 - start0) start0 base num_pages s;
  match r with
  | Some off => Some (Some off)
  | None => search_run (Nat.min start0 (max_start + 1)) 0 base num_pages s
  end.

(** Mark the run found and return its first frame. *)
Definition take_run (s : FrameAllocator) (r : UsableRegion) (base off num_pages : nat)
    : option (option Z * FrameAllocator) :=
  s' ← mark_run num_pages (base + off) s;
  Some (Some (frame_add (first_frame r) off), set_next_free (base + off + num_pages) s').

Fixpoint allocate_contiguous_loop (limit : UsableRegion -> nat) (rs : list UsableRegion)
    (base num_pages : nat) (s : FrameAllocator) : option (option Z * FrameAllocator) :=
  match rs with
  | [] => Some (None, s)
  | r :: rs =>
    if (limit r <? num_pages)%nat
    then allocate_contiguous_loop limit rs (base + frame_count r) num_pages s
    else
      f ← search_region s base (limit r) num_pages;
      match f with
      | Some off => take_run s r base off num_pages
      | None => allocate_contiguous_loop limit rs (base + frame_count r) num_pages s
      end
  end.

Definition allocate_contiguous (s : FrameAllocator) (num_pages : nat)
    : option (option Z * FrameAllocator) :=
  if (num_pages =? 0)%nat then Some (None, s)
  else allocate_contiguous_loop frame_count (usable_regions s) 0 num_pages s.

(** The frames of a region that end at or below [max]; [max + 1] wraps. *)
Definition region_len_limited (max : Z) (r : UsableRegion) : nat :=
  if max <? first_frame r then 0%nat
  else Nat.min (frame_count r)
         (Z.to_nat (saturating_sub (u64 (max + 1)) (first_frame r) / 4096)).

Definition allocate_contiguous_below (s : FrameAllocator) (num_pages : nat) (max : Z)
    : option (option Z * FrameAllocator) :=
  if (num_pages =? 0)%nat then Some (None, s)
  else allocate_contiguous_loop (region_len_limited max) (usable_regions s) 0 num_pages s.

(** ** [PhysBuf] (phys.rs): the pages of a DMA buffer *)

Record PhysBuf := mkPhysBuf { phys : Z; buf_len : Z; pages : nat }.

Definition buf_pages (len : Z) : nat := Z.to_nat (page_align len / 4096).

(** [None] is the [expect] panic on exhausted memory. *)
Definition PhysBuf_new (s : FrameAllocator) (len : Z) : option (PhysBuf * FrameAllocator) :=
  '(f, s') ← allocate_contiguous s (buf_pages len);
  f ← f;
  Some (mkPhysBuf f len (buf_pages len), s').
Definition PhysBuf_new_dma32 (s : FrameAllocator) (len : Z) : option (PhysBuf * FrameAllocator) :=
  '(f, s') ← allocate_contiguous_below s (buf_pages len) U32_MAX;
  f ← f;
  Some (mkPhysBuf f len (buf_pages len), s').

Fixpoint drop_pages (n : nat) (start : Z) (s : FrameAllocator) : option FrameAllocator :=
  match n with
  | O => Some s
  | S n => f ← frame_at start; s' ← deallocate_frame s f; drop_pages n (start + 4096) s'
  end.
Definition PhysBuf_drop (s : FrameAllocator) (b : PhysBuf) : option FrameAllocator :=
  drop_pages (pages b) (phys b) s.

(** ** Well-formed allocators *)

Definition region_wf (r : UsableRegion) : Prop :=
  (0 < frame_count r)%nat /\ 0 <= first_frame r /\ first_frame r mod PAGE = 0 /\
  frame_add (first_frame r) (frame_count r) <= 2 ^ 52.

(** Two regions share no frame. *)
Definition region_sep (r r' : UsableRegion) : Prop :=
  last_frame r < first_frame r' \/ last_frame r' < first_frame r.

Fixpoint regions_ok (rs : list UsableRegion) : Prop :=
  match rs with
  | [] => True
  | r :: rs => region_wf r /\ Forall (region_sep r) rs /\ regions_ok rs
  end.

Definition regions_frames (rs : list UsableRegion) : nat := sum_list (frame_count <$> rs).

Lemma regions_frames_cons r rs : regions_frames (r :: rs) = (frame_count r + regions_frames rs)%nat.
Proof. done. Qed.

Definition alloc_wf (s : FrameAllocator) : Prop :=
  regions_ok (usable_regions s) /\ frames_count s = regions_frames (usable_regions s) /\
  (frames_count s <= length (bitmap s) * 64)%nat /\ words_ok (bitmap s).

(** The view of the allocator: which frame indices are taken. *)
Definition taken (s : FrameAllocator) (i : nat) : bool := bit_at (bitmap s) i.

(** ** Indices and frames *)

Lemma index_to_frame_loop_spec rs : forall base index,
  regions_ok rs -> (base <= index < base + regions_frames rs)%nat ->
  exists r off base', r ∈ rs /\ (off < frame_count r)%nat /\ index = (base' + off)%nat /\
    index_to_frame_loop rs base index = Some (frame_add (first_frame r) off).
Proof.
  induction rs as [|r rs IH]; intros base index Hok Hi; [unfold regions_frames in Hi; simpl in Hi; lia|].
  rewrite regions_frames_cons in Hi. simpl in *.
  destruct (index <? base + frame_count r)%nat eqn:Hlt; bool_to_prop.
  - exists r, (index - base)%nat, base. split_and!; [by left|lia|lia|done].
  - destruct (IH (base + frame_count r)%nat index) as (r' & off & b' & Hin & Hoff & Hidx & He);
      [apply Hok|lia|].
    exists r', off, b'. split_and!; [by right|done|done|done].
Qed.

Lemma frame_in_region r off :
  (off < frame_count r)%nat -> region_contains r (frame_add (first_frame r) off) = true.
Proof.
  intros Ho. unfold region_contains, last_frame, frame_add, PAGE.
  apply andb_true_iff. rewrite !Z.leb_le. lia.
Qed.

Lemma frame_not_in_sep r r' off :
  region_sep r r' -> (off < frame_count r')%nat ->
  region_contains r (frame_add (first_frame r') off) = false.
Proof.
  unfold region_sep, region_contains, last_frame, frame_add, PAGE. intros Hs Ho.
  apply andb_false_iff. rewrite !Z.leb_gt. lia.
Qed.

Lemma region_offset_add r off : region_offset r (frame_add (first_frame r) off) = off.
Proof.
  unfold region_offset, frame_add, PAGE.
  replace (first_frame r + 4096 * Z.of_nat off - first_frame r) with (Z.of_nat off * 4096) by lia.
  rewrite Z.div_mul by done. lia.
Qed.

Lemma loop_roundtrip rs : forall base index,
  regions_ok rs -> (base <= index < base + regions_frames rs)%nat ->
  exists f, index_to_frame_loop rs base index = Some f /\ frame_to_index_loop rs base f = Some index.
Proof.
  induction rs as [|r rs IH]; intros base index Hok Hi; [unfold regions_frames in Hi; simpl in Hi; lia|].
  rewrite regions_frames_cons in Hi. simpl in *.
  destruct Hok as (Hr & Hsep & Hok).
  destruct (index <? base + frame_count r)%nat eqn:Hlt; bool_to_prop.
  - eexists. split; [done|]. rewrite frame_in_region, region_offset_add by lia. f_equal. lia.
  - destruct (IH (base + frame_count r)%nat index) as (f & He & Hf); [done|lia|].
    exists f. split; [done|].
    destruct (index_to_frame_loop_spec rs (base + frame_count r)%nat index) as (r' & off & b' & Hin & Hoff & _ & He');
      [done|lia|].
    rewrite He in He'. injection He' as ->.
    rewrite Forall_forall in Hsep. rewrite frame_not_in_sep by auto. done.
Qed.

Lemma loop_roundtrip_inv rs : forall base f index,
  regions_ok rs -> f mod PAGE = 0 -> frame_to_index_loop rs base f = Some index ->
  (base <= index < base + regions_frames rs)%nat /\ index_to_frame_loop rs base index = Some f.
Proof.
  induction rs as [|r rs IH]; intros base f index Hok Hf; [done|].
  rewrite regions_frames_cons. simpl in *.
  destruct Hok as ((Hc & H0 & Hm & Hmax) & Hsep & Hok).
  destruct (region_contains r f) eqn:Hin.
  - intros [= <-]. unfold region_contains, last_frame, frame_add, PAGE in *. bool_to_prop.
    assert (f - first_frame r = 4096 * ((f - first_frame r) / 4096)) as Hd.
    { apply Z.div_exact; [done|]. by rewrite Zminus_mod, Hf, Hm. }
    unfold region_offset, PAGE. split; [split; [lia|]|].
    + enough (Z.to_nat ((f - first_frame r) / 4096) < frame_count r)%nat by lia.
      apply Nat2Z.inj_lt. rewrite Z2Nat.id by (apply Z.div_pos; lia). lia.
    + rewrite (proj2 (Nat.ltb_lt _ _)).
      * f_equal. rewrite Nat.add_comm, Nat.add_sub, Z2Nat.id by (apply Z.div_pos; lia). lia.
      * enough (Z.to_nat ((f - first_frame r) / 4096) < frame_count r)%nat by lia.
        apply Nat2Z.inj_lt. rewrite Z2Nat.id by (apply Z.div_pos; lia). lia.
  - intros Hl. apply IH in Hl as [Hb He]; [|done|done]. split; [lia|].
    by rewrite (proj2 (Nat.ltb_ge _ _)) by lia.
Qed.

Lemma index_to_frame_ok s i :
  alloc_wf s -> (i < frames_count s)%nat ->
  exists f, index_to_frame s i = Some f /\ frame_to_index s f = Some i.
Proof.
  intros (Hok & Hc & _) Hi. unfold index_to_frame, frame_to_index.
  rewrite (proj2 (Nat.leb_gt _ _)) by done. apply loop_roundtrip; [done|]. lia.
Qed.

Lemma frame_to_index_ok s f i :
  alloc_wf s -> f mod PAGE = 0 -> frame_to_index s f = Some i ->
  (i < frames_count s)%nat /\ index_to_frame s i = Some f.
Proof.
  intros (Hok & Hc & _) Hf Hi. apply loop_roundtrip_inv in Hi as [Hb He]; [|done|done].
  split; [lia|]. unfold index_to_frame. by rewrite (proj2 (Nat.leb_gt _ _)) by lia.
Qed.

(** [index_to_frame] and [frame_to_index] are inverse on the managed frames. *)
Theorem frame_index_roundtrip s :
  alloc_wf s ->
  (forall i, (i < frames_count s)%nat ->
     exists f, index_to_frame s i = Some f /\ frame_to_index s f = Some i) /\
  (forall f i, f mod PAGE = 0 -> frame_to_index s f = Some i ->
     (i < frames_count s)%nat /\ index_to_frame s i = Some f).
Proof. intros Hwf. split; intros; [by apply index_to_frame_ok|by apply frame_to_index_ok]. Qed.

(** ** One bit *)

Lemma in_bitmap s i : alloc_wf s -> (i < frames_count s)%nat -> (i / 64 < length (bitmap s))%nat.
Proof.
  intros (_ & _ & Hl & _) Hi. apply Nat.Div0.div_lt_upper_bound. lia.
Qed.

Lemma is_frame_allocated_ok s i :
  alloc_wf s -> (i < frames_count s)%nat -> is_frame_allocated s i = Some (taken s i).
Proof. intros. by apply Bitmap_is_set_bit_at, in_bitmap. Qed.

(** [s'] is [s] with index [i] set to [b]. *)
Definition updated (s s' : FrameAllocator) (upd : nat -> option bool) : Prop :=
  alloc_wf s' /\ usable_regions s' = usable_regions s /\ frames_count s' = frames_count s /\
  forall j, taken s' j = match upd j with Some b => b | None => taken s j end.

Lemma set_frame_allocated_ok s i b :
  alloc_wf s -> (i < frames_count s)%nat ->
  exists s', set_frame_allocated s i b = Some s' /\ next_free_index s' = next_free_index s /\
    updated s s' (fun j => if (j =? i)%nat then Some b else None).
Proof.
  intros Hwf Hi. pose proof (in_bitmap s i Hwf Hi) as Hb. unfold set_frame_allocated.
  rewrite (proj2 (Nat.ltb_lt _ _)) by done. eexists. split; [done|]. split; [done|].
  destruct Hwf as (Hok & Hc & Hl & Hw). unfold updated, alloc_wf. simpl. split_and!; try done.
  - by rewrite length_Bitmap_set.
  - by apply words_ok_set.
  - intros j. unfold taken. simpl. rewrite bit_at_set by done. by destruct (j =? i)%nat.
Qed.

Lemma updated_next_free s s' upd n : updated s s' upd -> updated s (set_next_free n s') upd.
Proof. done. Qed.

(** ** Single frames *)

Lemma allocate_frame_loop_spec n : forall i s,
  alloc_wf s -> (0 < frames_count s)%nat ->
  (exists s' k f, allocate_frame_loop n i s = Some (Some f, s') /\ index_to_frame s k = Some f /\
     (k < frames_count s)%nat /\ taken s k = false /\
     updated s s' (fun j => if (j =? k)%nat then Some true else None)) \/
  (allocate_frame_loop n i s = Some (None, s) /\
   forall t, (i <= t < i + n)%nat -> taken s ((next_free_index s + t) mod frames_count s) = true).
Proof.
  induction n as [|n IH]; intros i s Hwf Hpos; cbn [allocate_frame_loop]; [right; split; [done|lia]|].
  set (k := ((next_free_index s + i) mod frames_count s)%nat).
  assert (k < frames_count s)%nat as Hk by (apply Nat.mod_upper_bound; lia).
  rewrite is_frame_allocated_ok by done. cbn [mbind option_bind].
  destruct (taken s k) eqn:Ht; cbn [negb].
  - destruct (IH (S i) s Hwf Hpos) as [H|[H Hall]]; [by left|right]. split; [done|].
    intros t Hti. destruct (decide (t = i)) as [->|]; [done|]. apply Hall. lia.
  - left. destruct (set_frame_allocated_ok s k true) as (s' & -> & _ & Hu); [done|done|].
    cbn [mbind option_bind]. destruct (index_to_frame_ok s k Hwf Hk) as (f & Hf & _).
    eexists _, k, f. split; [|split_and!; [done|done|done|by apply updated_next_free]].
    do 2 f_equal. destruct Hu as (_ & Hr & Hc & _). unfold index_to_frame in *. simpl.
    by rewrite Hr, Hc.
Qed.

(** allocate_frame returns a frame that was free and marks exactly it, and fails only when every frame is taken. *)
Theorem allocate_frame_correct s :
  alloc_wf s ->
  exists r s', allocate_frame s = Some (r, s') /\
    match r with
    | Some f => exists k, index_to_frame s k = Some f /\ taken s k = false /\
        updated s s' (fun j => if (j =? k)%nat then Some true else None)
    | None => s' = s /\ forall k, (k < frames_count s)%nat -> taken s k = true
    end.
Proof.
  intros Hwf. unfold allocate_frame. destruct (decide (frames_count s = 0)%nat) as [H0|H0].
  { rewrite H0. exists None, s. split; [done|]. split; [done|lia]. }
  destruct (allocate_frame_loop_spec (frames_count s) 0 s Hwf ltac:(lia))
    as [(s' & k & f & He & Hf & Hk & Ht & Hu)|[He Hall]].
  - exists (Some f), s'. split; [done|]. by exists k.
  - exists None, s. split; [done|]. split; [done|]. intros k Hk.
    set (nf := (next_free_index s mod frames_count s)%nat).
    assert (nf < frames_count s)%nat by (apply Nat.mod_upper_bound; lia).
    pose (t := if (nf <=? k)%nat then (k - nf)%nat else (k + frames_count s - nf)%nat).
    assert (((next_free_index s + t) mod frames_count s)%nat = k) as Ht.
    { rewrite <- Nat.Div0.add_mod_idemp_l. fold nf. unfold t. destruct (nf <=? k)%nat eqn:Hle; bool_to_prop.
      - rewrite Nat.mod_small; lia.
      - replace (nf + (k + frames_count s - nf))%nat with (k + 1 * frames_count s)%nat by lia.
        rewrite Nat.Div0.mod_add, Nat.mod_small; lia. }
    rewrite <- Ht. apply Hall. unfold t. destruct (nf <=? k)%nat eqn:Hle; bool_to_prop; lia.
Qed.

Lemma deallocate_frame_ok s f :
  alloc_wf s -> f mod PAGE = 0 ->
  exists s', deallocate_frame s f = Some s' /\
    match frame_to_index s f with
    | Some k => updated s s' (fun j => if (j =? k)%nat then Some false else None)
    | None => s' = s
    end.
Proof.
  intros Hwf Hf. unfold deallocate_frame. destruct (frame_to_index s f) as [k|] eqn:Hk; [|by exists s].
  apply frame_to_index_ok in Hk as [Hlt _]; [|done|done].
  rewrite is_frame_allocated_ok by done. cbn [mbind option_bind]. destruct (taken s k) eqn:Ht.
  - destruct (set_frame_allocated_ok s k false) as (s' & -> & _ & Hu); [done|done|].
    eexists. split; [done|]. by apply updated_next_free.
  - exists s. split; [done|]. unfold updated. split_and!; [done..|]. intros j.
    destruct (j =? k)%nat eqn:Hj; bool_to_prop; [by subst|done].
Qed.

(** deallocate_frame frees exactly the given frame, ignores frames it does not manage, and a double free changes nothing. *)
Theorem deallocate_frame_correct s f :
  alloc_wf s -> f mod PAGE = 0 ->
  exists s', deallocate_frame s f = Some s' /\ alloc_wf s' /\
    (forall j, taken s' j = taken s j && negb (bool_decide (index_to_frame s j = Some f))) /\
    exists s'', deallocate_frame s' f = Some s'' /\ forall j, taken s'' j = taken s' j.
Proof.
  intros Hwf Hf. destruct (deallocate_frame_ok s f Hwf Hf) as (s' & He & Hs').
  exists s'. split; [done|]. destruct (frame_to_index s f) as [k|] eqn:Hk.
  - destruct Hs' as (Hwf' & Hr & Hc & Ht). split; [done|].
    pose proof Hk as Hk'. apply frame_to_index_ok in Hk' as [Hlt Hif]; [|done|done]. split.
    + intros j. rewrite Ht. destruct (j =? k)%nat eqn:Hj; bool_to_prop.
      * subst. by rewrite bool_decide_true, andb_false_r.
      * rewrite bool_decide_false, andb_true_r; [done|]. intros Hjf.
        destruct (decide (j < frames_count s)%nat) as [Hlj|Hlj].
        -- destruct (index_to_frame_ok s j Hwf Hlj) as (f' & H1 & H2). congruence.
        -- unfold index_to_frame in Hjf. by rewrite (proj2 (Nat.leb_le _ _)) in Hjf by lia.
    + destruct (deallocate_frame_ok s' f Hwf' Hf) as (s'' & He' & Hs''). exists s''. split; [done|].
      unfold frame_to_index in *. rewrite Hr, Hk in Hs''. destruct Hs'' as (_ & _ & _ & Ht').
      intros j. rewrite Ht', Ht. by destruct (j =? k)%nat.
  - subst. split; [done|]. split.
    + intros j. rewrite bool_decide_false, andb_true_r; [done|]. intros Hjf.
      destruct (decide (j < frames_count s)%nat) as [Hlj|Hlj].
      * destruct (index_to_frame_ok s j Hwf Hlj) as (f' & H1 & H2). congruence.
      * unfold index_to_frame in Hjf. by rewrite (proj2 (Nat.leb_le _ _)) in Hjf by lia.
    + exists s. by split.
Qed.

(** ** Runs of frames *)

(** [n] free indices from [k]. *)
Definition free_run (s : FrameAllocator) (k n : nat) : Prop :=
  forall j, (k <= j < k + n)%nat -> taken s j = false.

Lemma run_free_ok n : forall k s,
  alloc_wf s -> (k + n <= frames_count s)%nat ->
  exists b, run_free n k s = Some b /\ (b = true <-> free_run s k n).
Proof.
  induction n as [|n IH]; intros k s Hwf Hk; cbn [run_free].
  { exists true. split; [done|]. split; [|done]. intros _ j. lia. }
  rewrite is_frame_allocated_ok by (done || lia). cbn [mbind option_bind]. destruct (taken s k) eqn:Ht.
  - exists false. split; [done|]. split; [done|]. intros H. specialize (H k ltac:(lia)). congruence.
  - destruct (IH (S k) s Hwf ltac:(lia)) as (b & Hb & Hiff). exists b. split; [done|].
    rewrite Hiff. split; intros H j Hj; [|apply H; lia].
    destruct (decide (j = k)) as [->|]; [done|]. apply H. lia.
Qed.

Lemma mark_run_ok n : forall k s,
  alloc_wf s -> (k + n <= frames_count s)%nat ->
  exists s', mark_run n k s = Some s' /\
    updated s s' (fun j => if (k <=? j)%nat && (j <? k + n)%nat then Some true else None).
Proof.
  induction n as [|n IH]; intros k s Hwf Hk; cbn [mark_run].
  { exists s. split; [done|]. split_and!; [done..|]. intros j.
    destruct (_ && _) eqn:Hj; [bool_to_prop; lia|done]. }
  destruct (set_frame_allocated_ok s k true) as (s1 & -> & _ & Hwf1 & Hr1 & Hc1 & Ht1); [done|lia|].
  cbn [mbind option_bind]. destruct (IH (S k) s1 Hwf1 ltac:(lia)) as (s' & He & Hwf' & Hr & Hc & Ht).
  exists s'. split; [done|]. split_and!; [done|congruence|congruence|]. intros j. rewrite Ht, Ht1.
  destruct (S k <=? j)%nat eqn:E1, (j <? S k + n)%nat eqn:E2, (k <=? j)%nat eqn:E3,
    (j <? k + S n)%nat eqn:E4, (j =? k)%nat eqn:E5; simpl; bool_to_prop; done || lia.
Qed.

Lemma search_run_ok len : forall off base n s,
  alloc_wf s -> (forall o, (off <= o < off + len)%nat -> (base + o + n <= frames_count s)%nat) ->
  exists r, search_run len off base n s = Some r /\
    match r with
    | Some o => (off <= o < off + len)%nat /\ free_run s (base + o) n
    | None => forall o, (off <= o < off + len)%nat -> ~ free_run s (base + o) n
    end.
Proof.
  induction len as [|len IH]; intros off base n s Hwf Hb; cbn [search_run].
  { exists None. split; [done|]. intros o. lia. }
  destruct (run_free_ok n (base + off) s Hwf) as (b & -> & Hiff); [apply Hb; lia|].
  cbn [mbind option_bind]. destruct b.
  - exists (Some off). split; [done|]. split; [lia|]. by apply Hiff.
  - destruct (IH (S off) base n s Hwf) as (r & -> & Hr); [intros; apply Hb; lia|].
    exists r. split; [done|]. destruct r as [o|]; [split; [lia|tauto]|].
    intros o Ho. destruct (decide (o = off)) as [->|]; [|apply Hr; lia].
    intros H%Hiff. done.
Qed.

Lemma search_region_ok s base limit n :
  alloc_wf s -> (n <= limit)%nat -> (base + limit <= frames_count s)%nat ->
  exists r, search_region s base limit n = Some r /\
    match r with
    | Some o => (o + n <= limit)%nat /\ free_run s (base + o) n
    | None => forall o, (o + n <= limit)%nat -> ~ free_run s (base + o) n
    end.
Proof.
  intros Hwf Hn Hb. unfold search_region. set (start0 := if _ && _ then _ else _).
  assert (start0 <= limit - n)%nat as Hs0 by (subst start0; destruct (_ && _); lia).
  destruct (search_run_ok (limit - n + 1 - start0) start0 base n s Hwf) as (r & -> & Hr); [intros; lia|].
  cbn [mbind option_bind]. destruct r as [o|]; [exists (Some o); split; [done|]; split; [lia|tauto]|].
  destruct (search_run_ok (Nat.min start0 (limit - n + 1)) 0 base n s Hwf) as (r' & -> & Hr'); [intros; lia|].
  exists r'. split; [done|]. destruct r' as [o|]; [split; [lia|tauto]|].
  intros o Ho. destruct (decide (start0 <= o)%nat); [apply Hr; lia|apply Hr'; lia].
Qed.

(** The frames of a region are consecutive indices. *)
Lemma index_to_frame_region pre r post : forall base o,
  regions_ok (pre ++ r :: post) -> (o < frame_count r)%nat ->
  index_to_frame_loop (pre ++ r :: post) base (base + regions_frames pre + o) =
    Some (frame_add (first_frame r) o).
Proof.
  induction pre as [|r0 pre IH]; intros base o Hok Ho; simpl.
  - unfold regions_frames. simpl. rewrite (proj2 (Nat.ltb_lt _ _)) by lia. do 2 f_equal. lia.
  - rewrite regions_frames_cons, (proj2 (Nat.ltb_ge _ _)) by lia.
    rewrite <- (IH (base + frame_count r0)%nat o) by (apply Hok || done). f_equal. lia.
Qed.

Lemma regions_frames_app pre post :
  regions_frames (pre ++ post) = (regions_frames pre + regions_frames post)%nat.
Proof. unfold regions_frames. by rewrite fmap_app, sum_list_with_app. Qed.

(** What a contiguous allocation of [n] frames promises, where [limit r] frames of
    region [r] may be used. *)
Definition contiguous_spec (limit : UsableRegion -> nat) (s : FrameAllocator) (n : nat)
    (res : option Z) (s' : FrameAllocator) : Prop :=
  match res with
  | Some f => exists pre r post o, usable_regions s = pre ++ r :: post /\ (o + n <= limit r)%nat /\
      f = frame_add (first_frame r) o /\
      (forall j, (j < n)%nat -> index_to_frame s (regions_frames pre + o + j) = Some (frame_add f j)) /\
      free_run s (regions_frames pre + o) n /\
      updated s s' (fun j => if (regions_frames pre + o <=? j)%nat && (j <? regions_frames pre + o + n)%nat
                             then Some true else None)
  | None => s' = s /\ forall pre r post o, usable_regions s = pre ++ r :: post ->
      (o + n <= limit r)%nat -> ~ free_run s (regions_frames pre + o) n
  end.

Lemma frame_add_add f a b : frame_add (frame_add f a) b = frame_add f (a + b).
Proof. unfold frame_add, PAGE. lia. Qed.

Lemma allocate_contiguous_loop_ok limit n s : forall pre rs,
  alloc_wf s -> (0 < n)%nat -> (forall r, (limit r <= frame_count r)%nat) ->
  usable_regions s = pre ++ rs ->
  (forall pre' r post o, usable_regions s = pre' ++ r :: post -> (length pre' < length pre)%nat ->
     (o + n <= limit r)%nat -> ~ free_run s (regions_frames pre' + o) n) ->
  exists res s', allocate_contiguous_loop limit rs (regions_frames pre) n s = Some (res, s') /\
    contiguous_spec limit s n res s'.
Proof.
  intros pre rs. revert pre. induction rs as [|r rs IH]; intros pre Hwf Hn Hlim Hrs Hprev;
    cbn [allocate_contiguous_loop].
  { exists None, s. split; [done|]. split; [done|]. intros pre' r post o He Ho. apply (Hprev pre' r post o); [done| |done].
    rewrite app_nil_r in Hrs. rewrite <- Hrs, He, length_app. simpl. lia. }
  assert ((forall o, (o + n <= limit r)%nat -> ~ free_run s (regions_frames pre + o) n) ->
    exists res s', allocate_contiguous_loop limit rs (regions_frames pre + frame_count r) n s = Some (res, s') /\
      contiguous_spec limit s n res s') as Hskip.
  { intros Hno. replace (regions_frames pre + frame_count r)%nat with (regions_frames (pre ++ [r])).
    2: { rewrite regions_frames_app. unfold regions_frames. simpl. lia. }
    apply IH; [done|done|done|by rewrite <- app_assoc|].
    intros pre' r' post o He Hl Ho. rewrite length_app in Hl. simpl in Hl.
    destruct (decide (length pre' < length pre)%nat); [by eapply Hprev|].
    rewrite Hrs in He. apply app_inj_1 in He as [-> [= -> ->]]; [by apply Hno|lia]. }
  pose proof Hwf as (Hok & Hc & _).
  assert (regions_frames pre + frame_count r <= frames_count s)%nat as Hin.
  { rewrite Hc, Hrs, regions_frames_app, regions_frames_cons. lia. }
  specialize (Hlim r) as Hl. destruct (limit r <? n)%nat eqn:Hlt; bool_to_prop; [apply Hskip; lia|].
  destruct (search_region_ok s (regions_frames pre) (limit r) n) as (f & -> & Hf); [done|lia|lia|].
  cbn [mbind option_bind]. destruct f as [o|]; [|by apply Hskip]. destruct Hf as [Ho Hfree].
  unfold take_run. destruct (mark_run_ok n (regions_frames pre + o) s) as (s1 & -> & Hu); [done|lia|].
  cbn [mbind option_bind]. eexists _, _. split; [done|]. exists pre, r, rs, o.
  split_and!; [done|done|done| |done|by apply updated_next_free].
  intros j Hj. unfold index_to_frame. rewrite (proj2 (Nat.leb_gt _ _)) by lia.
  rewrite frame_add_add, Hrs. rewrite Hrs in Hok.
  rewrite <- (index_to_frame_region pre r rs 0 (o + j)) by (done || lia). f_equal. lia.
Qed.

Lemma allocate_contiguous_loop_all limit n s :
  alloc_wf s -> (0 < n)%nat -> (forall r, (limit r <= frame_count r)%nat) ->
  exists res s', allocate_contiguous_loop limit (usable_regions s) 0 n s = Some (res, s') /\
    contiguous_spec limit s n res s'.
Proof.
  intros Hwf Hn Hl. apply (allocate_contiguous_loop_ok limit n s []); [done..|]. simpl. lia.
Qed.

(** C32. A contiguous allocation never panics; it returns consecutive frames of one region that were all free, marks exactly those, and fails only when no region has a free run of that length. *)
Theorem allocate_contiguous_correct s n :
  alloc_wf s -> (0 < n)%nat ->
  exists res s', allocate_contiguous s n = Some (res, s') /\ contiguous_spec frame_count s n res s'.
Proof.
  intros Hwf Hn. unfold allocate_contiguous. rewrite (proj2 (Nat.eqb_neq _ _)) by lia.
  by apply allocate_contiguous_loop_all.
Qed.

(** The bounded contiguous allocation meets the same contract on the frames below the limit, and the last byte of the run it returns is at or below the limit. *)
Theorem allocate_contiguous_below_correct s n max :
  alloc_wf s -> (0 < n)%nat -> 0 <= max < U64_MAX ->
  exists res s', allocate_contiguous_below s n max = Some (res, s') /\
    contiguous_spec (region_len_limited max) s n res s' /\
    (forall f, res = Some f -> frame_add f n - 1 <= max).
Proof.
  intros Hwf Hn Hmax. unfold allocate_contiguous_below. rewrite (proj2 (Nat.eqb_neq _ _)) by lia.
  destruct (allocate_contiguous_loop_all (region_len_limited max) n s) as (res & s' & He & Hs); [done|done| |].
  { intros r. unfold region_len_limited. case_if; lia. }
  exists res, s'. split; [done|]. split; [done|]. intros f ->.
  destruct Hs as (pre & r & post & o & _ & Ho & -> & _). rewrite frame_add_add.
  unfold region_len_limited, frame_add, PAGE, saturating_sub, wrap in *. unfold U64_MAX in Hmax.
  rewrite Z.mod_small in Ho by lia. case_if; [lia|].
  pose proof (Z.mul_div_le (Z.max 0 (max + 1 - first_frame r)) 4096 ltac:(lia)). lia.
Qed.

(** ** Counts *)

Lemma count_masked w n :
  (n <= 64)%nat -> count_ones (Z.land w (Z.ones (Z.of_nat n))) = count_range (get_bit w) 0 n.
Proof.
  intros Hn. unfold count_ones. replace 64%nat with (n + (64 - n))%nat by lia.
  assert (forall i, get_bit (Z.land w (Z.ones (Z.of_nat n))) i = get_bit w i && (i <? n)%nat) as H.
  { intros i. unfold get_bit. rewrite Z.land_spec, Z.testbit_ones_nonneg by lia.
    f_equal. destruct (i <? n)%nat eqn:E; bool_to_prop; [apply Z.ltb_lt|apply Z.ltb_ge]; lia. }
  rewrite count_range_app, (count_range_false _ (64 - n)).
  - rewrite Nat.add_0_r. apply count_range_ext. intros i Hi. rewrite H.
    rewrite (proj2 (Nat.ltb_lt _ _)) by lia. apply andb_true_r.
  - intros i Hi. rewrite H, (proj2 (Nat.ltb_ge _ _)) by lia. apply andb_false_r.
Qed.

(** allocated_frames is the number of taken indices below the frame count, the partial last word included. *)
Theorem allocated_frames_counts s :
  alloc_wf s -> allocated_frames s = Some (count_range (taken s) 0 (frames_count s)).
Proof.
  intros Hwf. pose proof Hwf as (_ & _ & Hlen & _). unfold allocated_frames.
  destruct (frames_count s =? 0)%nat eqn:H0; bool_to_prop; [by rewrite H0|].
  pose proof (Nat.div_mod_eq (frames_count s) 64) as Hdm.
  pose proof (Nat.mod_upper_bound (frames_count s) 64 ltac:(done)) as Hmb.
  set (fw := (frames_count s / 64)%nat) in *. set (rb := (frames_count s mod 64)%nat) in *.
  rewrite (proj2 (Nat.ltb_ge _ _)) by lia. rewrite count_blocks by lia.
  destruct (rb =? 0)%nat eqn:Hr; bool_to_prop; cbn [negb].
  - do 2 f_equal. lia.
  - destruct (lookup_lt_is_Some_2 (bitmap s) fw) as [w Hw]; [lia|]. rewrite Hw. cbn [mbind option_bind].
    f_equal. rewrite count_masked by lia. replace (frames_count s) with (fw * 64 + rb)%nat by lia.
    rewrite count_range_app. f_equal. rewrite count_range_shift. apply count_range_ext. intros i Hi.
    unfold taken, bit_at. rewrite Nat.div_add, Nat.Div0.mod_add, Nat.div_small, Nat.mod_small by lia.
    simpl. by rewrite Hw.
Qed.

(** ** Buffers *)

Lemma regions_ok_elem rs r : regions_ok rs -> r ∈ rs -> region_wf r.
Proof.
  induction rs as [|r0 rs IH]; intros Hok Hin; [by apply elem_of_nil in Hin|].
  apply elem_of_cons in Hin as [-> |Hin]; [apply Hok|apply IH; [apply Hok|done]].
Qed.

Lemma index_to_frame_aligned s i f :
  alloc_wf s -> index_to_frame s i = Some f -> f mod PAGE = 0 /\ 0 <= f < 2 ^ 52.
Proof.
  intros (Hok & Hc & _) Hf. unfold index_to_frame in Hf. case_if; [done|].
  destruct (index_to_frame_loop_spec (usable_regions s) 0 i) as (r & off & b & Hin & Hoff & _ & He);
    [done|lia|].
  rewrite He in Hf. injection Hf as <-. apply regions_ok_elem in Hin as (Hp & H0 & Hm & Hmax); [|done].
  unfold frame_add, PAGE in *. split; [|lia]. by rewrite Z.mul_comm, Z.mod_add.
Qed.

Lemma drop_pages_ok n : forall k f s,
  alloc_wf s -> (forall j, (j < n)%nat -> index_to_frame s (k + j) = Some (frame_add f j)) ->
  exists s', drop_pages n f s = Some s' /\
    updated s s' (fun j => if (k <=? j)%nat && (j <? k + n)%nat then Some false else None).
Proof.
  induction n as [|n IH]; intros k f s Hwf Hf; cbn [drop_pages].
  { exists s. split; [done|]. split_and!; [done..|]. intros j.
    destruct (_ && _) eqn:Hj; [bool_to_prop; lia|done]. }
  pose proof (Hf 0%nat ltac:(lia)) as H0. rewrite Nat.add_0_r in H0.
  replace (frame_add f 0) with f in H0 by (unfold frame_add; lia).
  destruct (index_to_frame_aligned s k f Hwf H0) as [Hm Hb].
  unfold frame_at. rewrite (proj2 (Z.ltb_lt _ _)), Hm, Z.sub_0_r by lia. cbn [mbind option_bind].
  destruct (deallocate_frame_ok s f Hwf Hm) as (s1 & -> & Hs1). cbn [mbind option_bind].
  assert (k < frames_count s)%nat as Hk by (unfold index_to_frame in H0; case_if; [done|lia]).
  destruct (index_to_frame_ok s k Hwf Hk) as (f' & Hf1 & Hf2). rewrite H0 in Hf1. injection Hf1 as <-.
  rewrite Hf2 in Hs1. destruct Hs1 as (Hwf1 & Hr1 & Hc1 & Ht1).
  destruct (IH (S k) (f + 4096) s1 Hwf1) as (s' & He & Hwf' & Hr & Hc & Ht).
  { intros j Hj. unfold index_to_frame. rewrite Hr1, Hc1. specialize (Hf (S j) ltac:(lia)).
    unfold index_to_frame in Hf. replace (S k + j)%nat with (k + S j)%nat by lia. rewrite Hf.
    f_equal. unfold frame_add, PAGE. lia. }
  exists s'. split; [done|]. split_and!; [done|congruence|congruence|]. intros j. rewrite Ht, Ht1.
  destruct (S k <=? j)%nat eqn:E1, (j <? S k + n)%nat eqn:E2, (k <=? j)%nat eqn:E3,
    (j <? k + S n)%nat eqn:E4, (j =? k)%nat eqn:E5; simpl; bool_to_prop; done || lia.
Qed.

(** Freeing a freshly allocated run restores the allocator's view. *)
Lemma contiguous_drop limit s n f s1 :
  alloc_wf s -> contiguous_spec limit s n (Some f) s1 ->
  exists s2, drop_pages n f s1 = Some s2 /\ alloc_wf s2 /\ forall j, taken s2 j = taken s j.
Proof.
  intros Hwf (pre & r & post & o & Hr & Ho & -> & Hf & Hfree & Hwf1 & Hr1 & Hc1 & Ht1).
  set (k := (regions_frames pre + o)%nat) in *.
  destruct (drop_pages_ok n k (frame_add (first_frame r) o) s1 Hwf1) as (s2 & He & Hwf2 & _ & _ & Ht2).
  { intros j Hj. specialize (Hf j Hj). unfold index_to_frame in *. by rewrite Hr1, Hc1. }
  exists s2. split; [done|]. split; [done|]. intros j. rewrite Ht2, Ht1.
  destruct (_ && _) eqn:Hj; [|done]. bool_to_prop. symmetry. apply Hfree. lia.
Qed.

(** Dropping a DMA buffer restores exactly the allocation state before it was created. *)
Theorem phys_buf_new_drop s len b s1 :
  alloc_wf s -> (0 < buf_pages len)%nat ->
  PhysBuf_new s len = Some (b, s1) \/ PhysBuf_new_dma32 s len = Some (b, s1) ->
  exists s2, PhysBuf_drop s1 b = Some s2 /\ alloc_wf s2 /\ forall j, taken s2 j = taken s j.
Proof.
  intros Hwf Hn [H|H]; unfold PhysBuf_new, PhysBuf_new_dma32 in H.
  - unfold allocate_contiguous in H. rewrite (proj2 (Nat.eqb_neq _ _)) in H by lia.
    destruct (allocate_contiguous_loop_all frame_count (buf_pages len) s) as (res & s' & He & Hs);
      [done..|]. rewrite He in H. destruct res as [f|]; simplify_option_eq. by eapply contiguous_drop.
  - unfold allocate_contiguous_below in H. rewrite (proj2 (Nat.eqb_neq _ _)) in H by lia.
    destruct (allocate_contiguous_loop_all (region_len_limited U32_MAX) (buf_pages len) s)
      as (res & s' & He & Hs); [done|done|intros r; unfold region_len_limited; case_if; lia|].
    rewrite He in H. destruct res as [f|]; simplify_option_eq. by eapply contiguous_drop.
Qed.

(** ** Initialisation *)

Definition region_end (r : UsableRegion) : Z := frame_add (first_frame r) (frame_count r).
Definition entry_end (e : MemEntry) : Z := mem_base e + mem_length e.

Definition entry_wf (e : MemEntry) : Prop :=
  mem_base e mod PAGE = 0 /\ mem_length e mod PAGE = 0 /\ 0 <= mem_base e /\ 0 < mem_length e /\
  entry_end e <= 2 ^ 52.

(** The address ranges [[a, b)] and [[c, d)] are disjoint. *)
Definition apart (a b c d : Z) : Prop := b <= c \/ d <= a.

(** The usable entries of a memory map are page aligned and disjoint. *)
Fixpoint mem_ok (map : list MemEntry) : Prop :=
  match map with
  | [] => True
  | e :: map =>
    (mem_usable e = true -> entry_wf e /\
       Forall (fun e' => mem_usable e' = true -> apart (mem_base e) (entry_end e) (mem_base e') (entry_end e')) map) /\
    mem_ok map
  end.

Lemma UsableRegion_new_ok a b :
  a mod PAGE = 0 -> b mod PAGE = 0 -> 0 <= a < b -> b <= 2 ^ 52 ->
  exists r, UsableRegion_new a b = Some r /\ region_wf r /\ first_frame r = a /\ region_end r = b /\
    frame_count r = Z.to_nat ((b - a) / PAGE).
Proof.
  intros Ha Hb Hab Hmax. unfold UsableRegion_new, frame_at, PAGE in *.
  assert (b = 4096 * (b / 4096)) as Hbd by (apply Z.div_exact; done).
  assert (a = 4096 * (a / 4096)) as Had by (apply Z.div_exact; done).
  set (qa := a / 4096) in *. set (qb := b / 4096) in *. clearbody qa qb.
  rewrite (proj2 (Z.ltb_lt a (2 ^ 52))) by lia. cbn [mbind option_bind].
  unfold wrap. rewrite (Z.mod_small (b - 1)) by lia. rewrite (proj2 (Z.ltb_lt (b - 1) (2 ^ 52))) by lia.
  cbn [mbind option_bind]. rewrite Ha, Z.sub_0_r.
  assert ((b - 1) mod 4096 = 4095) as -> by (symmetry; apply (Z.mod_unique _ _ (qb - 1)); lia).
  assert ((b - 1 - 4095 - a) / 4096 = qb - 1 - qa) as ->
    by (symmetry; apply (Z.div_unique _ _ _ 0); lia).
  assert ((b - a) / 4096 = qb - qa) as -> by (symmetry; apply (Z.div_unique _ _ _ 0); lia).
  eexists. split; [done|]. unfold region_wf, region_end, frame_add, PAGE. simpl.
  split_and!; try lia; done.
Qed.

Lemma mem_ok_elem map e : mem_ok map -> e ∈ map -> mem_usable e = true -> entry_wf e.
Proof.
  induction map as [|e0 map IH]; intros Hok Hin Hu; [by apply elem_of_nil in Hin|].
  apply elem_of_cons in Hin as [-> |Hin]; [by apply Hok|by apply IH; [apply Hok| |]].
Qed.

Lemma total_map_frames_cons e map :
  total_map_frames (e :: map) = (entry_frames e + total_map_frames map)%nat.
Proof. done. Qed.

Section init.
Context (bsize storage : Z) (total : nat).
Hypothesis storage_page : storage mod PAGE = 0.
Hypothesis storage_nonneg : 0 <= storage < 2 ^ 52.

(** What the loop has built when [map] is left. *)
Definition init_inv (map : list MemEntry) (placed : option Z) (s : FrameAllocator) : Prop :=
  regions_ok (usable_regions s) /\ frames_count s = regions_frames (usable_regions s) /\
  (frames_count s + total_map_frames map <= total)%nat /\
  Forall (fun r => Forall (fun e => mem_usable e = true ->
    apart (first_frame r) (region_end r) (mem_base e) (entry_end e)) map) (usable_regions s) /\
  match placed with
  | None => bitmap s = []
  | Some a => bitmap s = replicate (Z.to_nat (bsize / 8)) 0 /\
      Forall (fun r => apart (first_frame r) (region_end r) a (a + storage)) (usable_regions s) /\
      Forall (fun e => mem_usable e = true -> mem_base e <> a /\
        apart (mem_base e) (entry_end e) a (a + storage)) map
  end.

Lemma regions_ok_snoc rs r :
  regions_ok rs -> region_wf r ->
  Forall (fun r' => apart (first_frame r') (region_end r') (first_frame r) (region_end r)) rs ->
  regions_ok (rs ++ [r]).
Proof.
  induction rs as [|r0 rs IH]; intros Hok Hr Hs; simpl in *; [by split_and!|].
  destruct Hok as (Hr0 & Hsep & Hok). apply Forall_cons in Hs as [H0 Hs]. split_and!; [done| |by apply IH].
  apply Forall_app. split; [done|]. constructor; [|done].
  destruct Hr as (? & _), Hr0 as (? & _).
  unfold region_sep, last_frame, region_end, apart, frame_add, PAGE in *. lia.
Qed.

Lemma init_inv_tail e map placed s : init_inv (e :: map) placed s -> init_inv map placed s.
Proof.
  intros (H1 & H2 & H3 & H4 & H5). unfold init_inv. split_and!; [done|done| | |].
  - rewrite total_map_frames_cons in H3. lia.
  - eapply Forall_impl; [done|]. intros r Hr. by apply Forall_cons in Hr as [_ ?].
  - destruct placed as [a|]; [|done]. destruct H5 as (? & ? & H5). split_and!; [done|done|].
    by apply Forall_cons in H5 as [_ ?].
Qed.

(** Adding the usable part [[start, end)] of entry [e] as a region. *)
Lemma init_inv_add e map placed s start r :
  mem_usable e = true -> mem_ok (e :: map) -> init_inv map placed s ->
  Forall (fun r => apart (first_frame r) (region_end r) (mem_base e) (entry_end e)) (usable_regions s) ->
  (frames_count s + total_map_frames (e :: map) <= total)%nat ->
  region_wf r -> first_frame r = start -> region_end r = entry_end e -> mem_base e <= start ->
  (frame_count r <= entry_frames e)%nat ->
  match placed with Some a => apart start (entry_end e) a (a + storage) | None => True end ->
  init_inv map placed (mkAlloc (bitmap s) (next_free_index s) (usable_regions s ++ [r])
                         (frames_count s + frame_count r)).
Proof.
  intros Hu [Hm _] (H1 & H2 & _ & H4 & H5) Hes H3 Hr Hs He Hle Hfc Hpl.
  destruct (Hm Hu) as [_ Hsep]. rewrite total_map_frames_cons in H3.
  unfold init_inv. simpl. split_and!.
  - apply regions_ok_snoc; [done|done|]. eapply Forall_impl; [exact Hes|]. intros r' Hr'.
    simpl in Hr'. unfold apart in *. lia.
  - rewrite regions_frames_app, H2. unfold regions_frames. simpl. lia.
  - lia.
  - apply Forall_app. split; [done|]. constructor; [|done]. eapply Forall_impl; [exact Hsep|].
    intros e' He' Hu'. specialize (He' Hu'). unfold apart in *. lia.
  - destruct placed as [a|]; [|done]. destruct H5 as (? & ? & ?). split_and!; [done| |done].
    apply Forall_app. split; [done|]. constructor; [|done]. by rewrite Hs, He.
Qed.

(** Placing the bitmap at the start of entry [e]. *)
Lemma init_inv_place e map s :
  mem_usable e = true -> mem_ok (e :: map) -> init_inv (e :: map) None s ->
  storage <= mem_length e ->
  init_inv map (Some (mem_base e)) (set_bitmap (replicate (Z.to_nat (bsize / 8)) 0) s).
Proof.
  intros Hu Hmem Hinv Hst. pose proof (init_inv_tail _ _ _ _ Hinv) as (T1 & T2 & T3 & T4 & _).
  destruct Hinv as (_ & _ & _ & H4 & _). destruct Hmem as [Hm Hmap].
  destruct (Hm Hu) as [(Hb & Hl & H0 & Hpos & Hmax) Hsep].
  unfold init_inv. simpl. split_and!; try done.
  - eapply Forall_impl; [exact H4|]. intros r Hr. apply Forall_cons in Hr as [Hr _]. specialize (Hr Hu).
    unfold apart, entry_end in *. lia.
  - rewrite Forall_forall in *. intros e' Hin Hu'. specialize (Hsep e' Hin Hu').
    destruct (mem_ok_elem map e' Hmap Hin Hu') as (_ & _ & _ & Hpos' & _).
    unfold apart, entry_end in *. lia.
Qed.

(** Few enough usable entries for the region array. *)
Definition fits (map : list MemEntry) (s : FrameAllocator) : Prop :=
  (length (usable_regions s) + length (filter (fun e => mem_usable e = true) map) <= MAX_REGIONS)%nat.

(** The loop on [map] ends with the invariant, and places the bitmap if some entry
    has room for it. *)
Definition loop_ok (map : list MemEntry) : Prop := forall placed s,
  mem_ok map -> init_inv map placed s ->
  exists placed' s', init_loop bsize storage map placed s = Some (placed', s') /\
    (exists rest, init_inv rest placed' s') /\
    (fits map s -> placed' = None ->
       placed = None /\ forall e, e ∈ map -> mem_usable e = true -> mem_length e < storage).

(** The end of the loop body, with [[start, entry_end e)] the usable part of [e]. *)
Definition init_step (e : MemEntry) (map : list MemEntry) (start : Z) (placed1 : option Z) (s1 : FrameAllocator)
    : option (option Z * FrameAllocator) :=
  if PAGE <=? u64 (entry_end e - start) then
    if (MAX_REGIONS <=? length (usable_regions s1))%nat then Some (placed1, s1)
    else r ← UsableRegion_new start (entry_end e);
         init_loop bsize storage map placed1
           (mkAlloc (bitmap s1) (next_free_index s1) (usable_regions s1 ++ [r]) (frames_count s1 + frame_count r))
  else init_loop bsize storage map placed1 s1.

Lemma init_step_ok e map start placed1 s1 s :
  loop_ok map -> mem_usable e = true -> mem_ok (e :: map) -> init_inv map placed1 s1 ->
  Forall (fun r => apart (first_frame r) (region_end r) (mem_base e) (entry_end e)) (usable_regions s) ->
  (frames_count s + total_map_frames (e :: map) <= total)%nat ->
  usable_regions s1 = usable_regions s -> frames_count s1 = frames_count s ->
  mem_base e <= start < entry_end e -> start mod PAGE = 0 ->
  match placed1 with Some a => apart start (entry_end e) a (a + storage) | None => mem_length e < storage end ->
  exists placed' s', init_step e map start placed1 s1 = Some (placed', s') /\
    (exists rest, init_inv rest placed' s') /\
    (fits (e :: map) s -> placed' = None ->
       placed1 = None /\ forall e', e' ∈ e :: map -> mem_usable e' = true -> mem_length e' < storage).
Proof.
  intros IH Hu Hmem Hi Hes Hcnt Hrs Hfs Hst Hsm Hpl. pose proof Hmem as [Hm Hmem'].
  destruct (Hm Hu) as [(Hb & Hl & H0 & Hpos & Hmax) Hsep]. unfold init_step.
  assert (entry_end e mod PAGE = 0) as Hem by (unfold entry_end; by rewrite Zplus_mod, Hb, Hl).
  destruct (UsableRegion_new_ok start (entry_end e)) as (r & Hrn & Hrw & Hr1 & Hr2 & Hr3); [done|done|lia|done|].
  assert (PAGE <= entry_end e - start) as Hpg.
  { unfold PAGE in *. pose proof (Z.div_exact start 4096 ltac:(done)) as [_ E1].
    pose proof (Z.div_exact (entry_end e) 4096 ltac:(done)) as [_ E2]. specialize (E1 Hsm). specialize (E2 Hem). lia. }
  unfold wrap. rewrite Z.mod_small by (unfold entry_end in *; lia).
  rewrite (proj2 (Z.leb_le _ _)) by done.
  assert (fits (e :: map) s -> (S (length (usable_regions s)) + length (filter (fun e => mem_usable e = true) map) <= MAX_REGIONS)%nat) as Hfit.
  { unfold fits. rewrite filter_cons_True by done. simpl. lia. }
  destruct (MAX_REGIONS <=? _)%nat eqn:Hmx; bool_to_prop.
  - exists placed1, s1. split; [done|]. split; [by exists map|]. intros Hf _. specialize (Hfit Hf).
    rewrite Hrs in Hmx. lia.
  - rewrite Hrn. cbn [mbind option_bind].
    edestruct (IH placed1) as (p' & s' & He & Hrest & Hn); [done| |].
    { eapply (init_inv_add e map placed1 s1 start r); try done.
      - by rewrite Hrs.
      - by rewrite Hfs.
      - lia.
      - rewrite Hr3. unfold entry_frames. rewrite Hu. apply Z2Nat.inj_le;
          [apply Z.div_pos; unfold PAGE; lia|apply Z.div_pos; unfold PAGE; lia|].
        apply Z.div_le_mono; [done|]. unfold entry_end. lia.
      - by destruct placed1. }
    exists p', s'. split; [exact He|]. split; [done|]. intros Hf Hp.
    destruct Hn as [-> Hall]; [|done|].
    { unfold fits. simpl. rewrite length_app, Hrs. simpl. specialize (Hfit Hf). lia. }
    split; [done|]. intros e' [-> |Hin]%elem_of_cons ?; [done|auto].
Qed.

Lemma init_loop_ok map : loop_ok map.
Proof.
  induction map as [|e map IH]; intros placed s Hmem Hinv; cbn [init_loop].
  { exists placed, s. split; [done|]. split; [by exists []|]. intros _ ->. split; [done|].
    by intros e ?%elem_of_nil. }
  pose proof (init_inv_tail _ _ _ _ Hinv) as Htail. pose proof Hmem as [Hm Hmem'].
  destruct (mem_usable e) eqn:Hu; cbn [negb].
  2: { destruct (IH placed s Hmem' Htail) as (p' & s' & He & Hr & Hn). exists p', s'.
       split; [done|]. split; [done|]. intros Hfit Hp.
       destruct Hn as [? Hall]; [|done|]; [unfold fits in *; rewrite filter_cons_False in Hfit by (by rewrite Hu); done|].
       split; [done|]. intros e' [-> |Hin]%elem_of_cons ?; [congruence|auto]. }
  destruct (Hm eq_refl) as [(Hb & Hl & H0 & Hpos & Hmax) Hsep].
  assert (entry_end e = u64 (mem_base e + mem_length e)) as Hend
    by (unfold entry_end, wrap in *; rewrite Z.mod_small; lia).
  rewrite <- Hend. assert (u64 (entry_end e - mem_base e) = mem_length e) as Hsz
    by (unfold entry_end, wrap in *; rewrite Z.mod_small; lia).
  rewrite Hsz.
  assert (Forall (fun r => apart (first_frame r) (region_end r) (mem_base e) (entry_end e)) (usable_regions s))
    as Hes.
  { destruct Hinv as (_ & _ & _ & H4 & _). eapply Forall_impl; [exact H4|]. intros r Hr.
    apply Forall_cons in Hr as [Hr _]. by apply Hr. }
  assert (frames_count s + total_map_frames (e :: map) <= total)%nat as Hcnt by apply Hinv.
  destruct placed as [a|].
  - destruct Htail as (T1 & T2 & T3 & T4 & T5). pose proof Hinv as (_ & _ & _ & _ & H5).
    destruct H5 as (Hbm & Hra & Hea). apply Forall_cons in Hea as [Hea _]. destruct (Hea Hu) as [Hne Hap].
    rewrite (proj2 (Z.eqb_neq _ _)) by done. cbn [andb].
    destruct (init_step_ok e map (mem_base e) (Some a) s s) as (p' & s' & He & Hr & Hn);
      [done|done|done|done|done|done|done|done|unfold entry_end; lia|done|done|].
    by exists p', s'.
  - destruct (storage <=? mem_length e) eqn:Hst; bool_to_prop.
    + rewrite Z.eqb_refl. cbn [andb].
      pose proof (init_inv_place e map s Hu Hmem Hinv Hst) as Hpl. set (s1 := set_bitmap _ s) in *.
      assert (u64 (mem_base e + storage) = mem_base e + storage) as ->
        by (unfold wrap, entry_end in *; rewrite Z.mod_small; lia).
      destruct (entry_end e <=? mem_base e + storage) eqn:Hfull; bool_to_prop.
      * destruct (IH (Some (mem_base e)) s1 Hmem' Hpl) as (p' & s' & He & Hr & Hn). exists p', s'.
        split; [done|]. split; [done|]. intros Hf Hp. destruct Hn as [? _]; [|done|done].
        unfold fits in *. rewrite filter_cons_True in Hf by done. simpl in *. lia.
      * destruct (init_step_ok e map (mem_base e + storage) (Some (mem_base e)) s1 s) as (p' & s' & He & Hr & Hn);
          [done|done|done|done|done|done|done|done|lia|by rewrite Zplus_mod, Hb, storage_page|right; lia|].
        exists p', s'. split; [done|]. split; [done|]. intros Hf Hp. by destruct (Hn Hf Hp).
    + destruct (init_step_ok e map (mem_base e) None s s) as (p' & s' & He & Hr & Hn);
        [done|done|done|done|done|done|done|done|unfold entry_end; lia|done|done|].
      by exists p', s'.
Qed.
End init.

Lemma page_align_ok n :
  0 <= n < 2 ^ 52 -> page_align n mod PAGE = 0 /\ n <= page_align n < n + PAGE.
Proof.
  intros Hn. unfold page_align, PAGE, wrap. rewrite (Z.mod_small (n + 4095)) by lia.
  assert (forall x, Z.ldiff x 4095 = x / 4096 * 4096) as ->.
  { intros x. change 4095 with (Z.ones 12). rewrite Z.ldiff_ones_r by lia.
    by rewrite Z.shiftr_div_pow2, Z.shiftl_mul_pow2 by lia. }
  split; [apply Z.mod_mul; done|].
  pose proof (Z.div_mod (n + 4095) 4096 ltac:(done)). pose proof (Z.mod_pos_bound (n + 4095) 4096 ltac:(lia)). lia.
Qed.

Lemma bitmap_bytes_words n :
  (n <= Z.to_nat (bitmap_bytes n / 8) * 64)%nat /\ 0 <= bitmap_bytes n <= Z.of_nat n + 63.
Proof.
  unfold bitmap_bytes. rewrite Z.div_mul by done.
  pose proof (Z.div_mod (Z.of_nat n + 63) 64 ltac:(done)).
  pose proof (Z.mod_pos_bound (Z.of_nat n + 63) 64 ltac:(lia)). split; [|lia].
  apply Nat2Z.inj_le. rewrite Nat2Z.inj_mul, Z2Nat.id; lia.
Qed.

(** From a page-aligned, non-overlapping memory map with room for the bitmap, init builds a well-formed allocator with every frame free and no usable frame overlapping the bitmap storage. *)
Theorem init_correct map e :
  mem_ok map -> Z.of_nat (total_map_frames map) <= 2 ^ 40 ->
  (length (filter (fun e => mem_usable e = true) map) <= MAX_REGIONS)%nat ->
  e ∈ map -> mem_usable e = true -> page_align (bitmap_bytes (total_map_frames map)) <= mem_length e ->
  exists s a, FrameAllocator_init map = Some s /\ alloc_wf s /\ (forall i, taken s i = false) /\
    Forall (fun r => apart (first_frame r) (region_end r) a
      (a + page_align (bitmap_bytes (total_map_frames map)))) (usable_regions s).
Proof.
  intros Hmem Htot Hfit Hin Hu Hbig. unfold FrameAllocator_init.
  set (total := total_map_frames map) in *. destruct (bitmap_bytes_words total) as [Hw Hb].
  set (bs := bitmap_bytes total) in *. destruct (page_align_ok bs) as [Hp1 Hp2]; [lia|].
  set (st := page_align bs) in *.
  destruct (init_loop_ok bs st total Hp1 ltac:(unfold PAGE in *; lia) map None (mkAlloc [] 0 [] 0) Hmem)
    as (p & s & -> & (rest & Hinv) & Hnone).
  { unfold init_inv. simpl. split_and!; [done|done|unfold total; lia|constructor|done]. }
  cbn [mbind option_bind]. destruct p as [a|].
  2: { destruct (Hnone Hfit eq_refl) as [_ Hall]. specialize (Hall e Hin Hu). lia. }
  destruct Hinv as (H1 & H2 & H3 & _ & H5 & H6 & _). exists s, a. split; [done|].
  split; [|split; [|done]].
  - unfold alloc_wf. rewrite H5, length_replicate. split_and!; [done|done|lia|].
    apply Forall_replicate. unfold in_width. lia.
  - intros i. unfold taken. rewrite H5. apply bit_at_replicate.
Qed.

(** ** Instances *)

Definition small_map : list MemEntry :=
  [mkMemEntry 4096 8192 true; mkMemEntry 12288 4096 false; mkMemEntry 16384 16384 true].
Definition small_alloc : FrameAllocator :=
  mkAlloc [0] 0 [mkRegion 8192 1; mkRegion 16384 4] 5.

Lemma small_map_ok : mem_ok small_map.
Proof.
  unfold small_map, mem_ok, entry_wf, apart, entry_end, PAGE. simpl.
  split_and!; try done; intros; split_and!; try done; repeat constructor; simpl; intros; try done; lia.
Qed.

Lemma small_alloc_wf : alloc_wf small_alloc.
Proof.
  unfold alloc_wf, small_alloc, words_ok, region_wf, region_sep, last_frame, frame_add, PAGE. simpl.
  split_and!; try done; repeat constructor; unfold in_width; simpl; try done; lia.
Qed.

Lemma init_correct_witness : exists s, FrameAllocator_init small_map = Some s /\ alloc_wf s.
Proof.
  destruct (init_correct small_map (mkMemEntry 4096 8192 true)) as (s & a & H & Hw & _);
    [apply small_map_ok|vm_compute; discriminate|vm_compute; lia|by left|done|vm_compute; discriminate|].
  exists s. exact (conj H Hw).
Defined.

Lemma frame_index_roundtrip_witness : index_to_frame small_alloc 3 = Some 24576.
Proof. apply (frame_index_roundtrip small_alloc small_alloc_wf); reflexivity. Defined.

Lemma allocate_frame_correct_witness :
  exists r s', allocate_frame small_alloc = Some (r, s').
Proof.
  destruct (allocate_frame_correct small_alloc small_alloc_wf) as (r & s' & H & _).
  exists r, s'. exact H.
Defined.

Lemma deallocate_frame_correct_witness : exists s', deallocate_frame small_alloc 16384 = Some s' /\ alloc_wf s'.
Proof.
  destruct (deallocate_frame_correct small_alloc 16384 small_alloc_wf eq_refl) as (s' & H & Hw & _).
  exists s'. exact (conj H Hw).
Defined.

Lemma allocate_contiguous_correct_witness :
  exists res s', allocate_contiguous small_alloc 3 = Some (res, s') /\
    contiguous_spec frame_count small_alloc 3 res s'.
Proof. apply (allocate_contiguous_correct small_alloc 3 small_alloc_wf). lia. Defined.

Lemma allocate_contiguous_below_correct_witness :
  exists res s', allocate_contiguous_below small_alloc 2 U32_MAX = Some (res, s').
Proof.
  destruct (allocate_contiguous_below_correct small_alloc 2 U32_MAX small_alloc_wf) as (r & s' & H & _);
    [lia|unfold U32_MAX, U64_MAX; lia|]. exists r, s'. exact H.
Defined.

Lemma allocated_frames_counts_witness : allocated_frames small_alloc = Some 0%nat.
Proof. exact (allocated_frames_counts small_alloc small_alloc_wf). Defined.

Lemma phys_buf_new_drop_witness :
  exists b s1 s2, PhysBuf_new small_alloc 5000 = Some (b, s1) /\ PhysBuf_drop s1 b = Some s2.
Proof.
  destruct (PhysBuf_new small_alloc 5000) as [[b s1]|] eqn:H; [|vm_compute in H; discriminate].
  destruct (phys_buf_new_drop small_alloc 5000 b s1 small_alloc_wf) as (s2 & H2 & _);
    [vm_compute; lia|by left|].
  exists b, s1, s2. exact (conj eq_refl H2).
Defined.

(** A map whose only region with room for the bitmap comes after 32 smaller ones:
    the region array fills up before the bitmap is placed. *)
Definition fragmented_map : list MemEntry :=
  (fun i => mkMemEntry (8192 * Z.of_nat i) 4096 true) <$> seq 1 33.
Definition roomy_map : list MemEntry := fragmented_map ++ [mkMemEntry (2 ^ 30) (2 ^ 31) true].

(** When 32 small usable regions precede the only region with room for the bitmap, init stops at the full region array and panics although that region exists. *)
Example init_fragmented_panics :
  FrameAllocator_init roomy_map = None /\
  page_align (bitmap_bytes (total_map_frames roomy_map)) <= 2 ^ 31.
Proof. split; [vm_compute; reflexivity|vm_compute; discriminate]. Qed.
