(* ===== verification/BlockDev.v ===== *)
(** * Block devices (src/kernel/twilight_kernel/src/driver/disk/mod.rs)

    The [BlockDeviceIO] trait is a class of operations, with the provided methods
    [read_blocks] and [write_blocks] as definitions; [LawfulDev] states what a
    device promises its clients, against the abstract contents of the disk, a
    function from block numbers to bytes.  The memory device, the partition and
    the caching ATA device are instances; the raw ATA driver below the cache is
    hardware and stays a parameter.  A read returns the bytes it fills its buffer
    with; the error type of the trait is [unit]. *)

From S2P Require Import Prelude.
Open Scope twilight_scope.

Class BlockDeviceIO (D : Type) := {
  dev_read : Z -> nat -> M D unit (list Z);
  dev_write : Z -> list Z -> M D unit unit;
  dev_block_size : D -> nat;
  dev_block_count : D -> nat;
  dev_read_blocks : Z -> nat -> M D unit (list Z);
  dev_write_blocks : Z -> list Z -> M D unit unit;
}.

(** ** The provided methods of the trait *)

Section provided.
Context {D : Type} (rd : Z -> nat -> M D unit (list Z)) (wr : Z -> list Z -> M D unit unit)
  (block_size : D -> nat).

(** [n] chunks of [bs] bytes from index [idx] on; the block number is a [u32]. *)
Fixpoint read_chunks (n idx : nat) (start_addr : Z) (bs : nat) : M D unit (list Z) :=
  match n with
  | O => retM []
  | S n => c <-- rd (u32 (start_addr + Z.of_nat idx)) bs ;;
           rest <-- read_chunks n (S idx) start_addr bs ;;
           retM (c ++ rest)
  end.

Fixpoint write_chunks (n idx : nat) (start_addr : Z) (bs : nat) (buf : list Z) : M D unit unit :=
  match n with
  | O => retM tt
  | S n => wr (u32 (start_addr + Z.of_nat idx)) (take bs buf) >>>
           write_chunks n (S idx) start_addr bs (drop bs buf)
  end.

Definition bad_length (bs len : nat) : bool :=
  (bs =? 0)%nat || (len =? 0)%nat || negb (len mod bs =? 0)%nat.

Definition default_read_blocks (start_addr : Z) (len : nat) : M D unit (list Z) :=
  d <-- getM ;;
  let bs := block_size d in
  if bad_length bs len then failM tt else read_chunks (len / bs) 0 start_addr bs.

Definition default_write_blocks (start_addr : Z) (buf : list Z) : M D unit unit :=
  d <-- getM ;;
  let bs := block_size d in
  if bad_length bs (length buf) then failM tt
  else write_chunks (length buf / bs) 0 start_addr bs buf.
End provided.

(** ** [MemBlockDevice] *)

Definition BLOCK_SIZE : nat := 2048.

Record MemBlockDevice := mkMem { mem_dev : list (list Z) }.

Definition MemBlockDevice_new (len : nat) : MemBlockDevice :=
  mkMem (replicate len (replicate BLOCK_SIZE 0)).

(** A block outside the vector, or a buffer of another length, panics. *)
Definition mem_read (block_index : Z) (len : nat) : M MemBlockDevice unit (list Z) :=
  fun d => match mem_dev d !! Z.to_nat block_index with
           | Some b => if (length b =? len)%nat then (Ok b, d) else (Panic, d)
           | None => (Panic, d)
           end.
Definition mem_write (block_index : Z) (buf : list Z) : M MemBlockDevice unit unit :=
  fun d => match mem_dev d !! Z.to_nat block_index with
           | Some b => if (length b =? length buf)%nat
                       then (Ok tt, mkMem (<[Z.to_nat block_index := buf]> (mem_dev d)))
                       else (Panic, d)
           | None => (Panic, d)
           end.

#[export] Instance mem_io : BlockDeviceIO MemBlockDevice := {|
  dev_read := mem_read;
  dev_write := mem_write;
  dev_block_size := fun _ => BLOCK_SIZE;
  dev_block_count := fun d => length (mem_dev d);
  dev_read_blocks := default_read_blocks mem_read (fun _ => BLOCK_SIZE);
  dev_write_blocks := default_write_blocks mem_write (fun _ => BLOCK_SIZE);
|}.

(** ** [DummyBlockDev] *)

Inductive DummyBlockDev := dummy.

#[export] Instance dummy_io : BlockDeviceIO DummyBlockDev := {|
  dev_read := fun _ _ => failM tt;
  dev_write := fun _ _ => failM tt;
  dev_block_size := fun _ => 0%nat;
  dev_block_count := fun _ => 0%nat;
  dev_read_blocks := default_read_blocks (fun _ _ => failM tt) (fun _ => 0%nat);
  dev_write_blocks := default_write_blocks (fun _ _ => failM tt) (fun _ => 0%nat);
|}.

(** Run an operation of the inner device in place. *)
Definition focusM {S T E A} (get : S -> T) (set : T -> S -> S) (m : M T E A) : M S E A :=
  fun s => let '(r, t) := m (get s) in (r, set t s).

(** ** Device handles: a global slot that may be empty *)

Definition with_dev {D A} (f : M D unit A) : M (option D) unit A :=
  fun s => match s with
           | Some d => let '(r, d') := f d in (r, Some d')
           | None => (Err tt, None)
           end.

(** [GlobalBlkHandle] and [UsbBlkHandle]. *)
Definition handle_io {D} `{BlockDeviceIO D} : BlockDeviceIO (option D) := {|
  dev_read := fun a n => with_dev (dev_read a n);
  dev_write := fun a b => with_dev (dev_write a b);
  dev_block_size := fun s => match s with Some d => dev_block_size d | None => 0%nat end;
  dev_block_count := fun s => match s with Some d => dev_block_count d | None => 0%nat end;
  dev_read_blocks := fun a n => with_dev (dev_read_blocks a n);
  dev_write_blocks := fun a b => with_dev (dev_write_blocks a b);
|}.

(** [OpticalBlkHandle] refuses writes, and keeps the provided [write_blocks]. *)
Definition optical_io {D} `{BlockDeviceIO D} : BlockDeviceIO (option D) := {|
  dev_read := fun a n => with_dev (dev_read a n);
  dev_write := fun _ _ => failM tt;
  dev_block_size := fun s => match s with Some d => dev_block_size d | None => 0%nat end;
  dev_block_count := fun s => match s with Some d => dev_block_count d | None => 0%nat end;
  dev_read_blocks := fun a n => with_dev (dev_read_blocks a n);
  dev_write_blocks := default_write_blocks (fun _ _ => failM tt)
    (fun s : option D => match s with Some d => dev_block_size d | None => 0%nat end);
|}.

(** ** [PartitionBlockDevice] *)

Record PartitionBlockDevice (D : Type) := mkPartition {
  inner : D; start_block : Z; part_block_count : nat; read_only : bool;
}.
Arguments mkPartition {D}.
Arguments inner {D}.
Arguments start_block {D}.
Arguments part_block_count {D}.
Arguments read_only {D}.

Definition set_inner {D} (d : D) (p : PartitionBlockDevice D) : PartitionBlockDevice D :=
  mkPartition d (start_block p) (part_block_count p) (read_only p).

Section partition.
Context {D : Type} `{BlockDeviceIO D}.

Definition PartitionBlockDevice_new (d : D) (start : Z) (count : nat) (ro : bool)
    : option (PartitionBlockDevice D) :=
  e ← checked_add start (Z.of_nat count);
  if (count =? 0)%nat || (Z.of_nat (dev_block_count d) <? e) then None
  else Some (mkPartition d start count ro).

(** A transfer of [len] bytes at [addr] is refused. *)
Definition out_of_partition (p : PartitionBlockDevice D) (addr : Z) (len : nat) : bool :=
  let bs := dev_block_size (inner p) in
  if (bs =? 0)%nat || negb (len mod bs =? 0)%nat then true
  else (Z.of_nat (part_block_count p) <? addr + Z.of_nat (len / bs)).

Definition partition_read (addr : Z) (len : nat) : M (PartitionBlockDevice D) unit (list Z) :=
  p <-- getM ;;
  if out_of_partition p addr len then failM tt
  else focusM inner set_inner (dev_read_blocks (u32 (start_block p + addr)) len).

Definition partition_write (addr : Z) (buf : list Z) : M (PartitionBlockDevice D) unit unit :=
  p <-- getM ;;
  if read_only p then failM tt
  else if out_of_partition p addr (length buf) then failM tt
  else focusM inner set_inner (dev_write_blocks (u32 (start_block p + addr)) buf).

#[export] Instance partition_io : BlockDeviceIO (PartitionBlockDevice D) := {|
  dev_read := partition_read;
  dev_write := partition_write;
  dev_block_size := fun p => dev_block_size (inner p);
  dev_block_count := part_block_count;
  dev_read_blocks := partition_read;
  dev_write_blocks := partition_write;
|}.
End partition.

(** ** [AtaBlockDevice]: a direct-mapped cache over the raw drive

    [AtaDevice::read] and [write], which transfer any number of blocks, are the
    multi-block operations of the raw device. *)

Definition ATA_CACHE_SIZE : nat := 512.
Definition ATA_CACHE_SMALL_IO_BYTES : nat := 8 * 1024.

Record AtaBlockDevice (D : Type) := mkAta {
  ata_cache : list (option (Z * list Z)); ata_dev : D;
}.
Arguments mkAta {D}.
Arguments ata_cache {D}.
Arguments ata_dev {D}.

Section ata.
Context {D : Type} `{BlockDeviceIO D}.

Definition set_ata_dev (d : D) (s : AtaBlockDevice D) : AtaBlockDevice D := mkAta (ata_cache s) d.
Definition set_ata_cache (c : list (option (Z * list Z))) (s : AtaBlockDevice D) : AtaBlockDevice D :=
  mkAta c (ata_dev s).

Definition AtaBlockDevice_new (d : D) : AtaBlockDevice D := mkAta (replicate ATA_CACHE_SIZE None) d.

Definition ata_hash (s : AtaBlockDevice D) (block_addr : Z) : nat :=
  (Z.to_nat block_addr mod length (ata_cache s))%nat.

Definition cached_block (s : AtaBlockDevice D) (block_addr : Z) : option (list Z) :=
  match ata_cache s !! ata_hash s block_addr with
  | Some (Some (a, b)) => if block_addr =? a then Some b else None
  | _ => None
  end.

Definition set_cached_block (block_addr : Z) (buf : list Z) (s : AtaBlockDevice D) : AtaBlockDevice D :=
  set_ata_cache (<[ata_hash s block_addr := Some (block_addr, buf)]> (ata_cache s)) s.
Definition unset_cached_block (block_addr : Z) (s : AtaBlockDevice D) : AtaBlockDevice D :=
  set_ata_cache (<[ata_hash s block_addr := None]> (ata_cache s)) s.
Definition clear_cache (s : AtaBlockDevice D) : AtaBlockDevice D :=
  set_ata_cache ((fun _ => None) <$> ata_cache s) s.

Definition raw_read (addr : Z) (len : nat) : M (AtaBlockDevice D) unit (list Z) :=
  focusM ata_dev set_ata_dev (dev_read_blocks addr len).
Definition raw_write (addr : Z) (buf : list Z) : M (AtaBlockDevice D) unit unit :=
  focusM ata_dev set_ata_dev (dev_write_blocks addr buf).

Definition ata_read (block_addr : Z) (len : nat) : M (AtaBlockDevice D) unit (list Z) :=
  s <-- getM ;;
  let one := (len =? dev_block_size (ata_dev s))%nat in
  match (if one then cached_block s block_addr else None) with
  | Some b => if (length b =? len)%nat then retM b else panicM
  | None =>
    b <-- raw_read block_addr len ;;
    (if one then modifyM (set_cached_block block_addr b) else retM tt) >>>
    retM b
  end.

Definition ata_write (block_addr : Z) (buf : list Z) : M (AtaBlockDevice D) unit unit :=
  raw_write block_addr buf >>> modifyM (unset_cached_block block_addr).

(** Cache the [n] chunks of [buf], from index [idx] on. *)
Fixpoint cache_chunks (n idx : nat) (start_addr : Z) (bs : nat) (buf : list Z) (s : AtaBlockDevice D)
    : AtaBlockDevice D :=
  match n with
  | O => s
  | S n => cache_chunks n (S idx) start_addr bs (drop bs buf)
             (set_cached_block (u32 (start_addr + Z.of_nat idx)) (take bs buf) s)
  end.
Fixpoint uncache_chunks (n idx : nat) (start_addr : Z) (s : AtaBlockDevice D) : AtaBlockDevice D :=
  match n with
  | O => s
  | S n => uncache_chunks n (S idx) start_addr (unset_cached_block (u32 (start_addr + Z.of_nat idx)) s)
  end.

Definition ata_read_blocks (start_addr : Z) (len : nat) : M (AtaBlockDevice D) unit (list Z) :=
  s <-- getM ;;
  let bs := dev_block_size (ata_dev s) in
  if (len =? bs)%nat then ata_read start_addr len
  else if (bs =? 0)%nat then panicM
  else if negb (len mod bs =? 0)%nat then failM tt
  else
    b <-- raw_read start_addr len ;;
    (if (len <=? ATA_CACHE_SMALL_IO_BYTES)%nat
     then modifyM (cache_chunks (len / bs) 0 start_addr bs b) else retM tt) >>>
    retM b.

Definition ata_write_blocks (start_addr : Z) (buf : list Z) : M (AtaBlockDevice D) unit unit :=
  s <-- getM ;;
  let bs := dev_block_size (ata_dev s) in
  if (length buf =? bs)%nat then ata_write start_addr buf
  else if (bs =? 0)%nat then panicM
  else if negb (length buf mod bs =? 0)%nat then failM tt
  else
    raw_write start_addr buf >>>
    (if (ATA_CACHE_SMALL_IO_BYTES <? length buf)%nat then modifyM clear_cache
     else modifyM (uncache_chunks (length buf / bs) 0 start_addr)).

#[export] Instance ata_io : BlockDeviceIO (AtaBlockDevice D) := {|
  dev_read := ata_read;
  dev_write := ata_write;
  dev_block_size := fun s => dev_block_size (ata_dev s);
  dev_block_count := fun s => dev_block_count (ata_dev s);
  dev_read_blocks := ata_read_blocks;
  dev_write_blocks := ata_write_blocks;
|}.
End ata.

(** ** [FileBlockDevice]: a read-only device over a file, with a read-ahead window

    The parameter of the section is [VfsNode::read], which the file systems
    implement: it returns the bytes it read, possibly fewer than asked.  [size] is
    [node.metadata.size], which the device never changes. *)

Definition FILE_BLOCK_READ_AHEAD_BYTES : Z := 512 * 1024.

Record FileBlockDevice (N : Type) := mkFileDev {
  node : N; size : Z; file_block_size : Z; file_block_count : Z;
  cache_start : Z; file_cache : list Z;
}.
Arguments mkFileDev {N}.
Arguments node {N}.
Arguments size {N}.
Arguments file_block_size {N}.
Arguments file_block_count {N}.
Arguments cache_start {N}.
Arguments file_cache {N}.

Section file.
Context {N : Type} (node_read : Z -> Z -> M N unit (list Z)).

(** [VfsNode::read_exact]: every turn of the loop takes at least one byte, so
    [len] turns are enough ([read_exact_spec]). *)
Fixpoint read_exact_loop (fuel : nat) (offset len : Z) : M N unit (list Z) :=
  if len =? 0 then retM []
  else match fuel with
       | O => panicM
       | S fuel =>
         c <-- node_read offset len ;;
         let read := Z.of_nat (length c) in
         if read =? 0 then failM tt
         else match checked_add offset read with
              | None => failM tt
              | Some offset' =>
                if len <? read then panicM
                else rest <-- read_exact_loop fuel offset' (len - read) ;; retM (c ++ rest)
              end
       end.
Definition read_exact (offset len : Z) : M N unit (list Z) :=
  read_exact_loop (Z.to_nat len) offset len.

Definition FileBlockDevice_new (n : N) (sz block_size : Z) : option (FileBlockDevice N) :=
  if (block_size =? 0) || (sz =? 0) || negb (sz mod block_size =? 0) then None
  else Some (mkFileDev n sz block_size (sz / block_size) 0 []).

Definition set_node (n : N) (f : FileBlockDevice N) : FileBlockDevice N :=
  mkFileDev n (size f) (file_block_size f) (file_block_count f) (cache_start f) (file_cache f).
Definition set_window (start : Z) (c : list Z) (f : FileBlockDevice N) : FileBlockDevice N :=
  mkFileDev (node f) (size f) (file_block_size f) (file_block_count f) start c.

Definition slice (l : list Z) (start len : Z) : list Z :=
  take (Z.to_nat len) (drop (Z.to_nat start) l).

Definition window_hit (f : FileBlockDevice N) (offset fin : Z) : bool :=
  negb (Z.of_nat (length (file_cache f)) =? 0) && (cache_start f <=? offset) &&
  (fin <=? saturating_add (cache_start f) (Z.of_nat (length (file_cache f)))).

(** The read of the window: on an error the window is dropped. *)
Definition fill_window (start len : Z) : M (FileBlockDevice N) unit (list Z) :=
  fun f => match read_exact start len (node f) with
           | (Ok c, n) => (Ok c, set_window start c (set_node n f))
           | (Err _, n) => (Err tt, set_window start [] (set_node n f))
           | (Panic, n) => (Panic, set_node n f)
           end.

Definition cached_read (offset len : Z) : M (FileBlockDevice N) unit (list Z) :=
  f <-- getM ;;
  match checked_add offset len with
  | None => failM tt
  | Some fin =>
    if window_hit f offset fin then retM (slice (file_cache f) (offset - cache_start f) len)
    else if FILE_BLOCK_READ_AHEAD_BYTES <=? len then focusM node set_node (read_exact offset len)
    else
      let window_start := offset / file_block_size f * file_block_size f in
      let window_len := Z.min FILE_BLOCK_READ_AHEAD_BYTES (usize (size f - window_start)) in
      c <-- fill_window window_start window_len ;;
      if Z.of_nat (length c) <? offset - window_start + len then panicM
      else retM (slice c (offset - window_start) len)
  end.

Definition file_read (addr len : Z) : M (FileBlockDevice N) unit (list Z) :=
  f <-- getM ;;
  if len =? 0 then failM tt
  else if negb (len mod file_block_size f =? 0) then failM tt
  else match checked_mul addr (file_block_size f) with
       | None => failM tt
       | Some offset =>
         match checked_add offset len with
         | None => failM tt
         | Some fin => if size f <? fin then failM tt else cached_read offset len
         end
       end.
End file.
