(* ===== verification/BlockDevSpec.v ===== *)
(** * What a block device promises

    The abstract state of a device is [contents], the bytes of every block.
    [LawfulDev] says that an operation that does not panic reads and writes
    exactly that state; [ReliableDev] that operations inside the device succeed;
    [AtomicDev] that a write that reports an error left the contents alone.  The
    memory device, a partition of a lawful device and the ATA cache over a lawful
    and atomic drive are shown to be lawful: clients are proved against the
    classes. *)

From Stdlib Require Import ZifyBool.
From S2P Require Import Prelude BlockDev.
Open Scope twilight_scope.

(** ** Abstract transfers *)

Fixpoint read_span (c : Z -> list Z) (a : Z) (k : nat) : list Z :=
  match k with O => [] | S k => c a ++ read_span c (a + 1) k end.

Definition write_span (c : Z -> list Z) (a : Z) (k bs : nat) (buf : list Z) (x : Z) : list Z :=
  if (a <=? x) && (x <? a + Z.of_nat k) then take bs (drop (Z.to_nat (x - a) * bs) buf) else c x.

Lemma read_span_ext c c' a k :
  (forall x, a <= x < a + Z.of_nat k -> c x = c' x) -> read_span c a k = read_span c' a k.
Proof.
  revert a. induction k as [|k IH]; intros a Hc; cbn [read_span]; [done|].
  rewrite Hc by lia. rewrite (IH (a + 1)); [done|]. intros x Hx. apply Hc. lia.
Qed.

Lemma read_span_length c bs a k :
  (forall x, length (c x) = bs) -> length (read_span c a k) = (k * bs)%nat.
Proof.
  intros Hc. revert a. induction k as [|k IH]; intros a; cbn [read_span]; [done|].
  rewrite length_app, Hc, IH. lia.
Qed.

Lemma read_span_shift c s a k :
  read_span (fun x => c (s + x)) a k = read_span c (s + a) k.
Proof.
  revert a. induction k as [|k IH]; intros a; cbn [read_span]; [done|].
  rewrite IH. by rewrite Z.add_assoc.
Qed.

Lemma read_span_app c a j k : read_span c a (j + k) = read_span c a j ++ read_span c (a + Z.of_nat j) k.
Proof.
  revert a. induction j as [|j IH]; intros a; cbn [read_span Nat.add app]; [f_equal; lia|].
  rewrite IH, <- app_assoc. do 3 f_equal. lia.
Qed.

(** The [i]-th chunk of a span is the [i]-th block. *)
Lemma read_span_chunk c bs a k i :
  (forall x, length (c x) = bs) -> (i < k)%nat ->
  take bs (drop (i * bs) (read_span c a k)) = c (a + Z.of_nat i).
Proof.
  intros Hc. revert a k. induction i as [|i IH]; intros a [|k] Hi; try lia; cbn [read_span].
  - rewrite Nat.mul_0_l, drop_0, take_app_le by (rewrite Hc; lia).
    rewrite Z.add_0_r. apply take_ge. rewrite Hc. lia.
  - rewrite drop_app_ge by (rewrite Hc; lia).
    replace (S i * bs - length (c a))%nat with (i * bs)%nat by (rewrite Hc; lia).
    rewrite IH by lia. f_equal. lia.
Qed.

(** Writing the first chunk and then the others writes them all. *)
Lemma write_span_cons c a k bs buf x :
  write_span (write_span c a 1 bs (take bs buf)) (a + 1) k bs (drop bs buf) x =
  write_span c a (S k) bs buf x.
Proof.
  unfold write_span. destruct (Z.eq_dec x a) as [->|Hne].
  - replace ((a + 1 <=? a)) with false by lia.
    replace ((a <=? a) && (a <? a + Z.of_nat 1)) with true by lia.
    replace ((a <=? a) && (a <? a + Z.of_nat (S k))) with true by lia.
    rewrite Z.sub_diag. cbn [andb]. rewrite drop_0, take_take. f_equal. lia.
  - replace ((a <=? x) && (x <? a + Z.of_nat 1)) with false by lia.
    replace ((a + 1 <=? x) && (x <? a + 1 + Z.of_nat k)) with ((a <=? x) && (x <? a + Z.of_nat (S k)))
      by lia.
    case_if; [|done]. rewrite drop_drop. do 2 f_equal.
    replace (Z.to_nat (x - a)) with (S (Z.to_nat (x - (a + 1)))) by lia. lia.
Qed.

(** Reading a span just written gives the buffer back. *)
Lemma read_write_span c a k bs buf :
  length buf = (k * bs)%nat -> read_span (write_span c a k bs buf) a k = buf.
Proof.
  revert c a buf. induction k as [|k IH]; intros c a buf Hl; cbn [read_span].
  { by apply nil_length_inv in Hl. }
  rewrite <- (take_drop bs buf) at 3. f_equal.
  - unfold write_span. replace ((a <=? a) && (a <? a + Z.of_nat (S k))) with true by lia.
    by rewrite Z.sub_diag.
  - rewrite <- (IH (write_span c a 1 bs (take bs buf)) (a + 1)) by (rewrite length_drop; lia).
    apply read_span_ext. intros x _. by rewrite write_span_cons.
Qed.

(** ** The laws *)

Section laws.
Context {D : Type} `{!BlockDeviceIO D} (ok : D -> Prop) (content : D -> Z -> list Z).

Definition same_geometry (d d' : D) : Prop :=
  dev_block_size d' = dev_block_size d /\ dev_block_count d' = dev_block_count d.

(** [k] blocks at [a] are numbered by [u32]s. *)
Definition addressable (a : Z) (k : nat) : Prop := 0 <= a /\ a + Z.of_nat k <= 2 ^ 32.

Definition read_law (rd : Z -> nat -> M D unit (list Z)) (a : Z) (k : nat) : Prop :=
  forall d r d', ok d -> addressable a k ->
  rd a (k * dev_block_size d)%nat d = (r, d') -> r <> Panic ->
  ok d' /\ same_geometry d d' /\ (forall x, content d' x = content d x) /\
  (forall b, r = Ok b -> b = read_span (content d) a k).

Definition write_law (wr : Z -> list Z -> M D unit unit) (a : Z) (k : nat) : Prop :=
  forall d buf r d', ok d -> addressable a k -> length buf = (k * dev_block_size d)%nat ->
  wr a buf d = (r, d') -> r <> Panic ->
  ok d' /\ same_geometry d d' /\
  (forall x, ~ (a <= x < a + Z.of_nat k) -> content d' x = content d x) /\
  (r = Ok tt -> forall x, content d' x = write_span (content d) a k (dev_block_size d) buf x).

Definition write_atomic (wr : Z -> list Z -> M D unit unit) : Prop :=
  forall a k d buf d', ok d -> addressable a k -> length buf = (k * dev_block_size d)%nat ->
  (0 < k)%nat -> wr a buf d = (Err tt, d') -> forall x, content d' x = content d x.

Definition read_total (rd : Z -> nat -> M D unit (list Z)) (a : Z) (k : nat) : Prop :=
  forall d, ok d -> addressable a k -> a + Z.of_nat k <= Z.of_nat (dev_block_count d) ->
  exists b d', rd a (k * dev_block_size d)%nat d = (Ok b, d').
Definition write_total (wr : Z -> list Z -> M D unit unit) (a : Z) (k : nat) : Prop :=
  forall d buf, ok d -> addressable a k -> a + Z.of_nat k <= Z.of_nat (dev_block_count d) ->
  length buf = (k * dev_block_size d)%nat -> exists d', wr a buf d = (Ok tt, d').
End laws.

Class LawfulDev (D : Type) `{!BlockDeviceIO D} := {
  dev_ok : D -> Prop;
  contents : D -> Z -> list Z;
  law_size d : dev_ok d -> (0 < dev_block_size d)%nat;
  law_contents d x : dev_ok d -> length (contents d x) = dev_block_size d;
  law_read a : read_law dev_ok contents dev_read a 1;
  law_write a : write_law dev_ok contents dev_write a 1;
  law_read_blocks a k : (0 < k)%nat -> read_law dev_ok contents dev_read_blocks a k;
  law_write_blocks a k : (0 < k)%nat -> write_law dev_ok contents dev_write_blocks a k;
}.

Class AtomicDev (D : Type) `{LawfulDev D} : Prop :=
  law_atomic : write_atomic dev_ok contents dev_write_blocks.

Class ReliableDev (D : Type) `{LawfulDev D} : Prop := {
  law_read_total a k : (0 < k)%nat -> read_total dev_ok dev_read_blocks a k;
  law_write_total a k : (0 < k)%nat -> write_total dev_ok dev_write_blocks a k;
}.

Lemma u32_small z : 0 <= z < 2 ^ 32 -> u32 z = z.
Proof. apply Z.mod_small. Qed.

Lemma bad_length_ok bs k : (0 < bs)%nat -> (0 < k)%nat -> bad_length bs (k * bs) = false.
Proof.
  intros Hb Hk. unfold bad_length. rewrite Nat.Div0.mod_mul.
  destruct bs; [lia|]. destruct k; [lia|]. done.
Qed.

Lemma same_geometry_refl {D} `{!BlockDeviceIO D} (d : D) : same_geometry d d.
Proof. done. Qed.
Lemma same_geometry_trans {D} `{!BlockDeviceIO D} (d1 d2 d3 : D) :
  same_geometry d1 d2 -> same_geometry d2 d3 -> same_geometry d1 d3.
Proof. unfold same_geometry. intros [-> ->] [-> ->]. done. Qed.
#[export] Hint Resolve same_geometry_refl same_geometry_trans : twilight.

(** ** The provided multi-block methods inherit the one-block laws *)

Section provided_laws.
Context {D : Type} `{!BlockDeviceIO D} (ok : D -> Prop) (content : D -> Z -> list Z).
Context (ok_size : forall d, ok d -> (0 < dev_block_size d)%nat).

Lemma read_chunks_law rd (Hrd : forall a, read_law ok content rd a 1) n idx a d r d' :
  ok d -> addressable a (idx + n) ->
  read_chunks rd n idx a (dev_block_size d) d = (r, d') -> r <> Panic ->
  ok d' /\ same_geometry d d' /\ (forall x, content d' x = content d x) /\
  (forall b, r = Ok b -> b = read_span (content d) (a + Z.of_nat idx) n).
Proof.
  revert idx d r d'. induction n as [|n IH]; intros idx d r d' Hok Ha Hr Hp; cbn [read_chunks] in Hr.
  { injection Hr as <- <-. split_and!; auto with twilight. by intros b [= <-]. }
  destruct Ha as [Ha1 Ha2]. rewrite u32_small in Hr by lia.
  assert (addressable (a + Z.of_nat idx) 1) as Hone by (split; lia).
  apply bindM_inv in Hr as [(c & d1 & Hc & Hr) | (e & Hc & ->)]; [| |done].
  2: { rewrite <- (Nat.mul_1_l (dev_block_size d)) in Hc.
       edestruct Hrd as (?&?&?&?); [exact Hok|exact Hone|exact Hc|done|]. split_and!; auto; done. }
  rewrite <- (Nat.mul_1_l (dev_block_size d)) in Hc.
  edestruct Hrd as (Hok1 & Hg1 & Hc1 & Hb1); [exact Hok|exact Hone|exact Hc|done|].
  specialize (Hb1 c eq_refl). cbn [read_span] in Hb1. rewrite app_nil_r in Hb1.
  rewrite <- (proj1 Hg1) in Hr.
  apply bindM_inv in Hr as [(rest & d2 & Hrest & Hr) | (e & Hrest & ->)]; [| |done];
    (edestruct IH as (Hok2 & Hg2 & Hc2 & Hb2); [exact Hok1| |exact Hrest|done|]; [split; lia|]).
  - injection Hr as <- <-. split; [done|]. split; [eauto with twilight|].
    split; [by intros x; rewrite Hc2|]. intros b [= <-]. cbn [read_span]. f_equal; [done|].
    rewrite (Hb2 rest eq_refl). replace (a + Z.of_nat idx + 1) with (a + Z.of_nat (S idx)) by lia.
    by apply read_span_ext.
  - split; [done|]. split; [eauto with twilight|]. split; [by intros x; rewrite Hc2|done].
Qed.

Lemma write_chunks_law wr (Hwr : forall a, write_law ok content wr a 1) n idx a d buf r d' :
  ok d -> addressable a (idx + n) -> length buf = (n * dev_block_size d)%nat ->
  write_chunks wr n idx a (dev_block_size d) buf d = (r, d') -> r <> Panic ->
  ok d' /\ same_geometry d d' /\
  (forall x, ~ (a + Z.of_nat idx <= x < a + Z.of_nat idx + Z.of_nat n) -> content d' x = content d x) /\
  (r = Ok tt -> forall x, content d' x =
     write_span (content d) (a + Z.of_nat idx) n (dev_block_size d) buf x).
Proof.
  revert idx d buf r d'.
  induction n as [|n IH]; intros idx d buf r d' Hok Ha Hl Hr Hp; cbn [write_chunks] in Hr.
  { injection Hr as <- <-. split; [done|]. split; [auto with twilight|]. split; [done|].
    intros _ x. unfold write_span. case_if; [lia|done]. }
  destruct Ha as [Ha1 Ha2]. rewrite u32_small in Hr by lia.
  assert (addressable (a + Z.of_nat idx) 1) as Hone by (split; lia).
  assert (length (take (dev_block_size d) buf) = (1 * dev_block_size d)%nat) as Hl1
    by (rewrite length_take; lia).
  apply bindM_inv in Hr as [([] & d1 & Hc & Hr) | (e & Hc & ->)]; [| |done];
    (edestruct Hwr as (Hok1 & Hg1 & Hc1 & Hb1); [exact Hok|exact Hone|exact Hl1|exact Hc|done|]).
  2: { split; [done|]. split; [done|]. split; [|done]. intros x Hx. apply Hc1. lia. }
  specialize (Hb1 eq_refl). rewrite <- (proj1 Hg1) in Hr at 1.
  assert (length (drop (dev_block_size d) buf) = (n * dev_block_size d1)%nat) as Hl2
    by (rewrite length_drop, (proj1 Hg1); lia).
  edestruct IH as (Hok2 & Hg2 & Hc2 & Hb2); [exact Hok1| |exact Hl2|exact Hr|done|]; [split; lia|].
  split; [done|]. split; [eauto with twilight|]. split.
  - intros x Hx. rewrite Hc2 by lia. apply Hc1. lia.
  - intros Hr' x. rewrite (Hb2 Hr' x), <- write_span_cons, (proj1 Hg1).
    replace (a + Z.of_nat (S idx)) with (a + Z.of_nat idx + 1) by lia.
    unfold write_span at 1 2. case_if; [done|apply Hb1].
Qed.

Lemma default_read_blocks_law rd (Hrd : forall a, read_law ok content rd a 1) a k :
  (0 < k)%nat -> read_law ok content (default_read_blocks rd dev_block_size) a k.
Proof.
  intros Hk d r d' Hok Ha Hr Hp. unfold default_read_blocks in Hr.
  erewrite bindM_ok in Hr by reflexivity. cbv zeta in Hr. pose proof (ok_size d Hok).
  rewrite bad_length_ok, Nat.div_mul in Hr by lia.
  eapply read_chunks_law in Hr; eauto. by rewrite Z.add_0_r in Hr.
Qed.

Lemma default_write_blocks_law wr (Hwr : forall a, write_law ok content wr a 1) a k :
  (0 < k)%nat -> write_law ok content (default_write_blocks wr dev_block_size) a k.
Proof.
  intros Hk d buf r d' Hok Ha Hl Hr Hp. unfold default_write_blocks in Hr.
  erewrite bindM_ok in Hr by reflexivity. cbv zeta in Hr. pose proof (ok_size d Hok).
  rewrite Hl, bad_length_ok, Nat.div_mul in Hr by lia.
  eapply write_chunks_law in Hr; eauto. by rewrite Z.add_0_r in Hr.
Qed.

(** One-block operations that succeed inside the device make the provided ones succeed. *)
Lemma read_chunks_total rd (Hrd : forall a, read_law ok content rd a 1)
    (Ht : forall a, read_total ok rd a 1) n idx a d :
  ok d -> addressable a (idx + n) -> a + Z.of_nat (idx + n) <= Z.of_nat (dev_block_count d) ->
  exists b d', read_chunks rd n idx a (dev_block_size d) d = (Ok b, d').
Proof.
  revert idx d. induction n as [|n IH]; intros idx d Hok [Ha1 Ha2] Hc; cbn [read_chunks].
  { by eexists _, _. }
  rewrite u32_small by lia.
  destruct (Ht (a + Z.of_nat idx) d) as (b & d1 & Hb); [done|split; lia|lia|].
  edestruct (Hrd (a + Z.of_nat idx)) as (Hok1 & [Hg1 Hg2] & _); [exact Hok|split; lia|exact Hb|done|].
  destruct (IH (S idx) d1) as (b2 & d2 & Hb2); [done|split; lia|rewrite Hg2; lia|].
  rewrite Nat.mul_1_l in Hb. rewrite Hg1 in Hb2.
  rewrite (bindM_ok _ _ _ _ _ Hb), (bindM_ok _ _ _ _ _ Hb2). by eexists _, _.
Qed.

Lemma write_chunks_total wr (Hwr : forall a, write_law ok content wr a 1)
    (Ht : forall a, write_total ok wr a 1) n idx a d buf :
  ok d -> addressable a (idx + n) -> a + Z.of_nat (idx + n) <= Z.of_nat (dev_block_count d) ->
  length buf = (n * dev_block_size d)%nat ->
  exists d', write_chunks wr n idx a (dev_block_size d) buf d = (Ok tt, d').
Proof.
  revert idx d buf. induction n as [|n IH]; intros idx d buf Hok [Ha1 Ha2] Hc Hl; cbn [write_chunks].
  { by eexists. }
  rewrite u32_small by lia.
  assert (length (take (dev_block_size d) buf) = (1 * dev_block_size d)%nat) as Hl1
    by (rewrite length_take; lia).
  destruct (Ht (a + Z.of_nat idx) d (take (dev_block_size d) buf)) as (d1 & Hb);
    [done|split; lia|lia|done|].
  edestruct (Hwr (a + Z.of_nat idx)) as (Hok1 & [Hg1 Hg2] & _);
    [exact Hok|split; lia|exact Hl1|exact Hb|done|].
  destruct (IH (S idx) d1 (drop (dev_block_size d) buf)) as (d2 & Hb2);
    [done|split; lia|rewrite Hg2; lia|rewrite length_drop, Hg1; lia|].
  rewrite Hg1 in Hb2. rewrite (bindM_ok _ _ _ _ _ Hb). by eexists.
Qed.
End provided_laws.

(** ** The memory device *)

Definition memdev_ok (d : MemBlockDevice) : Prop := Forall (fun b => length b = BLOCK_SIZE) (mem_dev d).
Definition mem_contents (d : MemBlockDevice) (x : Z) : list Z :=
  if x <? 0 then replicate BLOCK_SIZE 0
  else default (replicate BLOCK_SIZE 0) (mem_dev d !! Z.to_nat x).

Lemma MemBlockDevice_new_ok len : memdev_ok (MemBlockDevice_new len).
Proof. apply Forall_replicate, length_replicate. Qed.

Lemma mem_contents_length d x : memdev_ok d -> length (mem_contents d x) = BLOCK_SIZE.
Proof.
  intros Hd. unfold mem_contents. case_if; [apply length_replicate|].
  destruct (mem_dev d !! Z.to_nat x) as [b|] eqn:Hb; cbn [default]; [|apply length_replicate].
  by apply (Forall_lookup_1 _ _ _ _ Hd Hb).
Qed.

Lemma mem_contents_lookup d a b :
  0 <= a -> mem_dev d !! Z.to_nat a = Some b -> mem_contents d a = b.
Proof. intros Ha Hb. unfold mem_contents. rewrite Hb. case_if; [lia|done]. Qed.

Lemma mem_read_law a : read_law memdev_ok mem_contents mem_read a 1.
Proof.
  intros d r d' Hok [Ha _] Hr Hp. unfold mem_read in Hr.
  destruct (mem_dev d !! Z.to_nat a) as [b|] eqn:Hb; [|by simplify_eq].
  case_if; [|by simplify_eq]. injection Hr as <- <-. split; [done|]. split; [auto with twilight|].
  split; [done|]. intros b' [= <-]. cbn [read_span].
  by rewrite app_nil_r, (mem_contents_lookup d a b).
Qed.

Lemma mem_write_inv a buf d r d' :
  0 <= a -> mem_write a buf d = (r, d') -> r <> Panic ->
  r = Ok tt /\ d' = mkMem (<[Z.to_nat a := buf]> (mem_dev d)) /\
  (Z.to_nat a < length (mem_dev d))%nat.
Proof.
  intros Ha Hr Hp. unfold mem_write in Hr.
  destruct (mem_dev d !! Z.to_nat a) as [b|] eqn:Hb; [|by simplify_eq].
  case_if; [|by simplify_eq]. injection Hr as <- <-. eauto using lookup_lt_Some.
Qed.

Lemma mem_write_law a : write_law memdev_ok mem_contents mem_write a 1.
Proof.
  intros d buf r d' Hok [Ha _] Hl Hr Hp.
  apply mem_write_inv in Hr as (-> & -> & Hlt); [|done..].
  cbn [dev_block_size mem_io] in Hl. rewrite Nat.mul_1_l in Hl.
  split; [by apply Forall_insert|].
  split; [split; [done|apply length_insert]|]. split.
  - intros x Hx. unfold mem_contents. cbn [mem_dev]. case_if; [done|].
    rewrite list_lookup_insert_ne; [done|]. lia.
  - intros _ x. unfold write_span. cbn [dev_block_size mem_io]. case_if.
    + assert (x = a) as -> by lia. rewrite Z.sub_diag, drop_0, take_ge by lia.
      apply mem_contents_lookup; [done|]. by apply list_lookup_insert_eq.
    + unfold mem_contents. cbn [mem_dev]. case_if; [done|].
      rewrite list_lookup_insert_ne; [done|]. lia.
Qed.

#[export] Instance mem_lawful : LawfulDev MemBlockDevice.
Proof.
  refine {| dev_ok := memdev_ok; contents := mem_contents |}.
  - intros d _. cbn. unfold BLOCK_SIZE. lia.
  - apply mem_contents_length.
  - apply mem_read_law.
  - apply mem_write_law.
  - intros a k Hk.
    change (read_law memdev_ok mem_contents (default_read_blocks mem_read dev_block_size) a k).
    apply default_read_blocks_law; [|apply mem_read_law|done].
    intros d _. cbn. unfold BLOCK_SIZE. lia.
  - intros a k Hk.
    change (write_law memdev_ok mem_contents (default_write_blocks mem_write dev_block_size) a k).
    apply default_write_blocks_law; [|apply mem_write_law|done].
    intros d _. cbn. unfold BLOCK_SIZE. lia.
Defined.

Lemma mem_read_total a : read_total memdev_ok mem_read a 1.
Proof.
  intros d Hok [Ha _] Hc. cbn [dev_block_count mem_io] in Hc. unfold mem_read.
  destruct (lookup_lt_is_Some_2 (mem_dev d) (Z.to_nat a)) as [b Hb]; [lia|]. rewrite Hb.
  rewrite (Forall_lookup_1 _ _ _ _ Hok Hb). cbn [dev_block_size mem_io].
  rewrite Nat.mul_1_l, Nat.eqb_refl. eauto.
Qed.

Lemma mem_write_total a : write_total memdev_ok mem_write a 1.
Proof.
  intros d buf Hok [Ha _] Hc Hl. cbn [dev_block_count mem_io] in Hc. unfold mem_write.
  destruct (lookup_lt_is_Some_2 (mem_dev d) (Z.to_nat a)) as [b Hb]; [lia|]. rewrite Hb.
  rewrite (Forall_lookup_1 _ _ _ _ Hok Hb), Hl. cbn [dev_block_size mem_io].
  rewrite Nat.mul_1_l, Nat.eqb_refl. eauto.
Qed.

Lemma mem_default_write_no_err n idx a buf d e d' :
  write_chunks mem_write n idx a BLOCK_SIZE buf d <> (Err e, d').
Proof.
  revert idx buf d. induction n as [|n IH]; intros idx buf d; cbn [write_chunks]; [done|].
  unfold bindM. destruct (mem_write _ _ d) as [[[]|e1|] d1] eqn:Hw; [apply IH| |done].
  apply mem_write_inv in Hw as [? _]; [done|apply Z.mod_pos_bound; lia|done].
Qed.

#[export] Instance mem_atomic : AtomicDev MemBlockDevice.
Proof.
  intros a k d buf d' _ _ Hl Hk Hw. exfalso. revert Hw. cbn [dev_block_size mem_io] in Hl.
  cbn [dev_write_blocks mem_io]. unfold default_write_blocks.
  erewrite bindM_ok by reflexivity. cbv zeta.
  rewrite Hl, bad_length_ok by (unfold BLOCK_SIZE; lia). apply mem_default_write_no_err.
Qed.

#[export] Instance mem_reliable : ReliableDev MemBlockDevice.
Proof.
  assert (0 < BLOCK_SIZE)%nat by (unfold BLOCK_SIZE; lia). split.
  - intros a k Hk d Hok Ha Hc. cbn [dev_read_blocks mem_io]. unfold default_read_blocks.
    erewrite bindM_ok by reflexivity. cbv zeta. cbn [dev_block_size mem_io].
    rewrite bad_length_ok, Nat.div_mul by lia.
    by apply (read_chunks_total memdev_ok mem_contents _ mem_read_law mem_read_total).
  - intros a k Hk d buf Hok Ha Hc Hl. cbn [dev_write_blocks mem_io]. unfold default_write_blocks.
    cbn [dev_block_size mem_io] in Hl. erewrite bindM_ok by reflexivity. cbv zeta.
    rewrite Hl, bad_length_ok, Nat.div_mul by lia.
    by apply (write_chunks_total memdev_ok mem_contents _ mem_write_law mem_write_total).
Qed.

(** ** A partition of a lawful device *)

Section partition_laws.
Context {D : Type} `{!BlockDeviceIO D} `{!LawfulDev D}.

(** The partition lies inside the inner device and its blocks have [u32] numbers. *)
Definition part_ok (p : PartitionBlockDevice D) : Prop :=
  dev_ok (inner p) /\ 0 <= start_block p /\
  start_block p + Z.of_nat (part_block_count p) <= Z.of_nat (dev_block_count (inner p)) /\
  start_block p + Z.of_nat (part_block_count p) <= 2 ^ 32.

Definition part_range (p : PartitionBlockDevice D) (x : Z) : bool :=
  (0 <=? x) && (x <? Z.of_nat (part_block_count p)).
Definition part_contents (p : PartitionBlockDevice D) (x : Z) : list Z :=
  if part_range p x then contents (inner p) (start_block p + x)
  else replicate (dev_block_size (inner p)) 0.

Lemma PartitionBlockDevice_new_ok d start count ro p :
  dev_ok d -> 0 <= start -> Z.of_nat (dev_block_count d) <= 2 ^ 32 ->
  PartitionBlockDevice_new d start count ro = Some p -> part_ok p.
Proof.
  intros Hd Hs Hc Hp. unfold PartitionBlockDevice_new, checked_add in Hp.
  case_if; [|done]. cbn [mbind option_bind] in Hp. case_if; [done|].
  injection Hp as <-. split; [done|]. cbn. lia.
Qed.

Lemma out_of_partition_false p a k :
  part_ok p -> out_of_partition p a (k * dev_block_size (inner p)) = false ->
  a + Z.of_nat k <= Z.of_nat (part_block_count p).
Proof.
  intros (Hok & _) Ho. pose proof (law_size _ Hok). unfold out_of_partition in Ho.
  rewrite Nat.Div0.mod_mul, Nat.div_mul in Ho by lia. case_if; [done|]. lia.
Qed.

Lemma out_of_partition_intro p a k :
  part_ok p -> a + Z.of_nat k <= Z.of_nat (part_block_count p) ->
  out_of_partition p a (k * dev_block_size (inner p)) = false.
Proof.
  intros (Hok & _) Ho. pose proof (law_size _ Hok). unfold out_of_partition.
  rewrite Nat.Div0.mod_mul, Nat.div_mul by lia. case_if; [|lia].
  destruct (dev_block_size (inner p)); [lia|done].
Qed.

(** What an inner operation within the partition leaves. *)
Lemma part_ok_set_inner p d :
  part_ok p -> dev_ok d -> same_geometry (inner p) d -> part_ok (set_inner d p).
Proof. intros (?&?&?&?) Hd [? Hg]. split; [done|]. cbn. rewrite Hg. lia. Qed.

Lemma part_geometry p d :
  same_geometry (inner p) d -> same_geometry p (set_inner d p).
Proof. intros [Hg1 _]. split; [exact Hg1|done]. Qed.

(** The transfer that a partition makes on the inner device. *)
Lemma partition_read_inv a k p r p' :
  part_ok p -> addressable a k -> (0 < k)%nat ->
  partition_read a (k * dev_block_size (inner p)) p = (r, p') -> r <> Panic ->
  (r = Err tt /\ p' = p) \/
  exists d, p' = set_inner d p /\ a + Z.of_nat k <= Z.of_nat (part_block_count p) /\
    dev_ok d /\ same_geometry (inner p) d /\ (forall x, contents d x = contents (inner p) x) /\
    (forall b, r = Ok b -> b = read_span (contents (inner p)) (start_block p + a) k).
Proof.
  intros Hp [Ha1 Ha2] Hk Hr Hn. unfold partition_read in Hr. erewrite bindM_ok in Hr by reflexivity.
  destruct (out_of_partition _ _ _) eqn:Ho; [left; by injection Hr as <- <-|right].
  apply out_of_partition_false in Ho; [|done]. pose proof Hp as (Hok & Hs & Hc & Hw).
  rewrite u32_small in Hr by lia. unfold focusM in Hr.
  destruct (dev_read_blocks _ _ _) as [r1 d] eqn:Hd. injection Hr as <- <-. exists d.
  edestruct law_read_blocks as (?&?&?&?); [exact Hk|exact Hok| |exact Hd|done|];
    [split; lia|]. by split_and!; try apply Ho.
Qed.

Lemma partition_write_inv a k buf p r p' :
  part_ok p -> addressable a k -> (0 < k)%nat -> length buf = (k * dev_block_size (inner p))%nat ->
  partition_write a buf p = (r, p') -> r <> Panic ->
  (r = Err tt /\ p' = p) \/
  exists d, p' = set_inner d p /\ a + Z.of_nat k <= Z.of_nat (part_block_count p) /\
    read_only p = false /\
    dev_write_blocks (start_block p + a) buf (inner p) = (r, d) /\
    dev_ok d /\ same_geometry (inner p) d /\
    (forall x, ~ (start_block p + a <= x < start_block p + a + Z.of_nat k) ->
      contents d x = contents (inner p) x) /\
    (r = Ok tt -> forall x, contents d x =
      write_span (contents (inner p)) (start_block p + a) k (dev_block_size (inner p)) buf x).
Proof.
  intros Hp [Ha1 Ha2] Hk Hl Hr Hn. unfold partition_write in Hr.
  erewrite bindM_ok in Hr by reflexivity.
  destruct (read_only p) eqn:Hro; [left; by injection Hr as <- <-|].
  destruct (out_of_partition _ _ _) eqn:Ho; [left; by injection Hr as <- <-|right].
  rewrite Hl in Ho. apply out_of_partition_false in Ho; [|done]. pose proof Hp as (Hok & Hs & Hc & Hw).
  rewrite u32_small in Hr by lia. unfold focusM in Hr.
  destruct (dev_write_blocks _ _ _) as [r1 d] eqn:Hd. injection Hr as <- <-. exists d.
  edestruct law_write_blocks as (?&?&?&?); [exact Hk|exact Hok| |exact Hl|exact Hd|done|];
    [split; lia|]. split; [done|]. split; [exact Ho|]. by split_and!.
Qed.

Lemma part_contents_read p a k :
  0 <= a -> a + Z.of_nat k <= Z.of_nat (part_block_count p) ->
  read_span (contents (inner p)) (start_block p + a) k = read_span (part_contents p) a k.
Proof.
  intros Ha Hk. rewrite <- read_span_shift. apply read_span_ext. intros x Hx.
  unfold part_contents, part_range. case_if; [done|lia].
Qed.

Lemma partition_read_law a k : (0 < k)%nat -> read_law part_ok part_contents partition_read a k.
Proof.
  intros Hk p r p' Hp Ha Hr Hn.
  eapply partition_read_inv in Hr as [[-> ->] | (d & -> & Hle & Hd & Hg & Hc & Hb)]; eauto.
  - split; [done|]. split; [auto with twilight|done].
  - split; [by apply part_ok_set_inner|]. split; [by apply part_geometry|]. split.
    + intros x. unfold part_contents, part_range. cbn. by rewrite Hc, (proj1 Hg).
    + intros b Hb'. rewrite <- part_contents_read; [auto|apply Ha|done].
Qed.

Lemma partition_write_law a k : (0 < k)%nat -> write_law part_ok part_contents partition_write a k.
Proof.
  intros Hk p buf r p' Hp Ha Hl Hr Hn.
  eapply partition_write_inv in Hr as [[-> ->] | (d & -> & Hle & _ & _ & Hd & Hg & Hc & Hb)]; eauto.
  { split; [done|]. split; [auto with twilight|done]. }
  split; [by apply part_ok_set_inner|]. split; [by apply part_geometry|]. destruct Ha as [Ha _]. split.
  - intros x Hx. unfold part_contents, part_range. cbn. case_if; [|by rewrite (proj1 Hg)].
    apply Hc. lia.
  - intros Hr' x. specialize (Hb Hr' (start_block p + x)).
    unfold part_contents at 1, part_range. cbn -[write_span]. cbn in Hb. rewrite (proj1 Hg), Hb.
    unfold write_span, part_contents, part_range. cbn.
    replace (start_block p + x - (start_block p + a)) with (x - a) by lia.
    repeat case_if; try lia; done.
Qed.

#[export] Instance partition_lawful : LawfulDev (PartitionBlockDevice D).
Proof.
  refine {| dev_ok := part_ok; contents := part_contents |}.
  - intros p (Hok & _). exact (law_size (inner p) Hok).
  - intros p x (Hok & _). unfold part_contents. case_if; [|apply length_replicate].
    exact (law_contents (inner p) _ Hok).
  - intros a. apply partition_read_law. lia.
  - intros a. apply partition_write_law. lia.
  - apply partition_read_law.
  - apply partition_write_law.
Defined.

#[export] Instance partition_atomic `{!AtomicDev D} : AtomicDev (PartitionBlockDevice D).
Proof.
  intros a k p buf p' Hp Ha Hl Hk Hw x.
  eapply partition_write_inv in Hw as [[_ ->] | (d & -> & Hle & _ & Hw & _ & Hg & _)]; eauto; [].
  destruct Hp as (Hok & ? & ? & ?). destruct Ha.
  change (part_contents (set_inner d p) x = part_contents p x).
  unfold part_contents, part_range. cbn. rewrite (proj1 Hg). case_if; [|done].
  refine (law_atomic (start_block p + a) k (inner p) buf d Hok _ Hl Hk Hw _). split; lia.
Qed.
End partition_laws.

Section partition_theorems.
Context {D : Type} `{ReliableDev D}.

(** Inside a writable partition operations succeed. *)
Lemma partition_read_ok a k (p : PartitionBlockDevice D) :
  part_ok p -> 0 <= a -> (0 < k)%nat -> a + Z.of_nat k <= Z.of_nat (part_block_count p) ->
  exists b p', dev_read_blocks a (k * dev_block_size p) p = (Ok b, p').
Proof.
  intros Hp Ha Hk Hle. cbn [dev_read_blocks dev_block_size partition_io]. unfold partition_read. erewrite bindM_ok by reflexivity.
  rewrite out_of_partition_intro by done. pose proof Hp as (Hok & ? & ? & ?).
  rewrite u32_small by lia. unfold focusM.
  destruct (law_read_total (start_block p + a) k Hk (inner p) Hok) as (b & d & ->);
    [split; lia|lia|eauto].
Qed.

Lemma partition_write_ok a k buf (p : PartitionBlockDevice D) :
  part_ok p -> read_only p = false -> 0 <= a -> (0 < k)%nat ->
  a + Z.of_nat k <= Z.of_nat (part_block_count p) -> length buf = (k * dev_block_size p)%nat ->
  exists p', dev_write_blocks a buf p = (Ok tt, p').
Proof.
  intros Hp Hro Ha Hk Hle Hl. cbn [dev_write_blocks dev_block_size partition_io] in *.
  unfold partition_write. erewrite bindM_ok by reflexivity.
  rewrite Hro, Hl, out_of_partition_intro by done. pose proof Hp as (Hok & ? & ? & ?).
  rewrite u32_small by lia. unfold focusM.
  destruct (law_write_total (start_block p + a) k Hk (inner p) buf Hok) as (d & ->);
    [split; lia|lia|done|eauto].
Qed.
End partition_theorems.

(** C34. A write through a partition, successful or not, leaves every block of the disk outside the partition unchanged; a successful one is on a writable partition, inside it, and changes exactly the translated blocks. *)
Theorem partition_isolated {D : Type} `{LawfulDev D} (d : D) (start : Z) (count : nat) (ro : bool)
    (p : PartitionBlockDevice D) (a : Z) (k : nat) (buf : list Z) r p' :
  dev_ok d -> 0 <= start -> Z.of_nat (dev_block_count d) <= 2 ^ 32 ->
  PartitionBlockDevice_new d start count ro = Some p ->
  addressable a k -> (0 < k)%nat -> length buf = (k * dev_block_size d)%nat ->
  dev_write_blocks a buf p = (r, p') -> r <> Panic ->
  (forall x, ~ (start <= x < start + Z.of_nat count) -> contents (inner p') x = contents d x) /\
  (r = Ok tt -> ro = false /\ a + Z.of_nat k <= Z.of_nat count /\
    forall x, contents (inner p') x =
      write_span (contents d) (start + a) k (dev_block_size d) buf x).
Proof.
  intros Hd Hs Hc Hp Ha Hk Hl Hw Hn.
  assert (part_ok p) as Hok by by eapply PartitionBlockDevice_new_ok.
  assert (p = mkPartition d start count ro) as ->.
  { unfold PartitionBlockDevice_new in Hp. destruct (checked_add _ _); [|done]. cbn in Hp.
    case_if; by simplify_eq. }
  eapply partition_write_inv in Hw
    as [[-> ->] | (d' & -> & Hle & Hro & _ & Hok' & Hg & Hf & Hb)]; eauto; cbn in *; [done|].
  destruct Ha as [Ha _]. split; [intros x Hx; apply Hf; lia|]. intros Hr. by split; [|split; [|apply Hb]].
Qed.

Lemma partition_isolated_witness :
  let d := MemBlockDevice_new 4 in
  let p := mkPartition d 1 2 false in
  let buf := replicate 2048 7 in
  exists p', dev_write_blocks 1 buf p = (Ok tt, p') /\
    contents (inner p') 0 = contents d 0 /\ contents (inner p') 3 = contents d 3 /\
    contents (inner p') 2 = buf.
Proof.
  intros d p buf. eexists. split; [vm_compute; reflexivity|].
  edestruct (partition_isolated d 1 2 false p 1 1 buf (Ok tt)) as [Hf Hb].
  - apply MemBlockDevice_new_ok.
  - lia.
  - vm_compute. discriminate.
  - vm_compute. reflexivity.
  - split; lia.
  - lia.
  - vm_compute. reflexivity.
  - vm_compute. reflexivity.
  - done.
  - split; [apply Hf; lia|]. split; [apply Hf; lia|].
    destruct (Hb eq_refl) as (_ & _ & Hx). rewrite Hx. vm_compute. reflexivity.
Defined.

(** ** The ATA cache over a lawful, atomic drive *)

Section ata_laws.
Context {D : Type} `{!BlockDeviceIO D} `{!LawfulDev D} `{!AtomicDev D}.
Implicit Types s : AtaBlockDevice D.

(** Every slot holds a block of its own hash; it is the block on the drive, except
    perhaps for the addresses of [P]. *)
Definition coherent_except (P : Z -> Prop) (s : AtaBlockDevice D) : Prop :=
  length (ata_cache s) = ATA_CACHE_SIZE /\
  forall h a b, ata_cache s !! h = Some (Some (a, b)) ->
    0 <= a /\ h = ata_hash s a /\ (~ P a -> b = contents (ata_dev s) a).
Abbreviation coherent := (coherent_except (fun _ => False)).

Definition ata_ok (s : AtaBlockDevice D) : Prop := dev_ok (ata_dev s) /\ coherent s.
Definition ata_contents (s : AtaBlockDevice D) : Z -> list Z := contents (ata_dev s).

Lemma AtaBlockDevice_new_ok (d : D) : dev_ok d -> ata_ok (AtaBlockDevice_new d).
Proof.
  intros Hd. split; [done|]. split; [apply length_replicate|]. intros h a b Hh.
  by apply lookup_replicate in Hh as [? _].
Qed.

Lemma coherent_weaken (P Q : Z -> Prop) s :
  (forall a, P a -> Q a) -> coherent_except P s -> coherent_except Q s.
Proof.
  intros HPQ [Hl Hc]. split; [done|]. intros h a b Hh. destruct (Hc h a b Hh) as (?&?&?).
  split_and!; [done..|]. intros Hn. auto.
Qed.

Lemma ata_hash_lt s a : length (ata_cache s) = ATA_CACHE_SIZE -> (ata_hash s a < length (ata_cache s))%nat.
Proof. intros Hl. apply Nat.mod_upper_bound. by rewrite Hl. Qed.

(** The hash depends on the number of slots only. *)
Lemma ata_hash_insert h e s a :
  ata_hash (set_ata_cache (<[h := e]> (ata_cache s)) s) a = ata_hash s a.
Proof. unfold ata_hash. cbn. by rewrite length_insert. Qed.

Lemma coherent_set P a b s :
  coherent_except P s -> 0 <= a -> b = contents (ata_dev s) a ->
  coherent_except P (set_cached_block a b s).
Proof.
  intros [Hl Hc] Ha Hb. pose proof (ata_hash_lt s a Hl). unfold set_cached_block.
  split; [cbn; by rewrite length_insert|]. intros h a' b' Hh. rewrite ata_hash_insert. cbn in Hh.
  destruct (decide (h = ata_hash s a)) as [->|Hne].
  - rewrite list_lookup_insert_eq in Hh by done. injection Hh as <- <-. auto.
  - rewrite list_lookup_insert_ne in Hh by done. by apply Hc.
Qed.

Lemma coherent_unset P a s :
  coherent_except P s -> coherent_except (fun x => P x /\ x <> a) (unset_cached_block a s).
Proof.
  intros [Hl Hc]. pose proof (ata_hash_lt s a Hl). unfold unset_cached_block.
  split; [cbn; by rewrite length_insert|]. intros h a' b' Hh. rewrite ata_hash_insert. cbn in Hh.
  destruct (decide (h = ata_hash s a)) as [->|Hne].
  - by rewrite list_lookup_insert_eq in Hh by done.
  - rewrite list_lookup_insert_ne in Hh by done. destruct (Hc h a' b' Hh) as (Ha & Hh' & Hb).
    split; [done|]. split; [done|]. intros HP. apply Hb. intros HPa. apply HP. split; [done|].
    intros ->. by apply Hne.
Qed.

Lemma coherent_clear P s : coherent_except P s -> coherent (clear_cache s).
Proof.
  intros [Hl _]. split; [cbn; by rewrite length_fmap|]. intros h a b Hh. cbn in Hh.
  rewrite list_lookup_fmap in Hh. by destruct (ata_cache s !! h).
Qed.

(** The cached bytes of a coherent device are the drive's. *)
Lemma cached_block_coherent s a b :
  coherent s -> cached_block s a = Some b -> b = contents (ata_dev s) a.
Proof.
  intros [_ Hc] Hb. unfold cached_block in Hb.
  destruct (ata_cache s !! ata_hash s a) as [[[a' b']|]|] eqn:Hh; [|done..].
  case_if; [|done]. injection Hb as <-. subst a'. apply (Hc _ _ _ Hh). tauto.
Qed.

Lemma cache_chunks_coherent n idx a bs buf s :
  coherent s -> 0 <= a -> a + Z.of_nat (idx + n) <= 2 ^ 32 ->
  (forall i, (i < n)%nat -> take bs (drop (i * bs) buf) = contents (ata_dev s) (a + Z.of_nat (idx + i))) ->
  coherent (cache_chunks n idx a bs buf s) /\ ata_dev (cache_chunks n idx a bs buf s) = ata_dev s.
Proof.
  revert idx buf s. induction n as [|n IH]; intros idx buf s Hc Ha Hw Hb; cbn [cache_chunks]; [done|].
  rewrite u32_small by lia.
  assert (take bs buf = contents (ata_dev s) (a + Z.of_nat idx)) as H0.
  { specialize (Hb O ltac:(lia)). rewrite Nat.mul_0_l, drop_0, Nat.add_0_r in Hb. done. }
  destruct (IH (S idx) (drop bs buf) (set_cached_block (a + Z.of_nat idx) (take bs buf) s))
    as [IH1 IH2]; [by apply coherent_set; [|lia|]|done|lia| |by rewrite IH2].
  intros i Hi. rewrite drop_drop. specialize (Hb (S i) ltac:(lia)).
  replace (bs + i * bs)%nat with (S i * bs)%nat by lia. rewrite Hb. cbn. do 2 f_equal. lia.
Qed.

Lemma uncache_chunks_coherent n idx a s :
  coherent_except (fun x => a + Z.of_nat idx <= x < a + Z.of_nat (idx + n)) s ->
  0 <= a -> a + Z.of_nat (idx + n) <= 2 ^ 32 ->
  coherent (uncache_chunks n idx a s) /\ ata_dev (uncache_chunks n idx a s) = ata_dev s.
Proof.
  revert idx s. induction n as [|n IH]; intros idx s Hc Ha Hw; cbn [uncache_chunks].
  { split; [|done]. eapply coherent_weaken; [|exact Hc]. cbn. lia. }
  rewrite u32_small by lia.
  destruct (IH (S idx) (unset_cached_block (a + Z.of_nat idx) s)) as [IH1 IH2]; [|done|lia|].
  { eapply coherent_weaken; [|apply coherent_unset, Hc]. cbn. lia. }
  by rewrite IH2.
Qed.

(** The raw transfers, seen from the cached device. *)
Lemma raw_read_inv a k s r s' :
  ata_ok s -> addressable a k -> (0 < k)%nat ->
  raw_read a (k * dev_block_size (ata_dev s)) s = (r, s') -> r <> Panic ->
  ata_ok s' /\ same_geometry s s' /\ (forall x, ata_contents s' x = ata_contents s x) /\
  (forall b, r = Ok b -> b = read_span (ata_contents s) a k).
Proof.
  intros [Hok [Hl Hc]] Ha Hk Hr Hn. unfold raw_read, focusM in Hr.
  destruct (dev_read_blocks _ _ _) as [r1 d] eqn:Hd. injection Hr as <- <-.
  edestruct law_read_blocks as (Hok' & Hg & Hc' & Hb); [exact Hk|exact Hok|exact Ha|exact Hd|done|].
  split; [|by split_and!]. split; [done|]. split; [done|]. intros h x b Hh. cbn.
  rewrite Hc'. by apply Hc.
Qed.

Lemma raw_write_inv a k buf s r s' :
  ata_ok s -> addressable a k -> (0 < k)%nat -> length buf = (k * dev_block_size (ata_dev s))%nat ->
  raw_write a buf s = (r, s') -> r <> Panic ->
  dev_ok (ata_dev s') /\ same_geometry s s' /\
  coherent_except (fun x => r = Ok tt /\ a <= x < a + Z.of_nat k) s' /\
  (forall x, ~ (a <= x < a + Z.of_nat k) -> ata_contents s' x = ata_contents s x) /\
  (r = Ok tt -> forall x, ata_contents s' x =
    write_span (ata_contents s) a k (dev_block_size s) buf x).
Proof.
  intros [Hok [Hl Hc]] Ha Hk Hb Hr Hn. unfold raw_write, focusM in Hr.
  destruct (dev_write_blocks _ _ _) as [r1 d] eqn:Hd. injection Hr as <- <-.
  edestruct law_write_blocks as (Hok' & Hg & Hf & Hw); [exact Hk|exact Hok|exact Ha|exact Hb|exact Hd|done|].
  split; [done|]. split; [done|]. split; [|by split].
  split; [done|]. intros h x b Hh. destruct (Hc h x b Hh) as (Hx & Hh' & Hb').
  split; [done|]. split; [done|]. intros HP. rewrite Hb' by tauto. cbn. symmetry.
  destruct r1 as [[]|[]|]; [|by eapply law_atomic|done]. apply Hf. tauto.
Qed.

Lemma ata_geometry (s s' : AtaBlockDevice D) : ata_dev s' = ata_dev s -> same_geometry s s'.
Proof. intros Hs. split; cbn; by rewrite Hs. Qed.

Lemma ata_read_law a : read_law ata_ok ata_contents ata_read a 1.
Proof.
  intros s r s' Hok Ha Hr Hn. unfold ata_read in Hr. erewrite bindM_ok in Hr by reflexivity.
  cbn [dev_block_size ata_io] in Hr. rewrite Nat.mul_1_l, Nat.eqb_refl in Hr. cbv zeta iota in Hr.
  destruct (cached_block s a) as [b|] eqn:Hcb.
  - case_if; [|by injection Hr as <- <-]. injection Hr as <- <-.
    split; [done|]. split; [auto with twilight|]. split; [done|]. intros b' [= <-].
    cbn [read_span]. rewrite app_nil_r. by apply (cached_block_coherent s a b (proj2 Hok)).
  - apply bindM_inv in Hr as [(b & s1 & Hb & Hr) | (e & Hb & ->)]; [| |done];
      rewrite <- (Nat.mul_1_l (dev_block_size (ata_dev s))) in Hb;
      (edestruct raw_read_inv as (Hok1 & Hg1 & Hc1 & Hb1); [exact Hok|exact Ha| |exact Hb|done|]; [lia|]).
    2: { by split_and!. }
    injection Hr as <- <-. specialize (Hb1 b eq_refl). cbn [read_span] in Hb1.
    rewrite app_nil_r in Hb1. destruct Hok1 as [Hd1 Hcoh].
    split; [split; [done|]; apply coherent_set; [done|apply Ha|by rewrite Hb1, <- Hc1]|].
    split; [exact Hg1|]. split; [exact Hc1|]. intros b' [= <-]. cbn [read_span].
    by rewrite app_nil_r.
Qed.

Lemma ata_write_law a : write_law ata_ok ata_contents ata_write a 1.
Proof.
  intros s buf r s' Hok Ha Hl Hr Hn. unfold ata_write in Hr.
  apply bindM_inv in Hr as [([] & s1 & Hb & Hr) | (e & Hb & ->)]; [| |done];
    (edestruct raw_write_inv as (Hok1 & Hg1 & Hc1 & Hf1 & Hw1); [exact Hok|exact Ha| |exact Hl|exact Hb|done|]; [lia|]).
  2: { split; [split; [done|]; eapply coherent_weaken; [|exact Hc1]; by intros ? []|]. by split_and!. }
  injection Hr as <- <-. split; [split; [done|]|].
  - eapply coherent_weaken; [|apply coherent_unset, Hc1]. cbn. lia.
  - split; [exact Hg1|]. split; [exact Hf1|exact Hw1].
Qed.

Lemma len_one_block bs k : (0 < bs)%nat -> (k * bs =? bs)%nat = true -> k = 1%nat.
Proof. intros ? H%Nat.eqb_eq. nia. Qed.

Lemma ata_read_blocks_law a k : (0 < k)%nat -> read_law ata_ok ata_contents ata_read_blocks a k.
Proof.
  intros Hk s r s' Hok Ha Hr Hn. unfold ata_read_blocks in Hr. erewrite bindM_ok in Hr by reflexivity.
  pose proof (law_size _ (proj1 Hok)) as Hsz. cbn [dev_block_size ata_io] in Hr. cbv zeta in Hr.
  destruct (_ =? dev_block_size (ata_dev s))%nat eqn:H1 in Hr.
  { apply len_one_block in H1 as ->; [|done]. by eapply (ata_read_law a). }
  rewrite Nat.Div0.mod_mul, Nat.div_mul in Hr by lia. case_if; [lia|]. cbn [Nat.eqb negb] in Hr.
  apply bindM_inv in Hr as [(b & s1 & Hb & Hr) | (e & Hb & ->)]; [| |done];
    (edestruct raw_read_inv as (Hok1 & Hg1 & Hc1 & Hb1); [exact Hok|exact Ha|exact Hk|exact Hb|done|]).
  2: { by split_and!. }
  specialize (Hb1 b eq_refl). case_if.
  2: { injection Hr as <- <-. split_and!; try done; try apply Hok1. by intros ? [= <-]. }
  injection Hr as <- <-. destruct Hok1 as [Hd1 Hcoh], Ha as [Ha1 Ha2].
  edestruct (cache_chunks_coherent k 0 a (dev_block_size (ata_dev s)) b s1) as [Hcc Hdev];
    [done|lia|lia| |].
  - intros i Hi. rewrite Hb1, read_span_chunk; [by rewrite <- Hc1| |done].
    intros x. by apply law_contents, Hok.
  - split; [split; [by rewrite Hdev|done]|].
    split; [eapply same_geometry_trans; [exact Hg1|by apply ata_geometry]|].
    split; [unfold ata_contents; rewrite Hdev; exact Hc1|]. by intros ? [= <-].
Qed.

Lemma ata_write_blocks_law a k : (0 < k)%nat -> write_law ata_ok ata_contents ata_write_blocks a k.
Proof.
  intros Hk s buf r s' Hok Ha Hl Hr Hn. unfold ata_write_blocks in Hr.
  erewrite bindM_ok in Hr by reflexivity. cbn [dev_block_size ata_io] in Hl.
  pose proof (law_size _ (proj1 Hok)) as Hsz. cbv zeta in Hr. rewrite Hl in Hr.
  destruct (_ =? dev_block_size (ata_dev s))%nat eqn:H1 in Hr.
  { apply len_one_block in H1 as ->; [|done]. by eapply (ata_write_law a). }
  rewrite Nat.Div0.mod_mul, Nat.div_mul in Hr by lia. case_if; [lia|]. cbn [Nat.eqb negb] in Hr.
  apply bindM_inv in Hr as [([] & s1 & Hb & Hr) | (e & Hb & ->)]; [| |done];
    (edestruct raw_write_inv as (Hok1 & Hg1 & Hc1 & Hf1 & Hw1); [exact Hok|exact Ha|exact Hk|exact Hl|exact Hb|done|]).
  2: { split; [split; [done|]; eapply coherent_weaken; [|exact Hc1]; by intros ? []|]. by split_and!. }
  destruct Ha as [Ha1 Ha2]. case_if; injection Hr as <- <-.
  - split; [split; [done|by eapply coherent_clear]|]. by split; [exact Hg1|split].
  - edestruct (uncache_chunks_coherent k 0 a s1) as [Hcc Hdev]; [|lia|lia|].
    + eapply coherent_weaken; [|exact Hc1]. cbn. lia.
    + split; [split; [by rewrite Hdev|done]|].
      split; [eapply same_geometry_trans; [exact Hg1|by apply ata_geometry]|].
      unfold ata_contents. rewrite Hdev. by split.
Qed.

#[export] Instance ata_lawful : LawfulDev (AtaBlockDevice D).
Proof.
  refine {| dev_ok := ata_ok; contents := ata_contents |}.
  - intros s [Hok _]. exact (law_size (ata_dev s) Hok).
  - intros s x [Hok _]. exact (law_contents (ata_dev s) x Hok).
  - apply ata_read_law.
  - apply ata_write_law.
  - apply ata_read_blocks_law.
  - apply ata_write_blocks_law.
Defined.
End ata_laws.

Section ata_more.
Context {D : Type} `{!BlockDeviceIO D} `{!LawfulDev D} `{!AtomicDev D}.

Lemma raw_write_err a k buf (s s' : AtaBlockDevice D) :
  ata_ok s -> addressable a k -> (0 < k)%nat -> length buf = (k * dev_block_size (ata_dev s))%nat ->
  raw_write a buf s = (Err tt, s') -> forall x, ata_contents s' x = ata_contents s x.
Proof.
  intros [Hok _] Ha Hk Hl Hw x. unfold raw_write, focusM in Hw.
  destruct (dev_write_blocks _ _ _) as [r d] eqn:Hd. injection Hw as -> <-.
  exact (law_atomic _ k _ _ _ Hok Ha Hl Hk Hd x).
Qed.

#[export] Instance ata_atomic : AtomicDev (AtaBlockDevice D).
Proof.
  intros a k s buf s' Hok Ha Hl Hk Hw. cbn [dev_write_blocks dev_block_size ata_io] in Hw, Hl.
  pose proof (law_size _ (proj1 Hok)) as Hsz. unfold ata_write_blocks in Hw.
  erewrite bindM_ok in Hw by reflexivity. cbv zeta in Hw. rewrite Hl in Hw.
  cbn [dev_block_size ata_io] in Hw. case_if.
  - unfold ata_write in Hw.
    apply bindM_inv in Hw as [([] & s1 & _ & Hw) | ([] & Hb & _)]; [by injection Hw| |done].
    by eapply raw_write_err.
  - rewrite Nat.Div0.mod_mul in Hw. case_if; [lia|]. cbn [Nat.eqb negb] in Hw.
    apply bindM_inv in Hw as [([] & s1 & _ & Hw) | ([] & Hb & _)]; [by case_if; injection Hw| |done].
    by eapply raw_write_err.
Qed.
End ata_more.

(** ** Traces of operations *)

Inductive blk_op := OpRead (a : Z) (k : nat) | OpWrite (a : Z) (k : nat) (buf : list Z).

(** The outcome of an operation: the bytes read, [[]] for a write. *)
Definition exec {D} `{BlockDeviceIO D} (o : blk_op) : M D unit (list Z) :=
  match o with
  | OpRead a k => d <-- getM ;; dev_read_blocks a (k * dev_block_size d)
  | OpWrite a _ buf => dev_write_blocks a buf >>> retM []
  end.

Definition op_ok (bs : nat) (o : blk_op) : Prop :=
  match o with
  | OpRead a k => addressable a k /\ (0 < k)%nat
  | OpWrite a k buf => addressable a k /\ (0 < k)%nat /\ length buf = (k * bs)%nat
  end.

(** A client's run of operations, up to a panic. *)
Fixpoint run_ops {D} `{BlockDeviceIO D} (ops : list blk_op) (d : D)
    : list (blk_op * res unit (list Z)) :=
  match ops with
  | [] => []
  | o :: ops => match exec o d with
                | (Panic, _) => []
                | (r, d') => (o, r) :: run_ops ops d'
                end
  end.

(** A plain disk explains the outcomes: reads see the successful writes before
    them, and nothing else. *)
Fixpoint explains (bs : nat) (c : Z -> list Z) (t : list (blk_op * res unit (list Z))) : Prop :=
  match t with
  | [] => True
  | (OpRead a k, Ok b) :: t => b = read_span c a k /\ explains bs c t
  | (OpWrite a k buf, Ok _) :: t => explains bs (write_span c a k bs buf) t
  | (_, _) :: t => explains bs c t
  end.

Lemma write_span_ext c c' a k bs buf :
  (forall x, c x = c' x) -> forall x, write_span c a k bs buf x = write_span c' a k bs buf x.
Proof. intros Hc x. unfold write_span. by case_if. Qed.

Lemma explains_ext bs c c' t : (forall x, c x = c' x) -> explains bs c t -> explains bs c' t.
Proof.
  revert c c'. induction t as [|[o r] t IH]; intros c c' Hc; cbn [explains]; [done|].
  destruct o as [a k|a k buf], r as [b|e|]; try by apply IH.
  - intros [-> Ht]. split; [by apply read_span_ext|by eapply IH].
  - apply IH, write_span_ext, Hc.
Qed.

Lemma run_ops_explained {D} `{AtomicDev D} ops (d : D) :
  dev_ok d -> Forall (op_ok (dev_block_size d)) ops ->
  explains (dev_block_size d) (contents d) (run_ops ops d).
Proof.
  revert d. induction ops as [|o ops IH]; intros d Hok Hops; cbn [run_ops]; [done|].
  apply Forall_cons in Hops as [Ho Hops]. destruct (exec o d) as [r d'] eqn:He.
  destruct o as [a k|a k buf].
  - destruct Ho as [Ha Hk]. unfold exec in He. erewrite bindM_ok in He by reflexivity.
    destruct r as [b|e|]; [| |done];
      (edestruct law_read_blocks as (Hok' & [Hg _] & Hc & Hb); [exact Hk|exact Hok|exact Ha|exact He|done|]);
      (specialize (IH d'); rewrite Hg in IH; specialize (IH Hok' Hops);
       apply (explains_ext _ _ _ _ Hc) in IH).
    + split; [by apply Hb|done].
    + done.
  - destruct Ho as (Ha & Hk & Hl). unfold exec in He. destruct r as [b|[]|]; [| |done];
      (apply bindM_inv in He as [([] & d1 & Hw & He) | (e & Hw & He)]; [| |done]);
      try done; try (by injection He).
    + injection He as <- <-.
      edestruct law_write_blocks as (Hok' & [Hg _] & _ & Hb);
        [exact Hk|exact Hok|exact Ha|exact Hl|exact Hw|done|].
      specialize (IH d1). rewrite Hg in IH. specialize (IH Hok' Hops).
      by apply (explains_ext _ _ _ _ (Hb eq_refl)) in IH.
    + injection He as <-.
      edestruct law_write_blocks as (Hok' & [Hg _] & _ & _);
        [exact Hk|exact Hok|exact Ha|exact Hl|exact Hw|done|].
      specialize (IH d'). rewrite Hg in IH. specialize (IH Hok' Hops).
      by apply (explains_ext _ _ _ _ (law_atomic _ _ _ _ _ Hok Ha Hl Hk Hw)) in IH.
Qed.

(** Inside a reliable device every operation succeeds. *)
Definition op_in_range (count : nat) (o : blk_op) : Prop :=
  match o with
  | OpRead a k | OpWrite a k _ => a + Z.of_nat k <= Z.of_nat count
  end.
Definition is_ok {E A} (r : res E A) : bool := match r with Ok _ => true | _ => false end.

Lemma exec_total {D} `{ReliableDev D} o (d : D) :
  dev_ok d -> op_ok (dev_block_size d) o -> op_in_range (dev_block_count d) o ->
  exists b d', exec o d = (Ok b, d') /\ dev_ok d' /\ same_geometry d d'.
Proof.
  intros Hok Ho Hr. destruct o as [a k|a k buf]; unfold exec.
  - destruct Ho as [Ha Hk]. erewrite bindM_ok by reflexivity.
    destruct (law_read_total a k Hk d Hok Ha Hr) as (b & d' & Hb). exists b, d'.
    split; [done|]. by edestruct law_read_blocks as (?&?&_); [exact Hk|exact Hok|exact Ha|exact Hb|done|].
  - destruct Ho as (Ha & Hk & Hl).
    destruct (law_write_total a k Hk d buf Hok Ha Hr Hl) as (d' & Hw). exists [], d'.
    rewrite (bindM_ok _ _ _ _ _ Hw). split; [done|].
    by edestruct law_write_blocks as (?&?&_); [exact Hk|exact Hok|exact Ha|exact Hl|exact Hw|done|].
Qed.

Lemma run_ops_total {D} `{ReliableDev D} ops (d : D) :
  dev_ok d -> Forall (op_ok (dev_block_size d)) ops -> Forall (op_in_range (dev_block_count d)) ops ->
  (run_ops ops d).*1 = ops /\ Forall (fun r => is_ok r = true) (run_ops ops d).*2.
Proof.
  revert d. induction ops as [|o ops IH]; intros d Hok Hops Hr; cbn [run_ops]; [done|].
  apply Forall_cons in Hops as [Ho Hops]. apply Forall_cons in Hr as [Hr Hrs].
  destruct (exec_total o d Hok Ho Hr) as (b & d' & -> & Hok' & Hg1 & Hg2).
  destruct (IH d') as [IH1 IH2]; [done|by rewrite Hg1|by rewrite Hg2|]. csimpl.
  rewrite IH1. split; [done|]. by constructor.
Qed.

Section ata_reliable.
Context {D : Type} `{!BlockDeviceIO D} `{!LawfulDev D} `{!AtomicDev D} `{!ReliableDev D}.

Lemma raw_read_total a k (s : AtaBlockDevice D) :
  ata_ok s -> addressable a k -> (0 < k)%nat -> a + Z.of_nat k <= Z.of_nat (dev_block_count s) ->
  exists b s', raw_read a (k * dev_block_size (ata_dev s)) s = (Ok b, s').
Proof.
  intros [Hok _] Ha Hk Hr. unfold raw_read, focusM.
  destruct (law_read_total a k Hk (ata_dev s) Hok Ha Hr) as (b & d & ->). eauto.
Qed.

Lemma raw_write_total a k buf (s : AtaBlockDevice D) :
  ata_ok s -> addressable a k -> (0 < k)%nat -> a + Z.of_nat k <= Z.of_nat (dev_block_count s) ->
  length buf = (k * dev_block_size (ata_dev s))%nat -> exists s', raw_write a buf s = (Ok tt, s').
Proof.
  intros [Hok _] Ha Hk Hr Hl. unfold raw_write, focusM.
  destruct (law_write_total a k Hk (ata_dev s) buf Hok Ha Hr Hl) as (d & ->). eauto.
Qed.

#[export] Instance ata_reliable : ReliableDev (AtaBlockDevice D).
Proof.
  split.
  - intros a k Hk s Hok Ha Hr. cbn [dev_read_blocks dev_block_size ata_io].
    pose proof (law_size _ (proj1 Hok)) as Hsz. destruct (raw_read_total a k s Hok Ha Hk Hr) as (b & s1 & Hb).
    unfold ata_read_blocks. erewrite bindM_ok by reflexivity. cbv zeta. case_if.
    + assert (k = 1%nat) as -> by nia. unfold ata_read. erewrite bindM_ok by reflexivity.
      rewrite Nat.mul_1_l, Nat.eqb_refl in *. cbv zeta iota.
      destruct (cached_block s a) as [c|] eqn:Hc.
      * apply cached_block_coherent in Hc as ->; [|apply Hok].
        rewrite law_contents, Nat.eqb_refl by apply Hok. by eexists _, _.
      * rewrite (bindM_ok _ _ _ _ _ Hb). by eexists _, _.
    + case_if; [lia|]. rewrite Nat.Div0.mod_mul. cbn [Nat.eqb negb].
      rewrite (bindM_ok _ _ _ _ _ Hb). case_if; by eexists _, _.
  - intros a k Hk s buf Hok Ha Hr Hl. cbn [dev_write_blocks dev_block_size ata_io] in *.
    pose proof (law_size _ (proj1 Hok)) as Hsz.
    destruct (raw_write_total a k buf s Hok Ha Hk Hr Hl) as (s1 & Hb).
    unfold ata_write_blocks. erewrite bindM_ok by reflexivity. cbv zeta. case_if.
    + unfold ata_write. rewrite (bindM_ok _ _ _ _ _ Hb). by eexists.
    + case_if; [lia|]. rewrite Hl, Nat.Div0.mod_mul. cbn [Nat.eqb negb].
      rewrite (bindM_ok _ _ _ _ _ Hb). case_if; by eexists.
Qed.
End ata_reliable.

(** C7. For any run of block reads and writes on a fresh cached ATA device over a lawful drive whose failed writes change nothing, the outcomes are those of a plain disk: every read returns the latest successful writes. If the drive is reliable and the operations are in range, all of them succeed. *)
Theorem ata_cache_transparent {D : Type} `{AtomicDev D} (d : D) (ops : list blk_op) :
  dev_ok d -> Forall (op_ok (dev_block_size d)) ops ->
  explains (dev_block_size d) (contents d) (run_ops ops (AtaBlockDevice_new d)) /\
  (ReliableDev D -> Forall (op_in_range (dev_block_count d)) ops ->
    (run_ops ops (AtaBlockDevice_new d)).*1 = ops /\
    Forall (fun r => is_ok r = true) (run_ops ops (AtaBlockDevice_new d)).*2).
Proof.
  intros Hd Hops. pose proof (AtaBlockDevice_new_ok d Hd) as Hok. split.
  - exact (run_ops_explained ops (AtaBlockDevice_new d) Hok Hops).
  - intros Hrel Hr. exact (run_ops_total ops (AtaBlockDevice_new d) Hok Hops Hr).
Qed.

Lemma ata_cache_transparent_witness :
  let d := MemBlockDevice_new 3 in
  let ops := [OpRead 1 2; OpWrite 1 2 (replicate 4096 9); OpRead 2 1] in
  explains (dev_block_size d) (contents d) (run_ops ops (AtaBlockDevice_new d)) /\
  (run_ops ops (AtaBlockDevice_new d)).*1 = ops.
Proof.
  intros d ops. destruct (ata_cache_transparent d ops) as [He Ht].
  - apply MemBlockDevice_new_ok.
  - repeat constructor; try lia; by vm_compute.
  - split; [exact He|]. apply Ht; [apply mem_reliable|]. repeat constructor; cbn; lia.
Defined.

(** ** The ideal disk

    The device the laws describe, of any block size: it never fails. *)

Record IdealDisk := mkIdeal { ideal_bs : nat; ideal_count : nat; ideal_data : Z -> list Z }.

Definition ideal_read (a : Z) (len : nat) : M IdealDisk unit (list Z) :=
  fun d => (Ok (read_span (ideal_data d) a (len / ideal_bs d)), d).
Definition ideal_write (a : Z) (buf : list Z) : M IdealDisk unit unit :=
  fun d => (Ok tt, mkIdeal (ideal_bs d) (ideal_count d)
                     (write_span (ideal_data d) a (length buf / ideal_bs d) (ideal_bs d) buf)).

#[export] Instance ideal_io : BlockDeviceIO IdealDisk := {|
  dev_read := ideal_read;
  dev_write := ideal_write;
  dev_block_size := ideal_bs;
  dev_block_count := ideal_count;
  dev_read_blocks := ideal_read;
  dev_write_blocks := ideal_write;
|}.

Definition ideal_ok (d : IdealDisk) : Prop :=
  (0 < ideal_bs d)%nat /\ forall x, length (ideal_data d x) = ideal_bs d.

Lemma ideal_read_law a k : read_law ideal_ok ideal_data ideal_read a k.
Proof.
  intros d r d' [Hb Hl] _ [= <- <-] _. split; [done|]. split; [done|]. split; [done|].
  intros b [= <-]. cbn. rewrite Nat.div_mul by lia. done.
Qed.

Lemma write_span_length c a k bs buf x :
  (forall y, length (c y) = bs) -> length buf = (k * bs)%nat ->
  length (write_span c a k bs buf x) = bs.
Proof.
  intros Hc Hl. unfold write_span. case_if; [|apply Hc].
  rewrite length_take, length_drop, Hl.
  assert (Z.to_nat (x - a) < k)%nat by lia. nia.
Qed.

Lemma ideal_write_law a k : write_law ideal_ok ideal_data ideal_write a k.
Proof.
  intros d buf r d' [Hb Hl] _ Hbuf [= <- <-] _. cbn in Hbuf. rewrite Hbuf, Nat.div_mul by lia.
  split; [split; [done|]; intros x; by apply write_span_length|]. split; [done|]. split; [|done].
  intros x Hx. cbn. unfold write_span. case_if; [lia|done].
Qed.

#[export] Instance ideal_lawful : LawfulDev IdealDisk.
Proof.
  refine {| dev_ok := ideal_ok; contents := ideal_data |}.
  - by intros d [? _].
  - by intros d x [_ ?].
  - intros a. apply ideal_read_law.
  - intros a. apply ideal_write_law.
  - intros a k _. apply ideal_read_law.
  - intros a k _. apply ideal_write_law.
Defined.

#[export] Instance ideal_atomic : AtomicDev IdealDisk.
Proof. by intros a k d buf d' _ _ _ _ [=]. Qed.

#[export] Instance ideal_reliable : ReliableDev IdealDisk.
Proof. split; intros; repeat intro; by repeat eexists. Qed.

(** ** Why the cache needs an atomic drive

    A drive whose writes reach the medium and then report an error: the cache
    keeps serving the old block. *)

Definition torn_io : BlockDeviceIO IdealDisk := {|
  dev_read := ideal_read;
  dev_write := fun a buf d => (Err tt, snd (ideal_write a buf d));
  dev_block_size := ideal_bs;
  dev_block_count := ideal_count;
  dev_read_blocks := ideal_read;
  dev_write_blocks := fun a buf d => (Err tt, snd (ideal_write a buf d));
|}.

Theorem ata_torn_write_stale :
  let read := @ata_read_blocks IdealDisk torn_io in
  let write := @ata_write_blocks IdealDisk torn_io in
  let s0 := AtaBlockDevice_new (mkIdeal 2 8 (fun _ => [0; 0])) in
  exists s1 s2 s3, read 5 2%nat s0 = (Ok [0; 0], s1) /\ write 5 [7; 7] s1 = (Err tt, s2) /\
    ideal_data (ata_dev s2) 5 = [7; 7] /\ read 5 2%nat s2 = (Ok [0; 0], s3).
Proof.
  do 3 eexists. do 3 (split; [vm_compute; reflexivity|]).
  vm_compute. reflexivity.
Qed.
