(* ===== verification/FileDevSpec.v ===== *)
(** * The file-backed block device (driver/disk/mod.rs, [FileBlockDevice])

    [VfsNode::read_exact] and the read-ahead window, over a node whose bytes do
    not change while the device holds it: the image [F] and the contract of
    [VfsNode::read] are the hypotheses of the section. *)

From Stdlib Require Import ZifyBool.
From S2P Require Import Prelude BlockDev.
Open Scope twilight_scope.

Section file_spec.
Context {N : Type} (node_read : Z -> Z -> M N unit (list Z)) (node_ok : N -> Prop) (F : list Z).

(** A read returns at most the bytes asked for, taken from the image, and does
    not panic; [node_live]: it makes progress inside the image. *)
Definition node_law : Prop :=
  forall n off len r n', node_ok n -> 0 <= off -> 0 < len -> node_read off len n = (r, n') ->
  r <> Panic /\ node_ok n' /\
  (forall c, r = Ok c -> Z.of_nat (length c) <= len /\ c = slice F off (Z.of_nat (length c))).
Definition node_live : Prop :=
  forall n off len, node_ok n -> 0 <= off < Z.of_nat (length F) -> 0 < len ->
  exists c n', node_read off len n = (Ok c, n') /\ c <> [].

Lemma slice_app l a m n :
  0 <= a -> 0 <= m -> 0 <= n -> slice l a m ++ slice l (a + m) n = slice l a (m + n).
Proof.
  intros Ha Hm Hn. unfold slice. rewrite !Z2Nat.inj_add by lia.
  rewrite <- drop_drop, take_take_drop. done.
Qed.

Lemma slice_length l a n :
  0 <= a -> 0 <= n -> a + n <= Z.of_nat (length l) -> Z.of_nat (length (slice l a n)) = n.
Proof. intros. unfold slice. rewrite length_take, length_drop. lia. Qed.

Lemma slice_slice l a n b m :
  0 <= a -> 0 <= b -> 0 <= m -> b + m <= n -> slice (slice l a n) b m = slice l (a + b) m.
Proof.
  intros. unfold slice. rewrite Z2Nat.inj_add by lia.
  rewrite skipn_firstn_comm, take_take, drop_drop. f_equal; lia.
Qed.

Context (Hlaw : node_law).

Lemma read_exact_loop_spec fuel off len n r n' :
  node_ok n -> 0 <= off -> 0 <= len -> (Z.to_nat len <= fuel)%nat ->
  off + len <= U64_MAX -> read_exact_loop node_read fuel off len n = (r, n') ->
  r <> Panic /\ node_ok n' /\
  (forall c, r = Ok c -> c = slice F off len /\ Z.of_nat (length c) = len) /\
  (node_live -> off + len <= Z.of_nat (length F) -> is_Some (match r with Ok c => Some c | _ => None end)).
Proof.
  revert off len n r n'. induction fuel as [|fuel IH]; intros off len n r n' Hn Hoff Hlen Hf Hmax Hr;
    cbn [read_exact_loop] in Hr; (destruct (len =? 0) eqn:H0; bool_to_prop;
    [injection Hr as <- <-; subst len; split_and!; [done|done|by intros c [= <-]|by eexists]|]); [lia|].
  unfold bindM at 1 in Hr. destruct (node_read off len n) as [r1 n1] eqn:Hrd.
  destruct (Hlaw n off len r1 n1) as (Hp & Hn1 & Hc); [done|done|lia|done|].
  destruct r1 as [c|e|]; [| |done].
  2: { injection Hr as <- <-. split_and!; try done. intros Hlive Hin.
       destruct (Hlive n off len) as (?&?&?&?); [done|lia|lia|]. congruence. }
  destruct (Hc c eq_refl) as [Hcl Hcs]. unfold checked_add in Hr.
  destruct (Z.of_nat (length c) =? 0) eqn:Hz; bool_to_prop.
  { injection Hr as <- <-. split_and!; try done. intros Hlive Hin.
    destruct (Hlive n off len) as (c' & n2 & Hc' & Hne); [done|lia|lia|]. rewrite Hrd in Hc'.
    injection Hc' as <- <-. destruct c; [done|]. cbn in Hz. lia. }
  replace (off + Z.of_nat (length c) <=? U64_MAX) with true in Hr by lia.
  replace (len <? Z.of_nat (length c)) with false in Hr by lia. unfold bindM in Hr.
  destruct (read_exact_loop _ fuel _ _ n1) as [r2 n2] eqn:Hr2.
  apply IH in Hr2 as (Hp2 & Hn2 & Hc2 & Hl2); [|done|lia|lia|lia|lia].
  destruct r2 as [rest|e|]; [| |done]; injection Hr as <- <-; split_and!; try done.
  - intros c' [= <-]. destruct (Hc2 rest eq_refl) as [-> Hrl]. split.
    + rewrite Hcs at 1. rewrite slice_app by lia. f_equal. lia.
    + rewrite length_app. lia.
  - intros Hlive Hin. apply Hl2; [done|lia].
Qed.

Lemma read_exact_spec off len n r n' :
  node_ok n -> 0 <= off -> 0 <= len -> off + len <= U64_MAX ->
  read_exact node_read off len n = (r, n') ->
  r <> Panic /\ node_ok n' /\
  (forall c, r = Ok c -> c = slice F off len /\ Z.of_nat (length c) = len) /\
  (node_live -> off + len <= Z.of_nat (length F) -> is_Some (match r with Ok c => Some c | _ => None end)).
Proof. intros. by eapply read_exact_loop_spec. Qed.

(** The window is a slice of the image. *)
Definition file_ok (f : FileBlockDevice N) : Prop :=
  node_ok (node f) /\ size f = Z.of_nat (length F) /\ size f <= U64_MAX /\ 0 < file_block_size f /\
  0 <= cache_start f /\ cache_start f + Z.of_nat (length (file_cache f)) <= size f /\
  file_cache f = slice F (cache_start f) (Z.of_nat (length (file_cache f))).

Lemma FileBlockDevice_new_ok n bs f :
  node_ok n -> Z.of_nat (length F) <= U64_MAX -> 0 <= bs ->
  FileBlockDevice_new n (Z.of_nat (length F)) bs = Some f -> file_ok f.
Proof.
  intros Hn HF Hbs Hf. unfold FileBlockDevice_new in Hf. case_if; [done|]. injection Hf as <-.
  split; [done|]. cbn. by split_and!; try lia.
Qed.

(** What a read of [len] bytes at [off] delivers. *)
Definition delivers (f : FileBlockDevice N) (off len : Z) (r : res unit (list Z)) (f' : FileBlockDevice N) : Prop :=
  r <> Panic /\ file_ok f' /\ file_block_size f' = file_block_size f /\
  (forall b, r = Ok b -> b = slice F off len /\ Z.of_nat (length b) = len) /\
  (node_live -> is_Some (match r with Ok c => Some c | _ => None end)).

Lemma window_hit_slice f off len :
  file_ok f -> 0 <= len -> window_hit f off (off + len) = true ->
  slice (file_cache f) (off - cache_start f) len = slice F off len.
Proof.
  intros (_ & _ & _ & _ & Hs & Hle & Hc) Hl Hh. unfold window_hit, saturating_add in Hh. bool_to_prop.
  rewrite Hc, slice_slice by lia. f_equal. lia.
Qed.

Lemma fill_window_delivers f off len r f' :
  let bs := file_block_size f in
  let ws := off / bs * bs in
  let wl := Z.min FILE_BLOCK_READ_AHEAD_BYTES (usize (size f - ws)) in
  file_ok f -> 0 <= off -> 0 < len -> off mod bs = 0 -> off + len <= size f ->
  len < FILE_BLOCK_READ_AHEAD_BYTES ->
  (c <-- fill_window node_read ws wl ;;
   if Z.of_nat (length c) <? off - ws + len then panicM else retM (slice c (off - ws) len)) f = (r, f') ->
  delivers f off len r f'.
Proof.
  intros bs ws wl (Hn & HF & Hmax & Hb & Hcs & Hce & Hcc) Hoff Hlen Hal Hin Hsm Hr.
  assert (ws = off) as Hws.
  { unfold ws. pose proof (Z.div_mod off bs). subst bs. lia. }
  assert (usize (size f - ws) = size f - ws) as Hus.
  { apply Z.mod_small. rewrite Hws. unfold U64_MAX in Hmax. lia. }
  assert (len <= wl /\ ws + wl <= size f) as [Hwl Hwe] by (unfold wl; rewrite Hus; lia).
  unfold bindM, fill_window in Hr. destruct (read_exact _ _ _ _) as [r1 n1] eqn:Hx.
  apply read_exact_spec in Hx as (Hp & Hn1 & Hc & Hl); [|done|lia|lia|unfold U64_MAX in *; lia].
  destruct r1 as [c|e|]; [| |done].
  - destruct (Hc c eq_refl) as [Hcs' Hcl]. replace (_ <? _) with false in Hr by lia.
    injection Hr as <- <-. split_and!; try done; cbn.
    + split_and!; cbn; try done; try lia. by rewrite Hcl.
    + intros b [= <-]. rewrite Hcs', slice_slice by lia. split; [f_equal; lia|].
      apply slice_length; lia.
  - injection Hr as <- <-. split_and!; try done; cbn.
    + by split_and!; cbn; try done; try lia.
    + intros Hlive. apply Hl; [done|]. rewrite <- HF. lia.
Qed.

Lemma cached_read_delivers f off len r f' :
  file_ok f -> 0 <= off -> 0 < len -> off mod file_block_size f = 0 -> off + len <= size f ->
  cached_read node_read off len f = (r, f') -> delivers f off len r f'.
Proof.
  intros Hok Hoff Hlen Hal Hin Hr. pose proof Hok as (Hn & HF & Hmax & Hb & Hcs & Hce & Hcc).
  unfold cached_read in Hr. unfold bindM at 1, getM in Hr. unfold checked_add in Hr.
  replace (off + len <=? U64_MAX) with true in Hr by lia.
  destruct (window_hit f off (off + len)) eqn:Hh.
  { injection Hr as <- <-. rewrite window_hit_slice by (done || lia).
    split_and!; try done. intros b [= <-]. split; [done|]. apply slice_length; lia. }
  destruct (_ <=? len) eqn:Hbig in Hr; bool_to_prop; [|by apply fill_window_delivers in Hr; try lia].
  unfold focusM in Hr. destruct (read_exact _ _ _ _) as [r1 n1] eqn:Hx. injection Hr as <- <-.
  apply read_exact_spec in Hx as (Hp & Hn1 & Hc & Hl); [|done|lia|lia|lia].
  split_and!; try done. intros Hlive. apply Hl; [done|lia].
Qed.

Lemma file_read_delivers f addr len r f' :
  file_ok f -> 0 <= addr -> 0 <= len -> file_read node_read addr len f = (r, f') ->
  let off := addr * file_block_size f in
  (r = Err tt /\ f' = f /\ (len = 0 \/ len mod file_block_size f <> 0 \/ size f < off + len)) \/
  (0 < len /\ len mod file_block_size f = 0 /\ off + len <= size f /\ delivers f off len r f').
Proof.
  intros Hok Ha Hl Hr off. pose proof Hok as (Hn & HF & Hmax & Hb & _).
  unfold file_read in Hr. unfold bindM at 1, getM in Hr.
  repeat (case_if; [left; injection Hr as <- <-; split; [done|split; [done|lia]]|]).
  unfold checked_mul, checked_add in Hr. fold off in Hr.
  destruct (off <=? U64_MAX) eqn:Ho; bool_to_prop; [|left; injection Hr as <- <-; split; [done|split; [done|lia]]].
  destruct (off + len <=? U64_MAX) eqn:Ho2; bool_to_prop;
    [|left; injection Hr as <- <-; split; [done|split; [done|lia]]].
  case_if; [left; injection Hr as <- <-; split; [done|split; [done|lia]]|].
  right. split; [lia|]. split; [lia|]. split; [lia|].
  apply cached_read_delivers; try done; try lia. apply Z.mod_mul. lia.
Qed.
End file_spec.

(** A read of the file-backed device never panics; it fails exactly outside the image or off block boundaries, or when the file fails; what it returns, from the read-ahead window or not, is the requested slice of the image; with a live file it succeeds. *)
Theorem file_device_reads_image {N : Type} (node_read : Z -> Z -> M N unit (list Z))
    (node_ok : N -> Prop) (F : list Z) (f : FileBlockDevice N) (addr len : Z) r f' :
  node_law node_read node_ok F -> file_ok node_ok F f -> 0 <= addr -> 0 <= len ->
  file_read node_read addr len f = (r, f') ->
  let off := addr * file_block_size f in
  r <> Panic /\ file_ok node_ok F f' /\
  (forall b, r = Ok b -> b = slice F off len /\ Z.of_nat (length b) = len) /\
  (len = 0 \/ len mod file_block_size f <> 0 \/ size f < off + len -> r = Err tt) /\
  (node_live node_read node_ok F -> 0 < len -> len mod file_block_size f = 0 -> off + len <= size f ->
    exists b, r = Ok b).
Proof.
  intros Hlaw Hok Ha Hl Hr off.
  destruct (file_read_delivers _ _ _ Hlaw f addr len r f' Hok Ha Hl Hr)
    as [(-> & -> & Hwhy) | (Hlen & Hmod & Hin & Hp & Hok' & _ & Hb & Hlive)].
  - split_and!; try done. intros _ ???. lia.
  - split_and!; try done; [lia|]. intros Hnl _ _ _. destruct (Hlive Hnl) as [b Hr']. exists b.
    destruct r; congruence.
Qed.

(** A node that hands out at most three bytes at a time. *)
Definition short_read (F : list Z) (off len : Z) : M unit unit (list Z) :=
  fun n => (Ok (slice F off (Z.min len 3)), n).

Lemma short_read_law F : node_law (short_read F) (fun _ => True) F.
Proof.
  intros n off len r n' _ Hoff Hlen [= <- <-]. split; [done|]. split; [done|]. intros c [= <-].
  unfold slice. split; [rewrite length_take; lia|]. rewrite Nat2Z.id, length_take.
  destruct (decide (Z.to_nat (Z.min len 3) <= length (drop (Z.to_nat off) F))%nat).
  - by rewrite Nat.min_l.
  - rewrite Nat.min_r by lia. rewrite !take_ge; [done|lia..].
Qed.

Lemma file_device_reads_image_witness :
  let F := Z.of_nat <$> seq 0 16 in
  let f := mkFileDev tt 16 4 4 0 [] in
  exists f', file_read (short_read F) 2 4 f = (Ok [8; 9; 10; 11], f') /\
    file_ok (fun _ => True) F f'.
Proof.
  intros F f. eexists. split; [vm_compute; reflexivity|].
  eapply (file_device_reads_image (short_read F) (fun _ => True) F f 2 4 (Ok [8; 9; 10; 11])).
  - apply short_read_law.
  - eapply (FileBlockDevice_new_ok _ _ tt 4); [done|vm_compute; discriminate|lia|vm_compute; reflexivity].
  - lia.
  - lia.
  - vm_compute. reflexivity.
Defined.
