(* ===== verification/Partition.v ===== *)
(** * The partition table (sys/fs/partition.rs, sys/fs/mbr.rs)

    The four entries of a master boot record, their bytes at offset 446, the
    signature, and the search for a partition by type.  A [[u8; 512]] is a list of
    512 bytes; the two source files have the same entry type and the same layout
    loops. *)

From Stdlib Require Import ZifyBool.
From S2P Require Import Prelude Bytes BlockDev BlockDevSpec.
Open Scope twilight_scope.

Definition MBR_SIGNATURE : list Z := [0x55; 0xAA].
Definition PARTITION_TABLE_OFFSET : nat := 446.
Definition PARTITION_ENTRY_SIZE : nat := 16.
Definition FAT32_CHS_PARTITION_TYPE : Z := 0x0B.
Definition FAT32_LBA_PARTITION_TYPE : Z := 0x0C.
Definition FAT16_CHS_PARTITION_TYPE : Z := 0x06.
Definition FAT16_LBA_PARTITION_TYPE : Z := 0x0E.
Definition EFI_SYSTEM_PARTITION_TYPE : Z := 0xEF.
Definition TWILIGHT_PARTITION_TYPE : Z := 0x99.
Definition LBA_CHS_PLACEHOLDER : list Z := [0xFE; 0xFF; 0xFF].

Record PartitionEntry := mkEntry {
  status : Z; chs_start : list Z; partition_type : Z; chs_end : list Z; lba_start : Z; sectors : Z;
}.

Definition PartitionEntry_new (st ty lba sec : Z) : PartitionEntry :=
  mkEntry st LBA_CHS_PLACEHOLDER ty LBA_CHS_PLACEHOLDER lba sec.
Definition PartitionEntry_empty : PartitionEntry := mkEntry 0 [0; 0; 0] 0 [0; 0; 0] 0 0.
Definition is_present (e : PartitionEntry) : bool :=
  negb (partition_type e =? 0) && negb (sectors e =? 0).

Definition byte_at (l : list Z) (i : nat) : Z := nth i l 0.

Definition has_signature (mbr : list Z) : bool :=
  (byte_at mbr 510 =? byte_at MBR_SIGNATURE 0) && (byte_at mbr 511 =? byte_at MBR_SIGNATURE 1).
Definition write_signature (mbr : list Z) : list Z :=
  <[511%nat := byte_at MBR_SIGNATURE 1]> (<[510%nat := byte_at MBR_SIGNATURE 0]> mbr).

(** The loop bodies of [decode_entries] and [encode_entries], at [base]. *)
Definition decode_entry (mbr : list Z) (base : nat) : PartitionEntry :=
  mkEntry (byte_at mbr base) (load (base + 1) 3 mbr) (byte_at mbr (base + 4))
    (load (base + 5) 3 mbr) (from_le (load (base + 8) 4 mbr)) (from_le (load (base + 12) 4 mbr)).
Definition encode_entry (base : nat) (e : PartitionEntry) (mbr : list Z) : list Z :=
  let mbr := store base [status e] mbr in
  let mbr := store (base + 1) (chs_start e) mbr in
  let mbr := store (base + 4) [partition_type e] mbr in
  let mbr := store (base + 5) (chs_end e) mbr in
  let mbr := store (base + 8) (to_le 4 (lba_start e)) mbr in
  store (base + 12) (to_le 4 (sectors e)) mbr.

Definition entry_base (index : nat) : nat := PARTITION_TABLE_OFFSET + index * PARTITION_ENTRY_SIZE.

Definition decode_entries (mbr : list Z) : list PartitionEntry :=
  (fun index => decode_entry mbr (entry_base index)) <$> seq 0 4.

Fixpoint encode_from (index : nat) (entries : list PartitionEntry) (mbr : list Z) : list Z :=
  match entries with
  | [] => mbr
  | e :: entries => encode_from (S index) entries (encode_entry (entry_base index) e mbr)
  end.
Definition encode_entries (mbr : list Z) (entries : list PartitionEntry) : list Z :=
  encode_from 0 entries mbr.

Definition find_entry (entries : list PartitionEntry) (ty : Z) : option PartitionEntry :=
  List.find (fun e => (partition_type e =? ty) && is_present e) entries.

(** ** [Mbr]: a boot sector and the device it came from *)

Record Mbr (D : Type) := mkMbr { mbr_buf : list Z; mbr_dev : D }.
Arguments mkMbr {D}.
Arguments mbr_buf {D}.
Arguments mbr_dev {D}.

Section mbr.
Context {D : Type} `{!BlockDeviceIO D}.

Definition Mbr_new (buf : list Z) (dev : D) : option (Mbr D) :=
  if (byte_at buf 510 =? byte_at MBR_SIGNATURE 0) && (byte_at buf 511 =? byte_at MBR_SIGNATURE 1)
  then Some (mkMbr buf dev) else None.
Definition Mbr_create_new (dev : D) : Mbr D :=
  mkMbr (<[511%nat := byte_at MBR_SIGNATURE 1]> (<[510%nat := byte_at MBR_SIGNATURE 0]> (replicate 512 0))) dev.

Definition Mbr_get_entries (m : Mbr D) : list PartitionEntry :=
  (fun index => decode_entry (mbr_buf m) (entry_base index)) <$> seq 0 4.

(** The slice of a fifth entry ends past the sector: it panics. *)
Fixpoint Mbr_encode_from (index : nat) (entries : list PartitionEntry) : M (Mbr D) unit unit :=
  match entries with
  | [] => retM tt
  | e :: entries =>
    if (512 <? entry_base index + PARTITION_ENTRY_SIZE)%nat then panicM
    else modifyM (fun m => mkMbr (encode_entry (entry_base index) e (mbr_buf m)) (mbr_dev m)) >>>
         Mbr_encode_from (S index) entries
  end.
Definition Mbr_encode_entries (entries : list PartitionEntry) : M (Mbr D) unit unit :=
  Mbr_encode_from 0 entries.

Definition Mbr_write_entries (entries : list PartitionEntry) : M (Mbr D) unit unit :=
  Mbr_encode_entries entries >>>
  m <-- getM ;;
  focusM mbr_dev (fun d m => mkMbr (mbr_buf m) d) (dev_write 0 (mbr_buf m)).

(** [detect_twilight_partition_on_device] (twilight_fs/mod.rs). *)
Definition detect_twilight_partition_on_device : M D Empty_set (option PartitionEntry) :=
  d <-- getM ;;
  if negb (dev_block_size d =? 512)%nat then retM None
  else
    sector <-- okM (dev_read 0 512%nat) ;;
    match sector with
    | None => retM None
    | Some sector =>
      if negb (has_signature sector) then retM None
      else retM (find_entry (decode_entries sector) TWILIGHT_PARTITION_TYPE)
    end.
End mbr.

(** ** Layout *)

Definition entry_ok (e : PartitionEntry) : Prop :=
  is_byte (status e) = true /\ length (chs_start e) = 3%nat /\ bytes (chs_start e) /\
  is_byte (partition_type e) = true /\ length (chs_end e) = 3%nat /\ bytes (chs_end e) /\
  in_width 32 (lba_start e) /\ in_width 32 (sectors e).

(** The sixteen bytes of an entry. *)
Definition entry_bytes (e : PartitionEntry) : list Z :=
  concat [[status e]; chs_start e; [partition_type e]; chs_end e; to_le 4 (lba_start e); to_le 4 (sectors e)].

Lemma entry_bytes_length e : entry_ok e -> length (entry_bytes e) = 16%nat.
Proof.
  intros (_ & H1 & _ & _ & H2 & _). unfold entry_bytes. cbn [concat].
  rewrite !length_app, !to_le_length. cbn. lia.
Qed.

Lemma encode_entry_store base e mbr :
  entry_ok e -> (base + 16 <= length mbr)%nat ->
  encode_entry base e mbr = store base (entry_bytes e) mbr.
Proof.
  intros (_ & H1 & _ & _ & H2 & _) Hl. unfold encode_entry, entry_bytes. cbv zeta. cbn [concat].
  rewrite app_nil_r.
  rewrite !(store_app base _ _ _ mbr) by (rewrite ?length_app, ?to_le_length; cbn [length]; lia).
  by rewrite <- !app_assoc.
Qed.

Lemma byte_at_load l i : (i < length l)%nat -> [byte_at l i] = load i 1 l.
Proof.
  intros Hi. unfold load, byte_at. destruct (lookup_lt_is_Some_2 l i Hi) as [b Hb].
  rewrite (drop_S l b i Hb), (nth_lookup_Some l i 0 b Hb). by cbn [take].
Qed.

Lemma byte_at_eq l l' i j :
  (i < length l)%nat -> (j < length l')%nat -> load i 1 l = load j 1 l' -> byte_at l i = byte_at l' j.
Proof. intros Hi Hj. rewrite <- !byte_at_load by done. by intros [=]. Qed.

(** Decoding depends on the sixteen bytes of the entry only. *)
Lemma decode_entry_load mbr base :
  (base + 16 <= length mbr)%nat -> decode_entry mbr base = decode_entry (load base 16 mbr) 0.
Proof.
  intros Hl. pose proof (load_length base 16 mbr Hl) as Hlen.
  assert (forall i n, (i + n <= 16)%nat -> load (base + i) n mbr = load i n (load base 16 mbr)) as Hsub.
  { intros i n Hi. rewrite <- (store_load base 16 mbr Hl) at 1. apply load_store_in; rewrite Hlen; lia. }
  unfold decode_entry. rewrite !Hsub by lia. f_equal; apply byte_at_eq; try lia; rewrite ?Hlen; try lia.
  - rewrite <- (Nat.add_0_r base) at 1. by apply Hsub; lia.
  - by apply Hsub; lia.
Qed.

Lemma from_to_le_u32 v : in_width 32 v -> from_le (to_le 4 v) = v.
Proof. apply (from_to_le 4). Qed.

Lemma decode_entry_bytes e : entry_ok e -> decode_entry (entry_bytes e) 0 = e.
Proof.
  intros (_ & H1 & _ & _ & H2 & _ & H3 & H4). destruct e as [st cs ty ce lba sec]; cbn in H1, H2, H3, H4.
  destruct cs as [|a1 [|a2 [|a3 [|]]]]; try done. destruct ce as [|b1 [|b2 [|b3 [|]]]]; try done.
  rewrite <- (from_to_le_u32 lba H3) at 2. by rewrite <- (from_to_le_u32 sec H4) at 2.
Qed.

(** The bytes of a decoded entry are the bytes it came from. *)
Lemma entry_bytes_decode l :
  length l = 16%nat -> bytes l -> entry_bytes (decode_entry l 0) = l.
Proof.
  intros Hl Hb. unfold entry_bytes, decode_entry. cbn [status chs_start partition_type chs_end lba_start sectors].
  cbn [concat]. rewrite !byte_at_load by lia.
  assert (forall i, (i + 4 <= 16)%nat -> to_le 4 (from_le (load i 4 l)) = load i 4 l) as Hle.
  { intros i Hi. rewrite <- (load_length i 4 l) at 1 by lia. apply to_from_le, load_bytes, Hb. }
  rewrite !Hle, app_nil_r by lia. cbn [Nat.add].
  rewrite (load_app 8 4 4 l : load 8 4 l ++ load 12 4 l = load 8 8 l).
  rewrite (load_app 5 3 8 l : load 5 3 l ++ load 8 8 l = load 5 11 l).
  rewrite (load_app 4 1 11 l : load 4 1 l ++ load 5 11 l = load 4 12 l).
  rewrite (load_app 1 3 12 l : load 1 3 l ++ load 4 12 l = load 1 15 l).
  rewrite (load_app 0 1 15 l : load 0 1 l ++ load 1 15 l = load 0 16 l).
  unfold load. rewrite drop_0. apply take_ge. lia.
Qed.

Lemma decode_entry_ok mbr base :
  (base + 16 <= length mbr)%nat -> bytes mbr -> entry_ok (decode_entry mbr base).
Proof.
  intros Hl Hb.
  assert (forall i, (i < length mbr)%nat -> is_byte (byte_at mbr i) = true) as Hbyte.
  { intros i Hi. destruct (lookup_lt_is_Some_2 mbr i Hi) as [b Hm]. unfold byte_at.
    rewrite (nth_lookup_Some _ _ _ _ Hm). by apply (Forall_lookup_1 _ _ _ _ Hb Hm). }
  assert (forall i, (i + 4 <= length mbr)%nat -> in_width 32 (from_le (load i 4 mbr))) as Hw.
  { intros i Hi. pose proof (from_le_bound (load i 4 mbr) (load_bytes _ _ _ Hb)) as Hr.
    rewrite load_length in Hr by lia. exact Hr. }
  unfold decode_entry. split_and!; cbn; try apply Hbyte; try apply Hw; try lia;
    try (apply load_length; lia); by apply load_bytes.
Qed.

(** ** The table *)

Lemma entry_base_lt index : (index < 4)%nat -> (entry_base index + 16 <= 510)%nat.
Proof. unfold entry_base, PARTITION_TABLE_OFFSET, PARTITION_ENTRY_SIZE. lia. Qed.

Lemma entry_base_S index : entry_base (S index) = (entry_base index + 16)%nat.
Proof. unfold entry_base, PARTITION_TABLE_OFFSET, PARTITION_ENTRY_SIZE. lia. Qed.

Lemma encode_entry_length base e mbr :
  entry_ok e -> (base + 16 <= length mbr)%nat -> length (encode_entry base e mbr) = length mbr.
Proof.
  intros He Hl. rewrite encode_entry_store by done. apply store_length. by rewrite entry_bytes_length.
Qed.

(** What the loop stores, and what it leaves. *)
Lemma encode_from_spec index entries mbr :
  length mbr = 512%nat -> Forall entry_ok entries -> (index + length entries <= 4)%nat ->
  length (encode_from index entries mbr) = 512%nat /\
  (forall j e, entries !! j = Some e ->
     load (entry_base (index + j)) 16 (encode_from index entries mbr) = entry_bytes e) /\
  (forall i n, (i + n <= entry_base index \/ entry_base (index + length entries) <= i)%nat ->
     load i n (encode_from index entries mbr) = load i n mbr).
Proof.
  intros Hl Hok. revert index mbr Hl.
  induction Hok as [|e entries He Hok IH]; intros index mbr Hl Hn; cbn [encode_from length] in *.
  { by split_and!. }
  pose proof (entry_base_lt index ltac:(lia)) as Hb. pose proof (entry_bytes_length e He) as He16.
  destruct (IH (S index) (encode_entry (entry_base index) e mbr)) as (IH1 & IH2 & IH3);
    [rewrite encode_entry_length; (done || lia)|lia|].
  rewrite encode_entry_store in * by (done || lia). rewrite entry_base_S in IH3.
  split; [done|]. split.
  - intros [|j] e' Hj; cbn in Hj.
    + injection Hj as <-. rewrite Nat.add_0_r, IH3 by lia.
      rewrite <- (Nat.add_0_r (entry_base index)) at 1. rewrite load_store_in by lia.
      unfold load. rewrite drop_0. apply take_ge. lia.
    + rewrite Nat.add_succ_r. by apply (IH2 j).
  - intros i n Hi. rewrite IH3.
    2: { rewrite Nat.add_succ_r in Hi. cbn [Nat.add]. lia. }
    destruct Hi as [Hi|Hi]; [apply load_store_before; lia|apply load_store_after; [|lia]].
    rewrite Nat.add_succ_r in Hi. change (S (index + length entries)) with (S index + length entries)%nat in Hi.
    unfold entry_base, PARTITION_TABLE_OFFSET, PARTITION_ENTRY_SIZE in *. lia.
Qed.

Lemma encode_entries_spec entries mbr :
  length mbr = 512%nat -> length entries = 4%nat -> Forall entry_ok entries ->
  length (encode_entries mbr entries) = 512%nat /\ decode_entries (encode_entries mbr entries) = entries /\
  load 0 446 (encode_entries mbr entries) = load 0 446 mbr /\
  load 510 2 (encode_entries mbr entries) = load 510 2 mbr.
Proof.
  intros Hl Hn Hok. destruct (encode_from_spec 0 entries mbr Hl Hok) as (H1 & H2 & H3); [lia|].
  split; [done|]. split; [|rewrite Hn in H3; split; apply H3; [by left|by right]].
  unfold decode_entries. apply list_eq. intros j. rewrite list_lookup_fmap.
  destruct (decide (j < 4)%nat) as [Hj|Hj].
  - rewrite lookup_seq_lt by lia. cbn [fmap option_fmap option_map Nat.add].
    destruct (lookup_lt_is_Some_2 entries j) as [e He]; [lia|]. rewrite He. f_equal.
    pose proof (entry_base_lt j Hj).
    rewrite decode_entry_load by (unfold encode_entries; lia).
    unfold encode_entries. rewrite (H2 j e He : load (entry_base j) 16 _ = _).
    apply decode_entry_bytes. by apply (Forall_lookup_1 _ _ _ _ Hok He).
  - rewrite lookup_seq_ge, lookup_ge_None_2 by lia. done.
Qed.

Lemma encode_decode_entry base mbr :
  (base + 16 <= length mbr)%nat -> bytes mbr -> encode_entry base (decode_entry mbr base) mbr = mbr.
Proof.
  intros Hl Hb. rewrite encode_entry_store by (done || by apply decode_entry_ok).
  rewrite decode_entry_load, entry_bytes_decode; [by apply store_load| |by apply load_bytes|done].
  by apply load_length.
Qed.

(** Decoding an encoded partition table gives the entries back, encoding the decoded table gives the sector back, and the boot code and the signature are never touched. *)
Theorem mbr_table_roundtrip (mbr : list Z) (entries : list PartitionEntry) :
  length mbr = 512%nat -> bytes mbr -> length entries = 4%nat -> Forall entry_ok entries ->
  decode_entries (encode_entries mbr entries) = entries /\
  encode_entries mbr (decode_entries mbr) = mbr /\
  load 0 446 (encode_entries mbr entries) = load 0 446 mbr /\
  load 510 2 (encode_entries mbr entries) = load 510 2 mbr.
Proof.
  intros Hl Hb Hn Hok. destruct (encode_entries_spec entries mbr Hl Hn Hok) as (_ & H1 & H2 & H3).
  split; [done|]. split; [|done]. unfold encode_entries, decode_entries. cbn [seq fmap list_fmap encode_from].
  pose proof entry_base_lt. rewrite !encode_decode_entry; auto; rewrite Hl;
    unfold entry_base, PARTITION_TABLE_OFFSET, PARTITION_ENTRY_SIZE; lia.
Qed.

Lemma mbr_table_roundtrip_witness :
  let mbr := write_signature (replicate 512 7) in
  let entries := [PartitionEntry_new 0x80 0x99 2048 100000; PartitionEntry_empty;
                  PartitionEntry_empty; PartitionEntry_new 0 0x0C 102048 4294967295] in
  decode_entries (encode_entries mbr entries) = entries /\ encode_entries mbr (decode_entries mbr) = mbr.
Proof.
  intros mbr entries.
  destruct (mbr_table_roundtrip mbr entries) as (H1 & H2 & _); [vm_compute; reflexivity| | | |exact (conj H1 H2)].
  - apply (bool_decide_unpack _). vm_compute. exact I.
  - reflexivity.
  - repeat constructor; vm_compute; intuition discriminate.
Defined.

(** ** Writing the table and finding the partition again *)

Lemma Mbr_encode_from_ok {D} index entries (m : Mbr D) :
  (index + length entries <= 4)%nat ->
  Mbr_encode_from index entries m = (Ok tt, mkMbr (encode_from index entries (mbr_buf m)) (mbr_dev m)).
Proof.
  revert index m. induction entries as [|e entries IH]; intros index m Hn; cbn [Mbr_encode_from encode_from length] in *.
  { by destruct m. }
  pose proof (entry_base_lt index ltac:(lia)). unfold PARTITION_ENTRY_SIZE.
  replace (512 <? entry_base index + 16)%nat with false by lia.
  erewrite bindM_ok by reflexivity. rewrite IH by lia. done.
Qed.

Lemma Mbr_encode_entries_too_many {D} entries (m : Mbr D) :
  (4 < length entries)%nat -> fst (Mbr_encode_entries entries m) = Panic.
Proof.
  intros Hn. destruct entries as [|e1 [|e2 [|e3 [|e4 [|e5 entries]]]]]; cbn in Hn; try lia. done.
Qed.

Lemma has_signature_ext l l' :
  length l = 512%nat -> length l' = 512%nat -> load 510 2 l = load 510 2 l' ->
  has_signature l = has_signature l'.
Proof.
  intros Hl Hl' He.
  assert (forall i, (i < 2)%nat -> byte_at l (510 + i) = byte_at l' (510 + i)) as Hi.
  { intros i Hi. apply byte_at_eq; [lia..|].
    rewrite <- (store_load 510 2 l), <- (store_load 510 2 l') by lia.
    rewrite !load_store_in by (rewrite ?load_length; lia). by rewrite He. }
  unfold has_signature. by rewrite (Hi 0%nat ltac:(lia) : byte_at l 510 = _), (Hi 1%nat ltac:(lia) : byte_at l 511 = _).
Qed.

(** After a table is written through Mbr, detection on the same device finds the first present TwilightFS entry of that table. *)
Theorem mbr_write_then_detect {D : Type} `{LawfulDev D} (m : Mbr D) (entries : list PartitionEntry) m' b d'' :
  dev_ok (mbr_dev m) -> dev_block_size (mbr_dev m) = 512%nat ->
  length (mbr_buf m) = 512%nat -> has_signature (mbr_buf m) = true ->
  length entries = 4%nat -> Forall entry_ok entries ->
  Mbr_write_entries entries m = (Ok tt, m') ->
  dev_read 0 512%nat (mbr_dev m') = (Ok b, d'') ->
  detect_twilight_partition_on_device (mbr_dev m') =
    (Ok (find_entry entries TWILIGHT_PARTITION_TYPE), d'').
Proof.
  intros Hok Hbs Hbuf Hsig Hn Hes Hw Hr. unfold Mbr_write_entries, Mbr_encode_entries in Hw.
  rewrite (bindM_ok _ _ _ _ _ (Mbr_encode_from_ok 0 entries m ltac:(lia))) in Hw.
  erewrite bindM_ok in Hw by reflexivity. cbn [mbr_buf] in Hw. unfold focusM in Hw. cbn [mbr_dev] in Hw.
  destruct (encode_entries_spec entries (mbr_buf m) Hbuf Hn Hes) as (Hl & Hdec & _ & Hs).
  unfold encode_entries in *. set (buf := encode_from 0 entries (mbr_buf m)) in *.
  destruct (dev_write 0 buf (mbr_dev m)) as [r d] eqn:Hd. injection Hw as -> <-. cbn [mbr_dev] in *.
  assert (addressable 0 1) as Ha by (split; lia).
  edestruct law_write as (Hok' & [Hg _] & _ & Hc); [exact Hok|exact Ha| |exact Hd|done|]; [by rewrite Hbs, Hl|].
  rewrite Hbs in Hg. pose proof Hr as Hr'. rewrite <- Hg, <- (Nat.mul_1_l (dev_block_size d)) in Hr'.
  edestruct law_read as (_ & _ & _ & Hb); [exact Hok'|exact Ha|exact Hr'|done|].
  assert (b = buf) as ->.
  { rewrite (Hb b eq_refl), (read_span_ext _ (write_span (contents (mbr_dev m)) 0 1 (dev_block_size (mbr_dev m)) buf)).
    - apply read_write_span. by rewrite Hbs, Hl.
    - intros x _. by apply Hc. }
  unfold detect_twilight_partition_on_device. erewrite bindM_ok by reflexivity. rewrite Hg. cbn [Nat.eqb negb].
  unfold bindM, okM. rewrite Hr. rewrite (has_signature_ext buf (mbr_buf m)), Hsig by done.
  cbn [negb]. by rewrite Hdec.
Qed.

Lemma mbr_write_then_detect_witness :
  let d := mkIdeal 512 100 (fun _ => replicate 512 0) in
  let es := [PartitionEntry_new 0 0x0C 1 9; PartitionEntry_new 0x80 0x99 10 80;
             PartitionEntry_empty; PartitionEntry_empty] in
  exists m' d'', Mbr_write_entries es (Mbr_create_new d) = (Ok tt, m') /\
    detect_twilight_partition_on_device (mbr_dev m') = (Ok (Some (PartitionEntry_new 0x80 0x99 10 80)), d'').
Proof.
  intros d es. eexists _, _. split; [reflexivity|].
  eapply (mbr_write_then_detect (Mbr_create_new d) es).
  - split; [cbn; lia|]. intros x. apply length_replicate.
  - reflexivity.
  - vm_compute. reflexivity.
  - vm_compute. reflexivity.
  - reflexivity.
  - repeat constructor; vm_compute; intuition discriminate.
  - reflexivity.
  - reflexivity.
Defined.
