(* ===== verification/TfsBlock.v ===== *)
(** * TwilightFS blocks and superblock (sys/fs/twilight_fs/mod.rs, superblock.rs)

    File-system blocks of 2048 bytes over a device of smaller sectors, the packed
    superblock, and the layout that formatting computes. *)

From Stdlib Require Import ZifyBool.
From S2P Require Import Prelude Bytes BlockDev BlockDevSpec.
Open Scope twilight_scope.

Definition FS_BLOCK_SIZE : nat := 2048.

Inductive FsError :=
| NotSupported | FileAlreadyExists | FileNotFound | InvalidPath | InvalidInode
| FileNameTooLong | FileSizeTooLarge.

Definition to_u32_saturating (value : Z) : Z := if U32_MAX <? value then U32_MAX else value.

(** ** Block transfers *)

Section blocks.
Context {D : Type} `{!BlockDeviceIO D}.

Definition bad_tfs_transfer (device_block_size len : nat) : bool :=
  (device_block_size =? 0)%nat || negb (FS_BLOCK_SIZE mod device_block_size =? 0)%nat ||
  negb (len mod device_block_size =? 0)%nat.

Definition read_tfs_blocks (start_block_no : Z) (len : nat) : M D FsError (list Z) :=
  d <-- getM ;;
  let device_block_size := dev_block_size d in
  if bad_tfs_transfer device_block_size len then failM InvalidInode
  else
    let blocks_per_fs_block := (FS_BLOCK_SIZE / device_block_size)%nat in
    match checked_mul start_block_no (Z.of_nat blocks_per_fs_block) with
    | None => failM InvalidInode
    | Some start_device_block =>
      map_errM (fun _ => InvalidInode) (dev_read_blocks (u32 start_device_block) len)
    end.
Definition read_tfs_block (block_no : Z) : M D FsError (list Z) :=
  read_tfs_blocks block_no FS_BLOCK_SIZE.

Definition write_tfs_blocks (start_block_no : Z) (buf : list Z) : M D FsError unit :=
  d <-- getM ;;
  let device_block_size := dev_block_size d in
  if bad_tfs_transfer device_block_size (length buf) then failM InvalidInode
  else
    let blocks_per_fs_block := (FS_BLOCK_SIZE / device_block_size)%nat in
    match checked_mul start_block_no (Z.of_nat blocks_per_fs_block) with
    | None => failM InvalidInode
    | Some start_device_block =>
      map_errM (fun _ => InvalidInode) (dev_write_blocks (u32 start_device_block) buf)
    end.
Definition write_tfs_block (block_no : Z) (buf : list Z) : M D FsError unit :=
  write_tfs_blocks block_no buf.
End blocks.

(** ** The superblock *)

Definition MAGIC : list Z := [84; 70; 83; 48].

Record Superblock := mkSuperblock {
  ninodes : Z; pad1 : Z; imap_blocks : Z; zmap_blocks : Z; first_data_zone : Z;
  log_zone_size : Z; pad2 : Z; max_size : Z; zones : Z; magic : Z; pad3 : Z;
  sb_block_size : Z; subversion : Z;
}.

Definition is_valid (sb : Superblock) : bool :=
  (magic sb =? from_le MAGIC) && (subversion sb =? 0).

(** [#[repr(C, packed)]]: the fields one after the other, 39 bytes. *)
Definition sb_bytes (sb : Superblock) : list Z :=
  concat [to_le 4 (ninodes sb); to_le 2 (pad1 sb); to_le 4 (imap_blocks sb); to_le 4 (zmap_blocks sb);
          to_le 4 (first_data_zone sb); to_le 2 (log_zone_size sb); to_le 2 (pad2 sb);
          to_le 4 (max_size sb); to_le 4 (zones sb); to_le 4 (magic sb); to_le 2 (pad3 sb);
          to_le 2 (sb_block_size sb); to_le 1 (subversion sb)].
Definition sb_decode (b : list Z) : Superblock :=
  let f off n := from_le (load off n b) in
  (mkSuperblock (f 0 4) (f 4 2) (f 6 4) (f 10 4) (f 14 4) (f 18 2) (f 20 2) (f 22 4) (f 26 4)
    (f 30 4) (f 34 2) (f 36 2) (f 38 1))%nat.

Definition div_ceil (u d : Z) : Z := (u + d - 1) / d.

Definition inode_size : Z := 204.
Definition bits_per_block : Z := 16384.

(** The loop that settles the size of the zone map and the first data zone. *)
Fixpoint layout_loop (n : nat) (fixed total_zones zmap first : Z) : Z * Z :=
  match n with
  | O => (zmap, first)
  | S n =>
    let new_first := div_ceil (fixed + zmap) 1 in
    let data_zones := saturating_sub total_zones new_first in
    let new_zmap := div_ceil data_zones bits_per_block in
    if (new_first =? first) && (new_zmap =? zmap) then (zmap, first)
    else layout_loop n fixed total_zones new_zmap new_first
  end.

(** The geometry computed by [Superblock::write]; a sector size of zero or above
    a block divides by zero. *)
Definition superblock_layout (dev_sector_size partition_sector_count : Z) : option Superblock :=
  if dev_sector_size =? 0 then None
  else
    let sectors_per_fs_block := Z.of_nat FS_BLOCK_SIZE / dev_sector_size in
    if sectors_per_fs_block =? 0 then None
    else
      let total_zones := partition_sector_count / sectors_per_fs_block in
      let total_bytes := partition_sector_count * dev_sector_size in
      let inodes := Z.max (total_bytes / 16384) 1 in
      let imap := div_ceil inodes bits_per_block in
      let inode_blocks := div_ceil (inodes * inode_size) (Z.of_nat FS_BLOCK_SIZE) in
      let '(zmap, first) := layout_loop 4 (1 + imap + inode_blocks) total_zones 0 0 in
      Some (mkSuperblock (u32 inodes) 0 (u32 imap) (u32 zmap) (u32 first) 0 0 0x7FFFFFFF
              (u32 total_zones) (from_le MAGIC) 0 (Z.of_nat FS_BLOCK_SIZE) 0).

Section superblock.
Context {D : Type} `{!BlockDeviceIO D}.

Definition Superblock_write (partition_sector_count : Z) : M D string Superblock :=
  d <-- getM ;;
  match superblock_layout (Z.of_nat (dev_block_size d)) partition_sector_count with
  | None => panicM
  | Some sb =>
    map_errM (fun _ => "ERROR: write failed while writing superblock")
      (write_tfs_block 0 (store 0 (sb_bytes sb) (replicate FS_BLOCK_SIZE 0))) >>>
    retM sb
  end.

Definition read_superblock : M D string Superblock :=
  buf <-- map_errM (fun _ => "Failed to read TwilightFS superblock") (read_tfs_block 0) ;;
  let sb := sb_decode buf in
  if is_valid sb then retM sb else failM "Invalid TwiligtFS magic".
End superblock.

(** ** File-system blocks of a lawful device *)

Section block_laws.
Context {D : Type} `{!BlockDeviceIO D} `{!LawfulDev D}.
Implicit Types d : D.

Definition per_block (d : D) : nat := (FS_BLOCK_SIZE / dev_block_size d)%nat.
Definition fs_block (d : D) (n : Z) : list Z :=
  read_span (contents d) (n * Z.of_nat (per_block d)) (per_block d).
Definition fs_dev_ok (d : D) : Prop := dev_ok d /\ (FS_BLOCK_SIZE mod dev_block_size d = 0)%nat.

(** Block [n] has [u32] sector numbers. *)
Definition fs_addr (d : D) (n : Z) : Prop := 0 <= n /\ (n + 1) * Z.of_nat (per_block d) <= 2 ^ 32.

Lemma per_block_mul d : fs_dev_ok d -> (per_block d * dev_block_size d)%nat = FS_BLOCK_SIZE.
Proof.
  intros [Hok Hm]. pose proof (law_size d Hok). unfold per_block.
  pose proof (Nat.div_mod FS_BLOCK_SIZE (dev_block_size d) ltac:(lia)). lia.
Qed.

Lemma per_block_pos d : fs_dev_ok d -> (0 < per_block d)%nat.
Proof. intros Hd. pose proof (per_block_mul d Hd) as Hm. unfold FS_BLOCK_SIZE in Hm. lia. Qed.

Lemma fs_block_length d n : fs_dev_ok d -> length (fs_block d n) = FS_BLOCK_SIZE.
Proof.
  intros Hd. unfold fs_block. rewrite (read_span_length _ (dev_block_size d)).
  - by apply per_block_mul.
  - intros x. apply law_contents, Hd.
Qed.

(** The device after an operation that wrote at most block [n]. *)
Definition fs_same (d d' : D) : Prop :=
  fs_dev_ok d' /\ same_geometry d d' /\ forall m, fs_block d' m = fs_block d m.
Definition fs_only (n : Z) (d d' : D) : Prop :=
  fs_dev_ok d' /\ same_geometry d d' /\ forall m, m <> n -> fs_block d' m = fs_block d m.

Lemma same_geometry_per_block d d' : same_geometry d d' -> per_block d' = per_block d.
Proof. intros [Hg _]. unfold per_block. by rewrite Hg. Qed.

Lemma fs_addr_geometry d d' n : same_geometry d d' -> fs_addr d n -> fs_addr d' n.
Proof. intros Hg. unfold fs_addr. by rewrite (same_geometry_per_block d d' Hg). Qed.

Lemma fs_same_refl d : fs_dev_ok d -> fs_same d d.
Proof. intros. by split; [|split]. Qed.

Lemma fs_same_only n d d' : fs_same d d' -> fs_only n d d'.
Proof. intros (?&?&Hs). split_and!; auto. Qed.

Lemma fs_only_trans n d1 d2 d3 : fs_only n d1 d2 -> fs_only n d2 d3 -> fs_only n d1 d3.
Proof.
  intros (_ & Hg1 & H1) (Hok & Hg2 & H2). split; [done|]. split; [by eapply same_geometry_trans|].
  intros m Hm. by rewrite H2, H1.
Qed.

Lemma transfer_ok d : fs_dev_ok d -> bad_tfs_transfer (dev_block_size d) FS_BLOCK_SIZE = false.
Proof.
  intros [Hok Hm]. pose proof (law_size d Hok). unfold bad_tfs_transfer. rewrite Hm.
  destruct (dev_block_size d); [lia|done].
Qed.

Lemma sector_checked d n :
  fs_addr d n ->
  checked_mul n (Z.of_nat (per_block d)) = Some (n * Z.of_nat (per_block d)) /\
  (fs_dev_ok d -> u32 (n * Z.of_nat (per_block d)) = n * Z.of_nat (per_block d) /\
   addressable (n * Z.of_nat (per_block d)) (per_block d)).
Proof.
  intros [Hn Ha]. unfold checked_mul. split.
  - replace (n * Z.of_nat (per_block d) <=? U64_MAX) with true; [done|]. unfold U64_MAX. nia.
  - intros Hd. pose proof (per_block_pos d Hd). split; [apply u32_small; nia|split; nia].
Qed.

Lemma read_tfs_block_spec d n r d' :
  fs_dev_ok d -> fs_addr d n -> read_tfs_block n d = (r, d') -> r <> Panic ->
  fs_same d d' /\ (forall b, r = Ok b -> b = fs_block d n).
Proof.
  intros Hd Ha Hr Hp. unfold read_tfs_block, read_tfs_blocks in Hr. erewrite bindM_ok in Hr by reflexivity.
  cbv zeta in Hr. rewrite transfer_ok in Hr by done. destruct (sector_checked d n Ha) as [Hc Hu].
  destruct (Hu Hd) as [Hu' Hadr]. fold (per_block d) in Hr. rewrite Hc, Hu' in Hr.
  rewrite <- (per_block_mul d Hd) in Hr. unfold map_errM in Hr.
  destruct (dev_read_blocks _ _ d) as [r1 d1] eqn:Hrd.
  edestruct law_read_blocks as (Hok' & Hg & Hs & Hb);
    [apply per_block_pos, Hd|apply Hd|exact Hadr|exact Hrd|by destruct r1; simplify_eq|].
  assert (fs_same d d1) as Hsame.
  { split; [split; [done|]; rewrite (proj1 Hg); apply Hd|]. split; [done|]. intros m. unfold fs_block.
    rewrite (same_geometry_per_block d d1 Hg). by apply read_span_ext. }
  destruct r1 as [b|e|]; injection Hr as <- <-; [|done..]. split; [done|]. intros b' [= <-]. by apply Hb.
Qed.

(** The sectors of different blocks are different. *)
Lemma sectors_disjoint (k : nat) m n x :
  m <> n -> m * Z.of_nat k <= x < m * Z.of_nat k + Z.of_nat k ->
  ~ (n * Z.of_nat k <= x < n * Z.of_nat k + Z.of_nat k).
Proof. intros Hne Hx Hy. assert (m < n \/ n < m) by lia. nia. Qed.

Lemma write_tfs_block_spec d n buf r d' :
  fs_dev_ok d -> fs_addr d n -> length buf = FS_BLOCK_SIZE ->
  write_tfs_block n buf d = (r, d') -> r <> Panic ->
  fs_only n d d' /\ (r = Ok tt -> fs_block d' n = buf).
Proof.
  intros Hd Ha Hl Hr Hp. unfold write_tfs_block, write_tfs_blocks in Hr.
  erewrite bindM_ok in Hr by reflexivity. cbv zeta in Hr. rewrite Hl, transfer_ok in Hr by done.
  destruct (sector_checked d n Ha) as [Hc Hu]. destruct (Hu Hd) as [Hu' Hadr].
  fold (per_block d) in Hr. rewrite Hc, Hu' in Hr. unfold map_errM in Hr.
  destruct (dev_write_blocks _ _ d) as [r1 d1] eqn:Hrd.
  edestruct law_write_blocks as (Hok' & Hg & Hs & Hb);
    [apply per_block_pos, Hd|apply Hd|exact Hadr|by rewrite per_block_mul|exact Hrd|by destruct r1; simplify_eq|].
  assert (fs_only n d d1) as Honly.
  { split; [split; [done|]; rewrite (proj1 Hg); apply Hd|]. split; [done|]. intros m Hm. unfold fs_block.
    rewrite (same_geometry_per_block d d1 Hg). apply read_span_ext. intros x Hx. apply Hs.
    by eapply sectors_disjoint. }
  destruct r1 as [[]|e|]; injection Hr as <- <-; [|done..]. split; [done|]. intros _.
  unfold fs_block. rewrite (same_geometry_per_block d d1 Hg).
  rewrite (read_span_ext _ _ _ _ (fun x _ => Hb eq_refl x)).
  apply read_write_span. by rewrite per_block_mul.
Qed.
End block_laws.

(** Inside a reliable device the transfers succeed. *)
Section block_total.
Context {D : Type} `{ReliableDev D}.

Definition fs_in_range (d : D) (n : Z) : Prop :=
  0 <= n /\ (n + 1) * Z.of_nat (per_block d) <= Z.of_nat (dev_block_count d).

Lemma read_tfs_block_total d n :
  fs_dev_ok d -> fs_addr d n -> fs_in_range d n -> exists d', read_tfs_block n d = (Ok (fs_block d n), d').
Proof.
  intros Hd Ha [Hn Hr]. unfold read_tfs_block, read_tfs_blocks. erewrite bindM_ok by reflexivity.
  cbv zeta. rewrite transfer_ok by done. destruct (sector_checked d n Ha) as [Hc Hu].
  destruct (Hu Hd) as [Hu' Hadr]. fold (per_block d). rewrite Hc, Hu', <- (per_block_mul d Hd).
  pose proof (per_block_pos d Hd) as Hk.
  destruct (law_read_total _ _ Hk d (proj1 Hd) Hadr ltac:(lia)) as (b & d' & Hb).
  edestruct law_read_blocks as (_ & _ & _ & Hc'); [exact Hk|apply Hd|exact Hadr|exact Hb|done|].
  unfold map_errM. rewrite Hb. exists d'. by rewrite (Hc' b eq_refl).
Qed.

Lemma write_tfs_block_total d n buf :
  fs_dev_ok d -> fs_addr d n -> fs_in_range d n -> length buf = FS_BLOCK_SIZE ->
  exists d', write_tfs_block n buf d = (Ok tt, d').
Proof.
  intros Hd Ha [Hn Hr] Hl. unfold write_tfs_block, write_tfs_blocks. erewrite bindM_ok by reflexivity.
  cbv zeta. rewrite Hl, transfer_ok by done. destruct (sector_checked d n Ha) as [Hc Hu].
  destruct (Hu Hd) as [Hu' Hadr]. fold (per_block d). rewrite Hc, Hu'.
  pose proof (per_block_pos d Hd) as Hk.
  destruct (law_write_total _ _ Hk d buf (proj1 Hd) Hadr ltac:(lia)) as (d' & Hb);
    [by rewrite per_block_mul|].
  unfold map_errM. rewrite Hb. by exists d'.
Qed.
End block_total.

(** ** The superblock on disk *)

Definition sb_ok (sb : Superblock) : Prop :=
  in_width 32 (ninodes sb) /\ in_width 16 (pad1 sb) /\ in_width 32 (imap_blocks sb) /\
  in_width 32 (zmap_blocks sb) /\ in_width 32 (first_data_zone sb) /\ in_width 16 (log_zone_size sb) /\
  in_width 16 (pad2 sb) /\ in_width 32 (max_size sb) /\ in_width 32 (zones sb) /\ in_width 32 (magic sb) /\
  in_width 16 (pad3 sb) /\ in_width 16 (sb_block_size sb) /\ in_width 8 (subversion sb).

Lemma sb_bytes_length sb : length (sb_bytes sb) = 39%nat.
Proof. done. Qed.

Lemma sb_decode_bytes sb rest : sb_ok sb -> sb_decode (sb_bytes sb ++ rest) = sb.
Proof.
  intros (H1&H2&H3&H4&H5&H6&H7&H8&H9&H10&H11&H12&H13). destruct sb; cbn in *.
  assert (forall n v, in_width (8 * Z.of_nat n) v -> from_le (to_le n v) = v) as Hle.
  { intros n v Hv. apply from_to_le. unfold in_width in Hv.
    replace 256 with (2 ^ 8) by done. by rewrite <- Z.pow_mul_r by lia. }
  unfold sb_decode.
  f_equal; solve [by apply (Hle 4%nat) | by apply (Hle 2%nat) | by apply (Hle 1%nat)].
Qed.

Lemma u32_width z : in_width 32 (u32 z).
Proof. apply Z.mod_pos_bound. lia. Qed.

Lemma superblock_layout_ok ss n sb : superblock_layout ss n = Some sb -> sb_ok sb /\ is_valid sb = true.
Proof.
  unfold superblock_layout. intros Hs. do 2 (case_if; [done|]). destruct (layout_loop _ _ _ _ _) as [zmap first].
  injection Hs as <-. split; [|done]. split_and!; try apply u32_width; by (cbv; split; intros).
Qed.

(** ** The layout *)

Lemma div_ceil_1 x : div_ceil x 1 = x.
Proof. unfold div_ceil. rewrite Z.div_1_r. lia. Qed.

Lemma div_ceil_bound x d : 0 < d -> x <= div_ceil x d * d < x + d.
Proof.
  intros Hd. unfold div_ceil. pose proof (Z.div_mod (x + d - 1) d ltac:(lia)).
  pose proof (Z.mod_pos_bound (x + d - 1) d Hd). nia.
Qed.

Lemma div_ceil_mono x y d : 0 < d -> x <= y -> div_ceil x d <= div_ceil y d.
Proof. intros. apply Z.div_le_mono; lia. Qed.

Lemma div_ceil_nonneg x d : 0 < d -> 0 <= x -> 0 <= div_ceil x d.
Proof. intros. apply Z.div_pos; lia. Qed.

(** The zone map for the zones that [z] blocks of zone map would leave. *)
Definition zmap_for (fixed total z : Z) : Z :=
  div_ceil (saturating_sub total (fixed + z)) bits_per_block.

Lemma zmap_for_nonneg fixed total z : 0 <= zmap_for fixed total z.
Proof. apply div_ceil_nonneg; unfold saturating_sub, bits_per_block; lia. Qed.

Lemma zmap_for_antitone fixed total z z' :
  z <= z' -> zmap_for fixed total z' <= zmap_for fixed total z.
Proof. intros. apply div_ceil_mono; unfold saturating_sub, bits_per_block; lia. Qed.

Lemma layout_loop_S n fixed total z f :
  layout_loop (S n) fixed total z f =
  (if (fixed + z =? f) && (zmap_for fixed total z =? z) then (z, f)
   else layout_loop n fixed total (zmap_for fixed total z) (fixed + z)).
Proof. cbn [layout_loop]. unfold zmap_for. by rewrite !div_ceil_1. Qed.

(** Four rounds: the map fits before the first data zone and covers the zones after it. *)
Lemma layout_loop_sound fixed total zmap first :
  0 < fixed -> layout_loop 4 fixed total 0 0 = (zmap, first) ->
  0 <= zmap /\ fixed + zmap <= first /\ zmap = div_ceil (saturating_sub total first) bits_per_block /\
  first <= fixed + zmap_for fixed total 0.
Proof.
  intros Hf. rewrite !layout_loop_S. cbn [layout_loop].
  set (g := zmap_for fixed total).
  pose proof (zmap_for_nonneg fixed total) as Hg0. pose proof (zmap_for_antitone fixed total) as Hga. fold g in Hg0, Hga.
  pose proof (Hga 0 (g 0) (Hg0 0)) as H1. pose proof (Hga (g (g 0)) (g 0) H1) as H2.
  pose proof (Hga _ _ H2) as H3. pose proof (Hga 0 (g (g 0)) (Hg0 _)) as H4.
  pose proof (Hg0 0). pose proof (Hg0 (g 0)). pose proof (Hg0 (g (g 0))). pose proof (Hg0 (g (g (g 0)))).
  assert (forall z, div_ceil (saturating_sub total (fixed + z)) bits_per_block = g z) as Hgz by done.
  intros Hr. repeat (case_if; [injection Hr as <- <-|]); try lia; try (injection Hr as <- <-);
    rewrite Hgz; lia.
Qed.

(** The fields of a layout. *)
Lemma superblock_layout_fields (ss n : Z) (sb : Superblock) :
  0 < ss <= Z.of_nat FS_BLOCK_SIZE -> 0 <= n < 2 ^ 32 -> superblock_layout ss n = Some sb ->
  let fixed := 1 + imap_blocks sb + div_ceil (ninodes sb * inode_size) (Z.of_nat FS_BLOCK_SIZE) in
  sb_block_size sb = 2048 /\ zones sb = n / (Z.of_nat FS_BLOCK_SIZE / ss) /\ ninodes sb = Z.max (n * ss / 16384) 1 /\
  imap_blocks sb = div_ceil (ninodes sb) bits_per_block /\ 0 <= zmap_blocks sb /\
  zmap_blocks sb = div_ceil (saturating_sub (zones sb) (first_data_zone sb)) bits_per_block /\
  fixed + zmap_blocks sb <= first_data_zone sb <= fixed + zmap_for fixed (zones sb) 0 /\ 0 <= zones sb <= n /\ 1 <= ninodes sb <= 2 ^ 29.
Proof.
  unfold superblock_layout. intros Hss Hn Hs. do 2 (case_if; [done|]).
  set (spb := Z.of_nat FS_BLOCK_SIZE / ss) in *.
  set (inodes := Z.max (n * ss / 16384) 1) in *. set (imap := div_ceil inodes bits_per_block) in *.
  set (tbl := div_ceil (inodes * inode_size) (Z.of_nat FS_BLOCK_SIZE)) in *.
  assert (1 <= spb) as Hspb by (assert (0 <= spb) by (apply Z.div_pos; lia); lia).
  assert (0 <= n / spb <= n) as Hz by (split; [apply Z.div_pos|apply Z.div_le_upper_bound]; nia).
  assert (1 <= inodes <= 2 ^ 29) as Hi.
  { assert (n * ss / 16384 <= 2 ^ 29) by (apply Z.div_le_upper_bound; unfold FS_BLOCK_SIZE in *; nia). lia. }
  pose proof (div_ceil_bound inodes bits_per_block) as Hb1. fold imap in Hb1.
  pose proof (div_ceil_bound (inodes * inode_size) (Z.of_nat FS_BLOCK_SIZE)) as Hb2. fold tbl in Hb2.
  destruct (layout_loop _ _ _ _ _) as [zmap first] eqn:Hloop.
  unfold bits_per_block, inode_size, FS_BLOCK_SIZE in *.
  apply layout_loop_sound in Hloop as (Hz0 & Hfit & Hcov & Hmax); [|lia].
  pose proof (div_ceil_bound (saturating_sub (n / spb) first) 16384 ltac:(lia)) as Hb3.
  pose proof (div_ceil_bound (saturating_sub (n / spb) (1 + imap + tbl + 0)) 16384 ltac:(lia)) as Hb4.
  unfold zmap_for, bits_per_block in *. unfold saturating_sub in *.
  injection Hs as <-. cbn [ninodes imap_blocks zmap_blocks first_data_zone zones sb_block_size].
  rewrite !u32_small by lia. fold imap tbl. split_and!; lia.
Qed.

(** C35. For every partition size, the computed layout has an inode map that covers the inodes, a zone map that covers the data zones, room for the maps and the sized inode table before the first data zone, and no more blocks than the partition. *)
Theorem superblock_layout_sound (ss n : Z) (sb : Superblock) :
  0 < ss <= Z.of_nat FS_BLOCK_SIZE -> 0 <= n < 2 ^ 32 -> superblock_layout ss n = Some sb ->
  1 <= ninodes sb <= imap_blocks sb * bits_per_block /\
  1 + imap_blocks sb + zmap_blocks sb + div_ceil (ninodes sb * inode_size) (Z.of_nat FS_BLOCK_SIZE)
    <= first_data_zone sb /\
  zones sb - first_data_zone sb <= zmap_blocks sb * bits_per_block /\
  zones sb * (Z.of_nat FS_BLOCK_SIZE / ss) <= n.
Proof.
  intros Hss Hn Hs. destruct (superblock_layout_fields ss n sb Hss Hn Hs) as (_ & Hz & _ & Hi & Hz0 & Hcov & Hfit & Hzn & Hin).
  pose proof (div_ceil_bound (ninodes sb) bits_per_block ltac:(done)) as Hb1. rewrite <- Hi in Hb1.
  pose proof (div_ceil_bound (saturating_sub (zones sb) (first_data_zone sb)) bits_per_block ltac:(done)) as Hb2.
  rewrite <- Hcov in Hb2. unfold saturating_sub, bits_per_block in *.
  assert (Hspb : 0 < Z.of_nat FS_BLOCK_SIZE / ss) by (apply Z.div_str_pos; lia).
  pose proof (Z.mul_div_le n (Z.of_nat FS_BLOCK_SIZE / ss) Hspb). rewrite Hz at 2. lia.
Qed.

Lemma superblock_layout_sound_witness :
  exists sb, superblock_layout 512 81920 = Some sb /\
    1 + imap_blocks sb + zmap_blocks sb + div_ceil (ninodes sb * inode_size) (Z.of_nat FS_BLOCK_SIZE)
      <= first_data_zone sb.
Proof.
  eexists. split; [vm_compute; reflexivity|].
  eapply (superblock_layout_sound 512 81920); [vm_compute; intuition discriminate|lia|vm_compute; reflexivity].
Defined.

(** Formatting a reliable device writes block 0 only, and mounting reads back the same superblock. *)
Theorem superblock_roundtrip {D : Type} `{ReliableDev D} (d : D) (n : Z) (sb : Superblock) :
  fs_dev_ok d -> fs_addr d 0 -> fs_in_range d 0 ->
  superblock_layout (Z.of_nat (dev_block_size d)) n = Some sb ->
  exists d' d'', Superblock_write n d = (Ok sb, d') /\ read_superblock d' = (Ok sb, d'') /\
    fs_only 0 d d' /\ fs_same d' d''.
Proof.
  intros Hd Ha Hr Hs. set (buf := store 0 (sb_bytes sb) (replicate FS_BLOCK_SIZE 0)).
  assert (length buf = FS_BLOCK_SIZE) as Hl
    by (unfold buf; rewrite store_length, length_replicate; [done|rewrite length_replicate, sb_bytes_length; unfold FS_BLOCK_SIZE; lia]).
  destruct (write_tfs_block_total d 0 buf Hd Ha Hr Hl) as (d' & Hw).
  destruct (write_tfs_block_spec d 0 buf (Ok tt) d' Hd Ha Hl Hw) as [Ho Hb]; [done|].
  pose proof Ho as (Hd' & Hg & _). pose proof (fs_addr_geometry d d' 0 Hg Ha) as Ha'.
  destruct (read_tfs_block_total d' 0 Hd' Ha') as (d'' & Hr').
  { unfold fs_in_range in *. by rewrite (same_geometry_per_block d d' Hg), (proj2 Hg). }
  destruct (read_tfs_block_spec d' 0 _ _ Hd' Ha' Hr') as [Hsame _]; [done|].
  rewrite Hb in Hr' by done. exists d', d''. destruct (superblock_layout_ok _ _ _ Hs) as [Hok Hv].
  unfold Superblock_write, read_superblock, bindM, getM, map_errM. rewrite Hs.
  fold buf. rewrite Hw, Hr'. split; [done|]. split; [|done].
  cbv zeta. unfold buf, store. by rewrite take_0, app_nil_l, sb_decode_bytes, Hv.
Qed.

Lemma superblock_roundtrip_witness :
  let d := mkIdeal 512 4096 (fun _ => replicate 512 0) in
  exists sb d' d'', superblock_layout 512 4096 = Some sb /\
    Superblock_write 4096 d = (Ok sb, d') /\ read_superblock d' = (Ok sb, d'').
Proof.
  intros d. eexists.
  edestruct (superblock_roundtrip d 4096) as (d' & d'' & Hw & Hr & _);
    [..|exists d', d''; split; [|split; [exact Hw|exact Hr]]].
  - split; [|done]. split; [cbn; lia|]. intros x. apply length_replicate.
  - split; [lia|]. vm_compute. discriminate.
  - split; [lia|]. vm_compute. discriminate.
  - vm_compute. reflexivity.
  - reflexivity.
Defined.
