(* ===== verification/TfsAlloc.v ===== *)
(** * TwilightFS allocation (sys/fs/twilight_fs/mod.rs)

    The zone map and the inode map on disk: [allocate_zone], [allocate_zones],
    [allocate_inode], [dealloc_zone] and [dealloc_inode].  The abstract state of a
    map is its bits, a predicate on indices.  [TwilightFs] keeps the superblock it
    was mounted with, so it is a parameter; the device is the state. *)

From Stdlib Require Import ZifyBool.
From S2P Require Import Prelude Bytes BlockDev BlockDevSpec TfsBlock.
Open Scope twilight_scope.

Inductive TfsError :=
| TfsInvalidPath | TfsFileNotFound | TfsFileAlreadyExists | TfsFileNameTooLong
| NoSpaceLeft | IoError | TfsInvalidInode | InvalidZone.

(** ** Scanning and updating a map block *)

Definition bit_clear (byte : Z) (bit : nat) : bool := Z.land byte (Z.shiftl 1 (Z.of_nat bit)) =? 0.
Definition map_set_bit (byte : Z) (bit : nat) : Z := Z.lor byte (Z.shiftl 1 (Z.of_nat bit)).
Definition map_clear_bit (byte : Z) (bit : nat) : Z :=
  Z.land byte (Z.lxor 0xFF (Z.shiftl 1 (Z.of_nat bit))).

(** [if byte != 0xFF { for bit in 0..8 { if byte & (1 << bit) == 0 .. } }] *)
Definition first_zero_bit (byte : Z) : option nat :=
  if byte =? 0xFF then None else List.find (bit_clear byte) (seq 0 8).

Fixpoint scan_bytes (byte_idx : nat) (buf : list Z) : option (nat * nat) :=
  match buf with
  | [] => None
  | b :: buf => match first_zero_bit b with
                | Some bit => Some (byte_idx, bit)
                | None => scan_bytes (S byte_idx) buf
                end
  end.

(** The same scan, skipping to the next byte when the index is not below [limit]. *)
Fixpoint scan_below (limit base : Z) (byte_idx : nat) (buf : list Z) : option (nat * nat) :=
  match buf with
  | [] => None
  | b :: buf => match first_zero_bit b with
                | Some bit => if limit <=? base + Z.of_nat (byte_idx * 8) + Z.of_nat bit
                              then scan_below limit base (S byte_idx) buf
                              else Some (byte_idx, bit)
                | None => scan_below limit base (S byte_idx) buf
                end
  end.

Section alloc.
Context {D : Type} `{!BlockDeviceIO D} (sb : Superblock).

Definition map_bits : Z := sb_block_size sb * 8.
Definition max_data_zones : Z := saturating_sub (zones sb) (first_data_zone sb).

Definition io {A} (m : M D FsError A) : M D TfsError A := map_errM (fun _ => IoError) m.

Fixpoint allocate_zone_loop (n : nat) (i : Z) : M D TfsError Z :=
  match n with
  | O => failM NoSpaceLeft
  | S n =>
    let zmap_start := u32 (imap_blocks sb + 1) in
    buf <-- io (read_tfs_block (u32 (zmap_start + i))) ;;
    match scan_bytes 0 buf with
    | None => allocate_zone_loop n (i + 1)
    | Some (byte_idx, bit) =>
      let zone := u32 (u32 (i * u32 map_bits) + Z.of_nat (byte_idx * 8 + bit)) in
      if max_data_zones <=? zone then failM NoSpaceLeft
      else
        io (write_tfs_block (u32 (zmap_start + i))
              (alter (fun b => map_set_bit b bit) byte_idx buf)) >>>
        retM (u32 (zone + first_data_zone sb))
    end
  end.
Definition allocate_zone : M D TfsError Z :=
  allocate_zone_loop (Z.to_nat (zmap_blocks sb)) 0.

(** The scan reads [buf[byte_idx]] for [byte_idx] below the recorded block size. *)
Fixpoint allocate_inode_loop (n : nat) (block_idx : Z) : M D TfsError Z :=
  match n with
  | O => failM NoSpaceLeft
  | S n =>
    let imap_block_lba := u32 (1 + block_idx) in
    buf <-- io (read_tfs_block imap_block_lba) ;;
    match scan_below (ninodes sb) (block_idx * map_bits) 0 (take (Z.to_nat (sb_block_size sb)) buf) with
    | None => if Z.of_nat (length buf) <? sb_block_size sb then panicM
              else allocate_inode_loop n (block_idx + 1)
    | Some (byte_idx, bit) =>
      io (write_tfs_block imap_block_lba (alter (fun b => map_set_bit b bit) byte_idx buf)) >>>
      retM (u32 (block_idx * map_bits + Z.of_nat (byte_idx * 8) + Z.of_nat bit))
    end
  end.
Definition allocate_inode : M D TfsError Z :=
  allocate_inode_loop (Z.to_nat (imap_blocks sb)) 0.

(** Clear bit [bit_index] of map block [block]. *)
Definition clear_map_bit (block bit_index : Z) : M D TfsError unit :=
  buf <-- io (read_tfs_block block) ;;
  let byte_index := Z.to_nat (bit_index / 8) in
  if Z.of_nat (length buf) <=? bit_index / 8 then panicM
  else io (write_tfs_block block (alter (fun b => map_clear_bit b (Z.to_nat (bit_index mod 8))) byte_index buf)).

Definition dealloc_zone (zone : Z) : M D TfsError unit :=
  let first_zone := first_data_zone sb in
  if zone <? first_zone then failM InvalidZone
  else if map_bits =? 0 then panicM
  else
    let relative_zone := zone - first_zone in
    let block_index := relative_zone / map_bits in
    if zmap_blocks sb <=? block_index then failM InvalidZone
    else
      let zmap_start := u32 (1 + imap_blocks sb) in
      clear_map_bit (u32 (zmap_start + u32 block_index)) (relative_zone mod map_bits).

Definition dealloc_inode (inode : Z) : M D TfsError unit :=
  if (inode =? 0) || (ninodes sb <? inode) then failM TfsInvalidInode
  else if map_bits =? 0 then panicM
  else
    let inode_index := inode - 1 in
    clear_map_bit (u32 (1 + u32 (inode_index / map_bits))) (inode_index mod map_bits).
End alloc.

(** ** Bits of a map block *)

Definition block_bit (buf : list Z) (j : Z) : bool := Z.testbit (nth (Z.to_nat (j / 8)) buf 0) (j mod 8).

Lemma bit_clear_spec byte bit : bit_clear byte bit = negb (Z.testbit byte (Z.of_nat bit)).
Proof.
  unfold bit_clear. rewrite Z.shiftl_1_l. destruct (Z.testbit byte (Z.of_nat bit)) eqn:Hb; cbn.
  - apply Z.eqb_neq. intros H0. apply (f_equal (fun z => Z.testbit z (Z.of_nat bit))) in H0.
    by rewrite Z.land_spec, Hb, Z.pow2_bits_true, Z.bits_0 in H0 by lia.
  - apply Z.eqb_eq. apply Z.bits_inj'. intros n Hn. rewrite Z.land_spec, Z.bits_0, Z.pow2_bits_eqb by lia.
    destruct (Z.eqb_spec (Z.of_nat bit) n) as [<-|]; [by rewrite Hb|by rewrite andb_false_r].
Qed.

Lemma map_set_bit_spec byte bit j :
  0 <= j -> Z.testbit (map_set_bit byte bit) j = (Z.of_nat bit =? j) || Z.testbit byte j.
Proof. intros. unfold map_set_bit. by rewrite Z.shiftl_1_l, Z.lor_spec, Z.pow2_bits_eqb, orb_comm by lia. Qed.

Lemma map_clear_bit_spec byte bit j :
  0 <= j < 8 -> Z.testbit (map_clear_bit byte bit) j = negb (Z.of_nat bit =? j) && Z.testbit byte j.
Proof.
  intros Hj. unfold map_clear_bit. rewrite Z.shiftl_1_l, Z.land_spec, Z.lxor_spec, Z.pow2_bits_eqb by lia.
  replace (Z.testbit 255 j) with true; [by rewrite xorb_true_l, andb_comm|].
  change 255 with (Z.ones 8). by rewrite Z.ones_spec_low.
Qed.

Lemma find_seq_spec (f : nat -> bool) n len :
  match List.find f (seq n len) with
  | Some k => (n <= k < n + len)%nat /\ f k = true /\ forall j, (n <= j < k)%nat -> f j = false
  | None => forall j, (n <= j < n + len)%nat -> f j = false
  end.
Proof.
  revert n. induction len as [|len IH]; intros n; cbn [seq List.find]; [lia|].
  destruct (f n) eqn:Hf; [split; [lia|split; [done|lia]]|].
  specialize (IH (S n)). destruct (List.find f (seq (S n) len)) as [k|].
  - destruct IH as (? & ? & Hlt). split; [lia|]. split; [done|]. intros j Hj.
    destruct (decide (j = n)) as [->|]; [done|]. apply Hlt. lia.
  - intros j Hj. destruct (decide (j = n)) as [->|]; [done|]. apply IH. lia.
Qed.

Lemma first_zero_bit_spec byte :
  match first_zero_bit byte with
  | Some k => (k < 8)%nat /\ Z.testbit byte (Z.of_nat k) = false /\
              forall j, 0 <= j < Z.of_nat k -> Z.testbit byte j = true
  | None => forall j, 0 <= j < 8 -> Z.testbit byte j = true
  end.
Proof.
  unfold first_zero_bit. destruct (byte =? 255) eqn:H255; bool_to_prop.
  { subst. intros j Hj. change 255 with (Z.ones 8). by apply Z.ones_spec_low. }
  pose proof (find_seq_spec (bit_clear byte) 0 8) as Hf.
  destruct (List.find _ _) as [k|].
  - destruct Hf as (Hk & Hc & Hlt). rewrite bit_clear_spec in Hc. split; [lia|].
    split; [by destruct (Z.testbit byte (Z.of_nat k))|]. intros j Hj.
    specialize (Hlt (Z.to_nat j) ltac:(lia)). rewrite bit_clear_spec, Z2Nat.id in Hlt by lia. by apply negb_false_iff.
  - intros j Hj. specialize (Hf (Z.to_nat j) ltac:(lia)).
    rewrite bit_clear_spec, Z2Nat.id in Hf by lia. by apply negb_false_iff.
Qed.

Lemma block_bit_cons b buf j :
  0 <= j -> block_bit (b :: buf) j = if j <? 8 then Z.testbit b j else block_bit buf (j - 8).
Proof.
  intros Hj. unfold block_bit. destruct (j <? 8) eqn:Hlt; bool_to_prop.
  - by rewrite Z.div_small, Z.mod_small by lia.
  - replace j with (j - 8 + 1 * 8) at 1 2 by lia. rewrite Z.div_add, Z.mod_add by lia.
    rewrite Z2Nat.inj_add by (try apply Z.div_pos; lia). by rewrite Nat.add_comm.
Qed.

(** The first clear bit, from the byte index [idx] on. *)
Lemma scan_bytes_spec idx buf :
  match scan_bytes idx buf with
  | Some (k, bit) => (bit < 8)%nat /\ (idx <= k < idx + length buf)%nat /\
      block_bit buf (Z.of_nat ((k - idx) * 8 + bit)) = false /\
      forall j, 0 <= j < Z.of_nat ((k - idx) * 8 + bit) -> block_bit buf j = true
  | None => forall j, 0 <= j < 8 * Z.of_nat (length buf) -> block_bit buf j = true
  end.
Proof.
  revert idx. induction buf as [|b buf IH]; intros idx; cbn [scan_bytes length]; [lia|].
  pose proof (first_zero_bit_spec b) as Hz. destruct (first_zero_bit b) as [bit|].
  - destruct Hz as (Hb & Hf & Hlt). rewrite Nat.sub_diag. cbn [Nat.mul Nat.add].
    split; [done|]. split; [lia|]. split; [rewrite block_bit_cons by lia; case_if; (done || lia)|].
    intros j Hj. rewrite block_bit_cons by lia. case_if; [by apply Hlt|lia].
  - specialize (IH (S idx)). destruct (scan_bytes (S idx) buf) as [[k bit]|].
    + destruct IH as (Hb & Hk & Hf & Hlt). split; [done|]. split; [lia|]. split.
      * rewrite block_bit_cons by lia. case_if; [lia|].
        rewrite <- Hf. f_equal. lia.
      * intros j Hj. rewrite block_bit_cons by lia. case_if; [apply Hz; lia|]. apply Hlt. lia.
    + intros j Hj. rewrite block_bit_cons by lia. case_if; [apply Hz; lia|]. apply IH. lia.
Qed.

(** The bounded scan is the first clear bit, if that is below the limit. *)
Lemma scan_below_none limit base idx buf :
  (forall j, 0 <= j < 8 * Z.of_nat (length buf) -> block_bit buf j = false ->
     limit <= base + 8 * Z.of_nat idx + j) ->
  scan_below limit base idx buf = None.
Proof.
  revert idx. induction buf as [|b buf IH]; intros idx Hl; cbn [scan_below length] in *; [done|].
  pose proof (first_zero_bit_spec b) as Hz.
  assert (scan_below limit base (S idx) buf = None) as Hrest.
  { apply IH. intros j Hj Hb. specialize (Hl (j + 8) ltac:(lia)).
    rewrite block_bit_cons in Hl by lia. replace (j + 8 <? 8) with false in Hl by lia.
    replace (j + 8 - 8) with j in Hl by lia. specialize (Hl Hb). lia. }
  destruct (first_zero_bit b) as [bit|]; [|done]. destruct Hz as (Hb & Hf & _).
  case_if; [done|]. specialize (Hl (Z.of_nat bit) ltac:(lia)). rewrite block_bit_cons in Hl by lia.
  replace (Z.of_nat bit <? 8) with true in Hl by lia. specialize (Hl Hf). lia.
Qed.

Lemma scan_below_spec limit base idx buf :
  match scan_below limit base idx buf with
  | Some (k, bit) => scan_bytes idx buf = Some (k, bit) /\
      base + Z.of_nat (k * 8) + Z.of_nat bit < limit
  | None => forall j, 0 <= j < 8 * Z.of_nat (length buf) ->
      base + 8 * Z.of_nat idx + j < limit -> block_bit buf j = true
  end.
Proof.
  revert idx. induction buf as [|b buf IH]; intros idx; cbn [scan_below scan_bytes length]; [lia|].
  pose proof (first_zero_bit_spec b) as Hz. destruct (first_zero_bit b) as [bit|].
  - destruct Hz as (Hb & Hf & Hlt). case_if; [|split; [done|lia]].
    rewrite scan_below_none by lia. intros j Hj Hlim. rewrite block_bit_cons by lia. case_if.
    + apply Hlt. lia.
    + lia.
  - specialize (IH (S idx)). destruct (scan_below limit base (S idx) buf) as [[k bit]|]; [done|].
    intros j Hj Hlim. rewrite block_bit_cons by lia. case_if; [apply Hz; lia|]. apply IH; lia.
Qed.

Lemma block_bit_alter f k (g : bool -> bool) bit buf j :
  (forall b i, 0 <= i < 8 -> Z.testbit (f b) i = if Z.of_nat bit =? i then g (Z.testbit b i) else Z.testbit b i) ->
  (k < length buf)%nat -> (bit < 8)%nat -> 0 <= j ->
  block_bit (alter f k buf) j =
    if j =? Z.of_nat (k * 8 + bit) then g (block_bit buf j) else block_bit buf j.
Proof.
  intros Hf Hk Hb Hj. unfold block_bit. pose proof (Z.div_mod j 8 ltac:(lia)).
  pose proof (Z.mod_pos_bound j 8 ltac:(lia)). rewrite !nth_lookup.
  destruct (decide (Z.to_nat (j / 8) = k)) as [<-|Hne].
  - destruct (lookup_lt_is_Some_2 buf (Z.to_nat (j / 8)) Hk) as [b Hbuf].
    rewrite list_lookup_alter_eq, Hbuf. cbn [fmap option_fmap option_map from_option id].
    rewrite Hf by done. assert (0 <= j / 8) by (apply Z.div_pos; lia).
    replace (j =? Z.of_nat (Z.to_nat (j / 8) * 8 + bit)) with (Z.of_nat bit =? j mod 8) by lia. done.
  - rewrite list_lookup_alter_ne by done. assert (0 <= j / 8) by (apply Z.div_pos; lia).
    case_if; [|done]. exfalso. apply Hne. nia.
Qed.

Lemma block_bit_set k bit buf j :
  (k < length buf)%nat -> (bit < 8)%nat -> 0 <= j ->
  block_bit (alter (fun b => map_set_bit b bit) k buf) j =
    (j =? Z.of_nat (k * 8 + bit)) || block_bit buf j.
Proof.
  intros Hk Hb Hj. rewrite (block_bit_alter _ k (fun _ => true) bit) by
    (done || (intros b i Hi; rewrite map_set_bit_spec by lia; by case_if)). by case_if.
Qed.

Lemma block_bit_clear k bit buf j :
  (k < length buf)%nat -> (bit < 8)%nat -> 0 <= j ->
  block_bit (alter (fun b => map_clear_bit b bit) k buf) j =
    negb (j =? Z.of_nat (k * 8 + bit)) && block_bit buf j.
Proof.
  intros Hk Hb Hj. rewrite (block_bit_alter _ k (fun _ => false) bit) by
    (done || (intros b i Hi; rewrite map_clear_bit_spec by lia; by case_if)). by case_if.
Qed.

(** ** The maps of a mounted file system *)

Section map_spec.
Context {D : Type} `{!BlockDeviceIO D} `{!LawfulDev D} (sb : Superblock).
Implicit Types d : D.

(** The mount facts: the recorded geometry is that of the layout, and the maps
    lie in [u32] block numbers of the device. *)
Definition mounted (d : D) : Prop :=
  fs_dev_ok d /\ sb_block_size sb = 2048 /\ 0 <= imap_blocks sb /\ 0 <= zmap_blocks sb /\
  0 <= first_data_zone sb /\ 0 <= zones sb < 2 ^ 32 /\ 0 <= ninodes sb < 2 ^ 32 /\
  zmap_blocks sb * bits_per_block <= 2 ^ 32 /\ imap_blocks sb * bits_per_block <= 2 ^ 32 /\
  fs_addr d (1 + imap_blocks sb + zmap_blocks sb) /\ 1 + imap_blocks sb + zmap_blocks sb < 2 ^ 32.

Definition map_bit (start : Z) (d : D) (j : Z) : bool :=
  block_bit (fs_block d (start + j / bits_per_block)) (j mod bits_per_block).

(** Is zone [z] (an absolute block number), or inode [i] (from 1), in use? *)
Definition zmap_start : Z := imap_blocks sb + 1.
Definition zone_used (d : D) (z : Z) : bool := map_bit zmap_start d (z - first_data_zone sb).
Definition inode_used (d : D) (i : Z) : bool := map_bit 1 d (i - 1).

Lemma mounted_geometry d d' : mounted d -> fs_dev_ok d' -> same_geometry d d' -> mounted d'.
Proof.
  intros (_&?&?&?&?&?&?&?&?&Ha&?) Hd Hg. pose proof (fs_addr_geometry d d' _ Hg Ha).
  by split_and!; try done; try lia.
Qed.

Lemma fs_addr_le d n m : fs_addr d m -> 0 <= n <= m -> fs_addr d n.
Proof. unfold fs_addr. intros [_ ?] ?. split; nia. Qed.

Lemma bits_div j : 0 <= j -> 0 <= j / bits_per_block /\ 0 <= j mod bits_per_block < bits_per_block /\
  j = j / bits_per_block * bits_per_block + j mod bits_per_block.
Proof.
  intros Hj. unfold bits_per_block. split; [apply Z.div_pos; lia|].
  split; [apply Z.mod_pos_bound; lia|]. pose proof (Z.div_mod j 16384). lia.
Qed.

(** A write to block [start + i] changes the bits of that block. *)
Lemma map_bit_update start i d d' (f : Z -> bool -> bool) j :
  fs_only (start + i) d d' -> 0 <= i -> 0 <= j ->
  (forall x, 0 <= x < bits_per_block ->
     block_bit (fs_block d' (start + i)) x = f (i * bits_per_block + x) (block_bit (fs_block d (start + i)) x)) ->
  (forall x b, x / bits_per_block <> i -> f x b = b) ->
  map_bit start d' j = f j (map_bit start d j).
Proof.
  intros (_ & _ & Ho) Hi Hj Hb Hf. destruct (bits_div j Hj) as (H1 & H2 & H3). unfold map_bit.
  destruct (decide (j / bits_per_block = i)) as [<-|Hne].
  - rewrite Hb by done. f_equal. lia.
  - rewrite Ho by lia. by rewrite Hf.
Qed.

Lemma map_index_div i k bit :
  0 <= i -> Z.of_nat (k * 8 + bit) < bits_per_block ->
  (i * bits_per_block + Z.of_nat (k * 8 + bit)) / bits_per_block = i /\
  (i * bits_per_block + Z.of_nat (k * 8 + bit)) mod bits_per_block = Z.of_nat (k * 8 + bit).
Proof.
  intros Hi Hk. unfold bits_per_block in *. rewrite Z.add_comm, Z.div_add, Z.mod_add by lia.
  rewrite Z.div_small, Z.mod_small by lia. lia.
Qed.

Lemma map_bit_set start i k bit d d' j :
  fs_dev_ok d -> fs_only (start + i) d d' -> 0 <= i -> 0 <= j -> (k < FS_BLOCK_SIZE)%nat -> (bit < 8)%nat ->
  fs_block d' (start + i) = alter (fun b => map_set_bit b bit) k (fs_block d (start + i)) ->
  map_bit start d' j = (j =? i * bits_per_block + Z.of_nat (k * 8 + bit)) || map_bit start d j.
Proof.
  intros Hd Ho Hi Hj Hk Hb Hnew. unfold FS_BLOCK_SIZE in Hk.
  apply (map_bit_update start i d d' (fun j b => (j =? i * bits_per_block + Z.of_nat (k * 8 + bit)) || b)); try done.
  - intros x Hx. rewrite Hnew, block_bit_set; [|by rewrite fs_block_length|done|lia].
    f_equal. lia.
  - intros x b Hx. pose proof (map_index_div i k bit Hi ltac:(unfold bits_per_block; lia)) as [Hd1 _].
    destruct (_ =? _) eqn:He; bool_to_prop; [|done]. subst. lia.
Qed.

Lemma map_bit_clear start i k bit d d' j :
  fs_dev_ok d -> fs_only (start + i) d d' -> 0 <= i -> 0 <= j -> (k < FS_BLOCK_SIZE)%nat -> (bit < 8)%nat ->
  fs_block d' (start + i) = alter (fun b => map_clear_bit b bit) k (fs_block d (start + i)) ->
  map_bit start d' j = negb (j =? i * bits_per_block + Z.of_nat (k * 8 + bit)) && map_bit start d j.
Proof.
  intros Hd Ho Hi Hj Hk Hb Hnew. unfold FS_BLOCK_SIZE in Hk.
  apply (map_bit_update start i d d' (fun j b => negb (j =? i * bits_per_block + Z.of_nat (k * 8 + bit)) && b)); try done.
  - intros x Hx. rewrite Hnew, block_bit_clear; [|by rewrite fs_block_length|done|lia].
    do 2 f_equal. lia.
  - intros x b Hx. pose proof (map_index_div i k bit Hi ltac:(unfold bits_per_block; lia)) as [Hd1 _].
    destruct (_ =? _) eqn:He; bool_to_prop; [|done]. subst. lia.
Qed.

Lemma map_bit_same start d d' j : fs_same d d' -> map_bit start d' j = map_bit start d j.
Proof. intros (_ & _ & Hs). unfold map_bit. by rewrite Hs. Qed.

Lemma fs_same_trans d1 d2 d3 : fs_same d1 d2 -> fs_same d2 d3 -> fs_same d1 d3.
Proof.
  intros (_ & Hg1 & H1) (Hok & Hg2 & H2). split; [done|]. split; [by eapply same_geometry_trans|].
  intros m. by rewrite H2, H1.
Qed.

Lemma fs_only_same n d1 d2 d3 : fs_same d1 d2 -> fs_only n d2 d3 -> fs_only n d1 d3.
Proof. intros Hs Ho. eapply fs_only_trans; [by apply fs_same_only|done]. Qed.

(** A map block read through [io]. *)
Lemma io_read_spec d n r d' :
  fs_dev_ok d -> fs_addr d n -> io (read_tfs_block n) d = (r, d') -> r <> Panic ->
  fs_same d d' /\ (r = Err IoError \/ r = Ok (fs_block d n)).
Proof.
  intros Hd Ha Hr Hp. unfold io, map_errM in Hr. destruct (read_tfs_block n d) as [r1 d1] eqn:H1.
  destruct (read_tfs_block_spec d n r1 d1 Hd Ha H1) as [Hs Hb]; [by destruct r1; simplify_eq|].
  destruct r1 as [b|e|]; injection Hr as <- <-; [|auto|done]. split; [done|]. right. by rewrite (Hb b eq_refl).
Qed.

Lemma io_write_spec d n buf r d' :
  fs_dev_ok d -> fs_addr d n -> length buf = FS_BLOCK_SIZE ->
  io (write_tfs_block n buf) d = (r, d') -> r <> Panic ->
  fs_only n d d' /\ (r = Err IoError \/ (r = Ok tt /\ fs_block d' n = buf)).
Proof.
  intros Hd Ha Hl Hr Hp. unfold io, map_errM in Hr. destruct (write_tfs_block n buf d) as [r1 d1] eqn:H1.
  destruct (write_tfs_block_spec d n buf r1 d1 Hd Ha Hl H1) as [Hs Hb]; [by destruct r1; simplify_eq|].
  destruct r1 as [[]|e|]; injection Hr as <- <-; [|auto|done]. split; [done|]. right. by rewrite Hb.
Qed.

(** What an allocation from the map of [blocks] blocks at [start] does: the least
    clear index, below [limit], or an error. *)
Definition alloc_outcome (start blocks limit : Z) (d : D) (r : res TfsError Z) (d' : D) : Prop :=
  fs_dev_ok d' /\ same_geometry d d' /\
  (forall m, ~ (start <= m < start + blocks) -> fs_block d' m = fs_block d m) /\
  match r with
  | Ok j => 0 <= j < limit /\ map_bit start d j = false /\
      (forall x, 0 <= x < j -> map_bit start d x = true) /\
      (forall x, 0 <= x -> map_bit start d' x = (x =? j) || map_bit start d x)
  | Err NoSpaceLeft => fs_same d d' /\
      forall x, 0 <= x < Z.min limit (blocks * bits_per_block) -> map_bit start d x = true
  | Err e => e = IoError
  | Panic => False
  end.

Lemma alloc_outcome_same start blocks limit d1 d2 r d3 :
  fs_same d1 d2 -> alloc_outcome start blocks limit d2 r d3 -> alloc_outcome start blocks limit d1 r d3.
Proof.
  intros Hs (Hok & Hg & Hf & Hr). pose proof Hs as (_ & Hg1 & Hs').
  pose proof (fun j => map_bit_same start d1 d2 j Hs) as Hm.
  split; [done|]. split; [by eapply same_geometry_trans|]. split; [intros m Hm'; by rewrite Hf, Hs'|].
  destruct r as [j|[]|]; try done.
  - destruct Hr as (H1 & H2 & H3 & H4). rewrite Hm in H2. split; [done|]. split; [done|].
    split; [intros x Hx; rewrite <- Hm; auto|]. intros x Hx. by rewrite H4, Hm.
  - destruct Hr as [H1 H2]. split; [by eapply fs_same_trans|]. intros x Hx. rewrite <- Hm. auto.
Qed.

(** An error that wrote at most one map block. *)
Lemma alloc_outcome_io start blocks limit d n d' :
  fs_only n d d' -> start <= n < start + blocks -> alloc_outcome start blocks limit d (Err IoError) d'.
Proof.
  intros (Hok & Hg & Ho) Hn. split; [done|]. split; [done|]. split; [|done].
  intros m Hm. apply Ho. lia.
Qed.

(** The bits of a full block. *)
Lemma map_bits_extend start i d :
  0 <= i -> (forall x, 0 <= x < i * bits_per_block -> map_bit start d x = true) ->
  (forall x, 0 <= x < bits_per_block -> block_bit (fs_block d (start + i)) x = true) ->
  forall x, 0 <= x < (i + 1) * bits_per_block -> map_bit start d x = true.
Proof.
  intros Hi Hlo Hb x Hx. destruct (decide (x < i * bits_per_block)); [apply Hlo; lia|].
  destruct (bits_div x ltac:(lia)) as (H1 & H2 & H3).
  assert (x / bits_per_block = i) as Hq by (unfold bits_per_block in *; nia).
  unfold map_bit. rewrite Hq. by apply Hb.
Qed.

(** Setting the first clear bit of block [i], found at byte [k]. *)
Lemma alloc_outcome_found start blocks limit i k bit d d' :
  fs_dev_ok d -> 0 <= i < blocks ->
  (forall x, 0 <= x < i * bits_per_block -> map_bit start d x = true) ->
  scan_bytes 0 (fs_block d (start + i)) = Some (k, bit) ->
  i * bits_per_block + Z.of_nat (k * 8 + bit) < limit ->
  fs_only (start + i) d d' ->
  fs_block d' (start + i) = alter (fun b => map_set_bit b bit) k (fs_block d (start + i)) ->
  alloc_outcome start blocks limit d (Ok (i * bits_per_block + Z.of_nat (k * 8 + bit))) d'.
Proof.
  intros Hd Hi Hlo Hscan Hlim Ho Hnew. pose proof (scan_bytes_spec 0 (fs_block d (start + i))) as Hs.
  rewrite Hscan, Nat.sub_0_r in Hs. destruct Hs as (Hbit & Hk & Hf & Hlt).
  rewrite fs_block_length in Hk by done. unfold FS_BLOCK_SIZE in Hk.
  destruct (map_index_div i k bit) as [Hq Hm]; [lia|unfold bits_per_block; lia|].
  pose proof Ho as (Hok & Hg & Ho'). split; [done|]. split; [done|].
  split; [intros m Hm'; apply Ho'; lia|].
  split; [unfold bits_per_block in *; lia|]. split; [unfold map_bit; by rewrite Hq, Hm|]. split.
  - intros x Hx. destruct (decide (x < i * bits_per_block)); [apply Hlo; lia|].
    destruct (bits_div x ltac:(lia)) as (H1 & H2 & H3).
    assert (x / bits_per_block = i) as Hqx by (unfold bits_per_block in *; nia).
    unfold map_bit. rewrite Hqx. apply Hlt. lia.
  - intros x Hx. apply map_bit_set; try done; unfold FS_BLOCK_SIZE; lia.
Qed.

Definition res_map {E A B} (f : A -> B) (r : res E A) : res E B :=
  match r with Ok a => Ok (f a) | Err e => Err e | Panic => Panic end.

Lemma mounted_map_bits d : mounted d -> map_bits sb = bits_per_block.
Proof. intros (_ & Hbs & _). unfold map_bits. by rewrite Hbs. Qed.

(** The index computed in [u32] arithmetic does not wrap. *)
Lemma zone_index_exact d i k bit :
  mounted d -> 0 <= i < zmap_blocks sb -> (k < FS_BLOCK_SIZE)%nat -> (bit < 8)%nat ->
  u32 (u32 (i * u32 (map_bits sb)) + Z.of_nat (k * 8 + bit)) = i * bits_per_block + Z.of_nat (k * 8 + bit).
Proof.
  intros Hd Hi Hk Hb. rewrite (mounted_map_bits d Hd). destruct Hd as (_&_&_&_&_&_&_&Hz&_).
  unfold FS_BLOCK_SIZE, bits_per_block in *. rewrite (u32_small 16384), (u32_small (i * 16384)), u32_small by lia. done.
Qed.

Lemma map_block_addr d i :
  mounted d -> 0 <= i < zmap_blocks sb ->
  u32 (u32 (imap_blocks sb + 1) + i) = zmap_start + i /\ fs_addr d (zmap_start + i).
Proof.
  intros (_&_&?&?&_&_&_&_&_&Ha&?) Hi. unfold zmap_start. rewrite (u32_small (imap_blocks sb + 1)), u32_small by lia.
  split; [done|]. eapply fs_addr_le; [exact Ha|]. lia.
Qed.

(** The least clear index is not below the limit. *)
Lemma alloc_outcome_full start blocks limit i k bit d :
  fs_dev_ok d -> 0 <= i ->
  (forall x, 0 <= x < i * bits_per_block -> map_bit start d x = true) ->
  scan_bytes 0 (fs_block d (start + i)) = Some (k, bit) ->
  limit <= i * bits_per_block + Z.of_nat (k * 8 + bit) ->
  alloc_outcome start blocks limit d (Err NoSpaceLeft) d.
Proof.
  intros Hd Hi Hlo Hsc Hlim. pose proof (scan_bytes_spec 0 (fs_block d (start + i))) as Hfull.
  rewrite Hsc, Nat.sub_0_r, fs_block_length in Hfull by done. destruct Hfull as (Hb & Hk & _ & Hfull).
  split; [done|]. split; [auto with twilight|]. split; [done|]. split; [by apply fs_same_refl|].
  intros x Hx. destruct (decide (x < i * bits_per_block)); [apply Hlo; lia|].
  destruct (bits_div x ltac:(lia)) as (H1 & H2 & H3).
  assert (x / bits_per_block = i) as Hq by (unfold bits_per_block, FS_BLOCK_SIZE in *; nia).
  unfold map_bit. rewrite Hq. apply Hfull. lia.
Qed.

Lemma allocate_zone_loop_spec n i d r d' :
  mounted d -> 0 <= i -> i + Z.of_nat n = zmap_blocks sb ->
  (forall x, 0 <= x < i * bits_per_block -> map_bit zmap_start d x = true) ->
  allocate_zone_loop sb n i d = (r, d') -> r <> Panic ->
  alloc_outcome zmap_start (zmap_blocks sb) (max_data_zones sb) d
    (res_map (fun z => z - first_data_zone sb) r) d'.
Proof.
  revert i d. induction n as [|n IH]; intros i d Hm Hi Hn Hlo Hr Hp; cbn [allocate_zone_loop] in Hr.
  { injection Hr as <- <-. split; [apply Hm|]. split; [auto with twilight|]. split; [done|].
    split; [apply fs_same_refl, Hm|]. intros x Hx. apply Hlo. nia. }
  destruct (map_block_addr d i Hm ltac:(lia)) as [Hu Ha]. cbv zeta in Hr. rewrite Hu in Hr.
  apply bindM_inv in Hr as [(buf & d1 & Hrd & Hr) | (e & Hrd & ->)]; [| |done];
    (apply io_read_spec in Hrd as [Hs Hb]; [|apply Hm|done|done]).
  2: { destruct Hb as [[= ->]|]; [|done].
       eapply alloc_outcome_io; [by apply fs_same_only|]. split; [apply Z.le_refl|lia]. }
  destruct Hb as [|[= ->]]; [done|]. pose proof Hs as (Hd1 & Hg1 & Hs1).
  assert (mounted d1) as Hm1 by by eapply mounted_geometry.
  eapply alloc_outcome_same; [exact Hs|]. rewrite <- Hs1 in Hr.
  assert (forall x, 0 <= x < i * bits_per_block -> map_bit zmap_start d1 x = true) as Hlo1.
  { intros x Hx. rewrite (map_bit_same _ d d1) by done. by apply Hlo. }
  pose proof (scan_bytes_spec 0 (fs_block d1 (zmap_start + i))) as Hscan.
  pose proof (fs_block_length d1 (zmap_start + i) Hd1) as Hl. rewrite Hl in Hscan.
  destruct (scan_bytes 0 _) as [[k bit]|] eqn:Hsc.
  2: { eapply (IH (i + 1)); try done; try lia. apply map_bits_extend; [lia|done|].
       intros x Hx. apply Hscan. unfold FS_BLOCK_SIZE, bits_per_block in *. lia. }
  destruct Hscan as (Hbit & Hk & _). rewrite (zone_index_exact d1) in Hr by (done || lia).
  destruct (max_data_zones sb <=? _) eqn:Hmax; bool_to_prop.
  - injection Hr as <- <-. by eapply alloc_outcome_full; [..|exact Hsc|].
  - apply bindM_inv in Hr as [([] & d2 & Hw & Hr) | (e & Hw & ->)]; [| |done];
      (apply io_write_spec in Hw as [Ho Hb]; [|done|by eapply fs_addr_geometry|by rewrite length_alter|done]).
    2: { destruct Hb as [[= ->]|[? _]]; [|done]. eapply alloc_outcome_io; [exact Ho|lia]. }
    destruct Hb as [|[_ Hnew]]; [done|]. injection Hr as <- <-. cbn [res_map].
    rewrite u32_small.
    + replace (_ + first_data_zone sb - first_data_zone sb) with (i * bits_per_block + Z.of_nat (k * 8 + bit)) by lia.
      eapply alloc_outcome_found; try done; lia.
    + destruct Hm as (_&_&_&_&?&?&_). unfold max_data_zones, saturating_sub, bits_per_block in *. lia.
Qed.

Lemma allocate_inode_loop_spec n i d r d' :
  mounted d -> 0 <= i -> i + Z.of_nat n = imap_blocks sb ->
  (forall x, 0 <= x < Z.min (i * bits_per_block) (ninodes sb) -> map_bit 1 d x = true) ->
  allocate_inode_loop sb n i d = (r, d') -> r <> Panic ->
  alloc_outcome 1 (imap_blocks sb) (ninodes sb) d r d'.
Proof.
  revert i d. induction n as [|n IH]; intros i d Hm Hi Hn Hlo Hr Hp; cbn [allocate_inode_loop] in Hr.
  { injection Hr as <- <-. split; [apply Hm|]. split; [auto with twilight|]. split; [done|].
    split; [apply fs_same_refl, Hm|]. intros x Hx. apply Hlo. nia. }
  pose proof Hm as (Hd & Hbs & ? & ? & _ & _ & Hni & _ & Hib & Hadr & ?).
  rewrite u32_small in Hr by lia. cbv zeta in Hr.
  assert (fs_addr d (1 + i)) as Ha by (eapply fs_addr_le; [exact Hadr|lia]).
  apply bindM_inv in Hr as [(buf & d1 & Hrd & Hr) | (e & Hrd & ->)]; [| |done];
    (apply io_read_spec in Hrd as [Hs Hb]; [|done|done|done]).
  2: { destruct Hb as [[= ->]|]; [|done]. eapply alloc_outcome_io; [by apply fs_same_only|].
       split; [apply Z.le_refl|lia]. }
  destruct Hb as [|[= ->]]; [done|]. pose proof Hs as (Hd1 & Hg1 & Hs1).
  assert (mounted d1) as Hm1 by by eapply mounted_geometry.
  eapply alloc_outcome_same; [exact Hs|]. rewrite <- Hs1 in Hr.
  pose proof (fs_block_length d1 (1 + i) Hd1) as Hl.
  rewrite Hbs, (mounted_map_bits d Hm), take_ge in Hr by (rewrite Hl; done).
  pose proof (scan_below_spec (ninodes sb) (i * bits_per_block) 0 (fs_block d1 (1 + i))) as Hscan.
  destruct (scan_below _ _ _ _) as [[k bit]|].
  - destruct Hscan as [Hsc Hlim]. pose proof (scan_bytes_spec 0 (fs_block d1 (1 + i))) as Hsb.
    rewrite Hsc, Hl in Hsb. destruct Hsb as (Hbit & Hk & _).
    assert (forall x, 0 <= x < i * bits_per_block -> map_bit 1 d1 x = true) as Hlo1.
    { intros x Hx. rewrite (map_bit_same _ d d1) by done. apply Hlo. unfold bits_per_block in *. lia. }
    apply bindM_inv in Hr as [([] & d2 & Hw & Hr) | (e & Hw & ->)]; [| |done];
      (apply io_write_spec in Hw as [Ho Hb]; [|done|by eapply fs_addr_geometry|by rewrite length_alter|done]).
    2: { destruct Hb as [[= ->]|[? _]]; [|done]. eapply alloc_outcome_io; [exact Ho|lia]. }
    destruct Hb as [|[_ Hnew]]; [done|]. injection Hr as <- <-.
    replace (i * bits_per_block + Z.of_nat (k * 8) + Z.of_nat bit)
      with (i * bits_per_block + Z.of_nat (k * 8 + bit)) in * by lia.
    rewrite u32_small by (unfold bits_per_block in *; lia).
    eapply alloc_outcome_found; try done; lia.
  - rewrite Hl in Hr, Hscan. replace (_ <? _) with false in Hr by (unfold FS_BLOCK_SIZE; lia).
    eapply (IH (i + 1)); try done; try lia. intros x Hx.
    destruct (decide (x < i * bits_per_block)).
    + rewrite (map_bit_same _ d d1) by done. apply Hlo. lia.
    + destruct (bits_div x ltac:(lia)) as (Q1 & Q2 & Q3).
      assert (x / bits_per_block = i) as Hq by (unfold bits_per_block in *; nia).
      unfold map_bit. rewrite Hq. apply Hscan; unfold FS_BLOCK_SIZE, bits_per_block in *; lia.
Qed.

(** Clearing bit [x] of block [start + i]. *)
Lemma clear_map_bit_spec start i x d r d' :
  fs_dev_ok d -> fs_addr d (start + i) -> 0 <= i -> 0 <= x < bits_per_block ->
  clear_map_bit (start + i) x d = (r, d') -> r <> Panic ->
  fs_only (start + i) d d' /\
  (r = Err IoError \/
   r = Ok tt /\ forall j, 0 <= j ->
     map_bit start d' j = negb (j =? i * bits_per_block + x) && map_bit start d j).
Proof.
  intros Hd Ha Hi Hx Hr Hp. unfold clear_map_bit in Hr.
  apply bindM_inv in Hr as [(buf & d1 & Hrd & Hr) | (e & Hrd & ->)]; [| |done];
    (apply io_read_spec in Hrd as [Hs Hb]; [|done|done|done]).
  2: { split; [by apply fs_same_only|]. destruct Hb as [[= ->]|]; [by left|done]. }
  destruct Hb as [|[= ->]]; [done|]. pose proof Hs as (Hd1 & Hg1 & Hs1). rewrite <- Hs1 in Hr.
  pose proof (fs_block_length d1 (start + i) Hd1) as Hl. rewrite Hl in Hr.
  pose proof (Z.div_mod x 8 ltac:(lia)). pose proof (Z.mod_pos_bound x 8 ltac:(lia)).
  assert (0 <= x / 8 < 2048) as Hx8
    by (split; [apply Z.div_pos; lia|apply Z.div_lt_upper_bound; unfold bits_per_block in *; lia]).
  cbv zeta in Hr. replace (_ <=? _) with false in Hr by (unfold FS_BLOCK_SIZE; lia).
  apply io_write_spec in Hr as [Ho Hb]; [|done|by eapply fs_addr_geometry|by rewrite length_alter|done].
  split; [by eapply fs_only_same|]. destruct Hb as [->|[-> Hnew]]; [by left|right]. split; [done|].
  intros j Hj.
  rewrite (map_bit_clear start i (Z.to_nat (x / 8)) (Z.to_nat (x mod 8)) d1 d' j)
    by (done || (unfold FS_BLOCK_SIZE; lia)).
  rewrite (map_bit_same start d d1) by done. do 3 f_equal. lia.
Qed.

(** [dealloc_zone]: the zone's bit and nothing else. *)
Lemma dealloc_zone_spec z d r d' :
  mounted d -> in_width 32 z -> dealloc_zone sb z d = (r, d') -> r <> Panic ->
  (r = Err InvalidZone /\ d' = d /\
     (z < first_data_zone sb \/ first_data_zone sb + zmap_blocks sb * bits_per_block <= z)) \/
  (first_data_zone sb <= z < first_data_zone sb + zmap_blocks sb * bits_per_block /\
   (exists n, zmap_start <= n < zmap_start + zmap_blocks sb /\ fs_only n d d') /\
   (r = Err IoError \/
    r = Ok tt /\ forall y, first_data_zone sb <= y ->
      zone_used d' y = negb (y =? z) && zone_used d y)).
Proof.
  intros Hm Hz Hr Hp. unfold dealloc_zone in Hr. rewrite (mounted_map_bits d Hm) in Hr. cbv zeta in Hr.
  case_if; [left; injection Hr as <- <-; split; [done|split; [done|lia]]|].
  replace (bits_per_block =? 0) with false in Hr by done.
  destruct (bits_div (z - first_data_zone sb) ltac:(lia)) as (Q1 & Q2 & Q3).
  case_if; [left; injection Hr as <- <-; split; [done|split; [done|unfold bits_per_block in *; nia]]|right].
  assert (0 <= (z - first_data_zone sb) / bits_per_block < zmap_blocks sb) as Hq by lia.
  destruct (map_block_addr d _ Hm Hq) as [Hu Ha]. rewrite (Z.add_comm 1), (u32_small ((z - _) / _)), Hu in Hr.
  2: { unfold in_width in Hz. pose proof Hm as (_&_&_&_&_&_&_&?&_). unfold bits_per_block in *. lia. }
  apply clear_map_bit_spec in Hr as [Ho Hb]; [|apply Hm|done|done|done|done].
  split; [unfold bits_per_block in *; nia|]. split; [eexists; split; [|exact Ho]; lia|].
  destruct Hb as [->|[-> Hb]]; [by left|right]. split; [done|]. intros y Hy. unfold zone_used.
  rewrite Hb by lia. do 2 f_equal. lia.
Qed.

Lemma dealloc_inode_spec ino d r d' :
  mounted d -> in_width 32 ino -> ninodes sb <= imap_blocks sb * bits_per_block ->
  dealloc_inode sb ino d = (r, d') -> r <> Panic ->
  (r = Err TfsInvalidInode /\ d' = d /\ ~ (1 <= ino <= ninodes sb)) \/
  (1 <= ino <= ninodes sb /\ (exists n, 1 <= n < 1 + imap_blocks sb /\ fs_only n d d') /\
   (r = Err IoError \/
    r = Ok tt /\ forall y, 1 <= y -> inode_used d' y = negb (y =? ino) && inode_used d y)).
Proof.
  intros Hm Hz Hcov Hr Hp. unfold dealloc_inode in Hr. rewrite (mounted_map_bits d Hm) in Hr. cbv zeta in Hr.
  unfold in_width in Hz.
  case_if; [left; injection Hr as <- <-; split; [done|split; [done|lia]]|right].
  replace (bits_per_block =? 0) with false in Hr by done.
  pose proof Hm as (Hd & _ & ? & ? & _ & _ & ? & _ & ? & Hadr & ?).
  destruct (bits_div (ino - 1) ltac:(lia)) as (Q1 & Q2 & Q3).
  assert (0 <= (ino - 1) / bits_per_block < imap_blocks sb) as Hq by (unfold bits_per_block in *; nia).
  rewrite (u32_small ((ino - 1) / bits_per_block)), u32_small in Hr by lia.
  apply clear_map_bit_spec in Hr as [Ho Hb]; [|done|eapply fs_addr_le; [exact Hadr|lia]|done|done|done].
  split; [lia|]. split; [eexists; split; [|exact Ho]; lia|].
  destruct Hb as [->|[-> Hb]]; [by left|right]. split; [done|]. intros y Hy. unfold inode_used.
  rewrite Hb by lia. do 2 f_equal. lia.
Qed.
End map_spec.

(** ** On a reliable device allocation only fails for lack of space *)

Section alloc_total.
Context {D : Type} `{ReliableDev D} (sb : Superblock).

Definition maps_in_range (d : D) : Prop := fs_in_range d (imap_blocks sb + zmap_blocks sb).

Lemma fs_in_range_le (d d' : D) n m :
  same_geometry d d' -> fs_in_range d m -> 0 <= n <= m -> fs_in_range d' n.
Proof.
  unfold fs_in_range. intros Hg [_ Hm] Hn. rewrite (same_geometry_per_block d d' Hg), (proj2 Hg).
  split; [lia|nia].
Qed.

Lemma io_read_total (d : D) n :
  fs_dev_ok d -> fs_addr d n -> fs_in_range d n ->
  exists d', io (read_tfs_block n) d = (Ok (fs_block d n), d') /\ fs_same d d'.
Proof.
  intros Hd Ha Hr. destruct (read_tfs_block_total d n Hd Ha Hr) as (d' & Hrd). exists d'.
  unfold io, map_errM. rewrite Hrd. split; [done|]. by eapply read_tfs_block_spec.
Qed.

Lemma io_write_total (d : D) n buf :
  fs_dev_ok d -> fs_addr d n -> fs_in_range d n -> length buf = FS_BLOCK_SIZE ->
  exists d', io (write_tfs_block n buf) d = (Ok tt, d').
Proof.
  intros Hd Ha Hr Hl. destruct (write_tfs_block_total d n buf Hd Ha Hr Hl) as (d' & Hw). exists d'.
  unfold io, map_errM. by rewrite Hw.
Qed.

Definition succeeds_or_full {A} (r : res TfsError A) : Prop :=
  match r with Ok _ => True | Err e => e = NoSpaceLeft | Panic => False end.

Lemma allocate_zone_loop_total n i (d : D) :
  mounted sb d -> maps_in_range d -> 0 <= i -> i + Z.of_nat n = zmap_blocks sb ->
  succeeds_or_full (fst (allocate_zone_loop sb n i d)).
Proof.
  revert i d. induction n as [|n IH]; intros i d Hm Hr Hi Hn; cbn [allocate_zone_loop]; [done|].
  destruct (map_block_addr sb d i Hm ltac:(lia)) as [Hu Ha]. cbv zeta. rewrite Hu.
  pose proof Hm as (Hd & _ & ? & ? & _). unfold maps_in_range in Hr.
  assert (fs_in_range d (zmap_start sb + i)) as Hir
    by (eapply fs_in_range_le; [apply same_geometry_refl|exact Hr|unfold zmap_start; lia]).
  destruct (io_read_total d _ Hd Ha Hir) as (d1 & Hrd & Hs).
  pose proof Hs as (Hd1 & Hg1 & Hs1). rewrite (bindM_ok _ _ _ _ _ Hrd).
  destruct (scan_bytes 0 _) as [[k bit]|].
  - case_if; [done|].
    edestruct (io_write_total d1 (zmap_start sb + i)
      (alter (fun b => map_set_bit b bit) k (fs_block d (zmap_start sb + i)))) as (d2 & Hw);
      [done|by eapply fs_addr_geometry|eapply fs_in_range_le; [exact Hg1|exact Hir|]| |].
    + destruct Hir. lia.
    + by rewrite length_alter, fs_block_length.
    + by rewrite (bindM_ok _ _ _ _ _ Hw).
  - apply IH; [by eapply mounted_geometry| |lia|lia].
    eapply fs_in_range_le; [exact Hg1|exact Hr|lia].
Qed.

Lemma allocate_inode_loop_total n i (d : D) :
  mounted sb d -> maps_in_range d -> 0 <= i -> i + Z.of_nat n = imap_blocks sb ->
  succeeds_or_full (fst (allocate_inode_loop sb n i d)).
Proof.
  revert i d. induction n as [|n IH]; intros i d Hm Hr Hi Hn; cbn [allocate_inode_loop]; [done|].
  pose proof Hm as (Hd & Hbs & ? & ? & _ & _ & _ & _ & _ & Hadr & ?). unfold maps_in_range in Hr.
  rewrite u32_small by lia. cbv zeta.
  assert (fs_addr d (1 + i)) as Ha by (eapply fs_addr_le; [exact Hadr|lia]).
  assert (fs_in_range d (1 + i)) as Hir
    by (eapply fs_in_range_le; [apply same_geometry_refl|exact Hr|lia]).
  destruct (io_read_total d _ Hd Ha Hir) as (d1 & Hrd & Hs).
  pose proof Hs as (Hd1 & Hg1 & Hs1). rewrite (bindM_ok _ _ _ _ _ Hrd).
  destruct (scan_below _ _ _ _) as [[k bit]|].
  - edestruct (io_write_total d1 (1 + i)
      (alter (fun b => map_set_bit b bit) k (fs_block d (1 + i)))) as (d2 & Hw);
      [done|by eapply fs_addr_geometry|eapply fs_in_range_le; [exact Hg1|exact Hir|lia]| |].
    + by rewrite length_alter, fs_block_length.
    + by rewrite (bindM_ok _ _ _ _ _ Hw).
  - rewrite fs_block_length, Hbs by done. replace (_ <? _) with false by (unfold FS_BLOCK_SIZE; lia).
    apply IH; [by eapply mounted_geometry| |lia|lia].
    eapply fs_in_range_le; [exact Hg1|exact Hr|lia].
Qed.
End alloc_total.

(** ** Theorems *)

(** C8. allocate_zone returns the lowest free data zone, inside the data area, and sets exactly its bit; it reports no space only when every zone the map covers is used, and then changes nothing; no block outside the zone map changes; on a reliable device there is no other failure. *)
Theorem allocate_zone_correct {D : Type} `{LawfulDev D} (sb : Superblock) (d d' : D) r :
  mounted sb d -> allocate_zone sb d = (r, d') -> r <> Panic ->
  (forall m, ~ (zmap_start sb <= m < zmap_start sb + zmap_blocks sb) -> fs_block d' m = fs_block d m) /\
  match r with
  | Ok z => first_data_zone sb <= z < zones sb /\ zone_used sb d z = false /\
      (forall y, first_data_zone sb <= y < z -> zone_used sb d y = true) /\
      (forall y, first_data_zone sb <= y -> zone_used sb d' y = (y =? z) || zone_used sb d y)
  | Err NoSpaceLeft => fs_same d d' /\
      forall y, first_data_zone sb <= y < zones sb ->
        y < first_data_zone sb + zmap_blocks sb * bits_per_block -> zone_used sb d y = true
  | Err e => e = IoError
  | Panic => False
  end /\
  (ReliableDev D -> maps_in_range sb d -> succeeds_or_full r).
Proof.
  intros Hm Hr Hp. pose proof Hm as (_&_&_&?&_).
  destruct (allocate_zone_loop_spec sb (Z.to_nat (zmap_blocks sb)) 0 d r d') as (_ & _ & Hf & Ho);
    [done|lia|lia|lia|done|done|]. split; [exact Hf|]. split.
  2: { intros Hrel Hrange. replace r with (fst (allocate_zone sb d)) by by rewrite Hr.
       apply allocate_zone_loop_total; (done || lia). }
  unfold zone_used. unfold max_data_zones, saturating_sub in Ho.
  destruct r as [z|[]|]; cbn [res_map] in Ho; try done.
  - destruct Ho as (H1 & H2 & H3 & H4). split; [lia|]. split; [done|].
    split; [intros y Hy; apply H3; lia|]. intros y Hy. rewrite H4 by lia. f_equal. lia.
  - destruct Ho as [H1 H2]. split; [done|]. intros y Hy Hy2. apply H2. lia.
Qed.

(** allocate_inode returns the index of the lowest free inode, below the inode count, and sets exactly its bit; it reports no space only when all inodes are used; no block outside the inode map changes; on a reliable device there is no other failure. *)
Theorem allocate_inode_correct {D : Type} `{LawfulDev D} (sb : Superblock) (d d' : D) r :
  mounted sb d -> ninodes sb <= imap_blocks sb * bits_per_block ->
  allocate_inode sb d = (r, d') -> r <> Panic ->
  (forall m, ~ (1 <= m < 1 + imap_blocks sb) -> fs_block d' m = fs_block d m) /\
  match r with
  | Ok i => 1 <= i + 1 <= ninodes sb /\ inode_used d (i + 1) = false /\
      (forall y, 1 <= y <= i -> inode_used d y = true) /\
      (forall y, 1 <= y -> inode_used d' y = (y =? i + 1) || inode_used d y)
  | Err NoSpaceLeft => fs_same d d' /\ forall y, 1 <= y <= ninodes sb -> inode_used d y = true
  | Err e => e = IoError
  | Panic => False
  end /\
  (ReliableDev D -> maps_in_range sb d -> succeeds_or_full r).
Proof.
  intros Hm Hcov Hr Hp. pose proof Hm as (_&_&?&_).
  destruct (allocate_inode_loop_spec sb (Z.to_nat (imap_blocks sb)) 0 d r d') as (_ & _ & Hf & Ho);
    [done|lia|lia|lia|done|done|]. split; [exact Hf|]. split.
  2: { intros Hrel Hrange. replace r with (fst (allocate_inode sb d)) by by rewrite Hr.
       apply allocate_inode_loop_total; (done || lia). }
  unfold inode_used. destruct r as [i|[]|]; try done.
  - destruct Ho as (H1 & H2 & H3 & H4). replace (i + 1 - 1) with i by lia. split; [lia|]. split; [done|].
    split; [intros y Hy; apply H3; lia|]. intros y Hy. rewrite H4 by lia. f_equal. lia.
  - destruct Ho as [H1 H2]. split; [done|]. intros y Hy. apply H2. lia.
Qed.

(** Releasing a zone that was just allocated is accepted, restores the usage of every zone, and leaves every block outside the zone map as it was before the allocation. *)
Theorem zone_alloc_dealloc {D : Type} `{LawfulDev D} (sb : Superblock) (d d1 d2 : D) (z : Z) r :
  mounted sb d -> first_data_zone sb + zmap_blocks sb * bits_per_block <= 2 ^ 32 ->
  zones sb <= first_data_zone sb + zmap_blocks sb * bits_per_block ->
  allocate_zone sb d = (Ok z, d1) -> dealloc_zone sb z d1 = (r, d2) -> r <> Panic ->
  (r = Err IoError \/ r = Ok tt) /\
  (r = Ok tt -> forall y, first_data_zone sb <= y -> zone_used sb d2 y = zone_used sb d y) /\
  (forall m, ~ (zmap_start sb <= m < zmap_start sb + zmap_blocks sb) -> fs_block d2 m = fs_block d m).
Proof.
  intros Hm Hw Hz Ha Hd Hp. pose proof Hm as (_&_&_&?&?&_).
  destruct (allocate_zone_loop_spec sb (Z.to_nat (zmap_blocks sb)) 0 d (Ok z) d1) as (Hok & Hg & Hf & Ho);
    [done|lia|lia|lia|done|done|]. cbn [res_map] in Ho.
  unfold max_data_zones, saturating_sub in Ho. destruct Ho as (Hz1 & Hz2 & _ & Hz4).
  destruct (dealloc_zone_spec sb z d1 r d2) as [(_ & _ & ?) | (_ & (n & Hn & _ & _ & Hn2) & Hr)];
    [by eapply mounted_geometry|split; lia|done|done|lia|].
  split; [destruct Hr as [|[? _]]; auto|]. split; [|intros m Hm'; rewrite Hn2, Hf by lia; done].
  intros ->. destruct Hr as [|[_ Hr]]; [done|]. intros y Hy. rewrite Hr by done. unfold zone_used.
  rewrite Hz4 by lia. destruct (y =? z) eqn:He; bool_to_prop; cbn.
  - subst. by rewrite Hz2.
  - by replace (y - _ =? z - _) with false by lia.
Qed.

(** ** Witnesses: a small file system on an ideal disk *)

Definition small_sb : Superblock := mkSuperblock 8 0 1 1 4 0 0 0 10 0 0 2048 0.
Definition small_disk : IdealDisk := mkIdeal 2048 16 (fun _ => replicate 2048 0).

Lemma small_mounted : mounted small_sb small_disk.
Proof.
  split; [split; [split; [cbn; lia|]|done]|].
  - intros x. apply length_replicate.
  - unfold fs_addr, bits_per_block. cbn. lia.
Qed.

Lemma allocate_zone_correct_witness :
  let d' := snd (allocate_zone small_sb small_disk) in
  allocate_zone small_sb small_disk = (Ok 4, d') /\
  forall y, 4 <= y -> zone_used small_sb d' y = (y =? 4) || zone_used small_sb small_disk y.
Proof.
  intros d'. assert (allocate_zone small_sb small_disk = (Ok 4, d')) as Hr
    by (apply injective_projections; [vm_compute; reflexivity|reflexivity]).
  split; [exact Hr|]. eapply (allocate_zone_correct small_sb small_disk d' (Ok 4));
    [apply small_mounted|exact Hr|discriminate].
Defined.

Lemma allocate_inode_correct_witness :
  let d' := snd (allocate_inode small_sb small_disk) in
  allocate_inode small_sb small_disk = (Ok 0, d') /\
  forall y, 1 <= y -> inode_used d' y = (y =? 1) || inode_used small_disk y.
Proof.
  intros d'. assert (allocate_inode small_sb small_disk = (Ok 0, d')) as Hr
    by (apply injective_projections; [vm_compute; reflexivity|reflexivity]).
  split; [exact Hr|]. eapply (allocate_inode_correct small_sb small_disk d' (Ok 0));
    [apply small_mounted|vm_compute; discriminate|exact Hr|discriminate].
Defined.

Lemma zone_alloc_dealloc_witness :
  let d1 := snd (allocate_zone small_sb small_disk) in
  let d2 := snd (dealloc_zone small_sb 4 d1) in
  dealloc_zone small_sb 4 d1 = (Ok tt, d2) /\
  forall y, 4 <= y -> zone_used small_sb d2 y = zone_used small_sb small_disk y.
Proof.
  intros d1 d2. assert (allocate_zone small_sb small_disk = (Ok 4, d1)) as Ha
    by (apply injective_projections; [vm_compute; reflexivity|reflexivity]).
  assert (dealloc_zone small_sb 4 d1 = (Ok tt, d2)) as Hd
    by (apply injective_projections; [vm_compute; reflexivity|reflexivity]).
  split; [exact Hd|].
  eapply (zone_alloc_dealloc small_sb small_disk d1 d2 4 (Ok tt));
    [apply small_mounted|vm_compute; discriminate|vm_compute; discriminate|exact Ha|exact Hd|discriminate|reflexivity].
Defined.
