(* ===== verification/TfsInode.v ===== *)
(** * TwilightFS inodes (sys/fs/twilight_fs/inode.rs, mod.rs)

    The packed inode, its constructors and block slots, and the inode table:
    [write_inode] and [read_inode]. *)

From Stdlib Require Import ZifyBool.
From S2P Require Import Prelude Bytes BlockDev BlockDevSpec TfsBlock TfsAlloc.
Open Scope twilight_scope.

Definition MODE_TYPE_MASK : Z := 0xF000.
Definition MODE_PERM_MASK : Z := 0x01FF.
Definition MODE_DIR : Z := 0x4000.
Definition MODE_FILE : Z := 0x8000.
Definition MODE_SYMLINK : Z := 0xA000.
Definition MODE_SOCKET : Z := 0xC000.
Definition IFLAG_INLINE_DATA : Z := Z.shiftl 1 3.
Definition INODE_INLINE_BYTES : nat := 64.
Definition DIRECT_SLOT_COUNT : nat := 6.

Record Extent32 := mkExtent { ext_start : Z; ext_len : Z }.

Record Inode := mkInode {
  mode : Z; nlinks : Z; uid : Z; gid : Z; isize : Z; access_time : Z; modified_time : Z;
  change_time : Z; created_time : Z; flags : Z; generation : Z; xattr_block : Z; _pad0 : Z;
  direct : list Extent32; indirect : Z; double_indirect : Z; triple_indirect : Z;
  inline_data : list Z; inode_checksum : Z; _pad1 : Z;
}.

(** ** Constructors: the current user is an argument *)

Definition Inode_base (user_id g_id m now : Z) : Inode :=
  mkInode m 1 (u32 user_id) (u32 g_id) 0 now now now now 0 0 0 0
    (replicate DIRECT_SLOT_COUNT (mkExtent 0 0)) 0 0 0 (replicate INODE_INLINE_BYTES 0) 0 0.

Definition with_nlinks (n : Z) (i : Inode) : Inode :=
  mkInode (mode i) n (uid i) (gid i) (isize i) (access_time i) (modified_time i) (change_time i)
    (created_time i) (flags i) (generation i) (xattr_block i) (_pad0 i) (direct i) (indirect i)
    (double_indirect i) (triple_indirect i) (inline_data i) (inode_checksum i) (_pad1 i).
Definition with_flags (f : Z) (i : Inode) : Inode :=
  mkInode (mode i) (nlinks i) (uid i) (gid i) (isize i) (access_time i) (modified_time i) (change_time i)
    (created_time i) f (generation i) (xattr_block i) (_pad0 i) (direct i) (indirect i)
    (double_indirect i) (triple_indirect i) (inline_data i) (inode_checksum i) (_pad1 i).
Definition with_direct (ds : list Extent32) (i : Inode) : Inode :=
  mkInode (mode i) (nlinks i) (uid i) (gid i) (isize i) (access_time i) (modified_time i) (change_time i)
    (created_time i) (flags i) (generation i) (xattr_block i) (_pad0 i) ds (indirect i)
    (double_indirect i) (triple_indirect i) (inline_data i) (inode_checksum i) (_pad1 i).

Definition new_file (user g now perms : Z) : Inode :=
  Inode_base user g (Z.lor MODE_FILE (Z.land perms MODE_PERM_MASK)) now.
Definition new_dir (user g now perms : Z) : Inode :=
  with_nlinks 2 (Inode_base user g (Z.lor MODE_DIR (Z.land perms MODE_PERM_MASK)) now).
Definition new_socket (user g now perms : Z) : Inode :=
  Inode_base user g (Z.lor MODE_SOCKET (Z.land perms MODE_PERM_MASK)) now.
Definition new_symlink (user g now : Z) : Inode :=
  let i := Inode_base user g (Z.lor MODE_SYMLINK 0x1FF) now in
  with_flags (Z.lor (flags i) IFLAG_INLINE_DATA) i.

Definition is_dir (i : Inode) : bool := Z.land (mode i) MODE_TYPE_MASK =? MODE_DIR.
Definition is_file (i : Inode) : bool := Z.land (mode i) MODE_TYPE_MASK =? MODE_FILE.
Definition is_symlink (i : Inode) : bool := Z.land (mode i) MODE_TYPE_MASK =? MODE_SYMLINK.
Definition is_socket (i : Inode) : bool := Z.land (mode i) MODE_TYPE_MASK =? MODE_SOCKET.

Definition inline_data_bytes (i : Inode) : list Z :=
  take (Nat.min (Z.to_nat (isize i)) INODE_INLINE_BYTES) (inline_data i).

Definition direct_slot_get (i : Inode) (index : nat) : Z :=
  if (DIRECT_SLOT_COUNT <=? index)%nat then 0
  else match direct i !! index with
       | Some e => if ext_len e =? 0 then 0 else ext_start e
       | None => 0
       end.
Definition direct_slot_set (index : nat) (zone : Z) (i : Inode) : Inode :=
  if (DIRECT_SLOT_COUNT <=? index)%nat then i
  else with_direct (<[index := if zone =? 0 then mkExtent 0 0 else mkExtent zone 1]> (direct i)) i.

(** ** The packed layout: 204 bytes *)

Definition extent_bytes (e : Extent32) : list Z := to_le 4 (ext_start e) ++ to_le 4 (ext_len e).

Definition inode_bytes (i : Inode) : list Z :=
  to_le 2 (mode i) ++ to_le 2 (nlinks i) ++ to_le 4 (uid i) ++ to_le 4 (gid i) ++ to_le 8 (isize i) ++
  to_le 8 (access_time i) ++ to_le 8 (modified_time i) ++ to_le 8 (change_time i) ++
  to_le 8 (created_time i) ++ to_le 4 (flags i) ++ to_le 8 (generation i) ++ to_le 4 (xattr_block i) ++
  to_le 4 (_pad0 i) ++ concat (extent_bytes <$> direct i) ++ to_le 4 (indirect i) ++
  to_le 4 (double_indirect i) ++ to_le 4 (triple_indirect i) ++ inline_data i ++
  to_le 4 (inode_checksum i) ++ to_le 4 (_pad1 i).

Definition inode_decode (b : list Z) : Inode :=
  let f off n := from_le (load off n b) in
  (mkInode (f 0 2) (f 2 2) (f 4 4) (f 8 4) (f 12 8) (f 20 8) (f 28 8) (f 36 8) (f 44 8) (f 52 4)
    (f 56 8) (f 64 4) (f 68 4)
    ((fun k => mkExtent (f (72 + 8 * k) 4) (f (76 + 8 * k) 4)) <$> seq 0 6)
    (f 120 4) (f 124 4) (f 128 4) (load 132 64 b) (f 196 4) (f 200 4))%nat.

Definition extent_ok (e : Extent32) : Prop := in_width 32 (ext_start e) /\ in_width 32 (ext_len e).
Definition inode_ok (i : Inode) : Prop :=
  in_width 16 (mode i) /\ in_width 16 (nlinks i) /\ in_width 32 (uid i) /\ in_width 32 (gid i) /\
  in_width 64 (isize i) /\ in_width 64 (access_time i) /\ in_width 64 (modified_time i) /\
  in_width 64 (change_time i) /\ in_width 64 (created_time i) /\ in_width 32 (flags i) /\
  in_width 64 (generation i) /\ in_width 32 (xattr_block i) /\ in_width 32 (_pad0 i) /\
  length (direct i) = DIRECT_SLOT_COUNT /\ Forall extent_ok (direct i) /\ in_width 32 (indirect i) /\
  in_width 32 (double_indirect i) /\ in_width 32 (triple_indirect i) /\
  length (inline_data i) = INODE_INLINE_BYTES /\ in_width 32 (inode_checksum i) /\ in_width 32 (_pad1 i).

(** ** The inode table *)

Section table.
Context {D : Type} `{!BlockDeviceIO D} (sb : Superblock).

(** The block and the byte offset of an inode. *)
Definition inode_location (inode_num : Z) : Z * Z :=
  let inode_index := inode_num - 1 in
  let inodes_per_block := sb_block_size sb / inode_size in
  let inode_table_start := u32 (u32 (imap_blocks sb + zmap_blocks sb) + 1) in
  (u32 (inode_table_start + u32 (inode_index / inodes_per_block)),
   inode_index mod inodes_per_block * inode_size).

Definition bad_inode (inode_num : Z) : bool := (inode_num =? 0) || (ninodes sb <? inode_num).

(** Dividing by no inodes per block panics; so does an inode past the end of the
    buffer. *)
Definition no_inodes_per_block : bool := sb_block_size sb / inode_size =? 0.
Definition past_buffer (byte_offset : Z) (buffer : list Z) : bool :=
  Z.of_nat (length buffer) <? byte_offset + inode_size.

Definition write_inode (inode_num : Z) (inode : Inode) : M D string unit :=
  if bad_inode inode_num then failM "Invalid inode number"
  else if no_inodes_per_block then panicM
  else
    let '(block_num, byte_offset) := inode_location inode_num in
    buffer <-- map_errM (fun _ => "Failed to read inode block") (read_tfs_block block_num) ;;
    if past_buffer byte_offset buffer then panicM
    else map_errM (fun _ => "Failed to write inode block")
           (write_tfs_block block_num (store (Z.to_nat byte_offset) (inode_bytes inode) buffer)).

Definition read_inode (inode_num : Z) : M D string Inode :=
  if bad_inode inode_num then failM "Invalid inode number"
  else if no_inodes_per_block then panicM
  else
    let '(block_num, byte_offset) := inode_location inode_num in
    buffer <-- map_errM (fun _ => "Failed to read inode block") (read_tfs_block block_num) ;;
    if past_buffer byte_offset buffer then panicM
    else retM (inode_decode (load (Z.to_nat byte_offset) (Z.to_nat inode_size) buffer)).
End table.

(** ** The layout round trip *)

Lemma concat_extents_length ds : length (concat (extent_bytes <$> ds)) = (8 * length ds)%nat.
Proof. induction ds as [|e ds IH]; [done|]. csimpl. rewrite IH. lia. Qed.

Lemma inode_bytes_length i : inode_ok i -> length (inode_bytes i) = 204%nat.
Proof.
  intros (_&_&_&_&_&_&_&_&_&_&_&_&_&Hd&_&_&_&_&Hi&_). unfold inode_bytes.
  rewrite !length_app, !to_le_length, concat_extents_length, Hd, Hi. done.
Qed.

Lemma from_to_le_width n v : in_width (8 * Z.of_nat n) v -> from_le (to_le n v) = v.
Proof.
  intros Hv. apply from_to_le. unfold in_width in Hv. replace 256 with (2 ^ 8) by done.
  by rewrite <- Z.pow_mul_r by lia.
Qed.

Ltac le_field := solve [by apply (from_to_le_width 8) | by apply (from_to_le_width 4) | by apply (from_to_le_width 2)].

Lemma extent_fields e : extent_ok e -> mkExtent (from_le (to_le 4 (ext_start e))) (from_le (to_le 4 (ext_len e))) = e.
Proof. intros [H1 H2]. destruct e; cbn in *. f_equal; le_field. Qed.

(** The part before the inline data has a fixed number of bytes. *)
Definition inode_head (i : Inode) : list Z :=
  to_le 2 (mode i) ++ to_le 2 (nlinks i) ++ to_le 4 (uid i) ++ to_le 4 (gid i) ++ to_le 8 (isize i) ++
  to_le 8 (access_time i) ++ to_le 8 (modified_time i) ++ to_le 8 (change_time i) ++
  to_le 8 (created_time i) ++ to_le 4 (flags i) ++ to_le 8 (generation i) ++ to_le 4 (xattr_block i) ++
  to_le 4 (_pad0 i) ++ concat (extent_bytes <$> direct i) ++ to_le 4 (indirect i) ++
  to_le 4 (double_indirect i) ++ to_le 4 (triple_indirect i).

Lemma inode_bytes_split i :
  inode_bytes i = inode_head i ++ inline_data i ++ to_le 4 (inode_checksum i) ++ to_le 4 (_pad1 i).
Proof. unfold inode_bytes, inode_head. by rewrite <- !app_assoc. Qed.

Lemma load_past (h t : list Z) off n : length h = off -> forall i, load (off + i) n (h ++ t) = load i n t.
Proof.
  intros <- i. unfold load. rewrite drop_app_ge by lia. do 2 f_equal. lia.
Qed.

Lemma inode_decode_bytes i : inode_ok i -> inode_decode (inode_bytes i) = i.
Proof.
  intros Hok. pose proof Hok as (H1&H2&H3&H4&H5&H6&H7&H8&H9&H10&H11&H12&H13&Hd&Hds&H14&H15&H16&Hi&H17&H18).
  assert (length (inode_head i) = 132%nat) as Hh.
  { unfold inode_head. rewrite !length_app, !to_le_length, concat_extents_length, Hd. done. }
  assert (load 132 64 (inode_bytes i) = inline_data i) as Hin.
  { rewrite inode_bytes_split, (load_past _ _ 132 64 Hh 0 : load 132 64 _ = _). unfold load.
    by rewrite drop_0, take_app_length'. }
  assert (load 196 4 (inode_bytes i) = to_le 4 (inode_checksum i)) as Hck.
  { rewrite inode_bytes_split, (load_past _ _ 132 4 Hh 64 : load 196 4 _ = _).
    by rewrite (load_past _ _ 64 4 Hi 0 : load 64 4 _ = _). }
  assert (load 200 4 (inode_bytes i) = to_le 4 (_pad1 i)) as Hpad.
  { rewrite inode_bytes_split, (load_past _ _ 132 4 Hh 68 : load 200 4 _ = _).
    by rewrite (load_past _ _ 64 4 Hi 4 : load 68 4 _ = _). }
  unfold inode_decode. rewrite Hin, Hck, Hpad. rewrite inode_bytes_split. clear Hin Hck Hpad Hh.
  destruct i; cbn [mode nlinks uid gid isize access_time modified_time change_time created_time flags
    generation xattr_block _pad0 direct indirect double_indirect triple_indirect inline_data
    inode_checksum _pad1] in *.
  destruct direct0 as [|e1 [|e2 [|e3 [|e4 [|e5 [|e6 [|]]]]]]]; try done.
  rewrite !Forall_cons in Hds. destruct Hds as (E1&E2&E3&E4&E5&E6&_).
  f_equal; try le_field.
  transitivity ((fun e => mkExtent (from_le (to_le 4 (ext_start e))) (from_le (to_le 4 (ext_len e))))
    <$> [e1; e2; e3; e4; e5; e6]); [reflexivity|].
  cbn [fmap list_fmap]. by rewrite !extent_fields.
Qed.

(** ** The table *)

Definition INODES_PER_BLOCK : Z := 10.
Definition inode_table_start (sb : Superblock) : Z := imap_blocks sb + zmap_blocks sb + 1.

Section table_spec.
Context {D : Type} `{!BlockDeviceIO D} `{!LawfulDev D} (sb : Superblock).
Implicit Types d : D.

(** The blocks of the table have [u32] numbers on the device. *)
Definition table_ok (d : D) : Prop :=
  fs_dev_ok d /\ sb_block_size sb = 2048 /\ 0 <= imap_blocks sb /\ 0 <= zmap_blocks sb /\
  in_width 32 (ninodes sb) /\ fs_addr d (inode_table_start sb + ninodes sb / INODES_PER_BLOCK) /\
  inode_table_start sb + ninodes sb / INODES_PER_BLOCK < 2 ^ 32.

Definition inode_at (d : D) (j : Z) : Inode :=
  let '(block, off) := inode_location sb j in
  inode_decode (load (Z.to_nat off) (Z.to_nat inode_size) (fs_block d block)).

Lemma inode_location_exact d j :
  table_ok d -> 1 <= j <= ninodes sb ->
  inode_location sb j =
    (inode_table_start sb + (j - 1) / INODES_PER_BLOCK, (j - 1) mod INODES_PER_BLOCK * inode_size) /\
  fs_addr d (inode_table_start sb + (j - 1) / INODES_PER_BLOCK).
Proof.
  intros (_ & Hbs & Hi & Hz & [_ Hn] & Ha & Hw) Hj. unfold inode_location, inode_table_start in *. rewrite Hbs.
  change (2048 / inode_size) with INODES_PER_BLOCK.
  assert (0 <= (j - 1) / INODES_PER_BLOCK <= ninodes sb / INODES_PER_BLOCK) as Hq.
  { unfold INODES_PER_BLOCK. split; [apply Z.div_pos; lia|apply Z.div_le_mono; lia]. }
  rewrite (u32_small (imap_blocks sb + zmap_blocks sb)), (u32_small (imap_blocks sb + zmap_blocks sb + 1)),
    (u32_small ((j - 1) / INODES_PER_BLOCK)), u32_small by lia.
  split; [done|]. eapply fs_addr_le; [exact Ha|]. lia.
Qed.

Lemma inode_offset_bound j : 0 <= (j - 1) mod INODES_PER_BLOCK * inode_size <= 2048 - inode_size.
Proof. pose proof (Z.mod_pos_bound (j - 1) INODES_PER_BLOCK eq_refl). unfold INODES_PER_BLOCK, inode_size in *. lia. Qed.

(** Storing inode [i] leaves the other inodes of the table alone. *)
Lemma inode_at_other d d' i j b :
  table_ok d -> 1 <= i <= ninodes sb -> 1 <= j <= ninodes sb -> j <> i -> length b = 204%nat ->
  fs_only (fst (inode_location sb i)) d d' ->
  fs_block d' (fst (inode_location sb i)) =
    store (Z.to_nat (snd (inode_location sb i))) b (fs_block d (fst (inode_location sb i))) ->
  inode_at d' j = inode_at d j.
Proof.
  intros Ht Hi Hj Hne Hb (_ & _ & Ho) Hnew. unfold inode_at.
  destruct (inode_location_exact d i Ht Hi) as [Hli _]. destruct (inode_location_exact d j Ht Hj) as [Hlj _].
  rewrite Hlj. rewrite Hli in Ho, Hnew. cbn [fst snd] in *. destruct Ht as (Hd & _).
  pose proof (inode_offset_bound i) as Hbi. pose proof (inode_offset_bound j) as Hbj.
  destruct (decide ((j - 1) / INODES_PER_BLOCK = (i - 1) / INODES_PER_BLOCK)) as [He|Hq];
    [|rewrite Ho; [done|lia]].
  rewrite He, Hnew. f_equal.
  pose proof (fs_block_length d (inode_table_start sb + (i - 1) / INODES_PER_BLOCK) Hd) as Hl.
  pose proof (Z.div_mod (i - 1) INODES_PER_BLOCK ltac:(done)). pose proof (Z.div_mod (j - 1) INODES_PER_BLOCK ltac:(done)).
  assert ((i - 1) mod INODES_PER_BLOCK < (j - 1) mod INODES_PER_BLOCK \/
          (j - 1) mod INODES_PER_BLOCK < (i - 1) mod INODES_PER_BLOCK) as [Hlt|Hlt] by lia.
  - apply load_store_after; rewrite ?Hb, ?Hl; unfold inode_size, FS_BLOCK_SIZE in *; lia.
  - apply load_store_before; rewrite ?Hl; unfold inode_size, FS_BLOCK_SIZE in *; lia.
Qed.
End table_spec.

(** C9. On a reliable device, writing an inode and reading it back gives the same inode, every other inode of the table keeps its value, and only the block of that inode is written. *)
Theorem inode_write_read {D : Type} `{ReliableDev D} (sb : Superblock) (d : D) (i : Z) (ino : Inode) :
  table_ok sb d -> fs_in_range d (inode_table_start sb + ninodes sb / INODES_PER_BLOCK) ->
  1 <= i <= ninodes sb -> inode_ok ino ->
  exists d' d'', write_inode sb i ino d = (Ok tt, d') /\ read_inode sb i d' = (Ok ino, d'') /\
    fs_only (fst (inode_location sb i)) d d' /\ fs_same d' d'' /\
    (forall j, 1 <= j <= ninodes sb -> j <> i -> inode_at sb d' j = inode_at sb d j).
Proof.
  intros Ht Hr Hi Hok. pose proof Ht as (Hd & Hbs & ? & ? & _).
  destruct (inode_location_exact sb d i Ht Hi) as [Hloc Ha]. pose proof (inode_offset_bound i) as Hoff.
  set (blk := inode_table_start sb + (i - 1) / INODES_PER_BLOCK) in *.
  set (off := (i - 1) mod INODES_PER_BLOCK * inode_size) in *.
  assert (fs_in_range d blk) as Hir.
  { eapply fs_in_range_le; [apply same_geometry_refl|exact Hr|]. unfold blk, inode_table_start, INODES_PER_BLOCK.
    split; [pose proof (Z.div_pos (i - 1) 10); lia|]. pose proof (Z.div_le_mono (i - 1) (ninodes sb) 10). lia. }
  destruct (read_tfs_block_total d blk Hd Ha Hir) as (d1 & Hr1).
  destruct (read_tfs_block_spec d blk _ _ Hd Ha Hr1) as [Hs1 _]; [done|]. pose proof Hs1 as (Hd1 & Hg1 & Hf1).
  pose proof (fs_block_length d blk Hd) as Hl. pose proof (inode_bytes_length ino Hok) as Hbl.
  set (buf := store (Z.to_nat off) (inode_bytes ino) (fs_block d blk)).
  assert (Z.to_nat off + 204 <= FS_BLOCK_SIZE)%nat as Hfit by (unfold inode_size, FS_BLOCK_SIZE in *; lia).
  assert (length buf = FS_BLOCK_SIZE) as Hlb by (unfold buf; rewrite store_length; [done|lia]).
  pose proof (fs_addr_geometry _ _ _ Hg1 Ha) as Ha1.
  destruct (write_tfs_block_total d1 blk buf Hd1 Ha1) as (d' & Hw);
    [eapply fs_in_range_le; [exact Hg1|exact Hir|destruct Hir; lia]|done|].
  destruct (write_tfs_block_spec d1 blk buf _ _ Hd1 Ha1 Hlb Hw) as [Ho Hnew]; [done|]. specialize (Hnew eq_refl).
  pose proof (fs_only_same _ _ _ _ Hs1 Ho) as Ho'. pose proof Ho' as (Hd' & Hg' & _).
  pose proof (fs_addr_geometry _ _ _ Hg' Ha) as Ha'.
  destruct (read_tfs_block_total d' blk Hd' Ha') as (d'' & Hr2);
    [eapply fs_in_range_le; [exact Hg'|exact Hir|destruct Hir; lia]|].
  destruct (read_tfs_block_spec d' blk _ _ Hd' Ha' Hr2) as [Hs2 _]; [done|].
  exists d', d''. unfold write_inode, read_inode, bad_inode, no_inodes_per_block, past_buffer. rewrite Hbs, Hloc.
  replace ((i =? 0) || (ninodes sb <? i)) with false by lia. change (2048 / inode_size =? 0) with false. cbv iota.
  unfold bindM, map_errM. rewrite Hr1, Hr2, Hnew, Hl, Hlb.
  replace (Z.of_nat FS_BLOCK_SIZE <? off + inode_size) with false by (unfold FS_BLOCK_SIZE; lia).
  fold buf. rewrite Hw. split; [done|]. split; [|split; [done|split; [done|]]].
  - unfold buf. rewrite <- (Nat.add_0_r (Z.to_nat off)) at 1. change (Z.to_nat inode_size) with 204%nat.
    rewrite load_store_in by lia. unfold load. rewrite drop_0, take_ge by lia. by rewrite inode_decode_bytes.
  - intros j Hj Hne. eapply (inode_at_other sb d d' i j (inode_bytes ino)); try done; by rewrite Hloc.
Qed.

Lemma inode_write_read_witness :
  let d := mkIdeal 2048 16 (fun _ => replicate 2048 0) in
  let ino := direct_slot_set 0 5 (new_dir 0 0 1700000000 0x1ED) in
  exists d' d'', write_inode small_sb 2 ino d = (Ok tt, d') /\ read_inode small_sb 2 d' = (Ok ino, d'') /\
    inode_at small_sb d' 1 = inode_at small_sb d 1.
Proof.
  intros d ino. destruct (inode_write_read small_sb d 2 ino) as (d' & d'' & Hw & Hr & _ & _ & Hj).
  - split; [split; [split; [cbn; lia|intros x; apply length_replicate]|done]|].
    repeat split; first [by vm_compute | vm_compute; discriminate].
  - repeat split; vm_compute; discriminate.
  - cbn. lia.
  - unfold inode_ok, in_width. cbn. split_and!; try done; try lia. repeat constructor; unfold in_width; cbn; lia.
  - exists d', d''. split; [exact Hw|]. split; [exact Hr|]. apply Hj; cbn; lia.
Defined.

(** The layout reserves [ninodes * 204 / 2048] blocks, rounded up, for a table that
    keeps ten inodes in a block: on a 40 MiB partition the last ten inodes lie in the
    first data zone, which the root directory is given when the partition is
    formatted. *)
(** On a 40 MiB partition of 512-byte sectors the computed layout has 2560 inodes, and the last ten of them are located in the first data zone. *)
Theorem inode_table_overlaps_data :
  exists sb, superblock_layout 512 81920 = Some sb /\ ninodes sb = 2560 /\
    forall i, 2551 <= i <= 2560 -> fst (inode_location sb i) = first_data_zone sb.
Proof.
  eexists. split; [vm_compute; reflexivity|]. split; [reflexivity|]. intros i Hi.
  unfold inode_location. cbn [fst].
  change (sb_block_size _ / inode_size) with 10.
  replace ((i - 1) / 10) with 255 by (apply (Z.div_unique _ _ _ (i - 2551)); lia).
  vm_compute. reflexivity.
Qed.
