(* ===== verification/TfsCache.v ===== *)
(** * TwilightFS caches (sys/fs/twilight_fs/mod.rs)

    The path, file-content and directory caches and the generation counter that
    invalidates them.  A [BTreeMap] is a finite map, a [VecDeque] of keys a list.
    Each cache sits behind its own lock; an operation is one critical section. *)

From Stdlib Require Import ZifyBool Ascii.
From S2P Require Import Prelude Bytes Text.

Definition PATH_LOOKUP_CACHE_CAPACITY : nat := 1024.
Definition FILE_CACHE_MAX_TOTAL_BYTES : Z := 32 * 1024 * 1024.
Definition FILE_CACHE_MAX_FILE_BYTES : Z := 8 * 1024 * 1024.
Definition DIR_INDEX_CACHE_CAPACITY : nat := 512.

(** Pop the oldest keys until at most [cap] are left. *)
Fixpoint evict {K V} `{Countable K} (cap : nat) (order : list K) (map : gmap K V)
    : list K * gmap K V :=
  match order with
  | [] => ([], map)
  | old :: rest => if (cap <? length order)%nat then evict cap rest (delete old map) else (order, map)
  end.

(** ** Path lookups *)

Record PathLookupCache := mkPathCache {
  path_generation : Z; path_map : gmap string Z; path_order : list string;
}.
Definition PathLookupCache_default : PathLookupCache := mkPathCache 0 ∅ [].

Definition path_ensure_generation (g : Z) (c : PathLookupCache) : PathLookupCache :=
  if path_generation c =? g then c else mkPathCache g ∅ [].

Definition path_get (g : Z) (path : string) (c : PathLookupCache) : option Z * PathLookupCache :=
  let c := path_ensure_generation g c in (path_map c !! path, c).

Definition path_insert (g : Z) (path : string) (ino : Z) (c : PathLookupCache) : PathLookupCache :=
  let c := path_ensure_generation g c in
  match path_map c !! path with
  | Some _ => c
  | None =>
    let '(order, map) := evict PATH_LOOKUP_CACHE_CAPACITY (path_order c ++ [path])
                           (<[path := ino]> (path_map c)) in
    mkPathCache (path_generation c) map order
  end.

Definition starts_with_slash (s : string) : bool :=
  match s with String a _ => Ascii.eqb a "/"%char | EmptyString => false end.
(** [path == prefix], or [path] starts with [prefix] followed by a slash. *)
Definition under_prefix (prefix path : string) : bool :=
  String.eqb path prefix ||
  match strip_prefix prefix path with Some suffix => starts_with_slash suffix | None => false end.

Definition path_remove_prefix (g : Z) (prefix : string) (c : PathLookupCache) : PathLookupCache :=
  let c := path_ensure_generation g c in
  mkPathCache (path_generation c)
    (filter (fun kv : string * Z => under_prefix prefix kv.1 = false) (path_map c))
    (filter (fun p => under_prefix prefix p = false) (path_order c)).

(** ** File contents *)

Record FileContentCache := mkFileCache {
  file_generation : Z; total_bytes : Z; file_map : gmap Z (list Z); file_order : list Z;
}.
Definition FileContentCache_default : FileContentCache := mkFileCache 0 0 ∅ [].
Definition len (d : list Z) : Z := Z.of_nat (length d).

Definition file_ensure_generation (g : Z) (c : FileContentCache) : FileContentCache :=
  if file_generation c =? g then c else mkFileCache g 0 ∅ [].

(** The bytes copied into a buffer of [n] bytes. *)
Definition file_get_slice (g inode_no : Z) (offset n : nat) (c : FileContentCache)
    : option (list Z) * FileContentCache :=
  let c := file_ensure_generation g c in
  (match file_map c !! inode_no with
   | None => None
   | Some data => if (length data <=? offset)%nat then Some [] else Some (take n (drop offset data))
   end, c).

Fixpoint evict_files (size : Z) (order : list Z) (map : gmap Z (list Z)) (total : Z)
    : list Z * gmap Z (list Z) * Z :=
  match order with
  | [] => ([], map, total)
  | e :: rest =>
    if FILE_CACHE_MAX_TOTAL_BYTES <? total + size then
      match map !! e with
      | Some old => evict_files size rest (delete e map) (saturating_sub total (len old))
      | None => evict_files size rest map total
      end
    else (order, map, total)
  end.

Definition file_insert (g inode_no : Z) (data : list Z) (c : FileContentCache) : FileContentCache :=
  let c := file_ensure_generation g c in
  let size := len data in
  if (size =? 0) || (FILE_CACHE_MAX_FILE_BYTES <? size) || (FILE_CACHE_MAX_TOTAL_BYTES <? size) then c
  else match file_map c !! inode_no with
       | Some _ => c
       | None =>
         let '(order, map, total) := evict_files size (file_order c) (file_map c) (total_bytes c) in
         mkFileCache (file_generation c) (total + size) (<[inode_no := data]> map) (order ++ [inode_no])
       end.

Definition file_invalidate_inode (g inode_no : Z) (c : FileContentCache) : FileContentCache :=
  let c := file_ensure_generation g c in
  mkFileCache (file_generation c)
    (match file_map c !! inode_no with
     | Some old => saturating_sub (total_bytes c) (len old) | None => total_bytes c end)
    (delete inode_no (file_map c)) (filter (fun i => i <> inode_no) (file_order c)).

Definition file_invalidate_all_entries (c : FileContentCache) : FileContentCache :=
  mkFileCache (file_generation c) 0 ∅ [].

(** ** Directory indices *)

Record DirIndexEntry := mkDirIndex { names : gmap string Z; next_free_slot_hint : Z }.
Record DirIndexCache := mkDirCache {
  dir_generation : Z; dir_map : gmap Z DirIndexEntry; dir_order : list Z;
}.
Definition DirIndexCache_default : DirIndexCache := mkDirCache 0 ∅ [].

Definition dir_ensure_generation (g : Z) (c : DirIndexCache) : DirIndexCache :=
  if dir_generation c =? g then c else mkDirCache g ∅ [].

Definition dir_get (g parent : Z) (c : DirIndexCache) : option DirIndexEntry * DirIndexCache :=
  let c := dir_ensure_generation g c in (dir_map c !! parent, c).
Definition dir_lookup (g parent : Z) (name : string) (c : DirIndexCache) : option Z * DirIndexCache :=
  let c := dir_ensure_generation g c in
  (match dir_map c !! parent with Some e => names e !! name | None => None end, c).

Definition dir_insert (g parent : Z) (entry : DirIndexEntry) (c : DirIndexCache) : DirIndexCache :=
  let c := dir_ensure_generation g c in
  let order := match dir_map c !! parent with None => dir_order c ++ [parent] | Some _ => dir_order c end in
  let '(order, map) := evict DIR_INDEX_CACHE_CAPACITY order (<[parent := entry]> (dir_map c)) in
  mkDirCache (dir_generation c) map order.

Definition dir_update_after_insert (g parent : Z) (name : string) (ino hint : Z) (c : DirIndexCache)
    : DirIndexCache :=
  let c := dir_ensure_generation g c in
  mkDirCache (dir_generation c)
    (alter (fun e => mkDirIndex (<[name := ino]> (names e)) hint) parent (dir_map c)) (dir_order c).
Definition dir_remove (g parent : Z) (name : string) (c : DirIndexCache) : DirIndexCache :=
  let c := dir_ensure_generation g c in
  mkDirCache (dir_generation c)
    (alter (fun e => mkDirIndex (delete name (names e)) 0) parent (dir_map c)) (dir_order c).
Definition dir_rename (g old_parent : Z) (old_name : string) (new_parent : Z) (new_name : string) (ino : Z)
    (c : DirIndexCache) : DirIndexCache :=
  dir_update_after_insert g new_parent new_name ino 0 (dir_remove g old_parent old_name c).

(** ** [TwilightFsShared] *)

Record TwilightFsShared := mkShared {
  shared_generation : Z; lookup_cache : PathLookupCache; file_cache : FileContentCache;
  dir_index_cache : DirIndexCache;
}.
Definition TwilightFsShared_new : TwilightFsShared :=
  mkShared 0 PathLookupCache_default FileContentCache_default DirIndexCache_default.

Definition set_lookup (c : PathLookupCache) (s : TwilightFsShared) : TwilightFsShared :=
  mkShared (shared_generation s) c (file_cache s) (dir_index_cache s).
Definition set_files (c : FileContentCache) (s : TwilightFsShared) : TwilightFsShared :=
  mkShared (shared_generation s) (lookup_cache s) c (dir_index_cache s).
Definition set_dirs (c : DirIndexCache) (s : TwilightFsShared) : TwilightFsShared :=
  mkShared (shared_generation s) (lookup_cache s) (file_cache s) c.

Definition invalidate_namespace (s : TwilightFsShared) : TwilightFsShared :=
  mkShared (usize (shared_generation s + 1)) (lookup_cache s)
    (file_invalidate_all_entries (file_cache s)) (dir_index_cache s).
Definition invalidate_file_inode (ino : Z) (s : TwilightFsShared) : TwilightFsShared :=
  set_files (file_invalidate_inode (shared_generation s) ino (file_cache s)) s.
Definition lookup_cached (path : string) (s : TwilightFsShared) : option Z * TwilightFsShared :=
  let '(r, c) := path_get (shared_generation s) path (lookup_cache s) in (r, set_lookup c s).
Definition insert_lookup (path : string) (ino : Z) (s : TwilightFsShared) : TwilightFsShared :=
  set_lookup (path_insert (shared_generation s) path ino (lookup_cache s)) s.
Definition remove_lookup_prefix (prefix : string) (s : TwilightFsShared) : TwilightFsShared :=
  set_lookup (path_remove_prefix (shared_generation s) prefix (lookup_cache s)) s.
Definition read_cached_file_slice (ino : Z) (offset n : nat) (s : TwilightFsShared)
    : option (list Z) * TwilightFsShared :=
  let '(r, c) := file_get_slice (shared_generation s) ino offset n (file_cache s) in (r, set_files c s).
Definition insert_file_cache (ino : Z) (data : list Z) (s : TwilightFsShared) : TwilightFsShared :=
  set_files (file_insert (shared_generation s) ino data (file_cache s)) s.
Definition dir_index_get (parent : Z) (s : TwilightFsShared) : option DirIndexEntry * TwilightFsShared :=
  let '(r, c) := dir_get (shared_generation s) parent (dir_index_cache s) in (r, set_dirs c s).
Definition dir_index_lookup (parent : Z) (name : string) (s : TwilightFsShared) : option Z * TwilightFsShared :=
  let '(r, c) := dir_lookup (shared_generation s) parent name (dir_index_cache s) in (r, set_dirs c s).
Definition dir_index_set (parent : Z) (entry : DirIndexEntry) (s : TwilightFsShared) : TwilightFsShared :=
  set_dirs (dir_insert (shared_generation s) parent entry (dir_index_cache s)) s.
Definition dir_index_update_after_insert (parent : Z) (name : string) (ino hint : Z) (s : TwilightFsShared)
    : TwilightFsShared :=
  set_dirs (dir_update_after_insert (shared_generation s) parent name ino hint (dir_index_cache s)) s.
Definition dir_index_remove (parent : Z) (name : string) (s : TwilightFsShared) : TwilightFsShared :=
  set_dirs (dir_remove (shared_generation s) parent name (dir_index_cache s)) s.
Definition dir_index_rename (old_parent : Z) (old_name : string) (new_parent : Z) (new_name : string) (ino : Z)
    (s : TwilightFsShared) : TwilightFsShared :=
  set_dirs (dir_rename (shared_generation s) old_parent old_name new_parent new_name ino (dir_index_cache s)) s.

(** ** Invariants *)

(** The queue lists the keys of the map, each once. *)
Definition queue_ok {K V} `{Countable K} (order : list K) (map : gmap K V) : Prop :=
  NoDup order /\ forall k, k ∈ order <-> is_Some (map !! k).

Section queue.
Context {K V : Type} `{Countable K}.
Implicit Types (order : list K) (map : gmap K V).

Lemma queue_ok_empty : queue_ok [] (∅ : gmap K V).
Proof.
  split; [constructor|]. intros k. rewrite lookup_empty. split; [by intros ?%not_elem_of_nil|].
  intros Hs. by apply is_Some_None in Hs.
Qed.

Lemma queue_ok_pop k order map : queue_ok (k :: order) map -> queue_ok order (delete k map).
Proof.
  intros [Hnd Hk]. apply NoDup_cons in Hnd as [Hn Hnd]. split; [done|]. intros k'.
  destruct (decide (k' = k)) as [->|Hne].
  - rewrite lookup_delete_eq. split; [done|]. intros Hs. by apply is_Some_None in Hs.
  - rewrite lookup_delete_ne by done. rewrite <- Hk, elem_of_cons. naive_solver.
Qed.

Lemma queue_ok_push k v order map :
  queue_ok order map -> map !! k = None -> queue_ok (order ++ [k]) (<[k := v]> map).
Proof.
  intros [Hnd Hk] Hm. split.
  - apply NoDup_app. split; [done|]. split; [|apply NoDup_singleton].
    intros x Hx Hx'. apply list_elem_of_singleton in Hx' as ->. apply Hk in Hx. rewrite Hm in Hx.
    by apply is_Some_None in Hx.
  - intros x. rewrite elem_of_app, list_elem_of_singleton, Hk. destruct (decide (x = k)) as [->|Hne].
    + rewrite lookup_insert_eq. split; [by eexists|by right].
    + rewrite lookup_insert_ne by done. naive_solver.
Qed.

(** Replacing the value of a present key, or dropping the keys that fail a test. *)
Lemma queue_ok_dom order map (map' : gmap K V) :
  queue_ok order map -> (forall k, is_Some (map' !! k) <-> is_Some (map !! k)) -> queue_ok order map'.
Proof. intros [Hnd Hk] Hd. split; [done|]. intros k. by rewrite Hd. Qed.

Lemma queue_ok_filter (P : K -> Prop) `{!forall k, Decision (P k)} order map (map' : gmap K V) :
  queue_ok order map -> (forall k, is_Some (map' !! k) <-> P k /\ is_Some (map !! k)) ->
  queue_ok (filter P order) map'.
Proof.
  intros [Hnd Hk] Hd. split; [by apply NoDup_filter|]. intros k.
  by rewrite list_elem_of_filter, Hd, Hk.
Qed.

Lemma evict_spec cap order map order' map' :
  queue_ok order map -> evict cap order map = (order', map') ->
  queue_ok order' map' /\ (length order' <= cap)%nat /\ (exists dropped, order = dropped ++ order') /\
  (forall k, k ∈ order' -> map' !! k = map !! k).
Proof.
  revert map. induction order as [|k order IH]; intros map Hq He; cbn [evict] in He.
  { injection He as <- <-. split; [done|]. split; [cbn; lia|]. split; [by exists []|done]. }
  destruct (cap <? length (k :: order))%nat eqn:Hc; bool_to_prop.
  - destruct (IH _ (queue_ok_pop _ _ _ Hq) He) as (H1 & H2 & (dr & H3) & H4).
    split; [done|]. split; [done|]. split; [exists (k :: dr); by rewrite H3|].
    intros x Hx. rewrite H4 by done. apply lookup_delete_ne. intros <-.
    destruct Hq as [Hnd _]. apply NoDup_cons in Hnd as [Hn _]. apply Hn. rewrite H3.
    apply elem_of_app. by right.
  - injection He as <- <-. split; [done|]. split; [done|]. split; [by exists []|done].
Qed.
End queue.

Definition path_ok (c : PathLookupCache) : Prop :=
  queue_ok (path_order c) (path_map c) /\ (length (path_order c) <= PATH_LOOKUP_CACHE_CAPACITY)%nat.
Definition dir_ok (c : DirIndexCache) : Prop :=
  queue_ok (dir_order c) (dir_map c) /\ (length (dir_order c) <= DIR_INDEX_CACHE_CAPACITY)%nat.

Definition size_of (map : gmap Z (list Z)) (i : Z) : Z :=
  match map !! i with Some d => len d | None => 0 end.
Definition sizes (map : gmap Z (list Z)) (order : list Z) : Z := foldr (fun i acc => size_of map i + acc) 0 order.

(** The byte count is that of the cached files, within the two limits. *)
Definition files_ok (c : FileContentCache) : Prop :=
  queue_ok (file_order c) (file_map c) /\ total_bytes c = sizes (file_map c) (file_order c) /\
  total_bytes c <= FILE_CACHE_MAX_TOTAL_BYTES /\
  forall i d, file_map c !! i = Some d -> 0 < len d <= FILE_CACHE_MAX_FILE_BYTES.

Lemma sizes_cons map i order : sizes map (i :: order) = size_of map i + sizes map order.
Proof. done. Qed.

Lemma size_of_nonneg map i : 0 <= size_of map i.
Proof. unfold size_of, len. destruct (map !! i); lia. Qed.

Lemma sizes_nonneg map order : 0 <= sizes map order.
Proof.
  induction order as [|i order IH]; [done|]. rewrite sizes_cons. pose proof (size_of_nonneg map i). lia.
Qed.

Lemma sizes_ext map map' order :
  (forall i, i ∈ order -> map' !! i = map !! i) -> sizes map' order = sizes map order.
Proof.
  induction order as [|i order IH]; intros Hm; [done|]. rewrite !sizes_cons.
  unfold size_of at 1 2. rewrite Hm by by left. f_equal. apply IH. intros j Hj. apply Hm. by right.
Qed.

Lemma sizes_app map o1 o2 : sizes map (o1 ++ o2) = sizes map o1 + sizes map o2.
Proof. induction o1 as [|i o1 IH]; [done|]. cbn [app]. rewrite !sizes_cons, IH. lia. Qed.

Lemma evict_files_spec size order map total order' map' total' :
  queue_ok order map -> total = sizes map order -> 0 <= size <= FILE_CACHE_MAX_TOTAL_BYTES ->
  evict_files size order map total = (order', map', total') ->
  queue_ok order' map' /\ total' = sizes map' order' /\ total' + size <= FILE_CACHE_MAX_TOTAL_BYTES /\
  (forall i d, map' !! i = Some d -> map !! i = Some d).
Proof.
  intros Hq Ht Hs. revert map total Hq Ht. induction order as [|e order IH]; intros map total Hq Ht He; cbn [evict_files] in He.
  { injection He as <- <- <-. subst. split; [done|]. split; [done|]. split; [cbn; lia|done]. }
  destruct (_ <? total + size) eqn:Hc; bool_to_prop; [|by injection He as <- <- <-].
  pose proof Hq as [Hnd Hk]. destruct (proj1 (Hk e) (list_elem_of_here _ _)) as [old Hold]. rewrite Hold in He.
  assert (sizes (delete e map) order = sizes map order) as Hsz.
  { apply sizes_ext. intros i Hi. apply lookup_delete_ne. intros <-. by apply NoDup_cons in Hnd as [? _]. }
  apply IH in He as (H1 & H2 & H3 & H4); [|by apply queue_ok_pop|].
  - split; [done|]. split; [done|]. split; [done|]. intros i d Hi. apply H4 in Hi.
    by apply lookup_delete_Some in Hi as [_ ?].
  - rewrite Hsz, Ht. rewrite sizes_cons. unfold size_of. rewrite Hold.
    unfold saturating_sub, len. pose proof (sizes_nonneg map order). lia.
Qed.

Lemma path_ensure_ok g c : path_ok c -> path_ok (path_ensure_generation g c).
Proof. intros. unfold path_ensure_generation. case_if; [done|]. split; [apply queue_ok_empty|cbn; lia]. Qed.
Lemma dir_ensure_ok g c : dir_ok c -> dir_ok (dir_ensure_generation g c).
Proof. intros. unfold dir_ensure_generation. case_if; [done|]. split; [apply queue_ok_empty|cbn; lia]. Qed.
Lemma files_empty_ok g : files_ok (mkFileCache g 0 ∅ []).
Proof. split; [apply queue_ok_empty|]. split; [done|]. split; [done|]. intros i d Hi. cbn in Hi. by rewrite lookup_empty in Hi. Qed.
Lemma files_ensure_ok g c : files_ok c -> files_ok (file_ensure_generation g c).
Proof. intros. unfold file_ensure_generation. case_if; [done|]. apply files_empty_ok. Qed.

Lemma path_insert_ok g path ino c : path_ok c -> path_ok (path_insert g path ino c).
Proof.
  intros Hc%(path_ensure_ok g). unfold path_insert. cbv zeta. set (c' := path_ensure_generation g c) in *.
  destruct (path_map c' !! path) eqn:Hp; [done|]. destruct (evict _ _ _) as [order map] eqn:He.
  apply evict_spec in He as (H1 & H2 & _); [by split|]. apply queue_ok_push; [apply Hc|done].
Qed.

Lemma path_remove_prefix_ok g prefix c : path_ok c -> path_ok (path_remove_prefix g prefix c).
Proof.
  intros [Hq Hl]%(path_ensure_ok g). split; cbn.
  - eapply (queue_ok_filter (fun p => under_prefix prefix p = false)); [exact Hq|]. intros k.
    unfold is_Some. setoid_rewrite map_lookup_filter_Some. cbn. naive_solver.
  - etransitivity; [apply length_filter|done].
Qed.

Lemma file_insert_ok g ino data c : files_ok c -> files_ok (file_insert g ino data c).
Proof.
  intros Hc%(files_ensure_ok g). unfold file_insert. cbv zeta. set (c' := file_ensure_generation g c) in *.
  case_if; [done|]. destruct (file_map c' !! ino) eqn:Hi; [done|].
  destruct Hc as (Hq & Ht & Hm & Hf). destruct (evict_files _ _ _ _) as [[order map] total] eqn:He.
  apply evict_files_spec in He as (E1 & E2 & E3 & E4); [|done|done|unfold len in *; lia].
  assert (map !! ino = None) as Hn.
  { destruct (map !! ino) as [d|] eqn:Hd; [|done]. apply E4 in Hd. congruence. }
  split; [by apply queue_ok_push|].
  split; [|split; [done|]]; cbn [total_bytes file_map file_order].
  - rewrite sizes_app, (sizes_ext map), E2.
    + rewrite sizes_cons. unfold size_of. rewrite lookup_insert_eq. change (sizes _ []) with 0. lia.
    + intros i Hin. apply lookup_insert_ne. intros <-. apply E1 in Hin. rewrite Hn in Hin.
      by apply is_Some_None in Hin.
  - intros i d Hd. destruct (decide (i = ino)) as [->|Hne].
    + rewrite lookup_insert_eq in Hd. injection Hd as <-. unfold len in *. lia.
    + rewrite lookup_insert_ne in Hd by done. by eapply Hf, E4.
Qed.

Lemma sizes_delete map order i :
  NoDup order -> i ∈ order -> sizes (delete i map) (filter (fun j => j <> i) order) = sizes map order - size_of map i.
Proof.
  induction order as [|j order IH]; intros Hnd Hin; [by apply not_elem_of_nil in Hin|].
  apply NoDup_cons in Hnd as [Hn Hnd]. destruct (decide (j = i)) as [->|Hne].
  - rewrite filter_cons_False by tauto. rewrite filter_all, sizes_cons.
    + rewrite (sizes_ext map (delete i map)); [lia|]. intros k Hk. apply lookup_delete_ne. by intros <-.
    + apply Forall_forall. by intros k Hk ->.
  - rewrite filter_cons_True, !sizes_cons by done. apply elem_of_cons in Hin as [->|Hin]; [done|].
    rewrite IH by done. unfold size_of at 1. rewrite lookup_delete_ne by done.
    fold (size_of map j). lia.
Qed.

Lemma file_invalidate_inode_ok g ino c : files_ok c -> files_ok (file_invalidate_inode g ino c).
Proof.
  intros Hc%(files_ensure_ok g). unfold file_invalidate_inode. cbv zeta. set (c' := file_ensure_generation g c) in *.
  destruct Hc as (Hq & Ht & Hm & Hf). split; [|split; [|split]]; cbn [total_bytes file_map file_order].
  - eapply queue_ok_filter; [exact Hq|]. intros k. unfold is_Some. setoid_rewrite lookup_delete_Some. naive_solver.
  - destruct (file_map c' !! ino) as [old|] eqn:Hi.
    + assert (ino ∈ file_order c') as Hin by (apply Hq; by rewrite Hi).
      rewrite sizes_delete by (done || apply Hq). unfold size_of. rewrite Hi, <- Ht.
      pose proof (sizes_nonneg (delete ino (file_map c')) (filter (fun j => j <> ino) (file_order c'))) as Hp.
      rewrite sizes_delete in Hp by (done || apply Hq). unfold size_of in Hp. rewrite Hi in Hp.
      unfold saturating_sub. lia.
    + rewrite filter_all, (sizes_ext (file_map c')); [done| |].
      * intros i Hin. apply lookup_delete_ne. intros <-. apply Hq in Hin. rewrite Hi in Hin. by apply is_Some_None in Hin.
      * apply Forall_forall. intros i Hin ->. apply Hq in Hin. rewrite Hi in Hin. by apply is_Some_None in Hin.
  - destruct (file_map c' !! ino); [|done]. unfold saturating_sub, len, FILE_CACHE_MAX_TOTAL_BYTES in *. lia.
  - intros i d Hd. apply lookup_delete_Some in Hd as [_ Hd]. by eapply Hf.
Qed.

Lemma dir_insert_ok g parent e c : dir_ok c -> dir_ok (dir_insert g parent e c).
Proof.
  intros Hc%(dir_ensure_ok g). unfold dir_insert. cbv zeta. set (c' := dir_ensure_generation g c) in *.
  destruct (evict _ _ _) as [order map] eqn:He. apply evict_spec in He as (H1 & H2 & _); [by split|].
  destruct (dir_map c' !! parent) eqn:Hp; [|by apply queue_ok_push; [apply Hc|]].
  eapply queue_ok_dom; [apply Hc|]. intros k. destruct (decide (k = parent)) as [->|Hne].
  - rewrite lookup_insert_eq, Hp. by split.
  - by rewrite lookup_insert_ne.
Qed.

Lemma dir_alter_ok g f parent c :
  dir_ok c -> dir_ok (let c := dir_ensure_generation g c in
    mkDirCache (dir_generation c) (alter f parent (dir_map c)) (dir_order c)).
Proof.
  intros [Hq Hl]%(dir_ensure_ok g). split; [|done]. eapply queue_ok_dom; [exact Hq|]. intros k. cbn.
  destruct (decide (k = parent)) as [->|Hne]; [|by rewrite lookup_alter_ne].
  by rewrite lookup_alter_eq, fmap_is_Some.
Qed.

(** ** Runs of cache operations *)

Inductive shared_op :=
| SNamespace | SInvalidate (ino : Z) | SLookup (path : string) | SInsertLookup (path : string) (ino : Z)
| SRemovePrefix (prefix : string) | SRead (ino : Z) (offset n : nat) | SInsertFile (ino : Z) (data : list Z)
| SDirGet (parent : Z) | SDirLookup (parent : Z) (name : string) | SDirSet (parent : Z) (e : DirIndexEntry)
| SDirUpdate (parent : Z) (name : string) (ino hint : Z) | SDirRemove (parent : Z) (name : string)
| SDirRename (old_parent : Z) (old_name : string) (new_parent : Z) (new_name : string) (ino : Z).

Definition apply_op (s : TwilightFsShared) (o : shared_op) : TwilightFsShared :=
  match o with
  | SNamespace => invalidate_namespace s
  | SInvalidate ino => invalidate_file_inode ino s
  | SLookup p => snd (lookup_cached p s)
  | SInsertLookup p ino => insert_lookup p ino s
  | SRemovePrefix p => remove_lookup_prefix p s
  | SRead ino off n => snd (read_cached_file_slice ino off n s)
  | SInsertFile ino d => insert_file_cache ino d s
  | SDirGet p => snd (dir_index_get p s)
  | SDirLookup p n => snd (dir_index_lookup p n s)
  | SDirSet p e => dir_index_set p e s
  | SDirUpdate p n i h => dir_index_update_after_insert p n i h s
  | SDirRemove p n => dir_index_remove p n s
  | SDirRename op on np nn i => dir_index_rename op on np nn i s
  end.
Definition run_shared (ops : list shared_op) : TwilightFsShared := foldl apply_op TwilightFsShared_new ops.

Definition shared_ok (s : TwilightFsShared) : Prop :=
  path_ok (lookup_cache s) /\ files_ok (file_cache s) /\ dir_ok (dir_index_cache s).

Lemma dir_update_ok g parent name ino hint c : dir_ok c -> dir_ok (dir_update_after_insert g parent name ino hint c).
Proof. apply dir_alter_ok. Qed.
Lemma dir_remove_ok g parent name c : dir_ok c -> dir_ok (dir_remove g parent name c).
Proof. apply dir_alter_ok. Qed.
Lemma dir_rename_ok g op on np nn ino c : dir_ok c -> dir_ok (dir_rename g op on np nn ino c).
Proof. intros. by apply dir_update_ok, dir_remove_ok. Qed.

Lemma file_invalidate_all_ok c : files_ok (file_invalidate_all_entries c).
Proof. apply files_empty_ok. Qed.

#[export] Hint Resolve path_ensure_ok path_insert_ok path_remove_prefix_ok files_ensure_ok file_invalidate_all_ok
  file_insert_ok file_invalidate_inode_ok dir_ensure_ok dir_insert_ok dir_update_ok dir_remove_ok
  dir_rename_ok : twilight.

Lemma apply_op_ok s o : shared_ok s -> shared_ok (apply_op s o).
Proof.
  intros (Hp & Hf & Hd). destruct o; (split; [|split]);
    cbn [apply_op invalidate_namespace invalidate_file_inode lookup_cached insert_lookup remove_lookup_prefix
      read_cached_file_slice insert_file_cache dir_index_get dir_index_lookup dir_index_set
      dir_index_update_after_insert dir_index_remove dir_index_rename path_get file_get_slice dir_get
      dir_lookup set_lookup set_files set_dirs lookup_cache file_cache
      dir_index_cache snd]; auto with twilight.
Qed.

(** After any sequence of operations the path cache holds at most 1024 paths, the directory cache at most 512 directories, the file cache at most 32 MiB with an exact byte count, and each eviction queue lists the keys of its map once. *)
Theorem caches_bounded (ops : list shared_op) :
  let s := run_shared ops in
  (length (path_order (lookup_cache s)) <= 1024)%nat /\
  (length (dir_order (dir_index_cache s)) <= 512)%nat /\
  total_bytes (file_cache s) = sizes (file_map (file_cache s)) (file_order (file_cache s)) /\
  total_bytes (file_cache s) <= 33554432 /\
  queue_ok (path_order (lookup_cache s)) (path_map (lookup_cache s)) /\
  queue_ok (file_order (file_cache s)) (file_map (file_cache s)) /\
  queue_ok (dir_order (dir_index_cache s)) (dir_map (dir_index_cache s)).
Proof.
  intros s. assert (shared_ok s) as ((Hp1 & Hp2) & (Hf1 & Hf2 & Hf3 & _) & (Hd1 & Hd2)).
  { unfold s, run_shared. assert (shared_ok TwilightFsShared_new) as H0.
    { split; [|split; [apply files_empty_ok|]]; (split; [apply queue_ok_empty|cbn; lia]). }
    revert H0. generalize TwilightFsShared_new. induction ops as [|o ops IH]; intros s0 H0; [done|].
    by apply IH, apply_op_ok. }
  done.
Qed.

(** ** Coherence of the file cache

    A run in which the files change: a write to a file drops its entry, a change
    of the namespace drops them all, and what is inserted is the file's content. *)

Inductive file_event :=
| FWrite (ino : Z) (data : list Z) | FNamespace (contents : Z -> list Z) | FFill (ino : Z)
| FOther (o : shared_op).

Definition harmless (e : file_event) : bool :=
  match e with FOther (SInsertFile _ _) => false | _ => true end.

Definition file_step (st : (Z -> list Z) * TwilightFsShared) (e : file_event)
    : (Z -> list Z) * TwilightFsShared :=
  let '(disk, s) := st in
  match e with
  | FWrite ino data => (fun i => if i =? ino then data else disk i, invalidate_file_inode ino s)
  | FNamespace disk' => (disk', invalidate_namespace s)
  | FFill ino => (disk, insert_file_cache ino (disk ino) s)
  | FOther o => (disk, apply_op s o)
  end.

Definition coherent_files (disk : Z -> list Z) (c : FileContentCache) : Prop :=
  forall i d, file_map c !! i = Some d -> d = disk i.

Lemma coherent_empty disk g : coherent_files disk (mkFileCache g 0 ∅ []).
Proof. intros i d Hi. cbn [file_map] in Hi. by rewrite lookup_empty in Hi. Qed.

Lemma coherent_ensure disk g c : coherent_files disk c -> coherent_files disk (file_ensure_generation g c).
Proof.
  intros Hc. unfold file_ensure_generation. case_if; [done|]. apply coherent_empty.
Qed.

Lemma coherent_insert disk g ino c :
  files_ok c -> coherent_files disk c -> coherent_files disk (file_insert g ino (disk ino) c).
Proof.
  intros Ho%(files_ensure_ok g) Hc%(coherent_ensure disk g). unfold file_insert. cbv zeta.
  set (c' := file_ensure_generation g c) in *. case_if; [done|].
  destruct (file_map c' !! ino) eqn:Hi; [done|]. destruct Ho as (Hq & Ht & _).
  destruct (evict_files _ _ _ _) as [[order map] total] eqn:He.
  apply evict_files_spec in He as (_ & _ & _ & E4); [|done|done|unfold len in *; lia].
  intros i d Hd. cbn in Hd. destruct (decide (i = ino)) as [->|Hne].
  - rewrite lookup_insert_eq in Hd. by injection Hd as <-.
  - rewrite lookup_insert_ne in Hd by done. by apply Hc, E4.
Qed.

Lemma coherent_invalidate disk data g ino c :
  coherent_files disk c ->
  coherent_files (fun i => if i =? ino then data else disk i) (file_invalidate_inode g ino c).
Proof.
  intros Hc%(coherent_ensure disk g) i d Hd. cbn [file_invalidate_inode file_map] in Hd.
  apply lookup_delete_Some in Hd as [Hne Hd].
  replace (i =? ino) with false by lia. by apply Hc.
Qed.

Lemma file_step_coherent st e :
  harmless e = true -> shared_ok st.2 -> coherent_files st.1 (file_cache st.2) ->
  shared_ok (file_step st e).2 /\ coherent_files (file_step st e).1 (file_cache (file_step st e).2).
Proof.
  destruct st as [disk s]. intros Hh Ho Hc. destruct e as [ino data|disk'|ino|o]; cbn [file_step fst snd] in *.
  - split; [by apply (apply_op_ok s (SInvalidate ino))|]. by apply coherent_invalidate.
  - split; [by apply (apply_op_ok s SNamespace)|]. apply coherent_empty.
  - split; [by apply (apply_op_ok s (SInsertFile ino (disk ino)))|]. apply coherent_insert; [apply Ho|done].
  - split; [by apply apply_op_ok|]. destruct o; try done.
    + intros i d Hi.
      cbn [apply_op invalidate_file_inode set_files file_cache file_invalidate_inode file_map] in Hi.
      apply lookup_delete_Some in Hi as [_ Hi]. by eapply (coherent_ensure disk).
    + by apply (coherent_ensure disk).
Qed.

(** C37. In any run of cache operations where file writes invalidate their inode, namespace changes invalidate everything and fills insert the current content, a hit returns exactly the requested slice of the current content of the file. *)
Theorem file_cache_coherent (disk0 : Z -> list Z) (es : list file_event) (ino : Z) (offset n : nat) b s' :
  forallb harmless es = true ->
  let st := foldl file_step (disk0, TwilightFsShared_new) es in
  read_cached_file_slice ino offset n st.2 = (Some b, s') ->
  b = take n (drop offset (st.1 ino)).
Proof.
  intros Hes st.
  assert (shared_ok st.2 /\ coherent_files st.1 (file_cache st.2)) as [_ Hc].
  { assert (shared_ok TwilightFsShared_new /\ coherent_files disk0 (file_cache TwilightFsShared_new)) as H0.
    { split; [|apply coherent_empty].
      split; [|split; [apply files_empty_ok|]]; (split; [apply queue_ok_empty|cbn; lia]). }
    unfold st. clear st. revert Hes H0. generalize TwilightFsShared_new. revert disk0.
    induction es as [|e es IH]; intros disk s Hes [H1 H2]; [done|].
    cbn [forallb] in Hes. apply andb_true_iff in Hes as [He Hes]. cbn [foldl].
    destruct (file_step_coherent (disk, s) e He H1 H2) as [H3 H4].
    destruct (file_step (disk, s) e) as [disk' s1]. by apply IH. }
  unfold read_cached_file_slice, file_get_slice. intros Hr.
  apply (coherent_ensure st.1 (shared_generation st.2)) in Hc.
  destruct (file_map _ !! ino) as [d|] eqn:Hd; [|done]. apply Hc in Hd as ->.
  case_if; injection Hr as <- <-; [|done]. rewrite drop_ge by done. by rewrite take_nil.
Qed.

Lemma file_cache_coherent_witness :
  let es := [FWrite 3 [1; 2; 3; 4]; FFill 3; FOther (SLookup "/a"); FWrite 4 [9]] in
  let st := foldl file_step (fun _ => [], TwilightFsShared_new) es in
  exists s', read_cached_file_slice 3 1 2 st.2 = (Some [2; 3], s') /\
    [2; 3] = take 2 (drop 1 (st.1 3)).
Proof.
  intros es st. eexists. split; [vm_compute; reflexivity|].
  eapply (file_cache_coherent (fun _ => []) es 3 1 2); [vm_compute; reflexivity|vm_compute; reflexivity].
Defined.
