(* ===== verification/Vfs.v ===== *)
(** * The virtual file system (sys/fs/vfs.rs)

    Metadata, the [FileSystem] and [VfsNodeOps] traits as classes, and the mount
    table.  A mounted file system is an [Arc<Mutex<dyn FileSystem>>]: the table holds
    its index into a store of file systems, so that two mounts may share one and
    [Arc::ptr_eq] compares indices. *)

From Stdlib Require Import ZifyBool.
From S2P Require Import Prelude Bytes Text Preempt.
Open Scope twilight_scope.

Module FileType.
Inductive t := File | Dir | Symlink | CharDevice | BlockDevice | Socket.
End FileType.

#[export] Instance FileType_eq_dec : EqDecision FileType.t.
Proof. solve_decision. Defined.

Inductive VfsError := NotFound | NotDir | AlreadyExists | Io | Invalid | ReadOnly.

Record Metadata := mkMetadata {
  ino : Z; uid : Z; gid : Z; name : string; file_type : FileType.t; meta_mode : Z; size : Z;
  created_time : Z; access_time : Z; modified_time : Z;
}.

Definition Metadata_dir (ino : Z) (name : string) : Metadata :=
  mkMetadata ino 0 0 name FileType.Dir 16877 0 0 0 0.
Definition Metadata_chr (ino : Z) (name : string) : Metadata :=
  mkMetadata ino 0 0 name FileType.CharDevice 8630 0 0 0 0.
Definition Metadata_blk (ino : Z) (name : string) (size : Z) : Metadata :=
  mkMetadata ino 0 0 name FileType.BlockDevice 25008 size 0 0 0.

Record FsStats := mkFsStats {
  st_fs_type : Z; st_block_size : Z; st_blocks : Z; st_blocks_free : Z; st_blocks_available : Z;
  st_files : Z; st_files_free : Z; st_name_length : Z; st_fragment_size : Z; st_flags : Z;
}.
Definition FsStats_default : FsStats := mkFsStats 0 0 0 0 0 0 0 0 0 0.

(** ** Nodes

    [S] is the state the node lives in, [N] the handle of an open node.  [vn_read]
    returns the bytes copied into a buffer of the given length. *)

Class VfsNodeOps (S N : Type) := {
  vn_read : N -> Z -> nat -> M S unit (list Z);
  vn_write : N -> Z -> list Z -> M S unit unit;
  vn_poll : N -> M S unit bool;
  vn_ioctl : N -> Z -> Z -> M S unit Z;
  vn_unlink : N -> M S unit Z;
  vn_truncate : N -> Z -> M S Z unit;
}.

Definition ENOSYS_NEG : Z := -38.
(** The provided [truncate]. *)
Definition truncate_unsupported {S N} (_ : N) (_ : Z) : M S Z unit := failM ENOSYS_NEG.

Record VfsNode (N : Type) := mkVfsNode { metadata : Metadata; node : N }.
Arguments mkVfsNode {N} metadata node.
Arguments metadata {N} _.
Arguments node {N} _.

Definition set_size (len : Z) (m : Metadata) : Metadata :=
  mkMetadata (ino m) (uid m) (gid m) (name m) (file_type m) (meta_mode m) len
    (created_time m) (access_time m) (modified_time m).

Section node.
Context {S N : Type} `{VfsNodeOps S N}.

Definition VfsNode_read (n : VfsNode N) (lba : Z) (len : nat) : M S unit (list Z) :=
  vn_read (node n) lba len.
Definition VfsNode_write (n : VfsNode N) (lba : Z) (data : list Z) : M S unit unit :=
  vn_write (node n) lba data.
Definition VfsNode_poll (n : VfsNode N) : M S unit bool := vn_poll (node n).
Definition VfsNode_unlink (n : VfsNode N) : M S unit Z := vn_unlink (node n).
Definition VfsNode_ioctl (n : VfsNode N) (cmd arg : Z) : M S unit Z := vn_ioctl (node n) cmd arg.

(** The node's truncation, then the cached size of this open node. *)
Definition VfsNode_truncate (n : VfsNode N) (len : Z) : M S Z (VfsNode N) :=
  vn_truncate (node n) len >>> retM (mkVfsNode (set_size len (metadata n)) (node n)).
End node.

(** ** File systems *)

Class FileSystem (F N : Type) := {
  fs_open : string -> M F unit (VfsNode N);
  fs_mkdir : string -> string -> Z -> M F unit unit;
  fs_rmdir : string -> M F unit unit;
  fs_rename : string -> string -> M F unit unit;
  fs_ls : string -> M F unit (list Metadata);
  fs_rm : string -> M F unit unit;
  fs_touch : string -> string -> Z -> M F unit unit;
  fs_metadata : string -> M F unit Metadata;
  fs_chmod : string -> Z -> M F VfsError unit;
  fs_set_attr : string -> Z -> Z -> M F unit unit;
  fs_get_attr : string -> Z -> M F unit Z;
  fs_type_name : F -> string;
  fs_source_name : F -> string;
  fs_stats : M F unit FsStats;
}.

(** The provided methods. *)
Definition rename_unsupported {F} (_ _ : string) : M F unit unit := failM tt.
Definition chmod_read_only {F} (_ : string) (_ : Z) : M F VfsError unit := failM ReadOnly.
Definition set_attr_unsupported {F} (_ : string) (_ _ : Z) : M F unit unit := failM tt.
Definition get_attr_unsupported {F} (_ : string) (_ : Z) : M F unit Z := failM tt.
Definition stats_default {F} : M F unit FsStats := retM (mkFsStats 0 4096 0 0 0 0 0 255 4096 0).

(** ** The mount table *)

Record MountPoint := mkMount {
  prefix : string; mount_fs : nat; mount_fs_type : string; mount_source : string;
}.
Record Vfs := mkVfs { mount_points : list MountPoint }.

Definition Vfs_new : Vfs := mkVfs [].

Definition plen (m : MountPoint) : nat := slen (prefix m).

(** [sort_by] is stable: an element goes after those that are not shorter. *)
Fixpoint insert_mount (m : MountPoint) (l : list MountPoint) : list MountPoint :=
  match l with
  | [] => [m]
  | x :: l' => if (plen x <? plen m)%nat then m :: l else x :: insert_mount m l'
  end.
Definition sort_mounts (l : list MountPoint) : list MountPoint :=
  fold_left (fun acc m => insert_mount m acc) l [].

(** [iter().position(|mount| mount.prefix == prefix)] and [remove]. *)
Fixpoint remove_mount (p : string) (l : list MountPoint) : option (list MountPoint) :=
  match l with
  | [] => None
  | m :: l => if decide (prefix m = p) then Some l
              else match remove_mount p l with Some l => Some (m :: l) | None => None end
  end.

Definition Vfs_unmount (p : string) (v : Vfs) : bool * Vfs :=
  match remove_mount p (mount_points v) with
  | Some l => (true, mkVfs l)
  | None => (false, v)
  end.

Definition mount_matches (path : string) (m : MountPoint) : bool :=
  starts_with path (prefix m) || String.eqb path "." && String.eqb (prefix m) "/".

Fixpoint find_mount (path : string) (l : list MountPoint) : option MountPoint :=
  match l with
  | [] => None
  | m :: l => if mount_matches path m then Some m else find_mount path l
  end.

Definition relative (path : string) (m : MountPoint) : string :=
  let rel := slice_from (plen m) path in if is_empty rel then "/" else rel.

Definition route (v : Vfs) (path : string) : option (string * nat) :=
  match find_mount path (mount_points v) with
  | Some m => Some (relative path m, mount_fs m)
  | None => None
  end.

(** ** Operations: route, lock, call *)

Record World (F : Type) := mkWorld { fss : list F; world_pre : Preempt }.
Arguments mkWorld {F} fss world_pre.
Arguments fss {F} _.
Arguments world_pre {F} _.

Section ops.
Context {F N : Type} `{FileSystem F N}.

Definition Vfs_mount (p : string) (fs : nat) (f : F) (v : Vfs) : Vfs :=
  mkVfs (sort_mounts (mount_points v ++ [mkMount p fs (fs_type_name f) (fs_source_name f)])).

(** The call [op] on the file system with index [id], under its lock. *)
Definition call_fs {E A} (id : nat) (op : M F E A) : M (World F) E A :=
  fun w => match fss w !! id with
           | Some f => let '(r, f') := op f in (r, mkWorld (<[id := f']> (fss w)) (world_pre w))
           | None => (Panic, w)
           end.

Definition dispatch {E A} (v : Vfs) (path : string) (e : E) (op : string -> M F E A)
    : M (World F) E A :=
  match route v path with
  | None => failM e
  | Some (rel, id) => call_fs id (op rel)
  end.

(** [enter_vfs_context()] held around [m]. *)
Definition in_vfs_context {E A} (m : M (World F) E A) : M (World F) E A :=
  fun w => let '(r, w') := m (mkWorld (fss w) (ContextGuard_enter VfsContext (world_pre w))) in
           (r, mkWorld (fss w') (ContextGuard_drop VfsContext (world_pre w'))).

Definition Vfs_open (v : Vfs) (path : string) : M (World F) unit (VfsNode N) :=
  dispatch v path tt fs_open.
Definition Vfs_mkdir (v : Vfs) (parent_path path : string) (mode : Z) : M (World F) unit unit :=
  dispatch v parent_path tt (fun rel => fs_mkdir rel path mode).
Definition Vfs_rmdir (v : Vfs) (path : string) : M (World F) unit unit :=
  in_vfs_context (dispatch v path tt fs_rmdir).
Definition Vfs_rename (v : Vfs) (old_path new_path : string) : M (World F) unit unit :=
  match route v old_path, route v new_path with
  | Some (old_rel, old_fs), Some (new_rel, new_fs) =>
    if negb (old_fs =? new_fs)%nat then failM tt else call_fs old_fs (fs_rename old_rel new_rel)
  | _, _ => failM tt
  end.
Definition Vfs_ls (v : Vfs) (path : string) : M (World F) unit (list Metadata) :=
  dispatch v path tt fs_ls.
Definition Vfs_rm (v : Vfs) (path : string) : M (World F) unit unit := dispatch v path tt fs_rm.
Definition Vfs_touch (v : Vfs) (parent_path filename : string) (mode : Z) : M (World F) unit unit :=
  dispatch v parent_path tt (fun rel => fs_touch rel filename mode).
Definition Vfs_metadata (v : Vfs) (path : string) : M (World F) unit Metadata :=
  dispatch v path tt fs_metadata.
Definition Vfs_chmod (v : Vfs) (path : string) (mode : Z) : M (World F) VfsError unit :=
  dispatch v path NotFound (fun rel => fs_chmod rel mode).
Definition Vfs_stats (v : Vfs) (path : string) : M (World F) unit FsStats :=
  dispatch v path tt (fun _ => fs_stats).
Definition Vfs_set_attr (v : Vfs) (path : string) (attr value : Z) : M (World F) unit unit :=
  dispatch v path tt (fun rel => fs_set_attr rel attr value).
Definition Vfs_get_attr (v : Vfs) (path : string) (attr : Z) : M (World F) unit Z :=
  in_vfs_context (dispatch v path tt (fun rel => fs_get_attr rel attr)).
End ops.

(** ** Routing refines a scan of the live mounts in mount order

    [live] is the mount history with removed mounts taken out; the reference route
    scans it for the longest matching prefix, the earliest mount winning a tie. *)

Definition better (path : string) (acc : option MountPoint) (m : MountPoint) : option MountPoint :=
  if mount_matches path m then
    match acc with
    | Some b => if (plen b <? plen m)%nat then Some m else Some b
    | None => Some m
    end
  else acc.

Definition longest_match (path : string) (live : list MountPoint) : option MountPoint :=
  fold_left (better path) live None.

Inductive MountEvent := Mounted (m : MountPoint) | Unmounted (p : string).

Definition live_step (live : list MountPoint) (e : MountEvent) : list MountPoint :=
  match e with
  | Mounted m => live ++ [m]
  | Unmounted p => default live (remove_mount p live)
  end.

(** The same event on the table: [mount] and [unmount]. *)
Definition table_step (v : Vfs) (e : MountEvent) : Vfs :=
  match e with
  | Mounted m => mkVfs (sort_mounts (mount_points v ++ [m]))
  | Unmounted p => (Vfs_unmount p v).2
  end.

Definition by_len (a b : MountPoint) : Prop := (plen b <= plen a)%nat.

Lemma sort_mounts_snoc l m : sort_mounts (l ++ [m]) = insert_mount m (sort_mounts l).
Proof. unfold sort_mounts. by rewrite fold_left_app. Qed.

Lemma insert_mount_in m l x : x ∈ insert_mount m l -> x = m \/ x ∈ l.
Proof.
  induction l as [|y l IH]; cbn [insert_mount].
  - intros ->%list_elem_of_singleton. by left.
  - case_if; rewrite !elem_of_cons; naive_solver.
Qed.

Lemma insert_mount_sorted m l : StronglySorted by_len l -> StronglySorted by_len (insert_mount m l).
Proof.
  induction 1 as [|x l Hl IH Hx]; cbn [insert_mount]; [by repeat constructor|]. rewrite Forall_forall in Hx. case_if.
  - constructor; [constructor; [done|by apply Forall_forall]|]. apply Forall_forall.
    intros y [->|Hy]%elem_of_cons; unfold by_len in *; [lia|]. specialize (Hx y Hy). lia.
  - constructor; [done|]. apply Forall_forall. unfold by_len in *.
    intros y [->|Hy]%insert_mount_in; [lia|auto].
Qed.

Lemma sort_mounts_sorted l : StronglySorted by_len (sort_mounts l).
Proof.
  induction l as [|m l IH] using rev_ind; [constructor|].
  rewrite sort_mounts_snoc. by apply insert_mount_sorted.
Qed.

(** Inserting behind a sorted table appends to what is not longer. *)
Lemma insert_mount_end m l : Forall (fun x => by_len x m) l -> insert_mount m l = l ++ [m].
Proof.
  induction 1 as [|x l Hx _ IH]; cbn [insert_mount]; [done|]. unfold by_len in Hx.
  rewrite (proj2 (Nat.ltb_ge _ _)) by done. by rewrite IH.
Qed.

Lemma sort_mounts_id l : StronglySorted by_len l -> sort_mounts l = l.
Proof.
  induction l as [|m l IH] using rev_ind; [done|]. intros Hs.
  rewrite sort_mounts_snoc, IH.
  - apply insert_mount_end. clear IH. induction l as [|x l IHl]; [constructor|].
    inversion Hs as [|? ? Hl Hx]; subst. constructor; [|auto].
    rewrite Forall_app, Forall_singleton in Hx. tauto.
  - clear IH. induction l as [|x l IHl]; [constructor|]. inversion Hs as [|? ? Hl Hx]; subst.
    rewrite Forall_app in Hx. constructor; tauto.
Qed.

Lemma find_insert_mount path m l :
  StronglySorted by_len l ->
  find_mount path (insert_mount m l) = better path (find_mount path l) m.
Proof.
  induction 1 as [|x l Hl IH Hx]; cbn [insert_mount find_mount]; unfold better in *; [by cbn; case_match|].
  destruct (Nat.ltb_spec (plen x) (plen m)) as [Hlt|Hge]; cbn [find_mount].
  - destruct (mount_matches path m) eqn:Hm; [|done].
    destruct (mount_matches path x) eqn:Hmx; [by rewrite (proj2 (Nat.ltb_lt _ _))|].
    destruct (find_mount path l) as [b|] eqn:Hb; [|done].
    assert (plen b < plen m)%nat; [|by rewrite (proj2 (Nat.ltb_lt _ _))].
    rewrite Forall_forall in Hx.
    assert (b ∈ l) as Hbl by (clear -Hb; induction l as [|y l IHl]; cbn in Hb; [done|];
      case_match; simplify_eq; [by left|right; auto]).
    specialize (Hx b Hbl). unfold by_len in Hx. lia.
  - destruct (mount_matches path x) eqn:Hmx; [|done].
    by destruct (mount_matches path m); [rewrite (proj2 (Nat.ltb_ge _ _))|].
Qed.

Lemma find_sort_mounts path l : find_mount path (sort_mounts l) = longest_match path l.
Proof.
  unfold longest_match. induction l as [|m l IH] using rev_ind; [done|].
  rewrite sort_mounts_snoc, find_insert_mount, IH, fold_left_app by apply sort_mounts_sorted. done.
Qed.

Lemma remove_mount_shorter p l :
  Forall (fun x => (plen x < slen p)%nat) l -> remove_mount p l = None.
Proof.
  induction 1 as [|x l Hx _ IH]; cbn; [done|]. rewrite IH.
  destruct (decide _) as [<-|]; [unfold plen in Hx; lia|done].
Qed.

Lemma remove_mount_sub p l l' x : remove_mount p l = Some l' -> x ∈ l' -> x ∈ l.
Proof.
  revert l'. induction l as [|y l IH]; intros l'; cbn; [done|].
  destruct (decide _); [intros [= <-]; by right|].
  destruct (remove_mount p l) as [l1|]; [|done]. intros [= <-] [->|Hx]%elem_of_cons; [by left|].
  right. by apply (IH l1).
Qed.

Lemma insert_mount_front m l : Forall (fun x => (plen x < plen m)%nat) l -> insert_mount m l = m :: l.
Proof. destruct 1 as [|x l Hx _]; cbn [insert_mount]; [done|]. by rewrite (proj2 (Nat.ltb_lt _ _)). Qed.

Lemma remove_mount_cons p m l :
  remove_mount p (m :: l) =
  if decide (prefix m = p) then Some l
  else match remove_mount p l with Some l => Some (m :: l) | None => None end.
Proof. done. Qed.

Lemma remove_insert_mount p m l :
  StronglySorted by_len l ->
  remove_mount p (insert_mount m l) =
  match remove_mount p l with
  | Some l' => Some (insert_mount m l')
  | None => if decide (prefix m = p) then Some l else None
  end.
Proof.
  induction 1 as [|x l Hl IH Hx]; cbn [insert_mount]; [done|].
  destruct (Nat.ltb_spec (plen x) (plen m)) as [Hlt|Hge].
  - assert (Forall (fun y => (plen y < plen m)%nat) (x :: l)) as Hall.
    { constructor; [done|]. eapply Forall_impl; [exact Hx|]. unfold by_len. intros. lia. }
    rewrite (remove_mount_cons p m). destruct (decide (prefix m = p)) as [<-|Hne].
    + by rewrite (remove_mount_shorter _ (x :: l)).
    + destruct (remove_mount p (x :: l)) as [l'|] eqn:Hr; [|done].
      rewrite insert_mount_front; [done|]. apply Forall_forall. intros y Hy.
      rewrite Forall_forall in Hall. apply Hall. by eapply remove_mount_sub.
  - cbn [remove_mount]. destruct (decide (prefix x = p)); [done|]. rewrite IH.
    destruct (remove_mount p l) as [l'|]; [|by destruct (decide _)].
    cbn [insert_mount]. by rewrite (proj2 (Nat.ltb_ge _ _)).
Qed.

Lemma remove_mount_snoc p l m :
  remove_mount p (l ++ [m]) =
  match remove_mount p l with
  | Some l' => Some (l' ++ [m])
  | None => if decide (prefix m = p) then Some l else None
  end.
Proof.
  induction l as [|x l IH]; cbn [remove_mount app]; [done|].
  destruct (decide (prefix x = p)); [done|]. rewrite IH.
  destruct (remove_mount p l); [done|]. by destruct (decide _).
Qed.

Lemma remove_sort_mounts p l :
  remove_mount p (sort_mounts l) = sort_mounts <$> remove_mount p l.
Proof.
  induction l as [|m l IH] using rev_ind; [done|].
  rewrite sort_mounts_snoc, remove_insert_mount, IH, remove_mount_snoc by apply sort_mounts_sorted.
  destruct (remove_mount p l); cbn; [by rewrite sort_mounts_snoc|]. by destruct (decide _).
Qed.

(** The table is the stable sort of the live mounts. *)
Lemma table_sorts_live es :
  mount_points (fold_left table_step es Vfs_new) = sort_mounts (fold_left live_step es []).
Proof.
  induction es as [|e es IH] using rev_ind; [done|]. rewrite !fold_left_app.
  destruct e as [m|p]; cbn [fold_left table_step live_step mount_points].
  - by rewrite IH, !sort_mounts_snoc, (sort_mounts_id _ (sort_mounts_sorted _)).
  - unfold Vfs_unmount. rewrite IH, remove_sort_mounts.
    by destruct (remove_mount p (fold_left live_step es [])); cbn.
Qed.

(** [m] is the longest match of [live], the earliest one among those. *)
Definition is_longest_match (path : string) (m : MountPoint) (live : list MountPoint) : Prop :=
  mount_matches path m = true /\
  exists l1 l2, live = l1 ++ m :: l2 /\
    Forall (fun x => mount_matches path x = true -> (plen x < plen m)%nat) l1 /\
    Forall (fun x => mount_matches path x = true -> (plen x <= plen m)%nat) l2.

Lemma longest_match_spec path live :
  match longest_match path live with
  | Some m => is_longest_match path m live
  | None => Forall (fun x => mount_matches path x = false) live
  end.
Proof.
  unfold longest_match. induction live as [|m live IH] using rev_ind; [constructor|].
  rewrite fold_left_app. cbn [fold_left]. unfold better at 1.
  destruct (fold_left (better path) live None) as [b|], (mount_matches path m) eqn:Hm.
  - destruct IH as (Hb & l1 & l2 & -> & H1 & H2). destruct (Nat.ltb_spec (plen b) (plen m)).
    + split; [done|]. exists (l1 ++ b :: l2), []. split; [done|]. split; [|constructor].
      apply Forall_app. split; [eapply Forall_impl; [exact H1|]; cbn; intros x Hx Hp; specialize (Hx Hp); lia|].
      constructor; [lia|]. eapply Forall_impl; [exact H2|]. cbn. intros x Hx Hp. specialize (Hx Hp). lia.
    + split; [done|]. exists l1, (l2 ++ [m]). rewrite <- app_assoc. split; [done|]. split; [done|].
      apply Forall_app. split; [done|]. by constructor.
  - destruct IH as (Hb & l1 & l2 & -> & H1 & H2). split; [done|]. exists l1, (l2 ++ [m]).
    rewrite <- app_assoc. split; [done|]. split; [done|]. apply Forall_app. split; [done|].
    constructor; [|done]. by rewrite Hm.
  - split; [done|]. exists live, []. split; [done|]. split; [|constructor].
    eapply Forall_impl; [exact IH|]. cbn. intros x ->. done.
  - apply Forall_app. split; [done|]. by constructor.
Qed.

Lemma relative_spec path m :
  mount_matches path m = true ->
  (exists r, path = prefix m +:+ r /\ relative path m = if is_empty r then "/" else r) \/
  (path = "." /\ prefix m = "/" /\ relative path m = "/").
Proof.
  unfold mount_matches, relative. rewrite orb_true_iff, andb_true_iff.
  intros [[r ->]%starts_with_spec|[->%String.eqb_eq Hp%String.eqb_eq]].
  - left. exists r. unfold plen. by rewrite slice_from_app.
  - right. unfold plen. by rewrite Hp.
Qed.

(** C15. For every history of mounts and unmounts, routing by the sorted mount table gives what a scan of the mounts in force in mount order gives: the longest matching prefix, the earliest mount winning a tie; the file system gets the rest of the path, or the root when nothing is left; a path is refused only when no mount matches. *)
Theorem route_longest_prefix (es : list MountEvent) (path : string) :
  let live := fold_left live_step es [] in
  match route (fold_left table_step es Vfs_new) path with
  | Some (rel, id) => exists m, is_longest_match path m live /\ id = mount_fs m /\
      ((exists r, path = prefix m +:+ r /\ rel = if is_empty r then "/" else r) \/
       (path = "." /\ prefix m = "/" /\ rel = "/"))
  | None => Forall (fun m => mount_matches path m = false) live
  end.
Proof.
  intros live. unfold route. rewrite table_sorts_live, find_sort_mounts. fold live.
  pose proof (longest_match_spec path live) as H. destruct (longest_match path live) as [m|]; [|done].
  exists m. split; [done|]. split; [done|]. apply relative_spec, H.
Qed.

(** ** Isolation of the mounted file systems *)

Section isolation.
Context {F N : Type} `{FileSystem F N}.

Lemma call_fs_other {E A} id (op : M F E A) w j :
  j <> id -> fss (call_fs id op w).2 !! j = fss w !! j.
Proof.
  intros Hj. unfold call_fs. destruct (fss w !! id) as [f|]; [|done].
  destruct (op f) as [r f']. cbn. by rewrite list_lookup_insert_ne.
Qed.

(** A call changes no file system but the one its path is routed to. *)
Lemma dispatch_other {E A} v path e (op : string -> M F E A) w j :
  (forall rel id, route v path = Some (rel, id) -> j <> id) ->
  fss (dispatch v path e op w).2 !! j = fss w !! j.
Proof.
  intros Hj. unfold dispatch. destruct (route v path) as [[rel id]|]; [|done].
  by apply call_fs_other, (Hj rel).
Qed.

(** A rename between two file systems fails and changes nothing. *)
Theorem rename_across_refused v old_path new_path w old_rel old_fs new_rel new_fs :
  route v old_path = Some (old_rel, old_fs) -> route v new_path = Some (new_rel, new_fs) ->
  old_fs <> new_fs -> Vfs_rename v old_path new_path w = (Err tt, w).
Proof.
  intros Ho Hn Hne. unfold Vfs_rename. rewrite Ho, Hn.
  by rewrite (proj2 (Nat.eqb_neq _ _) Hne).
Qed.
End isolation.

(** ** A prefix is not a path component

    The test is on characters: a name that only begins like a mount point is taken
    by that mount. *)
Definition boot_mounts : list MountEvent :=
  [Mounted (mkMount "/" 0 "twilightfs" "/dev/disk0"); Mounted (mkMount "/dev" 1 "devfs" "none");
   Mounted (mkMount "/proc" 2 "procfs" "none")].

Theorem route_splits_component (rest : string) :
  let v := fold_left table_step boot_mounts Vfs_new in
  route v ("/device" +:+ rest) = Some ("ice" +:+ rest, 1%nat) /\
  route v ("/home" +:+ rest) = Some ("home" +:+ rest, 0%nat).
Proof. split; reflexivity. Qed.
