(* ===== verification/TfsDir.v ===== *)
(** * TwilightFS directories (sys/fs/twilight_fs/mod.rs)

    The mounted file system, directory blocks of 64-byte entries, the directory index
    built from them, and the creation of entries, files, directories and symbolic
    links. *)

From Stdlib Require Import Ascii ZifyBool.
From S2P Require Import Prelude Bytes Text BlockDev BlockDevSpec TfsBlock TfsAlloc TfsInode TfsCache.
Open Scope twilight_scope.

(** ** The mounted file system

    The superblock and the mount mode do not change and are arguments.  The clock and
    the current user are what the operations read from the rest of the kernel. *)

Record TwilightFs (D : Type) := mkTfs {
  t_device : D; t_shared : TwilightFsShared; t_unix_time : Z; t_uid : Z; t_gid : Z;
}.
Arguments mkTfs {D} _ _ _ _ _.
Arguments t_device {D} _.
Arguments t_shared {D} _.
Arguments t_unix_time {D} _.
Arguments t_uid {D} _.
Arguments t_gid {D} _.

Definition set_device {D} (d : D) (t : TwilightFs D) : TwilightFs D :=
  mkTfs d (t_shared t) (t_unix_time t) (t_uid t) (t_gid t).
Definition set_shared {D} (s : TwilightFsShared) (t : TwilightFs D) : TwilightFs D :=
  mkTfs (t_device t) s (t_unix_time t) (t_uid t) (t_gid t).

(** [self.device.lock()] and the methods of [self.shared]. *)
Definition on_device {D E A} (m : M D E A) : M (TwilightFs D) E A := focusM t_device set_device m.
Definition ask_shared {D E A} (f : TwilightFsShared -> A * TwilightFsShared) : M (TwilightFs D) E A :=
  fun t => let '(a, s) := f (t_shared t) in (Ok a, set_shared s t).
Definition tell_shared {D E} (f : TwilightFsShared -> TwilightFsShared) : M (TwilightFs D) E unit :=
  modifyM (fun t => set_shared (f (t_shared t)) t).

Definition IFLAG_ENCRYPTED : Z := Z.shiftl 1 2.

Definition with_size (n : Z) (i : Inode) : Inode :=
  mkInode (mode i) (nlinks i) (uid i) (gid i) n (access_time i) (modified_time i) (change_time i)
    (created_time i) (flags i) (generation i) (xattr_block i) (_pad0 i) (direct i) (indirect i)
    (double_indirect i) (triple_indirect i) (inline_data i) (inode_checksum i) (_pad1 i).
Definition with_inline (l : list Z) (i : Inode) : Inode :=
  mkInode (mode i) (nlinks i) (uid i) (gid i) (isize i) (access_time i) (modified_time i) (change_time i)
    (created_time i) (flags i) (generation i) (xattr_block i) (_pad0 i) (direct i) (indirect i)
    (double_indirect i) (triple_indirect i) l (inode_checksum i) (_pad1 i).

(** ** Directory entries *)

Definition DIR_ENTRY_SIZE : nat := 64.
Definition DIR_NAME_BYTES : nat := 60.
Definition NUL : ascii := "000"%char.

(** [#[repr(C)]]: the inode number, then the name padded with zeros. *)
Record DirEntry := mkDirEntry { de_inode : Z; de_name : list Z }.
Definition dir_entry_bytes (e : DirEntry) : list Z := to_le 4 (de_inode e) ++ de_name e.
Definition entry_decode (raw : list Z) : DirEntry :=
  mkDirEntry (from_le (load 0 4 raw)) (load 4 DIR_NAME_BYTES raw).

(** The entry at index [i] of a block; [None] when the slice is out of range. *)
Definition entry_at (buf : list Z) (i : nat) : option DirEntry :=
  if (i * DIR_ENTRY_SIZE + DIR_ENTRY_SIZE <=? length buf)%nat
  then Some (entry_decode (load (i * DIR_ENTRY_SIZE) DIR_ENTRY_SIZE buf)) else None.

Definition name_buf (name : string) : list Z :=
  let bs := take DIR_NAME_BYTES (as_bytes name) in bs ++ replicate (DIR_NAME_BYTES - length bs) 0.

(** [str::from_utf8(&entry.name).unwrap_or([]).trim_end_matches(NUL)]. *)
Definition entry_name (raw : list Z) : string :=
  match from_utf8 raw with Some s => trim_end_matches NUL s | None => EmptyString end.

Definition decode_dir_name (raw : list Z) : option string :=
  match from_utf8 raw with
  | None => None
  | Some s => let s := trim_end_matches NUL s in if is_empty s then None else Some s
  end.

Section dir.
Context {D : Type} `{!BlockDeviceIO D} (sb : Superblock).

Definition entries_per_block : nat := (Z.to_nat (sb_block_size sb) / DIR_ENTRY_SIZE)%nat.
Definition total_slots : nat := (DIRECT_SLOT_COUNT * entries_per_block)%nat.

Definition zero_block : list Z := replicate FS_BLOCK_SIZE 0.

(** ** The directory index *)

Definition note_free (hint : nat) (slot : nat) : nat := if (hint =? total_slots)%nat then slot else hint.

(** The loop over the slots [slot .. slot + n - 1]; [buf] holds the last block read. *)
Fixpoint build_loop (n slot : nat) (parent : Inode) (buf : list Z) (nm : gmap string Z) (hint : nat)
    : M D FsError DirIndexEntry :=
  match n with
  | O => retM (mkDirIndex nm (Z.of_nat hint))
  | S n =>
    let entry_idx := (slot mod entries_per_block)%nat in
    let zone := direct_slot_get parent (slot / entries_per_block) in
    if zone =? 0 then build_loop n (S slot) parent buf nm (note_free hint slot)
    else
      buf <-- (if (entry_idx =? 0)%nat then map_errM (fun _ => InvalidInode) (read_tfs_block zone)
               else retM buf) ;;
      match entry_at buf entry_idx with
      | None => panicM
      | Some e =>
        if de_inode e =? 0 then build_loop n (S slot) parent buf nm (note_free hint slot)
        else build_loop n (S slot) parent buf
               (match decode_dir_name (de_name e) with Some s => <[s := de_inode e]> nm | None => nm end) hint
      end
  end.
Definition build_dir_index_entry (parent : Inode) : M D FsError DirIndexEntry :=
  build_loop total_slots 0 parent zero_block ∅ total_slots.

Definition ensure_dir_index_entry (parent_num : Z) (parent : Inode) : M (TwilightFs D) FsError DirIndexEntry :=
  cached <-- ask_shared (dir_index_get parent_num) ;;
  match cached with
  | Some e => retM e
  | None =>
    e <-- on_device (build_dir_index_entry parent) ;;
    tell_shared (dir_index_set parent_num e) >>> retM e
  end.

(** ** Inserting an entry *)

(** A missing block of the directory is allocated, cleared and recorded. *)
Definition directory_block (parent_num : Z) (parent : Inode) (block_idx : nat) : M D string (Z * Inode) :=
  let block := direct_slot_get parent block_idx in
  if block =? 0 then
    block <-- map_errM (fun _ => "Failed to allocate directory zone") (allocate_zone sb) ;;
    let parent := direct_slot_set block_idx block parent in
    map_errM (fun _ => "Failed to initialize directory block") (write_tfs_block block zero_block) >>>
    write_inode sb parent_num parent >>>
    retM (block, parent)
  else retM (block, parent).

Definition same_loaded (loaded : option (nat * Z)) (block_idx : nat) (block : Z) : bool :=
  match loaded with Some (b, z) => (b =? block_idx)%nat && (z =? block) | None => false end.

(** The closure [try_insert] over the slots [slot .. slot + n - 1]; [loaded] is the
    block held in [buf].  The closure keeps its changes to the parent inode. *)
Fixpoint try_insert (n slot : nat) (parent_num : Z) (entry : DirEntry) (parent : Inode)
    (buf : list Z) (loaded : option (nat * Z)) : M D string (option nat * Inode) :=
  match n with
  | O => retM (None, parent)
  | S n =>
    let block_idx := (slot / entries_per_block)%nat in
    let entry_idx := (slot mod entries_per_block)%nat in
    bp <-- directory_block parent_num parent block_idx ;;
    let '(block, parent) := bp in
    buf <-- (if same_loaded loaded block_idx block then retM buf
             else map_errM (fun _ => "Failed to read block") (read_tfs_block block)) ;;
    let buf := if (block_idx =? 0)%nat && (isize parent =? 0) then replicate (length buf) 0 else buf in
    match entry_at buf entry_idx with
    | None => panicM
    | Some e =>
      if de_inode e =? 0 then
        map_errM (fun _ => "Failed to write block")
          (write_tfs_block block (store (entry_idx * DIR_ENTRY_SIZE) (dir_entry_bytes entry) buf)) >>>
        let parent := with_size (u64 (isize parent + Z.of_nat DIR_ENTRY_SIZE)) parent in
        write_inode sb parent_num parent >>>
        retM (Some slot, parent)
      else try_insert n (S slot) parent_num entry parent buf (Some (block_idx, block))
    end
  end.

Definition insert_from (start stop : nat) (parent_num : Z) (entry : DirEntry) (parent : Inode)
    : M D string (option nat * Inode) :=
  try_insert (stop - start) start parent_num entry parent zero_block None.

Definition create_dir_entry (parent_num : Z) (name : string) (child : Z) : M (TwilightFs D) string unit :=
  parent <-- on_device (read_inode sb parent_num) ;;
  cached <-- ask_shared (dir_index_get parent_num) ;;
  let start_hint := match cached with
                    | Some e => Nat.min (Z.to_nat (next_free_slot_hint e)) total_slots
                    | None => 0%nat
                    end in
  let entry := mkDirEntry child (name_buf name) in
  r1 <-- on_device (insert_from start_hint total_slots parent_num entry parent) ;;
  let '(slot, parent) := r1 in
  r2 <-- match slot with
         | Some slot => retM (Some slot, parent)
         | None => if (0 <? start_hint)%nat
                   then on_device (insert_from 0 start_hint parent_num entry parent)
                   else retM (None, parent)
         end ;;
  match fst r2 with
  | Some slot =>
    tell_shared (dir_index_update_after_insert parent_num name child
                   (Z.of_nat (Nat.min (slot + 1) total_slots)))
  | None => failM "Directory is full"
  end.

(** ** Reading entries *)

Fixpoint collect_entries (n i : nat) (buf : list Z) : option (list DirEntry) :=
  match n with
  | O => Some []
  | S n =>
    match entry_at buf i with
    | None => None
    | Some e =>
      match collect_entries n (S i) buf with
      | None => None
      | Some es => Some (if de_inode e =? 0 then es else e :: es)
      end
    end
  end.

Fixpoint read_dir_loop (zones : list Z) (acc : list DirEntry) : M D string (list DirEntry) :=
  match zones with
  | [] => retM acc
  | zone :: zones =>
    if zone =? 0 then read_dir_loop zones acc
    else
      buf <-- map_errM (fun _ => "Failed to read block") (read_tfs_block zone) ;;
      match collect_entries entries_per_block 0 buf with
      | None => panicM
      | Some es => read_dir_loop zones (acc ++ es)
      end
  end.

Definition direct_slots (i : Inode) : list Z := direct_slot_get i <$> seq 0 DIRECT_SLOT_COUNT.

Definition read_dir_entries (i : Inode) : M D string (list DirEntry) := read_dir_loop (direct_slots i) [].

Definition find_dir_entry (parent_num : Z) (name : string) : M (TwilightFs D) string (option Z) :=
  parent <-- on_device (read_inode sb parent_num) ;;
  if direct_slot_get parent 0 =? 0 then retM None
  else
    map_errM (fun _ => "Failed to build directory index") (ensure_dir_index_entry parent_num parent) >>>
    ask_shared (dir_index_lookup parent_num name).

(** The first entry of a block with the given name. *)
Fixpoint find_in_block (n i : nat) (buf : list Z) (name : string) : option (option (nat * Z)) :=
  match n with
  | O => Some None
  | S n =>
    match entry_at buf i with
    | None => None
    | Some e =>
      if negb (de_inode e =? 0) && bool_decide (entry_name (de_name e) = name)
      then Some (Some ((i * DIR_ENTRY_SIZE)%nat, de_inode e))
      else find_in_block n (S i) buf name
    end
  end.

Fixpoint find_slot_loop (zones : list Z) (name : string) : M D FsError (option (Z * nat * Z)) :=
  match zones with
  | [] => retM None
  | zone :: zones =>
    if zone =? 0 then find_slot_loop zones name
    else
      buf <-- read_tfs_block zone ;;
      match find_in_block entries_per_block 0 buf name with
      | None => panicM
      | Some (Some (offset, ino)) => retM (Some (zone, offset, ino))
      | Some None => find_slot_loop zones name
      end
  end.

Definition find_dir_entry_slot (parent_num : Z) (name : string) : M D FsError (option (Z * nat * Z)) :=
  parent <-- map_errM (fun _ => InvalidInode) (read_inode sb parent_num) ;;
  find_slot_loop (direct_slots parent) name.

Definition clear_dir_entry_slot (parent_num zone : Z) (offset : nat) : M D FsError unit :=
  parent <-- map_errM (fun _ => InvalidInode) (read_inode sb parent_num) ;;
  buf <-- read_tfs_block zone ;;
  if (length buf <? offset + DIR_ENTRY_SIZE)%nat then failM InvalidPath
  else
    write_tfs_block zone (store offset (replicate DIR_ENTRY_SIZE 0) buf) >>>
    if Z.of_nat DIR_ENTRY_SIZE <=? isize parent
    then map_errM (fun _ => InvalidInode)
           (write_inode sb parent_num (with_size (isize parent - Z.of_nat DIR_ENTRY_SIZE) parent))
    else retM tt.

(** ** Creating files, directories and links *)

Definition invalid {S E A} (m : M S E A) : M S FsError A := map_errM (fun _ => InvalidInode) m.

(** The name must be free in the parent directory, whose inode is returned. *)
Definition parent_without (parent_num : Z) (name : string) : M (TwilightFs D) FsError Inode :=
  parent <-- invalid (on_device (read_inode sb parent_num)) ;;
  dir_index <-- ensure_dir_index_entry parent_num parent ;;
  match names dir_index !! name with
  | Some _ => failM FileAlreadyExists
  | None => retM parent
  end.

Definition inherit_encryption (parent i : Inode) : Inode :=
  if negb (Z.land (flags parent) IFLAG_ENCRYPTED =? 0)
  then with_flags (Z.lor (flags i) IFLAG_ENCRYPTED) i else i.

Definition create_file_with_mode (parent_num : Z) (name : string) (md : Z) : M (TwilightFs D) FsError Z :=
  if (60 <? slen name)%nat then failM FileNotFound
  else
    parent <-- parent_without parent_num name ;;
    ino0 <-- invalid (on_device (allocate_inode sb)) ;;
    let new_num := u32 (ino0 + 1) in
    new_zone <-- invalid (on_device (allocate_zone sb)) ;;
    t <-- getM ;;
    let mk := if Z.land md MODE_TYPE_MASK =? MODE_SOCKET then new_socket else new_file in
    let inode := inherit_encryption parent (mk (t_uid t) (t_gid t) (t_unix_time t) md) in
    invalid (on_device (write_inode sb new_num (direct_slot_set 0 new_zone inode))) >>>
    invalid (create_dir_entry parent_num name new_num) >>>
    retM new_num.
Definition create_file (parent_num : Z) (name : string) : M (TwilightFs D) FsError Z :=
  create_file_with_mode parent_num name 0x1FF.

Definition create_symlink (parent_num : Z) (name target : string) : M (TwilightFs D) FsError Z :=
  if (60 <? slen name)%nat then failM FileNameTooLong
  else if is_empty target || (INODE_INLINE_BYTES <? slen target)%nat then failM InvalidPath
  else
    parent_without parent_num name >>>
    ino0 <-- invalid (on_device (allocate_inode sb)) ;;
    let new_num := u32 (ino0 + 1) in
    t <-- getM ;;
    let inode := with_size (Z.of_nat (slen target)) (new_symlink (t_uid t) (t_gid t) (t_unix_time t)) in
    let inode := with_inline (store 0 (as_bytes target) (inline_data inode)) inode in
    invalid (on_device (write_inode sb new_num inode)) >>>
    invalid (create_dir_entry parent_num name new_num) >>>
    retM new_num.

Definition read_symlink (inode_num : Z) : M D FsError string :=
  i <-- invalid (read_inode sb inode_num) ;;
  if is_symlink i then
    match from_utf8 (inline_data_bytes i) with Some s => retM s | None => failM InvalidPath end
  else failM InvalidPath.

Definition create_dir_with_mode (parent_num : Z) (name : string) (md : Z) : M (TwilightFs D) FsError Z :=
  if (60 <? slen name)%nat then failM FileNameTooLong
  else
    parent <-- parent_without parent_num name ;;
    ino0 <-- invalid (on_device (allocate_inode sb)) ;;
    let new_num := u32 (ino0 + 1) in
    new_zone <-- invalid (on_device (allocate_zone sb)) ;;
    t <-- getM ;;
    let inode := inherit_encryption parent (new_dir (t_uid t) (t_gid t) (t_unix_time t) md) in
    invalid (on_device (write_inode sb new_num (direct_slot_set 0 new_zone inode))) >>>
    invalid (create_dir_entry parent_num name new_num) >>>
    invalid (create_dir_entry new_num "." new_num) >>>
    invalid (create_dir_entry new_num ".." parent_num) >>>
    retM new_num.
Definition create_dir (parent_num : Z) (name : string) : M (TwilightFs D) FsError Z :=
  create_dir_with_mode parent_num name 0x1FF.

(** ** Mounting *)

Definition validate_root_inode : M D string unit :=
  root <-- map_errM (fun _ => "Failed to read USB TwilightFS root inode") (read_inode sb 1) ;;
  if is_dir root then retM tt else failM "USB TwilightFS root inode is invalid".

Definition initialize_root_inode : M (TwilightFs D) string unit :=
  ino0 <-- map_errM (fun _ => "Failed to allocate USB TwilightFS root inode") (on_device (allocate_inode sb)) ;;
  let root_num := u32 (ino0 + 1) in
  if negb (root_num =? 1) then failM "Unexpected USB TwilightFS root inode number"
  else
    root_zone <-- map_errM (fun _ => "Failed to allocate USB TwilightFS root directory zone")
                    (on_device (allocate_zone sb)) ;;
    t <-- getM ;;
    let root := direct_slot_set 0 root_zone (new_dir (t_uid t) (t_gid t) (t_unix_time t) 0x1ED) in
    on_device (write_inode sb root_num root) >>>
    create_dir_entry root_num "." root_num >>>
    create_dir_entry root_num ".." root_num >>>
    tell_shared invalidate_namespace.
End dir.
