(* ===== verification/TfsFile.v ===== *)
(** * TwilightFS file contents (sys/fs/twilight_fs/mod.rs)

    [allocate_zones], [write_file], which replaces the contents of a file by way of
    direct, single-indirect and double-indirect zones, and [read_file]. *)

From Stdlib Require Import ZifyBool.
From S2P Require Import Prelude Bytes Text BlockDev BlockDevSpec TfsBlock TfsAlloc TfsInode TfsCache TfsDir.
Open Scope twilight_scope.

Definition with_indirect (z : Z) (i : Inode) : Inode :=
  mkInode (mode i) (nlinks i) (uid i) (gid i) (isize i) (access_time i) (modified_time i) (change_time i)
    (created_time i) (flags i) (generation i) (xattr_block i) (_pad0 i) (direct i) z
    (double_indirect i) (triple_indirect i) (inline_data i) (inode_checksum i) (_pad1 i).
Definition with_double_indirect (z : Z) (i : Inode) : Inode :=
  mkInode (mode i) (nlinks i) (uid i) (gid i) (isize i) (access_time i) (modified_time i) (change_time i)
    (created_time i) (flags i) (generation i) (xattr_block i) (_pad0 i) (direct i) (indirect i)
    z (triple_indirect i) (inline_data i) (inode_checksum i) (_pad1 i).

(** The [i]-th zone number in an indirect block. *)
Definition zone_entry (block : list Z) (i : nat) : Z := from_le (load (i * 4) 4 block).
Definition set_zone_entry (i : nat) (zone : Z) (block : list Z) : list Z := store (i * 4) (to_le 4 zone) block.

Section file.
Context {D : Type} `{!BlockDeviceIO D} (sb : Superblock).

(** ** Allocating several zones *)

(** The bits of one byte: the byte with the taken bits set, and the zones taken. *)
Fixpoint take_bits (bits : list nat) (index : nat -> Z) (need : nat) (byte : Z) : Z * list Z :=
  match bits with
  | [] => (byte, [])
  | bit :: bits =>
    match need with
    | O => (byte, [])
    | S need' =>
      if bit_clear byte bit then
        let zone := index bit in
        if max_data_zones sb <=? zone then (byte, [])
        else
          let '(byte, zs) := take_bits bits index need' (map_set_bit byte bit) in
          (byte, u32 (zone + first_data_zone sb) :: zs)
      else take_bits bits index need byte
    end
  end.

Fixpoint take_bytes (i : Z) (byte_idx need : nat) (buf : list Z) : list Z * list Z :=
  match buf with
  | [] => ([], [])
  | b :: rest =>
    if (need =? 0)%nat then (buf, [])
    else
      let '(b, zs) :=
        if b =? 0xFF then (b, [])
        else take_bits (seq 0 8)
               (fun bit => u32 (u32 (i * u32 (map_bits sb)) + Z.of_nat (byte_idx * 8 + bit))) need b in
      let '(rest, zs') := take_bytes i (S byte_idx) (need - length zs) rest in
      (b :: rest, zs ++ zs')
  end.

Fixpoint allocate_zones_loop (n : nat) (i : Z) (count : nat) (zs : list Z) : M D TfsError (list Z) :=
  match n with
  | O => retM zs
  | S n =>
    if (length zs =? count)%nat then retM zs
    else
      let block := u32 (u32 (imap_blocks sb + 1) + i) in
      buf <-- io (read_tfs_block block) ;;
      let '(buf, new) := take_bytes i 0 (count - length zs) buf in
      (if (0 <? length new)%nat then io (write_tfs_block block buf) else retM tt) >>>
      allocate_zones_loop n (i + 1) count (zs ++ new)
  end.

(** [let _ = self.dealloc_zone(zone)] for each zone: errors are ignored. *)
Fixpoint dealloc_all {E} (zs : list Z) : M D E unit :=
  match zs with
  | [] => retM tt
  | z :: zs => okM (dealloc_zone sb z) >>> dealloc_all zs
  end.

Definition allocate_zones (count : nat) : M D TfsError (list Z) :=
  zs <-- allocate_zones_loop (Z.to_nat (zmap_blocks sb)) 0 count [] ;;
  if (length zs <? count)%nat then dealloc_all zs >>> failM NoSpaceLeft
  else retM zs.

(** ** [write_file]

    The closure [get_new_zone] owns the zones allocated in advance, in ascending
    order; they are part of the state while it is in use. *)

Abbreviation Zoned := (D * list Z)%type.

Definition get_new_zone : M Zoned FsError Z :=
  st <-- getM ;;
  match snd st with
  | z :: zs => putM (fst st, zs) >>> retM z
  | [] => focusM fst (fun d st => (d, snd st)) (map_errM (fun _ => InvalidInode) (allocate_zone sb))
  end.
Definition zoned {E A} (m : M D E A) : M Zoned E A := focusM fst (fun d st => (d, snd st)) m.

(** Run [m] with zones allocated in advance; the zones left over are returned. *)
Definition with_zones {E A} (pre : list Z) (m : M Zoned E A) : M D E (A * list Z) :=
  fun d => let '(r, (d, spare)) := m (d, pre) in
           (match r with Ok a => Ok (a, spare) | Err e => Err e | Panic => Panic end, d).

Record WriteOp := mkOp { op_zone : Z; op_offset : nat; op_len : nat }.

(** How far the loops are: the operations so far, the next offset, the bytes left. *)
Record Progress := mkProgress { ops : list WriteOp; written : nat; remaining : nat }.

Definition block_size : nat := Z.to_nat (sb_block_size sb).
Definition zone_entries : nat := (block_size / 4)%nat.

Definition push_op (zone : Z) (p : Progress) : Progress :=
  let copy_size := Nat.min block_size (remaining p) in
  mkProgress (ops p ++ [mkOp zone (written p) copy_size]) (written p + copy_size) (remaining p - copy_size).

Fixpoint fill_direct (zs : list Z) (p : Progress) : M Zoned FsError (list Z * Progress) :=
  match zs with
  | [] => retM ([], p)
  | z :: rest =>
    if (remaining p =? 0)%nat then retM (zs, p)
    else
      z <-- (if z =? 0 then get_new_zone else retM z) ;;
      r <-- fill_direct rest (push_op z p) ;;
      retM (z :: fst r, snd r)
  end.

(** Entries [i .. i + n - 1] of an indirect block; the flag says whether one was added. *)
Fixpoint fill_block (n i : nat) (block : list Z) (dirty : bool) (p : Progress)
    : M Zoned FsError (list Z * bool * Progress) :=
  match n with
  | O => retM (block, dirty, p)
  | S n =>
    if (remaining p =? 0)%nat then retM (block, dirty, p)
    else if (length block <? i * 4 + 4)%nat then panicM
    else
      let entry := zone_entry block i in
      if entry =? 0 then
        zone <-- get_new_zone ;;
        fill_block n (S i) (set_zone_entry i zone block) true (push_op zone p)
      else fill_block n (S i) block dirty (push_op entry p)
  end.

(** The root of an indirect tree: the zone, its block, and whether it is new. *)
Definition indirect_root (zone : Z) : M Zoned FsError (Z * list Z * bool) :=
  if zone =? 0 then z <-- get_new_zone ;; retM (z, zero_block, true)
  else block <-- zoned (read_tfs_block zone) ;; retM (zone, block, false).

(** The entries of the double-indirect block; [l2] collects the changed blocks below. *)
Fixpoint fill_double (n i : nat) (block : list Z) (dirty : bool) (l2 : list (Z * list Z)) (p : Progress)
    : M Zoned FsError (list Z * bool * list (Z * list Z) * Progress) :=
  match n with
  | O => retM (block, dirty, l2, p)
  | S n =>
    if (remaining p =? 0)%nat then retM (block, dirty, l2, p)
    else if (length block <? i * 4 + 4)%nat then panicM
    else
      let entry := zone_entry block i in
      r <-- indirect_root entry ;;
      let '(zone, ind, is_new) := r in
      let block := if is_new then set_zone_entry i zone block else block in
      f <-- fill_block zone_entries 0 ind false p ;;
      let '(ind, ind_dirty, p) := f in
      fill_double n (S i) block (dirty || is_new) (if ind_dirty then l2 ++ [(zone, ind)] else l2) p
  end.

(** The plan: the zones of every block of the data, and the metadata to write. *)
Record Plan := mkPlan {
  plan_inode : Inode; plan_direct : list Z; plan_ops : list WriteOp; plan_written : nat;
  plan_l2 : list (Z * list Z); plan_single : option (list Z); plan_double : option (list Z);
}.

Definition if_dirty (dirty : bool) (block : list Z) : option (list Z) := if dirty then Some block else None.

Definition plan_write (inode : Inode) (len : nat) : M Zoned FsError Plan :=
  dp <-- fill_direct (direct_slots inode) (mkProgress [] 0 len) ;;
  let '(direct_zones, p) := dp in
  sp <-- (if (remaining p =? 0)%nat then retM (inode, None, p)
          else
            r <-- indirect_root (indirect inode) ;;
            let '(zone, block, is_new) := r in
            f <-- fill_block zone_entries 0 block is_new p ;;
            let '(block, dirty, p) := f in
            retM (with_indirect zone inode, if_dirty dirty block, p)) ;;
  let '(inode, single, p) := sp in
  dbl <-- (if (remaining p =? 0)%nat then retM (inode, None, [], p)
           else
             r <-- indirect_root (double_indirect inode) ;;
             let '(zone, block, is_new) := r in
             f <-- fill_double zone_entries 0 block is_new [] p ;;
             let '(block, dirty, l2, p) := f in
             retM (with_double_indirect zone inode, if_dirty dirty block, l2, p)) ;;
  let '(inode, double, l2, p) := dbl in
  if (0 <? remaining p)%nat then failM FileSizeTooLarge
  else retM (mkPlan inode direct_zones (ops p) (written p) l2 single double).

(** The operations after [prev] that continue it block by block. *)
Fixpoint run_after (prev : WriteOp) (rest : list WriteOp) : nat :=
  match rest with
  | [] => 0
  | op :: rest =>
    if (op_len prev =? block_size)%nat && (op_len op =? block_size)%nat &&
       (op_zone op =? u32 (op_zone prev + 1)) && (op_offset op =? op_offset prev + block_size)%nat
    then S (run_after op rest) else 0
  end.

(** Consecutive full blocks are written together. *)
Fixpoint run_ops (fuel : nat) (data : list Z) (l : list WriteOp) : M D FsError unit :=
  match fuel, l with
  | _, [] => retM tt
  | O, _ :: _ => panicM
  | S fuel, op :: rest =>
    if (op_len op =? block_size)%nat then
      let extra := run_after op rest in
      write_tfs_blocks (op_zone op) (load (op_offset op) (S extra * block_size) data) >>>
      run_ops fuel data (drop extra rest)
    else if (FS_BLOCK_SIZE <? op_len op)%nat then panicM
    else
      write_tfs_block (op_zone op) (store 0 (load (op_offset op) (op_len op) data) zero_block) >>>
      run_ops fuel data rest
  end.

Fixpoint write_l2 (l : list (Z * list Z)) : M D FsError unit :=
  match l with
  | [] => retM tt
  | (zone, block) :: l => write_tfs_block zone block >>> write_l2 l
  end.

Definition write_if (zone : Z) (block : option (list Z)) : M D FsError unit :=
  match block with Some b => write_tfs_block zone b | None => retM tt end.

Fixpoint set_slots (i : nat) (zs : list Z) (inode : Inode) : Inode :=
  match zs with [] => inode | z :: zs => set_slots (S i) zs (direct_slot_set i z inode) end.

Definition blocks_for (len : Z) : Z := if len =? 0 then 0 else div_ceil len (sb_block_size sb).

(** The number of zones allocated in advance. *)
Definition prealloc_count (inode : Inode) (len : nat) : nat :=
  let bs := sb_block_size sb in
  let entries := Z.of_nat zone_entries in
  let required := blocks_for (Z.of_nat len) in
  let existing := if isize inode =? 0 then 0 else usize (usize (isize inode + bs) - 1) / bs in
  let direct_capacity := Z.of_nat DIRECT_SLOT_COUNT in
  let needs_indirect := direct_capacity <? required in
  let missing := saturating_sub required existing in
  let m1 := if needs_indirect && (indirect inode =? 0) then 1 else 0 in
  let m2 := if direct_capacity + entries <? required then
              (if double_indirect inode =? 0 then 1 else 0) +
              saturating_sub (div_ceil (required - direct_capacity - entries) entries)
                (div_ceil (saturating_sub existing (direct_capacity + entries)) entries)
            else 0 in
  if (0 <? required) && negb needs_indirect then 0%nat else Z.to_nat (missing + m1 + m2).

Definition max_blocks : Z :=
  Z.of_nat DIRECT_SLOT_COUNT + Z.of_nat zone_entries + Z.min U64_MAX (Z.of_nat zone_entries * Z.of_nat zone_entries).

Definition write_file (inode_num : Z) (data : list Z) : M (TwilightFs D) FsError unit :=
  if bad_inode sb inode_num then failM InvalidInode
  else
    inode <-- on_device (map_errM (fun _ => InvalidInode) (read_inode sb inode_num)) ;;
    let no_blocks := sb_block_size sb =? 0 in
    if no_blocks && negb (length data =? 0)%nat then panicM
    else if max_blocks <? blocks_for (Z.of_nat (length data)) then failM FileSizeTooLarge
    else if no_blocks && negb (isize inode =? 0) then panicM
    else
      let count := prealloc_count inode (length data) in
      pre <-- (if (0 <? count)%nat then on_device (okM (allocate_zones count)) else retM (Some [])) ;;
      r <-- on_device (with_zones (default [] pre) (plan_write inode (length data))) ;;
      let '(plan, spare) := r in
      on_device (run_ops (length (plan_ops plan)) data (plan_ops plan)) >>>
      on_device (write_l2 (plan_l2 plan)) >>>
      on_device (write_if (indirect (plan_inode plan)) (plan_single plan)) >>>
      on_device (write_if (double_indirect (plan_inode plan)) (plan_double plan)) >>>
      let inode := with_size (Z.of_nat (plan_written plan)) (set_slots 0 (plan_direct plan) (plan_inode plan)) in
      on_device (map_errM (fun _ => InvalidInode) (write_inode sb inode_num inode)) >>>
      on_device (dealloc_all (rev spare)) >>>
      tell_shared (invalidate_file_inode inode_num).

(** ** [read_file] *)

(** Read the zones in order, until a zero or the end of the file. *)
Fixpoint read_zones (zs : list Z) (rem : Z) (acc : list Z) : M D string (list Z * Z) :=
  match zs with
  | [] => retM (acc, rem)
  | z :: zs =>
    if z =? 0 then retM (acc, rem)
    else
      let to_read := Z.to_nat (Z.min rem (sb_block_size sb)) in
      buf <-- unwrapM (read_tfs_block z) ;;
      if (length buf <? to_read)%nat then panicM
      else
        let acc := acc ++ take to_read buf in
        let rem := rem - Z.of_nat to_read in
        if rem =? 0 then retM (acc, rem) else read_zones zs rem acc
  end.

(** All but the last entry of an indirect block. *)
Definition read_entries (block : list Z) : list Z := zone_entry block <$> seq 0 (FS_BLOCK_SIZE / 4 - 1).

Fixpoint read_double (zs : list Z) (rem : Z) (acc : list Z) : M D string (list Z * Z) :=
  match zs with
  | [] => retM (acc, rem)
  | z :: zs =>
    if rem =? 0 then retM (acc, rem)
    else if z =? 0 then retM (acc, rem)
    else
      buf <-- unwrapM (read_tfs_block z) ;;
      r <-- read_zones (read_entries buf) rem acc ;;
      read_double zs (snd r) (fst r)
  end.

Definition read_file (inode_num : Z) : M D string (list Z) :=
  inode <-- read_inode sb inode_num ;;
  if negb (Z.land (flags inode) IFLAG_INLINE_DATA =? 0) then retM (inline_data_bytes inode)
  else
    r <-- read_zones (direct_slots inode) (isize inode) [] ;;
    r <-- (if indirect inode =? 0 then retM r
           else buf <-- unwrapM (read_tfs_block (indirect inode)) ;;
                read_zones (read_entries buf) (snd r) (fst r)) ;;
    r <-- (if double_indirect inode =? 0 then retM r
           else buf <-- unwrapM (read_tfs_block (double_indirect inode)) ;;
                read_double (read_entries buf) (snd r) (fst r)) ;;
    retM (fst r).
End file.
