(* ===== verification/TfsPath.v ===== *)
(** * TwilightFS paths (sys/fs/twilight_fs/mod.rs)

    Path resolution with symbolic links and the path cache, and the operations on
    directory entries by path: [remove_entry], [rename_entry], [list_dir]. *)

From Stdlib Require Import Ascii ZifyBool.
From S2P Require Import Prelude Bytes Text BlockDev BlockDevSpec TfsBlock TfsAlloc TfsInode TfsCache TfsDir TfsFile Vfs.
Open Scope twilight_scope.

Inductive MountMode := MountReadOnly | MountReadWrite.

Definition is_read_only (m : MountMode) : bool := match m with MountReadOnly => true | MountReadWrite => false end.

Definition MAX_SYMLINKS : nat := 40.

(** The type of an inode, as [open] and [list_dir] report it. *)
Definition type_of_inode (i : Inode) : FileType.t :=
  if is_dir i then FileType.Dir
  else if TfsInode.is_symlink i then FileType.Symlink
  else if is_socket i then FileType.Socket
  else FileType.File.

Definition inode_metadata (num : Z) (name : string) (ty : FileType.t) (i : Inode) : Metadata :=
  mkMetadata num (TfsInode.uid i) (TfsInode.gid i) name ty (TfsInode.mode i) (isize i)
    (to_u32_saturating (TfsInode.created_time i)) (to_u32_saturating (TfsInode.access_time i))
    (to_u32_saturating (TfsInode.modified_time i)).

Section path.
Context {D : Type} `{!BlockDeviceIO D} (sb : Superblock).

(** ** Resolution *)

(** The walk: [current] is the directory reached, [pending] the components left. *)
Fixpoint resolve_loop (fuel : nat) (current : Z) (pending : list string) (links : nat)
    : M (TwilightFs D) FsError Z :=
  match pending with
  | [] => retM current
  | part :: pending =>
    match fuel with
    | O => panicM
    | S fuel =>
      next <-- invalid (find_dir_entry sb current part) ;;
      match next with
      | None => failM FileNotFound
      | Some num =>
        i <-- on_device (invalid (read_inode sb num)) ;;
        if TfsInode.is_symlink i then
          if (MAX_SYMLINKS <? S links)%nat then failM InvalidPath
          else
            match from_utf8 (inline_data_bytes i) with
            | None => failM InvalidPath
            | Some target =>
              if is_empty target then failM InvalidPath
              else resolve_loop fuel (if starts_with target "/" then 1 else current)
                     (components target ++ pending) (S links)
            end
        else resolve_loop fuel num pending links
      end
    end
  end.

(** Every turn takes a component, and at most 40 links add at most 64 each. *)
Definition resolve_fuel (pending : list string) : nat := (length pending + MAX_SYMLINKS * INODE_INLINE_BYTES)%nat.

Definition canonical (path : string) : string := if starts_with path "/" then path else "/" +:+ path.

Definition resolve_path (path : string) : M (TwilightFs D) FsError Z :=
  if is_empty path then failM InvalidPath
  else if bool_decide (path = "/") then retM 1
  else
    cached <-- ask_shared (lookup_cached (canonical path)) ;;
    match cached with
    | Some num => retM num
    | None =>
      let parts := components (canonical path) in
      num <-- resolve_loop (resolve_fuel parts) 1 parts 0 ;;
      tell_shared (insert_lookup (canonical path) num) >>> retM num
    end.

(** ** Names *)

Definition split_parent_and_name (path : string) : res FsError (string * string) :=
  match last (components path) with
  | None => Err InvalidPath
  | Some name =>
    if is_empty name || bool_decide (name = ".") || bool_decide (name = "..") then Err InvalidPath
    else
      let parents := removelast (components path) in
      Ok (match parents with [] => "/" | _ => "/" +:+ join "/" parents end, name)
  end.

Definition join_parent_and_name (parent name : string) : string :=
  if bool_decide (parent = "/") then "/" +:+ name else parent +:+ "/" +:+ name.

Definition liftM {S E A} (r : res E A) : M S E A := fun s => (r, s).

(** ** Removing an entry *)

(** [self.free_zone(z).unwrap()] for the direct zones. *)
Fixpoint free_direct {E} (ro : MountMode) (zs : list Z) : M D E unit :=
  match zs with
  | [] => retM tt
  | z :: zs =>
    (if z =? 0 then retM tt
     else unwrapM (if is_read_only ro then failM IoError else dealloc_zone sb z)) >>>
    free_direct ro zs
  end.

Definition drop_entry_size (i : Inode) : Inode :=
  if Z.of_nat DIR_ENTRY_SIZE <=? isize i then with_size (isize i - Z.of_nat DIR_ENTRY_SIZE) i else i.

(** What is done once the entry is found, at [offset] of [zone]. *)
Definition remove_found (ro : MountMode) (parent_num : Z) (parent : Inode) (zone : Z) (buf : list Z)
    (offset : nat) (num : Z) : M D FsError unit :=
  i <-- unwrapM (read_inode sb num) ;;
  free_direct ro (direct_slots i) >>>
  unwrapM (dealloc_inode sb num) >>>
  write_tfs_block zone (store offset (replicate DIR_ENTRY_SIZE 0) buf) >>>
  unwrapM (write_inode sb parent_num (drop_entry_size parent)).

Fixpoint remove_loop (ro : MountMode) (zones : list Z) (parent_num : Z) (parent : Inode) (name : string)
    : M D FsError Z :=
  match zones with
  | [] => failM FileNotFound
  | zone :: zones =>
    if zone =? 0 then remove_loop ro zones parent_num parent name
    else
      buf <-- invalid (read_tfs_block zone) ;;
      match find_in_block (entries_per_block sb) 0 buf name with
      | None => panicM
      | Some (Some (offset, num)) => remove_found ro parent_num parent zone buf offset num >>> retM num
      | Some None => remove_loop ro zones parent_num parent name
      end
  end.

Definition remove_entry (ro : MountMode) (path : string) : M (TwilightFs D) FsError unit :=
  match last (components path) with
  | None => failM InvalidPath
  | Some name =>
    let parents := removelast (components path) in
    let parent_path := "/" +:+ join "/" parents in
    parent_num <-- match parents with [] => retM 1 | _ => resolve_path parent_path end ;;
    parent <-- on_device (unwrapM (read_inode sb parent_num)) ;;
    num <-- on_device (remove_loop ro (direct_slots parent) parent_num parent name) ;;
    tell_shared (dir_index_remove parent_num name) >>>
    tell_shared (remove_lookup_prefix (join_parent_and_name parent_path name)) >>>
    tell_shared (invalidate_file_inode num)
  end.

(** ** Renaming an entry *)

Definition dir_inode (num : Z) : M (TwilightFs D) FsError unit :=
  i <-- on_device (invalid (read_inode sb num)) ;;
  if is_dir i then retM tt else failM InvalidPath.

(** What stands in the way at the new name: [true] when there is nothing more to do. *)
Definition clear_target (ro : MountMode) (old_num old_parent new_parent : Z) (new_name new_path : string)
    : M (TwilightFs D) FsError bool :=
  found <-- on_device (find_dir_entry_slot sb new_parent new_name) ;;
  match found with
  | None => retM false
  | Some (_, _, existing) =>
    if negb (existing =? old_num) then
      i <-- on_device (invalid (read_inode sb existing)) ;;
      if is_dir i then failM FileAlreadyExists
      else remove_entry ro new_path >>> retM false
    else if old_parent =? new_parent then retM true
    else failM FileAlreadyExists
  end.

Definition rewrite_name (zone : Z) (offset : nat) (name : string) : M D FsError unit :=
  buf <-- read_tfs_block zone ;;
  if (length buf <? offset + DIR_ENTRY_SIZE)%nat then panicM
  else write_tfs_block zone (store (offset + 4) (name_buf name) buf).

Definition rename_entry (ro : MountMode) (old_path new_path : string) : M (TwilightFs D) FsError unit :=
  if bool_decide (old_path = new_path) then retM tt
  else
    old <-- liftM (split_parent_and_name old_path) ;;
    new <-- liftM (split_parent_and_name new_path) ;;
    let '(old_parent_path, old_name) := old in
    let '(new_parent_path, new_name) := new in
    if (60 <? slen old_name)%nat || (60 <? slen new_name)%nat then failM FileNameTooLong
    else
      old_parent <-- resolve_path old_parent_path ;;
      new_parent <-- resolve_path new_parent_path ;;
      dir_inode old_parent >>>
      dir_inode new_parent >>>
      found <-- on_device (find_dir_entry_slot sb old_parent old_name) ;;
      match found with
      | None => failM FileNotFound
      | Some (old_zone, old_offset, old_num) =>
        i <-- on_device (invalid (read_inode sb old_num)) ;;
        if is_dir i && negb (old_parent =? new_parent) then failM NotSupported
        else
          done <-- clear_target ro old_num old_parent new_parent new_name new_path ;;
          if done : bool then retM tt
          else
            (if old_parent =? new_parent then on_device (rewrite_name old_zone old_offset new_name)
             else
               invalid (create_dir_entry sb new_parent new_name old_num) >>>
               on_device (clear_dir_entry_slot sb old_parent old_zone old_offset)) >>>
            tell_shared (if old_parent =? new_parent
                         then dir_index_rename old_parent old_name new_parent new_name old_num
                         else dir_index_remove old_parent old_name) >>>
            tell_shared (remove_lookup_prefix (join_parent_and_name old_parent_path old_name)) >>>
            tell_shared (remove_lookup_prefix (join_parent_and_name new_parent_path new_name))
      end.

(** ** Listing a directory *)

Fixpoint before_nul (l : list Z) : list Z :=
  match l with [] => [] | b :: l => if b =? 0 then [] else b :: before_nul l end.

(** The entries of one block: [processed] counts the bytes of live entries. *)
Fixpoint list_block (n i : nat) (buf : list Z) (processed total : Z) (acc : list Metadata)
    : M D string (Z * list Metadata) :=
  match n with
  | O => retM (processed, acc)
  | S n =>
    if total <=? processed then retM (processed, acc)
    else
      match entry_at buf i with
      | None => panicM
      | Some e =>
        if de_inode e =? 0 then list_block n (S i) buf processed total acc
        else
          inode <-- read_inode sb (de_inode e) ;;
          let acc := match from_utf8 (before_nul (de_name e)) with
                     | Some s => if is_empty s then acc
                                 else acc ++ [inode_metadata (de_inode e) s (type_of_inode inode) inode]
                     | None => acc
                     end in
          list_block n (S i) buf (processed + Z.of_nat DIR_ENTRY_SIZE) total acc
      end
  end.

Fixpoint list_loop (zones : list Z) (processed total : Z) (acc : list Metadata) : M D string (list Metadata) :=
  match zones with
  | [] => retM acc
  | zone :: zones =>
    if zone =? 0 then retM acc
    else
      buf <-- map_errM (fun _ => "Failed to read directory data block") (read_tfs_block zone) ;;
      r <-- list_block (length buf / DIR_ENTRY_SIZE) 0 buf processed total acc ;;
      list_loop zones (fst r) total (snd r)
  end.

Definition list_dir (num : Z) : M D string (list Metadata) :=
  i <-- read_inode sb num ;;
  list_loop (direct_slots i) 0 (isize i) [].

(** ** Mounting an existing file system *)

Definition open_device (d : D) (now uid gid : Z) : res string (Superblock * TwilightFs D) * D :=
  match read_superblock d with
  | (Ok sb', d) =>
    match validate_root_inode sb' d with
    | (Ok _, d) => (Ok (sb', mkTfs d TwilightFsShared_new now uid gid), d)
    | (Err e, d) => (Err e, d)
    | (Panic, d) => (Panic, d)
    end
  | (Err e, d) => (Err e, d)
  | (Panic, d) => (Panic, d)
  end.
End path.
