(* ===== verification/TfsNode.v ===== *)
(** * TwilightFS open files and the [FileSystem] interface (sys/fs/twilight_fs/inode.rs, mod.rs)

    An open file keeps a copy of its inode.  [read] goes through the file cache and
    [read_all_file]; [write] allocates zones, plans and batches the block writes;
    encrypted files are XORed with the key stream of their owner.  Then the
    [FileSystem] implementation of [TwilightFs]. *)

From Stdlib Require Import Ascii ZifyBool.
From S2P Require Import Prelude Bytes Text BlockDev BlockDevSpec TfsBlock TfsAlloc TfsInode TfsCache TfsDir TfsFile TfsPath Vfs.
Open Scope twilight_scope.

Definition EISDIR : Z := 21.
Definition EIO_NEG : Z := -5.
Definition BLOCK_SIZE : nat := 2048.
Definition ZONE_ENTRIES : nat := (BLOCK_SIZE / 4)%nat.

Record TFSVfsNode := mkNode { inode_no : Z; node_inode : Inode; full_path : string }.
Definition set_node_inode (i : Inode) (n : TFSVfsNode) : TFSVfsNode := mkNode (inode_no n) i (full_path n).

(** The length of a stretch of consecutive zones. *)
Fixpoint consecutive (start : Z) (k : nat) (zs : list Z) : nat :=
  match zs with
  | [] => k
  | z :: zs => if z =? u32 (start + Z.of_nat k) then consecutive start (S k) zs else k
  end.

Definition xor_bytes (ks buf : list Z) : list Z := zip_with Z.lxor buf ks.

Section node.
Context {D : Type} `{!BlockDeviceIO D} (sb : Superblock) (mount_mode : MountMode).
(** The keys set by their users, and the ChaCha20 key stream of a key and a nonce. *)
Context (get_user_key : Z -> option (list Z)) (keystream : list Z -> list Z -> nat -> list Z).

Abbreviation Fs := (TwilightFs D).
Abbreviation NodeState := (TFSVfsNode * TwilightFs D)%type.

Definition on_fs {E A} (m : M Fs E A) : M NodeState E A := focusM snd (fun t s => (fst s, t)) m.
Definition on_dev {E A} (m : M D E A) : M NodeState E A := on_fs (on_device m).
Definition set_inode {E} (f : Inode -> Inode) : M NodeState E unit :=
  modifyM (fun s => (set_node_inode (f (node_inode (fst s))) (fst s), snd s)).

(** ** The file-system context *)

Definition ctx_alloc_zone : M Fs TfsError Z :=
  if is_read_only mount_mode then failM IoError else on_device (allocate_zone sb).
Definition ctx_free_zone (z : Z) : M Fs TfsError unit :=
  if is_read_only mount_mode then failM IoError else on_device (dealloc_zone sb z).
Definition ctx_alloc_zones (count : nat) : M Fs TfsError (list Z) :=
  if is_read_only mount_mode then failM IoError else on_device (allocate_zones sb count).
Definition ctx_write_inode (num : Z) (i : Inode) : M Fs string unit :=
  if is_read_only mount_mode then failM "Read-only TwilightFS" else on_device (write_inode sb num i).
Definition ctx_remove_file (path : string) : M Fs unit unit :=
  if is_read_only mount_mode then failM tt else map_errM (fun _ => tt) (remove_entry sb mount_mode path).
Definition ctx_write_blocks (start : Z) (buf : list Z) : M Fs unit unit :=
  if is_read_only mount_mode then failM tt
  else if sb_block_size sb =? 0 then panicM
  else if negb (Z.of_nat (length buf) mod sb_block_size sb =? 0) then failM tt
  else on_device (map_errM (fun _ => tt) (write_tfs_blocks start buf)).
Definition ctx_read_block (lba : Z) (n : nat) : M Fs unit (list Z) :=
  if negb (Z.of_nat n =? sb_block_size sb) then failM tt
  else if negb (n =? FS_BLOCK_SIZE)%nat then panicM
  else on_device (map_errM (fun _ => tt) (read_tfs_block lba)).
Definition ctx_write_block (lba : Z) (buf : list Z) : M Fs unit unit :=
  if is_read_only mount_mode || negb (Z.of_nat (length buf) =? sb_block_size sb) then failM tt
  else if negb (length buf =? FS_BLOCK_SIZE)%nat then panicM
  else on_device (map_errM (fun _ => tt) (write_tfs_block lba buf)).

(** ** Encryption *)

Definition is_encrypted (i : Inode) : bool := negb (Z.land (flags i) IFLAG_ENCRYPTED =? 0).

Definition get_encryption_key (i : Inode) (current_uid : Z) : option (list Z) :=
  if negb (is_encrypted i) then None
  else if negb (current_uid =? 0) && negb (current_uid =? TfsInode.uid i) then None
  else get_user_key (TfsInode.uid i).

Definition apply_crypto (num : Z) (i : Inode) (current_uid block_idx : Z) (buf : list Z) : list Z :=
  match get_encryption_key i current_uid with
  | Some key => xor_bytes (keystream key (to_le 4 num ++ to_le 8 block_idx) (length buf)) buf
  | None => buf
  end.

Definition crypt (s : NodeState) (block_idx : Z) (buf : list Z) : list Z :=
  apply_crypto (inode_no (fst s)) (node_inode (fst s)) (u32 (t_uid (snd s))) block_idx buf.

(** ** Reading the whole file *)

Fixpoint until_zero (zs : list Z) : list Z :=
  match zs with [] => [] | z :: zs => if z =? 0 then [] else z :: until_zero zs end.
Definition all_entries (block : list Z) : list Z := zone_entry block <$> seq 0 ZONE_ENTRIES.

Fixpoint double_zones (roots : list Z) (acc : list Z) : M D unit (list Z) :=
  match roots with
  | [] => retM acc
  | z :: roots =>
    b <-- okM (read_tfs_block z) ;;
    double_zones roots (match b with Some b => acc ++ until_zero (all_entries b) | None => acc end)
  end.

(** The zones of the file, as far as they can be read. *)
Definition file_zones (i : Inode) : M D unit (list Z) :=
  let zs := until_zero (direct_slots i) in
  zs <-- (if indirect i =? 0 then retM zs
          else b <-- okM (read_tfs_block (indirect i)) ;;
               retM (match b with Some b => zs ++ until_zero (all_entries b) | None => zs end)) ;;
  if double_indirect i =? 0 then retM zs
  else
    b <-- okM (read_tfs_block (double_indirect i)) ;;
    match b with Some b => double_zones (until_zero (all_entries b)) zs | None => retM zs end.

(** Runs of at most 128 consecutive zones are read together. *)
Fixpoint read_runs (fuel : nat) (zs : list Z) (offset : nat) (out : list Z) : M NodeState unit (list Z) :=
  match fuel, zs with
  | _, [] => retM out
  | O, _ :: _ => panicM
  | S fuel, z :: rest =>
    let run_len := Nat.min (consecutive z 1 rest) 128 in
    temp <-- on_dev (map_errM (fun _ => tt) (read_tfs_blocks z (run_len * BLOCK_SIZE))) ;;
    s <-- getM ;;
    let temp := concat (imap (fun j zj => crypt s zj (load (j * BLOCK_SIZE) BLOCK_SIZE temp)) (take run_len zs)) in
    let n := Nat.min (run_len * BLOCK_SIZE) (length out - offset) in
    let out := store offset (take n temp) out in
    if (length out <=? offset + n)%nat then retM out
    else read_runs fuel (drop run_len zs) (offset + n) out
  end.

Definition read_all_file : M NodeState unit (list Z) :=
  s <-- getM ;;
  let i := node_inode (fst s) in
  if negb (Z.land (flags i) IFLAG_INLINE_DATA =? 0) then retM (inline_data_bytes i)
  else
    zs <-- on_dev (file_zones i) ;;
    read_runs (length zs) zs 0 (replicate (Z.to_nat (isize i)) 0).

(** ** Reading *)

(** The metadata blocks held during one read. *)
Record ReadCache := mkCache {
  single_cache : option (list Z); root_cache : option (list Z); l1_cache : option (nat * Z * list Z);
}.

(** The block from the cache, or read and kept. *)
Definition load_block (held : option (list Z)) (zone : Z) : M D unit (list Z) :=
  match held with Some b => retM b | None => map_errM (fun _ => tt) (read_tfs_block zone) end.

Definition load_l1 (held : option (nat * Z * list Z)) (idx : nat) (zone : Z) : M D unit (list Z) :=
  match held with
  | Some (i, z, b) => if (i =? idx)%nat && (z =? zone) then retM b
                      else map_errM (fun _ => tt) (read_tfs_block zone)
  | None => map_errM (fun _ => tt) (read_tfs_block zone)
  end.

Definition double_start : nat := (DIRECT_SLOT_COUNT + ZONE_ENTRIES)%nat.

(** The zone of a block of the file, 0 if it has none. *)
Definition zone_of_block (i : Inode) (logic_block : nat) (c : ReadCache) : M D unit (Z * ReadCache) :=
  if (logic_block <? DIRECT_SLOT_COUNT)%nat then retM (direct_slot_get i logic_block, c)
  else if (logic_block <? double_start)%nat then
    if indirect i =? 0 then retM (0, c)
    else
      b <-- load_block (single_cache c) (indirect i) ;;
      retM (zone_entry b (logic_block - DIRECT_SLOT_COUNT), mkCache (Some b) (root_cache c) (l1_cache c))
  else if (logic_block <? double_start + ZONE_ENTRIES * ZONE_ENTRIES)%nat then
    if double_indirect i =? 0 then retM (0, c)
    else
      b <-- load_block (root_cache c) (double_indirect i) ;;
      let c := mkCache (single_cache c) (Some b) (l1_cache c) in
      let l1_idx := ((logic_block - double_start) / ZONE_ENTRIES)%nat in
      let l1_zone := zone_entry b l1_idx in
      if l1_zone =? 0 then retM (0, c)
      else
        b <-- load_l1 (l1_cache c) l1_idx l1_zone ;;
        retM (zone_entry b ((logic_block - double_start) mod ZONE_ENTRIES),
              mkCache (single_cache c) (root_cache c) (Some (l1_idx, l1_zone, b)))
  else retM (0, c).

Record ReadOp := mkReadOp { r_zone : Z; r_out : nat; r_block_off : nat; r_len : nat }.

(** The blocks to read, up to the first one the file does not have. *)
Fixpoint plan_reads (fuel : nat) (i : Inode) (logic_block off_in_block written rem : nat) (c : ReadCache)
    (acc : list ReadOp) : M D unit (list ReadOp * nat) :=
  match rem, fuel with
  | O, _ => retM (acc, written)
  | _, O => panicM
  | _, S fuel =>
    zc <-- zone_of_block i logic_block c ;;
    let '(zone, c) := zc in
    if zone =? 0 then retM (acc, written)
    else
      let to_copy := Nat.min rem (BLOCK_SIZE - off_in_block) in
      plan_reads fuel i (S logic_block) 0 (written + to_copy) (rem - to_copy) c
        (acc ++ [mkReadOp zone written off_in_block to_copy])
  end.

Definition full_read (op : ReadOp) : bool := (r_block_off op =? 0)%nat && (r_len op =? BLOCK_SIZE)%nat.

Fixpoint read_run_after (prev : ReadOp) (rest : list ReadOp) : nat :=
  match rest with
  | [] => 0
  | op :: rest =>
    if full_read op && (r_zone op =? u32 (r_zone prev + 1)) && (r_out op =? r_out prev + BLOCK_SIZE)%nat
    then S (read_run_after op rest) else 0
  end.

Fixpoint run_reads (fuel : nat) (l : list ReadOp) (out : list Z) : M NodeState unit (list Z) :=
  match fuel, l with
  | _, [] => retM out
  | O, _ :: _ => panicM
  | S fuel, op :: rest =>
    if full_read op then
      let extra := read_run_after op rest in
      temp <-- on_dev (map_errM (fun _ => tt) (read_tfs_blocks (r_zone op) (S extra * BLOCK_SIZE))) ;;
      s <-- getM ;;
      let temp := concat ((fun b => crypt s (u32 (r_zone op + Z.of_nat b)) (load (b * BLOCK_SIZE) BLOCK_SIZE temp))
                            <$> seq 0 (S extra)) in
      run_reads fuel (drop extra rest) (store (r_out op) temp out)
    else
      buffer <-- on_dev (map_errM (fun _ => tt) (read_tfs_block (r_zone op))) ;;
      s <-- getM ;;
      run_reads fuel rest
        (store (r_out op) (load (r_block_off op) (r_len op) (crypt s (r_zone op) buffer)) out)
  end.

(** The bytes read at [lba] into a buffer of [n] bytes. *)
Definition node_read (lba : Z) (n : nat) : M NodeState unit (list Z) :=
  s <-- getM ;;
  let i := node_inode (fst s) in
  let file_size := isize i in
  if file_size <=? lba then retM []
  else if negb (Z.land (flags i) IFLAG_INLINE_DATA =? 0) then
    let data := inline_data_bytes i in
    if Z.of_nat (length data) <? lba then panicM
    else retM (load (Z.to_nat lba) (Nat.min n (length data - Z.to_nat lba)) data)
  else
    let max_to_read := Nat.min (Z.to_nat (file_size - lba)) n in
    let off := Z.to_nat lba in
    let should_cache := (0 <? file_size) && (file_size <=? FILE_CACHE_MAX_FILE_BYTES) in
    cached <-- (if should_cache then on_fs (ask_shared (read_cached_file_slice (inode_no (fst s)) off n))
                else retM None) ;;
    match cached with
    | Some bytes => retM (take max_to_read bytes)
    | None =>
      whole <-- (if should_cache then okM read_all_file else retM None) ;;
      match whole with
      | Some data =>
        on_fs (tell_shared (insert_file_cache (inode_no (fst s)) data)) >>>
        retM (load off (Nat.min max_to_read (length data - off)) data)
      | None =>
        r <-- on_dev (plan_reads (S (max_to_read / BLOCK_SIZE + 1)) i (off / BLOCK_SIZE) (off mod BLOCK_SIZE) 0
                        max_to_read (mkCache None None None) []) ;;
        out <-- run_reads (length (fst r)) (fst r) (replicate max_to_read 0) ;;
        retM (take (snd r) out)
      end
    end.

(** ** Writing *)

Definition blocks_for_len (len : Z) : Z := if len =? 0 then 0 else usize (len + 2047) / 2048.
Definition IND_CAP : nat := (ZONE_ENTRIES - 1)%nat.

(** The number of zones allocated in advance. *)
Definition node_prealloc (i : Inode) (lba len : Z) : nat :=
  let current_blocks := blocks_for_len (isize i) in
  let end_blocks := blocks_for_len (lba + len) in
  let touched_blocks := (lba mod 2048 + len + 2047) / 2048 in
  let append := lba <=? isize i in
  let missing0 := if append then saturating_sub end_blocks current_blocks else touched_blocks in
  let indirect_entries := Z.of_nat IND_CAP in
  let dstart := Z.of_nat DIRECT_SLOT_COUNT + indirect_entries in
  let start_block := lba / 2048 in
  let data_missing_start := if append then current_blocks else start_block in
  let held := length (List.filter
                (fun b => (data_missing_start <=? Z.of_nat b) && (Z.of_nat b <? end_blocks) &&
                          negb (direct_slot_get i b =? 0))
                (seq 0 DIRECT_SLOT_COUNT)) in
  let missing := saturating_sub missing0 (Z.of_nat held) in
  let m1 := if (start_block <? dstart) && (Z.of_nat DIRECT_SLOT_COUNT <? end_blocks) && (indirect i =? 0)
            then 1 else 0 in
  let dend := dstart + indirect_entries * indirect_entries in
  let touched_start := Z.max start_block dstart in
  let touched_end := Z.min end_blocks dend in
  let m2 := if (dstart <? end_blocks) && (touched_start <? touched_end) then
              (if double_indirect i =? 0 then 1 else 0) +
              (saturating_sub ((touched_end - 1 - dstart) / indirect_entries)
                 ((touched_start - dstart) / indirect_entries) + 1)
            else 0 in
  Z.to_nat (missing + m1 + m2).

Abbreviation Alloc := (NodeState * list Z)%type.

Definition on_node {E A} (m : M NodeState E A) : M Alloc E A := focusM fst (fun s a => (s, snd a)) m.

Definition new_zone : M Alloc unit Z :=
  a <-- getM ;;
  match snd a with
  | z :: zs => putM (fst a, zs) >>> retM z
  | [] => on_node (on_fs (map_errM (fun _ => tt) ctx_alloc_zone))
  end.

Record NodeOp := mkNodeOp { n_zone : Z; n_data : nat; n_block_off : nat; n_len : nat; n_new : bool }.
Record NodeProgress := mkNP { np_ops : list NodeOp; np_written : nat; np_rem : nat; np_pos : Z }.

Definition np_copy (p : NodeProgress) : nat := Nat.min (np_rem p) (BLOCK_SIZE - Z.to_nat (np_pos p mod 2048)).
Definition np_push (zone : Z) (fresh : bool) (p : NodeProgress) : NodeProgress :=
  let c := np_copy p in
  mkNP (np_ops p ++ [mkNodeOp zone (np_written p) (Z.to_nat (np_pos p mod 2048)) c fresh])
    (np_written p + c) (np_rem p - c) (np_pos p + Z.of_nat c).

(** A zone that is there, or a new one; the flag says it is new. *)
Definition zone_or_new (z : Z) : M Alloc unit (Z * bool) :=
  if z =? 0 then z <-- new_zone ;; retM (z, true) else retM (z, false).

Fixpoint write_direct (fuel : nat) (zs : list Z) (p : NodeProgress) : M Alloc unit (list Z * NodeProgress) :=
  match fuel with
  | O => retM (zs, p)
  | S fuel =>
    let block_idx := Z.to_nat (np_pos p / 2048) in
    if (np_rem p =? 0)%nat || (DIRECT_SLOT_COUNT <=? block_idx)%nat then retM (zs, p)
    else
      zn <-- zone_or_new (nth block_idx zs 0) ;;
      write_direct fuel (<[block_idx := fst zn]> zs) (np_push (fst zn) (snd zn) p)
  end.

(** The entries of the single-indirect block. *)
Fixpoint write_single (fuel : nat) (block : list Z) (dirty : bool) (p : NodeProgress)
    : M Alloc unit (list Z * bool * NodeProgress) :=
  match fuel with
  | O => retM (block, dirty, p)
  | S fuel =>
    let logical_block := Z.to_nat (np_pos p / 2048) in
    let idx := (logical_block - DIRECT_SLOT_COUNT)%nat in
    if (np_rem p =? 0)%nat || (logical_block <? DIRECT_SLOT_COUNT)%nat || (IND_CAP <=? idx)%nat
    then retM (block, dirty, p)
    else
      zn <-- zone_or_new (zone_entry block idx) ;;
      let '(zone, fresh) := zn in
      write_single fuel (if fresh : bool then set_zone_entry idx zone block else block) (dirty || fresh)
        (np_push zone fresh p)
  end.

(** The entries of one second-level block, from [l2_idx]. *)
Fixpoint write_l2_block (n l2_idx : nat) (block : list Z) (dirty : bool) (p : NodeProgress)
    : M Alloc unit (list Z * bool * NodeProgress * nat) :=
  match n with
  | O => retM (block, dirty, p, 0%nat)
  | S n =>
    if (np_rem p =? 0)%nat then retM (block, dirty, p, 0%nat)
    else
      zn <-- zone_or_new (zone_entry block l2_idx) ;;
      let '(zone, fresh) := zn in
      r <-- write_l2_block n (S l2_idx) (if fresh : bool then set_zone_entry l2_idx zone block else block)
              (dirty || fresh) (np_push zone fresh p) ;;
      let '(block, dirty, p, k) := r in
      retM (block, dirty, p, S k)
  end.

Definition dev_write (zone : Z) (block : list Z) : M Alloc unit unit :=
  on_node (on_dev (map_errM (fun _ => tt) (write_tfs_block zone block))).
Definition block_or_new (zone : Z) (fresh : bool) : M Alloc unit (list Z) :=
  if fresh then retM (replicate BLOCK_SIZE 0)
  else on_node (on_dev (map_errM (fun _ => tt) (read_tfs_block zone))).
Definition write_if_dirty (dirty : bool) (zone : Z) (block : list Z) : M Alloc unit unit :=
  if dirty then dev_write zone block else retM tt.

(** The first-level entries [l1_idx ..]; [rel_blk] is the block relative to the
    double-indirect part. *)
Fixpoint write_double (n l1_idx rel_blk : nat) (root : list Z) (dirty : bool) (p : NodeProgress)
    : M Alloc unit (list Z * bool * NodeProgress) :=
  match n with
  | O => retM (root, dirty, p)
  | S n =>
    if (np_rem p =? 0)%nat then retM (root, dirty, p)
    else
      zn <-- zone_or_new (zone_entry root l1_idx) ;;
      let '(l1_zone, l1_new) := zn in
      let root := if l1_new : bool then set_zone_entry l1_idx l1_zone root else root in
      block <-- block_or_new l1_zone l1_new ;;
      let l2_idx := (rel_blk mod ZONE_ENTRIES)%nat in
      r <-- write_l2_block (IND_CAP - l2_idx) l2_idx block l1_new p ;;
      let '(block, l2_dirty, p, k) := r in
      write_if_dirty l2_dirty l1_zone block >>>
      write_double n (S l1_idx) (rel_blk + k) root (dirty || l1_new) p
  end.

Definition on_inode (f : Inode -> Inode) : M Alloc unit unit := on_node (set_inode f).
Definition ask_inode : M Alloc unit Inode := a <-- getM ;; retM (node_inode (fst (fst a))).

Definition single_part (p : NodeProgress) : M Alloc unit NodeProgress :=
  if (np_rem p =? 0)%nat then retM p
  else
    i <-- ask_inode ;;
    zn <-- zone_or_new (indirect i) ;;
    let '(zone, fresh) := zn in
    (if fresh : bool then on_inode (with_indirect zone) else retM tt) >>>
    block <-- block_or_new zone fresh ;;
    r <-- write_single ZONE_ENTRIES block fresh p ;;
    let '(block, dirty, p) := r in
    write_if_dirty dirty zone block >>> retM p.

Definition double_part (p : NodeProgress) : M Alloc unit NodeProgress :=
  if (np_rem p =? 0)%nat then retM p
  else
    i <-- ask_inode ;;
    zn <-- zone_or_new (double_indirect i) ;;
    let '(zone, fresh) := zn in
    (if fresh : bool then on_inode (with_double_indirect zone) else retM tt) >>>
    root <-- block_or_new zone fresh ;;
    let rel_blk := (Z.to_nat (np_pos p / 2048) - (DIRECT_SLOT_COUNT + IND_CAP))%nat in
    let l1_idx := (rel_blk / ZONE_ENTRIES)%nat in
    r <-- write_double (IND_CAP - l1_idx) l1_idx rel_blk root fresh p ;;
    let '(root, dirty, p) := r in
    write_if_dirty dirty zone root >>> retM p.

(** The operations after [prev] that continue it, block by block. *)
Fixpoint node_run_after (prev : NodeOp) (rest : list NodeOp) : nat :=
  match rest with
  | [] => 0
  | op :: rest =>
    if (n_zone op =? u32 (n_zone prev + 1)) && (n_len prev =? BLOCK_SIZE)%nat && (n_len op =? BLOCK_SIZE)%nat &&
       (n_block_off prev =? 0)%nat && (n_block_off op =? 0)%nat && (n_data prev + n_len prev =? n_data op)%nat
    then S (node_run_after op rest) else 0
  end.

Definition node_op_single (data : list Z) (op : NodeOp) : M NodeState unit unit :=
  if (n_len op =? BLOCK_SIZE)%nat && (n_block_off op =? 0)%nat
  then on_dev (map_errM (fun _ => tt) (write_tfs_block (n_zone op) (load (n_data op) BLOCK_SIZE data)))
  else
    buffer <-- (if n_new op then retM (replicate BLOCK_SIZE 0)
                else on_dev (map_errM (fun _ => tt) (read_tfs_block (n_zone op)))) ;;
    on_dev (map_errM (fun _ => tt)
      (write_tfs_block (n_zone op) (store (n_block_off op) (load (n_data op) (n_len op) data) buffer))).

Fixpoint run_node_ops (fuel : nat) (data : list Z) (l : list NodeOp) : M NodeState unit unit :=
  match fuel, l with
  | _, [] => retM tt
  | O, _ :: _ => panicM
  | S fuel, op :: rest =>
    match node_run_after op rest with
    | O => node_op_single data op >>> run_node_ops fuel data rest
    | S k =>
      on_fs (ctx_write_blocks (n_zone op) (load (n_data op) (S (S k) * BLOCK_SIZE) data)) >>>
      run_node_ops fuel data (drop (S k) rest)
    end
  end.

(** Encrypted files are written block by block. *)
Fixpoint run_crypt_ops (data : list Z) (l : list NodeOp) : M NodeState unit unit :=
  match l with
  | [] => retM tt
  | op :: rest =>
    s <-- getM ;;
    buffer <-- (if negb (n_new op) && (n_len op <? BLOCK_SIZE)%nat
                then b <-- on_dev (map_errM (fun _ => tt) (read_tfs_block (n_zone op))) ;;
                     retM (crypt s (n_zone op) b)
                else retM (replicate BLOCK_SIZE 0)) ;;
    let buffer := store (n_block_off op) (load (n_data op) (n_len op) data) buffer in
    on_dev (map_errM (fun _ => tt) (write_tfs_block (n_zone op) (crypt s (n_zone op) buffer))) >>>
    run_crypt_ops data rest
  end.

Fixpoint free_zones (zs : list Z) : M NodeState unit unit :=
  match zs with [] => retM tt | z :: zs => okM (on_fs (ctx_free_zone z)) >>> free_zones zs end.

(** Run [m] with zones allocated in advance; the zones left over are returned. *)
Definition with_alloc {A} (pre : list Z) (m : M Alloc unit A) : M NodeState unit (A * list Z) :=
  fun s => let '(r, (s, spare)) := m (s, pre) in
           (match r with Ok a => Ok (a, spare) | Err e => Err e | Panic => Panic end, s).

Definition plan_node_write (lba : Z) (n : nat) : M Alloc unit (list Z * NodeProgress) :=
  i <-- ask_inode ;;
  d <-- write_direct DIRECT_SLOT_COUNT (direct_slots i) (mkNP [] 0 n lba) ;;
  p <-- single_part (snd d) ;;
  p <-- double_part p ;;
  retM (fst d, p).

Definition node_write (lba : Z) (data : list Z) : M NodeState unit unit :=
  match data, checked_add lba (Z.of_nat (length data)) with
  | [], _ => retM tt
  | _, None => failM tt
  | _, Some _ =>
    s <-- getM ;;
    let count := node_prealloc (node_inode (fst s)) lba (Z.of_nat (length data)) in
    pre <-- (if (count =? 0)%nat then retM (Some []) else okM (on_fs (ctx_alloc_zones count))) ;;
    r <-- with_alloc (default [] pre) (plan_node_write lba (length data)) ;;
    let '((direct_zones, p), spare) := r in
    s <-- getM ;;
    (if is_encrypted (node_inode (fst s)) then run_crypt_ops data (np_ops p)
     else run_node_ops (length (np_ops p)) data (np_ops p)) >>>
    free_zones (rev spare) >>>
    let end_pos := Z.of_nat (np_written p) + lba in
    set_inode (fun i => if isize i <? end_pos then with_size end_pos i else i) >>>
    set_inode (set_slots 0 direct_zones) >>>
    s <-- getM ;;
    on_fs (unwrapM (ctx_write_inode (inode_no (fst s)) (node_inode (fst s)))) >>>
    on_fs (tell_shared (invalidate_file_inode (inode_no (fst s))))
  end.

Definition node_unlink : M NodeState unit Z :=
  s <-- getM ;;
  if is_dir (node_inode (fst s)) then retM (- EISDIR)
  else
    r <-- okM (on_fs (ctx_remove_file (full_path (fst s)))) ;;
    retM (match r with Some _ => 0 | None => -1 end).

(** Extending writes zeros, at most a block at a time. *)
Fixpoint extend_loop (fuel : nat) (offset : Z) (rem : nat) : M NodeState Z unit :=
  match rem, fuel with
  | O, _ => retM tt
  | _, O => panicM
  | _, S fuel =>
    let n := Nat.min rem BLOCK_SIZE in
    map_errM (fun _ => EIO_NEG) (node_write offset (replicate n 0)) >>>
    extend_loop fuel (offset + Z.of_nat n) (rem - n)
  end.

Definition node_truncate (len : Z) : M NodeState Z unit :=
  s <-- getM ;;
  let cur := isize (node_inode (fst s)) in
  if len =? cur then retM tt
  else if len <? cur then
    set_inode (with_size len) >>>
    s <-- getM ;;
    on_fs (map_errM (fun _ => EIO_NEG) (ctx_write_inode (inode_no (fst s)) (node_inode (fst s)))) >>>
    on_fs (tell_shared (invalidate_file_inode (inode_no (fst s))))
  else
    let rem := Z.to_nat (len - cur) in
    extend_loop (S (rem / BLOCK_SIZE)) cur rem.

#[export] Instance tfs_node_ops : VfsNodeOps NodeState unit := {|
  vn_read := fun _ => node_read;
  vn_write := fun _ => node_write;
  vn_poll := fun _ => retM true;
  vn_ioctl := fun _ _ _ => retM 0;
  vn_unlink := fun _ => node_unlink;
  vn_truncate := fun _ => node_truncate;
|}.
End node.
