(* ===== verification/TfsFs.v ===== *)
(** * TwilightFS as a mounted file system (sys/fs/twilight_fs/mod.rs)

    The [FileSystem] implementation of [TwilightFs], its statistics, and formatting. *)

From Stdlib Require Import Ascii ZifyBool.
From S2P Require Import Prelude Bytes Text BlockDev BlockDevSpec TfsBlock TfsAlloc TfsInode TfsCache TfsDir TfsFile TfsPath TfsNode Vfs.
Open Scope twilight_scope.

Definition CHMOD_MASK : Z := 0xFFF.

Definition with_mode (m now : Z) (i : Inode) : Inode :=
  mkInode m (nlinks i) (TfsInode.uid i) (TfsInode.gid i) (isize i) (TfsInode.access_time i)
    (TfsInode.modified_time i) now (TfsInode.created_time i) (flags i) (generation i) (xattr_block i) (_pad0 i)
    (direct i) (indirect i) (double_indirect i) (triple_indirect i) (inline_data i) (inode_checksum i) (_pad1 i).

Section tfs.
Context {D : Type} `{!BlockDeviceIO D} (sb : Superblock) (mount_mode : MountMode).

Abbreviation Fs := (TwilightFs D).

Definition unit_err {S E A} (m : M S E A) : M S unit A := map_errM (fun _ => tt) m.

(** [path.split('/').last().unwrap()]. *)
Definition last_component (path : string) : string := default EmptyString (last (split slash path)).

(** [if path == ROOT { 1 } else { self.resolve_path(path) }]. *)
Definition resolve_or_root (path : string) : M Fs FsError Z :=
  if bool_decide (path = "/") then retM 1 else resolve_path sb path.

Definition tfs_open (path : string) : M Fs unit (VfsNode TFSVfsNode) :=
  num <-- unit_err (resolve_or_root path) ;;
  i <-- okM (on_device (read_inode sb num)) ;;
  match i with
  | Some i => retM (mkVfsNode (inode_metadata num (last_component path) (type_of_inode i) i) (mkNode num i path))
  | None => failM tt
  end.

(** [mkdir] reports success when the parent does not resolve. *)
Definition tfs_mkdir (parent_dir name : string) (md : Z) : M Fs unit unit :=
  if is_read_only mount_mode then failM tt
  else
    r <-- okM (resolve_path sb parent_dir) ;;
    match r with
    | None => retM tt
    | Some num =>
      i <-- on_device (unwrapM (read_inode sb num)) ;;
      if is_dir i then unit_err (create_dir_with_mode sb num name md) >>> retM tt else failM tt
    end.

Definition tfs_touch (parent_path filename : string) (md : Z) : M Fs unit unit :=
  if is_read_only mount_mode then failM tt
  else
    num <-- unit_err (resolve_path sb parent_path) ;;
    i <-- on_device (unwrapM (read_inode sb num)) ;;
    if is_dir i then unit_err (create_file_with_mode sb num filename md) >>> retM tt else failM tt.

Definition tfs_rm (path : string) : M Fs unit unit :=
  if is_read_only mount_mode then failM tt else unit_err (remove_entry sb mount_mode path).

Definition tfs_rename (old_path new_path : string) : M Fs unit unit :=
  if is_read_only mount_mode then failM tt else unit_err (rename_entry sb mount_mode old_path new_path).

Definition tfs_ls (path : string) : M Fs unit (list Metadata) :=
  num <-- unit_err (resolve_path sb path) ;; on_device (unit_err (list_dir sb num)).

(** [metadata] reports everything but a directory as a file. *)
Definition tfs_metadata (path : string) : M Fs unit Metadata :=
  num <-- unit_err (resolve_path sb path) ;;
  i <-- on_device (unwrapM (read_inode sb num)) ;;
  retM (inode_metadata num (last_component path) (if is_dir i then FileType.Dir else FileType.File) i).

Definition tfs_chmod (path : string) (md : Z) : M Fs VfsError unit :=
  if is_read_only mount_mode then failM ReadOnly
  else
    num <-- map_errM (fun _ => NotFound) (resolve_or_root path) ;;
    i <-- map_errM (fun _ => Io) (on_device (read_inode sb num)) ;;
    t <-- getM ;;
    map_errM (fun _ => Io)
      (on_device (write_inode sb num
        (with_mode (Z.lor (Z.land (TfsInode.mode i) MODE_TYPE_MASK) (Z.land md CHMOD_MASK)) (t_unix_time t) i))).

Definition tfs_set_attr (path : string) (attr value : Z) : M Fs unit unit :=
  if is_read_only mount_mode then failM tt
  else if negb (attr =? IFLAG_ENCRYPTED) then failM tt
  else
    num <-- unit_err (resolve_or_root path) ;;
    i <-- unit_err (on_device (read_inode sb num)) ;;
    unit_err (on_device (write_inode sb num
      (with_flags (if negb (value =? 0) then Z.lor (flags i) IFLAG_ENCRYPTED
                   else Z.ldiff (flags i) IFLAG_ENCRYPTED) i))).

Definition tfs_get_attr (path : string) (attr : Z) : M Fs unit Z :=
  if negb (attr =? IFLAG_ENCRYPTED) then failM tt
  else
    num <-- unit_err (resolve_or_root path) ;;
    i <-- unit_err (on_device (read_inode sb num)) ;;
    retM (if negb (Z.land (flags i) IFLAG_ENCRYPTED =? 0) then IFLAG_ENCRYPTED else 0).

(** ** Statistics *)

(** The clear bits among the first [n] of a map block; [None] out of range. *)
Definition clear_bits (n : nat) (buf : list Z) : option nat :=
  if (length buf * 8 <? n)%nat then None
  else Some (length (List.filter (fun bit => bit_clear (nth (bit / 8) buf 0) (bit mod 8)) (seq 0 n))).

(** The free indices below [total] in the map of [n] blocks from [start]. *)
Fixpoint count_free (n : nat) (block_idx start total : Z) (acc : Z) : M D unit Z :=
  match n with
  | O => retM acc
  | S n =>
    buf <-- unit_err (read_tfs_block (u32 (start + block_idx))) ;;
    let first_bit := block_idx * map_bits sb in
    let valid_bits := Z.min (saturating_sub total first_bit) (map_bits sb) in
    match clear_bits (Z.to_nat valid_bits) buf with
    | None => panicM
    | Some k => count_free n (block_idx + 1) start total (acc + Z.of_nat k)
    end
  end.

Definition tfs_stats : M Fs unit FsStats :=
  free_zones <-- on_device (count_free (Z.to_nat (zmap_blocks sb)) 0 (u32 (imap_blocks sb + 1)) (max_data_zones sb) 0) ;;
  free_inodes <-- on_device (count_free (Z.to_nat (imap_blocks sb)) 0 1 (ninodes sb) 0) ;;
  retM (mkFsStats (from_le MAGIC) (sb_block_size sb) (zones sb) free_zones free_zones (ninodes sb) free_inodes
          255 (sb_block_size sb) 0).

#[export] Instance tfs_file_system : FileSystem Fs TFSVfsNode := {|
  fs_open := tfs_open;
  fs_mkdir := tfs_mkdir;
  fs_rmdir := tfs_rm;
  fs_rename := tfs_rename;
  fs_ls := tfs_ls;
  fs_rm := tfs_rm;
  fs_touch := tfs_touch;
  fs_metadata := tfs_metadata;
  fs_chmod := tfs_chmod;
  fs_set_attr := tfs_set_attr;
  fs_get_attr := tfs_get_attr;
  fs_type_name := fun _ => "twilightfs";
  fs_source_name := fun _ => "/dev/disk0";
  fs_stats := tfs_stats;
|}.

End tfs.

(** ** Formatting a partition *)

Section format.
Context {D : Type} `{!BlockDeviceIO D}.

(** Clear the blocks [block .. block + n - 1]. *)
Fixpoint clear_metadata (n : nat) (block : Z) : M D string unit :=
  match n with
  | O => retM tt
  | S n =>
    map_errM (fun _ => "Failed to clear USB TwilightFS metadata") (write_tfs_block block zero_block) >>>
    clear_metadata n (block + 1)
  end.

(** [format_usb_blk], once the partition is chosen. *)
Definition format_partition (partition_sectors now uid gid : Z) (d : D) : res string (Superblock * TwilightFs D) * D :=
  match (sb <-- Superblock_write partition_sectors ;;
         clear_metadata (Z.to_nat (first_data_zone sb - 1)) 1 >>> retM sb) d with
  | (Ok sb, d) =>
    match initialize_root_inode sb (mkTfs d TwilightFsShared_new now uid gid) with
    | (Ok _, t) => (Ok (sb, t), t_device t)
    | (Err e, t) => (Err e, t_device t)
    | (Panic, t) => (Panic, t_device t)
    end
  | (Err e, d) => (Err e, d)
  | (Panic, d) => (Panic, d)
  end.
End format.
