(* ===== verification/TfsVolume.v ===== *)
(** * The volume: an abstract view of a mounted TwilightFS

    Upper layers use the disk through a few primitives: data blocks, the two maps and
    the inode table.  A [Volume] is what they see: the contents of the data zones, the
    zones and inodes in use, and the inodes.  [rep] says that a device holds a volume,
    and [runs] that an operation takes every device holding one volume to a device
    holding another, with a given result; each primitive has its [runs] lemma on a
    reliable device, and the proofs about directories and files use only those. *)

From Stdlib Require Import ZifyBool.
From S2P Require Import Prelude Bytes BlockDev BlockDevSpec TfsBlock TfsAlloc TfsInode.
Open Scope twilight_scope.

Record Volume := mkVolume {
  vblk : Z -> list Z; vzused : Z -> bool; viused : Z -> bool; vino : Z -> Inode;
}.

Definition set_blk (z : Z) (b : list Z) (a : Volume) : Volume :=
  mkVolume (fun x => if x =? z then b else vblk a x) (vzused a) (viused a) (vino a).
(** [k] consecutive blocks from [z], taken from [buf]. *)
Definition set_blks (z : Z) (k : nat) (buf : list Z) (a : Volume) : Volume :=
  mkVolume (fun x => if (z <=? x) && (x <? z + Z.of_nat k)
                     then load (Z.to_nat (x - z) * FS_BLOCK_SIZE) FS_BLOCK_SIZE buf else vblk a x)
    (vzused a) (viused a) (vino a).
Definition use_zone (z : Z) (a : Volume) : Volume :=
  mkVolume (vblk a) (fun x => (x =? z) || vzused a x) (viused a) (vino a).
Definition free_zone (z : Z) (a : Volume) : Volume :=
  mkVolume (vblk a) (fun x => negb (x =? z) && vzused a x) (viused a) (vino a).
Definition use_inode (j : Z) (a : Volume) : Volume :=
  mkVolume (vblk a) (vzused a) (fun x => (x =? j) || viused a x) (vino a).
Definition free_inode (j : Z) (a : Volume) : Volume :=
  mkVolume (vblk a) (vzused a) (fun x => negb (x =? j) && viused a x) (vino a).
Definition set_ino (j : Z) (i : Inode) (a : Volume) : Volume :=
  mkVolume (vblk a) (vzused a) (viused a) (fun x => if x =? j then i else vino a x).

Section volume.
Context {D : Type} `{ReliableDev D} (sb : Superblock).
Implicit Types d : D.

(** The maps and the start of the inode table lie before the data, and everything inside
    the device.  The end of the table may reach into the data zones: the formatter sizes it
    for inodes that are packed, and the code keeps ten in a block. *)
Record vol_geom (d : D) : Prop := {
  vg_dev : fs_dev_ok d;
  vg_bs : sb_block_size sb = 2048;
  vg_imap : 0 <= imap_blocks sb;
  vg_zmap : 0 <= zmap_blocks sb;
  vg_inodes : 1 <= ninodes sb <= imap_blocks sb * bits_per_block;
  vg_table : inode_table_start sb <= first_data_zone sb /\ inode_table_start sb + ninodes sb / INODES_PER_BLOCK <= zones sb;
  vg_data : first_data_zone sb < zones sb;
  vg_cover : zones sb - first_data_zone sb <= zmap_blocks sb * bits_per_block;
  vg_bits : zmap_blocks sb * bits_per_block <= 2 ^ 32 /\ imap_blocks sb * bits_per_block <= 2 ^ 32;
  vg_width : first_data_zone sb + zmap_blocks sb * bits_per_block < 2 ^ 32 /\ ninodes sb < 2 ^ 32;
  vg_addr : fs_addr d (zones sb);
  vg_range : fs_in_range d (zones sb - 1);
}.

Definition in_data (z : Z) : Prop := first_data_zone sb <= z < zones sb.
(** An inode whose block lies before the data zones. *)
Definition in_table (j : Z) : Prop :=
  1 <= j <= ninodes sb /\ inode_table_start sb + (j - 1) / INODES_PER_BLOCK < first_data_zone sb.

Definition rep (d : D) (a : Volume) : Prop :=
  vol_geom d /\
  (forall z, in_data z -> fs_block d z = vblk a z) /\
  (forall z, in_data z -> zone_used sb d z = vzused a z) /\
  (forall j, in_table j -> inode_used d j = viused a j) /\
  (forall j, in_table j -> inode_at sb d j = vino a j).

(** ** Geometry *)

Lemma table_le_data : forall d, vol_geom d ->
  0 <= inode_table_start sb <= first_data_zone sb /\ inode_table_start sb + ninodes sb / INODES_PER_BLOCK <= zones sb.
Proof. intros d []. unfold inode_table_start in *. lia. Qed.

Lemma in_table_le j y : in_table j -> 1 <= y <= j -> in_table y.
Proof.
  unfold in_table, INODES_PER_BLOCK. intros [Hj Hb] Hy. split; [lia|].
  pose proof (Z.div_le_mono (y - 1) (j - 1) 10 ltac:(lia) ltac:(lia)). lia.
Qed.

Lemma vol_addr d n : vol_geom d -> 0 <= n < zones sb -> fs_addr d n /\ fs_in_range d n.
Proof.
  intros G Hn. split; [eapply fs_addr_le; [apply G|lia]|].
  eapply fs_in_range_le; [apply same_geometry_refl|apply G|lia].
Qed.

Lemma vol_mounted d : vol_geom d -> mounted sb d.
Proof.
  intros G. pose proof (table_le_data d G) as [H1 H2]. pose proof G as [].
  unfold inode_table_start, INODES_PER_BLOCK in *. pose proof (Z.div_pos (ninodes sb) 10).
  split_and!; try done; try lia; try apply vg_bits0. eapply fs_addr_le; [exact vg_addr0|lia].
Qed.

Lemma vol_table_ok d : vol_geom d -> table_ok sb d.
Proof.
  intros G. pose proof (table_le_data d G) as [H1 H2]. pose proof G as [].
  unfold table_ok, inode_table_start, INODES_PER_BLOCK in *. pose proof (Z.div_pos (ninodes sb) 10).
  split_and!; try done; [split; lia| |lia]. eapply fs_addr_le; [exact vg_addr0|]. lia.
Qed.

Lemma vol_maps_in_range d : vol_geom d -> maps_in_range sb d.
Proof.
  intros G. pose proof (table_le_data d G) as [H1 H2]. pose proof G as [].
  unfold maps_in_range, inode_table_start, INODES_PER_BLOCK in *. pose proof (Z.div_pos (ninodes sb) 10).
  eapply fs_in_range_le; [apply same_geometry_refl|exact vg_range0|lia].
Qed.

Lemma vol_geom_same d d' : vol_geom d -> fs_dev_ok d' -> same_geometry d d' -> vol_geom d'.
Proof.
  intros [] Hd Hg. split; try done; [by eapply fs_addr_geometry|].
  eapply fs_in_range_le; [exact Hg|exact vg_range0|]. destruct vg_range0. lia.
Qed.

(** ** Which blocks each part of the volume depends on *)

Lemma data_above d z : vol_geom d -> in_data z -> 0 <= z < zones sb /\ inode_table_start sb <= z.
Proof. intros G Hz. pose proof (table_le_data d G) as [H1 H2]. unfold in_data in *. lia. Qed.

Lemma zone_bit_block d z : vol_geom d -> in_data z ->
  zmap_start sb <= zmap_start sb + (z - first_data_zone sb) / bits_per_block < zmap_start sb + zmap_blocks sb.
Proof.
  intros G Hz. pose proof G as []. unfold in_data, bits_per_block in *.
  pose proof (Z.div_pos (z - first_data_zone sb) 16384). split; [lia|].
  enough ((z - first_data_zone sb) / 16384 < zmap_blocks sb) by lia. apply Z.div_lt_upper_bound; lia.
Qed.

Lemma inode_bit_block d j : vol_geom d -> in_table j ->
  1 <= 1 + (j - 1) / bits_per_block < zmap_start sb.
Proof.
  intros G Hz. pose proof G as []. unfold in_table, zmap_start, bits_per_block in *.
  pose proof (Z.div_pos (j - 1) 16384). split; [lia|].
  enough ((j - 1) / 16384 < imap_blocks sb) by lia. apply Z.div_lt_upper_bound; lia.
Qed.

Lemma inode_block d j : vol_geom d -> in_table j ->
  fst (inode_location sb j) = inode_table_start sb + (j - 1) / INODES_PER_BLOCK /\
  zmap_start sb + zmap_blocks sb <= fst (inode_location sb j) < first_data_zone sb.
Proof.
  intros G Hj. destruct (inode_location_exact sb d j (vol_table_ok d G) (proj1 Hj)) as [-> _]. cbn [fst].
  split; [done|]. unfold in_table, inode_table_start, zmap_start, INODES_PER_BLOCK in *.
  pose proof (Z.div_pos (j - 1) 10). lia.
Qed.

(** The parts a change to one region leaves alone. *)
Lemma zone_used_ext d d' z : vol_geom d -> in_data z ->
  (forall n, zmap_start sb <= n < zmap_start sb + zmap_blocks sb -> fs_block d' n = fs_block d n) ->
  zone_used sb d' z = zone_used sb d z.
Proof.
  intros G Hz He. unfold zone_used, map_bit. by rewrite He by by eapply zone_bit_block.
Qed.

Lemma inode_used_ext d d' j : vol_geom d -> in_table j ->
  (forall n, 1 <= n < zmap_start sb -> fs_block d' n = fs_block d n) -> inode_used d' j = inode_used d j.
Proof.
  intros G Hj He. unfold inode_used, map_bit. by rewrite He by by eapply inode_bit_block.
Qed.

Lemma inode_at_ext d d' j : vol_geom d -> in_table j ->
  (forall n, zmap_start sb + zmap_blocks sb <= n < first_data_zone sb -> fs_block d' n = fs_block d n) ->
  inode_at sb d' j = inode_at sb d j.
Proof.
  intros G Hj He. unfold inode_at. pose proof (inode_block d j G Hj) as [_ Hb].
  destruct (inode_location sb j) as [b o]. by rewrite He.
Qed.

Lemma rep_same d d' a : fs_same d d' -> rep d a -> rep d' a.
Proof.
  intros (Hd & Hg & Hs) (G & H1 & H2 & H3 & H4). split; [by eapply vol_geom_same|].
  split; [intros z Hz; by rewrite Hs, H1|]. split; [intros z Hz; rewrite (zone_used_ext d d'); auto|].
  split; [intros j Hj; rewrite (inode_used_ext d d'); auto|intros j Hj; rewrite (inode_at_ext d d'); auto].
Qed.

(** ** Runs *)

Definition runs {E A} (m : M D E A) (a : Volume) (r : res E A) (a' : Volume) : Prop :=
  forall d, rep d a -> exists d', m d = (r, d') /\ rep d' a'.

Lemma runs_ret {E A} (x : A) a : runs (retM x : M D E A) a (Ok x) a.
Proof. intros d Hd. by exists d. Qed.

Lemma runs_fail {E A} (e : E) a : runs (failM e : M D E A) a (Err e) a.
Proof. intros d Hd. by exists d. Qed.

Lemma runs_bind {E A B} (m : M D E A) (k : A -> M D E B) a x a1 r a2 :
  runs m a (Ok x) a1 -> runs (k x) a1 r a2 -> runs (bindM m k) a r a2.
Proof.
  intros Hm Hk d Hd. destruct (Hm d Hd) as (d1 & H1 & R1). destruct (Hk d1 R1) as (d2 & H2 & R2).
  exists d2. unfold bindM. by rewrite H1.
Qed.

Lemma runs_bind_err {E A B} (m : M D E A) (k : A -> M D E B) a e a1 :
  runs m a (Err e) a1 -> runs (bindM m k) a (Err e) a1.
Proof. intros Hm d Hd. destruct (Hm d Hd) as (d1 & H1 & R1). exists d1. unfold bindM. by rewrite H1. Qed.

Lemma runs_map_err {E E' A} (f : E -> E') (m : M D E A) a r a' :
  runs m a r a' -> runs (map_errM f m) a (match r with Ok x => Ok x | Err e => Err (f e) | Panic => Panic end) a'.
Proof.
  intros Hm d Hd. destruct (Hm d Hd) as (d1 & H1 & R1). exists d1. unfold map_errM. rewrite H1. by destruct r.
Qed.

Lemma runs_map_ok {E E' A} (f : E -> E') (m : M D E A) a x a' :
  runs m a (Ok x) a' -> runs (map_errM f m) a (Ok x) a'.
Proof. exact (runs_map_err f m a (Ok x) a'). Qed.

Lemma runs_okM {E E' A} (m : M D E A) a r a' :
  runs m a r a' -> r <> Panic ->
  runs (okM m : M D E' _) a (Ok (match r with Ok x => Some x | _ => None end)) a'.
Proof.
  intros Hm Hp d Hd. destruct (Hm d Hd) as (d1 & H1 & R1). exists d1. unfold okM. rewrite H1. by destruct r.
Qed.

Lemma runs_unwrap {E E' A} (m : M D E A) a x a' :
  runs m a (Ok x) a' -> runs (unwrapM m : M D E' A) a (Ok x) a'.
Proof. intros Hm d Hd. destruct (Hm d Hd) as (d1 & H1 & R1). exists d1. unfold unwrapM. by rewrite H1. Qed.

(** Two descriptions of the same volume. *)
Definition vol_eq (a a' : Volume) : Prop :=
  (forall z, in_data z -> vblk a z = vblk a' z) /\ (forall z, in_data z -> vzused a z = vzused a' z) /\
  (forall j, in_table j -> viused a j = viused a' j) /\ (forall j, in_table j -> vino a j = vino a' j).

Lemma rep_eq d a a' : vol_eq a a' -> rep d a -> rep d a'.
Proof.
  intros (E1 & E2 & E3 & E4) (G & H1 & H2 & H3 & H4). split; [done|].
  split_and!; intros x Hx; rewrite ?H1, ?H2, ?H3, ?H4 by done; auto.
Qed.

Lemma runs_eq {E A} (m : M D E A) a r a1 a2 : vol_eq a1 a2 -> runs m a r a1 -> runs m a r a2.
Proof. intros He Hm d Hd. destruct (Hm d Hd) as (d1 & H1 & R1). exists d1. split; [done|]. by eapply rep_eq. Qed.

(** ** Data blocks *)

Lemma runs_read z a : in_data z -> runs (read_tfs_block z) a (Ok (vblk a z)) a.
Proof.
  intros Hz d Hd. pose proof Hd as (G & Hb & _). destruct (data_above d z G Hz) as [Hr _].
  destruct (vol_addr d z G Hr) as [Ha Hi]. destruct (read_tfs_block_total d z (vg_dev _ G) Ha Hi) as (d' & Hrd).
  exists d'. split; [by rewrite Hrd, Hb|]. eapply rep_same; [|exact Hd].
  by eapply read_tfs_block_spec; [apply G|exact Ha|exact Hrd|].
Qed.

(** A device whose data zones changed, and nothing below them. *)
Lemma rep_data d d' a a' :
  rep d a -> fs_dev_ok d' -> same_geometry d d' ->
  (forall n, n < first_data_zone sb -> fs_block d' n = fs_block d n) ->
  (forall z, in_data z -> fs_block d' z = vblk a' z) ->
  vzused a' = vzused a -> viused a' = viused a -> vino a' = vino a -> rep d' a'.
Proof.
  intros (G & H1 & H2 & H3 & H4) Hd Hg Hlow Hnew E2 E3 E4. split; [by eapply vol_geom_same|]. split; [done|].
  rewrite E2, E3, E4. pose proof (table_le_data d G) as [T1 T2].
  pose proof G as []. unfold inode_table_start, INODES_PER_BLOCK in *. pose proof (Z.div_pos (ninodes sb) 10).
  split; [intros z Hz; rewrite (zone_used_ext d d'); [auto|done|done|]|split].
  - intros n Hn. apply Hlow. unfold zmap_start in Hn. lia.
  - intros j Hj. rewrite (inode_used_ext d d'); [auto|done|done|]. intros n Hn. apply Hlow. unfold zmap_start in Hn. lia.
  - intros j Hj. rewrite (inode_at_ext d d'); [auto|done|done|]. intros n Hn. apply Hlow. lia.
Qed.

Lemma runs_write z b a :
  in_data z -> length b = FS_BLOCK_SIZE -> runs (write_tfs_block z b) a (Ok tt) (set_blk z b a).
Proof.
  intros Hz Hl d Hd. pose proof Hd as (G & Hb & _). destruct (data_above d z G Hz) as [Hr _].
  destruct (vol_addr d z G Hr) as [Ha Hi].
  destruct (write_tfs_block_total d z b (vg_dev _ G) Ha Hi Hl) as (d' & Hw). exists d'. split; [done|].
  destruct (write_tfs_block_spec d z b _ _ (vg_dev _ G) Ha Hl Hw) as [(Hd' & Hg & Ho) Hn]; [done|].
  eapply rep_data; [exact Hd|done|done| | |done..].
  - intros n Hn'. apply Ho. unfold in_data in Hz. lia.
  - intros x Hx. cbn. destruct (Z.eqb_spec x z) as [->|]; [by apply Hn|]. rewrite Ho by done. auto.
Qed.

(** ** Several blocks at once *)

Lemma fs_blocks_span d z k :
  concat ((fun i => fs_block d (z + Z.of_nat i)) <$> seq 0 k) =
  read_span (contents d) (z * Z.of_nat (per_block d)) (k * per_block d).
Proof.
  induction k as [|k IH]; [done|]. rewrite seq_S, fmap_app, concat_app, IH. cbn [fmap list_fmap concat].
  rewrite app_nil_r. unfold fs_block. replace (S k * per_block d)%nat with (k * per_block d + per_block d)%nat by lia.
  rewrite read_span_app. do 2 f_equal. lia.
Qed.

Lemma fs_blocks_load d z k i :
  fs_dev_ok d -> (i < k)%nat ->
  load (i * FS_BLOCK_SIZE) FS_BLOCK_SIZE (concat ((fun i => fs_block d (z + Z.of_nat i)) <$> seq 0 k)) =
  fs_block d (z + Z.of_nat i).
Proof.
  intros Hd Hi. set (f := fun i => fs_block d (z + Z.of_nat i)).
  assert (Hlen : forall l, length (concat (f <$> l)) = (length l * FS_BLOCK_SIZE)%nat).
  { induction l as [|x l IH]; [done|]. cbn [fmap list_fmap concat]. rewrite length_app, IH. unfold f.
    rewrite fs_block_length by done. cbn [length]. lia. }
  replace (seq 0 k) with (seq 0 i ++ i :: seq (S i) (k - S i)).
  - rewrite fmap_app, concat_app. cbn [fmap list_fmap concat]. unfold load.
    rewrite drop_app_ge, Hlen, length_seq, Nat.sub_diag, drop_0 by (rewrite Hlen, length_seq; lia).
    apply take_app_length'. symmetry. apply fs_block_length, Hd.
  - change (i :: seq (S i) (k - S i)) with (seq i (S (k - S i))).
    replace i with (0 + i)%nat at 2 by lia. rewrite <- seq_app. f_equal. lia.
Qed.

(** The sectors of [k] blocks from [z]. *)
Lemma run_checked d z k :
  vol_geom d -> in_data z -> in_data (z + Z.of_nat k - 1) -> (0 < k)%nat ->
  bad_tfs_transfer (dev_block_size d) (k * FS_BLOCK_SIZE) = false /\
  checked_mul z (Z.of_nat (per_block d)) = Some (z * Z.of_nat (per_block d)) /\
  u32 (z * Z.of_nat (per_block d)) = z * Z.of_nat (per_block d) /\
  addressable (z * Z.of_nat (per_block d)) (k * per_block d) /\
  z * Z.of_nat (per_block d) + Z.of_nat (k * per_block d) <= Z.of_nat (dev_block_count d) /\
  (k * FS_BLOCK_SIZE = k * per_block d * dev_block_size d)%nat /\ (0 < k * per_block d)%nat.
Proof.
  intros G Hz Hlast Hk. destruct (data_above d z G Hz) as [Hr _].
  destruct (data_above d _ G Hlast) as [Hr' _]. destruct (vol_addr d z G Hr) as [Ha _].
  destruct (vol_addr d _ G Hr') as [[_ Ha'] [_ Hi']]. pose proof (vg_dev _ G) as Hd.
  destruct (sector_checked d z Ha) as [Hc Hu]. destruct (Hu Hd) as [Hu' _].
  pose proof (per_block_pos d Hd) as Hp. pose proof (per_block_mul d Hd) as Hm.
  split; [|split; [done|split; [done|split; [split; nia|split; [nia|split; nia]]]]].
  pose proof (transfer_ok d Hd) as Ht. unfold bad_tfs_transfer in *. bool_to_prop.
  rewrite !orb_false_iff. split; [split; [by apply Nat.eqb_neq|by apply negb_false_iff, Nat.eqb_eq]|].
  apply negb_false_iff, Nat.eqb_eq. rewrite <- Nat.Div0.mul_mod_idemp_r by lia.
  match goal with H : (FS_BLOCK_SIZE mod _ = 0)%nat |- _ => rewrite H end.
  rewrite Nat.mul_0_r. apply Nat.Div0.mod_0_l.
Qed.

Lemma runs_read_blocks z k a :
  in_data z -> in_data (z + Z.of_nat k - 1) -> (0 < k)%nat ->
  runs (read_tfs_blocks z (k * FS_BLOCK_SIZE)) a (Ok (concat ((fun i => vblk a (z + Z.of_nat i)) <$> seq 0 k))) a.
Proof.
  intros Hz Hlast Hk d Hd. pose proof Hd as (G & Hb & _).
  destruct (run_checked d z k G Hz Hlast Hk) as (Ht & Hc & Hu & Hadr & Hin & Hlen & Hpos).
  destruct (law_read_total _ _ Hpos d (proj1 (vg_dev _ G)) Hadr Hin) as (b & d' & Hrd).
  destruct (law_read_blocks _ _ Hpos d _ _ (proj1 (vg_dev _ G)) Hadr Hrd) as (Hok & Hg & Hs & Hval); [done|].
  exists d'. split.
  - unfold read_tfs_blocks. erewrite bindM_ok by reflexivity. cbv zeta. rewrite Ht. fold (per_block d). rewrite Hc, Hu.
    unfold map_errM. rewrite Hlen, Hrd, (Hval b eq_refl), <- fs_blocks_span. do 3 f_equal.
    apply list_fmap_ext. intros i x Hx%lookup_seq. apply Hb. unfold in_data in *. lia.
  - eapply rep_same; [|exact Hd]. split; [split; [done|]; rewrite (proj1 Hg); apply G|]. split; [done|].
    intros m. unfold fs_block. rewrite (same_geometry_per_block d d' Hg). by apply read_span_ext.
Qed.

Lemma runs_write_blocks z k buf a :
  in_data z -> in_data (z + Z.of_nat k - 1) -> (0 < k)%nat -> length buf = (k * FS_BLOCK_SIZE)%nat ->
  runs (write_tfs_blocks z buf) a (Ok tt) (set_blks z k buf a).
Proof.
  intros Hz Hlast Hk Hl d Hd. pose proof Hd as (G & Hb & _).
  destruct (run_checked d z k G Hz Hlast Hk) as (Ht & Hc & Hu & Hadr & Hin & Hlen & Hpos).
  destruct (law_write_total _ _ Hpos d buf (proj1 (vg_dev _ G)) Hadr Hin ltac:(congruence)) as (d' & Hw).
  destruct (law_write_blocks _ _ Hpos d buf _ _ (proj1 (vg_dev _ G)) Hadr ltac:(congruence) Hw)
    as (Hok & Hg & Hs & Hval); [done|]. specialize (Hval eq_refl).
  assert (Hd' : fs_dev_ok d') by (split; [done|]; rewrite (proj1 Hg); apply G).
  pose proof (same_geometry_per_block d d' Hg) as Hpb. exists d'. split.
  - unfold write_tfs_blocks. erewrite bindM_ok by reflexivity. cbv zeta. rewrite Hl, Ht. fold (per_block d).
    rewrite Hc, Hu. unfold map_errM. by rewrite Hw.
  - assert (Hout : forall n, ~ (z <= n < z + Z.of_nat k) -> fs_block d' n = fs_block d n).
    { intros n Hn. unfold fs_block. rewrite Hpb. apply read_span_ext. intros x Hx. apply Hs.
      pose proof (per_block_pos d (vg_dev _ G)). nia. }
    eapply rep_data; [exact Hd|done|done| | |done..].
    + intros n Hn. apply Hout. unfold in_data in Hz. lia.
    + intros x Hx. cbn [vblk set_blks]. destruct ((z <=? x) && (x <? z + Z.of_nat k)) eqn:Hin'.
      * assert (Hx' : x = z + Z.of_nat (Z.to_nat (x - z)) /\ (Z.to_nat (x - z) < k)%nat) by lia.
        destruct Hx' as [Hx1 Hx2]. rewrite Hx1 at 1. rewrite <- (fs_blocks_load d' z k _ Hd' Hx2), fs_blocks_span, Hpb.
        rewrite (read_span_ext _ _ _ _ (fun x _ => Hval x)), read_write_span by congruence. done.
      * rewrite Hout by lia. auto.
Qed.

(** ** The inode table *)

Lemma inode_block_addr d j : vol_geom d -> in_table j ->
  0 <= fst (inode_location sb j) < zones sb /\
  inode_location sb j = (fst (inode_location sb j), (j - 1) mod INODES_PER_BLOCK * inode_size).
Proof.
  intros G Hj. pose proof (inode_block d j G Hj) as [_ Hb]. pose proof G as [].
  destruct (inode_location_exact sb d j (vol_table_ok d G) (proj1 Hj)) as [Hloc _]. rewrite Hloc in *. cbn [fst] in *.
  split; [|done]. unfold zmap_start in Hb. lia.
Qed.

Lemma runs_read_inode j a : in_table j -> runs (read_inode sb j) a (Ok (vino a j)) a.
Proof.
  intros Hj d Hd. pose proof Hd as (G & _ & _ & _ & Hi). destruct (inode_block_addr d j G Hj) as [Hr Hloc].
  destruct (vol_addr d _ G Hr) as [Ha Hir]. pose proof (vg_dev _ G) as Hok.
  destruct (read_tfs_block_total d _ Hok Ha Hir) as (d' & Hrd). exists d'.
  split; [|eapply rep_same; [|exact Hd]; by eapply read_tfs_block_spec; [exact Hok|exact Ha|exact Hrd|]].
  rewrite <- Hi by done. unfold read_inode, inode_at, bad_inode, no_inodes_per_block. rewrite (vg_bs _ G).
  change (2048 / inode_size =? 0) with false. replace ((j =? 0) || (ninodes sb <? j)) with false by (unfold in_table in Hj; lia).
  cbv iota. rewrite Hloc. unfold bindM, map_errM. rewrite Hrd. unfold past_buffer. rewrite fs_block_length by done.
  pose proof (inode_offset_bound j). by replace (_ <? _) with false by (unfold FS_BLOCK_SIZE; lia).
Qed.

Lemma runs_write_inode j i a :
  in_table j -> inode_ok i -> runs (write_inode sb j i) a (Ok tt) (set_ino j i a).
Proof.
  intros Hj Hok d Hd. pose proof Hd as (G & H1 & H2 & H3 & H4). destruct (inode_block_addr d j G Hj) as [Hr Hloc].
  destruct (vol_addr d _ G Hr) as [Ha Hir]. pose proof (vg_dev _ G) as Hdev. pose proof (vol_table_ok d G) as Ht.
  destruct (read_tfs_block_total d _ Hdev Ha Hir) as (d1 & Hrd).
  destruct (read_tfs_block_spec d _ _ _ Hdev Ha Hrd) as [(Hd1 & Hg1 & Hs1) _]; [done|].
  set (blk := fst (inode_location sb j)) in *. set (off := (j - 1) mod INODES_PER_BLOCK * inode_size) in *.
  pose proof (inode_offset_bound j) as Hoff. fold off in Hoff. pose proof (inode_bytes_length i Hok) as Hbl.
  pose proof (fs_block_length d blk Hdev) as Hl.
  set (buf := store (Z.to_nat off) (inode_bytes i) (fs_block d blk)).
  assert (Hfit : (Z.to_nat off + 204 <= FS_BLOCK_SIZE)%nat) by (unfold inode_size, FS_BLOCK_SIZE in *; lia).
  assert (Hlb : length buf = FS_BLOCK_SIZE) by (unfold buf; rewrite store_length; [done|lia]).
  destruct (write_tfs_block_total d1 blk buf Hd1) as (d' & Hw);
    [by eapply fs_addr_geometry|eapply fs_in_range_le; [exact Hg1|exact Hir|lia]|done|].
  destruct (write_tfs_block_spec d1 blk buf _ _ Hd1 (fs_addr_geometry _ _ _ Hg1 Ha) Hlb Hw) as [Ho Hnew]; [done|].
  specialize (Hnew eq_refl). assert (Ho' : fs_only blk d d') by (eapply fs_only_same; [|exact Ho]; by split_and!).
  pose proof Ho' as (Hd' & Hg' & Hoth). exists d'. split.
  - unfold write_inode, bad_inode, no_inodes_per_block. rewrite (vg_bs _ G).
    change (2048 / inode_size =? 0) with false. replace ((j =? 0) || (ninodes sb <? j)) with false by (unfold in_table in Hj; lia).
    cbv iota. rewrite Hloc. unfold bindM, map_errM. rewrite Hrd. unfold past_buffer. rewrite Hl.
    replace (_ <? _) with false by (unfold FS_BLOCK_SIZE; lia). fold buf. by rewrite Hw.
  - pose proof (inode_block d j G Hj) as [_ Hb]. fold blk in Hb. split; [by eapply vol_geom_same|].
    split; [intros z Hz; unfold in_data in Hz; rewrite Hoth by lia; by apply H1|].
    split; [intros z Hz; rewrite (zone_used_ext d d'); [by apply H2|done|done|intros n Hn; apply Hoth; lia]|].
    split; [intros x Hx; rewrite (inode_used_ext d d'); [by apply H3|done|done|intros n Hn; apply Hoth]|].
    { pose proof (vg_zmap _ G). lia. }
    intros x Hx. cbn [vino set_ino]. destruct (Z.eqb_spec x j) as [->|Hne].
    + unfold inode_at. rewrite Hloc, Hnew. unfold buf. rewrite <- (Nat.add_0_r (Z.to_nat off)) at 1.
      change (Z.to_nat inode_size) with 204%nat. rewrite load_store_in by lia. unfold load.
      rewrite drop_0, take_ge by lia. by apply inode_decode_bytes.
    + rewrite <- H4 by done. eapply (inode_at_other sb d d' j x (inode_bytes i)); try done; try apply Hj; try apply Hx.
      fold blk. by rewrite Hloc, Hnew.
Qed.

(** ** The maps *)

Lemma rep_zmap d d' a u :
  rep d a -> fs_dev_ok d' -> same_geometry d d' ->
  (forall n, ~ (zmap_start sb <= n < zmap_start sb + zmap_blocks sb) -> fs_block d' n = fs_block d n) ->
  (forall z, in_data z -> zone_used sb d' z = u z) ->
  rep d' (mkVolume (vblk a) u (viused a) (vino a)).
Proof.
  intros (G & H1 & H2 & H3 & H4) Hd Hg Ho Hu. split; [by eapply vol_geom_same|]. pose proof G as [].
  pose proof (table_le_data d G) as [T1 T2]. unfold inode_table_start, INODES_PER_BLOCK in *.
  pose proof (Z.div_pos (ninodes sb) 10).
  split; [intros z Hz; unfold in_data in Hz; rewrite Ho by (unfold zmap_start; lia); by apply H1|]. split; [exact Hu|].
  split; intros j Hj; cbn [viused vino].
  - rewrite (inode_used_ext d d'); [by apply H3|done|done|]. intros n Hn. apply Ho. lia.
  - rewrite (inode_at_ext d d'); [by apply H4|done|done|]. intros n Hn. apply Ho. lia.
Qed.

Lemma rep_imap d d' a u :
  rep d a -> fs_dev_ok d' -> same_geometry d d' ->
  (forall n, ~ (1 <= n < 1 + imap_blocks sb) -> fs_block d' n = fs_block d n) ->
  (forall j, in_table j -> inode_used d' j = u j) ->
  rep d' (mkVolume (vblk a) (vzused a) u (vino a)).
Proof.
  intros (G & H1 & H2 & H3 & H4) Hd Hg Ho Hu. split; [by eapply vol_geom_same|]. pose proof G as [].
  pose proof (table_le_data d G) as [T1 T2]. unfold inode_table_start, INODES_PER_BLOCK in *.
  pose proof (Z.div_pos (ninodes sb) 10).
  split; [intros z Hz; unfold in_data in Hz; rewrite Ho by lia; by apply H1|].
  split; [|split; [exact Hu|]].
  - intros z Hz. cbn [vzused]. rewrite (zone_used_ext d d'); [by apply H2|done|done|]. intros n Hn. apply Ho. unfold zmap_start in Hn. lia.
  - intros j Hj. cbn [vino]. rewrite (inode_at_ext d d'); [by apply H4|done|done|]. intros n Hn. apply Ho. unfold zmap_start in Hn. lia.
Qed.

Definition least_free_zone (a : Volume) (z : Z) : Prop :=
  in_data z /\ vzused a z = false /\ forall y, first_data_zone sb <= y < z -> vzused a y = true.

Lemma runs_allocate_zone a z :
  least_free_zone a z -> runs (allocate_zone sb) a (Ok z) (use_zone z a).
Proof.
  intros (Hz & Hfree & Hleast) d Hd. pose proof Hd as (G & H1 & H2 & H3 & H4). pose proof (vol_mounted d G) as Hm.
  pose proof (vg_zmap _ G). destruct (allocate_zone sb d) as [r d'] eqn:Hr.
  pose proof (allocate_zone_loop_total sb (Z.to_nat (zmap_blocks sb)) 0 d Hm (vol_maps_in_range d G) ltac:(lia) ltac:(lia)) as Ht.
  unfold allocate_zone in Hr. rewrite Hr in Ht. cbn [fst] in Ht.
  destruct (allocate_zone_loop_spec sb (Z.to_nat (zmap_blocks sb)) 0 d r d') as (Hok & Hg & Hf & Ho);
    [done|lia|lia|lia|done|by destruct r|]. unfold in_data in Hz.
  unfold max_data_zones, saturating_sub in Ho. destruct r as [z'|e|]; cbn [res_map] in Ho; [|cbn in Ht; subst e|done].
  - destruct Ho as (O1 & O2 & O3 & O4). exists d'.
    assert (Hz' : in_data z') by (unfold in_data; lia).
    assert (z' = z) as ->.
    { destruct (Z.lt_trichotomy z' z) as [Hlt|[->|Hlt]]; [|done|]; exfalso.
      - assert (vzused a z' = true) by (apply Hleast; lia). rewrite <- H2 in * by done. unfold zone_used in *. congruence.
      - assert (map_bit (zmap_start sb) d (z - first_data_zone sb) = true) by (apply O3; lia).
        rewrite <- H2 in Hfree by done. unfold zone_used in Hfree. congruence. }
    split; [done|]. eapply rep_zmap; [exact Hd|done|done|exact Hf|]. intros y Hy. unfold zone_used.
    unfold in_data in Hy. rewrite O4 by lia. rewrite <- H2 by done. unfold zone_used. f_equal. lia.
  - destruct Ho as [_ O2]. exfalso. assert (map_bit (zmap_start sb) d (z - first_data_zone sb) = true).
    { apply O2. pose proof (vg_cover _ G). lia. }
    rewrite <- H2 in Hfree by done. unfold zone_used in Hfree. congruence.
Qed.

Lemma runs_allocate_zone_full a :
  (forall z, in_data z -> vzused a z = true) -> runs (allocate_zone sb) a (Err NoSpaceLeft) a.
Proof.
  intros Hfull d Hd. pose proof Hd as (G & H1 & H2 & H3 & H4). pose proof (vol_mounted d G) as Hm.
  pose proof (vg_zmap _ G). destruct (allocate_zone sb d) as [r d'] eqn:Hr.
  pose proof (allocate_zone_loop_total sb (Z.to_nat (zmap_blocks sb)) 0 d Hm (vol_maps_in_range d G) ltac:(lia) ltac:(lia)) as Ht.
  unfold allocate_zone in Hr. rewrite Hr in Ht. cbn [fst] in Ht.
  destruct (allocate_zone_loop_spec sb (Z.to_nat (zmap_blocks sb)) 0 d r d') as (Hok & Hg & Hf & Ho);
    [done|lia|lia|lia|done|by destruct r|].
  unfold max_data_zones, saturating_sub in Ho. destruct r as [z'|e|]; cbn [res_map] in Ho; [|cbn in Ht; subst e|done].
  - destruct Ho as (O1 & O2 & _). assert (Hz : in_data z') by (unfold in_data; lia).
    pose proof (Hfull z' Hz) as Hu. rewrite <- H2 in Hu by done. unfold zone_used in Hu. congruence.
  - exists d'. split; [done|]. eapply rep_same; [|exact Hd]. apply Ho.
Qed.

(** A free zone exists, so there is a least one. *)
Lemma least_zone_exists a z : in_data z -> vzused a z = false -> exists z', least_free_zone a z'.
Proof.
  intros Hz Hf. remember (Z.to_nat (z - first_data_zone sb)) as n eqn:Hn. revert z Hz Hf Hn.
  induction n as [n IH] using lt_wf_ind. intros z Hz Hf ->.
  destruct (decide (Exists (fun y => vzused a y = false) (seqZ (first_data_zone sb) (z - first_data_zone sb)))) as [He|He].
  - apply Exists_exists in He as (y & Hy%elem_of_seqZ & Hfy). unfold in_data in Hz.
    apply (IH (Z.to_nat (y - first_data_zone sb)) ltac:(lia) y); [unfold in_data; lia|done|done].
  - exists z. split; [done|]. split; [done|]. intros y Hy. destruct (vzused a y) eqn:Hu; [done|].
    exfalso. apply He, Exists_exists. exists y. split; [apply elem_of_seqZ; lia|done].
Qed.

Definition least_free_inode (a : Volume) (j : Z) : Prop :=
  in_table j /\ viused a j = false /\ forall y, 1 <= y < j -> viused a y = true.

Lemma runs_allocate_inode a j :
  least_free_inode a j -> runs (allocate_inode sb) a (Ok (j - 1)) (use_inode j a).
Proof.
  intros (Hj & Hfree & Hleast) d Hd. pose proof Hd as (G & H1 & H2 & H3 & H4). pose proof (vol_mounted d G) as Hm.
  pose proof (vg_imap _ G). destruct (allocate_inode sb d) as [r d'] eqn:Hr.
  pose proof (allocate_inode_loop_total sb (Z.to_nat (imap_blocks sb)) 0 d Hm (vol_maps_in_range d G) ltac:(lia) ltac:(lia)) as Ht.
  unfold allocate_inode in Hr. rewrite Hr in Ht. cbn [fst] in Ht.
  destruct (allocate_inode_loop_spec sb (Z.to_nat (imap_blocks sb)) 0 d r d') as (Hok & Hg & Hf & Ho);
    [done|lia|lia|lia|done|by destruct r|]. pose proof (proj1 Hj) as Hjr.
  destruct r as [i|e|]; [|cbn in Ht; subst e|done].
  - destruct Ho as (O1 & O2 & O3 & O4). exists d'.
    assert (i = j - 1) as ->.
    { destruct (Z.lt_trichotomy (i + 1) j) as [Hlt|[He|Hlt]]; [|lia|]; exfalso.
      - assert (viused a (i + 1) = true) by (apply Hleast; lia).
        assert (in_table (i + 1)) by (apply (in_table_le j); [done|lia]). rewrite <- H3 in * by done. unfold inode_used in *.
        replace (i + 1 - 1) with i in * by lia. congruence.
      - assert (map_bit 1 d (j - 1) = true) by (apply O3; lia).
        rewrite <- H3 in Hfree by done. unfold inode_used in Hfree. congruence. }
    split; [done|]. eapply rep_imap; [exact Hd|done|done|exact Hf|]. intros y Hy. unfold inode_used.
    unfold in_table in Hy. rewrite O4 by lia. rewrite <- H3 by done. unfold inode_used. f_equal. lia.
  - destruct Ho as [_ O2]. exfalso. assert (map_bit 1 d (j - 1) = true).
    { apply O2. pose proof (vg_inodes _ G). lia. }
    rewrite <- H3 in Hfree by done. unfold inode_used in Hfree. congruence.
Qed.

Lemma clear_map_bit_total d n x :
  fs_dev_ok d -> fs_addr d n -> fs_in_range d n -> 0 <= x < bits_per_block ->
  fst (clear_map_bit n x d) = Ok tt.
Proof.
  intros Hd Ha Hr Hx. unfold clear_map_bit. destruct (io_read_total d n Hd Ha Hr) as (d1 & H1 & (Hd1 & Hg1 & Hs1)).
  rewrite (bindM_ok _ _ _ _ _ H1). cbv zeta. rewrite fs_block_length by done.
  replace (Z.of_nat FS_BLOCK_SIZE <=? x / 8) with false.
  - destruct (io_write_total d1 n (alter (fun b => map_clear_bit b (Z.to_nat (x mod 8))) (Z.to_nat (x / 8)) (fs_block d n)))
      as (d2 & Hw); [done|by eapply fs_addr_geometry|eapply fs_in_range_le; [exact Hg1|exact Hr|destruct Hr; lia]| |].
    + by rewrite length_alter, fs_block_length.
    + by rewrite Hw.
  - assert (x / 8 < 2048) by (apply Z.div_lt_upper_bound; unfold bits_per_block in *; lia). unfold FS_BLOCK_SIZE. lia.
Qed.

Lemma runs_dealloc_zone a z : in_data z -> runs (dealloc_zone sb z) a (Ok tt) (free_zone z a).
Proof.
  intros Hz d Hd. pose proof Hd as (G & H1 & H2 & H3 & H4). pose proof (vol_mounted d G) as Hm.
  destruct (dealloc_zone sb z d) as [r d'] eqn:Hr. pose proof G as []. pose proof Hz as Hz'. unfold in_data in Hz'.
  pose proof (zone_bit_block d z G Hz) as Hzb. pose proof (data_above d z G Hz) as [Hz0 _].
  assert (Hok : r = Ok tt).
  { replace r with (fst (dealloc_zone sb z d)) by by rewrite Hr. unfold dealloc_zone.
    rewrite (mounted_map_bits sb d Hm). replace (z <? _) with false by lia. change (bits_per_block =? 0) with false.
    cbv zeta iota. replace (zmap_blocks sb <=? _) with false by lia.
    destruct (map_block_addr sb d ((z - first_data_zone sb) / bits_per_block) Hm ltac:(lia)) as [Hu Ha].
    destruct (bits_div (z - first_data_zone sb) ltac:(lia)) as (Q1 & Q2 & Q3).
    rewrite (Z.add_comm 1), (u32_small ((z - _) / _)), Hu; [|unfold bits_per_block in *; lia].
    apply clear_map_bit_total; [done|done| |done].
    eapply fs_in_range_le; [apply same_geometry_refl|exact (vol_maps_in_range d G)|unfold zmap_start in *; lia]. }
  subst r. exists d'. split; [done|].
  destruct (dealloc_zone_spec sb z d (Ok tt) d') as [(Hn & _)|(_ & (n & Hn & Hd' & Hg & Ho) & Hu)];
    [done|split; lia|done|done|done|].
  destruct Hu as [|[_ Hu]]; [done|]. eapply rep_zmap; [exact Hd|done|done|intros m Hm'; apply Ho; lia|].
  intros y Hy. unfold in_data in Hy. rewrite Hu by lia. by rewrite H2.
Qed.

Lemma runs_dealloc_inode a j : in_table j -> runs (dealloc_inode sb j) a (Ok tt) (free_inode j a).
Proof.
  intros Hj d Hd. pose proof Hd as (G & H1 & H2 & H3 & H4). pose proof (vol_mounted d G) as Hm.
  destruct (dealloc_inode sb j d) as [r d'] eqn:Hr. pose proof G as []. pose proof Hj as Hj'. unfold in_table in Hj'.
  pose proof (inode_bit_block d j G Hj) as Hb.
  assert (Hok : r = Ok tt).
  { replace r with (fst (dealloc_inode sb j d)) by by rewrite Hr. unfold dealloc_inode.
    rewrite (mounted_map_bits sb d Hm). replace (_ || _) with false by lia. change (bits_per_block =? 0) with false.
    cbv zeta iota. destruct (bits_div (j - 1) ltac:(lia)) as (Q1 & Q2 & Q3).
    rewrite (u32_small ((j - 1) / bits_per_block)) by (unfold zmap_start, bits_per_block in *; lia).
    rewrite u32_small by (unfold zmap_start, bits_per_block in *; lia).
    apply clear_map_bit_total; [done| | |done].
    - eapply fs_addr_le; [exact vg_addr0|]. pose proof (table_le_data d G) as [T1 T2].
      unfold inode_table_start, zmap_start, INODES_PER_BLOCK in *. pose proof (Z.div_pos (ninodes sb) 10). lia.
    - eapply fs_in_range_le; [apply same_geometry_refl|exact (vol_maps_in_range d G)|unfold zmap_start in *; lia]. }
  subst r. exists d'. split; [done|].
  destruct (dealloc_inode_spec sb j d (Ok tt) d') as [(Hn & _)|(_ & (n & Hn & Hd' & Hg & Ho) & Hu)];
    [done|split; lia|lia|done|done|done|].
  destruct Hu as [|[_ Hu]]; [done|]. eapply rep_imap; [exact Hd|done|done|intros m Hm'; apply Ho; lia|].
  intros y Hy. unfold in_table in Hy. rewrite Hu by lia. by rewrite H3.
Qed.
End volume.

(** ** The volume of a device *)

(** The volume a device holds. *)
Definition volume_of {D : Type} `{LawfulDev D} (sb : Superblock) (d : D) : Volume :=
  mkVolume (fs_block d) (zone_used sb d) (inode_used d) (inode_at sb d).

Lemma rep_volume_of {D : Type} `{ReliableDev D} (sb : Superblock) (d : D) : vol_geom sb d -> rep sb d (volume_of sb d).
Proof. intros G. split; [exact G|]. by split_and!. Qed.

Lemma factors_bound a b : 0 < a -> 0 <= b -> b * a = 2048 -> 1 <= b <= 2048 /\ a <= 2048.
Proof.
  intros Ha Hb H. assert (b <> 0) by (intros ->; lia).
  pose proof (Z.mul_le_mono_nonneg_l 1 a b). pose proof (Z.mul_le_mono_nonneg_r 1 b a). lia.
Qed.

(** Every volume the formatter makes has this geometry, as soon as it has a data zone. *)
Theorem formatted_geometry {D : Type} `{ReliableDev D} (sb : Superblock) (d : D) (n : Z) :
  fs_dev_ok d -> superblock_layout (Z.of_nat (dev_block_size d)) n = Some sb ->
  0 <= n <= Z.of_nat (dev_block_count d) -> n <= 2 ^ 31 -> first_data_zone sb < zones sb -> vol_geom sb d.
Proof.
  intros Hd Hs Hn Hmax Hdata. pose proof (per_block_mul d Hd) as Hpb. pose proof (law_size d (proj1 Hd)) as Hsz.
  set (ss := Z.of_nat (dev_block_size d)) in *. set (spb := Z.of_nat (per_block d)).
  assert (Hmul : spb * ss = 2048) by (unfold spb, ss, FS_BLOCK_SIZE in *; lia).
  assert (Hss0 : 0 < ss) by (unfold ss; lia). assert (Hsp0 : 0 <= spb) by (unfold spb; lia).
  destruct (factors_bound ss spb Hss0 Hsp0 Hmul) as [Hspb Hss1].
  assert (Hss : 0 < ss <= Z.of_nat FS_BLOCK_SIZE) by (change (Z.of_nat FS_BLOCK_SIZE) with 2048; lia).
  assert (Hq : Z.of_nat FS_BLOCK_SIZE / ss = spb) by (change (Z.of_nat FS_BLOCK_SIZE) with 2048; rewrite <- Hmul; apply Z.div_mul; lia).
  destruct (superblock_layout_fields ss n sb Hss ltac:(lia) Hs) as (Hbs & Hz & Hi & Him & Hz0 & Hcov & Hfit & Hzn & Hin).
  rewrite Hq in Hz.
  assert (Hzs : zones sb * spb <= n < zones sb * spb + spb).
  { rewrite Hz. pose proof (Z.div_mod n spb ltac:(lia)). pose proof (Z.mod_pos_bound n spb ltac:(lia)). lia. }
  assert (Hino : ninodes sb <= zones sb / 8 + 2).
  { rewrite Hi. apply Z.max_lub; [|pose proof (Z.div_pos (zones sb) 8); lia].
    assert (n * ss <= (zones sb + 1) * 2048) by nia.
    apply Z.div_le_upper_bound; [lia|]. pose proof (Z.mul_succ_div_gt (zones sb) 8 ltac:(lia)). lia. }
  pose proof (div_ceil_bound (ninodes sb) bits_per_block ltac:(done)) as Hb1. rewrite <- Him in Hb1.
  pose proof (div_ceil_bound (ninodes sb * inode_size) (Z.of_nat FS_BLOCK_SIZE) ltac:(done)) as Hb2.
  pose proof (div_ceil_bound (saturating_sub (zones sb) (first_data_zone sb)) bits_per_block ltac:(done)) as Hb3. rewrite <- Hcov in Hb3.
  set (tbl := div_ceil (ninodes sb * inode_size) (Z.of_nat FS_BLOCK_SIZE)) in *.
  pose proof (div_ceil_bound (saturating_sub (zones sb) (1 + imap_blocks sb + tbl + 0)) bits_per_block ltac:(done)) as Hb4.
  unfold zmap_for, saturating_sub, bits_per_block, inode_size, FS_BLOCK_SIZE in *.
  split; unfold inode_table_start, INODES_PER_BLOCK, bits_per_block; try done; try lia.
  - split; [lia|]. pose proof (Z.mul_div_le (ninodes sb) 10 ltac:(lia)). pose proof (Z.mul_div_le (zones sb) 8 ltac:(lia)). lia.
  - split; [lia|]. fold spb. nia.
  - split; [lia|]. fold spb. nia.
Qed.

(** On a volume of 40 MiB the last ten of the 2560 inodes share a block with the data. *)
Lemma formatted_geometry_witness : exists sb,
  superblock_layout 512 81920 = Some sb /\ vol_geom sb (mkIdeal 512 (Z.to_nat 81920) (fun _ => replicate 512 0)) /\
  in_table sb 2550 /\ ninodes sb = 2560 /\ ~ in_table sb 2551.
Proof.
  eexists. split; [vm_compute; reflexivity|]. split; [|split; [|split]].
  - eapply (formatted_geometry _ (mkIdeal 512 (Z.to_nat 81920) (fun _ => replicate 512 0)) 81920).
    + split; [split; [cbn; lia|done]|done].
    + vm_compute. reflexivity.
    + cbn [dev_block_count ideal_io ideal_count]. rewrite Z2Nat.id by lia. lia.
    + lia.
    + vm_compute. reflexivity.
  - unfold in_table. split; [cbn; lia|vm_compute; reflexivity].
  - reflexivity.
  - unfold in_table. intros [_ H]. vm_compute in H. discriminate.
Qed.

Lemma small_geom (d : IdealDisk) : ideal_ok d -> ideal_bs d = 2048%nat -> ideal_count d = 16%nat -> vol_geom small_sb d.
Proof.
  intros Ho Hb Hc. split; try (cbn; unfold bits_per_block; lia).
  - split; [exact Ho|]. cbn. by rewrite Hb.
  - unfold inode_table_start, INODES_PER_BLOCK. cbn. vm_compute. done.
  - unfold fs_addr, per_block. cbn [dev_block_size ideal_io]. rewrite Hb. split; vm_compute; congruence.
  - unfold fs_in_range, per_block. cbn [dev_block_size dev_block_count ideal_io]. rewrite Hb, Hc. split; vm_compute; congruence.
Qed.

Lemma rep_snd {D E A : Type} `{ReliableDev D} sb (m : M D E A) a r a' d : runs sb m a r a' -> rep sb d a -> rep sb (snd (m d)) a'.
Proof. intros Hm Hd. destruct (Hm d Hd) as (d' & -> & Hd'). done. Qed.
