(* ===== verification/TfsZones.v ===== *)
(** * Allocating many zones at once: [allocate_zones] on volumes

    On a reliable device [allocate_zones] takes the lowest free zones, in ascending
    order, or reports that there are too few and leaves the volume as it was. *)

From Stdlib Require Import ZifyBool.
From S2P Require Import Prelude Bytes BlockDev BlockDevSpec TfsBlock TfsAlloc TfsInode TfsCache TfsDir TfsFile TfsVolume.
Open Scope twilight_scope.

(** The indices below [limit] that [f] has clear, among [n] from [base]. *)
Definition free_from (f : Z -> bool) (limit base n : Z) : list Z :=
  filter (fun x => f x = false /\ x < limit) (seqZ base n).

Lemma seqZ_cons_nat base m : seqZ base (Z.of_nat (S m)) = base :: seqZ (base + 1) (Z.of_nat m).
Proof. rewrite seqZ_cons by lia. do 2 f_equal; lia. Qed.

Lemma free_from_beyond f limit base n : limit <= base -> free_from f limit base n = [].
Proof.
  intros Hl. apply filter_none, Forall_forall. intros x Hx%elem_of_seqZ [_ ?]. lia.
Qed.

Lemma free_from_app f limit base n m :
  0 <= n -> 0 <= m -> free_from f limit base (n + m) = free_from f limit base n ++ free_from f limit (base + n) m.
Proof. intros Hn Hm. unfold free_from. rewrite seqZ_app by done. apply filter_app. Qed.

Lemma free_from_take_range f limit base m n x :
  x ∈ take n (free_from f limit base m) -> base <= x < base + m /\ f x = false /\ x < limit.
Proof.
  intros (q & Hq & _)%elem_of_take. apply list_elem_of_lookup_2 in Hq.
  apply list_elem_of_filter in Hq as [Hf Hr%elem_of_seqZ]. tauto.
Qed.

Section take.
Context (sb : Superblock) (limit : Z) (Hlimit : max_data_zones sb = limit).

Lemma take_bits_spec f index base : forall m s need byte,
  (s + m = 8)%nat ->
  (forall bit, (s <= bit < 8)%nat -> index bit = base + Z.of_nat bit) ->
  (forall bit, (s <= bit < 8)%nat -> Z.testbit byte (Z.of_nat bit) = f (base + Z.of_nat bit)) ->
  let taken := take need (free_from f limit (base + Z.of_nat s) (Z.of_nat m)) in
  snd (take_bits sb (seq s m) index need byte) = (fun x => u32 (x + first_data_zone sb)) <$> taken /\
  forall j, 0 <= j < 8 ->
    Z.testbit (fst (take_bits sb (seq s m) index need byte)) j = bool_decide (base + j ∈ taken) || Z.testbit byte j.
Proof.
  induction m as [|m IH]; intros s need byte Hs Hidx Hbits taken.
  { subst taken. change (free_from f limit (base + Z.of_nat s) (Z.of_nat 0)) with (@nil Z). rewrite take_nil.
    split; [done|]. intros j Hj. by rewrite bool_decide_false by apply not_elem_of_nil. }
  cbn [seq take_bits]. destruct need as [|need].
  { subst taken. cbn. split; [done|]. intros j Hj. by rewrite bool_decide_false by apply not_elem_of_nil. }
  subst taken. unfold free_from. rewrite seqZ_cons_nat.
  replace (base + Z.of_nat s + 1) with (base + Z.of_nat (S s)) by lia. rewrite filter_cons.
  rewrite bit_clear_spec, Hbits, Hidx, Hlimit by lia.
  destruct (f (base + Z.of_nat s)) eqn:Hf; cbn [negb].
  - rewrite decide_False by (intros [? _]; done). apply IH; [lia| |]; intros bit Hb; [apply Hidx|apply Hbits]; lia.
  - destruct (limit <=? base + Z.of_nat s) eqn:Hlim; bool_to_prop.
    + rewrite decide_False by lia. fold (free_from f limit (base + Z.of_nat (S s)) (Z.of_nat m)).
      rewrite free_from_beyond by lia. cbn. split; [done|]. intros j Hj. by rewrite bool_decide_false by apply not_elem_of_nil.
    + rewrite decide_True by done. cbn [take].
      destruct (IH (S s) need (map_set_bit byte s)) as [Hz Hb]; [lia|intros bit Hb; apply Hidx; lia| |].
      { intros bit Hb. rewrite map_set_bit_spec by lia. replace (Z.of_nat s =? Z.of_nat bit) with false by lia.
        apply Hbits. lia. }
      fold (free_from f limit (base + Z.of_nat (S s)) (Z.of_nat m)).
      destruct (take_bits sb (seq (S s) m) index need (map_set_bit byte s)) as [byte' zs] eqn:Ht. cbn [fst snd] in *.
      split; [by rewrite Hz|]. intros j Hj. rewrite Hb, map_set_bit_spec by lia.
      rewrite (bool_decide_ext (base + j ∈ _ :: _) (base + j = base + Z.of_nat s \/ base + j ∈ _) (elem_of_cons _ _ _)).
      destruct (Z.eqb_spec (Z.of_nat s) j) as [<-|Hne].
      * rewrite (bool_decide_true (_ \/ _)) by by left. by rewrite orb_true_r.
      * cbn [orb]. f_equal. apply bool_decide_ext. split; [by right|]. intros [?|?]; [lia|done].
Qed.

Lemma take_bytes_spec f i base : forall buf k need,
  (forall bit, (k <= bit < k + 8 * length buf)%nat ->
     u32 (u32 (i * u32 (map_bits sb)) + Z.of_nat bit) = base + Z.of_nat bit) ->
  (k mod 8 = 0)%nat ->
  (forall x, 0 <= x < 8 * Z.of_nat (length buf) -> block_bit buf x = f (base + Z.of_nat k + x)) ->
  let taken := take need (free_from f limit (base + Z.of_nat k) (8 * Z.of_nat (length buf))) in
  let r := take_bytes sb i (k / 8) need buf in
  snd r = (fun x => u32 (x + first_data_zone sb)) <$> taken /\ length (fst r) = length buf /\
  forall x, 0 <= x < 8 * Z.of_nat (length buf) ->
    block_bit (fst r) x = bool_decide (base + Z.of_nat k + x ∈ taken) || block_bit buf x.
Proof.
  induction buf as [|b buf IH]; intros k need Hidx Hk Hbits taken r.
  { subst taken r. change (free_from f limit (base + Z.of_nat k) (8 * Z.of_nat (length []))) with (@nil Z).
    rewrite take_nil. split; [done|]. split; [done|]. cbn [length]. lia. }
  subst taken r. cbn [take_bytes]. destruct (Nat.eqb_spec need 0) as [->|Hneed].
  { cbn [take fst snd]. split; [done|]. split; [done|]. intros x Hx.
    by rewrite bool_decide_false by apply not_elem_of_nil. }
  assert (Hk8 : k = (k / 8 * 8)%nat) by (pose proof (Nat.div_mod k 8); lia).
  pose proof (take_bits_spec f
    (fun bit => u32 (u32 (i * u32 (map_bits sb)) + Z.of_nat (k / 8 * 8 + bit))) (base + Z.of_nat k) 8 0 need b) as Hbs.
  destruct Hbs as [Hzs Hbb]; [done| | |].
  { intros bit Hb. rewrite Hidx by (cbn [length]; lia). lia. }
  { intros bit Hb. specialize (Hbits (Z.of_nat bit) ltac:(cbn [length]; lia)). rewrite block_bit_cons in Hbits by lia.
    rewrite (proj2 (Z.ltb_lt _ _)) in Hbits by lia. done. }
  rewrite Z.add_0_r in Hzs, Hbb. change (Z.of_nat 8) with 8 in *.
  set (fr := free_from f limit (base + Z.of_nat k) 8) in *.
  set (rb := if b =? 255 then (b, []) else take_bits sb (seq 0 8) _ need b).
  assert (Hrb : snd rb = (fun x => u32 (x + first_data_zone sb)) <$> take need fr /\
    forall j, 0 <= j < 8 -> Z.testbit (fst rb) j = bool_decide (base + Z.of_nat k + j ∈ take need fr) || Z.testbit b j).
  { subst rb. destruct (Z.eqb_spec b 255) as [->|]; [|done]. cbn [fst snd].
    assert (fr = []) as ->.
    { apply filter_none, Forall_forall. intros x Hx%elem_of_seqZ [Hf _].
      specialize (Hbits (x - base - Z.of_nat k) ltac:(cbn [length]; lia)). rewrite block_bit_cons in Hbits by lia.
      rewrite (proj2 (Z.ltb_lt _ _)) in Hbits by lia. replace (base + _ + _) with x in Hbits by lia. rewrite Hf in Hbits.
      change 255 with (Z.ones 8) in Hbits. rewrite Z.ones_spec_low in Hbits by lia. done. }
    rewrite take_nil. split; [done|]. intros j Hj. by rewrite bool_decide_false by apply not_elem_of_nil. }
  clearbody rb. destruct rb as [b' zs]. cbn [fst snd] in Hrb. destruct Hrb as [Hrz Hrbit].
  destruct (IH (k + 8)%nat (need - length zs)%nat) as (H1 & H2 & H3).
  { intros bit Hb. apply Hidx. cbn [length]. lia. }
  { replace (k + 8)%nat with (k + 1 * 8)%nat by lia. by rewrite Nat.Div0.mod_add. }
  { intros x Hx. specialize (Hbits (x + 8) ltac:(cbn [length]; lia)). rewrite block_bit_cons in Hbits by lia.
    rewrite (proj2 (Z.ltb_ge _ _)) in Hbits by lia. replace (x + 8 - 8) with x in Hbits by lia. rewrite Hbits. f_equal. lia. }
  replace ((k + 8) / 8)%nat with (S (k / 8)) in H1, H2, H3
    by (replace (k + 8)%nat with (k + 1 * 8)%nat by lia; rewrite Nat.div_add; lia).
  destruct (take_bytes sb i (S (k / 8)) (need - length zs) buf) as [buf' zs']. cbn [fst snd] in *.
  assert (Hall : take need (free_from f limit (base + Z.of_nat k) (8 * Z.of_nat (length (b :: buf)))) =
    take need fr ++ take (need - length zs) (free_from f limit (base + Z.of_nat (k + 8)) (8 * Z.of_nat (length buf)))).
  { replace (8 * Z.of_nat (length (b :: buf))) with (8 + 8 * Z.of_nat (length buf)) by (cbn [length]; lia).
    rewrite free_from_app by lia. fold fr. rewrite take_app, Hrz, length_fmap, length_take.
    replace (base + Z.of_nat k + 8) with (base + Z.of_nat (k + 8)) by lia.
    do 2 f_equal. lia. }
  rewrite Hall. split; [rewrite fmap_app, H1; by f_equal|]. split; [cbn [length]; lia|].
  intros x Hx. rewrite !block_bit_cons by lia. cbn [length] in Hx.
  rewrite (bool_decide_ext _ _ (elem_of_app _ _ _)).
  destruct (Z.ltb_spec x 8) as [Hx8|Hx8].
  - rewrite Hrbit by lia. f_equal. apply bool_decide_ext. split; [by left|]. intros [?|Hin%free_from_take_range]; [done|lia].
  - rewrite H3 by lia. f_equal. apply bool_decide_ext. replace (base + Z.of_nat (k + 8) + (x - 8)) with (base + Z.of_nat k + x) by lia.
    split; [by right|]. intros [Hin%free_from_take_range|?]; [lia|done].
Qed.
End take.

Lemma filter_fmap_iff {A B} (f : A -> B) (P : B -> Prop) (Q : A -> Prop)
    `{!forall x, Decision (P x)} `{!forall x, Decision (Q x)} (l : list A) :
  (forall x, x ∈ l -> P (f x) <-> Q x) -> filter P (f <$> l) = f <$> filter Q l.
Proof.
  induction l as [|x l IH]; intros He; [done|]. cbn [fmap list_fmap]. rewrite !filter_cons.
  pose proof (He x ltac:(by left)) as Hx. rewrite IH by (intros y Hy; apply He; by right).
  repeat case_decide; tauto || done.
Qed.

Lemma filter_iff_in {A} (P Q : A -> Prop) `{!forall x, Decision (P x)} `{!forall x, Decision (Q x)} (l : list A) :
  (forall x, x ∈ l -> P x <-> Q x) -> filter P l = filter Q l.
Proof. intros He. rewrite <- (list_fmap_id l) at 1. rewrite (filter_fmap_iff id P Q l He). apply list_fmap_id. Qed.

(** ** On volumes *)

Definition use_zones (zs : list Z) (a : Volume) : Volume :=
  mkVolume (vblk a) (fun x => bool_decide (x ∈ zs) || vzused a x) (viused a) (vino a).

Section zones.
Context {D : Type} `{ReliableDev D} (sb : Superblock).
Implicit Types d : D.

(** The free data zones, in ascending order. *)
Definition free_list (a : Volume) : list Z :=
  filter (fun z => vzused a z = false) (seqZ (first_data_zone sb) (zones sb - first_data_zone sb)).

Lemma free_list_spec a z : z ∈ free_list a <-> in_data sb z /\ vzused a z = false.
Proof. unfold free_list, in_data. rewrite list_elem_of_filter, elem_of_seqZ. split; intros; split; (tauto || lia). Qed.

Lemma free_list_NoDup a : NoDup (free_list a).
Proof. apply NoDup_filter, NoDup_seqZ. Qed.

(** Zone usage by index. *)
Definition used_at (a : Volume) (x : Z) : bool := vzused a (x + first_data_zone sb).
Definition shift (l : list Z) : list Z := (fun x => x + first_data_zone sb) <$> l.

Lemma elem_of_shift l z : z ∈ shift l <-> z - first_data_zone sb ∈ l.
Proof.
  unfold shift. rewrite list_elem_of_fmap. split.
  - intros (x & -> & Hx). by replace (x + _ - _) with x by lia.
  - intros Hz. exists (z - first_data_zone sb). split; [lia|done].
Qed.

Lemma free_list_shift a N :
  first_data_zone sb < zones sb -> zones sb - first_data_zone sb <= N ->
  shift (free_from (used_at a) (zones sb - first_data_zone sb) 0 N) = free_list a.
Proof.
  intros Hz HN. replace N with ((zones sb - first_data_zone sb) + (N - (zones sb - first_data_zone sb))) by lia.
  rewrite free_from_app, (free_from_beyond _ _ (0 + _)), app_nil_r by lia. unfold free_list, shift, free_from, used_at.
  transitivity (filter (fun z => vzused a z = false)
    ((fun x => x + first_data_zone sb) <$> seqZ 0 (zones sb - first_data_zone sb))).
  - symmetry. apply filter_fmap_iff. intros x Hx%elem_of_seqZ. split; [intros; split; [done|lia]|tauto].
  - f_equal. rewrite (list_fmap_ext _ (Z.add (first_data_zone sb))) by (intros; lia). by rewrite fmap_add_seqZ, Z.add_0_r.
Qed.

(** One map block: the zones taken from it, and the device after. *)
Lemma take_block d a i need :
  rep sb d a -> 0 <= i < zmap_blocks sb ->
  let block := u32 (u32 (imap_blocks sb + 1) + i) in
  let taken := take need (free_from (used_at a) (zones sb - first_data_zone sb) (i * bits_per_block) bits_per_block) in
  exists d1, io (read_tfs_block block) d = (Ok (fs_block d (zmap_start sb + i)), d1) /\ rep sb d1 a /\
    let '(buf, new) := take_bytes sb i 0 need (fs_block d (zmap_start sb + i)) in
    new = shift taken /\
    exists d2, io (write_tfs_block block buf) d1 = (Ok tt, d2) /\ rep sb d2 (use_zones (shift taken) a).
Proof.
  intros Hrep Hi block taken. pose proof Hrep as (G & _ & Hz & _). pose proof (vol_mounted sb d G) as Hm.
  destruct (map_block_addr sb d i Hm Hi) as [Hu Ha]. fold block in Hu. rewrite Hu. pose proof (vg_dev _ _ G) as Hd.
  assert (Hir : fs_in_range d (zmap_start sb + i)).
  { eapply fs_in_range_le; [apply same_geometry_refl|exact (vol_maps_in_range sb d G)|].
    pose proof (vg_imap _ _ G). unfold zmap_start. lia. }
  destruct (io_read_total d _ Hd Ha Hir) as (d1 & Hrd & Hs). exists d1. split; [done|].
  assert (Hrep1 : rep sb d1 a) by by eapply rep_same. split; [done|]. pose proof Hs as (Hd1 & Hg1 & Hs1).
  pose proof (fs_block_length d (zmap_start sb + i) Hd) as Hl. set (buf := fs_block d (zmap_start sb + i)) in *.
  assert (Hmax : max_data_zones sb = zones sb - first_data_zone sb)
    by (unfold max_data_zones, saturating_sub; pose proof (vg_data _ _ G); lia).
  set (f := fun x => if x <? zones sb - first_data_zone sb then used_at a x else block_bit buf (x - i * bits_per_block)).
  assert (Hbb : 8 * Z.of_nat (length buf) = bits_per_block) by (rewrite Hl; done).
  destruct (take_bytes_spec sb _ Hmax f i (i * bits_per_block) buf 0 need) as (Hzs & Hlen & Hbits).
  - intros bit Hb. rewrite (mounted_map_bits sb d Hm). destruct Hm as (_&_&_&_&_&_&_&Hzb&_).
    unfold bits_per_block, FS_BLOCK_SIZE in *. rewrite (u32_small 16384), (u32_small (i * 16384)), u32_small by lia. done.
  - done.
  - intros x Hx. rewrite Hbb in Hx. rewrite Z.add_0_r. unfold f. destruct (Z.ltb_spec (i * bits_per_block + x) (zones sb - first_data_zone sb)).
    + unfold used_at. rewrite <- Hz by (unfold in_data, bits_per_block in *; lia). unfold zone_used, map_bit.
      replace (i * bits_per_block + x + first_data_zone sb - first_data_zone sb) with (x + i * bits_per_block) by lia.
      rewrite Z.div_add, Z.mod_add, Z.div_small, Z.mod_small by (unfold bits_per_block in *; lia). done.
    + f_equal. lia.
  - rewrite Hbb, Z.add_0_r in *.
    assert (Hfr : free_from f (zones sb - first_data_zone sb) (i * bits_per_block) bits_per_block =
                  free_from (used_at a) (zones sb - first_data_zone sb) (i * bits_per_block) bits_per_block).
    { unfold free_from. apply list_filter_iff. intros x. unfold f. destruct (Z.ltb_spec x (zones sb - first_data_zone sb)); [done|lia]. }
    rewrite Hfr in Hzs, Hbits. fold taken in Hzs, Hbits. change (0 / 8)%nat with 0%nat in *.
    destruct (take_bytes sb i 0 need buf) as [buf' new]. cbn [fst snd] in *.
    assert (Hsh : new = shift taken).
    { rewrite Hzs. unfold shift. apply list_fmap_ext. intros k x Hx%list_elem_of_lookup_2.
      apply free_from_take_range in Hx. pose proof (vg_cover _ _ G). pose proof (vg_width _ _ G) as [Hw _].
      pose proof (data_above sb d (first_data_zone sb) G). pose proof (vg_data _ _ G).
      apply u32_small. unfold in_data, bits_per_block in *. lia. }
    split; [done|].
    destruct (io_write_total d1 (zmap_start sb + i) buf') as (d2 & Hw);
      [done|by eapply fs_addr_geometry|eapply fs_in_range_le; [exact Hg1|exact Hir|destruct Hir; lia]|congruence|].
    exists d2. split; [done|].
    destruct (io_write_spec d1 (zmap_start sb + i) buf' _ _ Hd1 (fs_addr_geometry _ _ _ Hg1 Ha) ltac:(congruence) Hw)
      as [Ho [?|[_ Hnew]]]; [done|done|].
    pose proof Ho as (Hd2 & Hg2 & Hoth).
    eapply (rep_zmap sb d1 d2 a); [exact Hrep1|done|done|intros n Hn; apply Hoth; lia|].
    intros z Hzd. unfold zone_used. pose proof Hrep1 as (_ & _ & Hz1 & _).
    rewrite (map_bit_update (zmap_start sb) i d1 d2
      (fun x b => bool_decide (x ∈ taken) || b) (z - first_data_zone sb)); [| done | lia | unfold in_data in Hzd; lia | |].
    + rewrite <- Hz1 by done. unfold zone_used. f_equal. apply bool_decide_ext. by rewrite elem_of_shift.
    + intros x Hx. rewrite Hnew, Hbits by done. f_equal. by rewrite Hs1.
    + intros x b Hx. rewrite bool_decide_false; [done|]. intros Hin. apply free_from_take_range in Hin as [Hin _].
      apply Hx. symmetry. apply (Z.div_unique _ _ _ (x - i * bits_per_block)); unfold bits_per_block in *; lia.
Qed.

Lemma shift_app l l' : shift (l ++ l') = shift l ++ shift l'.
Proof. apply fmap_app. Qed.

Lemma shift_take n l : shift (take n l) = take n (shift l).
Proof. apply fmap_take. Qed.

(** The zones taken after the first [i] map blocks. *)
Definition taken_by (a : Volume) (count : nat) (i : Z) : list Z :=
  take count (shift (free_from (used_at a) (zones sb - first_data_zone sb) 0 (i * bits_per_block))).

Lemma taken_by_succ a count i :
  0 <= i ->
  taken_by a count (i + 1) = taken_by a count i ++
    shift (take (count - length (taken_by a count i))
      (free_from (used_at a) (zones sb - first_data_zone sb) (i * bits_per_block) bits_per_block)).
Proof.
  intros Hi. unfold taken_by. replace ((i + 1) * bits_per_block) with (i * bits_per_block + bits_per_block) by lia.
  rewrite free_from_app, shift_app, take_app, shift_take by (unfold bits_per_block; lia). rewrite Z.add_0_l.
  do 2 f_equal. rewrite length_take. lia.
Qed.

Lemma taken_by_full a count i j :
  0 <= i <= j -> length (taken_by a count i) = count -> taken_by a count j = taken_by a count i.
Proof.
  intros Hij Hl. unfold taken_by in *. rewrite length_take in Hl.
  replace (j * bits_per_block) with (i * bits_per_block + (j - i) * bits_per_block) by lia.
  rewrite free_from_app, shift_app by (unfold bits_per_block; lia). apply take_app_le. lia.
Qed.

(** Taking more zones from a volume where some are taken already. *)
Lemma use_zones_app a zs zs' : vol_eq sb (use_zones zs' (use_zones zs a)) (use_zones (zs ++ zs') a).
Proof.
  split_and!; intros x Hx; cbn; try done. rewrite (bool_decide_ext (x ∈ zs ++ zs') _ (elem_of_app _ _ _)), bool_decide_or.
  by destruct (bool_decide (x ∈ zs)), (bool_decide (x ∈ zs')).
Qed.

Lemma used_at_other a zs n base m :
  (forall z, z ∈ zs -> z < base + first_data_zone sb) ->
  free_from (used_at (use_zones zs a)) n base m = free_from (used_at a) n base m.
Proof.
  intros Hlt. unfold free_from. apply filter_iff_in. intros x Hx%elem_of_seqZ. unfold used_at. cbn.
  rewrite bool_decide_false; [done|]. intros Hin. specialize (Hlt _ Hin). lia.
Qed.

Lemma taken_by_below a count i z : z ∈ taken_by a count i -> z < i * bits_per_block + first_data_zone sb /\ vzused a z = false /\ z < zones sb.
Proof.
  unfold taken_by. rewrite <- shift_take, elem_of_shift. intros (H1 & H2 & H3)%free_from_take_range.
  unfold used_at in H2. replace (z - _ + _) with z in H2 by lia. split; [lia|]. split; [done|lia].
Qed.

Lemma allocate_zones_loop_runs a count n : forall i,
  0 <= i -> i + Z.of_nat n = zmap_blocks sb ->
  runs (D := D) sb (allocate_zones_loop sb n i count (taken_by a count i)) (use_zones (taken_by a count i) a)
    (Ok (taken_by a count (zmap_blocks sb))) (use_zones (taken_by a count (zmap_blocks sb)) a).
Proof.
  induction n as [|n IH]; intros i Hi Hn; cbn [allocate_zones_loop].
  { replace i with (zmap_blocks sb) by lia. apply runs_ret. }
  destruct (Nat.eqb_spec (length (taken_by a count i)) count) as [Hfull|Hmore].
  { rewrite (taken_by_full a count i (zmap_blocks sb)) by (done || lia). apply runs_ret. }
  intros d Hd. destruct (take_block d _ i (count - length (taken_by a count i)) Hd ltac:(lia)) as (d1 & Hrd & Hrep1 & Htk).
  rewrite used_at_other in Htk by (intros z Hz; apply taken_by_below in Hz; lia).
  rewrite (bindM_ok _ _ _ _ _ Hrd). destruct (take_bytes sb i 0 _ _) as [buf new]. destruct Htk as [-> (d2 & Hw & Hrep2)].
  set (more := shift _) in *. pose proof (taken_by_succ a count i Hi) as Hsucc. fold more in Hsucc.
  assert (Hd2 : exists d3, (if (0 <? length more)%nat then io (write_tfs_block (u32 (u32 (imap_blocks sb + 1) + i)) buf)
                            else retM tt) d1 = (Ok tt, d3) /\ rep sb d3 (use_zones (taken_by a count (i + 1)) a)).
  { destruct (Nat.ltb_spec 0 (length more)) as [_|Hnone].
    - exists d2. split; [done|]. rewrite Hsucc. eapply rep_eq; [apply use_zones_app|done].
    - exists d1. split; [done|]. rewrite Hsucc. replace more with (@nil Z) by (symmetry; apply nil_length_inv; lia).
      by rewrite app_nil_r. }
  destruct Hd2 as (d3 & H3 & Hrep3). rewrite (bindM_ok _ _ _ _ _ H3), <- Hsucc. apply (IH (i + 1)); [lia|lia|done].
Qed.

(** Releasing zones one after the other. *)
Definition drop_zones (zs : list Z) (a : Volume) : Volume :=
  mkVolume (vblk a) (fun x => negb (bool_decide (x ∈ zs)) && vzused a x) (viused a) (vino a).

Lemma drop_zones_cons z zs a : vol_eq sb (drop_zones zs (free_zone z a)) (drop_zones (z :: zs) a).
Proof.
  split_and!; intros x Hx; try done. cbn. rewrite (bool_decide_ext (x ∈ z :: zs) _ (elem_of_cons _ _ _)), bool_decide_or.
  destruct (Z.eqb_spec x z) as [->|]; [rewrite (bool_decide_true (z = z)) by done; by rewrite !andb_false_r|].
  by rewrite (bool_decide_false (x = z)) by done.
Qed.

Lemma dealloc_all_runs {E} zs a :
  Forall (in_data sb) zs -> runs (D := D) sb (dealloc_all sb zs : M D E unit) a (Ok tt) (drop_zones zs a).
Proof.
  revert a. induction zs as [|z zs IH]; intros a Hzs; cbn [dealloc_all].
  - eapply runs_eq; [|apply runs_ret]. by split_and!.
  - apply Forall_cons in Hzs as [Hz Hzs]. eapply runs_bind; [eapply runs_okM; [by apply runs_dealloc_zone|done]|].
    eapply runs_eq; [apply drop_zones_cons|by apply IH].
Qed.

Lemma allocate_zones_runs a count :
  first_data_zone sb < zones sb -> zones sb - first_data_zone sb <= zmap_blocks sb * bits_per_block ->
  (count <= length (free_list a))%nat ->
  runs (D := D) sb (allocate_zones sb count) a (Ok (take count (free_list a))) (use_zones (take count (free_list a)) a).
Proof.
  intros Hz Hcov Hc. assert (0 <= zmap_blocks sb) by (unfold bits_per_block in *; lia).
  assert (Hall : taken_by a count (zmap_blocks sb) = take count (free_list a)).
  { unfold taken_by. by rewrite free_list_shift. }
  assert (Hempty : taken_by a count 0 = []) by (exact (take_nil count)).
  unfold allocate_zones. eapply runs_bind.
  - pose proof (allocate_zones_loop_runs a count (Z.to_nat (zmap_blocks sb)) 0 ltac:(lia) ltac:(lia)) as Hl.
    rewrite Hempty, Hall in Hl. intros d Hd. apply Hl. eapply rep_eq; [|exact Hd]. by split_and!.
  - rewrite length_take. replace (_ <? count)%nat with false by lia. apply runs_ret.
Qed.

(** Too few zones: nothing is taken. *)
Lemma allocate_zones_short a count :
  first_data_zone sb < zones sb -> zones sb - first_data_zone sb <= zmap_blocks sb * bits_per_block ->
  (length (free_list a) < count)%nat ->
  runs (D := D) sb (allocate_zones sb count) a (Err NoSpaceLeft) a.
Proof.
  intros Hz Hcov Hc. assert (0 <= zmap_blocks sb) by (unfold bits_per_block in *; lia).
  assert (Hall : taken_by a count (zmap_blocks sb) = free_list a).
  { unfold taken_by. rewrite free_list_shift by done. apply take_ge. lia. }
  assert (Hempty : taken_by a count 0 = []) by (exact (take_nil count)).
  unfold allocate_zones. eapply runs_bind.
  - pose proof (allocate_zones_loop_runs a count (Z.to_nat (zmap_blocks sb)) 0 ltac:(lia) ltac:(lia)) as Hl.
    rewrite Hempty, Hall in Hl. intros d Hd. apply Hl. eapply rep_eq; [|exact Hd]. by split_and!.
  - replace (_ <? count)%nat with true by lia. eapply runs_bind; [apply dealloc_all_runs|eapply runs_eq; [|apply runs_fail]].
    + apply Forall_forall. intros z Hz'. by apply free_list_spec in Hz' as [? _].
    + split_and!; intros x Hx; try done. cbn. destruct (bool_decide_reflect (x ∈ free_list a)) as [Hin|Hni]; cbn; [|done].
      apply free_list_spec in Hin as [_ ->]. done.
Qed.

(** The head of the free list is what [allocate_zone] takes. *)
Lemma filter_seqZ_head (P : Z -> Prop) `{!forall x, Decision (P x)} n : forall b z rest,
  filter P (seqZ b (Z.of_nat n)) = z :: rest ->
  b <= z < b + Z.of_nat n /\ P z /\ (forall y, b <= y < z -> ~ P y) /\
  filter P (seqZ (z + 1) (b + Z.of_nat n - z - 1)) = rest.
Proof.
  induction n as [|n IH]; intros b z rest; [done|]. rewrite seqZ_cons_nat, filter_cons. case_decide as Hb.
  - intros [= <- <-]. split; [lia|]. split; [done|]. split; [lia|]. f_equal. f_equal; lia.
  - intros (Q1 & Q2 & Q3 & Q4)%IH. split; [lia|]. split; [done|]. split.
    + intros y Hy. destruct (decide (y = b)) as [->|]; [done|]. apply Q3. lia.
    + rewrite <- Q4. f_equal. f_equal; lia.
Qed.

Lemma free_list_head a z rest :
  free_list a = z :: rest -> least_free_zone sb a z /\ free_list (use_zone z a) = rest.
Proof.
  intros Hf. assert (Hin : z ∈ free_list a) by (rewrite Hf; by left). apply free_list_spec in Hin as [Hd Hu].
  pose proof Hf as Hf'. unfold free_list in Hf'.
  replace (zones sb - first_data_zone sb) with (Z.of_nat (Z.to_nat (zones sb - first_data_zone sb))) in Hf'
    by (unfold in_data in Hd; lia).
  apply filter_seqZ_head in Hf' as (Q1 & Q2 & Q3 & Q4). split.
  - split; [done|]. split; [done|]. intros y Hy. specialize (Q3 y Hy). by destruct (vzused a y).
  - unfold free_list. rewrite <- Q4. unfold in_data in Hd.
    replace (zones sb - first_data_zone sb) with ((z - first_data_zone sb) + (1 + (zones sb - z - 1))) by lia.
    rewrite seqZ_app, filter_app by lia. replace (first_data_zone sb + (z - first_data_zone sb)) with z by lia.
    rewrite seqZ_app, filter_app by lia. replace (seqZ z 1) with [z] by (rewrite seqZ_cons by lia; done).
    rewrite filter_cons_False, app_nil_l.
    2: { cbn. by rewrite Z.eqb_refl. }
    rewrite filter_none, app_nil_l.
    + replace (first_data_zone sb + Z.of_nat (Z.to_nat _) - z - 1) with (zones sb - z - 1) by lia.
      apply filter_iff_in. intros x Hx%elem_of_seqZ. cbn. by replace (x =? z) with false by lia.
    + apply Forall_forall. intros x Hx%elem_of_seqZ Hxu. cbn in Hxu. apply (Q3 x ltac:(lia)).
      by destruct (vzused a x); [rewrite orb_true_r in Hxu|].
Qed.

(** Taking the first [n] zones of the free list leaves the others. *)
Lemma free_list_take a n : free_list (use_zones (take n (free_list a)) a) = drop n (free_list a).
Proof.
  transitivity (filter (fun x => x ∉ take n (free_list a)) (free_list a)).
  - set (zs := take n (free_list a)). unfold free_list. rewrite list_filter_filter. apply list_filter_iff.
    intros x. cbn. destruct (bool_decide_reflect (x ∈ zs)); cbn; [|tauto]. split; [done|]. by intros [? _].
  - pose proof (free_list_NoDup a) as Hnd. rewrite <- (take_drop n (free_list a)) in Hnd at 1.
    apply NoDup_app in Hnd as (_ & Hdis & _). 
    transitivity (filter (fun x => x ∉ take n (free_list a)) (take n (free_list a) ++ drop n (free_list a)));
      [by rewrite take_drop|]. rewrite filter_app.
    rewrite filter_none, filter_all; [done| |].
    + apply Forall_forall. intros x Hx Hx'. by apply (Hdis x).
    + apply Forall_forall. intros x Hx Hn. done.
Qed.
End zones.

(** C30. allocate_zones takes exactly the lowest free zones, in ascending order, and marks those and no others; when there are too few it reports NoSpaceLeft and the volume is as before. *)
Theorem allocate_zones_exact {D : Type} `{ReliableDev D} (sb : Superblock) (d : D) (a : Volume) (count : nat) :
  rep sb d a ->
  exists d', allocate_zones sb count d =
      (if (count <=? length (free_list sb a))%nat then Ok (take count (free_list sb a)) else Err NoSpaceLeft, d') /\
    rep sb d' (if (count <=? length (free_list sb a))%nat then use_zones (take count (free_list sb a)) a else a).
Proof.
  intros Hd. pose proof (vg_data _ _ (proj1 Hd)). pose proof (vg_cover _ _ (proj1 Hd)).
  destruct (Nat.leb_spec count (length (free_list sb a))); [by apply allocate_zones_runs|by apply allocate_zones_short].
Qed.

Lemma allocate_zones_exact_witness :
  let a := volume_of small_sb small_disk in
  exists d d', allocate_zones small_sb 3 small_disk = (Ok [4; 5; 6], d) /\ rep small_sb d (use_zones [4; 5; 6] a) /\
    allocate_zones small_sb 7 small_disk = (Err NoSpaceLeft, d') /\ rep small_sb d' a.
Proof.
  intros a. assert (Ha : rep small_sb small_disk a).
  { apply rep_volume_of, small_geom; [|done..]. split; [cbn; lia|]. intros x. apply length_replicate. }
  destruct (allocate_zones_exact small_sb small_disk a 3 Ha) as (d & H1 & R1).
  destruct (allocate_zones_exact small_sb small_disk a 7 Ha) as (d' & H2 & R2).
  assert (Hf : free_list small_sb a = [4; 5; 6; 7; 8; 9]) by (vm_compute; reflexivity).
  rewrite Hf in H1, R1, H2, R2. exists d, d'. exact (conj H1 (conj R1 (conj H2 R2))).
Defined.
