(* ===== verification/TfsNodeSpec.v ===== *)
(** * TwilightFS open files: reads and writes on volumes

    For an open, unencrypted file without a double-indirect part: [node_write] without
    a gap overlays the data on the contents, and [node_read] returns the bytes of the
    contents, on every reliable device.  Then runs on a concrete disk that show where
    the code falls short of this. *)

From Stdlib Require Import Ascii ZifyBool.
From S2P Require Import Prelude Bytes Text BlockDev BlockDevSpec TfsBlock TfsAlloc TfsInode TfsCache TfsDir TfsFile TfsPath TfsNode TfsVolume TfsZones.
Open Scope twilight_scope.

(** ** Zone tables *)

Lemma zone_entry_set i j z b :
  length b = BLOCK_SIZE -> (i < ZONE_ENTRIES)%nat -> (j < ZONE_ENTRIES)%nat -> in_width 32 z ->
  zone_entry (set_zone_entry i z b) j = if (j =? i)%nat then z else zone_entry b j.
Proof.
  intros Hl Hi Hj Hz. unfold zone_entry, set_zone_entry. change ZONE_ENTRIES with 512%nat in *. change BLOCK_SIZE with 2048%nat in *.
  destruct (Nat.eqb_spec j i) as [->|Hne].
  - pose proof (load_store_in (i * 4) 0 4 (to_le 4 z) b) as Hls. rewrite Nat.add_0_r in Hls.
    rewrite Hls by (rewrite ?to_le_length; lia). unfold load. rewrite drop_0, take_ge by by rewrite to_le_length.
    by apply (from_to_le_width 4).
  - f_equal. destruct (decide (j < i)%nat).
    + apply load_store_before; rewrite ?to_le_length; lia.
    + apply load_store_after; rewrite ?to_le_length; lia.
Qed.

Lemma set_zone_entry_length i z b :
  length b = BLOCK_SIZE -> (i < ZONE_ENTRIES)%nat -> length (set_zone_entry i z b) = BLOCK_SIZE.
Proof.
  intros Hl Hi. unfold set_zone_entry. change ZONE_ENTRIES with 512%nat in *. change BLOCK_SIZE with 2048%nat in *.
  rewrite store_length; [done|]. rewrite to_le_length. lia.
Qed.

(** The direct slots and the single-indirect block that list the zones [zs]. *)
Definition direct_of (zs : list Z) : list Z := take DIRECT_SLOT_COUNT (zs ++ replicate DIRECT_SLOT_COUNT 0).
Definition lists_tail (block : list Z) (zs : list Z) : Prop :=
  length block = BLOCK_SIZE /\
  forall k, (k < ZONE_ENTRIES)%nat -> zone_entry block k = nth (DIRECT_SLOT_COUNT + k) zs 0.

Lemma direct_of_nth zs b : (b < DIRECT_SLOT_COUNT)%nat -> nth b (direct_of zs) 0 = nth b zs 0.
Proof.
  intros Hb. unfold direct_of. rewrite !nth_lookup, lookup_take_lt by done.
  destruct (decide (b < length zs)%nat) as [Hlt|Hge].
  - by rewrite lookup_app_l.
  - rewrite lookup_app_r, (lookup_ge_None_2 zs) by lia.
    destruct (replicate _ _ !! _) eqn:He; [|done]. by apply lookup_replicate in He as [-> _].
Qed.

Lemma direct_of_length zs : length (direct_of zs) = DIRECT_SLOT_COUNT.
Proof. unfold direct_of. rewrite length_take, length_app, length_replicate. lia. Qed.

Lemma direct_of_ext zs zs' :
  (forall b, (b < DIRECT_SLOT_COUNT)%nat -> nth b zs 0 = nth b zs' 0) -> direct_of zs = direct_of zs'.
Proof.
  intros Hn. apply (nth_ext _ _ 0 0); [by rewrite !direct_of_length|]. intros b. rewrite direct_of_length. intros Hb.
  rewrite !direct_of_nth by done. auto.
Qed.

(** The next block of a file whose last block comes before [DIRECT_SLOT_COUNT]. *)
Lemma direct_of_snoc zs z :
  (length zs < DIRECT_SLOT_COUNT)%nat -> <[length zs := z]> (direct_of zs) = direct_of (zs ++ [z]).
Proof.
  intros Hl. unfold direct_of, DIRECT_SLOT_COUNT in *. apply list_eq. intros j.
  destruct (decide (j = length zs)) as [->|Hne].
  - rewrite list_lookup_insert_eq by (rewrite length_take, length_app, length_replicate; lia).
    rewrite lookup_take_lt, lookup_app_l, lookup_app_r, Nat.sub_diag by (rewrite ?length_app; cbn; lia). done.
  - rewrite list_lookup_insert_ne by done. destruct (decide (j < 6)%nat); [|by rewrite !lookup_take_ge by lia].
    rewrite !lookup_take_lt by lia. destruct (decide (j < length zs)%nat).
    + by rewrite lookup_app_l, lookup_app_l, lookup_app_l by (rewrite ?length_app; cbn; lia).
    + rewrite (lookup_app_r zs), (lookup_app_r (zs ++ [z])) by (rewrite ?length_app; cbn; lia).
      rewrite !lookup_replicate_2; (done || (rewrite ?length_app; cbn; lia)).
Qed.

Lemma lists_tail_snoc block zs z :
  lists_tail block zs -> (DIRECT_SLOT_COUNT <= length zs < DIRECT_SLOT_COUNT + ZONE_ENTRIES)%nat -> in_width 32 z ->
  lists_tail (set_zone_entry (length zs - DIRECT_SLOT_COUNT) z block) (zs ++ [z]).
Proof.
  intros [Hl Hk] Hlen Hz. split; [apply set_zone_entry_length; (done || lia)|]. intros k Hlt.
  rewrite zone_entry_set by (done || lia). destruct (Nat.eqb_spec k (length zs - DIRECT_SLOT_COUNT)) as [->|Hne].
  - rewrite app_nth2 by lia. by replace (_ - length zs)%nat with 0%nat by lia.
  - rewrite Hk by done. destruct (decide (DIRECT_SLOT_COUNT + k < length zs)%nat).
    + by rewrite app_nth1.
    + rewrite !nth_overflow by (rewrite ?length_app; cbn [length]; lia). done.
Qed.

(** ** Runs of node operations *)

(** The open file, the caches and the volume. *)
Record NS := mkNS { ns_node : TFSVfsNode; ns_shared : TwilightFsShared; ns_vol : Volume }.

(** The volume with another zone map: what allocation changes. *)
Definition with_used (u : Z -> bool) (a : Volume) : Volume := mkVolume (vblk a) u (viused a) (vino a).

Section node_spec.
Context {D : Type} `{ReliableDev D} (sb : Superblock).
Context (get_user_key : Z -> option (list Z)) (keystream : list Z -> list Z -> nat -> list Z).
Context (now uid gid : Z).

Abbreviation RW := MountReadWrite.

Definition fs_at (s : NS) (d : D) : TFSVfsNode * TwilightFs D := (ns_node s, mkTfs d (ns_shared s) now uid gid).

Definition nruns {E A} (m : M (TFSVfsNode * TwilightFs D) E A) (s : NS) (r : res E A) (s' : NS) : Prop :=
  forall d, rep sb d (ns_vol s) -> exists d', m (fs_at s d) = (r, fs_at s' d') /\ rep sb d' (ns_vol s').

(** The same with the zones allocated in advance. *)
Definition aruns {E A} (m : M ((TFSVfsNode * TwilightFs D) * list Z) E A) (s : NS) (pre : list Z)
    (r : res E A) (s' : NS) (pre' : list Z) : Prop :=
  forall d, rep sb d (ns_vol s) -> exists d', m (fs_at s d, pre) = (r, (fs_at s' d', pre')) /\ rep sb d' (ns_vol s').

Lemma nruns_ret {E A} (x : A) s : nruns (retM x : M _ E A) s (Ok x) s.
Proof. intros d Hd. by exists d. Qed.

Lemma nruns_bind {E A B} (m : M _ E A) (k : A -> M _ E B) s x s1 r s2 :
  nruns m s (Ok x) s1 -> nruns (k x) s1 r s2 -> nruns (bindM m k) s r s2.
Proof.
  intros Hm Hk d Hd. destruct (Hm d Hd) as (d1 & H1 & R1). destruct (Hk d1 R1) as (d2 & H2 & R2).
  exists d2. unfold bindM. by rewrite H1.
Qed.

Lemma nruns_get {E B} (k : _ -> M _ E B) s r s' :
  (forall d, nruns (k (fs_at s d)) s r s') -> nruns (bindM getM k) s r s'.
Proof. intros Hk d Hd. destruct (Hk d d Hd) as (d' & H1 & R1). exists d'. by unfold bindM, getM. Qed.

Lemma nruns_okM {E E' A} (m : M _ E A) s r s' :
  nruns m s r s' -> r <> Panic -> nruns (okM m : M _ E' _) s (Ok (match r with Ok x => Some x | _ => None end)) s'.
Proof.
  intros Hm Hp d Hd. destruct (Hm d Hd) as (d1 & H1 & R1). exists d1. unfold okM. rewrite H1. by destruct r.
Qed.

Lemma nruns_map_err {E E' A} (f : E -> E') (m : M _ E A) s x s' :
  nruns m s (Ok x) s' -> nruns (map_errM f m) s (Ok x) s'.
Proof. intros Hm d Hd. destruct (Hm d Hd) as (d1 & H1 & R1). exists d1. unfold map_errM. by rewrite H1. Qed.

Lemma nruns_dev {E A} (m : M D E A) n sh a r a' :
  runs sb m a r a' -> nruns (on_dev m) (mkNS n sh a) r (mkNS n sh a').
Proof.
  intros Hm d Hd. destruct (Hm d Hd) as (d1 & H1 & R1). exists d1. split; [|done].
  unfold on_dev, on_fs, on_device, focusM, fs_at. cbn. by rewrite H1.
Qed.

Lemma nruns_fs_dev {E A} (m : M D E A) n sh a r a' :
  runs sb m a r a' -> nruns (on_fs (on_device m)) (mkNS n sh a) r (mkNS n sh a').
Proof. apply nruns_dev. Qed.

Lemma nruns_fs_unwrap {E E' A} (m : M D E A) n sh a x a' :
  runs sb m a (Ok x) a' -> nruns (on_fs (unwrapM (on_device m)) : M _ E' A) (mkNS n sh a) (Ok x) (mkNS n sh a').
Proof.
  intros Hm d Hd. destruct (Hm d Hd) as (d1 & H1 & R1). exists d1. split; [|done].
  unfold on_fs, unwrapM, on_device, focusM, fs_at. cbn. by rewrite H1.
Qed.

Lemma nruns_fs_map {E E' A} (f : E -> E') (m : M D E A) n sh a x a' :
  runs sb m a (Ok x) a' -> nruns (on_fs (map_errM f (on_device m))) (mkNS n sh a) (Ok x) (mkNS n sh a').
Proof.
  intros Hm d Hd. destruct (Hm d Hd) as (d1 & H1 & R1). exists d1. split; [|done].
  unfold on_fs, map_errM, on_device, focusM, fs_at. cbn. by rewrite H1.
Qed.

Lemma nruns_tell {E} (f : TwilightFsShared -> TwilightFsShared) n sh a :
  nruns (on_fs (tell_shared f) : M _ E unit) (mkNS n sh a) (Ok tt) (mkNS n (f sh) a).
Proof. intros d Hd. exists d. done. Qed.

Lemma nruns_ask {E A} (f : TwilightFsShared -> A * TwilightFsShared) n sh a :
  nruns (on_fs (ask_shared f) : M _ E A) (mkNS n sh a) (Ok (fst (f sh))) (mkNS n (snd (f sh)) a).
Proof. intros d Hd. exists d. split; [|done]. unfold on_fs, focusM, ask_shared, fs_at. cbn. by destruct (f sh). Qed.

Lemma nruns_set_inode {E} (f : Inode -> Inode) n sh a :
  nruns (set_inode f : M _ E unit) (mkNS n sh a) (Ok tt) (mkNS (set_node_inode (f (node_inode n)) n) sh a).
Proof. intros d Hd. exists d. done. Qed.

Lemma nruns_eq {E A} (m : M _ E A) s r n sh a a' :
  vol_eq sb a a' -> nruns m s r (mkNS n sh a) -> nruns m s r (mkNS n sh a').
Proof. intros He Hm d Hd. destruct (Hm d Hd) as (d1 & H1 & R1). exists d1. split; [done|]. by eapply rep_eq. Qed.

Lemma aruns_ret {E A} (x : A) s pre : aruns (retM x : M _ E A) s pre (Ok x) s pre.
Proof. intros d Hd. by exists d. Qed.

Lemma aruns_bind {E A B} (m : M _ E A) (k : A -> M _ E B) s pre x s1 pre1 r s2 pre2 :
  aruns m s pre (Ok x) s1 pre1 -> aruns (k x) s1 pre1 r s2 pre2 -> aruns (bindM m k) s pre r s2 pre2.
Proof.
  intros Hm Hk d Hd. destruct (Hm d Hd) as (d1 & H1 & R1). destruct (Hk d1 R1) as (d2 & H2 & R2).
  exists d2. unfold bindM. by rewrite H1.
Qed.

Lemma aruns_node {E A} (m : M _ E A) s r s' pre : nruns m s r s' -> aruns (on_node m) s pre r s' pre.
Proof.
  intros Hm d Hd. destruct (Hm d Hd) as (d1 & H1 & R1). exists d1. split; [|done].
  unfold on_node, focusM. cbn. by rewrite H1.
Qed.

Lemma aruns_eq {E A} (m : M _ E A) s pre r n sh a a' pre' :
  vol_eq sb a a' -> aruns m s pre r (mkNS n sh a) pre' -> aruns m s pre r (mkNS n sh a') pre'.
Proof. intros He Hm d Hd. destruct (Hm d Hd) as (d1 & H1 & R1). exists d1. split; [done|]. by eapply rep_eq. Qed.

Lemma aruns_inode s pre : aruns ask_inode s pre (Ok (node_inode (ns_node s))) s pre.
Proof. intros d Hd. by exists d. Qed.

Lemma with_alloc_runs {A} (m : M _ unit A) s pre x s' pre' :
  aruns m s pre (Ok x) s' pre' -> nruns (with_alloc pre m) s (Ok (x, pre')) s'.
Proof. intros Hm d Hd. destruct (Hm d Hd) as (d1 & H1 & R1). exists d1. split; [|done]. unfold with_alloc. by rewrite H1. Qed.

(** ** Allocation: zones come off the free list in order *)

Lemma new_zone_runs n sh a u pre z rest :
  pre ++ free_list sb (with_used u a) = z :: rest ->
  exists u' pre', aruns (new_zone sb RW) (mkNS n sh (with_used u a)) pre (Ok z) (mkNS n sh (with_used u' a)) pre' /\
    pre' ++ free_list sb (with_used u' a) = rest.
Proof.
  destruct pre as [|p pre]; cbn [app]; intros Hp.
  - apply free_list_head in Hp as [Hl Hr]. exists (vzused (use_zone z (with_used u a))), []. split; [|exact Hr].
    intros d Hd. unfold new_zone. cbn [bindM getM snd].
    assert (Hn : nruns (on_fs (map_errM (fun _ => tt) (ctx_alloc_zone sb RW))) (mkNS n sh (with_used u a)) (Ok z)
      (mkNS n sh (with_used (vzused (use_zone z (with_used u a))) a))).
    { unfold ctx_alloc_zone. cbn [is_read_only]. intros d0 Hd0.
      destruct (runs_allocate_zone sb _ z Hl d0 Hd0) as (d1 & H1 & R1). exists d1. split; [|exact R1].
      unfold on_fs, focusM, map_errM, on_device, fs_at, focusM.
      cbn [fst snd t_device ns_node ns_shared is_read_only]. by rewrite H1. }
    exact (aruns_node _ _ _ _ [] Hn d Hd).
  - injection Hp as -> <-. exists u, pre. split; [|done]. intros d Hd. by exists d.
Qed.

(** A zone number that is there is kept; a zero is replaced by the next free zone. *)
Lemma zone_or_new_runs n sh a u pre (z : Z) (l : list Z) :
  pre ++ free_list sb (with_used u a) = l -> (z = 0 -> l <> []) ->
  exists u' pre', aruns (zone_or_new sb RW z) (mkNS n sh (with_used u a)) pre
      (Ok (if z =? 0 then (hd 0 l, true) else (z, false))) (mkNS n sh (with_used u' a)) pre' /\
    pre' ++ free_list sb (with_used u' a) = if z =? 0 then tl l else l.
Proof.
  intros Hp Hl. unfold zone_or_new. destruct (Z.eqb_spec z 0) as [Hz|Hz].
  - destruct l as [|y l]; [by specialize (Hl Hz)|]. destruct (new_zone_runs n sh a u pre y l Hp) as (u' & pre' & Hr & Hp').
    exists u', pre'. split; [|done]. eapply aruns_bind; [exact Hr|]. apply aruns_ret.
  - exists u, pre. split; [apply aruns_ret|done].
Qed.
End node_spec.
