(* ===== verification/TfsWriteSpec.v ===== *)
(** * TwilightFS open files: writes

    [node_write] of an unencrypted file without a double-indirect part, at an offset
    inside the file or at its end: the plan of block writes it makes, the zones it takes
    from the free list, the blocks after the plan is run, and the inode it leaves. *)

From Stdlib Require Import Ascii ZifyBool.
From S2P Require Import Prelude Bytes Text BlockDev BlockDevSpec TfsBlock TfsAlloc TfsInode TfsCache TfsDir TfsFile TfsPath TfsNode TfsVolume TfsZones TfsNodeSpec.
Open Scope twilight_scope.

Lemma store_all src l : length src = length l -> store 0 src l = src.
Proof. intros Hl. unfold store. rewrite drop_ge by lia. apply app_nil_r. Qed.

(** ** The plan: one operation per block *)

Section plan.
(** The zones after the write, the blocks the file had, and the range written. *)
Context (zsF : list Z) (k0 o e : nat).
Abbreviation B := TfsNode.BLOCK_SIZE.

Definition pos_at (b : nat) : nat := Nat.min e (Nat.max o (b * B)).
Definition op_at (b : nat) : NodeOp :=
  mkNodeOp (nth b zsF 0) (pos_at b - o) (pos_at b - b * B) (pos_at (S b) - pos_at b) (k0 <=? b)%nat.
Definition prog (b : nat) : NodeProgress :=
  mkNP (op_at <$> seq (o / B) (b - o / B)) (pos_at b - o) (e - pos_at b) (Z.of_nat (pos_at b)).

Lemma B_pos : B <> 0%nat.
Proof. done. Qed.

Lemma pos_at_in b : (o / B <= b)%nat -> (b * B < e)%nat -> (o < e)%nat ->
  (b * B <= pos_at b < e)%nat /\ (pos_at b < S b * B)%nat /\ (o <= pos_at b)%nat /\ (pos_at (S b) = Nat.min e (S b * B))%nat.
Proof.
  intros Hb He Ho. unfold pos_at. pose proof (Nat.div_mod_eq o B). pose proof (Nat.mod_upper_bound o B B_pos).
  assert (B * (o / B) <= B * b)%nat by nia. pose proof B_pos. generalize dependent B. intros B' **. nia.
Qed.

Lemma pos_at_div b : (o / B <= b)%nat -> (b * B < e)%nat -> (o < e)%nat ->
  Z.to_nat (Z.of_nat (pos_at b) / 2048) = b /\ Z.to_nat (Z.of_nat (pos_at b) mod 2048) = (pos_at b - b * B)%nat.
Proof.
  intros Hb He Ho. destruct (pos_at_in b Hb He Ho) as (H1 & H2 & _). change 2048 with (Z.of_nat B).
  rewrite <- Nat2Z.inj_div, <- Nat2Z.inj_mod, !Nat2Z.id. split.
  - symmetry. apply (Nat.div_unique _ _ _ (pos_at b - b * B)); lia.
  - symmetry. apply (Nat.mod_unique _ _ b); lia.
Qed.

Lemma prog_rem b : (o < e)%nat -> (np_rem (prog b) =? 0)%nat = (e <=? b * B)%nat.
Proof. intros Ho. cbn [prog np_rem]. unfold pos_at. generalize (b * B)%nat. lia. Qed.

Lemma prog_start : (o < e)%nat -> prog (o / B) = mkNP [] 0 (e - o) (Z.of_nat o).
Proof.
  intros Ho. assert (pos_at (o / B) = o) as Hp.
  { unfold pos_at. pose proof (Nat.div_mod_eq o B). revert H. rewrite (Nat.mul_comm B). generalize (o / B * B)%nat. lia. }
  unfold prog. by rewrite Hp, !Nat.sub_diag.
Qed.

Lemma prog_block b : (o / B <= b)%nat -> (b * B < e)%nat -> (o < e)%nat -> Z.to_nat (np_pos (prog b) / 2048) = b.
Proof. intros. by apply pos_at_div. Qed.

Lemma prog_push b :
  (o / B <= b)%nat -> (b * B < e)%nat -> (o < e)%nat -> np_push (nth b zsF 0) (k0 <=? b)%nat (prog b) = prog (S b).
Proof.
  intros Hb He Ho. destruct (pos_at_div b Hb He Ho) as [_ Hm]. destruct (pos_at_in b Hb He Ho) as (H1 & H2 & H3 & H4).
  assert (Hc : np_copy (prog b) = (pos_at (S b) - pos_at b)%nat).
  { unfold np_copy. cbn [prog np_rem np_pos]. rewrite Hm, H4. revert H1 H2. cbn [Nat.mul]. generalize (b * B)%nat B. lia. }
  unfold np_push. rewrite Hc. cbn [prog np_ops np_written np_rem np_pos]. rewrite Hm. unfold prog.
  assert (pos_at b <= pos_at (S b) <= e)%nat by (rewrite H4; lia).
  replace (S b - o / B)%nat with (S (b - o / B)) by lia. rewrite seq_S, fmap_app. cbn [fmap list_fmap].
  replace (o / B + (b - o / B))%nat with b by lia. f_equal; lia.
Qed.
End plan.

(** ** The zones a write takes *)

Section growth.
(** The zones and single-indirect zone of the file, the free zones, the range written. *)
Context (zs F : list Z) (ind0 : Z) (o e : nat).
Abbreviation B := TfsNode.BLOCK_SIZE.
Abbreviation SLOTS := DIRECT_SLOT_COUNT.
Abbreviation k0 := (length zs).

Definition blocks_end : nat := (e + (B - 1)) / B.
(** The write reaches past the direct slots of a file that has no single-indirect block. *)
Definition fresh_ind : bool := (ind0 =? 0) && (SLOTS <? blocks_end)%nat.
(** The single-indirect block is taken after the direct blocks. *)
Definition newz : list Z := if fresh_ind then take (SLOTS - k0) F ++ drop (S (SLOTS - k0)) F else F.
Definition ind1 : Z := if fresh_ind then nth (SLOTS - k0) F 0 else ind0.
Definition grow_to (b : nat) : list Z := zs ++ take (b - k0) newz.
Definition zones_after : list Z := grow_to blocks_end.
Definition zones_taken : nat := blocks_end - k0 + (if fresh_ind then 1 else 0).
Definition written_at (b : nat) : NodeProgress := prog zones_after k0 o e b.

Lemma blocks_end_spec b : (b < blocks_end <-> b * B < e)%nat.
Proof.
  unfold blocks_end. pose proof (Nat.div_mod_eq (e + (B - 1)) B). pose proof (Nat.mod_upper_bound (e + (B - 1)) B B_pos).
  pose proof B_pos. set (q := ((e + (B - 1)) / B)%nat) in *. generalize dependent q. generalize dependent B. intros. nia.
Qed.

Record grows : Prop := {
  gr_len : (k0 <= SLOTS + IND_CAP)%nat;
  gr_ind : ind0 = 0 -> (k0 <= SLOTS)%nat;
  gr_zs : Forall (fun z => z <> 0) zs;
  gr_range : (o < e)%nat;
  gr_start : (o <= k0 * B)%nat;
  gr_end : (blocks_end <= SLOTS + IND_CAP)%nat;
  gr_free : (zones_taken <= length F)%nat;
  gr_width : Forall (in_width 32) F;
}.
Context (G : grows).

Lemma start_block_le : (o / B <= k0)%nat.
Proof. pose proof (gr_start G). rewrite <- (Nat.div_mul k0 B) by apply B_pos. by apply Nat.Div0.div_le_mono. Qed.

Lemma start_block_lt : (o / B < blocks_end)%nat.
Proof.
  apply blocks_end_spec. pose proof (gr_range G). pose proof (Nat.div_mod_eq o B) as Hd. rewrite Nat.mul_comm in Hd.
  revert Hd. generalize (o / B * B)%nat. lia.
Qed.

Lemma newz_length : (blocks_end - k0 <= length newz)%nat.
Proof.
  pose proof (gr_free G) as Hf. unfold zones_taken in Hf. unfold newz. destruct fresh_ind; [|lia].
  rewrite length_app, length_take, length_drop. lia.
Qed.

Lemma grow_length b : (b <= blocks_end)%nat -> length (grow_to b) = Nat.max k0 b.
Proof. intros Hb. pose proof newz_length. unfold grow_to. rewrite length_app, length_take. lia. Qed.

Lemma grow_old b : (b <= k0)%nat -> grow_to b = zs.
Proof. intros Hb. unfold grow_to. replace (b - k0)%nat with 0%nat by lia. apply app_nil_r. Qed.

Lemma after_old b : (b < k0)%nat -> nth b zones_after 0 = nth b zs 0.
Proof. intros Hb. unfold zones_after, grow_to. by rewrite app_nth1. Qed.

Lemma after_new b : (k0 <= b < blocks_end)%nat -> nth b zones_after 0 = nth (b - k0) newz 0.
Proof.
  intros Hb. unfold zones_after, grow_to. rewrite app_nth2, !nth_lookup, lookup_take_lt by lia. done.
Qed.

(** Blocks before [c] are settled when the first [c] are. *)
Lemma grow_direct b c : (c <= blocks_end)%nat -> (b < c)%nat \/ c = blocks_end -> nth b (grow_to c) 0 = nth b zones_after 0.
Proof.
  intros Hc [Hb| ->]; [|done]. pose proof newz_length. destruct (decide (b < k0)%nat).
  { rewrite after_old by done. unfold grow_to. by rewrite app_nth1. }
  rewrite after_new by lia. unfold grow_to. by rewrite app_nth2, !nth_lookup, lookup_take_lt by lia.
Qed.

Lemma grow_snoc b : (k0 <= b < blocks_end)%nat -> grow_to (S b) = grow_to b ++ [nth b zones_after 0].
Proof.
  intros Hb. pose proof newz_length. rewrite after_new by done. unfold grow_to. rewrite <- app_assoc. f_equal.
  replace (S b - k0)%nat with (S (b - k0)) by lia. apply take_S_r.
  destruct (nth_lookup_or_length newz (b - k0) 0); [done|lia].
Qed.

(** In the direct part the zones are the first free ones, and in the indirect part the
    ones after the single-indirect block. *)
Lemma after_direct b : (k0 <= b < blocks_end)%nat -> (b < SLOTS)%nat -> nth b zones_after 0 = nth (b - k0) F 0.
Proof.
  intros Hb Hs. rewrite after_new by done. unfold newz. pose proof (gr_free G) as Hf. unfold zones_taken in Hf.
  destruct fresh_ind; [|done]. rewrite app_nth1 by (rewrite length_take; lia).
  by rewrite !nth_lookup, lookup_take_lt by lia.
Qed.

Lemma drop_newz b : (SLOTS <= b)%nat -> (SLOTS < blocks_end)%nat ->
  drop (b - k0) newz = drop (b - k0 + (if fresh_ind then 1 else 0)) F.
Proof.
  intros Hb Hs. unfold newz. pose proof (gr_free G) as Hf. unfold zones_taken in Hf.
  destruct fresh_ind; [|f_equal; lia]. rewrite drop_app_ge by (rewrite length_take; lia).
  rewrite drop_drop, length_take. f_equal. lia.
Qed.

Lemma after_width b : (k0 <= b < blocks_end)%nat -> in_width 32 (nth b zones_after 0).
Proof.
  intros Hb. rewrite after_new by done. pose proof newz_length.
  assert (Hw : Forall (in_width 32) newz).
  { pose proof (gr_width G). unfold newz. destruct fresh_ind; [|done]. apply Forall_app. split; [by apply Forall_take|by apply Forall_drop]. }
  destruct (nth_lookup_or_length newz (b - k0) 0) as [Hl|]; [|lia]. exact (proj1 (Forall_lookup _ _) Hw _ _ Hl).
Qed.

Lemma drop_nth_cons (l : list Z) k : (k < length l)%nat -> drop k l = nth k l 0 :: drop (S k) l.
Proof.
  intros Hk. destruct (nth_lookup_or_length l k 0) as [Hl|]; [|lia]. by apply drop_S.
Qed.

(** ** Which zones the file has afterwards *)

Context (HFnd : NoDup F) (Hnd : NoDup zs) (Hdis : forall z, z ∈ zs -> z ∉ F).

Lemma take_elem k (l : list Z) z : z ∈ take k l -> z ∈ l.
Proof. rewrite <- (take_drop k l) at 2. rewrite elem_of_app. by left. Qed.

Lemma taken_perm : take zones_taken F ≡ₚ (if fresh_ind then [ind1] else []) ++ take (blocks_end - k0) newz.
Proof.
  pose proof (gr_free G) as Hf. unfold zones_taken, newz, ind1, fresh_ind in *. destruct (Z.eqb_spec ind0 0) as [Hz|]; cbn [andb app].
  2: by rewrite Nat.add_0_r.
  pose proof (gr_ind G Hz). destruct (Nat.ltb_spec SLOTS blocks_end); cbn [app]; [|by rewrite Nat.add_0_r].
  rewrite take_app_ge by (rewrite length_take; lia). rewrite length_take, Nat.min_l by lia.
  replace (blocks_end - k0 + 1)%nat with (SLOTS - k0 + S (blocks_end - k0 - (SLOTS - k0)))%nat by lia.
  rewrite <- take_take_drop, (drop_nth_cons F) by lia. cbn [take]. symmetry. apply Permutation_middle.
Qed.

Lemma taken_nodup z : z ∈ take zones_taken F -> z ∉ drop zones_taken F.
Proof.
  intros Hz Hz'. rewrite <- (take_drop zones_taken F) in HFnd. apply NoDup_app in HFnd as (_ & Hd & _). by apply (Hd z).
Qed.

Lemma after_cases z : z ∈ zones_after -> z ∈ zs \/ z ∈ take zones_taken F.
Proof.
  unfold zones_after, grow_to. rewrite elem_of_app. intros [?|Hz]; [by left|right]. rewrite taken_perm. apply elem_of_app. by right.
Qed.

Lemma after_nodup : NoDup zones_after /\ (fresh_ind = true -> (ind1 ∉ zones_after)) /\ ((ind1 ∉ zs) -> (ind1 ∉ F) -> (ind1 ∉ zones_after)).
Proof.
  assert (Ht : NoDup ((if fresh_ind then [ind1] else []) ++ take (blocks_end - k0) newz)).
  { rewrite <- taken_perm. rewrite <- (take_drop zones_taken F) in HFnd. by apply NoDup_app in HFnd as [? _]. }
  assert (Hin : forall z, z ∈ take (blocks_end - k0) newz -> z ∈ F).
  { intros z Hz. apply (take_elem zones_taken). rewrite taken_perm. apply elem_of_app. by right. }
  apply NoDup_app in Ht as (Hi & Hd & Hn). unfold zones_after, grow_to. split_and!.
  - apply NoDup_app. split_and!; [done| |done]. intros z Hz Hz'. by apply (Hdis z), Hin.
  - intros Hf Hx. rewrite Hf in Hd. apply elem_of_app in Hx as [Hx|Hx].
    + apply (Hdis _ Hx). apply (take_elem zones_taken). rewrite taken_perm, Hf. by left.
    + apply (Hd ind1); [by left|done].
  - intros H1 H2 Hx. apply elem_of_app in Hx as [Hx|Hx]; [done|]. by apply H2, Hin.
Qed.
End growth.

Section write_spec.
Context {D : Type} `{ReliableDev D} (sb : Superblock) (now uid gid : Z).
Context (zs F : list Z) (ind0 : Z) (o e : nat) (G : grows zs F ind0 o e).
Context (n : TFSVfsNode) (sh : TwilightFsShared) (a : Volume).
Abbreviation B := TfsNode.BLOCK_SIZE.
Abbreviation SLOTS := DIRECT_SLOT_COUNT.
Abbreviation k0 := (length zs).
Abbreviation b1 := (blocks_end e).
Abbreviation after := (zones_after zs F ind0 e).
Abbreviation grown := (grow_to zs F ind0 e).
Abbreviation P := (written_at zs F ind0 o e).
Abbreviation RW := MountReadWrite.
Abbreviation aruns := (aruns (D := D) sb now uid gid).
Abbreviation nruns := (nruns (D := D) sb now uid gid).

(** One block: the zone it has, or the next free zone. *)
Lemma zone_step b u pre l (zone : Z) :
  (o / B <= b < b1)%nat -> zone = (if (b <? k0)%nat then nth b zs 0 else 0) ->
  pre ++ free_list sb (with_used u a) = l -> ((k0 <= b)%nat -> l <> [] /\ hd 0 l = nth b after 0) ->
  exists u' pre', aruns (zone_or_new sb RW zone) (mkNS n sh (with_used u a)) pre
      (Ok (nth b after 0, (k0 <=? b)%nat)) (mkNS n sh (with_used u' a)) pre' /\
    pre' ++ free_list sb (with_used u' a) = if (k0 <=? b)%nat then tl l else l.
Proof.
  intros Hb Hzone Hp Hl.
  assert (Hz : (zone =? 0) = (k0 <=? b)%nat).
  { rewrite Hzone. destruct (Nat.ltb_spec b k0) as [Hlt|Hge]; [|lia].
    destruct (lookup_lt_is_Some_2 zs b Hlt) as [z Hz]. rewrite (nth_lookup_Some _ _ _ _ Hz).
    pose proof (proj1 (Forall_lookup _ _) (gr_zs _ _ _ _ _ G) _ _ Hz). cbn in *. lia. }
  destruct (zone_or_new_runs sb now uid gid n sh a u pre zone l Hp) as (u' & pre' & Hr & Hp').
  { intros Hz0. apply Hl. lia. }
  exists u', pre'. rewrite Hz in Hr, Hp'. split; [|done]. clear Hp'. destruct (Nat.leb_spec k0 b) as [Hle|Hlt].
  - by rewrite <- (proj2 (Hl Hle)).
  - rewrite (after_old _ _ _ _ b Hlt). subst zone. rewrite (proj2 (Nat.ltb_lt _ _) Hlt) in Hr |- *. exact Hr.
Qed.

Lemma P_block b : (o / B <= b < b1)%nat -> Z.to_nat (np_pos (P b) / 2048) = b.
Proof. intros Hb. apply prog_block; [lia|apply blocks_end_spec; lia|exact (gr_range _ _ _ _ _ G)]. Qed.

Lemma P_push b : (o / B <= b < b1)%nat -> np_push (nth b after 0) (k0 <=? b)%nat (P b) = P (S b).
Proof. intros Hb. apply prog_push; [lia|apply blocks_end_spec; lia|exact (gr_range _ _ _ _ _ G)]. Qed.

Lemma P_rem b : (np_rem (P b) =? 0)%nat = (b1 <=? b)%nat.
Proof.
  pose proof (blocks_end_spec e b). transitivity (e <=? b * B)%nat; [apply prog_rem, (gr_range _ _ _ _ _ G)|lia].
Qed.

Definition direct_stop : nat := Nat.max (o / B) (Nat.min SLOTS b1).

Lemma write_direct_runs : forall fuel b u pre,
  (o / B <= b <= direct_stop)%nat -> (direct_stop - b <= fuel)%nat ->
  pre ++ free_list sb (with_used u a) = drop (b - k0) F ->
  exists u' pre', aruns (write_direct sb RW fuel (direct_of (grown b)) (P b)) (mkNS n sh (with_used u a)) pre
      (Ok (direct_of (grown direct_stop), P direct_stop)) (mkNS n sh (with_used u' a)) pre' /\
    pre' ++ free_list sb (with_used u' a) = drop (direct_stop - k0) F.
Proof.
  induction fuel as [|fuel IH]; intros b u pre Hb Hf Hp; cbn [write_direct].
  { replace b with direct_stop in * by lia. exists u, pre. split; [apply aruns_ret|done]. }
  rewrite P_rem. destruct (decide (b = direct_stop)) as [->|Hne].
  { exists u, pre. split; [|done]. destruct (Nat.leb_spec b1 direct_stop) as [|Hlt]; cbn [orb]; [apply aruns_ret|].
    rewrite P_block by lia. replace (SLOTS <=? direct_stop)%nat with true by (unfold direct_stop in *; lia). apply aruns_ret. }
  assert (Hlt : (b < SLOTS /\ b < b1)%nat) by (unfold direct_stop in *; lia).
  rewrite P_block by lia.
  replace (b1 <=? b)%nat with false by lia. replace (SLOTS <=? b)%nat with false by lia. cbn [orb].
  pose proof (gr_free _ _ _ _ _ G) as HF. unfold zones_taken in HF.
  destruct (zone_step b u pre (drop (b - k0) F) (nth b (direct_of (grown b)) 0) ltac:(lia)) as (u1 & pre1 & Hr1 & Hp1).
  { rewrite direct_of_nth by lia. destruct (Nat.ltb_spec b k0); [by rewrite grow_old by lia|].
    apply nth_overflow. rewrite (grow_length _ _ _ _ _ G) by lia. lia. }
  { done. }
  { intros Hk. rewrite (after_direct _ _ _ _ _ G) by lia. rewrite drop_nth_cons by lia. done. }
  destruct (IH (S b) u1 pre1) as (u2 & pre2 & Hr2 & Hp2); [lia|lia| |].
  { rewrite Hp1. destruct (Nat.leb_spec k0 b).
    - rewrite drop_nth_cons by lia. cbn [tl]. f_equal. lia.
    - f_equal. lia. }
  exists u2, pre2. split; [|done]. eapply aruns_bind; [exact Hr1|]. cbn [fst snd].
  rewrite P_push by lia.
  replace (<[b := nth b after 0]> (direct_of (grown b))) with (direct_of (grown (S b))); [done|].
  destruct (Nat.leb_spec k0 b).
  - rewrite (grow_snoc _ _ _ _ _ G) by lia. rewrite <- direct_of_snoc by (rewrite (grow_length _ _ _ _ _ G) by lia; lia).
    by rewrite (grow_length _ _ _ _ _ G), Nat.max_r by lia.
  - rewrite !grow_old, after_old by lia. rewrite <- direct_of_nth by lia. symmetry. apply list_insert_id.
    destruct (nth_lookup_or_length (direct_of zs) b 0) as [|Hl]; [done|]. rewrite direct_of_length in Hl. lia.
Qed.

Abbreviation new_zones := (newz zs F ind0 e).
Abbreviation ind := (ind1 zs F ind0 e).
Abbreviation extra := (fresh_ind ind0 e).

Lemma write_single_runs : forall fuel b u pre block dirty,
  (o / B <= b)%nat -> (SLOTS <= b <= b1)%nat -> (b1 - b <= fuel)%nat -> lists_tail block (grown b) ->
  pre ++ free_list sb (with_used u a) = drop (b - k0) new_zones ->
  exists u' pre' block' dirty', aruns (write_single sb RW fuel block dirty (P b)) (mkNS n sh (with_used u a)) pre
      (Ok (block', dirty', P b1)) (mkNS n sh (with_used u' a)) pre' /\
    pre' ++ free_list sb (with_used u' a) = drop (b1 - k0) new_zones /\ lists_tail block' after /\
    (dirty' = false -> dirty = false /\ block' = block).
Proof.
  induction fuel as [|fuel IH]; intros b u pre block dirty Ho Hb Hf Ht Hp; cbn [write_single].
  { replace b with b1 in * by lia. exists u, pre, block, dirty. by split; [apply aruns_ret|]. }
  rewrite P_rem. destruct (decide (b = b1)) as [->|Hne].
  { exists u, pre, block, dirty. split; [|done]. replace (b1 <=? b1)%nat with true by lia. apply aruns_ret. }
  pose proof (gr_end _ _ _ _ _ G) as He. pose proof (newz_length _ _ _ _ _ G) as HF.
  rewrite P_block by lia. replace (b1 <=? b)%nat with false by lia. replace (b <? SLOTS)%nat with false by lia.
  replace (IND_CAP <=? b - SLOTS)%nat with false by lia. cbn [orb].
  assert (Hlen : length (grown b) = Nat.max k0 b) by (apply (grow_length _ _ _ _ _ G); lia).
  destruct (zone_step b u pre (drop (b - k0) new_zones) (zone_entry block (b - SLOTS)) ltac:(lia)) as (u1 & pre1 & Hr1 & Hp1).
  { destruct Ht as [_ Ht]. rewrite Ht by (unfold IND_CAP, ZONE_ENTRIES in *; lia).
    replace (SLOTS + (b - SLOTS))%nat with b by lia. destruct (Nat.ltb_spec b k0); [by rewrite grow_old by lia|].
    apply nth_overflow. lia. }
  { done. }
  { intros Hk. rewrite after_new by lia. rewrite drop_nth_cons by lia. done. }
  set (block1 := if (k0 <=? b)%nat then set_zone_entry (b - SLOTS) (nth b after 0) block else block).
  destruct (IH (S b) u1 pre1 block1 (dirty || (k0 <=? b)%nat)) as (u2 & pre2 & block2 & dirty2 & Hr2 & Hp2 & Ht2 & Hd2); [lia..| | |].
  { unfold block1. destruct (Nat.leb_spec k0 b); [|rewrite grow_old by lia; rewrite grow_old in Ht by lia; done].
    rewrite (grow_snoc _ _ _ _ _ G) by lia. replace b with (length (grown b)) at 1 by lia.
    apply lists_tail_snoc; [done|unfold IND_CAP, ZONE_ENTRIES in *; lia|apply (after_width _ _ _ _ _ G); lia]. }
  { rewrite Hp1. destruct (Nat.leb_spec k0 b); [|f_equal; lia]. rewrite drop_nth_cons by lia. cbn [tl]. f_equal. lia. }
  exists u2, pre2, block2, dirty2. split_and!; [|done..|].
  - eapply aruns_bind; [exact Hr1|]. cbn beta iota. rewrite P_push by lia. exact Hr2.
  - intros Hd. destruct (Hd2 Hd) as [Hd3 ->]. apply orb_false_iff in Hd3 as [-> Hk]. unfold block1. by rewrite Hk.
Qed.

Definition ind_vol (block : list Z) : Volume := if (SLOTS <? b1)%nat then set_blk ind block a else a.
Definition ind_node : TFSVfsNode := if extra then set_node_inode (with_indirect ind (node_inode n)) n else n.

Lemma lists_tail_old block : lists_tail block zs -> (SLOTS < b1)%nat -> lists_tail block (grown direct_stop).
Proof.
  intros [Hl Ht] Hs. split; [done|]. intros k Hk. rewrite Ht by done. unfold direct_stop.
  destruct (decide (Nat.max (o / B) (Nat.min SLOTS b1) <= k0)%nat); [by rewrite grow_old|].
  pose proof (start_block_le _ _ _ _ _ G). rewrite (nth_overflow zs) by lia.
  symmetry. apply nth_overflow. rewrite (grow_length _ _ _ _ _ G) by lia. lia.
Qed.

Lemma lists_tail_zero l : (length l <= SLOTS)%nat -> lists_tail (replicate B 0) l.
Proof.
  intros Hl. split; [apply length_replicate|]. intros k Hk. rewrite nth_overflow by lia.
  unfold zone_entry, load. rewrite drop_replicate, take_replicate. change ZONE_ENTRIES with 512%nat in Hk.
  replace (Nat.min 4 _) with 4%nat; [done|]. change B with 2048%nat. lia.
Qed.

(** The single-indirect block: the one the file has, or a new one that lists nothing. *)
Lemma ind_block_runs u pre :
  indirect (node_inode n) = ind0 -> (SLOTS < b1)%nat -> (ind0 <> 0 -> in_data sb ind0 /\ lists_tail (vblk a ind0) zs) ->
  pre ++ free_list sb (with_used u a) = drop (direct_stop - k0) F ->
  exists u' pre' block, aruns (zone_or_new sb RW ind0) (mkNS n sh (with_used u a)) pre
      (Ok (ind, extra)) (mkNS n sh (with_used u' a)) pre' /\
    aruns (block_or_new ind extra) (mkNS ind_node sh (with_used u' a)) pre' (Ok block) (mkNS ind_node sh (with_used u' a)) pre' /\
    pre' ++ free_list sb (with_used u' a) = drop (direct_stop - k0) new_zones /\ lists_tail block (grown direct_stop) /\
    (extra = false -> block = vblk a ind).
Proof.
  intros Hi Hs Hold Hp. pose proof (gr_free _ _ _ _ _ G) as HF. unfold zones_taken in HF.
  pose proof (start_block_le _ _ _ _ _ G) as Hk. pose proof (gr_ind _ _ _ _ _ G) as Hk0.
  destruct (zone_or_new_runs sb now uid gid n sh a u pre ind0 _ Hp) as (u' & pre' & Hr & Hp').
  { intros H0'. unfold fresh_ind in HF. rewrite H0' in HF. replace (SLOTS <? b1)%nat with true in HF by lia. cbn [andb Z.eqb] in HF.
    specialize (Hk0 H0'). unfold direct_stop. rewrite drop_nth_cons by lia. done. }
  exists u', pre'. unfold ind1, newz, ind_node, fresh_ind in *. replace (SLOTS <? b1)%nat with true in * by lia.
  rewrite andb_true_r in *. destruct (Z.eqb_spec ind0 0) as [Hz|Hz].
  - exists (replicate B 0). assert (direct_stop = SLOTS) as Hd by (unfold direct_stop; specialize (Hk0 Hz); lia).
    rewrite Hd in *. rewrite drop_nth_cons in Hr, Hp' by (specialize (Hk0 Hz); lia). cbn [hd tl] in Hr, Hp'. split_and!.
    + exact Hr.
    + apply aruns_ret.
    + rewrite Hp', drop_app_ge by (rewrite length_take; lia). rewrite length_take, drop_drop. f_equal. lia.
    + apply lists_tail_zero. rewrite (grow_length _ _ _ _ _ G) by lia. specialize (Hk0 Hz). lia.
    + done.
  - destruct (Hold Hz) as [Hin Ht]. exists (vblk a ind0). split_and!; [done| |done|by apply lists_tail_old|done].
    unfold block_or_new. apply aruns_node, nruns_dev. apply runs_map_ok, (runs_read sb ind0 (with_used u' a)). done.
Qed.

Lemma write_tail_runs nd u pre block dirty :
  in_data sb ind -> (SLOTS < b1)%nat -> length block = B -> (dirty = false -> block = vblk a ind) ->
  aruns (write_if_dirty dirty ind block) (mkNS nd sh (with_used u a)) pre (Ok tt) (mkNS nd sh (with_used u (ind_vol block))) pre.
Proof.
  intros Hin Hs Hl Hd. unfold ind_vol. replace (SLOTS <? b1)%nat with true by lia. destruct dirty; cbn [write_if_dirty].
  - apply aruns_node, nruns_dev, runs_map_ok, (runs_write sb ind block (with_used u a)); done.
  - eapply aruns_eq; [|apply aruns_ret]. rewrite (Hd eq_refl). split_and!; try done. intros z Hz. cbn [with_used set_blk vblk].
    by destruct (Z.eqb_spec z ind) as [->|].
Qed.
End write_spec.

Section write_plan.
Context {D : Type} `{ReliableDev D} (sb : Superblock) (now uid gid : Z).
Context (zs F : list Z) (ind0 : Z) (o e : nat) (G : grows zs F ind0 o e).
Context (n : TFSVfsNode) (sh : TwilightFsShared) (a : Volume).
Abbreviation B := TfsNode.BLOCK_SIZE.
Abbreviation SLOTS := DIRECT_SLOT_COUNT.
Abbreviation k0 := (length zs).
Abbreviation b1 := (blocks_end e).
Abbreviation after := (zones_after zs F ind0 e).
Abbreviation grown := (grow_to zs F ind0 e).
Abbreviation P := (written_at zs F ind0 o e).
Abbreviation RW := MountReadWrite.
Abbreviation aruns := (aruns (D := D) sb now uid gid).
Abbreviation ind := (ind1 zs F ind0 e).
Abbreviation stop := (direct_stop o e).
Abbreviation ind_node := (ind_node zs F ind0 e n).
Abbreviation ind_vol := (ind_vol zs F ind0 e a).
Context (Hind : indirect (node_inode n) = ind0) (HF : Forall (in_data sb) F).
Context (Hold : ind0 <> 0 -> in_data sb ind0 /\ lists_tail (vblk a ind0) zs).

Lemma ind_in_data : (SLOTS < b1)%nat -> in_data sb ind.
Proof.
  intros Hs. unfold ind1, fresh_ind. replace (SLOTS <? b1)%nat with true by lia. rewrite andb_true_r.
  destruct (Z.eqb_spec ind0 0) as [Hz|Hz]; [|by apply Hold].
  pose proof (gr_free _ _ _ _ _ G) as Hf. pose proof (gr_ind _ _ _ _ _ G Hz). unfold zones_taken, fresh_ind in Hf.
  rewrite Hz in Hf. replace (SLOTS <? b1)%nat with true in Hf by lia. cbn [Z.eqb andb] in Hf.
  destruct (nth_lookup_or_length F (SLOTS - k0) 0) as [Hl|]; [|lia]. exact (proj1 (Forall_lookup _ _) HF _ _ Hl).
Qed.

Lemma single_part_runs u pre :
  pre ++ free_list sb (with_used u a) = drop (stop - k0) F ->
  exists u' pre' block, aruns (single_part sb RW (P stop)) (mkNS n sh (with_used u a)) pre (Ok (P b1))
      (mkNS ind_node sh (with_used u' (ind_vol block))) pre' /\
    pre' ++ free_list sb (with_used u' a) = drop (zones_taken zs ind0 e) F /\
    ((SLOTS < b1)%nat -> lists_tail block after).
Proof.
  intros Hp. unfold single_part. rewrite (P_rem _ _ _ _ _ G). pose proof (start_block_lt _ _ _ _ _ G) as Hlt.
  destruct (Nat.leb_spec b1 stop) as [Hle|Hgt].
  { assert (b1 <= SLOTS)%nat as Hs by (unfold direct_stop in *; lia). exists u, pre, [].
    replace stop with b1 in * by (unfold direct_stop in *; lia).
    unfold TfsWriteSpec.ind_node, TfsWriteSpec.ind_vol, zones_taken, fresh_ind in *.
    replace (SLOTS <? b1)%nat with false by lia. rewrite andb_false_r, Nat.add_0_r. split_and!; [apply aruns_ret|done|lia]. }
  assert (SLOTS < b1)%nat as Hs by (unfold direct_stop in *; lia).
  destruct (ind_block_runs sb now uid gid zs F ind0 o e G n sh a u pre Hind Hs Hold Hp)
    as (u1 & pre1 & block1 & Hr1 & Hb1 & Hp1 & Ht1 & Hf1).
  destruct (write_single_runs sb now uid gid zs F ind0 o e G ind_node sh a ZONE_ENTRIES stop u1 pre1 block1 (fresh_ind ind0 e))
    as (u2 & pre2 & block2 & dirty & Hr2 & Hp2 & Ht2 & Hd2); [unfold direct_stop; lia..| |done|done|].
  { pose proof (gr_end _ _ _ _ _ G). unfold IND_CAP, ZONE_ENTRIES, direct_stop in *. lia. }
  exists u2, pre2, block2. split_and!; [|by rewrite Hp2, (drop_newz _ _ _ _ _ G) by lia|done].
  eapply aruns_bind; [apply aruns_inode|]. cbn [ns_node]. rewrite Hind. eapply aruns_bind; [exact Hr1|]. cbn beta iota.
  eapply aruns_bind; [|eapply aruns_bind; [exact Hb1|eapply aruns_bind; [exact Hr2|eapply aruns_bind; [|apply aruns_ret]]]].
  - unfold TfsWriteSpec.ind_node. destruct (fresh_ind ind0 e); [apply aruns_node, nruns_set_inode|apply aruns_ret].
  - apply write_tail_runs; [by apply ind_in_data|done|apply Ht2|]. intros Hd. destruct (Hd2 Hd) as [Hx ->]. by apply Hf1.
Qed.

(** The plan of a write: one operation per block, and the zones of the file after it. *)
Lemma plan_node_write_runs u pre :
  direct_slots (node_inode n) = direct_of zs ->
  pre ++ free_list sb (with_used u a) = F ->
  exists u' pre' block, aruns (plan_node_write sb RW (Z.of_nat o) (e - o)) (mkNS n sh (with_used u a)) pre
      (Ok (direct_of after, P b1)) (mkNS ind_node sh (with_used u' (ind_vol block))) pre' /\
    pre' ++ free_list sb (with_used u' a) = drop (zones_taken zs ind0 e) F /\
    ((SLOTS < b1)%nat -> lists_tail block after).
Proof.
  intros Hd Hp. pose proof (start_block_lt _ _ _ _ _ G) as Hlt. pose proof (start_block_le _ _ _ _ _ G) as Hle.
  destruct (write_direct_runs sb now uid gid zs F ind0 o e G n sh a SLOTS (o / B)%nat u pre)
    as (u1 & pre1 & Hr1 & Hp1); [unfold direct_stop; lia..| |].
  { by replace (o / B - k0)%nat with 0%nat by lia. }
  destruct (single_part_runs u1 pre1 Hp1) as (u2 & pre2 & block & Hr2 & Hp2 & Ht2).
  exists u2, pre2, block. split_and!; [|done..]. unfold plan_node_write. eapply aruns_bind; [apply aruns_inode|].
  cbn [ns_node]. rewrite Hd. eapply aruns_bind.
  - rewrite (grow_old zs F ind0 e (o / B) Hle) in Hr1. unfold written_at at 1 in Hr1.
    rewrite (prog_start after k0 o e (gr_range _ _ _ _ _ G)) in Hr1. exact Hr1.
  - cbn [fst snd]. eapply aruns_bind; [exact Hr2|]. eapply aruns_bind.
    + unfold double_part. rewrite (P_rem _ _ _ _ _ G). replace (b1 <=? b1)%nat with true by lia. apply aruns_ret.
    + replace (direct_of (grown stop)) with (direct_of after); [apply aruns_ret|].
      apply direct_of_ext. intros b Hb. symmetry. apply (grow_direct _ _ _ _ _ G); unfold direct_stop; lia.
Qed.
End write_plan.

(** ** Running the plan *)

Section run_ops.
Context {D : Type} `{ReliableDev D} (sb : Superblock) (now uid gid : Z) (data : list Z).
Abbreviation B := TfsNode.BLOCK_SIZE.
Abbreviation nruns := (nruns (D := D) sb now uid gid).
Abbreviation RW := MountReadWrite.
Implicit Types (op : NodeOp) (a : Volume).

(** What one operation leaves in its block. *)
Definition op_result (op : NodeOp) (old : list Z) : list Z :=
  store (n_block_off op) (load (n_data op) (n_len op) data) (if n_new op then replicate B 0 else old).
Definition apply_node_op (a : Volume) (op : NodeOp) : Volume := set_blk (n_zone op) (op_result op (vblk a (n_zone op))) a.

Record op_ok (a : Volume) (op : NodeOp) : Prop := {
  ok_zone : in_data sb (n_zone op);
  ok_data : (n_data op + n_len op <= length data)%nat;
  ok_block : (n_block_off op + n_len op <= B)%nat;
  ok_old : n_new op = false -> length (vblk a (n_zone op)) = B;
}.

Lemma op_result_length a op : op_ok a op -> length (op_result op (vblk a (n_zone op))) = B.
Proof.
  intros [_ Hd Hb Ho]. unfold op_result.
  assert (Hl : length (if n_new op then replicate B 0 else vblk a (n_zone op)) = B).
  { destruct (n_new op); [apply length_replicate|auto]. }
  rewrite store_length; [done|]. rewrite load_length by done. lia.
Qed.

Lemma op_result_full op old :
  n_len op = B -> n_block_off op = 0%nat -> (n_data op + n_len op <= length data)%nat ->
  (n_new op = false -> length old = B) -> op_result op old = load (n_data op) B data.
Proof.
  intros Hl Ho Hd Hold. unfold op_result. rewrite Hl, Ho in *. rewrite store_all; [done|].
  rewrite load_length by done. destruct (n_new op); [by rewrite length_replicate|by rewrite Hold].
Qed.

Lemma op_ok_apply a op op' : op_ok a op -> op_ok a op' -> op_ok (apply_node_op a op') op.
Proof.
  intros [H1 H2 H3 H4] Ho'. split; [done..|]. intros Hn. cbn [apply_node_op set_blk vblk].
  destruct (Z.eqb_spec (n_zone op) (n_zone op')); [by apply op_result_length|auto].
Qed.

Lemma ops_ok_foldl l' : forall l a, Forall (op_ok a) l -> Forall (op_ok a) l' -> Forall (op_ok (foldl apply_node_op a l)) l'.
Proof.
  induction l as [|op l IH]; intros a Hl Hl'; [done|]. apply Forall_cons in Hl as [Ho Hl]. cbn [foldl].
  apply IH; (eapply Forall_impl; [eassumption|]); intros op1 Ho1; by apply op_ok_apply.
Qed.

Lemma node_op_single_runs n sh a op :
  op_ok a op -> nruns (node_op_single data op) (mkNS n sh a) (Ok tt) (mkNS n sh (apply_node_op a op)).
Proof.
  intros Ho. pose proof (op_result_length a op Ho) as Hl. destruct Ho as [Hz Hd Hb Hold]. unfold node_op_single.
  destruct ((n_len op =? B)%nat && (n_block_off op =? 0)%nat) eqn:Hf.
  - apply nruns_dev, runs_map_ok. unfold apply_node_op in *. rewrite op_result_full in * by (auto; lia). by apply runs_write.
  - apply (nruns_bind _ _ _ _ _ _ _ (if n_new op then replicate B 0 else vblk a (n_zone op)) (mkNS n sh a)).
    + destruct (n_new op); [apply nruns_ret|]. by apply nruns_dev, runs_map_ok, runs_read.
    + apply nruns_dev, runs_map_ok. by apply runs_write.
Qed.

(** A run of whole blocks in consecutive zones: one device write. *)
Lemma run_after_chain op rest a :
  op_ok a op -> Forall (op_ok a) rest -> (0 < node_run_after op rest)%nat ->
  n_len op = B /\ n_block_off op = 0%nat.
Proof. destruct rest as [|op' rest]; cbn [node_run_after]; [lia|]. intros. case_match; lia. Qed.

Lemma in_data_succ d z : vol_geom sb d -> in_data sb z -> u32 (z + 1) = z + 1.
Proof. intros G Hz. pose proof (vg_width _ _ G). pose proof (vg_cover _ _ G). pose proof (data_above sb d z G Hz). unfold u32. apply Z.mod_small. unfold in_data in Hz. lia. Qed.

Lemma set_blks_cons z k x a :
  vol_eq sb (set_blks z (S k) (load x (S k * B) data) a)
    (set_blks (z + 1) k (load (x + B) (k * B) data) (set_blk z (load x B data) a)).
Proof.
  split_and!; try done. intros y Hy. cbn [set_blks set_blk vblk]. change FS_BLOCK_SIZE with B.
  destruct (Z.eqb_spec y z) as [->|Hne].
  - replace ((z <=? z) && _) with true by lia. replace ((z + 1 <=? z) && _) with false by lia.
    rewrite Z.sub_diag. change (Z.to_nat 0 * B)%nat with 0%nat. rewrite load_load by (cbn [Nat.mul]; lia). f_equal. lia.
  - replace (y <? z + Z.of_nat (S k)) with (y <? z + 1 + Z.of_nat k) by lia.
    replace (z <=? y) with (z + 1 <=? y) by lia. destruct (_ && _) eqn:Hin; [|done].
    assert (Hm : (Z.to_nat (y - z) = S (Z.to_nat (y - (z + 1))))%nat) by lia.
    assert (Z.to_nat (y - (z + 1)) < k)%nat by lia. set (j := Z.to_nat (y - (z + 1))) in *. rewrite Hm.
    rewrite !load_load by nia. f_equal. lia.
Qed.

Lemma set_blks_nil z buf a : vol_eq sb (set_blks z 0 buf a) a.
Proof. split_and!; try done. intros y Hy. cbn [set_blks vblk]. by replace (_ && _) with false by lia. Qed.

Lemma vol_eq_trans a1 a2 a3 : vol_eq sb a1 a2 -> vol_eq sb a2 a3 -> vol_eq sb a1 a3.
Proof.
  intros (A1 & A2 & A3 & A4) (Q1 & Q2 & Q3 & Q4).
  split_and!; intros x Hx; rewrite ?A1, ?A2, ?A3, ?A4 by done; auto.
Qed.

Lemma run_vol_eq d : vol_geom sb d -> forall rest op a,
  op_ok a op -> Forall (op_ok a) rest -> n_len op = B -> n_block_off op = 0%nat ->
  let k := node_run_after op rest in
  vol_eq sb (set_blks (n_zone op) (S k) (load (n_data op) (S k * B) data) a) (foldl apply_node_op a (op :: take k rest)) /\
  in_data sb (n_zone op + Z.of_nat k) /\ (n_data op + S k * B <= length data)%nat.
Proof.
  intros G. induction rest as [|op' rest IH]; intros op a Ho Hr Hlen Hoff k; pose proof (ok_data _ _ Ho) as Hd;
    pose proof (ok_zone _ _ Ho) as Hz; rewrite Hlen in Hd;
    assert (Hop : apply_node_op a op = set_blk (n_zone op) (load (n_data op) B data) a)
      by (unfold apply_node_op; rewrite op_result_full; [done..|by rewrite Hlen|apply Ho]).
  - subst k. cbn [node_run_after take foldl]. rewrite Hop, Z.add_0_r. split_and!; [|done|lia].
    eapply vol_eq_trans; [apply set_blks_cons|apply set_blks_nil].
  - subst k. cbn [node_run_after]. apply Forall_cons in Hr as [Ho' Hr]. destruct (_ && _) eqn:Hc.
    + rewrite (in_data_succ d _ G Hz) in Hc. cbn [take].
      destruct (IH op' (apply_node_op a op)) as (He & Hin & Hl); [by apply op_ok_apply| |lia..|].
      { eapply Forall_impl; [exact Hr|]. intros op1 Ho1. by apply op_ok_apply. }
      set (k := node_run_after op' rest) in *. split_and!.
      * cbn [foldl] in He |- *. rewrite Hop in *. eapply vol_eq_trans; [apply set_blks_cons|].
        replace (n_zone op + 1) with (n_zone op') by lia. by replace (n_data op + B)%nat with (n_data op') by lia.
      * by replace (n_zone op + Z.of_nat (S k)) with (n_zone op' + Z.of_nat k) by lia.
      * assert (n_data op' = n_data op + B)%nat by lia. cbn [Nat.mul] in *. lia.
    + cbn [take foldl]. rewrite Hop, Z.add_0_r. split_and!; [|done|lia].
      eapply vol_eq_trans; [apply set_blks_cons|apply set_blks_nil].
Qed.

Lemma ctx_write_blocks_runs d n sh a z k buf :
  vol_geom sb d -> in_data sb z -> in_data sb (z + Z.of_nat k) -> length buf = (S k * B)%nat ->
  nruns (on_fs (ctx_write_blocks sb RW z buf)) (mkNS n sh a) (Ok tt) (mkNS n sh (set_blks z (S k) buf a)).
Proof.
  intros G Hz Hl Hb. unfold ctx_write_blocks. cbn [is_read_only]. rewrite (vg_bs _ _ G), Hb.
  change (2048 =? 0) with false. rewrite Nat2Z.inj_mul. change (Z.of_nat B) with 2048. rewrite Z_mod_mult.
  change (negb (0 =? 0)) with false. cbn iota. apply nruns_fs_dev, runs_map_ok, runs_write_blocks; [done| |lia|done].
  by replace (z + Z.of_nat (S k) - 1) with (z + Z.of_nat k) by lia.
Qed.

(** Batching consecutive blocks changes nothing: the plan leaves what its operations
    leave one by one. *)
Lemma run_node_ops_runs n sh : forall fuel ops a,
  (length ops <= fuel)%nat -> Forall (op_ok a) ops ->
  nruns (run_node_ops sb RW fuel data ops) (mkNS n sh a) (Ok tt) (mkNS n sh (foldl apply_node_op a ops)).
Proof.
  induction fuel as [|fuel IH]; intros [|op rest] a Hf Ho; cbn [length] in Hf; try lia; try apply nruns_ret.
  cbn [run_node_ops]. apply Forall_cons in Ho as [Ho Hr].
  destruct (node_run_after op rest) as [|k] eqn:Hk.
  - eapply nruns_bind; [by apply node_op_single_runs|]. cbn [foldl]. apply IH; [lia|].
    apply (ops_ok_foldl rest [op]); [by constructor|done].
  - intros d Hd. pose proof (proj1 Hd) as Gd.
    destruct (run_after_chain op rest a Ho Hr ltac:(lia)) as [Hlen Hoff].
    destruct (run_vol_eq d Gd rest op a Ho Hr Hlen Hoff) as (He & Hin & Hdl). rewrite Hk in *.
    revert Hd. eapply (nruns_bind sb now uid gid _ _ _ tt (mkNS n sh (foldl apply_node_op a (op :: take (S k) rest)))).
    + eapply nruns_eq; [exact He|]. eapply ctx_write_blocks_runs; [exact Gd|apply Ho|done|]. by rewrite load_length.
    + replace (foldl apply_node_op a (op :: rest)) with (foldl apply_node_op (foldl apply_node_op a (op :: take (S k) rest)) (drop (S k) rest))
        by (rewrite <- foldl_app, <- app_comm_cons, take_drop; done).
      apply IH; [rewrite length_drop; lia|]. apply ops_ok_foldl; [apply Forall_cons; split; [done|by apply Forall_take]|by apply Forall_drop].
Qed.
End run_ops.
