(* ===== verification/TfsContents.v ===== *)
(** * TwilightFS open files: contents

    The bytes of an open file on a volume, and what [node_read], [node_write] and
    [node_truncate] do to them, on every reliable device: for an unencrypted file of at
    most 517 blocks, written without leaving a gap. *)

From Stdlib Require Import Ascii ZifyBool.
From S2P Require Import Prelude Bytes Text BlockDev BlockDevSpec TfsBlock TfsAlloc TfsInode TfsCache TfsDir TfsFile TfsPath TfsNode TfsVolume TfsZones TfsNodeSpec TfsWriteSpec.
Open Scope twilight_scope.

(** ** The inode *)

Lemma list_six {A} (l : list A) : length l = 6%nat -> exists a b c d e f, l = [a; b; c; d; e; f].
Proof. destruct l as [|a [|b [|c [|d [|e [|f [|]]]]]]]; try done. intros _. by exists a, b, c, d, e, f. Qed.

Lemma direct_slots_set l i : length l = DIRECT_SLOT_COUNT -> length (direct i) = DIRECT_SLOT_COUNT -> direct_slots (set_slots 0 l i) = l.
Proof.
  intros Hl Hd. apply list_six in Hl as (a & b & c & d & e & f & ->). apply list_six in Hd as (a' & b' & c' & d' & e' & f' & Hd).
  unfold direct_slots. cbn [set_slots fmap list_fmap seq DIRECT_SLOT_COUNT]. unfold direct_slot_set. cbn. rewrite Hd. cbn.
  by destruct (Z.eqb_spec a 0) as [->|], (Z.eqb_spec b 0) as [->|], (Z.eqb_spec c 0) as [->|],
    (Z.eqb_spec d 0) as [->|], (Z.eqb_spec e 0) as [->|], (Z.eqb_spec f 0) as [->|].
Qed.

(** [set_slots] changes the direct slots alone. *)
Lemma set_slots_fields k l i : exists ds, set_slots k l i = with_direct ds i.
Proof.
  revert k i. induction l as [|z l IH]; intros k i; cbn [set_slots]; [exists (direct i); by destruct i|].
  destruct (IH (S k) (direct_slot_set k z i)) as [ds ->]. unfold direct_slot_set. case_match; by exists ds.
Qed.

Lemma direct_slot_set_ok k z i : inode_ok i -> in_width 32 z -> inode_ok (direct_slot_set k z i).
Proof.
  intros Hi Hz. unfold direct_slot_set. case_match; [done|]. unfold inode_ok in *. cbn.
  destruct Hi as (?&?&?&?&?&?&?&?&?&?&?&?&?&Hl&He&?). rewrite length_insert. split_and!; try tauto.
  apply Forall_insert; [done|]. unfold extent_ok. case_match; cbn; [by unfold in_width|]. split; [done|by unfold in_width].
Qed.

Lemma set_slots_ok l : forall k i, inode_ok i -> Forall (in_width 32) l -> inode_ok (set_slots k l i).
Proof.
  induction l as [|z l IH]; intros k i Hi Hl; [done|]. apply Forall_cons in Hl as [Hz Hl]. apply IH; [|done].
  by apply direct_slot_set_ok.
Qed.

Lemma with_size_ok k i : inode_ok i -> in_width 64 k -> inode_ok (with_size k i).
Proof. unfold inode_ok. cbn. tauto. Qed.

Lemma with_indirect_ok z i : inode_ok i -> in_width 32 z -> inode_ok (with_indirect z i).
Proof. unfold inode_ok. cbn. tauto. Qed.

(** ** Applying a plan to the blocks *)

Section apply.
Context (data : list Z).
Abbreviation B := TfsNode.BLOCK_SIZE.
Abbreviation run := (foldl (apply_node_op data)).

Lemma foldl_apply_fields ops a :
  vzused (run a ops) = vzused a /\ viused (run a ops) = viused a /\ vino (run a ops) = vino a.
Proof. revert a. induction ops as [|op ops IH]; intros a; cbn [foldl]; [done|]. destruct (IH (apply_node_op data a op)) as (-> & -> & ->). done. Qed.

Lemma foldl_apply_other ops z a : z ∉ n_zone <$> ops -> vblk (run a ops) z = vblk a z.
Proof.
  revert a. induction ops as [|op ops IH]; intros a Hz; cbn [foldl]; [done|]. cbn in Hz. apply not_elem_of_cons in Hz as [Hne Hz].
  rewrite IH by done. cbn. by replace (z =? n_zone op) with false by lia.
Qed.

Lemma foldl_apply_at ops op a : NoDup (n_zone <$> ops) -> op ∈ ops ->
  vblk (run a ops) (n_zone op) = op_result data op (vblk a (n_zone op)).
Proof.
  revert a. induction ops as [|op' ops IH]; intros a Hnd Hin; cbn [foldl]; [by apply not_elem_of_nil in Hin|].
  cbn in Hnd. apply NoDup_cons in Hnd as [Hni Hnd]. apply elem_of_cons in Hin as [->|Hin].
  - rewrite foldl_apply_other by done. cbn. by rewrite Z.eqb_refl.
  - rewrite IH by done. cbn. replace (n_zone op =? n_zone op') with false; [done|].
    symmetry. apply Z.eqb_neq. intros He. apply Hni. rewrite <- He. apply list_elem_of_fmap. eauto.
Qed.
End apply.

(** ** Bytes of blocks *)

Lemma concat_lookup (n : nat) (ls : list (list Z)) p :
  (0 < n)%nat -> Forall (fun b => length b = n) ls -> concat ls !! p = b ← ls !! (p / n)%nat; b !! (p mod n)%nat.
Proof.
  intros Hn Hls. pose proof (Nat.div_mod_eq p n). pose proof (Nat.mod_upper_bound p n ltac:(lia)).
  destruct (ls !! (p / n)%nat) as [b|] eqn:Hb; cbn.
  - destruct (concat_blocks_split n ls _ b Hls Hb) as (l1 & l2 & -> & H1 & Hl & _).
    rewrite lookup_app_r by lia. rewrite lookup_app_l by lia. f_equal. lia.
  - apply lookup_ge_None in Hb. apply lookup_ge_None. rewrite (concat_blocks_length n) by done. nia.
Qed.

Lemma overlay_lookup o src d p : (o <= length d)%nat ->
  overlay o src d !! p = if (o <=? p)%nat && (p <? o + length src)%nat then src !! (p - o)%nat else d !! p.
Proof.
  intros Ho. unfold overlay. rewrite take_app_le by done.
  destruct (decide (p < o)%nat).
  - rewrite lookup_app_l, lookup_take_lt by (rewrite ?length_take; lia). by replace (o <=? p)%nat with false by lia.
  - rewrite lookup_app_r by (rewrite length_take; lia). rewrite length_take, Nat.min_l by lia.
    replace (o <=? p)%nat with true by lia. cbn [andb]. destruct (Nat.ltb_spec p (o + length src)).
    + by rewrite lookup_app_l by lia.
    + rewrite lookup_app_r, lookup_drop by lia. f_equal. lia.
Qed.

Lemma B_gt : (0 < TfsNode.BLOCK_SIZE)%nat.
Proof. pose proof B_pos. lia. Qed.

Section plan_bytes.
Context (data zsF : list Z) (k0 o e : nat) (Hoe : (o < e)%nat) (Hdata : length data = (e - o)%nat).
Abbreviation B := TfsNode.BLOCK_SIZE.
Abbreviation op := (op_at zsF k0 o e).

Lemma op_at_bounds b : (o / B <= b)%nat -> (b * B < e)%nat ->
  (n_data (op b) + n_len (op b) <= length data)%nat /\ (n_block_off (op b) + n_len (op b) <= B)%nat.
Proof.
  intros Hb He. destruct (pos_at_in o e b Hb He Hoe) as (H1 & H2 & H3 & H4). cbn [op_at n_data n_len n_block_off].
  rewrite Hdata, H4. cbn [Nat.mul] in *. lia.
Qed.

(** A byte of a block after its operation. *)
Lemma op_byte b old r : (o / B <= b)%nat -> (b * B < e)%nat -> (r < B)%nat -> (n_new (op b) = false -> length old = B) ->
  op_result data (op b) old !! r =
    if (o <=? b * B + r)%nat && (b * B + r <? e)%nat then data !! (b * B + r - o)%nat
    else (if (k0 <=? b)%nat then replicate B 0 else old) !! r.
Proof.
  intros Hb He Hr Hold. destruct (op_at_bounds b Hb He) as [Hd Ho].
  destruct (pos_at_in o e b Hb He Hoe) as (H1 & H2 & H3 & H4). unfold op_result.
  assert (Hl : length (if n_new (op b) then replicate B 0 else old) = B).
  { destruct (n_new (op b)); [apply length_replicate|auto]. }
  rewrite store_lookup by (rewrite load_length by done; lia). rewrite load_length by done.
  cbn [op_at n_data n_len n_block_off n_new] in *. rewrite H4 in *. cbn [Nat.mul] in *.
  assert (Hp : (o <= b * B + r)%nat <-> (pos_at o e b - b * B <= r)%nat).
  { unfold pos_at in *. revert H1. generalize (b * B)%nat. lia. }
  destruct (Nat.leb_spec o (b * B + r)), (Nat.leb_spec (pos_at o e b - b * B) r); cbn [andb]; try (exfalso; lia); [|done].
  replace (r <? _)%nat with (b * B + r <? e)%nat by (revert H1; generalize (b * B)%nat; lia).
  destruct (Nat.ltb_spec (b * B + r) e); [|done]. unfold load. rewrite lookup_take_lt, lookup_drop by lia. f_equal. lia.
Qed.
End plan_bytes.

(** ** Files *)

Section contents.
Context {D : Type} `{ReliableDev D} (sb : Superblock).
Abbreviation B := TfsNode.BLOCK_SIZE.
Abbreviation SLOTS := DIRECT_SLOT_COUNT.

(** The inode [i] describes an unencrypted file of the zones [zs] on the volume. *)
Record file_ok (a : Volume) (i : Inode) (zs : list Z) : Prop := {
  fo_inode : inode_ok i;
  fo_plain : is_encrypted i = false;
  fo_inline : Z.land (flags i) IFLAG_INLINE_DATA = 0;
  fo_double : double_indirect i = 0;
  fo_len : (length zs <= SLOTS + IND_CAP)%nat;
  fo_slots : direct_slots i = direct_of zs;
  fo_direct : indirect i = 0 -> (length zs <= SLOTS)%nat;
  fo_ind : indirect i <> 0 ->
    in_data sb (indirect i) /\ vzused a (indirect i) = true /\ (indirect i ∉ zs) /\ lists_tail (vblk a (indirect i)) zs;
  fo_nodup : NoDup zs;
  fo_zs : forall z, z ∈ zs -> in_data sb z /\ vzused a z = true /\ length (vblk a z) = B;
  fo_size : 0 <= isize i <= Z.of_nat (length zs * B);
}.

Definition file_contents (a : Volume) (i : Inode) (zs : list Z) : list Z :=
  take (Z.to_nat (isize i)) (concat (vblk a <$> zs)).

Lemma data_positive d z : vol_geom sb d -> in_data sb z -> 0 < z /\ in_width 32 z.
Proof.
  intros G Hz. destruct (data_above sb d z G Hz) as [Hr Ha]. pose proof (vg_width _ _ G). pose proof (vg_cover _ _ G).
  unfold in_data, in_width in *. pose proof (vg_imap _ _ G). pose proof (vg_zmap _ _ G). pose proof (vg_table _ _ G).
  pose proof (vg_inodes _ _ G). assert (0 <= (ninodes sb - 1) / INODES_PER_BLOCK) by (apply Z.div_pos; [lia|done]).
  unfold inode_table_start in *. lia.
Qed.

Lemma free_not_used a z : vzused a z = true -> z ∉ free_list sb a.
Proof. intros Hu Hz. apply free_list_spec in Hz as [_ Hf]. congruence. Qed.

Lemma old_blocks a i zs : file_ok a i zs -> Forall (fun b => length b = B) (vblk a <$> zs).
Proof. intros Hf. apply Forall_fmap, Forall_forall. intros z Hz. by apply (fo_zs _ _ _ Hf). Qed.

Lemma size_of_contents a i zs : file_ok a i zs -> length (file_contents a i zs) = Z.to_nat (isize i).
Proof.
  intros Hf. unfold file_contents. pose proof (fo_size _ _ _ Hf).
  rewrite length_take, (concat_blocks_length B), length_fmap by by eapply old_blocks. lia.
Qed.

(** Room for the write makes the plan's preconditions hold. *)
Lemma file_grows a i zs d o e :
  file_ok a i zs -> vol_geom sb d -> (o < e)%nat -> (o <= Z.to_nat (isize i))%nat -> (e <= (SLOTS + IND_CAP) * B)%nat ->
  (zones_taken zs (indirect i) e <= length (free_list sb a))%nat -> grows zs (free_list sb a) (indirect i) o e.
Proof.
  intros Hf G Hoe Ho He Hfree. pose proof (fo_size _ _ _ Hf). split; [apply Hf..| |done|lia| |done|].
  - apply Forall_forall. intros z Hz. destruct (fo_zs _ _ _ Hf z Hz) as [Hd _]. pose proof (data_positive d z G Hd). lia.
  - apply Nat.nlt_ge. intros Hlt. apply blocks_end_spec in Hlt. lia.
  - apply Forall_forall. intros z Hz. apply free_list_spec in Hz as [Hz _]. by apply (data_positive d).
Qed.
End contents.

(** ** The file after a write *)

Section write_result.
Context {D : Type} `{ReliableDev D} (sb : Superblock) (a : Volume) (i : Inode) (zs : list Z) (o e : nat).
Abbreviation B := TfsNode.BLOCK_SIZE.
Abbreviation SLOTS := DIRECT_SLOT_COUNT.
Abbreviation F := (free_list sb a).
Abbreviation k0 := (length zs).
Abbreviation b1 := (blocks_end e).
Abbreviation after := (zones_after zs F (indirect i) e).
Abbreviation ind := (ind1 zs F (indirect i) e).
Abbreviation taken := (zones_taken zs (indirect i) e).
Context (Hok : file_ok sb a i zs) (G : grows zs F (indirect i) o e).

Lemma zs_disjoint z : z ∈ zs -> z ∉ F.
Proof. intros Hz. apply free_not_used. by apply (fo_zs _ _ _ _ Hok). Qed.

Lemma ind_fresh : (ind <> 0 \/ (SLOTS < b1)%nat) -> (ind ∉ after) /\ in_data sb ind /\ (ind ∉ drop taken F).
Proof.
  intros Hi. destruct (after_nodup _ _ _ _ _ G (free_list_NoDup sb a) (fo_nodup _ _ _ _ Hok) zs_disjoint) as (_ & Hf & Hn).
  unfold ind1 in *. destruct (fresh_ind (indirect i) e) eqn:Hfi.
  - split; [by apply Hf|]. assert (Hin : nth (SLOTS - k0) F 0 ∈ take taken F).
    { rewrite (taken_perm _ _ _ _ _ G), Hfi. unfold ind1. rewrite Hfi. by left. }
    split; [apply take_elem, free_list_spec in Hin as [? _]; done|]. by apply taken_nodup; [apply free_list_NoDup|].
  - assert (Hz : indirect i <> 0).
    { unfold fresh_ind in Hfi. destruct Hi; [done|]. destruct (Z.eqb_spec (indirect i) 0); [|done]. cbn [andb] in Hfi. lia. }
    destruct (fo_ind _ _ _ _ Hok Hz) as (Hd & Hu & Hzs & _). pose proof (free_not_used sb a _ Hu) as Hnf.
    split_and!; [by apply Hn|done|]. intros Hx. apply Hnf. rewrite <- (take_drop taken F). apply elem_of_app. by right.
Qed.

Lemma after_nth b : (b < Nat.max k0 b1)%nat -> after !! b = Some (nth b after 0).
Proof.
  intros Hb. destruct (nth_lookup_or_length after b 0) as [Hl|Hl]; [done|].
  unfold zones_after in Hl. rewrite (grow_length _ _ _ _ _ G) in Hl by done. lia.
Qed.

Lemma after_length : length after = Nat.max k0 b1.
Proof. unfold zones_after. by rewrite (grow_length _ _ _ _ _ G). Qed.

Lemma after_in b : (b < Nat.max k0 b1)%nat -> nth b after 0 ∈ after.
Proof. intros Hb. eapply list_elem_of_lookup_2. by apply after_nth. Qed.

Lemma after_NoDup : NoDup after.
Proof. by apply (after_nodup _ _ _ _ _ G (free_list_NoDup sb a) (fo_nodup _ _ _ _ Hok) zs_disjoint). Qed.

Lemma after_inj b c : (b < Nat.max k0 b1)%nat -> (c < Nat.max k0 b1)%nat -> nth b after 0 = nth c after 0 -> b = c.
Proof.
  intros Hb Hc He. apply (NoDup_lookup _ b c (nth b after 0) after_NoDup); [by apply after_nth|].
  rewrite He. by apply after_nth.
Qed.

Lemma old_block b : (b < k0)%nat -> length (vblk a (nth b zs 0)) = B.
Proof.
  intros Hb. apply (fo_zs _ _ _ _ Hok). destruct (nth_lookup_or_length zs b 0) as [Hl|]; [|lia].
  by eapply list_elem_of_lookup_2.
Qed.

Context (data : list Z) (Hdata : length data = (e - o)%nat).

Record wrote (a' : Volume) : Prop := {
  wr_at : forall b, (o / B <= b < b1)%nat ->
    vblk a' (nth b after 0) = op_result data (op_at after k0 o e b) (vblk a (nth b after 0));
  wr_ind : (SLOTS < b1)%nat -> lists_tail (vblk a' ind) after;
  wr_other : forall z, ((SLOTS < b1)%nat -> z <> ind) -> (forall b, (o / B <= b < b1)%nat -> z <> nth b after 0) ->
    vblk a' z = vblk a z;
  wr_used : forall z, in_data sb z -> vzused a' z = false <-> z ∈ drop taken F;
}.

(** The inode a write leaves. *)
Definition grown_inode : Inode :=
  let i1 := if fresh_ind (indirect i) e then with_indirect ind i else i in
  set_slots 0 (direct_of after) (if isize i1 <? Z.of_nat e then with_size (Z.of_nat e) i1 else i1).

Lemma block_in b : (b < b1)%nat -> (b * B < e)%nat.
Proof. apply blocks_end_spec. Qed.

(** The blocks of the file after the write. *)
Lemma wrote_block a' b : wrote a' -> (b < Nat.max k0 b1)%nat ->
  vblk a' (nth b after 0) = if (o / B <=? b)%nat && (b <? b1)%nat then op_result data (op_at after k0 o e b) (vblk a (nth b after 0))
                            else vblk a (nth b zs 0).
Proof.
  intros Hw Hb. destruct (Nat.leb_spec (o / B) b), (Nat.ltb_spec b b1); cbn [andb]; [by apply Hw| | |];
    pose proof (start_block_lt _ _ _ _ _ G); pose proof (start_block_le _ _ _ _ _ G).
  all: rewrite (wr_other _ Hw); [by rewrite after_old by lia| |].
  all: try (intros Hs Heq; destruct (ind_fresh (or_intror Hs)) as [Hni _]; apply Hni; rewrite <- Heq; by apply after_in).
  all: intros c Hc Heq; apply after_inj in Heq; lia.
Qed.

Lemma wrote_length a' b : wrote a' -> (b < Nat.max k0 b1)%nat -> length (vblk a' (nth b after 0)) = B.
Proof.
  intros Hw Hb. rewrite wrote_block by done. pose proof (gr_range _ _ _ _ _ G) as Hoe.
  destruct (Nat.leb_spec (o / B) b), (Nat.ltb_spec b b1); cbn [andb];
    [|pose proof (start_block_lt _ _ _ _ _ G); pose proof (start_block_le _ _ _ _ _ G); apply old_block; lia..].
  destruct (op_at_bounds data after k0 o e Hoe Hdata b) as [Hb1 Hb2]; [done|by apply block_in|].
  unfold op_result. rewrite store_length; [|rewrite load_length by done];
    (destruct (n_new _) eqn:Hn; [rewrite length_replicate; lia|cbn in Hn; rewrite after_old, old_block by lia; lia]).
Qed.

Lemma new_blocks a' : wrote a' -> Forall (fun b => length b = B) (vblk a' <$> after).
Proof.
  intros Hw. apply Forall_fmap, Forall_forall. intros z Hz. apply list_elem_of_lookup_1 in Hz as [c Hc].
  pose proof (lookup_lt_Some _ _ _ Hc) as Hlt. rewrite after_length in Hlt. rewrite after_nth in Hc by done.
  injection Hc as <-. by apply wrote_length.
Qed.

Lemma grown_size : isize grown_inode = Z.max (isize i) (Z.of_nat e).
Proof.
  unfold grown_inode. edestruct set_slots_fields as [ds ->]. cbn [with_direct isize].
  assert (Hs : isize (if fresh_ind (indirect i) e then with_indirect ind i else i) = isize i) by by destruct (fresh_ind _ _).
  rewrite Hs. destruct (Z.ltb_spec (isize i) (Z.of_nat e)); cbn [with_size isize]; [lia|rewrite Hs; lia].
Qed.

Lemma old_byte p : (p < k0 * B)%nat -> concat (vblk a <$> zs) !! p = vblk a (nth (p / B) zs 0) !! (p mod B)%nat.
Proof.
  intros Hp. assert (p / B < k0)%nat by (apply Nat.Div0.div_lt_upper_bound; lia).
  rewrite (concat_lookup B), list_lookup_fmap by (apply B_gt || by eapply old_blocks).
  destruct (nth_lookup_or_length zs (p / B) 0) as [->|]; [done|lia].
Qed.

(** The contents after the write: the data laid over the old contents. *)
Lemma contents_after a' : (o <= Z.to_nat (isize i))%nat -> wrote a' -> file_contents a' grown_inode after = overlay o data (file_contents a i zs).
Proof.
  intros Hstart Hw. apply list_eq. intros p. pose proof (gr_range _ _ _ _ _ G) as Hoe. pose proof (fo_size _ _ _ _ Hok) as Hsz.
  rewrite overlay_lookup by (rewrite (size_of_contents sb) by done; lia). rewrite Hdata. unfold file_contents. rewrite grown_size.
  replace (o + (e - o))%nat with e by lia.
  destruct (decide (p < Z.to_nat (Z.max (isize i) (Z.of_nat e)))%nat) as [Hp|Hp].
  2: { rewrite !lookup_take_ge by lia. by replace ((o <=? p)%nat && (p <? e)%nat) with false by lia. }
  rewrite lookup_take_lt by done.
  pose proof (Nat.div_mod_eq p B) as Hdm. pose proof (Nat.mod_upper_bound p B (B_pos)) as Hr.
  set (b := (p / B)%nat) in *. set (r := (p mod B)%nat) in *.
  assert (Hb : (b < Nat.max k0 b1)%nat).
  { destruct (decide (p < e)%nat); [assert (b < b1)%nat by (apply blocks_end_spec; lia); lia|].
    assert (b < k0)%nat by (apply Nat.Div0.div_lt_upper_bound; lia). lia. }
  rewrite (concat_lookup B) by (apply B_gt || by apply new_blocks).
  fold b r. rewrite list_lookup_fmap, after_nth by done. cbn [fmap option_fmap option_map mbind option_bind].
  rewrite wrote_block by done. destruct (Nat.leb_spec (o / B) b), (Nat.ltb_spec b b1); cbn [andb].
  - rewrite op_byte by (done || by apply block_in || (cbn; intros; rewrite after_old, old_block by lia; done)).
    replace (b * B + r)%nat with p by lia. destruct (_ && _) eqn:Hin; [done|].
    destruct (Nat.leb_spec k0 b) as [Hk|Hk].
    + exfalso. assert (k0 * B <= b * B)%nat by (by apply Nat.mul_le_mono_r). lia.
    + rewrite after_old by done. rewrite lookup_take_lt, old_byte by nia. done.
  - assert (e <= p)%nat by (apply Nat.nlt_ge; intros Hlt; assert (b < b1)%nat by (apply blocks_end_spec; lia); lia).
    replace ((o <=? p)%nat && (p <? e)%nat) with false by lia. rewrite lookup_take_lt, old_byte by lia. done.
  - assert (p < o)%nat by (assert (S b * B <= o / B * B)%nat by (by apply Nat.mul_le_mono_r); pose proof (Nat.Div0.mul_div_le o B); lia).
    replace ((o <=? p)%nat && (p <? e)%nat) with false by lia. rewrite lookup_take_lt, old_byte by lia. done.
  - pose proof (start_block_lt _ _ _ _ _ G). lia.
Qed.

Lemma after_used a' z : wrote a' -> z ∈ after -> in_data sb z /\ vzused a' z = true.
Proof.
  intros Hw Hz. assert (Hc : in_data sb z /\ (z ∉ drop taken F)).
  { destruct (after_cases _ _ _ _ _ G z Hz) as [Hzs|Ht].
    - split; [by apply (fo_zs _ _ _ _ Hok)|]. intros Hx. apply (zs_disjoint z Hzs). rewrite <- (take_drop taken F).
      apply elem_of_app. by right.
    - split; [apply take_elem, free_list_spec in Ht as [? _]; done|]. apply taken_nodup; [apply free_list_NoDup|done]. }
  destruct Hc as [Hd Hc]. split; [done|]. destruct (vzused a' z) eqn:Hu; [done|]. by apply (wr_used _ Hw) in Hu.
Qed.

(** Zones in use by others are left alone. *)
Lemma wrote_frame a' z : wrote a' -> in_data sb z -> vzused a z = true -> z ∉ zs -> z <> indirect i ->
  vblk a' z = vblk a z /\ vzused a' z = true.
Proof.
  intros Hw Hd Hu Hz Hi. pose proof (free_not_used sb a z Hu) as Hf. split.
  - apply (wr_other _ Hw).
    + intros Hs ->. unfold ind1 in *. destruct (fresh_ind _ _) eqn:Hfi; [|done]. apply Hf, (take_elem taken).
      rewrite (taken_perm _ _ _ _ _ G). unfold ind1. rewrite Hfi. by left.
    + intros b Hb ->. destruct (after_cases _ _ _ _ _ G _ (after_in b ltac:(lia))) as [?|Ht]; [done|].
      by apply Hf, (take_elem taken).
  - destruct (vzused a' z) eqn:Hu'; [done|]. apply (wr_used _ Hw z Hd) in Hu'. exfalso. apply Hf.
    rewrite <- (take_drop taken F). apply elem_of_app. by right.
Qed.

Lemma ind_same : (b1 <= SLOTS)%nat -> ind = indirect i.
Proof. intros Hs. unfold ind1, fresh_ind. replace (SLOTS <? b1)%nat with false by lia. by rewrite andb_false_r. Qed.

Lemma grown_fields : indirect grown_inode = ind /\ flags grown_inode = flags i /\ double_indirect grown_inode = double_indirect i.
Proof.
  unfold grown_inode. edestruct set_slots_fields as [ds ->]. unfold ind1.
  destruct (fresh_ind _ _); case_match; split_and!; reflexivity.
Qed.

Lemma ind_width d : vol_geom sb d -> in_width 32 ind.
Proof.
  intros Gd. destruct (Z.eq_dec ind 0) as [->|Hz]; [done|]. apply (data_positive sb d); [done|].
  by apply (ind_fresh (or_introl Hz)).
Qed.

Lemma grown_ok a' d : wrote a' -> vol_geom sb d -> inode_ok grown_inode.
Proof.
  intros Hw Gd. unfold grown_inode. apply set_slots_ok.
  - assert (Hi1 : inode_ok (if fresh_ind (indirect i) e then with_indirect ind i else i)).
    { pose proof (fo_inode _ _ _ _ Hok). destruct (fresh_ind _ _); [|done]. apply with_indirect_ok; [done|]. by apply (ind_width d). }
    revert Hi1. generalize (if fresh_ind (indirect i) e then with_indirect ind i else i). intros i1 Hi1.
    case_match; [|done]. apply with_size_ok; [done|]. pose proof (gr_end _ _ _ _ _ G) as He.
    pose proof (blocks_end_spec e (SLOTS + IND_CAP)) as Hs. change B with 2048%nat in Hs. change (SLOTS + IND_CAP)%nat with 517%nat in *.
    unfold in_width. lia.
  - apply Forall_forall. intros z Hz. unfold direct_of in Hz. apply take_elem, elem_of_app in Hz as [Hz|Hz].
    + by apply (data_positive sb d), (after_used a').
    + by apply elem_of_replicate in Hz as [-> _].
Qed.

(** An indirect block the write does not touch lists the zones as before. *)
Lemma lists_tail_after block : lists_tail block zs -> (b1 <= SLOTS)%nat -> lists_tail block after.
Proof.
  intros [Hl Ht] Hs. split; [done|]. intros k Hk. rewrite Ht by done.
  destruct (decide (SLOTS + k < k0)%nat); [by rewrite after_old|].
  rewrite !nth_overflow; [done|rewrite after_length|]; lia.
Qed.

Lemma file_ok_after a' d : wrote a' -> vol_geom sb d -> file_ok sb a' grown_inode after.
Proof.
  intros Hw Gd. destruct grown_fields as (Hi & Hfl & Hdb). pose proof (gr_end _ _ _ _ _ G). pose proof (fo_len _ _ _ _ Hok).
  pose proof (fo_inode _ _ _ _ Hok) as Hino. split.
  - by eapply grown_ok.
  - unfold is_encrypted. rewrite Hfl. apply Hok.
  - rewrite Hfl. apply Hok.
  - rewrite Hdb. apply Hok.
  - rewrite after_length. lia.
  - unfold grown_inode. apply direct_slots_set; [apply direct_of_length|]. unfold inode_ok in Hino.
    destruct (fresh_ind _ _); case_match; cbn; tauto.
  - rewrite Hi, after_length. intros Hz. destruct (decide (SLOTS < b1)%nat) as [Hs|Hs].
    + destruct (ind_fresh (or_intror Hs)) as (_ & Hd & _). pose proof (data_positive sb d _ Gd Hd). lia.
    + rewrite ind_same in Hz by lia. pose proof (fo_direct _ _ _ _ Hok Hz). lia.
  - rewrite Hi. intros Hz. destruct (ind_fresh (or_introl Hz)) as (Hn & Hd & Hf). split_and!; [done| |done|].
    + destruct (vzused a' ind) eqn:Hu; [done|]. by apply (wr_used _ Hw _ Hd) in Hu.
    + destruct (decide (SLOTS < b1)%nat) as [Hs|Hs]; [by apply Hw|]. pose proof (ind_same ltac:(lia)) as Hii.
      rewrite Hii in Hn, Hz |- *. rewrite (wr_other _ Hw).
      2: lia. 2: { intros b Hb Heq. pose proof (after_in b ltac:(lia)) as Hx. rewrite <- Heq in Hx. done. }
      apply lists_tail_after; [by apply (fo_ind _ _ _ _ Hok)|lia].
  - apply after_NoDup.
  - intros z Hz. destruct (after_used a' z Hw Hz) as [? ?]. split_and!; [done..|].
    exact (proj1 (Forall_forall _ _) (proj1 (Forall_fmap _ _ _) (new_blocks a' Hw)) z Hz).
  - rewrite grown_size, after_length. pose proof (fo_size _ _ _ _ Hok).
    assert (e <= b1 * B)%nat by (apply Nat.nlt_ge; intros Hlt; apply blocks_end_spec in Hlt; lia).
    assert (k0 * B <= Nat.max k0 b1 * B)%nat by (apply Nat.mul_le_mono_r; lia).
    assert (b1 * B <= Nat.max k0 b1 * B)%nat by (apply Nat.mul_le_mono_r; lia). lia.
Qed.
End write_result.

(** ** [node_write] *)

Section node_write.
Context {D : Type} `{ReliableDev D} (sb : Superblock) (now uid gid : Z).
Context (get_user_key : Z -> option (list Z)) (keystream : list Z -> list Z -> nat -> list Z).
Abbreviation B := TfsNode.BLOCK_SIZE.
Abbreviation SLOTS := DIRECT_SLOT_COUNT.
Abbreviation RW := MountReadWrite.
Abbreviation nruns := (nruns (D := D) sb now uid gid).

Lemma with_used_same a : with_used (vzused a) a = a.
Proof. by destruct a. Qed.

(** Zones allocated in advance, or none when there are too few: the pool is the same. *)
Lemma prealloc_runs (E : Type) d n sh a count : vol_geom sb d ->
  exists u pre, nruns (if (count =? 0)%nat then retM (Some []) else okM (on_fs (ctx_alloc_zones sb RW count)) : M _ E _)
      (mkNS n sh a) (Ok pre) (mkNS n sh (with_used u a)) /\ default [] pre ++ free_list sb (with_used u a) = free_list sb a.
Proof.
  intros G. destruct (Nat.eqb_spec count 0) as [->|Hc].
  { exists (vzused a), (Some []). rewrite with_used_same. split; [apply nruns_ret|done]. }
  unfold ctx_alloc_zones. cbn [is_read_only]. destruct (decide (count <= length (free_list sb a))%nat) as [Hle|Hgt].
  - exists (vzused (use_zones (take count (free_list sb a)) a)), (Some (take count (free_list sb a))).
    split; [|exact (eq_trans (f_equal (app _) (free_list_take sb a count)) (take_drop count _))].
    eapply (nruns_okM _ _ _ _ _ _ (Ok (take count (free_list sb a)))); [|done].
    apply nruns_fs_dev, allocate_zones_runs; [apply G|apply G|done].
  - exists (vzused a), None. rewrite with_used_same. split; [|done].
    eapply (nruns_okM _ _ _ _ _ _ (Err NoSpaceLeft)); [|done].
    apply nruns_fs_dev, allocate_zones_short; [apply G|apply G|lia].
Qed.

Lemma free_zones_runs n sh zs : forall a, Forall (in_data sb) zs ->
  nruns (free_zones sb RW zs) (mkNS n sh a) (Ok tt) (mkNS n sh (drop_zones zs a)).
Proof.
  induction zs as [|z zs IH]; intros a Hzs; cbn [free_zones].
  - eapply nruns_eq; [|apply nruns_ret]. by split_and!.
  - apply Forall_cons in Hzs as [Hz Hzs]. unfold ctx_free_zone. cbn [is_read_only]. eapply nruns_bind.
    + eapply (nruns_okM _ _ _ _ _ _ (Ok tt)); [by apply nruns_fs_dev, runs_dealloc_zone|done].
    + eapply nruns_eq; [apply drop_zones_cons|by apply IH].
Qed.

Context (n : TFSVfsNode) (a : Volume) (zs data : list Z) (o e : nat) (d0 : D).
Abbreviation i := (node_inode n).
Abbreviation F := (free_list sb a).
Abbreviation k0 := (length zs).
Abbreviation b1 := (blocks_end e).
Abbreviation after := (zones_after zs F (indirect i) e).
Abbreviation ind := (ind1 zs F (indirect i) e).
Abbreviation taken := (zones_taken zs (indirect i) e).
Abbreviation ops := (op_at after k0 o e <$> seq (o / B) (b1 - o / B)).
Context (Hok : file_ok sb a i zs) (G : grows zs F (indirect i) o e) (Hdata : length data = (e - o)%nat).
Context (Hg : vol_geom sb d0) (Hino : in_table sb (inode_no n)).

Lemma ops_at op : op ∈ ops -> exists b, (o / B <= b < b1)%nat /\ op = op_at after k0 o e b.
Proof. intros Hop. apply list_elem_of_fmap in Hop as (b & -> & Hb). apply elem_of_seq in Hb. exists b. split; [lia|done]. Qed.

Lemma ind_vol_other block z : z ∈ after -> vblk (ind_vol zs F (indirect i) e a block) z = vblk a z.
Proof.
  intros Hz. unfold ind_vol. destruct (Nat.ltb_spec SLOTS b1) as [Hs|]; [|done]. cbn.
  destruct (Z.eqb_spec z ind) as [->|]; [|done]. destruct (ind_fresh sb a i zs o e Hok G (or_intror Hs)) as [Hn _]. done.
Qed.

Lemma plan_ops_ok u block : Forall (op_ok sb data (with_used u (ind_vol zs F (indirect i) e a block))) ops.
Proof.
  apply Forall_forall. intros op Hop. apply ops_at in Hop as (b & Hb & ->). pose proof (gr_range _ _ _ _ _ G) as Hoe.
  destruct (op_at_bounds data after k0 o e Hoe Hdata b ltac:(lia)) as [H1 H2]; [apply blocks_end_spec; lia|].
  pose proof (after_in sb a i zs o e G b ltac:(lia)) as Hin. split; [|done..|].
  - cbn [op_at n_zone]. destruct (after_cases _ _ _ _ _ G _ Hin) as [Hz|Hz]; [by apply (fo_zs _ _ _ _ Hok)|].
    by apply take_elem, free_list_spec in Hz as [? _].
  - intros Hn. change (length (vblk (ind_vol zs F (indirect i) e a block) (nth b after 0)) = B).
    rewrite ind_vol_other by done. cbn in Hn. rewrite after_old by lia. eapply old_block; [done|lia].
Qed.

Lemma ops_nodup : NoDup (n_zone <$> ops).
Proof.
  rewrite <- list_fmap_compose. apply NoDup_fmap_2_strong; [|apply NoDup_seq].
  intros b c Hb Hc. apply elem_of_seq in Hb, Hc. cbn. apply (after_inj sb a i zs o e Hok G); lia.
Qed.

(** The volume after the write. *)
Definition final_vol (u : Z -> bool) (block spare : list Z) : Volume :=
  set_ino (inode_no n) (grown_inode sb a i zs e)
    (drop_zones (rev spare) (foldl (apply_node_op data) (with_used u (ind_vol zs F (indirect i) e a block)) ops)).

Lemma final_wrote u block spare :
  spare ++ free_list sb (with_used u a) = drop taken F -> ((SLOTS < b1)%nat -> lists_tail block after) ->
  wrote sb a i zs o e data (final_vol u block spare).
Proof.
  intros Hp Ht. pose proof (foldl_apply_fields data ops (with_used u (ind_vol zs F (indirect i) e a block))) as (Hu & _ & _). split.
  - intros b Hb. unfold final_vol. cbn [set_ino drop_zones vblk].
    rewrite (foldl_apply_at data ops (op_at after k0 o e b) _ ops_nodup).
    2: { apply list_elem_of_fmap. exists b. split; [done|]. apply elem_of_seq. lia. }
    cbn [op_at n_zone with_used vblk]. rewrite ind_vol_other; [done|]. apply (after_in sb a i zs o e G); lia.
  - intros Hs. unfold final_vol. cbn [set_ino drop_zones vblk]. rewrite foldl_apply_other.
    2: { intros Hin. apply list_elem_of_fmap in Hin as (op & Hz & Hop). apply ops_at in Hop as (b & Hb & ->). cbn [op_at n_zone] in Hz.
         destruct (ind_fresh sb a i zs o e Hok G (or_intror Hs)) as [Hn _]. apply Hn. rewrite Hz. apply (after_in sb a i zs o e G); lia. }
    cbn [with_used vblk]. unfold ind_vol. replace (SLOTS <? b1)%nat with true by lia. cbn [set_blk vblk]. rewrite Z.eqb_refl. auto.
  - intros z Hi Hz. unfold final_vol. cbn [set_ino drop_zones vblk]. rewrite foldl_apply_other.
    2: { intros Hin. apply list_elem_of_fmap in Hin as (op & -> & Hop). apply ops_at in Hop as (b & Hb & ->). by apply (Hz b). }
    cbn [with_used vblk]. unfold ind_vol. destruct (Nat.ltb_spec SLOTS b1) as [Hs|]; [|done]. cbn.
    by replace (z =? ind) with false by (specialize (Hi Hs); lia).
  - intros z Hz. unfold final_vol. cbn [set_ino drop_zones vzused]. rewrite Hu. cbn [with_used vzused].
    rewrite <- Hp, elem_of_app, free_list_spec. rewrite <- (bool_decide_ext (z ∈ spare) (z ∈ rev spare)) by (rewrite !list_elem_of_In; apply in_rev).
    cbn [with_used vzused]. destruct (bool_decide_reflect (z ∈ spare)) as [Hs|Hs]; cbn [negb andb].
    + split; [by left|done].
    + split; [by right|]. by intros [|[_ ?]].
Qed.

Context (Hend : (e <= (SLOTS + IND_CAP) * B)%nat).

Lemma ops_end : np_ops (written_at zs F (indirect i) o e b1) = ops /\ Z.of_nat (np_written (written_at zs F (indirect i) o e b1)) + Z.of_nat o = Z.of_nat e.
Proof.
  split; [done|]. cbn [written_at prog np_written]. unfold pos_at. pose proof (gr_range _ _ _ _ _ G).
  assert (e <= b1 * B)%nat by (apply Nat.nlt_ge; intros Hlt; apply blocks_end_spec in Hlt; lia). lia.
Qed.

Lemma plain_ind_node : is_encrypted (node_inode (ind_node zs F (indirect i) e n)) = false.
Proof. unfold ind_node. destruct (fresh_ind _ _); [|by apply Hok]. exact (fo_plain _ _ _ _ Hok). Qed.

Lemma ind_node_no : inode_no (ind_node zs F (indirect i) e n) = inode_no n.
Proof. unfold ind_node. by destruct (fresh_ind _ _). Qed.

Lemma ind_node_set i1 i2 : set_node_inode i1 (set_node_inode i2 (ind_node zs F (indirect i) e n)) = set_node_inode i1 n.
Proof. unfold ind_node. by destruct (fresh_ind _ _). Qed.

Lemma ind_node_inode : node_inode (ind_node zs F (indirect i) e n) = if fresh_ind (indirect i) e then with_indirect ind i else i.
Proof. unfold ind_node. by destruct (fresh_ind _ _). Qed.

Lemma write_guard {A} (l : list Z) p (x y z : A) : l <> [] -> checked_add p (Z.of_nat (length l)) <> None ->
  match l with [] => x | h :: t => match checked_add p (Z.of_nat (length (h :: t))) with Some _ => z | None => y end end = z.
Proof. destruct l; [done|]. by destruct (checked_add _ _). Qed.

Lemma node_write_runs sh :
  exists a', nruns (node_write sb RW get_user_key keystream (Z.of_nat o) data) (mkNS n sh a) (Ok tt)
      (mkNS (set_node_inode (grown_inode sb a i zs e) n) (invalidate_file_inode (inode_no n) sh) a') /\
    wrote sb a i zs o e data a' /\ viused a' = viused a /\
    (forall j, vino a' j = if j =? inode_no n then grown_inode sb a i zs e else vino a j).
Proof.
  pose proof (gr_range _ _ _ _ _ G) as Hoe.
  set (count := node_prealloc i (Z.of_nat o) (Z.of_nat (length data))).
  destruct (prealloc_runs unit d0 n sh a count Hg) as (u0 & pre & Hr0 & Hp0).
  destruct (plan_node_write_runs sb now uid gid zs F (indirect i) o e G n sh a eq_refl ltac:(apply Forall_forall; intros z Hz; by apply free_list_spec in Hz as [? _])
    ltac:(intros Hz; by destruct (fo_ind _ _ _ _ Hok Hz) as (? & _ & _ & ?)) u0 (default [] pre) (fo_slots _ _ _ _ Hok) Hp0)
    as (u1 & spare & block & Hr1 & Hp1 & Ht1).
  exists (final_vol u1 block spare). split_and!; [|by apply final_wrote| |].
  - unfold node_write. rewrite write_guard; [|by intros ->; cbn in Hdata; lia|].
    2: { unfold checked_add. change (SLOTS + IND_CAP)%nat with 517%nat in Hend. change B with 2048%nat in Hend.
         by replace (_ <=? U64_MAX) with true by (unfold U64_MAX; lia). }
    apply nruns_get. intros d. cbn [fs_at fst ns_node]. fold count. eapply nruns_bind; [exact Hr0|].
    eapply nruns_bind; [rewrite Hdata; by apply with_alloc_runs|]. cbn beta iota.
    apply nruns_get. intros d1. cbn [fs_at fst ns_node]. rewrite plain_ind_node. destruct ops_end as [-> ->].
    eapply nruns_bind; [by apply run_node_ops_runs, plan_ops_ok|].
    eapply nruns_bind; [apply free_zones_runs|].
    { apply Forall_forall. intros z Hz. apply (free_list_spec sb a z). rewrite <- (take_drop taken F), <- Hp1, !elem_of_app.
      right. left. by rewrite list_elem_of_In, in_rev, <- list_elem_of_In. }
    eapply nruns_bind; [apply nruns_set_inode|]. eapply nruns_bind; [apply nruns_set_inode|].
    apply nruns_get. intros d2. cbn [fs_at fst ns_node set_node_inode inode_no node_inode]. rewrite ind_node_no.
    rewrite ind_node_set, ind_node_inode. fold (grown_inode sb a i zs e).
    eapply nruns_bind; [|apply nruns_tell]. unfold ctx_write_inode. cbn [is_read_only].
    apply nruns_fs_unwrap, runs_write_inode; [done|]. eapply (grown_ok sb a i zs o e Hok G data Hdata (final_vol u1 block spare)); [|exact Hg].
    by apply final_wrote.
  - unfold final_vol. cbn [set_ino drop_zones viused]. rewrite (proj1 (proj2 (foldl_apply_fields _ _ _))).
    unfold ind_vol. by destruct (_ <? _)%nat.
  - intros j. unfold final_vol. cbn [set_ino drop_zones vino]. rewrite (proj2 (proj2 (foldl_apply_fields _ _ _))).
    unfold ind_vol. by destruct (_ <? _)%nat.
Qed.
End node_write.
