(* ===== verification/TfsReadSpec.v ===== *)
(** * TwilightFS open files: reads

    The zones [read_all_file] collects, the runs it reads, and [node_read] through the
    file cache: for an unencrypted file without a double-indirect part, the bytes of its
    contents. *)

From Stdlib Require Import Ascii ZifyBool.
From S2P Require Import Prelude Bytes Text BlockDev BlockDevSpec TfsBlock TfsAlloc TfsInode TfsCache TfsDir TfsFile TfsPath TfsNode TfsVolume TfsZones TfsNodeSpec TfsWriteSpec TfsContents.
Open Scope twilight_scope.

Lemma until_zero_app l n : Forall (fun z => z <> 0) l -> until_zero (l ++ replicate n 0) = l.
Proof.
  induction 1 as [|z l Hz _ IH]; cbn [until_zero app]; [by destruct n|].
  replace (z =? 0) with false by lia. by rewrite IH.
Qed.

Lemma consecutive_spec start : forall zs k,
  (k <= consecutive start k zs <= k + length zs)%nat /\
  forall j, (j < consecutive start k zs - k)%nat -> zs !! j = Some (u32 (start + Z.of_nat (k + j))).
Proof.
  induction zs as [|z zs IH]; intros k; cbn [consecutive length]; [split; [lia|intros; lia]|].
  destruct (Z.eqb_spec z (u32 (start + Z.of_nat k))) as [->|]; [|split; [lia|intros; lia]].
  destruct (IH (S k)) as [Hb Hj]. split; [lia|]. intros [|j] Hlt; cbn [lookup list_lookup].
  - by rewrite Nat.add_0_r.
  - change (zs !! j = Some (u32 (start + Z.of_nat (k + S j)))). rewrite Hj by lia. do 3 f_equal. lia.
Qed.

Section read_spec.
Context {D : Type} `{ReliableDev D} (sb : Superblock) (now uid gid : Z).
Context (get_user_key : Z -> option (list Z)) (keystream : list Z -> list Z -> nat -> list Z).
Abbreviation B := TfsNode.BLOCK_SIZE.
Abbreviation SLOTS := DIRECT_SLOT_COUNT.
Abbreviation nruns := (nruns (D := D) sb now uid gid).
Context (n : TFSVfsNode) (a : Volume) (zs : list Z) (d0 : D).
Abbreviation i := (node_inode n).
Context (Hok : file_ok sb a i zs) (Hg : vol_geom sb d0).

Lemma zones_nonzero : Forall (fun z => z <> 0) zs.
Proof.
  apply Forall_forall. intros z Hz. destruct (fo_zs _ _ _ _ Hok z Hz) as [Hd _]. pose proof (data_positive sb d0 z Hg Hd). lia.
Qed.

Lemma direct_zones : until_zero (direct_slots i) = take SLOTS zs.
Proof.
  rewrite (fo_slots _ _ _ _ Hok). unfold direct_of. rewrite take_app, take_replicate.
  apply until_zero_app, Forall_take, zones_nonzero.
Qed.

Lemma indirect_zones block : lists_tail block zs -> until_zero (all_entries block) = drop SLOTS zs.
Proof.
  intros [_ Ht]. replace (all_entries block) with (drop SLOTS zs ++ replicate (ZONE_ENTRIES - (length zs - SLOTS)) 0).
  { apply until_zero_app, Forall_drop, zones_nonzero. }
  pose proof (fo_len _ _ _ _ Hok) as Hl. change IND_CAP with (ZONE_ENTRIES - 1)%nat in Hl.
  assert (Hlen : length (drop SLOTS zs ++ replicate (ZONE_ENTRIES - (length zs - SLOTS)) 0) = ZONE_ENTRIES).
  { rewrite length_app, length_drop, length_replicate. lia. }
  apply (nth_ext _ _ 0 0); [unfold all_entries; rewrite Hlen; by rewrite length_fmap, length_seq|].
  intros k. rewrite Hlen. intros Hk. unfold all_entries. rewrite !nth_lookup, list_lookup_fmap, lookup_seq_lt by done.
  cbn [fmap option_fmap option_map default]. rewrite Ht by done. rewrite nth_lookup.
  destruct (decide (k < length zs - SLOTS)%nat).
  - rewrite lookup_app_l, lookup_drop by (rewrite length_drop; lia). done.
  - rewrite lookup_app_r, lookup_replicate_2 by (rewrite length_drop; lia). by rewrite lookup_ge_None_2 by lia.
Qed.

Lemma file_zones_runs : runs (D := D) sb (file_zones i) a (Ok zs) a.
Proof.
  unfold file_zones. rewrite (fo_double _ _ _ _ Hok), direct_zones. destruct (Z.eqb_spec (indirect i) 0) as [Hz|Hz].
  - eapply runs_bind; [apply runs_ret|]. change (0 =? 0) with true. rewrite take_ge by by apply (fo_direct _ _ _ _ Hok). apply runs_ret.
  - destruct (fo_ind _ _ _ _ Hok Hz) as (Hd & _ & _ & Ht). eapply runs_bind.
    + eapply runs_bind; [eapply runs_okM; [by apply runs_read|done]|]. cbn beta iota. apply runs_ret.
    + change (0 =? 0) with true. cbn beta iota. rewrite (indirect_zones _ Ht), take_drop. apply runs_ret.
Qed.

(** The zones of a run follow one another. *)
Lemma run_zones z rest r : Forall (in_data sb) (z :: rest) -> (r <= consecutive z 1 rest)%nat ->
  take r (z :: rest) = (fun m => z + Z.of_nat m) <$> seq 0 r.
Proof.
  intros Hin Hr. destruct (consecutive_spec z rest 1) as [Hb Hj].
  assert (Hl : forall m, (m < r)%nat -> (z :: rest) !! m = Some (z + Z.of_nat m)).
  { induction m as [|m IH]; intros Hm; [cbn; f_equal; lia|]. cbn [lookup list_lookup]. change (rest !! m = Some (z + Z.of_nat (S m))).
    rewrite Hj by lia. f_equal. specialize (IH ltac:(lia)). pose proof (proj1 (Forall_lookup _ _) Hin _ _ IH) as Hd.
    replace (z + Z.of_nat (1 + m)) with (z + Z.of_nat m + 1) by lia. rewrite (in_data_succ sb d0 _ Hg Hd). lia. }
  apply list_eq. intros m. rewrite list_lookup_fmap. destruct (decide (m < r)%nat).
  - by rewrite lookup_take_lt, Hl, lookup_seq_lt by done.
  - rewrite lookup_take_ge by lia. by rewrite lookup_seq_ge by lia.
Qed.

Lemma crypt_plain (d : D) sh z b : crypt get_user_key keystream (fs_at now uid gid (mkNS n sh a) d) z b = b.
Proof. unfold crypt, apply_crypto, get_encryption_key. cbn [fs_at fst ns_node]. by rewrite (fo_plain _ _ _ _ Hok). Qed.

Lemma imap_blocks (bs : list (list Z)) (ks : list Z) : length ks = length bs -> Forall (fun b => length b = B) bs ->
  concat (imap (fun j _ => load (j * B) B (concat bs)) ks) = concat bs.
Proof.
  intros Hl Hb. f_equal. apply list_eq. intros j. rewrite list_lookup_imap. destruct (decide (j < length bs)%nat) as [Hj|Hj].
  - destruct (lookup_lt_is_Some_2 ks j) as [k ->]; [lia|]. destruct (lookup_lt_is_Some_2 bs j Hj) as [b Hbj]. rewrite Hbj.
    change (Some (load (j * B) B (concat bs)) = Some b). f_equal.
    pose proof (load_concat_block B bs j b 0 B Hb Hbj ltac:(lia)) as Hlc. rewrite Nat.add_0_r in Hlc. rewrite <- Hlc.
    unfold load. rewrite drop_0. apply take_ge. rewrite (proj1 (Forall_lookup _ _) Hb _ _ Hbj). done.
  - rewrite !lookup_ge_None_2 by lia. done.
Qed.

Abbreviation C := (file_contents a i zs).
Abbreviation size := (Z.to_nat (isize i)).
Abbreviation whole := (concat (vblk a <$> zs)).

(** A part of the buffer is filled with the next bytes. *)
Lemma fill_chunk (pre : list Z) k temp : (length pre * B <= size)%nat -> 
  temp = load (length pre * B) (k * B) whole -> (length pre * B + k * B <= length whole)%nat ->
  let n := Nat.min (k * B) (size - length pre * B) in
  store (length pre * B) (take n temp) (take (length pre * B) C ++ replicate (size - length pre * B) 0) =
    take (length pre * B + n) C ++ replicate (size - (length pre * B + n)) 0.
Proof.
  intros Hp -> Hw m. set (x := (length pre * B)%nat) in *. set (y := (k * B)%nat) in *.
  assert (HC : length C = size) by exact (size_of_contents sb a i zs Hok).
  assert (Hn : take m (load x y whole) = load x m C).
  { unfold load, file_contents. rewrite take_take, skipn_firstn_comm, take_take. f_equal. lia. }
  rewrite Hn. unfold store. rewrite load_length by lia.
  rewrite take_app_le, take_take by (rewrite length_take; lia). rewrite Nat.min_id.
  rewrite drop_app_ge by (rewrite length_take; lia). rewrite drop_replicate, length_take.
  rewrite app_assoc. f_equal; [|f_equal; lia]. unfold load. apply take_take_drop.
Qed.

(** The blocks of a run, decrypted, are the next bytes of the file. *)
Lemma run_bytes (d : D) sh pre rest r : pre ++ rest = zs -> (r <= length rest)%nat ->
  concat (imap (fun j zj => crypt get_user_key keystream (fs_at now uid gid (mkNS n sh a) d) zj (load (j * B) B (concat (vblk a <$> take r rest)))) (take r rest))
    = load (length pre * B) (r * B) whole.
Proof.
  intros Hz Hr. pose proof (old_blocks sb a i zs Hok) as Hb. rewrite <- Hz in Hb. rewrite fmap_app in Hb.
  apply Forall_app in Hb as [Hb1 Hb2]. rewrite <- (take_drop r rest), fmap_app in Hb2. apply Forall_app in Hb2 as [Hb2 _].
  rewrite (imap_ext _ (fun j _ => load (j * B) B (concat (vblk a <$> take r rest)))) by (intros; apply crypt_plain).
  rewrite imap_blocks by (by rewrite ?length_fmap). rewrite <- Hz, fmap_app, concat_app. unfold load.
  rewrite drop_app_ge by (rewrite (concat_blocks_length B), length_fmap by done; done).
  rewrite (concat_blocks_length B), length_fmap, Nat.sub_diag, drop_0 by done.
  replace (concat (vblk a <$> rest)) with (concat (vblk a <$> take r rest) ++ concat (vblk a <$> drop r rest))
    by (by rewrite <- concat_app, <- fmap_app, take_drop).
  rewrite take_app_le, (take_ge (concat _)); [done|..];
    rewrite (concat_blocks_length B), length_fmap, length_take by done; rewrite Nat.min_l by lia; lia.
Qed.

Lemma read_runs_runs sh : forall fuel rest pre,
  (length rest <= fuel)%nat -> pre ++ rest = zs -> (length pre * B <= size)%nat ->
  nruns (read_runs get_user_key keystream fuel rest (length pre * B) (take (length pre * B) C ++ replicate (size - length pre * B) 0))
    (mkNS n sh a) (Ok C) (mkNS n sh a).
Proof.
  pose proof (size_of_contents sb a i zs Hok) as HC. pose proof (fo_size _ _ _ _ Hok) as Hsz.
  assert (Hw : length whole = (length zs * B)%nat).
  { rewrite (concat_blocks_length B), length_fmap; [done|]. exact (old_blocks sb a i zs Hok). }
  induction fuel as [|fuel IH]; intros [|z rest] pre Hf Hz Hp; cbn [length read_runs] in *; try lia.
  1,2: rewrite app_nil_r in Hz; subst pre; replace (length zs * B)%nat with size by lia;
       rewrite Nat.sub_diag, take_ge, app_nil_r by lia; apply nruns_ret.
  set (r := Nat.min (consecutive z 1 rest) 128). destruct (consecutive_spec z rest 1) as [Hcb _].
  assert (Hin : Forall (in_data sb) (z :: rest)).
  { apply Forall_forall. intros y Hy. apply (fo_zs _ _ _ _ Hok). rewrite <- Hz. apply elem_of_app. by right. }
  pose proof (run_zones z rest r Hin ltac:(lia)) as Hrun.
  assert (Hr : (1 <= r <= length (z :: rest))%nat) by (cbn; lia).
  assert (Hlen : length zs = (length pre + length (z :: rest))%nat) by (rewrite <- Hz; apply length_app).
  eapply nruns_bind.
  { apply nruns_dev, runs_map_ok, (runs_read_blocks sb z r a); [by apply Forall_cons in Hin as [? _]| |lia].
    assert (Hlast : (z :: rest) !! (r - 1)%nat = Some (z + Z.of_nat (r - 1))).
    { rewrite <- (lookup_take_lt _ r) by lia. rewrite Hrun, list_lookup_fmap, lookup_seq_lt by lia. done. }
    replace (z + Z.of_nat r - 1) with (z + Z.of_nat (r - 1)) by lia. exact (proj1 (Forall_lookup _ _) Hin _ _ Hlast). }
  apply nruns_get. intros d.
  replace ((fun m => vblk a (z + Z.of_nat m)) <$> seq 0 r) with (vblk a <$> take r (z :: rest)) by by rewrite Hrun, <- list_fmap_compose.
  rewrite (run_bytes d sh pre (z :: rest) r Hz) by lia.
  assert (Hout : forall x, (x <= size)%nat -> length (take x C ++ replicate (size - x) 0) = size).
  { intros x Hx. rewrite length_app, length_take, length_replicate, HC. lia. }
  rewrite Hout by done.
  assert (Hrb : (length pre * B + r * B <= length zs * B)%nat) by (rewrite <- Nat.mul_add_distr_r; apply Nat.mul_le_mono_r; lia).
  rewrite fill_chunk by (done || lia). set (m := Nat.min (r * B) (size - length pre * B)).
  rewrite Hout by lia. destruct (Nat.leb_spec size (length pre * B + m)) as [Hdone|Hmore].
  - replace (size - (length pre * B + m))%nat with 0%nat by lia. rewrite app_nil_r, take_ge by lia. apply nruns_ret.
  - replace (length pre * B + m)%nat with (length (pre ++ take r (z :: rest)) * B)%nat.
    + apply IH; [rewrite length_drop; cbn [length]; lia|by rewrite <- app_assoc, take_drop|].
      rewrite length_app, length_take, Nat.min_l by lia. lia.
    + rewrite length_app, length_take, Nat.min_l, Nat.mul_add_distr_r by lia. lia.
Qed.

Lemma read_all_file_runs sh : nruns (read_all_file get_user_key keystream) (mkNS n sh a) (Ok C) (mkNS n sh a).
Proof.
  unfold read_all_file. apply nruns_get. intros d. cbn [fs_at fst ns_node]. rewrite (fo_inline _ _ _ _ Hok).
  change (negb (0 =? 0)) with false. cbn iota. eapply nruns_bind; [apply nruns_dev, file_zones_runs|].
  pose proof (read_runs_runs sh (length zs) zs [] ltac:(lia) eq_refl ltac:(cbn; lia)) as Hr.
  cbn [length Nat.mul take app] in Hr. by rewrite Nat.sub_0_r in Hr.
Qed.

Context (disk : Z -> list Z) (Hdisk : disk (inode_no n) = C).

(** A slice from the cache is one of the contents. *)
Lemma cached_slice sh off k :
  files_ok (file_cache sh) -> coherent_files disk (file_cache sh) -> (off < length C)%nat ->
  let r := read_cached_file_slice (inode_no n) off k sh in
  (fst r = None \/ fst r = Some (load off k C)) /\ files_ok (file_cache (snd r)) /\ coherent_files disk (file_cache (snd r)).
Proof.
  intros Ho Hc Hoff. unfold read_cached_file_slice, file_get_slice. cbn [fst snd set_files file_cache].
  split_and!; [|by apply files_ensure_ok|by apply coherent_ensure].
  apply (coherent_ensure disk (shared_generation sh)) in Hc. destruct (file_map _ !! inode_no n) as [data|] eqn:Hd; [right|by left].
  apply Hc in Hd as ->. rewrite Hdisk. by replace (length C <=? off)%nat with false by lia.
Qed.

Lemma cacheable : 0 < isize i -> (0 <? isize i) && (isize i <=? FILE_CACHE_MAX_FILE_BYTES) = true.
Proof.
  intros Hp. pose proof (fo_size _ _ _ _ Hok) as Hsz. pose proof (fo_len _ _ _ _ Hok) as Hlen.
  change (SLOTS + IND_CAP)%nat with 517%nat in Hlen. change B with 2048%nat in Hsz. unfold FILE_CACHE_MAX_FILE_BYTES. lia.
Qed.

(** A read returns the bytes of the contents, whether or not the file is cached, and
    leaves a coherent cache. *)
Lemma node_read_runs sh off k :
  files_ok (file_cache sh) -> coherent_files disk (file_cache sh) ->
  exists sh', nruns (node_read get_user_key keystream (Z.of_nat off) k) (mkNS n sh a) (Ok (load off k C)) (mkNS n sh' a) /\
    files_ok (file_cache sh') /\ coherent_files disk (file_cache sh').
Proof.
  intros Ho Hc. pose proof (size_of_contents sb a i zs Hok) as HC. unfold node_read.
  destruct (Z.leb_spec (isize i) (Z.of_nat off)) as [Hle|Hgt].
  { exists sh. split; [|done]. apply nruns_get. intros d. cbn [fs_at fst ns_node].
    replace (isize i <=? Z.of_nat off) with true by lia. unfold load. rewrite drop_ge, take_nil by lia. apply nruns_ret. }
  destruct (cached_slice sh off k Ho Hc ltac:(lia)) as (Hr & Ho1 & Hc1).
  set (sh1 := snd (read_cached_file_slice (inode_no n) off k sh)) in *.
  exists (match fst (read_cached_file_slice (inode_no n) off k sh) with Some _ => sh1 | None => insert_file_cache (inode_no n) C sh1 end).
  split.
  - apply nruns_get. intros d. cbn [fs_at fst ns_node]. replace (isize i <=? Z.of_nat off) with false by lia.
    rewrite (fo_inline _ _ _ _ Hok). change (negb (0 =? 0)) with false. rewrite cacheable, Nat2Z.id by lia. cbn iota.
    eapply nruns_bind; [apply nruns_ask|]. fold sh1. destruct Hr as [-> | ->].
    + eapply nruns_bind; [eapply nruns_okM; [apply read_all_file_runs|done]|]. cbn beta iota.
      eapply nruns_bind; [apply nruns_tell|]. replace (load off k C) with (load off (Nat.min (Nat.min (Z.to_nat (isize i - Z.of_nat off)) k) (length C - off)) C); [apply nruns_ret|].
      unfold load. rewrite <- (take_ge (drop off C) (length C - off)) at 2 by (rewrite length_drop; lia). rewrite take_take. f_equal. lia.
    + replace (load off k C) with (take (Nat.min (Z.to_nat (isize i - Z.of_nat off)) k) (load off k C)) at 2; [apply nruns_ret|].
      unfold load. rewrite take_take, Nat.min_l by lia. rewrite <- (take_ge (drop off C) (length C - off)) at 2 by (rewrite length_drop; lia).
      rewrite take_take. f_equal. lia.
  - destruct (fst _); [done|]. split; [by apply file_insert_ok|]. rewrite <- Hdisk. by apply coherent_insert.
Qed.
End read_spec.
