(* ===== verification/TfsOpenFile.v ===== *)
(** * TwilightFS open files are byte arrays

    Any sequence of reads, writes without a gap and truncations on an open file gives the
    results of the same sequence on a list of bytes, on every reliable device that has
    room for the file; the inode on disk is up to date after each of them.  Then what the
    code does where this does not apply. *)

From Stdlib Require Import Ascii ZifyBool.
From S2P Require Import Prelude Bytes Text BlockDev BlockDevSpec TfsBlock TfsAlloc TfsInode TfsCache TfsDir TfsFile TfsPath TfsNode TfsVolume TfsZones TfsNodeSpec TfsWriteSpec TfsContents TfsReadSpec.
Open Scope twilight_scope.

(** ** The specification *)

Inductive file_op := FRead (off n : nat) | FWrite (off : nat) (data : list Z) | FTruncate (n : nat).

(** What the operation returns, and the contents after it. *)
Definition spec_step (c : list Z) (op : file_op) : list Z * list Z :=
  match op with
  | FRead off n => (load off n c, c)
  | FWrite off data => ([], overlay off data c)
  | FTruncate n => ([], resize_zero n c)
  end.

Definition set_disk (disk : Z -> list Z) (ino : Z) (c : list Z) : Z -> list Z := fun j => if j =? ino then c else disk j.

(** No write beyond the end of the file, and none past [m] blocks. *)
Definition fits (m : nat) (c : list Z) (op : file_op) : Prop :=
  match op with
  | FRead _ _ => True
  | FWrite off data => (off <= length c)%nat /\ (off + length data <= m * TfsNode.BLOCK_SIZE)%nat
  | FTruncate n => (n <= m * TfsNode.BLOCK_SIZE)%nat
  end.

Fixpoint spec_run (c : list Z) (ops : list file_op) : list (list Z) * list Z :=
  match ops with
  | [] => ([], c)
  | op :: ops => let r := spec_run (snd (spec_step c op)) ops in (fst (spec_step c op) :: fst r, snd r)
  end.
Fixpoint fits_all (m : nat) (c : list Z) (ops : list file_op) : Prop :=
  match ops with [] => True | op :: ops => fits m c op /\ fits_all m (snd (spec_step c op)) ops end.

Section open_file.
Context {D : Type} `{ReliableDev D} (sb : Superblock) (now uid gid : Z).
Context (get_user_key : Z -> option (list Z)) (keystream : list Z -> list Z -> nat -> list Z).
Abbreviation B := TfsNode.BLOCK_SIZE.
Abbreviation RW := MountReadWrite.
Abbreviation nruns := (nruns (D := D) sb now uid gid).
Abbreviation NodeState := (TFSVfsNode * TwilightFs D)%type.

Definition node_step (op : file_op) : M NodeState unit (list Z) :=
  match op with
  | FRead off n => node_read get_user_key keystream (Z.of_nat off) n
  | FWrite off data => node_write sb RW get_user_key keystream (Z.of_nat off) data >>> retM []
  | FTruncate n => map_errM (fun _ => tt) (node_truncate sb RW get_user_key keystream (Z.of_nat n)) >>> retM []
  end.

Fixpoint node_run (ops : list file_op) : M NodeState unit (list (list Z)) :=
  match ops with
  | [] => retM []
  | op :: ops => r <-- node_step op ;; rs <-- node_run ops ;; retM (r :: rs)
  end.

(** ** The invariant *)

(** Zones the file has or can still get. *)
Definition room (i : Inode) (zs : list Z) (a : Volume) : nat :=
  length zs + (if indirect i =? 0 then 0 else 1) + length (free_list sb a).

Record open_inv (m : nat) (disk : Z -> list Z) (s : NS) : Prop := {
  oi_zones : exists zs, file_ok sb (ns_vol s) (node_inode (ns_node s)) zs /\
    file_contents (ns_vol s) (node_inode (ns_node s)) zs = disk (inode_no (ns_node s)) /\
    (S m <= room (node_inode (ns_node s)) zs (ns_vol s))%nat;
  oi_table : in_table sb (inode_no (ns_node s));
  oi_disk : vino (ns_vol s) (inode_no (ns_node s)) = node_inode (ns_node s);
  oi_files : files_ok (file_cache (ns_shared s));
  oi_cache : coherent_files disk (file_cache (ns_shared s));
}.
Context (m : nat) (Hm : (m <= DIRECT_SLOT_COUNT + IND_CAP)%nat) (d0 : D) (Hg : vol_geom sb d0).

Lemma enough_zones i zs a e : file_ok sb a i zs -> (S m <= room i zs a)%nat -> (e <= m * B)%nat ->
  (zones_taken zs (indirect i) e <= length (free_list sb a))%nat.
Proof.
  intros Hf Hr He. unfold room in Hr. unfold zones_taken, fresh_ind. pose proof (fo_direct _ _ _ _ Hf) as Hd.
  assert (blocks_end e <= m)%nat by (apply Nat.nlt_ge; intros Hlt; apply blocks_end_spec in Hlt; lia).
  destruct (Z.eqb_spec (indirect i) 0) as [Hz|]; cbn [andb]; [|lia]. specialize (Hd Hz).
  destruct (Nat.ltb_spec DIRECT_SLOT_COUNT (blocks_end e)); lia.
Qed.

Lemma room_after a i zs o e data a' :
  file_ok sb a i zs -> grows zs (free_list sb a) (indirect i) o e -> length data = (e - o)%nat -> wrote sb a i zs o e data a' ->
  room (grown_inode sb a i zs e) (zones_after zs (free_list sb a) (indirect i) e) a' = room i zs a.
Proof.
  intros Hf G Hl Hw. pose proof (gr_free _ _ _ _ _ G) as Hfree. unfold room. rewrite (after_length sb a i zs o e G).
  assert (Hp : free_list sb a' ≡ₚ drop (zones_taken zs (indirect i) e) (free_list sb a)).
  { apply NoDup_Permutation; [apply free_list_NoDup| |].
    - pose proof (free_list_NoDup sb a) as Hn. rewrite <- (take_drop (zones_taken zs (indirect i) e)) in Hn. by apply NoDup_app in Hn as (_ & _ & ?).
    - intros z. rewrite free_list_spec. split; [intros [Hz Hu]; by apply (wr_used _ _ _ _ _ _ _ _ Hw)|].
      intros Hz. assert (Hd : in_data sb z).
      { apply (free_list_spec sb a z). rewrite <- (take_drop (zones_taken zs (indirect i) e)). apply elem_of_app. by right. }
      split; [done|]. by apply (wr_used _ _ _ _ _ _ _ _ Hw). }
  rewrite Hp, length_drop. destruct (grown_fields sb a i zs e) as (-> & _).
  assert (Hi : (if (ind1 zs (free_list sb a) (indirect i) e =? 0)%Z then 0 else 1)%nat =
               ((if (indirect i =? 0)%Z then 0 else 1) + (if fresh_ind (indirect i) e then 1 else 0))%nat).
  { unfold ind1, fresh_ind. destruct (Z.eqb_spec (indirect i) 0) as [Hz|Hz]; cbn [andb].
    2: by replace (indirect i =? 0) with false by lia.
    destruct (Nat.ltb_spec DIRECT_SLOT_COUNT (blocks_end e)) as [Hs|]; [|by rewrite Hz].
    destruct (ind_fresh sb a i zs o e Hf G (or_intror Hs)) as (_ & Hd & _). apply (data_positive sb d0 _ Hg) in Hd as [Hd _].
    unfold ind1, fresh_ind in Hd. replace (indirect i =? 0) with true in Hd by lia. replace (DIRECT_SLOT_COUNT <? blocks_end e)%nat with true in Hd by lia.
    cbn [andb] in Hd. by replace (_ =? 0) with false by lia. }
  rewrite Hi. unfold zones_taken in *. lia.
Qed.

Lemma write_step disk s off data :
  open_inv m disk s -> fits m (disk (inode_no (ns_node s))) (FWrite off data) -> data <> [] ->
  exists s', nruns (node_write sb RW get_user_key keystream (Z.of_nat off) data) s (Ok tt) s' /\
    inode_no (ns_node s') = inode_no (ns_node s) /\
    open_inv m (set_disk disk (inode_no (ns_node s)) (overlay off data (disk (inode_no (ns_node s))))) s'.
Proof.
  destruct s as [n sh a]. intros [(zs & Hf & Hc & Hr) Ht Hd Ho Hco] [Hoff Hend] Hne. cbn [ns_node ns_vol ns_shared] in *.
  assert (Hlen : (0 < length data)%nat) by (destruct data; [done|cbn; lia]). rewrite <- Hc in Hoff. rewrite (size_of_contents sb) in Hoff by done.
  assert (He : (off + length data <= (DIRECT_SLOT_COUNT + IND_CAP) * B)%nat).
  { etransitivity; [exact Hend|]. by apply Nat.mul_le_mono_r. }
  pose proof (file_grows sb a (node_inode n) zs d0 off (off + length data) Hf Hg ltac:(lia) Hoff He (enough_zones _ _ _ _ Hf Hr Hend)) as G.
  assert (Hl : length data = (off + length data - off)%nat) by lia.
  destruct (node_write_runs sb now uid gid get_user_key keystream n a zs data off (off + length data) d0 Hf G Hl Hg Ht He sh)
    as (a' & Hrun & Hw & _ & Hv).
  eexists. split; [exact Hrun|]. split; [done|]. split; cbn [ns_node ns_vol ns_shared set_node_inode node_inode inode_no].
  - eexists. split_and!; [by eapply (file_ok_after sb a (node_inode n) zs)| |].
    + unfold set_disk. rewrite Z.eqb_refl, <- Hc. by eapply contents_after.
    + by rewrite (room_after a (node_inode n) zs off _ data).
  - done.
  - rewrite Hv. by rewrite Z.eqb_refl.
  - by apply file_invalidate_inode_ok.
  - by apply coherent_invalidate.
Qed.

(** Shrinking changes the size alone: the zones are kept. *)
Lemma shrink_ok a i zs k ino : file_ok sb a i zs -> 0 <= k <= isize i ->
  file_ok sb (set_ino ino (with_size k i) a) (with_size k i) zs.
Proof.
  intros [] Hk. split; try done.
  - apply with_size_ok; [done|]. unfold inode_ok, in_width in *. lia.
  - cbn [with_size isize]. lia.
Qed.

Lemma shrink_contents a i zs k ino : file_ok sb a i zs -> 0 <= k <= isize i ->
  file_contents (set_ino ino (with_size k i) a) (with_size k i) zs = resize_zero (Z.to_nat k) (file_contents a i zs).
Proof.
  intros Hf Hk. unfold resize_zero. rewrite (size_of_contents sb) by done. unfold file_contents. cbn [set_ino vblk with_size isize].
  rewrite take_take, Nat.min_l by lia. replace (Z.to_nat k - Z.to_nat (isize i))%nat with 0%nat by lia. by rewrite app_nil_r.
Qed.

Lemma shrink_step disk s k :
  open_inv m disk s -> (k < length (disk (inode_no (ns_node s))))%nat ->
  exists s', nruns (node_truncate sb RW get_user_key keystream (Z.of_nat k)) s (Ok tt) s' /\
    inode_no (ns_node s') = inode_no (ns_node s) /\
    open_inv m (set_disk disk (inode_no (ns_node s)) (resize_zero k (disk (inode_no (ns_node s))))) s'.
Proof.
  destruct s as [n sh a]. intros [(zs & Hf & Hc & Hr) Ht Hd Ho Hco] Hk. cbn [ns_node ns_vol ns_shared] in *.
  rewrite <- Hc in Hk. rewrite (size_of_contents sb) in Hk by done. pose proof (fo_size _ _ _ _ Hf) as Hsz.
  exists (mkNS (set_node_inode (with_size (Z.of_nat k) (node_inode n)) n) (invalidate_file_inode (inode_no n) sh)
    (set_ino (inode_no n) (with_size (Z.of_nat k) (node_inode n)) a)). split_and!; [|done|split; cbn [ns_node ns_vol ns_shared set_node_inode node_inode inode_no]].
  - unfold node_truncate. apply nruns_get. intros d. cbn [fs_at fst ns_node].
    replace (Z.of_nat k =? isize (node_inode n)) with false by lia. replace (Z.of_nat k <? isize (node_inode n)) with true by lia.
    eapply nruns_bind; [apply nruns_set_inode|]. apply nruns_get. intros d1. cbn [fs_at fst ns_node set_node_inode node_inode inode_no].
    eapply nruns_bind; [|apply nruns_tell]. unfold ctx_write_inode. cbn [is_read_only]. apply nruns_fs_map, runs_write_inode; [done|].
    apply (shrink_ok a (node_inode n) zs (Z.of_nat k) 0 Hf). lia.
  - exists zs. split_and!; [apply shrink_ok; [done|lia]| |exact Hr].
    unfold set_disk. rewrite Z.eqb_refl, shrink_contents, Nat2Z.id by (done || lia). by rewrite Hc.
  - done.
  - cbn. by rewrite Z.eqb_refl.
  - by apply file_invalidate_inode_ok.
  - by apply coherent_invalidate.
Qed.

Lemma open_inv_ext disk disk' s : (forall j, disk j = disk' j) -> open_inv m disk s -> open_inv m disk' s.
Proof.
  intros He [(zs & Hf & Hc & Hr) Ht Hd Ho Hco]. split; [|done..|].
  - exists zs. by rewrite <- He.
  - intros j c Hj. rewrite <- He. by apply Hco.
Qed.

Lemma set_disk_set disk ino c c' : forall j, set_disk (set_disk disk ino c) ino c' j = set_disk disk ino c' j.
Proof. intros j. unfold set_disk. by destruct (j =? ino). Qed.

Lemma set_disk_same disk ino : forall j, disk j = set_disk disk ino (disk ino) j.
Proof. intros j. unfold set_disk. by destruct (Z.eqb_spec j ino) as [->|]. Qed.

Lemma set_disk_at disk ino c : set_disk disk ino c ino = c.
Proof. unfold set_disk. by rewrite Z.eqb_refl. Qed.

Lemma overlay_end c l : overlay (length c) l c = c ++ l.
Proof. unfold overlay. rewrite Nat.sub_diag, app_nil_r, take_ge, drop_ge by lia. by rewrite app_nil_r. Qed.

Lemma extend_runs : forall fuel rem disk s,
  let ino := inode_no (ns_node s) in
  open_inv m disk s -> (rem < fuel * B)%nat \/ rem = 0%nat -> (length (disk ino) + rem <= m * B)%nat ->
  exists s', nruns (extend_loop sb RW get_user_key keystream fuel (Z.of_nat (length (disk ino))) rem) s (Ok tt) s' /\
    inode_no (ns_node s') = ino /\ open_inv m (set_disk disk ino (disk ino ++ replicate rem 0)) s'.
Proof.
  induction fuel as [|fuel IH]; intros rem disk s ino Hi Hf Hend; (destruct rem as [|rem]; [|try lia]).
  1,2: exists s; split_and!; [apply nruns_ret|done|rewrite app_nil_r; eapply open_inv_ext; [apply set_disk_same|done]].
  cbn [extend_loop]. set (k := Nat.min (S rem) B). pose proof B_gt as HB. assert (Hk : (0 < k <= S rem)%nat) by (unfold k; lia).
  destruct (write_step disk s (length (disk ino)) (replicate k 0) Hi) as (s1 & H1 & Hn1 & Hi1).
  { cbn [fits]. fold ino. rewrite length_replicate. lia. }
  { intros Hx. apply (f_equal length) in Hx. rewrite length_replicate in Hx. cbn [length] in Hx. lia. }
  rewrite overlay_end in Hi1. fold ino in Hn1, Hi1.
  destruct (IH (S rem - k)%nat _ s1 Hi1) as (s2 & H2 & Hn2 & Hi2).
  { cbn [Nat.mul] in Hf. lia. }
  { rewrite Hn1, set_disk_at, length_app, length_replicate. lia. }
  rewrite Hn1, set_disk_at in H2, Hi2. exists s2. split_and!; [|by rewrite Hn2|].
  - eapply nruns_bind; [by apply nruns_map_err|].
    replace (Z.of_nat (length (disk ino)) + Z.of_nat k) with (Z.of_nat (length (disk ino ++ replicate k 0))) by (rewrite length_app, length_replicate; lia).
    exact H2.
  - eapply open_inv_ext; [apply set_disk_set|]. rewrite <- app_assoc, <- replicate_add in Hi2.
    by replace (S rem) with (k + (S rem - k))%nat by lia.
Qed.

Lemma truncate_step disk s k :
  open_inv m disk s -> fits m (disk (inode_no (ns_node s))) (FTruncate k) ->
  exists s', nruns (node_truncate sb RW get_user_key keystream (Z.of_nat k)) s (Ok tt) s' /\
    inode_no (ns_node s') = inode_no (ns_node s) /\
    open_inv m (set_disk disk (inode_no (ns_node s)) (resize_zero k (disk (inode_no (ns_node s))))) s'.
Proof.
  intros Hi Hfit. set (ino := inode_no (ns_node s)) in *.
  assert (Hsize : isize (node_inode (ns_node s)) = Z.of_nat (length (disk ino))).
  { destruct Hi as [(zs & Hf & Hc & _) _ _ _ _]. subst ino. rewrite <- Hc, (size_of_contents sb) by done. pose proof (fo_size _ _ _ _ Hf). lia. }
  destruct (Nat.lt_trichotomy k (length (disk ino))) as [Hlt|[Heq|Hgt]]; [by apply shrink_step| |].
  - exists s. split_and!; [|done|].
    + unfold node_truncate. apply nruns_get. intros d. cbn [fs_at fst]. rewrite Hsize.
      replace (_ =? _) with true by lia. apply nruns_ret.
    + eapply open_inv_ext; [|exact Hi]. intros j. rewrite (set_disk_same disk ino j). f_equal.
      unfold resize_zero. rewrite Heq, take_ge, Nat.sub_diag by lia. by rewrite app_nil_r.
  - cbn [fits] in Hfit. pose proof B_gt.
    destruct (extend_runs (S ((k - length (disk ino)) / B)) (k - length (disk ino)) disk s Hi) as (s' & Hr & Hn & Hi').
    { left. pose proof (Nat.div_mod_eq (k - length (disk ino)) B). pose proof (Nat.mod_upper_bound (k - length (disk ino)) B B_pos). lia. }
    { fold ino. lia. }
    exists s'. split_and!; [|done|].
    + unfold node_truncate. apply nruns_get. intros d. cbn [fs_at fst]. rewrite Hsize.
      replace (Z.of_nat k =? _) with false by lia. replace (Z.of_nat k <? _) with false by lia.
      by replace (Z.to_nat (Z.of_nat k - Z.of_nat (length (disk ino)))) with (k - length (disk ino))%nat by lia.
    + unfold resize_zero. by rewrite (take_ge (disk ino)) by lia.
Qed.

Lemma read_step disk s off k : open_inv m disk s ->
  exists s', nruns (node_step (FRead off k)) s (Ok (load off k (disk (inode_no (ns_node s))))) s' /\
    inode_no (ns_node s') = inode_no (ns_node s) /\ open_inv m disk s'.
Proof.
  destruct s as [n sh a]. intros [(zs & Hf & Hc & Hr) Ht Hd Ho Hco]. cbn [ns_node ns_vol ns_shared] in *.
  destruct (node_read_runs sb now uid gid get_user_key keystream n a zs d0 Hf Hg disk (eq_sym Hc) sh off k Ho Hco) as (sh' & Hrun & Ho' & Hco').
  exists (mkNS n sh' a). rewrite <- Hc at 1. split_and!; [exact Hrun|done|]. split; [by exists zs|done..].
Qed.

Lemma node_step_refines disk s op :
  let ino := inode_no (ns_node s) in
  open_inv m disk s -> fits m (disk ino) op ->
  exists s', nruns (node_step op) s (Ok (fst (spec_step (disk ino) op))) s' /\ inode_no (ns_node s') = ino /\
    open_inv m (set_disk disk ino (snd (spec_step (disk ino) op))) s'.
Proof.
  intros ino Hi Hfit. destruct op as [off k|off data|k]; cbn [spec_step fst snd].
  - destruct (read_step disk s off k Hi) as (s' & Hr & Hn & Hi'). exists s'. split_and!; [done..|].
    eapply open_inv_ext; [apply set_disk_same|done].
  - destruct data as [|x data].
    + exists s. split_and!; [|done|].
      * cbn [node_step node_write]. eapply nruns_bind; apply nruns_ret.
      * eapply open_inv_ext; [|exact Hi]. intros j. rewrite (set_disk_same disk ino j). f_equal. unfold overlay. cbn [length app].
        destruct Hfit as [Ho _]. rewrite take_app_le, Nat.add_0_r, take_drop by done. done.
    + destruct (write_step disk s off (x :: data) Hi Hfit ltac:(done)) as (s' & Hr & Hn & Hi'). exists s'. split_and!; [|done..].
      cbn [node_step]. eapply nruns_bind; [exact Hr|apply nruns_ret].
  - destruct (truncate_step disk s k Hi Hfit) as (s' & Hr & Hn & Hi'). exists s'. split_and!; [|done..].
    cbn [node_step]. eapply nruns_bind; [by apply nruns_map_err|apply nruns_ret].
Qed.

Lemma node_run_refines : forall ops disk s,
  let ino := inode_no (ns_node s) in
  open_inv m disk s -> fits_all m (disk ino) ops ->
  exists s', nruns (node_run ops) s (Ok (fst (spec_run (disk ino) ops))) s' /\ inode_no (ns_node s') = ino /\
    open_inv m (set_disk disk ino (snd (spec_run (disk ino) ops))) s'.
Proof.
  induction ops as [|op ops IH]; intros disk s ino Hi Hfit; cbn [spec_run node_run fst snd].
  { exists s. split_and!; [apply nruns_ret|done|]. eapply open_inv_ext; [apply set_disk_same|done]. }
  destruct Hfit as [Hfit Hall]. destruct (node_step_refines disk s op Hi Hfit) as (s1 & H1 & Hn1 & Hi1). fold ino in H1, Hn1, Hi1.
  destruct (IH _ s1 Hi1) as (s2 & H2 & Hn2 & Hi2); [by rewrite Hn1, set_disk_at|].
  rewrite Hn1, set_disk_at in H2, Hi2. exists s2. split_and!; [|by rewrite Hn2|].
  - eapply nruns_bind; [exact H1|]. eapply nruns_bind; [exact H2|apply nruns_ret].
  - eapply open_inv_ext; [apply set_disk_set|exact Hi2].
Qed.
End open_file.

(** ** Other files *)

(** The zones of a file, data and indirect. *)
Definition owns (i : Inode) (zs : list Z) (z : Z) : Prop := z ∈ zs \/ (z <> 0 /\ z = indirect i).

Lemma other_file_kept {D : Type} `{ReliableDev D} sb a i zs o e data a' (d : D) other zs2 :
  vol_geom sb d -> file_ok sb a i zs -> grows zs (free_list sb a) (indirect i) o e -> length data = (e - o)%nat -> wrote sb a i zs o e data a' ->
  file_ok sb a other zs2 -> (forall z, owns other zs2 z -> ~ owns i zs z) ->
  file_ok sb a' other zs2 /\ file_contents a' other zs2 = file_contents a other zs2.
Proof.
  intros Hg Hf G Hl Hw Hf2 Hdis.
  assert (Hkeep : forall z, owns other zs2 z -> in_data sb z -> vzused a z = true -> vblk a' z = vblk a z /\ vzused a' z = true).
  { intros z Ho Hz Hu. apply (wrote_frame sb a i zs o e G data Hl a'); try done.
    - intros Hin. apply (Hdis z Ho). by left.
    - intros ->. apply (Hdis _ Ho). right. pose proof (data_positive sb d _ Hg Hz). split; [lia|done]. }
  assert (Hzs : forall z, z ∈ zs2 -> vblk a' z = vblk a z /\ vzused a' z = true).
  { intros z Hz. destruct (fo_zs _ _ _ _ Hf2 z Hz) as (Hd & Hu & _). apply Hkeep; [by left|done..]. }
  split.
  - destruct Hf2. split; try done.
    + intros Hi. destruct (fo_ind Hi) as (Hd & Hu & Hn & Ht). destruct (Hkeep (indirect other)) as [Hb Hu']; [by right|done..|]. by rewrite Hb.
    + intros z Hz. destruct (fo_zs z Hz) as (Hd & Hu & Hlen). destruct (Hzs z Hz) as [-> ->]. done.
  - unfold file_contents. do 2 f_equal. apply list_fmap_ext. intros k z Hz. apply Hzs. by eapply list_elem_of_lookup_2.
Qed.

(** ** The theorems *)

(** C2. On a reliable device that holds a volume with the geometry of a formatted one, mounted for writing: any sequence of reads, writes and truncations through one open node of a file gives the results of the same sequence on a list of bytes and leaves that list as the contents, with the inode on disk up to date and the cache coherent. The file is unencrypted, not inline, without holes and without double-indirect blocks, its inode lies in a block of the table before the data zones; writes start inside the file or at its end; writes and truncations stay within m blocks, with m at most 517 and at least m + 1 zones free or already the file's. *)
Theorem open_file_is_byte_array {D : Type} `{ReliableDev D} (sb : Superblock) (now uid gid : Z)
    (get_user_key : Z -> option (list Z)) (keystream : list Z -> list Z -> nat -> list Z)
    (m : nat) (ops : list file_op) (disk : Z -> list Z) (s : NS) (d : D) :
  (m <= DIRECT_SLOT_COUNT + IND_CAP)%nat -> rep sb d (ns_vol s) -> open_inv sb m disk s ->
  let ino := inode_no (ns_node s) in
  fits_all m (disk ino) ops ->
  exists s' d', node_run sb get_user_key keystream ops (fs_at now uid gid s d) =
      (Ok (fst (spec_run (disk ino) ops)), fs_at now uid gid s' d') /\
    rep sb d' (ns_vol s') /\ inode_no (ns_node s') = ino /\ open_inv sb m (set_disk disk ino (snd (spec_run (disk ino) ops))) s'.
Proof.
  intros Hm Hrep Hi ino Hfit.
  destruct (node_run_refines sb now uid gid get_user_key keystream m Hm d (proj1 Hrep) ops disk s Hi Hfit) as (s' & Hr & Hn & Hi').
  destruct (Hr d Hrep) as (d' & Hrun & Hrep'). by exists s', d'.
Qed.

(** C27. On a reliable device that holds a volume with the geometry of a formatted one, mounted for writing: a write to an open file, starting inside it or at its end and ending within m blocks, succeeds and leaves another file that shares no zone with it alone, its zones and its contents, and every other inode in a block of the table before the data zones. Both files are unencrypted, not inline, without holes and without double-indirect blocks; the inode of the file written lies in a block of the table before the data zones; m is at most 517 and m + 1 zones are free or already the file's. *)
Theorem node_write_leaves_others {D : Type} `{ReliableDev D} (sb : Superblock) (now uid gid : Z)
    (get_user_key : Z -> option (list Z)) (keystream : list Z -> list Z -> nat -> list Z)
    (m off : nat) (data : list Z) (n : TFSVfsNode) (sh : TwilightFsShared) (a : Volume) (zs : list Z) (other : Inode) (zs2 : list Z) (d : D) :
  (m <= DIRECT_SLOT_COUNT + IND_CAP)%nat -> rep sb d a -> in_table sb (inode_no n) ->
  file_ok sb a (node_inode n) zs -> (S m <= room sb (node_inode n) zs a)%nat ->
  (off <= Z.to_nat (isize (node_inode n)))%nat -> (off + length data <= m * TfsNode.BLOCK_SIZE)%nat ->
  file_ok sb a other zs2 -> (forall z, owns other zs2 z -> ~ owns (node_inode n) zs z) ->
  exists n' sh' a' d', node_write sb MountReadWrite get_user_key keystream (Z.of_nat off) data (fs_at now uid gid (mkNS n sh a) d) =
      (Ok tt, fs_at now uid gid (mkNS n' sh' a') d') /\ rep sb d' a' /\
    file_ok sb a' other zs2 /\ file_contents a' other zs2 = file_contents a other zs2 /\
    (forall j, j <> inode_no n -> vino a' j = vino a j).
Proof.
  intros Hm Hrep Ht Hf Hr Hoff Hend Hf2 Hdis. pose proof (proj1 Hrep) as Hg.
  destruct (decide (data = [])) as [->|Hne]; [by exists n, sh, a, d|].
  assert (0 < length data)%nat by (destruct data; [done|cbn; lia]).
  assert (He : (off + length data <= (DIRECT_SLOT_COUNT + IND_CAP) * TfsNode.BLOCK_SIZE)%nat).
  { etransitivity; [exact Hend|]. by apply Nat.mul_le_mono_r. }
  pose proof (file_grows sb a (node_inode n) zs d off (off + length data) Hf Hg ltac:(lia) Hoff He (enough_zones sb m Hm _ _ _ _ Hf Hr Hend)) as G.
  destruct (node_write_runs sb now uid gid get_user_key keystream n a zs data off (off + length data) d Hf G ltac:(lia) Hg Ht He sh)
    as (a' & Hrun & Hw & _ & Hv).
  destruct (Hrun d Hrep) as (d' & Heq & Hrep'). do 3 eexists. exists d'. split; [exact Heq|]. split; [exact Hrep'|].
  destruct (other_file_kept sb a (node_inode n) zs _ _ data a' d other zs2 Hg Hf G ltac:(lia) Hw Hf2 Hdis) as [Hk1 Hk2].
  split_and!; [done..|]. intros j Hj. rewrite Hv. by replace (j =? inode_no n) with false by lia.
Qed.

(** ** Witnesses: a file on the small ideal disk *)

(** An empty file with inode number 2, and another with inode number 3 that has zone 4. *)
Definition empty_file : Inode := new_file 0 0 0 0x1A4.
Definition one_block_file : Inode := direct_slot_set 0 4 (with_size 100 empty_file).
Definition demo_disk : IdealDisk :=
  snd (write_inode small_sb 3 one_block_file (snd (write_inode small_sb 2 empty_file (snd (allocate_zone small_sb small_disk))))).
Definition demo_state : NS := mkNS (mkNode 2 empty_file "/f") TwilightFsShared_new (volume_of small_sb demo_disk).
Definition demo_ops : list file_op :=
  [FWrite 0 [1; 2; 3]; FTruncate 5000; FWrite 4998 [9; 8; 7]; FRead 0 5; FRead 4997 10; FTruncate 2; FRead 0 5].

Lemma empty_file_ok : inode_ok empty_file.
Proof. unfold inode_ok, in_width. cbn. split_and!; try done; try lia. repeat constructor; unfold in_width; cbn; lia. Qed.

Lemma demo_geom : vol_geom small_sb demo_disk.
Proof.
  assert (R0 : rep small_sb small_disk (volume_of small_sb small_disk)).
  { apply rep_volume_of, small_geom; [|done..]. split; [cbn; lia|]. intros x. apply length_replicate. }
  assert (Hz : least_free_zone small_sb (volume_of small_sb small_disk) 4).
  { split; [unfold in_data; cbn; lia|]. split; [vm_compute; done|]. unfold in_data. cbn. lia. }
  apply (rep_snd small_sb _ _ _ _ _ (runs_allocate_zone small_sb _ 4 Hz)) in R0.
  apply (rep_snd small_sb _ _ _ _ _ (runs_write_inode small_sb 2 empty_file _ ltac:(split; [cbn; lia|by vm_compute]) empty_file_ok)) in R0.
  assert (Ho : inode_ok one_block_file).
  { apply direct_slot_set_ok; [apply with_size_ok; [apply empty_file_ok|unfold in_width; lia]|unfold in_width; lia]. }
  apply (rep_snd small_sb _ _ _ _ _ (runs_write_inode small_sb 3 one_block_file _ ltac:(split; [cbn; lia|by vm_compute]) Ho)) in R0.
  apply R0.
Qed.

Lemma demo_file_ok : file_ok small_sb (volume_of small_sb demo_disk) empty_file [].
Proof.
  split; try done.
  - apply empty_file_ok.
  - apply Nat.le_0_l.
  - intros _. apply Nat.le_0_l.
  - constructor.
  - by intros z Hz%not_elem_of_nil.
Qed.

Lemma one_block_ok : file_ok small_sb (volume_of small_sb demo_disk) one_block_file [4].
Proof.
  split; try done.
  - apply direct_slot_set_ok; [apply with_size_ok; [apply empty_file_ok|unfold in_width; lia]|unfold in_width; lia].
  - apply Nat.leb_le. vm_compute. done.
  - intros _. apply Nat.leb_le. vm_compute. done.
  - apply NoDup_singleton.
  - intros z Hz. apply list_elem_of_singleton in Hz as ->. split_and!; [unfold in_data; cbn; lia|vm_compute; done|vm_compute; done].
Qed.

Lemma demo_inv : open_inv small_sb 4 (fun _ => []) demo_state.
Proof.
  split.
  - exists []. split_and!; [exact demo_file_ok|done|]. apply Nat.leb_le. vm_compute. done.
  - split; [cbn; lia|by vm_compute].
  - vm_compute. done.
  - by apply files_empty_ok.
  - by apply coherent_empty.
Qed.

Lemma open_file_is_byte_array_witness :
  exists s' d', node_run small_sb (fun _ => None) (fun _ _ n => replicate n 0) demo_ops (fs_at 0 0 0 demo_state demo_disk) =
    (Ok [[]; []; []; [1; 2; 3; 0; 0]; [0; 9; 8; 7]; []; [1; 2]], fs_at 0 0 0 s' d').
Proof.
  destruct (open_file_is_byte_array small_sb 0 0 0 (fun _ => None) (fun _ _ n => replicate n 0) 4 demo_ops (fun _ => []) demo_state demo_disk)
    as (s' & d' & Hr & _).
  - unfold IND_CAP, ZONE_ENTRIES, DIRECT_SLOT_COUNT. lia.
  - apply rep_volume_of, demo_geom.
  - exact demo_inv.
  - cbn [demo_ops fits_all fits]. split_and!; try done; apply Nat.leb_le; vm_compute; done.
  - exists s', d'. exact Hr.
Defined.

Lemma node_write_leaves_others_witness :
  exists n' sh' a' d', node_write small_sb MountReadWrite (fun _ => None) (fun _ _ n => replicate n 0) 0 [5]
      (fs_at 0 0 0 demo_state demo_disk) = (Ok tt, fs_at 0 0 0 (mkNS n' sh' a') d') /\
    file_contents a' one_block_file [4] = replicate 100 0.
Proof.
  destruct (node_write_leaves_others small_sb 0 0 0 (fun _ => None) (fun _ _ n => replicate n 0) 4 0 [5] (mkNode 2 empty_file "/f")
    TwilightFsShared_new (volume_of small_sb demo_disk) [] one_block_file [4] demo_disk) as (n' & sh' & a' & d' & Hr & _ & _ & Hc & _).
  - unfold IND_CAP, ZONE_ENTRIES, DIRECT_SLOT_COUNT. lia.
  - apply rep_volume_of, demo_geom.
  - split; [cbn; lia|by vm_compute].
  - exact demo_file_ok.
  - apply Nat.leb_le. vm_compute. done.
  - cbn. lia.
  - apply Nat.leb_le. vm_compute. done.
  - exact one_block_ok.
  - intros z [Hz| [Hz ->]]; [|done]. intros [Hx%not_elem_of_nil| [_ Hx]]; [done|]. apply list_elem_of_singleton in Hz as ->. done.
  - exists n', sh', a', d'. split; [exact Hr|]. rewrite Hc. vm_compute. done.
Defined.
