(* ===== verification/TfsPathSpec.v ===== *)
(** * TwilightFS paths: resolution ends, names split and join

    The walk of [resolve_path] ends however the symbolic links on the disk are laid out,
    and [split_parent_and_name] and [join_parent_and_name] agree on what a path names. *)

From Stdlib Require Import Ascii ZifyBool.
From S2P Require Import Prelude Bytes Text BlockDev BlockDevSpec TfsBlock TfsAlloc TfsInode TfsCache Vfs TfsDir TfsFile TfsPath.
Open Scope twilight_scope.

Lemma of_bytes_length l : String.length (of_bytes l) = length l.
Proof. induction l as [|b l IH]; [done|]. cbn. by rewrite IH. Qed.

Lemma components_length s : (length (components s) <= String.length s)%nat.
Proof.
  unfold components. induction s as [|c s IH]; [done|]. cbn [split String.length].
  destruct (Ascii.eqb c slash); [rewrite filter_cons_False by done; lia|].
  destruct (split slash s) as [|p ps] eqn:Hs; [by apply split_nonempty in Hs|].
  rewrite filter_cons_True by done. cbn [length]. rewrite filter_cons in IH. case_decide; cbn [length] in IH; lia.
Qed.

Lemma link_components i target :
  from_utf8 (inline_data_bytes i) = Some target -> (length (components target) <= INODE_INLINE_BYTES)%nat.
Proof.
  unfold from_utf8. case_match; [|done]. injection 1 as <-. etransitivity; [apply components_length|].
  rewrite of_bytes_length. unfold inline_data_bytes. rewrite length_take. lia.
Qed.

Section resolve.
Context {D : Type} `{!BlockDeviceIO D} (sb : Superblock).

(** With room for the components left and for the links still allowed, one more turn
    changes nothing. *)
Lemma resolve_loop_fuel : forall fuel extra current pending links s,
  (links <= MAX_SYMLINKS)%nat -> (length pending + (MAX_SYMLINKS - links) * INODE_INLINE_BYTES <= fuel)%nat ->
  resolve_loop (D := D) sb (fuel + extra) current pending links s = resolve_loop sb fuel current pending links s.
Proof.
  assert (Hnil : forall k current links s, resolve_loop (D := D) sb k current [] links s = (Ok current, s)) by by intros [].
  induction fuel as [|fuel IH]; intros extra current [|part pending] links s Hl Hf; cbn [length] in Hf; rewrite ?Hnil; try done; [by inversion Hf|].
  cbn [Nat.add resolve_loop]. unfold bindM. destruct (invalid _ s) as [[[num|]|e|] s1]; try done.
  destruct (on_device _ s1) as [[i|e|] s2]; try done.
  destruct (TfsInode.is_symlink i); [|apply IH; lia]. destruct (Nat.ltb_spec MAX_SYMLINKS (S links)); [done|].
  destruct (from_utf8 _) as [target|] eqn:Ht; [|done]. apply link_components in Ht. destruct (is_empty target); [done|].
  apply IH; [done|]. rewrite length_app.
  replace (MAX_SYMLINKS - links)%nat with (S (MAX_SYMLINKS - S links)) in Hf by lia. cbn [Nat.mul] in Hf. lia.
Qed.
End resolve.

(** However the directories and symbolic links on the disk are laid out, the walk of resolve_path ends within the turns it is given: with any more it gives the same result. *)
Theorem resolve_path_ends {D : Type} `{!BlockDeviceIO D} (sb : Superblock) (path : string) (extra : nat) (s : TwilightFs D) :
  let parts := components (canonical path) in
  resolve_loop sb (resolve_fuel parts + extra) 1 parts 0 s = resolve_loop sb (resolve_fuel parts) 1 parts 0 s.
Proof. apply resolve_loop_fuel; [apply Nat.le_0_l|]. unfold resolve_fuel. rewrite Nat.sub_0_r. done. Qed.

Lemma removelast_last {A} (l : list A) x : last l = Some x -> removelast l ++ [x] = l.
Proof.
  intros Hl. destruct (exists_last (l := l)) as (l' & y & ->); [by intros ->|].
  rewrite last_snoc in Hl. injection Hl as ->. by rewrite removelast_last.
Qed.

(** A path splits into a parent and a name that join to a path with the same components; the name is plain. *)
Theorem split_join_path (path parent name : string) :
  split_parent_and_name path = Ok (parent, name) ->
  components (join_parent_and_name parent name) = components path /\ components parent ++ [name] = components path /\
  plain name = true.
Proof.
  unfold split_parent_and_name. pose proof (components_all_plain path) as Hp.
  destruct (last (components path)) as [x|] eqn:Hl; [|done]. apply removelast_last in Hl.
  destruct (_ || _); [done|]. injection 1 as <- <-. rewrite <- Hl in Hp. apply Forall_app in Hp as [Hps Hx]. apply Forall_cons in Hx as [Hx _].
  set (ps := removelast (components path)) in *. rewrite <- Hl.
  assert (Hpar : components (match ps with [] => "/" | _ => "/" +:+ join "/" ps end) = ps).
  { destruct ps as [|q ps']; [done|]. change ("/" +:+ join "/" (q :: ps')) with (String slash (join "/" (q :: ps'))).
    by rewrite components_slash, components_join. }
  rewrite Hpar. split_and!; [|done..]. unfold join_parent_and_name. case_bool_decide as Hroot.
  - rewrite Hroot in Hpar. change ("/" +:+ x) with (String slash x). rewrite components_slash, components_plain by done. by rewrite <- Hpar.
  - change ("/" +:+ x) with (String slash x). by rewrite components_sep, Hpar, components_plain.
Qed.

Lemma split_join_path_witness :
  split_parent_and_name "/usr//share/doc/" = Ok ("/usr/share", "doc") /\
  components (join_parent_and_name "/usr/share" "doc") = components "/usr//share/doc/".
Proof.
  split; [vm_compute; reflexivity|]. apply (split_join_path "/usr//share/doc/" "/usr/share" "doc"). vm_compute. reflexivity.
Defined.
