(* ===== verification/TfsFindings.v ===== *)
(** * TwilightFS: where the code falls short

    Runs of the file-system operations on a freshly formatted ideal disk: sparse files,
    two open nodes of one file, a path cached under another spelling, and the block
    numbering past the single-indirect block. *)

From Stdlib Require Import Ascii ZifyBool.
From S2P Require Import Prelude Bytes Text BlockDev BlockDevSpec TfsBlock TfsAlloc TfsInode TfsCache Vfs TfsDir TfsFile TfsPath TfsNode TfsFs.
Open Scope twilight_scope.

Definition raw_disk : IdealDisk := mkIdeal 2048 64 (fun _ => replicate 2048 0).
Definition formatted : res string (Superblock * TwilightFs IdealDisk) := fst (format_partition 64 1000 0 0 raw_disk).
Definition demo_sb : Superblock := match formatted with Ok (sb, _) => sb | _ => small_sb end.
Definition demo_fs : TwilightFs IdealDisk :=
  match formatted with Ok (_, t) => t | _ => mkTfs raw_disk TwilightFsShared_new 0 0 0 end.
Abbreviation RW := MountReadWrite.
Definition no_key (_ : Z) : option (list Z) := None.
Definition no_stream (_ _ : list Z) (n : nat) : list Z := replicate n 0.
Abbreviation wr := (node_write demo_sb RW no_key no_stream).
Abbreviation rd := (node_read no_key no_stream).

(** [/a] is a directory and [/a/f] an empty file in it. *)
Definition with_file : TwilightFs IdealDisk :=
  snd ((tfs_mkdir demo_sb RW "/" "a" 0x1ED >>> tfs_touch demo_sb RW "/a" "f" 0x1A4) demo_fs).
Definition opened (t : TwilightFs IdealDisk) : TFSVfsNode * TwilightFs IdealDisk :=
  match tfs_open demo_sb "/a/f" t with
  | (Ok v, t) => (Vfs.node v, t)
  | (_, t) => (mkNode 0 (new_file 0 0 0 0) "", t)
  end.

Example opened_file : inode_no (fst (opened with_file)) = 3.
Proof. vm_compute. reflexivity. Qed.

(** ** Sparse files *)

(** A byte written past a hole is not read back where it was written: reading collects
    the blocks the file has, one after the other, as if there were no hole. *)
Theorem sparse_file_misread :
  let s := opened with_file in
  let s' := snd (wr 12288 [7] s) in
  fst (wr 12288 [7] s) = Ok tt /\ isize (node_inode (fst s')) = 12289 /\
  fst (rd 12288 1 s') = Ok [0] /\ fst (rd 2048 1 s') = Ok [7].
Proof. vm_compute. by split_and!. Qed.

(** ** Two open nodes *)

(** Each open node has its own copy of the inode: a write through the second, opened
    before the first wrote, replaces the inode and loses what the first wrote. *)
Theorem second_node_loses_write :
  let s := opened with_file in
  let t1 := snd (snd (wr 0 (replicate 10 1) s)) in
  let t2 := snd (snd (wr 0 [2] (fst s, t1))) in
  fst (rd 0 10 (opened t1)) = Ok (replicate 10 1) /\
  isize (node_inode (fst (opened t2))) = 1 /\ fst (rd 0 10 (opened t2)) = Ok [2].
Proof. vm_compute. by split_and!. Qed.

(** ** Cached paths *)

(** Removing a file forgets the path it was removed by, and no other spelling of it: the
    other one still resolves to the inode that was freed. *)
Theorem alias_resolves_removed :
  let t := snd (resolve_path demo_sb "/a/../a/f" with_file) in
  let t' := snd (tfs_rm demo_sb RW "/a/f" t) in
  fst (resolve_path demo_sb "/a/../a/f" with_file) = Ok 3 /\ fst (tfs_rm demo_sb RW "/a/f" t) = Ok tt /\
  fst (resolve_path demo_sb "/a/f" t') = Err FileNotFound /\
  fst (resolve_path demo_sb "/a/../a/f" t') = Ok 3 /\ inode_used (t_device t') 3 = false.
Proof. vm_compute. by split_and!. Qed.

(** ** Past the single-indirect block *)

(** Writing counts 511 entries in the single-indirect block and reading 512, so that
    block 5000 is written under one index and looked up under another. *)
Theorem double_indirect_lost :
  let s := opened with_file in
  let s' := snd (wr (5000 * 2048) [7] s) in
  fst (wr (5000 * 2048) [7] s) = Ok tt /\ isize (node_inode (fst s')) = 5000 * 2048 + 1 /\
  fst (rd (5000 * 2048) 1 s') = Ok [].
Proof. vm_compute. by split_and!. Qed.

(** ** Creating where there is no directory *)

(** [mkdir] reports success when the parent does not exist. *)
Theorem mkdir_without_parent :
  fst (tfs_mkdir demo_sb RW "/missing" "d" 0x1ED demo_fs) = Ok tt /\
  fst (resolve_path demo_sb "/missing/d" (snd (tfs_mkdir demo_sb RW "/missing" "d" 0x1ED demo_fs))) = Err FileNotFound.
Proof. vm_compute. by split_and!. Qed.
