(* ===== verification/FatNames.v ===== *)
(** * Names in FAT directories (src/kernel/twilight_kernel/src/sys/fs/fat32)

    Short names (8.3) and the registry that keeps them apart, the entries of a
    long name, and the parser that reads a directory back.  A short name is a list
    of 11 bytes, a directory entry a list of 32.  The parts of a short name are
    lists of ASCII characters. *)

From Stdlib Require Import Ascii ZifyBool.
From stdpp Require Import pretty.
From S2P Require Import Prelude Bytes Text Utf.

(** ** Short names *)

Definition code (c : ascii) : Z := byte_of_ascii c.

Definition is_valid_short_char (ch : Z) : bool :=
  in_range (code "A") (code "Z") ch || in_range (code "0") (code "9") ch
  || existsb (Z.eqb ch) (as_bytes "!#$%&'()-@^_`{}~").

(** At most [max_len] characters, upper case, the others replaced by an underscore. *)
Fixpoint sanitize_component (part : list Z) (max_len : nat) : list Z :=
  match part, max_len with
  | ch :: part, S n =>
    let up := ascii_upper ch in
    (if is_valid_short_char up then up else code "_") :: sanitize_component part n
  | _, _ => []
  end.

Definition split_filename (name : string) (is_dir : bool) : string * string :=
  if is_dir then (name, "") else
  let trimmed := trim_matches slash name in
  if is_empty trimmed then ("_", "") else
  match rsplit_once "." trimmed with
  | Some (base, ext) => if is_empty base then ("_", ext) else (base, ext)
  | None => (trimmed, "")
  end.

(** Both parts padded with spaces. *)
Definition compose_short (base ext : list Z) : list Z :=
  store 8 (take 3 ext) (store 0 (take 8 base) (replicate 11 (code " "))).

Definition fallback_short_name (name : string) (is_dir : bool) : list Z :=
  let '(base_raw, ext_raw) := split_filename name is_dir in
  let base := sanitize_component (chars base_raw) 8 in
  let ext := if is_dir then [] else sanitize_component (chars ext_raw) 3 in
  compose_short base ext.

Definition equals_ignore_case (a b : string) : bool :=
  (slen a =? slen b)%nat
  && forallb (fun '(x, y) => ascii_upper x =? ascii_upper y) (zip (chars a) (chars b)).

Definition forced_short_for_file (name : string) : option (list Z) :=
  if equals_ignore_case name "limine-bios.sys" then Some (as_bytes "LIMINE  SYS") else None.

(** ** [ShortNameRegistry] *)

Record ShortNameRegistry := mkRegistry {
  counts : gmap (list Z * list Z * bool) Z; used : gset (list Z);
}.
Definition ShortNameRegistry_new : ShortNameRegistry := mkRegistry ∅ ∅.

Definition reserve (short : list Z) (r : ShortNameRegistry) : ShortNameRegistry :=
  mkRegistry (counts r) ({[short]} ∪ used r).

(** The base of the [attempt]-th try: from the second on it ends in a number. *)
Definition numbered (base_clean : list Z) (attempt : Z) : list Z :=
  if 0 <? attempt then
    let suffix := as_bytes ("~" +:+ pretty (Z.to_N attempt)) in
    let avail := (8 - length suffix)%nat in
    if (avail =? 0)%nat then reverse (take 8 (reverse suffix))
    else take (avail `max` 1) base_clean ++ suffix
  else base_clean.

(** The loop of [generate]; [None] is a loop that is still running. *)
Fixpoint generate_loop (fuel : nat) (used : gset (list Z)) (base ext : list Z) (attempt : Z)
    : option (list Z * Z) :=
  match fuel with
  | O => None
  | S fuel =>
    let short := compose_short (numbered base attempt) ext in
    if decide (short ∈ used) then generate_loop fuel used base ext (u32 (attempt + 1))
    else Some (short, u32 (attempt + 1))
  end.

Definition clean_parts (original : string) (is_dir : bool) : list Z * list Z :=
  let '(base_raw, ext_raw) := split_filename original is_dir in
  let base := sanitize_component (chars base_raw) 8 in
  (match base with [] => [code "_"] | _ => base end,
   if is_dir then [] else sanitize_component (chars ext_raw) 3).

Definition generate (original : string) (is_dir : bool) (r : ShortNameRegistry)
    : option (list Z * ShortNameRegistry) :=
  let '(base_clean, ext) := clean_parts original is_dir in
  let key := (base_clean, ext, is_dir) in
  match generate_loop (size (used r) + 2) (used r) base_clean ext (default 0 (counts r !! key)) with
  | Some (short, attempt) =>
    Some (short, mkRegistry (<[key := attempt]> (counts r)) ({[short]} ∪ used r))
  | None => None
  end.

(** ** Writing directory entries *)

Definition set_first_cluster (entry : list Z) (cluster : Z) : list Z :=
  store 26 (to_le 2 (u16 cluster)) (store 20 (to_le 2 (u16 (Z.shiftr cluster 16))) entry).

Definition make_short_entry (short : list Z) (attr first_cluster size : Z) : list Z :=
  let entry := store 11 [attr] (store 0 short (replicate 32 0)) in
  store 28 (to_le 4 size) (set_first_cluster entry first_cluster).

Definition lfn_checksum (short : list Z) : Z :=
  fold_left (fun sum b => u8 (Z.shiftl (Z.land sum 1) 7 + Z.shiftr sum 1 + b)) short 0.

(** Where the 13 characters of a chunk are, in order. *)
Definition lfn_offsets : list nat :=
  ((fun i => 1 + i * 2)%nat <$> seq 0 5) ++ ((fun i => 14 + i * 2)%nat <$> seq 0 6)
  ++ ((fun i => 28 + i * 2)%nat <$> seq 0 2).

Definition fill_name_chunk (entry chunk : list Z) : list Z :=
  fold_left (fun e '(off, val) => store off (to_le 2 val) e) (zip lfn_offsets chunk) entry.

(** The name as UTF-16, ended by 0 and filled with 0xFFFF up to a multiple of 13. *)
Definition lfn_units (name : string) : list Z :=
  let utf16 := encode_utf16 name ++ [0] in
  utf16 ++ replicate ((13 - length utf16 mod 13) mod 13) 0xFFFF.

Definition lfn_entry (utf16 : list Z) (parts : nat) (checksum : Z) (chunk_index : nat) : list Z :=
  let order := u8 (Z.of_nat (chunk_index + 1)) in
  let entry := replicate 32 0 in
  let entry := store 0 [if (chunk_index + 1 =? parts)%nat then Z.lor order 0x40 else order] entry in
  let entry := store 11 [0x0F] entry in
  let entry := store 12 [0x00] entry in
  let entry := store 13 [checksum] entry in
  let entry := store 26 (to_le 2 0) entry in
  fill_name_chunk entry (load (chunk_index * 13) 13 utf16).

Definition build_lfn_entries (name : string) (short : list Z) : list (list Z) :=
  let utf16 := lfn_units name in
  let parts := (length utf16 / 13)%nat in
  lfn_entry utf16 parts (lfn_checksum short) <$> reverse (seq 0 parts).

Definition long_name_entry_slots (name : string) : nat :=
  let chars := (length (encode_utf16 name) + 1)%nat in ((chars + 12) / 13)%nat.

(** ** Reading directory entries (runtime.rs) *)

Definition ATTR_DIRECTORY : Z := 0x10.
Definition ATTR_VOLUME_ID : Z := 0x08.
Definition ATTR_LFN : Z := 0x0F.

Record FatDirEntry := mkFatEntry {
  fe_name : string; fe_cluster : Z; fe_size : Z; fe_attr : Z;
}.
Definition is_dir (e : FatDirEntry) : bool := negb (Z.land (fe_attr e) ATTR_DIRECTORY =? 0).

Definition decode_lfn_part (entry : list Z) : string :=
  of_chars (omap (fun off =>
    let val := from_le (load off 2 entry) in
    if (val =? 0xFFFF) || (val =? 0) then None else char_from_u32 val) lfn_offsets).

(** Every byte but spaces and zeros, as a character. *)
Definition trim_ascii (bytes : list Z) : string :=
  of_chars (filter (fun b => ~ (b = code " " \/ b = 0)) bytes).

Definition decode_short_name (entry : list Z) : string :=
  let base := trim_ascii (load 0 8 entry) in
  let ext := trim_ascii (load 8 3 entry) in
  if is_empty ext then base else if is_empty base then ext else base +:+ "." +:+ ext.

Definition nul : ascii := "000"%char.

Definition parse_short_entry (chunk : list Z) (lfn_parts : list string) : FatDirEntry :=
  let name := match lfn_parts with
              | [] => decode_short_name chunk
              | _ => trim_matches nul (foldr String.append "" (reverse lfn_parts))
              end in
  let cluster_high := from_le (load 20 2 chunk) in
  let cluster_low := from_le (load 26 2 chunk) in
  mkFatEntry name (Z.lor (Z.shiftl cluster_high 16) cluster_low) (from_le (load 28 4 chunk))
    (nth 11 chunk 0).

Fixpoint parse_chunks (chunks : list (list Z)) (lfn_parts : list string) : list FatDirEntry :=
  match chunks with
  | [] => []
  | chunk :: chunks =>
    let first := nth 0 chunk 0 in
    if first =? 0x00 then []
    else if first =? 0xE5 then parse_chunks chunks []
    else
      let attr := nth 11 chunk 0 in
      if attr =? ATTR_LFN then parse_chunks chunks (lfn_parts ++ [decode_lfn_part chunk])
      else if negb (Z.land attr ATTR_VOLUME_ID =? 0) then parse_chunks chunks []
      else parse_short_entry chunk lfn_parts :: parse_chunks chunks []
  end.

(** [buf.chunks(n)]; the buffers here are whole sectors. *)
Definition chunks (n : nat) (buf : list Z) : list (list Z) :=
  (fun i => load (i * n)%nat n buf) <$> seq 0 (length buf / n).

Definition parse_directory_entries (buf : list Z) : list FatDirEntry := parse_chunks (chunks 32 buf) [].
