(* ===== verification/FatNamesSpec.v ===== *)
(** * Names in FAT directories: what is written is read back

    A directory item written by the formatter is parsed back with its name, cluster
    and size, for every name of at most 255 characters of the basic plane; the
    registry always finds a free short name, in as many attempts as it has names. *)

From Stdlib Require Import Ascii ZifyBool.
From stdpp Require Import pretty.
From S2P Require Import Prelude Bytes Text Utf FatNames.

(** ** Lemmas: long names *)

Lemma trim_matches_no c s : contains c s = false -> trim_matches c s = s.
Proof.
  intros H. unfold trim_matches.
  assert (trim_start_matches c s = s) as ->.
  { destruct s as [|a s]; [done|]. cbn in *. apply orb_false_iff in H as [-> _]. done. }
  induction s as [|a s IH]; [done|]. cbn in H |- *. apply orb_false_iff in H as [Ha Hs].
  by rewrite IH, Ha, andb_false_r.
Qed.

Lemma contains_nul s : Forall (fun b => b <> 0) (as_bytes s) -> contains nul s = false.
Proof.
  induction s as [|a s IH]; [done|]. cbn [as_bytes contains]. intros [Ha Hs]%Forall_cons.
  rewrite (IH Hs), orb_false_r. destruct (Ascii.eqb_spec a nul) as [->|]; [|done]. by destruct Ha.
Qed.

(** The characters a long name brings back: neither 0 nor 0xFFFF, and one UTF-16 unit each. *)
Definition good_char (c : Z) : Prop := 0 < c < 0xFFFF.
(** The names a FAT directory can hold: at most 255 units. *)
Record good_name (name : string) : Prop := {
  gn_valid : valid_str name;
  gn_chars : Forall good_char (chars name);
  gn_length : (length (chars name) <= 255)%nat;
}.

Lemma good_name_utf16 name : good_name name -> encode_utf16 name = chars name.
Proof.
  intros [_ Hc _]. unfold encode_utf16. induction Hc as [|c cs Hc _ IH]; [done|].
  rewrite fmap_cons. cbn [concat]. rewrite IH. unfold utf16_units, good_char in *.
  by replace (c <? 65536) with true by lia.
Qed.

Lemma good_name_no_nul name : good_name name -> contains nul name = false.
Proof.
  intros [Hv Hc _]. apply contains_nul.
  destruct (decode_utf8_valid _ (as_bytes name) (le_n _) Hv) as [<- _].
  unfold chars in Hc. induction Hc as [|c cs Hc _ IH]; [constructor|].
  rewrite fmap_cons. cbn [concat]. apply Forall_app_2; [|done]. unfold encode_utf8, good_char in *.
  repeat case_if; repeat constructor; div_lia.
Qed.

Lemma from_le_2 c : 0 <= c < 65536 -> from_le [c mod 256; c / 256 mod 256] = c.
Proof. intros H. apply (from_to_le 2). exact H. Qed.

(** The order byte, the attribute and the 13 characters of a long-name entry. *)
Lemma lfn_entry_spec utf16 parts checksum i :
  (13 * S i <= length utf16)%nat -> Forall (fun c => 0 <= c < 65536) utf16 ->
  let entry := lfn_entry utf16 parts checksum i in
  length entry = 32%nat /\
  nth 0 entry 0 = (let order := u8 (Z.of_nat (i + 1)) in
                   if (i + 1 =? parts)%nat then Z.lor order 0x40 else order) /\
  nth 11 entry 0 = ATTR_LFN /\
  ((fun off => from_le (load off 2 entry)) <$> lfn_offsets) = load (i * 13) 13 utf16.
Proof.
  intros Hl Hu. unfold lfn_entry.
  assert (Hc : length (load (i * 13) 13 utf16) = 13%nat) by (apply load_length; lia).
  assert (Hb : Forall (fun c => 0 <= c < 65536) (load (i * 13) 13 utf16))
    by (by apply Forall_take, Forall_drop).
  destruct (load (i * 13) 13 utf16) as [|a0 [|a1 [|a2 [|a3 [|a4 [|a5 [|a6 [|a7 [|a8 [|a9 [|a10
    [|a11 [|a12 [|? ?]]]]]]]]]]]]]] eqn:E; try discriminate.
  rewrite !Forall_cons in Hb. destruct_and! Hb.
  set (o := if (i + 1 =? parts)%nat then _ else _).
  split; [done|]. split; [done|]. split; [done|].
  change ([from_le [a0 mod 256; a0 / 256 mod 256]; from_le [a1 mod 256; a1 / 256 mod 256];
    from_le [a2 mod 256; a2 / 256 mod 256]; from_le [a3 mod 256; a3 / 256 mod 256];
    from_le [a4 mod 256; a4 / 256 mod 256]; from_le [a5 mod 256; a5 / 256 mod 256];
    from_le [a6 mod 256; a6 / 256 mod 256]; from_le [a7 mod 256; a7 / 256 mod 256];
    from_le [a8 mod 256; a8 / 256 mod 256]; from_le [a9 mod 256; a9 / 256 mod 256];
    from_le [a10 mod 256; a10 / 256 mod 256]; from_le [a11 mod 256; a11 / 256 mod 256];
    from_le [a12 mod 256; a12 / 256 mod 256]] = [a0; a1; a2; a3; a4; a5; a6; a7; a8; a9; a10; a11; a12]).
  by rewrite !from_le_2.
Qed.

#[global] Arguments lfn_entry : simpl never.
#[global] Arguments lfn_units : simpl never.
#[global] Arguments decode_lfn_part : simpl never.

Definition unit_char (val : Z) : option Z :=
  if (val =? 0xFFFF) || (val =? 0) then None else char_from_u32 val.

Lemma omap_compose {A B C} (f : A -> B) (g : B -> option C) (l : list A) :
  omap (fun x => g (f x)) l = omap g (f <$> l).
Proof. induction l as [|x l IH]; [done|]. rewrite fmap_cons. cbn [omap list_omap]. by rewrite IH. Qed.

Lemma decode_lfn_entry utf16 parts checksum i :
  (13 * S i <= length utf16)%nat -> Forall (fun c => 0 <= c < 65536) utf16 ->
  decode_lfn_part (lfn_entry utf16 parts checksum i) = of_chars (omap unit_char (load (i * 13) 13 utf16)).
Proof.
  intros Hl Hu. destruct (lfn_entry_spec utf16 parts checksum i Hl Hu) as (_ & _ & _ & <-).
  by rewrite <- omap_compose.
Qed.

(** The units of all the chunks of a buffer, in order. *)
Lemma omap_chunks {A} (f : Z -> option A) n m (l : list Z) :
  length l = (m * n)%nat -> concat ((fun i => omap f (load (i * n) n l)) <$> seq 0 m) = omap f l.
Proof.
  revert l. induction m as [|m IH]; intros l Hl.
  { by apply nil_length_inv in Hl; subst. }
  cbn [seq]. rewrite fmap_cons. cbn [concat]. trans (omap f (take n l ++ drop n l)); [|by rewrite take_drop]. rewrite omap_app.
  f_equal. rewrite <- (IH (drop n l)) by (rewrite length_drop; lia).
  f_equal. rewrite <- seq_shift. rewrite <- list_fmap_compose. apply list_fmap_ext.
  intros i x _. cbn. unfold load. by rewrite drop_drop.
Qed.

Lemma foldr_append_of_chars ls : foldr String.append "" (of_chars <$> ls) = of_chars (concat ls).
Proof. induction ls as [|l ls IH]; [done|]. rewrite fmap_cons. cbn [foldr concat]. by rewrite IH, of_chars_app. Qed.

Lemma lfn_units_length name : length (lfn_units name) = (long_name_entry_slots name * 13)%nat.
Proof.
  unfold lfn_units, long_name_entry_slots. rewrite !length_app, length_replicate. cbn [length].
  set (k := (length (encode_utf16 name) + 1)%nat).
  pose proof (Nat.div_mod_eq k 13). pose proof (Nat.mod_upper_bound k 13).
  destruct (Nat.eq_dec (Nat.modulo k 13) 0%nat) as [Hz|Hz].
  - rewrite Hz. change ((13 - 0) mod 13)%nat with 0%nat.
    replace ((k + 12) / 13)%nat with (k / 13)%nat; [lia|].
    apply Nat.div_unique with 12%nat; lia.
  - rewrite (Nat.mod_small (13 - _)) by lia.
    replace ((k + 12) / 13)%nat with (S (k / 13))%nat; [lia|].
    apply Nat.div_unique with (k mod 13 - 1)%nat; lia.
Qed.

Lemma build_lfn_entries_length name short :
  length (build_lfn_entries name short) = long_name_entry_slots name.
Proof.
  unfold build_lfn_entries. rewrite length_fmap, length_reverse, length_seq, lfn_units_length.
  apply Nat.div_mul. lia.
Qed.

Lemma omap_units name : good_name name -> omap unit_char (lfn_units name) = chars name.
Proof.
  intros H. unfold lfn_units. rewrite good_name_utf16 by done. destruct H as [Hv Hc _].
  rewrite !omap_app. change (omap unit_char [0]) with (@nil Z). rewrite app_nil_r.
  assert (forall n, omap unit_char (replicate n 0xFFFF) = []) as ->.
  { intros n. induction n as [|n IH]; [done|exact IH]. }
  rewrite app_nil_r. pose proof (chars_scalar name Hv) as Hs.
  induction Hc as [|c cs Hc _ IH]; [done|]. apply Forall_cons in Hs as [Hs1 Hs2].
  assert (unit_char c = Some c) as Hu.
  { unfold unit_char, char_from_u32, good_char in *.
    replace ((c =? 65535) || (c =? 0)) with false by lia. by rewrite Hs1. }
  cbn [omap list_omap]. rewrite Hu. f_equal. by apply IH.
Qed.

Lemma units_u16 name : good_name name -> Forall (fun c => 0 <= c < 65536) (lfn_units name).
Proof.
  intros H. unfold lfn_units. rewrite good_name_utf16 by done. destruct H as [_ Hc _].
  rewrite !Forall_app. split_and!.
  - eapply Forall_impl; [exact Hc|]. unfold good_char. lia.
  - repeat constructor; lia.
  - apply Forall_replicate. lia.
Qed.

Lemma good_name_slots name : good_name name -> (1 <= long_name_entry_slots name <= 20)%nat.
Proof.
  intros H. unfold long_name_entry_slots. rewrite good_name_utf16 by done. destruct H as [_ _ Hl].
  split.
  - apply Nat.div_le_lower_bound; lia.
  - apply Nat.lt_succ_r, Nat.Div0.div_lt_upper_bound. lia.
Qed.

(** ** Lemmas: reading back what was written *)

(** Long-name entries only collect their parts. *)
Lemma parse_lfn_entries es rest lfn :
  Forall (fun e => nth 0 e 0 <> 0 /\ nth 0 e 0 <> 0xE5 /\ nth 11 e 0 = ATTR_LFN) es ->
  parse_chunks (es ++ rest) lfn = parse_chunks rest (lfn ++ (decode_lfn_part <$> es)).
Proof.
  intros H. revert lfn. induction H as [|e es (H0 & H5 & Ha) _ IH]; intros lfn.
  { by rewrite app_nil_r. }
  cbn [app parse_chunks]. rewrite Ha.
  replace (nth 0 e 0 =? 0) with false by lia. replace (nth 0 e 0 =? 229) with false by lia.
  rewrite Z.eqb_refl, IH. by rewrite <- app_assoc.
Qed.

Lemma lor_order i : (i < 20)%nat -> Z.lor (u8 (Z.of_nat (i + 1))) 0x40 = Z.of_nat (i + 1) + 64.
Proof. intros. do 20 (destruct i as [|i]; [done|]). lia. Qed.

Lemma lfn_entries_marked name short :
  good_name name ->
  Forall (fun e => nth 0 e 0 <> 0 /\ nth 0 e 0 <> 0xE5 /\ nth 11 e 0 = ATTR_LFN)
    (build_lfn_entries name short).
Proof.
  intros H. unfold build_lfn_entries. rewrite Forall_fmap. apply Forall_forall. intros i Hi.
  rewrite elem_of_reverse, elem_of_seq in Hi. unfold compose.
  pose proof (good_name_slots _ H) as Hs. pose proof (lfn_units_length name) as Hl.
  rewrite Hl, Nat.div_mul in * by lia.
  destruct (lfn_entry_spec (lfn_units name) (long_name_entry_slots name) (lfn_checksum short) i)
    as (_ & -> & -> & _); [lia|by apply units_u16|]. cbn zeta.
  split_and!; [| |done]; (case_if; [rewrite lor_order by lia; lia|]);
    unfold wrap; rewrite Z.mod_small; lia.
Qed.

Lemma lfn_parts_name name short :
  good_name name ->
  foldr String.append "" (reverse (decode_lfn_part <$> build_lfn_entries name short)) = name.
Proof.
  intros H. unfold build_lfn_entries. rewrite <- fmap_reverse, <- fmap_reverse, reverse_involutive.
  pose proof (lfn_units_length name) as Hl. rewrite Hl, Nat.div_mul by lia.
  set (n := long_name_entry_slots name) in *.
  trans (foldr String.append "" (of_chars <$> ((fun i => omap unit_char (load (i * 13) 13 (lfn_units name))) <$> seq 0 n))).
  - f_equal. rewrite <- !list_fmap_compose. apply list_fmap_ext. intros i x Hx.
    apply lookup_seq in Hx as [-> Hi]. unfold compose. cbn [Nat.add].
    apply decode_lfn_entry; [lia|by apply units_u16].
  - rewrite foldr_append_of_chars, omap_chunks by done. rewrite omap_units by done.
    apply of_chars_chars. apply H.
Qed.

(** A short name that marks neither the end of the directory nor a free entry. *)
Definition short_ok (short : list Z) : Prop :=
  length short = 11%nat /\ nth 0 short 0 <> 0 /\ nth 0 short 0 <> 0xE5.

Lemma cluster_halves c :
  0 <= c < 2 ^ 32 -> Z.lor (Z.shiftl (c / 65536 mod 65536) 16) (c mod 65536) = c.
Proof.
  intros Hc. rewrite (Z.mod_small (c / 65536)) by div_lia.
  change 65536 with (2 ^ 16). rewrite <- Z.shiftr_div_pow2, <- Z.land_ones by lia.
  apply Z.bits_inj'. intros n Hn.
  rewrite Z.lor_spec, Z.shiftl_spec, Z.land_spec, Z.testbit_ones_nonneg by lia.
  destruct (Z.ltb_spec n 16).
  - rewrite Z.testbit_neg_r by lia. by rewrite andb_true_r.
  - rewrite Z.shiftr_spec by lia. replace (n - 16 + 16) with n by lia.
    by rewrite andb_false_r, orb_false_r.
Qed.

(** The fields of an entry for a short name. *)
Lemma make_short_entry_fields short attr c sz :
  length short = 11%nat -> 0 <= c < 2 ^ 32 -> 0 <= sz < 2 ^ 32 ->
  let e := make_short_entry short attr c sz in
  length e = 32%nat /\ take 11 e = short /\ nth 0 e 0 = nth 0 short 0 /\ nth 11 e 0 = attr /\
  Z.lor (Z.shiftl (from_le (load 20 2 e)) 16) (from_le (load 26 2 e)) = c /\
  from_le (load 28 4 e) = sz.
Proof.
  intros Hl Hc Hs. cbn zeta. unfold make_short_entry, set_first_cluster.
  destruct short as [|a0 [|a1 [|a2 [|a3 [|a4 [|a5 [|a6 [|a7 [|a8 [|a9 [|a10 [|? ?]]]]]]]]]]]]; try discriminate.
  split_and!; [done..| |].
  - change (load 20 2 _) with (to_le 2 (u16 (Z.shiftr c 16))) at 1.
    change (load 26 2 _) with (to_le 2 (u16 c)).
    change (2 ^ 32) with 4294967296 in Hc. unfold wrap. change (2 ^ 16) with 65536.
    rewrite !from_to_le by (change (256 ^ Z.of_nat 2) with 65536; div_lia).
    rewrite Z.shiftr_div_pow2 by lia. by apply cluster_halves.
  - change (load 28 4 _) with (to_le 4 sz). by apply from_to_le.
Qed.

(** One item of a directory, as the formatter writes it, read back. *)
Lemma parse_item name short attr c sz rest :
  good_name name -> short_ok short -> attr = 0x10 \/ attr = 0x20 ->
  0 <= c < 2 ^ 32 -> 0 <= sz < 2 ^ 32 ->
  parse_chunks (build_lfn_entries name short ++ make_short_entry short attr c sz :: rest) [] =
  mkFatEntry name c sz attr :: parse_chunks rest [].
Proof.
  intros Hn (Hl & H0 & H5) Ha Hc Hs. rewrite parse_lfn_entries by (by apply lfn_entries_marked).
  cbn [parse_chunks app].
  destruct (make_short_entry_fields short attr c sz Hl Hc Hs) as (_ & _ & -> & Hattr & Hcl & Hsz).
  rewrite Hattr.
  replace (nth 0 short 0 =? 0) with false by lia. replace (nth 0 short 0 =? 229) with false by lia.
  replace (attr =? ATTR_LFN) with false by (unfold ATTR_LFN; lia).
  replace (Z.land attr ATTR_VOLUME_ID =? 0) with true by (by destruct Ha; subst).
  cbn [negb]. f_equal. unfold parse_short_entry. rewrite Hcl, Hsz, Hattr. f_equal.
  pose proof (lfn_parts_name name short Hn) as Hp.
  pose proof (build_lfn_entries_length name short) as Hlen. pose proof (good_name_slots name Hn).
  destruct (decode_lfn_part <$> build_lfn_entries name short) as [|p ps] eqn:E.
  { apply (f_equal length) in E. rewrite length_fmap, Hlen in E. cbn [length] in E. lia. }
  rewrite Hp. by apply trim_matches_no, good_name_no_nul.
Qed.

Lemma decode_short_name_take e : decode_short_name e = decode_short_name (take 11 e).
Proof. unfold decode_short_name, load. by rewrite !skipn_firstn_comm, !take_take. Qed.

(** The entries [.] and [..]. *)
Lemma parse_dots c p rest :
  0 <= c < 2 ^ 32 -> 0 <= p < 2 ^ 32 ->
  parse_chunks (make_short_entry (as_bytes ".          ") 0x10 c 0 ::
    make_short_entry (as_bytes "..         ") 0x10 p 0 :: rest) [] =
  mkFatEntry "." c 0 0x10 :: mkFatEntry ".." p 0 0x10 :: parse_chunks rest [].
Proof.
  intros Hc Hp.
  assert (Hstep : forall s n x rest, length (as_bytes s) = 11%nat -> 0 <= x < 2 ^ 32 ->
    nth 0 (as_bytes s) 0 = 46 -> decode_short_name (as_bytes s) = n ->
    parse_chunks (make_short_entry (as_bytes s) 0x10 x 0 :: rest) [] =
    mkFatEntry n x 0 0x10 :: parse_chunks rest []).
  { intros s n x r Hl Hx H0 Hn. cbn [parse_chunks].
    destruct (make_short_entry_fields (as_bytes s) 0x10 x 0 Hl Hx) as (_ & Ht & H0' & Ha & Hcl & Hsz); [lia|].
    rewrite H0', H0, Ha. cbn [Z.eqb Pos.eqb]. change (Z.land 16 ATTR_VOLUME_ID =? 0) with true. cbn [negb].
    f_equal. unfold parse_short_entry. rewrite Hcl, Hsz, Ha. f_equal.
    rewrite <- Hn, decode_short_name_take. by rewrite Ht. }
  rewrite (Hstep ".          " "." c), (Hstep "..         " ".." p); done.
Qed.

(** ** Lemmas: short names *)

(** Visible ASCII, as in a short name. *)
Definition visible (c : Z) : Prop := 32 < c < 127.

Lemma valid_short_char_visible c : is_valid_short_char c = true -> visible c.
Proof.
  unfold is_valid_short_char, visible, in_range. rewrite !orb_true_iff. intros [[H|H]|H].
  - change (code "A") with 65 in H. change (code "Z") with 90 in H. lia.
  - change (code "0") with 48 in H. change (code "9") with 57 in H. lia.
  - apply existsb_exists in H as (x & Hx & ->%Z.eqb_eq). vm_compute in Hx.
    repeat (destruct Hx as [<-|Hx]; [lia|]). done.
Qed.

Lemma sanitize_visible part n : Forall visible (sanitize_component part n).
Proof.
  revert n. induction part as [|ch part IH]; intros [|n]; cbn [sanitize_component]; constructor; [|done].
  destruct (is_valid_short_char (ascii_upper ch)) eqn:E; [by apply valid_short_char_visible|].
  unfold visible. change (code "_") with 95. lia.
Qed.

Definition pad (n : nat) (l : list Z) : list Z := take n l ++ replicate (n - length l) (code " ").

Lemma compose_short_pad base ext : compose_short base ext = pad 8 base ++ pad 3 ext.
Proof.
  unfold compose_short, pad. set (x := code " ").
  assert (store 0 (take 8 base) (replicate 11 x) =
    (take 8 base ++ replicate (8 - length base) x) ++ replicate 3 x) as ->.
  { unfold store. rewrite take_0, drop_replicate, <- app_assoc, <- replicate_add, length_take.
    cbn [app]. do 2 f_equal. lia. }
  assert (length (take 8 base ++ replicate (8 - length base) x) = 8%nat) as H8
    by (rewrite length_app, length_take, length_replicate; lia).
  unfold store. rewrite take_app_le, take_ge by lia. f_equal. f_equal.
  rewrite drop_app_ge, drop_replicate, length_take by lia. f_equal. lia.
Qed.

Lemma pad_inj n a b :
  Forall visible a -> Forall visible b -> (length a <= n)%nat -> (length b <= n)%nat ->
  pad n a = pad n b -> a = b.
Proof.
  intros Ha Hb Hla Hlb H. unfold pad in H. rewrite !take_ge in H by done.
  assert (forall l k, Forall visible l -> filter (fun c => c <> 32) (l ++ replicate k (code " ")) = l) as Hf.
  { intros l k Hl. rewrite filter_app, filter_all, filter_none, app_nil_r; [done| |].
    - apply Forall_replicate. intros Hk. by apply Hk.
    - eapply Forall_impl; [exact Hl|]. unfold visible. lia. }
  by rewrite <- (Hf a (n - length a)%nat Ha), H, Hf.
Qed.

Lemma pad_length n l : length (pad n l) = n.
Proof. unfold pad. rewrite length_app, length_take, length_replicate. lia. Qed.

Lemma compose_short_ok base ext : Forall visible base -> short_ok (compose_short base ext).
Proof.
  intros Hb. rewrite compose_short_pad. split; [by rewrite length_app, !pad_length|].
  unfold pad. destruct Hb as [|c base Hc _]; [done|]. cbn. unfold visible in Hc. lia.
Qed.

Lemma compose_short_inj base base' ext ext' :
  Forall visible base -> Forall visible base' -> (length base <= 8)%nat -> (length base' <= 8)%nat ->
  compose_short base ext = compose_short base' ext' -> base = base'.
Proof.
  intros Hb Hb' Hl Hl' H. rewrite !compose_short_pad in H.
  apply app_inj_1 in H as [H _]; [|by rewrite !pad_length]. by apply (pad_inj 8).
Qed.

(** Decimal digits are visible and no tilde; a number below [10 ^ k] has at most [k]. *)
Lemma pretty_go_digits k x s :
  (x < 10 ^ N.of_nat k)%N ->
  (length (as_bytes (pretty_N_go x s)) <= k + length (as_bytes s))%nat /\
  (Forall (fun c => 48 <= c <= 57) (as_bytes s) -> Forall (fun c => 48 <= c <= 57) (as_bytes (pretty_N_go x s))).
Proof.
  revert x s. induction k as [|k IH]; intros x s Hx.
  { change (10 ^ N.of_nat 0)%N with 1%N in Hx. assert (x = 0%N) as -> by lia. by rewrite pretty_N_go_0. }
  destruct (decide (x = 0%N)) as [->|Hx0]; [rewrite pretty_N_go_0; split; [lia|done]|].
  rewrite pretty_N_go_step by lia.
  destruct (IH (x `div` 10)%N (String (pretty_N_char (x `mod` 10)) s)) as [Hl Hd].
  { apply N.Div0.div_lt_upper_bound. rewrite <- N.pow_succ_r'. by replace (N.succ (N.of_nat k)) with (N.of_nat (S k)) by lia. }
  cbn [as_bytes length] in Hl, Hd. split; [lia|]. intros Hs. apply Hd. constructor; [|done].
  pose proof (N.mod_upper_bound x 10). unfold pretty_N_char.
  repeat case_match; vm_compute; split; discriminate.
Qed.

Lemma pretty_digits k x :
  (0 < k)%nat -> (x < 10 ^ N.of_nat k)%N ->
  (length (as_bytes (pretty x)) <= k)%nat /\ Forall (fun c => 48 <= c <= 57) (as_bytes (pretty x)).
Proof.
  intros Hk Hx. unfold pretty, pretty_N. case_decide.
  { split; [cbn; lia|]. repeat constructor; done. }
  destruct (pretty_go_digits k x "" Hx) as [H1 H2]. change (length (as_bytes "")) with 0%nat in H1. split; [lia|]. by apply H2.
Qed.

(** Attempts whose number fits behind the tilde in a short name. *)
Definition MAX_ATTEMPT : Z := 10 ^ 7.

Lemma numbered_shape base a :
  0 < a < MAX_ATTEMPT -> exists pre,
  numbered base a = pre ++ 126 :: as_bytes (pretty (Z.to_N a)) /\ pre = take (length pre) base /\
  (length (numbered base a) <= 8)%nat /\ Forall (fun c => 48 <= c <= 57) (as_bytes (pretty (Z.to_N a))).
Proof.
  intros Ha. change MAX_ATTEMPT with 10000000 in Ha.
  destruct (pretty_digits 7 (Z.to_N a)) as [Hl Hd]; [lia|change (10 ^ N.of_nat 7)%N with 10000000%N; lia|].
  unfold numbered. replace (0 <? a) with true by lia. rewrite as_bytes_app. cbn [as_bytes app].
  change (byte_of_ascii "~") with 126. cbn [length].
  destruct (8 - S (length (as_bytes (pretty (Z.to_N a)))) =? 0)%nat eqn:E.
  - exists []. rewrite take_ge by (rewrite length_reverse; cbn [length]; lia).
    rewrite reverse_involutive. split_and!; [done..| |done]. cbn [length]. lia.
  - eexists. split; [done|]. split; [|split; [|done]].
    + rewrite length_take. destruct (le_lt_dec (length base) ((8 - S (length (as_bytes (pretty (Z.to_N a)))))%nat `max` 1)).
      * rewrite take_ge by lia. rewrite Nat.min_r, take_ge by lia. done.
      * by rewrite Nat.min_l by lia.
    + rewrite length_app, length_take. cbn [length]. lia.
Qed.

Lemma last_tilde (x x' p p' : list Z) :
  126 ∉ p -> 126 ∉ p' -> x ++ 126 :: p = x' ++ 126 :: p' -> p = p'.
Proof.
  intros Hp Hp'. revert x'. induction x as [|y x IH]; intros [|y' x'] H; cbn [app] in H; simplify_eq; auto.
  - destruct Hp. set_solver.
  - destruct Hp'. set_solver.
  - eauto.
Qed.

Lemma numbered_visible base a : 0 <= a < MAX_ATTEMPT -> Forall visible base -> Forall visible (numbered base a).
Proof.
  intros Ha Hb. destruct (Z.eq_dec a 0) as [->|Hne]; [done|].
  destruct (numbered_shape base a) as (pre & -> & -> & _ & Hd); [lia|].
  apply Forall_app_2; [by apply Forall_take|]. constructor; [unfold visible; lia|].
  eapply Forall_impl; [exact Hd|]. unfold visible. lia.
Qed.

Lemma numbered_inj base a b ext :
  Forall visible base -> 0 < a < MAX_ATTEMPT -> 0 < b < MAX_ATTEMPT ->
  compose_short (numbered base a) ext = compose_short (numbered base b) ext -> a = b.
Proof.
  intros Hbase Ha Hb H. apply compose_short_inj in H; cycle 1.
  { apply numbered_visible; [lia|done]. }
  { apply numbered_visible; [lia|done]. }
  { by destruct (numbered_shape base a Ha) as (? & ? & ? & ? & ?). }
  { by destruct (numbered_shape base b Hb) as (? & ? & ? & ? & ?). }
  destruct (numbered_shape base a Ha) as (p & Ep & _ & _ & Hda).
  destruct (numbered_shape base b Hb) as (q & Eq & _ & _ & Hdb). rewrite Ep, Eq in H.
  assert (forall l, Forall (fun c => 48 <= c <= 57) l -> 126 ∉ l) as Hno.
  { intros l Hl Hin. rewrite Forall_forall in Hl. specialize (Hl _ Hin). lia. }
  apply last_tilde, as_bytes_inj, (inj pretty) in H; [lia|auto..].
Qed.

(** Distinct names, all taken, are no more than the names taken. *)
Lemma attempts_taken (base ext : list Z) (lo : Z) (n : nat) (taken : gset (list Z)) :
  Forall visible base -> 0 < lo -> lo + Z.of_nat n <= MAX_ATTEMPT ->
  (forall i, lo <= i < lo + Z.of_nat n -> compose_short (numbered base i) ext ∈ taken) ->
  (n <= size taken)%nat.
Proof.
  intros Hb Hlo Hn Ht.
  set (names := (fun i => compose_short (numbered base (lo + Z.of_nat i)) ext) <$> seq 0 n).
  assert (NoDup names) as Hnd.
  { apply NoDup_fmap_2_strong; [|apply NoDup_seq]. intros i j Hi Hj H.
    rewrite elem_of_seq in Hi, Hj. apply numbered_inj in H; [lia|done|lia|lia]. }
  replace n with (length names) by (unfold names; by rewrite length_fmap, length_seq).
  rewrite <- (size_list_to_set (C := gset (list Z)) names Hnd). apply subseteq_size.
  intros x. rewrite elem_of_list_to_set. unfold names. rewrite list_elem_of_fmap.
  intros (i & -> & Hi). rewrite elem_of_seq in Hi. apply Ht. lia.
Qed.

(** What the registry keeps: the attempts below a key's count are taken. *)
Definition registry_ok (r : ShortNameRegistry) : Prop :=
  forall b e d n, counts r !! (b, e, d) = Some n ->
  0 <= n /\ forall i, 0 < i < n -> compose_short (numbered b i) e ∈ used r.

Lemma registry_new_ok : registry_ok ShortNameRegistry_new.
Proof. intros b e d n H. cbn in H. by rewrite lookup_empty in H. Qed.

Lemma reserve_ok short r : registry_ok r -> registry_ok (reserve short r).
Proof. intros Hr b e d n H. destruct (Hr b e d n H) as [H0 H1]. split; [done|]. intros i Hi. cbn. by apply elem_of_union_r, H1. Qed.

(** The loop either finds a free name or has tried [fuel] taken ones. *)
Lemma generate_loop_spec fuel taken base ext a :
  0 <= a -> a + Z.of_nat fuel < 2 ^ 32 ->
  match generate_loop fuel taken base ext a with
  | Some (short, a') => exists i, a <= i /\ a' = i + 1 /\ short = compose_short (numbered base i) ext /\
      (short ∉ taken) /\ (forall j, a <= j < i -> compose_short (numbered base j) ext ∈ taken) /\
      i < a + Z.of_nat fuel
  | None => forall j, a <= j < a + Z.of_nat fuel -> compose_short (numbered base j) ext ∈ taken
  end.
Proof.
  revert a. induction fuel as [|fuel IH]; intros a Ha Hf; cbn [generate_loop]; [intros; lia|].
  assert (u32 (a + 1) = a + 1) as Hw by (apply Z.mod_small; lia). rewrite Hw. case_decide as Hin.
  - specialize (IH (a + 1)). destruct (generate_loop fuel taken base ext (a + 1)) as [[short a']|].
    + destruct IH as (i & Hi & -> & -> & Hnew & Hold & Hlt); [lia..|]. exists i. split_and!; auto; try lia.
      intros j Hj. destruct (Z.eq_dec j a) as [->|]; [done|]. apply Hold. lia.
    + intros j Hj. destruct (Z.eq_dec j a) as [->|]; [done|]. apply IH; lia.
  - exists a. split_and!; auto; intros; lia.
Qed.

Lemma clean_parts_visible name d : Forall visible (clean_parts name d).1.
Proof.
  unfold clean_parts. destruct (split_filename name d) as [b e]. cbn [fst].
  pose proof (sanitize_visible (chars b) 8) as H. destruct (sanitize_component (chars b) 8); [|done].
  repeat constructor; vm_compute; done.
Qed.

(** The number of names a directory registers. *)
Definition MAX_NAMES : Z := 1000000.

Lemma generate_spec name d r :
  registry_ok r -> Z.of_nat (size (used r)) < MAX_NAMES ->
  exists short r', generate name d r = Some (short, r') /\ short_ok short /\ (short ∉ used r) /\
    used r' = {[short]} ∪ used r /\ registry_ok r'.
Proof.
  intros Hr Hs. unfold generate. pose proof (clean_parts_visible name d) as Hv.
  destruct (clean_parts name d) as [base ext]. cbn [fst] in Hv.
  set (a := default 0 (counts r !! (base, ext, d))).
  assert (Hm : MAX_ATTEMPT = 10000000) by done. unfold MAX_NAMES in Hs.
  assert (Ha : 0 <= a /\ forall i, 0 < i < a -> compose_short (numbered base i) ext ∈ used r).
  { unfold a. destruct (counts r !! (base, ext, d)) as [n|] eqn:E; [by apply (Hr _ _ d)|]. cbn. split; intros; lia. }
  assert (Hab : a <= Z.of_nat (size (used r)) + 1).
  { destruct (Z_le_gt_dec a (Z.of_nat (size (used r)) + 1)); [done|].
    pose proof (attempts_taken base ext 1 (size (used r) + 1) (used r) Hv) as H.
    assert ((size (used r) + 1 <= size (used r))%nat); [|lia]. apply H; [lia|lia|]. intros i Hi. apply Ha. lia. }
  pose proof (generate_loop_spec (size (used r) + 2) (used r) base ext a) as Hl.
  destruct (generate_loop _ _ _ _ _) as [[short a']|].
  - destruct Hl as (i & Hi & -> & -> & Hnew & Hold & Hlt); [lia..|].
    eexists _, _. split; [done|]. split; [|split; [done|split; [done|]]].
    + apply compose_short_ok, numbered_visible; [lia|done].
    + intros b e d' n. cbn [counts used]. rewrite lookup_insert_Some. intros [[[= <- <- <-] <-]|[_ H]].
      * split; [lia|]. intros j Hj. destruct (Z.eq_dec j i) as [->|]; [set_solver|].
        apply elem_of_union_r. destruct (Z.lt_ge_cases j a); [apply Ha; lia|apply Hold; lia].
      * destruct (Hr b e d' n H) as [H0 H1]. split; [done|]. intros j Hj. apply elem_of_union_r. auto.
  - assert ((size (used r) + 1 <= size (used r))%nat); [|lia].
    apply (attempts_taken base ext (a + 1)); [done|lia|lia|]. intros i Hi. apply Hl; lia.
Qed.

(** ** The names of a directory *)

(** The registry of one directory, asked for the names of its entries in order. *)
Fixpoint generate_all (names : list (string * bool)) (r : ShortNameRegistry)
    : option (list (list Z) * ShortNameRegistry) :=
  match names with
  | [] => Some ([], r)
  | (name, d) :: names =>
    match generate name d r with
    | None => None
    | Some (short, r) =>
      match generate_all names r with
      | None => None
      | Some (shorts, r) => Some (short :: shorts, r)
      end
    end
  end.

Lemma generate_all_ok names r :
  registry_ok r -> Z.of_nat (size (used r)) + Z.of_nat (length names) <= MAX_NAMES ->
  exists shorts r', generate_all names r = Some (shorts, r') /\ length shorts = length names /\
    NoDup shorts /\ Forall short_ok shorts /\ (forall s, s ∈ shorts -> s ∉ used r) /\ registry_ok r'.
Proof.
  revert r. induction names as [|[name d] names IH]; intros r Hr Hs; cbn [generate_all length] in *.
  { exists [], r. split_and!; try done; [constructor|]. intros s H. by apply not_elem_of_nil in H. }
  destruct (generate_spec name d r Hr) as (short & r1 & -> & Hok & Hnew & Hu & Hr1); [lia|].
  destruct (IH r1 Hr1) as (shorts & r2 & -> & Hl & Hnd & Hall & Hfresh & Hr2).
  { rewrite Hu, size_union, size_singleton by set_solver. lia. }
  exists (short :: shorts), r2. split_and!; [done|cbn; lia|constructor; [|done]|by constructor| |done].
  - intros Hin. apply (Hfresh short Hin). rewrite Hu. set_solver.
  - intros s [->|Hin]%elem_of_cons; [done|]. intros Hused. apply (Hfresh s Hin). rewrite Hu. set_solver.
Qed.

(** The short names given to the entries of one directory, up to a million of them in any order and whatever their long names, are distinct and well formed (eleven bytes, no marker as first byte), and the search for each of them ends. *)
Theorem short_names_distinct (names : list (string * bool)) (Hn : Z.of_nat (length names) <= MAX_NAMES) :
  exists shorts r, generate_all names ShortNameRegistry_new = Some (shorts, r) /\
    length shorts = length names /\ NoDup shorts /\ Forall short_ok shorts.
Proof.
  destruct (generate_all_ok names ShortNameRegistry_new registry_new_ok) as (shorts & r & H1 & H2 & H3 & H4 & _).
  - cbn [ShortNameRegistry_new used]. rewrite size_empty. lia.
  - by exists shorts, r.
Qed.

Lemma short_names_distinct_witness :
  exists shorts r, generate_all [("long name.txt", false); ("LONG NAME 2.txt", false); ("long name.txt", true)]
    ShortNameRegistry_new = Some (shorts, r) /\ length shorts = 3%nat /\ NoDup shorts /\ Forall short_ok shorts.
Proof. apply short_names_distinct. unfold MAX_NAMES. cbn. lia. Defined.
