(* ===== verification/Fat32.v ===== *)
(** * Formatting a FAT32 partition (src/kernel/twilight_kernel/src/sys/fs/fat32/mod.rs)

    [format_partition] collects the requested files and directories in a builder,
    gives them short names and clusters, and writes boot region, directories, file
    data and both copies of the table to the device.  Directories and files refer to
    each other by index, as in the source; an index out of range panics.  The
    recursion over the directories takes fuel: running out of it stands for a stack
    overflow. *)

From S2P Require Import Prelude Bytes Text Utf FatNames BlockDev.
Open Scope twilight_scope.

Inductive FatEntry := FatDirectory (path : string) | FatFile (path : string) (data : list Z).
Inductive FatError := InvalidPath | DuplicateEntry | DeviceError | NoSpace.

Definition SECTOR_SIZE : nat := 512.
Definition BYTES_PER_SECTOR : Z := 512.
Definition SECTORS_PER_CLUSTER : Z := 8.
Definition RESERVED_SECTORS : Z := 32.
Definition NUM_FATS : Z := 2.
Definition FAT32_EOC : Z := 0x0FFFFFFF.

(** ** The builder *)

Inductive DirItem := ItemDir (id : nat) | ItemFile (id : nat).

Record Directory := mkDirectory {
  d_name : string; d_parent : option nat; d_entries : list DirItem;
  d_short_name : option (list Z); d_cluster : option Z; d_cluster_count : Z;
}.
Definition Directory_root : Directory := mkDirectory "/" None [] None None 1.
Definition Directory_new (name : string) (parent : option nat) : Directory :=
  mkDirectory name parent [] None None 1.

Record FileEntry := mkFileEntry {
  f_name : string; f_data : list Z; f_short_name : option (list Z);
  f_first_cluster : option Z; f_cluster_count : Z; f_forced_short : option (list Z);
}.
Definition FileEntry_new (name : string) (data : list Z) (forced_short : option (list Z)) : FileEntry :=
  mkFileEntry name data None None 0 forced_short.

Record FatBuilder := mkBuilder {
  directories : list Directory; files : list FileEntry; path_map : gmap string nat;
}.
Definition FatBuilder_new : FatBuilder := mkBuilder [Directory_root] [] {["/" := 0%nat]}.

Definition push_entry (it : DirItem) (d : Directory) : Directory :=
  mkDirectory (d_name d) (d_parent d) (d_entries d ++ [it]) (d_short_name d) (d_cluster d) (d_cluster_count d).
Definition set_d_short (s : list Z) (d : Directory) : Directory :=
  mkDirectory (d_name d) (d_parent d) (d_entries d) (Some s) (d_cluster d) (d_cluster_count d).
Definition set_d_cluster (c : Z) (d : Directory) : Directory :=
  mkDirectory (d_name d) (d_parent d) (d_entries d) (d_short_name d) (Some c) (d_cluster_count d).
Definition set_d_count (n : Z) (d : Directory) : Directory :=
  mkDirectory (d_name d) (d_parent d) (d_entries d) (d_short_name d) (d_cluster d) n.
Definition set_f_short (s : list Z) (f : FileEntry) : FileEntry :=
  mkFileEntry (f_name f) (f_data f) (Some s) (f_first_cluster f) (f_cluster_count f) (f_forced_short f).
Definition set_f_clusters (first : option Z) (n : Z) (f : FileEntry) : FileEntry :=
  mkFileEntry (f_name f) (f_data f) (f_short_name f) first n (f_forced_short f).

(** [self.directories[id]] and [self.files[id]], read and updated in place. *)
Definition indexM {S E A} (l : list A) (i : nat) : M S E A :=
  match l !! i with Some a => retM a | None => panicM end.
Definition dirM (id : nat) : M FatBuilder FatError Directory :=
  b <-- getM ;; indexM (directories b) id.
Definition fileM (id : nat) : M FatBuilder FatError FileEntry :=
  b <-- getM ;; indexM (files b) id.
Definition upd_dir (id : nat) (f : Directory -> Directory) : M FatBuilder FatError unit :=
  dirM id >>> modifyM (fun b => mkBuilder (alter f id (directories b)) (files b) (path_map b)).
Definition upd_file (id : nat) (f : FileEntry -> FileEntry) : M FatBuilder FatError unit :=
  fileM id >>> modifyM (fun b => mkBuilder (directories b) (alter f id (files b)) (path_map b)).

Fixpoint forM {S E A} (l : list A) (f : A -> M S E unit) : M S E unit :=
  match l with [] => retM tt | a :: l => f a >>> forM l f end.

Fixpoint normalize_parts (parts : list string) : res FatError (list string) :=
  match parts with
  | [] => Ok []
  | part :: parts =>
    if is_empty part || String.eqb part "." then normalize_parts parts
    else if String.eqb part ".." then Err InvalidPath
    else match normalize_parts parts with
         | Ok comps => Ok (part :: comps)
         | r => r
         end
  end.
Definition normalize_path (path : string) : res FatError (list string) :=
  if is_empty path then Err InvalidPath else normalize_parts (split slash path).

Definition item_name (it : DirItem) : M FatBuilder FatError string :=
  match it with
  | ItemDir child => d <-- dirM child ;; retM (d_name d)
  | ItemFile file_id => f <-- fileM file_id ;; retM (f_name f)
  end.

Fixpoint any_named (entries : list DirItem) (name : string) : M FatBuilder FatError bool :=
  match entries with
  | [] => retM false
  | it :: entries =>
    n <-- item_name it ;;
    if eq_ignore_ascii_case n name then retM true else any_named entries name
  end.
Definition has_child_named (dir_id : nat) (name : string) : M FatBuilder FatError bool :=
  d <-- dirM dir_id ;; any_named (d_entries d) name.

(** The new directory is pushed before its parent's list is updated. *)
Definition push_directory (parent : nat) (name path : string) : M FatBuilder FatError nat :=
  b <-- getM ;;
  let new_id := length (directories b) in
  modifyM (fun b => mkBuilder (directories b ++ [Directory_new name (Some parent)]) (files b) (path_map b)) >>>
  upd_dir parent (push_entry (ItemDir new_id)) >>>
  modifyM (fun b => mkBuilder (directories b) (files b) (<[path := new_id]> (path_map b))) >>>
  retM new_id.

Fixpoint ensure_from (current_id : nat) (current_path : string) (components : list string)
    : M FatBuilder FatError nat :=
  match components with
  | [] => retM current_id
  | component :: rest =>
    if is_empty component then ensure_from current_id current_path rest
    else
      let next_path := if String.eqb current_path "/" then "/" +:+ component
                       else current_path +:+ "/" +:+ component in
      b <-- getM ;;
      match path_map b !! next_path with
      | Some dir_id => ensure_from dir_id next_path rest
      | None =>
        dup <-- has_child_named current_id component ;;
        if dup : bool then failM DuplicateEntry
        else new_id <-- push_directory current_id component next_path ;;
             ensure_from new_id next_path rest
      end
  end.
Definition ensure_directory (components : list string) : M FatBuilder FatError nat :=
  ensure_from 0 "/" components.

Definition liftR {S E A} (r : res E A) : M S E A := fun s => (r, s).

Definition add_directory (path : string) : M FatBuilder FatError unit :=
  components <-- liftR (normalize_path path) ;; ensure_directory components >>> retM tt.

Definition add_file (path : string) (data : list Z) : M FatBuilder FatError unit :=
  components <-- liftR (normalize_path path) ;;
  match last components with
  | None => failM InvalidPath
  | Some file_name =>
    parent_id <-- ensure_directory (removelast components) ;;
    dup <-- has_child_named parent_id file_name ;;
    if dup : bool then failM DuplicateEntry
    else
      b <-- getM ;;
      let file_id := length (files b) in
      modifyM (fun b => mkBuilder (directories b)
        (files b ++ [FileEntry_new file_name data (forced_short_for_file file_name)]) (path_map b)) >>>
      upd_dir parent_id (push_entry (ItemFile file_id))
  end.

Definition add_entry (e : FatEntry) : M FatBuilder FatError unit :=
  match e with FatDirectory path => add_directory path | FatFile path data => add_file path data end.

(** ** Short names and cluster counts, over the tree *)

Fixpoint assign_items (entries : list DirItem) (registry : ShortNameRegistry) : M FatBuilder FatError unit :=
  match entries with
  | [] => retM tt
  | ItemDir child :: entries =>
    d <-- dirM child ;;
    match generate (d_name d) true registry with
    | Some (short, registry) => upd_dir child (set_d_short short) >>> assign_items entries registry
    | None => panicM
    end
  | ItemFile file_id :: entries =>
    f <-- fileM file_id ;;
    match f_forced_short f with
    | Some forced => upd_file file_id (set_f_short forced) >>> assign_items entries (reserve forced registry)
    | None =>
      match generate (f_name f) false registry with
      | Some (short, registry) => upd_file file_id (set_f_short short) >>> assign_items entries registry
      | None => panicM
      end
    end
  end.

Fixpoint assign_short_names_recursive (fuel dir_id : nat) : M FatBuilder FatError unit :=
  match fuel with
  | O => panicM
  | S fuel =>
    d <-- dirM dir_id ;;
    assign_items (d_entries d) ShortNameRegistry_new >>>
    forM (d_entries d) (fun entry => match entry with
      | ItemDir child => assign_short_names_recursive fuel child
      | ItemFile _ => retM tt
      end)
  end.

Fixpoint count_slots (entries : list DirItem) : M FatBuilder FatError nat :=
  match entries with
  | [] => retM 0%nat
  | it :: entries =>
    name <-- item_name it ;; n <-- count_slots entries ;; retM (1 + long_name_entry_slots name + n)%nat
  end.

Fixpoint compute_directory_clusters_recursive (fuel dir_id cluster_bytes : nat) : M FatBuilder FatError unit :=
  match fuel with
  | O => panicM
  | S fuel =>
    d <-- dirM dir_id ;;
    slots <-- count_slots (d_entries d) ;;
    let total_bytes := ((2 + slots + 1) * 32)%nat in
    let clusters := (1 `max` ((total_bytes + cluster_bytes - 1) / cluster_bytes))%nat in
    upd_dir dir_id (set_d_count (u32 (Z.of_nat clusters))) >>>
    forM (d_entries d) (fun entry => match entry with
      | ItemDir child => compute_directory_clusters_recursive fuel child cluster_bytes
      | ItemFile _ => retM tt
      end)
  end.

(** ** Layout *)

(** One round of the loop: a result, or the size to try next. *)
Definition fat_size_round (total_sectors fat_size : Z) : res FatError (Z * Z) + Z :=
  let taken := u32 (RESERVED_SECTORS + u32 (NUM_FATS * fat_size)) in
  if total_sectors <? taken then inl (Err NoSpace)
  else
    let total_clusters := (total_sectors - taken) / SECTORS_PER_CLUSTER in
    if total_clusters <? 65525 then inr (u32 (fat_size + 1))
    else
      let fat_bytes := u32 (u32 (total_clusters + 2) * 4) in
      let required := u32 (fat_bytes + BYTES_PER_SECTOR - 1) / BYTES_PER_SECTOR in
      if required =? fat_size then inl (Ok (fat_size, total_clusters)) else inr required.

(** [None] is a loop that is still running after [fuel] rounds. *)
Fixpoint fat_size_loop (fuel : nat) (total_sectors fat_size : Z) : option (res FatError (Z * Z)) :=
  match fuel with
  | O => None
  | S fuel =>
    match fat_size_round total_sectors fat_size with
    | inl r => Some r
    | inr fat_size => fat_size_loop fuel total_sectors fat_size
    end
  end.

Definition compute_fat32_size (fuel : nat) (total_sectors : Z) : option (res FatError (Z * Z)) :=
  let fat_size := u32 (total_sectors - RESERVED_SECTORS) / (SECTORS_PER_CLUSTER * NUM_FATS + 1) in
  fat_size_loop fuel total_sectors (fat_size `max` 1).

Record Fat32Layout := mkLayout {
  l_start_lba : Z; l_total_sectors : Z; l_fat_size_sectors : Z; l_data_start_lba : Z;
  l_total_clusters : Z; l_cluster_size_bytes : nat;
}.

Definition Fat32Layout_new (fuel : nat) (start_lba total_sectors : Z) : option (res FatError Fat32Layout) :=
  match compute_fat32_size fuel total_sectors with
  | None => None
  | Some (Ok (fat_size, total_clusters)) =>
    let data_start := u32 (u32 (start_lba + RESERVED_SECTORS) + u32 (NUM_FATS * fat_size)) in
    Some (Ok (mkLayout start_lba total_sectors fat_size data_start total_clusters
                (Z.to_nat (BYTES_PER_SECTOR * SECTORS_PER_CLUSTER))))
  | Some (Err e) => Some (Err e)
  | Some Panic => Some Panic
  end.

(** ** Directory buffers *)

Fixpoint write_entries (buffer : list Z) (offset : nat) (entries : list (list Z)) : res FatError (list Z * nat) :=
  match entries with
  | [] => Ok (buffer, offset)
  | entry :: entries =>
    if (length buffer <? offset + 32)%nat then Err NoSpace
    else write_entries (store offset entry buffer) (offset + 32) entries
  end.

Definition clusters_for_size (size cluster_bytes : nat) : Z :=
  if (size =? 0)%nat then 0 else u32 (Z.of_nat ((size + cluster_bytes - 1) / cluster_bytes)).

(** An item: its long-name entries and its short one. *)
Definition write_item (name : string) (short : list Z) (attr cluster size : Z) (buffer : list Z) (offset : nat)
    : res FatError (list Z * nat) :=
  match write_entries buffer offset (build_lfn_entries name short) with
  | Ok (buffer, offset) =>
    if (length buffer <? offset + 32)%nat then Err NoSpace
    else Ok (store offset (make_short_entry short attr cluster size) buffer, (offset + 32)%nat)
  | r => r
  end.

Fixpoint write_items (entries : list DirItem) (buffer : list Z) (offset : nat)
    : M FatBuilder FatError (list Z * nat) :=
  match entries with
  | [] => retM (buffer, offset)
  | ItemDir child :: entries =>
    d <-- dirM child ;;
    let short := default (fallback_short_name (d_name d) true) (d_short_name d) in
    bo <-- liftR (write_item (d_name d) short 0x10 (default 0 (d_cluster d)) 0 buffer offset) ;;
    write_items entries bo.1 bo.2
  | ItemFile file_id :: entries =>
    f <-- fileM file_id ;;
    let short := default (fallback_short_name (f_name f) false) (f_short_name f) in
    bo <-- liftR (write_item (f_name f) short 0x20 (default 0 (f_first_cluster f))
                    (u32 (Z.of_nat (length (f_data f)))) buffer offset) ;;
    write_items entries bo.1 bo.2
  end.

Definition build_directory_buffer (layout : Fat32Layout) (dir_id : nat) (parent_cluster : Z)
    : M FatBuilder FatError (list Z) :=
  d <-- dirM dir_id ;;
  let cluster_bytes := (Z.to_nat (d_cluster_count d) * l_cluster_size_bytes layout)%nat in
  let buffer := replicate cluster_bytes 0 in
  if (cluster_bytes <? 64)%nat then panicM
  else
    let dot_entry := make_short_entry (as_bytes ".          ") 0x10 (default 0 (d_cluster d)) 0 in
    let dotdot := store 11 [0x10] (store 0 (as_bytes "..         ") (replicate 32 0)) in
    let buffer := store 32 (set_first_cluster dotdot parent_cluster) (store 0 dot_entry buffer) in
    bo <-- write_items (d_entries d) buffer 64 ;;
    let '(buffer, offset) := bo in
    retM (if (offset + 32 <=? length buffer)%nat then store offset [0x00] buffer else buffer).

(** ** The formatter *)

Record Formatter (D : Type) := mkFormatter {
  fm_device : D; fm_builder : FatBuilder; fm_fat : list Z; fm_next_free : Z;
}.
Arguments mkFormatter {D}.
Arguments fm_device {D}.
Arguments fm_builder {D}.
Arguments fm_fat {D}.
Arguments fm_next_free {D}.

Section formatter.
Context {D : Type} `{!BlockDeviceIO D} (layout : Fat32Layout).

Definition set_device (d : D) (f : Formatter D) : Formatter D :=
  mkFormatter d (fm_builder f) (fm_fat f) (fm_next_free f).
Definition set_builder (b : FatBuilder) (f : Formatter D) : Formatter D :=
  mkFormatter (fm_device f) b (fm_fat f) (fm_next_free f).
Definition on_device {A} (m : M D unit A) : M (Formatter D) FatError A :=
  focusM fm_device set_device (map_errM (fun _ => DeviceError) m).
Definition on_builder {A} (m : M FatBuilder FatError A) : M (Formatter D) FatError A :=
  focusM fm_builder set_builder m.

Definition Formatter_new (device : D) (builder : FatBuilder) : Formatter D :=
  let fat_len := (Z.to_nat (l_total_clusters layout) + 2)%nat in
  mkFormatter device builder (<[1%nat := FAT32_EOC]> (<[0%nat := 0x0FFFFFF8]> (replicate fat_len 0))) 2.

(** The links of the clusters [current..end_], all below the length of the table. *)
Fixpoint link_chain (n : nat) (current end_ : Z) (fat : list Z) : list Z :=
  match n with
  | O => fat
  | S n =>
    let next := if u32 (current + 1) =? end_ then FAT32_EOC else u32 (current + 1) in
    link_chain n (current + 1) end_ (<[Z.to_nat current := next]> fat)
  end.

Definition allocate_chain (clusters : Z) : M (Formatter D) FatError Z :=
  if clusters =? 0 then retM 0
  else
    f <-- getM ;;
    let start := fm_next_free f in
    let end_ := u32 (start + clusters) in
    if Z.of_nat (length (fm_fat f)) <=? end_ then failM NoSpace
    else putM (mkFormatter (fm_device f) (fm_builder f)
                 (link_chain (Z.to_nat (end_ - start)) start end_ (fm_fat f)) end_) >>>
         retM start.

(** The sectors of a buffer, to consecutive blocks. *)
Definition write_sectors (lba : Z) (buf : list Z) : M (Formatter D) FatError unit :=
  on_device (write_chunks dev_write (length buf / SECTOR_SIZE) 0 lba SECTOR_SIZE buf).

Definition write_cluster (cluster : Z) (buf : list Z) : M (Formatter D) FatError unit :=
  write_sectors (u32 (l_data_start_lba layout + u32 (u32 (cluster - 2) * SECTORS_PER_CLUSTER))) buf.

Fixpoint write_chain_loop (remaining : nat) (current : Z) (offset : nat) (data : list Z)
    : M (Formatter D) FatError unit :=
  match remaining with
  | O => retM tt
  | S remaining =>
    let cluster_size := l_cluster_size_bytes layout in
    let to_copy := (cluster_size `min` (length data - offset))%nat in
    let buffer := store 0 (load offset to_copy data) (replicate cluster_size 0) in
    write_cluster current buffer >>>
    match remaining with
    | O => retM tt
    | _ =>
      f <-- getM ;; next <-- indexM (fm_fat f) (Z.to_nat current) ;;
      if FAT32_EOC <=? next then failM NoSpace
      else write_chain_loop remaining next (offset + to_copy) data
    end
  end.
Definition write_chain (start_cluster clusters : Z) (data : list Z) : M (Formatter D) FatError unit :=
  write_chain_loop (Z.to_nat clusters) start_cluster 0 data.

Definition write_file (file_id : nat) : M (Formatter D) FatError unit :=
  f <-- on_builder (fileM file_id) ;;
  let data := f_data f in
  if (length data =? 0)%nat then on_builder (upd_file file_id (set_f_clusters None 0))
  else
    let clusters := clusters_for_size (length data) (l_cluster_size_bytes layout) in
    start <-- allocate_chain clusters ;;
    on_builder (upd_file file_id (set_f_clusters (Some start) clusters)) >>>
    write_chain start clusters data.

Fixpoint process_directory (fuel dir_id : nat) (parent_cluster : option Z) : M (Formatter D) FatError unit :=
  match fuel with
  | O => panicM
  | S fuel =>
    d <-- on_builder (dirM dir_id) ;;
    match d_cluster d with
    | Some _ => retM tt
    | None => start_cluster <-- allocate_chain (d_cluster_count d) ;;
              on_builder (upd_dir dir_id (set_d_cluster start_cluster))
    end >>>
    forM (d_entries d) (fun entry => match entry with
      | ItemDir child => d <-- on_builder (dirM dir_id) ;; process_directory fuel child (d_cluster d)
      | ItemFile file_id => write_file file_id
      end) >>>
    buffer <-- on_builder (build_directory_buffer layout dir_id (default 0 parent_cluster)) ;;
    d <-- on_builder (dirM dir_id) ;;
    match d_cluster d with
    | Some cluster => write_chain cluster (d_cluster_count d) buffer
    | None => panicM
    end
  end.

Definition boot_sector : list Z :=
  let s := replicate SECTOR_SIZE 0 in
  let s := store 0 [0xEB; 0x58; 0x90] s in
  let s := store 3 (as_bytes "TWILIGHT") s in
  let s := store 11 (to_le 2 BYTES_PER_SECTOR) s in
  let s := store 13 [SECTORS_PER_CLUSTER] s in
  let s := store 14 (to_le 2 RESERVED_SECTORS) s in
  let s := store 16 [NUM_FATS] s in
  let s := store 17 [0; 0] s in
  let s := store 19 [0; 0] s in
  let s := store 21 [0xF8] s in
  let s := store 22 (to_le 2 0) s in
  let s := store 24 (to_le 2 0x20) s in
  let s := store 26 (to_le 2 0x40) s in
  let s := store 28 (to_le 4 (l_start_lba layout)) s in
  let s := store 32 (to_le 4 (l_total_sectors layout)) s in
  let s := store 36 (to_le 4 (l_fat_size_sectors layout)) s in
  let s := store 40 (to_le 2 0) s in
  let s := store 42 (to_le 2 0) s in
  let s := store 44 (to_le 4 2) s in
  let s := store 48 (to_le 2 1) s in
  let s := store 50 (to_le 2 6) s in
  let s := store 64 (replicate 12 0) s in
  let s := store 64 [0x00] s in
  let s := store 66 [0x29] s in
  let s := store 67 (to_le 4 0x12345678) s in
  let s := store 71 (as_bytes "TWILIGHTOS ") s in
  let s := store 82 (as_bytes "FAT32   ") s in
  store 510 [0x55; 0xAA] s.

Definition fs_info_sector : list Z :=
  let s := replicate SECTOR_SIZE 0 in
  let s := store 0 (to_le 4 0x41615252) s in
  let s := store 484 (to_le 4 0x61417272) s in
  let s := store 488 (to_le 4 (u32 (l_total_clusters layout - 1))) s in
  let s := store 492 (to_le 4 2) s in
  store 510 [0x55; 0xAA] s.

Definition write_sector (lba : Z) (sector : list Z) : M (Formatter D) FatError unit :=
  on_device (dev_write (u32 lba) sector).

Definition write_boot_region : M (Formatter D) FatError unit :=
  let start := l_start_lba layout in
  write_sector start boot_sector >>>
  write_sector (start + 1) fs_info_sector >>>
  write_sector (start + 6) boot_sector >>>
  write_sector (start + 7) fs_info_sector >>>
  forM (seq 2 (Z.to_nat RESERVED_SECTORS - 2)) (fun offset =>
    if (offset =? 6)%nat || (offset =? 7)%nat then retM tt
    else write_sector (start + Z.of_nat offset) (replicate SECTOR_SIZE 0)).

Fixpoint fill_fat (idx : nat) (fat buffer : list Z) : list Z :=
  match fat with
  | [] => buffer
  | entry :: fat =>
    let offset := (idx * 4)%nat in
    if (length buffer <? offset + 4)%nat then buffer
    else fill_fat (S idx) fat (store offset (to_le 4 entry) buffer)
  end.

Definition write_fats : M (Formatter D) FatError unit :=
  f <-- getM ;;
  let fat_bytes := (Z.to_nat (l_fat_size_sectors layout) * SECTOR_SIZE)%nat in
  let buffer := fill_fat 0 (fm_fat f) (replicate fat_bytes 0) in
  let fat_lba := u32 (l_start_lba layout + RESERVED_SECTORS) in
  write_sectors fat_lba buffer >>>
  write_sectors (u32 (fat_lba + l_fat_size_sectors layout)) buffer.

(** Depth of the tree: every directory is deeper than its parent. *)
Definition write_volume : M (Formatter D) FatError unit :=
  write_boot_region >>>
  (f <-- getM ;; process_directory (length (directories (fm_builder f))) 0 None) >>>
  write_fats.
End formatter.

(** ** [format_partition] *)

Definition prepare (cluster_size_bytes : nat) : M FatBuilder FatError unit :=
  b <-- getM ;;
  let fuel := length (directories b) in
  assign_short_names_recursive fuel 0 >>>
  compute_directory_clusters_recursive fuel 0 cluster_size_bytes.

(** [None]: the computation of the table size has not ended within [fuel] rounds. *)
Definition format_partition {D} `{!BlockDeviceIO D} (fuel : nat) (start_lba sector_count : Z)
    (entries : list FatEntry) (device : D) : option (res FatError unit * D) :=
  if sector_count <? RESERVED_SECTORS + 10 then Some (Err NoSpace, device)
  else
    match forM entries add_entry FatBuilder_new with
    | (Ok _, builder) =>
      match Fat32Layout_new fuel start_lba sector_count with
      | Some (Ok layout) =>
        match prepare (l_cluster_size_bytes layout) builder with
        | (Ok _, builder) =>
          let '(r, f) := write_volume layout (Formatter_new layout device builder) in Some (r, fm_device f)
        | (Err e, _) => Some (Err e, device)
        | (Panic, _) => Some (Panic, device)
        end
      | Some (Err e) => Some (Err e, device)
      | Some Panic => Some (Panic, device)
      | None => None
      end
    | (Err e, _) => Some (Err e, device)
    | (Panic, _) => Some (Panic, device)
    end.
