(* ===== verification/Fat32Mount.v ===== *)
(** * A mounted FAT32 partition (src/kernel/twilight_kernel/src/sys/fs/fat32/runtime.rs)

    [Fat32Inner] with its device, the cluster chains, directories and path lookup,
    and the file system the kernel mounts: it is read-only.  The walks along a chain
    are bounded by the number of clusters, as in the source; the bound is the fuel. *)

From S2P Require Import Prelude Bytes Text Utf FatNames BlockDev Partition Vfs.
Open Scope twilight_scope.

Definition RUNTIME_EOC : Z := 0x0FFFFFF8.

Record Fat32Inner (D : Type) := mkInner {
  fi_device : D; fi_start_lba : Z; fi_partition_sectors : Z; fi_bytes_per_sector : Z;
  fi_sectors_per_cluster : Z; fi_reserved_sectors : Z; fi_num_fats : Z; fi_sectors_per_fat : Z;
  fi_root_cluster : Z; fi_fat_start_sector : Z; fi_first_data_sector : Z;
}.
Arguments mkInner {D}.
Arguments fi_device {D}.
Arguments fi_start_lba {D}.
Arguments fi_partition_sectors {D}.
Arguments fi_bytes_per_sector {D}.
Arguments fi_sectors_per_cluster {D}.
Arguments fi_reserved_sectors {D}.
Arguments fi_num_fats {D}.
Arguments fi_sectors_per_fat {D}.
Arguments fi_root_cluster {D}.
Arguments fi_fat_start_sector {D}.
Arguments fi_first_data_sector {D}.

(** [a.checked_add(b)] and [a.checked_mul(b)] on [u32]. *)
Definition checked_add32 (a b : Z) : option Z := if a + b <=? U32_MAX then Some (a + b) else None.
Definition checked_mul32 (a b : Z) : option Z := if a * b <=? U32_MAX then Some (a * b) else None.

Section mounted.
Context {D : Type} `{!BlockDeviceIO D}.
Abbreviation FM := (M (Fat32Inner D) unit).

Definition le_at (off n : nat) (b : list Z) : Z := from_le (load off n b).

(** The checks of [Fat32Inner::new] on the boot sector [bpb]. *)
Definition inner_of (start_lba sectors : Z) (bpb : list Z) (device : D) : res string (Fat32Inner D) :=
  if negb (byte_at bpb 510 =? 0x55) || negb (byte_at bpb 511 =? 0xAA)
  then Err "invalid FAT32 boot signature" else
  let bytes_per_sector := le_at 11 2 bpb in
  if negb (bytes_per_sector =? 512) then Err "unsupported FAT32 bytes/sector" else
  let sectors_per_cluster := byte_at bpb 13 in
  if sectors_per_cluster =? 0 then Err "invalid sectors per cluster" else
  let reserved_sectors := le_at 14 2 bpb in
  let num_fats := byte_at bpb 16 in
  if (reserved_sectors =? 0) || (num_fats =? 0) then Err "invalid FAT32 layout" else
  let root_entry_count := le_at 17 2 bpb in
  if negb (root_entry_count =? 0) then Err "not a FAT32 boot sector" else
  let total_sectors_16 := le_at 19 2 bpb in
  let total_sectors_32 := le_at 32 4 bpb in
  let total_sectors := if negb (total_sectors_16 =? 0) then total_sectors_16 else total_sectors_32 in
  if total_sectors =? 0 then Err "invalid FAT32 partition size" else
  let sectors_per_fat_16 := le_at 22 2 bpb in
  let sectors_per_fat := le_at 36 4 bpb in
  if negb (sectors_per_fat_16 =? 0) || (sectors_per_fat =? 0) then Err "invalid FAT32 FAT size" else
  let root_cluster := le_at 44 4 bpb in
  if root_cluster <? 2 then Err "invalid FAT32 root cluster" else
  let fat_start_sector := reserved_sectors in
  let first_data_sector := u32 (fat_start_sector + u32 (num_fats * sectors_per_fat)) in
  let partition_sectors := sectors `min` total_sectors in
  if partition_sectors <=? first_data_sector then Err "invalid FAT32 data area" else
  Ok (mkInner device start_lba partition_sectors bytes_per_sector sectors_per_cluster
        reserved_sectors num_fats sectors_per_fat root_cluster fat_start_sector first_data_sector).

Definition Fat32Inner_new (start_lba sectors : Z) (device : D) : res string (Fat32Inner D) :=
  if sectors =? 0 then Err "invalid FAT32 partition size"
  else match dev_read start_lba 512 device with
       | (Ok bpb, device) => inner_of start_lba sectors bpb device
       | (Err _, _) => Err "failed to read FAT32 boot sector"
       | (Panic, _) => Panic
       end.

Definition set_fi_device (d : D) (i : Fat32Inner D) : Fat32Inner D :=
  mkInner d (fi_start_lba i) (fi_partition_sectors i) (fi_bytes_per_sector i) (fi_sectors_per_cluster i)
    (fi_reserved_sectors i) (fi_num_fats i) (fi_sectors_per_fat i) (fi_root_cluster i)
    (fi_fat_start_sector i) (fi_first_data_sector i).

Definition read_sector (rel_sector : Z) : FM (list Z) :=
  i <-- getM ;;
  if fi_partition_sectors i <=? rel_sector then failM tt
  else match checked_add32 (fi_start_lba i) rel_sector with
       | Some abs => focusM fi_device set_fi_device (dev_read abs 512)
       | None => failM tt
       end.

Definition cluster_to_sector (i : Fat32Inner D) (cluster : Z) : option Z :=
  if cluster <? 2 then None
  else match checked_mul32 (cluster - 2) (fi_sectors_per_cluster i) with
       | None => None
       | Some rel =>
         match checked_add32 (fi_first_data_sector i) rel with
         | None => None
         | Some sector => if fi_partition_sectors i <=? sector then None else Some sector
         end
       end.

Definition cluster_size_bytes (i : Fat32Inner D) : nat :=
  Z.to_nat (fi_bytes_per_sector i * fi_sectors_per_cluster i).

Definition max_cluster_number (i : Fat32Inner D) : Z :=
  let data_sectors := saturating_sub (fi_partition_sectors i) (fi_first_data_sector i) in
  U32_MAX `min` (data_sectors / fi_sectors_per_cluster i + 1).

Fixpoint read_cluster_sectors (n : nat) (idx first_sector : Z) : FM (list Z) :=
  match n with
  | O => retM []
  | S n => s <-- read_sector (u32 (first_sector + idx)) ;;
           rest <-- read_cluster_sectors n (idx + 1) first_sector ;; retM (s ++ rest)
  end.

Definition read_cluster (cluster : Z) : FM (list Z) :=
  i <-- getM ;;
  match cluster_to_sector i cluster with
  | None => failM tt
  | Some first_sector => read_cluster_sectors (Z.to_nat (fi_sectors_per_cluster i)) 0 first_sector
  end.

Definition read_fat_entry (cluster : Z) : FM Z :=
  i <-- getM ;;
  let fat_offset := cluster * 4 in
  let sector_offset := fat_offset / fi_bytes_per_sector i in
  let byte_offset := fat_offset mod fi_bytes_per_sector i in
  if fi_bytes_per_sector i <? byte_offset + 4 then failM tt
  else sector <-- read_sector (u32 (fi_fat_start_sector i + u32 sector_offset)) ;;
       retM (Z.land (le_at (Z.to_nat byte_offset) 4 sector) 0x0FFFFFFF).

(** The clusters of a directory; at most [visits] of them are read. *)
Fixpoint read_chain (visits : nat) (current : Z) : FM (list Z) :=
  match visits with
  | O => failM tt
  | S visits =>
    data <-- read_cluster current ;;
    next <-- read_fat_entry current ;;
    if (RUNTIME_EOC <=? next) || (next <? 2) then retM data
    else rest <-- read_chain visits next ;; retM (data ++ rest)
  end.

(** [visited > max_clusters] fails: there are [max_clusters + 1] visits. *)
Definition visits (i : Fat32Inner D) : nat := Z.to_nat (max_cluster_number i + 1).

Definition read_directory (cluster : Z) : FM (list FatDirEntry) :=
  if cluster <? 2 then failM tt
  else i <-- getM ;; raw <-- read_chain (visits i) cluster ;; retM (parse_directory_entries raw).

Definition find_named (entries : list FatDirEntry) (component : string) : option FatDirEntry :=
  head (filter (fun item => eq_ignore_ascii_case (fe_name item) component = true) entries).

Fixpoint find_from (current_cluster : Z) (parts : list string) : FM FatDirEntry :=
  match parts with
  | [] => failM tt
  | component :: rest =>
    entries <-- read_directory current_cluster ;;
    match find_named entries component with
    | None => failM tt
    | Some entry =>
      match rest with
      | [] => retM entry
      | _ => if is_dir entry
             then i <-- getM ;;
                  find_from (if 2 <=? fe_cluster entry then fe_cluster entry else fi_root_cluster i) rest
             else failM tt
      end
    end
  end.

Definition find_entry (path : string) : FM FatDirEntry :=
  i <-- getM ;;
  if String.eqb path "/" then retM (mkFatEntry "/" (fi_root_cluster i) 0 ATTR_DIRECTORY)
  else find_from (fi_root_cluster i) (components path).

Definition list_directory (path : string) : FM (list FatDirEntry) :=
  i <-- getM ;;
  if String.eqb path "/" then read_directory (fi_root_cluster i)
  else entry <-- find_entry path ;;
       if negb (is_dir entry) then failM tt
       else read_directory (if 2 <=? fe_cluster entry then fe_cluster entry else fi_root_cluster i).

Fixpoint read_file_loop (visits : nat) (current : Z) (remaining : nat) : FM (list Z) :=
  if (2 <=? current) && (0 <? remaining)%nat then
    match visits with
    | O => failM tt
    | S visits =>
      cluster_data <-- read_cluster current ;;
      let cluster_data := take remaining cluster_data in
      let remaining := (remaining - length cluster_data)%nat in
      if (remaining =? 0)%nat then retM cluster_data
      else next <-- read_fat_entry current ;;
           if (RUNTIME_EOC <=? next) || (next <? 2) then retM cluster_data
           else rest <-- read_file_loop visits next remaining ;; retM (cluster_data ++ rest)
    end
  else retM [].

Definition read_file (entry : FatDirEntry) : FM (list Z) :=
  if fe_size entry =? 0 then retM []
  else if fe_cluster entry <? 2 then failM tt
  else i <-- getM ;;
       data <-- read_file_loop (visits i) (fe_cluster entry) (Z.to_nat (fe_size entry)) ;;
       retM (take (Z.to_nat (fe_size entry)) data).

(** ** The file system and its nodes *)

Definition fat_metadata (entry : FatDirEntry) : Metadata :=
  mkMetadata 0 0 0 (fe_name entry) (if is_dir entry then FileType.Dir else FileType.File)
    (if is_dir entry then 16877 else 33279) (fe_size entry) 0 0 0.

Definition fat_open (path : string) : FM (VfsNode FatDirEntry) :=
  entry <-- find_entry path ;; retM (mkVfsNode (fat_metadata entry) entry).
Definition fat_ls (path : string) : FM (list Metadata) :=
  entries <-- list_directory path ;; retM (fat_metadata <$> entries).
Definition fat_metadata_of (path : string) : FM Metadata :=
  entry <-- find_entry path ;; retM (fat_metadata entry).

Definition fat_node_read (entry : FatDirEntry) (lba : Z) (len : nat) : FM (list Z) :=
  if is_dir entry then failM tt
  else content <-- read_file entry ;;
       if Z.of_nat (length content) <=? lba then retM []
       else retM (take len (drop (Z.to_nat lba) content)).

#[export] Instance fat32_fs : FileSystem (Fat32Inner D) FatDirEntry := {|
  fs_open := fat_open;
  fs_mkdir := fun _ _ _ => failM tt;
  fs_rmdir := fun _ => failM tt;
  fs_rename := rename_unsupported;
  fs_ls := fat_ls;
  fs_rm := fun _ => failM tt;
  fs_touch := fun _ _ _ => failM tt;
  fs_metadata := fat_metadata_of;
  fs_chmod := chmod_read_only;
  fs_set_attr := set_attr_unsupported;
  fs_get_attr := get_attr_unsupported;
  fs_type_name := fun _ => "vfat";
  fs_source_name := fun _ => "/dev/disk0p1";
  fs_stats := stats_default;
|}.

#[export] Instance fat32_node : VfsNodeOps (Fat32Inner D) FatDirEntry := {|
  vn_read := fat_node_read;
  vn_write := fun _ _ _ => failM tt;
  vn_poll := fun _ => retM false;
  vn_ioctl := fun _ _ _ => retM 0;
  vn_unlink := fun _ => failM tt;
  vn_truncate := truncate_unsupported;
|}.
End mounted.

(** ** Detection on a drive

    The second attempt reads the drive again. *)

Section detect.
Context {D : Type} `{!BlockDeviceIO D}.

Definition is_boot_type (ty : Z) : bool :=
  (ty =? FAT32_CHS_PARTITION_TYPE) || (ty =? FAT32_LBA_PARTITION_TYPE) || (ty =? EFI_SYSTEM_PARTITION_TYPE)
  || (ty =? FAT16_CHS_PARTITION_TYPE) || (ty =? FAT16_LBA_PARTITION_TYPE).

Definition detect_fat32_partition_mbr : M D Empty_set (option PartitionEntry) :=
  sector <-- okM (dev_read 0 512%nat) ;;
  match sector with
  | None => retM None
  | Some sector =>
    if negb (has_signature sector) then retM None
    else retM (List.find (fun entry => is_boot_type (partition_type entry)) (decode_entries sector))
  end.

Definition detect_fat32_partition : M D Empty_set (option PartitionEntry) :=
  entry <-- detect_fat32_partition_mbr ;;
  match entry with
  | Some entry => retM (Some entry)
  | None => detect_fat32_partition_mbr
  end.
End detect.
