(* ===== verification/Fat32Size.v ===== *)
(** * The size of the FAT32 table

    [compute_fat32_size] looks for a table size that is the size its own cluster
    count requires.  With [T] sectors, a size [F] requires [(T + 1000 - 2 F) / 1024]
    sectors, so a fixed point exists exactly when [T + 1000] leaves a remainder below
    1024 on division by 1026; for the two other remainders the loop alternates
    between two sizes for ever. *)

From Stdlib Require Import ZifyBool.
From S2P Require Import Prelude Utf Fat32.

(** The range of sizes whose loop does not give up: the first guess, a seventeenth of
    the partition, leaves 65525 clusters. *)
Definition first_guess (T : Z) : Z := (T - 32) / 17.
Definition big_enough (T : Z) : Prop := 65525 <= (T - 32 - 2 * first_guess T) / 8.

(** No step of a round wraps around. *)
Lemma round_eq T F :
  42 <= T < 2 ^ 32 -> 0 <= F < 2 ^ 30 ->
  fat_size_round T F =
  if T - 32 - 2 * F <? 0 then inl (Err NoSpace)
  else if (T - 32 - 2 * F) / 8 <? 65525 then inr (F + 1)
  else if (T + 1000 - 2 * F) / 1024 =? F then inl (Ok (F, (T - 32 - 2 * F) / 8))
  else inr ((T + 1000 - 2 * F) / 1024).
Proof.
  intros HT HF. unfold fat_size_round, RESERVED_SECTORS, NUM_FATS, SECTORS_PER_CLUSTER, BYTES_PER_SECTOR, wrap.
  change (2 ^ 32) with 4294967296 in *. change (2 ^ 30) with 1073741824 in *.
  rewrite (Z.mod_small (2 * F)), (Z.mod_small (32 + 2 * F)), (Z.mod_small (F + 1)) by lia.
  replace (T <? 32 + 2 * F) with (T - 32 - 2 * F <? 0) by lia. case_if; [done|].
  replace (T - (32 + 2 * F)) with (T - 32 - 2 * F) by lia. case_if; [done|].
  set (C := (T - 32 - 2 * F) / 8) in *. assert (0 <= C < 536870912) by (unfold C; div_lia).
  rewrite (Z.mod_small (C + 2)), (Z.mod_small ((C + 2) * 4)), (Z.mod_small ((C + 2) * 4 + 512 - 1)) by lia.
  replace (((C + 2) * 4 + 512 - 1) / 512) with ((T + 1000 - 2 * F) / 1024); [done|].
  unfold C. div_lia.
Qed.

(** How far a candidate is from the quotient, after one more round. *)
Definition next_error (r e : Z) : Z := (r - 2 * e) / 1024.

Section size.
Context (T : Z) (HT : 42 <= T < 2 ^ 32).
Let q := (T + 1000) / 1026.
Let r := (T + 1000) mod 1026.

Lemma size_quotient : T + 1000 = 1026 * q + r /\ 0 <= r < 1026 /\ 1 <= q.
Proof. unfold q, r. div_lia. Qed.

(** A fixed point is the quotient, and needs a remainder below 1024. *)
Lemma error_fixed e : next_error r e = e -> e = 0 /\ r < 1024.
Proof. pose proof size_quotient. unfold next_error. div_lia. Qed.

Section big.
Context (Hbig : big_enough T).

Lemma big_bounds : 594000 <= T /\ first_guess T < 2 ^ 28 /\ q + 2 <= first_guess T.
Proof.
  pose proof size_quotient. unfold big_enough, first_guess in *.
  change (2 ^ 32) with 4294967296 in HT. change (2 ^ 28) with 268435456. div_lia.
Qed.

(** Candidates up to the first guess leave enough clusters and stay below it. *)
Lemma big_round e :
  0 <= q + e <= first_guess T ->
  fat_size_round T (q + e) =
    (if next_error r e =? e then inl (Ok (q + e, (T - 32 - 2 * (q + e)) / 8)) else inr (q + next_error r e)) /\
  0 <= q + next_error r e <= first_guess T.
Proof.
  intros He. pose proof size_quotient as (Hq & Hr & Hq1). pose proof big_bounds as (HT1 & Hg & Hg2).
  assert (Hn : (T + 1000 - 2 * (q + e)) / 1024 = q + next_error r e).
  { rewrite Hq. unfold next_error. replace (1026 * q + r - 2 * (q + e)) with (q * 1024 + (r - 2 * e)) by lia.
    rewrite Z.div_add_l by lia. done. }
  rewrite round_eq, Hn by lia. unfold big_enough in Hbig. split.
  - replace (T - 32 - 2 * (q + e) <? 0) with false by (unfold first_guess in *; div_lia).
    replace ((T - 32 - 2 * (q + e)) / 8 <? 65525) with false by (unfold first_guess in *; div_lia).
    replace (q + next_error r e =? q + e) with (next_error r e =? e) by lia. done.
  - rewrite <- Hn. unfold first_guess in *. div_lia.
Qed.

Lemma big_loop n e :
  0 <= q + e <= first_guess T ->
  fat_size_loop (S n) T (q + e) =
  if next_error r e =? e then Some (Ok (q + e, (T - 32 - 2 * (q + e)) / 8))
  else fat_size_loop n T (q + next_error r e).
Proof. intros He. cbn [fat_size_loop]. destruct (big_round e He) as [-> _]. by case_if. Qed.

(** Without a fixed point the loop goes on for ever. *)
Lemma big_loop_hangs n e : 1024 <= r -> 0 <= q + e <= first_guess T -> fat_size_loop n T (q + e) = None.
Proof.
  intros Hr. revert e. induction n as [|n IH]; intros e He; [done|]. rewrite big_loop by done.
  destruct (Z.eqb_spec (next_error r e) e) as [H|H]; [apply error_fixed in H; lia|].
  apply IH. by apply big_round.
Qed.

(** One round brings the candidate closer. *)
Lemma big_loop_closer n e B :
  0 <= q + e <= first_guess T -> Z.abs e <= B ->
  (forall e', Z.abs e' <= 2 + 2 * B / 1024 -> 0 <= q + e' <= first_guess T ->
     fat_size_loop n T (q + e') = Some (Ok (q, (T - 32 - 2 * q) / 8))) ->
  r < 1024 -> fat_size_loop (S n) T (q + e) = Some (Ok (q, (T - 32 - 2 * q) / 8)).
Proof.
  intros He HB Hnext Hr. rewrite big_loop by done.
  destruct (Z.eqb_spec (next_error r e) e) as [H|H].
  - apply error_fixed in H as [-> _]. by rewrite Z.add_0_r.
  - apply Hnext; [|by apply big_round]. pose proof size_quotient. unfold next_error. div_lia.
Qed.

(** From a distance of two, four rounds are enough. *)
Lemma big_loop_near n e :
  r < 1024 -> Z.abs e <= 2 -> 0 <= q + e <= first_guess T ->
  fat_size_loop (S (S (S (S n)))) T (q + e) = Some (Ok (q, (T - 32 - 2 * q) / 8)).
Proof.
  intros Hr. pose proof size_quotient as (Hq & Hr0 & Hq1). pose proof big_bounds as (_ & _ & Hg).
  assert (H0 : forall n, fat_size_loop (S n) T (q + 0) = Some (Ok (q, (T - 32 - 2 * q) / 8))).
  { intros m. rewrite big_loop by lia. unfold next_error. replace ((r - 2 * 0) / 1024 =? 0) with true by div_lia.
    by rewrite Z.add_0_r. }
  assert (H1 : forall n e, Z.abs e <= 1 -> (e = 1 -> 2 <= r) -> (e = -1 -> r < 1022) ->
    fat_size_loop (S (S n)) T (q + e) = Some (Ok (q, (T - 32 - 2 * q) / 8))).
  { intros m x Hx H1 H2. rewrite big_loop by lia.
    replace (next_error r x) with 0 by (unfold next_error; div_lia).
    destruct (Z.eqb_spec 0 x) as [<-|]; [by rewrite Z.add_0_r|apply H0]. }
  assert (H2 : forall n e, Z.abs e <= 1 ->
    fat_size_loop (S (S (S n))) T (q + e) = Some (Ok (q, (T - 32 - 2 * q) / 8))).
  { intros m x Hx. rewrite big_loop by lia. destruct (Z.eqb_spec (next_error r x) x) as [H|H].
    - apply error_fixed in H as [-> _]. by rewrite Z.add_0_r.
    - apply H1; unfold next_error; div_lia. }
  intros He Hrange. rewrite big_loop by done. destruct (Z.eqb_spec (next_error r e) e) as [H|H].
  - apply error_fixed in H as [-> _]. by rewrite Z.add_0_r.
  - apply H2. unfold next_error. div_lia.
Qed.

Lemma big_loop_ends n :
  r < 1024 -> fat_size_loop (8 + n) T (first_guess T) = Some (Ok (q, (T - 32 - 2 * q) / 8)).
Proof.
  intros Hr. pose proof big_bounds as (_ & Hg & Hg2). pose proof size_quotient as (_ & _ & Hq1).
  change (2 ^ 28) with 268435456 in Hg.
  replace (first_guess T) with (q + (first_guess T - q)) at 1 by lia.
  apply (big_loop_closer _ _ 268435456); [lia|lia| |done]. intros e1 He1 Hq1'.
  apply (big_loop_closer _ _ 524290); [lia|div_lia| |done]. intros e2 He2 Hq2.
  apply (big_loop_closer _ _ 1026); [lia|div_lia| |done]. intros e3 He3 Hq3.
  apply (big_loop_closer _ _ 4); [lia|div_lia| |done]. intros e4 He4 Hq4.
  apply big_loop_near; [done|div_lia|done].
Qed.
End big.

(** A first guess that leaves too few clusters only grows, up to the whole partition. *)
Lemma small_loop n F :
  first_guess T <= F -> 1 <= F -> 2 * F <= T + 2 -> (T - 32 - 2 * first_guess T) / 8 < 65525 ->
  (Z.to_nat (T - 2 * F) < n)%nat -> fat_size_loop n T F = Some (Err NoSpace).
Proof.
  intros HF HF1. revert F HF HF1. induction n as [|n IH]; intros F HF HF1 HF2 Hs Hn; [lia|].
  assert (T < 600000) by (unfold first_guess in *; div_lia).
  cbn [fat_size_loop]. rewrite round_eq by lia. case_if; [done|].
  replace ((T - 32 - 2 * F) / 8 <? 65525) with true by div_lia. apply IH; lia.
Qed.
End size.

Lemma compute_from_guess T fuel :
  42 <= T < 2 ^ 32 -> compute_fat32_size fuel T = fat_size_loop fuel T (first_guess T `max` 1).
Proof.
  intros HT. unfold compute_fat32_size, RESERVED_SECTORS, SECTORS_PER_CLUSTER, NUM_FATS, wrap.
  by rewrite Z.mod_small by lia.
Qed.

Lemma small_guess_refused T :
  42 <= T < 2 ^ 32 -> ~ big_enough T ->
  forall fuel, (Z.to_nat T < fuel)%nat -> compute_fat32_size fuel T = Some (Err NoSpace).
Proof.
  intros HT Hs fuel Hf. rewrite compute_from_guess by done. unfold big_enough in Hs.
  apply small_loop; try lia. unfold first_guess. div_lia.
Qed.

Lemma fat32_size_found T :
  42 <= T < 2 ^ 32 -> big_enough T -> T mod 1026 <> 24 -> T mod 1026 <> 25 ->
  let F := (T + 1000) / 1026 in let C := (T - 32 - 2 * F) / 8 in
  (forall fuel, (8 <= fuel)%nat -> compute_fat32_size fuel T = Some (Ok (F, C))) /\
  C + 2 <= 128 * F /\ 32 + 2 * F + 8 * C <= T < 32 + 2 * F + 8 * (C + 1) /\ 65525 <= C.
Proof.
  intros HT Hb H24 H25 F C. assert (Hrem : 24 <= T mod 1026 < 26 <-> 1024 <= (T + 1000) mod 1026) by div_lia.
  pose proof (big_bounds T HT Hb) as (HT1 & _ & Hg2).
  pose proof (size_quotient T HT) as (Hq & Hr & Hq1). fold F in Hg2, Hq, Hq1. split_and!.
  - intros fuel Hf. rewrite compute_from_guess, Z.max_l by lia. replace fuel with (8 + (fuel - 8))%nat by lia.
    apply big_loop_ends; [done|done|lia].
  - unfold C. div_lia.
  - unfold C. div_lia.
  - unfold C. div_lia.
  - unfold C. unfold big_enough in Hb. fold F in Hg2. div_lia.
Qed.

(** For every partition size: a partition whose first guess leaves fewer than 65525 clusters is refused; otherwise the search for the table size ends within eight rounds with a table that has an entry for every cluster and clusters that fill the rest, unless the size is 24 or 25 modulo 1026, and then it never ends. *)
Theorem compute_fat32_size_decided (T : Z) (HT : 42 <= T < 2 ^ 32) :
  let F := (T + 1000) / 1026 in let C := (T - 32 - 2 * F) / 8 in
  (~ big_enough T -> forall fuel, (Z.to_nat T < fuel)%nat -> compute_fat32_size fuel T = Some (Err NoSpace)) /\
  (big_enough T -> T mod 1026 <> 24 -> T mod 1026 <> 25 ->
     (forall fuel, (8 <= fuel)%nat -> compute_fat32_size fuel T = Some (Ok (F, C))) /\
     C + 2 <= 128 * F /\ 32 + 2 * F + 8 * C <= T < 32 + 2 * F + 8 * (C + 1) /\ 65525 <= C) /\
  (big_enough T -> T mod 1026 = 24 \/ T mod 1026 = 25 -> forall fuel, compute_fat32_size fuel T = None).
Proof.
  intros F C. assert (Hrem : 24 <= T mod 1026 < 26 <-> 1024 <= (T + 1000) mod 1026) by div_lia.
  split_and!; [by apply small_guess_refused|..].
  - by apply fat32_size_found.
  - intros Hb Hm fuel. pose proof (big_bounds T HT Hb) as (HT1 & _ & Hg2).
    pose proof (size_quotient T HT) as (Hq & Hr & Hq1). fold F in Hg2, Hq, Hq1.
    rewrite compute_from_guess, Z.max_l by lia. replace (first_guess T) with (F + (first_guess T - F)) by lia.
    apply big_loop_hangs; [done|done|lia|lia].
Qed.

Lemma compute_fat32_size_decided_witness :
  compute_fat32_size 8 600000 = Some (Ok (585, 74849)) /\ forall fuel, compute_fat32_size fuel 615624 = None.
Proof.
  split.
  - destruct (compute_fat32_size_decided 600000 ltac:(lia)) as (_ & H & _). apply H; [|done..|lia].
    unfold big_enough, first_guess. vm_compute. discriminate.
  - destruct (compute_fat32_size_decided 615624 ltac:(lia)) as (_ & _ & H). apply H; [|by left].
    unfold big_enough, first_guess. vm_compute. discriminate.
Defined.

(** A partition of 560000 sectors has room for a FAT32 volume, with 69859 clusters and a
    table of 546 sectors, and is refused. *)
Lemma roomy_partition_refused :
  69859 + 2 <= 128 * 546 /\ 32 + 2 * 546 + 8 * 69859 <= 560000 /\ 65525 <= 69859 /\
  forall fuel, (Z.to_nat 560000 < fuel)%nat -> compute_fat32_size fuel 560000 = Some (Err NoSpace).
Proof.
  split_and!; [lia..|]. apply (small_guess_refused 560000); [lia|]. unfold big_enough, first_guess. vm_compute. tauto.
Qed.
