(* ===== verification/Fat32Tree.v ===== *)
(** * The builder of a FAT32 volume: its tree

    The skeleton of a builder is what the tree is: names, children and file data.
    [tree_ok] says that it is a tree with distinct names; adding a directory or a
    file keeps it, and adds exactly the paths asked for. *)

From Stdlib Require Import ZifyBool.
From S2P Require Import Prelude Bytes Text Utf FatNames FatNamesSpec BlockDev Fat32.
Open Scope twilight_scope.

(** ** Skeletons *)

Record Skel := mkSkel { sk_dirs : list (string * list DirItem); sk_files : list (string * list Z) }.

Definition dir_skel (d : Directory) : string * list DirItem := (d_name d, d_entries d).
Definition file_skel (f : FileEntry) : string * list Z := (f_name f, f_data f).
Definition skel (b : FatBuilder) : Skel :=
  mkSkel (dir_skel <$> directories b) (file_skel <$> files b).

(** [it] is the [j]-th child of directory [i]. *)
Definition kid (S : Skel) (i j : nat) (it : DirItem) : Prop :=
  exists n es, sk_dirs S !! i = Some (n, es) /\ es !! j = Some it.

Definition label (S : Skel) (it : DirItem) : option string :=
  match it with
  | ItemDir c => fst <$> sk_dirs S !! c
  | ItemFile f => fst <$> sk_files S !! f
  end.

Definition item_name_ok (n : string) : Prop := good_name n /\ plain n = true /\ n <> "." /\ n <> "..".

Record tree_ok (S : Skel) : Prop := {
  tk_root : (0 < length (sk_dirs S))%nat;
  tk_dir i j c : kid S i j (ItemDir c) -> (i < c < length (sk_dirs S))%nat;
  tk_file i j f : kid S i j (ItemFile f) -> (f < length (sk_files S))%nat;
  tk_unique i j i' j' it : kid S i j it -> kid S i' j' it -> i = i' /\ j = j';
  tk_names i j j' it it' n n' : kid S i j it -> kid S i j' it' ->
    label S it = Some n -> label S it' = Some n' -> fold_case n = fold_case n' -> j = j';
  tk_good i j it n : kid S i j it -> label S it = Some n -> item_name_ok n;
}.

Lemma kid_label S i j it : tree_ok S -> kid S i j it -> exists n, label S it = Some n.
Proof.
  intros Ht Hk. destruct it as [c|f]; cbn [label].
  - apply (tk_dir S Ht) in Hk. destruct (lookup_lt_is_Some_2 (sk_dirs S) c) as [[n es] ->]; [lia|]. by exists n.
  - apply (tk_file S Ht) in Hk. destruct (lookup_lt_is_Some_2 (sk_files S) f) as [[n d] ->]; [lia|]. by exists n.
Qed.

(** ** Walking down a path *)

Inductive walk (S : Skel) : nat -> list string -> DirItem -> Prop :=
| walk_here i j n it : kid S i j it -> label S it = Some n -> walk S i [n] it
| walk_in i j n c comps it : kid S i j (ItemDir c) -> label S (ItemDir c) = Some n ->
    walk S c comps it -> walk S i (n :: comps) it.

Definition dir_at (S : Skel) (comps : list string) (k : nat) : Prop :=
  (comps = [] /\ k = 0%nat) \/ walk S 0 comps (ItemDir k).

Lemma walk_snoc S i comps c j n it :
  walk S i comps (ItemDir c) -> kid S c j it -> label S it = Some n -> walk S i (comps ++ [n]) it.
Proof.
  intros Hw. remember (ItemDir c) as x eqn:Ex. revert c Ex.
  induction Hw as [i j' n' x Hk Hl|i j' n' c' comps x Hk Hl Hw IH]; intros c -> Hk' Hl'; cbn [app].
  - eapply walk_in; [done|done|]. by eapply walk_here.
  - eapply walk_in; [done|done|]. by eapply IH.
Qed.

Lemma dir_at_snoc S comps c j n it :
  dir_at S comps c -> kid S c j it -> label S it = Some n -> walk S 0 (comps ++ [n]) it.
Proof.
  intros [[-> ->]|Hw] Hk Hl; [by eapply walk_here|by eapply walk_snoc].
Qed.

(** The last step of a walk. *)
Lemma walk_last S comps it :
  walk S 0 comps it -> exists comps' c j n, comps = comps' ++ [n] /\ dir_at S comps' c /\
    kid S c j it /\ label S it = Some n.
Proof.
  assert (forall i comps it, walk S i comps it -> exists comps' c j n, comps = comps' ++ [n] /\
    (comps' = [] /\ c = i \/ walk S i comps' (ItemDir c)) /\ kid S c j it /\ label S it = Some n) as H; [|apply H].
  induction 1 as [i j n x Hk Hl|i j n c' cs x Hk Hl _ (comps' & c & j' & n' & -> & Hc & Hk' & Hl')].
  - exists [], i, j, n. split; [done|]. split; [by left|done].
  - exists (n :: comps'), c, j', n'. split; [done|]. split; [right|done].
    destruct Hc as [[-> ->]|Hc]; [by eapply walk_here|by eapply walk_in].
Qed.

Lemma walk_down S i comps c : tree_ok S -> walk S i comps (ItemDir c) -> (i < c)%nat.
Proof.
  intros Ht Hw. remember (ItemDir c) as x eqn:Ex. revert c Ex.
  induction Hw as [i j n x Hk Hl|i j n c' cs x Hk Hl _ IH]; intros c ->.
  - apply (tk_dir S Ht) in Hk. lia.
  - specialize (IH c eq_refl). apply (tk_dir S Ht) in Hk. lia.
Qed.

(** An item has one path. *)
Lemma walk_path_unique S comps comps' it :
  tree_ok S -> walk S 0 comps it -> walk S 0 comps' it -> comps = comps'.
Proof.
  intros Ht. revert comps' it. induction comps as [|n comps IH] using rev_ind; intros comps' it Hw Hw'.
  { inversion Hw. }
  apply walk_last in Hw as (a & c & j & m & Ea & Hc & Hk & Hl).
  apply walk_last in Hw' as (a' & c' & j' & m' & -> & Hc' & Hk' & Hl').
  apply app_inj_tail in Ea as [-> ->]. destruct (tk_unique S Ht _ _ _ _ _ Hk Hk') as [-> _].
  assert (m = m') as <- by congruence. f_equal.
  destruct Hc as [[-> ->]|Hc], Hc' as [[-> Hz]|Hc']; subst; auto.
  - by apply (walk_down S) in Hc'; [lia|].
  - by apply (walk_down S) in Hc; [lia|].
  - eauto.
Qed.

(** ** Growing a tree *)

Definition attach (S : Skel) (p : nat) (it : DirItem) : Skel :=
  mkSkel (alter (fun x => (x.1, x.2 ++ [it])) p (sk_dirs S)) (sk_files S).
Definition new_dir (S : Skel) (n : string) : Skel := mkSkel (sk_dirs S ++ [(n, [])]) (sk_files S).
Definition new_file (S : Skel) (n : string) (d : list Z) : Skel := mkSkel (sk_dirs S) (sk_files S ++ [(n, d)]).

Lemma kid_attach S p it i j x :
  kid (attach S p it) i j x <->
  kid S i j x \/ (i = p /\ x = it /\ exists n es, sk_dirs S !! p = Some (n, es) /\ j = length es).
Proof.
  unfold kid, attach. cbn [sk_dirs]. destruct (decide (i = p)) as [->|Hne].
  - rewrite list_lookup_alter_eq. destruct (sk_dirs S !! p) as [[n es]|] eqn:E; cbn [fmap option_fmap option_map fst snd].
    + split.
      * intros (n' & es' & [= <- <-] & Hj). apply lookup_app_Some in Hj as [Hj|[Hl Hj]]; [left; eauto|right].
        apply list_lookup_singleton_Some in Hj as [Hj ->]. split_and!; [done..|]. exists n, es. split; [done|lia].
      * intros [(n' & es' & [= <- <-] & Hj)|(_ & -> & n' & es' & [= <- <-] & ->)].
        -- eexists _, _. split; [done|]. by apply lookup_app_l_Some.
        -- eexists _, _. split; [done|]. by rewrite lookup_app_r, Nat.sub_diag.
    + split; [by intros (? & ? & ? & _)|]. intros [(? & ? & ? & _)|(_ & _ & ? & ? & ? & _)]; done.
  - rewrite list_lookup_alter_ne by done. split; [by left|]. intros [H|[? _]]; done.
Qed.

Lemma label_attach S p it x : label (attach S p it) x = label S x.
Proof.
  destruct x as [c|f]; [|done]. cbn [label attach sk_dirs]. destruct (decide (c = p)) as [->|Hne].
  - rewrite list_lookup_alter_eq. by destruct (sk_dirs S !! p).
  - by rewrite list_lookup_alter_ne.
Qed.

Lemma kid_new_dir S n i j x : kid (new_dir S n) i j x <-> kid S i j x.
Proof.
  unfold kid, new_dir. cbn [sk_dirs]. split; intros (m & es & H & Hj).
  - apply lookup_app_Some in H as [H|[_ H]]; [eauto|].
    apply list_lookup_singleton_Some in H as [_ [= <- <-]]. by rewrite lookup_nil in Hj.
  - exists m, es. split; [by apply lookup_app_l_Some|done].
Qed.

Lemma label_mono_dir S n x m : label S x = Some m -> label (new_dir S n) x = Some m.
Proof.
  destruct x as [c|f]; [|done]. cbn [label new_dir sk_dirs].
  destruct (sk_dirs S !! c) as [y|] eqn:E; [|done]. by rewrite (lookup_app_l_Some _ _ _ _ E).
Qed.
Lemma label_mono_file S n d x m : label S x = Some m -> label (new_file S n d) x = Some m.
Proof.
  destruct x as [c|f]; [done|]. cbn [label new_file sk_files].
  destruct (sk_files S !! f) as [y|] eqn:E; [|done]. by rewrite (lookup_app_l_Some _ _ _ _ E).
Qed.

(** A node no directory refers to changes nothing. *)
Lemma tree_ok_new S S' :
  tree_ok S -> (forall i j x, kid S' i j x <-> kid S i j x) ->
  (forall x m, label S x = Some m -> label S' x = Some m) ->
  (length (sk_dirs S) <= length (sk_dirs S'))%nat -> (length (sk_files S) <= length (sk_files S'))%nat ->
  tree_ok S'.
Proof.
  intros Ht Hk Hl Hd Hf.
  assert (Hl' : forall i j x m, kid S i j x -> label S' x = Some m -> label S x = Some m).
  { intros i j x m Hx Hm. destruct (kid_label S i j x Ht Hx) as [m' Hm']. rewrite Hm'.
    apply Hl in Hm'. congruence. }
  constructor.
  - pose proof (tk_root S Ht). lia.
  - intros i j c H%Hk. apply (tk_dir S Ht) in H. lia.
  - intros i j f H%Hk. apply (tk_file S Ht) in H. lia.
  - intros i j i' j' it H%Hk H'%Hk. by apply (tk_unique S Ht _ _ _ _ it).
  - intros i j j' it it' n n' H%Hk H'%Hk Hn Hn'.
    apply (tk_names S Ht i j j' it it' n n' H H'); [by eapply Hl'|by eapply Hl'].
  - intros i j it n H%Hk Hn. apply (tk_good S Ht i j it n H). by eapply Hl'.
Qed.

Lemma tree_ok_new_dir S n : tree_ok S -> tree_ok (new_dir S n).
Proof.
  intros Ht. apply (tree_ok_new S); auto using kid_new_dir, label_mono_dir.
  cbn [new_dir sk_dirs]. rewrite length_app. lia.
Qed.
Lemma tree_ok_new_file S n d : tree_ok S -> tree_ok (new_file S n d).
Proof.
  intros Ht. apply (tree_ok_new S); auto using label_mono_file.
  cbn [new_file sk_files]. rewrite length_app. lia.
Qed.

(** Attaching a fresh node with a fresh name. *)
Lemma tree_ok_attach S p it n :
  tree_ok S -> (forall i j, ~ kid S i j it) -> label S it = Some n -> item_name_ok n ->
  match it with ItemDir c => (p < c)%nat | ItemFile _ => True end ->
  (forall j x m, kid S p j x -> label S x = Some m -> fold_case m <> fold_case n) ->
  tree_ok (attach S p it).
Proof.
  intros Ht Hfresh Hl Hn Hlt Hnew.
  assert (Hlen : length (sk_dirs (attach S p it)) = length (sk_dirs S)) by (cbn; apply length_alter).
  constructor.
  - rewrite Hlen. apply Ht.
  - intros i j c [H|(-> & <- & _)]%kid_attach; rewrite Hlen; [by apply (tk_dir S Ht) in H|].
    split; [done|]. cbn [label] in Hl. destruct (sk_dirs S !! c) eqn:E; [|done]. by apply lookup_lt_Some in E.
  - intros i j f [H|(-> & <- & _)]%kid_attach; [by apply (tk_file S Ht) in H|].
    cbn [label] in Hl. destruct (sk_files S !! f) eqn:E; [|done]. by apply lookup_lt_Some in E.
  - intros i j i' j' x [H|(-> & -> & m & es & Hp & ->)]%kid_attach [H'|(-> & Ex & m' & es' & Hp' & ->)]%kid_attach.
    + by apply (tk_unique S Ht _ _ _ _ x).
    + subst. by destruct (Hfresh _ _ H).
    + by destruct (Hfresh _ _ H').
    + split; [done|]. by simplify_eq.
  - intros i j j' x x' m m'. rewrite !label_attach.
    intros [H|(-> & -> & k & es & Hp & ->)]%kid_attach [H'|(E & -> & k' & es' & Hp' & ->)]%kid_attach Hm Hm' Hc.
    + by apply (tk_names S Ht i j j' x x' m m').
    + subst i. assert (m' = n) as -> by congruence. by destruct (Hnew j x m H Hm).
    + assert (m = n) as -> by congruence. by destruct (Hnew j' x' m' H' Hm').
    + by simplify_eq.
  - intros i j x m. rewrite label_attach. intros [H|(-> & -> & _)]%kid_attach Hm.
    + by apply (tk_good S Ht i j x m).
    + by assert (m = n) as -> by congruence.
Qed.

(** ** Paths in a grown tree *)

Lemma walk_mono S S' i comps it :
  (forall i j x, kid S i j x -> kid S' i j x) -> (forall x m, label S x = Some m -> label S' x = Some m) ->
  walk S i comps it -> walk S' i comps it.
Proof.
  intros Hk Hl. induction 1 as [i j n x H1 H2|i j n c cs x H1 H2 _ IH]; [eapply walk_here; eauto|].
  eapply walk_in; eauto.
Qed.

(** A new directory has no walks through it, and all the old ones are there. *)
Definition with_dir (S : Skel) (p : nat) (n : string) : Skel :=
  attach (new_dir S n) p (ItemDir (length (sk_dirs S))).
Definition with_file (S : Skel) (p : nat) (n : string) (d : list Z) : Skel :=
  attach (new_file S n d) p (ItemFile (length (sk_files S))).

Lemma with_dir_mono S p n i comps it : walk S i comps it -> walk (with_dir S p n) i comps it.
Proof.
  apply walk_mono.
  - intros. apply kid_attach. left. by apply kid_new_dir.
  - intros. unfold with_dir. rewrite label_attach. by apply label_mono_dir.
Qed.

Lemma with_file_mono S p n d i comps it : walk S i comps it -> walk (with_file S p n d) i comps it.
Proof.
  apply walk_mono.
  - intros. apply kid_attach. by left.
  - intros. unfold with_file. rewrite label_attach. by apply label_mono_file.
Qed.

Lemma kid_not_fresh_dir S i j : tree_ok S -> ~ kid S i j (ItemDir (length (sk_dirs S))).
Proof. intros Ht H. apply (tk_dir S Ht) in H. lia. Qed.
Lemma kid_not_fresh_file S i j : tree_ok S -> ~ kid S i j (ItemFile (length (sk_files S))).
Proof. intros Ht H. apply (tk_file S Ht) in H. lia. Qed.

Lemma label_kid_dir S n i j x m : tree_ok S -> kid S i j x -> label (new_dir S n) x = Some m -> label S x = Some m.
Proof.
  intros Ht Hk Hm. destruct (kid_label S i j x Ht Hk) as [m' Hm']. rewrite Hm'.
  apply (label_mono_dir S n) in Hm'. congruence.
Qed.
Lemma label_kid_file S n d i j x m :
  tree_ok S -> kid S i j x -> label (new_file S n d) x = Some m -> label S x = Some m.
Proof.
  intros Ht Hk Hm. destruct (kid_label S i j x Ht Hk) as [m' Hm']. rewrite Hm'.
  apply (label_mono_file S n d) in Hm'. congruence.
Qed.

Lemma with_dir_files S p n i comps f :
  tree_ok S -> (p < length (sk_dirs S))%nat -> i <> length (sk_dirs S) ->
  walk (with_dir S p n) i comps (ItemFile f) -> walk S i comps (ItemFile f).
Proof.
  intros Ht Hp Hi Hw. remember (ItemFile f) as x eqn:Ex. revert Hi Ex.
  induction Hw as [i j m x Hk Hl|i j m c cs x Hk Hl Hw IH]; intros Hi ->; unfold with_dir in *.
  - rewrite label_attach in Hl. apply kid_attach in Hk as [Hk|(_ & ? & _)]; [|done].
    apply kid_new_dir in Hk. eapply walk_here; [done|by eapply label_kid_dir].
  - rewrite label_attach in Hl. apply kid_attach in Hk as [Hk|(_ & [= ->] & _)].
    + apply kid_new_dir in Hk. pose proof (tk_dir S Ht _ _ _ Hk).
      eapply walk_in; [done|by eapply label_kid_dir|]. apply IH; [lia|done].
    + exfalso. assert (Hno : forall j x, ~ kid (attach (new_dir S n) p (ItemDir (length (sk_dirs S)))) (length (sk_dirs S)) j x).
      { intros j' x [H|(E & _)]%kid_attach; [|lia]. apply kid_new_dir in H as (? & ? & H & _).
        apply lookup_lt_Some in H. lia. }
      inversion Hw; subst; by eapply Hno.
Qed.

Lemma with_file_dirs S p n d i comps c :
  tree_ok S -> walk (with_file S p n d) i comps (ItemDir c) -> walk S i comps (ItemDir c).
Proof.
  intros Ht Hw. remember (ItemDir c) as x eqn:Ex. revert c Ex.
  induction Hw as [i j m x Hk Hl|i j m c' cs x Hk Hl Hw IH]; intros c ->; unfold with_file in *;
    rewrite label_attach in Hl; (apply kid_attach in Hk as [Hk|(_ & ? & _)]; [|done]).
  - eapply walk_here; [done|by eapply label_kid_file].
  - eapply walk_in; [done|by eapply label_kid_file|by eapply IH].
Qed.

(** The walks to files after a file was added. *)
Lemma with_file_files S p n d comps f :
  tree_ok S -> walk (with_file S p n d) 0 comps (ItemFile f) ->
  walk S 0 comps (ItemFile f) \/
  (f = length (sk_files S) /\ exists done, comps = done ++ [n] /\ dir_at S done p).
Proof.
  intros Ht Hw. apply walk_last in Hw as (cs & c & j & m & -> & Hc & Hk & Hl).
  assert (Hc' : dir_at S cs c).
  { destruct Hc as [?|Hc]; [by left|right]. by apply with_file_dirs in Hc. }
  unfold with_file in Hk, Hl. rewrite label_attach in Hl.
  apply kid_attach in Hk as [Hk|(-> & [= ->] & _)].
  - left. eapply dir_at_snoc; [done..|]. by eapply label_kid_file.
  - right. split; [done|]. exists cs. split; [|done].
    cbn [label new_file sk_files] in Hl. rewrite lookup_app_r, Nat.sub_diag in Hl by done. cbn in Hl. by simplify_eq.
Qed.

(** * The builder of a FAT32 volume: what the requested entries build

    Every accepted request is in the tree, at the path it names and with its data,
    and every file of the tree was requested. *)

From S2P Require Import BlockDevSpec.
Open Scope twilight_scope.

Lemma bind_inv {S E A B} (m : M S E A) (k : A -> M S E B) s b s' :
  bindM m k s = (Ok b, s') -> exists a s1, m s = (Ok a, s1) /\ k a s1 = (Ok b, s').
Proof. unfold bindM. destruct (m s) as [[a|e|] s1]; intros H; simplify_eq; eauto. Qed.

Lemma forM_app {S E A} (l l' : list A) (f : A -> M S E unit) s :
  forM (l ++ l') f s = bindM (forM l f) (fun _ => forM l' f) s.
Proof.
  revert s. induction l as [|a l IH]; intros s; cbn [app forM]; [done|].
  unfold bindM in *. destruct (f a s) as [[[]|e|] s1]; [apply IH|done|done].
Qed.

(** ** Paths as keys *)

Definition path_str (comps : list string) : string :=
  match comps with [] => "/" | _ => "/" +:+ join "/" comps end.

Lemma components_path_str comps :
  Forall (fun c => plain c = true) comps -> components (path_str comps) = comps.
Proof.
  intros H. destruct comps as [|c cs]; [done|]. unfold path_str.
  change ("/" +:+ join "/" (c :: cs)) with (String slash (join "/" (c :: cs))).
  by rewrite components_slash, components_join.
Qed.

Lemma path_str_inj a b :
  Forall (fun c => plain c = true) a -> Forall (fun c => plain c = true) b -> path_str a = path_str b -> a = b.
Proof. intros Ha Hb H. by rewrite <- (components_path_str a), H, components_path_str. Qed.

Lemma join_snoc cs c : cs <> [] -> join "/" (cs ++ [c]) = join "/" cs +:+ "/" +:+ c.
Proof.
  induction cs as [|x [|y cs] IH]; intros H; [done|done|].
  change (join "/" ((x :: y :: cs) ++ [c])) with (x +:+ "/" +:+ join "/" ((y :: cs) ++ [c])).
  rewrite IH by done. change (join "/" (x :: y :: cs)) with (x +:+ "/" +:+ join "/" (y :: cs)).
  by rewrite !append_assoc.
Qed.

Lemma path_str_snoc cs c :
  Forall (fun c => plain c = true) cs -> plain c = true ->
  (if String.eqb (path_str cs) "/" then "/" +:+ c else path_str cs +:+ "/" +:+ c) = path_str (cs ++ [c]).
Proof.
  intros Hcs Hc. destruct cs as [|x cs]; [done|].
  destruct (String.eqb_spec (path_str (x :: cs)) "/") as [E|_].
  { change "/" with (path_str []) in E. apply path_str_inj in E; [done|done|constructor]. }
  unfold path_str. cbn [app]. change (x :: cs ++ [c]) with ((x :: cs) ++ [c]).
  by rewrite join_snoc, !append_assoc.
Qed.

(** ** The state of a builder between requests *)

Definition dir_fresh (d : Directory) : Prop := d_cluster d = None /\ d_short_name d = None.
Definition file_fresh (f : FileEntry) : Prop :=
  f_first_cluster f = None /\ f_short_name f = None /\
  (f_forced_short f = None \/ f_forced_short f = Some (as_bytes "LIMINE  SYS")).

Record built (b : FatBuilder) : Prop := {
  bt_tree : tree_ok (skel b);
  bt_paths p k : path_map b !! p = Some k -> exists comps, p = path_str comps /\
    Forall (fun c => plain c = true) comps /\ dir_at (skel b) comps k;
  bt_dirs : Forall dir_fresh (directories b);
  bt_files : Forall file_fresh (files b);
}.

Lemma tree_ok_root : tree_ok (skel FatBuilder_new).
Proof.
  assert (forall i j it, ~ kid (skel FatBuilder_new) i j it) as Hno.
  { intros [|i] j it (n & es & H & Hj); [|by destruct i]. injection H as <- <-. by destruct j. }
  constructor; [cbn; lia|intros; by edestruct Hno..].
Qed.

Lemma built_new : built FatBuilder_new.
Proof.
  constructor.
  - apply tree_ok_root.
  - intros p k H. cbn in H. apply lookup_singleton_Some in H as [<- <-]. exists []. split; [done|].
    split; [done|]. by left.
  - by repeat constructor.
  - constructor.
Qed.

(** ** Looking for a name *)

Lemma dirM_run b i d : directories b !! i = Some d -> dirM i b = (Ok d, b).
Proof. intros H. unfold dirM, bindM, getM, indexM. by rewrite H. Qed.
Lemma fileM_run b i f : files b !! i = Some f -> fileM i b = (Ok f, b).
Proof. intros H. unfold fileM, bindM, getM, indexM. by rewrite H. Qed.

Lemma label_dir b c : label (skel b) (ItemDir c) = d_name <$> directories b !! c.
Proof. cbn [label skel sk_dirs]. rewrite list_lookup_fmap. by destruct (directories b !! c). Qed.
Lemma label_file b f : label (skel b) (ItemFile f) = f_name <$> files b !! f.
Proof. cbn [label skel sk_files]. rewrite list_lookup_fmap. by destruct (files b !! f). Qed.

Lemma item_name_run b it n : label (skel b) it = Some n -> item_name it b = (Ok n, b).
Proof.
  destruct it as [c|f]; [rewrite label_dir|rewrite label_file]; intros H; unfold item_name.
  - destruct (directories b !! c) as [d|] eqn:E; [|done]. erewrite bindM_ok by (by apply dirM_run).
    cbn in H. by simplify_eq.
  - destruct (files b !! f) as [d|] eqn:E; [|done]. erewrite bindM_ok by (by apply fileM_run).
    cbn in H. by simplify_eq.
Qed.

Lemma any_named_run b es name :
  (forall x, x ∈ es -> exists m, label (skel b) x = Some m) ->
  exists r, any_named es name b = (Ok r, b) /\
    (r = false -> forall x m, x ∈ es -> label (skel b) x = Some m -> fold_case m <> fold_case name).
Proof.
  induction es as [|it es IH]; intros Hes; cbn [any_named].
  { exists false. split; [done|]. intros _ x m Hx. by apply not_elem_of_nil in Hx. }
  destruct (Hes it) as [n Hn]; [left|]. erewrite bindM_ok by (by apply item_name_run).
  destruct (eq_ignore_ascii_case n name) eqn:E; [by exists true|].
  destruct IH as (r & Hr & Hfalse); [intros; apply Hes; by right|]. exists r. split; [done|].
  intros -> x m Hx Hm. apply elem_of_cons in Hx as [->|Hx]; [|by eapply Hfalse].
  assert (m = n) as -> by congruence. intros Hc. by apply eq_ignore_ascii_case_spec in Hc; congruence.
Qed.

Lemma kid_entries b i j it d :
  directories b !! i = Some d -> kid (skel b) i j it <-> d_entries d !! j = Some it.
Proof.
  intros Hd. unfold kid. cbn [skel sk_dirs]. rewrite list_lookup_fmap, Hd. cbn. split.
  - by intros (n & es & [= <- <-] & Hj).
  - intros Hj. by exists (d_name d), (d_entries d).
Qed.

Lemma has_child_named_run b i name :
  tree_ok (skel b) -> (i < length (directories b))%nat ->
  exists r, has_child_named i name b = (Ok r, b) /\
    (r = false -> forall j x m, kid (skel b) i j x -> label (skel b) x = Some m -> fold_case m <> fold_case name).
Proof.
  intros Ht Hi. destruct (lookup_lt_is_Some_2 _ _ Hi) as [d Hd]. unfold has_child_named.
  erewrite bindM_ok by (by apply dirM_run).
  destruct (any_named_run b (d_entries d) name) as (r & Hr & Hfalse).
  { intros x [j Hj]%list_elem_of_lookup_1. apply (kid_label _ i j); [done|]. by apply (kid_entries b i j x d). }
  exists r. split; [done|]. intros Hf j x m Hk. apply Hfalse; [done|].
  apply (kid_entries b i j x d Hd) in Hk. by eapply list_elem_of_lookup_2.
Qed.

(** ** Adding a directory *)

Lemma skel_upd_dir b p f it :
  (forall d, dir_skel (f d) = ((dir_skel d).1, (dir_skel d).2 ++ [it])) ->
  skel (mkBuilder (alter f p (directories b)) (files b) (path_map b)) = attach (skel b) p it.
Proof.
  intros Hf. unfold skel, attach. cbn [directories files sk_dirs sk_files]. f_equal.
  apply list_fmap_alter. apply Forall_forall. intros d _. by rewrite Hf.
Qed.

Definition after_push_dir (b : FatBuilder) (p : nat) (n path : string) : FatBuilder :=
  mkBuilder (alter (push_entry (ItemDir (length (directories b)))) p (directories b ++ [Directory_new n (Some p)]))
    (files b) (<[path := length (directories b)]> (path_map b)).

Lemma push_directory_run b p n path :
  (p < length (directories b))%nat ->
  push_directory p n path b = (Ok (length (directories b)), after_push_dir b p n path).
Proof.
  intros Hp. destruct (lookup_lt_is_Some_2 _ _ Hp) as [d Hd].
  unfold push_directory, upd_dir, dirM, indexM, bindM, getM, modifyM, retM. cbn [directories files path_map].
  by rewrite (lookup_app_l_Some _ _ _ _ Hd).
Qed.

Lemma skel_push_dir b p n path : skel (after_push_dir b p n path) = with_dir (skel b) p n.
Proof.
  unfold after_push_dir, with_dir.
  trans (skel (mkBuilder (alter (push_entry (ItemDir (length (directories b)))) p
    (directories b ++ [Directory_new n (Some p)])) (files b) (path_map b))); [done|].
  rewrite (skel_upd_dir (mkBuilder (directories b ++ [Directory_new n (Some p)]) (files b) (path_map b)) p
    _ (ItemDir (length (directories b)))) by done.
  f_equal.
  - unfold skel, new_dir. cbn [directories files sk_dirs sk_files]. by rewrite fmap_app.
  - cbn [skel sk_dirs]. by rewrite length_fmap.
Qed.

Lemma Forall_alter_app {A} (P : A -> Prop) (f : A -> A) p l x :
  (forall y, P y -> P (f y)) -> Forall P l -> P x -> Forall P (alter f p (l ++ [x])).
Proof.
  intros Hf Hl Hx. apply Forall_alter; [by apply Forall_app_2; [|constructor]|].
  intros y _ Hy. by apply Hf.
Qed.

Lemma dir_at_lt S comps k : tree_ok S -> dir_at S comps k -> (k < length (sk_dirs S))%nat.
Proof.
  intros Ht [[_ ->]|Hw]; [by apply tk_root|].
  apply walk_last in Hw as (? & ? & ? & ? & _ & _ & Hk & _). apply (tk_dir S Ht) in Hk. lia.
Qed.

Lemma built_push_dir b p n cs :
  built b -> dir_at (skel b) cs p -> Forall (fun c => plain c = true) cs -> item_name_ok n ->
  (forall j x m, kid (skel b) p j x -> label (skel b) x = Some m -> fold_case m <> fold_case n) ->
  let b' := after_push_dir b p n (path_str (cs ++ [n])) in
  built b' /\ dir_at (skel b') (cs ++ [n]) (length (directories b)).
Proof.
  intros [Ht Hpm Hd Hf] Hat Hcs Hn Hnew b'.
  pose proof (dir_at_lt _ _ _ Ht Hat) as Hp.
  assert (Hlen : length (sk_dirs (skel b)) = length (directories b)) by (cbn; by rewrite length_fmap).
  set (S' := new_dir (skel b) n). set (c := length (directories b)) in *.
  assert (Hlab : label S' (ItemDir c) = Some n).
  { unfold S'. cbn [label new_dir sk_dirs]. rewrite <- Hlen, lookup_app_r, Nat.sub_diag by done. done. }
  assert (Hs : skel b' = with_dir (skel b) p n) by apply skel_push_dir.
  assert (Hat' : dir_at (skel b') (cs ++ [n]) c).
  { right. rewrite Hs. destruct (lookup_lt_is_Some_2 _ _ Hp) as [[m es] Hes].
    eapply (dir_at_snoc _ _ p (length es)).
    - destruct Hat as [?|Hw]; [by left|right]. by apply with_dir_mono.
    - apply kid_attach. right. split; [done|]. split; [by rewrite Hlen|]. exists m, es. split; [|done].
      cbn [new_dir sk_dirs]. by apply lookup_app_l_Some.
    - unfold with_dir. by rewrite label_attach. }
  split; [|done]. constructor.
  - rewrite Hs. unfold with_dir. rewrite Hlen. apply (tree_ok_attach S' p (ItemDir c) n).
    + by apply tree_ok_new_dir.
    + intros i j H%kid_new_dir. apply (kid_not_fresh_dir (skel b) i j Ht). by rewrite Hlen.
    + done.
    + done.
    + lia.
    + intros j x m Hk Hm. apply kid_new_dir in Hk. eapply Hnew; [done|]. by eapply label_kid_dir.
  - intros q k. cbn [b' after_push_dir path_map]. rewrite lookup_insert_Some.
    intros [[<- <-]|[_ H]].
    + exists (cs ++ [n]). split; [done|]. split; [|done]. apply Forall_app_2; [done|]. constructor; [apply Hn|constructor].
    + destruct (Hpm q k H) as (comps & -> & Hpl & Hk). exists comps. split; [done|]. split; [done|].
      rewrite Hs. destruct Hk as [?|Hw]; [by left|right]. by apply with_dir_mono.
  - by apply Forall_alter_app.
  - done.
Qed.

(** The tree after directories were added. *)
Record dirs_added (b b' : FatBuilder) : Prop := {
  da_walk p it : walk (skel b) 0 p it -> walk (skel b') 0 p it;
  da_files : files b' = files b;
  da_back p f : walk (skel b') 0 p (ItemFile f) -> walk (skel b) 0 p (ItemFile f);
}.

Lemma dirs_added_refl b : dirs_added b b.
Proof. by constructor. Qed.
Lemma dirs_added_trans a b c : dirs_added a b -> dirs_added b c -> dirs_added a c.
Proof. intros [H1 H2 H3] [K1 K2 K3]. constructor; [auto|congruence|auto]. Qed.

Lemma dir_at_added b b' cs k : dirs_added b b' -> dir_at (skel b) cs k -> dir_at (skel b') cs k.
Proof. intros Ha [?|Hw]; [by left|right]. by apply Ha. Qed.

Lemma plain_not_empty c : plain c = true -> is_empty c = false.
Proof. unfold plain. intros [H _]%andb_prop. by apply negb_true_iff. Qed.

Lemma ensure_from_ok comps b id cs k b' :
  Forall item_name_ok comps -> built b -> dir_at (skel b) cs id -> Forall (fun c => plain c = true) cs ->
  ensure_from id (path_str cs) comps b = (Ok k, b') ->
  built b' /\ dir_at (skel b') (cs ++ comps) k /\ dirs_added b b'.
Proof.
  intros Hok. revert b id cs. induction Hok as [|n comps Hn _ IH]; intros b id cs Hb Hat Hcs Hr; cbn [ensure_from] in Hr.
  { injection Hr as <- <-. rewrite app_nil_r. auto using dirs_added_refl. }
  pose proof Hn as (_ & Hpl & _). rewrite plain_not_empty in Hr by done.
  rewrite path_str_snoc in Hr by done. unfold bindM at 1, getM in Hr.
  assert (Hcs' : Forall (fun c => plain c = true) (cs ++ [n])) by (apply Forall_app_2; [done|by constructor]).
  replace (cs ++ n :: comps) with ((cs ++ [n]) ++ comps) by (by rewrite <- app_assoc).
  destruct (path_map b !! path_str (cs ++ [n])) as [k'|] eqn:Epm.
  - destruct (bt_paths b Hb _ _ Epm) as (cs' & E & Hpl' & Hat').
    apply path_str_inj in E as <-; [|done..]. by apply (IH b k').
  - destruct (has_child_named_run b id n) as (r & Hrun & Hfalse).
    { apply Hb. } { pose proof (dir_at_lt _ _ _ (bt_tree b Hb) Hat) as Hl. cbn in Hl. by rewrite length_fmap in Hl. }
    erewrite bindM_ok in Hr by done. destruct r; [done|].
    pose proof (dir_at_lt _ _ _ (bt_tree b Hb) Hat) as Hlt. cbn [skel sk_dirs] in Hlt. rewrite length_fmap in Hlt.
    erewrite bindM_ok in Hr by (by apply push_directory_run).
    destruct (built_push_dir b id n cs Hb Hat Hcs Hn) as [Hb1 Hat1]; [by apply Hfalse|].
    destruct (IH _ _ _ Hb1 Hat1 Hcs' Hr) as (Hb2 & Hat2 & Ha2). split; [done|]. split; [done|].
    eapply dirs_added_trans; [|exact Ha2]. constructor; [|done|]; rewrite skel_push_dir.
    + intros p it. apply with_dir_mono.
    + intros p f. apply with_dir_files; [apply Hb|cbn; by rewrite length_fmap|].
      cbn. rewrite length_fmap. lia.
Qed.

(** ** Requests *)

Lemma normalize_parts_ok parts comps :
  Forall (fun p => contains slash p = false) parts -> normalize_parts parts = Ok comps ->
  Forall (fun c => plain c = true /\ c <> "." /\ c <> "..") comps.
Proof.
  intros Hp. revert comps. induction Hp as [|part parts Hpart _ IH]; intros comps H; cbn [normalize_parts] in H.
  { injection H as <-. constructor. }
  destruct (is_empty part) eqn:E1; cbn [orb] in H; [by apply IH|].
  destruct (String.eqb_spec part ".") as [->|N1]; [by apply IH|].
  destruct (String.eqb_spec part "..") as [->|N2]; [done|].
  destruct (normalize_parts parts) as [cs|e|]; try done. injection H as <-. constructor; [|by apply IH].
  split; [|done]. unfold plain. by rewrite E1, Hpart.
Qed.

Lemma normalize_path_ok path comps :
  normalize_path path = Ok comps -> Forall (fun c => plain c = true /\ c <> "." /\ c <> "..") comps.
Proof.
  unfold normalize_path. destruct (is_empty path); [done|]. apply normalize_parts_ok, split_pieces.
Qed.

Definition entry_path (e : FatEntry) : string := match e with FatDirectory p | FatFile p _ => p end.

(** Every name in the request can be stored. *)
Definition request_ok (e : FatEntry) : Prop :=
  forall comps, normalize_path (entry_path e) = Ok comps -> Forall good_name comps.

Lemma request_names e comps : request_ok e -> normalize_path (entry_path e) = Ok comps -> Forall item_name_ok comps.
Proof.
  intros He Hc. pose proof (normalize_path_ok _ _ Hc) as H. specialize (He _ Hc).
  rewrite Forall_forall in H, He |- *. intros c Hin. split; [by apply He|by apply H].
Qed.

(** The tree holds the requests [es], and no other file. *)
Record holds (b : FatBuilder) (es : list FatEntry) : Prop := {
  ho_dir path : FatDirectory path ∈ es -> exists comps k,
    normalize_path path = Ok comps /\ dir_at (skel b) comps k;
  ho_file path data : FatFile path data ∈ es -> exists comps f n,
    normalize_path path = Ok comps /\ walk (skel b) 0 comps (ItemFile f) /\ sk_files (skel b) !! f = Some (n, data);
  ho_back comps f n data : walk (skel b) 0 comps (ItemFile f) -> sk_files (skel b) !! f = Some (n, data) ->
    exists path, FatFile path data ∈ es /\ normalize_path path = Ok comps;
}.

Lemma holds_nil : holds FatBuilder_new [].
Proof.
  constructor; [intros ? H; by apply not_elem_of_nil in H|intros ? ? H; by apply not_elem_of_nil in H|].
  intros comps f n data _ H. by destruct f.
Qed.

Lemma add_directory_ok b path es b' :
  request_ok (FatDirectory path) -> built b -> holds b es -> add_directory path b = (Ok tt, b') ->
  built b' /\ holds b' (es ++ [FatDirectory path]).
Proof.
  intros He Hb [H1 H2 H3] Hr. unfold add_directory in Hr.
  apply bind_inv in Hr as (comps & s1 & Hc & Hr). injection Hc as Hc <-.
  apply bind_inv in Hr as (k & s2 & Hen & Hr). injection Hr as <-.
  pose proof (request_names _ _ He Hc) as Hn.
  destruct (ensure_from_ok comps b 0 [] k s2 Hn Hb) as (Hb' & Hat & Ha); [by left|constructor|exact Hen|].
  assert (Hf : sk_files (skel s2) = sk_files (skel b)) by (cbn [skel sk_files]; by rewrite (da_files _ _ Ha)).
  split; [done|]. constructor.
  - intros p [H|[= ->]%list_elem_of_singleton]%elem_of_app; [|by exists comps, k].
    destruct (H1 p H) as (cs & k' & E & Hk). exists cs, k'. eauto using dir_at_added.
  - intros p d [H|?%list_elem_of_singleton]%elem_of_app; [|done].
    destruct (H2 p d H) as (cs & f & n & E & Hw & Hl). exists cs, f, n. rewrite Hf. split_and!; auto. by apply Ha.
  - intros cs f n d Hw Hl. rewrite Hf in Hl. apply Ha in Hw. destruct (H3 cs f n d Hw Hl) as (p & Hp & E).
    exists p. split; [|done]. apply elem_of_app. by left.
Qed.

Definition after_push_file (b : FatBuilder) (p : nat) (n : string) (d : list Z) : FatBuilder :=
  mkBuilder (alter (push_entry (ItemFile (length (files b)))) p (directories b))
    (files b ++ [FileEntry_new n d (forced_short_for_file n)]) (path_map b).

Lemma skel_push_file b p n d : skel (after_push_file b p n d) = with_file (skel b) p n d.
Proof.
  unfold after_push_file, with_file.
  rewrite (skel_upd_dir (mkBuilder (directories b) (files b ++ [FileEntry_new n d (forced_short_for_file n)])
    (path_map b)) p _ (ItemFile (length (files b)))) by done.
  f_equal.
  - unfold skel, new_file. cbn [directories files sk_dirs sk_files]. by rewrite fmap_app.
  - cbn [skel sk_files]. by rewrite length_fmap.
Qed.

Lemma file_fresh_new n d : file_fresh (FileEntry_new n d (forced_short_for_file n)).
Proof.
  split; [done|]. split; [done|]. cbn [FileEntry_new f_forced_short]. unfold forced_short_for_file.
  destruct (equals_ignore_case n "limine-bios.sys"); [by right|by left].
Qed.

Lemma built_push_file b p n d cs :
  built b -> dir_at (skel b) cs p -> item_name_ok n ->
  (forall j x m, kid (skel b) p j x -> label (skel b) x = Some m -> fold_case m <> fold_case n) ->
  let b' := after_push_file b p n d in
  built b' /\ walk (skel b') 0 (cs ++ [n]) (ItemFile (length (files b))) /\
  sk_files (skel b') !! length (files b) = Some (n, d).
Proof.
  intros [Ht Hpm Hd Hf] Hat Hn Hnew b'. pose proof (dir_at_lt _ _ _ Ht Hat) as Hp.
  assert (Hlen : length (sk_files (skel b)) = length (files b)) by (cbn; by rewrite length_fmap).
  assert (Hlook : sk_files (new_file (skel b) n d) !! length (files b) = Some (n, d)).
  { cbn [new_file sk_files]. by rewrite <- Hlen, lookup_app_r, Nat.sub_diag. }
  assert (Hlab : label (new_file (skel b) n d) (ItemFile (length (files b))) = Some n).
  { cbn [label]. by rewrite Hlook. }
  assert (Hs : skel b' = with_file (skel b) p n d) by apply skel_push_file.
  split; [constructor|split].
  - rewrite Hs. unfold with_file. rewrite Hlen. apply (tree_ok_attach _ p _ n); try done.
    + by apply tree_ok_new_file.
    + intros i j. rewrite <- Hlen. by apply (kid_not_fresh_file (skel b)).
    + intros j x m Hk Hm. eapply Hnew; [done|]. by eapply label_kid_file.
  - intros q k H. destruct (Hpm q k H) as (comps & -> & Hpl & Hk). exists comps. split; [done|]. split; [done|].
    rewrite Hs. destruct Hk as [?|Hw]; [by left|right]. by apply with_file_mono.
  - by apply Forall_alter.
  - apply Forall_app_2; [done|]. constructor; [apply file_fresh_new|constructor].
  - rewrite Hs. destruct (lookup_lt_is_Some_2 _ _ Hp) as [[m es] Hes].
    eapply (dir_at_snoc _ _ p (length es)).
    + destruct Hat as [?|Hw]; [by left|right]. by apply with_file_mono.
    + apply kid_attach. right. split; [done|]. split; [by rewrite Hlen|]. by exists m, es.
    + unfold with_file. by rewrite label_attach.
  - by rewrite Hs.
Qed.

Lemma add_file_run b comps n p path data b1 b' :
  normalize_path path = Ok comps -> last comps = Some n -> ensure_directory (removelast comps) b = (Ok p, b1) ->
  built b1 -> dir_at (skel b1) (removelast comps) p -> add_file path data b = (Ok tt, b') ->
  b' = after_push_file b1 p n data /\
  (forall j x m, kid (skel b1) p j x -> label (skel b1) x = Some m -> fold_case m <> fold_case n).
Proof.
  intros Hc Hn Hen Hb1 Hat Hr. pose proof (dir_at_lt _ _ _ (bt_tree b1 Hb1) Hat) as Hp.
  cbn [skel sk_dirs] in Hp. rewrite length_fmap in Hp. destruct (lookup_lt_is_Some_2 _ _ Hp) as [d Hd].
  unfold add_file in Hr. rewrite Hc in Hr. erewrite bindM_ok in Hr by done. rewrite Hn in Hr.
  erewrite bindM_ok in Hr by done.
  destruct (has_child_named_run b1 p n (bt_tree b1 Hb1) Hp) as (r & Hrun & Hfalse).
  erewrite bindM_ok in Hr by done. destruct r; [done|]. split; [|by apply Hfalse].
  unfold upd_dir, dirM, indexM, bindM, getM, modifyM, retM in Hr. cbn [directories files path_map] in Hr.
  rewrite Hd in Hr. by injection Hr as <-.
Qed.

Lemma add_file_ok b path data es b' :
  request_ok (FatFile path data) -> built b -> holds b es -> add_file path data b = (Ok tt, b') ->
  built b' /\ holds b' (es ++ [FatFile path data]).
Proof.
  intros He Hb [H1 H2 H3] Hr. pose proof Hr as Hr0. unfold add_file in Hr.
  apply bind_inv in Hr as (comps & s1 & Hc & Hr). injection Hc as Hc <-.
  destruct (last comps) as [n|] eqn:En; [|done].
  apply bind_inv in Hr as (p & b1 & Hen & _).
  pose proof (request_names _ _ He Hc) as Hn.
  apply last_Some in En as [cs ->]. rewrite removelast_last in Hen.
  apply Forall_app in Hn as [Hcs [Hn _]%Forall_cons].
  destruct (ensure_from_ok cs b 0 [] p b1 Hcs Hb) as (Hb1 & Hat & Ha); [by left|constructor|exact Hen|].
  cbn [app] in Hat.
  destruct (add_file_run b (cs ++ [n]) n p path data b1 b') as [-> Hnew]; [done|by rewrite last_snoc| | | |done|].
  { by rewrite removelast_last. } { done. } { by rewrite removelast_last. }
  destruct (built_push_file b1 p n data cs Hb1 Hat Hn Hnew) as (Hb' & Hw & Hl). split; [done|].
  assert (Hf : forall f x, sk_files (skel b) !! f = Some x ->
    sk_files (skel (after_push_file b1 p n data)) !! f = Some x).
  { intros f x Hx. rewrite skel_push_file. cbn [with_file attach new_file sk_files]. apply lookup_app_l_Some.
    cbn [skel sk_files] in *. by rewrite (da_files _ _ Ha). }
  constructor.
  - intros q [H|?%list_elem_of_singleton]%elem_of_app; [|done].
    destruct (H1 q H) as (c & k & E & Hk). exists c, k. split; [done|].
    apply (dir_at_added _ _ _ _ Ha) in Hk. rewrite skel_push_file.
    destruct Hk as [?|Hk]; [by left|right]. by apply with_file_mono.
  - intros q d [H|[= -> ->]%list_elem_of_singleton]%elem_of_app.
    + destruct (H2 q d H) as (c & f & m & E & Hk & Hm). exists c, f, m. split; [done|]. split; [|by apply Hf].
      rewrite skel_push_file. apply with_file_mono. by apply Ha.
    + by exists (cs ++ [n]), (length (files b1)), n.
  - intros c f m d Hk Hm. rewrite skel_push_file in Hk.
    apply with_file_files in Hk as [Hk|(-> & dn & -> & Hdn)]; [| |apply Hb1].
    + apply Ha in Hk. pose proof Hk as (? & ? & ? & ? & _ & _ & Hkid & _)%walk_last.
      apply (tk_file _ (bt_tree b Hb)) in Hkid. destruct (lookup_lt_is_Some_2 _ _ Hkid) as [y Hx].
      rewrite (Hf _ _ Hx) in Hm. injection Hm as ->. destruct (H3 c f m d Hk Hx) as (q & Hq & E).
      exists q. split; [apply elem_of_app; by left|done].
    + exists path. split; [apply elem_of_app; right; apply list_elem_of_singleton|].
      * cbn [skel sk_files] in Hm, Hl. rewrite length_fmap in Hm. rewrite Hl in Hm. by injection Hm as <- <-.
      * rewrite Hc. do 2 f_equal. destruct Hat as [[-> Hz]|Hat], Hdn as [[-> Hz']|Hdn]; subst.
        -- done.
        -- apply (walk_down _ _ _ _ (bt_tree b1 Hb1)) in Hdn. lia.
        -- apply (walk_down _ _ _ _ (bt_tree b1 Hb1)) in Hat. lia.
        -- by apply (walk_path_unique (skel b1) _ _ (ItemDir p) (bt_tree b1 Hb1)).
Qed.

(** The whole list of requests. *)
Lemma add_entries_ok es b :
  Forall request_ok es -> forM es add_entry FatBuilder_new = (Ok tt, b) -> built b /\ holds b es.
Proof.
  revert b. induction es as [|e es IH] using rev_ind; intros b Hes Hr.
  { injection Hr as <-. auto using built_new, holds_nil. }
  apply Forall_app in Hes as [Hes [He _]%Forall_cons]. rewrite forM_app in Hr.
  apply bind_inv in Hr as ([] & b1 & Hr1 & Hr). destruct (IH b1 Hes Hr1) as [Hb1 Hh1].
  cbn [forM] in Hr. apply bind_inv in Hr as ([] & b2 & Hr2 & Hr). injection Hr as <-.
  destruct e as [path|path data]; [by eapply add_directory_ok|by eapply add_file_ok].
Qed.
