(* ===== verification/Fat32Prepare.v ===== *)
(** * Short names and cluster counts of a FAT32 volume

    [prepare] succeeds on every built tree, leaves the tree alone, gives valid short
    names only, and gives every directory the clusters its entries need. *)

From Stdlib Require Import ZifyBool.
From S2P Require Import Prelude Bytes Text Utf FatNames FatNamesSpec BlockDev BlockDevSpec Fat32 Fat32Tree.
Open Scope twilight_scope.

Definition child (S : Skel) (i c : nat) : Prop := exists j, kid S i j (ItemDir c).
(** The directories below [i], with [i] itself. *)
Definition below (S : Skel) : nat -> nat -> Prop := rtc (child S).

Definition shorts_ok (o : option (list Z)) : Prop := forall s, o = Some s -> short_ok s.
Definition dir_ready (d : Directory) : Prop := d_cluster d = None /\ shorts_ok (d_short_name d).
Definition file_ready (f : FileEntry) : Prop :=
  f_first_cluster f = None /\ shorts_ok (f_short_name f) /\ shorts_ok (f_forced_short f).
Definition ready (b : FatBuilder) : Prop := Forall dir_ready (directories b) /\ Forall file_ready (files b).

Lemma forced_short_ok : short_ok (as_bytes "LIMINE  SYS").
Proof. done. Qed.

Lemma built_ready b : built b -> ready b.
Proof.
  intros [_ _ Hd Hf]. split.
  - eapply Forall_impl; [exact Hd|]. intros d [H1 H2]. split; [done|]. by rewrite H2.
  - eapply Forall_impl; [exact Hf|]. intros f (H1 & H2 & H3). split; [done|]. rewrite H2. split; [done|].
    destruct H3 as [->| ->]; [done|]. intros s [= <-]. apply forced_short_ok.
Qed.

(** ** Updates in place *)

Lemma upd_dir_run b i f d :
  directories b !! i = Some d ->
  upd_dir i f b = (Ok tt, mkBuilder (alter f i (directories b)) (files b) (path_map b)).
Proof. intros H. unfold upd_dir. by erewrite bindM_ok by (by apply dirM_run). Qed.
Lemma upd_file_run b i f d :
  files b !! i = Some d ->
  upd_file i f b = (Ok tt, mkBuilder (directories b) (alter f i (files b)) (path_map b)).
Proof. intros H. unfold upd_file. by erewrite bindM_ok by (by apply fileM_run). Qed.

Lemma fmap_alter_same {A B} (g : A -> B) (f : A -> A) (i : nat) (l : list A) :
  (forall x, g (f x) = g x) -> g <$> alter f i l = g <$> l.
Proof.
  intros Hf. apply list_eq. intros j. rewrite !list_lookup_fmap. destruct (decide (j = i)) as [->|Hne].
  - rewrite list_lookup_alter_eq. destruct (l !! i); cbn; [by rewrite Hf|done].
  - by rewrite list_lookup_alter_ne.
Qed.

Lemma skel_alter_dir b f i :
  (forall d, dir_skel (f d) = dir_skel d) ->
  skel (mkBuilder (alter f i (directories b)) (files b) (path_map b)) = skel b.
Proof. intros Hf. unfold skel. cbn [directories files]. by rewrite fmap_alter_same. Qed.
Lemma skel_alter_file b f i :
  (forall d, file_skel (f d) = file_skel d) ->
  skel (mkBuilder (directories b) (alter f i (files b)) (path_map b)) = skel b.
Proof. intros Hf. unfold skel. cbn [directories files]. by rewrite fmap_alter_same. Qed.

Lemma skel_dir b S i n es :
  skel b = S -> sk_dirs S !! i = Some (n, es) ->
  exists d, directories b !! i = Some d /\ d_name d = n /\ d_entries d = es.
Proof.
  intros <- H. cbn [skel sk_dirs] in H. rewrite list_lookup_fmap in H.
  destruct (directories b !! i) as [d|]; [|done]. exists d. by injection H as <- <-.
Qed.
Lemma skel_file b S i n x :
  skel b = S -> sk_files S !! i = Some (n, x) ->
  exists f, files b !! i = Some f /\ f_name f = n /\ f_data f = x.
Proof.
  intros <- H. cbn [skel sk_files] in H. rewrite list_lookup_fmap in H.
  destruct (files b !! i) as [f|]; [|done]. exists f. by injection H as <- <-.
Qed.

Lemma skel_length b b' : skel b' = skel b -> length (directories b') = length (directories b).
Proof. intros E. apply (f_equal (fun s => length (sk_dirs s))) in E. cbn in E. by rewrite !length_fmap in E. Qed.

Lemma entry_child b i d c :
  tree_ok (skel b) -> directories b !! i = Some d -> ItemDir c ∈ d_entries d ->
  child (skel b) i c /\ (i < c < length (directories b))%nat.
Proof.
  intros Ht Hd [j Hj]%list_elem_of_lookup_1. apply (kid_entries b i j _ d Hd) in Hj.
  split; [by exists j|]. apply (tk_dir _ Ht) in Hj. cbn [skel sk_dirs] in Hj. by rewrite length_fmap in Hj.
Qed.

Lemma entry_label b i d x :
  tree_ok (skel b) -> directories b !! i = Some d -> x ∈ d_entries d -> exists m, label (skel b) x = Some m.
Proof.
  intros Ht Hd [j Hj]%list_elem_of_lookup_1. apply (kid_label _ i j x Ht). by apply (kid_entries b i j x d).
Qed.

(** ** Short names *)

(** What the assignment changes: only short names, to valid ones. *)
Definition named (b b' : FatBuilder) : Prop :=
  skel b' = skel b /\ (ready b -> ready b') /\
  (d_cluster_count <$> directories b') = (d_cluster_count <$> directories b).

Lemma named_refl b : named b b.
Proof. by split_and!. Qed.
Lemma named_trans a b c : named a b -> named b c -> named a c.
Proof. intros (H1 & H2 & H3) (K1 & K2 & K3). split_and!; [congruence|auto|congruence]. Qed.

Lemma named_dir b i s : short_ok s ->
  named b (mkBuilder (alter (set_d_short s) i (directories b)) (files b) (path_map b)).
Proof.
  intros Hs. split_and!; [by apply skel_alter_dir| |by apply fmap_alter_same].
  intros [Hd Hf]. split; [|done]. cbn. apply Forall_alter; [done|]. intros d _ [H1 H2].
  split; [done|]. by intros s' [= <-].
Qed.
Lemma named_file b i s : short_ok s ->
  named b (mkBuilder (directories b) (alter (set_f_short s) i (files b)) (path_map b)).
Proof.
  intros Hs. split_and!; [by apply skel_alter_file| |done].
  intros [Hd Hf]. split; [done|]. cbn. apply Forall_alter; [done|]. intros f _ (H1 & H2 & H3).
  split; [done|]. split; [by intros s' [= <-]|done].
Qed.

Lemma size_add_name (s : list Z) (X : gset (list Z)) : (base.size ({[s]} ∪ X) <= S (base.size X))%nat.
Proof.
  destruct (decide (s ∈ X)) as [H|H].
  - rewrite (subseteq_union_1_L _ X) by (by apply singleton_subseteq_l). lia.
  - rewrite size_union by set_solver. by rewrite size_singleton.
Qed.

Lemma assign_items_ok es r b :
  ready b -> registry_ok r -> (forall x, x ∈ es -> exists m, label (skel b) x = Some m) ->
  Z.of_nat (base.size (used r) + length es) <= MAX_NAMES ->
  exists b', assign_items es r b = (Ok tt, b') /\ named b b'.
Proof.
  revert r b. induction es as [|it es IH]; intros r b Hb Hr Hes Hn.
  { exists b. auto using named_refl. }
  cbn [length] in Hn.
  assert (Hgo : forall r' b1, named b b1 -> registry_ok r' -> (base.size (used r') <= S (base.size (used r)))%nat ->
    exists b', assign_items es r' b1 = (Ok tt, b') /\ named b b').
  { intros r' b1 Hb1 Hr' Hs. pose proof Hb1 as (E & Hrd & _). destruct (IH r' b1) as (b' & Hrun & Hb').
    - auto.
    - done.
    - intros x Hx. rewrite E. apply Hes. by right.
    - lia.
    - exists b'. eauto using named_trans. }
  destruct (Hes it) as [m Hm]; [left|]. destruct it as [c|f]; cbn [assign_items].
  - rewrite label_dir in Hm. destruct (directories b !! c) as [d|] eqn:Ed; [|done].
    erewrite bindM_ok by (by apply dirM_run).
    destruct (generate_spec (d_name d) true r Hr) as (s & r' & -> & Hs & _ & Hu & Hr'); [lia|].
    erewrite bindM_ok by (by eapply upd_dir_run). apply Hgo; [by apply named_dir|done|].
    rewrite Hu. apply size_add_name.
  - rewrite label_file in Hm. destruct (files b !! f) as [fe|] eqn:Ef; [|done].
    erewrite bindM_ok by (by apply fileM_run).
    destruct (f_forced_short fe) as [s|] eqn:Efs.
    + erewrite bindM_ok by (by eapply upd_file_run). apply Hgo; [|by apply reserve_ok|apply size_add_name].
      apply named_file. destruct Hb as [_ Hf]. by apply (proj1 (Forall_lookup _ _) Hf _ _ Ef).
    + destruct (generate_spec (f_name fe) false r Hr) as (s & r' & -> & Hs & _ & Hu & Hr'); [lia|].
      erewrite bindM_ok by (by eapply upd_file_run). apply Hgo; [by apply named_file|done|].
      rewrite Hu. apply size_add_name.
Qed.

(** No directory has more entries than there are short names to give. *)
Definition few_entries (S : Skel) : Prop :=
  forall i n es, sk_dirs S !! i = Some (n, es) -> Z.of_nat (length es) <= MAX_NAMES.

(** A loop whose steps keep [P] and establish [Q] of their item. *)
Lemma forM_each {S E A} (P : S -> S -> Prop) (Q : A -> S -> Prop) es (f : A -> M S E unit) s :
  (forall a, P a a) -> (forall a1 a2 a3, P a1 a2 -> P a2 a3 -> P a1 a3) ->
  (forall it a a', Q it a -> P a a' -> Q it a') ->
  (forall it a, it ∈ es -> P s a -> exists a', f it a = (Ok tt, a') /\ P a a' /\ Q it a') ->
  exists s', forM es f s = (Ok tt, s') /\ P s s' /\ forall it, it ∈ es -> Q it s'.
Proof.
  intros Hrefl Htrans HQ Hstep.
  assert (forall a, P s a -> exists s', forM es f a = (Ok tt, s') /\ P a s' /\ forall it, it ∈ es -> Q it s') as H;
    [|by apply H].
  induction es as [|it es IH]; intros a Ha; cbn [forM].
  { exists a. split_and!; [done..|]. intros it Hit. by apply not_elem_of_nil in Hit. }
  destruct (Hstep it a) as (a1 & Hr & Ha1 & Hq); [left|done|]. erewrite bindM_ok by done.
  destruct IH with (a := a1) as (s' & Hr' & Hs' & Hqs).
  - intros x b Hx. apply Hstep. by right.
  - eauto.
  - exists s'. split; [done|]. split; [eauto|]. intros x [->|Hx]%elem_of_cons; eauto.
Qed.

Lemma assign_short_names_ok fuel i b :
  tree_ok (skel b) -> few_entries (skel b) -> ready b ->
  (i < length (directories b) <= fuel + i)%nat ->
  exists b', assign_short_names_recursive fuel i b = (Ok tt, b') /\ named b b'.
Proof.
  revert i b. induction fuel as [|fuel IH]; intros i b Ht Hfew Hb Hi; [lia|].
  destruct (lookup_lt_is_Some_2 (directories b) i) as [d Hd]; [lia|].
  cbn [assign_short_names_recursive]. erewrite bindM_ok by (by apply dirM_run).
  destruct (assign_items_ok (d_entries d) ShortNameRegistry_new b Hb registry_new_ok) as (b1 & Hr1 & Hb1).
  { intros x. by apply (entry_label b i d). }
  { cbn [ShortNameRegistry_new used]. rewrite size_empty. apply (Hfew i (d_name d)).
    cbn [skel sk_dirs]. by rewrite list_lookup_fmap, Hd. }
  erewrite bindM_ok by done.
  destruct (forM_each named (fun _ _ => True) (d_entries d) (fun entry => match entry with
      | ItemDir child => assign_short_names_recursive fuel child | ItemFile _ => retM tt end) b1)
    as (b2 & Hr2 & Hb2 & _); [apply named_refl|apply named_trans|done| |eauto using named_trans].
  intros [c|f] b3 Hin Hb3; [|exists b3; auto using named_refl].
  pose proof (named_trans _ _ _ Hb1 Hb3) as (E & Hrd & _). pose proof (skel_length _ _ E) as El.
  destruct (entry_child b i d c Ht Hd Hin) as [_ Hc].
  destruct (IH c b3) as (b' & Hr & Hb'); [by rewrite E|by rewrite E|auto|lia|]. eauto.
Qed.

(** ** Cluster counts *)

Definition item_slots (S : Skel) (it : DirItem) : nat :=
  1 + long_name_entry_slots (default "" (label S it)).
Definition slots (S : Skel) (es : list DirItem) : nat := sum_list_with (item_slots S) es.

(** The clusters a directory with entries [es] takes. *)
Definition clusters_of (S : Skel) (cluster_bytes : nat) (es : list DirItem) : nat :=
  1 `max` (((2 + slots S es + 1) * 32 + cluster_bytes - 1) / cluster_bytes).

Definition sized (cluster_bytes : nat) (b : FatBuilder) (i : nat) : Prop :=
  exists d, directories b !! i = Some d /\
    d_cluster_count d = u32 (Z.of_nat (clusters_of (skel b) cluster_bytes (d_entries d))).

Lemma count_slots_run b es :
  (forall x, x ∈ es -> exists m, label (skel b) x = Some m) -> count_slots es b = (Ok (slots (skel b) es), b).
Proof.
  induction es as [|it es IH]; intros Hes; cbn [count_slots]; [done|].
  destruct (Hes it) as [m Hm]; [left|]. erewrite bindM_ok by (by apply item_name_run).
  erewrite bindM_ok by (apply IH; intros; apply Hes; by right).
  unfold slots. cbn [sum_list_with]. unfold item_slots at 2. by rewrite Hm.
Qed.

(** What the computation changes: cluster counts, to what the entries need. *)
Definition counted (cb : nat) (b b' : FatBuilder) : Prop :=
  skel b' = skel b /\ (ready b -> ready b') /\ (forall i, sized cb b i -> sized cb b' i).

Lemma counted_refl cb b : counted cb b b.
Proof. by split_and!. Qed.
Lemma counted_trans cb a b c : counted cb a b -> counted cb b c -> counted cb a c.
Proof. intros (H1 & H2 & H3) (K1 & K2 & K3). split_and!; [congruence|auto|auto]. Qed.

Lemma counted_dir cb b i d :
  directories b !! i = Some d ->
  let n := u32 (Z.of_nat (clusters_of (skel b) cb (d_entries d))) in
  let b' := mkBuilder (alter (set_d_count n) i (directories b)) (files b) (path_map b) in
  counted cb b b' /\ sized cb b' i.
Proof.
  intros Hd n b'. assert (Hs : skel b' = skel b) by (by apply skel_alter_dir).
  assert (Hi : sized cb b' i).
  { exists (set_d_count n d). cbn [b' directories]. rewrite list_lookup_alter_eq, Hd. by rewrite Hs. }
  split; [|done]. split_and!; [done| |].
  - intros [H1 H2]. split; [|done]. cbn. by apply Forall_alter.
  - intros x (e & He & Hc). destruct (decide (x = i)) as [->|Hne]; [done|].
    exists e. rewrite Hs. split; [|done]. cbn [b' directories]. by rewrite list_lookup_alter_ne.
Qed.

Lemma compute_clusters_ok cb fuel i b :
  tree_ok (skel b) -> (i < length (directories b) <= fuel + i)%nat ->
  exists b', compute_directory_clusters_recursive fuel i cb b = (Ok tt, b') /\ counted cb b b' /\
    forall x, below (skel b) i x -> sized cb b' x.
Proof.
  revert i b. induction fuel as [|fuel IH]; intros i b Ht Hi; [lia|].
  destruct (lookup_lt_is_Some_2 (directories b) i) as [d Hd]; [lia|].
  cbn [compute_directory_clusters_recursive]. erewrite bindM_ok by (by apply dirM_run).
  erewrite bindM_ok by (apply count_slots_run; intros x; by apply (entry_label b i d)).
  erewrite bindM_ok by (by eapply upd_dir_run).
  destruct (counted_dir cb b i d Hd) as [Hb1 Hs1]. set (b1 := mkBuilder _ _ _) in *.
  destruct (forM_each (counted cb) (fun it a => forall c x, it = ItemDir c -> below (skel b) c x -> sized cb a x)
    (d_entries d) (fun entry => match entry with
      | ItemDir child => compute_directory_clusters_recursive fuel child cb | ItemFile _ => retM tt end) b1)
    as (b' & Hr & Hb' & HQ); [apply counted_refl|apply counted_trans| | |].
  - intros it a a' Hq (_ & _ & Ha) c x E Hx. eauto.
  - intros [c|f] a Hin Ha; [|exists a; split; [done|split; [apply counted_refl|done]]].
    pose proof (counted_trans _ _ _ _ Hb1 Ha) as (E & _ & _). pose proof (skel_length _ _ E) as El.
    destruct (entry_child b i d c Ht Hd Hin) as [_ Hc].
    destruct (IH c a) as (a1 & Hr & Ha1 & Hx); [by rewrite E|lia|]. rewrite E in Hx.
    exists a1. split; [done|]. split; [done|]. intros c' x [= <-]. apply Hx.
  - exists b'. split; [exact Hr|]. split; [by eapply counted_trans|].
    intros x Hx. apply rtc_inv in Hx as [<-|(c & [j Hj] & Hx)]; [by apply Hb'|].
    apply (kid_entries b i j _ d Hd) in Hj. eapply HQ; [by eapply list_elem_of_lookup_2|done|done].
Qed.

(** ** Both *)

Lemma prepare_ok cb b :
  built b -> few_entries (skel b) ->
  exists b', prepare cb b = (Ok tt, b') /\ skel b' = skel b /\ ready b' /\
    forall x, below (skel b) 0 x -> sized cb b' x.
Proof.
  intros Hb Hfew. pose proof (bt_tree b Hb) as Ht. pose proof (tk_root _ Ht) as H0.
  cbn [skel sk_dirs] in H0. rewrite length_fmap in H0. unfold prepare. erewrite bindM_ok by done.
  destruct (assign_short_names_ok (length (directories b)) 0 b Ht Hfew (built_ready b Hb)) as (b1 & Hr1 & E1 & R1 & _);
    [lia|].
  erewrite bindM_ok by done. pose proof (skel_length _ _ E1) as El.
  destruct (compute_clusters_ok cb (length (directories b)) 0 b1) as (b2 & Hr2 & (E2 & R2 & _) & Hs2);
    [by rewrite E1|lia|].
  exists b2. split; [done|]. split; [congruence|]. split; [by apply R2, R1, built_ready|].
  by rewrite <- E1.
Qed.
