(* ===== verification/Fat32Dir.v ===== *)
(** * The bytes of a FAT32 directory

    [build_directory_buffer] fits every prepared directory, and the parser reads the
    buffer back as [.], [..] and one entry per child, in order. *)

From Stdlib Require Import ZifyBool.
From S2P Require Import Prelude Bytes Text Utf FatNames FatNamesSpec BlockDev BlockDevSpec.
From S2P Require Import Fat32 Fat32Tree Fat32Prepare.
Open Scope twilight_scope.

(** ** Buffers filled from the front *)

Lemma store_front pre src z :
  (length src <= z)%nat ->
  store (length pre) src (pre ++ replicate z 0) = (pre ++ src) ++ replicate (z - length src) 0.
Proof.
  intros H. unfold store. rewrite take_app_length. rewrite <- app_assoc. do 2 f_equal.
  rewrite drop_app_ge by lia. rewrite drop_replicate. f_equal. lia.
Qed.

(** The end marker goes where a zero is. *)
Lemma end_marker (pre : list Z) (z : nat) :
  let buf := pre ++ replicate z 0 in
  (if (length pre + 32 <=? length buf)%nat then store (length pre) [0] buf else buf) = buf.
Proof.
  cbv zeta. rewrite length_app, length_replicate. case_if; [|done]. rewrite store_front by (cbn; lia).
  destruct z as [|z]; [lia|]. rewrite <- app_assoc. cbn. by rewrite Nat.sub_0_r.
Qed.

Lemma write_entries_front pre z es :
  Forall (fun e => length e = 32%nat) es -> (32 * length es <= z)%nat ->
  write_entries (pre ++ replicate z 0) (length pre) es =
  Ok ((pre ++ concat es) ++ replicate (z - 32 * length es) 0, (length pre + 32 * length es)%nat).
Proof.
  intros Hes. revert pre z. induction Hes as [|e es He _ IH]; intros pre z Hz; cbn [write_entries concat length].
  { by rewrite app_nil_r, Nat.mul_0_r, Nat.sub_0_r, Nat.add_0_r. }
  rewrite length_app, length_replicate. cbn [length] in Hz.
  replace (length pre + z <? length pre + 32)%nat with false by lia.
  rewrite store_front, He by lia.
  replace (length pre + 32)%nat with (length (pre ++ e)) by (rewrite length_app; lia).
  rewrite IH by lia. rewrite length_app, He, <- (app_assoc pre e).
  f_equal. f_equal; [|lia]. f_equal. f_equal. lia.
Qed.

Lemma chunks_concat n es z :
  (0 < n)%nat -> Forall (fun e => length e = n) es ->
  chunks n (concat es ++ replicate (z * n) 0) = es ++ replicate z (replicate n 0).
Proof.
  intros Hn Hes. unfold chunks.
  assert (Hl : length (concat es ++ replicate (z * n) 0) = ((length es + z) * n)%nat).
  { rewrite length_app, length_replicate, (concat_blocks_length n) by done. lia. }
  rewrite Hl, Nat.div_mul by lia. apply list_eq. intros i. rewrite list_lookup_fmap.
  destruct (decide (i < length es + z)%nat) as [Hi|Hi].
  2: { rewrite !lookup_ge_None_2; [done|..]; [rewrite length_app, length_replicate|rewrite length_seq]; lia. }
  rewrite lookup_seq_lt by done. cbn [fmap option_fmap option_map Nat.add].
  set (all := es ++ replicate z (replicate n 0)).
  assert (Hall : concat es ++ replicate (z * n) 0 = concat all).
  { unfold all. rewrite concat_app. f_equal. clear. induction z as [|z IH]; [done|].
    cbn [Nat.mul replicate concat]. by rewrite replicate_add, IH. }
  assert (Hblk : Forall (fun e => length e = n) all).
  { apply Forall_app_2; [done|]. apply Forall_replicate, length_replicate. }
  assert (i < length all)%nat as [b Hb]%lookup_lt_is_Some_2 by (unfold all; rewrite length_app, length_replicate; lia).
  rewrite Hall, Hb. f_equal. replace (i * n)%nat with (i * n + 0)%nat by lia.
  rewrite <- (load_concat_block n all i b 0 n Hblk Hb) by lia.
  unfold load. rewrite drop_0. apply take_ge.
  by rewrite (proj1 (Forall_lookup _ _) Hblk _ _ Hb).
Qed.

(** ** Items *)

Definition item_short (b : FatBuilder) (it : DirItem) : list Z :=
  match it with
  | ItemDir c => match directories b !! c with
                 | Some d => default (fallback_short_name (d_name d) true) (d_short_name d) | None => [] end
  | ItemFile f => match files b !! f with
                  | Some e => default (fallback_short_name (f_name e) false) (f_short_name e) | None => [] end
  end.

(** What the parser should find for a child. *)
Definition entry_of (b : FatBuilder) (it : DirItem) : FatDirEntry :=
  match it with
  | ItemDir c => match directories b !! c with
                 | Some d => mkFatEntry (d_name d) (default 0 (d_cluster d)) 0 0x10
                 | None => mkFatEntry "" 0 0 0 end
  | ItemFile f => match files b !! f with
                  | Some e => mkFatEntry (f_name e) (default 0 (f_first_cluster e))
                                (u32 (Z.of_nat (length (f_data e)))) 0x20
                  | None => mkFatEntry "" 0 0 0 end
  end.

Definition item_entries (b : FatBuilder) (it : DirItem) : list (list Z) :=
  let e := entry_of b it in let s := item_short b it in
  build_lfn_entries (fe_name e) s ++ [make_short_entry s (fe_attr e) (fe_cluster e) (fe_size e)].

(** A child whose entry can be written and read back. *)
Definition item_ok (b : FatBuilder) (it : DirItem) : Prop :=
  label (skel b) it = Some (fe_name (entry_of b it)) /\ good_name (fe_name (entry_of b it)) /\
  short_ok (item_short b it) /\ 0 <= fe_cluster (entry_of b it) < 2 ^ 32 /\ 0 <= fe_size (entry_of b it) < 2 ^ 32 /\
  (fe_attr (entry_of b it) = 0x10 \/ fe_attr (entry_of b it) = 0x20).

Lemma lfn_entries_32 name short :
  good_name name -> Forall (fun e => length e = 32%nat) (build_lfn_entries name short).
Proof.
  intros H. unfold build_lfn_entries. rewrite Forall_fmap. apply Forall_forall. intros i Hi.
  rewrite elem_of_reverse, elem_of_seq, lfn_units_length, Nat.div_mul in Hi by lia. unfold compose.
  apply lfn_entry_spec; [rewrite lfn_units_length; lia|by apply units_u16].
Qed.

Lemma item_entries_32 b it : item_ok b it -> Forall (fun e => length e = 32%nat) (item_entries b it).
Proof.
  intros (_ & Hn & (Hl & _) & Hc & Hs & _). apply Forall_app_2; [by apply lfn_entries_32|].
  constructor; [|constructor]. by apply make_short_entry_fields.
Qed.

Lemma item_entries_length b it :
  item_ok b it -> length (item_entries b it) = item_slots (skel b) it.
Proof.
  intros (Hl & _). unfold item_entries, item_slots. rewrite Hl. cbn [from_option id].
  rewrite length_app, build_lfn_entries_length. cbn [length]. lia.
Qed.

(** An item written at the front of the free space. *)
Lemma write_item_front b it pre z :
  item_ok b it -> (32 * item_slots (skel b) it <= z)%nat ->
  let e := entry_of b it in
  write_item (fe_name e) (item_short b it) (fe_attr e) (fe_cluster e) (fe_size e) (pre ++ replicate z 0) (length pre) =
  Ok ((pre ++ concat (item_entries b it)) ++ replicate (z - 32 * item_slots (skel b) it) 0,
      (length pre + 32 * item_slots (skel b) it)%nat).
Proof.
  intros Hok Hz e. pose proof (item_entries_length b it Hok) as Hlen.
  pose proof (item_entries_32 b it Hok) as H32. apply Forall_app in H32 as [H32 Hm].
  apply Forall_cons in Hm as [Hm _]. unfold item_entries in Hlen. rewrite length_app in Hlen.
  cbn [length] in Hlen. unfold write_item. fold e in Hlen, H32, Hm. set (lfn := build_lfn_entries _ _) in *.
  rewrite write_entries_front by (done || lia). rewrite !length_app, length_replicate.
  rewrite (concat_blocks_length 32) by done.
  replace (_ <? _)%nat with false by lia.
  replace (length pre + 32 * length lfn)%nat with (length (pre ++ concat lfn))
    by (rewrite length_app, (concat_blocks_length 32) by done; lia).
  rewrite store_front by lia. unfold item_entries. fold e lfn. rewrite concat_app. cbn [concat].
  rewrite app_nil_r, !length_app, (concat_blocks_length 32), Hm by done. rewrite <- (app_assoc pre).
  f_equal. f_equal; [|lia]. f_equal. f_equal. lia.
Qed.

Lemma write_items_front b es pre z :
  Forall (item_ok b) es -> (32 * slots (skel b) es <= z)%nat ->
  write_items es (pre ++ replicate z 0) (length pre) b =
  (Ok ((pre ++ concat (concat (item_entries b <$> es))) ++ replicate (z - 32 * slots (skel b) es) 0,
       (length pre + 32 * slots (skel b) es)%nat), b).
Proof.
  intros Hes. revert pre z. induction Hes as [|it es Hit _ IH]; intros pre z Hz.
  { cbn. by rewrite app_nil_r, Nat.sub_0_r, Nat.add_0_r. }
  unfold slots in Hz. cbn [sum_list_with] in Hz. fold (slots (skel b) es) in Hz.
  pose proof (write_item_front b it pre z Hit) as Hw. cbn zeta in Hw.
  assert (Hstep : write_items (it :: es) (pre ++ replicate z 0) (length pre) b =
    write_items es ((pre ++ concat (item_entries b it)) ++ replicate (z - 32 * item_slots (skel b) it) 0)
      (length pre + 32 * item_slots (skel b) it)%nat b).
  { destruct Hit as (Hl & _). destruct it as [c|f]; cbn [write_items entry_of item_short] in *.
    - rewrite label_dir in Hl. destruct (directories b !! c) as [d|] eqn:Ed; [|done].
      erewrite bindM_ok by (by apply dirM_run). cbn [fe_name fe_attr fe_cluster fe_size] in Hw.
      unfold liftR. rewrite Hw by lia. done.
    - rewrite label_file in Hl. destruct (files b !! f) as [d|] eqn:Ed; [|done].
      erewrite bindM_ok by (by apply fileM_run). cbn [fe_name fe_attr fe_cluster fe_size] in Hw.
      unfold liftR. rewrite Hw by lia. done. }
  rewrite Hstep. clear Hstep Hw.
  replace (length pre + 32 * item_slots (skel b) it)%nat with (length (pre ++ concat (item_entries b it))).
  2: { rewrite length_app, (concat_blocks_length 32), item_entries_length by (done || by apply item_entries_32). lia. }
  rewrite IH by lia. unfold slots. cbn [sum_list_with]. fold (slots (skel b) es).
  rewrite fmap_cons. cbn [concat]. rewrite concat_app, <- (app_assoc pre).
  rewrite length_app, (concat_blocks_length 32), item_entries_length by (done || by apply item_entries_32).
  f_equal. f_equal. f_equal; [|lia]. f_equal. f_equal. lia.
Qed.

(** The entries of a directory and of its parent at its head. *)
Definition dot_entries (cluster parent : Z) : list (list Z) :=
  [make_short_entry (as_bytes ".          ") 0x10 cluster 0; make_short_entry (as_bytes "..         ") 0x10 parent 0].

Lemma dotdot_entry parent :
  set_first_cluster (store 11 [0x10] (store 0 (as_bytes "..         ") (replicate 32 0))) parent =
  make_short_entry (as_bytes "..         ") 0x10 parent 0.
Proof. done. Qed.

Lemma items_32 b es : Forall (item_ok b) es -> Forall (fun e => length e = 32%nat) (concat (item_entries b <$> es)).
Proof.
  induction 1 as [|it es Hit _ IH]; [constructor|]. rewrite fmap_cons. cbn [concat].
  apply Forall_app_2; [by apply item_entries_32|done].
Qed.

Lemma items_length b es :
  Forall (item_ok b) es -> length (concat (item_entries b <$> es)) = slots (skel b) es.
Proof.
  induction 1 as [|it es Hit _ IH]; [done|]. rewrite fmap_cons. cbn [concat].
  rewrite length_app, item_entries_length, IH by done. done.
Qed.

(** The parser on what the formatter wrote. *)
Lemma parse_items b es z :
  Forall (item_ok b) es ->
  parse_chunks (concat (item_entries b <$> es) ++ replicate z (replicate 32 0)) [] = entry_of b <$> es.
Proof.
  induction 1 as [|it es (_ & Hn & Hs & Hc & Hz & Ha) _ IH].
  { by destruct z. }
  rewrite fmap_cons. cbn [concat]. unfold item_entries at 1. rewrite <- !app_assoc. cbn [app].
  rewrite parse_item by done. rewrite fmap_cons. f_equal; [|exact IH]. by destruct (entry_of b it).
Qed.

Lemma parse_directory b es c p z :
  Forall (item_ok b) es -> 0 <= c < 2 ^ 32 -> 0 <= p < 2 ^ 32 ->
  parse_directory_entries (concat (dot_entries c p ++ concat (item_entries b <$> es)) ++ replicate (z * 32) 0) =
  mkFatEntry "." c 0 0x10 :: mkFatEntry ".." p 0 0x10 :: (entry_of b <$> es).
Proof.
  intros Hes Hc Hp. unfold parse_directory_entries. rewrite chunks_concat; [|lia|].
  - unfold dot_entries. cbn [app]. rewrite parse_dots by done. by rewrite parse_items.
  - apply Forall_app_2; [|by apply items_32].
    repeat constructor; by apply make_short_entry_fields.
Qed.

Lemma build_directory_buffer_run layout b i d parent :
  directories b !! i = Some d -> Forall (item_ok b) (d_entries d) ->
  let size := (Z.to_nat (d_cluster_count d) * l_cluster_size_bytes layout)%nat in
  let used := (32 * (2 + slots (skel b) (d_entries d)))%nat in
  (used <= size)%nat ->
  build_directory_buffer layout i parent b =
  (Ok (concat (dot_entries (default 0 (d_cluster d)) parent ++ concat (item_entries b <$> d_entries d)) ++
       replicate (size - used) 0), b).
Proof.
  intros Hd Hes size used Hfit. unfold build_directory_buffer. erewrite bindM_ok by (by apply dirM_run).
  fold size. replace (size <? 64)%nat with false by lia. rewrite dotdot_entry.
  set (dots := dot_entries (default 0 (d_cluster d)) parent).
  assert (H2 : store 32 (make_short_entry (as_bytes "..         ") 0x10 parent 0)
    (store 0 (make_short_entry (as_bytes ".          ") 0x10 (default 0 (d_cluster d)) 0) (replicate size 0)) =
    concat dots ++ replicate (size - 64) 0).
  { pose proof (store_front [] (make_short_entry (as_bytes ".          ") 0x10 (default 0 (d_cluster d)) 0) size) as H1.
    cbn [app length] in H1. change (length (make_short_entry _ 16 _ 0)) with 32%nat in H1. rewrite H1 by lia.
    pose proof (store_front (make_short_entry (as_bytes ".          ") 0x10 (default 0 (d_cluster d)) 0)
      (make_short_entry (as_bytes "..         ") 0x10 parent 0) (size - 32)) as H2.
    change (length (make_short_entry _ 16 _ 0)) with 32%nat in H2. rewrite H2 by lia.
    unfold dots, dot_entries. cbn [concat]. rewrite app_nil_r. f_equal. f_equal. lia. }
  rewrite H2. change 64%nat with (length (concat dots)) at 2.
  erewrite bindM_ok by (apply write_items_front; [done|lia]). cbv beta iota.
  change (length (concat dots)) with 64%nat. rewrite <- concat_app.
  set (pre := concat (dots ++ concat (item_entries b <$> d_entries d))).
  assert (Hpre : length pre = used).
  { unfold pre. rewrite concat_app, length_app, (concat_blocks_length 32 (concat _)), items_length
      by (done || by apply items_32). change (length (concat dots)) with 64%nat. lia. }
  replace (64 + 32 * slots (skel b) (d_entries d))%nat with (length pre) by lia.
  replace (size - 64 - 32 * slots (skel b) (d_entries d))%nat with (size - used)%nat by lia.
  pose proof (end_marker pre (size - used)) as He. cbv zeta in He. by rewrite He.
Qed.
