(* ===== verification/Fat32Write.v ===== *)
(** * Writing a FAT32 volume: chains and files

    The formatter is run against the laws of a device.  Its state is seen as a
    builder, a table, the next free cluster and the contents of the disk; an
    allocated chain is a run of consecutive clusters, so a chain written is a run of
    blocks written. *)

From Stdlib Require Import ZifyBool.
From S2P Require Import Prelude Bytes Text Utf FatNames FatNamesSpec BlockDev BlockDevSpec.
From S2P Require Import Fat32 Fat32Tree Fat32Prepare Fat32Dir.
Open Scope twilight_scope.

(** ** Devices whose one-block transfers succeed *)

Class SectorDev (D : Type) `{LawfulDev D} : Prop := {
  law_sector_read a : read_total dev_ok dev_read a 1;
  law_sector_write a : write_total dev_ok dev_write a 1;
}.

#[export] Instance ideal_sectors : SectorDev IdealDisk.
Proof. split; intros; repeat intro; by repeat eexists. Qed.

(** ** Spans of blocks *)

Lemma write_span_app c a k k' bs b b' x :
  length b = (k * bs)%nat ->
  write_span (write_span c a k bs b) (a + Z.of_nat k) k' bs b' x = write_span c a (k + k') bs (b ++ b') x.
Proof.
  intros Hb. unfold write_span.
  destruct (Z.lt_ge_cases x (a + Z.of_nat k)) as [Hx|Hx].
  - replace ((a + Z.of_nat k <=? x) && _) with false by lia. cbn [andb].
    replace ((a <=? x) && (x <? a + Z.of_nat (k + k'))) with ((a <=? x) && (x <? a + Z.of_nat k)) by lia.
    case_if; [|done]. assert (Z.to_nat (x - a) < k)%nat by lia.
    rewrite drop_app_le by nia. rewrite take_app_le; [done|]. rewrite length_drop. nia.
  - replace (x <? a + Z.of_nat k) with false by lia. rewrite andb_false_r.
    replace ((a <=? x) && (x <? a + Z.of_nat (k + k'))) with ((a + Z.of_nat k <=? x) && (x <? a + Z.of_nat k + Z.of_nat k')) by lia.
    case_if; [|done]. rewrite drop_app_ge by nia. do 2 f_equal.
    replace (Z.to_nat (x - a)) with (k + Z.to_nat (x - (a + Z.of_nat k)))%nat by lia. nia.
Qed.

Lemma write_span_out c a k bs b x : ~ (a <= x < a + Z.of_nat k) -> write_span c a k bs b x = c x.
Proof. intros H. unfold write_span. case_if; [lia|done]. Qed.

(** ** The state of the formatter *)

Record View := mkView { v_builder : FatBuilder; v_fat : list Z; v_next : Z; v_disk : Z -> list Z }.

(** The bytes of a cluster: 8 sectors. *)
Definition CB : nat := 4096.
Lemma CB_sectors : CB = (8 * 512)%nat.
Proof. done. Qed.

Section write.
Context {D : Type} `{SectorDev D} (layout : Fat32Layout) (blocks : nat).

(** The volume lies inside a device of [blocks] blocks of 512 bytes. *)
Record layout_ok : Prop := {
  lo_cluster : l_cluster_size_bytes layout = CB;
  lo_start : 0 <= l_start_lba layout;
  lo_fat : 1 <= l_fat_size_sectors layout;
  lo_clusters : 2 <= l_total_clusters layout < 2 ^ 28 - 16;
  lo_covered : l_total_clusters layout + 2 <= 128 * l_fat_size_sectors layout;
  lo_data : l_data_start_lba layout = l_start_lba layout + 32 + 2 * l_fat_size_sectors layout;
  lo_inside : 32 + 2 * l_fat_size_sectors layout + 8 * l_total_clusters layout <= l_total_sectors layout;
  lo_sectors : l_total_sectors layout < 2 ^ 32;
  lo_end : l_start_lba layout + l_total_sectors layout <= Z.of_nat blocks <= 2 ^ 32;
}.
Context (Hlo : layout_ok).

Definition shows (f : Formatter D) (v : View) : Prop :=
  dev_ok (fm_device f) /\ dev_block_size (fm_device f) = 512%nat /\ dev_block_count (fm_device f) = blocks /\
  fm_builder f = v_builder v /\ fm_fat f = v_fat v /\ fm_next_free f = v_next v /\
  forall x, contents (fm_device f) x = v_disk v x.

(** [m] succeeds from every state that shows [v], and then shows [v']. *)
Definition fruns {A} (m : M (Formatter D) FatError A) (v : View) (a : A) (v' : View) : Prop :=
  forall f, shows f v -> exists f', m f = (Ok a, f') /\ shows f' v'.

Lemma fruns_ret {A} (a : A) v : fruns (retM a) v a v.
Proof. intros f Hf. by exists f. Qed.

Lemma fruns_bind {A B} (m : M (Formatter D) FatError A) (k : A -> M (Formatter D) FatError B) v a v1 b v2 :
  fruns m v a v1 -> fruns (k a) v1 b v2 -> fruns (bindM m k) v b v2.
Proof.
  intros Hm Hk f Hf. destruct (Hm f Hf) as (f1 & Hr1 & Hf1). destruct (Hk f1 Hf1) as (f2 & Hr2 & Hf2).
  exists f2. by rewrite (bindM_ok _ _ _ _ _ Hr1).
Qed.

Lemma fruns_get {B} (k : Formatter D -> M (Formatter D) FatError B) v b v' :
  (forall f, shows f v -> fruns (k f) v b v') -> fruns (bindM getM k) v b v'.
Proof. intros Hk f Hf. unfold bindM, getM. by apply (Hk f Hf). Qed.

Lemma fruns_builder {A} (m : M FatBuilder FatError A) v a b' :
  m (v_builder v) = (Ok a, b') -> fruns (on_builder m) v a (mkView b' (v_fat v) (v_next v) (v_disk v)).
Proof.
  intros Hm f (H1 & H2 & H3 & H4 & H5 & H6 & H7). unfold on_builder, focusM. rewrite H4, Hm.
  eexists. split; [done|]. by split_and!.
Qed.

(** Reading the builder changes nothing. *)
Lemma fruns_builder_read {A} (m : M FatBuilder FatError A) v a :
  m (v_builder v) = (Ok a, v_builder v) -> fruns (on_builder m) v a v.
Proof. intros Hm. destruct v as [b fat next disk]. exact (fruns_builder m (mkView b fat next disk) a b Hm). Qed.

(** A view with other contents. *)
Definition with_disk (c : Z -> list Z) (v : View) : View := mkView (v_builder v) (v_fat v) (v_next v) c.

Lemma shows_ext f v c : shows f v -> (forall x, v_disk v x = c x) -> shows f (with_disk c v).
Proof. intros (H1 & H2 & H3 & H4 & H5 & H6 & H7) Hc. split_and!; try done. intros x. cbn. by rewrite H7. Qed.

Lemma fruns_ext {A} (m : M (Formatter D) FatError A) v a v' c :
  fruns m v a v' -> (forall x, v_disk v' x = c x) -> fruns m v a (with_disk c v').
Proof. intros Hm Hc f Hf. destruct (Hm f Hf) as (f' & Hr & Hf'). eauto using shows_ext. Qed.

(** ** Blocks *)

Lemma write_sectors_runs lba n buf v :
  0 <= lba -> lba + Z.of_nat n <= Z.of_nat blocks -> length buf = (n * 512)%nat ->
  fruns (write_sectors lba buf) v tt (with_disk (write_span (v_disk v) lba n 512 buf) v).
Proof.
  intros Hl Hn Hb f (H1 & H2 & H3 & H4 & H5 & H6 & H7). pose proof (lo_end Hlo) as He.
  unfold write_sectors, on_device, focusM, map_errM, SECTOR_SIZE.
  rewrite Hb, Nat.div_mul by lia. rewrite <- H2 in Hb |- *.
  destruct (write_chunks_total dev_ok contents dev_write law_write law_sector_write n 0 lba (fm_device f) buf)
    as (d' & Hd'); [done|split; lia|rewrite H3; lia|done|].
  pose proof (write_chunks_law dev_ok contents dev_write law_write n 0 lba _ _ _ _ H1 ltac:(split; lia) Hb Hd' ltac:(done))
    as (K1 & [K2 K3] & _ & K4). specialize (K4 eq_refl). rewrite Z.add_0_r, H2 in K4.
  rewrite Hd'. eexists. split; [done|]. split_and!; cbn; try done; [congruence|congruence|].
  intros x. rewrite K4, H2. by apply write_span_ext.
Qed.

Lemma write_sector_runs lba buf v :
  0 <= lba < Z.of_nat blocks -> length buf = 512%nat ->
  fruns (write_sector lba buf) v tt (with_disk (write_span (v_disk v) lba 1 512 buf) v).
Proof.
  intros Hl Hb. pose proof (lo_end Hlo) as He.
  pose proof (write_sectors_runs lba 1 buf v ltac:(lia) ltac:(lia) ltac:(lia)) as Hw.
  intros f Hf. destruct (Hw f Hf) as (f' & Hr & Hf'). exists f'. split; [|done].
  unfold write_sector. unfold write_sectors, SECTOR_SIZE in Hr. rewrite Hb in Hr.
  change (512 / 512)%nat with 1%nat in Hr. cbn [write_chunks] in Hr. rewrite take_ge, Z.add_0_r in Hr by lia.
  rewrite <- Hr. unfold on_device, focusM, map_errM, bindM, retM.
  by destruct (dev_write (u32 lba) buf (fm_device f)) as [[[]|e|] d'].
Qed.

(** ** Chains *)

(** The block of cluster [k]. *)
Definition cluster_lba (k : Z) : Z := l_data_start_lba layout + (k - 2) * 8.

(** The table links the [n] clusters from [k] on and ends there. *)
Definition chain (fat : list Z) (k : Z) (n : nat) : Prop :=
  forall i, (i < n)%nat ->
  fat !! (Z.to_nat k + i)%nat = Some (if (S i =? n)%nat then FAT32_EOC else k + Z.of_nat i + 1).

Lemma link_chain_lookup n current end_ fat j :
  0 <= current -> end_ = current + Z.of_nat n -> end_ < 2 ^ 32 -> end_ <= Z.of_nat (length fat) ->
  link_chain n current end_ fat !! j =
  if (current <=? Z.of_nat j) && (Z.of_nat j <? end_)
  then Some (if Z.of_nat j + 1 =? end_ then FAT32_EOC else Z.of_nat j + 1) else fat !! j.
Proof.
  revert current fat. induction n as [|n IH]; intros current fat Hc He Hw Hl; cbn [link_chain].
  { case_if; [lia|done]. }
  unfold wrap. rewrite (Z.mod_small (current + 1)) by lia.
  rewrite IH by (try rewrite length_insert; lia).
  destruct (Z.eq_dec (Z.of_nat j) current) as [E|E].
  - replace ((current + 1 <=? Z.of_nat j) && _) with false by lia.
    replace ((current <=? Z.of_nat j) && (Z.of_nat j <? end_)) with true by lia.
    replace (Z.to_nat current) with j by lia. rewrite list_lookup_insert_eq by lia. by rewrite E.
  - replace ((current + 1 <=? Z.of_nat j) && (Z.of_nat j <? end_))
      with ((current <=? Z.of_nat j) && (Z.of_nat j <? end_)) by lia.
    case_if; [done|]. apply list_lookup_insert_ne. lia.
Qed.

Lemma link_chain_length n current end_ fat : length (link_chain n current end_ fat) = length fat.
Proof. revert current fat. induction n as [|n IH]; intros; cbn [link_chain]; [done|]. by rewrite IH, length_insert. Qed.

Definition after_alloc (n : Z) (v : View) : View :=
  mkView (v_builder v) (link_chain (Z.to_nat n) (v_next v) (v_next v + n) (v_fat v)) (v_next v + n) (v_disk v).

(** Allocation takes the next clusters, in order. *)
Lemma allocate_chain_runs n v :
  1 <= n -> 2 <= v_next v -> v_next v + n < Z.of_nat (length (v_fat v)) -> Z.of_nat (length (v_fat v)) < 2 ^ 32 ->
  fruns (allocate_chain n) v (v_next v) (after_alloc n v).
Proof.
  intros Hn Hnf Hend Hlen f (H1 & H2 & H3 & H4 & H5 & H6 & H7).
  unfold allocate_chain. replace (n =? 0) with false by lia. unfold bindM at 1, getM.
  rewrite H5, H6. unfold wrap. rewrite Z.mod_small by lia.
  replace (_ <=? v_next v + n) with false by lia.
  replace (v_next v + n - v_next v) with n by lia.
  eexists. split; [done|]. by split_and!.
Qed.

Lemma after_alloc_chain n v :
  1 <= n -> 2 <= v_next v -> v_next v + n < Z.of_nat (length (v_fat v)) -> Z.of_nat (length (v_fat v)) < 2 ^ 32 ->
  chain (v_fat (after_alloc n v)) (v_next v) (Z.to_nat n) /\
  (forall j, Z.of_nat j < v_next v -> v_fat (after_alloc n v) !! j = v_fat v !! j) /\
  length (v_fat (after_alloc n v)) = length (v_fat v).
Proof.
  intros Hn Hnf Hend Hlen. cbn [after_alloc v_fat]. split_and!; [| |apply link_chain_length].
  - intros i Hi. rewrite link_chain_lookup by lia. replace (_ && _) with true by lia.
    f_equal. replace (S i =? Z.to_nat n)%nat with (Z.of_nat (Z.to_nat (v_next v) + i) + 1 =? v_next v + n) by lia.
    case_if; [done|lia].
  - intros j Hj. rewrite link_chain_lookup by lia. by replace (_ && _) with false by lia.
Qed.

(** [data] filled with zeros up to [len] bytes. *)
Definition zero_fill (len : nat) (data : list Z) : list Z := data ++ replicate (len - length data) 0.

Lemma zero_fill_length len data : (length data <= len)%nat -> length (zero_fill len data) = len.
Proof. intros. unfold zero_fill. rewrite length_app, length_replicate. lia. Qed.

(** One cluster of a padded buffer. *)
Lemma zero_fill_step m n offset data :
  let to_copy := (m `min` (length data - offset))%nat in
  let rest := drop offset data in
  (length rest <= S n * m)%nat ->
  store 0 (load offset to_copy data) (replicate m 0) = take m (zero_fill (S n * m) rest) /\
  drop m (zero_fill (S n * m) rest) = zero_fill (n * m) (drop (offset + to_copy) data) /\
  (length (drop (offset + to_copy) data) <= n * m)%nat.
Proof.
  cbv zeta. rewrite !length_drop. intros Hl. unfold zero_fill. rewrite !length_drop.
  split_and!.
  - unfold store, load. rewrite take_0, app_nil_l, drop_replicate, length_take, length_drop.
    destruct (le_lt_dec m (length data - offset)).
    + rewrite Nat.min_l, Nat.min_l by lia. rewrite take_app_le by (rewrite length_drop; lia).
      by rewrite Nat.sub_diag, app_nil_r.
    + rewrite Nat.min_r by lia. rewrite (take_ge (drop offset data)) by (rewrite length_drop; lia).
      rewrite take_app_ge by (rewrite length_drop; lia). rewrite length_drop, take_replicate.
      f_equal. f_equal. lia.
  - destruct (le_lt_dec m (length data - offset)).
    + rewrite Nat.min_l by lia. rewrite drop_app_le by (rewrite length_drop; lia). rewrite drop_drop.
      f_equal. f_equal. lia.
    + rewrite Nat.min_r by lia. rewrite drop_app_ge by (rewrite length_drop; lia).
      rewrite length_drop, drop_replicate, (drop_ge data) by lia. cbn [app]. f_equal. lia.
  - lia.
Qed.

Lemma write_cluster_runs k buf v :
  2 <= k < l_total_clusters layout + 2 -> length buf = CB ->
  fruns (write_cluster layout k buf) v tt (with_disk (write_span (v_disk v) (cluster_lba k) 8 512 buf) v).
Proof.
  intros Hk Hb. pose proof (lo_start Hlo). pose proof (lo_fat Hlo). pose proof (lo_clusters Hlo). pose proof (lo_data Hlo).
  pose proof (lo_inside Hlo). pose proof (lo_sectors Hlo). pose proof (lo_end Hlo).
  pose proof CB_sectors. unfold write_cluster, SECTORS_PER_CLUSTER, wrap.
  rewrite (Z.mod_small (k - 2)), (Z.mod_small ((k - 2) * 8)), Z.mod_small by lia.
  apply write_sectors_runs; unfold cluster_lba; lia.
Qed.

(** A chain written is one run of blocks. *)
Lemma write_chain_loop_runs n k offset data v :
  2 <= k -> k + Z.of_nat n <= l_total_clusters layout + 2 -> chain (v_fat v) k n ->
  (length (drop offset data) <= n * CB)%nat ->
  fruns (write_chain_loop layout n k offset data) v tt
    (with_disk (write_span (v_disk v) (cluster_lba k) (n * 8) 512 (zero_fill (n * CB) (drop offset data))) v).
Proof.
  revert k offset v. induction n as [|n IH]; intros k offset v Hk Hkn Hch Hl; cbn [write_chain_loop].
  { apply fruns_ext with (v' := v); [apply fruns_ret|]. intros x. rewrite write_span_out by lia. done. }
  rewrite (lo_cluster Hlo). destruct (zero_fill_step CB n offset data Hl) as (Hbuf & Hrest & Hl').
  rewrite Hbuf. set (all := zero_fill (S n * CB) (drop offset data)) in *.
  assert (Hall : length all = (S n * CB)%nat) by (by apply zero_fill_length).
  eapply fruns_bind.
  { apply write_cluster_runs; [lia|]. rewrite length_take. nia. }
  set (v1 := with_disk _ v). pose proof (lo_clusters Hlo) as HC.
  assert (Hspan : forall x, write_span (v_disk v1) (cluster_lba (k + 1)) (n * 8) 512 (drop CB all) x =
    write_span (v_disk v) (cluster_lba k) (S n * 8) 512 all x).
  { intros x. cbn [v1 with_disk v_disk].
    replace (cluster_lba (k + 1)) with (cluster_lba k + Z.of_nat 8) by (unfold cluster_lba; lia).
    rewrite write_span_app by (rewrite length_take, Hall; pose proof CB_sectors; nia). by rewrite take_drop. }
  destruct n as [|n].
  { apply fruns_ext with (v' := v1); [apply fruns_ret|]. intros x. rewrite <- Hspan. by rewrite write_span_out by lia. }
  apply fruns_get. intros f (_ & _ & _ & _ & Hfat & _). rewrite Hfat. cbn [v1 with_disk v_fat].
  pose proof (Hch 0%nat ltac:(lia)) as Hz. rewrite Nat.add_0_r in Hz. cbn [Nat.eqb] in Hz.
  unfold indexM. rewrite Hz. eapply fruns_bind; [apply fruns_ret|].
  replace (FAT32_EOC <=? _) with false by (unfold FAT32_EOC; lia).
  rewrite Z.add_0_r.
  apply (fruns_ext _ _ _ (with_disk (write_span (v_disk v1) (cluster_lba (k + 1)) (S n * 8) 512 (drop CB all)) v1)).
  - rewrite Hrest. apply (IH (k + 1) _ v1); [lia|lia| |done].
    intros i Hi. specialize (Hch (S i) ltac:(lia)). cbn [v1 with_disk v_fat].
    replace (Z.to_nat (k + 1) + i)%nat with (Z.to_nat k + S i)%nat by lia. rewrite Hch. f_equal.
    cbn [Nat.eqb]. case_if; [done|lia].
  - exact Hspan.
Qed.

Lemma write_chain_runs n k data v :
  2 <= k -> 0 <= n -> k + n <= l_total_clusters layout + 2 -> chain (v_fat v) k (Z.to_nat n) ->
  (length data <= Z.to_nat n * CB)%nat ->
  fruns (write_chain layout k n data) v tt
    (with_disk (write_span (v_disk v) (cluster_lba k) (Z.to_nat n * 8) 512 (zero_fill (Z.to_nat n * CB) data)) v).
Proof.
  intros Hk Hn Hkn Hch Hl. apply (write_chain_loop_runs (Z.to_nat n) k 0 data v); [done|lia|done|].
  by rewrite drop_0.
Qed.
End write.
