(* ===== verification/Fat32Volume.v ===== *)
(** * Writing a FAT32 volume: the tree on the disk

    [process_directory] visits every directory and file below a directory once; it
    takes the clusters of each from the free ones, in order, and leaves the disk with
    the data of every file and with directories whose entries name their children. *)

From Stdlib Require Import ZifyBool.
From S2P Require Import Prelude Bytes Text Utf FatNames FatNamesSpec BlockDev BlockDevSpec.
From S2P Require Import Fat32 Fat32Tree Fat32Prepare Fat32Dir Fat32Write.
Open Scope twilight_scope.

(** ** Below a directory *)

Definition under (S : Skel) (i f : nat) : Prop := exists x j, below S i x /\ kid S x j (ItemFile f).

Lemma below_ge S i x : tree_ok S -> below S i x -> (i <= x)%nat.
Proof.
  intros Ht Hb. induction Hb as [|i c x [j Hk] _ IH]; [done|]. apply (tk_dir S Ht) in Hk. lia.
Qed.

Lemma below_trans S a b c : below S a b -> below S b c -> below S a c.
Proof. unfold below. intros. by transitivity b. Qed.

Lemma below_lt S i x : tree_ok S -> (i < length (sk_dirs S))%nat -> below S i x -> (x < length (sk_dirs S))%nat.
Proof.
  intros Ht Hi Hb. induction Hb as [|i c x [j Hk] _ IH]; [done|]. apply IH. apply (tk_dir S Ht) in Hk. lia.
Qed.

(** Two directories above a third are above one another. *)
Lemma below_comparable S c c' x : tree_ok S -> below S c x -> below S c' x -> below S c c' \/ below S c' c.
Proof.
  intros Ht Hc. revert c'. unfold below in *.
  apply (rtc_ind_r (R := child S) (fun x => forall c', rtc (child S) c' x -> rtc (child S) c c' \/ rtc (child S) c' c) c);
    [by right| |exact Hc].
  clear x Hc. intros y x Hc [j Hj] IH c' Hc'. apply rtc_inv_r in Hc' as [->|(z & Hz & [j' Hj'])].
  - left. eapply rtc_r; [exact Hc|by exists j].
  - destruct (tk_unique S Ht _ _ _ _ _ Hj Hj') as [<- _]. auto.
Qed.

(** Subtrees of siblings have nothing in common. *)
Lemma below_disjoint S i j j' c c' x :
  tree_ok S -> kid S i j (ItemDir c) -> kid S i j' (ItemDir c') -> c <> c' -> below S c x -> below S c' x -> False.
Proof.
  intros Ht Hk Hk' Hne Hc Hc'.
  assert (forall a a' j j', kid S i j (ItemDir a) -> kid S i j' (ItemDir a') -> a <> a' -> ~ below S a a') as H.
  { intros a a' l l' Ha Ha' Hn Hb. apply rtc_inv_r in Hb as [->|(z & Hz & [m Hm])]; [done|].
    destruct (tk_unique S Ht _ _ _ _ _ Hm Ha') as [-> _].
    apply (below_ge S _ _ Ht) in Hz. apply (tk_dir S Ht) in Ha. lia. }
  destruct (below_comparable S c c' x Ht Hc Hc') as [Hb|Hb]; [by eapply (H c c')|by eapply (H c' c)].
Qed.

(** The directories and files of an item. *)
Definition dirs_in (S : Skel) (it : DirItem) (x : nat) : Prop :=
  match it with ItemDir c => below S c x | ItemFile _ => False end.
Definition files_in (S : Skel) (it : DirItem) (f : nat) : Prop :=
  match it with ItemDir c => under S c f | ItemFile g => f = g end.

Lemma items_disjoint_dirs S i j j' it it' x :
  tree_ok S -> kid S i j it -> kid S i j' it' -> it <> it' -> dirs_in S it x -> dirs_in S it' x -> False.
Proof.
  destruct it as [c|f], it' as [c'|f']; cbn [dirs_in]; try done.
  intros Ht Hk Hk' Hne. apply (below_disjoint S i j j'); [done..|]. congruence.
Qed.

Lemma items_disjoint_files S i j j' it it' f :
  tree_ok S -> kid S i j it -> kid S i j' it' -> it <> it' -> files_in S it f -> files_in S it' f -> False.
Proof.
  intros Ht Hk Hk' Hne H H'.
  assert (Habove : forall c j l g, kid S i j (ItemDir c) -> kid S i l (ItemFile g) -> ~ under S c g).
  { intros c l m g Hc Hg (x & n & Hb & Hx). destruct (tk_unique S Ht _ _ _ _ _ Hx Hg) as [-> _].
    apply (below_ge S _ _ Ht) in Hb. apply (tk_dir S Ht) in Hc. lia. }
  destruct it as [c|g], it' as [c'|g']; cbn [files_in] in *; subst; try done.
  - destruct H as (x & n & Hb & Hx), H' as (x' & n' & Hb' & Hx').
    destruct (tk_unique S Ht _ _ _ _ _ Hx Hx') as [<- _].
    eapply (below_disjoint S i j j' c c' x); eauto; congruence.
  - by eapply Habove.
  - by eapply Habove.
Qed.

(** The kids of a directory of an item belong to the item. *)
Lemma dirs_in_kid S it x j k :
  dirs_in S it x -> kid S x j k ->
  (forall y, dirs_in S k y -> dirs_in S it y) /\ (forall f, files_in S k f -> files_in S it f).
Proof.
  destruct it as [c|]; cbn [dirs_in]; [|done]. intros Hb Hk. destruct k as [c'|g]; cbn [dirs_in files_in].
  - assert (Hc : below S c c') by (eapply rtc_r; [exact Hb|by exists j]). split.
    + intros y Hy. by apply (below_trans S _ c').
    + intros f (y & l & Hy & Hl). exists y, l. split; [by apply (below_trans S _ c')|done].
  - split; [done|]. intros f ->. by exists x, j.
Qed.

(** ** The clusters a tree needs *)

Definition file_clusters (len : nat) : nat := (len + CB - 1) / CB.

Definition file_need (S : Skel) (f : nat) : Z :=
  match sk_files S !! f with Some (_, d) => Z.of_nat (file_clusters (length d)) | None => 0 end.

Fixpoint tree_need (S : Skel) (fuel i : nat) : Z :=
  match fuel with
  | O => 0
  | Datatypes.S fuel =>
    match sk_dirs S !! i with
    | Some (_, es) =>
      Z.of_nat (clusters_of S CB es) +
      foldr (fun it n => match it with ItemDir c => tree_need S fuel c | ItemFile f => file_need S f end + n) 0 es
    | None => 0
    end
  end.

Definition item_need (S : Skel) (fuel : nat) (it : DirItem) : Z :=
  match it with ItemDir c => tree_need S fuel c | ItemFile f => file_need S f end.
Definition items_need (S : Skel) (fuel : nat) (es : list DirItem) : Z :=
  foldr (fun it n => item_need S fuel it + n) 0 es.

Lemma tree_need_eq S fuel i n es :
  sk_dirs S !! i = Some (n, es) ->
  tree_need S (Datatypes.S fuel) i = Z.of_nat (clusters_of S CB es) + items_need S fuel es.
Proof. intros H. cbn [tree_need]. by rewrite H. Qed.

Lemma item_need_nonneg S fuel it : 0 <= item_need S fuel it.
Proof.
  revert it. induction fuel as [|fuel IH]; intros [c|f]; cbn [item_need tree_need]; try lia.
  - unfold file_need. destruct (sk_files S !! f) as [[? ?]|]; lia.
  - destruct (sk_dirs S !! c) as [[n es]|]; [|done].
    assert (0 <= items_need S fuel es); [|unfold items_need, item_need in *; lia].
    induction es as [|it es IHes]; cbn; [done|]. specialize (IH it). unfold items_need in IHes. lia.
  - unfold file_need. destruct (sk_files S !! f) as [[? ?]|]; lia.
Qed.

Lemma items_need_nonneg S fuel es : 0 <= items_need S fuel es.
Proof. induction es as [|it es IH]; cbn; [done|]. pose proof (item_need_nonneg S fuel it). unfold items_need in IH. lia. Qed.

Lemma file_clusters_fit len : (len <= file_clusters len * CB)%nat.
Proof.
  pose proof CB_sectors. unfold file_clusters. pose proof (Nat.div_mod_eq (len + CB - 1) CB).
  pose proof (Nat.mod_upper_bound (len + CB - 1) CB). nia.
Qed.

Lemma file_clusters_pos len : (0 < len)%nat -> (1 <= file_clusters len)%nat.
Proof. intros. pose proof CB_sectors. apply Nat.div_le_lower_bound; lia. Qed.

Lemma clusters_of_fit S es : (32 * (2 + slots S es) <= clusters_of S CB es * CB)%nat.
Proof.
  pose proof CB_sectors. unfold clusters_of. set (m := ((2 + slots S es + 1) * 32)%nat).
  pose proof (Nat.div_mod_eq (m + CB - 1) CB). pose proof (Nat.mod_upper_bound (m + CB - 1) CB). nia.
Qed.

(** ** What the formatter does not change *)

Definition dir_core (d : Directory) := (dir_skel d, d_short_name d, d_cluster_count d).
Definition file_core (f : FileEntry) := (file_skel f, f_short_name f).
Definition core (b : FatBuilder) := (dir_core <$> directories b, file_core <$> files b).

Lemma core_skel b b' : core b' = core b -> skel b' = skel b.
Proof.
  intros [= H1 H2]. unfold skel. f_equal.
  - apply (f_equal (fmap (fun x => x.1.1))) in H1. by rewrite <- !list_fmap_compose in H1.
  - apply (f_equal (fmap fst)) in H2. by rewrite <- !list_fmap_compose in H2.
Qed.

Lemma core_alter_dir b f i :
  (forall d, dir_core (f d) = dir_core d) ->
  core (mkBuilder (alter f i (directories b)) (files b) (path_map b)) = core b.
Proof. intros Hf. unfold core. cbn [directories files]. by rewrite fmap_alter_same. Qed.
Lemma core_alter_file b f i :
  (forall d, file_core (f d) = file_core d) ->
  core (mkBuilder (directories b) (alter f i (files b)) (path_map b)) = core b.
Proof. intros Hf. unfold core. cbn [directories files]. by rewrite fmap_alter_same. Qed.

Lemma core_dir b b' i d' :
  core b' = core b -> directories b' !! i = Some d' ->
  exists d, directories b !! i = Some d /\ dir_core d' = dir_core d.
Proof.
  intros [= H _] Hd. apply (f_equal (lookup i)) in H. rewrite !list_lookup_fmap, Hd in H.
  destruct (directories b !! i) as [d|]; [|done]. exists d. split; [done|]. exact (Some_inj _ _ H).
Qed.
Lemma core_file b b' i f' :
  core b' = core b -> files b' !! i = Some f' ->
  exists f, files b !! i = Some f /\ file_core f' = file_core f.
Proof.
  intros [= _ H] Hd. apply (f_equal (lookup i)) in H. rewrite !list_lookup_fmap, Hd in H.
  destruct (files b !! i) as [f|]; [|done]. exists f. split; [done|]. exact (Some_inj _ _ H).
Qed.

Section volume.
Context (layout : Fat32Layout).

(** From [v] to [v'] only the directories [TD], the files [TF] and free clusters change. *)
Record keeps (TD TF : nat -> Prop) (v v' : View) : Prop := {
  kp_core : core (v_builder v') = core (v_builder v);
  kp_next : v_next v <= v_next v';
  kp_length : length (v_fat v') = length (v_fat v);
  kp_fat j : Z.of_nat j < v_next v -> v_fat v' !! j = v_fat v !! j;
  kp_disk x : x < cluster_lba layout (v_next v) -> v_disk v' x = v_disk v x;
  kp_above x : cluster_lba layout (l_total_clusters layout + 2) <= x -> v_disk v' x = v_disk v x;
  kp_dirs i : ~ TD i -> directories (v_builder v') !! i = directories (v_builder v) !! i;
  kp_files f : ~ TF f -> files (v_builder v') !! f = files (v_builder v) !! f;
}.

Lemma keeps_refl TD TF v : keeps TD TF v v.
Proof. constructor; auto; lia. Qed.

Lemma keeps_trans TD TF TD' TF' v1 v2 v3 :
  keeps TD TF v1 v2 -> keeps TD' TF' v2 v3 ->
  keeps (fun x => TD x \/ TD' x) (fun x => TF x \/ TF' x) v1 v3.
Proof.
  intros [A1 A2 A3 A4 A5 A5' A6 A7] [B1 B2 B3 B4 B5 B5' B6 B7]. constructor.
  - congruence.
  - lia.
  - congruence.
  - intros j Hj. rewrite B4 by lia. by apply A4.
  - intros x Hx. rewrite B5; [by apply A5|]. unfold cluster_lba in *. lia.
  - intros x Hx. rewrite B5', A5' by done. done.
  - intros i Hi. rewrite B6, A6 by tauto. done.
  - intros f Hf. rewrite B7, A7 by tauto. done.
Qed.

Lemma keeps_weaken (TD TF TD' TF' : nat -> Prop) v v' :
  keeps TD TF v v' -> (forall x, TD x -> TD' x) -> (forall x, TF x -> TF' x) -> keeps TD' TF' v v'.
Proof. intros [A1 A2 A3 A4 A5 A5' A6 A7] HD HF. constructor; auto. Qed.

(** ** What is on the disk *)

Definition region (v : View) (k : Z) (n : nat) : list Z := read_span (v_disk v) (cluster_lba layout k) (n * 8).

(** The chain from [k] on lies in the clusters [lo..v_next v]. *)
Definition placed (lo : Z) (v : View) (k : Z) (n : nat) : Prop :=
  lo <= k /\ (1 <= n)%nat /\ k + Z.of_nat n <= v_next v /\ chain (v_fat v) k n.

Definition done_file (lo : Z) (v : View) (f : nat) : Prop :=
  exists e, files (v_builder v) !! f = Some e /\
  match f_first_cluster e with
  | None => f_data e = []
  | Some k => let n := file_clusters (length (f_data e)) in
              placed lo v k n /\ f_data e <> [] /\ region v k n = zero_fill (n * CB) (f_data e)
  end.

Definition done_dir (lo : Z) (v : View) (i : nat) : Prop :=
  exists d k parent, directories (v_builder v) !! i = Some d /\ d_cluster d = Some k /\
  let n := Z.to_nat (d_cluster_count d) in
  placed lo v k n /\
  parse_directory_entries (region v k n) =
    mkFatEntry "." k 0 0x10 :: mkFatEntry ".." parent 0 0x10 :: (entry_of (v_builder v) <$> d_entries d).

(** Everything in an item is on the disk. *)
Definition done_item (S : Skel) (lo : Z) (v : View) (it : DirItem) : Prop :=
  (forall x, dirs_in S it x -> done_dir lo v x) /\ (forall f, files_in S it f -> done_file lo v f).

(** The clusters from [lo] up to the free ones are as they were. *)
Definition same_clusters (lo : Z) (v v' : View) : Prop :=
  v_next v <= v_next v' /\
  (forall j, lo <= Z.of_nat j < v_next v -> v_fat v' !! j = v_fat v !! j) /\
  (forall x, cluster_lba layout lo <= x < cluster_lba layout (v_next v) -> v_disk v' x = v_disk v x).

Lemma placed_stable lo v v' k n : 0 <= lo -> same_clusters lo v v' -> placed lo v k n -> placed lo v' k n.
Proof.
  intros H0 (Hn & Hf & _) (H1 & H2 & H3 & H4). split_and!; [done|done|lia|].
  intros i Hi. rewrite Hf by lia. by apply H4.
Qed.

Lemma region_stable lo v v' k n : same_clusters lo v v' -> placed lo v k n -> region v' k n = region v k n.
Proof.
  intros (_ & _ & Hd) (H1 & H2 & H3 & _). unfold region. apply read_span_ext. intros x Hx. apply Hd.
  unfold cluster_lba in *. lia.
Qed.

Lemma done_file_stable lo v v' f :
  0 <= lo -> same_clusters lo v v' -> files (v_builder v') !! f = files (v_builder v) !! f ->
  done_file lo v f -> done_file lo v' f.
Proof.
  intros H0 Hs Hf (e & He & Hd). exists e. split; [by rewrite Hf|]. destruct (f_first_cluster e) as [k|]; [|done].
  cbv zeta in *. destruct Hd as (Hp & Hne & Hr). split; [by apply (placed_stable lo v)|]. split; [done|].
  by rewrite (region_stable lo v v').
Qed.

Lemma entry_of_stable b b' it :
  (forall c, it = ItemDir c -> directories b' !! c = directories b !! c) ->
  (forall f, it = ItemFile f -> files b' !! f = files b !! f) -> entry_of b' it = entry_of b it.
Proof. intros Hd Hf. destruct it as [c|f]; cbn [entry_of]; [by rewrite (Hd c)|by rewrite (Hf f)]. Qed.

Lemma done_dir_stable lo v v' i :
  0 <= lo -> same_clusters lo v v' -> directories (v_builder v') !! i = directories (v_builder v) !! i ->
  (forall j c, kid (skel (v_builder v)) i j (ItemDir c) ->
     directories (v_builder v') !! c = directories (v_builder v) !! c) ->
  (forall j f, kid (skel (v_builder v)) i j (ItemFile f) -> files (v_builder v') !! f = files (v_builder v) !! f) ->
  done_dir lo v i -> done_dir lo v' i.
Proof.
  intros H0 Hs Hd Hkd Hkf (d & k & p & Hi & Hk & Hp & Hr). exists d, k, p. rewrite Hd.
  split; [done|]. split; [done|]. cbv zeta in *. split; [by apply (placed_stable lo v)|].
  rewrite (region_stable lo v v') by done. rewrite Hr. do 2 f_equal.
  apply list_fmap_ext. intros j it Hj. symmetry. apply entry_of_stable.
  - intros c ->. apply (Hkd j). by apply (kid_entries _ i j _ d).
  - intros f ->. apply (Hkf j). by apply (kid_entries _ i j _ d).
Qed.

(** An item stays on the disk while others are written. *)
Lemma done_item_stable S lo v v' it (TD TF : nat -> Prop) :
  0 <= lo -> skel (v_builder v) = S -> same_clusters lo v v' ->
  (forall x, ~ TD x -> directories (v_builder v') !! x = directories (v_builder v) !! x) ->
  (forall f, ~ TF f -> files (v_builder v') !! f = files (v_builder v) !! f) ->
  (forall x, dirs_in S it x -> ~ TD x) -> (forall f, files_in S it f -> ~ TF f) ->
  done_item S lo v it -> done_item S lo v' it.
Proof.
  intros H0 HS Hs Hd Hf HTD HTF [D1 D2]. split.
  - intros x Hx. apply (done_dir_stable lo v); auto; rewrite HS.
    + intros j c Hk. apply Hd, HTD. destruct (dirs_in_kid S it x j _ Hx Hk) as [H _]. apply H. by apply rtc_refl.
    + intros j f Hk. apply Hf, HTF. by destruct (dirs_in_kid S it x j _ Hx Hk) as [_ H]; apply H.
  - intros f Hff. apply (done_file_stable lo v); auto.
Qed.

Lemma keeps_same_clusters TD TF lo v v' : keeps TD TF v v' -> same_clusters lo v v'.
Proof.
  intros [A1 A2 A3 A4 A5 A5' A6 A7]. split_and!; [done| |].
  - intros j Hj. apply A4. lia.
  - intros x Hx. apply A5. lia.
Qed.
End volume.

(** * Writing a FAT32 volume: files and directories *)

Open Scope twilight_scope.

(** A prepared builder: what the formatter relies on and does not change. *)
Record core_ok (b : FatBuilder) : Prop := {
  co_tree : tree_ok (skel b);
  co_dirs i d : directories b !! i = Some d -> shorts_ok (d_short_name d);
  co_files f e : files b !! f = Some e -> shorts_ok (f_short_name e);
  co_sized x : below (skel b) 0 x -> sized CB b x;
}.

Lemma core_ok_core b b' : core b' = core b -> core_ok b -> core_ok b'.
Proof.
  intros Hc [H1 H2 H3 H4]. pose proof (core_skel _ _ Hc) as Hs. constructor.
  - by rewrite Hs.
  - intros i d Hd. destruct (core_dir _ _ _ _ Hc Hd) as (d0 & Hd0 & E). injection E as _ _ -> _. eauto.
  - intros f e He. destruct (core_file _ _ _ _ Hc He) as (e0 & He0 & E). injection E as _ _ ->. eauto.
  - intros x Hx. rewrite Hs in Hx. destruct (H4 x Hx) as (d & Hd & Hn).
    destruct (core_dir _ _ _ _ (eq_sym Hc) Hd) as (d' & Hd' & E). injection E as E1 E2 E3 E4.
    exists d'. split; [done|]. rewrite Hs. congruence.
Qed.

Lemma fallback_ok name d : short_ok (fallback_short_name name d).
Proof.
  unfold fallback_short_name. destruct (split_filename name d) as [base ext].
  apply compose_short_ok, sanitize_visible.
Qed.

(** A child whose cluster is known can be written into its directory. *)
Lemma kid_item_ok b i j it :
  core_ok b -> kid (skel b) i j it -> 0 <= fe_cluster (entry_of b it) < 2 ^ 32 -> item_ok b it.
Proof.
  intros [Ht Hd Hf _] Hk Hc. destruct (kid_label _ _ _ _ Ht Hk) as [n Hn].
  destruct (tk_good _ Ht _ _ _ _ Hk Hn) as [Hg _].
  assert (Hdef : forall o name dir, shorts_ok o -> short_ok (default (fallback_short_name name dir) o)).
  { intros [s|] name dir Ho; [by apply Ho|apply fallback_ok]. }
  split; [|split; [|split; [|split; [done|]]]]; destruct it as [c|f];
    [rewrite label_dir in *|rewrite label_file in *|rewrite label_dir in *|rewrite label_file in *|..];
    cbn [entry_of item_short] in *.
  - destruct (directories b !! c) as [d|]; [|done]. done.
  - destruct (files b !! f) as [e|]; [|done]. done.
  - destruct (directories b !! c) as [d|]; [|done]. cbn in Hn. by simplify_eq.
  - destruct (files b !! f) as [e|]; [|done]. cbn in Hn. by simplify_eq.
  - rewrite label_dir in Hn. destruct (directories b !! c) as [d|] eqn:E; [|done]. apply Hdef. eauto.
  - rewrite label_file in Hn. destruct (files b !! f) as [e|] eqn:E; [|done]. apply Hdef. eauto.
  - rewrite label_dir in Hn. destruct (directories b !! c) as [d|]; [|done]. cbn. split; [lia|by left].
  - rewrite label_file in Hn. destruct (files b !! f) as [e|]; [|done]. cbn [fe_size fe_attr].
    split; [|by right]. unfold wrap. apply Z.mod_pos_bound. lia.
Qed.

(** The size of a cluster is not computed with. *)
#[local] Opaque CB.

Section process.
Context {D : Type} `{SectorDev D} (layout : Fat32Layout) (blocks : nat) (Hlo : layout_ok layout blocks).
Abbreviation runs := (fruns (D := D) blocks).
Abbreviation keep := (keeps layout).

(** The table has an entry for every cluster. *)
Definition fat_full (v : View) : Prop :=
  Z.of_nat (length (v_fat v)) = l_total_clusters layout + 2 /\ 2 <= v_next v.

Lemma fat_full_keeps TD TF v v' : keep TD TF v v' -> fat_full v -> fat_full v'.
Proof. intros [_ H2 H3 _ _ _ _ _] [K1 K2]. split; [congruence|lia]. Qed.

(** Allocating and writing a chain of [n] clusters, with the builder updated between. *)
Lemma write_new_chain v n b' data :
  fat_full v -> 1 <= n -> v_next v + n < Z.of_nat (length (v_fat v)) -> (length data <= Z.to_nat n * CB)%nat ->
  let v1 := mkView b' (v_fat (after_alloc n v)) (v_next v + n) (v_disk v) in
  let v2 := with_disk (write_span (v_disk v) (cluster_lba layout (v_next v)) (Z.to_nat n * 8) 512
    (zero_fill (Z.to_nat n * CB) data)) v1 in
  runs (write_chain layout (v_next v) n data) v1 tt v2 /\
  placed (v_next v) v2 (v_next v) (Z.to_nat n) /\
  region layout v2 (v_next v) (Z.to_nat n) = zero_fill (Z.to_nat n * CB) data.
Proof.
  intros [Hlen Hnf] Hn Hend Hl v1 v2. pose proof (lo_clusters _ _ Hlo) as HC.
  destruct (after_alloc_chain n v) as (Hch & _ & _); [lia..|]. split_and!.
  - apply (write_chain_runs layout blocks Hlo n (v_next v) data v1); try done; lia.
  - split_and!; [lia|lia|cbn; lia|done].
  - unfold region. cbn [v2 with_disk v_disk]. apply read_write_span. rewrite zero_fill_length by done.
    pose proof CB_sectors. lia.
Qed.

Lemma fruns_alloc v n :
  fat_full v -> 1 <= n -> v_next v + n < Z.of_nat (length (v_fat v)) ->
  runs (allocate_chain n) v (v_next v) (after_alloc n v).
Proof. intros [Hlen Hnf] Hn Hend. pose proof (lo_clusters _ _ Hlo). apply allocate_chain_runs; lia. Qed.

Lemma upd_file_keeps v f (g : FileEntry -> FileEntry) e n fat disk :
  (forall d, file_core (g d) = file_core d) -> files (v_builder v) !! f = Some e -> 0 <= n ->
  length fat = length (v_fat v) -> (forall j, Z.of_nat j < v_next v -> fat !! j = v_fat v !! j) ->
  (forall x, ~ (cluster_lba layout (v_next v) <= x < cluster_lba layout (l_total_clusters layout + 2)) ->
     disk x = v_disk v x) ->
  let b := v_builder v in
  let v' := mkView (mkBuilder (directories b) (alter g f (files b)) (path_map b)) fat (v_next v + n) disk in
  keep (fun _ => False) (eq f) v v'.
Proof.
  intros Hg He Hn Hlen Hfat Hdisk b v'. constructor; cbn [v' v_builder v_fat v_next v_disk]; auto.
  - by apply core_alter_file.
  - lia.
  - intros x Hx. apply Hdisk. lia.
  - intros x Hx. apply Hdisk. lia.
  - intros x Hx. cbn [files]. apply list_lookup_alter_ne. done.
Qed.

Lemma write_file_runs v f e :
  core_ok (v_builder v) -> fat_full v -> files (v_builder v) !! f = Some e -> f_first_cluster e = None ->
  let n := file_clusters (length (f_data e)) in
  v_next v + Z.of_nat n < Z.of_nat (length (v_fat v)) ->
  exists v', runs (write_file layout f) v tt v' /\ keep (fun _ => False) (eq f) v v' /\
    v_next v' = v_next v + Z.of_nat n /\ done_file layout (v_next v) v' f.
Proof.
  intros Hcore Hfull He Hnone n Hend. pose proof (lo_clusters _ _ Hlo) as HC. pose proof Hfull as [Hlen Hnf].
  unfold write_file. destruct (Nat.eqb_spec (length (f_data e)) 0) as [Hz|Hz].
  - apply nil_length_inv in Hz. assert (Hn : n = 0%nat) by (unfold n; by rewrite Hz).
    eexists. split; [|split; [|split]].
    + eapply fruns_bind; [apply fruns_builder_read, fileM_run, He|]. rewrite Hz. cbn [length Nat.eqb].
      by apply fruns_builder, (upd_file_run _ _ _ e).
    + pose proof (upd_file_keeps v f (set_f_clusters None 0) e 0 (v_fat v) (v_disk v)) as Hk.
      rewrite Z.add_0_r in Hk. apply Hk; done.
    + cbn [v_next]. rewrite Hn. lia.
    + exists (set_f_clusters None 0 e). cbn [v_builder files]. by rewrite list_lookup_alter_eq, He.
  - pose proof (file_clusters_pos (length (f_data e)) ltac:(lia)) as Hpos. fold n in Hpos.
    pose proof (file_clusters_fit (length (f_data e))) as Hfit. fold n in Hfit.
    assert (Hcl : clusters_for_size (length (f_data e)) (l_cluster_size_bytes layout) = Z.of_nat n).
    { unfold clusters_for_size. rewrite (lo_cluster _ _ Hlo). replace (_ =? 0)%nat with false by lia.
      fold (file_clusters (length (f_data e))). fold n. unfold wrap. apply Z.mod_small. lia. }
    set (g := set_f_clusters (Some (v_next v)) (Z.of_nat n)).
    set (b' := mkBuilder (directories (v_builder v)) (alter g f (files (v_builder v))) (path_map (v_builder v))).
    destruct (write_new_chain v (Z.of_nat n) b' (f_data e) Hfull) as (Hw & Hp & Hr); [lia|lia|lia|].
    rewrite Nat2Z.id in Hw, Hp, Hr. destruct (after_alloc_chain (Z.of_nat n) v) as (_ & Hfat & Hl'); [lia..|].
    eexists. split; [|split; [|split]].
    + eapply fruns_bind; [apply fruns_builder_read, fileM_run, He|].
      replace (length (f_data e) =? 0)%nat with false by lia. rewrite Hcl.
      eapply fruns_bind; [apply fruns_alloc; [done|lia|lia]|].
      eapply fruns_bind; [by apply fruns_builder, (upd_file_run _ _ _ e)|]. exact Hw.
    + apply (upd_file_keeps v f g e); try done; [lia|]. intros x Hx. apply write_span_out.
      unfold cluster_lba in *. lia.
    + done.
    + exists (g e). cbn [with_disk v_builder files b']. rewrite list_lookup_alter_eq, He. split; [done|].
      cbn [g set_f_clusters f_first_cluster f_data]. fold n. split; [done|]. split; [|done].
      intros E. apply Hz. by rewrite E.
Qed.

(** ** Items *)

(** Nothing of the item has a cluster yet. *)
Definition fresh_item (S : Skel) (v : View) (it : DirItem) : Prop :=
  (forall x d, dirs_in S it x -> directories (v_builder v) !! x = Some d -> d_cluster d = None) /\
  (forall f e, files_in S it f -> files (v_builder v) !! f = Some e -> f_first_cluster e = None).

(** [m] writes the item, with the clusters it needs. *)
Record writes (S : Skel) (fuel : nat) (it : DirItem) (m : M (Formatter D) FatError unit) (v v' : View) : Prop := {
  wr_runs : runs m v tt v';
  wr_keeps : keep (dirs_in S it) (files_in S it) v v';
  wr_next : v_next v' = v_next v + item_need S fuel it;
  wr_done : done_item layout S (v_next v) v' it;
  wr_first i : it = ItemDir i -> exists d, directories (v_builder v') !! i = Some (set_d_cluster (v_next v) d);
}.

Lemma done_item_lower S lo lo' v it : lo' <= lo -> done_item layout S lo v it -> done_item layout S lo' v it.
Proof.
  intros Hlo' [H1 H2]. split.
  - intros x Hx. destruct (H1 x Hx) as (d & k & p & Hd & Hk & (P1 & P2 & P3 & P4) & Hr).
    exists d, k, p. split; [done|]. split; [done|]. split; [|done]. split_and!; [lia|done..].
  - intros f Hf. destruct (H2 f Hf) as (e & He & Hd). exists e. split; [done|].
    destruct (f_first_cluster e); [|done]. destruct Hd as ((P1 & P2 & P3 & P4) & Hr). split; [|done].
    split_and!; [lia|done..].
Qed.

Lemma fresh_item_keeps S TD TF v v' it :
  keep TD TF v v' -> (forall x, dirs_in S it x -> ~ TD x) -> (forall f, files_in S it f -> ~ TF f) ->
  fresh_item S v it -> fresh_item S v' it.
Proof.
  intros Hk HD HF [F1 F2]. split.
  - intros x d Hx Hd. rewrite (kp_dirs _ _ _ _ _ Hk) in Hd by auto. eauto.
  - intros f e Hf He. rewrite (kp_files _ _ _ _ _ Hk) in He by auto. eauto.
Qed.

Lemma kid_not_in S i j it : tree_ok S -> kid S i j it -> ~ dirs_in S it i.
Proof.
  intros Ht Hk. destruct it as [c|]; cbn [dirs_in]; [|tauto]. intros Hb.
  apply (below_ge S _ _ Ht) in Hb. apply (tk_dir S Ht) in Hk. lia.
Qed.

(** The children of a directory, one after the other. *)
Lemma items_loop S fuel i (step : DirItem -> M (Formatter D) FatError unit) es v :
  tree_ok S -> core_ok (v_builder v) -> skel (v_builder v) = S -> fat_full v -> NoDup es ->
  (forall it, it ∈ es -> exists j, kid S i j it) -> (forall it, it ∈ es -> fresh_item S v it) ->
  v_next v + items_need S fuel es < Z.of_nat (length (v_fat v)) ->
  (forall it w, it ∈ es -> core (v_builder w) = core (v_builder v) -> fat_full w ->
     directories (v_builder w) !! i = directories (v_builder v) !! i -> fresh_item S w it ->
     v_next w + item_need S fuel it < Z.of_nat (length (v_fat w)) -> exists w', writes S fuel it (step it) w w') ->
  exists v', runs (forM es step) v tt v' /\
    keep (fun x => exists it, it ∈ es /\ dirs_in S it x) (fun f => exists it, it ∈ es /\ files_in S it f) v v' /\
    v_next v' = v_next v + items_need S fuel es /\
    forall it, it ∈ es -> done_item layout S (v_next v) v' it.
Proof.
  intros Ht. revert v. induction es as [|it es IH]; intros v Hcore HS Hfull Hnd Hkid Hfresh Hneed Hstep.
  { exists v. split; [apply fruns_ret|]. split; [apply keeps_refl|]. cbn. split; [lia|].
    intros it Hit. by apply not_elem_of_nil in Hit. }
  apply NoDup_cons in Hnd as [Hnotin Hnd]. cbn [items_need foldr] in Hneed. fold (items_need S fuel es) in Hneed.
  pose proof (items_need_nonneg S fuel es) as Hrest. pose proof (item_need_nonneg S fuel it) as Hfirst.
  destruct (Hstep it v) as [v1 [W1 W2 W3 W4]]; [left|done|done|done|apply Hfresh; left|lia|].
  destruct (Hkid it) as [j Hj]; [left|].
  assert (Hdis : forall it', it' ∈ es -> (forall x, dirs_in S it' x -> ~ dirs_in S it x) /\
    (forall f, files_in S it' f -> ~ files_in S it f)).
  { intros it' Hin. destruct (Hkid it') as [j' Hj']; [by right|].
    assert (it <> it') by (intros ->; done). split.
    - intros x Hx1 Hx2. by apply (items_disjoint_dirs S i j j' it it' x).
    - intros f Hf1 Hf2. by apply (items_disjoint_files S i j j' it it' f). }
  pose proof (kp_core _ _ _ _ _ W2) as Ec. pose proof (core_skel _ _ Ec) as Es.
  pose proof (kp_dirs _ _ _ _ _ W2 i (kid_not_in S i j it Ht Hj)) as Ei.
  pose proof (kp_length _ _ _ _ _ W2) as El.
  destruct (IH v1) as (v' & R1 & R2 & R3 & R4).
  - by apply (core_ok_core (v_builder v)).
  - congruence.
  - by apply (fat_full_keeps _ _ v v1 W2).
  - done.
  - intros it' Hin. apply Hkid. by right.
  - intros it' Hin. destruct (Hdis it' Hin). apply (fresh_item_keeps S _ _ v v1 it' W2); [done..|].
    apply Hfresh. by right.
  - rewrite W3, El. lia.
  - intros it' w Hin. rewrite Ec, Ei. apply Hstep. by right.
  - exists v'. split; [|split; [|split]].
    + cbn [forM]. by eapply fruns_bind.
    + eapply keeps_weaken; [eapply keeps_trans; [exact W2|exact R2]|cbn beta..].
      * intros x [Hx|(it' & Hin & Hx)]; [exists it; split; [left|done]|exists it'; split; [by right|done]].
      * intros x [Hx|(it' & Hin & Hx)]; [exists it; split; [left|done]|exists it'; split; [by right|done]].
    + rewrite R3, W3. cbn [items_need foldr]. fold (items_need S fuel es). lia.
    + intros it' Hin. apply elem_of_cons in Hin as [->|Hin].
      * destruct Hfull as [_ Hnf]. apply (done_item_stable layout S _ v1 v' it
          (fun x => exists it, it ∈ es /\ dirs_in S it x) (fun f => exists it, it ∈ es /\ files_in S it f)).
        -- lia.
        -- congruence.
        -- by eapply keeps_same_clusters.
        -- apply R2.
        -- apply R2.
        -- intros x Hx (it2 & Hin2 & Hx2). by destruct (Hdis it2 Hin2) as [HD _]; apply (HD x).
        -- intros f Hf (it2 & Hin2 & Hf2). by destruct (Hdis it2 Hin2) as [_ HF]; apply (HF f).
        -- done.
      * eapply done_item_lower; [|by apply R4]. lia.
Qed.

(** ** Directories *)

(** The view after a directory got its [n] clusters. *)
Definition opened (v : View) (i : nat) (n : Z) : View :=
  let b := v_builder v in
  mkView (mkBuilder (alter (set_d_cluster (v_next v)) i (directories b)) (files b) (path_map b))
    (v_fat (after_alloc n v)) (v_next v + n) (v_disk v).

Lemma open_dir_runs v i d n :
  fat_full v -> directories (v_builder v) !! i = Some d -> d_cluster d = None -> d_cluster_count d = n ->
  1 <= n -> v_next v + n < Z.of_nat (length (v_fat v)) ->
  runs (match d_cluster d with
        | Some _ => retM tt
        | None => start <-- allocate_chain (d_cluster_count d) ;; on_builder (upd_dir i (set_d_cluster start))
        end) v tt (opened v i n) /\
  keep (eq i) (fun _ => False) v (opened v i n) /\
  directories (v_builder (opened v i n)) !! i = Some (set_d_cluster (v_next v) d) /\
  chain (v_fat (opened v i n)) (v_next v) (Z.to_nat n).
Proof.
  intros Hfull Hd Hnone Hn H1 Hend. pose proof (lo_clusters _ _ Hlo) as HC. pose proof Hfull as [Hlen Hnf].
  destruct (after_alloc_chain n v) as (Hch & Hfat & Hl); [lia..|]. rewrite Hnone, Hn. split_and!.
  - eapply fruns_bind; [by apply fruns_alloc|].
    exact (fruns_builder blocks _ (after_alloc n v) tt _ (upd_dir_run _ _ _ d Hd)).
  - constructor; cbn [opened v_builder v_fat v_next v_disk]; auto.
    + by apply core_alter_dir.
    + lia.
    + intros x Hx. cbn [directories]. by apply list_lookup_alter_ne.
  - cbn [opened v_builder directories]. by rewrite list_lookup_alter_eq, Hd.
  - done.
Qed.

(** The entry of a child that is on the disk names a cluster of the volume. *)
Lemma done_item_cluster S lo v it j i :
  tree_ok S -> skel (v_builder v) = S -> kid S i j it -> 0 <= lo -> v_next v < 2 ^ 32 ->
  done_item layout S lo v it -> 0 <= fe_cluster (entry_of (v_builder v) it) < 2 ^ 32.
Proof.
  intros Ht HS Hk Hlo0 Hnext [D1 D2]. destruct it as [c|f]; cbn [entry_of].
  - destruct (D1 c) as (d & k & p & -> & Hc & (P1 & P2 & P3 & _) & _); [by apply rtc_refl|].
    cbn [fe_cluster]. rewrite Hc. cbn. lia.
  - destruct (D2 f) as (e & -> & He); [done|]. cbn [fe_cluster].
    destruct (f_first_cluster e) as [k|]; [|done]. destruct He as ((P1 & P2 & P3 & _) & _). cbn. lia.
Qed.

(** The directory itself, once its children are on the disk. *)
Lemma close_dir_runs v i d k n parent lo :
  core_ok (v_builder v) -> fat_full v -> directories (v_builder v) !! i = Some d -> d_cluster d = Some k ->
  d_cluster_count d = n -> n = Z.of_nat (clusters_of (skel (v_builder v)) CB (d_entries d)) ->
  2 <= k -> k + n = lo -> lo <= v_next v -> v_next v < Z.of_nat (length (v_fat v)) ->
  chain (v_fat v) k (Z.to_nat n) -> 0 <= parent < 2 ^ 32 ->
  (forall it, it ∈ d_entries d -> done_item layout (skel (v_builder v)) lo v it) ->
  exists c, (forall x, ~ (cluster_lba layout k <= x < cluster_lba layout lo) -> c x = v_disk v x) /\
    runs (buffer <-- on_builder (build_directory_buffer layout i parent) ;;
          d <-- on_builder (dirM i) ;;
          match d_cluster d with
          | Some cluster => write_chain layout cluster (d_cluster_count d) buffer
          | None => panicM
          end) v tt (with_disk c v) /\
    done_dir layout k (with_disk c v) i.
Proof.
  intros Hcore Hfull Hd Hk Hn Hcl Hk2 Hlo' Hnext Hend Hch Hpar Hdone.
  pose proof (lo_clusters _ _ Hlo) as HC. pose proof Hfull as [Hlen Hnf]. pose proof CB_sectors as HCB.
  set (b := v_builder v) in *. set (es := d_entries d) in *.
  assert (Hok : Forall (item_ok b) es).
  { apply Forall_forall. intros it Hin. pose proof Hin as [j Hj]%list_elem_of_lookup_1.
    apply (kid_entries b i j it d Hd) in Hj. apply (kid_item_ok b i j it Hcore Hj).
    apply (done_item_cluster (skel b) lo v it j i); [apply Hcore|done|done|lia|lia|]. by apply Hdone. }
  pose proof (clusters_of_fit (skel b) es) as Hfit.
  pose proof (build_directory_buffer_run layout b i d parent Hd Hok) as Hbuf. cbv zeta in Hbuf.
  fold es in Hbuf. rewrite (lo_cluster _ _ Hlo), Hn, Hk in Hbuf. cbn [from_option id] in Hbuf.
  replace (Z.to_nat n) with (clusters_of (skel b) CB es) in * by lia. specialize (Hbuf Hfit).
  set (N := clusters_of (skel b) CB es) in *.
  set (buf := concat (dot_entries k parent ++ concat (item_entries b <$> es)) ++
    replicate (N * CB - 32 * (2 + slots (skel b) es)) 0) in *.
  assert (Hlbuf : length buf = (N * CB)%nat).
  { unfold buf. rewrite length_app, length_replicate, (concat_blocks_length 32).
    - rewrite length_app, items_length by done. change (length (dot_entries k parent)) with 2%nat. lia.
    - apply Forall_app_2; [by repeat constructor|by apply items_32]. }
  exists (write_span (v_disk v) (cluster_lba layout k) (N * 8) 512 buf). split_and!.
  - intros x Hx. apply write_span_out. unfold cluster_lba in *. lia.
  - eapply fruns_bind; [by apply fruns_builder_read|]. eapply fruns_bind; [by apply fruns_builder_read, dirM_run|].
    rewrite Hk, Hn. pose proof (write_chain_runs layout blocks Hlo n k buf v) as Hw.
    replace (Z.to_nat n) with N in Hw by lia.
    assert (Hz : zero_fill (N * CB) buf = buf) by (unfold zero_fill; rewrite Hlbuf, Nat.sub_diag; apply app_nil_r).
    rewrite Hz in Hw. apply Hw; [done|lia|lia|done|lia].
  - exists d, k, parent. split; [done|]. split; [done|]. cbv zeta. rewrite Hn.
    replace (Z.to_nat n) with N by lia. split.
    + split_and!; [lia|unfold N, clusters_of; lia|cbn; lia|done].
    + unfold region. cbn [with_disk v_disk v_builder]. rewrite read_write_span by lia.
      unfold buf. replace (N * CB - 32 * (2 + slots (skel b) es))%nat
        with ((N * 128 - (2 + slots (skel b) es)) * 32)%nat by lia.
      apply parse_directory; [done|lia|done].
Qed.

(** ** The whole tree *)

Lemma entries_nodup b i d : tree_ok (skel b) -> directories b !! i = Some d -> NoDup (d_entries d).
Proof.
  intros Ht Hd. apply NoDup_alt. intros j j' it Hj Hj'.
  by apply (tk_unique _ Ht i j i j' it); apply (kid_entries b i _ it d).
Qed.

(** The children of a fresh directory are fresh, and stay so when it is opened. *)
Lemma fresh_kids S v i j it n :
  tree_ok S -> skel (v_builder v) = S -> kid S i j it -> fresh_item S v (ItemDir i) ->
  keep (eq i) (fun _ => False) v (opened v i n) -> fresh_item S (opened v i n) it.
Proof.
  intros Ht HS Hk [F1 F2] Hkeep.
  destruct (dirs_in_kid S (ItemDir i) i j it (rtc_refl _ _) Hk) as [HD HF].
  apply (fresh_item_keeps S _ _ v _ it Hkeep).
  - intros x Hx <-. by apply (kid_not_in S i j it Ht Hk).
  - intros f _ [].
  - split; eauto.
Qed.

Lemma done_item_dir S lo v i :
  (forall x, below S i x <-> x = i \/ exists j c, kid S i j (ItemDir c) /\ below S c x) ->
  done_dir layout lo v i -> (forall j it, kid S i j it -> done_item layout S lo v it) ->
  done_item layout S lo v (ItemDir i).
Proof.
  intros Hbelow Hd Hkids. split.
  - intros x [->|(j & c & Hk & Hx)]%Hbelow; [done|]. by apply (Hkids j (ItemDir c) Hk).
  - intros f (x & j & Hx & Hf). apply Hbelow in Hx as [->|(j' & c & Hk & Hx)].
    + by apply (Hkids j (ItemFile f) Hf).
    + apply (Hkids j' (ItemDir c) Hk). by exists x, j.
Qed.

Lemma below_kids S i x : below S i x <-> x = i \/ exists j c, kid S i j (ItemDir c) /\ below S c x.
Proof.
  split.
  - intros [<-|(c & [j Hj] & Hx)]%rtc_inv; [by left|right]. by exists j, c.
  - intros [->|(j & c & Hk & Hx)]; [apply rtc_refl|]. eapply rtc_l; [by exists j|done].
Qed.

(** A child is written by the step of the loop, if directories of less fuel are. *)
Lemma kid_writes S fuel i j k d it v w :
  (forall c w, core_ok (v_builder w) -> skel (v_builder w) = S -> fat_full w -> child S i c ->
     fresh_item S w (ItemDir c) -> v_next w + tree_need S fuel c < Z.of_nat (length (v_fat w)) ->
     exists w', writes S fuel (ItemDir c) (process_directory layout fuel c (Some k)) w w') ->
  core_ok (v_builder v) -> skel (v_builder v) = S -> kid S i j it ->
  core (v_builder w) = core (v_builder v) -> fat_full w ->
  directories (v_builder w) !! i = Some d -> d_cluster d = Some k -> fresh_item S w it ->
  v_next w + item_need S fuel it < Z.of_nat (length (v_fat w)) ->
  exists w', writes S fuel it (match it with
    | ItemDir child => d <-- on_builder (dirM i) ;; process_directory layout fuel child (d_cluster d)
    | ItemFile file_id => write_file layout file_id end) w w'.
Proof.
  intros IH Hcore HS Hj Ec Hfw Hd Hk Hfr Hw. pose proof (core_skel _ _ Ec) as Es. rewrite HS in Es.
  pose proof (core_ok_core _ _ Ec Hcore) as Hcw. destruct it as [c|f].
  - destruct (IH c w) as [w' [W1 W2 W3 W4 W5]]; try done; [by exists j|]. exists w'. constructor; try done.
    eapply fruns_bind; [by apply fruns_builder_read, dirM_run|]. by rewrite Hk.
  - pose proof (tk_file _ (co_tree _ Hcw) i j f) as Hf. rewrite Es in Hf. specialize (Hf Hj).
    rewrite <- Es in Hf. cbn [skel sk_files] in Hf. rewrite length_fmap in Hf.
    destruct (lookup_lt_is_Some_2 _ _ Hf) as [e He].
    assert (Hne : item_need S fuel (ItemFile f) = Z.of_nat (file_clusters (length (f_data e)))).
    { cbn [item_need]. unfold file_need. rewrite <- Es. cbn [skel sk_files]. by rewrite list_lookup_fmap, He. }
    destruct (write_file_runs w f e Hcw Hfw He) as (w' & W1 & W2 & W3 & W4).
    { by apply (proj2 Hfr f). } { by rewrite <- Hne. }
    exists w'. constructor; [done| |by rewrite Hne| |done].
    + eapply keeps_weaken; [exact W2|done|]. by intros x <-.
    + split; [done|]. by intros g ->.
Qed.

(** The children are on the disk, the directory is written last. *)
Lemma process_closes S fuel i d N parent v v2 :
  let k := v_next v in let v1 := opened v i (Z.of_nat N) in let es := d_entries d in
  core_ok (v_builder v) -> skel (v_builder v) = S -> fat_full v ->
  directories (v_builder v) !! i = Some d -> d_cluster_count d = Z.of_nat N -> N = clusters_of S CB es ->
  0 <= default 0 parent < 2 ^ 32 -> k + Z.of_nat N + items_need S fuel es < Z.of_nat (length (v_fat v)) ->
  keep (eq i) (fun _ => False) v v1 -> directories (v_builder v1) !! i = Some (set_d_cluster k d) ->
  chain (v_fat v1) k N ->
  keep (fun x => exists it, it ∈ es /\ dirs_in S it x) (fun f => exists it, it ∈ es /\ files_in S it f) v1 v2 ->
  v_next v2 = k + Z.of_nat N + items_need S fuel es ->
  (forall it, it ∈ es -> done_item layout S (k + Z.of_nat N) v2 it) ->
  exists c, runs (buffer <-- on_builder (build_directory_buffer layout i (default 0 parent)) ;;
          d <-- on_builder (dirM i) ;;
          match d_cluster d with
          | Some cluster => write_chain layout cluster (d_cluster_count d) buffer
          | None => panicM
          end) v2 tt (with_disk c v2) /\
    keep (dirs_in S (ItemDir i)) (files_in S (ItemDir i)) v (with_disk c v2) /\
    done_item layout S k (with_disk c v2) (ItemDir i) /\ directories (v_builder v2) !! i = Some (set_d_cluster k d).
Proof.
  intros k v1 es Hcore HS Hfull Hd Hn HN Hpar Hneed K1 Hd1 Hch1 K2 Hnext2 Hdone2. pose proof Hfull as [Hlen Hnf].
  assert (Ht : tree_ok S) by (rewrite <- HS; apply Hcore).
  assert (Ec2 : core (v_builder v2) = core (v_builder v)) by (rewrite (kp_core _ _ _ _ _ K2); apply K1).
  pose proof (core_skel _ _ Ec2) as Es2. rewrite HS in Es2.
  assert (Hkid : forall j it, kid S i j it <-> es !! j = Some it).
  { intros j it. rewrite <- HS. by apply (kid_entries _ i j it d). }
  assert (Hd2 : directories (v_builder v2) !! i = Some (set_d_cluster k d)).
  { rewrite (kp_dirs _ _ _ _ _ K2); [exact Hd1|]. intros (it & [j Hj]%list_elem_of_lookup_1 & Hx).
    by apply (kid_not_in S i j it Ht (proj2 (Hkid j it) Hj)). }
  pose proof (items_need_nonneg S fuel es) as Hnn.
  pose proof (fat_full_keeps _ _ _ _ K2 (fat_full_keeps _ _ _ _ K1 Hfull)) as Hfull2. pose proof Hfull2 as [Hlen2 _].
  destruct (close_dir_runs v2 i (set_d_cluster k d) k (Z.of_nat N) (default 0 parent) (k + Z.of_nat N))
    as (c & Hc & R3 & D3); rewrite ?Es2; try assumption; try lia.
  { by apply (core_ok_core (v_builder v)). }
  { reflexivity. }
  { by rewrite HN. }
  { intros m Hm. rewrite Nat2Z.id in *. rewrite (kp_fat _ _ _ _ _ K2) by (cbn; fold k; lia). by apply Hch1. }
  exists c. split; [done|]. split; [|split; [|done]].
  - constructor.
    + done.
    + cbn [with_disk v_next]. fold k. lia.
    + cbn [with_disk v_fat]. rewrite (kp_length _ _ _ _ _ K2). apply K1.
    + intros m Hm. cbn [with_disk v_fat]. rewrite (kp_fat _ _ _ _ _ K2) by (cbn; fold k in Hm |- *; lia). by apply K1.
    + intros x Hx. cbn [with_disk v_disk]. fold k in Hx. rewrite Hc by lia.
      rewrite (kp_disk _ _ _ _ _ K2) by (cbn; fold k; unfold cluster_lba in *; lia). by apply K1.
    + intros x Hx. cbn [with_disk v_disk]. rewrite Hc by (unfold cluster_lba in *; lia).
      rewrite (kp_above _ _ _ _ _ K2) by done. by apply (kp_above _ _ _ _ _ K1).
    + intros x Hx. cbn [with_disk v_builder]. rewrite (kp_dirs _ _ _ _ _ K2).
      * apply K1. intros <-. apply Hx. apply rtc_refl.
      * intros (it & [j Hj]%list_elem_of_lookup_1 & Hin). apply Hx.
        by apply (dirs_in_kid S (ItemDir i) i j it (rtc_refl _ _) (proj2 (Hkid j it) Hj)).
    + intros f Hf. cbn [with_disk v_builder]. rewrite (kp_files _ _ _ _ _ K2).
      * apply K1. tauto.
      * intros (it & [j Hj]%list_elem_of_lookup_1 & Hin). apply Hf.
        by apply (dirs_in_kid S (ItemDir i) i j it (rtc_refl _ _) (proj2 (Hkid j it) Hj)).
  - apply done_item_dir; [apply below_kids|done|]. intros j it Hj%Hkid.
    apply (done_item_lower S (k + Z.of_nat N)); [lia|].
    apply (done_item_stable layout S (k + Z.of_nat N) v2 _ it (fun _ => False) (fun _ => False)); try done; try tauto.
    + lia.
    + split_and!; [done|done|]. intros x Hx. cbn [with_disk v_disk]. apply Hc. lia.
    + apply Hdone2. by eapply list_elem_of_lookup_2.
Qed.

Lemma process_directory_writes S fuel i parent v :
  core_ok (v_builder v) -> skel (v_builder v) = S -> fat_full v -> below S 0 i ->
  (i < length (sk_dirs S) <= fuel + i)%nat -> fresh_item S v (ItemDir i) ->
  0 <= default 0 parent < 2 ^ 32 ->
  v_next v + tree_need S fuel i < Z.of_nat (length (v_fat v)) ->
  exists v', writes S fuel (ItemDir i) (process_directory layout fuel i parent) v v'.
Proof.
  revert i parent v. induction fuel as [|fuel IH]; intros i parent v Hcore HS Hfull Hi0 Hi Hfresh Hpar Hneed; [lia|].
  pose proof (lo_clusters _ _ Hlo) as HC. pose proof Hfull as [Hlen Hnf].
  assert (Ht : tree_ok S) by (rewrite <- HS; apply Hcore).
  destruct (co_sized _ Hcore i) as (d & Hd & Hcount); [by rewrite HS|]. rewrite HS in Hcount.
  assert (Hsk : sk_dirs S !! i = Some (d_name d, d_entries d)).
  { rewrite <- HS. cbn [skel sk_dirs]. by rewrite list_lookup_fmap, Hd. }
  set (es := d_entries d) in *. pose proof (tree_need_eq S fuel i _ es Hsk) as Hneed'. rewrite Hneed' in Hneed.
  pose proof (items_need_nonneg S fuel es) as Hnn. set (N := clusters_of S CB es) in *.
  assert (HN : (1 <= N)%nat) by (unfold N, clusters_of; lia).
  assert (Hn : d_cluster_count d = Z.of_nat N) by (rewrite Hcount; apply Z.mod_small; lia).
  assert (Hnone : d_cluster d = None) by (apply (proj1 Hfresh i); [apply rtc_refl|done]).
  assert (Hkid : forall it, it ∈ es -> exists j, kid S i j it).
  { intros it [j Hj]%list_elem_of_lookup_1. exists j. rewrite <- HS. by apply (kid_entries _ i j it d). }
  destruct (open_dir_runs v i d (Z.of_nat N) Hfull Hd Hnone Hn) as (R1 & K1 & Hd1 & Hch1); [lia|lia|].
  rewrite Nat2Z.id in Hch1.
  destruct (items_loop S fuel i (fun entry => match entry with
      | ItemDir child => d <-- on_builder (dirM i) ;; process_directory layout fuel child (d_cluster d)
      | ItemFile file_id => write_file layout file_id end) es (opened v i (Z.of_nat N)))
    as (v2 & R2 & K2 & Hnext2 & Hdone2); try assumption.
  - apply (core_ok_core (v_builder v)); [apply K1|done].
  - by rewrite (core_skel _ _ (kp_core _ _ _ _ _ K1)).
  - by apply (fat_full_keeps _ _ v _ K1).
  - apply (entries_nodup (v_builder v) i); [by rewrite HS|done].
  - intros it Hin. destruct (Hkid it Hin) as [j Hj]. by apply (fresh_kids S v i j).
  - rewrite (kp_length _ _ _ _ _ K1). cbn [opened v_next]. lia.
  - intros it w Hin Ec Hfw Ew Hfr Hw. destruct (Hkid it Hin) as [j Hj]. rewrite Hd1 in Ew.
    apply (kid_writes S fuel i j (v_next v) (set_d_cluster (v_next v) d) it v w); try done.
    + intros c w0 Hcw HSw Hfw0 Hc Hfrc Hnc. pose proof Hc as [j' Hj']. pose proof (tk_dir S Ht _ _ _ Hj').
      apply (IH c (Some (v_next v)) w0); try done; [by eapply rtc_r|lia|cbn; lia].
    + rewrite Ec. apply K1.
  - destruct (process_closes S fuel i d N parent v v2) as (c & R3 & K3 & D3 & Hd3); try done; try lia.
    { fold es. lia. }
    exists (with_disk c v2). constructor; [|done| |done|].
    + cbn [process_directory]. eapply fruns_bind; [by apply fruns_builder_read, dirM_run|].
      eapply fruns_bind; [exact R1|]. eapply fruns_bind; [exact R2|exact R3].
    + cbn [with_disk v_next item_need]. rewrite Hneed', Hnext2. cbn [opened v_next]. lia.
    + intros x [= <-]. by eexists.
Qed.
End process.
