(* ===== verification/Fat32Image.v ===== *)
(** * Writing a FAT32 volume: the boot region, the tables and the whole volume

    [write_volume] leaves a boot sector that describes the layout, the table twice,
    and the tree of the builder in the data clusters. *)

From Stdlib Require Import ZifyBool.
From S2P Require Import Prelude Bytes Text Utf FatNames FatNamesSpec BlockDev BlockDevSpec.
From S2P Require Import Fat32 Fat32Tree Fat32Prepare Fat32Dir Fat32Write Fat32Volume.
Open Scope twilight_scope.

(** ** The table as bytes *)

Definition table_bytes (fat : list Z) : list Z := concat (to_le 4 <$> fat).

Lemma table_bytes_length fat : length (table_bytes fat) = (4 * length fat)%nat.
Proof.
  unfold table_bytes. induction fat as [|e fat IH]; [done|]. rewrite fmap_cons. cbn [concat].
  rewrite length_app, to_le_length, IH. cbn. lia.
Qed.

Lemma table_bytes_load fat k e rest :
  fat !! k = Some e -> load (4 * k) 4 (table_bytes fat ++ rest) = to_le 4 e.
Proof.
  intros Hk. apply list_elem_of_split_length in Hk as (f1 & f2 & -> & ->).
  unfold table_bytes. rewrite fmap_app, fmap_cons, concat_app. cbn [concat]. fold (table_bytes f1).
  unfold load. rewrite <- app_assoc, drop_app_ge by (rewrite table_bytes_length; lia).
  rewrite table_bytes_length, Nat.sub_diag, drop_0, <- app_assoc.
  rewrite take_app_le by (rewrite to_le_length; lia). apply take_ge. rewrite to_le_length. lia.
Qed.

Lemma fill_fat_eq idx pre fat z :
  length pre = (4 * idx)%nat -> (4 * length fat <= z)%nat ->
  fill_fat idx fat (pre ++ replicate z 0) = (pre ++ table_bytes fat) ++ replicate (z - 4 * length fat) 0.
Proof.
  revert idx pre z. induction fat as [|e fat IH]; intros idx pre z Hp Hz; cbn [fill_fat].
  { unfold table_bytes. cbn. by rewrite app_nil_r, Nat.sub_0_r. }
  cbn [length] in Hz. rewrite length_app, length_replicate.
  replace (length pre + z <? idx * 4 + 4)%nat with false by lia.
  replace (idx * 4)%nat with (length pre) by lia. rewrite store_front by (rewrite to_le_length; lia).
  rewrite IH by (rewrite ?length_app, to_le_length; lia). rewrite to_le_length.
  unfold table_bytes. rewrite fmap_cons. cbn [concat]. rewrite (app_assoc pre). f_equal. f_equal. cbn [length]. lia.
Qed.

Lemma to_le_4 v : exists a b c d, to_le 4 v = [a; b; c; d].
Proof. by repeat eexists. Qed.

(** The fields the mount code reads. *)
Lemma boot_sector_fields layout :
  let s := boot_sector layout in
  length s = 512%nat /\ load 510 2 s = [0x55; 0xAA] /\ load 11 2 s = to_le 2 512 /\ load 13 1 s = [8] /\
  load 14 2 s = to_le 2 32 /\ load 16 1 s = [2] /\ load 17 2 s = [0; 0] /\ load 19 2 s = [0; 0] /\
  load 22 2 s = [0; 0] /\ load 32 4 s = to_le 4 (l_total_sectors layout) /\
  load 36 4 s = to_le 4 (l_fat_size_sectors layout) /\ load 44 4 s = to_le 4 2.
Proof.
  unfold boot_sector. destruct (to_le_4 (l_start_lba layout)) as (a1 & b1 & c1 & d1 & ->).
  destruct (to_le_4 (l_total_sectors layout)) as (a2 & b2 & c2 & d2 & ->).
  destruct (to_le_4 (l_fat_size_sectors layout)) as (a3 & b3 & c3 & d3 & ->).
  cbv zeta. split_and!; vm_compute; reflexivity.
Qed.

Lemma fs_info_length layout : length (fs_info_sector layout) = 512%nat.
Proof.
  unfold fs_info_sector. destruct (to_le_4 (u32 (l_total_clusters layout - 1))) as (a & b & c & d & ->).
  vm_compute. reflexivity.
Qed.

#[local] Opaque CB.

Section image.
Context {D : Type} `{SectorDev D} (layout : Fat32Layout) (blocks : nat) (Hlo : layout_ok layout blocks).
Abbreviation runs := (fruns (D := D) blocks).
Abbreviation start := (l_start_lba layout).
Abbreviation F := (l_fat_size_sectors layout).

(** ** The boot region *)

(** Boot sector in place, nothing but the reserved sectors changed. *)
Definition booted (v : View) (c : Z -> list Z) : Prop :=
  c start = boot_sector layout /\ forall x, ~ (start <= x < start + 32) -> c x = v_disk v x.

Lemma booted_sector v c off buf :
  booted v c -> 0 < off < 32 -> length buf = 512%nat ->
  exists c', runs (write_sector (start + off) buf) (with_disk c v) tt (with_disk c' v) /\ booted v c'.
Proof.
  intros [Hb Hc] Ho Hl. pose proof (lo_start _ _ Hlo). pose proof (lo_fat _ _ Hlo). pose proof (lo_clusters _ _ Hlo).
  pose proof (lo_inside _ _ Hlo). pose proof (lo_end _ _ Hlo).
  eexists. split; [apply (write_sector_runs layout blocks Hlo (start + off) buf (with_disk c v)); [lia|done]|].
  cbn [with_disk v_disk]. split.
  - rewrite write_span_out by lia. done.
  - intros x Hx. rewrite write_span_out by lia. by apply Hc.
Qed.

Lemma booted_loop v c offs :
  booted v c -> Forall (fun o => 0 < o < 32)%nat offs ->
  exists c', runs (forM offs (fun offset => if (offset =? 6)%nat || (offset =? 7)%nat then retM tt
    else write_sector (start + Z.of_nat offset) (replicate SECTOR_SIZE 0))) (with_disk c v) tt (with_disk c' v) /\
    booted v c'.
Proof.
  intros Hc Ho. revert c Hc. induction Ho as [|o offs Ho _ IH]; intros c Hc; cbn [forM].
  { exists c. split; [apply fruns_ret|done]. }
  assert (exists c1, runs (if (o =? 6)%nat || (o =? 7)%nat then retM tt
    else write_sector (start + Z.of_nat o) (replicate SECTOR_SIZE 0)) (with_disk c v) tt (with_disk c1 v) /\ booted v c1)
    as (c1 & R1 & B1).
  { case_if; [exists c; split; [apply fruns_ret|done]|]. apply booted_sector; [done|lia|done]. }
  destruct (IH c1 B1) as (c2 & R2 & B2). exists c2. split; [|done]. by eapply fruns_bind.
Qed.

Lemma write_boot_region_runs v : exists c, runs (write_boot_region layout) v tt (with_disk c v) /\ booted v c.
Proof.
  pose proof (lo_start _ _ Hlo). pose proof (lo_fat _ _ Hlo). pose proof (lo_clusters _ _ Hlo).
  pose proof (lo_inside _ _ Hlo). pose proof (lo_end _ _ Hlo).
  pose proof (boot_sector_fields layout) as [Hbl _]. pose proof (fs_info_length layout) as Hil.
  set (c0 := write_span (v_disk v) start 1 512 (boot_sector layout)).
  assert (B0 : booted v c0).
  { split; [|intros x Hx; apply write_span_out; lia]. unfold c0, write_span. replace (_ && _) with true by lia.
    rewrite Z.sub_diag. apply take_ge. by rewrite Hbl. }
  destruct (booted_sector v c0 1 _ B0 ltac:(lia) Hil) as (c1 & R1 & B1).
  destruct (booted_sector v c1 6 _ B1 ltac:(lia) Hbl) as (c2 & R2 & B2).
  destruct (booted_sector v c2 7 _ B2 ltac:(lia) Hil) as (c3 & R3 & B3).
  destruct (booted_loop v c3 (seq 2 (Z.to_nat RESERVED_SECTORS - 2)) B3) as (c4 & R4 & B4).
  { apply Forall_seq. unfold RESERVED_SECTORS. lia. }
  exists c4. split; [|done]. unfold write_boot_region.
  eapply fruns_bind; [apply (write_sector_runs layout blocks Hlo start); [lia|done]|].
  do 3 (eapply fruns_bind; [eassumption|]). exact R4.
Qed.

(** ** The tables *)

Definition table_image (fat : list Z) : list Z :=
  table_bytes fat ++ replicate (Z.to_nat F * 512 - 4 * length fat) 0.

Lemma table_image_length fat : (4 * length fat <= Z.to_nat F * 512)%nat -> length (table_image fat) = (Z.to_nat F * 512)%nat.
Proof. intros. unfold table_image. rewrite length_app, table_bytes_length, length_replicate. lia. Qed.

(** The first table is in place, and only the tables were written. *)
Lemma write_fats_runs v :
  Z.of_nat (length (v_fat v)) = l_total_clusters layout + 2 ->
  exists c, runs (write_fats layout) v tt (with_disk c v) /\
    (forall s, 0 <= s < F -> c (start + 32 + s) = take 512 (drop (Z.to_nat s * 512) (table_image (v_fat v)))) /\
    forall x, ~ (start + 32 <= x < start + 32 + 2 * F) -> c x = v_disk v x.
Proof.
  intros Hlen. pose proof (lo_start _ _ Hlo). pose proof (lo_fat _ _ Hlo). pose proof (lo_clusters _ _ Hlo).
  pose proof (lo_inside _ _ Hlo). pose proof (lo_end _ _ Hlo). pose proof (lo_covered _ _ Hlo).
  assert (Hil : length (table_image (v_fat v)) = (Z.to_nat F * 512)%nat) by (apply table_image_length; lia).
  set (c1 := write_span (v_disk v) (start + 32) (Z.to_nat F) 512 (table_image (v_fat v))).
  exists (write_span c1 (start + 32 + F) (Z.to_nat F) 512 (table_image (v_fat v))). split_and!.
  - unfold write_fats, RESERVED_SECTORS, SECTOR_SIZE. apply fruns_get. intros f (_ & _ & _ & _ & Hf & _).
    rewrite Hf. pose proof (fill_fat_eq 0 [] (v_fat v) (Z.to_nat F * 512) eq_refl ltac:(lia)) as Hfill.
    cbn [app] in Hfill. rewrite Hfill. fold (table_image (v_fat v)).
    unfold wrap. rewrite (Z.mod_small (start + 32)), Z.mod_small by lia.
    eapply fruns_bind; [apply (write_sectors_runs layout blocks Hlo _ (Z.to_nat F)); [lia|lia|done]|].
    apply (write_sectors_runs layout blocks Hlo _ (Z.to_nat F) _ (with_disk c1 v)); [lia|lia|done].
  - intros s Hs. rewrite write_span_out by lia. unfold c1, write_span. replace (_ && _) with true by lia.
    do 3 f_equal. lia.
  - intros x Hx. unfold c1. rewrite !write_span_out by lia. done.
Qed.

(** ** The volume *)

Record formatted (v : View) : Prop := {
  fo_core : core_ok (v_builder v);
  fo_boot : v_disk v start = boot_sector layout;
  fo_full : Z.of_nat (length (v_fat v)) = l_total_clusters layout + 2;
  fo_next : v_next v <= l_total_clusters layout + 2;
  fo_table s : 0 <= s < F -> v_disk v (start + 32 + s) = take 512 (drop (Z.to_nat s * 512) (table_image (v_fat v)));
  fo_done : done_item layout (skel (v_builder v)) 2 v (ItemDir 0);
  fo_root : exists d, directories (v_builder v) !! 0%nat = Some (set_d_cluster 2 d);
}.

(** Nothing outside the partition is written. *)
Definition inside_only (c c' : Z -> list Z) : Prop :=
  forall x, ~ (start <= x < start + l_total_sectors layout) -> c' x = c x.

Definition first_table : list Z :=
  <[1%nat := FAT32_EOC]> (<[0%nat := 0x0FFFFFF8]> (replicate (Z.to_nat (l_total_clusters layout) + 2) 0)).

(** What the tables do not change. *)
Lemma formatted_tables v c :
  core_ok (v_builder v) -> v_disk v start = boot_sector layout ->
  Z.of_nat (length (v_fat v)) = l_total_clusters layout + 2 -> v_next v < l_total_clusters layout + 2 ->
  done_item layout (skel (v_builder v)) 2 v (ItemDir 0) ->
  (exists d, directories (v_builder v) !! 0%nat = Some (set_d_cluster 2 d)) ->
  (forall s, 0 <= s < F -> c (start + 32 + s) = take 512 (drop (Z.to_nat s * 512) (table_image (v_fat v)))) ->
  (forall x, ~ (start + 32 <= x < start + 32 + 2 * F) -> c x = v_disk v x) ->
  formatted (with_disk c v).
Proof.
  intros Hcore Hboot Hfull Hnext Hdone Hroot Ht Hc. pose proof (lo_fat _ _ Hlo). pose proof (lo_data _ _ Hlo).
  constructor; cbn [with_disk v_builder v_disk v_fat v_next]; try assumption.
  - rewrite Hc by lia. done.
  - lia.
  - apply (done_item_stable layout _ 2 v _ _ (fun _ => False) (fun _ => False)); try done; try tauto.
    split_and!; [done|done|]. intros x Hx. cbn [with_disk v_disk]. apply Hc. unfold cluster_lba in Hx. lia.
Qed.

Lemma write_volume_runs b disk :
  core_ok b -> ready b -> tree_need (skel b) (length (directories b)) 0 < l_total_clusters layout ->
  exists v', runs (write_volume layout) (mkView b first_table 2 disk) tt v' /\ formatted v' /\
    skel (v_builder v') = skel b /\ inside_only disk (v_disk v').
Proof.
  intros Hcore [Hrd Hrf] Hneed. set (v0 := mkView b first_table 2 disk). pose proof (lo_clusters _ _ Hlo) as HC.
  pose proof (co_tree _ Hcore) as Ht. pose proof (lo_fat _ _ Hlo). pose proof (lo_data _ _ Hlo).
  assert (Hlen : length first_table = (Z.to_nat (l_total_clusters layout) + 2)%nat).
  { unfold first_table. by rewrite !length_insert, length_replicate. }
  destruct (write_boot_region_runs v0) as (c1 & R1 & B1 & B2).
  destruct (process_directory_writes layout blocks Hlo (skel b) (length (directories b)) 0 None (with_disk c1 v0))
    as [v2 [W1 W2 W3 W4 W5]]; cbn [with_disk v_builder v_fat v_next v0]; try done.
  - split; cbn; lia.
  - pose proof (tk_root _ Ht) as H0'. cbn [skel sk_dirs] in *. rewrite length_fmap in *. lia.
  - split; [intros x d _ Hd; apply (Forall_lookup_1 _ _ _ _ Hrd Hd)|intros x e _ He; apply (Forall_lookup_1 _ _ _ _ Hrf He)].
  - lia.
  - pose proof (core_skel _ _ (kp_core _ _ _ _ _ W2)) as Es. cbn [with_disk v_builder v0] in Es.
    destruct (write_fats_runs v2) as (c3 & R3 & T1 & T2).
    { rewrite (kp_length _ _ _ _ _ W2). cbn. lia. }
    exists (with_disk c3 v2). split; [|split; [|split; [done|]]].
    + unfold write_volume. eapply fruns_bind; [exact R1|]. eapply fruns_bind; [|exact R3].
      apply fruns_get. intros f (_ & _ & _ & Hb & _). rewrite Hb. exact W1.
    + apply formatted_tables; try done.
      * apply (core_ok_core b); [apply W2|done].
      * rewrite (kp_disk _ _ _ _ _ W2); [done|]. cbn [with_disk v_next v0]. unfold cluster_lba. lia.
      * rewrite (kp_length _ _ _ _ _ W2). cbn. lia.
      * rewrite W3. cbn [with_disk v_next v0 item_need]. lia.
      * by rewrite Es.
      * by apply (W5 0%nat).
    + pose proof (lo_inside _ _ Hlo). intros x Hx. cbn [with_disk v_disk]. rewrite T2 by lia.
      destruct (Z.lt_ge_cases x start).
      * rewrite (kp_disk _ _ _ _ _ W2) by (cbn [with_disk v_next v0]; unfold cluster_lba; lia). apply B2. lia.
      * rewrite (kp_above _ _ _ _ _ W2) by (unfold cluster_lba; lia). apply B2. lia.
Qed.
End image.
