(* ===== verification/Fat32Read.v ===== *)
(** * Reading a formatted FAT32 volume

    What the mount code makes of a volume that [write_volume] left: chains, directories,
    path lookup and file contents are those of the builder's tree. *)

From Stdlib Require Import ZifyBool.
From S2P Require Import Prelude Bytes Text Utf FatNames FatNamesSpec BlockDev BlockDevSpec Partition Vfs.
From S2P Require Import Fat32 Fat32Mount Fat32Tree Fat32Prepare Fat32Dir Fat32Write Fat32Volume.
From S2P Require Import Fat32Image.
Open Scope twilight_scope.

#[local] Opaque CB.

Section read.
Context {D : Type} `{SectorDev D} (layout : Fat32Layout) (blocks : nat) (Hlo : layout_ok layout blocks).
Context (v : View) (Hv : formatted layout v).
Abbreviation start := (l_start_lba layout).
Abbreviation F := (l_fat_size_sectors layout).
Abbreviation total := (l_total_sectors layout).
Abbreviation C := (l_total_clusters layout).

(** The mounted volume. *)
Definition mounts (i : Fat32Inner D) : Prop :=
  exists d, i = mkInner d start total 512 8 32 2 F 2 32 (32 + 2 * F) /\
  dev_ok d /\ dev_block_size d = 512%nat /\ dev_block_count d = blocks /\ forall x, contents d x = v_disk v x.

Definition reads {A} (m : M (Fat32Inner D) unit A) (r : res unit A) : Prop :=
  forall i, mounts i -> exists i', m i = (r, i') /\ mounts i'.

Lemma reads_ret {A} (a : A) : reads (retM a) (Ok a).
Proof. intros i Hi. by exists i. Qed.
Lemma reads_fail {A} : reads (A := A) (failM tt) (Err tt).
Proof. intros i Hi. by exists i. Qed.

Lemma reads_bind {A B} (m : M (Fat32Inner D) unit A) (k : A -> M (Fat32Inner D) unit B) a r :
  reads m (Ok a) -> reads (k a) r -> reads (bindM m k) r.
Proof.
  intros Hm Hk i Hi. destruct (Hm i Hi) as (i1 & Hr1 & Hi1). destruct (Hk i1 Hi1) as (i2 & Hr2 & Hi2).
  exists i2. by rewrite (bindM_ok _ _ _ _ _ Hr1).
Qed.

Lemma reads_get {B} (k : Fat32Inner D -> M (Fat32Inner D) unit B) r :
  (forall i, mounts i -> reads (k i) r) -> reads (bindM getM k) r.
Proof. intros Hk i Hi. by apply (Hk i Hi). Qed.

(** ** Sectors, clusters and table entries *)

Lemma reads_sector r : 0 <= r < total -> reads (read_sector r) (Ok (v_disk v (start + r))).
Proof.
  intros Hr i Hi. pose proof Hi as (d & -> & Hok & Hbs & Hbc & Hc).
  pose proof (lo_start _ _ Hlo). pose proof (lo_end _ _ Hlo).
  unfold read_sector, bindM, getM. cbn [fi_partition_sectors fi_start_lba].
  replace (total <=? r) with false by lia. unfold checked_add32, U32_MAX.
  replace (start + r <=? _) with true by lia. unfold focusM. cbn [fi_device].
  assert (Ha : addressable (start + r) 1) by (split; lia).
  destruct (law_sector_read (start + r) d Hok) as (b & d' & Hd'); [done|lia|].
  pose proof (law_read (start + r) d (Ok b) d' Hok Ha Hd') as (K1 & [K2 K3] & K4 & K5); [done|].
  rewrite Nat.mul_1_l, Hbs in Hd'. rewrite Hd'. specialize (K5 b eq_refl). cbn [read_span] in K5.
  rewrite app_nil_r, Hc in K5. rewrite K5. eexists. split; [done|]. exists d'.
  split_and!; [done|done|congruence|congruence|]. intros x. by rewrite K4.
Qed.

Lemma mounts_blocks i : mounts i -> forall x, length (v_disk v x) = 512%nat.
Proof. intros (d & _ & Hok & Hbs & _ & Hc) x. rewrite <- Hc, <- Hbs. by apply law_contents. Qed.

Lemma reads_cluster_sectors n idx first :
  0 <= idx -> 0 <= first -> first + idx + Z.of_nat n <= total ->
  reads (read_cluster_sectors n idx first) (Ok (read_span (v_disk v) (start + first + idx) n)).
Proof.
  pose proof (lo_sectors _ _ Hlo). revert idx. induction n as [|n IH]; intros idx Hi Hf Hn; cbn [read_cluster_sectors read_span].
  { apply reads_ret. }
  unfold wrap. rewrite Z.mod_small by lia. eapply reads_bind; [apply reads_sector; lia|].
  eapply reads_bind; [apply IH; lia|]. rewrite !Z.add_assoc. apply reads_ret.
Qed.

Lemma reads_cluster k : 2 <= k < C + 2 -> reads (read_cluster k) (Ok (region layout v k 1)).
Proof.
  intros Hk. pose proof (lo_inside _ _ Hlo). pose proof (lo_sectors _ _ Hlo). pose proof (lo_fat _ _ Hlo).
  pose proof (lo_data _ _ Hlo).
  unfold read_cluster. apply reads_get. intros i (d & -> & _). unfold cluster_to_sector.
  cbn [fi_sectors_per_cluster fi_first_data_sector fi_partition_sectors].
  replace (k <? 2) with false by lia. unfold checked_mul32, checked_add32, U32_MAX.
  replace (_ * _ <=? _) with true by lia. replace (_ + _ <=? _) with true by lia.
  replace (total <=? _) with false by lia.
  pose proof (reads_cluster_sectors 8 0 (32 + 2 * F + (k - 2) * 8)) as Hr.
  unfold region, cluster_lba. replace (l_data_start_lba layout + (k - 2) * 8) with (start + (32 + 2 * F + (k - 2) * 8) + 0) by lia.
  apply Hr; lia.
Qed.

(** An entry of the table, read from the disk. *)
Lemma reads_fat_entry k e :
  2 <= k < C + 2 -> v_fat v !! Z.to_nat k = Some e -> 0 <= e < 2 ^ 28 -> reads (read_fat_entry k) (Ok e).
Proof.
  intros Hk He Hb. pose proof (lo_inside _ _ Hlo). pose proof (lo_sectors _ _ Hlo). pose proof (lo_fat _ _ Hlo).
  pose proof (lo_covered _ _ Hlo). pose proof (fo_full _ _ Hv) as Hfull. pose proof (lo_clusters _ _ Hlo).
  unfold read_fat_entry. apply reads_get. intros i (d & -> & _). cbn [fi_bytes_per_sector fi_fat_start_sector].
  set (s := k * 4 / 512). assert (Hs : 0 <= s < F) by (unfold s; div_lia).
  assert (Ho : 0 <= k * 4 mod 512 <= 508) by div_lia.
  replace (512 <? k * 4 mod 512 + 4) with false by lia.
  unfold wrap. rewrite (Z.mod_small s), Z.mod_small by lia. eapply reads_bind; [apply reads_sector; lia|].
  replace (start + (32 + s)) with (start + 32 + s) by lia. rewrite (fo_table _ _ Hv) by done.
  assert (Hl : load (Z.to_nat (k * 4 mod 512)) 4 (take 512 (drop (Z.to_nat s * 512) (table_image layout (v_fat v))))
    = to_le 4 e).
  { rewrite <- (table_bytes_load (v_fat v) (Z.to_nat k) e (replicate (Z.to_nat F * 512 - 4 * length (v_fat v)) 0)) by done.
    fold (table_image layout (v_fat v)). unfold load. rewrite skipn_firstn_comm, firstn_firstn, drop_drop.
    f_equal; [lia|]. f_equal. unfold s. div_lia. }
  unfold le_at. rewrite Hl, from_to_le by lia.
  replace (Z.land e 0x0FFFFFFF) with e; [apply reads_ret|]. change 0x0FFFFFFF with (Z.ones 28).
  rewrite Z.land_ones by lia. by rewrite Z.mod_small.
Qed.

(** ** Chains *)

Lemma chain_head fat k n :
  0 <= k -> chain fat k (S n) -> fat !! Z.to_nat k = Some (if (n =? 0)%nat then FAT32_EOC else k + 1).
Proof.
  intros Hk Hc. specialize (Hc 0%nat ltac:(lia)). rewrite Nat.add_0_r, Z.add_0_r in Hc. rewrite Hc.
  by destruct n.
Qed.

Lemma chain_tail fat k n : 0 <= k -> chain fat k (S n) -> chain fat (k + 1) n.
Proof.
  intros Hk Hc i Hi. specialize (Hc (S i) ltac:(lia)).
  replace (Z.to_nat (k + 1) + i)%nat with (Z.to_nat k + S i)%nat by lia. rewrite Hc. f_equal.
  cbn [Nat.eqb]. case_if; [done|lia].
Qed.

(** The next cluster: none at the end of a chain. *)
Lemma reads_next {A} k n (stop : A) (m : Z -> M (Fat32Inner D) unit A) r :
  2 <= k -> k + Z.of_nat (S n) <= C + 2 -> chain (v_fat v) k (S n) ->
  (n = 0%nat -> r = Ok stop) -> (n <> 0%nat -> reads (m (k + 1)) r) ->
  reads (next <-- read_fat_entry k ;; if (RUNTIME_EOC <=? next) || (next <? 2) then retM stop else m next) r.
Proof.
  intros Hk Hn Hc H0' H1. pose proof (lo_clusters _ _ Hlo). pose proof (chain_head (v_fat v) k n ltac:(lia) Hc) as He.
  destruct (Nat.eqb_spec n 0) as [->|Hne].
  - eapply reads_bind; [eapply (reads_fat_entry k); [lia|done|unfold FAT32_EOC; lia]|].
    rewrite H0' by done. apply reads_ret.
  - eapply reads_bind; [eapply (reads_fat_entry k); [lia|done|lia]|].
    replace (_ || _) with false by (unfold RUNTIME_EOC; lia). by apply H1.
Qed.

Lemma region_cons k n : region layout v k (S n) = region layout v k 1 ++ region layout v (k + 1) n.
Proof.
  unfold region. replace (S n * 8)%nat with (1 * 8 + n * 8)%nat by lia. rewrite read_span_app. do 2 f_equal.
  unfold cluster_lba. lia.
Qed.

Lemma reads_chain n vis k :
  2 <= k -> k + Z.of_nat (S n) <= C + 2 -> chain (v_fat v) k (S n) -> (n < vis)%nat ->
  reads (read_chain vis k) (Ok (region layout v k (S n))).
Proof.
  revert vis k. induction n as [|n IH]; intros [|vis] k Hk Hn Hc Hv'; try lia; cbn [read_chain].
  - eapply reads_bind; [apply reads_cluster; lia|]. by eapply (reads_next _ 0).
  - eapply reads_bind; [apply reads_cluster; lia|]. eapply (reads_next _ (S n)); try done. intros _.
    eapply reads_bind; [apply IH; [lia|lia|by apply chain_tail; [lia|]|lia]|].
    rewrite (region_cons k (S n)). apply reads_ret.
Qed.

Lemma visits_enough i : mounts i -> C + 2 <= Z.of_nat (visits i).
Proof.
  intros (d & -> & _). pose proof (lo_inside _ _ Hlo). pose proof (lo_clusters _ _ Hlo). pose proof (lo_sectors _ _ Hlo).
  unfold visits, max_cluster_number, saturating_sub, U32_MAX.
  cbn [fi_partition_sectors fi_first_data_sector fi_sectors_per_cluster].
  assert (C <= (total - (32 + 2 * F)) / 8) by (apply Z.div_le_lower_bound; lia).
  replace (0 `max` (total - (32 + 2 * F))) with (total - (32 + 2 * F)) by lia. div_lia.
Qed.

Lemma reads_directory k n :
  placed 2 v k n -> reads (read_directory k) (Ok (parse_directory_entries (region layout v k n))).
Proof.
  intros (P1 & P2 & P3 & P4). pose proof (fo_next _ _ Hv). unfold read_directory. replace (k <? 2) with false by lia.
  destruct n as [|n]; [lia|]. apply reads_get. intros i Hi. pose proof (visits_enough i Hi).
  eapply reads_bind; [apply (reads_chain n); [lia|lia|done|lia]|]. apply reads_ret.
Qed.

(** ** Files *)

Lemma region_length k n : (exists i, mounts i) -> length (region layout v k n) = (n * CB)%nat.
Proof.
  intros [i Hi]. pose proof CB_sectors. unfold region. rewrite (read_span_length _ 512) by (by apply (mounts_blocks i)). lia.
Qed.

Lemma reads_file_loop n vis k rem :
  (exists i, mounts i) -> 2 <= k -> k + Z.of_nat (S n) <= C + 2 -> chain (v_fat v) k (S n) -> (n < vis)%nat ->
  (n * CB < rem <= S n * CB)%nat ->
  reads (read_file_loop vis k rem) (Ok (take rem (region layout v k (S n)))).
Proof.
  intros Hi. revert vis k rem. induction n as [|n IH]; intros [|vis] k rem Hk Hn Hc Hv' Hr; try lia;
    cbn [read_file_loop]; replace ((2 <=? k) && (0 <? rem)%nat) with true by lia;
    (eapply reads_bind; [apply reads_cluster; lia|]); rewrite length_take, region_length by done.
  - replace (_ =? 0)%nat with true by lia. apply reads_ret.
  - pose proof CB_sectors. replace (rem `min` (1 * CB))%nat with CB by lia. replace (rem - CB =? 0)%nat with false by lia.
    rewrite (take_ge (region layout v k 1)) by (rewrite region_length by done; lia).
    rewrite (region_cons k (S n)), take_app_ge by (rewrite region_length by done; lia).
    eapply (reads_next _ (S n)); try done. intros _.
    eapply reads_bind; [apply IH; [lia|lia|by apply chain_tail; [lia|]|lia|lia]|].
    rewrite region_length by done. rewrite Nat.mul_1_l. apply reads_ret.
Qed.

Lemma reads_file f e :
  done_file layout 2 v f -> files (v_builder v) !! f = Some e -> Z.of_nat (length (f_data e)) < 2 ^ 32 ->
  reads (read_file (entry_of (v_builder v) (ItemFile f))) (Ok (f_data e)).
Proof.
  intros (e' & He' & Hd) He Hsz. assert (e' = e) as -> by congruence.
  cbn [entry_of]. rewrite He. unfold read_file. cbn [fe_size fe_cluster]. unfold wrap. rewrite Z.mod_small by lia.
  destruct (f_first_cluster e) as [k|]; cbn [default from_option id]; [|rewrite Hd; apply reads_ret].
  destruct Hd as ((P1 & P2 & P3 & P4) & Hne & Hr). set (len := length (f_data e)) in *.
  assert (0 < len)%nat by (unfold len; destruct (f_data e); [done|cbn; lia]).
  replace (Z.of_nat len =? 0) with false by lia. replace (k <? 2) with false by lia.
  pose proof (fo_next _ _ Hv). pose proof (file_clusters_fit len). pose proof CB_sectors.
  assert (Hlast : ((file_clusters len - 1) * CB < len)%nat).
  { unfold file_clusters in *. pose proof (Nat.div_mod_eq (len + CB - 1) CB).
    pose proof (Nat.mod_upper_bound (len + CB - 1) CB). nia. }
  destruct (file_clusters len) as [|n] eqn:En; [lia|].
  apply reads_get. intros i Hi. pose proof (visits_enough i Hi).
  eapply reads_bind.
  { apply (reads_file_loop n); [by exists i|lia|lia|done|lia|lia]. }
  rewrite Hr, Nat2Z.id. unfold zero_fill, len. rewrite take_app_length, take_ge by lia. apply reads_ret.
Qed.
End read.

(** ** Looking up a path *)

(** The child of directory [i] that [c] names, in any case. *)
Definition named (S : Skel) (c : string) (it : DirItem) : Prop :=
  exists n, label S it = Some n /\ fold_case n = fold_case c.
#[export] Instance named_dec S c it : Decision (named S c it).
Proof.
  unfold named. destruct (label S it) as [n|].
  - destruct (decide (fold_case n = fold_case c)); [left; eauto|right; intros (m & [= <-] & ?); done].
  - right. by intros (m & ? & _).
Defined.

Definition child_named (S : Skel) (i : nat) (c : string) : option DirItem :=
  match sk_dirs S !! i with Some (_, es) => head (filter (named S c) es) | None => None end.

(** What a path names in the tree. *)
Fixpoint seek (S : Skel) (i : nat) (comps : list string) : option DirItem :=
  match comps with
  | [] => None
  | c :: rest =>
    match child_named S i c, rest with
    | None, _ => None
    | Some it, [] => Some it
    | Some (ItemDir x), _ => seek S x rest
    | Some (ItemFile _), _ => None
    end
  end.

Lemma head_filter_Some {A} (P : A -> Prop) `{!forall x, Decision (P x)} l x :
  head (filter P l) = Some x -> P x /\ x ∈ l.
Proof.
  intros Hh. assert (Hin : x ∈ filter P l) by (destruct (filter P l); [done|injection Hh as ->; left]).
  by apply list_elem_of_filter in Hin.
Qed.

Lemma child_named_kid S i c it : child_named S i c = Some it -> named S c it /\ exists j, kid S i j it.
Proof.
  unfold child_named. destruct (sk_dirs S !! i) as [[n es]|] eqn:E; [|done].
  intros [Hn [j Hj]%list_elem_of_lookup]%head_filter_Some. split; [done|]. exists j, n, es. done.
Qed.

Lemma kid_child_named S i j c it : tree_ok S -> kid S i j it -> named S c it -> child_named S i c = Some it.
Proof.
  intros Ht Hk Hn. destruct (child_named S i c) as [it'|] eqn:E.
  - apply child_named_kid in E as [(n' & Hl' & Hn') [j' Hk']]. destruct Hn as (n & Hl & Hn).
    assert (j = j') as <- by (apply (tk_names S Ht i j j' it it' n n'); congruence).
    destruct Hk as (m & es & H1 & H2), Hk' as (m' & es' & H1' & H2'). congruence.
  - destruct Hk as (m & es & Hd & Hj). unfold child_named in E. rewrite Hd in E.
    assert (Hin : it ∈ filter (named S c) es) by (apply list_elem_of_filter; eauto using list_elem_of_lookup_2).
    destruct (filter (named S c) es); [by apply not_elem_of_nil in Hin|done].
Qed.

Definition same_names (names comps : list string) : Prop := Forall2 (fun n c => fold_case n = fold_case c) names comps.

Lemma walk_seek S i names comps it :
  tree_ok S -> walk S i names it -> same_names names comps -> seek S i comps = Some it.
Proof.
  intros Ht Hw. revert comps. induction Hw as [i j n it Hk Hl|i j n c names it Hk Hl Hw IH]; intros comps Hs;
    inversion Hs as [|? c' ? rest Hc Hrest]; subst; cbn [seek].
  - rewrite (kid_child_named S i j c' it Ht Hk) by (by exists n). inversion Hrest; subst. by destruct it.
  - rewrite (kid_child_named S i j c' (ItemDir c) Ht Hk) by (by exists n).
    destruct rest as [|r rest]; [inversion Hrest; subst; inversion Hw|by apply IH].
Qed.

Lemma seek_walk S i comps it :
  seek S i comps = Some it -> exists names, walk S i names it /\ same_names names comps.
Proof.
  revert i. induction comps as [|c rest IH]; intros i Hs; cbn [seek] in Hs; [done|].
  destruct (child_named S i c) as [it'|] eqn:E; [|done].
  apply child_named_kid in E as [(n & Hl & Hn) [j Hj]].
  destruct rest as [|r rest].
  - assert (it' = it) as -> by (destruct it'; congruence). exists [n]. split; [by eapply walk_here|by repeat constructor].
  - destruct it' as [x|]; [|done]. destruct (IH x Hs) as (names & Hw & Hns).
    exists (n :: names). split; [by eapply walk_in|by constructor].
Qed.

(** No component is a dot name: those are entries of every directory, not of the tree. *)
Definition no_dots (comps : list string) : Prop := Forall (fun c => c <> "." /\ c <> "..") comps.

(** A name without letters is the only one with its folded form. *)
Lemma fold_case_plain n c :
  Forall (fun b => b < 65) (as_bytes n) -> fold_case n = fold_case c -> c = n.
Proof.
  intros Hn Hf. rewrite <- (of_as_bytes c), <- (of_as_bytes n). f_equal. unfold fold_case in Hf.
  revert Hf. generalize (as_bytes c) as cs. induction Hn as [|b bs Hb _ IH]; intros [|c' cs] Hf; try done.
  rewrite !fmap_cons in Hf. injection Hf as H1 H2. rewrite (IH cs H2). f_equal.
  unfold ascii_upper, in_range in H1. repeat case_match; lia.
Qed.

Section find.
Context {D : Type} `{SectorDev D} (layout : Fat32Layout) (blocks : nat) (Hlo : layout_ok layout blocks).
Context (v : View) (Hv : formatted layout v).
Abbreviation b := (v_builder v).
Abbreviation S := (skel b).
Abbreviation Reads := (reads (D := D) layout blocks v).

Lemma entry_of_label i j it : kid S i j it -> label S it = Some (fe_name (entry_of b it)).
Proof.
  intros Hk. destruct (kid_label _ _ _ _ (co_tree _ (fo_core _ _ Hv)) Hk) as [n Hn]. rewrite Hn.
  destruct it as [c|f]; [rewrite label_dir in Hn|rewrite label_file in Hn]; cbn [entry_of].
  - destruct (directories b !! c); [|done]. symmetry. exact Hn.
  - destruct (files b !! f); [|done]. symmetry. exact Hn.
Qed.

(** The first entry with the name is the entry of the child with the name. *)
Lemma find_named_entries es c k p :
  c <> "." -> c <> ".." -> Forall (fun it => label S it = Some (fe_name (entry_of b it))) es ->
  find_named (mkFatEntry "." k 0 0x10 :: mkFatEntry ".." p 0 0x10 :: (entry_of b <$> es)) c =
  entry_of b <$> head (filter (named S c) es).
Proof.
  intros H1 H2 Hes. unfold find_named.
  assert (Hd : forall n, Forall (fun b => b < 65) (as_bytes n) -> n <> c -> eq_ignore_ascii_case n c <> true).
  { intros n Hn Hne Hf%eq_ignore_ascii_case_spec%fold_case_plain; done. }
  rewrite !filter_cons_False by (cbn [fe_name]; apply Hd; [repeat constructor; done|done]).
  induction Hes as [|it es Hit _ IH]; [done|]. rewrite fmap_cons.
  destruct (decide (named S c it)) as [Hn|Hn].
  - rewrite filter_cons_True, (filter_cons_True (named S c)); [done|done|].
    destruct Hn as (n & Hl & Hf). rewrite Hit in Hl. apply eq_ignore_ascii_case_spec. congruence.
  - rewrite filter_cons_False, (filter_cons_False (named S c)); [done|done|].
    intros Hf%eq_ignore_ascii_case_spec. apply Hn. by exists (fe_name (entry_of b it)).
Qed.

Lemma find_in_dir i c :
  below S 0 i -> c <> "." -> c <> ".." ->
  exists k, d_cluster <$> directories b !! i = Some (Some k) /\ 2 <= k /\ exists entries,
    Reads (read_directory k) (Ok entries) /\ find_named entries c = entry_of b <$> child_named S i c.
Proof.
  intros Hi H1 H2. destruct (fo_done _ _ Hv) as [Hdirs _]. destruct (Hdirs i Hi) as (d & k & p & Hd & Hk & Hp & Hr).
  exists k. rewrite Hd. split; [cbn; by rewrite Hk|]. split; [apply Hp|]. eexists.
  split; [by apply reads_directory|]. rewrite Hr.
  assert (Hsk : sk_dirs S !! i = Some (d_name d, d_entries d)).
  { cbn [skel sk_dirs]. by rewrite list_lookup_fmap, Hd. }
  unfold child_named. rewrite Hsk. apply find_named_entries; [done|done|].
  apply Forall_lookup. intros j it Hj. apply (entry_of_label i j). by exists (d_name d), (d_entries d).
Qed.

(** Lookup in the volume is lookup in the tree. *)
Lemma reads_find comps i k :
  no_dots comps -> below S 0 i -> d_cluster <$> directories b !! i = Some (Some k) ->
  Reads (find_from k comps) (match seek S i comps with Some it => Ok (entry_of b it) | None => Err tt end).
Proof.
  intros Hc. revert i k. induction Hc as [|c rest [H1 H2] _ IH]; intros i k Hi Hk; cbn [find_from seek].
  { apply reads_fail. }
  destruct (find_in_dir i c Hi H1 H2) as (k' & Hk' & Hk2 & entries & Hr & Hf). rewrite Hk in Hk'. injection Hk' as <-.
  eapply reads_bind; [exact Hr|]. rewrite Hf. clear Hr Hf.
  destruct (child_named S i c) as [it|] eqn:E; [|apply reads_fail]. apply child_named_kid in E as [_ [j Hj]].
  destruct it as [x|f]; cbn [fmap option_fmap option_map].
  - destruct rest as [|r rest]; [apply reads_ret|].
    assert (Hx : below S 0 x) by (eapply rtc_r; [exact Hi|by exists j]).
    destruct (proj1 (fo_done _ _ Hv) x Hx) as (d & kx & p & Hd & Hkx & Hp & _).
    replace (is_dir (entry_of b (ItemDir x))) with true by (cbn [entry_of]; by rewrite Hd).
    apply reads_get. intros fi Hfi. replace (fe_cluster (entry_of b (ItemDir x))) with kx.
    2: { cbn [entry_of]. rewrite Hd. cbn [fe_cluster]. by rewrite Hkx. }
    replace (2 <=? kx) with true by (destruct Hp; lia). apply IH; [done|]. rewrite Hd. cbn. by rewrite Hkx.
  - destruct rest as [|r rest]; [apply reads_ret|].
    replace (is_dir (entry_of b (ItemFile f))) with false; [apply reads_fail|].
    cbn [entry_of]. destruct (files b !! f); done.
Qed.

Lemma reads_open path :
  no_dots (components path) -> components path <> [] ->
  Reads (fat_open path) (match seek S 0 (components path) with
    | Some it => let e := entry_of b it in Ok (mkVfsNode (fat_metadata e) e) | None => Err tt end).
Proof.
  intros Hd Hne. unfold fat_open, find_entry. destruct (fo_root _ _ Hv) as [d Hroot].
  assert (Hp : String.eqb path "/" = false).
  { apply String.eqb_neq. intros ->. by apply Hne. }
  intros i Hi. pose proof (reads_find (components path) 0 2 Hd (rtc_refl _ _)) as Hr. rewrite Hroot in Hr.
  destruct (Hr eq_refl i Hi) as (i' & Hi' & Hm'). pose proof Hi as (dv & -> & _).
  unfold bindM at 1 2, getM. cbn [fi_root_cluster]. rewrite Hp, Hi'.
  destruct (seek S 0 (components path)); by eexists.
Qed.
End find.
