(* ===== verification/Fat32Chain.v ===== *)
(** * FAT32 chains on any volume

    The bound on the clusters visited decides between the two kinds of chain: one that
    ends is read to its end, one that runs in a circle is refused. *)

From Stdlib Require Import ZifyBool.
From S2P Require Import Prelude Bytes Text Utf FatNames BlockDev BlockDevSpec Partition Vfs Fat32Mount Fat32Write.
Open Scope twilight_scope.

Record Geometry32 := mkGeometry32 { q_start : Z; q_sectors : Z; q_cluster : Z; q_fat : Z; q_data : Z }.

Section volume32.
Context {D : Type} `{SectorDev D} (g : Geometry32) (c : Z -> list Z) (blocks : nat).

(** The clusters that fit after the data start, and a table with an entry for each. *)
Definition q_clusters : Z := (q_sectors g - q_data g) / q_cluster g.

Record geometry32_ok : Prop := {
  q_start_ok : 0 <= q_start g;
  q_end_ok : q_start g + q_sectors g <= Z.of_nat blocks <= 2 ^ 32;
  q_cluster_ok : 1 <= q_cluster g < 256;
  q_fat_ok : 0 <= q_fat g /\ 512 * q_fat g + 4 * (q_clusters + 2) <= 512 * q_sectors g;
  q_data_ok : 1 <= q_data g < q_sectors g;
  q_sectors_ok : q_sectors g < 2 ^ 32;
}.
Context (Hg : geometry32_ok).

Definition mounted32 (i : Fat32Inner D) : Prop :=
  fi_start_lba i = q_start g /\ fi_partition_sectors i = q_sectors g /\ fi_bytes_per_sector i = 512 /\
  fi_sectors_per_cluster i = q_cluster g /\ fi_fat_start_sector i = q_fat g /\ fi_first_data_sector i = q_data g /\
  dev_ok (fi_device i) /\ dev_block_size (fi_device i) = 512%nat /\ dev_block_count (fi_device i) = blocks /\
  forall x, contents (fi_device i) x = c x.

Definition reads32 {A} (m : M (Fat32Inner D) unit A) (r : res unit A) : Prop :=
  forall i, mounted32 i -> exists i', m i = (r, i') /\ mounted32 i'.

Lemma reads32_ret {A} (a : A) : reads32 (retM a) (Ok a).
Proof. intros i Hi. by exists i. Qed.
Lemma reads32_bind {A B} (m : M (Fat32Inner D) unit A) (k : A -> M (Fat32Inner D) unit B) a r :
  reads32 m (Ok a) -> reads32 (k a) r -> reads32 (bindM m k) r.
Proof.
  intros Hm Hk i Hi. destruct (Hm i Hi) as (i1 & Hr1 & Hi1). destruct (Hk i1 Hi1) as (i2 & Hr2 & Hi2).
  exists i2. by rewrite (bindM_ok _ _ _ _ _ Hr1).
Qed.
Lemma reads32_stop {A B} (m : M (Fat32Inner D) unit A) (k : A -> M (Fat32Inner D) unit B) e :
  reads32 m (Err e) -> reads32 (bindM m k) (Err e).
Proof. intros Hm i Hi. destruct (Hm i Hi) as (i1 & Hr1 & Hi1). exists i1. unfold bindM. by rewrite Hr1. Qed.
Lemma reads32_get {B} (k : Fat32Inner D -> M (Fat32Inner D) unit B) r :
  (forall i, mounted32 i -> reads32 (k i) r) -> reads32 (bindM getM k) r.
Proof. intros Hk i Hi. by apply (Hk i Hi). Qed.

Lemma reads32_sector r : 0 <= r < q_sectors g -> reads32 (read_sector r) (Ok (c (q_start g + r))).
Proof.
  intros Hr i (I1 & I2 & I3 & I4 & I5 & I6 & Hok & Hbs & Hbc & Hc). pose proof (q_start_ok Hg). pose proof (q_end_ok Hg).
  unfold read_sector, bindM, getM. rewrite I1, I2. replace (q_sectors g <=? r) with false by lia.
  unfold checked_add32, U32_MAX. replace (_ <=? 4294967295) with true by lia. unfold focusM.
  assert (Ha : addressable (q_start g + r) 1) by (split; lia).
  destruct (law_sector_read (q_start g + r) (fi_device i) Hok) as (b & d' & Hd'); [done|lia|].
  pose proof (law_read (q_start g + r) (fi_device i) (Ok b) d' Hok Ha Hd') as (K1 & [K2 K3] & K4 & K5); [done|].
  rewrite Nat.mul_1_l, Hbs in Hd'. rewrite Hd'. specialize (K5 b eq_refl). cbn [read_span] in K5.
  rewrite app_nil_r, Hc in K5. rewrite K5. eexists. split; [done|].
  split_and!; cbn; try done; [congruence|congruence|]. intros x. by rewrite K4.
Qed.

Lemma reads32_run n idx first :
  0 <= idx -> 0 <= first -> first + idx + Z.of_nat n <= q_sectors g ->
  reads32 (read_cluster_sectors n idx first) (Ok (read_span c (q_start g + first + idx) n)).
Proof.
  pose proof (q_start_ok Hg). pose proof (q_end_ok Hg).
  revert idx. induction n as [|n IH]; intros idx Hi Hf Hn; cbn [read_cluster_sectors read_span]; [apply reads32_ret|].
  unfold wrap. rewrite Z.mod_small by lia. eapply reads32_bind; [apply reads32_sector; lia|].
  eapply reads32_bind; [apply IH; lia|]. rewrite !Z.add_assoc. apply reads32_ret.
Qed.

Definition in_data (k : Z) : Prop := 2 <= k < q_clusters + 2.
Definition cluster_data (k : Z) : list Z :=
  read_span c (q_start g + (q_data g + (k - 2) * q_cluster g)) (Z.to_nat (q_cluster g)).
Definition table_next (k : Z) : Z :=
  Z.land (le_at (Z.to_nat (k * 4 mod 512)) 4 (c (q_start g + (q_fat g + k * 4 / 512)))) 0x0FFFFFFF.

Lemma in_data_fits k : in_data k -> q_data g + (k - 2) * q_cluster g + q_cluster g <= q_sectors g.
Proof.
  intros [Hk1 Hk2]. pose proof (q_cluster_ok Hg). unfold q_clusters in Hk2.
  pose proof (Z.mul_div_le (q_sectors g - q_data g) (q_cluster g)). nia.
Qed.

Lemma reads32_cluster k : in_data k -> reads32 (read_cluster k) (Ok (cluster_data k)).
Proof.
  intros Hk. pose proof (in_data_fits k Hk) as Hfit. destruct Hk as [Hk1 Hk2].
  pose proof (q_start_ok Hg). pose proof (q_end_ok Hg). pose proof (q_cluster_ok Hg). pose proof (q_data_ok Hg).
  unfold read_cluster. apply reads32_get. intros i (I1 & I2 & I3 & I4 & I5 & I6 & _).
  unfold cluster_to_sector, checked_mul32, checked_add32, U32_MAX. rewrite I2, I4, I6.
  assert (0 <= (k - 2) * q_cluster g) by nia.
  replace (k <? 2) with false by lia. replace (_ * _ <=? 4294967295) with true by lia.
  replace (_ + _ <=? 4294967295) with true by lia. replace (q_sectors g <=? _) with false by lia.
  pose proof (reads32_run (Z.to_nat (q_cluster g)) 0 (q_data g + (k - 2) * q_cluster g)) as Hr.
  rewrite !Z.add_0_r in Hr. apply Hr; lia.
Qed.

Lemma reads32_next k : in_data k -> reads32 (read_fat_entry k) (Ok (table_next k)).
Proof.
  intros [Hk1 Hk2]. destruct (q_fat_ok Hg) as [Hf1 Hf2]. pose proof (q_start_ok Hg). pose proof (q_end_ok Hg).
  unfold read_fat_entry. apply reads32_get. intros i (I1 & I2 & I3 & I4 & I5 & I6 & _). rewrite I3, I5.
  assert (0 <= k * 4 / 512 /\ q_fat g + k * 4 / 512 < q_sectors g) by div_lia.
  replace (512 <? _) with false by div_lia. unfold wrap. rewrite (Z.mod_small (k * 4 / 512)), Z.mod_small by lia.
  eapply reads32_bind; [apply reads32_sector; lia|]. apply reads32_ret.
Qed.

(** ** Chains that end *)

Inductive chain32 : Z -> list Z -> Prop :=
| chain32_end k : in_data k -> RUNTIME_EOC <= table_next k \/ table_next k < 2 -> chain32 k [k]
| chain32_step k ks : in_data k -> 2 <= table_next k < RUNTIME_EOC -> chain32 (table_next k) ks -> chain32 k (k :: ks).

Lemma chain32_det k ks ks' : chain32 k ks -> chain32 k ks' -> ks = ks'.
Proof.
  intros H1. revert ks'. induction H1 as [k Hk Hn|k ks Hk Hn Hc IH]; intros ks' H2; inversion H2; subst; try lia; [done|].
  f_equal. by apply IH.
Qed.

Lemma chain32_suffix k ks x : chain32 k ks -> x ∈ ks -> exists l, chain32 x l /\ (length l <= length ks)%nat.
Proof.
  induction 1 as [k Hk Hn|k ks Hk Hn Hc IH]; intros Hx.
  - apply list_elem_of_singleton in Hx as ->. exists [k]. split; [by constructor|done].
  - apply elem_of_cons in Hx as [->|Hx]; [exists (k :: ks); split; [by apply chain32_step|done]|].
    destruct (IH Hx) as (l & Hl & Hlen). exists l. split; [done|cbn; lia].
Qed.

(** A chain that ends visits no cluster twice, so it has at most as many as the volume. *)
Lemma chain32_nodup k ks : chain32 k ks -> NoDup ks.
Proof.
  induction 1 as [k Hk Hn|k ks Hk Hn Hc IH]; [apply NoDup_singleton|]. constructor; [|done]. intros Hin.
  destruct (chain32_suffix _ _ _ Hc Hin) as (l & Hl & Hlen).
  rewrite (chain32_det k l (k :: ks) Hl) in Hlen by (by constructor). cbn in Hlen. lia.
Qed.

Lemma chain32_in_data k ks x : chain32 k ks -> x ∈ ks -> in_data x.
Proof.
  induction 1 as [k Hk Hn|k ks Hk Hn Hc IH]; intros Hx; [by apply list_elem_of_singleton in Hx as ->|].
  apply elem_of_cons in Hx as [->|Hx]; auto.
Qed.

Lemma chain32_length k ks : chain32 k ks -> Z.of_nat (length ks) <= q_clusters.
Proof.
  intros Hc. assert (Hk : in_data k) by (by inversion Hc).
  assert (Hsub : ks ⊆+ seqZ 2 q_clusters).
  { apply NoDup_submseteq; [by apply (chain32_nodup k)|]. intros x Hx. apply elem_of_seqZ.
    destruct (chain32_in_data _ _ _ Hc Hx). lia. }
  apply submseteq_length in Hsub. rewrite length_seqZ in Hsub. destruct Hk. lia.
Qed.

Lemma visits32 i : mounted32 i -> q_clusters + 2 = Z.of_nat (visits i).
Proof.
  intros (I1 & I2 & I3 & I4 & I5 & I6 & _). pose proof (q_start_ok Hg). pose proof (q_end_ok Hg).
  pose proof (q_data_ok Hg). pose proof (q_cluster_ok Hg).
  unfold visits, max_cluster_number, saturating_sub, U32_MAX. rewrite I2, I4, I6, Z.max_r by lia. fold q_clusters.
  assert (0 <= q_clusters) by (apply Z.div_pos; lia).
  assert (q_clusters <= q_sectors g - q_data g) by (apply Z.div_le_upper_bound; nia).
  pose proof (q_sectors_ok Hg). lia.
Qed.

Lemma reads32_chain k ks vis :
  chain32 k ks -> (length ks <= vis)%nat -> reads32 (read_chain vis k) (Ok (concat (cluster_data <$> ks))).
Proof.
  intros Hc. revert vis. induction Hc as [k Hk Hn|k ks Hk Hn Hc IH]; intros [|vis] Hv; cbn [length] in Hv; try lia;
    cbn [read_chain fmap list_fmap concat]; (eapply reads32_bind; [by apply reads32_cluster|]);
    (eapply reads32_bind; [by apply reads32_next|]).
  - replace (_ || _) with true by lia. rewrite app_nil_r. apply reads32_ret.
  - replace (_ || _) with false by lia. eapply reads32_bind; [apply IH; lia|]. apply reads32_ret.
Qed.

(** From [k] on the table never ends the chain. *)
Definition endless32 (k : Z) : Prop :=
  exists P : Z -> Prop, P k /\ forall x, P x -> in_data x /\ 2 <= table_next x < RUNTIME_EOC /\ P (table_next x).

Lemma reads32_endless k vis : endless32 k -> reads32 (read_chain vis k) (Err tt).
Proof.
  intros (P & Hk & HP). revert k Hk. induction vis as [|vis IH]; intros k Hk; cbn [read_chain].
  { intros i Hi. by exists i. }
  destruct (HP k Hk) as (Hv & Hn & Hnext). eapply reads32_bind; [by apply reads32_cluster|].
  eapply reads32_bind; [by apply reads32_next|]. replace (_ || _) with false by lia.
  apply reads32_stop. by apply IH.
Qed.
End volume32.

(** C33. Whatever is on the disk, a FAT32 directory whose chain ends, in any order of clusters, is read completely, and one whose chain runs in a circle is reported as an error: the bound on the clusters visited never cuts off a chain that ends. *)
Theorem fat32_directory_decided {D : Type} `{SectorDev D} (g : Geometry32) (c : Z -> list Z) (blocks : nat)
    (i : Fat32Inner D) (k : Z) (Hg : geometry32_ok g blocks) (Hi : mounted32 g c blocks i) :
  (forall ks, chain32 g c k ks ->
     fst (read_directory k i) = Ok (parse_directory_entries (concat (cluster_data g c <$> ks)))) /\
  (endless32 g c k -> fst (read_directory k i) = Err tt).
Proof.
  pose proof (visits32 g c blocks Hg i Hi) as Hvis. unfold read_directory. split.
  - intros ks Hc. assert (Hk : in_data g k) by (by inversion Hc). destruct Hk as [Hk _].
    replace (k <? 2) with false by lia. unfold bindM at 1, getM. pose proof (chain32_length g c k ks Hc) as Hl.
    destruct (reads32_chain g c blocks Hg k ks (visits i) Hc ltac:(lia) i Hi) as (i' & Hr & _).
    by rewrite (bindM_ok _ _ _ _ _ Hr).
  - intros He. pose proof He as (P & Hk & HP). destruct (HP k Hk) as [[Hk2 _] _].
    replace (k <? 2) with false by lia. unfold bindM at 1, getM.
    destruct (reads32_endless g c blocks Hg k (visits i) He i Hi) as (i' & Hr & _). unfold bindM. by rewrite Hr.
Qed.

(** A volume with a directory whose second cluster lies before its first, and one that is
    its own successor. *)
Definition scattered_table : list Z :=
  to_le 4 0x0FFFFFF8 ++ to_le 4 0x0FFFFFFF ++ to_le 4 0x0FFFFFFF ++ to_le 4 2 ++ to_le 4 4 ++ replicate 492 0.
Definition scattered_disk : IdealDisk :=
  mkIdeal 512 (Z.to_nat 100) (fun x => if x =? 1 then scattered_table else replicate 512 0).
Definition scattered_inner : Fat32Inner IdealDisk := mkInner scattered_disk 0 100 512 1 1 2 1 3 1 3.

Lemma fat32_directory_decided_witness :
  fst (read_directory 3 scattered_inner) = Ok [] /\ fst (read_directory 4 scattered_inner) = Err tt.
Proof.
  set (g := mkGeometry32 0 100 1 1 3). set (c := ideal_data scattered_disk).
  assert (Hg : geometry32_ok g (Z.to_nat 100)) by (constructor; unfold q_clusters; cbn [g q_start q_sectors q_cluster q_fat q_data]; rewrite ?Z.div_1_r; lia).
  assert (Hi : mounted32 g c (Z.to_nat 100) scattered_inner).
  { split_and!; try done. split; [cbn; lia|]. intros x. cbn [fi_device scattered_inner ideal_data scattered_disk ideal_bs].
    case_if; [done|apply length_replicate]. }
  split.
  - destruct (fat32_directory_decided g c (Z.to_nat 100) scattered_inner 3 Hg Hi) as [Hc _].
    rewrite (Hc [3; 2]); [vm_compute; reflexivity|].
    apply chain32_step; [split; vm_compute; congruence|split; vm_compute; congruence|]. change (table_next g c 3) with 2.
    apply chain32_end; [split; vm_compute; congruence|left; vm_compute; congruence].
  - apply (fat32_directory_decided g c (Z.to_nat 100) scattered_inner 4 Hg Hi).
    exists (fun x => x = 4). split; [done|]. intros x ->. split_and!; [split; vm_compute; congruence|vm_compute; congruence|done|done].
Defined.
