(* ===== verification/Fat32Spec.v ===== *)
(** * A FAT32 volume holds what was asked for

    Formatting a partition with a list of files and directories, mounting it and
    opening paths: every file reads back, every directory is there, nothing else is a
    file, and no block outside the partition changed. *)

From Stdlib Require Import ZifyBool.
From S2P Require Import Prelude Bytes Text Utf FatNames FatNamesSpec BlockDev BlockDevSpec Partition Vfs.
From S2P Require Import Fat32 Fat32Mount Fat32Size Fat32Tree Fat32Prepare Fat32Dir Fat32Write Fat32Volume.
From S2P Require Import Fat32Volume Fat32Image Fat32Read.
Open Scope twilight_scope.

(** ** The layout *)

Definition fat_sectors (T : Z) : Z := (T + 1000) / 1026.
Definition data_clusters (T : Z) : Z := (T - 32 - 2 * fat_sectors T) / 8.

Definition volume_layout (start T : Z) : Fat32Layout :=
  mkLayout start T (fat_sectors T) (start + 32 + 2 * fat_sectors T) (data_clusters T) CB.

(** Partitions that can be formatted. *)
Record formattable (blocks : nat) (start T : Z) : Prop := {
  fb_start : 0 <= start;
  fb_end : start + T <= Z.of_nat blocks <= 2 ^ 32;
  fb_size : T < 2 ^ 31;
  fb_big : big_enough T;
  fb_ends : T mod 1026 <> 24 /\ T mod 1026 <> 25;
}.

Lemma formattable_bounds blocks start T : formattable blocks start T -> 500000 <= T < 2 ^ 31.
Proof. intros [_ _ H1 H2 _]. unfold big_enough, first_guess in H2. div_lia. Qed.

Lemma volume_layout_ok blocks start T :
  formattable blocks start T ->
  layout_ok (volume_layout start T) blocks /\
  forall fuel, (8 <= fuel)%nat -> Fat32Layout_new fuel start T = Some (Ok (volume_layout start T)).
Proof.
  intros Hf. pose proof (formattable_bounds _ _ _ Hf) as HT. destruct Hf as [H1 H2 H3 H4 [H5 H6]].
  destruct (fat32_size_found T) as (Hc & Hcov & Hin & Hmin); [lia|done|done|done|].
  fold (fat_sectors T) in Hc, Hcov, Hin, Hmin. fold (data_clusters T) in Hc, Hcov, Hin, Hmin.
  assert (HF : 1 <= fat_sectors T) by (unfold fat_sectors; div_lia). split.
  - constructor; cbn [volume_layout l_cluster_size_bytes l_start_lba l_fat_size_sectors l_total_clusters
      l_data_start_lba l_total_sectors]; try done; try lia.
  - intros fuel Hfu. unfold Fat32Layout_new. rewrite Hc by done.
    unfold RESERVED_SECTORS, NUM_FATS, wrap. rewrite (Z.mod_small (start + 32)), (Z.mod_small (2 * _)), Z.mod_small by lia.
    done.
Qed.

(** ** Mounting *)

Section mount.
Context {D : Type} `{SectorDev D} (layout : Fat32Layout) (blocks : nat) (Hlo : layout_ok layout blocks).
Context (v : View) (Hv : formatted layout v).

Lemma le_at_load off n b z : load off n b = to_le n z -> 0 <= z < 256 ^ Z.of_nat n -> le_at off n b = z.
Proof. intros Hl Hz. unfold le_at. by rewrite Hl, from_to_le. Qed.

Lemma byte_at_single off b x : load off 1 b = [x] -> byte_at b off = x.
Proof.
  unfold load, byte_at. revert b. induction off as [|off IH]; intros [|y b] Hl; try done; cbn [drop nth] in *.
  - by injection Hl.
  - by apply IH.
Qed.

(** The checks on the boot sector pass. *)
Lemma inner_of_boot sectors (d : D) :
  0 < l_fat_size_sectors layout -> l_total_sectors layout <= sectors ->
  32 + 2 * l_fat_size_sectors layout < l_total_sectors layout < 2 ^ 32 ->
  inner_of (l_start_lba layout) sectors (boot_sector layout) d =
  Ok (mkInner d (l_start_lba layout) (l_total_sectors layout) 512 8 32 2 (l_fat_size_sectors layout) 2 32
        (32 + 2 * l_fat_size_sectors layout)).
Proof.
  intros HF Hs Ht. destruct (boot_sector_fields layout) as (_ & L1 & L2 & L3 & L4 & L5 & L6 & L7 & L8 & L9 & L10 & L11).
  revert L1 L2 L3 L4 L5 L6 L7 L8 L9 L10 L11. generalize (boot_sector layout) as s. intros.
  unfold inner_of.
  assert (byte_at s 510 = 0x55 /\ byte_at s 511 = 0xAA) as [-> ->].
  { split; apply byte_at_single; [apply (f_equal (take 1)) in L1|apply (f_equal (drop 1)) in L1];
      unfold load in *; [by rewrite firstn_firstn in L1|by rewrite skipn_firstn_comm, drop_drop in L1]. }
  rewrite (le_at_load 11 2 s 512 L2), (byte_at_single 13 s 8 L3), (le_at_load 14 2 s 32 L4), (byte_at_single 16 s 2 L5) by lia.
  rewrite (le_at_load 17 2 s 0 L6), (le_at_load 19 2 s 0 L7), (le_at_load 22 2 s 0 L8), (le_at_load 44 4 s 2 L11) by lia.
  rewrite (le_at_load 32 4 s _ L9), (le_at_load 36 4 s _ L10) by lia.
  cbn [Z.eqb Pos.eqb negb orb].
  replace (l_total_sectors layout =? 0) with false by lia. replace (l_fat_size_sectors layout =? 0) with false by lia.
  change (2 <? 2) with false. cbv match. unfold wrap. rewrite (Z.mod_small (2 * _)), Z.mod_small by lia.
  rewrite Z.min_r by lia. by replace (l_total_sectors layout <=? _) with false by lia.
Qed.

Lemma mount_formatted d sectors :
  dev_ok d -> dev_block_size d = 512%nat -> dev_block_count d = blocks -> (forall x, contents d x = v_disk v x) ->
  l_total_sectors layout <= sectors ->
  exists i, Fat32Inner_new (l_start_lba layout) sectors d = Ok i /\ mounts layout blocks v i.
Proof.
  intros Hok Hbs Hbc Hc Hs.
  pose proof (lo_start _ _ Hlo). pose proof (lo_end _ _ Hlo). pose proof (lo_inside _ _ Hlo). pose proof (lo_fat _ _ Hlo).
  pose proof (lo_clusters _ _ Hlo). pose proof (lo_sectors _ _ Hlo).
  assert (Ha : addressable (l_start_lba layout) 1) by (split; lia).
  destruct (law_sector_read (l_start_lba layout) d Hok) as (b & d' & Hd'); [done|lia|].
  pose proof (law_read (l_start_lba layout) d (Ok b) d' Hok Ha Hd') as (K1 & [K2 K3] & K4 & K5); [done|].
  rewrite Nat.mul_1_l, Hbs in Hd'. specialize (K5 b eq_refl). cbn [read_span] in K5.
  rewrite app_nil_r, Hc, (fo_boot _ _ Hv) in K5. subst b.
  eexists. split.
  - unfold Fat32Inner_new. replace (sectors =? 0) with false by lia. rewrite Hd'. apply inner_of_boot; lia.
  - exists d'. split_and!; [done|done|congruence|congruence|]. intros x. by rewrite K4.
Qed.
End mount.

(** ** Opening paths *)

(** [q] names the requested [path], in any case. *)
Definition same_path (q path : string) : Prop :=
  exists comps, normalize_path path = Ok comps /\ same_names comps (components q).

Lemma same_path_no_dots q comps path :
  normalize_path path = Ok comps -> same_names comps (components q) -> no_dots (components q).
Proof.
  intros Hn Hs. apply normalize_path_ok in Hn. induction Hs as [|n c ns cs Hc _ IH]; [constructor|].
  apply Forall_cons in Hn as [(_ & Hd1 & Hd2) Hn]. constructor; [|by apply IH].
  split; intros ->; [apply Hd1|apply Hd2]; (apply fold_case_plain; [repeat constructor; done|]); by symmetry.
Qed.

Section opens.
Context {D : Type} `{SectorDev D} (layout : Fat32Layout) (blocks : nat) (Hlo : layout_ok layout blocks).
Context (v : View) (Hv : formatted layout v) (b : FatBuilder) (es : list FatEntry).
Context (Hb : built b) (Hh : holds b es) (HS : skel (v_builder v) = skel b).
Context (i : Fat32Inner D) (Hi : mounts layout blocks v i).

Lemma open_item q it :
  no_dots (components q) -> seek (skel b) 0 (components q) = Some it ->
  exists i', fat_open q i = (Ok (mkVfsNode (fat_metadata (entry_of (v_builder v) it)) (entry_of (v_builder v) it)), i') /\
    mounts layout blocks v i'.
Proof.
  intros Hd Hs. assert (components q <> []) by (intros E; by rewrite E in Hs).
  pose proof (reads_open layout blocks Hlo v Hv q Hd) as Hr. rewrite HS, Hs in Hr. by apply Hr.
Qed.

Lemma walk_below S j names it : walk S j names it ->
  match it with ItemDir c => below S j c | ItemFile f => under S j f end.
Proof.
  induction 1 as [j l n it Hk Hl|j l n c names it Hk Hl Hw IH].
  - destruct it as [c|f]; [apply rtc_once; by exists l|]. exists j, l. split; [apply rtc_refl|done].
  - assert (Hc : below S j c) by (apply rtc_once; by exists l). destruct it as [c'|f].
    + by apply (below_trans S j c).
    + destruct IH as (x & m & Hx & Hm). exists x, m. split; [by apply (below_trans S j c)|done].
Qed.

(** A requested file opens as a file of its size and reads back. *)
Lemma open_requested_file path data q :
  FatFile path data ∈ es -> Z.of_nat (length data) < 2 ^ 32 -> same_path q path ->
  exists nd i', fat_open q i = (Ok nd, i') /\ file_type (metadata nd) = FileType.File /\
    size (metadata nd) = Z.of_nat (length data) /\
    forall lba len, 0 <= lba -> fst (fat_node_read (node nd) lba len i') = Ok (take len (drop (Z.to_nat lba) data)).
Proof.
  intros Hin Hlen (comps & Hn & Hs). destruct (ho_file _ _ Hh path data Hin) as (comps' & f & n & Hn' & Hw & Hf).
  assert (comps' = comps) as -> by congruence. pose proof (bt_tree _ Hb) as Ht.
  destruct (open_item q (ItemFile f)) as (i' & Ho & Hi').
  { by eapply same_path_no_dots. } { by apply (walk_seek _ _ comps). }
  pose proof (walk_below _ _ _ _ Hw) as Hu. cbn in Hu. pose proof (proj2 (fo_done _ _ Hv) f) as Hdf. rewrite HS in Hdf.
  specialize (Hdf Hu). rewrite <- HS in Hf. cbn [skel sk_files] in Hf. rewrite list_lookup_fmap in Hf.
  destruct (files (v_builder v) !! f) as [e|] eqn:He; [|done]. injection Hf as <- <-.
  pose proof (reads_file layout blocks Hlo v Hv f e Hdf He Hlen) as Hr. do 2 eexists. split; [exact Ho|].
  unfold fat_metadata, fat_node_read. cbn [metadata node entry_of] in *. rewrite He in *.
  cbn [file_type size fe_size fe_attr is_dir]. split_and!; [done|unfold wrap; apply Z.mod_small; lia|].
  intros lba len Hlba. destruct (Hr i' Hi') as (i2 & Hr2 & _).
  change (is_dir _) with false. cbv match. rewrite (bindM_ok _ _ _ _ _ Hr2). case_match; [|done].
  cbn [fst retM]. rewrite drop_ge by lia. by destruct len.
Qed.

Lemma open_requested_directory path q :
  FatDirectory path ∈ es -> same_path q path -> components q <> [] ->
  exists nd i', fat_open q i = (Ok nd, i') /\ file_type (metadata nd) = FileType.Dir.
Proof.
  intros Hin (comps & Hn & Hs) Hne. destruct (ho_dir _ _ Hh path Hin) as (comps' & k & Hn' & Hk).
  assert (comps' = comps) as -> by congruence.
  destruct Hk as [[-> _]|Hw]; [inversion Hs; congruence|].
  destruct (open_item q (ItemDir k)) as (i' & Ho & _).
  { by eapply same_path_no_dots. } { apply (walk_seek _ _ comps); [apply Hb|done|done]. }
  pose proof (walk_below _ _ _ _ Hw) as Hu. cbn in Hu. rewrite <- HS in Hu.
  destruct (proj1 (fo_done _ _ Hv) k Hu) as (d & kk & p & Hd & _). do 2 eexists. split; [exact Ho|].
  cbn [metadata entry_of]. by rewrite Hd.
Qed.

(** A file that opens was requested. *)
Lemma opened_was_requested q nd i' :
  no_dots (components q) -> fat_open q i = (Ok nd, i') -> file_type (metadata nd) = FileType.File ->
  exists path data, FatFile path data ∈ es /\ same_path q path.
Proof.
  intros Hd Ho Hty. destruct (decide (components q = [])) as [E|Hne].
  { exfalso. unfold fat_open, find_entry, bindM, getM in Ho. rewrite E in Ho.
    destruct (String.eqb q "/"); cbn in Ho; [|done]. injection Ho as <- _. done. }
  destruct (reads_open layout blocks Hlo v Hv q Hd Hne i Hi) as (i2 & Hr & _). rewrite Ho, HS in Hr.
  destruct (seek (skel b) 0 (components q)) as [it|] eqn:Es; [|done]. injection Hr as -> _.
  apply seek_walk in Es as (names & Hw & Hs). destruct it as [c|f].
  { exfalso. pose proof (walk_below _ _ _ _ Hw) as Hu. cbn in Hu. rewrite <- HS in Hu.
    destruct (proj1 (fo_done _ _ Hv) c Hu) as (d & kk & p & Hdd & _).
    cbn [metadata entry_of] in Hty. by rewrite Hdd in Hty. }
  pose proof (walk_below _ _ _ _ Hw) as (x & l & _ & Hk). apply (tk_file _ (bt_tree _ Hb)) in Hk.
  destruct (lookup_lt_is_Some_2 _ _ Hk) as [[n data] Hf].
  destruct (ho_back _ _ Hh names f n data Hw Hf) as (path & Hin & Hn). exists path, data. split; [done|by exists names].
Qed.
End opens.

(** ** The whole round trip *)

Lemma core_ok_prepared b b' :
  built b -> skel b' = skel b -> ready b' -> (forall x, below (skel b) 0 x -> sized CB b' x) -> core_ok b'.
Proof.
  intros Hb Hs [Hd Hf] Hz. constructor.
  - rewrite Hs. apply Hb.
  - intros i d Hi. apply (Forall_lookup_1 _ _ _ _ Hd Hi).
  - intros f e Hi. apply (Forall_lookup_1 _ _ _ _ Hf Hi).
  - intros x Hx. apply Hz. by rewrite <- Hs.
Qed.

Lemma format_runs {D : Type} `{SectorDev D} (fuel blocks : nat) start T entries b (d : D) :
  dev_ok d -> dev_block_size d = 512%nat -> dev_block_count d = blocks -> formattable blocks start T -> (8 <= fuel)%nat ->
  built b -> forM entries add_entry FatBuilder_new = (Ok tt, b) -> few_entries (skel b) ->
  tree_need (skel b) (length (directories b)) 0 < data_clusters T ->
  exists f v, format_partition fuel start T entries d = Some (Ok tt, fm_device f) /\
    shows blocks f v /\ formatted (volume_layout start T) v /\ skel (v_builder v) = skel b /\
    inside_only (volume_layout start T) (contents d) (v_disk v).
Proof.
  intros Hok Hbs Hbc Hf Hfuel Hb Hbuild Hfew Hroom. pose proof (formattable_bounds _ _ _ Hf) as HT.
  destruct (volume_layout_ok _ _ _ Hf) as [Hlo Hnew].
  destruct (prepare_ok CB b Hb Hfew) as (b' & Hp & Hs & Hr & Hz).
  pose proof (core_ok_prepared b b' Hb Hs Hr Hz) as Hcore.
  destruct (write_volume_runs (volume_layout start T) blocks Hlo b' (contents d) Hcore Hr) as (v & R & Hv & Hsv & Hin).
  { pose proof (skel_length _ _ Hs) as El. by rewrite Hs, El. }
  destruct (R (Formatter_new (volume_layout start T) d b')) as (f & Hrun & Hshow); [by split_and!|].
  exists f, v. split_and!; [|done|done|congruence|done].
  unfold format_partition, RESERVED_SECTORS. replace (T <? 32 + 10) with false by lia.
  rewrite Hbuild, Hnew by done. cbn [volume_layout l_cluster_size_bytes]. rewrite Hp.
  fold (volume_layout start T). by rewrite Hrun.
Qed.

(** C3. Formatting a partition of a reliable 512-byte-sector device as FAT32 with a list of files and directories that the builder accepts, then mounting it: every requested file opens under any capitalisation, with its size, and reads back at every offset; every requested directory opens as a directory; a path that opens as a file was requested; and no block outside the partition changed. The partition has at least 594,124 and fewer than 2^31 sectors, not 24 or 25 modulo 1026 of them, on a device of at most 2^32 blocks; each name is UTF-8 of at most 255 characters, each of one UTF-16 unit other than 0 and 0xFFFF; each file is shorter than 4 GiB, each directory has at most 1,000,000 entries, and all fit in the clusters; the mount is given at least the sectors formatted. *)
Theorem format_then_read {D : Type} `{SectorDev D} (fuel blocks : nat) (start T sectors : Z)
    (entries : list FatEntry) (b : FatBuilder) (d : D)
    (Hok : dev_ok d) (Hbs : dev_block_size d = 512%nat) (Hbc : dev_block_count d = blocks)
    (Hf : formattable blocks start T) (Hfuel : (8 <= fuel)%nat) (Hsectors : T <= sectors)
    (Hreq : Forall request_ok entries) (Hbuild : forM entries add_entry FatBuilder_new = (Ok tt, b))
    (Hfew : few_entries (skel b)) (Hroom : tree_need (skel b) (length (directories b)) 0 < data_clusters T)
    (Hsmall : forall path data, FatFile path data ∈ entries -> Z.of_nat (length data) < 2 ^ 32) :
  exists d', format_partition fuel start T entries d = Some (Ok tt, d') /\
  (forall x, ~ (start <= x < start + T) -> contents d' x = contents d x) /\
  exists i, Fat32Inner_new start sectors d' = Ok i /\
  (forall path data q, FatFile path data ∈ entries -> same_path q path ->
     exists nd i', fat_open q i = (Ok nd, i') /\ file_type (metadata nd) = FileType.File /\
     size (metadata nd) = Z.of_nat (length data) /\
     forall lba len, 0 <= lba -> fst (fat_node_read (node nd) lba len i') = Ok (take len (drop (Z.to_nat lba) data))) /\
  (forall path q, FatDirectory path ∈ entries -> same_path q path -> components q <> [] ->
     exists nd i', fat_open q i = (Ok nd, i') /\ file_type (metadata nd) = FileType.Dir) /\
  (forall q nd i', no_dots (components q) -> fat_open q i = (Ok nd, i') -> file_type (metadata nd) = FileType.File ->
     exists path data, FatFile path data ∈ entries /\ same_path q path).
Proof.
  destruct (add_entries_ok entries b Hreq Hbuild) as [Hb Hh].
  destruct (format_runs fuel blocks start T entries b d) as (f & v & Hrun & Hshow & Hv & Hs & Hin); [done..|].
  destruct Hshow as (S1 & S2 & S3 & _ & _ & _ & S4). destruct (volume_layout_ok _ _ _ Hf) as [Hlo _].
  exists (fm_device f). split; [done|]. split; [intros x Hx; rewrite S4; by apply Hin|].
  destruct (mount_formatted (volume_layout start T) blocks Hlo v Hv (fm_device f) sectors) as (i & Hi & Hm); [done..|].
  exists i. split; [done|]. split_and!.
  - intros path data q Hq Hsp. eapply open_requested_file; eauto.
  - intros path q Hq Hsp. eapply open_requested_directory; eauto.
  - intros q nd i' Hq Ho Hty. eapply opened_was_requested; eauto.
Qed.

Definition demo_entries : list FatEntry :=
  [FatDirectory "/EFI/BOOT"; FatFile "/EFI/BOOT/limine.conf" (as_bytes "timeout: 3"); FatFile "/kernel.elf" []].
Definition demo_disk : IdealDisk := mkIdeal 512 (Z.to_nat 600000) (fun _ => replicate 512 0).
Definition demo_builder : FatBuilder := snd (forM demo_entries add_entry FatBuilder_new).

Lemma format_then_read_witness :
  exists d' i nd i', format_partition 8 0 600000 demo_entries demo_disk = Some (Ok tt, d') /\
  Fat32Inner_new 0 600000 d' = Ok i /\ fat_open "/efi//boot/LIMINE.conf" i = (Ok nd, i') /\
  fst (fat_node_read (node nd) 9 4 i') = Ok (as_bytes "3").
Proof.
  destruct (format_then_read 8 (Z.to_nat 600000) 0 600000 600000 demo_entries demo_builder demo_disk)
    as (d' & Hd & _ & i & Hi & Hfile & _).
  - split; [cbn; lia|]. intros x. done.
  - done.
  - done.
  - split; [done| |done| |done].
    + rewrite Z2Nat.id by lia. lia.
    + unfold big_enough, first_guess. vm_compute. discriminate.
  - lia.
  - lia.
  - repeat constructor; intros comps [= <-]; vm_compute; repeat constructor; try discriminate.
  - vm_compute. reflexivity.
  - intros k n es Hk. unfold MAX_NAMES. do 3 (destruct k as [|k]; [vm_compute in Hk; injection Hk as <- <-; vm_compute; discriminate|]).
    vm_compute in Hk. discriminate.
  - vm_compute. reflexivity.
  - intros path data Hin%list_elem_of_In. destruct Hin as [[=]|[[= <- <-]|[[= <- <-]|[]]]]; vm_compute; reflexivity.
  - destruct (Hfile "/EFI/BOOT/limine.conf" (as_bytes "timeout: 3") "/efi//boot/LIMINE.conf") as (nd & i' & Ho & _ & _ & Hr).
    + right. left.
    + exists ["EFI"; "BOOT"; "limine.conf"]. split; [vm_compute; reflexivity|].
      assert (components "/efi//boot/LIMINE.conf" = ["efi"; "boot"; "LIMINE.conf"]) as -> by (vm_compute; reflexivity).
      do 3 (constructor; [vm_compute; reflexivity|]). constructor.
    + exists d', i, nd, i'. split_and!; [done|done|done|]. by rewrite Hr.
Defined.

(** The short name kept for the boot loader's file is not looked up among those already
    given: a directory can end up with two entries of the same short name. *)
Lemma forced_short_name_clashes :
  let request := [FatFile "/limine.sys" []; FatFile "/limine-bios.sys" []] in
  let b := snd (prepare CB (snd (forM request add_entry FatBuilder_new))) in
  f_short_name <$> files b = [Some (as_bytes "LIMINE  SYS"); Some (as_bytes "LIMINE  SYS")].
Proof. vm_compute. reflexivity. Qed.

(** A name with a character beyond the first 65536 is accepted and stored in two units; the
    mounted volume leaves both out, and the file is listed under what remains. *)
Lemma astral_character_lost :
  let name := of_bytes ([240; 159; 152; 128] ++ as_bytes ".txt") in
  fst (forM [FatFile (String.append "/" name) []] add_entry FatBuilder_new) = Ok tt /\
  foldr String.append "" (reverse (decode_lfn_part <$> build_lfn_entries name (as_bytes "_       TXT"))) = ".txt".
Proof. vm_compute. split; reflexivity. Qed.
