(* ===== verification/Fat16.v ===== *)
(** * FAT16 (src/kernel/twilight_kernel/src/sys/fs/fat16)

    A mounted FAT16 partition: the root directory lies in its own sectors, clusters
    and table entries are 16 bits wide.  The directory and file loops follow the
    chain without a bound, so they take fuel: [Running] is a loop that has not ended.
    Of the formatter the table size and the boot sector are modelled: it panics
    there, before it has written anything (see [fat16_format_panics]). *)

From S2P Require Import Prelude Bytes Text Utf FatNames BlockDev Partition Vfs.
Open Scope twilight_scope.

Definition RUNTIME_EOC16 : Z := 0xFFF8.

Inductive stop := Failed | Running.

Record Fat16Inner (D : Type) := mkInner16 {
  fi16_device : D; fi16_start_lba : Z; fi16_partition_sectors : Z; fi16_bytes_per_sector : Z;
  fi16_sectors_per_cluster : Z; fi16_reserved_sectors : Z; fi16_num_fats : Z; fi16_sectors_per_fat : Z;
  fi16_root_entry_count : Z; fi16_root_dir_sectors : Z; fi16_fat_start_sector : Z;
  fi16_root_dir_sector : Z; fi16_first_data_sector : Z;
}.
Arguments mkInner16 {D}.
Arguments fi16_device {D}.
Arguments fi16_start_lba {D}.
Arguments fi16_partition_sectors {D}.
Arguments fi16_bytes_per_sector {D}.
Arguments fi16_sectors_per_cluster {D}.
Arguments fi16_reserved_sectors {D}.
Arguments fi16_num_fats {D}.
Arguments fi16_sectors_per_fat {D}.
Arguments fi16_root_entry_count {D}.
Arguments fi16_root_dir_sectors {D}.
Arguments fi16_fat_start_sector {D}.
Arguments fi16_root_dir_sector {D}.
Arguments fi16_first_data_sector {D}.

(** ** Directory entries: the cluster has its low half only *)

Definition parse_short_entry16 (chunk : list Z) (lfn_parts : list string) : FatDirEntry :=
  let name := match lfn_parts with
              | [] => decode_short_name chunk
              | _ => trim_matches nul (foldr String.append "" (reverse lfn_parts))
              end in
  mkFatEntry name (from_le (load 26 2 chunk)) (from_le (load 28 4 chunk)) (nth 11 chunk 0).

Fixpoint parse_chunks16 (chunks : list (list Z)) (lfn_parts : list string) : list FatDirEntry :=
  match chunks with
  | [] => []
  | chunk :: chunks =>
    let first := nth 0 chunk 0 in
    if first =? 0x00 then []
    else if first =? 0xE5 then parse_chunks16 chunks []
    else
      let attr := nth 11 chunk 0 in
      if attr =? ATTR_LFN then parse_chunks16 chunks (lfn_parts ++ [decode_lfn_part chunk])
      else if negb (Z.land attr ATTR_VOLUME_ID =? 0) then parse_chunks16 chunks []
      else parse_short_entry16 chunk lfn_parts :: parse_chunks16 chunks []
  end.
Definition parse_directory_entries16 (buf : list Z) : list FatDirEntry := parse_chunks16 (chunks 32 buf) [].

Section mounted16.
Context {D : Type} `{!BlockDeviceIO D}.
Abbreviation FM := (M (Fat16Inner D) stop).

Definition u16_at (off : nat) (b : list Z) : Z := from_le (load off 2 b).
Definition u32_at (off : nat) (b : list Z) : Z := from_le (load off 4 b).

Definition Fat16Inner_new (start_lba sectors : Z) (device : D) : res string (Fat16Inner D) :=
  match dev_read start_lba 512 device with
  | (Err _, _) => Err "failed to read FAT16 boot sector"
  | (Panic, _) => Panic
  | (Ok bpb, device) =>
    let bytes_per_sector := u16_at 11 bpb in
    if negb (bytes_per_sector =? 512) then Err "unsupported FAT16 bytes/sector" else
    let sectors_per_cluster := byte_at bpb 13 in
    if sectors_per_cluster =? 0 then Err "invalid sectors per cluster" else
    let reserved_sectors := u16_at 14 bpb in
    let num_fats := byte_at bpb 16 in
    let root_entry_count := u16_at 17 bpb in
    let total_sectors_16 := u16_at 19 bpb in
    let sectors_per_fat := u16_at 22 bpb in
    let total_sectors_32 := u32_at 32 bpb in
    let total_sectors := if negb (total_sectors_16 =? 0) then total_sectors_16 else total_sectors_32 in
    if total_sectors =? 0 then Err "invalid FAT16 partition size" else
    let root_dir_sectors := (root_entry_count * 32 + (bytes_per_sector - 1)) / bytes_per_sector in
    let fat_start_sector := reserved_sectors in
    let root_dir_sector := fat_start_sector + num_fats * sectors_per_fat in
    let first_data_sector := root_dir_sector + root_dir_sectors in
    Ok (mkInner16 device start_lba (sectors `min` total_sectors) bytes_per_sector sectors_per_cluster
          reserved_sectors num_fats sectors_per_fat root_entry_count root_dir_sectors fat_start_sector
          root_dir_sector first_data_sector)
  end.

Definition set_fi16_device (d : D) (i : Fat16Inner D) : Fat16Inner D :=
  mkInner16 d (fi16_start_lba i) (fi16_partition_sectors i) (fi16_bytes_per_sector i)
    (fi16_sectors_per_cluster i) (fi16_reserved_sectors i) (fi16_num_fats i) (fi16_sectors_per_fat i)
    (fi16_root_entry_count i) (fi16_root_dir_sectors i) (fi16_fat_start_sector i)
    (fi16_root_dir_sector i) (fi16_first_data_sector i).

Definition read_sector (rel_sector : Z) : FM (list Z) :=
  i <-- getM ;;
  if fi16_partition_sectors i <=? rel_sector then failM Failed
  else focusM fi16_device set_fi16_device
         (map_errM (fun _ => Failed) (dev_read (u32 (fi16_start_lba i + rel_sector)) 512)).

Definition cluster_to_sector (i : Fat16Inner D) (cluster : Z) : Z :=
  u32 (fi16_first_data_sector i + u32 (u32 (cluster - 2) * fi16_sectors_per_cluster i)).

Definition cluster_size_bytes (i : Fat16Inner D) : nat :=
  Z.to_nat (fi16_bytes_per_sector i * fi16_sectors_per_cluster i).

(** [n] sectors from [sector] on. *)
Fixpoint read_run (n : nat) (idx first_sector : Z) : FM (list Z) :=
  match n with
  | O => retM []
  | S n => s <-- read_sector (u32 (first_sector + idx)) ;;
           rest <-- read_run n (idx + 1) first_sector ;; retM (s ++ rest)
  end.

Definition read_cluster (cluster : Z) : FM (list Z) :=
  i <-- getM ;;
  read_run (Z.to_nat (fi16_sectors_per_cluster i)) 0 (cluster_to_sector i cluster).

Definition read_fat_entry (cluster : Z) : FM Z :=
  i <-- getM ;;
  let fat_offset := cluster * 2 in
  let sector_offset := fat_offset / fi16_bytes_per_sector i in
  let byte_offset := fat_offset mod fi16_bytes_per_sector i in
  sector <-- read_sector (u32 (fi16_fat_start_sector i + sector_offset)) ;;
  retM (u16_at (Z.to_nat byte_offset) sector).

Fixpoint read_chain (fuel : nat) (current : Z) : FM (list Z) :=
  match fuel with
  | O => failM Running
  | S fuel =>
    data <-- read_cluster current ;;
    next <-- read_fat_entry current ;;
    if RUNTIME_EOC16 <=? next then retM data
    else if next <? 2 then retM data
    else rest <-- read_chain fuel next ;; retM (data ++ rest)
  end.

Definition read_directory (fuel : nat) (cluster : option Z) : FM (list FatDirEntry) :=
  raw <-- match cluster with
          | Some c => if 2 <=? c then read_chain fuel c
                      else i <-- getM ;; read_run (Z.to_nat (fi16_root_dir_sectors i)) 0 (fi16_root_dir_sector i)
          | None => i <-- getM ;; read_run (Z.to_nat (fi16_root_dir_sectors i)) 0 (fi16_root_dir_sector i)
          end ;;
  retM (parse_directory_entries16 raw).

Definition find_named (entries : list FatDirEntry) (component : string) : option FatDirEntry :=
  head (filter (fun item => eq_ignore_ascii_case (fe_name item) component = true) entries).

Definition cluster_of (entry : FatDirEntry) : option Z :=
  if fe_cluster entry =? 0 then None else Some (fe_cluster entry).

Fixpoint find_from (fuel : nat) (current_cluster : option Z) (parts : list string) : FM FatDirEntry :=
  match parts with
  | [] => failM Failed
  | component :: rest =>
    entries <-- read_directory fuel current_cluster ;;
    match find_named entries component with
    | None => failM Failed
    | Some entry =>
      match rest with
      | [] => retM entry
      | _ => if is_dir entry then find_from fuel (cluster_of entry) rest else failM Failed
      end
    end
  end.

Definition find_entry (fuel : nat) (path : string) : FM FatDirEntry :=
  if String.eqb path "/" then retM (mkFatEntry "/" 0 0 ATTR_DIRECTORY)
  else find_from fuel None (components path).

Definition list_directory (fuel : nat) (path : string) : FM (list FatDirEntry) :=
  if String.eqb path "/" then read_directory fuel None
  else entry <-- find_entry fuel path ;;
       if negb (is_dir entry) then failM Failed else read_directory fuel (cluster_of entry).

Fixpoint read_file_loop (fuel : nat) (current : Z) (remaining : nat) : FM (list Z) :=
  if (2 <=? current) && (0 <? remaining)%nat then
    match fuel with
    | O => failM Running
    | S fuel =>
      cluster_data <-- read_cluster current ;;
      let cluster_data := take remaining cluster_data in
      let remaining := (remaining - length cluster_data)%nat in
      if (remaining =? 0)%nat then retM cluster_data
      else next <-- read_fat_entry current ;;
           if RUNTIME_EOC16 <=? next then retM cluster_data
           else if next <? 2 then retM cluster_data
           else rest <-- read_file_loop fuel next remaining ;; retM (cluster_data ++ rest)
    end
  else retM [].

Definition read_file (fuel : nat) (entry : FatDirEntry) : FM (list Z) :=
  if fe_size entry =? 0 then retM []
  else if fe_cluster entry <? 2 then failM Failed
  else data <-- read_file_loop fuel (fe_cluster entry) (Z.to_nat (fe_size entry)) ;;
       retM (take (Z.to_nat (fe_size entry)) data).

(** [&content[lba..lba + len]] panics outside of [content]. *)
Definition node_read (fuel : nat) (entry : FatDirEntry) (lba : Z) (len : nat) : FM (list Z) :=
  if is_dir entry then failM Failed
  else content <-- read_file fuel entry ;;
       if Z.of_nat (length content) <? lba + Z.of_nat len then panicM
       else retM (load (Z.to_nat lba) len content).

Definition metadata_of (entry : FatDirEntry) : Metadata :=
  mkMetadata 0 0 0 (fe_name entry) (if is_dir entry then FileType.Dir else FileType.File)
    (if is_dir entry then 16877 else 33279) (fe_size entry) 0 0 0.
Definition open (fuel : nat) (path : string) : FM (VfsNode FatDirEntry) :=
  entry <-- find_entry fuel path ;; retM (mkVfsNode (metadata_of entry) entry).
Definition ls (fuel : nat) (path : string) : FM (list Metadata) :=
  entries <-- list_directory fuel path ;; retM (metadata_of <$> entries).
End mounted16.

(** ** Detection on a drive *)

Definition is_fat16_type (part_type : Z) : bool :=
  (part_type =? FAT16_CHS_PARTITION_TYPE) || (part_type =? FAT16_LBA_PARTITION_TYPE).

Section detect16.
Context {D : Type} `{!BlockDeviceIO D}.

Definition valid_boot_sector (sector : list Z) : bool :=
  if negb (byte_at sector 510 =? 0x55) || negb (byte_at sector 511 =? 0xAA) then false else
  if (u16_at 11 sector =? 0) || (byte_at sector 13 =? 0) || (u16_at 14 sector =? 0)
     || (byte_at sector 16 =? 0) || (u16_at 22 sector =? 0) || (u16_at 17 sector =? 0) then false else
  let total_16 := u16_at 19 sector in
  let total_sectors := if negb (total_16 =? 0) then total_16 else u32_at 32 sector in
  negb (total_sectors =? 0).

Definition validate_fat16_boot_sector (entry : PartitionEntry) : M D Empty_set bool :=
  if lba_start entry =? 0 then retM false
  else sector <-- okM (dev_read (lba_start entry) 512%nat) ;;
       match sector with
       | None => retM false
       | Some sector => retM (valid_boot_sector sector)
       end.

Fixpoint find_fat16 (entries : list PartitionEntry) : M D Empty_set (option PartitionEntry) :=
  match entries with
  | [] => retM None
  | entry :: entries =>
    if is_present entry && is_fat16_type (partition_type entry) then
      v <-- validate_fat16_boot_sector entry ;;
      if v : bool then retM (Some entry) else find_fat16 entries
    else find_fat16 entries
  end.

Definition detect_fat16_partition : M D Empty_set (option PartitionEntry) :=
  sector <-- okM (dev_read 0 512%nat) ;;
  match sector with
  | None => retM None
  | Some sector => if negb (has_signature sector) then retM None else find_fat16 (decode_entries sector)
  end.
End detect16.

(** ** The formatter up to its boot sector *)

Inductive FatError16 := InvalidPath16 | DuplicateEntry16 | DeviceError16 | NoSpace16.

Definition BYTES_PER_SECTOR16 : Z := 512.
Definition SECTORS_PER_CLUSTER16 : Z := 4.
Definition RESERVED_SECTORS16 : Z := 1.
Definition NUM_FATS16 : Z := 2.
Definition ROOT_DIR_ENTRIES : Z := 512.

(** One round of the loop: a result, or the size to try next. *)
Definition fat16_size_round (total_sectors root_dir_sectors fat_size : Z) : res FatError16 (Z * Z) + Z :=
  let taken := u32 (RESERVED_SECTORS16 + root_dir_sectors + u32 (NUM_FATS16 * fat_size)) in
  if total_sectors <? taken then inl (Err NoSpace16)
  else
    let total_clusters := (total_sectors - taken) / SECTORS_PER_CLUSTER16 in
    if (total_clusters <? 4085) || (65525 <=? total_clusters) then
      let fat_size := u32 (fat_size + 1) in
      if 0xFFFF <? fat_size then inl (Err NoSpace16) else inr fat_size
    else
      let fat_bytes := u32 (u32 (total_clusters + 2) * 2) in
      let required := u32 (fat_bytes + BYTES_PER_SECTOR16 - 1) / BYTES_PER_SECTOR16 in
      if required =? fat_size then inl (Ok (fat_size, total_clusters)) else inr required.

Fixpoint fat16_size_loop (fuel : nat) (total_sectors root_dir_sectors fat_size : Z)
    : option (res FatError16 (Z * Z)) :=
  match fuel with
  | O => None
  | S fuel =>
    match fat16_size_round total_sectors root_dir_sectors fat_size with
    | inl r => Some r
    | inr fat_size => fat16_size_loop fuel total_sectors root_dir_sectors fat_size
    end
  end.

Definition compute_fat16_size (fuel : nat) (total_sectors root_dir_sectors : Z) : option (res FatError16 (Z * Z)) :=
  fat16_size_loop fuel total_sectors root_dir_sectors 1.

Record Fat16Layout := mkLayout16 {
  l16_start_lba : Z; l16_total_sectors : Z; l16_fat_size_sectors : Z; l16_data_start_lba : Z;
  l16_root_dir_lba : Z; l16_root_dir_sectors : Z; l16_total_clusters : Z; l16_cluster_size_bytes : nat;
}.

Definition Fat16Layout_new (fuel : nat) (start_lba total_sectors : Z) : option (res FatError16 Fat16Layout) :=
  let root_dir_sectors := (ROOT_DIR_ENTRIES * 32 + (BYTES_PER_SECTOR16 - 1)) / BYTES_PER_SECTOR16 in
  match compute_fat16_size fuel total_sectors root_dir_sectors with
  | None => None
  | Some (Ok (fat_size, total_clusters)) =>
    let root_dir_lba := u32 (u32 (start_lba + RESERVED_SECTORS16) + u32 (NUM_FATS16 * fat_size)) in
    Some (Ok (mkLayout16 start_lba total_sectors fat_size (u32 (root_dir_lba + root_dir_sectors)) root_dir_lba
                root_dir_sectors total_clusters (Z.to_nat (BYTES_PER_SECTOR16 * SECTORS_PER_CLUSTER16))))
  | Some (Err e) => Some (Err e)
  | Some Panic => Some Panic
  end.

(** [sector[lo..hi].copy_from_slice(src)]: the lengths must agree. *)
Definition copy_slice (lo hi : nat) (src : list Z) (sector : list Z) : res FatError16 (list Z) :=
  if (length src =? hi - lo)%nat then Ok (store lo src sector) else Panic.
Definition then_copy (r : res FatError16 (list Z)) (lo hi : nat) (src : list Z) : res FatError16 (list Z) :=
  match r with Ok s => copy_slice lo hi src s | r => r end.

Definition boot_sector16 (l : Fat16Layout) : res FatError16 (list Z) :=
  let s := Ok (replicate 512 0) in
  let s := then_copy s 0 3 [0xEB; 0x3C; 0x90] in
  let s := then_copy s 3 11 (as_bytes "TWILIGHT") in
  let s := then_copy s 11 13 (to_le 2 BYTES_PER_SECTOR16) in
  let s := then_copy s 13 14 [SECTORS_PER_CLUSTER16] in
  let s := then_copy s 14 16 (to_le 2 RESERVED_SECTORS16) in
  let s := then_copy s 16 17 [NUM_FATS16] in
  let s := then_copy s 17 19 (to_le 2 ROOT_DIR_ENTRIES) in
  let s := then_copy s 19 21 (to_le 2 (u16 (l16_total_sectors l))) in
  let s := then_copy s 21 22 [0xF8] in
  let s := then_copy s 22 24 (to_le 4 (l16_fat_size_sectors l)) in
  let s := then_copy s 24 26 (to_le 2 0x20) in
  let s := then_copy s 26 28 (to_le 2 0x40) in
  let s := then_copy s 28 32 [0; 0; 0; 0] in
  let s := then_copy s 32 36 (to_le 4 (l16_total_sectors l)) in
  let s := then_copy s 36 40 [0; 0; 0; 0] in
  let s := then_copy s 40 43 [0x80; 0x00; 0x29] in
  let s := then_copy s 43 47 (to_le 4 0xDEADBEEF) in
  let s := then_copy s 47 58 (as_bytes "TWILIGHTOS ") in
  let s := then_copy s 58 66 (as_bytes "FAT16   ") in
  then_copy s 510 512 [0x55; 0xAA].
