(* ===== verification/Fat16Spec.v ===== *)
(** * FAT16: what a mounted volume gives, and where it does not

    Reading a file on any volume, along its chain; reads past the end, cyclic
    directories, and the partition sizes and the boot sector of the formatter. *)

From Stdlib Require Import ZifyBool.
From S2P Require Import Prelude Bytes Text Utf FatNames BlockDev BlockDevSpec Partition Vfs Fat32Write Fat16.
Open Scope twilight_scope.

(** ** A mounted volume with any contents *)

Record Geometry := mkGeometry { g_start : Z; g_sectors : Z; g_cluster : Z; g_fat : Z; g_data : Z }.

Section volume16.
Context {D : Type} `{SectorDev D} (g : Geometry) (c : Z -> list Z).

(** The partition lies on the device, the table inside the partition. *)
Record geometry_ok (blocks : nat) : Prop := {
  go_start : 0 <= g_start g;
  go_end : g_start g + g_sectors g <= Z.of_nat blocks <= 2 ^ 32;
  go_cluster : 1 <= g_cluster g < 256;
  go_fat : 0 <= g_fat g /\ g_fat g + 256 <= g_sectors g;
  go_data : 0 <= g_data g;
}.
Context (blocks : nat) (Hg : geometry_ok blocks).

Definition mounted16 (i : Fat16Inner D) : Prop :=
  fi16_start_lba i = g_start g /\ fi16_partition_sectors i = g_sectors g /\ fi16_bytes_per_sector i = 512 /\
  fi16_sectors_per_cluster i = g_cluster g /\ fi16_fat_start_sector i = g_fat g /\ fi16_first_data_sector i = g_data g /\
  dev_ok (fi16_device i) /\ dev_block_size (fi16_device i) = 512%nat /\ dev_block_count (fi16_device i) = blocks /\
  forall x, contents (fi16_device i) x = c x.

Definition reads16 {A} (m : M (Fat16Inner D) stop A) (r : res stop A) : Prop :=
  forall i, mounted16 i -> exists i', m i = (r, i') /\ mounted16 i'.

Lemma reads16_ret {A} (a : A) : reads16 (retM a) (Ok a).
Proof. intros i Hi. by exists i. Qed.
Lemma reads16_fail {A} e : reads16 (A := A) (failM e) (Err e).
Proof. intros i Hi. by exists i. Qed.
Lemma reads16_bind {A B} (m : M (Fat16Inner D) stop A) (k : A -> M (Fat16Inner D) stop B) a r :
  reads16 m (Ok a) -> reads16 (k a) r -> reads16 (bindM m k) r.
Proof.
  intros Hm Hk i Hi. destruct (Hm i Hi) as (i1 & Hr1 & Hi1). destruct (Hk i1 Hi1) as (i2 & Hr2 & Hi2).
  exists i2. by rewrite (bindM_ok _ _ _ _ _ Hr1).
Qed.
Lemma reads16_stop {A B} (m : M (Fat16Inner D) stop A) (k : A -> M (Fat16Inner D) stop B) e :
  reads16 m (Err e) -> reads16 (bindM m k) (Err e).
Proof. intros Hm i Hi. destruct (Hm i Hi) as (i1 & Hr1 & Hi1). exists i1. unfold bindM. by rewrite Hr1. Qed.
Lemma reads16_get {B} (k : Fat16Inner D -> M (Fat16Inner D) stop B) r :
  (forall i, mounted16 i -> reads16 (k i) r) -> reads16 (bindM getM k) r.
Proof. intros Hk i Hi. by apply (Hk i Hi). Qed.

Lemma reads16_sector r : 0 <= r < g_sectors g -> reads16 (read_sector r) (Ok (c (g_start g + r))).
Proof.
  intros Hr i (I1 & I2 & I3 & I4 & I5 & I6 & Hok & Hbs & Hbc & Hc). pose proof (go_start _ Hg). pose proof (go_end _ Hg).
  unfold read_sector, bindM, getM. rewrite I1, I2. replace (g_sectors g <=? r) with false by lia.
  unfold wrap. rewrite Z.mod_small by lia. unfold focusM, map_errM.
  assert (Ha : addressable (g_start g + r) 1) by (split; lia).
  destruct (law_sector_read (g_start g + r) (fi16_device i) Hok) as (b & d' & Hd'); [done|lia|].
  pose proof (law_read (g_start g + r) (fi16_device i) (Ok b) d' Hok Ha Hd') as (K1 & [K2 K3] & K4 & K5); [done|].
  rewrite Nat.mul_1_l, Hbs in Hd'. rewrite Hd'. specialize (K5 b eq_refl). cbn [read_span] in K5.
  rewrite app_nil_r, Hc in K5. rewrite K5. eexists. split; [done|].
  split_and!; cbn; try done; [congruence|congruence|]. intros x. by rewrite K4.
Qed.

Lemma reads16_run n idx first :
  0 <= idx -> 0 <= first -> first + idx + Z.of_nat n <= g_sectors g ->
  reads16 (read_run n idx first) (Ok (read_span c (g_start g + first + idx) n)).
Proof.
  pose proof (go_start _ Hg). pose proof (go_end _ Hg).
  revert idx. induction n as [|n IH]; intros idx Hi Hf Hn; cbn [read_run read_span]; [apply reads16_ret|].
  unfold wrap. rewrite Z.mod_small by lia. eapply reads16_bind; [apply reads16_sector; lia|].
  eapply reads16_bind; [apply IH; lia|]. rewrite !Z.add_assoc. apply reads16_ret.
Qed.

(** ** Clusters and chains *)

Definition in_volume (k : Z) : Prop :=
  2 <= k < 65536 /\ g_data g + (k - 2) * g_cluster g + g_cluster g <= g_sectors g.
Definition cluster_bytes (k : Z) : list Z :=
  read_span c (g_start g + (g_data g + (k - 2) * g_cluster g)) (Z.to_nat (g_cluster g)).
Definition next_cluster (k : Z) : Z :=
  u16_at (Z.to_nat (k * 2 mod 512)) (c (g_start g + (g_fat g + k * 2 / 512))).

Lemma reads16_cluster k : in_volume k -> reads16 (read_cluster k) (Ok (cluster_bytes k)).
Proof.
  intros [Hk Hin]. pose proof (go_start _ Hg). pose proof (go_end _ Hg). pose proof (go_cluster _ Hg). pose proof (go_data _ Hg).
  unfold read_cluster. apply reads16_get. intros i (I1 & I2 & I3 & I4 & I5 & I6 & _).
  unfold cluster_to_sector. rewrite I4, I6. unfold wrap.
  rewrite (Z.mod_small (k - 2)), (Z.mod_small ((k - 2) * _)), Z.mod_small by nia.
  pose proof (reads16_run (Z.to_nat (g_cluster g)) 0 (g_data g + (k - 2) * g_cluster g)) as Hr.
  rewrite !Z.add_0_r in Hr. apply Hr; nia.
Qed.

Lemma reads16_next k : in_volume k -> reads16 (read_fat_entry k) (Ok (next_cluster k)).
Proof.
  intros [Hk _]. pose proof (go_fat _ Hg) as [Hf1 Hf2]. pose proof (go_start _ Hg). pose proof (go_end _ Hg).
  unfold read_fat_entry. apply reads16_get. intros i (I1 & I2 & I3 & I4 & I5 & I6 & _). rewrite I3, I5.
  assert (0 <= k * 2 / 512 < 256) by div_lia. unfold wrap. rewrite Z.mod_small by lia.
  eapply reads16_bind; [apply reads16_sector; lia|]. apply reads16_ret.
Qed.

(** The clusters from [k] to the end of its chain. *)
Inductive chain16 : Z -> list Z -> Prop :=
| chain16_end k : in_volume k -> RUNTIME_EOC16 <= next_cluster k \/ next_cluster k < 2 -> chain16 k [k]
| chain16_step k ks : in_volume k -> 2 <= next_cluster k < RUNTIME_EOC16 -> chain16 (next_cluster k) ks ->
    chain16 k (k :: ks).

Lemma reads16_chain k ks fuel :
  chain16 k ks -> (length ks <= fuel)%nat -> reads16 (read_chain fuel k) (Ok (concat (cluster_bytes <$> ks))).
Proof.
  intros Hc. revert fuel. induction Hc as [k Hk Hn|k ks Hk Hn Hc IH]; intros [|fuel] Hf; cbn [length] in Hf; try lia;
    cbn [read_chain fmap list_fmap concat]; (eapply reads16_bind; [by apply reads16_cluster|]);
    (eapply reads16_bind; [by apply reads16_next|]).
  - rewrite app_nil_r. destruct Hn as [Hn|Hn].
    + replace (RUNTIME_EOC16 <=? _) with true by lia. apply reads16_ret.
    + replace (RUNTIME_EOC16 <=? _) with false by (unfold RUNTIME_EOC16; lia).
      replace (_ <? 2) with true by lia. apply reads16_ret.
  - replace (RUNTIME_EOC16 <=? _) with false by lia. replace (_ <? 2) with false by lia.
    eapply reads16_bind; [apply IH; lia|]. apply reads16_ret.
Qed.

Lemma cluster_bytes_length k : (exists i, mounted16 i) -> length (cluster_bytes k) = (Z.to_nat (g_cluster g) * 512)%nat.
Proof.
  intros [i (_ & _ & _ & _ & _ & _ & Hok & Hbs & _ & Hc)]. unfold cluster_bytes.
  apply read_span_length. intros x. rewrite <- Hc, <- Hbs. by apply law_contents.
Qed.

Lemma reads16_file_loop k ks fuel rem :
  (exists i, mounted16 i) -> chain16 k ks -> (length ks <= fuel)%nat -> (0 < rem)%nat ->
  reads16 (read_file_loop fuel k rem) (Ok (take rem (concat (cluster_bytes <$> ks)))).
Proof.
  intros Hm Hc. revert fuel rem.
  induction Hc as [k Hk Hn|k ks Hk Hn Hc IH]; intros [|fuel] rem Hf Hr; cbn [length] in Hf; try lia;
    cbn [read_file_loop fmap list_fmap concat]; pose proof Hk as [Hk2 _];
    replace ((2 <=? k) && (0 <? rem)%nat) with true by lia;
    (eapply reads16_bind; [by apply reads16_cluster|]); rewrite length_take.
  - rewrite app_nil_r. case_if; [apply reads16_ret|]. eapply reads16_bind; [by apply reads16_next|].
    destruct Hn as [Hn|Hn].
    + replace (RUNTIME_EOC16 <=? _) with true by lia. apply reads16_ret.
    + replace (RUNTIME_EOC16 <=? _) with false by (unfold RUNTIME_EOC16; lia).
      replace (_ <? 2) with true by lia. apply reads16_ret.
  - case_if.
    + rewrite take_app_le by lia. apply reads16_ret.
    + eapply reads16_bind; [by apply reads16_next|].
      replace (RUNTIME_EOC16 <=? _) with false by lia. replace (_ <? 2) with false by lia.
      eapply reads16_bind; [apply IH; lia|]. rewrite take_app, (take_ge (cluster_bytes k)) by lia.
      replace (rem `min` length (cluster_bytes k))%nat with (length (cluster_bytes k)) by lia. apply reads16_ret.
Qed.
End volume16.

(** ** Reading a file *)

(** On any FAT16 volume, a read of a file inside its size returns the bytes of its clusters, and a read that reaches past the end of the file panics. *)
Theorem fat16_node_read_decided {D : Type} `{SectorDev D} (g : Geometry) (c : Z -> list Z) (blocks fuel : nat)
    (i : Fat16Inner D) (e : FatDirEntry) (ks : list Z) (lba : Z) (len : nat)
    (Hg : geometry_ok g blocks) (Hi : mounted16 g c blocks i) (He : is_dir e = false) (Hs : 0 < fe_size e)
    (Hc : chain16 g c (fe_cluster e) ks) (Hf : (length ks <= fuel)%nat)
    (Hfit : fe_size e <= Z.of_nat (length ks) * g_cluster g * 512) (Hlba : 0 <= lba) :
  fst (node_read fuel e lba len i) =
  if lba + Z.of_nat len <=? fe_size e
  then Ok (load (Z.to_nat lba) len (take (Z.to_nat (fe_size e)) (concat (cluster_bytes g c <$> ks))))
  else Panic.
Proof.
  set (data := concat (cluster_bytes g c <$> ks)).
  assert (Hlen : length data = (length ks * (Z.to_nat (g_cluster g) * 512))%nat).
  { unfold data. clear -Hi. induction ks as [|k ks IH]; [done|]. cbn [fmap list_fmap concat length].
    rewrite length_app, IH, (cluster_bytes_length g c blocks) by (by exists i). lia. }
  assert (Hk : 2 <= fe_cluster e) by (inversion Hc as [? [? _]|? ? [? _]]; lia).
  pose proof (go_cluster _ _ Hg).
  unfold node_read, read_file. rewrite He. replace (fe_size e =? 0) with false by lia.
  replace (fe_cluster e <? 2) with false by lia.
  destruct (reads16_file_loop g c blocks Hg (fe_cluster e) ks fuel (Z.to_nat (fe_size e))) with (i := i)
    as (i' & Hr & _); [by exists i|done|done|lia|done|].
  unfold bindM. rewrite Hr. fold data. unfold retM at 1. rewrite take_take, Nat.min_id, length_take.
  replace (Z.of_nat (Z.to_nat (fe_size e) `min` length data)) with (fe_size e) by (rewrite Hlen; nia).
  replace (lba + Z.of_nat len <=? fe_size e) with (negb (fe_size e <? lba + Z.of_nat len)) by lia.
  by destruct (_ <? _).
Qed.

(** ** A volume with one file of two clusters and a directory that is its own successor *)

Definition demo_table : list Z := to_le 2 0xFFF8 ++ to_le 2 0xFFFF ++ to_le 2 3 ++ to_le 2 0xFFFF ++ to_le 2 4 ++ replicate 502 0.
Definition demo_disk16 : IdealDisk :=
  mkIdeal 512 (Z.to_nat 1000) (fun x => if x =? 1 then demo_table else replicate 512 (x mod 256)).
Definition demo_geometry : Geometry := mkGeometry 0 1000 1 1 289.
Definition demo_inner : Fat16Inner IdealDisk := mkInner16 demo_disk16 0 1000 512 1 1 1 256 512 32 1 257 289.

Lemma demo_geometry_ok : geometry_ok demo_geometry (Z.to_nat 1000).
Proof. constructor; cbn; lia. Qed.

Lemma demo_mounted16 : mounted16 demo_geometry (ideal_data demo_disk16) (Z.to_nat 1000) demo_inner.
Proof.
  split_and!; try done. split; [cbn; lia|]. intros x. cbn [fi16_device demo_inner ideal_data demo_disk16 ideal_bs].
  case_if; [done|apply length_replicate].
Qed.

Lemma fat16_node_read_decided_witness :
  let e := mkFatEntry "log" 2 600 0x20 in
  fst (node_read 2 e 510 4 demo_inner) = Ok [289 mod 256; 289 mod 256; 290 mod 256; 290 mod 256] /\
  fst (node_read 2 e 598 4 demo_inner) = Panic.
Proof.
  assert (Hc : chain16 demo_geometry (ideal_data demo_disk16) 2 [2; 3]).
  { apply chain16_step; [split; cbn; lia|split; vm_compute; congruence|].
    change (next_cluster _ _ _) with 3. apply chain16_end; [split; cbn; lia|left; vm_compute; congruence]. }
  pose proof (fun lba len H => fat16_node_read_decided demo_geometry (ideal_data demo_disk16) (Z.to_nat 1000) 2 demo_inner
    (mkFatEntry "log" 2 600 0x20) [2; 3] lba len demo_geometry_ok demo_mounted16 eq_refl eq_refl Hc (le_n _)
    ltac:(cbn; lia) H) as Hr.
  split.
  - rewrite Hr by lia. vm_compute. reflexivity.
  - rewrite Hr by lia. reflexivity.
Defined.

(** ** Cyclic directories *)

(** From [k] on the table never ends the chain. *)
Definition endless (g : Geometry) (c : Z -> list Z) (k : Z) : Prop :=
  exists P : Z -> Prop, P k /\ forall x, P x ->
    in_volume g x /\ 2 <= next_cluster g c x < RUNTIME_EOC16 /\ P (next_cluster g c x).

(** A directory on a cyclic chain is read for ever: no number of steps is enough. *)
Theorem fat16_cyclic_directory_hangs {D : Type} `{SectorDev D} (g : Geometry) (c : Z -> list Z) (blocks : nat)
    (i : Fat16Inner D) (k : Z)
    (Hg : geometry_ok g blocks) (Hi : mounted16 g c blocks i) (Hk : endless g c k) :
  forall fuel, fst (read_directory fuel (Some k) i) = Err Running.
Proof.
  intros fuel. assert (Hr : reads16 g c blocks (read_chain fuel k) (Err Running)).
  { destruct Hk as (P & Hk & HP). revert k Hk. induction fuel as [|fuel IH]; intros k Hk; cbn [read_chain].
    { apply reads16_fail. }
    destruct (HP k Hk) as (Hv & Hn & Hnext). eapply reads16_bind; [by apply reads16_cluster|].
    eapply reads16_bind; [by apply reads16_next|]. replace (RUNTIME_EOC16 <=? _) with false by lia.
    replace (_ <? 2) with false by lia. apply reads16_stop. by apply IH. }
  destruct Hk as (P & Hk & HP). destruct (HP k Hk) as [[Hk2 _] _].
  unfold read_directory. replace (2 <=? k) with true by lia.
  destruct (Hr i Hi) as (i' & Hi' & _). unfold bindM. by rewrite Hi'.
Qed.

Lemma fat16_cyclic_directory_hangs_witness : forall fuel, fst (read_directory fuel (Some 4) demo_inner) = Err Running.
Proof.
  apply (fat16_cyclic_directory_hangs demo_geometry (ideal_data demo_disk16) (Z.to_nat 1000)).
  - exact demo_geometry_ok.
  - exact demo_mounted16.
  - exists (fun x => x = 4). split; [done|]. intros x ->. split_and!; [split; cbn; lia|vm_compute; congruence|done|done].
Defined.

(** ** The formatter *)

(** The 16-bit table size is copied from a 32-bit field: the boot sector always panics. *)
Lemma fat16_format_panics l : boot_sector16 l = Panic.
Proof. reflexivity. Qed.

(** On every partition of 262645 to 393202 sectors the size of the table is sought for
    ever: growing the table brings the clusters below 65525, and the table needed for
    them is small enough to bring them back above. *)
Theorem fat16_size_hangs (T : Z) (HT : 262645 <= T < 393203) :
  forall fuel, compute_fat16_size fuel T 32 = None.
Proof.
  set (Fmax := (T - 33 - 4 * 65525) / 2 + 1).
  assert (Hmax : 256 < Fmax <= 65535) by (unfold Fmax; div_lia).
  assert (Hloop : forall fuel F, 1 <= F <= Fmax -> fat16_size_loop fuel T 32 F = None).
  { induction fuel as [|fuel IH]; intros F HF; cbn [fat16_size_loop]; [done|].
    unfold fat16_size_round, RESERVED_SECTORS16, NUM_FATS16, SECTORS_PER_CLUSTER16, BYTES_PER_SECTOR16.
    assert (u32 (1 + 32 + u32 (2 * F)) = 33 + 2 * F) as -> by (unfold wrap; rewrite (Z.mod_small (2 * F)), Z.mod_small by lia; lia).
    replace (T <? 33 + 2 * F) with false by lia.
    destruct (decide (F = Fmax)) as [->|Hne].
    - replace ((T - (33 + 2 * Fmax)) / 4) with 65524 by (unfold Fmax; div_lia).
      change ((65524 <? 4085) || _) with false. cbv match zeta.
      replace (u32 (u32 (u32 (65524 + 2) * 2) + 512 - 1) / 512) with 256 by reflexivity.
      replace (256 =? Fmax) with false by lia. apply IH. lia.
    - replace (65525 <=? (T - (33 + 2 * F)) / 4) with true by (unfold Fmax in *; div_lia).
      rewrite orb_true_r. cbv zeta. unfold wrap. rewrite Z.mod_small by lia.
      replace (0xFFFF <? F + 1) with false by lia. apply IH. lia. }
  intros fuel. apply Hloop. lia.
Qed.

Lemma fat16_size_hangs_witness : forall fuel, compute_fat16_size fuel 300000 32 = None.
Proof. apply (fat16_size_hangs 300000). lia. Defined.
