(* ===== verification/Cpio.v ===== *)
(** * The cpio reader (sys/fs/ram_fs/initramfs.rs)

    The "newc" archive iterator.  A position is a [usize]; what [next] returns is
    [None] at the end, or an entry or an error together with the new position.
    [encode_archive] is a writer of the same format, for the round trip. *)

From Stdlib Require Import ZifyBool.
From S2P Require Import Prelude Bytes Text.

Record CpioNewCHeader := mkHeader {
  c_magic : list Z; c_ino : list Z; c_mode : list Z; c_uid : list Z; c_gid : list Z;
  c_nlink : list Z; c_mtime : list Z; c_filesize : list Z; c_devmajor : list Z;
  c_devminor : list Z; c_rdevmajor : list Z; c_rdevminor : list Z; c_namesize : list Z;
  c_check : list Z;
}.

Definition SIZE : nat := 110.

Definition CpioNewCHeader_from_bytes (buf : list Z) : option CpioNewCHeader :=
  if (length buf <? SIZE)%nat then None
  else
    let read8 i := load (6 + 8 * i) 8 buf in
    Some (mkHeader (load 0 6 buf) (read8 0%nat) (read8 1%nat) (read8 2%nat) (read8 3%nat)
      (read8 4%nat) (read8 5%nat) (read8 6%nat) (read8 7%nat) (read8 8%nat) (read8 9%nat)
      (read8 10%nat) (read8 11%nat) (read8 12%nat)).

(** The value of a hexadecimal digit. *)
Definition hex_digit (c : Z) : option Z :=
  if in_range 48 57 c then Some (c - 48)
  else if in_range 97 102 c then Some (c - 97 + 10)
  else if in_range 65 70 c then Some (c - 65 + 10)
  else None.

(** [checked_shl(4)] only fails for a shift of 64 or more. *)
Fixpoint hex_loop (acc : Z) (b : list Z) : option Z :=
  match b with
  | [] => Some acc
  | c :: b => match hex_digit c with
              | Some v => hex_loop (Z.lor (u64 (Z.shiftl acc 4)) v) b
              | None => None
              end
  end.
Definition hex_to_u64 (b : list Z) : option Z := hex_loop 0 b.

Definition namesize (h : CpioNewCHeader) : option Z := hex_to_u64 (c_namesize h).
Definition filesize (h : CpioNewCHeader) : option Z := hex_to_u64 (c_filesize h).
Definition mode (h : CpioNewCHeader) : option Z := hex_to_u64 (c_mode h).

(** [0o170000] and the file types it selects. *)
Definition TYPE_MASK : Z := 61440.
Definition TYPE_REG : Z := 32768.
Definition TYPE_DIR : Z := 16384.
Definition TYPE_LNK : Z := 40960.

Definition has_type (t : Z) (h : CpioNewCHeader) : bool :=
  match mode h with Some m => Z.land m TYPE_MASK =? t | None => false end.
Definition is_regular_file : CpioNewCHeader -> bool := has_type TYPE_REG.
Definition is_directory : CpioNewCHeader -> bool := has_type TYPE_DIR.
Definition is_symlink : CpioNewCHeader -> bool := has_type TYPE_LNK.

Record CpioEntry := mkCpioEntry {
  header : CpioNewCHeader; raw_name : list Z; entry_data : list Z;
}.

Definition filename (e : CpioEntry) : option string :=
  let name := raw_name e in
  from_utf8 (match last name with Some 0 => removelast name | _ => name end).

Record CpioIterator := mkCpio { cpio_buf : list Z; cpio_pos : Z }.

Inductive CpioError := Truncated | BadMagic | HexParseFailed | Trailer.

#[export] Instance CpioError_eq_dec : EqDecision CpioError.
Proof. solve_decision. Defined.

Definition CpioIterator_new (buf : list Z) : CpioIterator := mkCpio buf 0.
Definition CpioIterator_default : CpioIterator := mkCpio [] 0.

Definition align4 (x : Z) : Z := Z.land (4 - Z.land x 3) 3.

Definition CPIO_MAGIC : list Z := as_bytes "070701".
Definition TRAILER_NAME : list Z := as_bytes "TRAILER!!!".

(** [&buf[a..b]]. *)
Definition slice (a b : Z) (buf : list Z) : list Z := load (Z.to_nat a) (Z.to_nat (b - a)) buf.

(** [checked_add] followed by the test against the length of the buffer. *)
Definition end_in (buf : list Z) (start n : Z) : option Z :=
  match checked_add start n with
  | Some e => if Z.of_nat (length buf) <? e then None else Some e
  | None => None
  end.

Definition CpioIterator_next (it : CpioIterator) : option (CpioError + CpioEntry) * CpioIterator :=
  let buf := cpio_buf it in
  let pos := cpio_pos it in
  let len := Z.of_nat (length buf) in
  let fail e := (Some (inl e), it) in
  if len <=? pos then (None, it)
  else if len - pos <? Z.of_nat SIZE then fail Truncated
  else match CpioNewCHeader_from_bytes (drop (Z.to_nat pos) buf) with
  | None => fail Truncated
  | Some hdr =>
    if negb (bool_decide (c_magic hdr = CPIO_MAGIC)) then fail BadMagic
    else match namesize hdr with
    | None => fail HexParseFailed
    | Some namesize =>
      match filesize hdr with
      | None => fail HexParseFailed
      | Some filesize =>
        let name_start := usize (pos + Z.of_nat SIZE) in
        match end_in buf name_start namesize with
        | None => fail Truncated
        | Some name_end =>
          let raw_name := slice name_start name_end buf in
          let name_padding := align4 (usize (Z.of_nat SIZE + namesize)) in
          let file_data_start := usize (name_end + name_padding) in
          if len <? file_data_start then fail Truncated
          else match end_in buf file_data_start filesize with
          | None => fail Truncated
          | Some file_data_end =>
            let data := slice file_data_start file_data_end buf in
            if bool_decide (raw_name = TRAILER_NAME ++ [0]) || bool_decide (raw_name = TRAILER_NAME)
            then (Some (inl Trailer), mkCpio buf len)
            else
              let file_padding := align4 filesize in
              let next_pos := usize (file_data_end + file_padding) in
              (Some (inr (mkCpioEntry hdr raw_name data)), mkCpio buf next_pos)
          end
        end
      end
    end
  end.

(** ** A writer of the format *)

(** What an archive member carries besides its sizes, which are computed. *)
Record Member := mkMember {
  m_ino : Z; m_mode : Z; m_uid : Z; m_gid : Z; m_nlink : Z; m_mtime : Z; m_devmajor : Z;
  m_devminor : Z; m_rdevmajor : Z; m_rdevminor : Z; m_check : Z; m_name : string; m_data : list Z;
}.

Definition hex_char (v : Z) : Z := if v <? 10 then 48 + v else 97 + (v - 10).

(** [n] hexadecimal digits of [v], most significant first. *)
Fixpoint to_hex (n : nat) (v : Z) : list Z :=
  match n with O => [] | S n => to_hex n (v / 16) ++ [hex_char (v mod 16)] end.

Definition pad4 (n : Z) : list Z := repeat 0 (Z.to_nat (align4 n)).

Definition encode_header (m : Member) : CpioNewCHeader :=
  let hex := to_hex 8 in
  mkHeader CPIO_MAGIC (hex (m_ino m)) (hex (m_mode m)) (hex (m_uid m)) (hex (m_gid m))
    (hex (m_nlink m)) (hex (m_mtime m)) (hex (Z.of_nat (length (m_data m)))) (hex (m_devmajor m))
    (hex (m_devminor m)) (hex (m_rdevmajor m)) (hex (m_rdevminor m))
    (hex (Z.of_nat (slen (m_name m)) + 1)) (hex (m_check m)).

Definition header_bytes (h : CpioNewCHeader) : list Z :=
  concat [c_magic h; c_ino h; c_mode h; c_uid h; c_gid h; c_nlink h; c_mtime h; c_filesize h;
          c_devmajor h; c_devminor h; c_rdevmajor h; c_rdevminor h; c_namesize h; c_check h].

Definition encode_member (m : Member) : list Z :=
  header_bytes (encode_header m) ++ (as_bytes (m_name m) ++ [0])
    ++ pad4 (Z.of_nat (110 + slen (m_name m) + 1)) ++ m_data m ++ pad4 (Z.of_nat (length (m_data m))).

Definition trailer_member : Member := mkMember 0 0 0 0 1 0 0 0 0 0 0 "TRAILER!!!" [].

Definition encode_archive (ms : list Member) : list Z :=
  concat (map encode_member ms) ++ encode_member trailer_member.

(** The entry a member is read back as. *)
Definition member_entry (m : Member) : CpioEntry :=
  mkCpioEntry (encode_header m) (as_bytes (m_name m) ++ [0]) (m_data m).

(** ** Hexadecimal fields *)

Lemma land_digit a v : 0 <= v < 16 -> Z.land (Z.shiftl a 4) v = 0.
Proof.
  intros Hv. apply Z.bits_inj'. intros i Hi. rewrite Z.land_spec, Z.bits_0.
  destruct (Z.ltb_spec i 4); [by rewrite Z.shiftl_spec_low|].
  rewrite <- (Z.mod_small v (2 ^ 4)) by lia.
  by rewrite (Z.mod_pow2_bits_high v 4 i), andb_false_r by lia.
Qed.

Lemma lor_digit a v : 0 <= v < 16 -> Z.lor (Z.shiftl a 4) v = a * 16 + v.
Proof.
  intros Hv. rewrite <- Z.lxor_lor, <- Z.add_nocarry_lxor by (by apply land_digit).
  by rewrite Z.shiftl_mul_pow2.
Qed.

Lemma hex_digit_char v : 0 <= v < 16 -> hex_digit (hex_char v) = Some v.
Proof.
  intros Hv. unfold hex_digit, hex_char, in_range.
  destruct (Z.ltb_spec v 10); repeat case_if; f_equal; lia.
Qed.

Lemma hex_loop_app acc l r :
  hex_loop acc (l ++ r) = match hex_loop acc l with Some a => hex_loop a r | None => None end.
Proof. revert acc. induction l as [|c l IH]; intros acc; cbn; [done|]. case_match; auto. Qed.

Lemma hex_loop_to_hex n v :
  (n <= 16)%nat -> 0 <= v < 16 ^ Z.of_nat n -> hex_loop 0 (to_hex n v) = Some v.
Proof.
  revert v. induction n as [|n IH]; intros v Hn Hv.
  - change (16 ^ Z.of_nat 0) with 1 in Hv. cbn. f_equal. lia.
  - rewrite Nat2Z.inj_succ, Z.pow_succ_r in Hv by lia.
    assert (0 <= v / 16 < 16 ^ Z.of_nat n) as Hd.
    { split; [apply Z.div_pos; lia|apply Z.div_lt_upper_bound; lia]. }
    cbn [to_hex]. rewrite hex_loop_app, IH by (done || lia). cbn [hex_loop].
    pose proof (Z.mod_pos_bound v 16 ltac:(lia)). rewrite hex_digit_char by lia. f_equal.
    assert (16 ^ Z.of_nat (S n) <= 16 ^ 16) as Hp by (apply Z.pow_le_mono_r; lia).
    rewrite Nat2Z.inj_succ, Z.pow_succ_r in Hp by lia. change (16 ^ 16) with (2 ^ 64) in Hp.
    unfold wrap. rewrite Z.mod_small; [rewrite lor_digit by lia; pose proof (Z.div_mod v 16); lia|].
    rewrite Z.shiftl_mul_pow2 by lia. change (2 ^ 4) with 16. lia.
Qed.

Lemma hex_to_u64_to_hex v : in_width 32 v -> hex_to_u64 (to_hex 8 v) = Some v.
Proof. intros Hv. apply hex_loop_to_hex; [lia|]. exact Hv. Qed.

Lemma to_hex_length n v : length (to_hex n v) = n.
Proof. revert v. induction n as [|n IH]; intros v; cbn; [done|]. rewrite length_app, IH. cbn. lia. Qed.

Lemma align4_bound n : 0 <= align4 n < 4.
Proof. unfold align4. change 3 with (Z.ones 2) at 2 4. rewrite Z.land_ones by lia. apply Z.mod_pos_bound. lia. Qed.

Lemma align4_spec n : (n + align4 n) mod 4 = 0.
Proof.
  unfold align4. change 3 with (Z.ones 2). rewrite !Z.land_ones by lia.
  change (2 ^ 2) with 4. Z.div_mod_to_equations. lia.
Qed.

(** ** Reading back a member *)

Lemma header_bytes_length m : length (header_bytes (encode_header m)) = SIZE.
Proof. unfold header_bytes. rewrite length_concat. cbn -[to_hex]. by rewrite !to_hex_length. Qed.

Lemma from_bytes_header m rest :
  CpioNewCHeader_from_bytes (header_bytes (encode_header m) ++ rest) = Some (encode_header m).
Proof.
  unfold CpioNewCHeader_from_bytes. rewrite length_app, header_bytes_length.
  by destruct (Nat.ltb_spec (SIZE + length rest) SIZE); [lia|].
Qed.

Lemma slice_mid buf l1 x l2 a b :
  buf = l1 ++ x ++ l2 -> a = Z.of_nat (length l1) -> b = a + Z.of_nat (length x) ->
  slice a b buf = x.
Proof.
  intros -> -> ->. unfold slice, load. rewrite Nat2Z.id, drop_app_length.
  replace (Z.to_nat _) with (length x) by lia. apply take_app_length.
Qed.

(** A member whose fields fit the format. *)
Definition member_ok (m : Member) : Prop :=
  Z.of_nat (slen (m_name m)) + 1 < 2 ^ 32 /\ Z.of_nat (length (m_data m)) < 2 ^ 32.

(** A slice is never longer than [isize::MAX] bytes. *)
Definition buf_ok (buf : list Z) : Prop := Z.of_nat (length buf) < 2 ^ 63.

Definition is_trailer (name : string) : bool := bool_decide (name = "TRAILER!!!").

Lemma trailer_test name :
  bool_decide (as_bytes name ++ [0] = TRAILER_NAME ++ [0])
  || bool_decide (as_bytes name ++ [0] = TRAILER_NAME) = is_trailer name.
Proof.
  unfold is_trailer. rewrite (bool_decide_eq_false_2 (_ = TRAILER_NAME)), orb_false_r.
  - apply bool_decide_ext. unfold TRAILER_NAME. split; [|by intros ->].
    intros [H _]%app_inj_2; [|done]. by apply as_bytes_inj.
  - intros H. apply (f_equal last) in H. by rewrite last_snoc in H.
Qed.

Lemma pad4_length n : Z.of_nat (length (pad4 n)) = align4 n.
Proof. unfold pad4. rewrite repeat_length. pose proof (align4_bound n). lia. Qed.

(** The pieces of an encoded member. *)
Lemma encode_member_split m : exists N P1 P2,
  encode_member m = header_bytes (encode_header m) ++ N ++ P1 ++ m_data m ++ P2 /\
  N = as_bytes (m_name m) ++ [0] /\
  Z.of_nat (length N) = Z.of_nat (slen (m_name m)) + 1 /\
  Z.of_nat (length P1) = align4 (110 + (Z.of_nat (slen (m_name m)) + 1)) /\
  Z.of_nat (length P2) = align4 (Z.of_nat (length (m_data m))).
Proof.
  do 3 eexists. split; [reflexivity|]. split; [done|]. rewrite !pad4_length.
  split; [rewrite length_app; unfold slen; cbn; lia|]. split; [f_equal; lia|done].
Qed.

Lemma end_in_ok buf a n :
  0 <= a -> 0 <= n -> buf_ok buf -> a + n <= Z.of_nat (length buf) -> end_in buf a n = Some (a + n).
Proof.
  unfold end_in, checked_add, buf_ok, U64_MAX. intros ? ? ? ?.
  destruct (Z.leb_spec (a + n) (2 ^ 64 - 1)); [|lia].
  by destruct (Z.ltb_spec (Z.of_nat (length buf)) (a + n)); [lia|].
Qed.

Lemma usize_small z : 0 <= z < 2 ^ 64 -> usize z = z.
Proof. intros. by apply Z.mod_small. Qed.

Lemma next_member pre m rest :
  member_ok m -> buf_ok (pre ++ encode_member m ++ rest) ->
  CpioIterator_next (mkCpio (pre ++ encode_member m ++ rest) (Z.of_nat (length pre))) =
  if is_trailer (m_name m)
  then (Some (inl Trailer), mkCpio (pre ++ encode_member m ++ rest)
                              (Z.of_nat (length (pre ++ encode_member m ++ rest))))
  else (Some (inr (member_entry m)), mkCpio (pre ++ encode_member m ++ rest)
                                       (Z.of_nat (length (pre ++ encode_member m)))).
Proof.
  intros [Hn Hd] Hb. unfold CpioIterator_next. cbn [cpio_buf cpio_pos].
  destruct (encode_member_split m) as (N & P1 & P2 & He & HN & HlN & HlP1 & HlP2).
  set (buf := pre ++ encode_member m ++ rest) in *.
  pose proof (header_bytes_length m) as HS. pose proof Hb as Hb'. unfold buf_ok, SIZE in *.
  assert (length buf = length pre + (110 + (length N + (length P1 + (length (m_data m)
    + (length P2 + length rest))))))%nat as HL by (unfold buf; rewrite He, !length_app; lia).
  rewrite (proj2 (Z.leb_gt _ _)), (proj2 (Z.ltb_ge _ _)) by lia.
  unfold buf at 1. rewrite Nat2Z.id, drop_app_length, He, <- app_assoc, from_bytes_header.
  rewrite bool_decide_eq_true_2 by done. cbn [negb].
  unfold namesize, filesize. cbn [encode_header c_namesize c_filesize].
  rewrite !hex_to_u64_to_hex by (unfold in_width; lia).
  rewrite (usize_small (_ + Z.of_nat 110)), end_in_ok by (done || lia).
  pose proof (align4_bound (110 + (Z.of_nat (slen (m_name m)) + 1))).
  pose proof (align4_bound (Z.of_nat (length (m_data m)))).
  rewrite (usize_small (Z.of_nat 110 + _)) by lia. change (Z.of_nat 110) with 110.
  rewrite (usize_small (_ + _ + align4 _)) by lia.
  rewrite (proj2 (Z.ltb_ge _ _)), end_in_ok by (done || lia).
  rewrite (usize_small (_ + _ + _)) by lia.
  rewrite (slice_mid buf (pre ++ header_bytes (encode_header m)) N (P1 ++ m_data m ++ P2 ++ rest));
    [|unfold buf; rewrite He, <- !app_assoc; done|rewrite length_app; lia|lia].
  rewrite (slice_mid buf (pre ++ header_bytes (encode_header m) ++ N ++ P1) (m_data m) (P2 ++ rest));
    [|unfold buf; rewrite He, <- !app_assoc; done|rewrite !length_app; lia|lia].
  subst N. rewrite trailer_test.
  destruct (is_trailer (m_name m)); [done|]. f_equal. f_equal. rewrite !length_app in *. rewrite HS. lia.
Qed.

(** ** Progress *)

Lemma end_in_bound buf a n e : end_in buf a n = Some e -> e = a + n /\ e <= Z.of_nat (length buf).
Proof. unfold end_in, checked_add. repeat case_if; intros; simplify_eq; lia. Qed.

Lemma hex_digit_nonneg c v : hex_digit c = Some v -> 0 <= v.
Proof. unfold hex_digit, in_range. intros H. repeat case_if; simplify_eq; lia. Qed.

Lemma hex_loop_nonneg acc b v : 0 <= acc -> hex_loop acc b = Some v -> 0 <= v.
Proof.
  revert acc. induction b as [|c b IH]; intros acc Ha; cbn; [by intros [= <-]|].
  destruct (hex_digit c) as [d|] eqn:Hd; [|done]. apply IH, Z.lor_nonneg.
  split; [|by eapply hex_digit_nonneg]. unfold wrap. apply Z.mod_pos_bound. lia.
Qed.

Lemma hex_to_u64_nonneg b v : hex_to_u64 b = Some v -> 0 <= v.
Proof. by apply hex_loop_nonneg. Qed.

(** Every entry moves the position past its header. *)
Lemma next_entry_progress it e it' :
  0 <= cpio_pos it -> buf_ok (cpio_buf it) -> CpioIterator_next it = (Some (inr e), it') ->
  cpio_buf it' = cpio_buf it /\ cpio_pos it + Z.of_nat SIZE <= cpio_pos it'.
Proof.
  intros Hp Hb. unfold CpioIterator_next, namesize, filesize, buf_ok, SIZE in *.
  repeat (case_match; try done); bool_to_prop; intros; simplify_eq; cbn [cpio_buf cpio_pos].
  repeat match goal with H : end_in _ _ _ = Some _ |- _ => apply end_in_bound in H as [-> ?] end.
  repeat match goal with H : hex_to_u64 _ = Some _ |- _ => apply hex_to_u64_nonneg in H end.
  split; [done|]. change (Z.of_nat 110) with 110 in *.
  rewrite (usize_small (_ + 110)) in * by lia.
  match goal with |- context [align4 (usize (110 + ?n))] =>
    pose proof (align4_bound (usize (110 + n))); set (p1 := align4 (usize (110 + n))) in * end.
  rewrite (usize_small (_ + p1)) in * by lia.
  match goal with |- context [align4 ?n] => pose proof (align4_bound n) end.
  rewrite usize_small; lia.
Qed.

(** An error other than the trailer leaves the iterator where it is. *)
Lemma next_error_stuck it err it' :
  CpioIterator_next it = (Some (inl err), it') -> err <> Trailer -> it' = it.
Proof.
  unfold CpioIterator_next. intros H Ht. repeat (case_match; try done); by simplify_eq.
Qed.

(** At the end of the buffer there is nothing more. *)
Lemma next_end it : Z.of_nat (length (cpio_buf it)) <= cpio_pos it -> CpioIterator_next it = (None, it).
Proof. intros H. unfold CpioIterator_next. by rewrite (proj2 (Z.leb_le _ _) H). Qed.
