(* ===== verification/RamFs.v ===== *)
(** * The initial RAM file system (sys/fs/ram_fs/mod.rs)

    A tree of nodes whose directories are [BTreeMap]s, here lists sorted by name.  A
    file's contents are an [Arc<RwLock<Vec<u8>>>] shared by the tree and the nodes
    opened on it: they live in a heap and a node holds their address. *)

From Stdlib Require Import ZifyBool Ascii.
From S2P Require Import Prelude Bytes Text Preempt Vfs Cpio.
Open Scope twilight_scope.

(** ** [BTreeMap<String, V>] *)

Section btree.
Context {V : Type}.
Implicit Types (m : list (string * V)).

Fixpoint bt_get (k : string) m : option V :=
  match m with
  | [] => None
  | (k', v) :: m => if decide (k = k') then Some v else bt_get k m
  end.

(** Insert, replacing the value of an existing key. *)
Fixpoint bt_insert (k : string) (v : V) m : list (string * V) :=
  match m with
  | [] => [(k, v)]
  | (k', v') :: m' =>
    if decide (k = k') then (k, v) :: m'
    else if String.leb k k' then (k, v) :: m
    else (k', v') :: bt_insert k v m'
  end.

(** Writing through [get_mut(k)]. *)
Fixpoint bt_update (k : string) (v : V) m : list (string * V) :=
  match m with
  | [] => []
  | (k', v') :: m => if decide (k = k') then (k, v) :: m else (k', v') :: bt_update k v m
  end.

Fixpoint bt_remove (k : string) m : list (string * V) :=
  match m with
  | [] => []
  | (k', v') :: m => if decide (k = k') then m else (k', v') :: bt_remove k m
  end.

Definition contains_key (k : string) m : bool :=
  match bt_get k m with Some _ => true | None => false end.

(** [entry(k).or_insert(v)]. *)
Definition or_insert (k : string) (v : V) m : list (string * V) :=
  if contains_key k m then m else bt_insert k v m.
End btree.

(** ** Nodes *)

Module Node.
#[warnings="-register-all"] Inductive t :=
| File (data : nat)
| Dir (children : list (string * t))
| Symlink (target : string)
| Socket.
End Node.
Abbreviation Children := (list (string * Node.t)).

Record InitramfsFs := mkRamFs { root : Node.t; heap : list (list Z) }.

Definition InitramfsFs_empty : InitramfsFs := mkRamFs (Node.Dir []) [].

(** [Arc::new(RwLock::new(data))]. *)
Definition alloc_data (data : list Z) (h : list (list Z)) : nat * list (list Z) :=
  (length h, h ++ [data]).

(** What the last component of an archive path becomes. *)
Definition insert_last (e : CpioEntry) (comp : string) (cur : Children) (h : list (list Z))
    : Children * list (list Z) :=
  if is_directory (header e) then (or_insert comp (Node.Dir []) cur, h)
  else if is_symlink (header e) then
    (bt_insert comp (Node.Symlink (default "" (from_utf8 (entry_data e)))) cur, h)
  else if is_regular_file (header e) then
    let '(a, h) := alloc_data (entry_data e) h in (bt_insert comp (Node.File a) cur, h)
  else (cur, h).

(** The walk down the components; it stops at a component that is not a directory. *)
Fixpoint insert_entry (e : CpioEntry) (comps : list string) (cur : Children) (h : list (list Z))
    : Children * list (list Z) :=
  match comps with
  | [] => (cur, h)
  | [comp] => insert_last e comp cur h
  | comp :: comps =>
    let cur := or_insert comp (Node.Dir []) cur in
    match bt_get comp cur with
    | Some (Node.Dir children) =>
      let '(children, h) := insert_entry e comps children h in
      (bt_update comp (Node.Dir children) cur, h)
    | _ => (cur, h)
    end
  end.

(** One archive entry: its name trimmed, an empty one skipped. *)
Definition add_entry (e : CpioEntry) (st : Children * list (list Z)) : Children * list (list Z) :=
  match filename e with
  | None => st
  | Some name =>
    let path := trim_matches slash name in
    if is_empty path then st else insert_entry e (components path) st.1 st.2
  end.

(** The loop of [InitramfsFs::new] over the archive; [None] when the fuel runs out. *)
Fixpoint new_loop (fuel : nat) (it : CpioIterator) (st : Children * list (list Z))
    : option (Children * list (list Z)) :=
  match fuel with
  | O => None
  | S fuel =>
    match CpioIterator_next it with
    | (None, _) => Some st
    | (Some (inr e), it) => new_loop fuel it (add_entry e st)
    | (Some (inl Trailer), _) => Some st
    | (Some (inl _), it) => new_loop fuel it st
    end
  end.

Definition InitramfsFs_new (fuel : nat) (initramfs : CpioIterator) : option InitramfsFs :=
  match new_loop fuel initramfs ([], []) with
  | Some (children, h) => Some (mkRamFs (Node.Dir children) h)
  | None => None
  end.

(** ** Lookup *)

Definition split_path (path : string) : list string := components (trim_matches slash path).

(** The hash loop of [inode_for]. *)
Fixpoint hash_loop (h : Z) (l : list Z) : Z :=
  match l with
  | [] => h
  | b :: l => hash_loop (u32 (u32 (u32 (Z.shiftl h 5) + h) + b)) l
  end.
Definition inode_for (path : string) : Z :=
  if is_empty path then 1 else hash_loop 5381 (as_bytes path).

Fixpoint node_at (comps : list string) (cur : Node.t) : option Node.t :=
  match comps with
  | [] => Some cur
  | c :: comps =>
    match cur with
    | Node.Dir children => n ← bt_get c children; node_at comps n
    | _ => None
    end
  end.
Definition get_node (fs : InitramfsFs) (comps : list string) : option Node.t := node_at comps (root fs).

(** [get_node_mut]: the tree with the node at [comps] replaced by [f] of it. *)
Fixpoint update_at (comps : list string) (f : Node.t -> Node.t) (cur : Node.t) : Node.t :=
  match comps with
  | [] => f cur
  | c :: comps =>
    match cur with
    | Node.Dir children =>
      match bt_get c children with
      | Some n => Node.Dir (bt_update c (update_at comps f n) children)
      | None => cur
      end
    | _ => cur
    end
  end.

Definition file_data (h : list (list Z)) (a : nat) : list Z := default [] (h !! a).

Definition node_metadata (fs : InitramfsFs) (comps : list string) : option Metadata :=
  n ← get_node fs comps;
  let '(file_type, size, mode) := match n with
    | Node.Dir _ => (FileType.Dir, 0, 16877)
    | Node.File a => (FileType.File, Z.of_nat (length (file_data (heap fs) a)), 33279)
    | Node.Symlink target => (FileType.File, Z.of_nat (slen target), 41471)
    | Node.Socket => (FileType.Socket, 0, 49663)
    end in
  Some (mkMetadata (inode_for (join "/" comps)) 0 0 (default "" (last comps)) file_type mode size 0 0 0).

(** ** Open nodes *)

Inductive RamNode := RamFile (data : nat) | RamSymlink (target : string) | RamDir.

(** The bytes of [data] from [lba], at most [n] of them. *)
Definition read_slice (data : list Z) (lba : Z) (n : nat) : list Z :=
  if Z.of_nat (length data) <=? lba then [] else take n (drop (Z.to_nat lba) data).

Definition RamNode_read (n : RamNode) (lba : Z) (len : nat) : M InitramfsFs unit (list Z) :=
  fun fs => match n with
            | RamFile a => (Ok (read_slice (file_data (heap fs) a) lba len), fs)
            | RamSymlink target => (Ok (read_slice (as_bytes target) lba len), fs)
            | RamDir => (Err tt, fs)
            end.

Definition set_data (a : nat) (f : list Z -> list Z) (fs : InitramfsFs) : InitramfsFs :=
  mkRamFs (root fs) (alter f a (heap fs)).

(** The kernel heap, a third-party allocator: whether the vector that holds [data] gets
    room for [len] bytes. *)
Class VecHeap := grants : list Z -> Z -> bool.

(** [Vec::resize] can grow: no vector is longer than [isize::MAX], and the heap must have
    the room.  Otherwise it panics. *)
Definition vec_room `{VecHeap} (data : list Z) (len : Z) : bool := (len <=? ISIZE_MAX) && grants data len.

(** [data.resize(len, 0)]; [None] is the panic. *)
Definition vec_resize `{VecHeap} (len : Z) (data : list Z) : option (list Z) :=
  if (Z.of_nat (length data) <? len) && negb (vec_room data len) then None
  else Some (resize_zero (Z.to_nat len) data).

Definition RamNode_write `{VecHeap} (n : RamNode) (lba : Z) (input : list Z) : M InitramfsFs unit unit :=
  fun fs => match n with
            | RamFile a =>
              match checked_add lba (Z.of_nat (length input)) with
              | None => (Err tt, fs)
              | Some e =>
                let data := file_data (heap fs) a in
                match (if Z.of_nat (length data) <? e then vec_resize e data else Some data) with
                | None => (Panic, fs)
                | Some data => (Ok tt, set_data a (fun _ => store (Z.to_nat lba) input data) fs)
                end
              end
            | _ => (Err tt, fs)
            end.

Definition RamNode_truncate `{VecHeap} (n : RamNode) (len : Z) : M InitramfsFs Z unit :=
  match n with
  | RamFile a => fun fs =>
      match vec_resize len (file_data (heap fs) a) with
      | None => (Panic, fs)
      | Some data => (Ok tt, set_data a (fun _ => data) fs)
      end
  | _ => truncate_unsupported n len
  end.

#[export] Instance ram_node_ops `{VecHeap} : VfsNodeOps InitramfsFs RamNode := {|
  vn_read := RamNode_read;
  vn_write := RamNode_write;
  vn_poll := fun _ => retM true;
  vn_ioctl := fun _ _ _ => retM 0;
  vn_unlink := fun _ => retM (-1);
  vn_truncate := RamNode_truncate;
|}.

(** ** The [FileSystem] operations *)

Definition ram_open (path : string) : M InitramfsFs unit (VfsNode RamNode) :=
  fun fs =>
    let comps := split_path path in
    match get_node fs comps, node_metadata fs comps with
    | Some n, Some meta =>
      match n with
      | Node.Dir _ => (Ok (mkVfsNode meta RamDir), fs)
      | Node.File a => (Ok (mkVfsNode meta (RamFile a)), fs)
      | Node.Symlink target => (Ok (mkVfsNode meta (RamSymlink target)), fs)
      | Node.Socket =>
        let '(a, h) := alloc_data [] (heap fs) in
        (Ok (mkVfsNode meta (RamFile a)), mkRamFs (root fs) h)
      end
    | _, _ => (Err tt, fs)
    end.

(** Put [child] under [parent], if that is a directory without such an entry. *)
Definition add_child (parent child_name : string) (child : list (list Z) -> Node.t * list (list Z))
    : M InitramfsFs unit unit :=
  fun fs =>
    if is_empty child_name || contains slash child_name then (Err tt, fs)
    else
      let comps := split_path parent in
      match get_node fs comps with
      | Some (Node.Dir children) =>
        if contains_key child_name children then (Err tt, fs)
        else
          let '(n, h) := child (heap fs) in
          (Ok tt, mkRamFs (update_at comps (fun _ => Node.Dir (bt_insert child_name n children)) (root fs)) h)
      | _ => (Err tt, fs)
      end.

Definition ram_mkdir (parent_dir path : string) (_ : Z) : M InitramfsFs unit unit :=
  add_child parent_dir path (fun h => (Node.Dir [], h)).

Definition SOCKET_MODE : Z := 49152.

Definition ram_touch (parent_path filename : string) (mode : Z) : M InitramfsFs unit unit :=
  add_child parent_path filename (fun h =>
    if Z.land mode TYPE_MASK =? SOCKET_MODE then (Node.Socket, h)
    else let '(a, h) := alloc_data [] h in (Node.File a, h)).

Definition ram_rmdir (_ : string) : M InitramfsFs unit unit := failM tt.

Definition ram_ls (path : string) : M InitramfsFs unit (list Metadata) :=
  fun fs =>
    let comps := split_path path in
    match get_node fs comps with
    | Some (Node.Dir children) =>
      (Ok (omap (fun nv : string * Node.t => node_metadata fs (comps ++ [nv.1])) children), fs)
    | _ => (Err tt, fs)
    end.

Definition ram_rm (path : string) : M InitramfsFs unit unit :=
  fun fs =>
    let comps := split_path path in
    match last comps with
    | None => (Err tt, fs)
    | Some name =>
      let parent := removelast comps in
      match get_node fs parent with
      | Some (Node.Dir children) =>
        if contains_key name children
        then (Ok tt, mkRamFs (update_at parent (fun _ => Node.Dir (bt_remove name children)) (root fs)) (heap fs))
        else (Err tt, fs)
      | _ => (Err tt, fs)
      end
    end.

Definition ram_metadata (path : string) : M InitramfsFs unit Metadata :=
  fun fs => match node_metadata fs (split_path path) with
            | Some m => (Ok m, fs)
            | None => (Err tt, fs)
            end.

#[export] Instance ram_file_system : FileSystem InitramfsFs RamNode := {|
  fs_open := ram_open; fs_mkdir := ram_mkdir; fs_rmdir := ram_rmdir;
  fs_rename := rename_unsupported; fs_ls := ram_ls; fs_rm := ram_rm; fs_touch := ram_touch;
  fs_metadata := ram_metadata; fs_chmod := chmod_read_only; fs_set_attr := set_attr_unsupported;
  fs_get_attr := get_attr_unsupported; fs_type_name := fun _ => "ramfs";
  fs_source_name := fun _ => "initramfs"; fs_stats := stats_default;
|}.

(** ** Maps *)

Definition key_lt {V} (a b : string * V) : Prop := String.le a.1 b.1 /\ a.1 <> b.1.
Abbreviation sorted_keys := (StronglySorted key_lt).

Section btree_facts.
Context {V : Type}.
Implicit Types (m : list (string * V)).

Lemma bt_get_insert k v m : bt_get k (bt_insert k v m) = Some v.
Proof.
  induction m as [|[k' v'] m IH]; cbn; [by rewrite decide_True|].
  destruct (decide (k = k')) as [<-|Hne]; [cbn; by rewrite decide_True|].
  destruct (String.leb k k'); cbn; [by rewrite decide_True|]. by rewrite decide_False.
Qed.

Lemma bt_get_insert_ne k k' v m : k <> k' -> bt_get k' (bt_insert k v m) = bt_get k' m.
Proof.
  intros Hk. induction m as [|[a v'] m IH]; cbn; [by rewrite decide_False|].
  destruct (decide (k = a)) as [<-|Hne]; cbn; [by repeat case_decide; try congruence|].
  destruct (String.leb k a); cbn; [by repeat case_decide; try congruence|]. by rewrite IH.
Qed.

Lemma bt_get_update k v m : is_Some (bt_get k m) -> bt_get k (bt_update k v m) = Some v.
Proof.
  induction m as [|[a v'] m IH]; cbn; [by intros []|].
  destruct (decide (k = a)) as [<-|Hne]; cbn; [by rewrite decide_True|]. by rewrite decide_False.
Qed.

Lemma bt_get_update_ne k k' v m : k <> k' -> bt_get k' (bt_update k v m) = bt_get k' m.
Proof.
  intros Hk. induction m as [|[a v'] m IH]; cbn; [done|].
  destruct (decide (k = a)) as [<-|Hne]; cbn; [by repeat case_decide; try congruence|]. by rewrite IH.
Qed.

Lemma bt_update_keys k v m : (bt_update k v m).*1 = m.*1.
Proof.
  induction m as [|[a v'] m IH]; [done|]. cbn [bt_update]. destruct (decide (k = a)) as [<-|]; [done|].
  by rewrite !fmap_cons, IH.
Qed.

Lemma bt_get_remove_ne k k' m : k <> k' -> bt_get k' (bt_remove k m) = bt_get k' m.
Proof.
  intros Hk. induction m as [|[a v'] m IH]; cbn; [done|].
  destruct (decide (k = a)) as [<-|Hne]; cbn; [by repeat case_decide; try congruence|]. by rewrite IH.
Qed.

Lemma bt_get_None k m : bt_get k m = None <-> k ∉ m.*1.
Proof.
  induction m as [|[a v'] m IH]; cbn; [split; [intros _; apply not_elem_of_nil|done]|].
  rewrite not_elem_of_cons, <- IH. destruct (decide (k = a)); [|intuition congruence]. split; [done|]. by intros [? _].
Qed.

Lemma sorted_keys_tail_get k v m : sorted_keys ((k, v) :: m) -> bt_get k m = None.
Proof.
  intros Hs. apply bt_get_None. inversion Hs as [|? ? _ Hk]; subst. rewrite Forall_forall in Hk.
  intros ([k' v'] & -> & Hin)%list_elem_of_fmap. by destruct (Hk _ Hin) as [_ ?].
Qed.

Lemma bt_get_remove k m : sorted_keys m -> bt_get k (bt_remove k m) = None.
Proof.
  induction m as [|[a v'] m IH]; intros Hs; cbn; [done|].
  destruct (decide (k = a)) as [<-|Hne]; [by eapply sorted_keys_tail_get|].
  cbn. rewrite decide_False by done. inversion Hs; auto.
Qed.

(** Being sorted is a property of the keys. *)
Lemma sorted_keys_ext {W} m (m' : list (string * W)) : m.*1 = m'.*1 -> sorted_keys m -> sorted_keys m'.
Proof.
  intros Hk Hs. revert m' Hk. induction Hs as [|[k v] m Hs IH Hf]; intros [|[k' v'] m'] Hk; try done;
    [constructor|]. rewrite !fmap_cons in Hk. simplify_eq/=. constructor; [by apply IH|].
  apply Forall_forall. intros [k v2] Hin. rewrite Forall_forall in Hf.
  assert (k ∈ m.*1) as (e & He & Hin')%list_elem_of_fmap
    by (rewrite H0; apply list_elem_of_fmap; by exists (k, v2)).
  specialize (Hf e Hin'). unfold key_lt in *. cbn in *. subst. by destruct e.
Qed.
End btree_facts.

Lemma key_lt_trans {V} (a b c : string * V) : key_lt a b -> key_lt b c -> key_lt a c.
Proof.
  unfold key_lt. intros [H1 N1] [H2 N2]. split; [by trans b.1|].
  intros Heq. rewrite Heq in H1. apply N2. by apply (anti_symm String.le).
Qed.

Lemma bt_insert_in {V} k (v : V) m x : x ∈ bt_insert k v m -> x = (k, v) \/ x ∈ m.
Proof.
  induction m as [|[a v'] m IH]; cbn; [by intros ->%list_elem_of_singleton; left|].
  repeat case_match; rewrite !elem_of_cons; intuition.
Qed.

Lemma bt_insert_sorted {V} k (v : V) m : sorted_keys m -> sorted_keys (bt_insert k v m).
Proof.
  induction 1 as [|[a v'] m Hs IH Hf]; cbn; [by repeat constructor|].
  destruct (decide (k = a)) as [->|Hne]; [|destruct (String.leb k a) eqn:Hl].
  - constructor; [done|]. eapply Forall_impl; [exact Hf|]. by intros.
  - assert (key_lt (k, v) (a, v')) as Hka by (split; [by unfold String.le; cbn; rewrite Hl|done]).
    constructor; [by constructor|]. constructor; [done|].
    eapply Forall_impl; [exact Hf|]. intros x. by apply key_lt_trans.
  - constructor; [done|]. apply Forall_forall. intros x [->|Hx]%bt_insert_in.
    + split; [|done]. destruct (total String.le a k) as [|Hk]; [done|].
      unfold String.le in Hk. by rewrite Hl in Hk.
    + rewrite Forall_forall in Hf. auto.
Qed.

Lemma bt_remove_sub {V} k (m : list (string * V)) x : x ∈ bt_remove k m -> x ∈ m.
Proof.
  induction m as [|[a v'] m IH]; cbn; [done|]. destruct (decide (k = a)); [by right|].
  rewrite !elem_of_cons. intuition.
Qed.

Lemma bt_remove_sorted {V} k (m : list (string * V)) : sorted_keys m -> sorted_keys (bt_remove k m).
Proof.
  induction 1 as [|[a v'] m Hs IH Hf]; cbn; [constructor|]. destruct (decide (k = a)); [done|].
  constructor; [done|]. rewrite Forall_forall in *. intros x Hx. by apply Hf, (bt_remove_sub k).
Qed.

Lemma or_insert_sorted {V} k (v : V) m : sorted_keys m -> sorted_keys (or_insert k v m).
Proof. unfold or_insert. case_match; [done|apply bt_insert_sorted]. Qed.

Lemma or_insert_get {V} k (v : V) m : bt_get k (or_insert k v m) = Some (default v (bt_get k m)).
Proof.
  unfold or_insert, contains_key. destruct (bt_get k m) eqn:E; [by rewrite E|]. apply bt_get_insert.
Qed.

Lemma or_insert_get_ne {V} k k' (v : V) m : k <> k' -> bt_get k' (or_insert k v m) = bt_get k' m.
Proof. intros. unfold or_insert. case_match; [done|by apply bt_get_insert_ne]. Qed.

#[export] Hint Resolve bt_insert_sorted bt_remove_sorted or_insert_sorted : twilight.

(** ** The tree as a map from paths

    [view fs p] is what is found at the path [p]; it forgets how directories are
    stored and where file contents live. *)

Inductive Entry := EDir | EFile (data : list Z) | ESymlink (target : string) | ESocket.

#[export] Instance Entry_eq_dec : EqDecision Entry.
Proof. solve_decision. Defined.

Definition entry_of (h : list (list Z)) (n : Node.t) : Entry :=
  match n with
  | Node.Dir _ => EDir
  | Node.File a => EFile (file_data h a)
  | Node.Symlink t => ESymlink t
  | Node.Socket => ESocket
  end.
Definition view (fs : InitramfsFs) (p : list string) : option Entry :=
  entry_of (heap fs) <$> get_node fs p.

Record wf (fs : InitramfsFs) : Prop := mk_wf {
  wf_root : exists c, root fs = Node.Dir c;
  wf_sorted : forall p c, get_node fs p = Some (Node.Dir c) -> sorted_keys c;
  wf_alloc : forall p a, get_node fs p = Some (Node.File a) -> (a < length (heap fs))%nat;
  wf_unshared : forall p q a, get_node fs p = Some (Node.File a) ->
    get_node fs q = Some (Node.File a) -> p = q;
}.

(** Equal, or both directories with the same names. *)
Definition same_node (a b : option Node.t) : Prop :=
  match a, b with
  | Some (Node.Dir c), Some (Node.Dir c') => c.*1 = c'.*1
  | _, _ => a = b
  end.

Lemma same_node_refl a : same_node a a.
Proof. by destruct a as [[]|]. Qed.

Lemma node_at_app p s r : node_at (p ++ s) r = (node_at p r ≫= node_at s).
Proof.
  revert r. induction p as [|c p IH]; intros r; [done|]. cbn. destruct r; try done.
  destruct (bt_get c children); [apply IH|done].
Qed.

Lemma update_at_under p s r old x :
  node_at p r = Some old -> node_at (p ++ s) (update_at p (fun _ => x) r) = node_at s x.
Proof.
  revert r. induction p as [|c p IH]; intros r Hp; [done|]. cbn in *. destruct r; try done.
  destruct (bt_get c children) as [n|] eqn:Hc; [|done]. cbn in *.
  rewrite bt_get_update by eauto. cbn. by apply IH.
Qed.

Lemma update_at_away p q r old x :
  node_at p r = Some old -> ~ p `prefix_of` q ->
  same_node (node_at q r) (node_at q (update_at p (fun _ => x) r)).
Proof.
  revert q r. induction p as [|c p IH]; intros q r Hp Hq; [by destruct Hq; apply prefix_nil|].
  cbn in Hp. destruct r; try done. destruct (bt_get c children) as [n|] eqn:Hc; [|done]. cbn in Hp.
  cbn [update_at]. rewrite Hc. destruct q as [|d q]; cbn.
  - by rewrite bt_update_keys.
  - destruct (decide (c = d)) as [<-|Hcd].
    + rewrite Hc, bt_get_update by eauto. cbn. apply IH; [done|].
      intros Hpq. by apply Hq, prefix_cons.
    + rewrite bt_get_update_ne by done. apply same_node_refl.
Qed.

Lemma same_node_entry h a b : same_node a b -> entry_of h <$> a = entry_of h <$> b.
Proof. destruct a as [[]|], b as [[]|]; cbn; intros; by simplify_eq. Qed.

Lemma wf_empty : wf InitramfsFs_empty.
Proof. split; cbn; eauto; intros []; cbn; intros; simplify_eq; try constructor; done. Qed.

(** ** Changing one entry of a directory *)

Definition set_children (p : list string) (c : Children) (h : list (list Z)) (fs : InitramfsFs)
    : InitramfsFs := mkRamFs (update_at p (fun _ => Node.Dir c) (root fs)) h.

Section change.
Context (fs : InitramfsFs) (p : list string) (c c' : Children) (k : string) (h' : list (list Z)).
Hypothesis Hp : get_node fs p = Some (Node.Dir c).
Hypothesis Hkeep : forall k', k' <> k -> bt_get k' c' = bt_get k' c.
Let fs' := set_children p c' h' fs.

Lemma change_at : get_node fs' p = Some (Node.Dir c').
Proof.
  unfold get_node in *. rewrite <- (app_nil_r p) at 1. cbn. by rewrite (update_at_under p [] _ _ _ Hp).
Qed.

Lemma change_under s : get_node fs' (p ++ k :: s) = (bt_get k c' ≫= node_at s).
Proof. unfold get_node in *. cbn. by rewrite (update_at_under _ _ _ _ _ Hp). Qed.

Lemma change_away q :
  q <> p -> ~ (p ++ [k]) `prefix_of` q -> same_node (get_node fs q) (get_node fs' q).
Proof.
  intros Hqp Hq. unfold get_node in *. cbn. destruct (decide (p `prefix_of` q)) as [[s ->]|Hnp].
  - rewrite (update_at_under _ _ _ _ _ Hp), node_at_app, Hp. cbn. destruct s as [|k' s].
    + by rewrite app_nil_r in Hqp.
    + cbn. rewrite Hkeep; [apply same_node_refl|]. intros ->. apply Hq.
      exists s. by rewrite <- app_assoc.
  - by eapply update_at_away.
Qed.

(** Elsewhere the view is unchanged, as long as allocated contents are. *)
Lemma change_view q :
  wf fs -> (forall a, (a < length (heap fs))%nat -> h' !! a = heap fs !! a) ->
  ~ (p ++ [k]) `prefix_of` q -> view fs' q = view fs q.
Proof.
  intros Hwf Hh Hq. unfold view. destruct (decide (q = p)) as [->|Hqp].
  - by rewrite change_at, Hp.
  - pose proof (change_away q Hqp Hq) as Hs. pose proof (wf_alloc fs Hwf q) as Ha.
    destruct (get_node fs q) as [[]|], (get_node fs' q) as [[]|]; cbn in *; simplify_eq; try done.
    unfold file_data. do 2 f_equal. rewrite Hh by (by apply Ha). done.
Qed.

(** Well-formedness, when what is now under [k] is well formed and fresh. *)
Lemma change_wf :
  wf fs -> sorted_keys c' -> (length (heap fs) <= length h')%nat ->
  (forall s d, bt_get k c' ≫= node_at s = Some (Node.Dir d) -> sorted_keys d) ->
  (forall s a, bt_get k c' ≫= node_at s = Some (Node.File a) ->
     s = [] /\ (length (heap fs) <= a < length h')%nat) ->
  wf fs'.
Proof.
  intros [Hroot Hso Hal Hun] Hc Hlen Hd Hf.
  assert (forall q a, get_node fs' q = Some (Node.File a) ->
    (get_node fs q = Some (Node.File a) /\ ~ (p ++ [k]) `prefix_of` q) \/
    (q = p ++ [k] /\ (length (heap fs) <= a < length h')%nat)) as HF.
  { intros q a Ha. destruct (decide ((p ++ [k]) `prefix_of` q)) as [[s ->]|Hn].
    - rewrite <- app_assoc in Ha. cbn in Ha. rewrite change_under in Ha.
      destruct (Hf _ _ Ha) as [-> ?]. right. by rewrite app_nil_r.
    - left. split; [|done]. destruct (decide (q = p)) as [->|Hqp]; [by rewrite change_at in Ha|].
      pose proof (change_away q Hqp Hn) as Hs. rewrite Ha in Hs.
      destruct (get_node fs q) as [[]|]; cbn in Hs; by simplify_eq. }
  split.
  - destruct Hroot as [cr Hr]. unfold fs', set_children. cbn. rewrite Hr. destruct p as [|x p']; cbn; [eauto|].
    case_match; eauto.
  - intros q d Hq. destruct (decide ((p ++ [k]) `prefix_of` q)) as [[s ->]|Hn].
    + rewrite <- app_assoc in Hq. cbn in Hq. rewrite change_under in Hq. eauto.
    + destruct (decide (q = p)) as [->|Hqp]; [rewrite change_at in Hq; by simplify_eq|].
      pose proof (change_away q Hqp Hn) as Hs. rewrite Hq in Hs.
      destruct (get_node fs q) as [[]|] eqn:Hg; cbn in Hs; simplify_eq.
      eapply sorted_keys_ext; [exact Hs|]. eauto.
  - intros q a Ha. cbn. destruct (HF q a Ha) as [[Hq _]|[_ ?]]; [|lia]. specialize (Hal _ _ Hq). lia.
  - intros q1 q2 a H1 H2. destruct (HF _ _ H1) as [[G1 _]|[-> ?]], (HF _ _ H2) as [[G2 _]|[-> ?]]; eauto.
    + specialize (Hal _ _ G1). lia.
    + specialize (Hal _ _ G2). lia.
Qed.
End change.

(** ** Creating and removing *)

(** A node just made: no descendants, its contents freshly allocated. *)
Inductive fresh_node (h : list (list Z)) : Node.t * list (list Z) -> Entry -> Prop :=
| fresh_dir : fresh_node h (Node.Dir [], h) EDir
| fresh_socket : fresh_node h (Node.Socket, h) ESocket
| fresh_file : fresh_node h (Node.File (length h), h ++ [[]]) (EFile []).

(** The contract of creating [e] at [p ++ [nm]]. *)
Definition create_post (p : list string) (nm : string) (e : Entry) (fs : InitramfsFs)
    (out : res unit unit * InitramfsFs) : Prop :=
  let '(r, fs') := out in
  match r with
  | Ok _ => plain nm = true /\ view fs p = Some EDir /\ view fs (p ++ [nm]) = None /\ wf fs' /\
      forall q, view fs' q = if decide (q = p ++ [nm]) then Some e else view fs q
  | Err _ => fs' = fs /\ (plain nm = false \/ view fs p <> Some EDir \/ view fs (p ++ [nm]) <> None)
  | Panic => False
  end.

Lemma view_dir fs p : view fs p = Some EDir <-> exists c, get_node fs p = Some (Node.Dir c).
Proof. unfold view. split.
  - destruct (get_node fs p) as [[]|]; try done. eauto.
  - by intros [c ->]. Qed.

Lemma view_child fs p c k :
  get_node fs p = Some (Node.Dir c) -> view fs (p ++ [k]) = entry_of (heap fs) <$> bt_get k c.
Proof.
  unfold view, get_node. intros Hp. rewrite node_at_app, Hp. cbn. by destruct (bt_get k c).
Qed.

Lemma fresh_node_spec h n h' e :
  fresh_node h (n, h') e ->
  entry_of h' n = e /\ (length h <= length h')%nat /\
  (forall a, (a < length h)%nat -> h' !! a = h !! a) /\
  (forall x s, node_at (x :: s) n = None) /\
  (forall d, n = Node.Dir d -> d = []) /\
  (forall a, n = Node.File a -> (length h <= a < length h')%nat).
Proof.
  inversion 1; subst; repeat split; intros; simplify_eq/=; try done; try lia.
  - unfold file_data. by rewrite list_lookup_middle.
  - rewrite length_app. lia.
  - by rewrite lookup_app_l.
  - rewrite length_app. cbn. lia.
Qed.

Lemma add_child_refines parent nm child fs e :
  wf fs -> fresh_node (heap fs) (child (heap fs)) e ->
  create_post (split_path parent) nm e fs (add_child parent nm child fs).
Proof.
  intros Hwf Hfresh. unfold create_post, add_child. set (p := split_path parent).
  destruct (is_empty nm || contains slash nm) eqn:Hplain.
  { split; [done|]. left. unfold plain. by rewrite <- negb_orb, Hplain. }
  destruct (get_node fs p) as [n|] eqn:Hp.
  2: { split; [done|]. right. left. rewrite view_dir. by intros [c ?]; simplify_eq. }
  destruct n as [|c| |]; try (split; [done|]; right; left; rewrite view_dir; by intros [c ?]; simplify_eq).
  pose proof (view_child fs p c nm Hp) as Hv. unfold contains_key.
  destruct (bt_get nm c) as [old|] eqn:Hk; [by split; [done|]; right; right; rewrite Hv|].
  destruct (child (heap fs)) as [n h'] eqn:Hc.
  destruct (fresh_node_spec _ _ _ _ Hfresh) as (He & Hlen & Hh & Hleaf & Hdir & Hfile).
  change (mkRamFs _ h') with (set_children p (bt_insert nm n c) h' fs).
  assert (forall k', k' <> nm -> bt_get k' (bt_insert nm n c) = bt_get k' c) as Hkeep
    by (intros; by apply bt_get_insert_ne).
  split; [by unfold plain; rewrite <- negb_orb, Hplain|]. split; [rewrite view_dir; eauto|].
  split; [done|]. split.
  - eapply change_wf; eauto.
    + apply bt_insert_sorted. by eapply (wf_sorted fs).
    + intros s d. rewrite bt_get_insert. destruct s; cbn [mbind option_bind]; [intros [= ->]; rewrite (Hdir d) by done; constructor|].
      intros Hs. by rewrite Hleaf in Hs.
    + intros s a. rewrite bt_get_insert. destruct s; cbn [mbind option_bind]; [intros [= ->]; eauto|].
      intros Hs. by rewrite Hleaf in Hs.
  - intros q. destruct (decide (q = p ++ [nm])) as [->|Hq].
    + unfold view. rewrite (change_under fs p c), bt_get_insert by done. cbn. by rewrite He.
    + destruct (decide ((p ++ [nm]) `prefix_of` q)) as [[s ->]|Hn]; [|by eapply change_view].
      destruct s as [|x s]; [by rewrite app_nil_r in Hq|].
      unfold view. rewrite <- app_assoc. cbn. rewrite (change_under fs p c), bt_get_insert by done.
      cbn [mbind option_bind]. rewrite Hleaf. unfold get_node in *. rewrite node_at_app, Hp. cbn.
      by rewrite Hk.
Qed.

(** The entry [touch] makes for a mode. *)
Definition touch_entry (mode : Z) : Entry :=
  if Z.land mode TYPE_MASK =? SOCKET_MODE then ESocket else EFile [].

(** C16. mkdir and touch refine the map from paths to entries: they keep the tree well formed and add exactly one entry, a directory, a socket or an empty file, or fail without a change, and fail only for a bad name, a parent that is not a directory or a name that is taken. *)
Theorem ramfs_create_refines (parent nm : string) (mode : Z) (fs : InitramfsFs) :
  wf fs ->
  create_post (split_path parent) nm EDir fs (ram_mkdir parent nm mode fs) /\
  create_post (split_path parent) nm (touch_entry mode) fs (ram_touch parent nm mode fs).
Proof.
  intros Hwf. split; apply add_child_refines; try done; [constructor|].
  unfold touch_entry. case_match; constructor.
Qed.

(** rm keeps the tree well formed and takes away the entry and everything below it, or fails without a change, and fails only when nothing is there. *)
Theorem ramfs_rm_refines (path : string) (fs : InitramfsFs) :
  wf fs ->
  let p := split_path path in
  let '(r, fs') := ram_rm path fs in
  match r with
  | Ok _ => wf fs' /\ view fs p <> None /\
      forall q, view fs' q = if decide (p `prefix_of` q) then None else view fs q
  | Err _ => fs' = fs /\ (p = [] \/ view fs p = None)
  | Panic => False
  end.
Proof.
  intros Hwf p. unfold ram_rm. fold p. destruct (last p) as [k|] eqn:Hl.
  2: { split; [done|]. left. by apply last_None. }
  apply last_Some in Hl as [p0 Hp0]. rewrite Hp0 in *. rewrite removelast_last.
  assert (forall n, get_node fs p0 = Some n -> (forall c, n <> Node.Dir c) -> view fs (p0 ++ [k]) = None) as Hnd.
  { intros n Hn Hnc. unfold view, get_node in *. rewrite node_at_app, Hn. destruct n; try done. by edestruct Hnc. }
  destruct (get_node fs p0) as [n|] eqn:Hg.
  2: { split; [done|]. right. unfold view, get_node in *. by rewrite node_at_app, Hg. }
  destruct n as [|c| |]; try (split; [done|]; right; by eapply Hnd).
  pose proof (view_child fs p0 c k Hg) as Hv. unfold contains_key.
  destruct (bt_get k c) as [old|] eqn:Hk; [|by split; [done|]; right].
  change (mkRamFs _ (heap fs)) with (set_children p0 (bt_remove k c) (heap fs) fs).
  assert (forall k', k' <> k -> bt_get k' (bt_remove k c) = bt_get k' c) as Hkeep
    by (intros; by apply bt_get_remove_ne).
  assert (sorted_keys c) as Hs by (by eapply (wf_sorted fs)).
  split; [|split; [by rewrite Hv|]].
  - eapply change_wf; eauto using bt_remove_sorted.
    + intros s d. by rewrite bt_get_remove.
    + intros s a. by rewrite bt_get_remove.
  - intros q. destruct (decide _) as [[s ->]|Hn]; [|by eapply change_view].
    unfold view. rewrite <- app_assoc. cbn. by rewrite (change_under fs p0 c), bt_get_remove.
Qed.

(** ** Open files *)

Lemma file_data_alter h a f b :
  (a < length h)%nat -> file_data (alter f a h) b = if decide (b = a) then f (file_data h a) else file_data h b.
Proof.
  intros Ha. unfold file_data. destruct (decide (b = a)) as [->|Hne].
  - rewrite list_lookup_alter_eq. destruct (lookup_lt_is_Some_2 h a Ha) as [d ->]. done.
  - by rewrite list_lookup_alter_ne.
Qed.

(** Changing the contents of one file. *)
Lemma set_data_view fs p a f :
  wf fs -> get_node fs p = Some (Node.File a) ->
  wf (set_data a f fs) /\
  forall q, view (set_data a f fs) q =
    if decide (q = p) then Some (EFile (f (file_data (heap fs) a))) else view fs q.
Proof.
  intros Hwf Hp. pose proof (wf_alloc fs Hwf _ _ Hp) as Ha. split.
  - destruct Hwf as [H1 H2 H3 H4]. split; cbn; try done. intros q b Hq. rewrite length_alter. eauto.
  - intros q. unfold view. change (get_node (set_data a f fs) q) with (get_node fs q).
    destruct (decide (q = p)) as [->|Hqp].
    + rewrite Hp. cbn. by rewrite file_data_alter, decide_True.
    + destruct (get_node fs q) as [[b|c|t|]|] eqn:Hq; cbn; try done.
      rewrite file_data_alter by done. rewrite decide_False; [done|].
      intros ->. by apply Hqp, (wf_unshared fs Hwf _ _ a).
Qed.

Lemma read_slice_spec d lba n : 0 <= lba -> read_slice d lba n = take n (drop (Z.to_nat lba) d).
Proof.
  intros Hl. unfold read_slice. destruct (Z.leb_spec (Z.of_nat (length d)) lba); [|done].
  rewrite drop_ge by lia. by rewrite take_nil.
Qed.

(** C17. In a well-formed tree, opening a file gives a node on its contents: the size is theirs, and a read returns the bytes from the offset on. A write fails without a change when its end overflows; a write or a truncation that makes the file longer panics exactly when the vector cannot grow, its new length over isize::MAX or refused by the heap, whatever the heap grants; any other write or truncation, a gap filled with zeros, changes the contents at that path and nothing else. *)
Theorem ramfs_file_io `{VecHeap} (path : string) (fs : InitramfsFs) (d : list Z) :
  wf fs -> view fs (split_path path) = Some (EFile d) ->
  exists n, ram_open path fs = (Ok n, fs) /\ size (metadata n) = Z.of_nat (length d) /\
    (forall lba len, 0 <= lba ->
       VfsNode_read n lba len fs = (Ok (take len (drop (Z.to_nat lba) d)), fs)) /\
    (forall lba src, 0 <= lba ->
       let e := lba + Z.of_nat (length src) in
       if U64_MAX <? e then VfsNode_write n lba src fs = (Err tt, fs)
       else if (Z.of_nat (length d) <? e) && negb (vec_room d e) then VfsNode_write n lba src fs = (Panic, fs)
       else exists fs', VfsNode_write n lba src fs = (Ok tt, fs') /\ wf fs' /\
         forall q, view fs' q = if decide (q = split_path path)
                                then Some (EFile (overlay (Z.to_nat lba) src d)) else view fs q) /\
    (forall len, 0 <= len ->
       if (Z.of_nat (length d) <? len) && negb (vec_room d len) then VfsNode_truncate n len fs = (Panic, fs)
       else exists n' fs', VfsNode_truncate n len fs = (Ok n', fs') /\ size (metadata n') = len /\ wf fs' /\
         forall q, view fs' q = if decide (q = split_path path)
                                then Some (EFile (resize_zero (Z.to_nat len) d)) else view fs q).
Proof.
  intros Hwf Hv. set (p := split_path path) in *. unfold view in Hv.
  destruct (get_node fs p) as [[a|c|t|]|] eqn:Hg; cbn in Hv; try discriminate.
  injection Hv as Hd. unfold ram_open, node_metadata. fold p. rewrite Hg. cbn [mbind option_bind].
  eexists. split; [reflexivity|]. cbn [metadata size]. split; [by rewrite Hd|].
  assert (Hset : forall d', wf (set_data a (fun _ => d') fs) /\
    forall q, view (set_data a (fun _ => d') fs) q = if decide (q = p) then Some (EFile d') else view fs q)
    by (intros d'; apply (set_data_view fs p a (fun _ => d') Hwf Hg)).
  split; [|split].
  - intros lba len Hl. unfold VfsNode_read. cbn. by rewrite Hd, read_slice_spec.
  - intros lba src Hl. cbv zeta. set (e := lba + Z.of_nat (length src)). unfold VfsNode_write. cbn [vn_write ram_node_ops node RamNode_write].
    unfold checked_add. fold e. rewrite Hd.
    destruct (Z.ltb_spec U64_MAX e); [by replace (e <=? U64_MAX) with false by lia|]. replace (e <=? U64_MAX) with true by lia.
    assert (Hw : store (Z.to_nat lba) src (if Z.of_nat (length d) <? e then resize_zero (Z.to_nat e) d else d) = overlay (Z.to_nat lba) src d).
    { rewrite <- (write_overlay (Z.to_nat lba)). f_equal. replace (Z.to_nat lba + length src)%nat with (Z.to_nat e) by (unfold e; lia).
      by rewrite Z2Nat.id by lia. }
    unfold vec_resize. destruct (Z.of_nat (length d) <? e); cbn [andb]; [destruct (negb (vec_room d e)); [done|]|]; rewrite Hw; eauto.
  - intros len Hlen. unfold VfsNode_truncate, bindM. cbn [vn_truncate ram_node_ops node RamNode_truncate]. rewrite Hd. unfold vec_resize.
    destruct (_ && _); [done|]. eexists _, _. split; [reflexivity|]. by split.
Qed.

Definition sample_fs : InitramfsFs := (ram_touch "/" "a" 438 InitramfsFs_empty).2.

Lemma wf_sample : wf sample_fs.
Proof.
  pose proof (add_child_refines "/" "a" (fun h => (Node.File (length h), h ++ [[]])) InitramfsFs_empty
    (EFile []) wf_empty (fresh_file [])) as H. apply H.
Qed.

Lemma ramfs_create_refines_witness :
  wf sample_fs /\ create_post ["tmp"] "b" EDir sample_fs (ram_mkdir "/tmp" "b" 493 sample_fs).
Proof. split; [exact wf_sample|]. exact (proj1 (ramfs_create_refines "/tmp" "b" 493 sample_fs wf_sample)). Defined.

Lemma ramfs_rm_refines_witness : view (ram_rm "/a" sample_fs).2 ["a"] = None.
Proof. destruct (ramfs_rm_refines "/a" sample_fs wf_sample) as (_ & _ & H). exact (H ["a"]). Defined.

(** A heap of 100 MiB: three bytes are written past the end of an empty file; a length of
    a tebibyte, or one no vector can have, stops the kernel. *)
#[local] Instance small_heap : VecHeap := fun _ len => len <=? 104857600.

Lemma ramfs_file_io_witness : exists n,
  ram_open "a" sample_fs = (Ok n, sample_fs) /\ size (metadata n) = 0 /\
  (exists fs', VfsNode_write n 2 [7; 8; 9] sample_fs = (Ok tt, fs') /\ view fs' ["a"] = Some (EFile [0; 0; 7; 8; 9])) /\
  VfsNode_truncate n (2 ^ 40) sample_fs = (Panic, sample_fs) /\ VfsNode_write n (2 ^ 63) [1] sample_fs = (Panic, sample_fs) /\
  VfsNode_write n U64_MAX [1] sample_fs = (Err tt, sample_fs).
Proof.
  destruct (ramfs_file_io "a" sample_fs [] wf_sample eq_refl) as (n & H1 & H2 & _ & H3 & H4).
  exists n. split; [exact H1|]. split; [exact H2|]. split.
  - destruct (H3 2 [7; 8; 9] ltac:(lia)) as (fs' & E & _ & Hv). exists fs'. split; [exact E|]. rewrite Hv. reflexivity.
  - split; [exact (H4 (2 ^ 40) ltac:(lia))|]. split; [exact (H3 (2 ^ 63) [1] ltac:(lia))|exact (H3 U64_MAX [1] ltac:(unfold U64_MAX; lia))].
Defined.
