(* ===== verification/Initramfs.v ===== *)
(** * Unpacking the initial archive (sys/fs/ram_fs/mod.rs, initramfs.rs)

    What [InitramfsFs::new] builds from a well-formed archive, and when it ends. *)

From Stdlib Require Import ZifyBool Ascii.
From S2P Require Import Prelude Bytes Text Vfs Cpio RamFs.

(** ** Building the tree from an archive *)

Lemma insert_entry_cons e k k2 rest cur h :
  insert_entry e (k :: k2 :: rest) cur h =
  let cur := or_insert k (Node.Dir []) cur in
  match bt_get k cur with
  | Some (Node.Dir children) =>
    let '(children, h) := insert_entry e (k2 :: rest) children h in
    (bt_update k (Node.Dir children) cur, h)
  | _ => (cur, h)
  end.
Proof. done. Qed.

(** What an entry leaves at its own path, given what was there. *)
Definition leaf (e : CpioEntry) (h : list (list Z)) (old : option Node.t) : option Node.t :=
  if is_directory (header e) then Some (default (Node.Dir []) old)
  else if is_symlink (header e) then Some (Node.Symlink (default "" (from_utf8 (entry_data e))))
  else if is_regular_file (header e) then Some (Node.File (length h))
  else old.

(** It may replace a directory: the entry is a file or a symbolic link. *)
Definition replaces (e : CpioEntry) : bool :=
  negb (is_directory (header e)) && (is_symlink (header e) || is_regular_file (header e)).

Lemma insert_last_spec e k cur h :
  let '(cur', h') := insert_last e k cur h in
  bt_get k cur' = leaf e h (bt_get k cur) /\
  (forall k', k' <> k -> bt_get k' cur' = bt_get k' cur) /\
  (sorted_keys cur -> sorted_keys cur') /\ (exists ext, h' = h ++ ext) /\
  (replaces e = false -> forall n, bt_get k cur = Some n -> bt_get k cur' = Some n) /\
  (is_regular_file (header e) = true -> is_directory (header e) = false ->
   is_symlink (header e) = false -> h' = h ++ [entry_data e]).
Proof.
  unfold insert_last, leaf, replaces, alloc_data.
  destruct (is_directory (header e)); [|destruct (is_symlink (header e)); [|destruct (is_regular_file (header e))]];
    cbn [negb andb orb].
  - rewrite or_insert_get. repeat split; auto using or_insert_sorted, or_insert_get_ne; try done.
    + exists []. by rewrite app_nil_r.
    + by intros _ n ->.
  - rewrite bt_get_insert. repeat split; auto using bt_insert_sorted, bt_get_insert_ne; try done.
    exists []. by rewrite app_nil_r.
  - rewrite bt_get_insert. repeat split; auto using bt_insert_sorted, bt_get_insert_ne; try done. eauto.
  - repeat split; auto; try done. exists []. by rewrite app_nil_r.
Qed.

Lemma insert_entry_heap e comps cur h : exists ext, (insert_entry e comps cur h).2 = h ++ ext.
Proof.
  revert cur h. induction comps as [|k comps IH]; intros cur h; [exists []; by rewrite app_nil_r|].
  destruct comps as [|k2 rest].
  - pose proof (insert_last_spec e k cur h) as H. cbn [insert_entry].
    destruct (insert_last e k cur h). tauto.
  - rewrite insert_entry_cons. cbv zeta.
    destruct (bt_get k _) as [[]|]; try (exists []; cbn; by rewrite app_nil_r).
    specialize (IH children h). by destruct (insert_entry e (k2 :: rest) children h).
Qed.

(** [b] has no other leaves than [a], and under [P] it has those of [a]. *)
Definition kept (P : Prop) (a b : option Node.t) : Prop :=
  (forall x, b = Some x -> (forall d, x <> Node.Dir d) -> a = Some x) /\
  (forall x, a = Some x -> P ->
     match x with Node.Dir _ => exists d, b = Some (Node.Dir d) | _ => b = Some x end).

Lemma kept_refl P a : kept P a a.
Proof. split; [done|]. intros x -> _. destruct x; eauto. Qed.

Lemma kept_weaken (P Q : Prop) a b : (Q -> P) -> kept P a b -> kept Q a b.
Proof. intros HPQ [H1 H2]. split; [done|]. intros x Hx HQ. exact (H2 x Hx (HPQ HQ)). Qed.

Lemma insert_last_away e k cur h q :
  q <> [] ->
  kept (replaces e = false) (bt_get k cur ≫= node_at q)
    (bt_get k (insert_last e k cur h).1 ≫= node_at q).
Proof.
  intros Hq. pose proof (insert_last_spec e k cur h) as H.
  destruct (insert_last e k cur h) as [cur' h']. destruct H as (Hk & _ & _ & _ & Hold & _).
  cbn [fst]. rewrite Hk. destruct q as [|j q]; [done|]. unfold leaf, replaces.
  destruct (is_directory (header e)); [|destruct (is_symlink (header e)); [|destruct (is_regular_file (header e))]];
    cbn [negb andb orb]; try apply kept_refl; try (by split; [|intros]).
  destruct (bt_get k cur); [apply kept_refl|]. by split; intros.
Qed.

(** Away from its own path an entry creates directories only, and leaves what is
    there as it was, unless it replaces something above it. *)
Lemma insert_entry_away e comps cur h q :
  q <> comps ->
  kept (replaces e = true -> ~ comps `prefix_of` q) (node_at q (Node.Dir cur))
    (node_at q (Node.Dir (insert_entry e comps cur h).1)).
Proof.
  revert cur h q. induction comps as [|k comps IH]; intros cur h q Hq; [apply kept_refl|].
  destruct q as [|j q].
  { split; [intros x [= <-] Hx; by edestruct Hx|]. intros x [= <-] _. cbn. eauto. }
  destruct comps as [|k2 rest].
  - cbn [insert_entry node_at]. destruct (decide (j = k)) as [->|Hj].
    + eapply kept_weaken; [|apply insert_last_away; by intros ->].
      intros HP. destruct (replaces e); [|done]. destruct HP; [done|]. by exists q.
    + pose proof (insert_last_spec e k cur h) as H.
      destruct (insert_last e k cur h) as [cur' h']. destruct H as (_ & Hkeep & _).
      cbn [fst]. rewrite Hkeep by done. apply kept_refl.
  - rewrite insert_entry_cons. cbv zeta. rewrite or_insert_get. cbn [node_at].
    destruct (default (Node.Dir []) (bt_get k cur)) as [|children| |] eqn:Hn; cbn [fst];
      try (destruct (decide (j = k)) as [->|Hj];
           [rewrite or_insert_get; destruct (bt_get k cur); cbn in Hn; simplify_eq; apply kept_refl
           |rewrite or_insert_get_ne by done; apply kept_refl]).
    specialize (IH children h q). destruct (insert_entry e (k2 :: rest) children h) as [c1 h1]. cbn [fst] in *.
    destruct (decide (j = k)) as [->|Hj].
    + rewrite bt_get_update by (rewrite or_insert_get; eauto). cbn [mbind option_bind].
      assert (q <> k2 :: rest) as Hq' by (by intros ->). specialize (IH Hq').
      destruct (bt_get k cur) as [n|] eqn:Hk; cbn in Hn; subst.
      * eapply kept_weaken; [|exact IH]. intros HP Hr Hpre. by apply HP, prefix_cons.
      * injection Hn as <-. destruct IH as [IH _]. split; [|done]. intros x Hx Hnd.
        specialize (IH x Hx Hnd). destruct q; cbn in IH; [|done]. simplify_eq. by edestruct Hnd.
    + rewrite bt_get_update_ne, or_insert_get_ne by done. apply kept_refl.
Qed.

(** Nothing on the way to [comps] is something else than a directory. *)
Definition unblocked (cur : Children) (comps : list string) : Prop :=
  forall q n, q `prefix_of` comps -> q <> comps -> node_at q (Node.Dir cur) = Some n ->
    exists d, n = Node.Dir d.

Lemma insert_entry_at e comps cur h :
  comps <> [] -> unblocked cur comps ->
  let '(cur', h') := insert_entry e comps cur h in
  node_at comps (Node.Dir cur') = leaf e h (node_at comps (Node.Dir cur)) /\
  (is_regular_file (header e) = true -> is_directory (header e) = false ->
   is_symlink (header e) = false -> h' = h ++ [entry_data e]).
Proof.
  revert cur h. induction comps as [|k comps IH]; intros cur h Hne Hub; [done|].
  destruct comps as [|k2 rest].
  - pose proof (insert_last_spec e k cur h) as H. cbn [insert_entry].
    destruct (insert_last e k cur h) as [cur' h']. destruct H as (Hk & _ & _ & _ & _ & Hh).
    cbn [node_at]. rewrite Hk. split; [|done]. destruct (bt_get k cur), (leaf e h _); done.
  - rewrite insert_entry_cons. cbv zeta. rewrite or_insert_get.
    assert (exists c, default (Node.Dir []) (bt_get k cur) = Node.Dir c) as [c Hc].
    { destruct (bt_get k cur) as [n|] eqn:Hk; [|cbn; eauto]. cbn. apply (Hub [k]); [by exists (k2 :: rest)|done|].
      cbn. by rewrite Hk. }
    rewrite Hc. specialize (IH c h ltac:(done)).
    destruct (insert_entry e (k2 :: rest) c h) as [c1 h1].
    assert (node_at (k :: k2 :: rest) (Node.Dir cur) = node_at (k2 :: rest) (Node.Dir c)) as Heq.
    { cbn [node_at]. destruct (bt_get k cur) as [n|]; cbn in Hc; [by subst|]. by injection Hc as <-. }
    rewrite Heq. destruct IH as [IH1 IH2].
    + intros [|x q] n Hpre Hq Hn; [cbn in Hn; injection Hn as <-; eauto|].
      apply (Hub (k :: x :: q)); [by apply prefix_cons|congruence|].
      cbn [node_at]. destruct (bt_get k cur) as [m|]; cbn in Hc; [by subst|]. by injection Hc as <-.
    + split; [|done]. cbn [node_at]. by rewrite bt_get_update by (rewrite or_insert_get; eauto).
Qed.

Lemma insert_entry_sorted e comps cur h :
  (forall q d, node_at q (Node.Dir cur) = Some (Node.Dir d) -> sorted_keys d) ->
  forall q d, node_at q (Node.Dir (insert_entry e comps cur h).1) = Some (Node.Dir d) -> sorted_keys d.
Proof.
  revert cur h. induction comps as [|k comps IH]; intros cur h Hs q d; [apply Hs|].
  assert (sorted_keys cur) as Hcur by (by apply (Hs [])).
  destruct comps as [|k2 rest].
  - pose proof (insert_last_spec e k cur h) as H. cbn [insert_entry].
    destruct (insert_last e k cur h) as [cur' h']. destruct H as (Hk & Hkeep & Hsort & _).
    cbn [fst]. destruct q as [|j q]; [intros [= <-]; auto|]. cbn [node_at].
    destruct (decide (j = k)) as [->|Hj]; [|rewrite Hkeep by done; apply (Hs (j :: q))].
    rewrite Hk. unfold leaf. repeat case_match; cbn [mbind option_bind]; try (by destruct q).
    + destruct (bt_get k cur) as [n|] eqn:Hg; cbn [default].
      * intros Hn. apply (Hs (k :: q)). cbn. by rewrite Hg.
      * destruct q; cbn; [intros [= <-]; constructor|done].
    + apply (Hs (k :: q)).
  - rewrite insert_entry_cons. cbv zeta. rewrite or_insert_get.
    destruct (default (Node.Dir []) (bt_get k cur)) as [|c| |] eqn:Hn; cbn [fst];
      try (unfold or_insert, contains_key; destruct (bt_get k cur); cbn in Hn; [apply Hs|done]).
    specialize (IH c h). destruct (insert_entry e (k2 :: rest) c h) as [c1 h1]. cbn [fst] in *.
    destruct q as [|j q]; cbn [node_at].
    + intros [= <-]. eapply sorted_keys_ext; [symmetry; apply bt_update_keys|]. by apply or_insert_sorted.
    + destruct (decide (j = k)) as [->|Hj].
      * rewrite bt_get_update by (rewrite or_insert_get; eauto). cbn [mbind option_bind]. apply IH.
        intros q' d' Hq'. destruct (bt_get k cur) as [n|] eqn:Hg; cbn in Hn.
        -- subst n. apply (Hs (k :: q')). cbn. by rewrite Hg.
        -- injection Hn as <-. destruct q'; cbn in Hq'; [|done]. simplify_eq. constructor.
      * rewrite bt_get_update_ne, or_insert_get_ne by done. apply (Hs (j :: q)).
Qed.

(** A file found at the entry's path was there, or is the one just allocated. *)
Lemma insert_entry_file e comps cur h a :
  let '(cur', h') := insert_entry e comps cur h in
  node_at comps (Node.Dir cur') = Some (Node.File a) ->
  node_at comps (Node.Dir cur) = Some (Node.File a) \/ (a = length h /\ h' = h ++ [entry_data e]).
Proof.
  revert cur h. induction comps as [|k comps IH]; intros cur h; [by left|].
  destruct comps as [|k2 rest].
  - pose proof (insert_last_spec e k cur h) as H. cbn [insert_entry].
    destruct (insert_last e k cur h) as [cur' h']. destruct H as (Hk & _ & _ & _ & _ & Hh).
    cbn [node_at]. rewrite Hk. unfold leaf. repeat case_match; cbn; try done.
    + destruct (bt_get k cur); cbn; [by left|done].
    + intros [= <-]. right. auto.
    + by left.
  - rewrite insert_entry_cons. cbv zeta. rewrite or_insert_get. cbn [node_at].
    destruct (default (Node.Dir []) (bt_get k cur)) as [|c| |] eqn:Hn;
      try (rewrite or_insert_get; cbn [mbind option_bind]; rewrite Hn; done).
    specialize (IH c h). destruct (insert_entry e (k2 :: rest) c h) as [c1 h1].
    rewrite bt_get_update by (rewrite or_insert_get; eauto). cbn [mbind option_bind].
    intros [Ho|?]%IH; [left|by right]. destruct (bt_get k cur) as [n|]; cbn in Hn; [by subst|].
    by injection Hn as <-.
Qed.

Abbreviation tree st := (mkRamFs (Node.Dir (fst st)) (snd st)).

Lemma insert_entry_wf e comps st :
  wf (tree st) -> wf (tree (insert_entry e comps (fst st) (snd st))).
Proof.
  destruct st as [cur h]. intros [_ Hs Ha Hu]. cbn in Hs, Ha, Hu. cbn [fst snd].
  destruct (insert_entry_heap e comps cur h) as [ext Hext].
  pose proof (insert_entry_file e comps cur h) as Hfile.
  assert (forall q a, q <> comps ->
    node_at q (Node.Dir (insert_entry e comps cur h).1) = Some (Node.File a) ->
    node_at q (Node.Dir cur) = Some (Node.File a)) as Hold.
  { intros q a Hq Hn. by apply (insert_entry_away e comps cur h q Hq). }
  pose proof (insert_entry_sorted e comps cur h Hs) as Hs'.
  destruct (insert_entry e comps cur h) as [cur' h']. cbn in *. subst h'.
  split; cbn; [eauto|done| |].
  - intros q a Hq. unfold get_node in *. cbn in *. rewrite length_app. destruct (decide (q = comps)) as [->|Hne].
    + destruct (Hfile a Hq) as [Ho|[-> ->%app_inv_head]]; [specialize (Ha _ _ Ho); lia|cbn; lia].
    + specialize (Ha _ _ (Hold _ _ Hne Hq)). lia.
  - intros p q a Hp Hq. unfold get_node in *. cbn in *.
    destruct (decide (p = comps)) as [->|Hpc], (decide (q = comps)) as [->|Hqc]; try done.
    + destruct (Hfile a Hp) as [Ho|[-> _]]; [by eapply Hu; eauto|]. specialize (Ha _ _ (Hold _ _ Hqc Hq)). lia.
    + destruct (Hfile a Hq) as [Ho|[-> _]]; [by eapply Hu; eauto|]. specialize (Ha _ _ (Hold _ _ Hpc Hp)). lia.
    + by eapply Hu; eauto.
Qed.

(** *** Archives whose members do not contradict each other *)

Definition member_path (m : Member) : list string := components (m_name m).
Definition member_type (m : Member) : Z := Z.land (m_mode m) TYPE_MASK.

Record member_valid (m : Member) : Prop := {
  mv_sizes : member_ok m;
  mv_mode : in_width 32 (m_mode m);
  mv_utf8 : utf8_valid (as_bytes (m_name m)) = true;
  mv_name : m_name m <> "TRAILER!!!";
  mv_path : member_path m <> [];
}.

(** Distinct paths, and only directories have members below them. *)
Definition consistent (ms : list Member) : Prop :=
  NoDup (member_path <$> ms) /\
  forall m m', m ∈ ms -> m' ∈ ms -> member_path m `prefix_of` member_path m' ->
    m = m' \/ member_type m = TYPE_DIR.

(** What a member stands for. *)
Definition member_view (m : Member) : option Entry :=
  if member_type m =? TYPE_DIR then Some EDir
  else if member_type m =? TYPE_LNK then Some (ESymlink (default "" (from_utf8 (m_data m))))
  else if member_type m =? TYPE_REG then Some (EFile (m_data m))
  else None.

Lemma member_filename m : member_valid m -> filename (member_entry m) = Some (m_name m).
Proof.
  intros Hm. unfold filename, from_utf8. cbn. rewrite last_snoc, removelast_last, (mv_utf8 m Hm).
  by rewrite of_as_bytes.
Qed.

Lemma member_add m st :
  member_valid m -> add_entry (member_entry m) st = insert_entry (member_entry m) (member_path m) st.1 st.2.
Proof.
  intros Hm. unfold add_entry. rewrite (member_filename m Hm).
  pose proof (components_trim (m_name m)) as Ht. pose proof (mv_path m Hm) as Hp. unfold member_path in *.
  destruct (trim_matches slash (m_name m)); [by rewrite <- Ht in Hp|]. cbn [is_empty]. by rewrite Ht.
Qed.

Lemma member_has_type m t : member_valid m -> has_type t (encode_header m) = (member_type m =? t).
Proof.
  intros Hm. unfold has_type, mode. cbn [encode_header c_mode].
  by rewrite (hex_to_u64_to_hex _ (mv_mode m Hm)).
Qed.

(** The tree after the members [done]. *)
Definition holds_members (done : list Member) (fs : InitramfsFs) : Prop :=
  wf fs /\ (forall m e, m ∈ done -> member_view m = Some e -> view fs (member_path m) = Some e) /\
  (forall q e, view fs q = Some e -> e <> EDir -> exists m, m ∈ done /\ q = member_path m).

Lemma kept_view P cur cur' h ext q :
  (forall a, node_at q (Node.Dir cur) = Some (Node.File a) -> (a < length h)%nat) ->
  kept P (node_at q (Node.Dir cur)) (node_at q (Node.Dir cur')) ->
  (forall e, view (mkRamFs (Node.Dir cur') (h ++ ext)) q = Some e -> e <> EDir ->
     view (mkRamFs (Node.Dir cur) h) q = Some e) /\
  (forall e, view (mkRamFs (Node.Dir cur) h) q = Some e -> P ->
     view (mkRamFs (Node.Dir cur') (h ++ ext)) q = Some e).
Proof.
  intros Ha [K1 K2]. unfold view, get_node. cbn [root heap].
  assert (forall n, node_at q (Node.Dir cur) = Some n -> entry_of (h ++ ext) n = entry_of h n) as He.
  { intros [a|c|t|] Hn; cbn; try done. unfold file_data. by rewrite lookup_app_l by eauto. }
  split.
  - intros e He' Hnd. destruct (node_at q (Node.Dir cur')) as [x|] eqn:Hx; [|done]. cbn in He'. simplify_eq.
    assert (forall d, x <> Node.Dir d) as Hxd by (intros d ->; done).
    rewrite (K1 x eq_refl Hxd). cbn. f_equal. symmetry. apply He. by apply K1.
  - intros e He' HP. destruct (node_at q (Node.Dir cur)) as [x|] eqn:Hx; [|done]. cbn in He'. simplify_eq.
    specialize (K2 x eq_refl HP). specialize (He x eq_refl).
    destruct x; [rewrite K2; cbn; by f_equal|by destruct K2 as [d ->]|by rewrite K2|by rewrite K2].
Qed.

Section add_member.
Context (m : Member) (done : list Member) (cur : Children) (h : list (list Z)).
Hypothesis Hm : member_valid m.
Hypothesis Hcons : consistent (done ++ [m]).
Hypothesis Hdone : holds_members done (tree (cur, h)).

Lemma member_new m' : m' ∈ done -> member_path m' <> member_path m.
Proof.
  intros Hm' Heq. destruct Hcons as [Hnd _]. rewrite fmap_app, NoDup_app in Hnd.
  destruct Hnd as (_ & Hd & _). apply (Hd (member_path m')); [by apply list_elem_of_fmap_2|].
  rewrite Heq. by left.
Qed.

Lemma member_prefix m' :
  m' ∈ done -> (member_path m' `prefix_of` member_path m -> member_type m' = TYPE_DIR) /\
               (member_path m `prefix_of` member_path m' -> member_type m = TYPE_DIR).
Proof.
  intros Hm'. pose proof (member_new m' Hm') as Hne. destruct Hcons as [_ Hc].
  assert (m ∈ done ++ [m]) as H1 by (apply elem_of_app; right; by left).
  assert (m' ∈ done ++ [m]) as H2 by (apply elem_of_app; by left).
  split; intros Hpre.
  - destruct (Hc m' m H2 H1 Hpre) as [->|]; [by destruct Hne|done].
  - destruct (Hc m m' H1 H2 Hpre) as [->|]; [by destruct Hne|done].
Qed.

(** A leaf on the way to the member, or in its place, would be a member already. *)
Lemma member_no_leaf q n :
  q `prefix_of` member_path m -> node_at q (Node.Dir cur) = Some n -> exists d, n = Node.Dir d.
Proof.
  destruct Hdone as (_ & Hin & Hout). intros Hpre Hn.
  assert (view (tree (cur, h)) q = Some (entry_of h n)) as Hv by (unfold view, get_node; cbn; by rewrite Hn).
  destruct (decide (entry_of h n = EDir)) as [He|He]; [destruct n; try done; eauto|].
  destruct (Hout q _ Hv He) as (m' & Hm' & ->).
  pose proof (proj1 (member_prefix m' Hm') Hpre) as Ht.
  rewrite (Hin m' EDir Hm') in Hv; [by simplify_eq|]. unfold member_view. by rewrite Ht.
Qed.

Lemma member_leaf cur' h' :
  insert_entry (member_entry m) (member_path m) cur h = (cur', h') ->
  forall e, member_view m = Some e -> view (mkRamFs (Node.Dir cur') h') (member_path m) = Some e.
Proof.
  intros Hi e He.
  assert (unblocked cur (member_path m)) as Hub by (intros q n Hpre _; by apply member_no_leaf).
  pose proof (insert_entry_at (member_entry m) (member_path m) cur h (mv_path m Hm) Hub) as Hat.
  rewrite Hi in Hat. destruct Hat as [Hat Hh]. unfold view, get_node. cbn [root heap]. rewrite Hat.
  unfold leaf, is_directory, is_symlink, is_regular_file, member_view in *. cbn [header member_entry entry_data] in *.
  rewrite !member_has_type in * by done.
  destruct (member_type m =? TYPE_DIR); [|destruct (member_type m =? TYPE_LNK); [|destruct (member_type m =? TYPE_REG)]];
    simplify_eq; cbn; try done.
  - destruct (node_at (member_path m) (Node.Dir cur)) as [n|] eqn:Hn; cbn; [|done].
    by destruct (member_no_leaf _ _ (reflexivity _) Hn) as [d ->].
  - rewrite Hh by done. unfold file_data. by rewrite list_lookup_middle.
Qed.

Lemma add_member : holds_members (done ++ [m]) (tree (add_entry (member_entry m) (cur, h))).
Proof.
  destruct Hdone as (Hwf & Hin & Hout). rewrite member_add by done. cbn [fst snd].
  pose proof (insert_entry_wf (member_entry m) (member_path m) (cur, h) Hwf) as Hwf'. cbn [fst snd] in Hwf'.
  pose proof (insert_entry_away (member_entry m) (member_path m) cur h) as Haway.
  destruct (insert_entry_heap (member_entry m) (member_path m) cur h) as [ext Hext].
  pose proof member_leaf as Hleaf.
  destruct (insert_entry (member_entry m) (member_path m) cur h) as [cur' h']. cbn [fst snd] in *. subst h'.
  specialize (Hleaf _ _ eq_refl).
  assert (forall q, q <> member_path m -> kept (replaces (member_entry m) = true -> ~ member_path m `prefix_of` q)
    (node_at q (Node.Dir cur)) (node_at q (Node.Dir cur')) ) as Haway' by done.
  assert (forall q a, node_at q (Node.Dir cur) = Some (Node.File a) -> (a < length h)%nat) as Ha
    by (intros q a Hq; by apply (wf_alloc _ Hwf q)).
  split; [done|]. split.
  - intros m' e [Hm'| ->%list_elem_of_singleton]%elem_of_app He; [|auto].
    destruct (kept_view _ cur cur' h ext _ (Ha (member_path m')) (Haway' _ (member_new m' Hm'))) as [_ K].
    apply K; [auto|]. intros Hr Hpre. apply (member_prefix m' Hm') in Hpre.
    unfold replaces, is_directory in Hr. cbn [header member_entry] in Hr.
    by rewrite member_has_type, Hpre in Hr by done.
  - intros q e Hq He. destruct (decide (q = member_path m)) as [->|Hne].
    + exists m. split; [|done]. apply elem_of_app. right. by left.
    + destruct (kept_view _ cur cur' h ext _ (Ha q) (Haway' _ Hne)) as [K _].
      destruct (Hout q e (K e Hq He) He) as (m' & Hm' & ->). exists m'. split; [|done]. apply elem_of_app. by left.
Qed.
End add_member.

Lemma new_loop_members ms done st :
  Forall member_valid ms -> consistent (done ++ ms) ->
  buf_ok (concat (map encode_member done) ++ concat (map encode_member ms) ++ encode_member trailer_member) ->
  holds_members done (tree st) ->
  exists st', new_loop (S (length ms))
    (mkCpio (concat (map encode_member done) ++ concat (map encode_member ms) ++ encode_member trailer_member)
       (Z.of_nat (length (concat (map encode_member done))))) st = Some st' /\
    holds_members (done ++ ms) (tree st').
Proof.
  intros Hv. revert done st. induction Hv as [|m ms Hm Hms IH]; intros done [cur h] Hc Hb Hd.
  - exists (cur, h). rewrite app_nil_r. split; [|done]. cbn [map concat length new_loop app] in *.
    pose proof (next_member (concat (map encode_member done)) trailer_member []) as Hn.
    rewrite !app_nil_r in Hn. rewrite Hn; [done|by split|done].
  - cbn [map concat length] in *. rewrite <- app_assoc in *.
    assert (consistent (done ++ [m])) as Hc1.
    { destruct Hc as [Hn Hp]. change (m :: ms) with ([m] ++ ms) in Hn. rewrite app_assoc in Hn. split.
      - rewrite fmap_app, NoDup_app in Hn. tauto.
      - intros a b Ha Hb'. apply Hp; change (m :: ms) with ([m] ++ ms); rewrite app_assoc; apply elem_of_app; by left. }
    pose proof (add_member m done cur h Hm Hc1 Hd) as Hd1.
    specialize (IH (done ++ [m]) (add_entry (member_entry m) (cur, h))).
    rewrite map_app, concat_app in IH. cbn [map concat] in IH. rewrite app_nil_r in IH.
    rewrite <- !app_assoc in IH. cbn [app] in IH.
    destruct IH as (st' & IH & Hh); [done|done|done|]. exists st'. split; [|done].
    cbn [new_loop]. rewrite next_member by (done || apply (mv_sizes m Hm)).
    unfold is_trailer. rewrite bool_decide_eq_false_2 by apply (mv_name m Hm). exact IH.
Qed.

(** C18. Unpacking an archive written from valid members, with distinct paths and only directories above other members, ends and gives a well-formed tree with every member in its place and with its contents, and no other file, link or socket. *)
Theorem initramfs_unpacks (ms : list Member) :
  Forall member_valid ms -> consistent ms -> buf_ok (encode_archive ms) ->
  exists fs, InitramfsFs_new (S (length ms)) (CpioIterator_new (encode_archive ms)) = Some fs /\
    wf fs /\
    (forall m e, m ∈ ms -> member_view m = Some e -> view fs (member_path m) = Some e) /\
    (forall q e, view fs q = Some e -> e <> EDir -> exists m, m ∈ ms /\ q = member_path m).
Proof.
  intros Hv Hc Hb. unfold InitramfsFs_new, CpioIterator_new.
  destruct (new_loop_members ms [] ([], []) Hv Hc Hb) as ([cur h] & Hn & Hh).
  { split; [|split].
    - apply wf_empty.
    - intros m e Hm. by apply not_elem_of_nil in Hm.
    - intros [|x q] e; cbn; [intros [= <-]; done|done]. }
  exists (mkRamFs (Node.Dir cur) h). cbn [app map concat length] in Hn.
  unfold encode_archive. change (Z.of_nat 0) with 0 in Hn. by rewrite Hn.
Qed.

Definition sample_archive : list Member :=
  [mkMember 1 16877 0 0 2 0 0 0 0 0 0 "etc" [];
   mkMember 2 33188 0 0 1 0 0 0 0 0 0 "etc/motd" [104; 105];
   mkMember 3 41471 0 0 1 0 0 0 0 0 0 "/motd" (as_bytes "etc/motd")].

Lemma sample_archive_valid : Forall member_valid sample_archive.
Proof.
  repeat constructor; try done; try (by vm_compute); try (by unfold member_ok; cbn; lia);
    unfold in_width; cbn; lia.
Qed.

Lemma sample_archive_consistent : consistent sample_archive.
Proof.
  split; [by vm_compute; repeat constructor; set_solver|].
  intros m m' Hm Hm'. unfold sample_archive in *. rewrite !elem_of_cons, elem_of_nil in Hm, Hm'.
  intros Hpre. destruct Hm as [->|[->|[->|[]]]]; [by right| |];
    destruct Hm' as [->|[->|[->|[]]]]; try (by left); exfalso; vm_compute in Hpre; destruct Hpre as [? Hpre]; discriminate.
Qed.

Lemma initramfs_unpacks_witness : exists fs,
  InitramfsFs_new 4 (CpioIterator_new (encode_archive sample_archive)) = Some fs /\
  view fs ["etc"; "motd"] = Some (EFile [104; 105]).
Proof.
  destruct (initramfs_unpacks sample_archive sample_archive_valid sample_archive_consistent)
    as (fs & H1 & _ & H2 & _); [by vm_compute|].
  exists fs. split; [exact H1|]. apply (H2 (mkMember 2 33188 0 0 1 0 0 0 0 0 0 "etc/motd" [104; 105])); [|reflexivity].
  right. left.
Defined.

(** ** Archives that are cut off or damaged *)

(** The iterator after some entries. *)
Inductive reads : CpioIterator -> CpioIterator -> Prop :=
| reads_here it : reads it it
| reads_entry it e it1 it2 :
    CpioIterator_next it = (Some (inr e), it1) -> reads it1 it2 -> reads it it2.

(** Some entry cannot be read and is not the trailer. *)
Definition damaged (it : CpioIterator) : Prop :=
  exists it' err, reads it it' /\ CpioIterator_next it' = (Some (inl err), it') /\ err <> Trailer.

Lemma new_loop_stuck it it' err :
  reads it it' -> CpioIterator_next it' = (Some (inl err), it') -> err <> Trailer ->
  forall fuel st, new_loop fuel it st = None.
Proof.
  intros Hr Hn He. induction Hr as [it|it e it1 it2 He1 Hr IH]; intros [|fuel] st; try done; cbn.
  - revert st. induction fuel as [|fuel IHf]; intros st; rewrite Hn; destruct err; try done; cbn in *; apply IHf.
  - rewrite He1. auto.
Qed.

Lemma new_loop_ends fuel it st :
  0 <= cpio_pos it -> buf_ok (cpio_buf it) ->
  Z.of_nat (length (cpio_buf it)) - cpio_pos it < Z.of_nat fuel -> (0 < fuel)%nat ->
  (exists st', new_loop fuel it st = Some st') \/ damaged it.
Proof.
  revert it st. induction fuel as [|fuel IH]; intros it st Hp Hb Hf H0; [lia|]. cbn [new_loop].
  destruct (CpioIterator_next it) as [[[err|e]|] it1] eqn:Hn; [| |eauto].
  - destruct (decide (err = Trailer)) as [->|He]; [eauto|]. right.
    pose proof (next_error_stuck _ _ _ Hn He). subst. exists it, err. split; [constructor|done].
  - destruct (next_entry_progress it e it1 Hp Hb Hn) as [Hbuf Hpos]. unfold SIZE in Hpos.
    destruct (Z.ltb_spec (cpio_pos it1) (Z.of_nat (length (cpio_buf it1)))) as [Hlt|Hge].
    + destruct (IH it1 (add_entry e st)) as [Hs|(it' & err & Hr & Hd)]; rewrite ?Hbuf in *; try done; try lia; [eauto|].
      right. exists it', err. split; [by eapply reads_entry|done].
    + left. destruct fuel as [|fuel].
      * pose proof (next_end it). rewrite Hbuf in *.
        assert (Z.of_nat (length (cpio_buf it)) <= cpio_pos it) as Hq by lia.
        rewrite H in Hn by done. done.
      * cbn [new_loop]. rewrite next_end by done. eauto.
Qed.

(** C28. InitramfsFs::new ends, within one step per byte, exactly on archives without a damaged entry: the reader does not move past an error other than the trailer, and the caller only stops at the end or at the trailer, so on a truncated or damaged archive no number of steps is enough. *)
Theorem initramfs_damaged_hangs (buf : list Z) :
  buf_ok buf ->
  (damaged (CpioIterator_new buf) /\ forall fuel, InitramfsFs_new fuel (CpioIterator_new buf) = None) \/
  (~ damaged (CpioIterator_new buf) /\
   exists fs, InitramfsFs_new (S (length buf)) (CpioIterator_new buf) = Some fs).
Proof.
  intros Hb. assert (damaged (CpioIterator_new buf) ->
    forall fuel, InitramfsFs_new fuel (CpioIterator_new buf) = None) as Hd.
  { intros (it' & err & Hr & Hn & He) fuel. unfold InitramfsFs_new. by rewrite (new_loop_stuck _ _ _ Hr Hn He). }
  destruct (new_loop_ends (S (length buf)) (CpioIterator_new buf) ([], [])) as [[[cur h] Hs]|Hdam];
    [cbn; lia|done|cbn [CpioIterator_new cpio_buf cpio_pos]; lia|lia| |left; auto].
  right. assert (exists fs, InitramfsFs_new (S (length buf)) (CpioIterator_new buf) = Some fs) as [fs Hfs].
  { exists (mkRamFs (Node.Dir cur) h). unfold InitramfsFs_new. by rewrite Hs. }
  split; [|eauto]. intros Hdam. by rewrite Hd in Hfs.
Qed.

Lemma initramfs_damaged_hangs_witness :
  buf_ok [48] /\ forall fuel, InitramfsFs_new fuel (CpioIterator_new [48]) = None.
Proof.
  assert (buf_ok [48]) as Hb by done. split; [exact Hb|].
  destruct (initramfs_damaged_hangs [48] Hb) as [[_ H]|[H _]]; [exact H|].
  exfalso. apply H. exists (CpioIterator_new [48]), Truncated. split; [constructor|]. split; [reflexivity|discriminate].
Defined.
