(* ===== verification/MemFd.v ===== *)
(** * Memory files (sys/fs/memfd.rs)

    A memory file owns physical frames and reads and writes them through the
    kernel's mapping of physical memory.  The frames come from an interface,
    [FramePool]: allocation of zeroed frames, release, and the bytes of a frame.  The
    theorems are proved against its laws; the bitmap allocator of
    sys/memory/bitmap.rs with the contents of memory is an instance. *)

From Stdlib Require Import ZifyBool.
From S2P Require Import Prelude Bytes Bitmap FrameAlloc.
Open Scope twilight_scope.

Definition EIO : Z := 5.
Definition EINVAL : Z := 22.

(** [align_up(x, a)] of sys/proc/mem.rs, for a power of two [a]. *)
Definition align_up (x a : Z) : Z := Z.ldiff (usize (usize (x + a) - 1)) (a - 1).

(** [PAGE] as an index. *)
Definition PAGE_N : nat := Z.to_nat PAGE.

Class FramePool (S : Type) := {
  allocate_zeroed_frame : S -> option Z * S;
  pool_deallocate : Z -> S -> S;
  frame_bytes : S -> Z -> list Z;
  set_frame_bytes : Z -> list Z -> S -> S;
}.

Record MemFd := mkMemFd { memfd_name : string; memfd_len : Z; memfd_pages : list Z }.

Definition set_len (n : Z) (f : MemFd) : MemFd := mkMemFd (memfd_name f) n (memfd_pages f).
Definition set_pages (ps : list Z) (f : MemFd) : MemFd := mkMemFd (memfd_name f) (memfd_len f) ps.

Definition MemFd_new (name : string) : MemFd := mkMemFd name 0 [].

Section ops.
Context {S : Type} `{FramePool S}.
Abbreviation MF := (M (MemFd * S) Z).

(** [while self.pages.len() < needed_pages]: [n] pages are missing. *)
Fixpoint grow (n : nat) : MF unit :=
  match n with
  | O => retM tt
  | Datatypes.S n => fun '(f, s) =>
    match allocate_zeroed_frame s with
    | (None, s) => (Err EIO, (f, s))
    | (Some frame, s) => grow n (set_pages (memfd_pages f ++ [frame]) f, s)
    end
  end.

(** [while self.pages.len() > needed_pages]: [n] pages are too many. *)
Fixpoint shrink (n : nat) : MF unit :=
  match n with
  | O => retM tt
  | Datatypes.S n => fun '(f, s) =>
    match last (memfd_pages f) with
    | Some frame => shrink n (set_pages (removelast (memfd_pages f)) f, pool_deallocate frame s)
    | None => shrink n (f, s)
    end
  end.

(** The position of a file offset: page index, offset in the page, bytes up to its end. *)
Definition page_index (off : Z) : nat := Z.to_nat (off / PAGE).
Definition page_off (off : Z) : nat := Z.to_nat (off mod PAGE).
Definition page_count (off rest : Z) : nat := Z.to_nat (Z.min rest (PAGE - off mod PAGE)).

(** Write bytes at an offset of a frame. *)
Definition poke (frame : Z) (off : nat) (src : list Z) (s : S) : S :=
  set_frame_bytes frame (store off src (frame_bytes s frame)) s.

(** The loop of [zero_range]; each turn clears at least one byte of [file_off .. end]. *)
Fixpoint zero_loop (fuel : nat) (file_off e : Z) : MF unit :=
  match fuel with
  | O => retM tt
  | Datatypes.S fuel => fun '(f, s) =>
    if e <=? file_off then (Ok tt, (f, s))
    else
      let count := page_count file_off (e - file_off) in
      match memfd_pages f !! page_index file_off with
      | None => (Err EIO, (f, s))
      | Some frame =>
        zero_loop fuel (file_off + Z.of_nat count) e
          (f, poke frame (page_off file_off) (replicate count 0) s)
      end
  end.

Definition zero_range (offset len : Z) : MF unit :=
  if len =? 0 then retM tt
  else match checked_add offset len with
       | None => failM EINVAL
       | Some e => zero_loop (Z.to_nat len) offset e
       end.

Definition truncate (len : Z) : MF unit :=
  st <-- getM ;;
  let have := length (memfd_pages st.1) in
  let needed_pages := Z.to_nat (if len =? 0 then 0 else align_up len PAGE / PAGE) in
  grow (needed_pages - have) >>>
  shrink (have - needed_pages) >>>
  (if memfd_len st.1 <? len then zero_range (memfd_len st.1) (len - memfd_len st.1) else retM tt) >>>
  modifyM (fun '(f, s) => (set_len len f, s)).

(** The copy loop of [read_at]. *)
Fixpoint read_loop (fuel : nat) (file_off rest : Z) : MF (list Z) :=
  match fuel with
  | O => retM []
  | Datatypes.S fuel => fun '(f, s) =>
    if rest <=? 0 then (Ok [], (f, s))
    else
      let count := page_count file_off rest in
      match memfd_pages f !! page_index file_off with
      | None => (Err EIO, (f, s))
      | Some frame =>
        let chunk := load (page_off file_off) count (frame_bytes s frame) in
        (bs <-- read_loop fuel (file_off + Z.of_nat count) (rest - Z.of_nat count) ;; retM (chunk ++ bs)) (f, s)
      end
  end.

(** The bytes copied into a buffer of [n] bytes. *)
Definition read_at (offset : Z) (n : nat) : MF (list Z) :=
  st <-- getM ;;
  if (memfd_len st.1 <=? offset) || (n =? 0)%nat then retM []
  else
    let want := Z.min (Z.of_nat n) (memfd_len st.1 - offset) in
    read_loop (Z.to_nat want) offset want.

(** The copy loop of [write_at]. *)
Fixpoint write_loop (fuel : nat) (file_off : Z) (data : list Z) : MF unit :=
  match fuel with
  | O => retM tt
  | Datatypes.S fuel => fun '(f, s) =>
    match data with
    | [] => (Ok tt, (f, s))
    | _ =>
      let count := page_count file_off (Z.of_nat (length data)) in
      match memfd_pages f !! page_index file_off with
      | None => (Err EIO, (f, s))
      | Some frame =>
        write_loop fuel (file_off + Z.of_nat count) (drop count data)
          (f, poke frame (page_off file_off) (take count data) s)
      end
    end
  end.

Definition write_at (offset : Z) (data : list Z) : MF Z :=
  match data with
  | [] => retM 0
  | _ =>
    match checked_add offset (Z.of_nat (length data)) with
    | None => failM EINVAL
    | Some e =>
      st <-- getM ;;
      (if memfd_len st.1 <? e then truncate e else retM tt) >>>
      write_loop (length data) offset data >>>
      retM (Z.of_nat (length data))
    end
  end.

(** [map_user_frame] is the page-table code: it maps the frame at the address with
    user access, writable and executable as told. *)
Variable map_user_frame : Z -> Z -> bool -> bool -> M S unit unit.

Fixpoint map_loop (n : nat) (va : Z) (start : nat) (w x : bool) : MF unit :=
  match n with
  | O => retM tt
  | Datatypes.S n => fun '(f, s) =>
    match memfd_pages f !! start with
    | None => (Err EIO, (f, s))
    | Some frame =>
      match map_user_frame va frame w x s with
      | (Ok _, s) => map_loop n (usize (va + PAGE)) (Datatypes.S start) w x (f, s)
      | (Err _, s) => (Err EIO, (f, s))
      | (Panic, s) => (Panic, (f, s))
      end
    end
  end.

Definition PROT_WRITE : Z := 2.
Definition PROT_EXEC : Z := 4.

Definition map_shared (va map_len requested_len prot offset : Z) : MF unit :=
  st <-- getM ;;
  if negb (Z.land offset (PAGE - 1) =? 0) then failM EINVAL
  else match checked_add offset requested_len with
       | None => failM EINVAL
       | Some e =>
         if memfd_len st.1 <? e then failM EINVAL
         else map_loop (Z.to_nat (map_len / PAGE)) va (Z.to_nat (offset / PAGE))
                (negb (Z.land prot PROT_WRITE =? 0)) (negb (Z.land prot PROT_EXEC =? 0))
       end.

(** [Drop]. *)
Definition MemFd_drop (f : MemFd) (s : S) : S := fold_left (fun s p => pool_deallocate p s) (memfd_pages f) s.
End ops.

(** ** Laws of a frame pool

    [held s f]: frame [f] is allocated.  Operations on one frame leave the others,
    their allocation and their bytes, alone. *)

Class LawfulPool (S : Type) `{FramePool S} := {
  pool_ok : S -> Prop;
  held : S -> Z -> Prop;
  law_alloc s : pool_ok s ->
    match allocate_zeroed_frame s with
    | (Some f, s') => pool_ok s' /\ ~ held s f /\ frame_bytes s' f = replicate PAGE_N 0 /\
        forall g, (held s' g <-> held s g \/ g = f) /\ (g <> f -> frame_bytes s' g = frame_bytes s g)
    | (None, s') => pool_ok s' /\ forall g, (held s' g <-> held s g) /\ frame_bytes s' g = frame_bytes s g
    end;
  law_dealloc s f : pool_ok s -> held s f ->
    pool_ok (pool_deallocate f s) /\
    forall g, (held (pool_deallocate f s) g <-> held s g /\ g <> f) /\
              frame_bytes (pool_deallocate f s) g = frame_bytes s g;
  law_set s f bs : pool_ok s -> held s f -> length bs = PAGE_N ->
    pool_ok (set_frame_bytes f bs s) /\
    forall g, (held (set_frame_bytes f bs s) g <-> held s g) /\
              frame_bytes (set_frame_bytes f bs s) g = if decide (g = f) then bs else frame_bytes s g;
}.

(** ** The bytes of a memory file *)

Section spec.
Context {S : Type} `{LawfulPool S}.
Implicit Types (f : MemFd) (s : S).

Definition flat (ps : list Z) s : list Z := concat (frame_bytes s <$> ps).
Definition content f s : list Z := take (Z.to_nat (memfd_len f)) (flat (memfd_pages f) s).

(** A file owns distinct allocated frames, enough for its length. *)
Definition pages_ok (ps : list Z) s : Prop :=
  pool_ok s /\ NoDup ps /\ Forall (held s) ps /\ Forall (fun p => length (frame_bytes s p) = PAGE_N) ps.
Definition memfd_ok f s : Prop :=
  pages_ok (memfd_pages f) s /\ 0 <= memfd_len f <= PAGE * Z.of_nat (length (memfd_pages f)).

(** What belongs to others is left alone. *)
Definition others_kept (ps : list Z) s s' : Prop :=
  forall g, held s g -> g ∉ ps -> held s' g /\ frame_bytes s' g = frame_bytes s g.

Lemma flat_length ps s : pages_ok ps s -> length (flat ps s) = (length ps * PAGE_N)%nat.
Proof.
  intros (_ & _ & _ & Hl). unfold flat. rewrite (concat_blocks_length PAGE_N), length_fmap; [done|].
  by apply Forall_fmap.
Qed.

(** A write of bytes inside one page. *)
Lemma poke_spec ps s i frame o src :
  pages_ok ps s -> ps !! i = Some frame -> (o + length src <= PAGE_N)%nat ->
  let s' := poke frame o src s in
  pages_ok ps s' /\ flat ps s' = store (i * PAGE_N + o) src (flat ps s) /\
  (forall g, held s' g <-> held s g) /\ (forall g, g ∉ ps -> frame_bytes s' g = frame_bytes s g).
Proof.
  intros (Hp & Hnd & Hh & Hl) Hi Ho s'.
  pose proof (proj1 (Forall_lookup _ _) Hh _ _ Hi) as Hheld.
  pose proof (proj1 (Forall_lookup _ _) Hl _ _ Hi) as Hlen. cbn in Hlen.
  destruct (law_set s frame (store o src (frame_bytes s frame)) Hp Hheld) as [Hp' Hg];
    [rewrite store_length; lia|]. fold s' in Hp', Hg. change (set_frame_bytes _ _ s) with s' in *.
  split; [|split; [|split]].
  - split; [done|]. split; [done|]. split.
    + eapply Forall_impl; [exact Hh|]. intros g. by rewrite (proj1 (Hg g)).
    + eapply Forall_impl; [exact Hl|]. cbn. intros g Hlg. rewrite (proj2 (Hg g)).
      destruct (decide (g = frame)); [rewrite store_length; lia|done].
  - unfold flat. rewrite <- (store_concat_block PAGE_N _ i (frame_bytes s frame)) by
      (by apply Forall_fmap || by rewrite list_lookup_fmap, Hi || done).
    f_equal. apply list_eq. intros j. rewrite list_lookup_fmap.
    destruct (decide (i = j)) as [<-|Hij].
    + rewrite Hi, list_lookup_insert_eq; [|rewrite length_fmap; by eapply lookup_lt_Some].
      cbn. rewrite (proj2 (Hg frame)), decide_True by done. done.
    + rewrite list_lookup_insert_ne, list_lookup_fmap by done. destruct (ps !! j) as [g|] eqn:Hj; cbn; [|done].
      rewrite (proj2 (Hg g)), decide_False; [done|]. intros ->. apply Hij. by eapply NoDup_lookup.
  - intros g. apply Hg.
  - intros g Hgn. rewrite (proj2 (Hg g)), decide_False; [done|]. intros ->. apply Hgn. by eapply list_elem_of_lookup_2.
Qed.

(** The offset arithmetic of the copy loops. *)
Lemma page_split off rest :
  0 <= off -> 0 < rest ->
  (1 <= page_count off rest)%nat /\ Z.of_nat (page_count off rest) <= rest /\
  (page_off off + page_count off rest <= PAGE_N)%nat /\
  (page_index off * PAGE_N + page_off off)%nat = Z.to_nat off.
Proof.
  intros Ho Hr. unfold page_count, page_off, page_index, PAGE_N, PAGE.
  pose proof (Z.mod_pos_bound off 4096). pose proof (Z.div_mod off 4096).
  pose proof (Z.div_pos off 4096). split; [lia|]. split; [lia|]. split; [lia|].
  rewrite <- Z2Nat.inj_mul, <- Z2Nat.inj_add by lia. f_equal. lia.
Qed.

Lemma page_index_in (ps : list Z) off :
  0 <= off < PAGE * Z.of_nat (length ps) -> exists frame, ps !! page_index off = Some frame.
Proof.
  intros Ho. apply lookup_lt_is_Some_2. unfold page_index, PAGE in *.
  pose proof (Z.div_lt_upper_bound off 4096 (Z.of_nat (length ps))). pose proof (Z.div_pos off 4096). lia.
Qed.

Lemma write_loop_spec fuel : forall f s off data,
  (length data <= fuel)%nat -> pages_ok (memfd_pages f) s -> 0 <= off ->
  off + Z.of_nat (length data) <= PAGE * Z.of_nat (length (memfd_pages f)) ->
  exists s', write_loop fuel off data (f, s) = (Ok tt, (f, s')) /\ pages_ok (memfd_pages f) s' /\
    flat (memfd_pages f) s' = store (Z.to_nat off) data (flat (memfd_pages f) s) /\
    (forall g, held s' g <-> held s g) /\ (forall g, g ∉ memfd_pages f -> frame_bytes s' g = frame_bytes s g).
Proof.
  induction fuel as [|fuel IH]; intros f s off data Hf Hok Ho Hend.
  { destruct data; [|cbn in Hf; lia]. exists s. split; [done|]. split; [done|]. split; [|done].
    unfold store. cbn. by rewrite Nat.add_0_r, take_drop. }
  cbn [write_loop]. destruct data as [|b data].
  { exists s. split; [done|]. split; [done|]. split; [|done].
    unfold store. cbn. by rewrite Nat.add_0_r, take_drop. }
  set (d := b :: data) in *. assert (0 < Z.of_nat (length d)) as Hd by (unfold d; cbn; lia).
  destruct (page_split off (Z.of_nat (length d)) Ho Hd) as (Hc1 & Hc2 & Hc3 & Hix).
  set (count := page_count off (Z.of_nat (length d))) in *.
  destruct (page_index_in (memfd_pages f) off) as [frame Hfr]; [lia|]. rewrite Hfr.
  assert (length (take count d) = count) as Hlt by (rewrite length_take; lia).
  destruct (poke_spec (memfd_pages f) s _ frame (page_off off) (take count d) Hok Hfr) as (Hok1 & Hfl & Hh1 & Hb1); [lia|].
  destruct (IH f (poke frame (page_off off) (take count d) s) (off + Z.of_nat count) (drop count d))
    as (s' & Hrun & Hok' & Hfl' & Hh' & Hb'); rewrite ?length_drop; try done; try lia.
  exists s'. split; [exact Hrun|]. split; [done|]. split.
  - rewrite Hfl', Hfl, Hix. rewrite store_app.
    + by rewrite take_drop.
    + rewrite Hlt. lia.
    + rewrite Hlt, length_drop, flat_length by done. unfold PAGE_N, PAGE in *. lia.
  - split; [intros g; rewrite Hh'; apply Hh1|]. intros g Hg. rewrite Hb', Hb1 by done. done.
Qed.

Lemma read_loop_spec fuel : forall f s off rest,
  rest <= Z.of_nat fuel -> pages_ok (memfd_pages f) s -> 0 <= off -> 0 <= rest ->
  off + rest <= PAGE * Z.of_nat (length (memfd_pages f)) ->
  read_loop fuel off rest (f, s) = (Ok (load (Z.to_nat off) (Z.to_nat rest) (flat (memfd_pages f) s)), (f, s)).
Proof.
  induction fuel as [|fuel IH]; intros f s off rest Hf Hok Ho Hr Hend.
  { replace rest with 0 by lia. done. }
  cbn [read_loop]. destruct (Z.leb_spec rest 0); [by replace rest with 0 by lia|].
  destruct (page_split off rest Ho ltac:(lia)) as (Hc1 & Hc2 & Hc3 & Hix).
  set (count := page_count off rest) in *.
  destruct (page_index_in (memfd_pages f) off) as [frame Hfr]; [lia|]. rewrite Hfr.
  unfold bindM. rewrite IH by (done || lia).
  destruct Hok as (_ & _ & _ & Hl).
  rewrite (load_concat_block PAGE_N (frame_bytes s <$> memfd_pages f) (page_index off)) by
    (by apply Forall_fmap || by rewrite list_lookup_fmap, Hfr || done).
  fold (flat (memfd_pages f) s). rewrite Hix.
  replace (Z.to_nat (off + Z.of_nat count)) with (Z.to_nat off + count)%nat by lia.
  rewrite load_app. unfold retM. do 3 f_equal. lia.
Qed.

(** [zero_range] is a write of zeros. *)
Lemma zero_loop_write fuel : forall f s off e,
  off <= e ->
  zero_loop fuel off e (f, s) = write_loop fuel off (replicate (Z.to_nat (e - off)) 0) (f, s).
Proof.
  induction fuel as [|fuel IH]; intros f s off e He; [done|]. cbn [zero_loop write_loop].
  destruct (Z.leb_spec e off); [by replace (Z.to_nat (e - off)) with O by lia|].
  destruct (Z.to_nat (e - off)) as [|n] eqn:Hn; [lia|]. cbn [replicate].
  change (0 :: replicate n 0) with (replicate (Datatypes.S n) 0). rewrite <- Hn, length_replicate.
  replace (Z.of_nat (Z.to_nat (e - off))) with (e - off) by lia.
  assert (Z.of_nat (page_count off (e - off)) <= e - off) as Hc by (unfold page_count; lia).
  destruct (memfd_pages f !! page_index off) as [frame|]; [|done].
  rewrite IH by lia. rewrite take_replicate, drop_replicate.
  replace (page_count off (e - off) `min` Z.to_nat (e - off))%nat with (page_count off (e - off)) by lia.
  do 2 f_equal. lia.
Qed.

Lemma flat_app ps qs s : flat (ps ++ qs) s = flat ps s ++ flat qs s.
Proof. unfold flat. by rewrite fmap_app, concat_app. Qed.

Lemma flat_ext ps s s' : (forall g, g ∈ ps -> frame_bytes s' g = frame_bytes s g) -> flat ps s' = flat ps s.
Proof.
  intros Hb. unfold flat. f_equal. apply list_fmap_ext. intros i g Hi. apply Hb. by eapply list_elem_of_lookup_2.
Qed.

(** Growing appends zeroed pages, all of them or as many as there were. *)
Lemma grow_spec n : forall f s,
  pages_ok (memfd_pages f) s ->
  exists r k f' s', grow n (f, s) = (r, (f', s')) /\ (r = Ok tt /\ k = n \/ r = Err EIO /\ (k < n)%nat) /\
    memfd_len f' = memfd_len f /\ length (memfd_pages f') = (length (memfd_pages f) + k)%nat /\
    pages_ok (memfd_pages f') s' /\
    flat (memfd_pages f') s' = flat (memfd_pages f) s ++ replicate (k * PAGE_N) 0 /\
    others_kept (memfd_pages f) s s' /\ (forall g, g ∈ memfd_pages f' -> held s g -> g ∈ memfd_pages f).
Proof.
  induction n as [|n IH]; intros f s Hok.
  { exists (Ok tt), 0%nat, f, s. rewrite app_nil_r. split; [done|]. split; [by left|].
    split; [done|]. split; [lia|]. split; [done|]. split; [done|]. split; [by intros g Hg _|done]. }
  cbn [grow]. destruct Hok as (Hp & Hnd & Hh & Hl). pose proof (law_alloc s Hp) as Ha.
  destruct (allocate_zeroed_frame s) as [[frame|] s1].
  2: { destruct Ha as [Hp1 Hs]. exists (Err EIO), 0%nat, f, s1. rewrite app_nil_r.
       split; [done|]. split; [right; split; [done|lia]|]. split; [done|]. split; [lia|].
       assert (forall g, frame_bytes s1 g = frame_bytes s g) as Hb by apply Hs.
       split; [|split; [|split]].
       - split; [done|]. split; [done|].
         split; apply Forall_forall; intros g Hg; rewrite Forall_forall in Hh, Hl; [apply Hs; auto|rewrite Hb; auto].
       - by apply flat_ext.
       - intros g Hg _. split; [by apply Hs|apply Hb].
       - done. }
  destruct Ha as (Hp1 & Hnew & Hz & Hg).
  assert (frame ∉ memfd_pages f) as Hnin.
  { intros Hin. apply Hnew. rewrite Forall_forall in Hh. auto. }
  assert (pages_ok (memfd_pages f ++ [frame]) s1) as Hok1.
  { split; [done|]. split; [apply NoDup_app; split; [done|]; split; [|apply NoDup_singleton]; intros g Hin;
      rewrite list_elem_of_singleton; intros ->; by apply Hnin|].
    rewrite !Forall_app, !Forall_singleton. split; split.
    - eapply Forall_impl; [exact Hh|]. intros g Hhg. apply Hg. by left.
    - apply Hg. by right.
    - apply Forall_forall. intros g Hin. rewrite Forall_forall in Hl.
      rewrite (proj2 (Hg g)) by (by intros ->). auto.
    - by rewrite Hz, length_replicate. }
  destruct (IH (set_pages (memfd_pages f ++ [frame]) f) s1 Hok1)
    as (r & k & f' & s' & Hrun & Hr & Hlen & Hn & Hok' & Hfl & Hoth & Hback). cbn [memfd_pages memfd_len set_pages] in *.
  exists r, (Datatypes.S k), f', s'. split; [exact Hrun|].
  split; [destruct Hr as [[? ?]|[? ?]]; [left|right]; (split; [done|lia])|].
  split; [done|]. split; [rewrite Hn, length_app; cbn; lia|]. split; [done|]. split; [|split].
  - rewrite Hfl, flat_app, <- app_assoc. f_equal.
    + apply flat_ext. intros g Hin. apply Hg. by intros ->.
    + unfold flat. cbn [fmap list_fmap concat]. by rewrite Hz, app_nil_r, <- replicate_add.
  - intros g Hhg Hng. assert (g <> frame) as Hgf by (intros ->; contradiction).
    destruct (Hoth g) as [? Hb]; [apply Hg; by left|rewrite not_elem_of_app, list_elem_of_singleton; done|].
    split; [done|]. rewrite Hb. by apply Hg.
  - intros g Hin Hhg. assert (g ∈ memfd_pages f ++ [frame]) as Hin1 by (apply Hback; [done|]; apply Hg; by left).
    apply elem_of_app in Hin1 as [|Heq%list_elem_of_singleton]; [done|]. subst. contradiction.
Qed.

(** Shrinking drops pages from the end. *)
Lemma shrink_spec n : forall f s,
  (n <= length (memfd_pages f))%nat -> pages_ok (memfd_pages f) s ->
  exists f' s', shrink n (f, s) = (Ok tt, (f', s')) /\ memfd_len f' = memfd_len f /\
    memfd_pages f' = take (length (memfd_pages f) - n) (memfd_pages f) /\
    pages_ok (memfd_pages f') s' /\
    (forall g, frame_bytes s' g = frame_bytes s g) /\ (forall g, held s g -> g ∉ memfd_pages f -> held s' g).
Proof.
  induction n as [|n IH]; intros f s Hn Hok.
  { exists f, s. rewrite Nat.sub_0_r, take_ge by lia. done. }
  cbn [shrink]. destruct (last (memfd_pages f)) as [frame|] eqn:Hlast.
  2: { apply last_None in Hlast. rewrite Hlast in Hn. cbn in Hn. lia. }
  apply last_Some in Hlast as [ps Hps]. rewrite Hps, removelast_last in *.
  destruct Hok as (Hp & Hnd & Hh & Hl). rewrite Forall_app, Forall_singleton in Hh, Hl.
  destruct Hh as [Hh Hhf], Hl as [Hl _]. apply NoDup_app in Hnd as (Hnd & Hdis & _).
  assert (frame ∉ ps) as Hnin by (intros Hin; apply (Hdis _ Hin); by left).
  destruct (law_dealloc s frame Hp Hhf) as [Hp1 Hg].
  rewrite length_app in *. cbn in Hn |- *.
  destruct (IH (set_pages ps f) (pool_deallocate frame s)) as (f' & s' & Hrun & Hlen & Hpg & Hok' & Hb & Hoth).
  { cbn. lia. }
  { split; [done|]. split; [done|]. cbn. split; apply Forall_forall; intros g Hin; rewrite Forall_forall in Hh, Hl.
    - apply Hg. split; [auto|]. by intros ->.
    - rewrite (proj2 (Hg g)). auto. }
  exists f', s'. split; [exact Hrun|]. split; [done|]. cbn in Hpg, Hoth.
  split; [rewrite Hpg, take_app_le by lia; f_equal; lia|]. split; [done|]. split.
  - intros g. rewrite Hb. apply Hg.
  - intros g Hhg Hng. rewrite not_elem_of_app, list_elem_of_singleton in Hng. apply Hoth; [|tauto].
    apply Hg. tauto.
Qed.

Lemma align_up_page x : align_up x PAGE = (x + 4095) mod 2 ^ 64 / 4096 * 4096.
Proof.
  unfold align_up, PAGE, wrap. rewrite Zminus_mod_idemp_l. replace (x + 4096 - 1) with (x + 4095) by lia.
  change (4096 - 1) with (Z.ones 12). rewrite Z.ldiff_ones_r by lia.
  by rewrite Z.shiftr_div_pow2, Z.shiftl_mul_pow2 by lia.
Qed.

Definition needed_pages (len : Z) : nat := Z.to_nat (if len =? 0 then 0 else align_up len PAGE / PAGE).

Lemma needed_pages_enough len : 0 <= len <= 2 ^ 64 - PAGE -> len <= PAGE * Z.of_nat (needed_pages len).
Proof.
  unfold needed_pages, PAGE. intros Hl. destruct (Z.eqb_spec len 0) as [->|Hne]; [lia|].
  change 4096 with PAGE at 3. rewrite align_up_page. unfold PAGE.
  rewrite Z.div_mul, Z.mod_small by lia. pose proof (Z.div_mod (len + 4095) 4096).
  pose proof (Z.mod_pos_bound (len + 4095) 4096). lia.
Qed.

Lemma flat_take k ps s : pages_ok ps s -> flat (take k ps) s = take (k * PAGE_N) (flat ps s).
Proof.
  intros (_ & _ & _ & Hl). unfold flat. revert k. induction Hl as [|p ps Hp Hl IH]; intros [|k]; try done.
  cbn [take fmap list_fmap concat]. rewrite IH. cbn [Nat.mul].
  rewrite take_app_ge by lia. rewrite Hp. do 2 f_equal. lia.
Qed.

(** What growing, shrinking and clearing make of the bytes. *)
Lemma resize_bytes (l0 l : nat) (b0 b1 : list Z) k :
  (l0 <= length b0)%nat -> (l <= k)%nat -> b1 = take k b0 \/ b1 = b0 ++ replicate (k - length b0) 0 ->
  length b1 = k ->
  resize_zero l (take l0 b0) =
  take l (if (l0 <? l)%nat then store l0 (replicate (l - l0) 0) b1 else b1).
Proof.
  intros Hl0 Hl Hb1 Hlen. unfold resize_zero. rewrite length_take, Nat.min_l by lia.
  assert (forall j, (j <= l0)%nat -> (j <= k)%nat -> take j b1 = take j b0) as Hpre.
  { intros j Hj Hjk. destruct Hb1 as [->| ->]; [rewrite take_take; f_equal; lia|apply take_app_le; lia]. }
  destruct (Nat.ltb_spec l0 l).
  - rewrite (take_ge (take l0 b0)) by (rewrite length_take; lia). unfold store.
    rewrite length_replicate, app_assoc, take_app_le.
    + rewrite (take_ge (_ ++ _)); [rewrite (Hpre l0) by lia; done|]. rewrite length_app, length_take, length_replicate. lia.
    + rewrite length_app, length_take, length_replicate. lia.
  - replace (l - l0)%nat with 0%nat by lia. rewrite app_nil_r, take_take, Nat.min_l, Hpre by lia. done.
Qed.

Lemma content_length f s : memfd_ok f s -> Z.of_nat (length (content f s)) = memfd_len f.
Proof.
  intros [Hok Hl]. unfold content. rewrite length_take, flat_length by done. unfold PAGE_N, PAGE in *. lia.
Qed.

Definition truncate_post (len : Z) f s (out : res Z unit * (MemFd * S)) : Prop :=
  let '(r, (f', s')) := out in
  memfd_ok f' s' /\ others_kept (memfd_pages f) s s' /\
  (forall g, g ∈ memfd_pages f' -> held s g -> g ∈ memfd_pages f) /\
  match r with
  | Ok _ => memfd_len f' = len /\ content f' s' = resize_zero (Z.to_nat len) (content f s)
  | Err e => e = EIO /\ memfd_len f' = memfd_len f /\ content f' s' = content f s
  | Panic => False
  end.

Lemma zero_range_spec f s off e :
  pages_ok (memfd_pages f) s -> 0 <= off < e -> e <= U64_MAX ->
  e <= PAGE * Z.of_nat (length (memfd_pages f)) ->
  exists s', zero_range off (e - off) (f, s) = (Ok tt, (f, s')) /\ pages_ok (memfd_pages f) s' /\
    flat (memfd_pages f) s' = store (Z.to_nat off) (replicate (Z.to_nat e - Z.to_nat off) 0) (flat (memfd_pages f) s) /\
    (forall g, held s' g <-> held s g) /\ (forall g, g ∉ memfd_pages f -> frame_bytes s' g = frame_bytes s g).
Proof.
  intros Hok Ho Hmax Hend. unfold zero_range. destruct (Z.eqb_spec (e - off) 0); [lia|].
  unfold checked_add. replace (off + (e - off)) with e by lia. rewrite (proj2 (Z.leb_le _ _) Hmax).
  rewrite zero_loop_write by lia.
  destruct (write_loop_spec (Z.to_nat (e - off)) f s off (replicate (Z.to_nat (e - off)) 0)) as (s' & H1 & H2 & H3 & H4);
    rewrite ?length_replicate; try done; try lia.
  exists s'. split; [done|]. split; [done|]. split; [|done]. rewrite H3. do 2 f_equal. lia.
Qed.

Lemma truncate_spec len f s :
  memfd_ok f s -> 0 <= len <= 2 ^ 64 - PAGE -> truncate_post len f s (truncate len (f, s)).
Proof.
  intros [Hok Hlen] Hl. pose proof (needed_pages_enough len Hl) as Hneed.
  unfold truncate, bindM. cbn [getM fst]. fold (needed_pages len).
  set (have := length (memfd_pages f)). set (need := needed_pages len) in *.
  destruct (grow_spec (need - have) f s Hok) as (r & k & f1 & s1 & -> & Hr & Hlen1 & Hn1 & Hok1 & Hfl1 & Hoth1 & Hback1).
  pose proof (flat_length _ _ Hok) as Hfl. fold have in Hfl, Hn1.
  assert (Z.to_nat (memfd_len f) <= length (flat (memfd_pages f) s))%nat as Hcov
    by (rewrite Hfl; unfold have, PAGE_N, PAGE in *; lia).
  destruct Hr as [[-> ->]|[-> Hk]].
  2: { split; [split; [done|rewrite Hlen1, Hn1; unfold PAGE, have in *; lia]|]. split; [done|]. split; [done|].
       split; [done|]. split; [done|]. unfold content. rewrite Hlen1, Hfl1. by apply take_app_le. }
  destruct (shrink_spec (have - need) f1 s1) as (f2 & s2 & -> & Hlen2 & Hpg2 & Hok2 & Hb2 & Hoth2); [lia|done|].
  assert (length (memfd_pages f2) = need) as Hn2 by (rewrite Hpg2, length_take; lia).
  assert (others_kept (memfd_pages f) s s2) as Hoth.
  { intros g Hg Hng. destruct (Hoth1 g Hg Hng) as [Hg1 Hbg1]. split; [|by rewrite Hb2].
    apply Hoth2; [done|]. intros Hin. by apply Hng, Hback1. }
  assert (forall g, g ∈ memfd_pages f2 -> g ∈ memfd_pages f1) as Hsub.
  { intros g. rewrite Hpg2. intros (i & Hi & _)%elem_of_take. by eapply list_elem_of_lookup_2. }
  assert (forall g, g ∈ memfd_pages f2 -> held s g -> g ∈ memfd_pages f) as Hback by eauto.
  assert (flat (memfd_pages f2) s2 = take (need * PAGE_N) (flat (memfd_pages f) s) \/
    flat (memfd_pages f2) s2 = flat (memfd_pages f) s ++ replicate (need * PAGE_N - length (flat (memfd_pages f) s)) 0) as Hfl2.
  { rewrite Hpg2, (flat_ext _ s1 s2) by done. rewrite flat_take, Hfl1, Hn1 by done.
    replace (have + (need - have) - (have - need))%nat with need by lia. rewrite Hfl. destruct (decide (need <= have)%nat) as [Hle|Hgt].
    - left. replace (need - have)%nat with 0%nat by lia. by rewrite app_nil_r.
    - right. rewrite take_ge by (rewrite length_app, length_replicate, Hfl; unfold PAGE_N, PAGE; lia).
      do 2 f_equal. unfold PAGE_N, PAGE. lia. }
  pose proof (flat_length _ _ Hok2) as Hlf2. rewrite Hn2 in Hlf2.
  pose proof (resize_bytes (Z.to_nat (memfd_len f)) (Z.to_nat len) _ _ (need * PAGE_N) Hcov
    ltac:(unfold PAGE_N, PAGE in *; lia) Hfl2 Hlf2) as Hres. fold (content f s) in Hres.
  destruct (Z.ltb_spec (memfd_len f) len) as [Hlt|Hge].
  - rewrite (proj2 (Nat.ltb_lt _ _)) in Hres by lia.
    destruct (zero_range_spec f2 s2 (memfd_len f) len Hok2) as (s3 & -> & Hok3 & Hfl3 & Hh3 & Hb3);
      [lia|unfold U64_MAX, PAGE in *; lia|rewrite Hn2; done|].
    split; [split; [done|cbn; rewrite Hn2; lia]|]. split.
    + intros g Hg Hng. destruct (Hoth g Hg Hng) as [Hg2 Hbg]. split; [by apply Hh3|].
      rewrite Hb3; [done|]. auto.
    + split; [done|]. split; [done|]. rewrite Hres. unfold content. cbn [memfd_len memfd_pages set_len]. by rewrite Hfl3.
  - rewrite (proj2 (Nat.ltb_ge _ _)) in Hres by lia.
    split; [split; [done|cbn; rewrite Hn2; lia]|]. split; [done|]. split; [done|]. split; [done|]. rewrite Hres. done.
Qed.

(** Reads return the bytes of the file from the offset on. *)
Lemma memfd_read_at f s offset n :
  memfd_ok f s -> 0 <= offset ->
  read_at offset n (f, s) = (Ok (take n (drop (Z.to_nat offset) (content f s))), (f, s)).
Proof.
  intros Hf Ho. pose proof (content_length f s Hf) as Hcl. destruct Hf as [Hok Hlen].
  unfold read_at, bindM. cbn [getM fst].
  destruct (Z.leb_spec (memfd_len f) offset) as [Hle|Hlt]; cbn [orb].
  { rewrite drop_ge by lia. by rewrite take_nil. }
  destruct (Nat.eqb_spec n 0) as [->|Hn]; [done|].
  rewrite read_loop_spec by (done || lia). do 2 f_equal. unfold load, content.
  rewrite skipn_firstn_comm, take_take. f_equal. lia.
Qed.

(** The first step of a write: the file reaches up to the end of the new bytes. *)
Lemma extend_spec f s e :
  memfd_ok f s -> 0 <= e <= 2 ^ 64 - PAGE ->
  exists r f1 s1, (if memfd_len f <? e then truncate e else retM tt) (f, s) = (r, (f1, s1)) /\
    memfd_ok f1 s1 /\ others_kept (memfd_pages f) s s1 /\
    (forall g, g ∈ memfd_pages f1 -> held s g -> g ∈ memfd_pages f) /\
    match r with
    | Ok _ => e <= memfd_len f1 /\ content f1 s1 =
        (if Z.of_nat (length (content f s)) <? e then resize_zero (Z.to_nat e) (content f s) else content f s)
    | Err x => x = EIO /\ content f1 s1 = content f s
    | Panic => False
    end.
Proof.
  intros Hf He. rewrite (content_length f s Hf). destruct (Z.ltb_spec (memfd_len f) e) as [Hlt|Hge].
  - pose proof (truncate_spec e f s Hf He) as Ht. destruct (truncate e (f, s)) as [r [f1 s1]].
    destruct Ht as (H1 & H2 & H3 & H4). exists r, f1, s1. split; [done|]. split; [done|]. split; [done|].
    split; [done|]. destruct r; [|tauto|done]. destruct H4 as [-> ?]. split; [lia|done].
  - exists (Ok tt), f, s. split; [done|]. split; [done|]. split; [by intros g Hg _|]. split; [done|]. split; [lia|done].
Qed.

(** A write either puts the bytes in place, a gap filled with zeros, or fails for
    lack of memory with the contents as they were; nothing of others is touched. *)
Lemma memfd_write_at f s offset data :
  memfd_ok f s -> 0 <= offset -> offset + Z.of_nat (length data) <= 2 ^ 64 - PAGE -> data <> [] ->
  let '(r, (f', s')) := write_at offset data (f, s) in
  memfd_ok f' s' /\ others_kept (memfd_pages f) s s' /\
  match r with
  | Ok n => n = Z.of_nat (length data) /\ content f' s' = overlay (Z.to_nat offset) data (content f s)
  | Err e => e = EIO /\ content f' s' = content f s
  | Panic => False
  end.
Proof.
  intros Hf Ho Hmax Hd. destruct data as [|b data]; [done|]. unfold write_at. set (d := b :: data) in *.
  unfold checked_add. rewrite (proj2 (Z.leb_le _ _)) by (unfold U64_MAX, PAGE in *; lia).
  unfold bindM. cbn [getM fst]. rewrite <- write_overlay.
  replace (Z.to_nat offset + length d)%nat with (Z.to_nat (offset + Z.of_nat (length d))) by lia.
  rewrite Z2Nat.id by lia. set (e := offset + Z.of_nat (length d)) in *.
  destruct (extend_spec f s e Hf ltac:(lia)) as (r & f1 & s1 & -> & Hf1 & Hoth & Hback & Hr).
  destruct r as [[]|x|]; [|done|done]. destruct Hr as [He <-]. destruct Hf1 as [Hok1 Hl1].
  destruct (write_loop_spec (length d) f1 s1 offset d) as (s2 & -> & Hok2 & Hfl2 & Hh2 & Hb2); [lia|done|done|lia|].
  cbn [retM]. split; [done|]. split.
  - intros g Hg Hng. destruct (Hoth g Hg Hng) as [Hg1 Hbg]. split; [by apply Hh2|].
    rewrite Hb2; [done|]. intros Hin. by apply Hng, Hback.
  - split; [done|]. unfold content. rewrite Hfl2. unfold store.
    assert (Z.to_nat (memfd_len f1) <= length (flat (memfd_pages f1) s1))%nat as Hle
      by (rewrite flat_length by done; unfold PAGE_N, PAGE in *; lia).
    rewrite take_take, Nat.min_l by lia. rewrite skipn_firstn_comm.
    rewrite (take_app (take _ _)), take_take, length_take, Nat.min_r by lia. f_equal.
    rewrite take_app, (take_ge d) by lia. do 2 f_equal. lia.
Qed.
End spec.

(** ** Physical memory: the bitmap allocator and the bytes of the frames *)

Record PhysMem := mkPhysMem { mem_alloc : FrameAllocator; ram : gmap Z (list Z) }.

#[export] Instance phys_pool : FramePool PhysMem := {|
  allocate_zeroed_frame := fun s =>
    match allocate_frame (mem_alloc s) with
    | Some (Some f, a) => (Some f, mkPhysMem a (<[f := replicate PAGE_N 0]> (ram s)))
    | Some (None, a) => (None, mkPhysMem a (ram s))
    | None => (None, s)
    end;
  pool_deallocate := fun f s =>
    match deallocate_frame (mem_alloc s) f with
    | Some a => mkPhysMem a (ram s)
    | None => s
    end;
  frame_bytes := fun s f => default [] (ram s !! f);
  set_frame_bytes := fun f bs s => mkPhysMem (mem_alloc s) (<[f := bs]> (ram s));
|}.

Definition frame_taken (a : FrameAllocator) (f : Z) : Prop :=
  exists k, (k < frames_count a)%nat /\ index_to_frame a k = Some f /\ taken a k = true.

Lemma index_to_frame_inj a i j f :
  alloc_wf a -> index_to_frame a i = Some f -> index_to_frame a j = Some f -> i = j.
Proof.
  intros Hwf Hi Hj.
  assert (forall i, index_to_frame a i = Some f -> (i < frames_count a)%nat) as Hlt.
  { intros i0. unfold index_to_frame. destruct (Nat.leb_spec (frames_count a) i0); [done|by intros]. }
  destruct (index_to_frame_ok a i Hwf (Hlt _ Hi)) as (f1 & H1 & H2).
  destruct (index_to_frame_ok a j Hwf (Hlt _ Hj)) as (f2 & H3 & H4). congruence.
Qed.

(** The frames taken after one index changes. *)
Lemma frame_taken_updated a a' k f b :
  alloc_wf a -> (k < frames_count a)%nat -> index_to_frame a k = Some f ->
  updated a a' (fun j => if (j =? k)%nat then Some b else None) ->
  forall g, frame_taken a' g <-> if b then frame_taken a g \/ g = f else frame_taken a g /\ g <> f.
Proof.
  intros Hwf Hk Hf (_ & Hr & Hc & Ht) g.
  assert (forall j, index_to_frame a' j = index_to_frame a j) as Hix by (intros; unfold index_to_frame; by rewrite Hr, Hc).
  unfold frame_taken. setoid_rewrite Hix. rewrite Hc. setoid_rewrite Ht. destruct b; split.
  - intros (j & Hj & Hg & Htk). destruct (Nat.eqb_spec j k) as [->|]; [right; congruence|left; eauto].
  - intros [(j & Hj & Hg & Htk)| ->]; [exists j|exists k]; [|by rewrite Nat.eqb_refl].
    by destruct (Nat.eqb_spec j k).
  - intros (j & Hj & Hg & Htk). destruct (Nat.eqb_spec j k) as [->|Hne]; [done|]. split; [eauto|].
    intros ->. by apply Hne, (index_to_frame_inj a j k f).
  - intros [(j & Hj & Hg & Htk) Hgf]. exists j. destruct (Nat.eqb_spec j k) as [->|]; [congruence|done].
Qed.

Lemma allocate_frame_taken a :
  alloc_wf a ->
  (exists f a', allocate_frame a = Some (Some f, a') /\ alloc_wf a' /\ ~ frame_taken a f /\
     forall g, frame_taken a' g <-> frame_taken a g \/ g = f) \/
  allocate_frame a = Some (None, a).
Proof.
  intros Hwf. unfold allocate_frame. destruct (decide (frames_count a = 0)%nat) as [H0|H0]; [right; by rewrite H0|].
  destruct (allocate_frame_loop_spec (frames_count a) 0 a Hwf ltac:(lia))
    as [(a' & k & f & -> & Hf & Hk & Ht & Hu)|[-> _]]; [left|by right].
  exists f, a'. split; [done|]. split; [apply Hu|]. split.
  - intros (j & Hj & Hg & Htk). rewrite (index_to_frame_inj a j k f Hwf Hg Hf) in Htk. congruence.
  - exact (frame_taken_updated a a' k f true Hwf Hk Hf Hu).
Qed.

#[export] Program Instance phys_lawful : LawfulPool PhysMem := {|
  pool_ok := fun s => alloc_wf (mem_alloc s);
  held := fun s => frame_taken (mem_alloc s);
|}.
Next Obligation.
  intros s Hok. cbn in *. destruct (allocate_frame_taken (mem_alloc s) Hok) as [(f & a' & -> & Hwf & Hn & Hg)| ->].
  - cbn. split; [done|]. split; [done|]. split; [by rewrite lookup_insert_eq|].
    intros g. split; [apply Hg|]. intros Hgf. by rewrite lookup_insert_ne.
  - done.
Qed.
Next Obligation.
  intros s f Hok (k & Hk & Hf & Ht). cbn in *.
  assert (f mod PAGE = 0) as Hal by (by eapply index_to_frame_aligned).
  destruct (index_to_frame_ok _ k Hok Hk) as (f' & H1 & H2). rewrite H1 in Hf. simplify_eq.
  destruct (deallocate_frame_ok _ f Hok Hal) as (a' & -> & Hu). rewrite H2 in Hu. cbn.
  split; [apply Hu|]. intros g. split; [|done].
  exact (frame_taken_updated _ a' k f false Hok Hk H1 Hu g).
Qed.
Next Obligation.
  intros s f bs Hok Hh Hl. cbn in *. split; [done|]. intros g. split; [done|].
  destruct (decide (g = f)) as [->|Hne]; [by rewrite lookup_insert_eq|by rewrite lookup_insert_ne].
Qed.

(** ** The contract, on physical memory *)

(** C19. A memory file whose pages are its own refines a byte string: reads return the bytes from the offset on; a write, and a truncation, whose end is at most 2^64 - 4096 changes exactly the bytes it should, a gap reading as zeros, or runs out of frames, reports EIO and leaves the contents alone; a write whose end overflows reports EINVAL and changes nothing; an empty write does nothing; no frame outside the file changes. (Ends in the last page of the address space are not covered: there the length wraps around and pages are lost.) *)
Theorem memfd_refines_bytes (f : MemFd) (s : PhysMem) :
  memfd_ok f s ->
  (forall offset n, 0 <= offset ->
     read_at offset n (f, s) = (Ok (take n (drop (Z.to_nat offset) (content f s))), (f, s))) /\
  (forall offset data, 0 <= offset -> offset + Z.of_nat (length data) <= 2 ^ 64 - PAGE -> data <> [] ->
     let '(r, (f', s')) := write_at offset data (f, s) in
     memfd_ok f' s' /\ others_kept (memfd_pages f) s s' /\
     match r with
     | Ok n => n = Z.of_nat (length data) /\ content f' s' = overlay (Z.to_nat offset) data (content f s)
     | Err e => e = EIO /\ content f' s' = content f s
     | Panic => False
     end) /\
  (forall offset data, U64_MAX < offset + Z.of_nat (length data) -> data <> [] ->
     write_at offset data (f, s) = (Err EINVAL, (f, s))) /\
  (forall offset, write_at offset [] (f, s) = (Ok 0, (f, s))) /\
  (forall len, 0 <= len <= 2 ^ 64 - PAGE -> truncate_post len f s (truncate len (f, s))).
Proof.
  intros Hf. split_and!; intros.
  - by apply memfd_read_at.
  - by apply memfd_write_at.
  - unfold write_at, checked_add. destruct data; [done|]. by rewrite (proj2 (Z.leb_gt _ _)).
  - done.
  - by apply truncate_spec.
Qed.

(** A write whose end lies in the last page of the address space makes the page count wrap to zero: the file gives up all its pages, keeps its old length, and its bytes can no longer be read. *)
Theorem memfd_huge_write_drops_pages (f : MemFd) (s : PhysMem) (offset : Z) (data : list Z) :
  memfd_ok f s -> 0 < memfd_len f -> memfd_len f <= 2 ^ 64 - PAGE -> 0 <= offset -> data <> [] ->
  2 ^ 64 - PAGE < offset + Z.of_nat (length data) <= U64_MAX ->
  exists f' s', write_at offset data (f, s) = (Err EIO, (f', s')) /\
    memfd_pages f' = [] /\ memfd_len f' = memfd_len f /\ read_at 0 1 (f', s') = (Err EIO, (f', s')).
Proof.
  intros [Hok Hlen] Hpos Hsmall Ho Hd Hend. destruct data as [|b data]; [done|]. unfold write_at.
  set (d := b :: data) in *. set (e := offset + Z.of_nat (length d)) in *.
  unfold checked_add. fold e. rewrite (proj2 (Z.leb_le e U64_MAX)) by lia.
  assert (needed_pages e = 0%nat) as Hz.
  { unfold needed_pages. rewrite (proj2 (Z.eqb_neq e 0)) by (unfold PAGE in *; lia). rewrite align_up_page.
    unfold U64_MAX, PAGE in *. replace (e + 4095) with (e + 4095 - 2 ^ 64 + 1 * 2 ^ 64) by lia.
    rewrite Z_mod_plus_full, Z.mod_small by lia. rewrite (Z.div_small (e + 4095 - 2 ^ 64)) by lia. done. }
  unfold bindM. cbn [getM fst]. rewrite (proj2 (Z.ltb_lt (memfd_len f) e)) by (unfold PAGE in *; lia).
  unfold truncate, bindM. cbn [getM fst]. fold (needed_pages e). rewrite Hz. change (0 - length (memfd_pages f))%nat with 0%nat. cbn [grow retM].
  rewrite Nat.sub_0_r. destruct (shrink_spec (length (memfd_pages f)) f s) as (f2 & s2 & -> & Hl2 & Hp2 & _); [lia|done|].
  rewrite Nat.sub_diag in Hp2. cbn in Hp2.
  rewrite (proj2 (Z.ltb_lt (memfd_len f) e)) by (unfold PAGE in *; lia).
  unfold zero_range. rewrite (proj2 (Z.eqb_neq (e - memfd_len f) 0)) by (unfold PAGE in *; lia).
  unfold checked_add. replace (memfd_len f + (e - memfd_len f)) with e by lia.
  rewrite (proj2 (Z.leb_le e U64_MAX)) by lia.
  destruct (Z.to_nat (e - memfd_len f)) as [|m] eqn:Hm; [unfold PAGE in *; lia|]. cbn [zero_loop].
  rewrite (proj2 (Z.leb_gt e (memfd_len f))), Hp2 by (unfold PAGE in *; lia).
  exists f2, s2. split; [done|]. split; [done|]. split; [done|].
  unfold read_at, bindM. cbn [getM fst]. rewrite (proj2 (Z.leb_gt (memfd_len f2) 0)) by lia. cbn [orb Nat.eqb].
  rewrite Z.min_l by lia. destruct f2. cbn in *. by subst.
Qed.

Definition sample_mem : PhysMem := mkPhysMem small_alloc ∅.
Definition sample_memfd : MemFd * PhysMem :=
  match allocate_zeroed_frame sample_mem with
  | (Some p, s) => (mkMemFd "memfd:x" 3 [p], s)
  | (None, s) => (MemFd_new "memfd:x", s)
  end.

Lemma sample_memfd_ok : memfd_ok sample_memfd.1 sample_memfd.2.
Proof.
  pose proof (law_alloc sample_mem small_alloc_wf) as Ha. unfold sample_memfd.
  destruct (allocate_zeroed_frame sample_mem) as [[p|] s] eqn:He; [|by vm_compute in He].
  destruct Ha as (Hok & _ & Hz & Hg). cbn [fst snd]. split; [|cbn; unfold PAGE; lia]. cbn [memfd_pages].
  split; [done|]. split; [apply NoDup_singleton|]. split; apply Forall_singleton.
  - apply Hg. by right.
  - by rewrite Hz, length_replicate.
Qed.

(** Two bytes are written over the last byte of a file of three and past it. *)
Lemma memfd_refines_bytes_witness : exists f' s',
  write_at 2 [7; 8] sample_memfd = (Ok 2, (f', s')) /\ content f' s' = [0; 0; 7; 8] /\ memfd_ok f' s' /\
  read_at 1 2 sample_memfd = (Ok [0; 0], sample_memfd) /\ write_at U64_MAX [7] sample_memfd = (Err EINVAL, sample_memfd).
Proof.
  destruct (memfd_refines_bytes sample_memfd.1 sample_memfd.2 sample_memfd_ok) as (H1 & H2 & H3 & _).
  specialize (H2 2 [7; 8] ltac:(lia) ltac:(unfold PAGE; cbn; lia) ltac:(done)).
  assert (Hr : (write_at 2 [7; 8] (sample_memfd.1, sample_memfd.2)).1 = Ok 2) by (vm_compute; reflexivity).
  change sample_memfd with (sample_memfd.1, sample_memfd.2) at 1.
  destruct (write_at 2 [7; 8] (sample_memfd.1, sample_memfd.2)) as [r [f' s']]. cbn [fst] in Hr. rewrite Hr in *.
  destruct H2 as (Hok & _ & _ & Hc). exists f', s'. split; [reflexivity|]. split; [rewrite Hc; vm_compute; reflexivity|].
  split; [exact Hok|]. split; [exact (H1 1 2%nat ltac:(lia))|]. exact (H3 U64_MAX [7] ltac:(unfold U64_MAX; cbn; lia) ltac:(done)).
Defined.

Lemma memfd_huge_write_drops_pages_witness : exists f' s',
  write_at (2 ^ 64 - 2) [7] sample_memfd = (Err EIO, (f', s')) /\ memfd_pages f' = [] /\ memfd_len f' = 3.
Proof.
  destruct (memfd_huge_write_drops_pages sample_memfd.1 sample_memfd.2 (2 ^ 64 - 2) [7] sample_memfd_ok)
    as (f' & s' & H1 & H2 & H3 & _); [done|done|done|done|done|].
  exists f', s'. split; [exact H1|]. split; [exact H2|exact H3].
Defined.
