(* ===== verification/WaitQueue.v ===== *)
(** * Wait queues (utils/sync.rs)

    A fixed slab of process ids.  Each operation is one critical section under the
    queue's own lock; [notify_all] takes one waiter per critical section.  Waking is
    a parameter: the state transformer of [proc::wake_process]. *)

From S2P Require Import Prelude.

Definition WAIT_QUEUE_CAPACITY : nat := 64.

Abbreviation WaitQueue := (list (option Z)).

Definition WaitQueue_new : WaitQueue := replicate WAIT_QUEUE_CAPACITY None.

Definition queued (p : Z) (q : WaitQueue) : bool :=
  existsb (fun w => match w with Some p' => p' =? p | None => false end) q.

(** The first free slot takes the process; a full slab is left as it is. *)
Fixpoint fill_slot (p : Z) (q : WaitQueue) : WaitQueue :=
  match q with
  | [] => []
  | None :: q => Some p :: q
  | Some w :: q => Some w :: fill_slot p q
  end.

(** [prepare_current], for the current process [p]. *)
Definition prepare_current (p : Z) (q : WaitQueue) : WaitQueue :=
  if queued p q then q else fill_slot p q.

Fixpoint finish_wait (p : Z) (q : WaitQueue) : WaitQueue :=
  match q with
  | [] => []
  | Some w :: q => if w =? p then None :: q else Some w :: finish_wait p q
  | None :: q => None :: finish_wait p q
  end.

(** [waiters.iter_mut().find_map(|slot| slot.take())]. *)
Fixpoint take_first (q : WaitQueue) : option Z * WaitQueue :=
  match q with
  | [] => (None, [])
  | Some w :: q => (Some w, None :: q)
  | None :: q => let '(w, q) := take_first q in (w, None :: q)
  end.

Definition is_empty_queue (q : WaitQueue) : bool :=
  forallb (fun w => match w with None => true | Some _ => false end) q.

Section notify.
Context {S : Type} (wake_process : Z -> S -> S).

Definition notify_one (q : WaitQueue) (s : S) : WaitQueue * S :=
  match take_first q with
  | (Some p, q) => (q, wake_process p s)
  | (None, q) => (q, s)
  end.

(** The loop of [notify_all]; every turn but the last frees a slot. *)
Fixpoint notify_loop (fuel : nat) (q : WaitQueue) (s : S) : option (WaitQueue * S) :=
  match fuel with
  | O => None
  | Datatypes.S fuel =>
    match take_first q with
    | (None, q) => Some (q, s)
    | (Some p, q) => notify_loop fuel q (wake_process p s)
    end
  end.
Definition notify_all (q : WaitQueue) (s : S) : option (WaitQueue * S) :=
  notify_loop (Datatypes.S (length q)) q s.
End notify.

(** ** The processes in a queue, in slot order *)

Definition pids (q : WaitQueue) : list Z := omap id q.

Lemma pids_new : pids WaitQueue_new = [].
Proof. done. Qed.

Lemma queued_spec p q : queued p q = true <-> p ∈ pids q.
Proof.
  induction q as [|[w|] q IH]; cbn; [|rewrite orb_true_iff, IH, Z.eqb_eq, elem_of_cons|exact IH].
  - split; [done|]. by intros ?%not_elem_of_nil.
  - intuition congruence.
Qed.

Lemma take_first_spec q :
  match take_first q with
  | (Some w, q') => pids q = w :: pids q' /\ length q' = length q
  | (None, q') => pids q = [] /\ q' = q
  end.
Proof.
  induction q as [|[w|] q IH]; cbn; [done|done|].
  destruct (take_first q) as [[w|] q']; cbn; destruct IH as [H1 H2]; (split; [exact H1|]); congruence.
Qed.

Lemma finish_wait_length p q : length (finish_wait p q) = length q.
Proof. induction q as [|[w|] q IH]; cbn; [done| |by rewrite IH]. case_match; cbn; by rewrite ?IH. Qed.

Lemma finish_wait_pids p q x : x ∈ pids (finish_wait p q) -> x ∈ pids q.
Proof.
  induction q as [|[w|] q IH]; cbn; [done| |exact IH]. destruct (w =? p); cbn; [by right|].
  rewrite !elem_of_cons. intuition.
Qed.

Lemma finish_wait_keeps p q x : x <> p -> x ∈ pids q -> x ∈ pids (finish_wait p q).
Proof.
  intros Hx. induction q as [|[w|] q IH]; cbn; [done| |exact IH].
  destruct (Z.eqb_spec w p) as [->|]; cbn; rewrite ?elem_of_cons; intuition congruence.
Qed.

Lemma finish_wait_NoDup p q : NoDup (pids q) -> NoDup (pids (finish_wait p q)) /\ p ∉ pids (finish_wait p q).
Proof.
  induction q as [|[w|] q IH]; cbn; [intros _; split; [constructor|apply not_elem_of_nil]| |exact IH].
  intros [Hw Hq]%NoDup_cons. destruct (Z.eqb_spec w p) as [->|Hne]; [done|]. destruct (IH Hq) as [H1 H2].
  cbn. split; [constructor; [|done]; intros Hin%finish_wait_pids; done|].
  rewrite not_elem_of_cons. split; [congruence|done].
Qed.

Lemma fill_slot_length p q : length (fill_slot p q) = length q.
Proof. induction q as [|[w|] q IH]; cbn; by rewrite ?IH. Qed.

Lemma pids_length q : (length (pids q) <= length q)%nat.
Proof. unfold pids. induction q as [|[w|] q IH]; cbn in *; lia. Qed.

Lemma fill_slot_full p q : length (pids q) = length q -> fill_slot p q = q.
Proof.
  induction q as [|[w|] q IH]; cbn; [done|intros [= H]; by rewrite IH|].
  intros H. pose proof (pids_length q). unfold pids in *. lia.
Qed.

Lemma fill_slot_spec p q :
  (length (pids q) < length q)%nat -> pids (fill_slot p q) ≡ₚ p :: pids q.
Proof.
  induction q as [|[w|] q IH]; cbn; [lia| |done]. intros H.
  rewrite IH by (unfold pids; lia). apply Permutation_swap.
Qed.

(** Room for [p]: it is queued already or a slot is free. *)
Definition has_room (p : Z) (q : WaitQueue) : Prop := p ∈ pids q \/ (length (pids q) < length q)%nat.

Lemma prepare_current_length p q : length (prepare_current p q) = length q.
Proof. unfold prepare_current. destruct (queued p q); [done|apply fill_slot_length]. Qed.

Lemma prepare_current_pids p q x : x ∈ pids (prepare_current p q) -> x = p \/ x ∈ pids q.
Proof.
  unfold prepare_current. destruct (queued p q) eqn:Hq; [by right|].
  destruct (decide (length (pids q) < length q)%nat) as [Hlt|Hge].
  - rewrite fill_slot_spec by done. by rewrite elem_of_cons.
  - rewrite fill_slot_full by (pose proof (pids_length q); lia). by right.
Qed.

Lemma prepare_current_keeps p q x : x ∈ pids q -> x ∈ pids (prepare_current p q).
Proof.
  intros Hx. unfold prepare_current. destruct (queued p q); [done|].
  destruct (decide (length (pids q) < length q)%nat) as [Hlt|Hge].
  - rewrite fill_slot_spec by done. by right.
  - by rewrite fill_slot_full by (pose proof (pids_length q); lia).
Qed.

Lemma prepare_current_in p q : has_room p q -> p ∈ pids (prepare_current p q).
Proof.
  intros Hr. unfold prepare_current. destruct (queued p q) eqn:Hq; [by apply queued_spec|].
  destruct Hr as [Hr|Hr]; [apply queued_spec in Hr; congruence|]. rewrite fill_slot_spec by done. by left.
Qed.

Lemma prepare_current_NoDup p q : NoDup (pids q) -> NoDup (pids (prepare_current p q)).
Proof.
  intros Hnd. unfold prepare_current. destruct (queued p q) eqn:Hq; [done|].
  destruct (decide (length (pids q) < length q)%nat) as [Hlt|Hge].
  - rewrite fill_slot_spec by done. constructor; [|done]. rewrite <- queued_spec. congruence.
  - by rewrite fill_slot_full by (pose proof (pids_length q); lia).
Qed.

Lemma is_empty_queue_pids q : pids q = [] -> is_empty_queue q = true.
Proof. induction q as [|[w|] q IH]; cbn; [done|discriminate|exact IH]. Qed.

Lemma notify_loop_spec {S} (wake : Z -> S -> S) fuel : forall q s,
  (length (pids q) < fuel)%nat ->
  exists q', notify_loop wake fuel q s = Some (q', fold_left (fun s p => wake p s) (pids q) s) /\
    is_empty_queue q' = true /\ length q' = length q.
Proof.
  induction fuel as [|fuel IH]; intros q s Hf; [lia|]. cbn [notify_loop].
  pose proof (take_first_spec q) as Ht. destruct (take_first q) as [[w|] q1]; destruct Ht as [Hp Hq].
  - rewrite Hp in *. cbn in Hf. destruct (IH q1 (wake w s)) as (q' & H1 & H2 & H3); [lia|].
    exists q'. split; [exact H1|]. split; [done|congruence].
  - exists q1. rewrite Hp. split; [done|]. subst q1. split; [by apply is_empty_queue_pids|done].
Qed.

(** notify_all ends; it wakes exactly the queued processes, once each and in slot order, and leaves the queue empty. *)
Theorem notify_all_wakes_queued {S} (wake : Z -> S -> S) (q : WaitQueue) (s : S) :
  exists q', notify_all wake q s = Some (q', fold_left (fun s p => wake p s) (pids q) s) /\
    is_empty_queue q' = true /\ length q' = length q.
Proof. apply notify_loop_spec. pose proof (pids_length q). lia. Qed.
