(* ===== verification/Pipe.v ===== *)
(** * Pipes (sys/fs/pipe.rs)

    The critical sections of [read], [write], [poll] and [drop] are functions on
    [PipeInner].  Around them the tasks that use one pipe form a transition system:
    a task's program counter is its place in [read] or [write], a step is one
    critical section, one turn of [notify_all] or one transition of [await_io], and
    steps of different tasks interleave in any order.  A task carries what
    [wake_process] and [await_io] use of the process: whether it is [AwaitingIo] and
    its [pending_io] flag. *)

From Stdlib Require Import ZifyBool.
From S2P Require Import Prelude WaitQueue.

Definition EINTR : Z := 4.
Definition EAGAIN : Z := 11.
Definition EPIPE : Z := 32.

Definition PIPE_BUF : nat := 4096.
Definition PIPE_CAPACITY : nat := PIPE_BUF.

Record PipeInner := mkInner { buffer : list Z; readers : Z; writers : Z }.
Definition PipeInner_new : PipeInner := mkInner [] 1 1.

Inductive PipeEndKind := ReadEnd | WriteEnd.

#[export] Instance PipeEndKind_eq_dec : EqDecision PipeEndKind.
Proof. solve_decision. Defined.

Record PipePollState := mkPoll { readable : bool; writable : bool; hangup : bool; error : bool }.

(** ** Critical sections *)

(** What one turn of a loop decides while it holds the lock: the call returns a
    value, or an error, or the task has to wait. *)
Inductive Turn (A : Type) := Returns (a : A) | Fails (e : Z) | Waits.
Arguments Returns {A} a.
Arguments Fails {A} e.
Arguments Waits {A}.

(** One turn of [read] into a buffer of [n] bytes: the bytes copied. *)
Definition read_turn (n : nat) (nonblock signalled : bool) (i : PipeInner) : Turn (list Z) * PipeInner :=
  if negb (length (buffer i) =? 0)%nat then
    let count := Nat.min n (length (buffer i)) in
    (Returns (take count (buffer i)), mkInner (drop count (buffer i)) (readers i) (writers i))
  else if writers i =? 0 then (Returns [], i)
  else if nonblock then (Fails EAGAIN, i)
  else if signalled then (Fails EINTR, i)
  else (Waits, i).

Definition available (i : PipeInner) : nat := (PIPE_CAPACITY - length (buffer i))%nat.

Definition can_write (data : list Z) (i : PipeInner) : bool :=
  if (length data <=? PIPE_BUF)%nat then (length data <=? available i)%nat else (0 <? available i)%nat.

(** One turn of [write]: the number of bytes taken. *)
Definition write_turn (data : list Z) (nonblock signalled : bool) (i : PipeInner) : Turn nat * PipeInner :=
  if readers i =? 0 then (Fails EPIPE, i)
  else if can_write data i then
    let count := if (length data <=? PIPE_BUF)%nat then length data
                 else Nat.min (available i) (length data) in
    (Returns count, mkInner (buffer i ++ take count data) (readers i) (writers i))
  else if nonblock then (Fails EAGAIN, i)
  else if signalled then (Fails EINTR, i)
  else (Waits, i).

Definition PipeEnd_poll (kind : PipeEndKind) (i : PipeInner) : PipePollState :=
  match kind with
  | ReadEnd => mkPoll (negb (length (buffer i) =? 0)%nat) false (writers i =? 0) false
  | WriteEnd => mkPoll false ((0 <? readers i) && (length (buffer i) <? PIPE_CAPACITY)%nat) false (readers i =? 0)
  end.

(** [Drop], before it notifies. *)
Definition PipeEnd_drop (kind : PipeEndKind) (i : PipeInner) : PipeInner :=
  match kind with
  | ReadEnd => mkInner (buffer i) (saturating_sub (readers i) 1) (writers i)
  | WriteEnd => mkInner (buffer i) (readers i) (saturating_sub (writers i) 1)
  end.

(** The tests before the loops: the wrong end, and an empty buffer. *)
Definition read_entry (kind : PipeEndKind) (n : nat) : option (Turn (list Z)) :=
  if decide (kind = ReadEnd) then if (n =? 0)%nat then Some (Returns []) else None
  else Some (Fails EPIPE).
Definition write_entry (kind : PipeEndKind) (data : list Z) : option (Turn nat) :=
  if decide (kind = WriteEnd) then if (length data =? 0)%nat then Some (Returns 0%nat) else None
  else Some (Fails EPIPE).

(** ** The tasks of one pipe *)

(** The queues a task has still to notify: the pipe's readers, its writers, pollers. *)
Inductive QueueId := QReaders | QWriters | QPoll.

#[export] Instance QueueId_eq_dec : EqDecision QueueId.
Proof. solve_decision. Defined.

(** [Reading]: at the top of the loop.  [ReadSleep]: queued, the lock dropped, in
    [await_io].  [ReadWoken]: [await_io] has returned.  [Notify]: the call is done
    but for the queues left to notify. *)
Inductive Pc :=
| Idle
| Reading (n : nat) (nonblock : bool)
| ReadSleep (n : nat) (nonblock : bool)
| ReadWoken (n : nat) (nonblock : bool)
| Writing (data : list Z) (nonblock : bool)
| WriteSleep (data : list Z) (nonblock : bool)
| WriteWoken (data : list Z) (nonblock : bool)
| Notify (qs : list QueueId).

Record Task := mkTask { pc : Pc; awaiting : bool; pending : bool }.
Definition set_pc (c : Pc) (t : Task) : Task := mkTask c (awaiting t) (pending t).

(** [wake_process]. *)
Definition wake_task (t : Task) : Task := mkTask (pc t) false true.

(** [sent] and [received] are the bytes accepted and delivered so far. *)
Record Pipe := mkPipe {
  inner : PipeInner; read_queue : WaitQueue; write_queue : WaitQueue; poll_queue : WaitQueue;
  tasks : gmap Z Task; sent : list Z; received : list Z;
}.

Definition queue_of (q : QueueId) (s : Pipe) : WaitQueue :=
  match q with QReaders => read_queue s | QWriters => write_queue s | QPoll => poll_queue s end.
Definition set_queue (q : QueueId) (w : WaitQueue) (s : Pipe) : Pipe :=
  mkPipe (inner s) (match q with QReaders => w | _ => read_queue s end)
    (match q with QWriters => w | _ => write_queue s end)
    (match q with QPoll => w | _ => poll_queue s end) (tasks s) (sent s) (received s).
Definition set_tasks (ts : gmap Z Task) (s : Pipe) : Pipe :=
  mkPipe (inner s) (read_queue s) (write_queue s) (poll_queue s) ts (sent s) (received s).
Definition set_inner (i : PipeInner) (s : Pipe) : Pipe :=
  mkPipe i (read_queue s) (write_queue s) (poll_queue s) (tasks s) (sent s) (received s).
Definition goto (p : Z) (c : Pc) (s : Pipe) : Pipe := set_tasks (alter (set_pc c) p (tasks s)) s.
Definition wake (p : Z) (s : Pipe) : Pipe := set_tasks (alter wake_task p (tasks s)) s.

(** A turn of a read or a write, with the queues its result notifies. *)
Definition read_step (p : Z) (n : nat) (nb sig : bool) (s : Pipe) : Pipe :=
  let '(t, i) := read_turn n nb sig (inner s) in
  match t with
  | Returns [] => goto p Idle s
  | Returns bs =>
    goto p (Notify [QWriters; QPoll])
      (mkPipe i (read_queue s) (write_queue s) (poll_queue s) (tasks s) (sent s) (received s ++ bs))
  | Fails _ => goto p Idle s
  | Waits => goto p (ReadSleep n nb) (set_queue QReaders (prepare_current p (read_queue s)) s)
  end.

Definition write_step (p : Z) (data : list Z) (nb sig : bool) (s : Pipe) : Pipe :=
  let '(t, i) := write_turn data nb sig (inner s) in
  match t with
  | Returns count =>
    goto p (Notify [QReaders; QPoll])
      (mkPipe i (read_queue s) (write_queue s) (poll_queue s) (tasks s) (sent s ++ take count data) (received s))
  | Fails _ => goto p Idle s
  | Waits => goto p (WriteSleep data nb) (set_queue QWriters (prepare_current p (write_queue s)) s)
  end.

(** [await_io]: honour a wake that came first, or block. *)
Definition await_step (p : Z) (t : Task) (woken : Pc) (s : Pipe) : Pipe :=
  if pending t then set_tasks (<[p := mkTask woken false false]> (tasks s)) s
  else set_tasks (<[p := mkTask (pc t) true false]> (tasks s)) s.

(** The next step of task [p]; [sig] is what [current_has_unblocked_signal] says. *)
Definition task_step (sig : bool) (p : Z) (s : Pipe) : option Pipe :=
  match tasks s !! p with
  | None => None
  | Some t =>
    if awaiting t then None
    else match pc t with
    | Idle => None
    | Reading n nb => Some (read_step p n nb sig s)
    | ReadSleep n nb => Some (await_step p t (ReadWoken n nb) s)
    | ReadWoken n nb =>
      Some (goto p (if sig then Idle else Reading n nb) (set_queue QReaders (finish_wait p (read_queue s)) s))
    | Writing data nb => Some (write_step p data nb sig s)
    | WriteSleep data nb => Some (await_step p t (WriteWoken data nb) s)
    | WriteWoken data nb =>
      Some (goto p (if sig then Idle else Writing data nb) (set_queue QWriters (finish_wait p (write_queue s)) s))
    | Notify [] => Some (goto p Idle s)
    | Notify (q :: qs) =>
      match take_first (queue_of q s) with
      | (Some w, q') => Some (wake w (set_queue q q' s))
      | (None, _) => Some (goto p (Notify qs) s)
      end
    end
  end.

(** What an idle task may begin: a read, a write, the drop of an end. *)
Definition start_read (p : Z) (n : nat) (nb : bool) (s : Pipe) : Pipe :=
  match read_entry ReadEnd n with Some _ => s | None => goto p (Reading n nb) s end.
Definition start_write (p : Z) (data : list Z) (nb : bool) (s : Pipe) : Pipe :=
  match write_entry WriteEnd data with Some _ => s | None => goto p (Writing data nb) s end.
Definition start_drop (p : Z) (kind : PipeEndKind) (s : Pipe) : Pipe :=
  goto p (Notify [QReaders; QWriters; QPoll]) (set_inner (PipeEnd_drop kind (inner s)) s).

Definition idle (p : Z) (s : Pipe) : bool :=
  match tasks s !! p with Some t => match pc t with Idle => true | _ => false end | None => false end.

(** Steps of the system.  [step_signal]: a signal wakes a process at any time.
    [step_poll]: pollers come and go in their own queue. *)
Inductive step : Pipe -> Pipe -> Prop :=
| step_task p sig s s' : task_step sig p s = Some s' -> step s s'
| step_read p n nb s : idle p s = true -> step s (start_read p n nb s)
| step_write p data nb s : idle p s = true -> step s (start_write p data nb s)
| step_drop p kind s : idle p s = true -> step s (start_drop p kind s)
| step_signal p s : step s (wake p s)
| step_poll q s : step s (set_queue QPoll q s).

(** A new pipe used by the tasks [ps]. *)
Definition Pipe_new (ps : list Z) : Pipe :=
  mkPipe PipeInner_new WaitQueue_new WaitQueue_new WaitQueue_new
    (list_to_map ((fun p => (p, mkTask Idle false false)) <$> ps)) [] [].

Definition reachable (ps : list Z) (s : Pipe) : Prop := rtc step (Pipe_new ps) s.
