(* ===== verification/PipeSpec.v ===== *)
(** * Pipes: delivery and wake-ups

    Over every interleaving of the tasks of one pipe ([Pipe.step]): the invariant that
    ties the wait queues to the sleeping tasks and to the tasks about to notify, the
    first-in first-out discipline of the bytes, and the theorems on both. *)

From Stdlib Require Import ZifyBool.
From S2P Require Import Prelude WaitQueue Pipe.

(** ** What a waiting task waits for *)

Definition sleeps_on (X : QueueId) (c : Pc) : bool :=
  match X, c with
  | QReaders, ReadSleep _ _ => true
  | QWriters, WriteSleep _ _ => true
  | _, _ => false
  end.

(** The condition on which the loop at [c] would return without waiting. *)
Definition ready_for (c : Pc) (i : PipeInner) : bool :=
  match c with
  | ReadSleep _ _ => negb (length (buffer i) =? 0)%nat || (writers i =? 0)
  | WriteSleep data _ => can_write data i || (readers i =? 0)
  | _ => false
  end.

(** The queues the task at [c] is about to notify. *)
Definition notices (c : Pc) : list QueueId := match c with Notify qs => qs | _ => [] end.

(** Some task is about to notify [X]. *)
Definition notifier (X : QueueId) (s : Pipe) : Prop :=
  exists r u, tasks s !! r = Some u /\ X ∈ notices (pc u).

Record Inv (ps : list Z) (s : Pipe) : Prop := {
  inv_dom : dom (tasks s) = list_to_set ps;
  inv_queue X : X <> QPoll -> length (queue_of X s) = WAIT_QUEUE_CAPACITY /\
    NoDup (pids (queue_of X s)) /\ pids (queue_of X s) ⊆ ps;
  inv_queued X p t : tasks s !! p = Some t -> sleeps_on X (pc t) = true -> pending t = false ->
    p ∈ pids (queue_of X s);
  inv_notified X p t : tasks s !! p = Some t -> sleeps_on X (pc t) = true ->
    p ∈ pids (queue_of X s) -> ready_for (pc t) (inner s) = true -> notifier X s;
  inv_awaiting p t : tasks s !! p = Some t -> awaiting t = true ->
    pending t = false /\ (sleeps_on QReaders (pc t) || sleeps_on QWriters (pc t)) = true;
}.

Lemma queue_set X Y w s : queue_of X (set_queue Y w s) = if decide (X = Y) then w else queue_of X s.
Proof. by destruct X, Y. Qed.

Lemma queue_of_tasks X ts s : queue_of X (set_tasks ts s) = queue_of X s.
Proof. by destruct X. Qed.

Lemma sleeps_not_poll X c : sleeps_on X c = true -> X <> QPoll.
Proof. by destruct X. Qed.

Lemma sleeps_no_notices X c : sleeps_on X c = true -> notices c = [].
Proof. by destruct X, c. Qed.

Lemma PipeInv_new ps : Inv ps (Pipe_new ps).
Proof.
  assert (Hl : forall p t, tasks (Pipe_new ps) !! p = Some t -> t = mkTask Idle false false).
  { intros p t H. cbn in H. apply elem_of_list_to_map_2, list_elem_of_fmap in H. destruct H as (x & [= _ ->] & _). done. }
  split; try (intros X p t H1%Hl; subst; by destruct X).
  - cbn. rewrite dom_list_to_map_L. f_equal. clear. induction ps as [|x l IH]; [done|].
    rewrite !fmap_cons, IH. done.
  - intros X HX. destruct X; [| |done]; (split; [done|]); cbn [queue_of Pipe_new read_queue write_queue];
      rewrite pids_new; (split; [constructor|]); intros x Hx%not_elem_of_nil; done.
  - intros p t H%Hl. by subst.
Qed.

Lemma goto_lookup p c t s p' t' :
  tasks s !! p = Some t -> alter (set_pc c) p (tasks s) !! p' = Some t' ->
  (p' = p /\ t' = set_pc c t) \/ (p' <> p /\ tasks s !! p' = Some t').
Proof.
  intros Hp. destruct (decide (p' = p)) as [->|Hne]; [rewrite lookup_alter_eq, Hp|rewrite lookup_alter_ne by done].
  - intros [= <-]. by left.
  - by right.
Qed.

(** Moving task [p] to a point where it does not sleep, with new contents [i]. *)
Lemma Inv_goto ps p t c i se re s :
  Inv ps s -> tasks s !! p = Some t -> awaiting t = false ->
  (forall X, sleeps_on X c = false) ->
  (forall X, X ∈ notices (pc t) -> X ∈ notices c \/ pids (queue_of X s) = []) ->
  (forall X c', sleeps_on X c' = true -> ready_for c' i = true -> ready_for c' (inner s) = true \/ X ∈ notices c) ->
  Inv ps (goto p c (mkPipe i (read_queue s) (write_queue s) (poll_queue s) (tasks s) se re)).
Proof.
  intros [Hd Hq Hs Hn Ha] Hp Hna Hc0 Hkeep Hready.
  assert (Hsame := fun p' t' => goto_lookup p c t s p' t' Hp).
  assert (Hqq : forall X, queue_of X (goto p c (mkPipe i (read_queue s) (write_queue s) (poll_queue s) (tasks s) se re)) = queue_of X s)
    by (by intros []).
  split.
  - cbn. by rewrite dom_alter_L.
  - intros X HX. rewrite Hqq. exact (Hq X HX).
  - intros X p' t' [[-> ->]|[_ H]]%Hsame; rewrite Hqq; [cbn; by rewrite Hc0|exact (Hs X p' t' H)].
  - intros X p' t' [[-> ->]|[Hne H]]%Hsame; rewrite Hqq; [cbn; by rewrite Hc0|]. intros H1 H2 H3.
    assert (Hin : X ∈ notices c -> notifier X (goto p c (mkPipe i (read_queue s) (write_queue s) (poll_queue s) (tasks s) se re))).
    { intros HX. exists p, (set_pc c t). cbn. by rewrite lookup_alter_eq, Hp. }
    destruct (Hready X _ H1 H3) as [Hr|Hr]; [|by apply Hin].
    destruct (Hn X p' t' H H1 H2 Hr) as (r & u & Hr1 & Hr2).
    destruct (decide (r = p)) as [->|Hrp].
    + rewrite Hp in Hr1. injection Hr1 as <-. destruct (Hkeep X Hr2) as [?|He]; [by apply Hin|].
      rewrite He in H2. by apply not_elem_of_nil in H2.
    + exists r, u. cbn. by rewrite lookup_alter_ne.
  - intros p' t' [[-> ->]|[_ H]]%Hsame; [cbn; by rewrite Hna|exact (Ha p' t' H)].
Qed.

(** [goto] alone. *)
Lemma Inv_goto_pc ps p t c s :
  Inv ps s -> tasks s !! p = Some t -> awaiting t = false ->
  (forall X, sleeps_on X c = false) ->
  (forall X, X ∈ notices (pc t) -> X ∈ notices c \/ pids (queue_of X s) = []) ->
  Inv ps (goto p c s).
Proof.
  intros HI Hp Hna Hc0 Hkeep. 
  destruct s as [i rq wq pq ts se re]. apply (Inv_goto ps p t c i se re _ HI Hp Hna Hc0 Hkeep); auto.
Qed.

(** A task that finds its condition false queues itself; with at most as many tasks
    as the slab has slots there is room. *)
Lemma Inv_room ps s X p :
  Inv ps s -> NoDup ps -> (length ps <= WAIT_QUEUE_CAPACITY)%nat -> X <> QPoll ->
  is_Some (tasks s !! p) -> has_room p (queue_of X s).
Proof.
  intros HI Hnd Hlen HX Hp. destruct (decide (p ∈ pids (queue_of X s))) as [|Hni]; [by left|right].
  destruct (inv_queue _ _ HI X HX) as (Hl & Hq & Hsub). rewrite Hl.
  enough (length (p :: pids (queue_of X s)) <= length ps)%nat by (cbn in *; lia).
  apply NoDup_incl_length; [by apply NoDup_ListNoDup, NoDup_cons|]. intros x Hx%list_elem_of_In. apply list_elem_of_In.
  apply elem_of_cons in Hx as [->|Hx]; [|by apply Hsub].
  apply elem_of_dom in Hp. rewrite (inv_dom _ _ HI) in Hp. by apply elem_of_list_to_set in Hp.
Qed.

Lemma Inv_in_ps ps s p : Inv ps s -> is_Some (tasks s !! p) -> p ∈ ps.
Proof.
  intros HI Hp%elem_of_dom. rewrite (inv_dom _ _ HI) in Hp. by apply elem_of_list_to_set in Hp.
Qed.

(** The queue [X] replaced by one that still holds every sleeper. *)
Lemma Inv_set_queue ps X q s :
  Inv ps s -> X <> QPoll ->
  length q = WAIT_QUEUE_CAPACITY -> NoDup (pids q) -> pids q ⊆ ps ->
  (forall p t, tasks s !! p = Some t -> sleeps_on X (pc t) = true ->
     (p ∈ pids q -> p ∈ pids (queue_of X s)) /\ (pending t = false -> p ∈ pids (queue_of X s) -> p ∈ pids q)) ->
  Inv ps (set_queue X q s).
Proof.
  intros [Hd Hq Hs Hn Ha] HX Hl Hnd Hsub Hsame. split; try done.
  - intros Y HY. rewrite queue_set. case_decide; [done|exact (Hq Y HY)].
  - intros Y p t H1 H2 H3. rewrite queue_set. case_decide as HYX; [subst Y; apply (Hsame p t H1 H2); [done|]|]; exact (Hs _ p t H1 H2 H3).
  - intros Y p t H1 H2 H3 H4. rewrite queue_set in H3.
    apply (Hn Y p t H1 H2); [|exact H4]. case_decide as HYX; [subst Y; by apply (Hsame p t H1 H2)|exact H3].
Qed.

Lemma Inv_sleep ps X p t c s :
  Inv ps s -> NoDup ps -> (length ps <= WAIT_QUEUE_CAPACITY)%nat ->
  tasks s !! p = Some t -> awaiting t = false -> notices (pc t) = [] ->
  (forall Y, sleeps_on Y (pc t) = false) -> sleeps_on X c = true -> ready_for c (inner s) = false ->
  Inv ps (goto p c (set_queue X (prepare_current p (queue_of X s)) s)).
Proof.
  intros HI Hnd Hlen Hp Hna Hno Hnsl Hc Hnr. assert (HX := sleeps_not_poll X c Hc).
  assert (Hroom := Inv_room ps s X p HI Hnd Hlen HX (mk_is_Some _ _ Hp)).
  assert (HJ : Inv ps (set_queue X (prepare_current p (queue_of X s)) s)).
  { destruct (inv_queue _ _ HI X HX) as (Hl & Hq & Hsub).
    apply Inv_set_queue; [done|done|by rewrite prepare_current_length|by apply prepare_current_NoDup| |].
    - intros x [->|Hx]%prepare_current_pids; [by apply (Inv_in_ps ps s p HI)|by apply Hsub].
    - intros p' t' Hp' Hsl. split; [intros [->|]%prepare_current_pids|intros _; apply prepare_current_keeps]; [|done].
      rewrite Hp in Hp'. injection Hp' as <-. by rewrite Hnsl in Hsl. }
  assert (Hin : p ∈ pids (queue_of X (set_queue X (prepare_current p (queue_of X s)) s))).
  { rewrite queue_set, decide_True by done. by apply prepare_current_in. }
  revert HJ Hin. generalize (prepare_current p (queue_of X s)). intros q HJ Hin.
  set (s1 := set_queue X q s) in *. destruct HJ as [Hd Hq Hs Hn Ha].
  change (tasks s) with (tasks s1) in Hp. change (inner s) with (inner s1) in Hnr. clearbody s1.
  assert (Hsame := fun p' t' => goto_lookup p c t s1 p' t' Hp).
  unfold goto. split; cbn [tasks set_tasks inner sent received]; try setoid_rewrite queue_of_tasks; try done.
  - by rewrite dom_alter_L.
  - intros Y p' t' [[-> ->]|[_ H]]%Hsame; [|exact (Hs Y p' t' H)]. cbn. intros HY _.
    assert (Y = X) as -> by (destruct X, Y, c; done). exact Hin.
  - intros Y p' t' [[-> ->]|[Hne H]]%Hsame; [cbn; rewrite Hnr; done|]. intros H1 H2 H3.
    destruct (Hn Y p' t' H H1 H2 H3) as (r & u & Hr & Hu). exists r, u. cbn. split; [|done].
    rewrite lookup_alter_ne; [done|]. intros ->. rewrite Hp in Hr. injection Hr as <-. rewrite Hno in Hu.
    by apply not_elem_of_nil in Hu.
  - intros p' t' [[-> ->]|[_ H]]%Hsame; [cbn; by rewrite Hna|exact (Ha p' t' H)].
Qed.

(** The flags of a task changed, its place kept. *)
Lemma Inv_flags ps p t t' s :
  Inv ps s -> tasks s !! p = Some t -> pc t' = pc t ->
  (pending t' = false -> pending t = false \/ forall X, sleeps_on X (pc t) = false) ->
  (awaiting t' = true -> pending t' = false /\ (sleeps_on QReaders (pc t) || sleeps_on QWriters (pc t)) = true) ->
  Inv ps (set_tasks (<[p := t']> (tasks s)) s).
Proof.
  intros [Hd Hq Hs Hn Ha] Hp Hpc Hpend Haw.
  split; cbn [tasks set_tasks inner sent received]; try setoid_rewrite queue_of_tasks; try done.
  - rewrite dom_insert_lookup_L; [done|by exists t].
  - intros X p' u. destruct (decide (p' = p)) as [->|Hne]; [|rewrite lookup_insert_ne by done; exact (Hs X p' u)].
    rewrite lookup_insert_eq. intros [= <-]. rewrite Hpc. intros H1 [H2|H2]%Hpend; [exact (Hs X p t Hp H1 H2)|by rewrite H2 in H1].
  - intros X p' u Hu H1 H2 H3. destruct (Hn X p' (if decide (p' = p) then t else u)) as (r & v & Hr & Hv); try done.
    1-3: case_decide as Hpp; [subst p'; rewrite lookup_insert_eq in Hu; injection Hu as <-; congruence|]; try done;
      by rewrite lookup_insert_ne in Hu.
    exists r, (if decide (r = p) then t' else v). cbn. destruct (decide (r = p)) as [->|]; [|by rewrite lookup_insert_ne].
    rewrite lookup_insert_eq, Hpc. split; [done|]. congruence.
  - intros p' u. destruct (decide (p' = p)) as [->|Hne]; [|rewrite lookup_insert_ne by done; exact (Ha p' u)].
    rewrite lookup_insert_eq. intros [= <-]. by rewrite Hpc.
Qed.

Lemma Inv_wake ps p s : Inv ps s -> Inv ps (wake p s).
Proof.
  intros HI. unfold wake. destruct (tasks s !! p) as [t|] eqn:Hp.
  - replace (alter wake_task p (tasks s)) with (<[p := wake_task t]> (tasks s)).
    + by eapply Inv_flags.
    + apply map_eq. intros j. destruct (decide (j = p)) as [->|];
        [by rewrite lookup_insert_eq, lookup_alter_eq, Hp|by rewrite lookup_insert_ne, lookup_alter_ne].
  - replace (alter wake_task p (tasks s)) with (tasks s); [by destruct s|].
    apply map_eq. intros j. destruct (decide (j = p)) as [->|]; [by rewrite lookup_alter_eq, Hp|by rewrite lookup_alter_ne].
Qed.

Lemma Inv_poll ps q s : Inv ps s -> Inv ps (set_queue QPoll q s).
Proof.
  intros [Hd Hq Hs Hn Ha]. split; try done.
  - intros [] HX; [exact (Hq QReaders HX)|exact (Hq QWriters HX)|done].
  - intros [] p t H1 H2 H3; [exact (Hs QReaders p t H1 H2 H3)|exact (Hs QWriters p t H1 H2 H3)|done].
  - intros [] p t H1 H2; [exact (Hn QReaders p t H1 H2)|exact (Hn QWriters p t H1 H2)|done].
Qed.

Lemma Inv_take ps X w q s :
  Inv ps s -> take_first (queue_of X s) = (Some w, q) -> Inv ps (wake w (set_queue X q s)).
Proof.
  intros HI Ht. destruct (decide (X = QPoll)) as [->|HX]; [by apply Inv_wake, Inv_poll|].
  pose proof (take_first_spec (queue_of X s)) as Hsp. rewrite Ht in Hsp. destruct Hsp as [Hp Hl].
  destruct (inv_queue _ _ HI X HX) as (Hl0 & Hnd & Hsub). rewrite Hp in Hnd, Hsub.
  apply NoDup_cons in Hnd as [Hni Hnd].
  change (Inv ps (set_queue X q (wake w s))).
  assert (Hqw : queue_of X (wake w s) = queue_of X s) by apply queue_of_tasks.
  apply Inv_set_queue; [by apply Inv_wake|done|congruence|done|intros x Hx; apply Hsub; by right|].
  intros p t Hpt Hsl. rewrite Hqw, Hp. split; [by right|]. intros Hpend [->|]%elem_of_cons; [|done].
  cbn in Hpt. rewrite lookup_alter_eq in Hpt. destruct (tasks s !! w); cbn in Hpt; [|done]. injection Hpt as <-. done.
Qed.

Lemma Inv_finish ps X p t s :
  Inv ps s -> X <> QPoll -> tasks s !! p = Some t -> sleeps_on X (pc t) = false ->
  Inv ps (set_queue X (finish_wait p (queue_of X s)) s).
Proof.
  intros HI HX Hp Hsl. destruct (inv_queue _ _ HI X HX) as (Hl & Hnd & Hsub).
  apply Inv_set_queue; [done|done|by rewrite finish_wait_length|by apply finish_wait_NoDup| |].
  - intros x Hx%finish_wait_pids. by apply Hsub.
  - intros p' t' Hp' Hs'. split; [apply finish_wait_pids|]. intros _. apply finish_wait_keeps. intros ->. congruence.
Qed.

Lemma can_write_le data i i' :
  (length (buffer i) <= length (buffer i'))%nat -> can_write data i' = true -> can_write data i = true.
Proof. unfold can_write, available. generalize PIPE_CAPACITY as c. intros c Hl. case_match; lia. Qed.

Lemma Inv_read_step ps p n nb sig t s :
  Inv ps s -> NoDup ps -> (length ps <= WAIT_QUEUE_CAPACITY)%nat ->
  tasks s !! p = Some t -> awaiting t = false -> pc t = Reading n nb ->
  Inv ps (read_step p n nb sig s).
Proof.
  intros HI Hnd Hlen Hp Hna Hpc. unfold read_step, read_turn.
  assert (Hidle : Inv ps (goto p Idle s)).
  { eapply Inv_goto_pc; [done..|by intros []|]. rewrite Hpc. by intros X ?%not_elem_of_nil. }
  destruct (Nat.eqb_spec (length (buffer (inner s))) 0) as [H0|H0]; cbn [negb].
  - destruct (Z.eqb_spec (writers (inner s)) 0) as [Hw|Hw]; [done|]. destruct nb; [done|]. destruct sig; [done|].
    eapply (Inv_sleep ps QReaders); [done..|by rewrite Hpc|rewrite Hpc; by intros []|done|].
    cbn. by rewrite H0, (proj2 (Z.eqb_neq _ _) Hw).
  - set (count := Nat.min n _). destruct (take count (buffer (inner s))) as [|b bs] eqn:Htk; [done|].
    rewrite <- Htk. eapply Inv_goto; [done..|by intros []|rewrite Hpc; by intros X ?%not_elem_of_nil|].
    intros [] [] Hs Hr; try done; [|right; by left]. left. cbn. apply orb_true_iff. left. lia.
Qed.

Lemma Inv_write_step ps p data nb sig t s :
  Inv ps s -> NoDup ps -> (length ps <= WAIT_QUEUE_CAPACITY)%nat ->
  tasks s !! p = Some t -> awaiting t = false -> pc t = Writing data nb ->
  Inv ps (write_step p data nb sig s).
Proof.
  intros HI Hnd Hlen Hp Hna Hpc. unfold write_step, write_turn.
  assert (Hidle : Inv ps (goto p Idle s)).
  { eapply Inv_goto_pc; [done..|by intros []|]. rewrite Hpc. by intros X ?%not_elem_of_nil. }
  destruct (Z.eqb_spec (readers (inner s)) 0) as [Hr|Hr]; [done|].
  destruct (can_write data (inner s)) eqn:Hcw.
  - eapply Inv_goto; [done..|by intros []|rewrite Hpc; by intros X ?%not_elem_of_nil|].
    intros [] [] Hs Hw; try done; [right; by left|]. left. cbn [ready_for] in *. apply orb_true_iff in Hw as [Hw|Hw]; [|by apply Z.eqb_eq in Hw].
    apply orb_true_iff. left. eapply can_write_le; [|exact Hw]. cbn [buffer]. rewrite length_app. apply Nat.le_add_r.
  - destruct nb; [done|]. destruct sig; [done|].
    eapply (Inv_sleep ps QWriters); [done..|by rewrite Hpc|rewrite Hpc; by intros []|done|].
    cbn [ready_for]. by rewrite Hcw, (proj2 (Z.eqb_neq _ _) Hr).
Qed.

Lemma Inv_await ps p t woken s :
  Inv ps s -> tasks s !! p = Some t -> awaiting t = false ->
  (sleeps_on QReaders (pc t) || sleeps_on QWriters (pc t)) = true ->
  (forall X, sleeps_on X woken = false) -> Inv ps (await_step p t woken s).
Proof.
  intros HI Hp Hna Hsl Hw. unfold await_step.
  assert (Hno : notices (pc t) = []) by (destruct (pc t); try done).
  destruct (pending t) eqn:Hpend; [|eapply Inv_flags; eauto].
  assert (HJ : Inv ps (goto p woken s)).
  { eapply Inv_goto_pc; [done..|]. rewrite Hno. by intros X ?%not_elem_of_nil. }
  replace (set_tasks _ s) with
    (set_tasks (<[p := mkTask woken false false]> (tasks (goto p woken s))) (goto p woken s)).
  - eapply Inv_flags; [done|cbn; by rewrite lookup_alter_eq, Hp|done|by right|done].
  - unfold goto, set_tasks. cbn. f_equal. apply map_eq. intros j.
    destruct (decide (j = p)) as [->|]; [by rewrite !lookup_insert_eq|by rewrite !lookup_insert_ne, lookup_alter_ne].
Qed.

Lemma Inv_task_step ps sig p s s' :
  Inv ps s -> NoDup ps -> (length ps <= WAIT_QUEUE_CAPACITY)%nat -> task_step sig p s = Some s' -> Inv ps s'.
Proof.
  intros HI Hnd Hlen. unfold task_step. destruct (tasks s !! p) as [t|] eqn:Hp; [|done].
  destruct (awaiting t) eqn:Hna; [done|]. destruct (pc t) as [|n nb|n nb|n nb|d nb|d nb|d nb|[|X qs]] eqn:Hpc; intros Hst; try done.
  1-7: injection Hst as <-.
  - by eapply Inv_read_step.
  - eapply Inv_await; rewrite ?Hpc; try done; by intros [].
  - eapply Inv_goto_pc; [eapply (Inv_finish ps QReaders); rewrite ?Hpc; try done; by rewrite Hpc|exact Hp|done|by intros []; destruct sig|].
    rewrite Hpc. by intros X ?%not_elem_of_nil.
  - by eapply Inv_write_step.
  - eapply Inv_await; rewrite ?Hpc; try done; by intros [].
  - eapply Inv_goto_pc; [eapply (Inv_finish ps QWriters); rewrite ?Hpc; try done; by rewrite Hpc|exact Hp|done|by intros []; destruct sig|].
    rewrite Hpc. by intros X ?%not_elem_of_nil.
  - eapply Inv_goto_pc; [done..|by intros []|]. rewrite Hpc. by intros X ?%not_elem_of_nil.
  - destruct (take_first (queue_of X s)) as [[w|] q] eqn:Ht; injection Hst as <-; [by eapply Inv_take|].
    eapply Inv_goto_pc; [done..|by intros []|]. rewrite Hpc. cbn. intros Y [->|HY]%elem_of_cons; [right|by left].
    pose proof (take_first_spec (queue_of X s)) as Hsp. rewrite Ht in Hsp. apply Hsp.
Qed.

Lemma idle_task p s : idle p s = true -> exists t, tasks s !! p = Some t /\ pc t = Idle.
Proof. unfold idle. destruct (tasks s !! p) as [t|]; [|done]. destruct (pc t) eqn:Hpc; try done. eauto. Qed.

Lemma Inv_start ps p c i s :
  Inv ps s -> idle p s = true -> (forall X, sleeps_on X c = false) ->
  (forall X c', sleeps_on X c' = true -> ready_for c' i = true -> ready_for c' (inner s) = true \/ X ∈ notices c) ->
  Inv ps (goto p c (set_inner i s)).
Proof.
  intros HI (t & Hp & Hpc)%idle_task Hc Hr. pose proof HI as [_ _ _ _ Ha].
  destruct (awaiting t) eqn:Haw.
  - destruct (Ha p t Hp Haw) as [_ H]. by rewrite Hpc in H.
  - eapply Inv_goto; try done. rewrite Hpc. by intros X ?%not_elem_of_nil.
Qed.

Lemma Inv_step ps s s' :
  NoDup ps -> (length ps <= WAIT_QUEUE_CAPACITY)%nat -> Inv ps s -> step s s' -> Inv ps s'.
Proof.
  intros Hnd Hlen HI Hst. revert HI. destruct Hst as [p sig s1 s2 Hst|p n nb s1 Hi|p data nb s1 Hi|p k s1 Hi|p s1|q s1]; intros HI.
  - by eapply Inv_task_step.
  - unfold start_read. case_match; [done|]. replace s1 with (set_inner (inner s1) s1) by by destruct s1.
    apply Inv_start; try done; [by intros []|by left].
  - unfold start_write. case_match; [done|]. replace s1 with (set_inner (inner s1) s1) by by destruct s1.
    apply Inv_start; try done; [by intros []|by left].
  - unfold start_drop. apply Inv_start; [done|done|by intros []|].
    intros [] ? ? ?; cbn [notices]; right; rewrite !elem_of_cons; auto.
  - by apply Inv_wake.
  - by apply Inv_poll.
Qed.

Lemma reachable_Inv ps s :
  NoDup ps -> (length ps <= WAIT_QUEUE_CAPACITY)%nat -> reachable ps s -> Inv ps s.
Proof.
  intros Hnd Hlen H. unfold reachable in H. remember (Pipe_new ps) as s0 eqn:E.
  assert (HI : Inv ps s0) by (subst; apply PipeInv_new). clear E.
  induction H as [|x y z Hxy Hyz IH]; [done|]. apply IH. by eapply Inv_step.
Qed.

(** ** The bytes *)

Definition data_ok (s : Pipe) : Prop :=
  sent s = received s ++ buffer (inner s) /\ (length (buffer (inner s)) <= PIPE_CAPACITY)%nat.

Lemma data_same s s' :
  sent s' = sent s -> received s' = received s -> buffer (inner s') = buffer (inner s) -> data_ok s -> data_ok s'.
Proof. unfold data_ok. by intros -> -> ->. Qed.

Lemma data_read p n nb sig s : data_ok s -> data_ok (read_step p n nb sig s).
Proof.
  intros [Hf Hc]. unfold read_step, read_turn.
  destruct (negb _); [|by repeat case_match; apply (data_same s)].
  set (count := Nat.min _ _). destruct (take count _) as [|b bs] eqn:Ht; [by apply (data_same s)|].
  split; cbn; [by rewrite <- Ht, <- app_assoc, take_drop|rewrite length_drop; lia].
Qed.

Lemma write_count data nb sig i k i' :
  write_turn data nb sig i = (Returns k, i') ->
  (k <= length data)%nat /\ (k <= available i)%nat /\ buffer i' = buffer i ++ take k data /\
  ((length data <= PIPE_BUF)%nat -> k = length data).
Proof.
  unfold write_turn, can_write. destruct (readers i =? 0); [done|].
  destruct (Nat.leb_spec (length data) PIPE_BUF) as [Hl|Hl].
  - destruct (Nat.leb_spec (length data) (available i)); [|by destruct nb, sig]. intros [= <- <-]. split_and!; (reflexivity || lia).
  - destruct (0 <? available i)%nat; [|by destruct nb, sig]. intros [= <- <-]. split_and!; (reflexivity || lia).
Qed.

Lemma data_write p data nb sig s : data_ok s -> data_ok (write_step p data nb sig s).
Proof.
  intros Hd. unfold write_step. destruct (write_turn data nb sig (inner s)) as [[k|e|] i'] eqn:Hw; [|by apply (data_same s)..].
  destruct Hd as [Hf Hc]. destruct (write_count _ _ _ _ _ _ Hw) as (H1 & H2 & Hb & _).
  split; cbn [inner goto set_tasks sent received]; rewrite Hb; [by rewrite Hf, app_assoc|].
  rewrite length_app, length_take. unfold available in H2. revert H2 Hc. generalize PIPE_CAPACITY. lia.
Qed.

Lemma data_task_step sig p s s' : data_ok s -> task_step sig p s = Some s' -> data_ok s'.
Proof.
  intros Hd. unfold task_step. destruct (tasks s !! p) as [t|]; [|done]. destruct (awaiting t); [done|].
  destruct (pc t) as [| | | | | | |[|X qs]]; intros Hst; try done; try (injection Hst as <-);
    try (by apply (data_same s)); [by apply data_read| |by apply data_write| |].
  1,2: unfold await_step; by destruct (pending t); apply (data_same s).
  destruct (take_first (queue_of X s)) as [[w|] q]; injection Hst as <-; by apply (data_same s).
Qed.

Lemma data_step s s' : step s s' -> data_ok s -> data_ok s'.
Proof.
  intros [p sig s1 s2 Hst|p n nb s1 Hi|p data nb s1 Hi|p k s1 Hi|p s1|q s1] Hd.
  - by eapply data_task_step.
  - unfold start_read. by case_match; apply (data_same s1).
  - unfold start_write. by case_match; apply (data_same s1).
  - destruct k; by apply (data_same s1).
  - by apply (data_same s1).
  - by apply (data_same s1).
Qed.

(** ** Runs *)

(** [k] steps of task [r] alone. *)
Fixpoint run_task (r : Z) (k : nat) (s : Pipe) : option Pipe :=
  match k with
  | O => Some s
  | Datatypes.S k => match task_step false r s with Some s => run_task r k s | None => None end
  end.

Lemma notify_run r X p qs : forall s u,
  tasks s !! r = Some u -> pc u = Notify qs -> awaiting u = false -> X ∈ qs ->
  p ∈ pids (queue_of X s) -> is_Some (tasks s !! p) ->
  exists k s' t', run_task r k s = Some s' /\ tasks s' !! p = Some t' /\ awaiting t' = false.
Proof.
  induction qs as [|Y qs IHq]; intros s u Hr Hpc Haw HX Hp Hsome; [by apply not_elem_of_nil in HX|].
  remember (length (pids (queue_of Y s))) as n eqn:Hn. revert s u Hr Hpc Haw Hp Hsome Hn.
  induction n as [n IHn] using lt_wf_ind. intros s u Hr Hpc Haw Hp Hsome ->.
  pose proof (take_first_spec (queue_of Y s)) as Hsp.
  assert (Hst := eq_refl (task_step false r s)). unfold task_step in Hst at 2. rewrite Hr, Haw, Hpc in Hst.
  destruct (take_first (queue_of Y s)) as [[w|] q]; destruct Hsp as [Hpq Hq].
  - set (s1 := wake w (set_queue Y q s)) in *.
    assert (Hl : forall j, tasks s1 !! j = if decide (j = w) then wake_task <$> tasks s !! j else tasks s !! j).
    { intros j. cbn. case_decide as Hj; [subst; by rewrite lookup_alter_eq|by rewrite lookup_alter_ne]. }
    assert (HqX : forall Z, queue_of Z s1 = if decide (Z = Y) then q else queue_of Z s).
    { intros Z. unfold s1, wake. rewrite queue_of_tasks. apply queue_set. }
    destruct (decide (p = w)) as [->|Hne].
    { destruct Hsome as [t Ht]. exists 1%nat, s1, (wake_task t). cbn [run_task]. rewrite Hst.
      split; [done|]. by rewrite Hl, decide_True, Ht. }
    destruct (IHn (length (pids q)) ltac:(rewrite Hpq; cbn; lia) s1 (if decide (r = w) then wake_task u else u))
      as (k & s' & t' & H1 & H2 & H3).
    1-3: rewrite ?Hl, ?Hr; by case_decide.
    + rewrite HqX. case_decide as HXY; [|done]. subst Y. rewrite Hpq in Hp. by apply elem_of_cons in Hp as [|].
    + rewrite Hl. by rewrite decide_False.
    + by rewrite HqX, decide_True.
    + exists (S k), s', t'. cbn [run_task]. by rewrite Hst.
  - apply elem_of_cons in HX as [->|HX]; [rewrite Hpq in Hp; by apply not_elem_of_nil in Hp|].
    destruct (IHq (goto r (Notify qs) s) (set_pc (Notify qs) u)) as (k & s' & t' & H1 & H2 & H3); try done.
    + cbn. by rewrite lookup_alter_eq, Hr.
    + cbn. apply lookup_alter_is_Some. done.
    + exists (S k), s', t'. cbn [run_task]. by rewrite Hst.
Qed.

(** Schedules, for concrete runs. *)
Inductive Action :=
| Run (p : Z) | Interrupted (p : Z) | Read (p : Z) (n : nat) (nb : bool)
| Write (p : Z) (data : list Z) (nb : bool) | Close (p : Z) (kind : PipeEndKind).

Definition act (a : Action) (s : Pipe) : option Pipe :=
  match a with
  | Run p => task_step false p s
  | Interrupted p => task_step true p s
  | Read p n nb => if idle p s then Some (start_read p n nb s) else None
  | Write p data nb => if idle p s then Some (start_write p data nb s) else None
  | Close p kind => if idle p s then Some (start_drop p kind s) else None
  end.

Fixpoint acts (l : list Action) (s : Pipe) : option Pipe :=
  match l with [] => Some s | a :: l => match act a s with Some s => acts l s | None => None end end.

Lemma act_step a s s' : act a s = Some s' -> step s s'.
Proof.
  destruct a; cbn; intros H; try (destruct (idle p s) eqn:Hi; [|done]; injection H as <-);
    [by eapply step_task..|by apply step_read|by apply step_write|by apply step_drop].
Qed.

Lemma acts_reachable ps l s : acts l (Pipe_new ps) = Some s -> reachable ps s.
Proof.
  unfold reachable. generalize (Pipe_new ps). induction l as [|a l IH]; cbn; intros s0; [by intros [= <-]|].
  destruct (act a s0) as [s1|] eqn:Ha; [|done]. intros H. eapply rtc_l; [by eapply act_step|by apply IH].
Qed.

(** ** Theorems *)

(** C11. Over every interleaving of any number of tasks, the bytes delivered followed by the bytes buffered are exactly the bytes accepted, in order, and the buffer stays within its capacity. *)
Theorem pipe_fifo (ps : list Z) (s : Pipe) :
  reachable ps s ->
  sent s = received s ++ buffer (inner s) /\ (length (buffer (inner s)) <= PIPE_CAPACITY)%nat.
Proof.
  intros H. change (data_ok s). unfold reachable in H. remember (Pipe_new ps) as s0 eqn:E.
  assert (Hd : data_ok s0) by (subst; split; [done|apply Nat.le_0_l]). clear E.
  induction H as [|x y z Hxy _ IH]; [done|]. apply IH. by eapply data_step.
Qed.

(** Two writers and a reader that takes part of what they wrote. *)
Definition demo_pipe : list Action :=
  [Write 1 [10; 11] false; Run 1; Write 2 [12] false; Run 2; Read 3 2 false; Run 3].

Lemma pipe_fifo_witness :
  exists s, acts demo_pipe (Pipe_new [1; 2; 3]) = Some s /\ received s = [10; 11] /\ buffer (inner s) = [12] /\
    sent s = received s ++ buffer (inner s).
Proof.
  destruct (acts demo_pipe (Pipe_new [1; 2; 3])) as [s|] eqn:Hs; [|by vm_compute in Hs].
  exists s. split; [done|]. pose proof (pipe_fifo [1; 2; 3] s (acts_reachable _ _ _ Hs)) as [H _].
  vm_compute in Hs. injection Hs as <-. auto.
Defined.

(** Writes of at most [PIPE_BUF] bytes are all or nothing: a turn that returns has
    taken every byte, and one that does not has left the buffer alone. *)
Theorem pipe_write_atomic (data : list Z) (nonblock signalled : bool) (i : PipeInner) :
  (length data <= PIPE_BUF)%nat ->
  match write_turn data nonblock signalled i with
  | (Returns k, i') => k = length data /\ buffer i' = buffer i ++ data
  | (_, i') => i' = i
  end.
Proof.
  intros Hl. destruct (write_turn data nonblock signalled i) as [[k|e|] i'] eqn:Hw.
  - destruct (write_count _ _ _ _ _ _ Hw) as (_ & _ & Hb & Hk). rewrite (Hk Hl) in *. by rewrite Hb, firstn_all.
  - revert Hw. unfold write_turn. destruct (readers i =? 0), (can_write data i), nonblock, signalled; congruence.
  - revert Hw. unfold write_turn. destruct (readers i =? 0), (can_write data i), nonblock, signalled; congruence.
Qed.

Lemma pipe_write_atomic_witness :
  write_turn [1; 2; 3] false false (mkInner [9] 1 1) = (Returns 3%nat, mkInner [9; 1; 2; 3] 1 1) /\
  fst (write_turn [1; 2; 3] false false (mkInner (replicate 4094 0) 1 1)) = Waits.
Proof.
  pose proof (pipe_write_atomic [1; 2; 3] false false (mkInner [9] 1 1) (proj1 (Nat.leb_le 3 PIPE_BUF) eq_refl)) as H.
  split; vm_compute; reflexivity.
Defined.

(** C10. Over every interleaving of at most 64 tasks on one pipe, when a task is blocked in read or write although its condition has come true, some other task is about to notify its queue, and that task by its own steps wakes it. *)
Theorem pipe_no_lost_wakeup (ps : list Z) (s : Pipe) (p : Z) (t : Task) :
  NoDup ps -> (length ps <= WAIT_QUEUE_CAPACITY)%nat -> reachable ps s ->
  tasks s !! p = Some t -> awaiting t = true -> ready_for (pc t) (inner s) = true ->
  exists r k s' t', run_task r k s = Some s' /\ tasks s' !! p = Some t' /\ awaiting t' = false.
Proof.
  intros Hnd Hlen Hreach Hp Haw Hready. destruct (reachable_Inv ps s Hnd Hlen Hreach) as [_ _ Hs Hn Ha].
  destruct (Ha p t Hp Haw) as [Hpend Hsl].
  assert (HX : exists X, sleeps_on X (pc t) = true) by (apply orb_true_iff in Hsl as []; eauto).
  destruct HX as [X HX]. assert (Hin := Hs X p t Hp HX Hpend).
  destruct (Hn X p t Hp HX Hin Hready) as (r & u & Hr & Hu). exists r.
  destruct (awaiting u) eqn:Hau.
  - destruct (Ha r u Hr Hau) as [_ H]. apply orb_true_iff in H as [H|H];
      rewrite (sleeps_no_notices _ _ H) in Hu; by apply not_elem_of_nil in Hu.
  - destruct (pc u) as [| | | | | | |qs] eqn:Hpu; try by apply not_elem_of_nil in Hu.
    by eapply notify_run.
Qed.

(** Task 1 blocks on the empty pipe; task 2 writes and has not notified yet. *)
Definition demo_blocked : list Action :=
  [Read 1 4 false; Run 1; Run 1; Write 2 [7] false; Run 2].

Lemma pipe_no_lost_wakeup_witness :
  exists s t, acts demo_blocked (Pipe_new [1; 2]) = Some s /\ tasks s !! 1 = Some t /\ awaiting t = true /\
    exists r k s' t', run_task r k s = Some s' /\ tasks s' !! 1 = Some t' /\ awaiting t' = false.
Proof.
  destruct (acts demo_blocked (Pipe_new [1; 2])) as [s|] eqn:Hs; [|by vm_compute in Hs].
  exists s, (mkTask (ReadSleep 4 false) true false). split; [done|].
  assert (H := Hs). vm_compute in H. injection H as H.
  assert (Ht : tasks s !! 1 = Some (mkTask (ReadSleep 4 false) true false)) by (by rewrite <- H).
  split; [done|]. split; [done|].
  apply (pipe_no_lost_wakeup [1; 2] s 1 (mkTask (ReadSleep 4 false) true false)); try done.
  - apply (bool_decide_unpack _). by vm_compute.
  - unfold WAIT_QUEUE_CAPACITY. cbn. lia.
  - by eapply acts_reachable.
  - by rewrite <- H.
Defined.

(** With one task more than slots a wake-up is lost: 65 readers block, a byte is
    written and every notification is delivered, and the last reader is still blocked
    with the byte in the buffer and nobody left to wake it. *)
Definition crowd : list Z := seqZ 1 66.
Definition crowd_run : list Action :=
  mjoin ((fun p => [Read p 1 false; Run p; Run p]) <$> seqZ 1 65) ++ Write 66 [7] false :: replicate 68 (Run 66).

(** When 65 tasks wait on one pipe the last one is not queued: after a byte is written and every notification delivered it is still blocked, with the byte in the buffer and nobody about to wake it. *)
Theorem pipe_crowd_strands_reader :
  exists s t, reachable crowd s /\ tasks s !! 65 = Some t /\ awaiting t = true /\
    ready_for (pc t) (inner s) = true /\ idle 66 s = true /\
    map_fold (fun _ u b => bool_decide (notices (pc u) = []) && b) true (tasks s) = true.
Proof.
  destruct (acts crowd_run (Pipe_new crowd)) as [s|] eqn:Hs; [|by vm_compute in Hs].
  exists s. apply (fun f => ex_intro f (mkTask (ReadSleep 1 false) true false)).
  split; [by eapply acts_reachable|]. vm_compute in Hs. injection Hs as <-. by vm_compute.
Qed.
