(* ===== verification/UnixSocket.v ===== *)
(** * Local sockets (src/kernel/twilight_kernel/src/sys/net/socket/unix.rs)

    Stream and datagram sockets between processes of one machine.  Every
    [Arc<Mutex<..>>] is a number into a store: [w_states] the sockets, [w_conns] the
    connections, and the registry maps a path to the number of its socket.  Each
    operation is the sequence of its critical sections.  A loop that may sleep is
    modelled by one turn: [MustWait] is the decision to sleep, taken under the lock.
    The calls of [notify_all] are recorded in [w_notes]. *)

From Stdlib Require Import ZifyBool.
From S2P Require Import Prelude Bytes Text Utf Pipe.
Open Scope twilight_scope.

Definition EINVAL : Z := 22.
Definition EDESTADDRREQ : Z := 89.
Definition EOPNOTSUPP : Z := 95.
Definition EADDRINUSE : Z := 98.
Definition EISCONN : Z := 106.
Definition ENOTCONN : Z := 107.
Definition ECONNREFUSED : Z := 111.
Definition SHUT_RD : Z := 0.
Definition SHUT_WR : Z := 1.
Definition SHUT_RDWR : Z := 2.

Definition UNIX_PATH_MAX : nat := 108.
Definition CHANNEL_CAPACITY : nat := 4096.

(** ** Data *)

(** A passed file is an [Arc]: the number of the open file. *)
Abbreviation PassedFile := nat.
Record PeerCredentials := mkCred { c_pid : Z; c_uid : Z; c_gid : Z }.

Record UnixMessage := mkMessage {
  m_data : list Z; m_rights : list PassedFile; m_src : option string; m_truncated : bool;
}.

Definition addr_from_bytes (raw : list Z) : res Z string :=
  if (length raw =? 0)%nat then Err EINVAL
  else
    let len := default (length raw) (fst <$> list_find (fun b => b = 0) raw) in
    let len := (len `min` UNIX_PATH_MAX)%nat in
    if (len =? 0)%nat then Err EINVAL
    else if utf8_valid (take len raw) then Ok (of_bytes (take len raw)) else Err EINVAL.

Definition addr_as_bytes (path : string) : list Z :=
  let bytes := take (slen path `min` UNIX_PATH_MAX)%nat (as_bytes path) in
  store 0 bytes (replicate UNIX_PATH_MAX 0).

Definition addr_len (path : string) : Z := u32 (2 + Z.of_nat (slen path `min` UNIX_PATH_MAX) + 1).

Inductive SockType := Stream | Dgram.
Inductive UnixRole := Unbound | Bound | Listening | Connected.

#[export] Instance SockType_eq_dec : EqDecision SockType.
Proof. solve_decision. Defined.
#[export] Instance UnixRole_eq_dec : EqDecision UnixRole.
Proof. solve_decision. Defined.

Record Channel := mkChannel {
  messages : list UnixMessage; buffered_len : nat; read_closed : bool; write_closed : bool;
}.
Definition Channel_new : Channel := mkChannel [] 0 false false.

Definition ch_readable (c : Channel) : bool := match messages c with [] => false | _ => true end.
Definition ch_writable (c : Channel) : bool := negb (write_closed c) && (buffered_len c <? CHANNEL_CAPACITY)%nat.
Definition ch_hangup (c : Channel) : bool := read_closed c.
Definition ch_error (c : Channel) : bool := write_closed c.

(** The channels of a connection, by index. *)
Record UnixConnection := mkConn { channel0 : Channel; channel1 : Channel; refcount : Z }.
Definition UnixConnection_new : UnixConnection := mkConn Channel_new Channel_new 2.

Inductive Half := Ch0 | Ch1.
#[export] Instance Half_eq_dec : EqDecision Half.
Proof. solve_decision. Defined.
Definition other (h : Half) : Half := match h with Ch0 => Ch1 | Ch1 => Ch0 end.

Definition channel (h : Half) (c : UnixConnection) : Channel :=
  match h with Ch0 => channel0 c | Ch1 => channel1 c end.
Definition set_channel (h : Half) (ch : Channel) (c : UnixConnection) : UnixConnection :=
  match h with
  | Ch0 => mkConn ch (channel1 c) (refcount c)
  | Ch1 => mkConn (channel0 c) ch (refcount c)
  end.

Record PendingAccept := mkPending { pa_state : nat; connector_cred : PeerCredentials }.
Record DgramMessage := mkDgram { dg_data : list Z; dg_src : string; dg_rights : list PassedFile }.

Record UnixState := mkState {
  role : UnixRole; sock_type : SockType; bound_addr : option string; owns_binding : bool;
  conn : option nat; reader_half : Half; writer_half : Half; peer_addr : option string;
  backlog : list PendingAccept; dgram_queue : list DgramMessage;
  default_peer : option string; dgram_peer : option nat;
}.
Definition UnixState_new (t : SockType) : UnixState :=
  mkState Unbound t None false None Ch0 Ch0 None [] [] None None.
Definition connected_state (t : SockType) (c : nat) (rd wr : Half) : UnixState :=
  mkState Connected t None false (Some c) rd wr None [] [] None None.

Definition with_role (r : UnixRole) (s : UnixState) : UnixState :=
  mkState r (sock_type s) (bound_addr s) (owns_binding s) (conn s) (reader_half s) (writer_half s)
    (peer_addr s) (backlog s) (dgram_queue s) (default_peer s) (dgram_peer s).
Definition with_binding (r : UnixRole) (a : option string) (owns : bool) (s : UnixState) : UnixState :=
  mkState r (sock_type s) a owns (conn s) (reader_half s) (writer_half s)
    (peer_addr s) (backlog s) (dgram_queue s) (default_peer s) (dgram_peer s).
Definition with_conn (r : UnixRole) (c : option nat) (rd wr : Half) (p : option string) (s : UnixState) : UnixState :=
  mkState r (sock_type s) (bound_addr s) (owns_binding s) c rd wr p
    (backlog s) (dgram_queue s) (default_peer s) (dgram_peer s).
Definition with_backlog (l : list PendingAccept) (s : UnixState) : UnixState :=
  mkState (role s) (sock_type s) (bound_addr s) (owns_binding s) (conn s) (reader_half s) (writer_half s)
    (peer_addr s) l (dgram_queue s) (default_peer s) (dgram_peer s).
Definition with_queue (l : list DgramMessage) (s : UnixState) : UnixState :=
  mkState (role s) (sock_type s) (bound_addr s) (owns_binding s) (conn s) (reader_half s) (writer_half s)
    (peer_addr s) (backlog s) l (default_peer s) (dgram_peer s).
Definition with_dgram_peer (p : nat) (s : UnixState) : UnixState :=
  mkState Connected (sock_type s) (bound_addr s) (owns_binding s) (conn s) (reader_half s) (writer_half s)
    (peer_addr s) (backlog s) (dgram_queue s) (default_peer s) (Some p).

(** The wait queues: of a channel, of a socket, and the one of [poll]. *)
Inductive Note :=
| NReaders (c : nat) (h : Half) | NWriters (c : nat) (h : Half)
| NAccept (s : nat) | NDgram (s : nat) | NPoll.

Record World := mkWorld {
  w_states : gmap nat UnixState; w_conns : gmap nat UnixConnection; w_refs : gmap nat Z;
  w_registry : gmap string nat; w_next : nat; w_notes : list Note;
}.
Definition World_new : World := mkWorld ∅ ∅ ∅ ∅ 0 [].

(** A handle of a socket; its reference count is [w_refs], shared by its clones. *)
Record UnixSocket := mkSocket { s_state : nat; s_addr_len : Z; s_cred : option PeerCredentials }.

(** [Deadlock]: a lock that the same call already holds. *)
Inductive uerr := Errno (e : Z) | Deadlock.
Abbreviation UM := (M World uerr).
Definition fails {A} (e : Z) : UM A := failM (Errno e).

Inductive Wait (A : Type) := Got (a : A) | MustWait.
Arguments Got {A} a.
Arguments MustWait {A}.

(** ** The stores *)

Definition stM (s : nat) : UM UnixState :=
  w <-- getM ;; match w_states w !! s with Some st => retM st | None => panicM end.
Definition upd_state (s : nat) (f : UnixState -> UnixState) : UM unit :=
  modifyM (fun w => mkWorld (alter f s (w_states w)) (w_conns w) (w_refs w) (w_registry w) (w_next w) (w_notes w)).
Definition connM (c : nat) : UM UnixConnection :=
  w <-- getM ;; match w_conns w !! c with Some co => retM co | None => panicM end.
Definition upd_conn (c : nat) (f : UnixConnection -> UnixConnection) : UM unit :=
  modifyM (fun w => mkWorld (w_states w) (alter f c (w_conns w)) (w_refs w) (w_registry w) (w_next w) (w_notes w)).
Definition upd_channel (c : nat) (h : Half) (f : Channel -> Channel) : UM unit :=
  upd_conn c (fun co => set_channel h (f (channel h co)) co).
Definition notes (l : list Note) : UM unit :=
  modifyM (fun w => mkWorld (w_states w) (w_conns w) (w_refs w) (w_registry w) (w_next w) (w_notes w ++ l)).
Definition upd_registry (f : gmap string nat -> gmap string nat) : UM unit :=
  modifyM (fun w => mkWorld (w_states w) (w_conns w) (w_refs w) (f (w_registry w)) (w_next w) (w_notes w)).
Definition registry_get (path : string) : UM (option nat) := w <-- getM ;; retM (w_registry w !! path).

(** [Arc::new]: a number not used before. *)
Definition new_state (st : UnixState) : UM nat :=
  w <-- getM ;;
  putM (mkWorld (<[w_next w := st]> (w_states w)) (w_conns w) (w_refs w) (w_registry w) (S (w_next w)) (w_notes w)) >>>
  retM (w_next w).
Definition new_conn : UM nat :=
  w <-- getM ;;
  putM (mkWorld (w_states w) (<[w_next w := UnixConnection_new]> (w_conns w)) (w_refs w) (w_registry w)
          (S (w_next w)) (w_notes w)) >>>
  retM (w_next w).
Definition new_refs (s : nat) : UM unit :=
  modifyM (fun w => mkWorld (w_states w) (w_conns w) (<[s := 1]> (w_refs w)) (w_registry w) (w_next w) (w_notes w)).

(** ** Creation *)

Definition UnixSocket_new (t : SockType) : UM UnixSocket :=
  s <-- new_state (UnixState_new t) ;; new_refs s >>> retM (mkSocket s 0 None).

Definition clone (k : UnixSocket) : UM UnixSocket :=
  modifyM (fun w => mkWorld (w_states w) (w_conns w) (alter (Z.add 1) (s_state k) (w_refs w))
                      (w_registry w) (w_next w) (w_notes w)) >>>
  retM k.

Definition UnixSocket_pair (t : SockType) (cred : PeerCredentials) : UM (UnixSocket * UnixSocket) :=
  match t with
  | Stream =>
      c <-- new_conn ;;
      l <-- new_state (connected_state t c Ch1 Ch0) ;;
      r <-- new_state (connected_state t c Ch0 Ch1) ;;
      new_refs l >>> new_refs r >>>
      retM (mkSocket l 0 (Some cred), mkSocket r 0 (Some cred))
  | Dgram =>
      l <-- new_state (UnixState_new t) ;;
      r <-- new_state (UnixState_new t) ;;
      upd_state l (with_dgram_peer r) >>>
      upd_state r (with_dgram_peer l) >>>
      new_refs l >>> new_refs r >>>
      retM (mkSocket l 0 (Some cred), mkSocket r 0 (Some cred))
  end.

(** ** Addresses and connections *)

(** The end of an [Arc] of socket [s]: the state is freed once no handle and no path
    holds it. *)
Definition release (s : nat) : UM unit :=
  modifyM (fun w =>
    if bool_decide (w_refs w !! s = Some 0) && bool_decide (map_Forall (fun _ t => t <> s) (w_registry w))
    then mkWorld (delete s (w_states w)) (w_conns w) (w_refs w) (w_registry w) (w_next w) (w_notes w)
    else w).

Definition unregister_path (path : string) : UM unit :=
  found <-- registry_get path ;;
  upd_registry (delete path) >>>
  match found with Some s => release s | None => retM tt end.

Definition bind (k : UnixSocket) (addr : string) : UM UnixSocket :=
  if (slen addr =? 0)%nat then fails EINVAL
  else
    found <-- registry_get addr ;;
    match found with
    | Some _ => fails EADDRINUSE
    | None =>
        upd_state (s_state k) (with_binding Bound (Some addr) true) >>>
        upd_registry <[addr := s_state k]> >>>
        retM (mkSocket (s_state k) (addr_len addr) (s_cred k))
    end.

Definition listen (k : UnixSocket) (_backlog : Z) : UM unit :=
  st <-- stM (s_state k) ;;
  if negb (bool_decide (sock_type st = Stream)) then fails EOPNOTSUPP
  else if negb (bool_decide (role st = Bound)) then fails EINVAL
  else upd_state (s_state k) (with_role Listening).

Definition connect (k : UnixSocket) (addr : string) (cred : PeerCredentials) : UM UnixSocket :=
  st <-- stM (s_state k) ;;
  if negb (bool_decide (sock_type st = Stream)) then fails EOPNOTSUPP
  else if bool_decide (role st = Connected) then fails EISCONN
  else if negb (bool_decide (role st = Unbound)) && negb (bool_decide (role st = Bound)) then fails EINVAL
  else
    listener_state <-- registry_get addr ;;
    match listener_state with
    | None => fails ECONNREFUSED
    | Some l =>
        c <-- new_conn ;;
        listener <-- stM l ;;
        if negb (bool_decide (role listener = Listening)) then fails ECONNREFUSED
        else
          client <-- new_state (connected_state Stream c Ch0 Ch1) ;;
          upd_state l (fun ls => with_backlog (backlog ls ++ [mkPending client cred]) ls) >>>
          notes [NAccept l] >>>
          upd_state (s_state k) (with_conn Connected (Some c) Ch1 Ch0 (Some addr)) >>>
          retM (mkSocket (s_state k) (addr_len addr) (Some cred))
    end.

(** The accepted socket and the address of its peer. *)
Definition accept_pending (k : UnixSocket) (st : UnixState) (p : PendingAccept) (rest : list PendingAccept)
  : UM (UnixSocket * string) :=
  upd_state (s_state k) (with_backlog rest) >>>
  acc <-- stM (pa_state p) ;;
  upd_state (pa_state p) (fun a => with_binding (role a) (bound_addr st) (owns_binding a) a) >>>
  new_refs (pa_state p) >>>
  retM (mkSocket (pa_state p) (from_option addr_len 0 (bound_addr st)) (Some (connector_cred p)),
        default "" (peer_addr acc)).

(** One turn of the loop of [accept_new]. *)
Definition accept_new (k : UnixSocket) (signalled : bool) : UM (Wait (UnixSocket * string)) :=
  st <-- stM (s_state k) ;;
  if negb (bool_decide (sock_type st = Stream)) then fails EOPNOTSUPP
  else if negb (bool_decide (role st = Listening)) then fails EINVAL
  else
    match backlog st with
    | p :: rest => r <-- accept_pending k st p rest ;; retM (Got r)
    | [] => if signalled then fails EINTR else retM MustWait
    end.

Definition try_accept_new (k : UnixSocket) : UM (option (UnixSocket * string)) :=
  st <-- stM (s_state k) ;;
  if negb (bool_decide (sock_type st = Stream)) then fails EOPNOTSUPP
  else if negb (bool_decide (role st = Listening)) then fails EINVAL
  else
    match backlog st with
    | p :: rest => r <-- accept_pending k st p rest ;; retM (Some r)
    | [] => retM None
    end.

(** ** Stream transfer *)

(** The copying loop of [stream_recv_impl]: the bytes copied, the rights taken and
    the messages that remain. *)
Fixpoint drain (room : nat) (msgs : list UnixMessage) : list Z * list PassedFile * list UnixMessage :=
  match msgs with
  | [] => ([], [], [])
  | m :: rest =>
      if (room =? 0)%nat then ([], [], msgs)
      else
        let n := (room `min` length (m_data m))%nat in
        if (n =? length (m_data m))%nat
        then let '(d, r, rest') := drain (room - n)%nat rest in (m_data m ++ d, m_rights m ++ r, rest')
        else (take n (m_data m), m_rights m,
              mkMessage (drop n (m_data m)) [] (m_src m) (m_truncated m) :: rest)
  end.

(** The connection of a stream endpoint, taken before the loops. *)
Definition connection_of (s : nat) : UM (nat * Half * Half) :=
  st <-- stM s ;;
  if negb (bool_decide (role st = Connected)) then fails ENOTCONN
  else match conn st with
       | None => fails ENOTCONN
       | Some c => retM (c, reader_half st, writer_half st)
       end.

(** One turn of the loop of [stream_recv_impl] on channel [h] of connection [c];
    [room] is the length of [out]. *)
Definition recv_turn (c : nat) (h : Half) (room : nat) (nonblock signalled : bool) : UM (Wait UnixMessage) :=
  co <-- connM c ;;
  let ch := channel h co in
  if ch_readable ch then
    let '(data, rights, rest) := drain room (messages ch) in
    upd_channel c h (fun ch => mkChannel rest (buffered_len ch - length data) (read_closed ch) (write_closed ch)) >>>
    notes [NWriters c h; NPoll] >>>
    retM (Got (mkMessage data rights None false))
  else if read_closed ch then retM (Got (mkMessage [] [] None false))
  else if nonblock then fails EAGAIN
  else if signalled then fails EINTR
  else retM MustWait.

Definition stream_recv_impl (k : UnixSocket) (room : nat) (nonblock signalled : bool) : UM (Wait UnixMessage) :=
  x <-- connection_of (s_state k) ;; let '(c, rd, _) := x in recv_turn c rd room nonblock signalled.

(** One turn of the loop of [stream_write_impl]. *)
Definition write_turn (c : nat) (h : Half) (data : list Z) (rights : list PassedFile) (nonblock signalled : bool)
  : UM (Wait nat) :=
  co <-- connM c ;;
  let ch := channel h co in
  if write_closed ch then fails EPIPE
  else
    let available := (CHANNEL_CAPACITY - buffered_len ch)%nat in
    let atomic_write := (length data <=? CHANNEL_CAPACITY)%nat in
    let can_write := if atomic_write then (length data <=? available)%nat else (0 <? available)%nat in
    if can_write then
      let count := if atomic_write then length data else (available `min` length data)%nat in
      upd_channel c h (fun ch => mkChannel (messages ch ++ [mkMessage (take count data) rights None false])
                                   (buffered_len ch + count) (read_closed ch) (write_closed ch)) >>>
      notes [NReaders c h; NPoll] >>>
      retM (Got count)
    else if nonblock then fails EAGAIN
    else if signalled then fails EINTR
    else retM MustWait.

Definition stream_write_impl (k : UnixSocket) (data : list Z) (rights : list PassedFile) (nonblock signalled : bool)
  : UM (Wait nat) :=
  match data, rights with
  | [], [] => retM (Got 0%nat)
  | _, _ =>
      x <-- connection_of (s_state k) ;; let '(c, _, wr) := x in write_turn c wr data rights nonblock signalled
  end.

(** ** Datagrams *)

Definition state_is_closed (st : UnixState) : bool := bool_decide (role st = Unbound).

(** [Weak::upgrade]: the socket while something still owns it. *)
Definition upgrade (p : option nat) : UM (option nat) :=
  w <-- getM ;;
  retM (match p with Some s => if decide (is_Some (w_states w !! s)) then Some s else None | None => None end).

Definition source_of (k : UnixSocket) : UM string :=
  st <-- stM (s_state k) ;; retM (default "" (bound_addr st)).

Definition deliver (t : nat) (data : list Z) (src : string) (rights : list PassedFile) : UM nat :=
  upd_state t (fun st => with_queue (dgram_queue st ++ [mkDgram data src rights]) st) >>>
  notes [NDgram t; NPoll] >>>
  retM (length data).

(** The lock of the target is held while the lock of the sender is taken. *)
Definition send_to_msg (k : UnixSocket) (buf : list Z) (addr : string) (rights : list PassedFile) : UM nat :=
  target_state <-- registry_get addr ;;
  match target_state with
  | None => fails ECONNREFUSED
  | Some t =>
      target <-- stM t ;;
      if negb (bool_decide (sock_type target = Dgram)) then fails EOPNOTSUPP
      else if (t =? s_state k)%nat then failM Deadlock
      else src <-- source_of k ;; deliver t buf src rights
  end.

Definition send_to (k : UnixSocket) (buf : list Z) (addr : string) : UM nat := send_to_msg k buf addr [].

Definition send_to_peer (k : UnixSocket) (buf : list Z) (rights : list PassedFile) : UM nat :=
  st <-- stM (s_state k) ;;
  peer <-- upgrade (dgram_peer st) ;;
  match peer with
  | None => fails EDESTADDRREQ
  | Some p =>
      src <-- source_of k ;;
      target <-- stM p ;;
      if negb (bool_decide (sock_type target = Dgram)) || state_is_closed target then fails ECONNREFUSED
      else deliver p buf src rights
  end.

Definition dgram_send_impl (k : UnixSocket) (data : list Z) (rights : list PassedFile) (dest : option string) : UM nat :=
  match dest with
  | Some addr => send_to_msg k data addr rights
  | None =>
      st <-- stM (s_state k) ;;
      match default_peer st with
      | Some addr => send_to_msg k data addr rights
      | None => send_to_peer k data rights
      end
  end.

Definition dgram_empty {A} (nonblock signalled : bool) : UM (Wait A) :=
  if nonblock then fails EAGAIN else if signalled then fails EINTR else retM MustWait.

(** One turn of the loop of [recv_from]. *)
Definition recv_from (k : UnixSocket) (room : nat) (nonblock signalled : bool) : UM (Wait (list Z * string)) :=
  st <-- stM (s_state k) ;;
  if negb (bool_decide (sock_type st = Dgram)) then fails EOPNOTSUPP
  else
    match dgram_queue st with
    | msg :: rest =>
        upd_state (s_state k) (with_queue rest) >>>
        retM (Got (take (room `min` length (dg_data msg))%nat (dg_data msg), dg_src msg))
    | [] => dgram_empty nonblock signalled
    end.

(** One turn of the loop of [dgram_recv_msg_impl]. *)
Definition dgram_recv_msg_impl (k : UnixSocket) (room : nat) (nonblock signalled : bool) : UM (Wait UnixMessage) :=
  st <-- stM (s_state k) ;;
  match dgram_queue st with
  | msg :: rest =>
      let count := (room `min` length (dg_data msg))%nat in
      upd_state (s_state k) (with_queue rest) >>>
      retM (Got (mkMessage (take count (dg_data msg)) (dg_rights msg) (Some (dg_src msg))
                   (count <? length (dg_data msg))%nat))
  | [] => dgram_empty nonblock signalled
  end.

(** ** Entry points *)

Definition get_sock_type (k : UnixSocket) : UM SockType := st <-- stM (s_state k) ;; retM (sock_type st).

Definition recv_msg (k : UnixSocket) (room : nat) (nonblock signalled : bool) : UM (Wait UnixMessage) :=
  t <-- get_sock_type k ;;
  match t with
  | Dgram => dgram_recv_msg_impl k room nonblock signalled
  | Stream => stream_recv_impl k room nonblock signalled
  end.

Definition send_msg (k : UnixSocket) (data : list Z) (rights : list PassedFile) (dest : option string)
    (nonblock signalled : bool) : UM (Wait nat) :=
  t <-- get_sock_type k ;;
  match t with
  | Dgram => n <-- dgram_send_impl k data rights dest ;; retM (Got n)
  | Stream => stream_write_impl k data rights nonblock signalled
  end.

(** The bytes stored at the start of [out]; the call returns their number. *)
Definition read (k : UnixSocket) (room : nat) (nonblock signalled : bool) : UM (Wait (list Z)) :=
  r <-- recv_msg k room nonblock signalled ;;
  retM (match r with Got m => Got (m_data m) | MustWait => MustWait end).

Definition write (k : UnixSocket) (data : list Z) (nonblock signalled : bool) : UM (Wait nat) :=
  send_msg k data [] None nonblock signalled.

(** ** Closing *)

Definition close_both (c : nat) (h : Half) : UM unit :=
  upd_channel c h (fun ch => mkChannel (messages ch) (buffered_len ch) true true) >>>
  notes [NReaders c h; NWriters c h; NPoll].

Definition unregister_own (s : nat) (bound : option string) : UM unit :=
  match bound with
  | None => retM tt
  | Some path =>
      found <-- registry_get path ;;
      if bool_decide (found = Some s) then upd_registry (delete path) else retM tt
  end.

Definition close (k : UnixSocket) : UM unit :=
  let s := s_state k in
  st <-- stM s ;;
  let bound_to_remove := if owns_binding st then bound_addr st else None in
  upd_state s (fun st => with_binding Unbound (bound_addr st) false
                           (with_conn Unbound None (reader_half st) (writer_half st) None st)) >>>
  notes [NAccept s; NDgram s] >>>
  peer <-- upgrade (dgram_peer st) ;;
  match peer with Some p => notes [NDgram p] | None => retM tt end >>>
  unregister_own s bound_to_remove >>>
  match conn st with
  | None => retM tt
  | Some c =>
      co <-- connM c ;;
      upd_conn c (fun co => mkConn (channel0 co) (channel1 co) (u8 (refcount co - 1))) >>>
      if refcount co <=? 1 then close_both c Ch0 >>> close_both c Ch1
      else close_both c (writer_half st) >>> close_both c (reader_half st)
  end.

(** [Drop]: the last handle closes the socket. *)
Definition drop_handle (k : UnixSocket) : UM unit :=
  let s := s_state k in
  w <-- getM ;;
  modifyM (fun w => mkWorld (w_states w) (w_conns w) (alter (fun n => n - 1) s (w_refs w))
                      (w_registry w) (w_next w) (w_notes w)) >>>
  match w_refs w !! s with
  | Some 1 => close k
  | _ => retM tt
  end >>>
  release s.

Definition close_reader (c : nat) (h : Half) : UM unit :=
  upd_channel c h (fun ch => mkChannel (messages ch) (buffered_len ch) true (write_closed ch)).
Definition close_writer (c : nat) (h : Half) : UM unit :=
  upd_channel c h (fun ch => mkChannel (messages ch) (buffered_len ch) (read_closed ch) true) >>>
  notes [NReaders c h; NPoll].

Definition shutdown (k : UnixSocket) (how : Z) : UM unit :=
  st <-- stM (s_state k) ;;
  if negb (bool_decide (sock_type st = Stream)) then retM tt
  else match conn st with
       | None => retM tt
       | Some c =>
           if how =? SHUT_RD then close_reader c (reader_half st)
           else if how =? SHUT_WR then close_writer c (writer_half st)
           else if how =? SHUT_RDWR then close_reader c (reader_half st) >>> close_writer c (writer_half st)
           else retM tt
       end.

(** ** Readiness *)

Record UnixPollState := mkUnixPoll { u_readable : bool; u_writable : bool; u_hangup : bool; u_error : bool }.

Definition poll (k : UnixSocket) : UM UnixPollState :=
  st <-- stM (s_state k) ;;
  match sock_type st with
  | Dgram =>
      w <-- getM ;;
      peer <-- upgrade (dgram_peer st) ;;
      let peer_alive := match p ← peer; w_states w !! p with
                        | Some ps => negb (state_is_closed ps) | None => false end in
      let has_peer := match dgram_peer st with Some _ => true | None => false end in
      retM (mkUnixPoll (match dgram_queue st with [] => false | _ => true end)
              (negb (bool_decide (role st = Unbound)) || negb has_peer)
              (bool_decide (role st = Unbound) || (has_peer && negb peer_alive))
              false)
  | Stream =>
      if bool_decide (role st = Listening)
      then retM (mkUnixPoll (match backlog st with [] => false | _ => true end) false false false)
      else match conn st with
           | Some c =>
               co <-- connM c ;;
               let rch := channel (reader_half st) co in
               let wch := channel (writer_half st) co in
               retM (mkUnixPoll (ch_readable rch) (ch_writable wch) (ch_hangup rch) (ch_error wch))
           | None => retM (mkUnixPoll false false false false)
           end
  end.

Definition local_endpoint (k : UnixSocket) : UM (option string) := st <-- stM (s_state k) ;; retM (bound_addr st).
Definition remote_endpoint (k : UnixSocket) : UM (option string) := st <-- stM (s_state k) ;; retM (peer_addr st).
