(* ===== verification/UnixSpec.v ===== *)
(** * Local sockets: delivery, pairing and life time

    Runs of the socket calls of [UnixSocket] from boot, each call one turn, in any
    order and by any holder of a handle.  The invariant of such runs, and the theorems
    on what the two ends of a connection see. *)

From Stdlib Require Import ZifyBool.
From S2P Require Import Prelude Bytes Text Utf Pipe BlockDevSpec UnixSocket.
Open Scope twilight_scope.

(** ** Runs *)

(** What a call moved over channel [h] of connection [c]. *)
Inductive xfer :=
| Sent (c : nat) (h : Half) (data : list Z) (rights : list PassedFile)
| Rcvd (c : nat) (h : Half) (data : list Z) (rights : list PassedFile).

(** The calls, by the index of the handle they use. *)
Inductive call :=
| CSocket (t : SockType)
| CPair (t : SockType) (cred : PeerCredentials)
| CClone (i : nat)
| CBind (i : nat) (addr : string)
| CListen (i : nat)
| CConnect (i : nat) (addr : string) (cred : PeerCredentials)
| CAccept (i : nat) (signalled : bool)
| CSend (i : nat) (data : list Z) (rights : list PassedFile) (dest : option string) (nonblock signalled : bool)
| CRecv (i : nat) (room : nat) (nonblock signalled : bool)
| CShutdown (i : nat) (how : Z)
| CDrop (i : nat)
| CUnlink (path : string).

(** The handles held by the processes, and the transfers made so far. *)
Record Sys := mkSys { sy_world : World; sy_handles : list UnixSocket; sy_log : list xfer }.
Definition Sys_new : Sys := mkSys World_new [] [].

(** The connection a stream handle uses. *)
Definition stream_conn (w : World) (k : UnixSocket) : option (nat * Half * Half) :=
  st ← w_states w !! s_state k;
  c ← conn st;
  if bool_decide (sock_type st = Stream /\ role st = Connected)
  then Some (c, reader_half st, writer_half st) else None.

Definition sent (w : World) (k : UnixSocket) (data : list Z) (rights : list PassedFile) (r : res uerr (Wait nat))
  : list xfer :=
  match r, stream_conn w k with
  | Ok (Got n), Some (c, _, wr) => [Sent c wr (take n data) rights]
  | _, _ => []
  end.
Definition rcvd (w : World) (k : UnixSocket) (r : res uerr (Wait UnixMessage)) : list xfer :=
  match r, stream_conn w k with
  | Ok (Got m), Some (c, rd, _) => [Rcvd c rd (m_data m) (m_rights m)]
  | _, _ => []
  end.

(** The handles after a call that returns [f r] on success. *)
Definition handles_after {A} (f : A -> list UnixSocket) (hs : list UnixSocket) (r : res uerr A) : list UnixSocket :=
  match r with Ok a => f a | _ => hs end.

Definition on_handle (i : nat) (s : Sys) (f : UnixSocket -> Sys) : Sys :=
  match sy_handles s !! i with Some k => f k | None => s end.

Definition sys_step (s : Sys) (e : call) : Sys :=
  let w := sy_world s in let hs := sy_handles s in let l := sy_log s in
  match e with
  | CSocket t => let '(r, w') := UnixSocket_new t w in mkSys w' (handles_after (fun k => hs ++ [k]) hs r) l
  | CPair t cred =>
      let '(r, w') := UnixSocket_pair t cred w in mkSys w' (handles_after (fun x => hs ++ [x.1; x.2]) hs r) l
  | CClone i => on_handle i s (fun k =>
      let '(r, w') := clone k w in mkSys w' (handles_after (fun k' => hs ++ [k']) hs r) l)
  | CBind i addr => on_handle i s (fun k =>
      let '(r, w') := bind k addr w in mkSys w' (handles_after (fun k' => <[i := k']> hs) hs r) l)
  | CListen i => on_handle i s (fun k => mkSys (listen k 0 w).2 hs l)
  | CConnect i addr cred => on_handle i s (fun k =>
      let '(r, w') := connect k addr cred w in mkSys w' (handles_after (fun k' => <[i := k']> hs) hs r) l)
  | CAccept i sig => on_handle i s (fun k =>
      let '(r, w') := accept_new k sig w in
      mkSys w' (handles_after (fun x => match x with Got (k', _) => hs ++ [k'] | MustWait => hs end) hs r) l)
  | CSend i data rights dest nb sig => on_handle i s (fun k =>
      let '(r, w') := send_msg k data rights dest nb sig w in mkSys w' hs (l ++ sent w k data rights r))
  | CRecv i room nb sig => on_handle i s (fun k =>
      let '(r, w') := recv_msg k room nb sig w in mkSys w' hs (l ++ rcvd w k r))
  | CShutdown i how => on_handle i s (fun k => mkSys (shutdown k how w).2 hs l)
  | CDrop i => on_handle i s (fun k => mkSys (drop_handle k w).2 (delete i hs) l)
  | CUnlink path => mkSys (unregister_path path w).2 hs l
  end.

Definition run_calls (es : list call) : Sys := fold_left sys_step es Sys_new.

(** ** The invariant *)

Definition chan_bytes (ch : Channel) : list Z := concat (m_data <$> messages ch).
Definition chan_rights (ch : Channel) : list PassedFile := concat (m_rights <$> messages ch).

Definition chan_ok (ch : Channel) : Prop :=
  buffered_len ch = length (chan_bytes ch) /\ (buffered_len ch <= CHANNEL_CAPACITY)%nat.

Definition live (hs : list UnixSocket) (s : nat) : nat := length (filter (fun k => s_state k = s) hs).

Record inv (hs : list UnixSocket) (w : World) : Prop := {
  (** a channel accounts for its bytes, and never holds more than its capacity *)
  inv_chan c co h : w_conns w !! c = Some co -> chan_ok (channel h co);
  (** an endpoint reads one channel of its connection and writes the other *)
  inv_conn s st c : w_states w !! s = Some st -> conn st = Some c ->
    is_Some (w_conns w !! c) /\ reader_half st = other (writer_half st);
  (** two endpoints of one connection read what the other writes *)
  inv_pair s1 s2 st1 st2 c : s1 <> s2 -> w_states w !! s1 = Some st1 -> w_states w !! s2 = Some st2 ->
    conn st1 = Some c -> conn st2 = Some c -> reader_half st1 = writer_half st2;
  inv_fresh i : (w_next w <= i)%nat -> w_states w !! i = None /\ w_conns w !! i = None /\ w_refs w !! i = None;
  inv_reg p s : w_registry w !! p = Some s -> is_Some (w_states w !! s);
  (** a connection waiting to be accepted is held by the backlog only *)
  inv_backlog s st p : w_states w !! s = Some st -> p ∈ backlog st ->
    is_Some (w_states w !! pa_state p) /\ w_refs w !! pa_state p = None;
  inv_once s1 s2 st1 st2 i1 i2 p1 p2 : w_states w !! s1 = Some st1 -> w_states w !! s2 = Some st2 ->
    backlog st1 !! i1 = Some p1 -> backlog st2 !! i2 = Some p2 -> pa_state p1 = pa_state p2 -> s1 = s2 /\ i1 = i2;
  (** the reference counts count the handles *)
  inv_refs s : default 0 (w_refs w !! s) = Z.of_nat (live hs s);
  inv_live k : k ∈ hs -> is_Some (w_states w !! s_state k);
}.

(** *** Primitive updates *)

Abbreviation set_states m w := (mkWorld m (w_conns w) (w_refs w) (w_registry w) (w_next w) (w_notes w)).
Abbreviation set_conns m w := (mkWorld (w_states w) m (w_refs w) (w_registry w) (w_next w) (w_notes w)).

Lemma alter_inv {A} (f : A -> A) (i j : nat) (m : gmap nat A) y :
  alter f i m !! j = Some y -> exists x, m !! j = Some x /\ ((j = i /\ y = f x) \/ (j <> i /\ y = x)).
Proof.
  rewrite lookup_alter. case_decide as Hij; [subst j; rewrite fmap_Some|].
  - intros (x & H & ->). eauto.
  - eauto 10.
Qed.

Lemma is_Some_alter {A} (f : A -> A) (i j : nat) (m : gmap nat A) : is_Some (m !! j) -> is_Some (alter f i m !! j).
Proof. rewrite lookup_alter. case_decide as H; [subst; intros [x ->]; by eexists|done]. Qed.

Lemma alter_fresh {A} (f : A -> A) (i j : nat) (m : gmap nat A) : m !! j = None -> alter f i m !! j = None.
Proof. by rewrite lookup_alter_None. Qed.

Lemma inv_other_fields hs w ns : inv hs w ->
  inv hs (mkWorld (w_states w) (w_conns w) (w_refs w) (w_registry w) (w_next w) ns).
Proof. intros []. by split. Qed.

(** Channels change within their bounds. *)
Lemma inv_conns hs w c f : inv hs w ->
  (forall co, w_conns w !! c = Some co -> (forall h, chan_ok (channel h co)) -> forall h, chan_ok (channel h (f co))) ->
  inv hs (set_conns (alter f c (w_conns w)) w).
Proof.
  intros [Hc Hn Hp Hf Hr Hb Ho Hrf Hl] Hch. split; cbn [w_states w_conns w_refs w_registry w_next]; try done.
  - intros c' co h (co' & H & [[-> ->]|[_ ->]])%alter_inv; eauto.
  - intros s st c' H1 H2. destruct (Hn s st c' H1 H2) as [? ?]. by split; [apply is_Some_alter|].
  - intros i Hi. destruct (Hf i Hi) as (? & ? & ?). repeat split; auto using alter_fresh.
Qed.

(** A socket changes, except for its connection and its backlog. *)
Lemma inv_states hs w s f : inv hs w ->
  (forall st, backlog (f st) = backlog st /\
    (conn (f st) = None \/ (conn (f st) = conn st /\ reader_half (f st) = reader_half st /\ writer_half (f st) = writer_half st))) ->
  inv hs (set_states (alter f s (w_states w)) w).
Proof.
  intros [Hc Hn Hp Hf Hr Hb Ho Hrf Hl] Hst.
  assert (Hup : forall s' st', alter f s (w_states w) !! s' = Some st' ->
    exists st, w_states w !! s' = Some st /\ backlog st' = backlog st /\
      (conn st' = None \/ (conn st' = conn st /\ reader_half st' = reader_half st /\ writer_half st' = writer_half st))).
  { intros s' st' (st & H & [[-> ->]|[_ ->]])%alter_inv; exists st; eauto 10. }
  split; cbn [w_states w_conns w_refs w_registry w_next]; try done.
  - intros s' st' c (st & H & _ & [E|(E & -> & ->)])%Hup; rewrite E; [done|eauto].
  - intros s1 s2 st1 st2 c Hne (t1 & H1 & _ & E1)%Hup (t2 & H2 & _ & E2)%Hup C1 C2.
    destruct E1 as [E1|(E1 & -> & _)], E2 as [E2|(E2 & _ & ->)]; try congruence. apply (Hp s1 s2 t1 t2 c); congruence.
  - intros i Hi. destruct (Hf i Hi) as (? & ? & ?). repeat split; auto using alter_fresh.
  - eauto using is_Some_alter.
  - intros s' st' p (st & H & -> & _)%Hup Hin. destruct (Hb s' st p H Hin). eauto using is_Some_alter.
  - intros s1 s2 st1 st2 i1 i2 p1 p2 (t1 & H1 & -> & _)%Hup (t2 & H2 & -> & _)%Hup. eauto.
  - eauto using is_Some_alter.
Qed.

Lemma inv_registry hs w g : inv hs w ->
  (forall p s, g !! p = Some s -> is_Some (w_states w !! s)) ->
  inv hs (mkWorld (w_states w) (w_conns w) (w_refs w) g (w_next w) (w_notes w)).
Proof. intros [] Hg. by split. Qed.

(** A new connection, and a new socket that may be its endpoint. *)
Lemma inv_new_conn hs w : inv hs w ->
  inv hs (mkWorld (w_states w) (<[w_next w := UnixConnection_new]> (w_conns w)) (w_refs w) (w_registry w)
            (S (w_next w)) (w_notes w)).
Proof.
  intros [Hc Hn Hp Hf Hr Hb Ho Hrf Hl]. split; cbn [w_states w_conns w_refs w_registry w_next]; try done.
  - intros c co h [[<- <-]|[_ H]]%lookup_insert_Some; [|eauto]. destruct h; unfold chan_ok, CHANNEL_CAPACITY; cbn; lia.
  - intros s st c H1 H2. destruct (Hn s st c H1 H2). split; [|done]. rewrite lookup_insert. by case_decide.
  - intros i Hi. destruct (Hf i ltac:(lia)) as (? & ? & ?). rewrite lookup_insert_ne by lia. done.
Qed.

Lemma inv_new_state hs w st : inv hs w -> backlog st = [] ->
  (forall c, conn st = Some c -> is_Some (w_conns w !! c) /\ reader_half st = other (writer_half st) /\
     forall s' st', w_states w !! s' = Some st' -> conn st' = Some c -> reader_half st' = writer_half st) ->
  inv hs (mkWorld (<[w_next w := st]> (w_states w)) (w_conns w) (w_refs w) (w_registry w) (S (w_next w)) (w_notes w)).
Proof.
  intros [Hc Hn Hp Hf Hr Hb Ho Hrf Hl] Hbk Hst.
  assert (Hs : forall i, is_Some (w_states w !! i) -> is_Some (<[w_next w := st]> (w_states w) !! i)).
  { intros i ?. rewrite lookup_insert. by case_decide. }
  split; cbn [w_states w_conns w_refs w_registry w_next]; try done; eauto.
  - intros s st' c [[<- <-]|[_ H]]%lookup_insert_Some E; [destruct (Hst c E) as (? & ? & _); done|eauto].
  - intros s1 s2 st1 st2 c Hne [[<- <-]|[_ H1]]%lookup_insert_Some [[<- <-]|[_ H2]]%lookup_insert_Some C1 C2;
      [done| | |by eauto].
    + destruct (Hst c C1) as (_ & E & E2). destruct (Hn s2 st2 c H2 C2) as (_ & E3). specialize (E2 s2 st2 H2 C2).
      destruct (reader_half st), (writer_half st), (writer_half st2), (reader_half st2); done.
    + destruct (Hst c C2) as (_ & _ & E2). eauto.
  - intros i Hi. destruct (Hf i ltac:(lia)) as (? & ? & ?). rewrite lookup_insert_ne by lia. done.
  - intros s st' p [[<- <-]|[_ H]]%lookup_insert_Some Hin; [rewrite Hbk in Hin; by apply not_elem_of_nil in Hin|].
    destruct (Hb s st' p H Hin). eauto.
  - intros s1 s2 st1 st2 i1 i2 p1 p2 [[<- <-]|[_ H1]]%lookup_insert_Some [[<- <-]|[_ H2]]%lookup_insert_Some;
      rewrite ?Hbk, ?lookup_nil; eauto; done.
Qed.

(** *** Handles *)

Lemma live_cons k hs s : live (k :: hs) s = ((if decide (s_state k = s) then 1 else 0) + live hs s)%nat.
Proof. unfold live. rewrite filter_cons. by case_decide. Qed.

Lemma live_perm hs hs' s : hs ≡ₚ hs' -> live hs s = live hs' s.
Proof. unfold live. by intros ->. Qed.

Lemma inv_perm hs hs' w : hs ≡ₚ hs' -> inv hs w -> inv hs' w.
Proof.
  intros Hp [Hc Hn Hpr Hf Hr Hb Ho Hrf Hl]. split; try done.
  - intros s. by rewrite <- (live_perm hs hs' s Hp).
  - intros k. rewrite <- Hp. apply Hl.
Qed.

#[export] Instance inv_Proper : Proper (Permutation ==> eq ==> iff) inv.
Proof. intros hs hs' Hp w ? <-. split; apply inv_perm; by rewrite Hp. Qed.

(** A handle replaced by one of the same socket. *)
Lemma inv_same_handle hs i k k' w : hs !! i = Some k -> s_state k' = s_state k -> inv hs w -> inv (<[i := k']> hs) w.
Proof.
  intros Hi Hk.
  assert (Hi' : <[i := k']> hs !! i = Some k') by (apply list_lookup_insert_eq; by eapply lookup_lt_Some).
  assert (Hd : delete i (<[i := k']> hs) = delete i hs)
    by (by rewrite !delete_take_drop, take_insert_ge, drop_insert_lt by lia).
  intros HI. rewrite (delete_Permutation hs i k Hi) in HI. rewrite (delete_Permutation _ i k' Hi'), Hd.
  destruct HI as [Hc Hn Hpr Hf Hr Hb Ho Hrf Hl]. split; try done.
  - intros s. specialize (Hrf s). rewrite live_cons, Hk in *. done.
  - intros x [->|Hx]%elem_of_cons; [rewrite Hk; apply Hl; by left|apply Hl; by right].
Qed.

(** A first handle of a socket that no backlog holds. *)
Lemma inv_first_handle hs w k : inv hs w -> is_Some (w_states w !! s_state k) -> (w_refs w !! s_state k) = None ->
  (forall s st p, w_states w !! s = Some st -> p ∈ backlog st -> pa_state p <> s_state k) ->
  inv (k :: hs) (mkWorld (w_states w) (w_conns w) (<[s_state k := 1]> (w_refs w)) (w_registry w) (w_next w) (w_notes w)).
Proof.
  intros [Hc Hn Hpr Hf Hr Hb Ho Hrf Hl] Hk H0 Hnb.
  split; cbn [w_states w_conns w_refs w_registry w_next]; try done.
  - intros i Hi. destruct (Hf i Hi) as (E & ? & ?). destruct Hk as [x Hx].
    rewrite lookup_insert_ne; [done|]. intros Heq. congruence.
  - intros s st p H Hin. destruct (Hb s st p H Hin). rewrite lookup_insert_ne; [done|]. by apply not_eq_sym, (Hnb s st p).
  - intros s. rewrite live_cons. specialize (Hrf s). case_decide as E; [subst s; rewrite lookup_insert_eq|rewrite lookup_insert_ne by done].
    + rewrite H0 in Hrf. cbn in *. lia.
    + lia.
  - intros x [->|Hx]%elem_of_cons; [done|auto].
Qed.

Lemma inv_clone hs w k : inv hs w -> k ∈ hs ->
  inv (k :: hs) (mkWorld (w_states w) (w_conns w) (alter (Z.add 1) (s_state k) (w_refs w)) (w_registry w) (w_next w) (w_notes w)).
Proof.
  intros [Hc Hn Hpr Hf Hr Hb Ho Hrf Hl] Hk. split; cbn [w_states w_conns w_refs w_registry w_next]; try done.
  - intros i Hi. destruct (Hf i Hi) as (? & ? & ?). auto using alter_fresh.
  - intros s st p H Hin. destruct (Hb s st p H Hin). auto using alter_fresh.
  - intros s. rewrite live_cons. specialize (Hrf s). case_decide as E; [subst s; rewrite lookup_alter_eq|rewrite lookup_alter_ne by done].
    + apply list_elem_of_lookup in Hk as [i Hi]. rewrite (live_perm _ _ _ (delete_Permutation hs i k Hi)), live_cons in *.
      rewrite decide_True in * by done. destruct (w_refs w !! s_state k); cbn in *; lia.
    + lia.
  - intros x [->|Hx]%elem_of_cons; auto.
Qed.

Lemma inv_drop hs w k : inv (k :: hs) w ->
  inv hs (mkWorld (w_states w) (w_conns w) (alter (fun n => n - 1) (s_state k) (w_refs w)) (w_registry w) (w_next w) (w_notes w)).
Proof.
  intros [Hc Hn Hpr Hf Hr Hb Ho Hrf Hl]. split; cbn [w_states w_conns w_refs w_registry w_next]; try done.
  - intros i Hi. destruct (Hf i Hi) as (? & ? & ?). auto using alter_fresh.
  - intros s st p H Hin. destruct (Hb s st p H Hin). auto using alter_fresh.
  - intros s. specialize (Hrf s). rewrite live_cons in Hrf.
    case_decide as E; [subst s; rewrite lookup_alter_eq|rewrite lookup_alter_ne by done; lia].
    destruct (w_refs w !! s_state k); cbn in *; lia.
  - intros x Hx. apply Hl. by right.
Qed.

Lemma inv_release hs w s : inv hs w -> inv hs (release s w).2.
Proof.
  intros HI. unfold release, modifyM. cbn [snd].
  destruct (bool_decide_reflect (w_refs w !! s = Some 0)) as [H0|]; [|done].
  destruct (bool_decide_reflect (map_Forall (fun (_ : string) t => t <> s) (w_registry w))) as [Hno|]; [|done].
  destruct HI as [Hc Hn Hpr Hf Hr Hb Ho Hrf Hl].
  split; cbn [w_states w_conns w_refs w_registry w_next andb]; try done.
  - intros s' st c [_ H]%lookup_delete_Some. eauto.
  - intros s1 s2 st1 st2 c Hne [_ H1]%lookup_delete_Some [_ H2]%lookup_delete_Some. eauto.
  - intros i Hi. destruct (Hf i Hi) as (? & ? & ?). rewrite lookup_delete. by case_decide.
  - intros p t H. rewrite lookup_delete_ne; [eauto|]. apply not_eq_sym, (Hno p t H).
  - intros s' st p [_ H]%lookup_delete_Some Hin. destruct (Hb s' st p H Hin).
    rewrite lookup_delete_ne by congruence. done.
  - intros s1 s2 st1 st2 i1 i2 p1 p2 [_ H1]%lookup_delete_Some [_ H2]%lookup_delete_Some. eauto.
  - intros k Hk. rewrite lookup_delete_ne; [auto|]. intros ->. specialize (Hrf (s_state k)). rewrite H0 in Hrf.
    apply list_elem_of_lookup in Hk as [i Hi]. rewrite (live_perm _ _ _ (delete_Permutation hs i k Hi)), live_cons in Hrf.
    rewrite decide_True in Hrf by done. cbn in Hrf. lia.
Qed.

(** *** Connections *)

Lemma inv_set_conn hs w s c a : inv hs w -> is_Some (w_conns w !! c) ->
  (forall s' st', s' <> s -> w_states w !! s' = Some st' -> conn st' = Some c -> reader_half st' = Ch0) ->
  inv hs (set_states (alter (with_conn Connected (Some c) Ch1 Ch0 a) s (w_states w)) w).
Proof.
  intros [Hc Hn Hp Hf Hr Hb Ho Hrf Hl] Hco Hoth.
  split; cbn [w_states w_conns w_refs w_registry w_next]; try done; eauto using is_Some_alter.
  - intros s' st' c' (st & H & [[-> ->]|[_ ->]])%alter_inv E; [|eauto]. cbn in *. split; [congruence|done].
  - intros s1 s2 st1 st2 c' Hne (t1 & G1 & E1)%alter_inv (t2 & G2 & E2)%alter_inv C1 C2.
    destruct E1 as [[-> ->]|[N1 ->]], E2 as [[-> ->]|[N2 ->]]; cbn in *; [congruence| |by simplify_eq; eauto|by eauto].
    injection C1 as <-. rename c into c'. destruct (Hn s2 t2 c' G2 C2) as [_ E]. specialize (Hoth s2 t2 N2 G2 C2).
    destruct (reader_half t2), (writer_half t2); done.
  - intros i Hi. destruct (Hf i Hi) as (? & ? & ?). auto using alter_fresh.
  - intros s' st' p (st & H & [[-> ->]|[_ ->]])%alter_inv Hin; destruct (Hb _ st p H Hin); eauto using is_Some_alter.
  - intros s1 s2 st1 st2 i1 i2 p1 p2 (t1 & G1 & E1)%alter_inv (t2 & G2 & E2)%alter_inv.
    destruct E1 as [[-> ->]|[N1 ->]], E2 as [[-> ->]|[N2 ->]]; cbn; eauto.
Qed.

(** A state whose backlog changes: the new backlogs hold sockets without handles,
    each once. *)
Lemma inv_backlogs hs w s l : inv hs w ->
  (forall p, p ∈ l -> is_Some (w_states w !! pa_state p) /\ w_refs w !! pa_state p = None) ->
  NoDup (pa_state <$> l) ->
  (forall s' st' p, s' <> s -> w_states w !! s' = Some st' -> p ∈ backlog st' -> pa_state p ∉ pa_state <$> l) ->
  inv hs (set_states (alter (with_backlog l) s (w_states w)) w).
Proof.
  intros [Hc Hn Hp Hf Hr Hb Ho Hrf Hl] Hin Hnd Hdis.
  split; cbn [w_states w_conns w_refs w_registry w_next]; try done; eauto using is_Some_alter.
  - intros s' st' c' (st & H & [[-> ->]|[_ ->]])%alter_inv E; cbn in *; eauto.
  - intros s1 s2 st1 st2 c' Hne (t1 & G1 & E1)%alter_inv (t2 & G2 & E2)%alter_inv C1 C2.
    destruct E1 as [[-> ->]|[N1 ->]], E2 as [[-> ->]|[N2 ->]]; cbn in *; eauto.
  - intros i Hi. destruct (Hf i Hi) as (? & ? & ?). auto using alter_fresh.
  - intros s' st' p (st & H & [[-> ->]|[_ ->]])%alter_inv Hi.
    + destruct (Hin p Hi). eauto using is_Some_alter.
    + destruct (Hb s' st p H Hi). eauto using is_Some_alter.
  - intros s1 s2 st1 st2 i1 i2 p1 p2 (t1 & G1 & E1)%alter_inv (t2 & G2 & E2)%alter_inv.
    destruct E1 as [[-> ->]|[N1 ->]], E2 as [[-> ->]|[N2 ->]]; cbn [backlog with_backlog]; intros L1 L2 E; eauto.
    + split; [done|]. apply (NoDup_lookup _ i1 i2 (pa_state p1) Hnd); rewrite list_lookup_fmap; [by rewrite L1|].
      rewrite L2. cbn. by rewrite E.
    + exfalso. apply (Hdis s2 t2 p2 N2 G2); [by eapply list_elem_of_lookup_2|]. rewrite <- E.
      apply list_elem_of_fmap_2. by eapply list_elem_of_lookup_2.
    + exfalso. apply (Hdis s1 t1 p1 N1 G1); [by eapply list_elem_of_lookup_2|]. rewrite E.
      apply list_elem_of_fmap_2. by eapply list_elem_of_lookup_2.
Qed.

Lemma inv_backlog_NoDup hs w s st : inv hs w -> w_states w !! s = Some st -> NoDup (pa_state <$> backlog st).
Proof.
  intros HI Hs. apply NoDup_alt. intros i j x. rewrite !list_lookup_fmap, !fmap_Some.
  intros (p1 & H1 & ->) (p2 & H2 & E). by destruct (inv_once _ _ HI s s st st i j p1 p2 Hs Hs H1 H2 E).
Qed.

Lemma inv_backlog_disjoint hs w s st s' st' p : inv hs w -> s' <> s ->
  w_states w !! s = Some st -> w_states w !! s' = Some st' -> p ∈ backlog st' -> pa_state p ∉ pa_state <$> backlog st.
Proof.
  intros HI Hne Hs Hs' [i Hi]%list_elem_of_lookup (q & E & [j Hj]%list_elem_of_lookup)%list_elem_of_fmap.
  by destruct (inv_once _ _ HI s' s st' st i j p q Hs' Hs Hi Hj E).
Qed.

(** *** Contents *)

Definition content (w : World) (c : nat) (h : Half) : list Z * list PassedFile :=
  from_option (fun co => (chan_bytes (channel h co), chan_rights (channel h co))) ([], []) (w_conns w !! c).

Definition same_contents (w w' : World) : Prop := forall c h, content w' c h = content w c h.

Lemma same_contents_conns w w' : w_conns w' = w_conns w -> same_contents w w'.
Proof. intros E c h. unfold content. by rewrite E. Qed.

Lemma same_contents_trans w1 w2 w3 : same_contents w1 w2 -> same_contents w2 w3 -> same_contents w1 w3.
Proof. intros H1 H2 c h. by rewrite H2. Qed.

Lemma same_contents_alter w m c f :
  (forall co h, messages (channel h (f co)) = messages (channel h co)) -> w_conns m = alter f c (w_conns w) ->
  same_contents w m.
Proof.
  intros Hf E c' h. unfold content. rewrite E. rewrite lookup_alter. case_decide; [subst c'|done].
  destruct (w_conns w !! c) as [co|]; [|done]. cbn. unfold chan_bytes, chan_rights. by rewrite Hf.
Qed.

Lemma same_contents_new w m i : w_conns w !! i = None -> w_conns m = <[i := UnixConnection_new]> (w_conns w) ->
  same_contents w m.
Proof.
  intros Hi E c h. unfold content. rewrite E, lookup_insert. case_decide; [subst c|done]. rewrite Hi. by destruct h.
Qed.

Lemma channel_set h h' ch co : channel h (set_channel h' ch co) = if decide (h = h') then ch else channel h co.
Proof. by destruct h, h'. Qed.

(** A step that moves no stream data. *)
Definition quiet (hs : list UnixSocket) (w : World) (hs' : list UnixSocket) (w' : World) : Prop :=
  inv hs' w' /\ same_contents w w'.

Lemma quiet_refl hs w : inv hs w -> quiet hs w hs w.
Proof. intros H. split; [done|by apply same_contents_conns]. Qed.

Lemma quiet_trans hs1 hs2 hs3 w1 w2 w3 : quiet hs1 w1 hs2 w2 -> quiet hs2 w2 hs3 w3 -> quiet hs1 w1 hs3 w3.
Proof. intros [H1 H2] [H3 H4]. split; [done|by eapply same_contents_trans]. Qed.

Lemma quiet_inv hs w hs' w' : w_conns w' = w_conns w -> inv hs' w' -> quiet hs w hs' w'.
Proof. intros H1 H2. split; [done|by apply same_contents_conns]. Qed.

Create HintDb socket.
#[export] Hint Resolve quiet_refl quiet_inv inv_other_fields inv_states inv_registry inv_release : socket.

Lemma run_bind {A B} (m : UM A) (k : A -> UM B) w :
  bindM m k w = match m w with (Ok a, w') => k a w' | (Err e, w') => (Err e, w') | (Panic, w') => (Panic, w') end.
Proof. done. Qed.

Lemma run_stM s w st : w_states w !! s = Some st -> stM s w = (Ok st, w).
Proof. intros H. unfold stM, bindM, getM. by rewrite H. Qed.

Lemma run_connM c w co : w_conns w !! c = Some co -> connM c w = (Ok co, w).
Proof. intros H. unfold connM, bindM, getM. by rewrite H. Qed.

(** ** Every call keeps the invariant *)

Lemma fresh_unused hs w s st : inv hs w -> w_states w !! s = Some st -> (s < w_next w)%nat.
Proof.
  intros HI H. destruct (decide (w_next w <= s)%nat) as [Hge|]; [|lia].
  destruct (inv_fresh _ _ HI s Hge) as [? _]. congruence.
Qed.

Lemma fresh_conn_unused hs w s st c : inv hs w -> w_states w !! s = Some st -> conn st = Some c -> (c < w_next w)%nat.
Proof.
  intros HI H Hc. destruct (inv_conn _ _ HI s st c H Hc) as [[co Hco] _].
  destruct (decide (w_next w <= c)%nat) as [Hge|]; [|lia]. destruct (inv_fresh _ _ HI c Hge) as (_ & ? & _). congruence.
Qed.

Lemma fresh_pending hs w s st p : inv hs w -> w_states w !! s = Some st -> p ∈ backlog st -> (pa_state p < w_next w)%nat.
Proof. intros HI H Hp. destruct (inv_backlog _ _ HI s st p H Hp) as [[x Hx] _]. by eapply fresh_unused. Qed.

(** A socket without a handle and in no backlog: it can get its first handle. *)
Record unowned (w : World) (s : nat) : Prop := {
  uo_state : is_Some (w_states w !! s);
  uo_refs : w_refs w !! s = None;
  uo_backlog s' st p : w_states w !! s' = Some st -> p ∈ backlog st -> pa_state p <> s;
}.

Lemma inv_new_socket hs w k : inv hs w -> unowned w (s_state k) -> inv (hs ++ [k]) (new_refs (s_state k) w).2.
Proof. intros HI []. rewrite <- Permutation_cons_append. by apply inv_first_handle. Qed.

Abbreviation after_new_state st w :=
  (mkWorld (<[w_next w := st]> (w_states w)) (w_conns w) (w_refs w) (w_registry w) (S (w_next w)) (w_notes w)).

Lemma unowned_new hs w st : inv hs w -> backlog st = [] -> unowned (after_new_state st w) (w_next w).
Proof.
  intros HI Hb. split; cbn.
  - by rewrite lookup_insert_eq.
  - apply (inv_fresh _ _ HI); lia.
  - intros s st' p [[<- <-]|[_ H]]%lookup_insert_Some Hp; [rewrite Hb in Hp; by apply not_elem_of_nil in Hp|].
    pose proof (fresh_pending _ _ _ _ _ HI H Hp). lia.
Qed.

Lemma unowned_keep w s st : backlog st = [] -> unowned w s -> unowned (after_new_state st w) s.
Proof.
  intros Hb [H1 H2 H3]. split; cbn; [|done|].
  - rewrite lookup_insert. by case_decide.
  - intros s' st' p [[<- <-]|[_ H]]%lookup_insert_Some Hp; [rewrite Hb in Hp; by apply not_elem_of_nil in Hp|eauto].
Qed.

Lemma unowned_refs w s s' : s <> s' -> unowned w s -> unowned (new_refs s' w).2 s.
Proof. intros Hne [H1 H2 H3]. split; cbn; [done|by rewrite lookup_insert_ne|done]. Qed.

Lemma unowned_alter w s s' f : (forall st, backlog (f st) = backlog st) -> unowned w s ->
  unowned (set_states (alter f s' (w_states w)) w) s.
Proof.
  intros Hf [H1 H2 H3]. split; cbn; [by apply is_Some_alter|done|].
  intros t st p (st' & H & [[-> ->]|[_ ->]])%alter_inv; rewrite ?Hf; eauto.
Qed.

Lemma new_socket_quiet hs w t : inv hs w ->
  exists k w', UnixSocket_new t w = (Ok k, w') /\ quiet hs w (hs ++ [k]) w'.
Proof.
  intros HI. eexists _, _. split; [reflexivity|]. apply quiet_inv; [done|].
  apply (inv_new_socket _ (after_new_state (UnixState_new t) w) (mkSocket (w_next w) 0 None)).
  - by apply inv_new_state.
  - by eapply unowned_new.
Qed.

(** Two new sockets, each with its handle. *)
Lemma two_handles hs w l r cr : inv hs w -> l <> r -> unowned w l -> unowned w r ->
  inv (hs ++ [mkSocket l 0 cr; mkSocket r 0 cr]) (new_refs r (new_refs l w).2).2.
Proof.
  intros HI Hne Hl Hr. change (hs ++ [?a; ?b]) with (hs ++ [a] ++ [b]). rewrite app_assoc.
  apply (inv_new_socket _ _ (mkSocket r 0 cr)); [|by apply unowned_refs].
  by apply (inv_new_socket _ _ (mkSocket l 0 cr)).
Qed.

Lemma pair_quiet hs w t cred : inv hs w ->
  exists x w', UnixSocket_pair t cred w = (Ok x, w') /\ quiet hs w (hs ++ [x.1; x.2]) w'.
Proof.
  intros HI. destruct t; (eexists _, _; split; [reflexivity|]); cbn [fst snd].
  - pose proof (inv_new_conn _ _ HI) as H1. set (w1 := mkWorld _ (<[_ := _]> _) _ _ _ _) in H1.
    assert (H2 : inv hs (after_new_state (connected_state Stream (w_next w) Ch1 Ch0) w1)).
    { apply inv_new_state; [done|done|]. intros c [= <-]. split; [cbn; by rewrite lookup_insert_eq|split; [done|]].
      intros s' st' Hs' Hc'. pose proof (fresh_conn_unused _ _ _ _ _ HI Hs' Hc'). lia. }
    set (w2 := mkWorld (<[_ := _]> _) _ _ _ _ _) in H2.
    assert (H3 : inv hs (after_new_state (connected_state Stream (w_next w) Ch0 Ch1) w2)).
    { apply inv_new_state; [done|done|]. intros c [= <-]. split; [cbn; by rewrite lookup_insert_eq|split; [done|]].
      intros s' st' Hs' Hc'. cbn [w_states w2] in Hs'. apply lookup_insert_Some in Hs' as [[<- <-]|[_ Hs']]; [done|].
      pose proof (fresh_conn_unused _ _ _ _ _ HI Hs' Hc'). lia. }
    split.
    + apply (two_handles _ _ _ _ _ H3); [cbn; lia| |by eapply unowned_new].
      apply unowned_keep; [done|]. by eapply unowned_new.
    + apply (same_contents_new w _ (w_next w)); [apply (inv_fresh _ _ HI); lia|done].
  - apply quiet_inv; [done|].
    assert (H1 : inv hs (after_new_state (UnixState_new Dgram) w)) by by apply inv_new_state.
    set (w1 := mkWorld (<[_ := _]> _) _ _ _ _ _) in H1.
    assert (H2 : inv hs (after_new_state (UnixState_new Dgram) w1)) by by apply inv_new_state.
    set (w2 := mkWorld (<[_ := _]> _) _ _ _ _ _) in H2.
    pose proof (inv_states _ _ (w_next w) (with_dgram_peer (w_next w1)) H2 ltac:(by intros; split; [|right])) as H3.
    pose proof (inv_states _ _ (w_next w1) (with_dgram_peer (w_next w)) H3 ltac:(by intros; split; [|right])) as H4.
    apply (two_handles _ _ _ _ _ H4); [cbn; lia| |];
      (apply (unowned_alter (set_states _ _)); [done|]; apply unowned_alter; [done|]); [|by eapply unowned_new].
    apply unowned_keep; [done|]. by eapply unowned_new.
Qed.

Lemma handle_state hs w k : inv hs w -> k ∈ hs -> exists st, w_states w !! s_state k = Some st.
Proof. intros HI Hk. destruct (inv_live _ _ HI k Hk). eauto. Qed.

Lemma clone_quiet hs w k : inv hs w -> k ∈ hs -> quiet hs w (hs ++ [k]) (clone k w).2.
Proof. intros HI Hk. apply quiet_inv; [done|]. rewrite <- Permutation_cons_append. by apply inv_clone. Qed.

Lemma bind_quiet hs w i k addr : inv hs w -> hs !! i = Some k ->
  let '(r, w') := bind k addr w in r <> Panic /\ quiet hs w (handles_after (fun k' => <[i := k']> hs) hs r) w'.
Proof.
  intros HI Hi. assert (Hk : k ∈ hs) by by eapply list_elem_of_lookup_2.
  unfold bind, registry_get. destruct (slen addr =? 0)%nat; [cbn; auto with socket|].
  cbn. destruct (w_registry w !! addr) eqn:E; cbn; [auto with socket|]. split; [done|].
  apply quiet_inv; [done|]. apply (inv_same_handle hs i k); [done|done|].
  pose proof (inv_states _ _ (s_state k) (with_binding Bound (Some addr) true) HI ltac:(by intros; split; [|right])) as HS.
  apply (inv_registry _ _ _ HS). cbn. intros p s [[<- <-]|[_ H]]%lookup_insert_Some; apply is_Some_alter.
  - by apply (inv_live _ _ HI).
  - by apply (inv_reg _ _ HI p).
Qed.

Lemma listen_quiet hs w k b : inv hs w -> k ∈ hs ->
  let '(r, w') := listen k b w in r <> Panic /\ quiet hs w hs w'.
Proof.
  intros HI Hk. destruct (handle_state _ _ _ HI Hk) as [st Hst]. unfold listen. rewrite run_bind, (run_stM _ _ _ Hst).
  destruct (negb _); [cbn; auto with socket|]. destruct (negb _); [cbn; auto with socket|]. cbn. split; [done|].
  apply quiet_inv; [done|]. by apply inv_states; [|intros; split; [|right]].
Qed.

(** [connect] on its last branch. *)
Lemma connect_linked hs w k l lst addr cred : inv hs w ->
  is_Some (w_states w !! s_state k) -> w_states w !! l = Some lst ->
  let c := w_next w in
  let w1 := mkWorld (w_states w) (<[c := UnixConnection_new]> (w_conns w)) (w_refs w) (w_registry w) (S c) (w_notes w) in
  let w2 := after_new_state (connected_state Stream c Ch0 Ch1) w1 in
  let w3 := set_states (alter (fun ls => with_backlog (backlog ls ++ [mkPending (S c) cred]) ls) l (w_states w2)) w2 in
  let w4 := (notes [NAccept l] w3).2 in
  quiet hs w hs (set_states (alter (with_conn Connected (Some c) Ch1 Ch0 (Some addr)) (s_state k) (w_states w4)) w4).
Proof.
  intros HI Hk Hl c w1 w2 w3 w4.
  pose proof (inv_new_conn _ _ HI) as I1. fold c w1 in I1.
  assert (Hold : forall s' st', w_states w !! s' = Some st' -> conn st' <> Some c).
  { intros s' st' H Hc. pose proof (fresh_conn_unused _ _ _ _ _ HI H Hc). unfold c in *. lia. }
  assert (I2 : inv hs w2).
  { apply inv_new_state; [done|done|]. intros c' [= <-]. split; [cbn; by rewrite lookup_insert_eq|split; [done|]].
    intros s' st' Hs' Hc'. by destruct (Hold s' st' Hs'). }
  pose proof (unowned_new _ _ (connected_state Stream c Ch0 Ch1) I1 eq_refl) as [U1 U2 U3]. fold w2 in U1, U2, U3.
  change (w_next w1) with (S c) in *.
  assert (Hl2 : w_states w2 !! l = Some lst).
  { cbn. rewrite lookup_insert_ne; [done|]. pose proof (fresh_unused _ _ _ _ HI Hl). unfold c. lia. }
  assert (I3 : inv hs w3).
  { assert (E : alter (fun ls => with_backlog (backlog ls ++ [mkPending (S c) cred]) ls) l (w_states w2) =
                alter (with_backlog (backlog lst ++ [mkPending (S c) cred])) l (w_states w2)).
    { apply alter_ext. intros x Hx. by rewrite Hl2 in Hx; injection Hx as <-. }
    unfold w3. rewrite E. apply inv_backlogs; [done| | |].
    - intros p [Hp| ->%list_elem_of_singleton]%elem_of_app; [|done]. by eapply inv_backlog.
    - rewrite fmap_app. apply NoDup_app. split; [by eapply inv_backlog_NoDup|split; [|apply NoDup_singleton]].
      intros x (p & -> & Hp)%list_elem_of_fmap Hx%list_elem_of_singleton. by apply (U3 l lst p Hl2 Hp).
    - intros s' st' p Hne Hs' Hp. rewrite fmap_app, elem_of_app. intros [H|Hx%list_elem_of_singleton].
      + by eapply (inv_backlog_disjoint hs w2 l lst s' st' p).
      + by apply (U3 s' st' p Hs' Hp). }
  assert (I4 : inv hs w4) by by apply inv_other_fields.
  split.
  - apply inv_set_conn; [done|cbn; by rewrite lookup_insert_eq|].
    intros s' st' Hne (st & Hs' & E)%alter_inv Hc'. cbn in Hs'.
    apply lookup_insert_Some in Hs' as [[<- <-]|[_ Hs']]; [by destruct E as [[-> ->]|[_ ->]]|].
    exfalso. apply (Hold s' st Hs'). by destruct E as [[-> ->]|[_ ->]].
  - apply (same_contents_new w _ c); [apply (inv_fresh _ _ HI); unfold c; lia|done].
Qed.

Lemma run_new_conn w :
  new_conn w = (Ok (w_next w), mkWorld (w_states w) (<[w_next w := UnixConnection_new]> (w_conns w)) (w_refs w)
                                 (w_registry w) (S (w_next w)) (w_notes w)).
Proof. done. Qed.

Lemma connect_quiet hs w i k addr cred : inv hs w -> hs !! i = Some k ->
  let '(r, w') := connect k addr cred w in r <> Panic /\ quiet hs w (handles_after (fun k' => <[i := k']> hs) hs r) w'.
Proof.
  intros HI Hi. assert (Hk : k ∈ hs) by by eapply list_elem_of_lookup_2.
  destruct (handle_state _ _ _ HI Hk) as [st Hst]. unfold connect. rewrite run_bind, (run_stM _ _ _ Hst).
  destruct (negb _); [cbn; auto with socket|]. destruct (bool_decide _); [cbn; auto with socket|].
  destruct (_ && _); [cbn; auto with socket|]. unfold registry_get. rewrite !run_bind. cbn [getM retM].
  destruct (w_registry w !! addr) as [l|] eqn:El; cbn [retM]; [|cbn; auto with socket].
  destruct (inv_reg _ _ HI addr l El) as [lst Hl].
  rewrite run_bind, run_new_conn.
  rewrite run_bind, (run_stM l _ lst) by done.
  destruct (negb _).
  - cbn. split; [done|]. split; [by apply inv_new_conn|].
    apply (same_contents_new w _ (w_next w)); [apply (inv_fresh _ _ HI); lia|done].
  - cbn. split; [done|]. pose proof (connect_linked hs w k l lst addr cred HI ltac:(by eexists) Hl) as [H1 H2].
    split; [|done]. by apply (inv_same_handle hs i k).
Qed.

Lemma accept_pending_quiet hs w k st p rest : inv hs w -> w_states w !! s_state k = Some st -> backlog st = p :: rest ->
  exists x w', accept_pending k st p rest w = (Ok x, w') /\ quiet hs w (hs ++ [x.1]) w' /\ s_state x.1 = pa_state p.
Proof.
  intros HI Hst Hb. unfold accept_pending.
  assert (Hin : p ∈ backlog st) by (rewrite Hb; by left).
  destruct (inv_backlog _ _ HI _ st p Hst Hin) as [[ast Ha] Hrf].
  pose proof (inv_backlog_NoDup _ _ _ _ HI Hst) as Hnd. rewrite Hb, fmap_cons in Hnd. apply NoDup_cons in Hnd as [Hni Hnd].
  set (w1 := set_states (alter (with_backlog rest) (s_state k) (w_states w)) w).
  assert (I1 : inv hs w1).
  { apply inv_backlogs; [done| |done|].
    - intros q Hq. apply (inv_backlog _ _ HI _ st q Hst). rewrite Hb. by right.
    - intros s' st' q Hne Hs' Hq Hq'. apply (inv_backlog_disjoint hs w (s_state k) st s' st' q HI Hne Hst Hs' Hq).
      rewrite Hb. by right. }
  assert (U : unowned w1 (pa_state p)).
  { split; [cbn; apply is_Some_alter; by eexists|done|].
    intros s' st' q (t & Hs' & [[-> ->]|[Hne ->]])%alter_inv Hq E.
    - apply Hni. rewrite <- E. by apply list_elem_of_fmap_2.
    - apply (inv_backlog_disjoint hs w (s_state k) st s' t q HI Hne Hst Hs' Hq). rewrite E, Hb. by left. }
  rewrite run_bind. cbn [upd_state modifyM]. fold w1.
  destruct (uo_state _ _ U) as [ast' Ha']. rewrite run_bind, (run_stM _ _ _ Ha').
  eexists _, _. split; [reflexivity|]. split; [|done]. apply quiet_inv; [done|]. cbn [fst].
  set (f := fun a : UnixState => with_binding (role a) (bound_addr st) (owns_binding a) a).
  apply (inv_new_socket _ (set_states (alter f (pa_state p) (w_states w1)) w1) (mkSocket (pa_state p) _ _)).
  - by apply inv_states; [|intros; split; [|right]].
  - by apply (unowned_alter w1).
Qed.

Lemma accept_quiet hs w k sig : inv hs w -> k ∈ hs ->
  let '(r, w') := accept_new k sig w in
  r <> Panic /\ quiet hs w (handles_after (fun x => match x with Got (k', _) => hs ++ [k'] | MustWait => hs end) hs r) w'.
Proof.
  intros HI Hk. destruct (handle_state _ _ _ HI Hk) as [st Hst]. unfold accept_new. rewrite run_bind, (run_stM _ _ _ Hst).
  destruct (negb _); [cbn; auto with socket|]. destruct (negb _); [cbn; auto with socket|].
  destruct (backlog st) as [|p rest] eqn:Hb; [destruct sig; cbn; auto with socket|].
  destruct (accept_pending_quiet hs w k st p rest HI Hst Hb) as ([k' a] & w' & E & Hq & _).
  rewrite run_bind, E. cbn. done.
Qed.

(** *** Datagrams and closing *)

Lemma deliver_quiet hs w t data src rights : inv hs w -> quiet hs w hs (deliver t data src rights w).2.
Proof.
  intros HI. apply quiet_inv; [done|]. cbn.
  pose proof (inv_states _ _ t (fun st => with_queue (dgram_queue st ++ [mkDgram data src rights]) st) HI
                ltac:(by intros; split; [|right])) as HS. exact (inv_other_fields _ _ _ HS).
Qed.

Lemma run_upgrade s w :
  upgrade s w = (Ok None, w) \/ exists t, upgrade s w = (Ok (Some t), w) /\ is_Some (w_states w !! t).
Proof. unfold upgrade, bindM, getM, retM. destruct s as [t|]; [case_decide|]; eauto. Qed.

Lemma source_of_run hs w k : inv hs w -> k ∈ hs -> exists src, source_of k w = (Ok src, w).
Proof.
  intros HI Hk. destruct (handle_state _ _ _ HI Hk) as [st Hst]. unfold source_of.
  rewrite run_bind, (run_stM _ _ _ Hst). by eexists.
Qed.

Lemma send_to_msg_quiet hs w k buf addr rights : inv hs w -> k ∈ hs ->
  let '(r, w') := send_to_msg k buf addr rights w in r <> Panic /\ quiet hs w hs w'.
Proof.
  intros HI Hk. unfold send_to_msg, registry_get. rewrite !run_bind. cbn [getM retM].
  destruct (w_registry w !! addr) as [t|] eqn:El; [|cbn; auto with socket].
  destruct (inv_reg _ _ HI addr t El) as [tst Ht]. rewrite run_bind, (run_stM _ _ _ Ht).
  destruct (negb _); [cbn; auto with socket|]. destruct (_ =? _)%nat; [cbn; auto with socket|].
  destruct (source_of_run _ _ _ HI Hk) as [src Es]. rewrite run_bind, Es. cbn. split; [done|].
  by apply (deliver_quiet hs w t buf src rights).
Qed.

Lemma send_to_peer_quiet hs w k buf rights : inv hs w -> k ∈ hs ->
  let '(r, w') := send_to_peer k buf rights w in r <> Panic /\ quiet hs w hs w'.
Proof.
  intros HI Hk. destruct (handle_state _ _ _ HI Hk) as [st Hst]. unfold send_to_peer.
  rewrite run_bind, (run_stM _ _ _ Hst), run_bind.
  destruct (run_upgrade (dgram_peer st) w) as [->|(p & -> & pst & Hp)]; [cbn; auto with socket|].
  destruct (source_of_run _ _ _ HI Hk) as [src Es]. rewrite run_bind, Es, run_bind, (run_stM _ _ _ Hp).
  destruct (_ || _); [cbn; auto with socket|]. cbn. split; [done|]. by apply (deliver_quiet hs w p buf src rights).
Qed.

Lemma dgram_send_quiet hs w k data rights dest : inv hs w -> k ∈ hs ->
  let '(r, w') := dgram_send_impl k data rights dest w in r <> Panic /\ quiet hs w hs w'.
Proof.
  intros HI Hk. unfold dgram_send_impl. destruct dest as [a|]; [by apply send_to_msg_quiet|].
  destruct (handle_state _ _ _ HI Hk) as [st Hst]. rewrite run_bind, (run_stM _ _ _ Hst).
  destruct (default_peer st); [by apply send_to_msg_quiet|by apply send_to_peer_quiet].
Qed.

Lemma dgram_recv_quiet hs w k room nb sig : inv hs w -> k ∈ hs ->
  let '(r, w') := dgram_recv_msg_impl k room nb sig w in r <> Panic /\ quiet hs w hs w'.
Proof.
  intros HI Hk. unfold dgram_recv_msg_impl, dgram_empty. destruct (handle_state _ _ _ HI Hk) as [st Hst].
  rewrite run_bind, (run_stM _ _ _ Hst).
  destruct (dgram_queue st) as [|m rest]; [destruct nb, sig; cbn; auto with socket|]. cbn. split; [done|].
  apply quiet_inv; [done|]. by apply inv_states; [|intros; split; [|right]].
Qed.

(** A command that always succeeds and moves no stream data; [C] says how much of the
    world it leaves. *)
Definition calm (C : World -> World -> Prop) (m : UM unit) : Prop :=
  forall hs w, inv hs w -> exists w', m w = (Ok tt, w') /\ quiet hs w hs w' /\ C w w'.

Definition anything (_ _ : World) : Prop := True.
Definition same_states (w w' : World) : Prop := w_states w = w_states w'.
Definition kept (w w' : World) : Prop := w_states w = w_states w' /\ w_conns w = w_conns w'.

#[export] Instance anything_Trans : Transitive anything.
Proof. done. Qed.
#[export] Instance same_states_Trans : Transitive same_states.
Proof. unfold same_states. intros ???. congruence. Qed.
#[export] Instance kept_Trans : Transitive kept.
Proof. intros ??? [] []. split; congruence. Qed.

Lemma calm_ret : calm kept (retM tt).
Proof. intros hs w HI. exists w. split; [done|]. split; [by apply quiet_refl|done]. Qed.

Lemma calm_notes l : calm kept (notes l).
Proof. intros hs w HI. eexists. split; [reflexivity|]. split; [by apply quiet_inv, inv_other_fields|done]. Qed.

Lemma calm_seq C `{!Transitive C} m1 m2 : calm C m1 -> calm C m2 -> calm C (m1 >>> m2).
Proof.
  intros H1 H2 hs w HI. destruct (H1 hs w HI) as (w1 & E1 & Q1 & EC). destruct (H2 hs w1 (proj1 Q1)) as (w2 & E2 & Q2 & HC).
  exists w2. rewrite run_bind, E1. split; [done|]. split; [by eapply quiet_trans|by etransitivity].
Qed.

Lemma calm_weaken (C C' : World -> World -> Prop) m : (forall w w', C w w' -> C' w w') -> calm C m -> calm C' m.
Proof. intros HC H hs w HI. destruct (H hs w HI) as (w' & ? & ? & ?). exists w'. auto. Qed.

Lemma calm_states m : calm kept m -> calm same_states m.
Proof. apply calm_weaken. by intros w w' []. Qed.

(** A command that keeps the sockets and the connections comes before [m2]. *)
Lemma calm_before hs w m1 (m2 : UM unit) : calm kept m1 -> inv hs w ->
  exists w', inv hs w' /\ kept w w' /\ (m1 >>> m2) w = m2 w'.
Proof. intros H1 HI. destruct (H1 hs w HI) as (w1 & E1 & Q1 & EC). exists w1. rewrite run_bind, E1. by destruct Q1. Qed.

Lemma calm_registry_delete p : calm kept (upd_registry (delete p)).
Proof.
  intros hs w HI. eexists. split; [reflexivity|]. split; [apply quiet_inv; [done|]|done]. apply (inv_registry _ _ _ HI).
  intros q s [_ H]%lookup_delete_Some. by apply (inv_reg _ _ HI q).
Qed.

Lemma calm_unregister s bound : calm kept (unregister_own s bound).
Proof.
  unfold unregister_own. destruct bound as [p|]; [|apply calm_ret]. intros hs w HI.
  unfold registry_get. rewrite !run_bind. cbn [getM retM]. destruct (bool_decide _); [by apply calm_registry_delete|by apply calm_ret].
Qed.

(** Freeing a socket leaves the others. *)
Definition others_kept (s : nat) (w w' : World) : Prop :=
  w_conns w = w_conns w' /\ forall s', s' <> s -> w_states w !! s' = w_states w' !! s'.

Lemma calm_release s : calm (others_kept s) (release s).
Proof.
  intros hs w HI. eexists. split; [reflexivity|].
  assert (E : w_conns (release s w).2 = w_conns w) by (unfold release; cbn; by case_match).
  split; [by apply quiet_inv, inv_release|]. split; [done|]. intros s' Hne. unfold release; cbn.
  case_match; [|done]. cbn. by rewrite lookup_delete_ne.
Qed.

(** The flags of a channel change. *)
Lemma calm_flags c h r wf :
  calm same_states (upd_channel c h (fun ch => mkChannel (messages ch) (buffered_len ch) (r ch) (wf ch))).
Proof.
  intros hs w HI. eexists. split; [reflexivity|]. split; [|done]. split.
  - apply inv_conns; [done|]. intros co _ Hok h'. rewrite channel_set. case_decide; [subst|]; apply Hok.
  - eapply same_contents_alter; [|reflexivity]. intros co h'. cbv beta. rewrite channel_set. case_decide; by subst.
Qed.

Lemma calm_close_both c h : calm same_states (close_both c h).
Proof. apply (calm_seq _); [apply calm_flags|apply calm_states, calm_notes]. Qed.

Lemma calm_close_reader c h : calm same_states (close_reader c h).
Proof. apply calm_flags. Qed.

Lemma calm_close_writer c h : calm same_states (close_writer c h).
Proof. apply (calm_seq _); [apply calm_flags|apply calm_states, calm_notes]. Qed.

Lemma calm_refcount c f :
  calm same_states (upd_conn c (fun co => mkConn (channel0 co) (channel1 co) (f co))).
Proof.
  intros hs w HI. eexists. split; [reflexivity|]. split; [|done]. split.
  - apply inv_conns; [done|]. intros co _ Hok h. pose proof (Hok h). by destruct h.
  - eapply same_contents_alter; [|reflexivity]. by intros co [].
Qed.

#[export] Hint Resolve calm_ret calm_notes calm_unregister calm_release calm_close_both calm_close_reader
  calm_close_writer calm_refcount : socket.

(** What [close] does to the connection it takes. *)
Definition close_conn (st : UnixState) : UM unit :=
  match conn st with
  | None => retM tt
  | Some c =>
      co <-- connM c ;;
      upd_conn c (fun co => mkConn (channel0 co) (channel1 co) (u8 (refcount co - 1))) >>>
      if refcount co <=? 1 then close_both c Ch0 >>> close_both c Ch1
      else close_both c (writer_half st) >>> close_both c (reader_half st)
  end.

Lemma close_conn_quiet hs w st : inv hs w -> (forall c, conn st = Some c -> is_Some (w_conns w !! c)) ->
  exists w', close_conn st w = (Ok tt, w') /\ quiet hs w hs w' /\ same_states w w'.
Proof.
  intros HI Hc. unfold close_conn. destruct (conn st) as [c|]; [|by apply (calm_states _ calm_ret)].
  destruct (Hc c eq_refl) as [co Hco]. rewrite run_bind, (run_connM _ _ _ Hco).
  enough (Hcalm : calm same_states (upd_conn c (fun co => mkConn (channel0 co) (channel1 co) (u8 (refcount co - 1))) >>>
      if refcount co <=? 1 then close_both c Ch0 >>> close_both c Ch1
      else close_both c (writer_half st) >>> close_both c (reader_half st))) by by apply Hcalm.
  apply (calm_seq _); [auto with socket|]. destruct (_ <=? _); apply (calm_seq _); auto with socket.
Qed.

(** The state [close] leaves. *)
Definition closed_state (st : UnixState) : UnixState :=
  with_binding Unbound (bound_addr st) false (with_conn Unbound None (reader_half st) (writer_half st) None st).

(** [close] is [close_conn], after a part that only changes the socket itself and the
    registry. *)
Lemma close_run hs w k st : inv hs w -> w_states w !! s_state k = Some st ->
  exists w', inv hs w' /\ w_conns w' = w_conns w /\ w_states w' = alter closed_state (s_state k) (w_states w) /\
    close k w = close_conn st w'.
Proof.
  intros HI Hst. unfold close. rewrite run_bind, (run_stM _ _ _ Hst). fold (close_conn st).
  set (b := if owns_binding st then bound_addr st else None).
  set (w1 := set_states (alter closed_state (s_state k) (w_states w)) w).
  assert (I1 : inv hs w1) by (apply inv_states; [done|]; intros; split; [done|by left]).
  rewrite run_bind. cbn [upd_state modifyM]. fold closed_state. fold w1.
  match goal with |- context [(notes ?l >>> ?m) w1] => destruct (calm_before hs w1 (notes l) m) as (w2 & I2 & K2 & E2) end;
    [apply calm_notes|done|]. setoid_rewrite E2. rewrite run_bind.
  assert (Hm : forall m, calm kept m -> exists w', inv hs w' /\ w_conns w' = w_conns w /\
     w_states w' = alter closed_state (s_state k) (w_states w) /\
     (m >>> unregister_own (s_state k) b >>> close_conn st) w2 = close_conn st w').
  { intros m Hm. destruct (calm_before hs w2 m (unregister_own (s_state k) b >>> close_conn st) Hm I2) as (w3 & I3 & K3 & E3).
    destruct (calm_before hs w3 (unregister_own (s_state k) b) (close_conn st) (calm_unregister _ _) I3) as (w4 & I4 & K4 & E4).
    exists w4. destruct K2, K3, K4. split_and!; [done|cbn in *; congruence|cbn in *; congruence|by rewrite E3, E4]. }
  destruct (run_upgrade (dgram_peer st) w2) as [->|(p & -> & _)]; apply Hm; auto with socket.
Qed.

Lemma close_quiet hs w k : inv hs w -> is_Some (w_states w !! s_state k) ->
  exists w', close k w = (Ok tt, w') /\ quiet hs w hs w'.
Proof.
  intros HI [st Hst]. destruct (close_run hs w k st HI Hst) as (w1 & I1 & C1 & S1 & ->).
  destruct (close_conn_quiet hs w1 st I1) as (w2 & E & Q & _).
  { intros c Hc. rewrite C1. by destruct (inv_conn _ _ HI _ st c Hst Hc). }
  exists w2. split; [done|]. apply (quiet_trans _ hs _ _ w1); [by apply quiet_inv|done].
Qed.

Lemma drop_quiet hs w i k : inv hs w -> hs !! i = Some k -> quiet hs w (delete i hs) (drop_handle k w).2.
Proof.
  intros HI Hi. assert (Hk : k ∈ hs) by by eapply list_elem_of_lookup_2.
  pose proof (inv_live _ _ HI k Hk) as Hs. rewrite (delete_Permutation hs i k Hi) in HI. apply inv_drop in HI.
  unfold drop_handle. rewrite run_bind. cbn [getM]. rewrite run_bind. cbn [modifyM].
  set (w1 := mkWorld _ _ _ _ _ _) in *.
  assert (Hcl : exists w2, (match w_refs w !! s_state k with Some 1 => close k | _ => retM tt end) w1 = (Ok tt, w2) /\
                  quiet (delete i hs) w1 (delete i hs) w2).
  { destruct (w_refs w !! s_state k) as [[|[]|]|]; try (exists w1; split; [done|by apply quiet_refl]).
    by apply close_quiet. }
  destruct Hcl as (w2 & E & Q2). rewrite run_bind, E.
  destruct (calm_release (s_state k) _ _ (proj1 Q2)) as (w3 & E3 & Q3 & _). rewrite E3. cbn.
  apply (quiet_trans _ (delete i hs) _ _ w1); [by apply quiet_inv|by eapply quiet_trans].
Qed.

Lemma shutdown_quiet hs w k how : inv hs w -> k ∈ hs ->
  exists w', shutdown k how w = (Ok tt, w') /\ quiet hs w hs w'.
Proof.
  intros HI Hk. destruct (handle_state _ _ _ HI Hk) as [st Hst]. unfold shutdown. rewrite run_bind, (run_stM _ _ _ Hst).
  assert (H : forall m, calm same_states m -> exists w', m w = (Ok tt, w') /\ quiet hs w hs w').
  { intros m Hm. destruct (Hm hs w HI) as (w' & ? & ? & _). eauto. }
  destruct (negb _); [eauto with socket|]. destruct (conn st); [|eauto with socket].
  repeat case_match; apply H; [auto with socket|auto with socket|by apply (calm_seq _); auto with socket|apply calm_states, calm_ret].
Qed.

Lemma unlink_quiet hs w path : inv hs w -> quiet hs w hs (unregister_path path w).2.
Proof.
  intros HI.
  assert (H : calm anything (upd_registry (delete path) >>> match w_registry w !! path with Some s => release s | None => retM tt end)).
  { apply (calm_seq _); [by eapply calm_weaken, calm_registry_delete|].
    destruct (_ !! _); [by eapply calm_weaken, calm_release|by eapply calm_weaken, calm_ret]. }
  destruct (H hs w HI) as (w' & E & Q & _).
  change (unregister_path path w) with ((upd_registry (delete path) >>>
    match w_registry w !! path with Some s => release s | None => retM tt end) w). by rewrite E.
Qed.

(** *** Stream transfer *)

Lemma drain_spec room msgs d r rest : drain room msgs = (d, r, rest) ->
  d ++ concat (m_data <$> rest) = concat (m_data <$> msgs) /\
  r ++ concat (m_rights <$> rest) = concat (m_rights <$> msgs) /\
  length d = (room `min` length (concat (m_data <$> msgs)))%nat.
Proof.
  revert room d r rest. induction msgs as [|m msgs IH]; intros room d r rest; cbn [drain].
  - intros [= <- <- <-]. cbn. repeat split. lia.
  - destruct (Nat.eqb_spec room 0) as [->|Hr]; [by intros [= <- <- <-]|].
    rewrite !fmap_cons. cbn [concat]. rewrite length_app.
    destruct (Nat.eqb_spec (room `min` length (m_data m)) (length (m_data m))) as [Hle|Hgt].
    + rewrite Hle. destruct (drain _ msgs) as [[d' r'] rest'] eqn:E. intros [= <- <- <-].
      destruct (IH _ _ _ _ E) as (E1 & E2 & E3). rewrite <- !app_assoc, E1, E2, length_app, E3. repeat split. lia.
    + intros [= <- <- <-]. rewrite !fmap_cons. cbn [concat m_data m_rights].
      rewrite app_assoc, take_drop, length_take. repeat split. lia.
Qed.

Definition sent_bytes (c : nat) (h : Half) (x : xfer) : list Z :=
  match x with Sent c' h' d _ => if decide (c' = c /\ h' = h) then d else [] | Rcvd _ _ _ _ => [] end.
Definition sent_rights (c : nat) (h : Half) (x : xfer) : list PassedFile :=
  match x with Sent c' h' _ r => if decide (c' = c /\ h' = h) then r else [] | Rcvd _ _ _ _ => [] end.
Definition rcvd_bytes (c : nat) (h : Half) (x : xfer) : list Z :=
  match x with Rcvd c' h' d _ => if decide (c' = c /\ h' = h) then d else [] | Sent _ _ _ _ => [] end.
Definition rcvd_rights (c : nat) (h : Half) (x : xfer) : list PassedFile :=
  match x with Rcvd c' h' _ r => if decide (c' = c /\ h' = h) then r else [] | Sent _ _ _ _ => [] end.

(** Everything received, then everything buffered, is everything sent. *)
Definition fifo (l : list xfer) (w : World) : Prop :=
  forall c h, concat (rcvd_bytes c h <$> l) ++ (content w c h).1 = concat (sent_bytes c h <$> l) /\
              concat (rcvd_rights c h <$> l) ++ (content w c h).2 = concat (sent_rights c h <$> l).

Lemma fifo_quiet l w w' : same_contents w w' -> fifo l w -> fifo l w'.
Proof. intros Hs Hf c h. rewrite Hs. apply Hf. Qed.

Lemma content_eq w c co h : w_conns w !! c = Some co ->
  content w c h = (chan_bytes (channel h co), chan_rights (channel h co)).
Proof. intros H. unfold content. by rewrite H. Qed.

(** One channel of one connection changes its contents. *)
Lemma content_upd w c co h f ns c' h' : w_conns w !! c = Some co ->
  content (mkWorld (w_states w) (alter (fun co => set_channel h (f (channel h co)) co) c (w_conns w)) (w_refs w)
             (w_registry w) (w_next w) ns) c' h' =
  if decide (c = c' /\ h = h') then (chan_bytes (f (channel h co)), chan_rights (f (channel h co))) else content w c' h'.
Proof.
  intros H. unfold content. cbn [w_conns]. rewrite lookup_alter. destruct (decide (c = c')) as [<-|Hne].
  - rewrite H. cbn. rewrite channel_set. destruct (decide (h = h')) as [<-|Hh].
    + rewrite !decide_True by done. done.
    + rewrite (decide_False (P := h' = h)) by done. rewrite decide_False by (by intros []). done.
  - rewrite decide_False by (by intros []). done.
Qed.

Lemma fifo_sent l w c co h f ns d r : w_conns w !! c = Some co ->
  chan_bytes (f (channel h co)) = chan_bytes (channel h co) ++ d ->
  chan_rights (f (channel h co)) = chan_rights (channel h co) ++ r ->
  fifo l w ->
  fifo (l ++ [Sent c h d r]) (mkWorld (w_states w) (alter (fun co => set_channel h (f (channel h co)) co) c (w_conns w))
    (w_refs w) (w_registry w) (w_next w) ns).
Proof.
  intros Hco Hd Hr Hf c' h'. destruct (Hf c' h') as [F1 F2]. rewrite (content_upd _ _ _ _ _ _ _ _ Hco).
  rewrite !fmap_app, !concat_app. cbn [concat fmap list_fmap sent_bytes sent_rights rcvd_bytes rcvd_rights]. rewrite !app_nil_r.
  case_decide as E; [destruct E as [<- <-]|by rewrite !app_nil_r].
  rewrite (content_eq _ _ _ _ Hco) in F1, F2. cbn [fst snd] in *. rewrite Hd, Hr, <- F1, <- F2, !app_assoc. done.
Qed.

Lemma fifo_rcvd l w c co h f ns d r : w_conns w !! c = Some co ->
  d ++ chan_bytes (f (channel h co)) = chan_bytes (channel h co) ->
  r ++ chan_rights (f (channel h co)) = chan_rights (channel h co) ->
  fifo l w ->
  fifo (l ++ [Rcvd c h d r]) (mkWorld (w_states w) (alter (fun co => set_channel h (f (channel h co)) co) c (w_conns w))
    (w_refs w) (w_registry w) (w_next w) ns).
Proof.
  intros Hco Hd Hr Hf c' h'. destruct (Hf c' h') as [F1 F2]. rewrite (content_upd _ _ _ _ _ _ _ _ Hco).
  rewrite !fmap_app, !concat_app. cbn [concat fmap list_fmap sent_bytes sent_rights rcvd_bytes rcvd_rights]. rewrite !app_nil_r.
  case_decide as E; [destruct E as [<- <-]|by rewrite !app_nil_r].
  rewrite (content_eq _ _ _ _ Hco) in F1, F2. cbn [fst snd] in *. rewrite <- F1, <- F2, <- Hd, <- Hr, <- !app_assoc. done.
Qed.

Lemma fifo_empty l w c h : fifo l w -> fifo (l ++ [Sent c h [] []]) w /\ fifo (l ++ [Rcvd c h [] []]) w.
Proof.
  intros Hf. split; intros c' h'; rewrite !fmap_app, !concat_app; cbn [concat fmap list_fmap sent_bytes sent_rights rcvd_bytes rcvd_rights];
    rewrite !app_nil_r; repeat case_match; rewrite ?app_nil_r; apply Hf.
Qed.

(** The state of a run: the invariant, and the discipline of the streams. *)
Definition good (hs : list UnixSocket) (l : list xfer) (w : World) : Prop := inv hs w /\ fifo l w.

Lemma good_quiet hs hs' l w w' : quiet hs w hs' w' -> good hs l w -> good hs' l w'.
Proof. intros [H1 H2] [_ H3]. split; [done|by eapply fifo_quiet]. Qed.

Lemma upd_channel_inv hs w c co h f ns : inv hs w -> w_conns w !! c = Some co ->
  chan_ok (f (channel h co)) ->
  inv hs (mkWorld (w_states w) (alter (fun co => set_channel h (f (channel h co)) co) c (w_conns w)) (w_refs w)
             (w_registry w) (w_next w) ns).
Proof.
  intros HI Hco Hok.
  pose proof (inv_conns hs w c (fun co => set_channel h (f (channel h co)) co) HI) as H.
  apply (inv_other_fields _ _ ns) in H; [done|]. intros co' Hco' Hall h'. rewrite channel_set.
  case_decide; [|done]. by assert (co' = co) as -> by congruence.
Qed.

Lemma recv_turn_good hs l w c h room nb sig : good hs l w -> is_Some (w_conns w !! c) ->
  let '(r, w') := recv_turn c h room nb sig w in
  r <> Panic /\
  good hs (l ++ match r with Ok (Got m) => [Rcvd c h (m_data m) (m_rights m)] | _ => [] end) w'.
Proof.
  intros [HI Hf] [co Hco]. unfold recv_turn. rewrite run_bind, (run_connM _ _ _ Hco).
  destruct (ch_readable (channel h co)).
  - destruct (drain room (messages (channel h co))) as [[d r] rest] eqn:E.
    destruct (drain_spec _ _ _ _ _ E) as (E1 & E2 & E3). cbn. split; [done|].
    set (f := fun ch : Channel => mkChannel rest (buffered_len ch - length d) (read_closed ch) (write_closed ch)).
    split.
    + apply (upd_channel_inv hs w c co h f _ HI Hco). destruct (inv_chan _ _ HI c co h Hco) as [B1 B2].
      unfold chan_ok, f, chan_bytes in *. cbn [buffered_len messages]. rewrite B1 in *. rewrite <- E1, length_app in *. lia.
    + by apply (fifo_rcvd l w c co h f).
  - destruct (read_closed (channel h co)); [cbn; split; [done|split; [done|by apply fifo_empty]]|].
    destruct nb; [|destruct sig]; cbn; rewrite app_nil_r; done.
Qed.

Lemma write_turn_good hs l w c h data rights nb sig : good hs l w -> is_Some (w_conns w !! c) ->
  let '(r, w') := write_turn c h data rights nb sig w in
  r <> Panic /\
  good hs (l ++ match r with Ok (Got n) => [Sent c h (take n data) rights] | _ => [] end) w'.
Proof.
  intros [HI Hf] [co Hco]. unfold write_turn. rewrite run_bind, (run_connM _ _ _ Hco).
  destruct (write_closed (channel h co)); [cbn; by rewrite app_nil_r|].
  destruct (inv_chan _ _ HI c co h Hco) as [B1 B2].
  cbv zeta. set (available := (CHANNEL_CAPACITY - buffered_len (channel h co))%nat).
  set (count := if (length data <=? CHANNEL_CAPACITY)%nat then length data else (available `min` length data)%nat).
  destruct (if (length data <=? CHANNEL_CAPACITY)%nat then (length data <=? available)%nat else (0 <? available)%nat) eqn:Ecan.
  - cbn. split; [done|].
    set (f := fun ch : Channel => mkChannel (messages ch ++ [mkMessage (take count data) rights None false])
                                   (buffered_len ch + count) (read_closed ch) (write_closed ch)).
    assert (Hd : chan_bytes (f (channel h co)) = chan_bytes (channel h co) ++ take count data).
    { unfold f, chan_bytes. cbn [messages]. rewrite fmap_app, concat_app. cbn. by rewrite app_nil_r. }
    split.
    + apply (upd_channel_inv hs w c co h f _ HI Hco). split.
      * rewrite Hd, length_app, length_take, <- B1. cbn. subst count available. case_match; lia.
      * cbn. subst count available. case_match; lia.
    + apply (fifo_sent l w c co h f); [done|done| |done].
      unfold f, chan_rights. cbn [messages]. rewrite fmap_app, concat_app. cbn. by rewrite app_nil_r.
  - destruct nb; [|destruct sig]; cbn; rewrite app_nil_r; done.
Qed.

(** The stream of a handle, before and after [connection_of]. *)
Lemma connection_of_run hs w k st : inv hs w -> w_states w !! s_state k = Some st -> sock_type st = Stream ->
  match stream_conn w k with
  | Some (c, rd, wr) => connection_of (s_state k) w = (Ok (c, rd, wr), w) /\ is_Some (w_conns w !! c)
  | None => connection_of (s_state k) w = (Err (Errno ENOTCONN), w)
  end.
Proof.
  intros HI Hst Ht. unfold stream_conn, connection_of. rewrite Hst. cbn. rewrite run_bind, (run_stM _ _ _ Hst).
  destruct (conn st) as [c|] eqn:Ec; cbn.
  - destruct (decide (role st = Connected)) as [Hr|Hr].
    + rewrite bool_decide_true by done. rewrite (bool_decide_true (role st = Connected)) by done. split; [done|].
      by destruct (inv_conn _ _ HI _ _ _ Hst Ec).
    + rewrite bool_decide_false by (by intros []). by rewrite (bool_decide_false (role st = Connected)).
  - by destruct (negb _).
Qed.

Lemma stream_conn_dgram w k st : w_states w !! s_state k = Some st -> sock_type st = Dgram -> stream_conn w k = None.
Proof.
  intros H Ht. unfold stream_conn. rewrite H. cbn. destruct (conn st); [|done]. cbn.
  rewrite bool_decide_false; [done|]. intros []. congruence.
Qed.

Lemma recv_msg_good hs l w k room nb sig : good hs l w -> k ∈ hs ->
  let '(r, w') := recv_msg k room nb sig w in r <> Panic /\ good hs (l ++ rcvd w k r) w'.
Proof.
  intros [HI Hf] Hk. destruct (handle_state _ _ _ HI Hk) as [st Hst].
  unfold recv_msg, get_sock_type. rewrite !run_bind, (run_stM _ _ _ Hst). cbn [retM].
  destruct (sock_type st) eqn:Ht.
  - pose proof (connection_of_run _ _ _ _ HI Hst Ht) as Hc. unfold stream_recv_impl, rcvd. rewrite run_bind.
    destruct (stream_conn w k) as [[[c rd] wr]|].
    + destruct Hc as [-> Hco]. pose proof (recv_turn_good hs l w c rd room nb sig (conj HI Hf) Hco) as H.
      destruct (recv_turn _ _ _ _ _ _) as [[[]| |] w']; done.
    + rewrite Hc. cbn. by rewrite app_nil_r.
  - pose proof (dgram_recv_quiet _ _ _ room nb sig HI Hk) as H. destruct (dgram_recv_msg_impl _ _ _ _ _) as [r w'].
    destruct H as [Hr Hq]. split; [done|]. apply (good_quiet _ _ _ _ _ Hq). unfold rcvd.
    rewrite (stream_conn_dgram _ _ _ Hst Ht). by destruct r as [[]| |]; rewrite app_nil_r.
Qed.

Lemma send_msg_good hs l w k data rights dest nb sig : good hs l w -> k ∈ hs ->
  let '(r, w') := send_msg k data rights dest nb sig w in r <> Panic /\ good hs (l ++ sent w k data rights r) w'.
Proof.
  intros [HI Hf] Hk. destruct (handle_state _ _ _ HI Hk) as [st Hst].
  unfold send_msg, get_sock_type. rewrite !run_bind, (run_stM _ _ _ Hst). cbn [retM].
  destruct (sock_type st) eqn:Ht.
  - pose proof (connection_of_run _ _ _ _ HI Hst Ht) as Hc. unfold stream_write_impl, sent.
    destruct (decide (data = [] /\ rights = [])) as [[-> ->]|Hne].
    { cbn. split; [done|]. destruct (stream_conn w k) as [[[c rd] wr]|]; [by split; [|apply fifo_empty]|by rewrite app_nil_r]. }
    assert (Hm : forall x y : UM (Wait nat), match data, rights with [], [] => x | _, _ => y end = y).
    { intros x y. destruct data, rights; try done. by destruct Hne. }
    rewrite Hm, run_bind. destruct (stream_conn w k) as [[[c rd] wr]|].
    + destruct Hc as [-> Hco]. pose proof (write_turn_good hs l w c wr data rights nb sig (conj HI Hf) Hco) as H.
      destruct (write_turn _ _ _ _ _ _ _) as [[[]| |] w']; done.
    + rewrite Hc. cbn. by rewrite app_nil_r.
  - rewrite run_bind. pose proof (dgram_send_quiet _ _ _ data rights dest HI Hk) as H.
    destruct (dgram_send_impl _ _ _ _ _) as [r w']. destruct H as [Hr Hq]. unfold sent.
    rewrite (stream_conn_dgram _ _ _ Hst Ht).
    destruct r; cbn; [|rewrite app_nil_r|done]; (split; [done|]); rewrite ?app_nil_r; by apply (good_quiet _ _ _ _ _ Hq).
Qed.

Definition sys_good (s : Sys) : Prop := good (sy_handles s) (sy_log s) (sy_world s).

Lemma sys_step_good s e : sys_good s -> sys_good (sys_step s e).
Proof.
  intros HG. assert (HI := proj1 HG). unfold sys_good. destruct s as [w hs l]; cbn in *.
  destruct e as [t|t cred|i|i a|i|i a cred|i sig|i data rights dest nb sig|i room nb sig|i how|i|p];
    unfold sys_step, on_handle; cbn [sy_world sy_handles sy_log]; try (destruct (hs !! i) as [k|] eqn:Hi; [|done];
      assert (Hk : k ∈ hs) by (by eapply list_elem_of_lookup_2)).
  - destruct (new_socket_quiet hs w t HI) as (k & w' & -> & Q). by apply (good_quiet _ _ _ _ _ Q).
  - destruct (pair_quiet hs w t cred HI) as (x & w' & -> & Q). by apply (good_quiet _ _ _ _ _ Q).
  - exact (good_quiet _ _ _ _ _ (clone_quiet hs w k HI Hk) HG).
  - pose proof (bind_quiet hs w i k a HI Hi) as H. destruct (bind k a w). by apply (good_quiet _ _ _ _ _ (proj2 H)).
  - pose proof (listen_quiet hs w k 0 HI Hk) as H. destruct (listen k 0 w). by apply (good_quiet _ _ _ _ _ (proj2 H)).
  - pose proof (connect_quiet hs w i k a cred HI Hi) as H. destruct (connect k a cred w). by apply (good_quiet _ _ _ _ _ (proj2 H)).
  - pose proof (accept_quiet hs w k sig HI Hk) as H. destruct (accept_new k sig w). by apply (good_quiet _ _ _ _ _ (proj2 H)).
  - pose proof (send_msg_good hs l w k data rights dest nb sig HG Hk) as H. destruct (send_msg _ _ _ _ _ _ _). apply H.
  - pose proof (recv_msg_good hs l w k room nb sig HG Hk) as H. destruct (recv_msg _ _ _ _ _). apply H.
  - destruct (shutdown_quiet hs w k how HI Hk) as (w' & -> & Q). by apply (good_quiet _ _ _ _ _ Q).
  - exact (good_quiet _ _ _ _ _ (drop_quiet hs w i k HI Hi) HG).
  - exact (good_quiet _ _ _ _ _ (unlink_quiet hs w p HI) HG).
Qed.

Lemma sys_new_good : sys_good Sys_new.
Proof.
  split; [|done].
  split; cbn [sy_world sy_handles Sys_new World_new w_states w_conns w_refs w_registry w_next];
    try (intros; by simplify_map_eq).
  intros k Hk. by apply not_elem_of_nil in Hk.
Qed.

Lemma run_calls_good es : sys_good (run_calls es).
Proof.
  unfold run_calls. generalize sys_new_good. generalize Sys_new.
  induction es as [|e es IH]; intros s Hs; [done|]. by apply IH, sys_step_good.
Qed.

(** ** Claims *)

(** C12. Two ends of a local stream connection, whatever calls made and used it: one end writes the channel the other reads; the bytes received followed by those still buffered are exactly the bytes sent, in order; the same holds of the passed files; at most 4096 bytes are buffered. *)
Theorem stream_delivery (es : list call) (a b c : nat) (sta stb : UnixState) :
  let s := run_calls es in
  let w := sy_world s in
  a <> b -> w_states w !! a = Some sta -> w_states w !! b = Some stb -> conn sta = Some c -> conn stb = Some c ->
  let h := writer_half sta in
  reader_half stb = h /\
  concat (rcvd_bytes c h <$> sy_log s) ++ (content w c h).1 = concat (sent_bytes c h <$> sy_log s) /\
  concat (rcvd_rights c h <$> sy_log s) ++ (content w c h).2 = concat (sent_rights c h <$> sy_log s) /\
  (length (content w c h).1 <= CHANNEL_CAPACITY)%nat.
Proof.
  intros s w Hne Ha Hb Hca Hcb h. destruct (run_calls_good es) as [HI Hf].
  split; [apply (inv_pair _ _ HI b a stb sta c); auto|]. destruct (Hf c h) as [F1 F2]. split; [exact F1|]. split; [exact F2|].
  destruct (inv_conn _ _ HI a sta c Ha Hca) as [[co Hco] _]. fold s w in HI.
  unfold w. rewrite (content_eq _ _ _ _ Hco). cbn. destruct (inv_chan _ _ HI c co h Hco) as [<- ?]. done.
Qed.

(** The run of the witness: a pair, a send with a file, a partial receive. *)
Definition pair_run : list call :=
  [CPair Stream (mkCred 1 0 0); CSend 0 [10; 20; 30] [7%nat] None true false; CRecv 1 2 true false].

Lemma stream_delivery_witness :
  let s := run_calls pair_run in
  concat (rcvd_bytes 0 Ch0 <$> sy_log s) = [10; 20] /\ (content (sy_world s) 0 Ch0).1 = [30] /\
  concat (rcvd_bytes 0 Ch0 <$> sy_log s) ++ (content (sy_world s) 0 Ch0).1 = concat (sent_bytes 0 Ch0 <$> sy_log s).
Proof.
  split; [vm_compute; reflexivity|]. split; [vm_compute; reflexivity|].
  exact (proj1 (proj2 (stream_delivery pair_run 1 2 0 (connected_state Stream 0 Ch1 Ch0) (connected_state Stream 0 Ch0 Ch1)
    ltac:(lia) ltac:(vm_compute; reflexivity) ltac:(vm_compute; reflexivity) eq_refl eq_refl))).
Defined.

(** *** The end of a connection *)

Lemma upd_channel_lookup w c co h f ns :
  w_conns w !! c = Some co ->
  w_conns (notes ns (upd_channel c h f w).2).2 !! c = Some (set_channel h (f (channel h co)) co).
Proof. intros H. cbn. by rewrite lookup_alter_eq, H. Qed.

Definition closed_channel (ch : Channel) : Channel := mkChannel (messages ch) (buffered_len ch) true true.

Lemma close_conn_closes st w c co : conn st = Some c -> w_conns w !! c = Some co ->
  reader_half st = other (writer_half st) ->
  exists co', w_conns (close_conn st w).2 !! c = Some co' /\ forall h, channel h co' = closed_channel (channel h co).
Proof.
  intros Hc Hco Hh. unfold close_conn. rewrite Hc, run_bind, (run_connM _ _ _ Hco).
  destruct (refcount co <=? 1); unfold close_both; cbn; rewrite !lookup_alter_eq, Hco; cbn; eexists; (split; [reflexivity|]).
  - by intros [].
  - intros h. rewrite Hh. by destruct h, (writer_half st).
Qed.

(** Dropping the last handle of an endpoint closes both channels and leaves the other
    sockets. *)
Lemma drop_closes hs w i k st c co : inv hs w -> hs !! i = Some k -> live hs (s_state k) = 1%nat ->
  w_states w !! s_state k = Some st -> conn st = Some c -> w_conns w !! c = Some co ->
  (forall s', s' <> s_state k -> w_states (drop_handle k w).2 !! s' = w_states w !! s') /\
  exists co', w_conns (drop_handle k w).2 !! c = Some co' /\ forall h, channel h co' = closed_channel (channel h co).
Proof.
  intros HI Hi Hlive Hst Hc Hco. destruct (inv_conn _ _ HI _ _ _ Hst Hc) as [_ Hh].
  pose proof (inv_refs _ _ HI (s_state k)) as Hr. rewrite Hlive in Hr. change (Z.of_nat 1) with 1 in Hr.
  assert (Hr1 : w_refs w !! s_state k = Some 1) by (destruct (w_refs w !! s_state k); cbn in Hr; congruence).
  rewrite (delete_Permutation hs i k Hi) in HI. apply inv_drop in HI.
  unfold drop_handle. rewrite run_bind. cbn [getM]. rewrite run_bind. cbn [modifyM]. rewrite Hr1.
  set (w1 := mkWorld _ _ _ _ _ _) in *. rewrite run_bind.
  destruct (close_run _ w1 k st HI Hst) as (w2 & I2 & C2 & S2 & ->).
  destruct (close_conn_quiet _ w2 st I2) as (w3 & E3 & Q3 & K3).
  { intros c' Hc'. rewrite Hc in Hc'. injection Hc' as <-. rewrite C2. by eexists. }
  destruct (close_conn_closes st w2 c co Hc) as (co' & L & Hch); [by rewrite C2|done|]. rewrite E3 in *.
  destruct (calm_release (s_state k) _ _ (proj1 Q3)) as (w4 & E4 & _ & R1 & R2). rewrite E4. cbn in *. split.
  - intros s' Hne. rewrite <- (R2 s' Hne), <- K3, S2. by rewrite lookup_alter_ne.
  - exists co'. by rewrite <- R1.
Qed.

Lemma drain_take room msgs : (drain room msgs).1.1 = take room (concat (m_data <$> msgs)).
Proof.
  destruct (drain room msgs) as [[d r] rest] eqn:E. destruct (drain_spec _ _ _ _ _ E) as (<- & _ & Hl). cbn.
  rewrite length_app in Hl. destruct (decide (room <= length d)%nat).
  - rewrite take_app_le by done. rewrite take_ge by lia. done.
  - assert (Hr : length (concat (m_data <$> rest)) = 0%nat) by lia. apply nil_length_inv in Hr. rewrite Hr, app_nil_r, take_ge by lia. done.
Qed.

Lemma drain_drop room msgs : concat (m_data <$> (drain room msgs).2) = drop room (concat (m_data <$> msgs)).
Proof.
  pose proof (drain_take room msgs) as Ht. destruct (drain room msgs) as [[d r] rest] eqn:E. destruct (drain_spec _ _ _ _ _ E) as (Ha & _ & _).
  cbn in *. rewrite <- Ha in *. apply (app_inv_head d). rewrite Ht at 2. by rewrite take_drop.
Qed.

(** A connection whose channels are closed: receiving takes from the channel and leaves it
    so. *)
Definition hung_up (w : World) (c : nat) (h : Half) (bytes : list Z) : Prop :=
  exists co, w_conns w !! c = Some co /\ (forall h', read_closed (channel h' co) = true /\ write_closed (channel h' co) = true) /\
    chan_bytes (channel h co) = bytes.

Lemma recv_closed w c h room nb sig bytes : hung_up w c h bytes ->
  exists m w1, recv_turn c h room nb sig w = (Ok (Got m), w1) /\ m_data m = take room bytes /\
    w_states w1 = w_states w /\ hung_up w1 c h (drop room bytes).
Proof.
  intros (co & Hco & Hcl & <-). unfold recv_turn. rewrite run_bind, (run_connM _ _ _ Hco). unfold ch_readable, chan_bytes.
  destruct (messages (channel h co)) as [|m ms] eqn:Em.
  - rewrite (proj1 (Hcl h)). eexists _, w. split; [reflexivity|]. cbn. rewrite take_nil, drop_nil. split_and!; [done..|].
    exists co. split_and!; [done..|]. unfold chan_bytes. by rewrite Em.
  - pose proof (drain_take room (m :: ms)) as Ht. pose proof (drain_drop room (m :: ms)) as Hd.
    destruct (drain room (m :: ms)) as [[d r] rest]. eexists _, _. split; [reflexivity|]. split; [exact Ht|]. split; [done|].
    eexists. split; [cbn; by rewrite lookup_alter_eq, Hco|]. split; [|rewrite channel_set, decide_True by done; exact Hd].
    intros h'. rewrite channel_set. case_decide; [subst h'|]; apply Hcl.
Qed.

Lemma write_closed_pipe w c h h' data rights nb sig bytes : hung_up w c h' bytes ->
  write_turn c h data rights nb sig w = (Err (Errno EPIPE), w).
Proof. intros (co & Hco & Hcl & _). unfold write_turn. by rewrite run_bind, (run_connM _ _ _ Hco), (proj2 (Hcl h)). Qed.

(** Receives one after another, each with the room it has and whether it may wait. *)
Fixpoint recvs (k : UnixSocket) (rs : list (nat * bool * bool)) : UM (list (Wait UnixMessage)) :=
  match rs with
  | [] => retM []
  | (room, nb, sig) :: rs => m <-- recv_msg k room nb sig ;; ms <-- recvs k rs ;; retM (m :: ms)
  end.

(** Bytes handed out in order, each time as many as fit. *)
Fixpoint chunks (rooms : list nat) (bytes : list Z) : list (list Z) :=
  match rooms with [] => [] | room :: rooms => take room bytes :: chunks rooms (drop room bytes) end.

(** They are all handed out once there was room for them. *)
Lemma chunks_all rooms bytes : (length bytes <= sum_list rooms)%nat -> concat (chunks rooms bytes) = bytes.
Proof.
  revert bytes. induction rooms as [|r rooms IH]; intros bytes Hl; cbn in *; [symmetry; apply nil_length_inv; lia|].
  rewrite IH by (rewrite length_drop; lia). apply take_drop.
Qed.

Section survivor.
Context (kb : UnixSocket) (stb : UnixState) (c : nat) (Ht : sock_type stb = Stream) (Hrole : role stb = Connected) (Hc : conn stb = Some c).

Lemma survivor_connection w : w_states w !! s_state kb = Some stb ->
  connection_of (s_state kb) w = (Ok (c, reader_half stb, writer_half stb), w).
Proof. intros Hb. unfold connection_of. by rewrite run_bind, (run_stM _ _ _ Hb), Hrole, Hc. Qed.

Lemma survivor_recv room nb sig w bytes : w_states w !! s_state kb = Some stb -> hung_up w c (reader_half stb) bytes ->
  exists m w1, recv_msg kb room nb sig w = (Ok (Got m), w1) /\ m_data m = take room bytes /\
    w_states w1 !! s_state kb = Some stb /\ hung_up w1 c (reader_half stb) (drop room bytes).
Proof.
  intros Hb Hh. unfold recv_msg, get_sock_type. rewrite !run_bind, (run_stM _ _ _ Hb). cbn [retM]. rewrite Ht.
  unfold stream_recv_impl. rewrite run_bind, survivor_connection by done.
  destruct (recv_closed w c (reader_half stb) room nb sig bytes Hh) as (m & w1 & -> & Hm & Hs & Hh1).
  exists m, w1. by rewrite Hs.
Qed.

Lemma survivor_recvs rs w bytes : w_states w !! s_state kb = Some stb -> hung_up w c (reader_half stb) bytes ->
  exists ms w1, recvs kb rs w = (Ok (Got <$> ms), w1) /\ m_data <$> ms = chunks rs.*1.*1 bytes /\
    w_states w1 !! s_state kb = Some stb /\ hung_up w1 c (reader_half stb) (drop (sum_list rs.*1.*1) bytes).
Proof.
  revert w bytes. induction rs as [|[[room nb] sig] rs IH]; intros w bytes Hb Hh; [by exists [], w|]. cbn [recvs]. rewrite run_bind.
  destruct (survivor_recv room nb sig w bytes Hb Hh) as (m & w1 & -> & Hm & Hb1 & Hh1).
  destruct (IH w1 (drop room bytes) Hb1 Hh1) as (ms & w2 & E & Hms & Hb2 & Hr). rewrite drop_drop in Hr.
  exists (m :: ms), w2. rewrite run_bind, E. split_and!; [done| |done|done]. rewrite !fmap_cons. cbn. by rewrite Hm, Hms.
Qed.

Lemma survivor_send w h bytes data rights nb sig : w_states w !! s_state kb = Some stb -> hung_up w c h bytes -> data <> [] \/ rights <> [] ->
  (send_msg kb data rights None nb sig w).1 = Err (Errno EPIPE).
Proof.
  intros Hb Hh Hne. unfold send_msg, get_sock_type. rewrite !run_bind, (run_stM _ _ _ Hb). cbn [retM]. rewrite Ht.
  unfold stream_write_impl.
  assert (Hm : forall x y : UM (Wait nat), match data, rights with [], [] => x | _, _ => y end = y).
  { intros x y. destruct data, rights; try done. by destruct Hne. }
  by rewrite Hm, run_bind, survivor_connection, (write_closed_pipe w c _ h _ _ _ _ bytes).
Qed.
End survivor.

(** C25. When the last handle of one end of a stream connection is dropped, and the other end was not bound again since it connected: any sequence of receives at the other end, of any sizes, gets what was buffered, cut by those sizes and in order, without waiting; once there was room for all of it they have received exactly that, and every further receive gets the end of the stream; and a send of bytes or files fails with EPIPE. *)
Theorem peer_sees_close (es : list call) (i j : nat) (ka kb : UnixSocket) (sta stb : UnixState) (c : nat) (rs : list (nat * bool * bool)) :
  let s := run_calls es in
  let w := sy_world s in
  sy_handles s !! i = Some ka -> sy_handles s !! j = Some kb -> s_state ka <> s_state kb ->
  live (sy_handles s) (s_state ka) = 1%nat ->
  w_states w !! s_state ka = Some sta -> w_states w !! s_state kb = Some stb ->
  conn sta = Some c -> conn stb = Some c -> sock_type stb = Stream -> role stb = Connected ->
  let w' := sy_world (sys_step s (CDrop i)) in
  let buffered := (content w c (reader_half stb)).1 in
  exists ms w'', recvs kb rs w' = (Ok (Got <$> ms), w'') /\
    m_data <$> ms = chunks rs.*1.*1 buffered /\
    ((length buffered <= sum_list rs.*1.*1)%nat ->
       concat (m_data <$> ms) = buffered /\
       forall room nb sig, exists m, (recv_msg kb room nb sig w'').1 = Ok (Got m) /\ m_data m = []) /\
    (forall data rights nb sig, data <> [] \/ rights <> [] ->
       (send_msg kb data rights None nb sig w'').1 = Err (Errno EPIPE)).
Proof.
  intros s w Hi Hj Hne Hlive Ha Hb Hca Hcb Ht Hrole. destruct (run_calls_good es) as [HI _]. fold s w in HI.
  destruct (inv_conn _ _ HI _ _ _ Ha Hca) as [[co Hco] _].
  destruct (drop_closes _ _ i ka sta c co HI Hi Hlive Ha Hca Hco) as [Hs' (co' & Hco' & Hch)].
  intros w' buffered. assert (Ew : w' = (drop_handle ka w).2) by (unfold w', sys_step, on_handle; by rewrite Hi). rewrite <- Ew in *.
  assert (Hb' : w_states w' !! s_state kb = Some stb) by (rewrite Hs'; congruence).
  assert (Hh : hung_up w' c (reader_half stb) buffered).
  { exists co'. split; [done|]. split; [intros h'; by rewrite Hch|]. unfold buffered. by rewrite Hch, (content_eq _ _ _ _ Hco). }
  destruct (survivor_recvs kb stb c Ht Hrole Hcb rs w' buffered Hb' Hh) as (ms & w'' & E & Hms & Hb2 & Hr).
  exists ms, w''. split; [exact E|]. split; [exact Hms|]. split.
  - intros Hl. split; [by rewrite Hms, chunks_all|]. intros room nb sig. rewrite drop_ge in Hr by done.
    destruct (survivor_recv kb stb c Ht Hrole Hcb room nb sig w'' [] Hb2 Hr) as (m & w1 & -> & Hm & _).
    exists m. by rewrite take_nil in Hm.
  - intros data rights nb sig Hne'. by eapply (survivor_send kb stb c).
Qed.

Lemma peer_sees_close_witness :
  let w' := sy_world (sys_step (run_calls pair_run) (CDrop 0)) in
  let kb := mkSocket 2 0 (Some (mkCred 1 0 0)) in
  exists ms w'', recvs kb [(0%nat, true, true); (9%nat, false, false); (9%nat, false, false)] w' = (Ok (Got <$> ms), w'') /\
    m_data <$> ms = [[]; [30]; []] /\
    (send_msg kb [1] [] None false false w'').1 = Err (Errno EPIPE).
Proof.
  intros w' kb.
  destruct (peer_sees_close pair_run 0 1 (mkSocket 1 0 (Some (mkCred 1 0 0))) kb
    (connected_state Stream 0 Ch1 Ch0) (connected_state Stream 0 Ch0 Ch1) 0 [(0%nat, true, true); (9%nat, false, false); (9%nat, false, false)]
    ltac:(vm_compute; reflexivity) ltac:(vm_compute; reflexivity) ltac:(cbn; lia) ltac:(vm_compute; reflexivity)
    ltac:(vm_compute; reflexivity) ltac:(vm_compute; reflexivity) eq_refl eq_refl eq_refl eq_refl) as (ms & w'' & E & Hm & _ & Hs).
  exists ms, w''. split; [exact E|]. split; [rewrite Hm; vm_compute; reflexivity|]. apply Hs. left. discriminate.
Defined.

(** ** Addresses *)

Lemma find_zero_none l : Forall (fun b => b <> 0) l -> list_find (fun b => b = 0) l = None.
Proof. by rewrite list_find_None. Qed.

Lemma find_zero_app l r : Forall (fun b => b <> 0) l -> list_find (fun b => b = 0) (l ++ 0 :: r) = Some (length l, 0).
Proof.
  intros H. apply list_find_Some. rewrite list_lookup_middle by done. split_and!; [done|done|].
  intros j y Hj Hlt. rewrite lookup_app_l in Hj by done. by apply (Forall_lookup_1 _ _ _ _ H Hj).
Qed.

Lemma addr_as_bytes_eq path : (slen path <= UNIX_PATH_MAX)%nat ->
  addr_as_bytes path = as_bytes path ++ replicate (UNIX_PATH_MAX - slen path) 0.
Proof.
  intros H. unfold addr_as_bytes, store. rewrite take_0, Nat.min_l by lia. cbn [app Nat.add].
  unfold slen in *. rewrite firstn_all. by rewrite drop_replicate.
Qed.

(** An address written out for a process and read back is the same address, when
    it is a possible path: text without a zero byte, not empty, of at most 108 bytes. *)
Theorem unix_addr_round_trip (path : string) :
  valid_str path -> Forall (fun b => b <> 0) (as_bytes path) -> (0 < slen path <= UNIX_PATH_MAX)%nat ->
  length (addr_as_bytes path) = UNIX_PATH_MAX /\
  addr_from_bytes (addr_as_bytes path) = Ok path /\ addr_len path = Z.of_nat (slen path) + 3.
Proof.
  intros Hv Hnz Hlen. rewrite addr_as_bytes_eq by lia.
  assert (HL : length (as_bytes path ++ replicate (UNIX_PATH_MAX - slen path) 0) = UNIX_PATH_MAX)
    by (rewrite length_app, length_replicate; fold (slen path); lia).
  split; [done|]. split.
  - unfold addr_from_bytes. rewrite HL. cbn [UNIX_PATH_MAX Nat.eqb].
    assert (E : default UNIX_PATH_MAX (fst <$> list_find (fun b => b = 0) (as_bytes path ++ replicate (UNIX_PATH_MAX - slen path) 0)) = slen path).
    { destruct (UNIX_PATH_MAX - slen path)%nat eqn:En.
      - rewrite app_nil_r, find_zero_none by done. cbn. lia.
      - cbn [replicate]. by rewrite find_zero_app. }
    rewrite E, Nat.min_l by lia. destruct (Nat.eqb_spec (slen path) 0); [lia|].
    unfold slen. rewrite take_app_length. unfold valid_str in Hv. by rewrite Hv, of_as_bytes.
  - unfold addr_len. rewrite Nat.min_l by lia. unfold wrap, UNIX_PATH_MAX in *. rewrite Z.mod_small by lia. lia.
Qed.

Lemma unix_addr_round_trip_witness : addr_from_bytes (addr_as_bytes "/run/wl-0") = Ok "/run/wl-0".
Proof.
  apply (unix_addr_round_trip "/run/wl-0"); [reflexivity| |cbv; lia].
  repeat constructor; discriminate.
Defined.

(** ** Behaviours that differ from what the calls promise *)

Definition outcome {A} (m : UM A) (es : list call) : res uerr A := (m (sy_world (run_calls es))).1.
Definition root : PeerCredentials := mkCred 1 0 0.
Definition sock (i : nat) : UnixSocket := mkSocket i 0 None.

(** [shutdown(SHUT_WR)] marks the channel for its writer only: the peer, which reads it,
    is woken and finds neither data nor the end of the stream. *)
Theorem shutdown_wr_no_eof :
  let es := [CPair Stream root; CShutdown 0 SHUT_WR] in
  outcome (recv_msg (sock 2) 16 true false) es = Err (Errno EAGAIN) /\
  outcome (recv_msg (sock 2) 16 false false) es = Ok MustWait /\
  outcome (poll (sock 2)) es = Ok (mkUnixPoll false true false false).
Proof. by split_and!; vm_compute. Qed.

(** A second [bind] leaves the first path registered after the socket is gone. *)
Theorem rebind_leaks_path :
  let es := [CSocket Dgram; CBind 0 "/a"; CBind 0 "/b"; CDrop 0; CSocket Dgram] in
  live (sy_handles (run_calls es)) 0 = 0%nat /\
  outcome (bind (sock 1) "/a") es = Err (Errno EADDRINUSE) /\
  outcome (bind (sock 1) "/b") es = Ok (mkSocket 1 5 None).
Proof. by split_and!; vm_compute. Qed.

(** [bind] on a connected socket takes it out of its connection without closing it. *)
Theorem bind_disconnects :
  let es := [CPair Stream root; CBind 0 "/a"] in
  outcome (send_msg (sock 1) [1] [] None true false) es = Err (Errno ENOTCONN) /\
  outcome (recv_msg (sock 2) 16 false false) es = Ok MustWait.
Proof. by split_and!; vm_compute. Qed.

(** A datagram to the sender's own address takes the lock of the socket twice. *)
Theorem send_to_self_deadlocks :
  outcome (send_to (sock 0) [1] "/a") [CSocket Dgram; CBind 0 "/a"] = Err Deadlock.
Proof. by vm_compute. Qed.

(** The sockets of a closed listener's backlog are freed without closing their
    connections: the connected clients wait for ever. *)
Theorem listener_close_strands :
  let es := [CSocket Stream; CBind 0 "/l"; CListen 0; CSocket Stream; CConnect 1 "/l" root; CDrop 0] in
  live (sy_handles (run_calls es)) 3 = 0%nat /\
  outcome (recv_msg (sock 1) 16 false false) es = Ok MustWait /\
  outcome (poll (sock 1)) es = Ok (mkUnixPoll false true false false).
Proof. by split_and!; vm_compute. Qed.

(** [connect] makes a listener readable without waking the tasks that poll it. *)
Theorem connect_wakes_no_poller :
  let es := [CSocket Stream; CBind 0 "/l"; CListen 0; CSocket Stream] in
  let w := sy_world (run_calls es) in
  let w' := (connect (sock 1) "/l" root w).2 in
  (poll (sock 0) w).1 = Ok (mkUnixPoll false false false false) /\
  (poll (sock 0) w').1 = Ok (mkUnixPoll true false false false) /\
  w_notes w' = w_notes w ++ [NAccept 0].
Proof. by split_and!; vm_compute. Qed.

(** The end of one datagram socket of a pair is seen by [poll] and not by a receiver. *)
Theorem dgram_close_unseen :
  let es := [CPair Dgram root; CDrop 0] in
  outcome (poll (sock 1)) es = Ok (mkUnixPoll false true true false) /\
  outcome (recv_msg (sock 1) 16 false false) es = Ok MustWait.
Proof. by split_and!; vm_compute. Qed.
