(* ===== verification/Rtc.v ===== *)
(** * The real-time clock (src/kernel/twilight_kernel/src/driver/timer/cmos.rs)

    Reading the CMOS registers and turning the calendar time into seconds since 1970.
    The chip is a function from register numbers to bytes.  The theorem compares the
    conversion with a calendar that advances one second at a time. *)

From Stdlib Require Import ZifyBool.
From S2P Require Import Prelude.
Open Scope twilight_scope.

(** ** Reading *)

Inductive Register := Second | Minute | Hour | Day | Month | Year | B.
Definition register_number (r : Register) : Z :=
  match r with Second => 0x00 | Minute => 0x02 | Hour => 0x04 | Day => 0x07 | Month => 0x08 | Year => 0x09 | B => 0x0B end.

Record RTC := mkRTC { second : Z; minute : Z; hour : Z; day : Z; month : Z; year : Z }.

Definition read_register (cmos : Z -> Z) (r : Register) : Z := cmos (register_number r).

(** [data & 0x80 == 1]. *)
Definition is_updating (cmos : Z -> Z) : bool := Z.land (cmos 0x0A) 0x80 =? 1.

Definition from_bcd (x : Z) : Z := u8 (Z.land x 0x0F + u8 (x / 16 * 10)).
Definition hour_from_bcd (x : Z) : Z :=
  Z.lor (u8 (Z.land x 0x0F + u8 (Z.land x 0x70 / 16 * 10))) (Z.land x 0x80).

(** The registers are read once [is_updating] is false; [None] while it is true. *)
Definition read (cmos : Z -> Z) : option RTC :=
  if is_updating cmos then None
  else
    let r := mkRTC (read_register cmos Second) (read_register cmos Minute) (read_register cmos Hour)
               (read_register cmos Day) (read_register cmos Month) (read_register cmos Year) in
    Some (if Z.land (read_register cmos B) 0x04 =? 0
          then mkRTC (from_bcd (second r)) (from_bcd (minute r)) (hour_from_bcd (hour r))
                 (from_bcd (day r)) (from_bcd (month r)) (from_bcd (year r))
          else r).

(** ** Conversion *)

Definition is_leap_year (y : Z) : bool :=
  ((y mod 4 =? 0) && negb (y mod 100 =? 0)) || (y mod 400 =? 0).

Definition days_in_month : list Z := [31; 28; 31; 30; 31; 30; 31; 31; 30; 31; 30; 31].

(** [for y in 1970..year]. *)
Fixpoint days_of_years (n : nat) (y : Z) : Z :=
  match n with O => 0 | S n => (if is_leap_year y then 366 else 365) + days_of_years n (y + 1) end.

(** [for m in 0..(month - 1)]; [None] is the index out of range. *)
Fixpoint days_of_months (n : nat) (m : nat) (y : Z) : option Z :=
  match n with
  | O => Some 0
  | S n =>
      d ← days_in_month !! m;
      rest ← days_of_months n (S m) y;
      Some (d + (if (m =? 1)%nat && is_leap_year y then 1 else 0) + rest)
  end.

(** [month - 1] and [day - 1] are computed in 64 bits.  A run of the month loop beyond
    the table stops at its thirteenth turn. *)
Definition unix_time (r : RTC) : res unit Z :=
  let y := 2000 + year r in
  let months := u64 (month r - 1) in
  match days_of_months (Z.to_nat (Z.min months 13)) 0 y with
  | None => Panic
  | Some d =>
      let days := u64 (days_of_years (Z.to_nat (y - 1970)) 1970 + d + u64 (day r - 1)) in
      Ok (u64 (days * 86400 + hour r * 3600 + minute r * 60 + second r))
  end.

(** ** A calendar *)

Definition month_length (y m : Z) : Z :=
  if m =? 2 then (if is_leap_year (2000 + y) then 29 else 28)
  else if (m =? 4) || (m =? 6) || (m =? 9) || (m =? 11) then 30 else 31.

Definition valid_rtc (r : RTC) : Prop :=
  0 <= second r < 60 /\ 0 <= minute r < 60 /\ 0 <= hour r < 24 /\
  1 <= month r <= 12 /\ 1 <= day r <= month_length (year r) (month r) /\ 0 <= year r < 100.

(** One second later. *)
Definition tick (r : RTC) : RTC :=
  if second r <? 59 then mkRTC (second r + 1) (minute r) (hour r) (day r) (month r) (year r)
  else if minute r <? 59 then mkRTC 0 (minute r + 1) (hour r) (day r) (month r) (year r)
  else if hour r <? 23 then mkRTC 0 0 (hour r + 1) (day r) (month r) (year r)
  else if day r <? month_length (year r) (month r) then mkRTC 0 0 0 (day r + 1) (month r) (year r)
  else if month r <? 12 then mkRTC 0 0 0 1 (month r + 1) (year r)
  else mkRTC 0 0 0 1 1 (year r + 1).

(** The registers of a chip that counts in BCD. *)
Definition to_bcd (x : Z) : Z := x / 10 * 16 + x mod 10.
Definition bcd_chip (r : RTC) (n : Z) : Z :=
  if n =? 0x00 then to_bcd (second r) else if n =? 0x02 then to_bcd (minute r)
  else if n =? 0x04 then to_bcd (hour r) else if n =? 0x07 then to_bcd (day r)
  else if n =? 0x08 then to_bcd (month r) else if n =? 0x09 then to_bcd (year r)
  else if n =? 0x0B then 0x02 else 0.

(** ** Proofs *)

(** Days before month [m]. *)
Definition month_start (y m : Z) : Z :=
  nth (Z.to_nat m) [0; 0; 31; 59; 90; 120; 151; 181; 212; 243; 273; 304; 334] 0 +
  (if (2 <? m) && is_leap_year y then 1 else 0).

Ltac twelve m := assert (m = 1 \/ m = 2 \/ m = 3 \/ m = 4 \/ m = 5 \/ m = 6 \/ m = 7 \/ m = 8 \/ m = 9 \/ m = 10 \/ m = 11 \/ m = 12)
  as [->|[->|[->|[->|[->|[->|[->|[->|[->|[->|[->| ->]]]]]]]]]]] by lia.

Lemma days_of_months_eq y m : 1 <= m <= 12 -> days_of_months (Z.to_nat (m - 1)) 0 y = Some (month_start y m).
Proof. intros H. unfold month_start. by twelve m; lazy -[is_leap_year]; destruct (is_leap_year y). Qed.

Lemma month_start_next y m : 1 <= m < 12 -> month_start (2000 + y) (m + 1) = month_start (2000 + y) m + month_length y m.
Proof. intros H. unfold month_start, month_length. generalize (is_leap_year (2000 + y)). by twelve m; intros []; try lia. Qed.

Lemma year_length y : month_start (2000 + y) 12 + 31 = if is_leap_year (2000 + y) then 366 else 365.
Proof. unfold month_start. by destruct (is_leap_year (2000 + y)). Qed.

Lemma month_start_bounds y m : 1 <= m <= 12 -> 0 <= month_start y m <= 335.
Proof. intros H. unfold month_start. generalize (is_leap_year y). twelve m; intros []; cbv; split; discriminate. Qed.

Lemma month_length_bounds y m : 28 <= month_length y m <= 31.
Proof. unfold month_length. repeat case_match; lia. Qed.

Lemma days_of_years_next n y :
  days_of_years (S n) y = days_of_years n y + if is_leap_year (y + Z.of_nat n) then 366 else 365.
Proof.
  revert y. induction n as [|n IH]; intros y; [cbn [days_of_years]; change (Z.of_nat 0) with 0; rewrite !Z.add_0_r; by destruct (is_leap_year y)|].
  change (days_of_years (S (S n)) y) with ((if is_leap_year y then 366 else 365) + days_of_years (S n) (y + 1)).
  rewrite IH. cbn [days_of_years]. replace (y + 1 + Z.of_nat n) with (y + Z.of_nat (S n)) by lia. apply Z.add_assoc.
Qed.

Lemma days_of_years_bounds n y : 0 <= days_of_years n y <= 366 * Z.of_nat n.
Proof. revert y. induction n as [|n IH]; intros y; [cbn; lia|]. cbn [days_of_years]. specialize (IH (y + 1)). case_match; lia. Qed.

(** The conversion without its widths. *)
Definition day_number (r : RTC) : Z :=
  days_of_years (Z.to_nat (30 + year r)) 1970 + month_start (2000 + year r) (month r) + (day r - 1).
Definition seconds (r : RTC) : Z := day_number r * 86400 + hour r * 3600 + minute r * 60 + second r.

Lemma unix_time_eq r : valid_rtc r \/ r = mkRTC 0 0 0 1 1 100 -> unix_time r = Ok (seconds r).
Proof.
  intros Hv. assert (Hb : 0 <= second r < 60 /\ 0 <= minute r < 60 /\ 0 <= hour r < 24 /\ 1 <= month r <= 12 /\
                       1 <= day r <= 31 /\ 0 <= year r <= 100).
  { destruct Hv as [(? & ? & ? & ? & ? & ?)| ->]; [|cbn; lia]. pose proof (month_length_bounds (year r) (month r)). lia. }
  destruct Hb as (Hs & Hm & Hh & Hmo & Hd & Hy). unfold unix_time, seconds, day_number, wrap.
  rewrite (Z.mod_small (month r - 1)), (Z.mod_small (day r - 1)), Z.min_l by lia. rewrite days_of_months_eq by lia.
  replace (2000 + year r - 1970) with (30 + year r) by lia.
  pose proof (days_of_years_bounds (Z.to_nat (30 + year r)) 1970). pose proof (month_start_bounds (2000 + year r) (month r) Hmo).
  rewrite (Z.mod_small (days_of_years _ _ + _ + _)) by lia. rewrite Z.mod_small by lia. done.
Qed.

Definition last_second : RTC := mkRTC 59 59 23 31 12 99.

Lemma tick_valid r : valid_rtc r -> valid_rtc (tick r) \/ (r = last_second /\ tick r = mkRTC 0 0 0 1 1 100).
Proof.
  intros (Hs & Hm & Hh & Hmo & Hd & Hy). unfold tick.
  assert (Hl : forall y m, 28 <= month_length y m <= 31) by apply month_length_bounds.
  repeat case_match; bool_to_prop; try (left; unfold valid_rtc; cbn; specialize (Hl (year r) (month r)); lia).
  - left. unfold valid_rtc. cbn. specialize (Hl (year r) (month r + 1)). lia.
  - destruct (decide (year r = 99)) as [E|E].
    + right. unfold last_second. destruct r as [s mi h d mo y]. cbn in *. subst y. assert (mo = 12) as -> by lia. cbn in *.
      split; f_equal; lia.
    + left. unfold valid_rtc. cbn. specialize (Hl (year r + 1) 1). lia.
Qed.

Lemma seconds_tick r : valid_rtc r -> seconds (tick r) = seconds r + 1.
Proof.
  intros (Hs & Hm & Hh & Hmo & Hd & Hy). unfold tick, seconds, day_number.
  repeat case_match; bool_to_prop; cbn [second minute hour day month year]; try lia.
  - rewrite month_start_next by lia. lia.
  - assert (E : month r = 12) by lia. rewrite E in *. change (month_length (year r) 12) with 31 in *.
    pose proof (year_length (year r)) as HY.
    replace (Z.to_nat (30 + (year r + 1))) with (S (Z.to_nat (30 + year r))) by lia. rewrite days_of_years_next.
    replace (1970 + Z.of_nat (Z.to_nat (30 + year r))) with (2000 + year r) by lia. rewrite <- HY.
    change (month_start (2000 + (year r + 1)) 1) with 0. lia.
Qed.

(** A chip in 24-hour mode is read back exactly, whether or not it counts in BCD. *)
Lemma all_below (n : nat) (f g : Z -> Z) : f <$> (Z.of_nat <$> seq 0 n) = g <$> (Z.of_nat <$> seq 0 n) ->
  forall x, 0 <= x < Z.of_nat n -> f x = g x.
Proof.
  intros H x Hx. assert (E : seq 0 n !! Z.to_nat x = Some (Z.to_nat x)) by (apply lookup_seq; lia).
  apply (f_equal (lookup (Z.to_nat x))) in H. rewrite !list_lookup_fmap, E in H. cbn in H. rewrite Z2Nat.id in H by lia.
  congruence.
Qed.

Lemma from_to_bcd x : 0 <= x < 100 -> from_bcd (to_bcd x) = x.
Proof. apply (all_below 100 (fun x => from_bcd (to_bcd x)) id). by vm_compute. Qed.

Lemma hour_from_to_bcd x : 0 <= x < 24 -> hour_from_bcd (to_bcd x) = x.
Proof. apply (all_below 24 (fun x => hour_from_bcd (to_bcd x)) id). by vm_compute. Qed.

Lemma read_bcd r : valid_rtc r -> read (bcd_chip r) = Some r.
Proof.
  intros (Hs & Hm & Hh & Hmo & Hd & Hy). unfold read, is_updating, read_register. cbn.
  pose proof (month_length_bounds (year r) (month r)).
  rewrite !from_to_bcd, hour_from_to_bcd by lia. by destruct r.
Qed.

(** The clock of the century: [n] seconds after the first of 2000. *)
Definition century : RTC := mkRTC 0 0 0 1 1 0.

Lemma century_run n : Z.of_nat n < 3155760000 ->
  valid_rtc (Nat.iter n tick century) /\ seconds (Nat.iter n tick century) = 946684800 + Z.of_nat n.
Proof.
  induction n as [|n IH]; [intros _; split; [by vm_compute|reflexivity]|]. intros Hn.
  destruct (IH ltac:(lia)) as [Hv Hs]. rewrite Nat.iter_succ. split; [|rewrite seconds_tick by done; lia].
  destruct (tick_valid _ Hv) as [|[E _]]; [done|]. exfalso. rewrite E in Hs.
  assert (seconds last_second = 946684800 + 3155759999) by by vm_compute. lia.
Qed.

(** Over the whole century, a chip that counts the seconds of the calendar from the start of 2000 in BCD and 24-hour mode is read as such, and converted to the Unix time of that second. *)
Theorem rtc_is_unix_time (n : nat) : Z.of_nat n < 3155760000 ->
  let r := Nat.iter n tick century in
  read (bcd_chip r) = Some r /\ unix_time r = Ok (946684800 + Z.of_nat n).
Proof.
  intros Hn r. destruct (century_run n Hn) as [Hv Hs]. split; [by apply read_bcd|].
  rewrite unix_time_eq by (by left). by rewrite <- Hs.
Qed.

Lemma rtc_is_unix_time_witness : unix_time (mkRTC 30 1 0 1 1 0) = Ok (946684800 + 90).
Proof. exact (proj2 (rtc_is_unix_time 90 ltac:(lia))). Defined.

(** The update flag is never seen: the test compares bit 7 with one, so the registers may
    be read while they change. *)
Theorem update_never_awaited (cmos : Z -> Z) : is_updating cmos = false.
Proof.
  unfold is_updating. apply Z.eqb_neq. intros H. assert (E : Z.testbit (Z.land (cmos 0x0A) 0x80) 0 = true) by by rewrite H.
  by rewrite Z.land_spec, andb_false_r in E.
Qed.

(** A chip in 12-hour mode is misread: one in the afternoon becomes hour 129. *)
Theorem twelve_hour_misread :
  let chip := fun n => if n =? 0x04 then 0x81 else bcd_chip century n in
  exists r, read chip = Some r /\ hour r = 129.
Proof. eexists. split; vm_compute; reflexivity. Qed.

(** A month of zero, read during an update, stops the kernel. *)
Theorem month_zero_panics : unix_time (mkRTC 0 0 0 1 0 26) = Panic.
Proof. by vm_compute. Qed.
