(* ===== verification/TimeCalls.v ===== *)
(** * Time system calls (src/kernel/twilight_kernel/src/sys/syscall/time.rs)

    [nanosleep], [clock_nanosleep] and [clock_gettime] with the checks of user pointers
    (sys/syscall/utils.rs) and the realtime offset (driver/time/mod.rs).  A sleep runs
    against the wakes the scheduler gives it: each is the reason reported by
    [block_current_until] and the clock read after it.  [None] is a task still asleep
    after the wakes so far. *)

From Stdlib Require Import ZifyBool.
From S2P Require Import Prelude TimerQueue.
Open Scope twilight_scope.

Definition EINTR : Z := 4.
Definition EFAULT : Z := 14.
Definition EINVAL : Z := 22.
Definition NSEC_PER_SEC : Z := 1000000000.
Definition TIMER_ABSTIME : Z := 1.
Definition CLOCK_REALTIME : Z := 0.
Definition CLOCK_MONOTONIC : Z := 1.
Definition U128_MAX : Z := 2 ^ 128 - 1.

Record Timespec := mkTimespec { tv_sec : Z; tv_nsec : Z }.

(** ** User pointers *)

Inductive UserCopyError := Fault | TooLong | Utf8.
Definition USER_MAX : Z := 0x00007fffffffffff.

Definition is_canonical (addr : Z) : bool :=
  let top := Z.land (Z.shiftr addr 47) 0x1ffff in (top =? 0) || (top =? 0x1ffff).

(** [end - 1] is computed in 64 bits. *)
Definition in_user_range (addr len : Z) : res UserCopyError unit :=
  if (addr =? 0) || negb (is_canonical addr) then Err Fault
  else if U64_MAX <? addr + len then Err TooLong
  else if USER_MAX <? u64 (addr + len - 1) then Err Fault
  else Ok tt.

(** The size of a [Timespec] is 16 bytes; [mem] is the value at a user address. *)
Definition copy_from_user (mem : Z -> Timespec) (src : Z) : res UserCopyError Timespec :=
  if src =? 0 then Err Fault
  else match in_user_range src 16 with Ok _ => Ok (mem src) | Err e => Err e | Panic => Panic end.

(** The write made, if any. *)
Definition copy_to_user (dst : Z) (v : Timespec) : res UserCopyError (Z * Timespec) :=
  if dst =? 0 then Err Fault
  else match in_user_range dst 16 with Ok _ => Ok (dst, v) | Err e => Err e | Panic => Panic end.

(** ** Clocks *)

Definition validate_timespec (req : Timespec) : res Z unit :=
  if (tv_sec req <? 0) || (tv_nsec req <? 0) || (NSEC_PER_SEC <=? tv_nsec req) then Err (- EINVAL) else Ok tt.

(** In 128 bits, saturating. *)
Definition timespec_to_ns (req : Timespec) : Z :=
  let secs := wrap 128 (tv_sec req) in
  let nsec := wrap 128 (tv_nsec req) in
  let total := Z.min U128_MAX (Z.min U128_MAX (secs * NSEC_PER_SEC) + nsec) in
  Z.min total U64_MAX.

Definition ns_to_timespec (ns : Z) : Timespec := mkTimespec (ns / NSEC_PER_SEC) (ns mod NSEC_PER_SEC).

(** The offset stored at boot, from the RTC seconds and the monotonic clock then. *)
Definition init_realtime_offset (cmos_secs mono_ns : Z) : Z :=
  saturating_sub (Z.min U64_MAX (cmos_secs * NSEC_PER_SEC)) mono_ns.
Definition realtime_ns (offset mono : Z) : Z := saturating_add offset mono.

Definition clock_now_ns (clockid offset mono : Z) : res Z Z :=
  if clockid =? CLOCK_MONOTONIC then Ok mono
  else if clockid =? CLOCK_REALTIME then Ok (realtime_ns offset mono)
  else Err (- EINVAL).

Definition absolute_to_monotonic_deadline (clockid abs_ns offset : Z) : res Z Z :=
  if clockid =? CLOCK_MONOTONIC then Ok abs_ns
  else if clockid =? CLOCK_REALTIME then Ok (saturating_sub abs_ns offset)
  else Err (- EINVAL).

(** ** Sleeping *)

Inductive SleepOutcome := DeadlineReached | Interrupted (remaining_ns : Z).

Abbreviation wakes := (list (WakeReason * Z)).

Fixpoint sleep_until_deadline (deadline_ns : Z) (ws : wakes) : option SleepOutcome :=
  match ws with
  | [] => None
  | (reason, now) :: ws =>
      match reason with
      | Deadline | Event => if deadline_ns <=? now then Some DeadlineReached else sleep_until_deadline deadline_ns ws
      | Signal | Cancelled => Some (Interrupted (saturating_sub deadline_ns now))
      end
  end.

(** The value returned and the remainder written. *)
Abbreviation sleep_result := (option (Z * option (Z * Timespec))).

(** The end of a relative sleep. *)
Definition relative_result (o : option SleepOutcome) (rem_ptr : Z) : sleep_result :=
  match o with
  | None => None
  | Some DeadlineReached => Some (0, None)
  | Some (Interrupted remaining_ns) =>
      Some (- EINTR,
            if rem_ptr =? 0 then None
            else match copy_to_user rem_ptr (ns_to_timespec remaining_ns) with Ok x => Some x | _ => None end)
  end.

(** [now] is the clock read before sleeping. *)
Definition sys_nanosleep (mem : Z -> Timespec) (req_ptr rem_ptr now : Z) (ws : wakes) : sleep_result :=
  match copy_from_user mem req_ptr with
  | Ok req =>
      match validate_timespec req with
      | Ok _ =>
          let duration_ns := timespec_to_ns req in
          if duration_ns =? 0 then Some (0, None)
          else relative_result (sleep_until_deadline (saturating_add now duration_ns) ws) rem_ptr
      | Err e => Some (e, None)
      | Panic => None
      end
  | _ => Some (- EFAULT, None)
  end.

(** [flags] is 32 bits wide: [flags & !TIMER_ABSTIME]. *)
Definition sys_clock_nanosleep (mem : Z -> Timespec) (offset clockid flags req_ptr rem_ptr now : Z) (ws : wakes)
  : sleep_result :=
  if negb (Z.ldiff flags TIMER_ABSTIME =? 0) then Some (- EINVAL, None)
  else
    match copy_from_user mem req_ptr with
    | Ok req =>
        match validate_timespec req with
        | Ok _ =>
            if negb ((clockid =? CLOCK_MONOTONIC) || (clockid =? CLOCK_REALTIME)) then Some (- EINVAL, None)
            else if negb (Z.land flags TIMER_ABSTIME =? 0) then
              match absolute_to_monotonic_deadline clockid (timespec_to_ns req) offset with
              | Ok deadline_ns =>
                  if deadline_ns <=? now then Some (0, None)
                  else match sleep_until_deadline deadline_ns ws with
                       | None => None
                       | Some DeadlineReached => Some (0, None)
                       | Some (Interrupted _) => Some (- EINTR, None)
                       end
              | Err e => Some (e, None)
              | Panic => None
              end
            else
              let duration_ns := timespec_to_ns req in
              if duration_ns =? 0 then Some (0, None)
              else relative_result (sleep_until_deadline (saturating_add now duration_ns) ws) rem_ptr
        | Err e => Some (e, None)
        | Panic => None
        end
    | _ => Some (- EFAULT, None)
    end.

Definition sys_clock_gettime (offset mono clockid tp_ptr : Z) : Z * option (Z * Timespec) :=
  if tp_ptr =? 0 then (- EFAULT, None)
  else match clock_now_ns clockid offset mono with
       | Ok ns => match copy_to_user tp_ptr (ns_to_timespec ns) with
                  | Ok x => (0, Some x)
                  | _ => (- EFAULT, None)
                  end
       | Err e => (e, None)
       | Panic => (- EFAULT, None)
       end.

(** ** Time values *)

(** A request as the validation accepts it. *)
Definition valid_timespec (t : Timespec) : Prop := 0 <= tv_sec t < 2 ^ 63 /\ 0 <= tv_nsec t < NSEC_PER_SEC.

Lemma validate_ok t : valid_timespec t -> validate_timespec t = Ok tt.
Proof. intros [H1 H2]. unfold validate_timespec. by rewrite !(proj2 (Z.ltb_ge _ _)), (proj2 (Z.leb_gt _ _)) by lia. Qed.

Lemma timespec_ns_exact t : valid_timespec t -> timespec_to_ns t = Z.min (tv_sec t * NSEC_PER_SEC + tv_nsec t) U64_MAX.
Proof.
  intros [H1 H2]. unfold timespec_to_ns, wrap, U128_MAX, NSEC_PER_SEC, U64_MAX in *.
  rewrite !Z.mod_small by lia. rewrite (Z.min_r _ (tv_sec t * _)) by lia. rewrite (Z.min_r (2 ^ 128 - 1)) by lia. done.
Qed.

(** Nanoseconds written out as seconds and nanoseconds read back as the same number. *)
Lemma ns_round_trip n : 0 <= n <= U64_MAX ->
  valid_timespec (ns_to_timespec n) /\ timespec_to_ns (ns_to_timespec n) = n.
Proof.
  intros H. assert (Hv : valid_timespec (ns_to_timespec n)).
  { unfold valid_timespec, ns_to_timespec, NSEC_PER_SEC, U64_MAX in *. cbn.
    split; [split; [apply Z.div_pos; lia|apply Z.div_lt_upper_bound; lia]|apply Z.mod_pos_bound; lia]. }
  split; [done|]. rewrite timespec_ns_exact by done. cbn. rewrite Z.mul_comm, <- Z.div_mod by (unfold NSEC_PER_SEC; lia). lia.
Qed.

(** ** Sleeping long enough *)

Definition interrupts (r : WakeReason) : bool := match r with Signal | Cancelled => true | _ => false end.

(** A wake that ends the sleep. *)
Definition decisive (deadline : Z) (w : WakeReason * Z) : bool := interrupts w.1 || (deadline <=? w.2).

(** The sleep ends at the first decisive wake. *)
Lemma sleep_decided deadline ws :
  sleep_until_deadline deadline ws =
  match list_find (decisive deadline) ws with
  | None => None
  | Some (_, (r, now)) => Some (if interrupts r then Interrupted (saturating_sub deadline now) else DeadlineReached)
  end.
Proof.
  induction ws as [|[r now] ws IH]; [done|]. cbn [sleep_until_deadline list_find].
  assert (Hrest : forall o : option (nat * (WakeReason * Z)), o = list_find (decisive deadline) ws ->
    sleep_until_deadline deadline ws =
    match prod_map S id <$> o with
    | None => None
    | Some (_, (r, now)) => Some (if interrupts r then Interrupted (saturating_sub deadline now) else DeadlineReached)
    end) by (intros o ->; rewrite IH; by destruct (list_find _ ws) as [[? []]|]).
  case_decide as Hd; unfold decisive in Hd; cbn [fst snd] in Hd.
  - destruct r; cbn in *; try done; apply Is_true_true in Hd; by rewrite Hd.
  - destruct r; cbn in *; try (by destruct Hd); destruct (deadline <=? now); try (by destruct Hd); by apply Hrest.
Qed.

Lemma decisive_found deadline ws w : w ∈ ws -> decisive deadline w = true ->
  exists i r now, list_find (decisive deadline) ws = Some (i, (r, now)).
Proof.
  intros Hin Hd. destruct (list_find (decisive deadline) ws) as [[i [r now]]|] eqn:E; [by eauto|].
  apply list_find_None in E. rewrite Forall_forall in E. exfalso. apply (E w Hin). by rewrite Hd.
Qed.

Lemma found_decisive deadline ws i r now : list_find (decisive deadline) ws = Some (i, (r, now)) ->
  (r, now) ∈ ws /\ (interrupts r = true \/ deadline <= now).
Proof.
  intros (H1 & H2 & _)%list_find_Some. split; [by eapply list_elem_of_lookup_2|].
  unfold decisive in H2. cbn in H2. destruct (interrupts r); [by left|right]. apply Is_true_true in H2. cbn in H2. lia.
Qed.

(** nanosleep on a request in user memory answers at the first wake that is a signal or comes at or after the deadline; it answers zero only when the clock has reached the time of the call plus the duration; when a signal ends it, it answers EINTR and the remainder it writes is the time left until that deadline, as a valid request. *)
Theorem nanosleep_decided (mem : Z -> Timespec) (req_ptr rem_ptr now : Z) (ws : wakes) :
  let req := mem req_ptr in
  let deadline := now + timespec_to_ns req in
  in_user_range req_ptr 16 = Ok tt -> valid_timespec req -> 0 < timespec_to_ns req -> 0 <= now -> deadline <= U64_MAX ->
  Forall (fun w => 0 <= w.2 <= U64_MAX) ws ->
  (forall w, w ∈ ws -> decisive deadline w = true -> is_Some (sys_nanosleep mem req_ptr rem_ptr now ws)) /\
  (forall value rem, sys_nanosleep mem req_ptr rem_ptr now ws = Some (value, rem) ->
     exists r t, (r, t) ∈ ws /\
       ((value = 0 /\ rem = None /\ deadline <= t) \/
        (value = - EINTR /\ interrupts r = true /\
         forall dst left, rem = Some (dst, left) -> dst = rem_ptr /\ valid_timespec left /\
           timespec_to_ns left = Z.max 0 (deadline - t)))).
Proof.
  intros req deadline Hu Hv Hpos Hnow Hdl Hws.
  assert (Hp : req_ptr <> 0) by (intros ->; by vm_compute in Hu).
  assert (E : sys_nanosleep mem req_ptr rem_ptr now ws = relative_result (sleep_until_deadline deadline ws) rem_ptr).
  { unfold sys_nanosleep, copy_from_user. rewrite (proj2 (Z.eqb_neq _ _) Hp), Hu. fold req. rewrite validate_ok by done.
    rewrite (proj2 (Z.eqb_neq _ _)) by lia. unfold saturating_add. by rewrite Z.min_r. }
  rewrite E, sleep_decided. split.
  - intros w Hin Hd. destruct (decisive_found _ _ _ Hin Hd) as (i & r & t & ->). by destruct (interrupts r); eexists.
  - intros value rem. destruct (list_find _ ws) as [[i [r t]]|] eqn:Ef; [|done].
    destruct (found_decisive _ _ _ _ _ Ef) as [Hin Hd]. cbn. intros Hr. exists r, t. split; [done|].
    rewrite Forall_forall in Hws. specialize (Hws _ Hin). cbn in Hws.
    destruct (interrupts r); cbn in Hr; [right|left; injection Hr as <- <-; destruct Hd; done].
    injection Hr as <- Hrem. split; [done|]. split; [done|]. intros dst left Hl. subst rem.
    destruct (rem_ptr =? 0); [done|]. unfold copy_to_user in Hl. destruct (rem_ptr =? 0); [done|].
    destruct (in_user_range rem_ptr 16); try done. injection Hl as <- <-. split; [done|]. apply ns_round_trip.
    unfold saturating_sub. lia.
Qed.

Lemma nanosleep_decided_witness :
  sys_nanosleep (fun _ => mkTimespec 2 500) 4096 8192 1000 [(Event, 5000); (Signal, 1000001000)] =
    Some (- EINTR, Some (8192, mkTimespec 1 500)) /\
  is_Some (sys_nanosleep (fun _ => mkTimespec 2 500) 4096 8192 1000 [(Event, 5000); (Signal, 1000001000)]).
Proof.
  split; [vm_compute; reflexivity|].
  refine (proj1 (nanosleep_decided (fun _ => mkTimespec 2 500) 4096 8192 1000 [(Event, 5000); (Signal, 1000001000)]
    eq_refl _ _ _ _ _) (Signal, 1000001000) _ eq_refl); [|vm_compute; reflexivity|lia|vm_compute; discriminate| |].
  - vm_compute. repeat split; discriminate.
  - repeat constructor; vm_compute; discriminate.
  - right. left.
Defined.

(** An absolute sleep on the realtime clock ends, without a signal, only when the
    realtime clock shows the requested time or later. *)
Theorem absolute_realtime_sleep (mem : Z -> Timespec) (offset req_ptr rem_ptr now : Z) (ws : wakes) (rem : option (Z * Timespec)) :
  in_user_range req_ptr 16 = Ok tt -> valid_timespec (mem req_ptr) -> timespec_to_ns (mem req_ptr) < U64_MAX ->
  0 <= offset -> Forall (fun w => 0 <= w.2) ws -> 0 <= now ->
  sys_clock_nanosleep mem offset CLOCK_REALTIME TIMER_ABSTIME req_ptr rem_ptr now ws = Some (0, rem) ->
  rem = None /\ exists t, (t = now \/ exists r, (r, t) ∈ ws) /\ timespec_to_ns (mem req_ptr) <= realtime_ns offset t.
Proof.
  intros Hu Hv Hsm Hoff Hws Hnow.
  assert (Hp : req_ptr <> 0) by (intros ->; by vm_compute in Hu).
  unfold sys_clock_nanosleep, copy_from_user. change (negb (Z.ldiff TIMER_ABSTIME TIMER_ABSTIME =? 0)) with false.
  rewrite (proj2 (Z.eqb_neq _ _) Hp), Hu, validate_ok by done. cbn -[sleep_until_deadline timespec_to_ns].
  set (T := timespec_to_ns (mem req_ptr)) in *.
  assert (Hr : forall t, saturating_sub T offset <= t -> T <= realtime_ns offset t).
  { intros t. unfold saturating_sub, realtime_ns, saturating_add. lia. }
  destruct (saturating_sub T offset <=? now) eqn:El; [intros [= <-]; split; [done|]; exists now; split; [by left|apply Hr; lia]|].
  rewrite sleep_decided. destruct (list_find _ ws) as [[i [r t]]|] eqn:Ef; [|done].
  destruct (found_decisive _ _ _ _ _ Ef) as [Hin Hd].
  destruct (interrupts r); [done|]. intros [= <-]. split; [done|]. exists t. split; [eauto|]. destruct Hd as [|Hd]; [done|]. by apply Hr.
Qed.

Lemma absolute_realtime_sleep_witness :
  exists t, (t = 0 \/ exists r, (r, t) ∈ [(Deadline, 60)]) /\ timespec_to_ns (mkTimespec 0 150) <= realtime_ns 100 t.
Proof.
  refine (proj2 (absolute_realtime_sleep (fun _ => mkTimespec 0 150) 100 4096 0 0 [(Deadline, 60)] None
    eq_refl _ _ _ _ _ _)); [|vm_compute; reflexivity|lia| |lia|vm_compute; reflexivity].
  - vm_compute. repeat split; discriminate.
  - repeat constructor; vm_compute; discriminate.
Defined.
