(* ===== verification/PollCalls.v ===== *)
(** * poll, ppoll and select (src/kernel/twilight_kernel/src/sys/syscall/poll.rs)

    The readiness scan, the deadline-aware wait loop, the three calls, and the
    descriptor sets of [select] (src/kernel/twilight_common/src/syscall/types.rs).

    What a scan sees of the descriptors is a [view]: for each descriptor of the process,
    the answers of the object behind it.  A wait runs against the rounds the rest of the
    system gives it: what each turn of the loop finds when it looks at signals, clock and
    descriptors, and the reason of its wake.  [None] is a task still waiting after the
    rounds so far. *)

From Stdlib Require Import ZifyBool.
From S2P Require Import Prelude TimerQueue Sched Pipe UnixSocket TimeCalls.
Open Scope twilight_scope.

Definition ESRCH : Z := 3.
Definition O_ACCMODE : Z := 3.
Definition O_RDONLY : Z := 0.
Definition POLLIN : Z := 0x0001.
Definition POLLPRI : Z := 0x0002.
Definition POLLOUT : Z := 0x0004.
Definition POLLERR : Z := 0x0008.
Definition POLLHUP : Z := 0x0010.
Definition POLLNVAL : Z := 0x0020.
Definition MAX_NFDS : Z := (2 ^ 63 - 1) / 8.

Record PollFd := mkPollFd { fd : Z; events : Z; revents : Z }.

(** ** The readiness scan *)

(** The object behind a descriptor, as [poll_fd_set] asks it. *)
Inductive FdView :=
| VVfs (ready : res unit bool) (status_flags : Z)
| VPipe (state : PipePollState)
| VUnix (ps : UnixPollState)
| VInet (rd wr : bool)
| VMemFd (status_flags : Z).
Abbreviation view := (Z -> option FdView).

Definition flag (b : bool) (bit : Z) (r : Z) : Z := if b then Z.lor r bit else r.
Definition wants (ev bit : Z) : bool := negb (Z.land ev bit =? 0).
Definition may_write (status_flags : Z) : bool := negb (Z.land status_flags O_ACCMODE =? O_RDONLY).

Definition fd_revents (ev : Z) (v : FdView) : Z :=
  let want_in := wants ev POLLIN in
  let want_out := wants ev POLLOUT in
  match v with
  | VVfs ready fl =>
      let r := if want_in then match ready with Ok true => POLLIN | Ok false => 0 | _ => POLLERR end else 0 in
      flag (want_out && may_write fl) POLLOUT r
  | VPipe st =>
      flag (error st) POLLERR (flag (hangup st) POLLHUP
        (flag (want_out && writable st) POLLOUT (flag (want_in && readable st) POLLIN 0)))
  | VUnix ps =>
      flag (u_error ps) POLLERR (flag (u_hangup ps) POLLHUP
        (flag (want_out && u_writable ps) POLLOUT (flag (want_in && u_readable ps) POLLIN 0)))
  | VInet rd wr => flag (want_out && wr) POLLOUT (flag (want_in && rd) POLLIN 0)
  | VMemFd fl => flag (want_out && may_write fl) POLLOUT (flag want_in POLLIN 0)
  end.

Definition set_revents (r : Z) (p : PollFd) : PollFd := mkPollFd (fd p) (events p) r.

(** One turn of the loop, and whether it counts. *)
Definition poll_one (vw : view) (p : PollFd) : PollFd * nat :=
  if fd p <? 0 then (set_revents 0 p, 0%nat)
  else match vw (fd p) with
       | None => (set_revents POLLNVAL p, 1%nat)
       | Some v => let r := fd_revents (events p) v in
                   if r =? 0 then (set_revents 0 p, 0%nat) else (set_revents r p, 1%nat)
       end.

Fixpoint poll_fd_set (vw : view) (fds : list PollFd) : list PollFd * nat :=
  match fds with
  | [] => ([], 0%nat)
  | p :: fds => let '(p', n) := poll_one vw p in let '(fds', m) := poll_fd_set vw fds in (p' :: fds', (n + m)%nat)
  end.

(** [None]: the process is gone. *)
Definition poll_fd_set_for_pid (vw : option view) (fds : list PollFd) : res Z nat * list PollFd :=
  match vw with
  | None => (Err (- ESRCH), fds)
  | Some vw => let '(fds', n) := poll_fd_set vw fds in (Ok n, fds')
  end.

(** ** Deadlines *)

Definition saturating_mul (a b : Z) : Z := Z.min U64_MAX (a * b).

Definition poll_timeout_to_deadline (timeout_ms now_ns : Z) : option Z :=
  if timeout_ms <? 0 then None
  else Some (saturating_add now_ns (saturating_mul (u64 timeout_ms) 1000000)).

Record Timeval := mkTimeval { sec : Z; usec : Z }.
Definition valid_timeval (v : Timeval) : bool := (0 <=? sec v) && ((0 <=? usec v) && (usec v <? 1000000)).
Definition timeval_to_ns (tv : Timeval) : Z :=
  saturating_add (saturating_mul (u64 (sec tv)) NSEC_PER_SEC) (saturating_mul (u64 (usec tv)) 1000).

(** ** The wait loop *)

Record Round := mkRound {
  ro_signal : bool;          (* a signal is pending at the start of the turn *)
  ro_clock : Z;              (* the clock, then *)
  ro_view : option view;     (* the descriptors, once published *)
  ro_clock' : Z;             (* the clock, before blocking *)
  ro_reason : WakeReason;    (* why the task resumed *)
  ro_wake_clock : Z;         (* the clock, after the wake *)
  ro_wake_view : option view;
}.

Definition expired (deadline : option Z) (now : Z) : bool :=
  match deadline with Some d => d <=? now | None => false end.

(** [return] a value, or go on with the loop. *)
Abbreviation wait_result := (option (res Z Z * list PollFd)).

Fixpoint wait_for_ready (rounds : list Round) (fds : list PollFd) (deadline_ns : option Z) : wait_result :=
  match rounds with
  | [] => None
  | r :: rounds =>
      if ro_signal r then Some (Err (- EINTR), fds)
      else if expired deadline_ns (ro_clock r) then Some (Ok 0, fds)
      else
        match poll_fd_set_for_pid (ro_view r) fds with
        | (Ok ready, fds) =>
            if (0 <? ready)%nat then Some (Ok (Z.of_nat ready), fds)
            else if expired deadline_ns (ro_clock' r) then Some (Ok 0, fds)
            else
              match ro_reason r with
              | Signal => Some (Err (- EINTR), fds)
              | Cancelled => wait_for_ready rounds fds deadline_ns
              | Deadline =>
                  if expired deadline_ns (ro_wake_clock r)
                  then match poll_fd_set_for_pid (ro_wake_view r) fds with
                       | (Ok n, fds) => if (0 <? n)%nat then Some (Ok (Z.of_nat n), fds) else Some (Ok 0, fds)
                       | (Err e, fds) => Some (Err e, fds)
                       | (Panic, _) => None
                       end
                  else wait_for_ready rounds fds deadline_ns
              | Event =>
                  match poll_fd_set_for_pid (ro_wake_view r) fds with
                  | (Ok n, fds) => if (0 <? n)%nat then Some (Ok (Z.of_nat n), fds)
                                   else wait_for_ready rounds fds deadline_ns
                  | (Err e, fds) => Some (Err e, fds)
                  | (Panic, _) => None
                  end
              end
        | (Err e, fds) => Some (Err e, fds)
        | (Panic, _) => None
        end
  end.

(** ** The calls *)

(** The scan before the loop, its zero timeout, and the loop: [poll] and [ppoll_inner]. *)
Definition poll_from (vw : option view) (zero_timeout : bool) (deadline_ns : option Z) (rounds : list Round)
    (fds : list PollFd) : option (Z * list PollFd) :=
  match poll_fd_set_for_pid vw fds with
  | (Ok ready, fds) =>
      if (0 <? ready)%nat then Some (Z.of_nat ready, fds)
      else if zero_timeout then Some (0, fds)
      else match wait_for_ready rounds fds deadline_ns with
           | Some (Ok n, fds) => Some (n, fds)
           | Some (Err e, fds) => Some (e, fds)
           | _ => None
           end
  | (Err e, fds) => Some (e, fds)
  | (Panic, _) => None
  end.

(** [fds] is the array of [nfds] entries at [fds_ptr]; [now] the clock after the scan. *)
Definition poll (vw : option view) (fds_ptr nfds timeout_ms now : Z) (rounds : list Round) (fds : list PollFd)
  : option (Z * list PollFd) :=
  if MAX_NFDS <? nfds then Some (- EINVAL, fds)
  else if negb (nfds =? 0) && (fds_ptr =? 0) then Some (- EFAULT, fds)
  else poll_from vw (timeout_ms =? 0) (poll_timeout_to_deadline timeout_ms now) rounds fds.

(** The process while the call waits, and after it. *)
Record PpollResult := mkPpoll { pp_result : option (Z * list PollFd); pp_during : Process; pp_after : Process }.

(** [tmo] is the timespec at [tmo_p], when it is not null; [sigmask] the two words read
    from user memory, padded with zeros, when there is a mask. *)
Definition ppoll (vw : option view) (fds_ptr nfds : Z) (tmo : option Timespec) (sigmask : option (Z * Z)) (p : Process)
    (now : Z) (rounds : list Round) (fds : list PollFd) : PpollResult :=
  let early e := mkPpoll (Some (e, fds)) p p in
  if MAX_NFDS <? nfds then early (- EINVAL)
  else if negb (nfds =? 0) && (fds_ptr =? 0) then early (- EFAULT)
  else
    let go deadline zero :=
      let result := poll_from vw zero deadline rounds fds in
      match sigmask with
      | Some m => let q := install_signal_mask m p in mkPpoll result q (install_signal_mask (signal_mask p) q)
      | None => mkPpoll result p p
      end in
    match tmo with
    | None => go None false
    | Some ts =>
        match validate_timespec ts with
        | Ok _ => go (Some (saturating_add now (timespec_to_ns ts))) ((tv_sec ts =? 0) && (tv_nsec ts =? 0))
        | Err e => early e
        | Panic => early 0
        end
    end.

(** ** Descriptor sets *)

Definition FD_SETSIZE : nat := 1024.
Definition NFDBITS : nat := 64.

(** [fds_bits]: sixteen 64-bit words. *)
Abbreviation FdSet := (list Z).
Definition FdSet_default : FdSet := replicate 16 0.

Definition bit_of (fd : nat) : Z := Z.shiftl 1 (Z.of_nat (fd mod NFDBITS)).
Definition isset (fd : nat) (s : FdSet) : bool :=
  if (FD_SETSIZE <=? fd)%nat then false
  else negb (Z.land (default 0 (s !! (fd / NFDBITS)%nat)) (bit_of fd) =? 0).
Definition set (fd : nat) (s : FdSet) : FdSet :=
  if (fd <? FD_SETSIZE)%nat then alter (fun w => Z.lor w (bit_of fd)) (fd / NFDBITS)%nat s else s.
Definition clr (fd : nat) (s : FdSet) : FdSet :=
  if (fd <? FD_SETSIZE)%nat then alter (fun w => Z.ldiff w (bit_of fd)) (fd / NFDBITS)%nat s else s.
Definition zero (s : FdSet) : FdSet := replicate 16 0.

(** The three sets: read, write, except. *)
Record FdSets := mkSets { readfds : FdSet; writefds : FdSet; exceptfds : FdSet }.

(** ** select *)

Definition select_events (s : FdSets) (n : nat) : Z :=
  let ev := flag (isset n (readfds s)) POLLIN 0 in
  let ev := flag (isset n (writefds s)) POLLOUT ev in
  if isset n (exceptfds s) then Z.lor (Z.lor ev POLLPRI) POLLIN else ev.

(** The loop that fills [pfd_vec], for the descriptors from [n] on. *)
Fixpoint select_pfds (count n : nat) (s : FdSets) : list PollFd :=
  match count with
  | O => []
  | S count =>
      let ev := select_events s n in
      let rest := select_pfds count (S n) s in
      if ev =? 0 then rest else mkPollFd (Z.of_nat n) ev 0 :: rest
  end.

Fixpoint clear_below (n : nat) (s : FdSets) : FdSets :=
  match n with
  | O => s
  | S n => let s := clear_below n s in mkSets (clr n (readfds s)) (clr n (writefds s)) (clr n (exceptfds s))
  end.

Definition report_one (nfds : nat) (s : FdSets) (p : PollFd) : FdSets :=
  let n := Z.to_nat (fd p) in
  if (nfds <=? n)%nat then s
  else mkSets (if wants (revents p) (Z.lor (Z.lor POLLIN POLLHUP) POLLERR) then set n (readfds s) else readfds s)
         (if wants (revents p) POLLOUT then set n (writefds s) else writefds s)
         (if wants (revents p) (Z.lor POLLERR POLLNVAL) then set n (exceptfds s) else exceptfds s).

(** The sets written back; a null pointer takes none. *)
Definition write_back_select_results (pfds : list PollFd) (nfds : nat) (s : FdSets) : FdSets :=
  fold_left (report_one nfds) pfds (clear_below nfds s).

(** The scan and the wait, for the descriptors below [n]. *)
Definition select_wait (vw : option view) (n : nat) (s : FdSets) (rounds : list Round) (deadline_ns : option Z)
  : option (Z * option FdSets) :=
  match poll_fd_set_for_pid vw (select_pfds n 0 s) with
  | (Ok ready, pfds) =>
      if (0 <? ready)%nat then Some (Z.of_nat ready, Some (write_back_select_results pfds n s))
      else match wait_for_ready rounds pfds deadline_ns with
           | Some (Ok 0, pfds) =>
               let s := mkSets (zero (readfds s)) (zero (writefds s)) (zero (exceptfds s)) in
               Some (0, Some (write_back_select_results pfds n s))
           | Some (Ok count, pfds) => Some (count, Some (write_back_select_results pfds n s))
           | Some (Err e, _) => Some (e, None)
           | _ => None
           end
  | (Err e, _) => Some (e, None)
  | (Panic, _) => None
  end.

(** A null pointer reads as an empty set.  The result is the value returned and the sets
    written, if any. *)
Definition select (vw : option view) (nfds : Z) (s : FdSets) (timeout : option Timeval) (now : Z) (rounds : list Round)
  : option (Z * option FdSets) :=
  if (nfds <? 0) || (Z.of_nat FD_SETSIZE <? nfds) then Some (- EINVAL, None)
  else
    let n := Z.to_nat nfds in
    match timeout with
    | None => select_wait vw n s rounds None
    | Some tv =>
        if (sec tv =? 0) && (usec tv =? 0) then
          match poll_fd_set_for_pid vw (select_pfds n 0 s) with
          | (Ok ready, pfds) => Some (Z.of_nat ready, Some (write_back_select_results pfds n s))
          | (Err e, _) => Some (e, None)
          | (Panic, _) => None
          end
        else if negb (valid_timeval tv) then Some (- EINVAL, None)
        else select_wait vw n s rounds (Some (saturating_add now (timeval_to_ns tv)))
    end.
