(* ===== verification/PollSpec.v ===== *)
(** * poll, ppoll and select: what the calls report

    The readiness scan against its specification, the outcomes of the wait, and the
    descriptor sets that [select] writes back. *)

From Stdlib Require Import ZifyBool.
From S2P Require Import Prelude TimerQueue Sched Pipe UnixSocket TimeCalls PollCalls.
Open Scope twilight_scope.

(** ** The scan *)

(** What a scan reports of one entry. *)
Definition reported (vw : view) (p : PollFd) : Z :=
  if fd p <? 0 then 0 else match vw (fd p) with None => POLLNVAL | Some v => fd_revents (events p) v end.

Definition scanned (vw : view) (fds : list PollFd) : list PollFd := (fun p => set_revents (reported vw p) p) <$> fds.
Definition ready_count (fds : list PollFd) : nat := length (filter (fun p => revents p <> 0) fds).

Lemma poll_one_eq vw p :
  poll_one vw p = (set_revents (reported vw p) p, if decide (reported vw p <> 0) then 1%nat else 0%nat).
Proof.
  unfold poll_one, reported. destruct (fd p <? 0); [done|]. destruct (vw (fd p)) as [v|]; [|done].
  destruct (Z.eqb_spec (fd_revents (events p) v) 0) as [->|Hne]; [done|]. by rewrite decide_True.
Qed.

Lemma poll_fd_set_eq vw fds : poll_fd_set vw fds = (scanned vw fds, ready_count (scanned vw fds)).
Proof.
  induction fds as [|p fds IH]; [done|]. cbn [poll_fd_set]. rewrite poll_one_eq, IH. unfold ready_count, scanned.
  rewrite fmap_cons, filter_cons. cbn [revents set_revents]. by case_decide.
Qed.

(** A scan does not look at the answers of the scans before it. *)
Lemma scanned_scanned vw vw' fds : scanned vw (scanned vw' fds) = scanned vw fds.
Proof. unfold scanned. rewrite <- list_fmap_compose. by apply list_fmap_ext. Qed.

Lemma wants_bit ev i : 0 <= i -> wants ev (2 ^ i) = Z.testbit ev i.
Proof.
  intros Hi. unfold wants. destruct (Z.testbit ev i) eqn:E.
  - apply negb_true_iff, Z.eqb_neq. intros H. apply (f_equal (fun z => Z.testbit z i)) in H.
    rewrite Z.land_spec, E, Z.pow2_bits_true, Z.bits_0 in H by lia. done.
  - apply negb_false_iff, Z.eqb_eq, Z.bits_inj'. intros j Hj. rewrite Z.land_spec, Z.bits_0, Z.pow2_bits_eqb by lia.
    destruct (Z.eqb_spec i j) as [->|]; [by rewrite E|apply andb_false_r].
Qed.

(** The bits of [r] are allowed by [ok]. *)
Definition within (r ok : Z) : Prop := forall i, 0 <= i -> Z.testbit r i = true -> Z.testbit ok i = true.

Lemma within_0 ok : within 0 ok.
Proof. intros i _. by rewrite Z.bits_0. Qed.

Lemma within_flag b j r ok : 0 <= j -> within r ok -> (b = true -> Z.testbit ok j = true) -> within (flag b (2 ^ j) r) ok.
Proof.
  intros Hj Hr Hb. unfold flag. destruct b; [|done]. intros i Hi. rewrite Z.lor_spec, orb_true_iff, Z.pow2_bits_eqb by lia.
  intros [H| <-%Z.eqb_eq]; auto.
Qed.

(** The events asked for, and those reported without being asked. *)
Definition allowed (ev : Z) : Z := Z.lor ev (Z.lor (Z.lor POLLERR POLLHUP) POLLNVAL).

Lemma fd_revents_within ev v : within (fd_revents ev v) (allowed ev).
Proof.
  assert (Hw : forall j b, 0 <= j -> wants ev (2 ^ j) && b = true -> Z.testbit (allowed ev) j = true).
  { intros j b Hj. rewrite wants_bit by done. intros [H _]%andb_true_iff. unfold allowed. by rewrite Z.lor_spec, H. }
  assert (H0 := Hw 0 true ltac:(lia)). rewrite andb_true_r in H0.
  assert (He : Z.testbit (allowed ev) 3 = true) by (unfold allowed; rewrite Z.lor_spec; apply orb_true_r).
  assert (Hh : Z.testbit (allowed ev) 4 = true) by (unfold allowed; rewrite Z.lor_spec; apply orb_true_r).
  unfold fd_revents. change POLLIN with (2 ^ 0) in *. change POLLOUT with (2 ^ 2). change POLLERR with (2 ^ 3).
  change POLLHUP with (2 ^ 4).
  destruct v as [ready fl|st|ps|rd wr|fl].
  - apply within_flag; [lia| |apply Hw; lia]. destruct (wants ev (2 ^ 0)) eqn:Ew; [|apply within_0].
    destruct ready as [[]| |]; [|apply within_0| |]; intros i Hi; rewrite Z.pow2_bits_eqb by lia; intros <-%Z.eqb_eq; auto.
  - repeat (apply within_flag; [lia| |]); auto using within_0; apply Hw; lia.
  - repeat (apply within_flag; [lia| |]); auto using within_0; apply Hw; lia.
  - repeat (apply within_flag; [lia| |]); auto using within_0; apply Hw; lia.
  - repeat (apply within_flag; [lia| |]); auto using within_0; apply Hw; lia.
Qed.

(** A readiness scan keeps the entries and their requests, answers for each entry
    what the object behind it says, counts the entries with an answer, and reports only
    what was asked for, or an error, a hang-up or a bad descriptor. *)
Theorem poll_scan_exact (vw : view) (fds : list PollFd) :
  let '(fds', n) := poll_fd_set vw fds in
  length fds' = length fds /\ n = ready_count fds' /\
  forall i p, fds !! i = Some p ->
    fds' !! i = Some (mkPollFd (fd p) (events p) (reported vw p)) /\ within (reported vw p) (allowed (events p)) /\
    (fd p < 0 -> reported vw p = 0).
Proof.
  rewrite poll_fd_set_eq. split; [apply length_fmap|]. split; [done|]. intros i p Hp. unfold scanned.
  rewrite list_lookup_fmap, Hp. split; [done|]. unfold reported. split; [|intros H; by rewrite (proj2 (Z.ltb_lt _ _) H)].
  destruct (fd p <? 0); [apply within_0|]. destruct (vw (fd p)); [apply fd_revents_within|].
  intros j Hj. unfold allowed. rewrite !Z.lor_spec. by intros ->; rewrite !orb_true_r.
Qed.

(** ** The wait *)

(** What the rounds show. *)
Definition views_of (rounds : list Round) : list (option view) := rounds ≫= (fun r => [ro_view r; ro_wake_view r]).
Definition clocks_of (rounds : list Round) : list Z := rounds ≫= (fun r => [ro_clock r; ro_clock' r; ro_wake_clock r]).
Definition signalled (r : Round) : bool := ro_signal r || bool_decide (ro_reason r = Signal).

(** The outcome [(v, out)] of a call on [fds] is accounted for by what it saw. *)
Inductive accounted (fds : list PollFd) (views : list (option view)) (clocks : list Z) (signals : list bool)
    (deadline : option Z) : Z -> list PollFd -> Prop :=
| acc_ready vw : Some vw ∈ views -> (0 < ready_count (scanned vw fds))%nat ->
    accounted fds views clocks signals deadline (Z.of_nat (ready_count (scanned vw fds))) (scanned vw fds)
| acc_timeout d t vw : deadline = Some d -> t ∈ clocks -> d <= t -> Some vw ∈ views -> ready_count (scanned vw fds) = 0%nat ->
    accounted fds views clocks signals deadline 0 (scanned vw fds)
| acc_signal out : true ∈ signals -> accounted fds views clocks signals deadline (- EINTR) out
| acc_gone out : None ∈ views -> accounted fds views clocks signals deadline (- ESRCH) out.

Lemma accounted_mono fds views views' clocks clocks' signals signals' deadline v out :
  views ⊆ views' -> clocks ⊆ clocks' -> signals ⊆ signals' ->
  accounted fds views clocks signals deadline v out -> accounted fds views' clocks' signals' deadline v out.
Proof.
  intros Hv Hc Hs [vw Hin Hr|d t vw Hd Ht Hle Hin Hr|out' Hin|out' Hin].
  - apply acc_ready; auto.
  - eapply acc_timeout; eauto.
  - apply acc_signal; auto.
  - apply acc_gone; auto.
Qed.

Definition value (r : res Z Z) : Z := match r with Ok n => n | Err e => e | Panic => 0 end.

Lemma scan_pid_eq vw fds : poll_fd_set_for_pid (Some vw) fds = (Ok (ready_count (scanned vw fds)), scanned vw fds).
Proof. unfold poll_fd_set_for_pid. by rewrite poll_fd_set_eq. Qed.

Lemma expired_some deadline t : expired deadline t = true -> exists d, deadline = Some d /\ d <= t.
Proof. destruct deadline as [d|]; [|done]. intros H. exists d. cbn in H. split; [done|lia]. Qed.

Lemma views_cons r rounds : views_of (r :: rounds) = ro_view r :: ro_wake_view r :: views_of rounds.
Proof. done. Qed.

Lemma clocks_cons r rounds : clocks_of (r :: rounds) = ro_clock r :: ro_clock' r :: ro_wake_clock r :: clocks_of rounds.
Proof. done. Qed.

(** [prev] is the last scan, which found nothing. *)
Lemma wait_accounted rounds fds prev deadline r out :
  ready_count (scanned prev fds) = 0%nat ->
  wait_for_ready rounds (scanned prev fds) deadline = Some (r, out) ->
  accounted fds (Some prev :: views_of rounds) (clocks_of rounds) (signalled <$> rounds) deadline (value r) out.
Proof.
  revert prev. induction rounds as [|ro rounds IH]; intros prev Hprev; [done|]. cbn [wait_for_ready].
  set (V := Some prev :: views_of (ro :: rounds)). set (C := clocks_of (ro :: rounds)).
  set (S := signalled <$> (ro :: rounds)).
  assert (Hc : ro_clock ro ∈ C /\ ro_clock' ro ∈ C /\ ro_wake_clock ro ∈ C)
    by (unfold C; rewrite clocks_cons; rewrite !elem_of_cons; tauto).
  assert (Hv : ro_view ro ∈ V /\ ro_wake_view ro ∈ V) by (unfold V; rewrite views_cons; rewrite !elem_of_cons; tauto).
  assert (Hp : Some prev ∈ V) by by left.
  assert (Hs : signalled ro = true -> true ∈ S) by (intros <-; by left).
  assert (Hnext : forall vw, Some vw ∈ V -> ready_count (scanned vw fds) = 0%nat ->
    wait_for_ready rounds (scanned vw fds) deadline = Some (r, out) -> accounted fds V C S deadline (value r) out).
  { intros vw Hin H0 Hw. eapply accounted_mono; [| | |by apply (IH vw)].
    - intros x [->|Hx]%elem_of_cons; [done|]. unfold V. rewrite views_cons, !elem_of_cons. tauto.
    - intros x Hx. unfold C. rewrite clocks_cons, !elem_of_cons. tauto.
    - intros x Hx. by right. }
  destruct (ro_signal ro) eqn:Esig; [intros [= <- <-]; apply acc_signal, Hs; unfold signalled; by rewrite Esig|].
  destruct (expired deadline (ro_clock ro)) eqn:Ex1.
  { intros [= <- <-]. destruct (expired_some _ _ Ex1) as (d & Hd & Hle). eapply acc_timeout; eauto; apply Hc. }
  destruct (ro_view ro) as [vw|] eqn:Evw; [|intros [= <- <-]; apply acc_gone; apply Hv].
  rewrite scan_pid_eq, scanned_scanned. destruct (0 <? ready_count (scanned vw fds))%nat eqn:Er.
  { intros [= <- <-]. apply acc_ready; [apply Hv|lia]. }
  assert (Hr0 : ready_count (scanned vw fds) = 0%nat) by lia.
  destruct (expired deadline (ro_clock' ro)) eqn:Ex2.
  { intros [= <- <-]. destruct (expired_some _ _ Ex2) as (d & Hd & Hle). eapply acc_timeout; eauto; [apply Hc|apply Hv]. }
  destruct (ro_reason ro) eqn:Ereason.
  - destruct (expired deadline (ro_wake_clock ro)) eqn:Ex3; [|apply Hnext; [apply Hv|done]].
    destruct (ro_wake_view ro) as [vw'|]; [|intros [= <- <-]; apply acc_gone; apply Hv].
    rewrite scan_pid_eq, scanned_scanned. destruct (0 <? ready_count (scanned vw' fds))%nat eqn:Er'.
    + intros [= <- <-]. apply acc_ready; [apply Hv|lia].
    + intros [= <- <-]. destruct (expired_some _ _ Ex3) as (d & Hd & Hle). eapply acc_timeout; eauto; [apply Hc|apply Hv|lia].
  - destruct (ro_wake_view ro) as [vw'|]; [|intros [= <- <-]; apply acc_gone; apply Hv].
    rewrite scan_pid_eq, scanned_scanned. destruct (0 <? ready_count (scanned vw' fds))%nat eqn:Er'.
    + intros [= <- <-]. apply acc_ready; [apply Hv|lia].
    + apply Hnext; [apply Hv|lia].
  - intros [= <- <-]. apply acc_signal, Hs. unfold signalled. by rewrite Ereason, orb_true_r.
  - apply Hnext; [apply Hv|done].
Qed.

(** A round after which the wait is over. *)
Definition conclusive (fds : list PollFd) (deadline : option Z) (ro : Round) : bool :=
  signalled ro || expired deadline (ro_clock ro) || expired deadline (ro_clock' ro) ||
  match ro_view ro with None => true | Some vw => (0 <? ready_count (scanned vw fds))%nat end.

Lemma wait_prompt rounds fds prev deadline :
  Exists (fun ro => conclusive fds deadline ro = true) rounds ->
  is_Some (wait_for_ready rounds (scanned prev fds) deadline).
Proof.
  intros H. revert prev. induction H as [ro rounds Hro|ro rounds _ IH]; intros prev; cbn [wait_for_ready].
  - unfold conclusive, signalled in Hro. destruct (ro_signal ro); [by eexists|].
    destruct (expired deadline (ro_clock ro)); [by eexists|].
    destruct (ro_view ro) as [vw|]; [|by eexists]. rewrite scan_pid_eq, scanned_scanned.
    destruct (0 <? _)%nat; [by eexists|]. destruct (expired deadline (ro_clock' ro)); [by eexists|].
    destruct (ro_reason ro); cbn in Hro; try discriminate. by eexists.
  - destruct (ro_signal ro); [by eexists|]. destruct (expired deadline (ro_clock ro)); [by eexists|].
    destruct (ro_view ro) as [vw|]; [|by eexists]. rewrite scan_pid_eq, scanned_scanned.
    destruct (0 <? _)%nat; [by eexists|]. destruct (expired deadline (ro_clock' ro)); [by eexists|].
    destruct (ro_reason ro); try (by eexists); [| |apply IH].
    + destruct (expired deadline (ro_wake_clock ro)); [|apply IH].
      destruct (ro_wake_view ro) as [vw'|]; [|by eexists]. rewrite scan_pid_eq. destruct (0 <? _)%nat; by eexists.
    + destruct (ro_wake_view ro) as [vw'|]; [|by eexists]. rewrite scan_pid_eq, scanned_scanned.
      destruct (0 <? _)%nat; [by eexists|apply IH].
Qed.

Lemma poll_from_accounted vw zero deadline rounds fds v out :
  poll_from vw zero deadline rounds fds = Some (v, out) ->
  (zero = true /\ v = 0 /\ exists vw', vw = Some vw' /\ out = scanned vw' fds /\ ready_count out = 0%nat) \/
  accounted fds (vw :: views_of rounds) (clocks_of rounds) (signalled <$> rounds) deadline v out.
Proof.
  unfold poll_from. destruct vw as [vw|]; [|intros [= <- <-]; right; apply acc_gone; by left].
  rewrite scan_pid_eq. destruct (0 <? ready_count (scanned vw fds))%nat eqn:Er.
  { intros [= <- <-]. right. apply acc_ready; [by left|lia]. }
  destruct zero; [intros [= <- <-]; left; split; [done|split; [done|exists vw; split; [done|split; [done|lia]]]]|].
  destruct (wait_for_ready _ _ _) as [[r out']|] eqn:Ew; [|done]. intros Hv. right.
  apply (wait_accounted _ _ vw) in Ew; [|lia]. by destruct r; simplify_eq.
Qed.

Lemma poll_from_prompt vw zero deadline rounds fds :
  Exists (fun ro => conclusive fds deadline ro = true) rounds -> is_Some (poll_from vw zero deadline rounds fds).
Proof.
  intros H. unfold poll_from. destruct vw as [vw|]; [|by eexists]. rewrite scan_pid_eq.
  destruct (0 <? _)%nat; [by eexists|]. destruct zero; [by eexists|].
  destruct (wait_prompt rounds fds vw deadline H) as [[r out] Ew]. rewrite Ew.
  destruct r as [n|e|]; [by eexists|by eexists|]. exfalso.
  clear H. revert Ew. generalize vw. induction rounds as [|ro rounds IH]; intros vw'; [done|]. cbn [wait_for_ready].
  unfold poll_fd_set_for_pid. repeat (case_match; simplify_eq; try done);
    rewrite ?poll_fd_set_eq in *; simplify_eq; rewrite ?scanned_scanned; apply IH.
Qed.

Lemma poll_deadline timeout_ms now : 0 <= timeout_ms < 2 ^ 63 -> 0 <= now ->
  poll_timeout_to_deadline timeout_ms now = Some (Z.min U64_MAX (now + timeout_ms * 1000000)).
Proof.
  intros H Hn. unfold poll_timeout_to_deadline, saturating_add, saturating_mul, wrap, U64_MAX.
  rewrite (proj2 (Z.ltb_ge _ _)), Z.mod_small by lia. f_equal. lia.
Qed.

(** C20. On a valid array, poll answers the exact number of entries answered in the array it leaves, which is a scan of the descriptors at some moment of the call; or zero, with no entry answered, when the timeout is zero or the clock was seen at or after the time of the call plus the timeout, never for a negative timeout; or EINTR after a signal. And it does answer once a round shows a signal, the end of the timeout or a ready descriptor. *)
Theorem poll_decided (vw : option view) (fds_ptr nfds timeout_ms now : Z) (rounds : list Round) (fds : list PollFd) :
  nfds <= MAX_NFDS -> (nfds = 0 \/ fds_ptr <> 0) -> timeout_ms < 2 ^ 63 -> 0 <= now ->
  let deadline := if timeout_ms <? 0 then None else Some (Z.min U64_MAX (now + timeout_ms * 1000000)) in
  let answer := poll vw fds_ptr nfds timeout_ms now rounds fds in
  (forall v out, answer = Some (v, out) ->
     (timeout_ms = 0 /\ v = 0 /\ exists vw', vw = Some vw' /\ out = scanned vw' fds /\ ready_count out = 0%nat) \/
     accounted fds (vw :: views_of rounds) (clocks_of rounds) (signalled <$> rounds) deadline v out) /\
  (Exists (fun ro => conclusive fds deadline ro = true) rounds -> is_Some answer).
Proof.
  intros Hn Hp Ht Hnow deadline.
  assert (Ed : poll_timeout_to_deadline timeout_ms now = deadline).
  { unfold deadline. destruct (Z.ltb_spec timeout_ms 0) as [Hl|Hl]; [|by apply poll_deadline].
    unfold poll_timeout_to_deadline. by rewrite (proj2 (Z.ltb_lt _ _) Hl). }
  unfold poll. rewrite (proj2 (Z.ltb_ge _ _) Hn), Ed.
  assert (E : negb (nfds =? 0) && (fds_ptr =? 0) = false) by (destruct Hp; lia). rewrite E. split.
  - intros v out [(Hz & H)|H]%poll_from_accounted; [left; split; [lia|done]|by right].
  - apply poll_from_prompt.
Qed.

(** A pipe becomes readable while the call waits. *)
Definition quiet_round (vw' : view) : Round := mkRound false 10 (Some (fun _ => Some (VInet false false))) 11 Event 20 (Some vw').
Definition end_round : Round := mkRound false 30 None 31 Event 32 None.

Lemma poll_decided_witness :
  let pipe := fun _ => Some (VPipe (mkPoll true false false false)) in
  let rounds := [quiet_round pipe; end_round] in
  let fds := [mkPollFd 3 POLLIN 0] in
  poll (Some (fun _ => Some (VInet false false))) 4096 1 5 0 rounds fds = Some (1, [mkPollFd 3 POLLIN POLLIN]) /\
  is_Some (poll (Some (fun _ => Some (VInet false false))) 4096 1 5 0 rounds fds).
Proof.
  intros pipe rounds fds. split; [vm_compute; reflexivity|].
  refine (proj2 (poll_decided (Some (fun _ => Some (VInet false false))) 4096 1 5 0 rounds fds _ _ _ _) _);
    [vm_compute; discriminate|right; lia|lia|lia|]. apply Exists_cons_tl, Exists_cons_hd. vm_compute. reflexivity.
Defined.

(** [ppoll] leaves the process as it found it, on every path, when SIGKILL and SIGSTOP
    were not blocked. *)
Theorem ppoll_restores_mask vw fds_ptr nfds tmo sigmask p now rounds fds :
  Z.ldiff (Z.ldiff (signal_mask p).1 (signal_bit SIGKILL)) (signal_bit SIGSTOP) = (signal_mask p).1 ->
  pp_after (ppoll vw fds_ptr nfds tmo sigmask p now rounds fds) = p.
Proof.
  intros H. unfold ppoll. repeat case_match; try done; cbn; unfold install_signal_mask; rewrite H, <- surjective_pairing; by destruct p.
Qed.

(** ** Descriptor sets *)

Definition wf_set (s : FdSet) : Prop := length s = 16%nat.

Lemma wf_set_set n s : wf_set s -> wf_set (set n s).
Proof. unfold wf_set, set. case_match; [by rewrite length_alter|done]. Qed.
Lemma wf_set_clr n s : wf_set s -> wf_set (clr n s).
Proof. unfold wf_set, clr. case_match; [by rewrite length_alter|done]. Qed.

Lemma isset_testbit n s : (n < FD_SETSIZE)%nat ->
  isset n s = Z.testbit (default 0 (s !! (n / NFDBITS)%nat)) (Z.of_nat (n mod NFDBITS)).
Proof.
  intros H. unfold isset. rewrite (proj2 (Nat.leb_gt _ _) H). rewrite <- wants_bit by lia.
  unfold wants, bit_of. by rewrite Z.shiftl_1_l.
Qed.

Lemma word_index n : (n < FD_SETSIZE)%nat -> (n / NFDBITS < 16)%nat.
Proof. intros H. apply Nat.Div0.div_lt_upper_bound; unfold NFDBITS, FD_SETSIZE in *; lia. Qed.

Lemma bit_of_testbit n i : 0 <= i -> Z.testbit (bit_of n) i = (i =? Z.of_nat (n mod NFDBITS)).
Proof. intros Hi. unfold bit_of. rewrite Z.shiftl_1_l, Z.pow2_bits_eqb by lia. apply Z.eqb_sym. Qed.

Lemma same_bit n k : (n / NFDBITS)%nat = (k / NFDBITS)%nat ->
  (Z.of_nat (k mod NFDBITS) =? Z.of_nat (n mod NFDBITS)) = (k =? n)%nat.
Proof.
  intros H. destruct (Nat.eqb_spec k n) as [->|Hne]; [apply Z.eqb_refl|]. apply Z.eqb_neq. intros E. apply Hne.
  rewrite (Nat.div_mod_eq k NFDBITS), (Nat.div_mod_eq n NFDBITS). lia.
Qed.

Lemma isset_set n k s : wf_set s -> (n < FD_SETSIZE)%nat -> (k < FD_SETSIZE)%nat -> isset k (set n s) = (k =? n)%nat || isset k s.
Proof.
  intros Hw Hn Hk. rewrite !isset_testbit by done. unfold set. rewrite (proj2 (Nat.ltb_lt _ _) Hn).
  destruct (lookup_lt_is_Some_2 s (k / NFDBITS)%nat) as [w Hs]; [rewrite Hw; by apply word_index|].
  destruct (decide (n / NFDBITS = k / NFDBITS)%nat) as [E|E].
  - rewrite E, list_lookup_alter_eq, Hs. cbn [from_option fmap option_fmap option_map id]. rewrite Z.lor_spec, bit_of_testbit by lia. rewrite same_bit by done. apply orb_comm.
  - rewrite list_lookup_alter_ne by done. destruct (Nat.eqb_spec k n) as [->|]; done.
Qed.

Lemma isset_clr n k s : wf_set s -> (n < FD_SETSIZE)%nat -> (k < FD_SETSIZE)%nat ->
  isset k (clr n s) = negb (k =? n)%nat && isset k s.
Proof.
  intros Hw Hn Hk. rewrite !isset_testbit by done. unfold clr. rewrite (proj2 (Nat.ltb_lt _ _) Hn).
  destruct (lookup_lt_is_Some_2 s (k / NFDBITS)%nat) as [w Hs]; [rewrite Hw; by apply word_index|].
  destruct (decide (n / NFDBITS = k / NFDBITS)%nat) as [E|E].
  - rewrite E, list_lookup_alter_eq, Hs. cbn [from_option fmap option_fmap option_map id]. rewrite Z.ldiff_spec, bit_of_testbit by lia. rewrite same_bit by done. apply andb_comm.
  - rewrite list_lookup_alter_ne by done. destruct (Nat.eqb_spec k n) as [->|]; done.
Qed.

(** ** The sets written back *)

Definition wf_sets (s : FdSets) : Prop := wf_set (readfds s) /\ wf_set (writefds s) /\ wf_set (exceptfds s).

Lemma clear_below_spec n s : wf_sets s -> (n <= FD_SETSIZE)%nat ->
  wf_sets (clear_below n s) /\ forall k, (k < FD_SETSIZE)%nat ->
    isset k (readfds (clear_below n s)) = negb (k <? n)%nat && isset k (readfds s) /\
    isset k (writefds (clear_below n s)) = negb (k <? n)%nat && isset k (writefds s) /\
    isset k (exceptfds (clear_below n s)) = negb (k <? n)%nat && isset k (exceptfds s).
Proof.
  intros Hs. induction n as [|n IH]; intros Hn; [done|]. destruct (IH ltac:(lia)) as [(W1 & W2 & W3) Hk]. cbn [clear_below].
  split; [split_and!; cbn; by apply wf_set_clr|]. intros k Hlt. cbn [readfds writefds exceptfds].
  rewrite !isset_clr by (done || lia). destruct (Hk k Hlt) as (-> & -> & ->).
  assert (E : forall b, negb (k =? n)%nat && (negb (k <? n)%nat && b) = negb (k <? S n)%nat && b) by (intros []; lia).
  by rewrite !E.
Qed.

(** The entry [p] is about descriptor [k]. *)
Definition about (k : nat) (p : PollFd) : bool := (Z.to_nat (fd p) =? k)%nat.

Definition read_mask : Z := Z.lor (Z.lor POLLIN POLLHUP) POLLERR.
Definition except_mask : Z := Z.lor POLLERR POLLNVAL.

Lemma report_spec n pfds s : wf_sets s -> (n <= FD_SETSIZE)%nat ->
  forall k, (k < FD_SETSIZE)%nat ->
    let out := fold_left (report_one n) pfds s in
    let any bits := existsb (fun p => about k p && wants (revents p) bits) pfds in
    isset k (readfds out) = ((k <? n)%nat && any read_mask) || isset k (readfds s) /\
    isset k (writefds out) = ((k <? n)%nat && any POLLOUT) || isset k (writefds s) /\
    isset k (exceptfds out) = ((k <? n)%nat && any except_mask) || isset k (exceptfds s).
Proof.
  intros Hs Hn k Hk. revert s Hs. induction pfds as [|p pfds IH]; intros s Hs; cbn [fold_left existsb].
  - by rewrite !andb_false_r.
  - assert (Hw : wf_sets (report_one n s p)).
    { unfold report_one. destruct Hs as (? & ? & ?). destruct (n <=? _)%nat; [done|].
      split_and!; cbn; case_match; auto using wf_set_set. }
    destruct (IH _ Hw) as (-> & -> & ->). clear IH. unfold report_one, about. fold read_mask except_mask.
    destruct Hs as (S1 & S2 & S3). destruct (n <=? Z.to_nat (fd p))%nat eqn:El; cbn [readfds writefds exceptfds].
    + assert (E : forall a b c, (k <? n)%nat && ((Z.to_nat (fd p) =? k)%nat && a || b) || c = (k <? n)%nat && b || c)
        by (intros [] [] []; lia). by rewrite !E.
    + assert (E : forall (a b : bool) (t : FdSet), wf_set t ->
        (k <? n)%nat && b || isset k (if a then set (Z.to_nat (fd p)) t else t) =
        (k <? n)%nat && ((Z.to_nat (fd p) =? k)%nat && a || b) || isset k t).
      { intros a b t Ht. destruct a; [rewrite isset_set by (done || lia)|]; destruct (isset k t), b; lia. }
      by rewrite !E.
Qed.

(** ** select *)

(** What the scan [vw] says of descriptor [k], watched as the sets say. *)
Definition select_reported (vw : view) (s : FdSets) (k : nat) : Z :=
  if select_events s k =? 0 then 0 else reported vw (mkPollFd (Z.of_nat k) (select_events s k) 0).

Lemma select_scanned vw s count n k bits :
  existsb (fun p => about k p && wants (revents p) bits) (scanned vw (select_pfds count n s)) =
  ((n <=? k) && (k <? n + count))%nat && wants (select_reported vw s k) bits.
Proof.
  revert n. induction count as [|count IH]; intros n; cbn [select_pfds]; [cbn [scanned fmap list_fmap existsb]; destruct (wants _ _); lia|].
  assert (Hk : forall b, ((n <=? k) && (k <? n + S count))%nat && b =
     ((n =? k)%nat && b) || (((S n <=? k) && (k <? S n + count))%nat && b)) by (intros []; lia).
  rewrite Hk. destruct (select_events s n =? 0) eqn:E.
  - rewrite IH. destruct (Nat.eqb_spec n k) as [Hnk|Hnk]; [subst k|done]. unfold select_reported. rewrite E. cbn [wants Z.land Z.eqb negb andb]. by rewrite andb_false_r.
  - unfold scanned. rewrite fmap_cons. cbn [existsb]. fold (scanned vw (select_pfds count (S n) s)). rewrite IH. f_equal.
    unfold about. cbn [fd set_revents revents]. rewrite Nat2Z.id. destruct (Nat.eqb_spec n k) as [Hnk|Hnk]; [subst k|done].
    unfold select_reported. by rewrite E.
Qed.

Lemma wait_ok_nonneg rounds fds deadline n out : wait_for_ready rounds fds deadline = Some (Ok n, out) -> 0 <= n.
Proof.
  revert fds. induction rounds as [|ro rounds IH]; intros fds; [done|]. cbn [wait_for_ready].
  repeat (case_match; simplify_eq/=; try (intros; simplify_eq/=; lia)); eauto.
Qed.

Lemma wait_ok_scan rounds fds prev deadline n out : ready_count (scanned prev fds) = 0%nat ->
  wait_for_ready rounds (scanned prev fds) deadline = Some (Ok n, out) ->
  exists vw, out = scanned vw fds /\ n = Z.of_nat (ready_count out).
Proof.
  intros H0 Hw. pose proof (wait_ok_nonneg _ _ _ _ _ Hw) as Hn. apply wait_accounted in Hw; [|done]. cbn in Hw.
  inversion Hw; subst; try (unfold EINTR, ESRCH in *; lia); eauto. exists vw. split; [done|lia].
Qed.

(** A descriptor set after the call: the answers below [nfds], and above it the bits of
    the caller, or none after a timeout. *)
Definition set_after (n : nat) (timed_out : bool) (answers : nat -> bool) (before after : FdSet) : Prop :=
  forall k, (k < FD_SETSIZE)%nat ->
    isset k after = if (k <? n)%nat then answers k else negb timed_out && isset k before.

Lemma zero_isset k s : isset k (zero s) = false.
Proof.
  unfold isset. case_match; [done|]. unfold zero. destruct (replicate 16 0 !! (k / NFDBITS)%nat) eqn:E; [|done].
  apply lookup_replicate in E as [-> _]. done.
Qed.

Lemma merged_bit (k n : nat) (a c : bool) :
  (k <? n)%nat && (((0 <=? k) && (k <? 0 + n))%nat && a) || negb (k <? n)%nat && c = if (k <? n)%nat then a else c.
Proof. rewrite Nat.add_0_l. change (0 <=? k)%nat with true. destruct (k <? n)%nat, a, c; reflexivity. Qed.

Lemma write_back_spec vw n s s0 b : wf_sets s -> wf_sets s0 -> (n <= FD_SETSIZE)%nat ->
  (forall k, isset k (readfds s0) = negb b && isset k (readfds s)) ->
  (forall k, isset k (writefds s0) = negb b && isset k (writefds s)) ->
  (forall k, isset k (exceptfds s0) = negb b && isset k (exceptfds s)) ->
  let out := write_back_select_results (scanned vw (select_pfds n 0 s)) n s0 in
  set_after n b (fun k => wants (select_reported vw s k) read_mask) (readfds s) (readfds out) /\
  set_after n b (fun k => wants (select_reported vw s k) POLLOUT) (writefds s) (writefds out) /\
  set_after n b (fun k => wants (select_reported vw s k) except_mask) (exceptfds s) (exceptfds out).
Proof.
  intros Hs Hs0 Hn E1 E2 E3 out. destruct (clear_below_spec n s0 Hs0 Hn) as [Hw Hc].
  pose proof (report_spec n (scanned vw (select_pfds n 0 s)) _ Hw Hn) as Hr.
  split_and!; intros k Hk; destruct (Hc k Hk) as (C1 & C2 & C3), (Hr k Hk) as (R1 & R2 & R3); unfold out, write_back_select_results.
  - rewrite R1, C1, E1, select_scanned. apply merged_bit.
  - rewrite R2, C2, E2, select_scanned. apply merged_bit.
  - rewrite R3, C3, E3, select_scanned. apply merged_bit.
Qed.

(** The sets after the call, from the scan [vw]. *)
Definition sets_after (n : nat) (timed_out : bool) (vw : view) (s out : FdSets) : Prop :=
  set_after n timed_out (fun k => wants (select_reported vw s k) read_mask) (readfds s) (readfds out) /\
  set_after n timed_out (fun k => wants (select_reported vw s k) POLLOUT) (writefds s) (writefds out) /\
  set_after n timed_out (fun k => wants (select_reported vw s k) except_mask) (exceptfds s) (exceptfds out).

Lemma write_back_kept vw n s : wf_sets s -> (n <= FD_SETSIZE)%nat ->
  sets_after n false vw s (write_back_select_results (scanned vw (select_pfds n 0 s)) n s).
Proof. intros Hs Hn. by apply write_back_spec. Qed.

Lemma write_back_zeroed vw n s : wf_sets s -> (n <= FD_SETSIZE)%nat ->
  sets_after n true vw s (write_back_select_results (scanned vw (select_pfds n 0 s)) n
    (mkSets (zero (readfds s)) (zero (writefds s)) (zero (exceptfds s)))).
Proof. intros Hs Hn. apply write_back_spec; try done; intros k; apply zero_isset. Qed.

Lemma select_wait_sets vw n s rounds deadline v out : wf_sets s -> (n <= FD_SETSIZE)%nat ->
  select_wait vw n s rounds deadline = Some (v, Some out) ->
  exists vw' b, v = Z.of_nat (ready_count (scanned vw' (select_pfds n 0 s))) /\ (b = true -> v = 0) /\ sets_after n b vw' s out.
Proof.
  intros Hs Hn. unfold select_wait. destruct vw as [vw|]; [|done]. rewrite scan_pid_eq.
  destruct (0 <? _)%nat eqn:Er; [intros [= <- <-]; exists vw, false; split; [done|]; split; [done|by apply write_back_kept]|].
  destruct (wait_for_ready _ _ _) as [[[c|e|] pfds]|] eqn:Ew; [|done|done|done].
  assert (Hz : ready_count (scanned vw (select_pfds n 0 s)) = 0%nat) by lia.
  destruct (wait_ok_scan _ _ vw _ _ _ Hz Ew) as (vw' & -> & ->).
  destruct (Z.of_nat (ready_count _)) as [|c|c] eqn:Ec; intros [= <- <-].
  - exists vw', true. split; [done|]. split; [done|by apply write_back_zeroed].
  - exists vw', false. split; [done|]. split; [done|by apply write_back_kept].
  - exists vw', false. split; [done|]. split; [done|by apply write_back_kept].
Qed.

(** When select returns sets there is a scan of the watched descriptors such that the value returned counts the descriptors it reports, and each set holds, below nfds, exactly the descriptors whose report has the bits of that set; above nfds a set keeps its bits, unless the call timed out, which empties it. *)
Theorem select_sets (vw : option view) (nfds : Z) (s out : FdSets) (timeout : option Timeval) (now v : Z) (rounds : list Round) :
  wf_sets s -> select vw nfds s timeout now rounds = Some (v, Some out) ->
  let n := Z.to_nat nfds in
  exists vw' b, v = Z.of_nat (ready_count (scanned vw' (select_pfds n 0 s))) /\ (b = true -> v = 0) /\ sets_after n b vw' s out.
Proof.
  intros Hs. unfold select. destruct (_ || _) eqn:Eb; [done|]. cbv zeta.
  assert (Hn : (Z.to_nat nfds <= FD_SETSIZE)%nat) by lia.
  destruct timeout as [tv|]; [|by apply select_wait_sets].
  destruct (_ && _); [|destruct (negb _); [done|by apply select_wait_sets]].
  destruct vw as [vw|]; [|done]. rewrite scan_pid_eq. intros [= <- <-]. exists vw, false. split; [done|]. split; [done|by apply write_back_kept].
Qed.

(** A pipe that can be read, watched as descriptor 3. *)
Definition watch3 (rd wr ex : bool) : FdSets :=
  let on (b : bool) := if b then set 3 FdSet_default else FdSet_default in mkSets (on rd) (on wr) (on ex).
Definition readable_pipe : view := fun k => if k =? 3 then Some (VPipe (mkPoll true false false false)) else None.

Lemma select_sets_witness :
  exists out, select (Some readable_pipe) 4 (watch3 true false false) (Some (mkTimeval 0 0)) 0 [] = Some (1, Some out) /\
    isset 3 (readfds out) = true /\
    exists vw' b, 1 = Z.of_nat (ready_count (scanned vw' (select_pfds 4 0 (watch3 true false false)))) /\ (b = true -> 1 = 0) /\
      sets_after 4 b vw' (watch3 true false false) out.
Proof.
  eexists. split; [vm_compute; reflexivity|]. split; [vm_compute; reflexivity|].
  refine (select_sets (Some readable_pipe) 4 (watch3 true false false) _ (Some (mkTimeval 0 0)) 0 1 [] _ _);
    [repeat split|vm_compute; reflexivity].
Defined.

(** A descriptor watched only for exceptions is reported in the set of readers. *)
Theorem select_reports_unwatched :
  exists out, select (Some readable_pipe) 4 (watch3 false false true) (Some (mkTimeval 0 0)) 0 [] = Some (1, Some out) /\
    isset 3 (readfds (watch3 false false true)) = false /\ isset 3 (readfds out) = true /\ isset 3 (exceptfds out) = false.
Proof. eexists. by split_and!; vm_compute. Qed.

(** A descriptor that is not open is an exception of the set, not an error of the call. *)
Theorem select_bad_descriptor :
  exists out, select (Some (fun _ => None)) 4 (watch3 true false false) (Some (mkTimeval 0 0)) 0 [] = Some (1, Some out) /\
    isset 3 (readfds out) = false /\ isset 3 (exceptfds out) = true.
Proof. eexists. by split_and!; vm_compute. Qed.
