(* ===== verification/Iso9660.v ===== *)
(** * ISO 9660 (src/kernel/twilight_kernel/src/sys/fs/iso9660/mod.rs)

    The read-only file system of installation discs: finding the volume, parsing
    directory records, resolving paths and reading files, over any block device. *)

From Stdlib Require Import Ascii ZifyBool.
From S2P Require Import Prelude Bytes Text Utf BlockDev Vfs.
Open Scope twilight_scope.

Definition ISO_BLOCK_SIZE : nat := 2048.
Definition PVD_LBA : nat := 16.
Definition VOLUME_DESCRIPTOR_ID : list Z := [67; 68; 48; 48; 49].
Definition FLAG_DIRECTORY : Z := 0x02.
Definition FLAG_MULTI_EXTENT : Z := 0x80.

Record IsoEntry := mkEntry { ie_name : string; extent : Z; ie_size : Z; flags : Z }.

#[export] Instance IsoEntry_eq_dec : EqDecision IsoEntry.
Proof. solve_decision. Defined.

Definition is_dir (e : IsoEntry) : bool := negb (Z.land (flags e) FLAG_DIRECTORY =? 0).

(** ** Records and names *)

Definition byte_at (i : nat) (l : list Z) : Z := nth i l 0.

Definition record_name (raw : list Z) : option string :=
  if bool_decide (raw = [0]) then Some "."
  else if bool_decide (raw = [1]) then Some ".."
  else from_utf8 raw.

Definition parse_record (data : list Z) : option IsoEntry :=
  if (length data <? 34)%nat then None
  else
    let record_len := Z.to_nat (byte_at 0 data) in
    if (record_len <? 34)%nat || (length data <? record_len)%nat then None
    else
      let name_len := Z.to_nat (byte_at 32 data) in
      if (record_len <? 33 + name_len)%nat then None
      else
        name ← record_name (load 33 name_len data);
        Some (mkEntry name (from_le (load 2 4 data)) (from_le (load 10 4 data)) (byte_at 25 data)).

(** [name.split(';').next()], without final dots, in upper case. *)
Definition normalize_component (name : string) : string :=
  of_bytes (fold_case (trim_end_matches "."%char (default name (head (split ";"%char name))))).

(** The loop of [read_directory] over the bytes of a directory.  The fuel is a bound on
    its turns; [Panic] is running out of it. *)
Fixpoint parse_directory (fuel : nat) (bs : list Z) (offset : nat) : res unit (list IsoEntry) :=
  match fuel with
  | O => Panic
  | S fuel =>
      if (length bs <=? offset)%nat then Ok []
      else
        let record_len := Z.to_nat (byte_at offset bs) in
        if (record_len =? 0)%nat then parse_directory fuel bs ((offset / ISO_BLOCK_SIZE + 1) * ISO_BLOCK_SIZE)
        else if (length bs <? offset + record_len)%nat then Err tt
        else
          match parse_record (load offset record_len bs) with
          | None => Err tt
          | Some record =>
              if negb (Z.land (flags record) FLAG_MULTI_EXTENT =? 0) then Err tt
              else match parse_directory fuel bs (offset + record_len) with
                   | Ok rest => Ok (if bool_decide (ie_name record = ".") || bool_decide (ie_name record = "..")
                                    then rest else record :: rest)
                   | e => e
                   end
          end
  end.

Section device.
Context {D : Type} `{!BlockDeviceIO D}.

(** ** Reading bytes of the device *)

(** Offsets are below 2^44: an extent and a size are 32 bits wide. *)
Definition read_exact_at (offset n : nat) : M D unit (list Z) :=
  if (n =? 0)%nat then retM []
  else
    dev <-- getM ;;
    let block_size := dev_block_size dev in
    if (block_size =? 0)%nat then failM tt
    else
      let first_block := (offset / block_size)%nat in
      let last_byte := (offset + n)%nat in
      let last_block := ((last_byte + block_size - 1) / block_size)%nat in
      if (dev_block_count dev <? last_block)%nat then failM tt
      else
        let head_offset := (offset mod block_size)%nat in
        let head_count := if (head_offset =? 0)%nat then 0%nat else ((block_size - head_offset) `min` n)%nat in
        let block := if (head_offset =? 0)%nat then first_block else S first_block in
        head <-- (if (head_offset =? 0)%nat then retM []
                  else scratch <-- dev_read (u32 (Z.of_nat first_block)) block_size ;;
                       retM (load head_offset head_count scratch)) ;;
        let whole_blocks := ((n - head_count) / block_size)%nat in
        let whole_bytes := (whole_blocks * block_size)%nat in
        whole <-- (if (whole_blocks =? 0)%nat then retM []
                   else dev_read_blocks (u32 (Z.of_nat block)) whole_bytes) ;;
        let written := (head_count + whole_bytes)%nat in
        tail <-- (if (written <? n)%nat
                  then scratch <-- dev_read (u32 (Z.of_nat (block + whole_blocks))) block_size ;;
                       retM (take (n - written) scratch)
                  else retM []) ;;
        retM (head ++ whole ++ tail).

(** ** The volume *)

Definition is_descriptor (d : list Z) : bool := bool_decide (load 1 5 d = VOLUME_DESCRIPTOR_ID).

(** [for lba in PVD_LBA + 1..PVD_LBA + 32]. *)
Fixpoint check_descriptors (count lba : nat) : M D unit unit :=
  match count with
  | O => retM tt
  | S count =>
      d <-- read_exact_at (lba * ISO_BLOCK_SIZE) ISO_BLOCK_SIZE ;;
      if negb (is_descriptor d) then failM tt
      else if byte_at 0 d =? 2 then failM tt
      else if byte_at 0 d =? 255 then retM tt
      else check_descriptors count (S lba)
  end.

(** The root directory of the volume; the error texts are one error. *)
Definition probe : M D unit IsoEntry :=
  pvd <-- read_exact_at (PVD_LBA * ISO_BLOCK_SIZE) ISO_BLOCK_SIZE ;;
  if negb (byte_at 0 pvd =? 1) || negb (is_descriptor pvd) || negb (byte_at 6 pvd =? 1) then failM tt
  else
    check_descriptors 31 (S PVD_LBA) >>>
    if negb (Z.to_nat (from_le (load 128 2 pvd)) =? ISO_BLOCK_SIZE)%nat then failM tt
    else match parse_record (drop 156 pvd) with
         | None => failM tt
         | Some root => if is_dir root then retM root else failM tt
         end.

(** ** Directories *)

Definition read_directory (dir : IsoEntry) : M D unit (list IsoEntry) :=
  if negb (is_dir dir) then failM tt
  else
    bs <-- read_exact_at (Z.to_nat (extent dir) * ISO_BLOCK_SIZE) (Z.to_nat (ie_size dir)) ;;
    match parse_directory (S (length bs)) bs 0 with Ok es => retM es | Err e => failM e | Panic => panicM end.

Definition named (c : string) (e : IsoEntry) : Prop := normalize_component (ie_name e) = c.
#[export] Instance named_dec c e : Decision (named c e).
Proof. unfold named. apply _. Defined.

Fixpoint find_components (current : IsoEntry) (cs : list string) : M D unit IsoEntry :=
  match cs with
  | [] => retM current
  | c :: cs =>
      if negb (is_dir current) then failM tt
      else
        es <-- read_directory current ;;
        match list_find (named c) es with
        | Some (_, e) => find_components e cs
        | None => failM tt
        end
  end.

Definition find_entry (root : IsoEntry) (path : string) : M D unit IsoEntry :=
  find_components root (normalize_component <$> components path).

Definition metadata_for (e : IsoEntry) : Metadata :=
  mkMetadata (extent e) 0 0 (ie_name e) (if is_dir e then FileType.Dir else FileType.File)
    (if is_dir e then 16749 else 33060) (ie_size e) 0 0 0.

(** ** The file system *)

Definition iso_open (root : IsoEntry) (path : string) : M D unit (Metadata * IsoEntry) :=
  e <-- find_entry root path ;; retM (metadata_for e, e).
Definition iso_ls (root : IsoEntry) (path : string) : M D unit (list Metadata) :=
  dir <-- find_entry root path ;; es <-- read_directory dir ;; retM (metadata_for <$> es).
Definition iso_metadata (root : IsoEntry) (path : string) : M D unit Metadata :=
  e <-- find_entry root path ;; retM (metadata_for e).
Definition iso_stats : FsStats := mkFsStats 0 2048 0 0 0 0 0 31 2048 1.

(** [IsoNode::read] of [n] bytes at [offset]. *)
Definition iso_read (e : IsoEntry) (offset n : nat) : M D unit (list Z) :=
  if is_dir e then failM tt
  else if (Z.to_nat (ie_size e) <=? offset)%nat then retM []
  else read_exact_at (Z.to_nat (extent e) * ISO_BLOCK_SIZE + offset) (n `min` (Z.to_nat (ie_size e) - offset))%nat.
End device.
