(* ===== verification/Iso9660Spec.v ===== *)
(** * ISO 9660: a disc is read as the tree it holds

    The bytes of a device, the directory parser on arbitrary and on well-formed bytes,
    and the theorem that on a disc that holds a tree of directories and files, paths
    lead to the nodes of the tree and reading gives their contents. *)

From Stdlib Require Import Ascii ZifyBool.
From S2P Require Import Prelude Bytes Text Utf BlockDev BlockDevSpec FileDevSpec Vfs Fat32Write Iso9660.
Open Scope twilight_scope.

(** ** The bytes of a device *)

Section bytes_of_device.
Context {D : Type} `{SectorDev D} `{!ReliableDev D}.
Context (c : Z -> list Z) (bs N : nat) (Hbs : (0 < bs)%nat) (HN : Z.of_nat N <= 2 ^ 32) (Hc : forall x, length (c x) = bs).

(** The device holds [c]; reading it keeps it so. *)
Definition holds (d : D) : Prop :=
  dev_ok d /\ dev_block_size d = bs /\ dev_block_count d = N /\ forall x, contents d x = c x.

Definition image : list Z := read_span c 0 N.

Lemma image_length : length image = (N * bs)%nat.
Proof. by apply read_span_length. Qed.

Lemma image_span a k : (a + k <= N)%nat -> load (a * bs) (k * bs) image = read_span c (Z.of_nat a) k.
Proof.
  intros Hk. unfold image, load. replace N with (a + (k + (N - a - k)))%nat by lia.
  rewrite !read_span_app. rewrite drop_app_length' by (rewrite (read_span_length c bs); [lia|done]).
  rewrite take_app_length' by (rewrite (read_span_length c bs); [lia|done]). done.
Qed.

Lemma image_block a o m : (a < N)%nat -> (o + m <= bs)%nat -> load (a * bs + o) m image = load o m (c (Z.of_nat a)).
Proof.
  intros Ha Ho. rewrite <- (load_load o m (a * bs) (1 * bs)) by lia. rewrite image_span by lia. cbn [read_span].
  by rewrite app_nil_r.
Qed.

Lemma block_read a d : (a < N)%nat -> holds d ->
  exists d', dev_read (u32 (Z.of_nat a)) bs d = (Ok (c (Z.of_nat a)), d') /\ holds d'.
Proof.
  intros Ha (Hok & Hsz & Hcnt & Hcon). rewrite u32_small by lia.
  assert (Had : addressable (Z.of_nat a) 1) by (split; lia).
  destruct (law_sector_read (Z.of_nat a) d Hok Had) as (b & d' & E); [lia|]. rewrite Nat.mul_1_l, Hsz in E.
  assert (E' : dev_read (Z.of_nat a) (1 * dev_block_size d)%nat d = (Ok b, d')) by (rewrite Nat.mul_1_l, Hsz; exact E).
  destruct (law_read (Z.of_nat a) d (Ok b) d' Hok Had E' ltac:(done)) as (Hok' & [G1 G2] & Hc' & Hb).
  exists d'. rewrite (Hb b eq_refl) in E. cbn [read_span] in E. rewrite app_nil_r, Hcon in E. split; [done|].
  split_and!; [done|congruence|congruence|]. intros x. by rewrite Hc'.
Qed.

Lemma blocks_read a k d : (0 < k)%nat -> (a + k <= N)%nat -> holds d ->
  exists d', dev_read_blocks (u32 (Z.of_nat a)) (k * bs) d = (Ok (read_span c (Z.of_nat a) k), d') /\ holds d'.
Proof.
  intros Hk Ha (Hok & Hsz & Hcnt & Hcon). rewrite u32_small by lia.
  assert (Had : addressable (Z.of_nat a) k) by (split; lia).
  destruct (law_read_total (Z.of_nat a) k Hk d Hok Had) as (b & d' & E); [lia|].
  destruct (law_read_blocks (Z.of_nat a) k Hk d (Ok b) d' Hok Had E ltac:(done)) as (Hok' & [G1 G2] & Hc' & Hb).
  exists d'. rewrite Hsz in E. rewrite E, (Hb b eq_refl). split; [by rewrite (read_span_ext _ c) by auto|].
  split_and!; [done|congruence|congruence|]. intros x. by rewrite Hc'.
Qed.

Lemma last_block_fits off n : (0 < n)%nat -> ((off + n + bs - 1) / bs <= N <-> off + n <= N * bs)%nat.
Proof.
  intros Hn. pose proof (Nat.div_mod_eq (off + n + bs - 1) bs). pose proof (Nat.mod_upper_bound (off + n + bs - 1) bs).
  split; intros Hle; nia.
Qed.

(** Inside the device the bytes are read; outside the call fails. *)
Lemma read_exact_at_ok off n d : holds d -> (off + n <= N * bs)%nat ->
  exists d', read_exact_at off n d = (Ok (load off n image), d') /\ holds d'.
Proof.
  intros Hd Hin. unfold read_exact_at. destruct (Nat.eqb_spec n 0) as [->|Hn]; [exists d; split; [done|done]|].
  rewrite (bindM_ok getM _ d d d eq_refl). destruct Hd as (Hok & Hsz & Hcnt & Hcon). rewrite Hsz, Hcnt.
  assert (Hd : holds d) by done. clear Hok Hsz Hcnt Hcon. cbv zeta.
  destruct (Nat.eqb_spec bs 0) as [|_]; [lia|].
  replace (N <? (off + n + bs - 1) / bs)%nat with false by (symmetry; apply Nat.ltb_ge, last_block_fits; lia).
  set (q := (off / bs)%nat). set (ho := (off mod bs)%nat).
  assert (Hoff : off = (q * bs + ho)%nat) by (unfold q, ho; rewrite (Nat.div_mod_eq off bs) at 1; lia).
  assert (Hho : (ho < bs)%nat) by (apply Nat.mod_upper_bound; lia).
  set (hc := if (ho =? 0)%nat then 0%nat else ((bs - ho) `min` n)%nat).
  set (b1 := if (ho =? 0)%nat then q else S q).
  set (wb := ((n - hc) / bs)%nat).
  assert (Hhc : (hc <= n)%nat /\ ((hc < n)%nat -> (off + hc = b1 * bs)%nat)) by (unfold hc, b1; case_match; nia).
  assert (Hwb : (wb * bs <= n - hc < wb * bs + bs)%nat).
  { unfold wb. pose proof (Nat.div_mod_eq (n - hc) bs). pose proof (Nat.mod_upper_bound (n - hc) bs). nia. }
  assert (H1 : exists d1, (if (ho =? 0)%nat then retM []
     else scratch <-- dev_read (u32 (Z.of_nat q)) bs;; retM (load ho hc scratch)) d = (Ok (load off hc image), d1) /\ holds d1).
  { unfold hc. destruct (Nat.eqb_spec ho 0) as [E|E]; [exists d; by split|].
    destruct (block_read q d) as (d1 & E1 & Hd1); [nia|done|]. exists d1. rewrite (bindM_ok _ _ _ _ _ E1).
    split; [|done]. rewrite Hoff. unfold retM. rewrite image_block by (done || nia). done. }
  destruct H1 as (d1 & E1 & Hd1). rewrite (bindM_ok _ _ _ _ _ E1).
  assert (H2 : exists d2, (if (wb =? 0)%nat then retM [] else dev_read_blocks (u32 (Z.of_nat b1)) (wb * bs)) d1 =
     (Ok (load (off + hc) (wb * bs) image), d2) /\ holds d2).
  { destruct (Nat.eqb_spec wb 0) as [->|Hw]; [exists d1; by split|].
    assert (Hb1 : (off + hc = b1 * bs)%nat) by (apply Hhc; nia).
    destruct (blocks_read b1 wb d1) as (d2 & E2 & Hd2); [lia|nia|done|]. exists d2. split; [|done].
    rewrite E2, Hb1, image_span by nia. done. }
  destruct H2 as (d2 & E2 & Hd2). rewrite (bindM_ok _ _ _ _ _ E2).
  assert (H3 : exists d3, (if (hc + wb * bs <? n)%nat
     then scratch <-- dev_read (u32 (Z.of_nat (b1 + wb))) bs;; retM (take (n - (hc + wb * bs)) scratch)
     else retM []) d2 = (Ok (load (off + hc + wb * bs) (n - (hc + wb * bs)) image), d3) /\ holds d3).
  { destruct (Nat.ltb_spec (hc + wb * bs) n) as [Hw|Hw]; [|exists d2; replace (n - _)%nat with 0%nat by lia; by split].
    assert (Hb1 : (off + hc = b1 * bs)%nat) by (apply Hhc; lia).
    destruct (block_read (b1 + wb) d2) as (d3 & E3 & Hd3); [nia|done|]. exists d3. rewrite (bindM_ok _ _ _ _ _ E3).
    split; [|done]. replace (off + hc + wb * bs)%nat with ((b1 + wb) * bs + 0)%nat by nia.
    rewrite image_block by nia. done. }
  destruct H3 as (d3 & E3 & Hd3). rewrite (bindM_ok _ _ _ _ _ E3). exists d3. split; [|done].
  unfold retM. rewrite (load_app (off + hc)), load_app. do 3 f_equal. lia.
Qed.

Lemma read_exact_at_out off n d : holds d -> (0 < n)%nat -> (N * bs < off + n)%nat -> read_exact_at off n d = (Err tt, d).
Proof.
  intros (Hok & Hsz & Hcnt & Hcon) Hn Hout. unfold read_exact_at. destruct (Nat.eqb_spec n 0) as [|_]; [lia|].
  rewrite (bindM_ok getM _ d d d eq_refl), Hsz, Hcnt. cbv zeta. destruct (Nat.eqb_spec bs 0) as [|_]; [lia|].
  replace (N <? (off + n + bs - 1) / bs)%nat with true; [done|]. symmetry. apply Nat.ltb_lt.
  pose proof (last_block_fits off n Hn). lia.
Qed.
End bytes_of_device.

(** ** Directory records *)

(** The parser of a directory ends on any bytes: every turn advances. *)
Lemma parse_directory_total fuel bs offset : (length bs - offset < fuel)%nat -> parse_directory fuel bs offset <> Panic.
Proof.
  revert offset. induction fuel as [|fuel IH]; intros offset Hf; [lia|]. cbn [parse_directory].
  destruct (Nat.leb_spec (length bs) offset) as [|Hlt]; [done|].
  destruct (Nat.eqb_spec (Z.to_nat (byte_at offset bs)) 0) as [_|Hz].
  - apply IH. pose proof (Nat.div_mod_eq offset ISO_BLOCK_SIZE). pose proof (Nat.mod_upper_bound offset ISO_BLOCK_SIZE).
    unfold ISO_BLOCK_SIZE in *. lia.
  - destruct (_ <? _)%nat; [done|]. destruct (parse_record _); [|done]. destruct (negb _); [done|].
    specialize (IH (offset + Z.to_nat (byte_at offset bs))%nat ltac:(lia)). by destruct (parse_directory fuel bs _).
Qed.

Definition raw_name (e : IsoEntry) : list Z :=
  if bool_decide (ie_name e = ".") then [0] else if bool_decide (ie_name e = "..") then [1] else as_bytes (ie_name e).

(** A directory record of ISO 9660: the entry, and the fields the kernel does not look at:
    the length of the attribute record, the date, the unit size and gap of interleaved
    files, the volume number, and what follows the name, its padding and the area for
    system use. *)
Record DirRecord := mkRecord {
  dr_entry :> IsoEntry; dr_attributes : Z; dr_date : list Z; dr_interleave : list Z; dr_volume : list Z; dr_system_use : list Z;
}.

(** The record as it is laid out, numbers in both byte orders. *)
Definition encode_record (r : DirRecord) : list Z :=
  let nm := raw_name r in
  [Z.of_nat (33 + length nm + length (dr_system_use r)); dr_attributes r] ++ to_le 4 (extent r) ++ rev (to_le 4 (extent r)) ++
  to_le 4 (ie_size r) ++ rev (to_le 4 (ie_size r)) ++ dr_date r ++ [flags r] ++ dr_interleave r ++ dr_volume r ++
  [Z.of_nat (length nm)] ++ nm ++ dr_system_use r.

(** What a record can hold: 32-bit numbers, flags without a further extent, a name that is
    text and is not one of the two special names in disguise, fields of their widths, and
    at most 255 bytes, at least one of them after the length of the name. *)
Record valid_record (r : DirRecord) : Prop := {
  vr_extent : 0 <= extent r < 2 ^ 32;
  vr_size : 0 <= ie_size r < 2 ^ 32;
  vr_flags : Z.land (flags r) FLAG_MULTI_EXTENT = 0;
  vr_utf8 : valid_str (ie_name r);
  vr_name : as_bytes (ie_name r) <> [0] /\ as_bytes (ie_name r) <> [1];
  vr_fields : length (dr_date r) = 7%nat /\ length (dr_interleave r) = 2%nat /\ length (dr_volume r) = 4%nat;
  vr_len : (0 < length (raw_name r) + length (dr_system_use r) <= 222)%nat;
}.

Definition record_len (r : DirRecord) : nat := (33 + length (raw_name r) + length (dr_system_use r))%nat.

Lemma encode_length r : valid_record r -> length (encode_record r) = record_len r.
Proof.
  intros [_ _ _ _ _ (H1 & H2 & H3) _]. unfold encode_record, record_len.
  rewrite !length_app, !length_rev, !to_le_length, H1, H2, H3. cbn [length]. lia.
Qed.

Lemma record_len_bounds r : valid_record r -> (34 <= record_len r <= 255)%nat.
Proof. intros [_ _ _ _ _ _ H]. unfold record_len. lia. Qed.

Lemma record_name_raw (e : DirRecord) : valid_record e -> record_name (raw_name e) = Some (ie_name e).
Proof.
  intros [_ _ _ Hu [H0 H1] _ _]. unfold record_name, raw_name.
  destruct (bool_decide_reflect (ie_name e = ".")) as [->|]; [done|].
  destruct (bool_decide_reflect (ie_name e = "..")) as [->|]; [done|].
  rewrite !bool_decide_false by done. unfold from_utf8. unfold valid_str in Hu. by rewrite Hu, of_as_bytes.
Qed.

(** The fields of an encoded record, with anything after it. *)
Lemma encode_fields (e : DirRecord) post : valid_record e ->
  let l := encode_record e ++ post in
  byte_at 0 l = Z.of_nat (record_len e) /\ byte_at 32 l = Z.of_nat (length (raw_name e)) /\
  load 33 (length (raw_name e)) l = raw_name e /\ load 2 4 l = to_le 4 (extent e) /\ load 10 4 l = to_le 4 (ie_size e) /\
  byte_at 25 l = flags e.
Proof.
  intros Hv. pose proof (vr_fields e Hv) as (H7 & H2 & H4). unfold encode_record, record_len. cbv zeta.
  set (nm := raw_name e). set (E := to_le 4 (extent e)). set (S := to_le 4 (ie_size e)).
  assert (HE : length E = 4%nat) by apply to_le_length. assert (HS : length S = 4%nat) by apply to_le_length.
  destruct E as [|e0 [|e1 [|e2 [|e3 []]]]]; try done. destruct S as [|s0 [|s1 [|s2 [|s3 []]]]]; try done.
  destruct (dr_date e) as [|? [|? [|? [|? [|? [|? [|? []]]]]]]]; try done.
  destruct (dr_interleave e) as [|? [|? []]]; try done. destruct (dr_volume e) as [|? [|? [|? [|? []]]]]; try done.
  cbn [app rev]. unfold byte_at, load. cbn [nth skipn firstn].
  split; [done|]. split; [done|]. split; [|done].
  rewrite drop_0, <- app_assoc, take_app_length. done.
Qed.

Lemma parse_encode (e : DirRecord) post : valid_record e -> parse_record (encode_record e ++ post) = Some (dr_entry e).
Proof.
  intros Hv. destruct (encode_fields e post Hv) as (F0 & F32 & Fn & Fe & Fs & Ff).
  pose proof (record_len_bounds e Hv). pose proof (encode_length e Hv). unfold parse_record.
  rewrite F0, F32, Ff, !Nat2Z.id, Fn, Fe, Fs, record_name_raw by done. rewrite length_app.
  replace (length (encode_record e) + length post <? 34)%nat with false by lia.
  replace ((record_len e <? 34) || (length (encode_record e) + length post <? record_len e))%nat with false by lia.
  replace (record_len e <? 33 + length (raw_name e))%nat with false
    by (unfold record_len; symmetry; apply Nat.ltb_ge; lia).
  cbn [mbind option_bind]. destruct Hv. rewrite !from_to_le by (change (256 ^ Z.of_nat 4) with (2 ^ 32); done). by destruct e as [[] ? ? ? ? ?].
Qed.

Lemma parse_encode_exact e : valid_record e -> parse_record (encode_record e) = Some (dr_entry e).
Proof. intros H. rewrite <- (app_nil_r (encode_record e)). by apply parse_encode. Qed.

(** ** Directories *)

(** A directory is a sequence of sectors; a record does not cross their ends, and the
    rest of a sector is zero. *)
Definition records_bytes (s : list DirRecord) : list Z := concat (encode_record <$> s).
Definition sector_bytes (s : list DirRecord) : list Z :=
  records_bytes s ++ replicate (ISO_BLOCK_SIZE - length (records_bytes s)) 0.
Definition sector_ok (s : list DirRecord) : Prop := Forall valid_record s /\ (length (records_bytes s) <= ISO_BLOCK_SIZE)%nat.
Definition directory_bytes (sectors : list (list DirRecord)) : list Z := concat (sector_bytes <$> sectors).

Definition visible (e : IsoEntry) : Prop := ie_name e <> "." /\ ie_name e <> "..".
#[export] Instance visible_dec e : Decision (visible e).
Proof. unfold visible. apply _. Defined.
Definition entries (s : list DirRecord) : list IsoEntry := filter visible (dr_entry <$> s).

Lemma sector_length s : sector_ok s -> length (sector_bytes s) = ISO_BLOCK_SIZE.
Proof. intros [_ H]. unfold sector_bytes. rewrite length_app, length_replicate. lia. Qed.

Lemma byte_at_app pre l : byte_at (length pre) (pre ++ l) = byte_at 0 l.
Proof. unfold byte_at. by rewrite app_nth2, Nat.sub_diag by lia. Qed.

(** One record. *)
Lemma parse_step fuel pre (e : DirRecord) post :
  valid_record e ->
  parse_directory (S fuel) (pre ++ encode_record e ++ post) (length pre) =
  match parse_directory fuel (pre ++ encode_record e ++ post) (length (pre ++ encode_record e)) with
  | Ok rest => Ok (if decide (visible e) then dr_entry e :: rest else rest)
  | r => r
  end.
Proof.
  intros Hv. pose proof (record_len_bounds e Hv) as Hb. pose proof (encode_length e Hv) as Hl.
  destruct (encode_fields e post Hv) as (F0 & _). cbn [parse_directory]. rewrite byte_at_app, F0, Nat2Z.id, !length_app.
  replace (length pre + (length (encode_record e) + length post) <=? length pre)%nat with false by lia.
  destruct (Nat.eqb_spec (record_len e) 0) as [|_]; [lia|].
  replace (length pre + (length (encode_record e) + length post) <? length pre + record_len e)%nat with false by lia.
  assert (El : load (length pre) (record_len e) (pre ++ encode_record e ++ post) = encode_record e).
  { unfold load. by rewrite drop_app_length, take_app_length'. }
  rewrite El, parse_encode_exact by done. rewrite (vr_flags e Hv), Hl. cbn [Z.eqb negb].
  destruct (parse_directory fuel _ _); [|done|done]. f_equal. unfold visible.
  destruct (bool_decide_reflect (ie_name e = ".")), (bool_decide_reflect (ie_name e = "..")); cbn [orb];
    case_decide; try done; tauto.
Qed.

(** The zeros at the end of a sector. *)
Lemma parse_pad fuel pre z post j :
  (0 < z)%nat -> (length pre + z = (j + 1) * ISO_BLOCK_SIZE)%nat -> (j * ISO_BLOCK_SIZE <= length pre)%nat ->
  parse_directory (S fuel) (pre ++ replicate z 0 ++ post) (length pre) =
  parse_directory fuel (pre ++ replicate z 0 ++ post) (length (pre ++ replicate z 0)).
Proof.
  intros Hz Hj Hlo. cbn [parse_directory]. rewrite byte_at_app, !length_app, length_replicate.
  replace (length pre + (z + length post) <=? length pre)%nat with false by lia.
  destruct z as [|z]; [lia|]. cbn [replicate app byte_at nth Z.to_nat Nat.eqb]. f_equal.
  assert (E : (length pre / ISO_BLOCK_SIZE = j)%nat); [|by rewrite E; lia].
  symmetry. apply (Nat.div_unique _ _ _ (length pre - j * ISO_BLOCK_SIZE)); unfold ISO_BLOCK_SIZE in *; lia.
Qed.

Lemma parse_sector fuel pre s z post j :
  Forall valid_record s -> (length pre + length (records_bytes s) + z = (j + 1) * ISO_BLOCK_SIZE)%nat ->
  (j * ISO_BLOCK_SIZE <= length pre)%nat ->
  (length (records_bytes s) + z + length post < fuel)%nat ->
  exists fuel', (length post < fuel')%nat /\
  parse_directory fuel (pre ++ records_bytes s ++ replicate z 0 ++ post) (length pre) =
  match parse_directory fuel' (pre ++ records_bytes s ++ replicate z 0 ++ post)
          (length (pre ++ records_bytes s ++ replicate z 0)) with
  | Ok rest => Ok (entries s ++ rest)
  | r => r
  end.
Proof.
  revert fuel pre. induction s as [|e s IH]; intros fuel pre Hv Hj Hlo Hf.
  - cbn [records_bytes fmap list_fmap concat app length] in *. destruct (decide (z = 0%nat)) as [->|Hz].
    + exists fuel. cbn [replicate app] in *. rewrite app_nil_r. split; [lia|]. by destruct (parse_directory _ _ _).
    + destruct fuel as [|fuel]; [lia|]. exists fuel. split; [lia|]. rewrite (parse_pad _ _ _ _ j) by lia.
      by destruct (parse_directory _ _ _).
  - apply Forall_cons in Hv as [He Hs]. pose proof (record_len_bounds e He). pose proof (encode_length e He) as Hl.
    change (records_bytes (e :: s)) with (encode_record e ++ records_bytes s) in *. rewrite length_app in Hj, Hf.
    destruct fuel as [|fuel]; [lia|]. rewrite <- app_assoc, parse_step by done.
    destruct (IH fuel (pre ++ encode_record e)) as (fuel' & Hf' & E); [done|rewrite length_app; lia..|lia|].
    exists fuel'. split; [done|]. rewrite <- !app_assoc in E. rewrite E. unfold entries. rewrite fmap_cons, filter_cons, <- !app_assoc.
    destruct (parse_directory fuel' _ _); [|done|done]. by case_decide.
Qed.

Lemma parse_sectors fuel pre sectors j :
  Forall sector_ok sectors -> (length pre = j * ISO_BLOCK_SIZE)%nat -> (length (directory_bytes sectors) < fuel)%nat ->
  parse_directory fuel (pre ++ directory_bytes sectors) (length pre) = Ok (entries (concat sectors)).
Proof.
  revert fuel pre j. induction sectors as [|s sectors IH]; intros fuel pre j Hok Hj Hf.
  - destruct fuel as [|fuel]; [lia|]. cbn [parse_directory directory_bytes fmap list_fmap concat]. rewrite app_nil_r.
    by rewrite Nat.leb_refl.
  - apply Forall_cons in Hok as [Hs Hok]. change (directory_bytes (s :: sectors)) with (sector_bytes s ++ directory_bytes sectors) in *.
    pose proof (sector_length s Hs) as Hsl. rewrite length_app in Hf. unfold sector_bytes in *. rewrite <- app_assoc.
    rewrite length_app, length_replicate in Hf, Hsl. destruct Hs as [Hv Hfit].
    destruct (parse_sector fuel pre s (ISO_BLOCK_SIZE - length (records_bytes s)) (directory_bytes sectors) j)
      as (fuel' & Hf' & ->); [done|lia|lia|lia|].
    rewrite !app_assoc. rewrite <- (app_assoc pre).
    rewrite (IH fuel' _ (j + 1)%nat); [unfold entries; by rewrite concat_cons, fmap_app, filter_app|done| |done].
    rewrite !length_app, length_replicate. lia.
Qed.

(** ** Trees *)

Inductive itree := IFile (data : list Z) | IDir (kids : list (string * itree)).

(** Entry [e] of the disc [img] is the root of the tree [t]. *)
Inductive stored (img : list Z) : IsoEntry -> itree -> Prop :=
| stored_file e data :
    is_dir e = false -> 0 <= ie_size e -> Z.of_nat (length data) = ie_size e ->
    (Z.to_nat (extent e) * ISO_BLOCK_SIZE + length data <= length img)%nat ->
    load (Z.to_nat (extent e) * ISO_BLOCK_SIZE) (length data) img = data ->
    stored img e (IFile data)
| stored_dir e sectors kids :
    is_dir e = true -> Forall sector_ok sectors -> Z.of_nat (length (directory_bytes sectors)) = ie_size e ->
    (Z.to_nat (extent e) * ISO_BLOCK_SIZE + length (directory_bytes sectors) <= length img)%nat ->
    load (Z.to_nat (extent e) * ISO_BLOCK_SIZE) (length (directory_bytes sectors)) img = directory_bytes sectors ->
    Forall2 (fun r k => ie_name r = fst k /\ stored img r (snd k)) (entries (concat sectors)) kids ->
    stored img e (IDir kids).

(** The node of a tree at a path; names are compared as the file system does. *)
Fixpoint tree_at (t : itree) (cs : list string) : option itree :=
  match cs with
  | [] => Some t
  | c :: cs =>
      match t with
      | IFile _ => None
      | IDir kids => match list_find (fun k => normalize_component k.1 = c) kids with
                     | Some (_, (_, t')) => tree_at t' cs
                     | None => None
                     end
      end
  end.

(** ** The disc *)

(** The volume descriptors: the primary one at sector 16, with its root record, then up to
    thirty others that are not supplementary, then the terminator. *)
Definition sector (img : list Z) (i : nat) : list Z := load (i * ISO_BLOCK_SIZE) ISO_BLOCK_SIZE img.

Record volume (img : list Z) (root : DirRecord) : Prop := {
  vol_type : byte_at 0 (sector img 16) = 1 /\ load 1 5 (sector img 16) = VOLUME_DESCRIPTOR_ID /\ byte_at 6 (sector img 16) = 1;
  vol_block : load 128 2 (sector img 16) = [0; 8];
  vol_root : exists post, drop 156 (sector img 16) = encode_record root ++ post;
  vol_record : valid_record root;
  vol_dir : is_dir root = true;
  vol_rest : exists k, (k < 31)%nat /\ ((18 + k) * ISO_BLOCK_SIZE <= length img)%nat /\
    byte_at 0 (sector img (17 + k)) = 255 /\
    (forall i, (i < k)%nat -> byte_at 0 (sector img (17 + i)) <> 2 /\ byte_at 0 (sector img (17 + i)) <> 255) /\
    (forall i, (i <= k)%nat -> load 1 5 (sector img (17 + i)) = VOLUME_DESCRIPTOR_ID);
}.

Section disc.
Context {D : Type} `{SectorDev D} `{!ReliableDev D}.
Context (c : Z -> list Z) (bs N : nat) (Hbs : (0 < bs)%nat) (HN : Z.of_nat N <= 2 ^ 32) (Hc : forall x, length (c x) = bs).

Abbreviation img := (image c N).
Abbreviation inserted := (holds (D := D) c bs N).

Lemma sector_read i d : inserted d -> ((i + 1) * ISO_BLOCK_SIZE <= length img)%nat ->
  exists d', read_exact_at (i * ISO_BLOCK_SIZE) ISO_BLOCK_SIZE d = (Ok (sector img i), d') /\ inserted d'.
Proof.
  intros Hd Hi. destruct (read_exact_at_ok c bs N Hbs HN Hc (i * ISO_BLOCK_SIZE) ISO_BLOCK_SIZE d Hd) as (d' & E & Hd').
  { rewrite <- (image_length c bs N Hc). lia. }
  by exists d'.
Qed.

Lemma check_descriptors_ok k count i d : inserted d -> (k < count)%nat -> ((i + k + 1) * ISO_BLOCK_SIZE <= length img)%nat ->
  byte_at 0 (sector img (i + k)) = 255 ->
  (forall j, (j < k)%nat -> byte_at 0 (sector img (i + j)) <> 2 /\ byte_at 0 (sector img (i + j)) <> 255) ->
  (forall j, (j <= k)%nat -> load 1 5 (sector img (i + j)) = VOLUME_DESCRIPTOR_ID) ->
  exists d', check_descriptors count i d = (Ok tt, d') /\ inserted d'.
Proof.
  revert count i d. induction k as [|k IH]; intros count i d Hd Hk Hin Hend Hbefore Hid;
    (destruct count as [|count]; [lia|]); cbn [check_descriptors];
    (destruct (sector_read i d Hd) as (d1 & E1 & Hd1); [lia|]); rewrite (bindM_ok _ _ _ _ _ E1);
    pose proof (Hid 0%nat ltac:(lia)) as Hid0; rewrite Nat.add_0_r in Hid0; unfold is_descriptor; rewrite bool_decide_true by done;
    cbn [negb].
  - rewrite Nat.add_0_r in Hend. rewrite Hend. exists d1. by split.
  - destruct (Hbefore 0%nat ltac:(lia)) as [Hn2 Hn255]. rewrite Nat.add_0_r in Hn2, Hn255.
    rewrite !(proj2 (Z.eqb_neq _ _)) by done.
    apply (IH count (S i) d1); [done|lia|lia| | |].
    + by replace (S i + k)%nat with (i + S k)%nat by lia.
    + intros j Hj. replace (S i + j)%nat with (i + S j)%nat by lia. apply Hbefore. lia.
    + intros j Hj. replace (S i + j)%nat with (i + S j)%nat by lia. apply Hid. lia.
Qed.

Lemma check_descriptors_refuse k count i d : inserted d -> (k < count)%nat -> ((i + k + 1) * ISO_BLOCK_SIZE <= length img)%nat ->
  byte_at 0 (sector img (i + k)) = 2 -> (forall j, (j < k)%nat -> byte_at 0 (sector img (i + j)) <> 255) ->
  exists d', check_descriptors count i d = (Err tt, d').
Proof.
  revert count i d. induction k as [|k IH]; intros count i d Hd Hk Hin Hsup Hb; (destruct count as [|count]; [lia|]); cbn [check_descriptors];
    (destruct (sector_read i d Hd) as (d1 & E1 & Hd1); [lia|]); rewrite (bindM_ok _ _ _ _ _ E1);
    (destruct (is_descriptor _); [|by exists d1]); cbn [negb].
  - rewrite Nat.add_0_r in Hsup. rewrite Hsup. by exists d1.
  - pose proof (Hb 0%nat ltac:(lia)) as Hb0. rewrite Nat.add_0_r in Hb0. destruct (_ =? 2); [by exists d1|].
    rewrite (proj2 (Z.eqb_neq _ _)) by done. apply (IH count (S i) d1); [done|lia|lia| |].
    + by replace (S i + k)%nat with (i + S k)%nat by lia.
    + intros j Hj. replace (S i + j)%nat with (i + S j)%nat by lia. apply Hb. lia.
Qed.

Lemma probe_ok (root : DirRecord) d : inserted d -> volume img root -> exists d', probe d = (Ok (dr_entry root), d') /\ inserted d'.
Proof.
  intros Hd [(T1 & T2 & T3) Hbl (post & Hroot) Hv Hdir (k & Hk & Hlen & Hend & Hbefore & Hid)]. unfold probe.
  destruct (sector_read 16 d Hd) as (d1 & E1 & Hd1); [lia|]. change (PVD_LBA) with 16%nat.
  rewrite (bindM_ok _ _ _ _ _ E1), T1, T3. unfold is_descriptor. rewrite bool_decide_true by done. cbn [Z.eqb Pos.eqb negb orb].
  destruct (check_descriptors_ok k 31 17 d1) as (d2 & E2 & Hd2); [done|lia|lia|done|done|done|].
  rewrite (bindM_ok _ _ _ _ _ E2), Hbl, Hroot, parse_encode by done. rewrite Hdir. exists d2. by split.
Qed.

Lemma read_directory_ok e sectors kids d : inserted d -> is_dir e = true -> Forall sector_ok sectors ->
  Z.of_nat (length (directory_bytes sectors)) = ie_size e ->
  (Z.to_nat (extent e) * ISO_BLOCK_SIZE + length (directory_bytes sectors) <= length img)%nat ->
  load (Z.to_nat (extent e) * ISO_BLOCK_SIZE) (length (directory_bytes sectors)) img = directory_bytes sectors ->
  Forall2 (fun r k => ie_name r = fst k /\ stored img r (snd k)) (entries (concat sectors)) kids ->
  exists es d', read_directory e d = (Ok es, d') /\ inserted d' /\
    Forall2 (fun r k => ie_name r = fst k /\ stored img r (snd k)) es kids.
Proof.
  intros Hd Hdir Hok Hsz Hin Hload Hkids. unfold read_directory. rewrite Hdir. cbn [negb].
  rewrite <- Hsz, Nat2Z.id.
  destruct (read_exact_at_ok c bs N Hbs HN Hc (Z.to_nat (extent e) * ISO_BLOCK_SIZE) (length (directory_bytes sectors)) d Hd)
    as (d' & E & Hd'); [rewrite <- (image_length c bs N Hc); exact Hin|].
  rewrite (bindM_ok _ _ _ _ _ E), Hload.
  rewrite (parse_sectors _ [] sectors 0) by (done || lia). eauto.
Qed.

(** The first child with a name. *)
Lemma find_kid cpt es kids : Forall2 (fun r k => ie_name r = fst k /\ stored img r (snd k)) es kids ->
  match list_find (fun k => normalize_component k.1 = cpt) kids with
  | Some (i, (_, t)) => exists e, list_find (named cpt) es = Some (i, e) /\ stored img e t
  | None => list_find (named cpt) es = None
  end.
Proof.
  induction 1 as [|e [nm t] es kids [Hn Hst] _ IH]; [done|]. cbn [list_find fst snd] in *.
  destruct (decide (normalize_component nm = cpt)) as [E|E].
  - rewrite (decide_True (P := named cpt e)) by (unfold named; congruence). eauto.
  - rewrite (decide_False (P := named cpt e)) by (unfold named; congruence).
    destruct (list_find _ kids) as [[i [? t']]|]; cbn; [|by rewrite IH].
    destruct IH as (e' & -> & He'). by exists e'.
Qed.

Lemma find_components_ok root t cs d : inserted d -> stored img root t ->
  exists d', inserted d' /\
  match tree_at t cs with
  | Some t' => exists e, find_components root cs d = (Ok e, d') /\ stored img e t'
  | None => find_components root cs d = (Err tt, d')
  end.
Proof.
  revert root t d. induction cs as [|cpt cs IH]; intros root t d Hd Hst; cbn [tree_at find_components]; [eauto|].
  destruct Hst as [e data Hdir Hs Hlen Hin Hload|e sectors kids Hdir Hok Hsz Hin Hload Hkids]; rewrite Hdir; cbn [negb];
    [by exists d|].
  destruct (read_directory_ok e sectors kids d Hd Hdir Hok Hsz Hin Hload Hkids) as (es & d1 & E1 & Hd1 & Hes).
  rewrite (bindM_ok _ _ _ _ _ E1). pose proof (find_kid cpt es kids Hes) as Hf.
  destruct (list_find _ kids) as [[i [nm t']]|].
  - destruct Hf as (e' & -> & Hst'). apply (IH e' t' d1 Hd1 Hst').
  - rewrite Hf. by exists d1.
Qed.

Lemma iso_read_ok e data off n d : inserted d -> stored img e (IFile data) ->
  exists d', iso_read e off n d = (Ok (load off n data), d') /\ inserted d'.
Proof.
  intros Hd Hst. inversion Hst as [? ? Hdir Hs Hlen Hin Hload|]; subst. unfold iso_read. rewrite Hdir, <- Hlen, Nat2Z.id.
  destruct (Nat.leb_spec (length data) off) as [Hle|Hlt].
  { exists d. unfold load at 1. rewrite drop_ge by done. by rewrite take_nil. }
  destruct (read_exact_at_ok c bs N Hbs HN Hc (Z.to_nat (extent e) * ISO_BLOCK_SIZE + off) (n `min` (length data - off)) d Hd)
    as (d' & E & Hd'); [rewrite <- (image_length c bs N Hc); lia|].
  exists d'. split; [|done]. rewrite E. do 2 f_equal. rewrite <- (load_load off _ (Z.to_nat (extent e) * ISO_BLOCK_SIZE) (length data)) by lia. rewrite Hload.
  unfold load. destruct (Nat.min_spec n (length data - off)) as [[_ ->]|[? ->]]; [done|].
  rewrite !take_ge by (rewrite length_drop; lia). done.
Qed.

Lemma iso_ls_ok e kids d : inserted d -> stored img e (IDir kids) ->
  exists es d', read_directory e d = (Ok es, d') /\ inserted d' /\ (ie_name <$> es) = kids.*1.
Proof.
  intros Hd Hst. inversion Hst as [|? sectors ? Hdir Hok Hsz Hin Hload Hkids]; subst.
  destruct (read_directory_ok e sectors kids d Hd Hdir Hok Hsz Hin Hload Hkids) as (es & d1 & E1 & Hd1 & Hes).
  exists es, d1. split; [done|]. split; [done|]. clear -Hes. induction Hes as [|e [nm t] es kids [Hn _] _ IH]; [done|].
  rewrite !fmap_cons. cbn in *. by rewrite Hn, IH.
Qed.
End disc.

(** C21. On a reliable device, of any block size and at most 2^32 blocks, with a disc whose first descriptor is a primary one with 2048-byte blocks and the root directory of a tree of files and directories, and whose others, up to a terminator among the next 31, are not supplementary: the volume is found; a path that leads to a file opens it with its size, and every part of it reads as the bytes of the file; a path that leads to a directory lists the names of its entries in order; any other path fails. The records hold any dates, attributes, interleave, volume number and system-use area; their names are UTF-8, they are not multi-extent, have at most 255 bytes and do not cross a sector. (A disc with a supplementary descriptor, as Joliet discs have, is refused by the code.) *)
Theorem iso_disc_is_tree {D : Type} `{SectorDev D} `{!ReliableDev D} (c : Z -> list Z) (bs N : nat) (d : D)
    (root : DirRecord) (t : itree) (path : string) :
  (0 < bs)%nat -> Z.of_nat N <= 2 ^ 32 -> (forall x, length (c x) = bs) -> holds c bs N d ->
  volume (image c N) root -> stored (image c N) root t ->
  exists d1, probe d = (Ok (dr_entry root), d1) /\
  match tree_at t (normalize_component <$> components path) with
  | Some (IFile data) =>
      exists e d2, iso_open root path d1 = (Ok (metadata_for e, e), d2) /\ Vfs.size (metadata_for e) = Z.of_nat (length data) /\
        forall off n, exists d3, iso_read e off n d2 = (Ok (load off n data), d3)
  | Some (IDir kids) => exists ms d2, iso_ls root path d1 = (Ok ms, d2) /\ Vfs.name <$> ms = kids.*1
  | None => exists d2, iso_open root path d1 = (Err tt, d2)
  end.
Proof.
  intros Hbs HN Hc Hd Hvol Hst. destruct (probe_ok c bs N Hbs HN Hc root d Hd Hvol) as (d1 & E1 & Hd1). exists d1. split; [done|].
  destruct (find_components_ok c bs N Hbs HN Hc root t (normalize_component <$> components path) d1 Hd1 Hst) as (d2 & Hd2 & Hf).
  destruct (tree_at t _) as [[data|kids]|].
  - destruct Hf as (e & Ef & Hst'). exists e, d2. unfold iso_open, find_entry. rewrite (bindM_ok _ _ _ _ _ Ef). split; [done|].
    split; [by inversion Hst'|]. intros off n. destruct (iso_read_ok c bs N Hbs HN Hc e data off n d2 Hd2 Hst') as (d3 & E3 & _). eauto.
  - destruct Hf as (e & Ef & Hst'). unfold iso_ls, find_entry.
    destruct (iso_ls_ok c bs N Hbs HN Hc e kids d2 Hd2 Hst') as (es & d3 & E3 & _ & Hn).
    exists (metadata_for <$> es), d3. rewrite (bindM_ok _ _ _ _ _ Ef), (bindM_ok _ _ _ _ _ E3). split; [done|].
    rewrite <- Hn, <- list_fmap_compose. done.
  - exists d2. unfold iso_open, find_entry, bindM. by rewrite Hf.
Qed.

(** A disc with a supplementary descriptor is not mounted at all. *)
Theorem supplementary_refused {D : Type} `{SectorDev D} `{!ReliableDev D} (c : Z -> list Z) (bs N k : nat) (d : D) :
  (0 < bs)%nat -> Z.of_nat N <= 2 ^ 32 -> (forall x, length (c x) = bs) -> holds c bs N d ->
  (k < 31)%nat -> ((18 + k) * ISO_BLOCK_SIZE <= length (image c N))%nat ->
  byte_at 0 (sector (image c N) (17 + k)) = 2 ->
  (forall i, (i < k)%nat -> byte_at 0 (sector (image c N) (17 + i)) <> 255) ->
  exists d', probe d = (Err tt, d').
Proof.
  intros Hbs HN Hc Hd Hk Hlen Hsup Hbefore. unfold probe.
  destruct (sector_read c bs N Hbs HN Hc 16 d Hd) as (d1 & E1 & Hd1); [lia|]. change PVD_LBA with 16%nat.
  rewrite (bindM_ok _ _ _ _ _ E1). destruct (_ || _); [by exists d1|].
  destruct (check_descriptors_refuse c bs N Hbs HN Hc k 31%nat 17%nat d1) as (d2 & E2); [done|lia|lia|done|done|]. exists d2. unfold bindM. change (S 16) with 17%nat. by rewrite E2.
Qed.

(** A disc with one directory of one file; its records are dated, and that of the file has
    a system use area. *)
Definition dated (e : IsoEntry) (su : list Z) : DirRecord := mkRecord e 0 [126; 11; 15; 9; 30; 0; 8] [0; 0] [1; 0; 0; 1] su.
Definition disc_root : DirRecord := dated (mkEntry "." 18 2048 2) [].
Definition disc_records : list DirRecord :=
  [disc_root; dated (mkEntry ".." 18 2048 2) []; dated (mkEntry "A.TXT;1" 19 3 0) [78; 77; 10; 1; 0; 97; 46; 116; 120; 116]].
Definition disc_pvd : list Z :=
  [1] ++ VOLUME_DESCRIPTOR_ID ++ [1] ++ replicate 121 0 ++ [0; 8] ++ replicate 26 0 ++ encode_record disc_root ++ replicate 1858 0.
Definition disc_end : list Z := [255] ++ VOLUME_DESCRIPTOR_ID ++ replicate 2042 0.
Definition disc_block (x : Z) : list Z :=
  if x =? 16 then disc_pvd else if x =? 17 then disc_end else if x =? 18 then sector_bytes disc_records
  else if x =? 19 then [104; 105; 10] ++ replicate 2045 0 else replicate 2048 0.
Definition disc : IdealDisk := mkIdeal 2048 20 disc_block.

Lemma disc_block_length x : length (disc_block x) = 2048%nat.
Proof. unfold disc_block. repeat case_match; vm_compute; reflexivity. Qed.

Lemma disc_valid : Forall valid_record disc_records.
Proof. repeat constructor; vm_compute; try reflexivity; try discriminate; try (split; discriminate). Qed.

Lemma disc_volume : volume (image disc_block 20) disc_root.
Proof.
  split; [by vm_compute|by vm_compute| | |by vm_compute|].
  - exists (replicate 1858 0). vm_compute. reflexivity.
  - by pose proof disc_valid as [? _]%Forall_cons.
  - exists 0%nat. split; [lia|]. split; [apply Nat.leb_le; vm_compute; reflexivity|]. split; [vm_compute; reflexivity|].
    split; [lia|]. intros i Hi. assert (i = 0%nat) as -> by lia. vm_compute. reflexivity.
Qed.

Lemma disc_stored : stored (image disc_block 20) disc_root (IDir [("A.TXT;1", IFile [104; 105; 10])]).
Proof.
  apply (stored_dir _ disc_root [disc_records]); [by vm_compute| |by vm_compute|apply Nat.leb_le; by vm_compute|by vm_compute|].
  - apply Forall_singleton. split; [apply disc_valid|apply Nat.leb_le; vm_compute; reflexivity].
  - assert (E : entries (concat [disc_records]) = [mkEntry "A.TXT;1" 19 3 0]) by by vm_compute. rewrite E.
    constructor; [|constructor]. split; [done|].
    apply stored_file; [by vm_compute|by vm_compute|by vm_compute|apply Nat.leb_le; by vm_compute|by vm_compute].
Qed.

Lemma iso_disc_is_tree_witness :
  exists d1, probe disc = (Ok (dr_entry disc_root), d1) /\
  exists e d2, iso_open disc_root "/a.txt" d1 = (Ok (metadata_for e, e), d2) /\ Vfs.size (metadata_for e) = 3 /\
    forall off n, exists d3, iso_read e off n d2 = (Ok (load off n [104; 105; 10]), d3).
Proof.
  refine (iso_disc_is_tree disc_block 2048 20 disc disc_root (IDir [("A.TXT;1", IFile [104; 105; 10])]) "/a.txt" _ _ _ _ _ _).
  - apply Nat.ltb_lt. reflexivity.
  - vm_compute. discriminate.
  - exact disc_block_length.
  - repeat split; [apply Nat.ltb_lt; reflexivity|exact disc_block_length].
  - exact disc_volume.
  - exact disc_stored.
Defined.
