(* ===== verification/LineDisc.v ===== *)
(** * The terminal's line discipline (src/kernel/twilight_kernel/src/sys/console/tty.rs)

    The input half of [Tty]: settings, the input buffer, canonical and non-canonical
    reads, readiness and [ioctl].  Keys arrive while a read sleeps: a wake is the keys
    that came with it and the clock then, in nanoseconds.  [None] is a read still asleep
    after the wakes so far.  What a read prints is a list of bytes given to [_print]. *)

From Stdlib Require Import ZifyBool.
From S2P Require Import Prelude Text Utf TimeCalls.
Open Scope twilight_scope.

Definition VINTR : nat := 0.
Definition VQUIT : nat := 1.
Definition VERASE : nat := 2.
Definition VKILL : nat := 3.
Definition VEOF : nat := 4.
Definition VTIME : nat := 5.
Definition VMIN : nat := 6.
Definition VSTART : nat := 8.
Definition VSTOP : nat := 9.
Definition VSUSP : nat := 10.
Definition VREPRINT : nat := 12.
Definition VDISCARD : nat := 13.
Definition VWERASE : nat := 14.
Definition VLNEXT : nat := 15.

Definition LFLAG_ECHO : Z := 0x0008.
Definition LFLAG_ICANON : Z := 0x0002.
Definition LFLAG_ISIG : Z := 0x0001.
Definition LFLAG_IEXTEN : Z := 0x8000.
Definition IFLAG_ICRNL : Z := 0x0100.
Definition IFLAG_IXON : Z := 0x0400.
Definition OFLAG_OPOST : Z := 0x0001.
Definition OFLAG_ONLCR : Z := 0x0004.

Definition IOCTL_TIOCGWINSZ : Z := 0x5413.
Definition IOCTL_TCGETS : Z := 0x5401.
Definition IOCTL_TCSETS : Z := 0x5402.
Definition IOCTL_TCSETSW : Z := 0x5403.
Definition IOCTL_TCSETSF : Z := 0x5404.
Definition IOCTL_TIOCGPGRP : Z := 0x540F.
Definition IOCTL_TIOCSPGRP : Z := 0x5410.
Definition IOCTL_TIOCSCTTY : Z := 0x540E.

(** ** Settings *)

Record Termios := mkTermios {
  c_iflag : Z; c_oflag : Z; c_cflag : Z; c_lflag : Z; c_line : Z; c_cc : list Z; c_ispeed : Z; c_ospeed : Z;
}.

Definition default_cc : list Z :=
  <[VLNEXT := 0x16]> (<[VWERASE := 0x17]> (<[VDISCARD := 0x0F]> (<[VREPRINT := 0x12]> (<[VSUSP := 0x1A]>
  (<[VSTOP := 0x13]> (<[VSTART := 0x11]> (<[VMIN := 1]> (<[VTIME := 0]> (<[VEOF := 0x04]> (<[VKILL := 0x15]>
  (<[VERASE := 0x7F]> (<[VQUIT := 0x1C]> (<[VINTR := 0x03]> (replicate 32 0)))))))))))))).

Definition Termios_default : Termios :=
  mkTermios (Z.lor 0x100 0x400) (Z.lor 0x1 0x4) (Z.lor 0x800 0x30) (Z.lor (Z.lor (Z.lor 0x1 0x2) 0x8000) 0x8)
    0 default_cc 38400 38400.

(** The fields of [Tty] that the input side uses. *)
Record Ldisc := mkLdisc {
  echo : bool; icanon : bool; isig : bool; ixon : bool; icrnl : bool; o_post : bool; onlcr : bool;
  vmin : Z; vtime : Z; termios : Termios; input_buffer : list Z; foreground_pgid : Z;
}.

Definition Ldisc_new : Ldisc :=
  mkLdisc true true true true true true true (nth VMIN default_cc 0) (nth VTIME default_cc 0) Termios_default [] 0.

Definition set_input (b : list Z) (t : Ldisc) : Ldisc :=
  mkLdisc (echo t) (icanon t) (isig t) (ixon t) (icrnl t) (o_post t) (onlcr t) (vmin t) (vtime t) (termios t) b
    (foreground_pgid t).
Definition set_termios (n : Termios) (t : Ldisc) : Ldisc :=
  mkLdisc (echo t) (icanon t) (isig t) (ixon t) (icrnl t) (o_post t) (onlcr t) (vmin t) (vtime t) n (input_buffer t)
    (foreground_pgid t).
Definition set_pgid (p : Z) (t : Ldisc) : Ldisc :=
  mkLdisc (echo t) (icanon t) (isig t) (ixon t) (icrnl t) (o_post t) (onlcr t) (vmin t) (vtime t) (termios t)
    (input_buffer t) p.

Definition cc (k : nat) (t : Ldisc) : Z := nth k (c_cc (termios t)) 0.
Definition has (flags bit : Z) : bool := negb (Z.land flags bit =? 0).

Definition apply_termios (t : Ldisc) : Ldisc :=
  let n := termios t in
  mkLdisc (has (c_lflag n) LFLAG_ECHO) (has (c_lflag n) LFLAG_ICANON) (has (c_lflag n) LFLAG_ISIG)
    (has (c_iflag n) IFLAG_IXON) (has (c_iflag n) IFLAG_ICRNL) (has (c_oflag n) OFLAG_OPOST)
    (has (c_oflag n) OFLAG_ONLCR) (nth VMIN (c_cc n) 0) (nth VTIME (c_cc n) 0) n (input_buffer t) (foreground_pgid t).

(** ** Input *)

Definition is_raw_mode (t : Ldisc) : bool :=
  (Z.land (c_lflag (termios t)) (Z.lor (Z.lor (Z.lor LFLAG_ECHO LFLAG_ICANON) LFLAG_ISIG) LFLAG_IEXTEN) =? 0) &&
  (Z.land (c_iflag (termios t)) (Z.lor IFLAG_ICRNL IFLAG_IXON) =? 0) &&
  (Z.land (c_oflag (termios t)) OFLAG_OPOST =? 0).

Definition put_input (c : Z) (t : Ldisc) : Ldisc :=
  set_input (input_buffer t ++ [if is_raw_mode t && (c =? 0x08) then 0x7F else c]) t.

Definition input_read_ready (t : Ldisc) : bool :=
  if icanon t then existsb (fun b => (b =? 10) || (b =? 13) || (b =? cc VEOF t)) (input_buffer t)
  else if vmin t =? 0 then true
  else (Z.to_nat (vmin t) <=? length (input_buffer t))%nat.

(** [VfsNodeOps::poll]. *)
Definition tty_poll (t : Ldisc) : bool := negb (bool_decide (input_buffer t = [])).

Definition canonicalize_input (t : Ldisc) (c : Z) : Z := if icrnl t && (c =? 13) then 10 else c.

(** What a sleeping read is woken with: the keys, and the clock after the wake. *)
Abbreviation wakeups := (list (list Z * Z)).

(** The bytes read, the bytes printed and the input buffer after. *)
Record ReadDone := mkRead { rd_bytes : list Z; rd_echo : list Z; rd_input : list Z }.
Definition echoed (e : list Z) (r : ReadDone) : ReadDone := mkRead (rd_bytes r) (e ++ rd_echo r) (rd_input r).

(** ** Canonical reads *)

Inductive InputEscState := Ground | Esc | Csi.

(** [buf], [i] and [esc_state]. *)
Record Line := mkLine { buf : list Z; pos : nat; esc_state : InputEscState }.

(** The escape filter: the next state, and whether the byte goes on to the editing. *)
Definition esc_filter (s : InputEscState) (c : Z) : InputEscState * bool :=
  match s with
  | Ground => if c =? 0x1B then (Esc, false) else (Ground, true)
  | Esc => if c =? 91 then (Csi, false) else (Ground, true)
  | Csi => if in_range 0x40 0x7E c then (Ground, false) else (Csi, false)
  end.

Definition RUBOUT : list Z := [8; 32; 8].

(** [while i > 0 && p(buf[i - 1]) { i -= 1 }]. *)
Fixpoint back_over (p : Z -> bool) (b : list Z) (i : nat) : nat :=
  match i with O => O | S j => if p (nth j b 0) then back_over p b j else i end.

Definition word_start (b : list Z) (i : nat) : nat :=
  back_over (fun c => negb (c =? 32)) b (back_over (fun c => c =? 32) b i).

Definition when (b : bool) (l : list Z) : list Z := if b then l else [].

Inductive Verdict := Continue | Break.

(** The rest of a turn, after the filter: the line, what is printed, and whether the
    loop goes on. *)
Definition edit_byte (t : Ldisc) (b : list Z) (i : nat) (c : Z) : list Z * nat * list Z * Verdict :=
  if c =? cc VEOF t then (b, i, [], Break)
  else if isig t && (c =? cc VINTR t) then (b, 0%nat, when (echo t) [94; 67; 10], Continue)
  else if isig t && (c =? cc VQUIT t) then (b, 0%nat, when (echo t) [94; 92; 10], Continue)
  else if (c =? 0x08) || (c =? 0x7F) then
    match i with
    | O => (b, O, [], Continue)
    | S j => (b, j, when (echo t) RUBOUT, Continue)
    end
  else if c =? cc VKILL t then (b, 0%nat, when (echo t) (concat (replicate i RUBOUT)), Continue)
  else if c =? cc VWERASE t then
    let j := word_start b i in (b, j, when (echo t) (concat (replicate (i - j) RUBOUT)), Continue)
  else (<[i := c]> b, S i, if c =? 10 then [10] else when (echo t) (encode_utf8 c),
        if c =? 10 then Break else Continue).

Definition canon_step (t : Ldisc) (s : Line) (c : Z) : Line * list Z * Verdict :=
  let c := canonicalize_input t c in
  let '(esc, pass) := esc_filter (esc_state s) c in
  if pass then
    let '(b, i, e, v) := edit_byte t (buf s) (pos s) c in (mkLine b i esc, e, v)
  else (mkLine (buf s) (pos s) esc, [], Continue).

(** The loop while the input buffer has bytes: the read is done, or needs more. *)
Inductive Run := RDone (r : ReadDone) | RMore (s : Line) (e : list Z).

Fixpoint canon_run (t : Ldisc) (s : Line) (input : list Z) : Run :=
  if (length (buf s) <=? pos s)%nat then RDone (mkRead (take (pos s) (buf s)) [] input)
  else
    match input with
    | [] => RMore s []
    | c :: input =>
        match canon_step t s c with
        | (s', e, Break) => RDone (mkRead (take (pos s') (buf s')) e input)
        | (s', e, Continue) =>
            match canon_run t s' input with
            | RDone r => RDone (echoed e r)
            | RMore s'' e' => RMore s'' (e ++ e')
            end
        end
    end.

Fixpoint canon_wait (t : Ldisc) (s : Line) (input : list Z) (ws : wakeups) : option ReadDone :=
  match canon_run t s input with
  | RDone r => Some r
  | RMore s' e =>
      match ws with
      | [] => None
      | (keys, _) :: ws => echoed e <$> canon_wait t s' keys ws
      end
  end.

Definition read_canonical (t : Ldisc) (b : list Z) (ws : wakeups) : option ReadDone :=
  canon_wait t (mkLine b 0 Ground) (input_buffer t) ws.

(** ** Non-canonical reads *)

Definition elapsed_ms_since (start now : Z) : Z :=
  let elapsed := saturating_sub now start in
  saturating_add (Z.min U64_MAX (elapsed / NSEC_PER_SEC * 1000)) (elapsed mod NSEC_PER_SEC / 1000000).

Definition echo_of (t : Ldisc) (cs : list Z) : list Z := when (echo t) (concat (encode_utf8 <$> cs)).

(** At most [n] of the bytes there are. *)
Definition pop_upto (t : Ldisc) (n : nat) (input : list Z) : ReadDone :=
  let cs := canonicalize_input t <$> take n input in mkRead cs (echo_of t cs) (drop n input).

(** MIN = 0, TIME > 0. *)
Fixpoint read_timed (t : Ldisc) (n : nat) (start : Z) (input : list Z) (now : Z) (ws : wakeups) : option ReadDone :=
  match input with
  | _ :: _ => Some (pop_upto t n input)
  | [] =>
      if vtime t * 100 <=? elapsed_ms_since start now then Some (mkRead [] [] [])
      else match ws with
           | [] => None
           | (keys, now) :: ws => read_timed t n start keys now ws
           end
  end.

(** MIN > 0, TIME = 0: [n] bytes, however long they take. *)
Fixpoint read_blocking (t : Ldisc) (n : nat) (input : list Z) (ws : wakeups) : option ReadDone :=
  let r := pop_upto t n input in
  if (n <=? length input)%nat then Some r
  else match ws with
       | [] => None
       | (keys, _) :: ws =>
           match read_blocking t (n - length input) keys ws with
           | None => None
           | Some r' => Some (mkRead (rd_bytes r ++ rd_bytes r') (rd_echo r ++ rd_echo r') (rd_input r'))
           end
       end.

(** MIN > 0, TIME > 0, after the first byte: until [n] more bytes or a pause. *)
Fixpoint read_between (t : Ldisc) (n : nat) (start : Z) (input : list Z) (now : Z) (ws : wakeups) : option ReadDone :=
  let r := pop_upto t n input in
  let start := if bool_decide (take n input = []) then start else now in
  if (n <=? length input)%nat then Some r
  else if vtime t * 100 <=? elapsed_ms_since start now then Some r
  else match ws with
       | [] => None
       | (keys, now) :: ws =>
           match read_between t (n - length input) start keys now ws with
           | None => None
           | Some r' => Some (mkRead (rd_bytes r ++ rd_bytes r') (rd_echo r ++ rd_echo r') (rd_input r'))
           end
       end.

(** The first byte, and the clock once it is there. *)
Fixpoint read_first (t : Ldisc) (n : nat) (input : list Z) (now : Z) (ws : wakeups) : option ReadDone :=
  match input with
  | c :: input =>
      let r := pop_upto t 1 [c] in
      match read_between t (n - 1) now input now ws with
      | None => None
      | Some r' => Some (mkRead (rd_bytes r ++ rd_bytes r') (rd_echo r ++ rd_echo r') (rd_input r'))
      end
  | [] => match ws with [] => None | (keys, now) :: ws => read_first t n keys now ws end
  end.

Definition read_noncanonical (t : Ldisc) (n : nat) (now : Z) (ws : wakeups) : option ReadDone :=
  let least := Z.to_nat (vmin t) in
  if (n =? 0)%nat then Some (mkRead [] [] (input_buffer t))
  else if (vmin t =? 0) && (vtime t * 100 =? 0) then Some (pop_upto t n (input_buffer t))
  else if vmin t =? 0 then read_timed t n now (input_buffer t) now ws
  else if vtime t * 100 =? 0 then read_blocking t (n `min` least) (input_buffer t) ws
  else read_first t (n `min` least) (input_buffer t) now ws.

(** [VfsNodeOps::read] into [b]. *)
Definition tty_read (t : Ldisc) (b : list Z) (now : Z) (ws : wakeups) : option ReadDone :=
  if (length b =? 0)%nat then Some (mkRead [] [] (input_buffer t))
  else if icanon t then read_canonical t b ws
  else read_noncanonical t (length b) now ws.

(** [read_from_fd] on the terminal (sys/syscall/service.rs): it waits for
    [input_read_ready] before it calls [read]. *)
Fixpoint read_from_tty (t : Ldisc) (b : list Z) (nonblock : bool) (now : Z) (ws : wakeups) : option (res Z ReadDone) :=
  if input_read_ready t then Ok <$> tty_read t b now ws
  else if nonblock then Some (Err 11)
  else match ws with
       | [] => None
       | (keys, now) :: ws => read_from_tty (set_input (input_buffer t ++ keys) t) b nonblock now ws
       end.

(** ** [ioctl] *)

Record Winsize := mkWinsize { ws_row : Z; ws_col : Z; ws_xpixel : Z; ws_ypixel : Z }.

(** What is stored at the user's pointer. *)
Inductive IoctlOut := OWinsize (w : Winsize) | OTermios (n : Termios) | OPgid (p : Z).

(** The size of the screen, the process group of the caller, and what the user's pointer
    shows when it is read as a [Termios] or as an [i32]. *)
Definition tty_ioctl (width height own_pgid : Z) (user : Termios) (user_pgid : Z) (cmd arg : Z) (t : Ldisc)
  : Z * option IoctlOut * Ldisc :=
  if cmd =? IOCTL_TIOCGWINSZ then
    if arg =? 0 then (- EFAULT, None, t)
    else (0, Some (OWinsize (mkWinsize (u16 (saturating_sub (height / 16) 1)) (u16 (width / 8)) (u16 width) (u16 height))), t)
  else if cmd =? IOCTL_TCGETS then
    if arg =? 0 then (- EFAULT, None, t) else (0, Some (OTermios (termios t)), t)
  else if (cmd =? IOCTL_TCSETS) || (cmd =? IOCTL_TCSETSW) || (cmd =? IOCTL_TCSETSF) then
    if arg =? 0 then (- EFAULT, None, t)
    else
      let t := apply_termios (set_termios user t) in
      (0, None, if cmd =? IOCTL_TCSETSF then set_input [] t else t)
  else if cmd =? IOCTL_TIOCGPGRP then
    if arg =? 0 then (- EFAULT, None, t)
    else (0, Some (OPgid (if foreground_pgid t =? 0 then own_pgid else foreground_pgid t)), t)
  else if cmd =? IOCTL_TIOCSPGRP then
    if arg =? 0 then (- EFAULT, None, t)
    else if (user_pgid <=? 0) || (65535 <? user_pgid) then (- EINVAL, None, t)
    else (0, None, set_pgid (u16 user_pgid) t)
  else (0, None, t).

(** * The line discipline: theorems

    A canonical read returns the line a typist sees: a reference editor works on the
    list of characters of the line, without buffer, index or escape states, and the read
    is shown to compute it.  What is printed while typing, shown by a printer that knows
    only characters, backspaces and newlines, is that line.  Then: when a read is ready it
    does not wait, and the settings in force are those last set. *)

From S2P Require Import Bytes.
Open Scope twilight_scope.

(** ** The reference editor *)

(** The state of the escape filter after some bytes, and the bytes it lets through. *)
Fixpoint esc_after (s : InputEscState) (l : list Z) : InputEscState :=
  match l with [] => s | c :: l => esc_after (esc_filter s c).1 l end.
Fixpoint visible (s : InputEscState) (l : list Z) : list Z :=
  match l with
  | [] => []
  | c :: l => let '(s', pass) := esc_filter s c in if pass then c :: visible s' l else visible s' l
  end.

Fixpoint drop_while (p : Z -> bool) (l : list Z) : list Z :=
  match l with [] => [] | c :: l => if p c then drop_while p l else c :: l end.

(** Without the spaces at its end, then without the word at its end. *)
Definition erase_word (line : list Z) : list Z :=
  rev (drop_while (fun c => negb (c =? 32)) (drop_while (fun c => c =? 32) (rev line))).

(** One typed byte. *)
Definition typed (t : Ldisc) (line : list Z) (c : Z) : list Z :=
  if isig t && ((c =? cc VINTR t) || (c =? cc VQUIT t)) then []
  else if (c =? 0x08) || (c =? 0x7F) then removelast line
  else if c =? cc VKILL t then []
  else if c =? cc VWERASE t then erase_word line
  else line ++ [c].

Definition edited (t : Ldisc) (l : list Z) : list Z :=
  fold_left (typed t) (visible Ground (canonicalize_input t <$> l)) [].

(** The bytes that end a line, and a newline that is only that. *)
Definition ends_line (t : Ldisc) (c : Z) : bool := (c =? 10) || (c =? cc VEOF t).
Definition plain_newline (t : Ldisc) : Prop :=
  cc VEOF t <> 10 /\ cc VKILL t <> 10 /\ cc VWERASE t <> 10 /\ (isig t = true -> cc VINTR t <> 10 /\ cc VQUIT t <> 10).

(** ** The loop computes it *)

Lemma rev_take_S (b : list Z) (i : nat) :
  (S i <= length b)%nat -> rev (take (S i) b) = nth i b 0 :: rev (take i b).
Proof.
  intros H. rewrite (take_S_r b i (nth i b 0)).
  - by rewrite rev_app_distr.
  - rewrite nth_lookup. destruct (lookup_lt_is_Some_2 b i) as [x ->]; [lia|done].
Qed.

Lemma back_over_spec (p : Z -> bool) (b : list Z) (i : nat) : (i <= length b)%nat ->
  rev (take (back_over p b i) b) = drop_while p (rev (take i b)) /\ (back_over p b i <= i)%nat.
Proof.
  induction i as [|i IH]; intros Hi; [done|]. rewrite rev_take_S by lia. cbn [back_over drop_while].
  destruct (p (nth i b 0)); [destruct IH; [lia|split; [done|lia]]|]. by rewrite rev_take_S by lia.
Qed.

Lemma word_start_spec (b : list Z) (i : nat) : (i <= length b)%nat ->
  take (word_start b i) b = erase_word (take i b) /\ (word_start b i <= i)%nat.
Proof.
  intros Hi. unfold word_start, erase_word.
  destruct (back_over_spec (fun c => c =? 32) b i Hi) as [H1 H1'].
  destruct (back_over_spec (fun c => negb (c =? 32)) b (back_over (fun c => c =? 32) b i)) as [H2 H2']; [lia|].
  split; [|lia]. by rewrite <- H1, <- H2, rev_involutive.
Qed.

Lemma removelast_take (b : list Z) (i : nat) : (S i <= length b)%nat -> removelast (take (S i) b) = take i b.
Proof.
  intros H. rewrite <- (take_drop i (take (S i) b)), take_take, Nat.min_l by lia.
  rewrite skipn_firstn_comm. replace (S i - i)%nat with 1%nat by lia.
  destruct (drop i b) as [|x l] eqn:E; [apply (f_equal length) in E; rewrite length_drop in E; cbn in E; lia|].
  cbn [take]. apply removelast_last.
Qed.

(** An edit of the code is an edit of the reference, inside the buffer. *)
Lemma edit_byte_spec t b i c : (i < length b)%nat -> ends_line t c = false ->
  exists b' i' e, edit_byte t b i c = (b', i', e, Continue) /\ length b' = length b /\
    take i' b' = typed t (take i b) c /\ (i' <= S i)%nat.
Proof.
  intros Hi Hc. unfold ends_line in Hc. unfold edit_byte, typed. replace (c =? cc VEOF t) with false by lia.
  destruct (isig t && (c =? cc VINTR t)) eqn:E1.
  { replace (isig t && _) with true by lia. eexists _, _, _. split_and!; [done..|lia]. }
  destruct (isig t && (c =? cc VQUIT t)) eqn:E2.
  { replace (isig t && _) with true by lia. eexists _, _, _. split_and!; [done..|lia]. }
  replace (isig t && _) with false by lia.
  destruct ((c =? 8) || (c =? 127)) eqn:E3.
  { destruct i as [|i].
    - exists b, 0%nat, []. split_and!; [done|done|done|lia].
    - eexists b, i, _. split_and!; [done|done|by rewrite removelast_take by lia|lia]. }
  destruct (c =? cc VKILL t); [eexists _, _, _; split_and!; [done..|lia]|].
  destruct (word_start_spec b i) as [Hw Hw']; [lia|].
  destruct (c =? cc VWERASE t); [eexists _, _, _; split_and!; [done|done|exact Hw|lia]|].
  replace (c =? 10) with false by lia. eexists _, _, _. split_and!; [done|by rewrite length_insert| |lia].
  rewrite (take_S_r _ i c) by (apply list_lookup_insert_eq; lia). by rewrite take_insert_ge.
Qed.

(** What a run adds to what was printed before it. *)
Definition after_echo (e : list Z) (r : Run) : Run :=
  match r with RDone r => RDone (echoed e r) | RMore s e' => RMore s (e ++ e') end.

Lemma after_echo_app e e' r : after_echo e (after_echo e' r) = after_echo (e ++ e') r.
Proof. destruct r as [[]|]; cbn; unfold echoed; cbn; by rewrite <- app_assoc. Qed.

(** The line a run has after the keys [l]. *)
Definition line_after (t : Ldisc) (s : Line) (l : list Z) : list Z :=
  fold_left (typed t) (visible (esc_state s) (canonicalize_input t <$> l)) (take (pos s) (buf s)).
(** The buffer never fills up while they are typed. *)
Definition never_full (t : Ldisc) (s : Line) (l : list Z) : Prop :=
  forall p, p `prefix_of` l -> (length (line_after t s p) < length (buf s))%nat.

Lemma never_full_now t s l : never_full t s l -> (pos s < length (buf s))%nat.
Proof. intros H. specialize (H [] (prefix_nil l)). unfold line_after in H. cbn in H. rewrite length_take in H. lia. Qed.

(** Bytes that do not end the line: the loop goes through them all. *)
Lemma canon_run_line t l s : never_full t s l ->
  Forall (fun c => ends_line t c = false) (visible (esc_state s) (canonicalize_input t <$> l)) ->
  exists s' e, (forall rest, canon_run t s (l ++ rest) = after_echo e (canon_run t s' rest)) /\
    length (buf s') = length (buf s) /\ (pos s' < length (buf s'))%nat /\
    esc_state s' = esc_after (esc_state s) (canonicalize_input t <$> l) /\ take (pos s') (buf s') = line_after t s l.
Proof.
  revert s. induction l as [|c l IH]; intros s Hfull Hl; pose proof (never_full_now t s _ Hfull) as Hpos.
  { exists s, []. split_and!; [|done|done|done|done]. intros rest. cbn [app].
    by destruct (canon_run t s rest) as [[]|]. }
  unfold never_full, line_after in *. cbn [fmap list_fmap visible esc_after] in *. set (c' := canonicalize_input t c) in *.
  destruct (esc_filter (esc_state s) c') as [esc pass] eqn:Ef. cbn [fst].
  assert (Hroom : (length (buf s) <=? pos s)%nat = false) by lia.
  assert (Hnext : forall p, p `prefix_of` l -> (length (fold_left (typed t) (if pass then c' :: visible esc (canonicalize_input t <$> p)
    else visible esc (canonicalize_input t <$> p)) (take (pos s) (buf s))) < length (buf s))%nat).
  { intros p Hp. specialize (Hfull (c :: p) (prefix_cons c p l Hp)). cbn [fmap list_fmap visible] in Hfull. fold c' in Hfull. by rewrite Ef in Hfull. }
  destruct pass.
  - inversion Hl as [|? ? Hc Hl']; subst. cbn [fold_left] in *.
    destruct (edit_byte_spec t (buf s) (pos s) c') as (b' & i' & e & He & Hb' & Ht & Hi'); [lia|done|].
    destruct (IH (mkLine b' i' esc)) as (s' & e' & Hrun & H1 & H2 & H3 & H4); cbn [buf pos esc_state] in *;
      [by intros p Hp; rewrite Ht, Hb'; apply Hnext|done|].
    exists s', (e ++ e'). split_and!; [|congruence|done|done|by rewrite H4, Ht].
    intros rest. cbn [app canon_run]. rewrite Hroom. unfold canon_step. fold c'. rewrite Ef, He, Hrun.
    change (after_echo e (after_echo e' (canon_run t s' rest)) = after_echo (e ++ e') (canon_run t s' rest)).
    apply after_echo_app.
  - destruct (IH (mkLine (buf s) (pos s) esc)) as (s' & e' & Hrun & H1 & H2 & H3 & H4); cbn [buf pos esc_state] in *; [done|done|].
    exists s', e'. split_and!; [|done|done|done|done].
    intros rest. cbn [app canon_run]. rewrite Hroom. unfold canon_step. fold c'. rewrite Ef, Hrun.
    by destruct (canon_run t s' rest) as [[]|].
Qed.

(** The byte that ends the line. *)
Lemma canon_run_end t s c rest : let c' := canonicalize_input t c in
  plain_newline t -> ends_line t c' = true -> (esc_filter (esc_state s) c').2 = true -> (pos s < length (buf s))%nat ->
  exists e, canon_run t s (c :: rest) =
    RDone (mkRead (take (pos s) (buf s) ++ if c' =? 10 then [10] else []) e rest).
Proof.
  intros c' (N1 & N2 & N3 & N4) Hc Hpass Hlt. cbn [canon_run]. replace (length (buf s) <=? pos s)%nat with false by lia.
  unfold canon_step. fold c'. destruct (esc_filter (esc_state s) c') as [esc pass]. cbn [snd] in Hpass. subst pass.
  unfold ends_line in Hc. unfold edit_byte. destruct (c' =? cc VEOF t) eqn:E.
  { eexists. cbn. replace (c' =? 10) with false by lia. by rewrite app_nil_r. }
  assert (Hc' : c' = 10) by lia. rewrite Hc' in *.
  change ((10 =? 8) || (10 =? 127)) with false. change (10 =? 10) with true.
  replace (isig t && (10 =? cc VINTR t)) with false by (destruct (isig t); [destruct N4; [done|]; lia|done]).
  replace (isig t && (10 =? cc VQUIT t)) with false by (destruct (isig t); [destruct N4; [done|]; lia|done]).
  replace (10 =? cc VKILL t) with false by lia. replace (10 =? cc VWERASE t) with false by lia.
  eexists. cbv beta iota zeta. cbn [pos buf]. rewrite (take_S_r _ (pos s) 10) by (apply list_lookup_insert_eq; lia).
  by rewrite take_insert_ge.
Qed.

(** ** Keys that come later *)

Definition more_input (r : ReadDone) (later : list Z) : ReadDone := mkRead (rd_bytes r) (rd_echo r) (rd_input r ++ later).

Lemma canon_run_app t s a b :
  canon_run t s (a ++ b) =
  match canon_run t s a with RDone r => RDone (more_input r b) | RMore s' e => after_echo e (canon_run t s' b) end.
Proof.
  revert s. induction a as [|c a IH]; intros s.
  { cbn [app]. change (canon_run t s []) with (if (length (buf s) <=? pos s)%nat
      then RDone (mkRead (take (pos s) (buf s)) [] []) else RMore s []).
    destruct (length (buf s) <=? pos s)%nat eqn:E.
    - destruct b; cbn [canon_run]; by rewrite E.
    - by destruct (canon_run t s b) as [[]|]. }
  cbn [app canon_run]. destruct (_ <=? _)%nat; [done|].
  destruct (canon_step t s c) as [[s' e] []]; [|done]. rewrite IH.
  destruct (canon_run t s' a) as [r|s'' e']; [done|].
  change (after_echo e (after_echo e' (canon_run t s'' b)) = after_echo (e ++ e') (canon_run t s'' b)).
  apply after_echo_app.
Qed.

(** A read over its wakes is the loop over all the keys. *)
Lemma canon_wait_run t ws s input :
  match canon_run t s (input ++ concat ws.*1) with
  | RDone r => exists r' later, canon_wait t s input ws = Some r' /\ r = more_input r' later
  | RMore _ _ => canon_wait t s input ws = None
  end.
Proof.
  revert s input. induction ws as [|[keys now] ws IH]; intros s input.
  { cbn [fmap list_fmap concat canon_wait]. rewrite app_nil_r. destruct (canon_run t s input) as [r|]; [|done].
    exists r, []. split; [done|]. destruct r. unfold more_input. cbn. by rewrite app_nil_r. }
  cbn [fmap list_fmap fst concat canon_wait]. rewrite canon_run_app. destruct (canon_run t s input) as [r|s' e].
  { by eexists _, _. }
  specialize (IH s' keys). destruct (canon_run t s' _) as [r|]; cbn [after_echo].
  - destruct IH as (r' & later & -> & ->). by exists (echoed e r'), later.
  - by rewrite IH.
Qed.

(** ** What is shown *)

(** A printer: a backspace takes a character back, a newline starts a row, any other byte
    is put at the end of the row. *)
Definition print_byte (row : list Z) (c : Z) : list Z :=
  if c =? 8 then removelast row else if c =? 10 then [] else row ++ [c].
Definition shown (row e : list Z) : list Z := fold_left print_byte e row.

(** A byte that edits, or one that is printed as itself. *)
Definition on_screen (t : Ldisc) (c : Z) : bool :=
  in_range 32 126 c || (c =? 8) || (c =? 127) || (c =? cc VKILL t) || (c =? cc VWERASE t) ||
  (isig t && ((c =? cc VINTR t) || (c =? cc VQUIT t))).

Lemma shown_app row a b : shown row (a ++ b) = shown (shown row a) b.
Proof. apply fold_left_app. Qed.

Lemma shown_rubouts n b i : (n <= i)%nat -> (i <= length b)%nat ->
  shown (take i b) (concat (replicate n RUBOUT)) = take (i - n) b.
Proof.
  revert i. induction n as [|n IH]; intros i Hn Hi; [by rewrite Nat.sub_0_r|].
  destruct i as [|i]; [lia|]. cbn [replicate concat]. rewrite shown_app.
  replace (shown (take (S i) b) RUBOUT) with (take i b); [rewrite IH by lia; f_equal; lia|].
  unfold shown, RUBOUT. cbn [fold_left]. unfold print_byte. change (8 =? 8) with true. change (32 =? 8) with false.
  change (32 =? 10) with false. cbv iota. rewrite removelast_take by lia. by rewrite removelast_last.
Qed.

(** What an edit prints turns the line before it into the line after it. *)
Lemma edit_byte_shown t b i c b' i' e : (i < length b)%nat -> echo t = true -> ends_line t c = false ->
  on_screen t c = true -> edit_byte t b i c = (b', i', e, Continue) ->
  shown (take i b) e = take i' b'.
Proof.
  intros Hi He Hc Hs. unfold ends_line, on_screen in *. unfold edit_byte. rewrite He. cbn [when].
  replace (c =? cc VEOF t) with false by lia.
  destruct (isig t && (c =? cc VINTR t)) eqn:E1; [intros; simplify_eq; done|].
  destruct (isig t && (c =? cc VQUIT t)) eqn:E2; [intros; simplify_eq; done|].
  destruct ((c =? 8) || (c =? 127)) eqn:E3.
  { destruct i as [|i]; intros; simplify_eq; [done|].
    change RUBOUT with (concat (replicate 1 RUBOUT)). rewrite shown_rubouts by lia. f_equal. lia. }
  destruct (c =? cc VKILL t) eqn:E4; [intros; simplify_eq; rewrite shown_rubouts by lia; by rewrite Nat.sub_diag|].
  destruct (word_start_spec b i) as [_ Hw]; [lia|].
  destruct (c =? cc VWERASE t) eqn:E5; [intros; simplify_eq; rewrite shown_rubouts by lia; f_equal; lia|].
  replace (c =? 10) with false by lia. intros; simplify_eq.
  rewrite (take_S_r _ i c) by (apply list_lookup_insert_eq; lia). rewrite take_insert_ge by lia.
  unfold in_range in Hs. assert (Hr : 32 <= c <= 126) by lia. unfold encode_utf8. replace (c <? 128) with true by lia.
  unfold shown. cbn [fold_left]. unfold print_byte. replace (c =? 8) with false by lia. by replace (c =? 10) with false by lia.
Qed.

(** ... and so does a whole run. *)
Lemma canon_run_shown t l s : let l' := canonicalize_input t <$> l in
  echo t = true -> (pos s + length (visible (esc_state s) l') < length (buf s))%nat ->
  Forall (fun c => ends_line t c = false /\ on_screen t c = true) (visible (esc_state s) l') ->
  exists s' e, canon_run t s l = RMore s' e /\
    take (pos s') (buf s') = fold_left (typed t) (visible (esc_state s) l') (take (pos s) (buf s)) /\
    shown (take (pos s) (buf s)) e = take (pos s') (buf s').
Proof.
  revert s. induction l as [|c l IH]; intros s l' Hecho Hlen Hl.
  { exists s, []. split_and!; [|done|done]. cbn. replace (length (buf s) <=? pos s)%nat with false; [done|cbn in *; lia]. }
  subst l'. cbn [fmap list_fmap visible canon_run] in *. set (c' := canonicalize_input t c) in *. unfold canon_step. fold c'.
  destruct (esc_filter (esc_state s) c') as [esc pass] eqn:Ef.
  replace (length (buf s) <=? pos s)%nat with false by lia. destruct pass.
  - inversion Hl as [|? ? [Hc Hs] Hl']; subst. cbn [length fold_left] in *.
    destruct (edit_byte_spec t (buf s) (pos s) c') as (b' & i' & e & He & Hb' & Ht & Hi'); [lia|done|].
    pose proof (edit_byte_shown t (buf s) (pos s) c' b' i' e ltac:(lia) Hecho Hc Hs He) as Hsh.
    destruct (IH (mkLine b' i' esc)) as (s' & e' & Hrun & H1 & H2); cbn [buf pos esc_state] in *; [done|lia|done|].
    rewrite He, Hrun. exists s', (e ++ e'). split_and!; [done|by rewrite H1, Ht|]. by rewrite shown_app, Hsh.
  - destruct (IH (mkLine (buf s) (pos s) esc)) as (s' & e' & -> & H1 & H2); cbn [buf pos esc_state] in *; [done|lia|done|].
    by exists s', e'.
Qed.

(** ** Claims *)

(** C22. In canonical mode, with no editing or signal character set to the newline: a read whose keys come at any moments, before or during the call, returns the line as edited, erase, kill and word-erase applied and escape sequences dropped, with its newline, and leaves the keys after it, when the edited line is at every key shorter than the buffer of the read and the key that ends it is not part of an escape sequence. *)
Theorem canonical_read_edits (t : Ldisc) (b l rest : list Z) (nl now : Z) (ws : wakeups) :
  let l' := canonicalize_input t <$> l in
  let c := canonicalize_input t nl in
  icanon t = true -> plain_newline t ->
  input_buffer t ++ concat ws.*1 = l ++ nl :: rest ->
  Forall (fun c => ends_line t c = false) (visible Ground l') ->
  (forall p, p `prefix_of` l -> (length (edited t p) < length b)%nat) ->
  ends_line t c = true -> (esc_filter (esc_after Ground l') c).2 = true ->
  exists r later, tty_read t b now ws = Some r /\
    rd_bytes r = edited t l ++ (if c =? 10 then [10] else []) /\ rest = rd_input r ++ later.
Proof.
  intros l' c Hcan Hnl Hin Hl Hlen Hend Hpass. subst l'. unfold tty_read. rewrite Hcan.
  replace (length b =? 0)%nat with false by (specialize (Hlen [] (prefix_nil l)); lia).
  destruct (canon_run_line t l (mkLine b 0 Ground)) as (s & e & Hrun & H1 & H2 & H3 & H4); [done|done|]. cbn [esc_state] in H3.
  destruct (canon_run_end t s nl rest) as (e' & He); [done|done|by rewrite H3|done|].
  pose proof (canon_wait_run t ws (mkLine b 0 Ground) (input_buffer t)) as Hw. rewrite Hin, Hrun, He in Hw. cbn [after_echo] in Hw.
  destruct Hw as (r & later & Hr & Heq). exists r, later. split; [exact Hr|].
  apply (f_equal rd_bytes) in Heq as Hb. apply (f_equal rd_input) in Heq. cbn in Hb, Heq.
  rewrite <- Hb, <- Heq, H4. done.
Qed.

(** A line typed with a backspace, an arrow key and a word erased. *)
Lemma canonical_read_edits_witness :
  exists r later, tty_read (set_input (as_bytes "catt") Ldisc_new) (replicate 8 0) 0
      [([0x7F; 32; 27; 91; 65], 5); (as_bytes "xy" ++ [0x17; 13; 99], 9)] = Some r /\
    rd_bytes r = as_bytes "cat " ++ [10] /\ [99] = rd_input r ++ later.
Proof.
  apply (canonical_read_edits (set_input (as_bytes "catt") Ldisc_new) (replicate 8 0)
           (as_bytes "catt" ++ [0x7F; 32; 27; 91; 65] ++ as_bytes "xy" ++ [0x17]) [99] 13 0
           [([0x7F; 32; 27; 91; 65], 5); (as_bytes "xy" ++ [0x17; 13; 99], 9)]); try (vm_compute; done).
  - vm_compute. repeat constructor.
  - intros p [q Hq]. pose proof (take_app_length p q) as E. rewrite <- Hq in E. rewrite <- E. generalize (length p) as k. clear.
    intros k. do 13 (destruct k as [|k]; [apply Nat.ltb_lt; vm_compute; reflexivity|]).
    apply Nat.ltb_lt. vm_compute. reflexivity.
Defined.

(** While a line of printable characters and editing keys is typed with echo on, the row on the screen, as the echoed bytes leave it, is exactly the line as edited so far. *)
Theorem typing_shows_line (t : Ldisc) (b l : list Z) :
  let l' := canonicalize_input t <$> l in
  echo t = true -> (length (visible Ground l') < length b)%nat ->
  Forall (fun c => ends_line t c = false /\ on_screen t c = true) (visible Ground l') ->
  exists s e, canon_run t (mkLine b 0 Ground) l = RMore s e /\
    take (pos s) (buf s) = edited t l /\ shown [] e = edited t l.
Proof.
  intros l' He Hlen Hl. subst l'. destruct (canon_run_shown t l (mkLine b 0 Ground)) as (s & e & Hr & H1 & H2); cbn [pos buf esc_state] in *; [done|lia|done|].
  exists s, e. split_and!; [done|exact H1|]. change (take 0 b) with (@nil Z) in *. rewrite H2. exact H1.
Qed.

Lemma typing_shows_line_witness :
  exists s e, canon_run Ldisc_new (mkLine (replicate 64 0) 0 Ground) (as_bytes "go home" ++ [0x17; 0x7F; 33]) = RMore s e /\
    take (pos s) (buf s) = as_bytes "go!" /\ shown [] e = as_bytes "go!".
Proof.
  apply (typing_shows_line Ldisc_new (replicate 64 0) (as_bytes "go home" ++ [0x17; 0x7F; 33])).
  - reflexivity.
  - vm_compute. lia.
  - vm_compute. repeat constructor.
Defined.

(** ** Readiness *)

Lemma visible_no_escape l : Forall (fun c => c <> 27) l -> visible Ground l = l /\ esc_after Ground l = Ground.
Proof.
  induction 1 as [|c l Hc _ [IH1 IH2]]; [done|]. cbn [visible esc_after esc_filter].
  replace (c =? 27) with false by lia. cbn [fst]. by rewrite IH1, IH2.
Qed.

(** The loop over a byte that ends the line, in a buffer of any size. *)
Lemma canon_run_stops t l c s : plain_newline t -> esc_state s = Ground ->
  let c' := canonicalize_input t c in ends_line t c' = true -> Forall (fun c => canonicalize_input t c <> 27) (l ++ [c]) ->
  exists r, canon_run t s (l ++ [c]) = RDone r.
Proof.
  intros Hnl Hg c' Hc. revert s Hg. induction l as [|x l IH]; intros s Hg Hesc.
  - cbn [app] in *. inversion Hesc as [|? ? Hne _]; subst.
    destruct (length (buf s) <=? pos s)%nat eqn:E; [cbn [canon_run]; rewrite E; eauto|].
    destruct (canon_run_end t s c []) as [e He]; [done|done|rewrite Hg; cbn; by rewrite (proj2 (Z.eqb_neq _ _)) by done|lia|]. eauto.
  - cbn [app canon_run] in *. inversion Hesc as [|? ? Hne Hesc']; subst.
    destruct (length (buf s) <=? pos s)%nat eqn:E; [eauto|].
    unfold canon_step. rewrite Hg. cbn [esc_filter]. replace (canonicalize_input t x =? 27) with false by lia.
    destruct (edit_byte t (buf s) (pos s) (canonicalize_input t x)) as [[[b i] e] []]; [|eauto].
    destruct (IH (mkLine b i Ground) eq_refl Hesc') as [r ->]. eauto.
Qed.

Lemma ready_has_end t : icanon t = true -> icrnl t = true -> input_read_ready t = true ->
  exists c, c ∈ input_buffer t /\ ends_line t (canonicalize_input t c) = true.
Proof.
  intros Hcan Hcr Hr. unfold input_read_ready in Hr. rewrite Hcan in Hr. apply existsb_exists in Hr as (c & Hin & Hc).
  exists c. split; [by apply list_elem_of_In|]. unfold ends_line, canonicalize_input. rewrite Hcr. cbn [andb]. case_match; lia.
Qed.

(** A terminal that says a read is ready, without a time limit and, in canonical mode, with ICRNL and no escape character in its input, answers a read of any size without sleeping. *)
Theorem ready_read_completes (t : Ldisc) (b : list Z) (now : Z) :
  input_read_ready t = true -> (icanon t = true -> icrnl t = true /\ plain_newline t /\ Forall (fun c => c <> 27) (input_buffer t)) ->
  (vtime t = 0) -> 0 <= vmin t ->
  is_Some (tty_read t b now []).
Proof.
  intros Hr Hcook Ht Hv. unfold tty_read. destruct (length b =? 0)%nat eqn:E0; [eauto|].
  destruct (icanon t) eqn:Hcan.
  - destruct (Hcook eq_refl) as (Hcr & Hnl & Hesc). destruct (ready_has_end t Hcan Hcr Hr) as (c & Hin & Hc).
    apply list_elem_of_split in Hin as (l1 & l2 & Heq). unfold read_canonical. rewrite Heq in *. cbn [canon_wait].
    assert (Hesc' : Forall (fun c => canonicalize_input t c <> 27) (l1 ++ [c])).
    { rewrite cons_middle, app_assoc, Forall_app in Hesc. destruct Hesc as [Hesc _].
      eapply Forall_impl; [exact Hesc|]. intros x Hx. cbn beta in Hx. unfold canonicalize_input. case_match; [done|exact Hx]. }
    destruct (canon_run_stops t l1 c (mkLine b 0 Ground) Hnl eq_refl Hc Hesc') as [r Hrun].
    rewrite cons_middle, app_assoc, canon_run_app, Hrun. eauto.
  - unfold input_read_ready in Hr. rewrite Hcan in Hr. unfold read_noncanonical. rewrite E0, Ht. change (0 * 100 =? 0) with true.
    destruct (vmin t =? 0) eqn:Ev; cbn [andb]; [eauto|].
    replace (_ `min` _)%nat with (length b `min` Z.to_nat (vmin t))%nat by done.
    destruct (input_buffer t) as [|x l] eqn:Eb; cbn [read_blocking]; (replace (_ <=? _)%nat with true; [eauto|cbn [length] in *; lia]).
Qed.

Lemma ready_read_completes_witness :
  is_Some (tty_read (set_input (as_bytes "ls" ++ [13]) Ldisc_new) (replicate 2 0) 0 []).
Proof.
  apply (ready_read_completes (set_input (as_bytes "ls" ++ [13]) Ldisc_new) (replicate 2 0) 0); try (vm_compute; done).
  intros _. split; [done|]. split; [vm_compute; done|]. vm_compute. repeat constructor; done.
Defined.

(** ** Settings *)

Inductive TtyCall := TKey (c : Z) | TIoctl (user : Termios) (pgid cmd arg : Z).

Definition tty_call (t : Ldisc) (x : TtyCall) : Ldisc :=
  match x with
  | TKey c => put_input c t
  | TIoctl user pgid cmd arg => (tty_ioctl 1024 768 1 user pgid cmd arg t).2
  end.

(** The settings a program set last. *)
Definition last_set (n : Termios) (x : TtyCall) : Termios :=
  match x with
  | TIoctl user _ cmd arg =>
      if negb (arg =? 0) && ((cmd =? IOCTL_TCSETS) || (cmd =? IOCTL_TCSETSW) || (cmd =? IOCTL_TCSETSF)) then user else n
  | TKey _ => n
  end.

Lemma tty_call_termios t x : apply_termios t = t ->
  apply_termios (tty_call t x) = tty_call t x /\ termios (tty_call t x) = last_set (termios t) x.
Proof.
  intros Ht. destruct x as [c|user pgid cmd arg]; cbn [tty_call last_set].
  - split; [|done]. by rewrite <- Ht.
  - unfold tty_ioctl. destruct (arg =? 0), (cmd =? IOCTL_TIOCGWINSZ) eqn:E1, (cmd =? IOCTL_TCGETS) eqn:E2; cbn [negb andb];
      unfold IOCTL_TIOCGWINSZ, IOCTL_TCGETS, IOCTL_TCSETS, IOCTL_TCSETSW, IOCTL_TCSETSF in *;
      repeat (case_match; cbn [snd]); try (split; [exact Ht|done]); try lia; try done;
      (split; [|done]); by rewrite <- Ht.
Qed.

(** Whatever is typed and asked, the terminal works with the settings last set. *)
Theorem settings_in_force (xs : list TtyCall) :
  let t := fold_left tty_call xs Ldisc_new in
  apply_termios t = t /\ termios t = fold_left last_set xs Termios_default.
Proof.
  assert (H : forall t, apply_termios t = t -> let t' := fold_left tty_call xs t in
    apply_termios t' = t' /\ termios t' = fold_left last_set xs (termios t)).
  { induction xs as [|x xs IH]; intros t Ht; [done|]. cbn [fold_left]. destruct (tty_call_termios t x Ht) as [H1 <-]. by apply IH. }
  by apply (H Ldisc_new).
Qed.

(** ** Defects *)

Definition with_input (s : string) (more : list Z) (t : Ldisc) : Ldisc := set_input (as_bytes s ++ more) t.

(** [poll] reports a terminal readable as soon as a key is there; the read it invites
    sleeps until the line is complete. *)
Theorem poll_ready_read_sleeps :
  let t := with_input "a" [] Ldisc_new in
  tty_poll t = true /\ input_read_ready t = false /\ read_from_tty t (replicate 64 0) false 0 [] = None.
Proof. by vm_compute. Qed.

(** A carriage return makes the terminal ready although, without ICRNL, it ends no line:
    the read sleeps with the file locked. *)
Theorem cr_ready_read_sleeps :
  let n := mkTermios 0 5 0x830 0x800B 0 default_cc 38400 38400 in
  let t := with_input "a" [13] (apply_termios (set_termios n Ldisc_new)) in
  input_read_ready t = true /\ tty_read t (replicate 64 0) 0 [] = None.
Proof. by vm_compute. Qed.

(** So does a newline inside an unfinished escape sequence. *)
Theorem escape_ready_read_sleeps :
  let t := with_input "" [27; 91; 10] Ldisc_new in
  input_read_ready t = true /\ tty_read t (replicate 64 0) 0 [] = None.
Proof. by vm_compute. Qed.

(** The reads of a program, one after the other. *)
Fixpoint reads (n k : nat) (t : Ldisc) : list Z :=
  match k with
  | O => []
  | S k => match tty_read t (replicate n 0) 0 [] with
           | Some r => rd_bytes r ++ reads n k (set_input (rd_input r) t)
           | None => []
           end
  end.

(** A line is edited only inside the buffer of one read: a program that reads a byte at
    a time gets the characters the user took back. *)
Theorem short_reads_unedited :
  let t := with_input "ab" [0x7F; 99; 10] Ldisc_new in
  reads 64 1 t = as_bytes "ac" ++ [10] /\ reads 1 5 t = as_bytes "abc" ++ [10].
Proof. by vm_compute. Qed.

(** The erase character is fixed: another one set by the program is not obeyed. *)
Theorem verase_not_obeyed :
  let n := mkTermios 0x500 5 0x830 0x800B 0 (<[VERASE := 35]> default_cc) 38400 38400 in
  reads 64 1 (with_input "ab#c" [10] (apply_termios (set_termios n Ldisc_new))) = as_bytes "ab#c" ++ [10].
Proof. by vm_compute. Qed.

(** With MIN = 0 the time limit arms no timer: a read is woken by keys only, and while
    none is pressed it does not return, however long that takes. *)
Theorem vtime_waits_for_key (t : Ldisc) (n : nat) (now : Z) (ws : wakeups) (r : ReadDone) :
  (0 < n)%nat -> 0 < vtime t -> Forall (fun w => w.1 <> []) ws ->
  read_timed t n now [] now ws = Some r -> rd_bytes r <> [].
Proof.
  intros Hn Hv Hws. assert (He : (vtime t * 100 <=? elapsed_ms_since now now) = false).
  { replace (elapsed_ms_since now now) with 0; [lia|]. unfold elapsed_ms_since, saturating_sub. by rewrite Z.sub_diag. }
  destruct ws as [|[keys now'] ws]; cbn [read_timed]; rewrite He; [done|].
  inversion Hws as [|? ? Hk _]; subst. cbn [fst] in Hk. destruct keys as [|k keys]; [done|].
  destruct n; [lia|]. destruct ws; intros [= <-]; done.
Qed.

(** With MIN = 2 and TIME = 1 a single key and a long pause should return that key; the
    descriptor waits for both bytes first. *)
Theorem vtime_gap_not_seen :
  let n := mkTermios 0 5 0x830 0 0 (<[VMIN := 2]> (<[VTIME := 1]> default_cc)) 38400 38400 in
  let t := with_input "a" [] (apply_termios (set_termios n Ldisc_new)) in
  read_noncanonical t 8 0 [([], 60000000000)] = Some (mkRead [97] [] []) /\
  read_from_tty t (replicate 8 0) false 0 [([], 60000000000)] = None.
Proof. by vm_compute. Qed.
