(* ===== verification/Font.v ===== *)
(** * The console font (src/kernel/twilight_kernel/src/sys/console/font.rs)

    A glyph is sixteen rows of eight pixels, the leftmost in bit 7. *)

From Stdlib Require Import ZifyBool.
From S2P Require Import Prelude Text.
Open Scope Z_scope.

(** The sixteen rows of a glyph, two hexadecimal digits each, the top row first. *)
Definition rows_of (n : Z) : list Z := (fun i => Z.land (Z.shiftr n (8 * (15 - i))) 0xFF) <$> seqZ 0 16.

(** The printable ASCII characters, from the space on. *)
Definition BASE_PSF_FONTS : list (list Z) := rows_of <$> [
  0x00000000000000000000000000000000; 0x0000183c3c3c18181800181800000000; 0x00666666240000000000000000000000;
  0x0000006c6cfe6c6c6cfe6c6c00000000; 0x18187cc6c2c07c060686c67c18180000; 0x00000000c2c60c183060c68600000000;
  0x0000386c6c3876dccccccc7600000000; 0x00303030600000000000000000000000; 0x00000c18303030303030180c00000000;
  0x000030180c0c0c0c0c0c183000000000; 0x0000000000663cff3c66000000000000; 0x000000000018187e1818000000000000;
  0x00000000000000000018181830000000; 0x00000000000000fe0000000000000000; 0x00000000000000000000181800000000;
  0x0000000002060c183060c08000000000; 0x0000386cc6c6d6d6c6c66c3800000000; 0x00001838781818181818187e00000000;
  0x00007cc6060c183060c0c6fe00000000; 0x00007cc606063c060606c67c00000000; 0x00000c1c3c6cccfe0c0c0c1e00000000;
  0x0000fec0c0c0fc060606c67c00000000; 0x00003860c0c0fcc6c6c6c67c00000000; 0x0000fec606060c183030303000000000;
  0x00007cc6c6c67cc6c6c6c67c00000000; 0x00007cc6c6c67e0606060c7800000000; 0x00000000181800000018180000000000;
  0x00000000181800000018183000000000; 0x000000060c18306030180c0600000000; 0x00000000007e00007e00000000000000;
  0x0000006030180c060c18306000000000; 0x00007cc6c60c18181800181800000000; 0x0000007cc6c6dedededcc07c00000000;
  0x000010386cc6c6fec6c6c6c600000000; 0x0000fc6666667c66666666fc00000000; 0x00003c66c2c0c0c0c0c2663c00000000;
  0x0000f86c6666666666666cf800000000; 0x0000fe6662687868606266fe00000000; 0x0000fe6662687868606060f000000000;
  0x00003c66c2c0c0dec6c6663a00000000; 0x0000c6c6c6c6fec6c6c6c6c600000000; 0x00003c18181818181818183c00000000;
  0x00001e0c0c0c0c0ccccccc7800000000; 0x0000e666666c78786c6666e600000000; 0x0000f06060606060606266fe00000000;
  0x0000c6eefefed6c6c6c6c6c600000000; 0x0000c6e6f6fedecec6c6c6c600000000; 0x00007cc6c6c6c6c6c6c6c67c00000000;
  0x0000fc6666667c60606060f000000000; 0x00007cc6c6c6c6c6c6d6de7c0c0e0000; 0x0000fc6666667c6c666666e600000000;
  0x00007cc6c660380c06c6c67c00000000; 0x00007e7e5a1818181818183c00000000; 0x0000c6c6c6c6c6c6c6c6c67c00000000;
  0x0000c6c6c6c6c6c6c66c381000000000; 0x0000c6c6c6c6d6d6d6feee6c00000000; 0x0000c6c66c7c38387c6cc6c600000000;
  0x0000666666663c181818183c00000000; 0x0000fec6860c183060c2c6fe00000000; 0x00003c30303030303030303c00000000;
  0x00000080c0e070381c0e060200000000; 0x00003c0c0c0c0c0c0c0c0c3c00000000; 0x10386cc6000000000000000000000000;
  0x00000000000000000000000000ff0000; 0x0030180c000000000000000000000000; 0x0000000000780c7ccccccc7600000000;
  0x0000e06060786c666666667c00000000; 0x00000000007cc6c0c0c0c67c00000000; 0x00001c0c0c3c6ccccccccc7600000000;
  0x00000000007cc6fec0c0c67c00000000; 0x00001c36323078303030307800000000; 0x000000000076cccccccccc7c0ccc7800;
  0x0000e060606c7666666666e600000000; 0x00001818003818181818183c00000000; 0x00000606000e06060606060666663c00;
  0x0000e06060666c78786c66e600000000; 0x00003818181818181818183c00000000; 0x0000000000ecfed6d6d6d6c600000000;
  0x0000000000dc66666666666600000000; 0x00000000007cc6c6c6c6c67c00000000; 0x0000000000dc66666666667c6060f000;
  0x000000000076cccccccccc7c0c0c1e00; 0x0000000000dc7666606060f000000000; 0x00000000007cc660380cc67c00000000;
  0x0000103030fc30303030361c00000000; 0x0000000000cccccccccccc7600000000; 0x0000000000c6c6c6c6c66c3800000000;
  0x0000000000c6c6d6d6d6fe6c00000000; 0x0000000000c66c3838386cc600000000; 0x0000000000c6c6c6c6c6c67e060cf800;
  0x0000000000fecc183060c6fe00000000; 0x00000e18181870181818180e00000000; 0x00001818181818181818181800000000;
  0x0000701818180e181818187000000000; 0x0076dc00000000000000000000000000
].

Definition get_block_element_glyph (codepoint : Z) : list Z :=
  if codepoint =? 0x2580 then replicate 8 0xFF ++ replicate 8 0
  else if codepoint =? 0x2584 then replicate 8 0 ++ replicate 8 0xFF
  else if codepoint =? 0x2588 then replicate 16 0xFF
  else if codepoint =? 0x2591 then concat (replicate 8 [0x55; 0xAA])
  else if codepoint =? 0x2592 then concat (replicate 8 [0x33; 0xCC])
  else if codepoint =? 0x2593 then concat (replicate 8 [0x77; 0xDD])
  else replicate 16 0xFF.

(** The strokes that meet in the cell: up 1, right 2, down 4, left 8. *)
Definition box_mask (codepoint : Z) : Z :=
  if codepoint =? 0x2500 then 0xA
  else if codepoint =? 0x2502 then 0x5
  else if codepoint =? 0x250C then 0x6
  else if codepoint =? 0x2510 then 0xC
  else if codepoint =? 0x2514 then 0x3
  else if codepoint =? 0x2518 then 0x9
  else if codepoint =? 0x251C then 0x7
  else if codepoint =? 0x2524 then 0xD
  else if codepoint =? 0x252C then 0xE
  else if codepoint =? 0x2534 then 0xB
  else if codepoint =? 0x253C then 0xF
  else 0.

(** [bitmap[y] |= bits] for the rows [y] from [a] to [b]. *)
Definition or_rows (a b : nat) (bits : Z) (bitmap : list Z) : list Z :=
  imap (fun y r => if (a <=? y)%nat && (y <? b)%nat then Z.lor r bits else r) bitmap.

Definition get_box_drawing_glyph (codepoint : Z) : list Z :=
  let mask := box_mask codepoint in
  let bitmap := replicate 16 0 in
  if mask =? 0 then bitmap
  else
    let bitmap := if negb (Z.land mask 0x1 =? 0) then or_rows 0 8 0x18 bitmap else bitmap in
    let bitmap := if negb (Z.land mask 0x4 =? 0) then or_rows 8 16 0x18 bitmap else bitmap in
    let bitmap := if negb (Z.land mask 0x8 =? 0) then or_rows 7 9 0xF0 bitmap else bitmap in
    if negb (Z.land mask 0x2 =? 0) then or_rows 7 9 0x0F bitmap else bitmap.

Definition get_glyph (c : Z) : option (list Z) :=
  if (32 <=? c) && (c <? 127) then BASE_PSF_FONTS !! Z.to_nat (c - 32)
  else if (0x2580 <=? c) && (c <=? 0x259F) then Some (get_block_element_glyph c)
  else if (0x2500 <=? c) && (c <=? 0x257F) then Some (get_box_drawing_glyph c)
  else if c =? 63 then BASE_PSF_FONTS !! Z.to_nat (63 - 32)
  else None.

(** Every glyph has sixteen rows of eight bits. *)
Lemma font_rows : Forall (fun g => length g = 16%nat /\ Forall (fun r => 0 <= r < 256) g) BASE_PSF_FONTS.
Proof.
  assert (H : forallb (fun g => (length g =? 16)%nat && forallb (fun r => (0 <=? r) && (r <? 256)) g) BASE_PSF_FONTS = true)
    by (vm_compute; reflexivity).
  rewrite forallb_forall in H. apply Forall_forall. intros g Hg. specialize (H g (proj1 (list_elem_of_In _ _) Hg)).
  apply andb_prop in H as [H1 H2]. split; [by apply Nat.eqb_eq|]. rewrite forallb_forall in H2.
  apply Forall_forall. intros r Hr. specialize (H2 r (proj1 (list_elem_of_In _ _) Hr)). lia.
Qed.

Lemma get_glyph_length c g : get_glyph c = Some g -> length g = 16%nat.
Proof.
  assert (Hbase : forall i, BASE_PSF_FONTS !! i = Some g -> length g = 16%nat).
  { intros i Hi. by apply (proj1 (Forall_lookup _ _) font_rows) in Hi as [? _]. }
  unfold get_glyph, get_block_element_glyph, get_box_drawing_glyph, or_rows.
  repeat case_match; intros [= <-] || (intros Hg; eapply Hbase; exact Hg); by rewrite ?length_imap.
Qed.
