(* ===== verification/Framebuffer.v ===== *)
(** * The framebuffer (src/kernel/twilight_kernel/src/sys/framebuffer/mod.rs)

    The pixels in video memory and their copy in RAM.  A pixel is a 32-bit number; the
    pixel in column [x] of row [y] has the index [y * width + x]. *)

From Stdlib Require Import ZifyBool.
From S2P Require Import Prelude Bytes.
Open Scope twilight_scope.

Record FrameBuffer := mkFb { video_buf : list Z; pixels : list Z; fb_width : nat; fb_height : nat; pitch : Z }.
Abbreviation FB := (M FrameBuffer unit).

Definition set_bufs (v p : list Z) (f : FrameBuffer) : FrameBuffer := mkFb v p (fb_width f) (fb_height f) (pitch f).

(** [new]: the video memory as it is found, and a zeroed copy. *)
Definition FrameBuffer_new (video : list Z) (w h : nat) (pitch : Z) : FrameBuffer :=
  mkFb video (replicate (w * h) 0) w h pitch.

(** The bytes of a pixel, and the pixel they make in memory. *)
Definition convert_color (color : Z) : list Z :=
  [Z.land color 0xFF; Z.land (Z.shiftr color 8) 0xFF; Z.land (Z.shiftr color 16) 0xFF; 255].
Definition opaque (color : Z) : Z := from_le (convert_color color).

(** ** Access by index *)

(** [read] of [n] pixels. *)
Definition fb_read (offset n : nat) : FB (list Z) :=
  f <-- getM ;;
  if (length (video_buf f) <? offset + n)%nat then failM tt else retM (load offset n (video_buf f)).

(** [write] of some pixels, to both copies.  A slice of the copy that is out of range
    panics. *)
Definition fb_write (offset : nat) (px : list Z) : FB unit :=
  f <-- getM ;;
  if (length (video_buf f) <? offset + length px)%nat then failM tt
  else if (length (pixels f) <? offset + length px)%nat then panicM
  else putM (set_bufs (store offset px (video_buf f)) (store offset px (pixels f)) f).

Definition sync_full : FB unit :=
  f <-- getM ;;
  if negb (length (video_buf f) =? length (pixels f))%nat then panicM else putM (set_bufs (pixels f) (pixels f) f).

Definition sync_partial (pixel_start pixel_count : nat) : FB unit :=
  f <-- getM ;;
  let total := length (pixels f) in
  let start := (pixel_start `min` total)%nat in
  let stop := ((start + pixel_count) `min` total)%nat in
  if (stop <=? start)%nat then retM tt
  else if (length (video_buf f) <? stop)%nat then panicM
  else putM (set_bufs (store start (load start (stop - start) (pixels f)) (video_buf f)) (pixels f) f).

Definition clear_buf (color : Z) : FB unit :=
  modifyM (fun f => set_bufs (video_buf f) (replicate (length (pixels f)) color) f).

(** [copy_within] and [fill] of the copy. *)
Definition scroll_up (lines : nat) (fill_color : Z) : FB unit :=
  f <-- getM ;;
  let h := fb_height f in
  let w := fb_width f in
  let scroll := (lines `min` h)%nat in
  if (scroll =? 0)%nat then retM tt
  else if (h <=? scroll)%nat then clear_buf fill_color >>> sync_full
  else
    let count := ((h - scroll) * w)%nat in
    let src := (scroll * w)%nat in
    if (length (pixels f) <? src + count)%nat then panicM
    else
      let moved := store 0 (load src count (pixels f)) (pixels f) in
      putM (set_bufs (video_buf f) (take count moved ++ replicate (length moved - count) fill_color) f) >>>
      sync_full.

(** ** Drawing into the copy *)

(** [set_pixel]: outside the screen, nothing. *)
Definition set_pixel (x y : nat) (color : Z) : FB unit :=
  f <-- getM ;;
  if (fb_width f <=? x)%nat || (fb_height f <=? y)%nat then retM tt
  else let i := (y * fb_width f + x)%nat in
       if (length (pixels f) <=? i)%nat then panicM else putM (set_bufs (video_buf f) (<[i := color]> (pixels f)) f).

(** One row of [fill_rect_buf]: the bounds are computed in 64 bits, and a slice that ends
    before it starts, or after the pixels, panics. *)
Definition fill_row (x0 x1 color yy : Z) : FB unit :=
  f <-- getM ;;
  let w := Z.of_nat (fb_width f) in
  let row_start := u64 (yy * w + x0) in
  let row_end := u64 (yy * w + u64 (x1 - 1) + 1) in
  if (row_end <? row_start) || (Z.of_nat (length (pixels f)) <? row_end) then panicM
  else putM (set_bufs (video_buf f)
               (store (Z.to_nat row_start) (replicate (Z.to_nat (row_end - row_start)) color) (pixels f)) f).

Fixpoint fill_rows (n : nat) (x0 x1 color yy : Z) : FB unit :=
  match n with O => retM tt | S n => fill_row x0 x1 color yy >>> fill_rows n x0 x1 color (yy + 1) end.

(** Wrap-around of a signed sum. *)
Definition i64 (z : Z) : Z := (z + 2 ^ 63) mod 2 ^ 64 - 2 ^ 63.
Definition clamp (z hi : Z) : Z := Z.max 0 (Z.min z hi).

Definition fill_rect_buf (x y w h color : Z) : FB unit :=
  f <-- getM ;;
  if (w <=? 0) || (h <=? 0) then retM tt
  else
    let x0 := Z.max x 0 in
    let y0 := Z.max y 0 in
    let x1 := clamp (i64 (x + w)) (Z.of_nat (fb_width f)) in
    let y1 := clamp (i64 (y + h)) (Z.of_nat (fb_height f)) in
    fill_rows (Z.to_nat (y1 - y0)) x0 x1 color y0.

(** The loop of [scroll_down], pixel after pixel from the first. *)
Fixpoint copy_down (n i dst : nat) (px : list Z) : option (list Z) :=
  match n with
  | O => Some px
  | S n => match px !! i with
           | None => None
           | Some v => if (length px <=? dst + i)%nat then None else copy_down n (S i) dst (<[(dst + i)%nat := v]> px)
           end
  end.

Definition scroll_down (lines : nat) (fill_color : Z) : FB unit :=
  f <-- getM ;;
  let h := fb_height f in
  let w := fb_width f in
  if (lines =? 0)%nat || (h <=? lines)%nat then clear_buf fill_color
  else
    let top := (lines * w)%nat in
    match copy_down ((h - lines) * w) 0 top (pixels f) with
    | None => panicM
    | Some px => putM (set_bufs (video_buf f) (store 0 (replicate top fill_color) px) f)
    end.

(** ** [ioctl] *)

Record FbVarScreenInfo := mkVar { xres : Z; yres : Z; bits_per_pixel : Z; red_offset : Z; green_offset : Z; blue_offset : Z }.
Record FbFixScreenInfo := mkFix { line_length : Z; smem_len : Z }.
Inductive FbOut := OVar (i : FbVarScreenInfo) | OFix (i : FbFixScreenInfo).

Definition fb_ioctl (cmd arg : Z) : FB (Z * option FbOut) :=
  f <-- getM ;;
  if cmd =? 0x4600 then
    retM (if arg =? 0 then (-22, None)
          else (0, Some (OVar (mkVar (u32 (Z.of_nat (fb_width f))) (u32 (Z.of_nat (fb_height f))) 32 16 8 0))))
  else if cmd =? 0x4602 then
    retM (if arg =? 0 then (-22, None)
          else (0, Some (OFix (mkFix (u32 (pitch f)) (u32 (pitch f * Z.of_nat (fb_height f)))))))
  else if cmd =? 0x4606 then sync_full >>> retM (0, None)
  else retM (-1, None).

(** ** Two copies of one picture *)

(** Both copies have all the pixels and agree. *)
Definition coherent (f : FrameBuffer) : Prop :=
  pixels f = video_buf f /\ length (video_buf f) = (fb_width f * fb_height f)%nat.

Lemma fb_write_ok off px f : coherent f -> (off + length px <= length (video_buf f))%nat ->
  fb_write off px f = (Ok tt, set_bufs (store off px (video_buf f)) (store off px (video_buf f)) f) /\
  coherent (set_bufs (store off px (video_buf f)) (store off px (video_buf f)) f).
Proof.
  intros [H1 H2] Hl. unfold fb_write, getM, bindM, putM. rewrite H1. replace (_ <? _)%nat with false by lia.
  split; [done|]. split; [done|]. cbn. rewrite store_length by lia. done.
Qed.

Lemma sync_partial_ok a n f : coherent f -> sync_partial a n f = (Ok tt, f).
Proof.
  intros [H1 H2]. unfold sync_partial, getM, bindM, putM, retM. rewrite H1. case_match; [done|].
  replace (_ <? _)%nat with false by lia. rewrite store_load by lia. unfold set_bufs. destruct f; cbn in *. by subst.
Qed.

Lemma sync_full_ok f : coherent f -> sync_full f = (Ok tt, f).
Proof.
  intros [H1 H2]. unfold sync_full, getM, bindM, putM. rewrite H1, Nat.eqb_refl. unfold set_bufs. destruct f; cbn in *. by subst.
Qed.

(** ** Defects *)

(** The picture [o] with the first [n] pixels after [s] taken from its first [s]. *)
Definition smeared (o : list Z) (s n : nat) (px : list Z) : Prop :=
  length px = length o /\
  forall j, px !! j = if (s <=? j)%nat && (j <? s + n)%nat then o !! (j mod s)%nat else o !! j.

Lemma copy_down_smears n i s o px : (0 < s)%nat -> (s + i + n <= length o)%nat -> smeared o s i px ->
  exists px', copy_down n i s px = Some px' /\ smeared o s (i + n) px'.
Proof.
  intros Hs. revert i px. induction n as [|n IH]; intros i px Hl [Hlen Hpx]; cbn [copy_down].
  { exists px. rewrite Nat.add_0_r. by split. }
  assert (Hi : px !! i = o !! (i mod s)%nat).
  { rewrite Hpx. destruct (s <=? i)%nat eqn:E; cbn [andb]; [by replace (i <? s + i)%nat with true by lia|].
    by rewrite Nat.mod_small by lia. }
  rewrite Hi. destruct (lookup_lt_is_Some_2 o (i mod s)) as [v Hv]; [pose proof (Nat.mod_upper_bound i s); lia|]. rewrite Hv.
  replace (length px <=? s + i)%nat with false by lia. rewrite <- Nat.add_succ_comm. apply IH; [lia|].
  split; [by rewrite length_insert|]. intros j. destruct (decide (j = s + i)%nat) as [->|Hj].
  - rewrite list_lookup_insert_eq by lia. replace (_ && _) with true by lia.
    replace ((s + i) mod s)%nat with (i mod s)%nat; [done|]. rewrite <- (Nat.mul_1_l s) at 2.
    rewrite Nat.add_comm, Nat.Div0.mod_add. done.
  - rewrite list_lookup_insert_ne, Hpx by done. by replace (j <? s + S i)%nat with (j <? s + i)%nat by lia.
Qed.

(** [scroll_down] copies forward over its own source: instead of the picture moved down,
    the rows below the new ones repeat the first rows of the old picture. *)
Theorem scroll_down_smears (f : FrameBuffer) (lines : nat) (c : Z) :
  coherent f -> (0 < lines < fb_height f)%nat -> (0 < fb_width f)%nat ->
  exists f', scroll_down lines c f = (Ok tt, f') /\
    forall x y, (x < fb_width f)%nat -> (lines <= y < fb_height f)%nat ->
      pixels f' !! (y * fb_width f + x)%nat = pixels f !! (y mod lines * fb_width f + x)%nat.
Proof.
  intros [H1 H2] Hl Hw. rewrite <- H1 in H2. unfold scroll_down, getM, bindM, putM.
  replace (_ || _) with false by lia.
  destruct (copy_down_smears ((fb_height f - lines) * fb_width f) 0 (lines * fb_width f) (pixels f) (pixels f)) as (px & -> & Hlen & Hpx);
    [nia|nia|split; [done|]; intros j; by replace (_ && _) with false by lia|].
  eexists. split; [reflexivity|]. intros x y Hx Hy. cbn [pixels set_bufs].
  rewrite store_lookup, length_replicate by (rewrite length_replicate; nia).
  replace (_ && _) with false by nia. rewrite Hpx. replace (_ && _) with true by nia. f_equal.
  pose proof (Nat.div_mod_eq y lines). pose proof (Nat.mod_upper_bound y lines).
  symmetry. apply Nat.mod_unique with (y / lines)%nat; nia.
Qed.

(** A rectangle that lies to the left of the screen draws nothing; one to the right of it
    panics. *)
Theorem rect_right_of_screen_panics :
  let f := FrameBuffer_new (replicate 16 0) 4 4 16 in
  fill_rect_buf (-9) 0 3 2 7 f = (Ok tt, f) /\ (fill_rect_buf 9 0 3 2 7 f).1 = Panic.
Proof. by vm_compute. Qed.
