(* ===== verification/FbTerm.v ===== *)
(** * The framebuffer terminal (src/kernel/twilight_kernel/src/sys/console/framebuffer.rs)

    Characters, erasing, scrolling and the cursor drawn over the text, on the pixels of
    the framebuffer.  Columns, rows and pixel coordinates stay far below 2^64. *)

From Stdlib Require Import ZifyBool.
From S2P Require Import Prelude Bytes Text Utf Font Framebuffer.
Open Scope twilight_scope.

Definition CURSOR_W : nat := 8.
Definition CURSOR_H : nat := 16.
Definition CHAR_W : nat := 8.
Definition CHAR_H : nat := 16.

Record FramebufferTerminal := mkTerm {
  width : nat; height : nat; cursor_x : nat; cursor_y : nat;
  color : Z; bg_color : Z; reverse : bool;
  cursor_visible : bool; cursor_drawn : bool; cursor_saved_x : nat; cursor_saved_y : nat; cursor_backup : list Z;
  utf8_buf : list Z;
}.

Definition set_cursor (x y : nat) (t : FramebufferTerminal) : FramebufferTerminal :=
  mkTerm (width t) (height t) x y (color t) (bg_color t) (reverse t) (cursor_visible t) (cursor_drawn t)
    (cursor_saved_x t) (cursor_saved_y t) (cursor_backup t) (utf8_buf t).
Definition set_style (fg bg : Z) (rev : bool) (t : FramebufferTerminal) : FramebufferTerminal :=
  mkTerm (width t) (height t) (cursor_x t) (cursor_y t) fg bg rev (cursor_visible t) (cursor_drawn t)
    (cursor_saved_x t) (cursor_saved_y t) (cursor_backup t) (utf8_buf t).
Definition set_visible (v : bool) (t : FramebufferTerminal) : FramebufferTerminal :=
  mkTerm (width t) (height t) (cursor_x t) (cursor_y t) (color t) (bg_color t) (reverse t) v (cursor_drawn t)
    (cursor_saved_x t) (cursor_saved_y t) (cursor_backup t) (utf8_buf t).
Definition set_drawn (d : bool) (sx sy : nat) (backup : list Z) (t : FramebufferTerminal) : FramebufferTerminal :=
  mkTerm (width t) (height t) (cursor_x t) (cursor_y t) (color t) (bg_color t) (reverse t) (cursor_visible t) d
    sx sy backup (utf8_buf t).
Definition set_utf8 (b : list Z) (t : FramebufferTerminal) : FramebufferTerminal :=
  mkTerm (width t) (height t) (cursor_x t) (cursor_y t) (color t) (bg_color t) (reverse t) (cursor_visible t)
    (cursor_drawn t) (cursor_saved_x t) (cursor_saved_y t) (cursor_backup t) b.

(** The framebuffer is a static that every terminal shares. *)
Record Screen := mkScreen { fb : FrameBuffer; term : FramebufferTerminal }.
Abbreviation SM := (M Screen unit).

Definition onFb {A} (m : FB A) : SM A :=
  fun s => let '(r, f) := m (fb s) in (r, mkScreen f (term s)).
Definition updTerm (g : FramebufferTerminal -> FramebufferTerminal) : SM unit :=
  modifyM (fun s => mkScreen (fb s) (g (term s))).
Definition getTerm : SM FramebufferTerminal := s <-- getM ;; retM (term s).

(** [for i in a..a + n]. *)
Fixpoint for_range {St} (n a : nat) (body : nat -> M St unit unit) : M St unit unit :=
  match n with O => retM tt | S n => body a >>> for_range n (S a) body end.

(** ** Filling *)

(** The loop that writes [n] pixels in chunks of 256. *)
Fixpoint fill_span (fuel off n : nat) (px : Z) : FB unit :=
  match fuel with
  | O => panicM
  | S fuel =>
      if (n =? 0)%nat then retM tt
      else
        let chunk := (n `min` 256)%nat in
        unwrapM (fb_write off (replicate chunk px)) >>> fill_span fuel (off + chunk) (n - chunk) px
  end.

Definition fill_rect (x y w h : nat) (c : Z) : SM unit :=
  onFb (f <-- getM ;;
        for_range h 0 (fun row => fill_span (S w) ((y + row) * fb_width f + x) w (opaque c)) >>>
        sync_partial (y * fb_width f + x) (w * h)).

Definition apply_console_bg (c : Z) : SM unit :=
  onFb (f <-- getM ;; let total := (fb_width f * fb_height f)%nat in fill_span (S total) 0 total (opaque c)).

(** ** The cursor *)

Definition cursor_rect (t : FramebufferTerminal) (cell_x cell_y : nat) : option (nat * nat) :=
  let x := (cell_x * CHAR_W)%nat in
  let y := (cell_y * CHAR_H)%nat in
  if (width t <? x + CURSOR_W)%nat || (height t <? y + CURSOR_H)%nat then None else Some (x, y).

(** [let _ = fb.write(..)]. *)
Definition write_ignored (off : nat) (px : list Z) : FB unit := okM (fb_write off px) >>> retM tt.

Definition erase_cursor : SM unit :=
  t <-- getTerm ;;
  if negb (cursor_drawn t) then retM tt
  else
    let off := updTerm (set_drawn false (cursor_saved_x t) (cursor_saved_y t) (cursor_backup t)) in
    match cursor_rect t (cursor_saved_x t) (cursor_saved_y t) with
    | None => off
    | Some (x, y) =>
        onFb (f <-- getM ;;
              for_range CURSOR_H 0 (fun row =>
                write_ignored ((y + row) * fb_width f + x) (load (row * CURSOR_W) CURSOR_W (cursor_backup t))) >>>
              sync_partial (y * fb_width f + x) (CURSOR_W * CURSOR_H)) >>>
        off
    end.

(** One row of pixels into the backup; a failed read leaves zeros. *)
Definition backup_row (x y row : nat) : SM unit :=
  s <-- getM ;;
  px <-- onFb (okM (fb_read ((y + row) * fb_width (fb s) + x) CURSOR_W)) ;;
  updTerm (fun t => set_drawn (cursor_drawn t) (cursor_saved_x t) (cursor_saved_y t)
                      (store (row * CURSOR_W) (default (replicate CURSOR_W 0) px) (cursor_backup t)) t).

Definition draw_cursor : SM unit :=
  t <-- getTerm ;;
  if negb (cursor_visible t) then retM tt
  else
    erase_cursor >>>
    t <-- getTerm ;;
    match cursor_rect t (cursor_x t) (cursor_y t) with
    | None => retM tt
    | Some (x, y) =>
        for_range CURSOR_H 0 (backup_row x y) >>>
        onFb (f <-- getM ;;
              for_range CURSOR_H 0 (fun row =>
                write_ignored ((y + row) * fb_width f + x) (replicate CURSOR_W (opaque (color t)))) >>>
              sync_partial (y * fb_width f + x) (CURSOR_W * CURSOR_H)) >>>
        updTerm (fun t => set_drawn true (cursor_x t) (cursor_y t) (cursor_backup t) t)
    end.

Definition set_cursor_visible (v : bool) : SM unit :=
  if v then updTerm (set_visible true) >>> draw_cursor
  else erase_cursor >>> updTerm (set_visible false).

Definition refresh_cursor : SM unit := draw_cursor.

(** ** Erasing *)

(** [erase_cursor], some filling, [draw_cursor]. *)
Definition erasing (body : FramebufferTerminal -> SM unit) : SM unit :=
  erase_cursor >>> t <-- getTerm ;; body t >>> draw_cursor.

Definition erase_line : SM unit :=
  erasing (fun t => fill_rect 0 (cursor_y t * 16) (width t) 16 (bg_color t) >>> updTerm (set_cursor 0 (cursor_y t))).
Definition erase_in_line_from_cursor : SM unit :=
  erasing (fun t => fill_rect (cursor_x t * 8) (cursor_y t * 16) (width t - cursor_x t * 8) 16 (bg_color t)).
Definition erase_in_line_to_cursor : SM unit :=
  erasing (fun t => fill_rect 0 (cursor_y t * 16) (cursor_x t * 8) 16 (bg_color t)).
Definition erase_display_from_cursor : SM unit :=
  erasing (fun t =>
    let x := (cursor_x t * 8)%nat in
    let y := (cursor_y t * 16)%nat in
    fill_rect x y (width t - x) 16 (bg_color t) >>>
    if (y + 16 <? height t)%nat then fill_rect 0 (y + 16) (width t) (height t - (y + 16)) (bg_color t) else retM tt).
Definition erase_display_to_cursor : SM unit :=
  erasing (fun t =>
    let x := (cursor_x t * 8)%nat in
    let y := (cursor_y t * 16)%nat in
    (if (0 <? y)%nat then fill_rect 0 0 (width t) y (bg_color t) else retM tt) >>>
    fill_rect 0 y x 16 (bg_color t)).
Definition clear : SM unit :=
  erasing (fun t => apply_console_bg (bg_color t) >>> updTerm (set_cursor 0 0)).

(** ** Characters *)

(** The pixel written to both copies, when the index is on the screen. *)
Definition poke (idx : nat) (px : Z) : FB unit :=
  f <-- getM ;;
  if (idx <? length (video_buf f))%nat then putM (set_bufs (<[idx := px]> (video_buf f)) (<[idx := px]> (pixels f)) f)
  else retM tt.

Definition glyph_bit (g : list Z) (row col : nat) : bool :=
  negb (Z.land (nth row g 0) (Z.shiftl 1 (Z.of_nat (7 - col))) =? 0).

Definition draw_char (x y : nat) (ch : Z) (fg0 : Z) : SM unit :=
  t <-- getTerm ;;
  let fg := if reverse t then bg_color t else fg0 in
  let bg := if reverse t then fg0 else bg_color t in
  match get_glyph ch with
  | None => retM tt
  | Some g =>
      onFb (f <-- getM ;;
            for_range (length g) 0 (fun row =>
              for_range CHAR_W 0 (fun col =>
                poke ((y + row) * fb_width f + x + col) (if glyph_bit g row col then fg else bg))))
  end.

Definition scroll : SM unit :=
  t <-- getTerm ;; onFb (scroll_up 16 (bg_color t) >>> sync_full).

Definition new_line : SM unit :=
  updTerm (fun t => set_cursor 0 (S (cursor_y t)) t) >>>
  t <-- getTerm ;;
  if (height t <? (cursor_y t + 1) * 16)%nat
  then scroll >>> updTerm (fun t => set_cursor (cursor_x t) (cursor_y t - 1) t)
  else retM tt.

Definition backspace : SM unit :=
  t <-- getTerm ;;
  if (0 <? cursor_x t)%nat then
    updTerm (set_cursor (cursor_x t - 1) (cursor_y t)) >>>
    draw_char ((cursor_x t - 1) * CHAR_W) (cursor_y t * CHAR_H) 32 (color t)
  else retM tt.

(** [char::is_control]. *)
Definition is_control (c : Z) : bool := in_range 0 31 c || in_range 127 159 c.

Definition put_char_utf32 (c : Z) : SM unit :=
  if c =? 7 then retM tt
  else
    erase_cursor >>>
    if c =? 10 then new_line
    else if (c =? 8) || (c =? 127) then backspace
    else if c =? 13 then updTerm (fun t => set_cursor 0 (cursor_y t) t)
    else
      t <-- getTerm ;;
      (if (width t / CHAR_W <=? cursor_x t)%nat then new_line else retM tt) >>>
      t <-- getTerm ;;
      draw_char (cursor_x t * CHAR_W) (cursor_y t * CHAR_H) (if is_control c then 63 else c) (color t) >>>
      updTerm (fun t => set_cursor (S (cursor_x t)) (cursor_y t) t) >>>
      t <-- getTerm ;;
      if (width t <? cursor_x t * CHAR_W)%nat then new_line else retM tt.

(** The decoder: the bytes kept, and the character that is complete. *)
Definition utf8_push (b : list Z) (byte : Z) : list Z * option Z :=
  if (length b =? 0)%nat && (Z.land byte 0x80 =? 0) then ([], Some byte)
  else
    let b := if (length b <? 4)%nat then b ++ [byte] else b in
    if utf8_valid b then match decode_utf8 b with c :: _ => ([], Some c) | [] => (b, None) end
    else if (4 <=? length b)%nat then ([], Some 63)
    else (b, None).

Definition put_byte (byte : Z) : SM unit :=
  t <-- getTerm ;;
  let '(b, c) := utf8_push (utf8_buf t) byte in
  match c with Some c => put_char_utf32 c | None => retM tt end >>>
  updTerm (set_utf8 b).

(** [write]. *)
Fixpoint write_str (s : list Z) : SM unit :=
  match s with [] => retM tt | b :: s => put_byte b >>> write_str s end.

(** [new], on a framebuffer of that size. *)
Definition Terminal_new (f : FrameBuffer) : res unit unit * Screen :=
  (clear >>> draw_cursor)
    (mkScreen f (mkTerm (fb_width f) (fb_height f) 0 0 0xFFFFFF 0x101010 false true false 0 0 (replicate 128 0) [])).

(** * The framebuffer terminal: a picture in two dimensions

    The pixel operations as updates of a picture [nat -> nat -> Z], and the picture
    under the cursor. *)

Open Scope twilight_scope.

(** ** Rows of pixels *)

Definition px_at (f : FrameBuffer) (x y : nat) : Z := nth (y * fb_width f + x) (video_buf f) 0.

Definition same_size (f g : FrameBuffer) : Prop := fb_width g = fb_width f /\ fb_height g = fb_height f.

Definition within (a n i : nat) : bool := (a <=? i)%nat && (i <? a + n)%nat.

Lemma row_index (W x0 y0 n x y : nat) : (x < W)%nat -> (x0 + n <= W)%nat ->
  within (y0 * W + x0) n (y * W + x) = (y =? y0)%nat && within x0 n x.
Proof.
  intros Hx Hn. unfold within. destruct (Nat.lt_trichotomy y y0) as [H|[H|H]].
  - assert (y * W + W <= y0 * W)%nat by nia. lia.
  - subst. lia.
  - assert (y0 * W + W <= y * W)%nat by nia. lia.
Qed.

Lemma px_index (W H x y : nat) : (x < W)%nat -> (y < H)%nat -> (y * W + x < W * H)%nat.
Proof. intros. nia. Qed.

Lemma nth_store (off : nat) (src l : list Z) (i : nat) : (off + length src <= length l)%nat ->
  nth i (store off src l) 0 = if within off (length src) i then nth (i - off) src 0 else nth i l 0.
Proof. intros H. unfold within. rewrite !nth_lookup, store_lookup by done. by case_match. Qed.

(** The framebuffer after some pixels are stored. *)
Definition stored (off : nat) (px : list Z) (f : FrameBuffer) : FrameBuffer :=
  set_bufs (store off px (video_buf f)) (store off px (video_buf f)) f.

Lemma stored_row f x y px : coherent f -> (x + length px <= fb_width f)%nat -> (y < fb_height f)%nat ->
  (y * fb_width f + x + length px <= length (video_buf f))%nat /\
  forall i j, (i < fb_width f)%nat -> (j < fb_height f)%nat ->
    px_at (stored (y * fb_width f + x) px f) i j =
    if (j =? y)%nat && within x (length px) i then nth (i - x) px 0 else px_at f i j.
Proof.
  intros [H1 H2] Hx Hy. assert (Hfit : (y * fb_width f + x + length px <= length (video_buf f))%nat) by nia.
  split; [done|]. intros i j Hi Hj. unfold px_at, stored. cbn [video_buf set_bufs fb_width].
  rewrite nth_store by done. rewrite row_index by done. destruct (j =? y)%nat eqn:E; [|done]. cbn [andb].
  case_match; [|done]. f_equal. apply Nat.eqb_eq in E. subst. lia.
Qed.

(** [n] rows drawn one after the other. *)
Lemma rows_draw n a body (content : nat -> list Z) x y w f :
  coherent f -> (x + w <= fb_width f)%nat -> (y + a + n <= fb_height f)%nat ->
  (forall k, (a <= k < a + n)%nat -> length (content k) = w) ->
  (forall k g, (a <= k < a + n)%nat -> coherent g -> same_size f g ->
     body k g = (Ok tt, stored ((y + k) * fb_width f + x) (content k) g)) ->
  exists f', for_range n a body f = (Ok tt, f') /\ coherent f' /\ same_size f f' /\
    forall i j, (i < fb_width f)%nat -> (j < fb_height f)%nat ->
      px_at f' i j = if within (y + a) n j && within x w i then nth (i - x) (content (j - y)%nat) 0 else px_at f i j.
Proof.
  revert a f. induction n as [|n IH]; intros a f Hc Hx Hy Hlen Hbody; cbn [for_range].
  { exists f. split_and!; [done..|]. intros i j Hi Hj. unfold within at 1. by replace (_ && _) with false by lia. }
  unfold bindM. rewrite (Hbody a f) by (done || lia || split; done).
  pose proof (Hlen a ltac:(lia)) as Hla. pose proof Hc as [Hc1 Hc2].
  destruct (stored_row f x (y + a) (content a)) as [Hfit Hpx]; [done|lia|lia|].
  set (g := stored _ _ f) in *. assert (Hg : coherent g).
  { split; [done|]. unfold g, stored. cbn. rewrite store_length by lia. done. }
  destruct (IH (S a) g) as (f' & Hrun & Hc' & [S1 S2] & Hf'); [done|done|cbn; lia|intros; apply Hlen; lia| |].
  { intros k h Hk Hh [T1 T2]. rewrite (Hbody k h); [done|lia|done|split; [exact T1|exact T2]]. }
  exists f'. split_and!; [done|done|by split|]. intros i j Hi Hj. rewrite Hf' by done. rewrite Hpx by done.
  rewrite Hla. unfold within. destruct ((x <=? i)%nat && (i <? x + w)%nat) eqn:E.
  - destruct (j =? y + a)%nat eqn:Ej.
    + replace ((y + S a <=? j)%nat && _) with false by lia. replace ((y + a <=? j)%nat && _) with true by lia.
      cbn [andb]. do 2 f_equal. lia.
    + replace ((y + a <=? j)%nat && (j <? y + a + S n)%nat) with ((y + S a <=? j)%nat && (j <? y + S a + n)%nat) by lia. done.
  - by rewrite !andb_false_r.
Qed.

(** ** The operations *)

Lemma fb_write_stored off px f : coherent f -> (off + length px <= length (video_buf f))%nat ->
  fb_write off px f = (Ok tt, stored off px f).
Proof. intros Hc Hl. by destruct (fb_write_ok off px f Hc Hl) as [-> _]. Qed.

Lemma stored_coherent off px f : coherent f -> (off + length px <= length (video_buf f))%nat -> coherent (stored off px f).
Proof. intros Hc Hl. by destruct (fb_write_ok off px f Hc Hl) as [_ ?]. Qed.

Lemma stored_stored off a b f : (off + length a + length b <= length (video_buf f))%nat ->
  stored (off + length a) b (stored off a f) = stored off (a ++ b) f.
Proof. intros H. unfold stored, set_bufs. cbn. by rewrite store_app by (done || lia). Qed.

(** The chunks of a span are one write. *)
Lemma fill_span_sized fuel off n px f : length (pixels f) = length (video_buf f) -> (n < fuel)%nat ->
  (off + n <= length (video_buf f))%nat ->
  fill_span fuel off n px f =
  (Ok tt, set_bufs (store off (replicate n px) (video_buf f)) (store off (replicate n px) (pixels f)) f).
Proof.
  revert off n f. induction fuel as [|fuel IH]; intros off n f Hs Hn Hl; [lia|]. cbn [fill_span].
  destruct (n =? 0)%nat eqn:E.
  { apply Nat.eqb_eq in E. subst. unfold retM. change (replicate 0 px) with (load off 0 (video_buf f)) at 1.
    change (replicate 0 px) with (load off 0 (pixels f)). rewrite !store_load by lia. by destruct f. }
  set (k := (n `min` 256)%nat). set (f1 := set_bufs (store off (replicate k px) (video_buf f)) (store off (replicate k px) (pixels f)) f).
  assert (Hw : unwrapM (E' := unit) (fb_write off (replicate k px)) f = (Ok tt, f1)).
  { unfold unwrapM, fb_write, bindM, getM, putM. rewrite length_replicate. by rewrite !(proj2 (Nat.ltb_ge _ _)) by lia. }
  rewrite (bindM_ok _ _ _ _ _ Hw), IH; unfold f1; cbn [video_buf pixels set_bufs];
    rewrite ?store_length by (rewrite length_replicate; lia); [|lia..].
  apply (f_equal (pair (Ok tt))). unfold set_bufs. cbn [fb_width fb_height pitch].
  rewrite !store_app by (rewrite ?length_replicate; lia). rewrite <- replicate_add. by replace (k + (n - k))%nat with n by lia.
Qed.

Lemma fill_span_ok fuel off n px f : coherent f -> (n < fuel)%nat -> (off + n <= length (video_buf f))%nat ->
  fill_span fuel off n px f = (Ok tt, stored off (replicate n px) f).
Proof. intros [Hp Hl] Hn Ho. rewrite fill_span_sized by (done || congruence). unfold stored. by rewrite Hp. Qed.

(** A picture after a rectangle is painted with [g], given in coordinates of the rectangle. *)
Definition paint (x y w h : nat) (g : nat -> nat -> Z) (p : nat -> nat -> Z) : nat -> nat -> Z :=
  fun i j => if within y h j && within x w i then g (i - x)%nat (j - y)%nat else p i j.

(** An operation that changes the picture of any framebuffer of that size. *)
Definition paints (W H : nat) (m : FB unit) (u : (nat -> nat -> Z) -> nat -> nat -> Z) : Prop :=
  forall f, coherent f -> fb_width f = W -> fb_height f = H ->
  exists f', m f = (Ok tt, f') /\ coherent f' /\ same_size f f' /\
    forall i j, (i < W)%nat -> (j < H)%nat -> px_at f' i j = u (px_at f) i j.

(** Rows written one by one, then synchronised. *)
Lemma rows_paint W H n (body : FrameBuffer -> nat -> FB unit) (content : nat -> list Z) x y w st ct :
  (x + w <= W)%nat -> (y + n <= H)%nat -> (forall k, (k < n)%nat -> length (content k) = w) ->
  (forall k f g, (k < n)%nat -> coherent g -> fb_width f = W -> fb_width g = W -> fb_height g = H ->
     body f k g = (Ok tt, stored ((y + k) * W + x) (content k) g)) ->
  paints W H (f <-- getM ;; for_range n 0 (body f) >>> sync_partial (st f) ct)
    (paint x y w n (fun i j => nth i (content j) 0)).
Proof.
  intros Hx Hy Hlen Hbody f Hc HW HH. unfold bindM, getM.
  destruct (rows_draw n 0 (body f) content x y w f) as (f' & -> & Hc' & Hs & Hpx); [done|lia|lia|intros; apply Hlen; lia| |].
  { intros k g Hk Hg [S1 S2]. rewrite HW. apply Hbody; [lia|done|done|congruence|congruence]. }
  exists f'. split_and!; [by rewrite sync_partial_ok|done|done|]. intros i j Hi Hj. rewrite Hpx by lia.
  unfold paint. by rewrite Nat.add_0_r.
Qed.

(** An index in a row of the screen. *)
Lemma row_fits W H x y k n m : (x + n <= W)%nat -> (y + m <= H)%nat -> (k < m)%nat -> ((y + k) * W + x + n <= W * H)%nat.
Proof. intros. assert ((y + k) * W + W <= H * W)%nat by nia. lia. Qed.

Lemma fill_rect_paints W H x y w h c : (x + w <= W)%nat -> (y + h <= H)%nat ->
  paints W H (f <-- getM ;;
              for_range h 0 (fun row => fill_span (S w) ((y + row) * fb_width f + x) w (opaque c)) >>>
              sync_partial (y * fb_width f + x) (w * h))
    (paint x y w h (fun _ _ => opaque c)).
Proof.
  intros Hx Hy f Hc HW HH.
  destruct (rows_paint W H h (fun f row => fill_span (S w) ((y + row) * fb_width f + x) w (opaque c))
              (fun _ => replicate w (opaque c)) x y w (fun f => y * fb_width f + x)%nat (w * h) Hx Hy) with (f := f)
    as (f' & Hrun & Hc' & Hs & Hpx); [intros; apply length_replicate| |done..|].
  { intros k g g' Hk Hg Hw Hw' Hh'. rewrite Hw. apply fill_span_ok; [done|lia|]. destruct Hg as [_ ->].
    rewrite Hw', Hh'. by apply (row_fits W H x y k w h). }
  exists f'. split_and!; [done..|]. intros i j Hi Hj. rewrite Hpx by done. unfold paint. case_match eqn:E; [|done].
  unfold within in E. rewrite nth_lookup, lookup_replicate_2; [done|lia].
Qed.

Lemma background_paints W H c :
  paints W H (f <-- getM ;; let total := (fb_width f * fb_height f)%nat in fill_span (S total) 0 total (opaque c))
    (fun _ _ _ => opaque c).
Proof.
  intros f Hc HW HH. unfold bindM, getM. cbv zeta. pose proof Hc as [_ Hl].
  rewrite fill_span_ok by (done || lia). eexists. split_and!; [done| |done|].
  - apply stored_coherent; [done|]. rewrite length_replicate. lia.
  - intros i j Hi Hj. unfold px_at, stored. cbn [video_buf set_bufs fb_width]. pose proof (px_index W H i j Hi Hj).
    rewrite nth_store by (rewrite length_replicate; lia). rewrite length_replicate. unfold within.
    replace (_ && _) with true by (rewrite HW, HH; lia). rewrite nth_lookup, lookup_replicate_2; [done|]. rewrite HW, HH. lia.
Qed.

Lemma insert_store (i : nat) (x : Z) (l : list Z) : (i < length l)%nat -> <[i := x]> l = store i [x] l.
Proof. intros H. rewrite insert_take_drop by done. unfold store. cbn. by rewrite Nat.add_1_r. Qed.

(** The pixels of a row, poked one by one. *)
Lemma poke_row n a off (v : nat -> Z) f : coherent f -> (off + a + n <= length (video_buf f))%nat ->
  for_range n a (fun col => poke (off + col) (v col)) f = (Ok tt, stored (off + a) (v <$> seq a n) f).
Proof.
  revert a f. induction n as [|n IH]; intros a f Hc Hl; cbn [for_range].
  { unfold retM, stored. change (v <$> seq a 0) with (load (off + a) 0 (video_buf f)). rewrite store_load by lia.
    unfold set_bufs. destruct Hc as [Hp _], f; cbn in *. by subst. }
  assert (Hpk : poke (off + a) (v a) f = (Ok tt, stored (off + a) [v a] f)).
  { unfold poke, bindM, getM, putM. replace (_ <? _)%nat with true by lia. destruct Hc as [-> _]. by rewrite insert_store by lia. }
  assert (Hl' : (off + a + length [v a] <= length (video_buf f))%nat) by (cbn; lia).
  unfold bindM. rewrite Hpk, IH.
  - apply (f_equal (pair (Ok tt))). replace (off + S a)%nat with (off + a + length [v a])%nat by (cbn; lia).
    rewrite stored_stored; [done|]. rewrite length_fmap, length_seq. cbn. lia.
  - by apply stored_coherent.
  - unfold stored. cbn. rewrite store_length by done. lia.
Qed.

Lemma glyph_paints W H x y g fg bg : length g = 16%nat -> (x + 8 <= W)%nat -> (y + 16 <= H)%nat ->
  paints W H (f <-- getM ;;
              for_range (length g) 0 (fun row =>
                for_range CHAR_W 0 (fun col => poke ((y + row) * fb_width f + x + col) (if glyph_bit g row col then fg else bg))))
    (paint x y 8 16 (fun i j => if glyph_bit g j i then fg else bg)).
Proof.
  intros Hg Hx Hy f Hc HW HH. unfold bindM, getM. set (v row col := if glyph_bit g row col then fg else bg). rewrite Hg.
  destruct (rows_draw 16 0 (fun row => for_range CHAR_W 0 (fun col => poke ((y + row) * fb_width f + x + col) (v row col)))
              (fun row => v row <$> seq 0 8) x y 8 f) as (f' & Hrun & Hc' & Hs & Hpx); [done|lia|lia| | |].
  - intros k Hk. by rewrite length_fmap, length_seq.
  - intros k h Hk Hh [S1 S2]. rewrite poke_row; [by rewrite Nat.add_0_r|done|].
    destruct Hh as [_ ->]. rewrite S1, S2, HW, HH, Nat.add_0_r. apply (row_fits W H x y k 8 16); lia.
  - exists f'. split_and!; [exact Hrun|done..|]. intros i j Hi Hj. rewrite Hpx by lia. unfold paint. rewrite Nat.add_0_r.
    case_match eqn:E; [|done]. unfold within in E. rewrite nth_lookup, list_lookup_fmap, lookup_seq_lt by lia. done.
Qed.

(** Scrolling moves the picture up by sixteen rows. *)
Definition scrolled (H : nat) (c : Z) (p : nat -> nat -> Z) : nat -> nat -> Z :=
  fun i j => if (j + 16 <? H)%nat then p i (j + 16)%nat else c.

Lemma scroll_paints W H c : (16 <= H)%nat -> paints W H (scroll_up 16 c >>> sync_full) (scrolled H c).
Proof.
  intros HH16 f Hc HW HH. pose proof Hc as [Hp Hl]. unfold scroll_up, bindM, getM. rewrite Nat.min_l by lia.
  change (16 =? 0)%nat with false. cbv iota. destruct (fb_height f <=? 16)%nat eqn:E.
  - set (px := replicate (length (video_buf f)) c).
    assert (Hpx : length px = length (video_buf f)) by apply length_replicate.
    assert (Hc' : coherent (set_bufs px px f)) by (split; [done|]; cbn; rewrite Hpx; done).
    assert (Hs : sync_full (set_bufs (video_buf f) px f) = (Ok tt, set_bufs px px f)).
    { unfold sync_full, bindM, getM, putM. cbn [video_buf pixels set_bufs]. by rewrite Hpx, Nat.eqb_refl. }
    unfold clear_buf, modifyM. rewrite Hp. fold px. rewrite Hs, sync_full_ok by done.
    eexists. split_and!; [done|done|done|]. intros i j Hi Hj. unfold scrolled. replace (_ <? _)%nat with false by lia.
    unfold px_at. cbn [video_buf set_bufs fb_width]. pose proof (px_index W H i j Hi Hj).
    unfold px. rewrite nth_lookup, lookup_replicate_2; [done|]. rewrite Hl, HW, HH. lia.
  - set (count := ((fb_height f - 16) * fb_width f)%nat).
    assert (Hcount : (16 * fb_width f + count)%nat = length (video_buf f)) by (unfold count; nia).
    rewrite Hp. replace (_ <? _)%nat with false by lia. unfold putM.
    set (moved := store 0 (load (16 * fb_width f) count (video_buf f)) (video_buf f)).
    assert (Hmoved : length moved = length (video_buf f)) by (unfold moved; rewrite store_length; [done|rewrite load_length; lia]).
    set (px := take count moved ++ replicate (length moved - count) c).
    assert (Hpx : length px = length (video_buf f)) by (unfold px; rewrite length_app, length_take, length_replicate; lia).
    assert (Hc' : coherent (set_bufs px px f)) by (split; [done|]; cbn; rewrite Hpx; done).
    assert (Hs : sync_full (set_bufs (video_buf f) px f) = (Ok tt, set_bufs px px f)).
    { unfold sync_full, bindM, getM, putM. cbn. by rewrite Hpx, Nat.eqb_refl. }
    rewrite Hs, sync_full_ok by done. eexists. split_and!; [done|done|done|].
    intros i j Hi Hj. unfold px_at, scrolled. cbn [video_buf set_bufs fb_width]. rewrite !nth_lookup. unfold px.
    destruct (j + 16 <? H)%nat eqn:Ej.
    + assert (j * fb_width f + i < count)%nat by (unfold count; nia).
      rewrite lookup_app_l by (rewrite length_take; lia). rewrite lookup_take_lt by lia. unfold moved.
      rewrite store_lookup by (rewrite load_length; lia). rewrite load_length by lia. replace (_ && _) with true by lia.
      unfold load. rewrite lookup_take_lt by lia. rewrite lookup_drop. do 2 f_equal. nia.
    + assert (count <= j * fb_width f + i)%nat by (unfold count; nia).
      rewrite lookup_app_r by (rewrite length_take; lia). rewrite length_take, Nat.min_l by lia.
      pose proof (px_index W H i j Hi Hj). rewrite lookup_replicate_2; [done|]. nia.
Qed.

(** ** The cursor *)

(** The picture without the cursor. *)
Definition under (s : Screen) (x y : nat) : Z :=
  let t := term s in
  let x0 := (cursor_saved_x t * 8)%nat in
  let y0 := (cursor_saved_y t * 16)%nat in
  if cursor_drawn t && (within y0 16 y && within x0 8 x) then nth ((y - y0) * 8 + (x - x0)) (cursor_backup t) 0
  else px_at (fb s) x y.

(** What a terminal is besides its picture and its cursor's. *)
Record Text := mkText {
  tx_w : nat; tx_h : nat; tx_x : nat; tx_y : nat; tx_fg : Z; tx_bg : Z; tx_rev : bool; tx_utf8 : list Z;
}.
Definition text (t : FramebufferTerminal) : Text :=
  mkText (width t) (height t) (cursor_x t) (cursor_y t) (color t) (bg_color t) (reverse t) (utf8_buf t).

Record inv (s : Screen) : Prop := mkInv {
  inv_fb : coherent (fb s);
  inv_w : fb_width (fb s) = width (term s);
  inv_h : fb_height (fb s) = height (term s);
  inv_x : (8 <= width (term s) /\ cursor_x (term s) * 8 <= width (term s))%nat;
  inv_y : (cursor_y (term s) * 16 + 16 <= height (term s))%nat;
  inv_backup : length (cursor_backup (term s)) = 128%nat;
  inv_drawn : cursor_drawn (term s) = true ->
    (cursor_saved_x (term s) * 8 + 8 <= width (term s) /\ cursor_saved_y (term s) * 16 + 16 <= height (term s))%nat;
}.

Definition on_grid (s : Screen) (x y : nat) : Prop := (x < width (term s))%nat /\ (y < height (term s))%nat.

(** The screen after a picture operation, with the cursor off. *)
Lemma paints_onFb m u s W H : paints W H m u -> inv s -> W = width (term s) -> H = height (term s) ->
  cursor_drawn (term s) = false ->
  exists s', onFb m s = (Ok tt, s') /\ inv s' /\ term s' = term s /\
    forall x y, on_grid s x y -> px_at (fb s') x y = u (px_at (fb s)) x y.
Proof.
  intros Hm Hs -> -> Hd. destruct (Hm (fb s) (inv_fb s Hs) (inv_w s Hs) (inv_h s Hs)) as (f' & Hf & Hc & [S1 S2] & Hpx).
  exists (mkScreen f' (term s)). unfold onFb. rewrite Hf. split_and!; [done| |done|].
  2:{ intros x y [Hx Hy]. cbn [fb]. by apply Hpx. }
  destruct Hs. split; cbn; congruence || done.
Qed.

Lemma write_ignored_ok off px f : coherent f -> (off + length px <= length (video_buf f))%nat ->
  write_ignored off px f = (Ok tt, stored off px f).
Proof. intros Hc Hl. unfold write_ignored, bindM, okM, retM. by rewrite fb_write_stored. Qed.

Lemma onFb_ok {A} (m : FB A) s a f' : m (fb s) = (Ok a, f') -> onFb m s = (Ok a, mkScreen f' (term s)).
Proof. unfold onFb. by intros ->. Qed.

Lemma getTerm_ok {B} (k : FramebufferTerminal -> SM B) s : (t <-- getTerm ;; k t) s = k (term s) s.
Proof. done. Qed.

Lemma updTerm_ok {B} g (k : SM B) s : (updTerm g >>> k) s = k (mkScreen (fb s) (g (term s))).
Proof. done. Qed.

(** A block of rows written over the cell at [x], [y]. *)
Lemma cell_paints W H x y (content : nat -> list Z) : (x + 8 <= W)%nat -> (y + 16 <= H)%nat ->
  (forall k, (k < 16)%nat -> length (content k) = 8%nat) ->
  paints W H (f <-- getM ;;
              for_range CURSOR_H 0 (fun row => write_ignored ((y + row) * fb_width f + x) (content row)) >>>
              sync_partial (y * fb_width f + x) (CURSOR_W * CURSOR_H))
    (paint x y 8 16 (fun i j => nth i (content j) 0)).
Proof.
  intros Hx Hy Hlen. apply (rows_paint W H 16 (fun f row => write_ignored ((y + row) * fb_width f + x) (content row))
    content x y 8 (fun f => y * fb_width f + x)%nat (CURSOR_W * CURSOR_H)); [lia|lia|done|].
  intros k f g Hk Hg Hw Hw' Hh'. rewrite Hw. apply write_ignored_ok; [done|]. rewrite Hlen by done. destruct Hg as [_ ->].
  rewrite Hw', Hh'. apply (row_fits W H x y k 8 16); lia.
Qed.

Lemma cursor_rect_some t x y : (x * 8 + 8 <= width t)%nat -> (y * 16 + 16 <= height t)%nat ->
  cursor_rect t x y = Some (x * 8, y * 16)%nat.
Proof. intros. unfold cursor_rect, CHAR_W, CHAR_H, CURSOR_W, CURSOR_H. by replace (_ || _) with false by lia. Qed.

Lemma under_off s x y : cursor_drawn (term s) = false -> under s x y = px_at (fb s) x y.
Proof. intros H. unfold under. by rewrite H. Qed.

Lemma nth_load (off n i : nat) (l : list Z) : (i < n)%nat -> nth i (load off n l) 0 = nth (off + i) l 0.
Proof. intros H. unfold load. rewrite !nth_lookup, lookup_take_lt, lookup_drop by done. done. Qed.

Lemma erase_cursor_ok s : inv s ->
  exists s', erase_cursor s = (Ok tt, s') /\ inv s' /\ cursor_drawn (term s') = false /\
    text (term s') = text (term s) /\ cursor_visible (term s') = cursor_visible (term s) /\
    forall x y, on_grid s x y -> px_at (fb s') x y = under s x y.
Proof.
  intros Hs. unfold erase_cursor. rewrite getTerm_ok. destruct (cursor_drawn (term s)) eqn:Hd; cbn [negb].
  2:{ exists s. split_and!; [done..|]. intros. by rewrite under_off. }
  destruct (inv_drawn s Hs Hd) as [Hx Hy]. rewrite cursor_rect_some by done.
  set (content row := load (row * CURSOR_W) CURSOR_W (cursor_backup (term s))).
  assert (Hlen : forall k, (k < 16)%nat -> length (content k) = 8%nat).
  { intros k Hk. unfold content, CURSOR_W. apply load_length. rewrite (inv_backup s Hs). lia. }
  destruct (cell_paints _ _ _ _ content Hx Hy Hlen (fb s)) as (f' & Hrun & Hc & [S1 S2] & Hpx); [apply Hs..|].
  rewrite (bindM_ok _ _ s tt (mkScreen f' (term s))) by (apply onFb_ok; exact Hrun).
  eexists. split; [reflexivity|]. split; [destruct Hs; split; cbn; congruence || done|]. split_and!; [done..|].
  intros x y [Hgx Hgy]. cbn [fb]. rewrite Hpx by done. unfold paint, under. rewrite Hd. cbn [andb].
  case_match eqn:E; [|done]. unfold within in E. unfold content, CURSOR_W. rewrite nth_load by lia. done.
Qed.

Definition with_backup (bk : list Z) (s : Screen) : Screen :=
  mkScreen (fb s) (set_drawn (cursor_drawn (term s)) (cursor_saved_x (term s)) (cursor_saved_y (term s)) bk (term s)).

(** The rows saved before the cursor is drawn. *)
Lemma backup_rows n a x y s : coherent (fb s) -> length (cursor_backup (term s)) = 128%nat ->
  (x + 8 <= fb_width (fb s))%nat -> (y + 16 <= fb_height (fb s))%nat -> (a + n <= 16)%nat ->
  exists bk, for_range n a (backup_row x y) s = (Ok tt, with_backup bk s) /\ length bk = 128%nat /\
    forall k c, (k < 16)%nat -> (c < 8)%nat ->
      nth (k * 8 + c) bk 0 =
      if within a n k then px_at (fb s) (x + c) (y + k) else nth (k * 8 + c) (cursor_backup (term s)) 0.
Proof.
  revert a s. induction n as [|n IH]; intros a s Hc Hb Hx Hy Ha; cbn [for_range].
  { exists (cursor_backup (term s)). split_and!; [by destruct s as [? []]|done|]. intros k c Hk Hcc.
    unfold within. by replace (_ && _) with false by lia. }
  set (row := load ((y + a) * fb_width (fb s) + x) 8 (video_buf (fb s))).
  assert (Hfit : ((y + a) * fb_width (fb s) + x + 8 <= length (video_buf (fb s)))%nat).
  { destruct Hc as [_ ->]. apply (row_fits _ _ x y a 8 16); lia. }
  assert (Hrow : length row = 8%nat) by (by apply load_length).
  assert (Hstep : backup_row x y a s = (Ok tt, with_backup (store (a * 8) row (cursor_backup (term s))) s)).
  { assert (Hread : fb_read ((y + a) * fb_width (fb s) + x) 8 (fb s) = (Ok row, fb s)).
    { unfold fb_read, bindM, getM. by rewrite (proj2 (Nat.ltb_ge _ _) Hfit). }
    unfold backup_row, bindM, getM, onFb, okM, CURSOR_W. by rewrite Hread. }
  rewrite (bindM_ok _ _ _ _ _ Hstep).
  destruct (IH (S a) (with_backup (store (a * 8) row (cursor_backup (term s))) s)) as (bk & Hrun & Hlen & Hbk);
    [done|cbn; rewrite store_length by lia; done|done|done|lia|].
  exists bk. split_and!; [exact Hrun|done|]. intros k c Hk Hcc. rewrite Hbk by done. cbn [fb term with_backup cursor_backup set_drawn].
  rewrite nth_store by lia. rewrite Hrow. replace (a * 8)%nat with (a * 8 + 0)%nat by lia. rewrite row_index by lia. unfold within.
  destruct (k =? a)%nat eqn:E.
  - apply Nat.eqb_eq in E. subst k. replace ((S a <=? a)%nat && _) with false by lia.
    replace ((a <=? a)%nat && (a <? a + S n)%nat) with true by lia. replace (_ && _) with true by lia.
    unfold row. rewrite nth_load by lia. unfold px_at. f_equal. lia.
  - cbn [andb]. by replace ((a <=? k)%nat && (k <? a + S n)%nat) with ((S a <=? k)%nat && (k <? S a + n)%nat) by lia.
Qed.

Lemma draw_cursor_ok s : inv s ->
  exists s', draw_cursor s = (Ok tt, s') /\ inv s' /\ text (term s') = text (term s) /\
    forall x y, on_grid s x y -> under s' x y = under s x y.
Proof.
  intros Hs. unfold draw_cursor. rewrite getTerm_ok. destruct (cursor_visible (term s)); cbn [negb]; [|by exists s].
  destruct (erase_cursor_ok s Hs) as (s1 & Hrun & H1 & Hd1 & Ht1 & Hv1 & Hpx1).
  rewrite (bindM_ok _ _ _ _ _ Hrun), getTerm_ok. unfold cursor_rect, CHAR_W, CHAR_H, CURSOR_W at 1, CURSOR_H at 1.
  assert (Hgrid : forall x y, on_grid s x y -> on_grid s1 x y) by (unfold on_grid, text in *; intros; simplify_eq; congruence).
  destruct (_ || _) eqn:Er.
  { exists s1. split_and!; [done..|]. intros x y Hg. rewrite under_off by done. auto. }
  set (x0 := (cursor_x (term s1) * 8)%nat) in *. set (y0 := (cursor_y (term s1) * 16)%nat) in *.
  assert (Hfit : (x0 + 8 <= width (term s1) /\ y0 + 16 <= height (term s1))%nat) by lia.
  destruct (backup_rows 16 0 x0 y0 s1) as (bk & Hbk & Hbl & Hbn);
    [apply H1|apply H1|rewrite (inv_w _ H1); lia|rewrite (inv_h _ H1); lia|lia|].
  rewrite (bindM_ok _ _ _ _ _ Hbk). set (s2 := with_backup bk s1) in *.
  destruct (cell_paints (width (term s1)) (height (term s1)) x0 y0 (fun _ => replicate CURSOR_W (opaque (color (term s1)))))
    with (f := fb s2) as (f' & Hf & Hc & [S1 S2] & Hpx); [lia|lia|intros; apply length_replicate|apply H1..|].
  rewrite (bindM_ok _ _ s2 tt (mkScreen f' (term s2))) by (apply onFb_ok; exact Hf).
  eexists. split; [reflexivity|]. split.
  { destruct H1. split; cbn in *; try congruence; try done. }
  split; [exact Ht1|]. intros x y Hg. rewrite <- Hpx1 by done. apply Hgrid in Hg as [Hgx Hgy]. unfold under.
  cbn [term fb set_drawn cursor_drawn cursor_saved_x cursor_saved_y cursor_backup s2 with_backup andb cursor_x cursor_y].
  fold x0 y0. destruct (within y0 16 y && within x0 8 x) eqn:E.
  - unfold within in E. rewrite Hbn by lia. unfold within. replace (_ && _) with true by lia. f_equal; lia.
  - rewrite Hpx by done. unfold paint. by rewrite E.
Qed.
