(* ===== verification/Tty.v ===== *)
(** * The terminal's output (src/kernel/twilight_kernel/src/sys/console/tty.rs)

    Escape sequences, colours and the output buffer, over any terminal: the class
    [Terminal] is what the code uses of [FramebufferTerminal], with an instance for it. *)

From Stdlib Require Import Ascii ZifyBool.
From S2P Require Import Prelude Bytes Text Utf LineDisc Framebuffer FbTerm.
Open Scope twilight_scope.

(** ** The terminal as the escape sequences see it *)

Class Terminal (T : Type) := {
  t_cursor : T -> nat * nat;
  t_size : T -> nat * nat;
  t_style : T -> Z * Z * bool;
  t_set_cursor : nat -> nat -> T -> T;
  t_set_style : Z -> Z -> bool -> T -> T;
  t_put_byte : Z -> M T unit unit;
  t_refresh_cursor : M T unit unit;
  t_set_cursor_visible : bool -> M T unit unit;
  t_erase_line : M T unit unit;
  t_erase_in_line_from_cursor : M T unit unit;
  t_erase_in_line_to_cursor : M T unit unit;
  t_erase_display_from_cursor : M T unit unit;
  t_erase_display_to_cursor : M T unit unit;
  t_clear : M T unit unit;
}.

#[export] Instance Screen_Terminal : Terminal Screen := {|
  t_cursor s := (cursor_x (term s), cursor_y (term s));
  t_size s := (width (term s), height (term s));
  t_style s := (color (term s), bg_color (term s), reverse (term s));
  t_set_cursor x y s := mkScreen (fb s) (set_cursor x y (term s));
  t_set_style fg bg rev s := mkScreen (fb s) (set_style fg bg rev (term s));
  t_put_byte := put_byte;
  t_refresh_cursor := refresh_cursor;
  t_set_cursor_visible := set_cursor_visible;
  t_erase_line := erase_line;
  t_erase_in_line_from_cursor := erase_in_line_from_cursor;
  t_erase_in_line_to_cursor := erase_in_line_to_cursor;
  t_erase_display_from_cursor := erase_display_from_cursor;
  t_erase_display_to_cursor := erase_display_to_cursor;
  t_clear := clear;
|}.

(** ** Colours *)

Definition DEFAULT_FG : Z := 0xFFFFFF.
Definition DEFAULT_BG : Z := 0x101010.

Definition rgb (r g b : Z) : Z := Z.lor (Z.lor (Z.shiftl r 16) (Z.shiftl g 8)) b.

Definition palette : list Z :=
  [0x000000; 0xAA0000; 0x00AA00; 0xAA5500; 0x0000AA; 0xAA00AA; 0x00AAAA; 0xAAAAAA;
   0x555555; 0xFF5555; 0x55FF55; 0xFFFF55; 0x5555FF; 0xFF55FF; 0x55FFFF; 0xFFFFFF].

Definition ansi16_color (idx : Z) (bold_for_basic : bool) : Z :=
  let i := Z.min idx 15 in
  let i := if bold_for_basic && (i <? 8) then i + 8 else i in
  nth (Z.to_nat i) palette 0.

Definition xterm_256_to_rgb (n : Z) : Z :=
  if n <=? 15 then ansi16_color n false
  else if n <=? 231 then
    let c := n - 16 in
    let level v := nth (Z.to_nat v) [0x00; 0x5f; 0x87; 0xaf; 0xd7; 0xff] 0 in
    rgb (level (c / 36)) (level (c mod 36 / 6)) (level (c mod 6))
  else let v := 8 + (n - 232) * 10 in rgb v v v.

(** ** Numbers *)

(** [parse] of the integer types: an optional sign, then digits. *)
Fixpoint digits (acc : Z) (l : list Z) : option Z :=
  match l with
  | [] => Some acc
  | d :: l => if in_range 48 57 d then digits (acc * 10 + (d - 48)) l else None
  end.
Definition unsigned_digits (l : list Z) : option Z := match l with [] => None | _ => digits 0 l end.

Definition parse_unsigned (top : Z) (s : string) : option Z :=
  let l := as_bytes s in
  let l := match l with 43 :: l => l | _ => l end in
  v ← unsigned_digits l; if v <=? top then Some v else None.

Definition parse_i32 (s : string) : option Z :=
  match as_bytes s with
  | 45 :: l => v ← unsigned_digits l; if v <=? 2 ^ 31 then Some (- v) else None
  | _ => parse_unsigned (2 ^ 31 - 1) s
  end.

(** ** Select graphic rendition *)

Record Style := mkStyle { bold : bool; fg : Z; bg : Z; rev : bool }.
Definition with_bold (b : bool) (s : Style) : Style := mkStyle b (fg s) (bg s) (rev s).
Definition with_fg (c : Z) (s : Style) : Style := mkStyle (bold s) c (bg s) (rev s).
Definition with_bg (c : Z) (s : Style) : Style := mkStyle (bold s) (fg s) c (rev s).
Definition with_rev (r : bool) (s : Style) : Style := mkStyle (bold s) (fg s) (bg s) r.

(** The codes that stand alone. *)
Definition sgr_code (code : Z) (s : Style) : Style :=
  if code =? 0 then mkStyle false DEFAULT_FG DEFAULT_BG false
  else if code =? 1 then with_bold true s
  else if code =? 7 then with_rev true s
  else if code =? 22 then with_bold false s
  else if code =? 27 then with_rev false s
  else if in_range 30 37 code then with_fg (ansi16_color (code - 30) (bold s)) s
  else if in_range 90 97 code then with_fg (ansi16_color (code - 90 + 8) false) s
  else if code =? 39 then with_fg DEFAULT_FG s
  else if in_range 40 47 code then with_bg (ansi16_color (code - 40) false) s
  else if in_range 100 107 code then with_bg (ansi16_color (code - 100 + 8) false) s
  else if code =? 49 then with_bg DEFAULT_BG s
  else s.

Definition indexed_color (n : string) : option Z := v ← parse_unsigned 65535 n; Some (xterm_256_to_rgb (u8 v)).
Definition direct_color (r g b : string) : option Z :=
  r ← parse_unsigned 255 r; g ← parse_unsigned 255 g; b ← parse_unsigned 255 b; Some (rgb r g b).
Definition maybe (set : Z -> Style -> Style) (c : option Z) (s : Style) : Style :=
  match c with Some c => set c s | None => s end.

Fixpoint sgr_codes (it : list string) (s : Style) : Style :=
  match it with
  | [] => s
  | p :: it =>
      let code := if is_empty p then 0 else default (-1) (parse_i32 p) in
      if (code =? 38) || (code =? 48) then
        let set := if code =? 38 then with_fg else with_bg in
        match it with
        | [] => s
        | mode :: it =>
            if String.eqb mode "5" then
              match it with [] => s | n :: it => sgr_codes it (maybe set (indexed_color n) s) end
            else if String.eqb mode "2" then
              match it with r :: g :: b :: it => sgr_codes it (maybe set (direct_color r g b) s) | _ => s end
            else sgr_codes it s
        end
      else sgr_codes it (sgr_code code s)
  end.

Definition sgr (params : string) (s : Style) : Style :=
  sgr_codes (split ";"%char (if is_empty params then "0" else params)) s.

(** ** The state *)

Inductive AnsiState := AGround | AEsc | ACsi.

Record Tty (T : Type) := mkTty {
  ldisc : Ldisc; tterm : T; ansi_state : AnsiState; csi_buf : list Z; sgr_bold : bool;
  output_buffer : list Z; serial : list Z;
}.
Arguments mkTty {T}.
Arguments ldisc {T}.
Arguments tterm {T}.
Arguments ansi_state {T}.
Arguments csi_buf {T}.
Arguments sgr_bold {T}.
Arguments output_buffer {T}.
Arguments serial {T}.

Definition FLUSH_THRESHOLD : nat := 512.
Definition is_printable_ascii (b : Z) : bool := in_range 0x20 0x7E b.

Section output.
Context {T : Type} `{!Terminal T}.
Abbreviation TM := (M (Tty T) unit).

Definition Tty_new (t : T) : Tty T := mkTty Ldisc_new t AGround [] false [] [].

Definition onTerm (m : M T unit unit) : TM unit :=
  fun s => let '(r, t) := m (tterm s) in
           (r, mkTty (ldisc s) t (ansi_state s) (csi_buf s) (sgr_bold s) (output_buffer s) (serial s)).
Definition set_ansi (a : AnsiState) (c : list Z) : TM unit :=
  modifyM (fun s => mkTty (ldisc s) (tterm s) a c (sgr_bold s) (output_buffer s) (serial s)).
Definition set_output (o : list Z) : TM unit :=
  modifyM (fun s => mkTty (ldisc s) (tterm s) (ansi_state s) (csi_buf s) (sgr_bold s) o (serial s)).
Definition set_ldisc (l : Ldisc) : TM unit :=
  modifyM (fun s => mkTty l (tterm s) (ansi_state s) (csi_buf s) (sgr_bold s) (output_buffer s) (serial s)).

(** [term.write(s)]. *)
Fixpoint term_write (s : list Z) : M T unit unit :=
  match s with [] => retM tt | b :: s => t_put_byte b >>> term_write s end.

(** The longest prefix of printable bytes, and the rest. *)
Fixpoint span (l : list Z) : list Z * list Z :=
  match l with
  | b :: l' => if is_printable_ascii b then let '(p, r) := span l' in (b :: p, r) else ([], l)
  | [] => ([], [])
  end.

(** The loop of [flush_output]: runs of printable bytes, and the bytes between them. *)
Fixpoint flush_runs (fuel : nat) (tmp : list Z) : M T unit unit :=
  match fuel with
  | O => panicM
  | S fuel =>
      match tmp with
      | [] => retM tt
      | _ =>
          let '(run, rest) := span tmp in
          (if bool_decide (run = []) then retM tt else term_write run) >>>
          match rest with [] => retM tt | b :: rest => t_put_byte b >>> flush_runs fuel rest end
      end
  end.

Definition flush_output : TM unit :=
  s <-- getM ;;
  match output_buffer s with
  | [] => retM tt
  | tmp => set_output [] >>> onTerm (flush_runs (S (length tmp)) tmp) >>> onTerm t_refresh_cursor
  end.

(** ** Cursor movement and erasing *)

Definition arg (nums : list Z) (i : nat) : nat := Z.to_nat (Z.max 1 (default 1 (nums !! i))).

Definition move_to (f : nat * nat -> nat * nat -> nat * nat) : M T unit unit :=
  modifyM (fun t => let '(x, y) := f (t_size t) (t_cursor t) in t_set_cursor x y t) >>> t_refresh_cursor.

Definition max_rows (size : nat * nat) : nat := ((size.2 / 16) `max` 1)%nat.
Definition max_cols (size : nat * nat) : nat := ((size.1 / 8) `max` 1)%nat.

Definition csi_cuu (nums : list Z) := move_to (fun _ c => (c.1, c.2 - arg nums 0)%nat).
Definition csi_cud (nums : list Z) := move_to (fun z c => (c.1, (c.2 + arg nums 0) `min` (max_rows z - 1))%nat).
Definition csi_cuf (nums : list Z) := move_to (fun z c => ((c.1 + arg nums 0) `min` (max_cols z - 1), c.2)%nat).
Definition csi_cub (nums : list Z) := move_to (fun _ c => (c.1 - arg nums 0, c.2)%nat).
Definition csi_cup (nums : list Z) :=
  move_to (fun z _ => ((arg nums 1 - 1) `min` (max_cols z - 1), (arg nums 0 - 1) `min` (max_rows z - 1))%nat).

Definition csi_el (nums : list Z) : M T unit unit :=
  let n := default 0 (nums !! 0%nat) in
  if n =? 2 then t_erase_line else if n =? 1 then t_erase_in_line_to_cursor else t_erase_in_line_from_cursor.

Definition csi_ed (nums : list Z) : M T unit unit :=
  let n := default 0 (nums !! 0%nat) in
  if n =? 2 then t_clear >>> modifyM (t_set_cursor 0 0)
  else if n =? 1 then t_erase_display_to_cursor else t_erase_display_from_cursor.

(** [csi_dec_private_set] and [csi_dec_private_reset]. *)
Fixpoint csi_dec_private (v : bool) (nums : list Z) : M T unit unit :=
  match nums with
  | [] => retM tt
  | n :: nums => (if n =? 25 then t_set_cursor_visible v else retM tt) >>> csi_dec_private v nums
  end.

Definition apply_sgr (params : string) : TM unit :=
  modifyM (fun s =>
    let '(c, b, r) := t_style (tterm s) in
    let st := sgr params (mkStyle (sgr_bold s) c b r) in
    mkTty (ldisc s) (t_set_style (fg st) (bg st) (rev st) (tterm s)) (ansi_state s) (csi_buf s) (bold st)
      (output_buffer s) (serial s)).

(** ** Escape sequences *)

Definition csi_params (raw : list Z) : bool * string :=
  let is_private := bool_decide (head raw = Some 63) in
  let bytes := if is_private then tail raw else raw in
  (is_private, default "" (from_utf8 bytes)).

Definition csi_nums (params : string) : list Z :=
  if is_empty params then [] else (fun s => default (-1) (parse_i32 s)) <$> split ";"%char params.

Definition handle_csi_final : TM unit :=
  s <-- getM ;;
  let b := csi_buf s in
  set_ansi (ansi_state s) [] >>>
  match last b with
  | None => set_ansi AGround []
  | Some final =>
      let '(is_private, params) := csi_params (removelast b) in
      let nums := csi_nums params in
      flush_output >>>
      (if final =? 109 then apply_sgr params
       else if final =? 74 then onTerm (csi_ed nums)
       else if final =? 75 then onTerm (csi_el nums)
       else if final =? 65 then onTerm (csi_cuu nums)
       else if final =? 66 then onTerm (csi_cud nums)
       else if final =? 67 then onTerm (csi_cuf nums)
       else if final =? 68 then onTerm (csi_cub nums)
       else if (final =? 72) || (final =? 102) then onTerm (csi_cup nums)
       else if (final =? 104) && is_private then onTerm (csi_dec_private true nums)
       else if (final =? 108) && is_private then onTerm (csi_dec_private false nums)
       else retM tt) >>>
      s <-- getM ;; set_ansi AGround (csi_buf s)
  end.

(** Both other kinds of byte are flushed and put at once. *)
Definition ansi_feed (b : Z) : TM unit :=
  s <-- getM ;;
  match ansi_state s with
  | AGround =>
      if b =? 0x1B then set_ansi AEsc []
      else if is_printable_ascii b then set_output (output_buffer s ++ [b])
      else flush_output >>> onTerm (t_put_byte b)
  | AEsc =>
      if b =? 91 then set_ansi ACsi []
      else set_ansi AGround (csi_buf s) >>> set_output (output_buffer s ++ [0x1B; b])
  | ACsi =>
      if in_range 64 126 b then
        set_ansi ACsi (csi_buf s ++ [b]) >>> handle_csi_final >>> s <-- getM ;; set_ansi AGround (csi_buf s)
      else if (length (csi_buf s) <? 64)%nat then set_ansi ACsi (csi_buf s ++ [b])
      else retM tt
  end.

Fixpoint feed_all (data : list Z) : TM unit :=
  match data with [] => retM tt | b :: data => ansi_feed b >>> feed_all data end.

Definition write_bytes_ansi (data : list Z) : TM unit :=
  feed_all data >>>
  s <-- getM ;; if (FLUSH_THRESHOLD <=? length (output_buffer s))%nat then flush_output else retM tt.

(** ** Calls *)

Fixpoint expand_newlines (prev_cr : bool) (data : list Z) : list Z :=
  match data with
  | [] => []
  | b :: data =>
      (if (b =? 10) && negb prev_cr then [13; 10] else [b]) ++ expand_newlines (b =? 13) data
  end.

Definition mirror_to_serial (data : list Z) : TM unit :=
  modifyM (fun s => mkTty (ldisc s) (tterm s) (ansi_state s) (csi_buf s) (sgr_bold s) (output_buffer s) (serial s ++ data)).

(** [VfsNodeOps::write]. *)
Definition tty_write (data : list Z) : TM unit :=
  s <-- getM ;;
  let out := if o_post (ldisc s) && onlcr (ldisc s) then expand_newlines false data else data in
  write_bytes_ansi out >>> mirror_to_serial out >>> flush_output.

(** [_print]: what the kernel prints, echo included. *)
Definition print (text : list Z) : TM unit := write_bytes_ansi text >>> flush_output.

(** [VfsNodeOps::read], which prints as it reads. *)
Definition console_read (b : list Z) (now : Z) (ws : wakeups) : TM (option (list Z)) :=
  s <-- getM ;;
  match tty_read (ldisc s) b now ws with
  | None => retM None
  | Some r => print (rd_echo r) >>> set_ldisc (set_input (rd_input r) (ldisc s)) >>> retM (Some (rd_bytes r))
  end.
End output.
