(* ===== verification/Canvas.v ===== *)
(** * The terminal as a picture

    A terminal without buffers, pixel indices, copies or cursor: a [Text], which holds
    the position and the style, and a picture in two dimensions.  The framebuffer
    terminal is shown to do what it does, operation by operation. *)

From Stdlib Require Import ZifyBool.
From S2P Require Import Prelude Bytes Text Utf LineDisc Font Framebuffer FbTerm Tty.
Open Scope twilight_scope.

Record Canvas := mkCanvas { cv : Text; cv_px : nat -> nat -> Z }.

(** ** Operations *)

Definition at_cursor (x y : nat) (t : Text) : Text :=
  mkText (tx_w t) (tx_h t) x y (tx_fg t) (tx_bg t) (tx_rev t) (tx_utf8 t).
Definition in_style (fg bg : Z) (rev : bool) (t : Text) : Text :=
  mkText (tx_w t) (tx_h t) (tx_x t) (tx_y t) fg bg rev (tx_utf8 t).
Definition keeping (b : list Z) (t : Text) : Text :=
  mkText (tx_w t) (tx_h t) (tx_x t) (tx_y t) (tx_fg t) (tx_bg t) (tx_rev t) b.

Definition cv_cursor (x y : nat) (c : Canvas) : Canvas := mkCanvas (at_cursor x y (cv c)) (cv_px c).
Definition cv_draw (u : (nat -> nat -> Z) -> nat -> nat -> Z) (c : Canvas) : Canvas := mkCanvas (cv c) (u (cv_px c)).
Definition cv_fill (x y w h : nat) (c : Canvas) : Canvas :=
  cv_draw (paint x y w h (fun _ _ => opaque (tx_bg (cv c)))) c.

(** The next row; at the last one, the picture moves up. *)
Definition cv_newline (c : Canvas) : Canvas :=
  let t := cv c in
  if ((tx_y t + 2) * 16 <=? tx_h t)%nat then cv_cursor 0 (S (tx_y t)) c
  else cv_cursor 0 (tx_y t) (cv_draw (scrolled (tx_h t) (tx_bg t)) c).

(** A character in the cell of the cursor; one without a glyph leaves the cell. *)
Definition cv_glyph (ch : Z) (c : Canvas) : Canvas :=
  let t := cv c in
  let '(fg, bg) := if tx_rev t then (tx_bg t, tx_fg t) else (tx_fg t, tx_bg t) in
  match get_glyph ch with
  | None => c
  | Some g => cv_draw (paint (tx_x t * 8) (tx_y t * 16) 8 16 (fun i j => if glyph_bit g j i then fg else bg)) c
  end.

Definition cv_char (ch : Z) (c : Canvas) : Canvas :=
  let t := cv c in
  if ch =? 7 then c
  else if ch =? 10 then cv_newline c
  else if (ch =? 8) || (ch =? 127) then
    if (0 <? tx_x t)%nat then cv_glyph 32 (cv_cursor (tx_x t - 1) (tx_y t) c) else c
  else if ch =? 13 then cv_cursor 0 (tx_y t) c
  else
    let c := if (tx_w t / 8 <=? tx_x t)%nat then cv_newline c else c in
    let c := cv_glyph (if is_control ch then 63 else ch) c in
    cv_cursor (S (tx_x (cv c))) (tx_y (cv c)) c.

Definition cv_byte (byte : Z) (c : Canvas) : Canvas :=
  let '(b, ch) := utf8_push (tx_utf8 (cv c)) byte in
  let c := match ch with Some ch => cv_char ch c | None => c end in
  mkCanvas (keeping b (cv c)) (cv_px c).

Definition cv_row (c : Canvas) : nat := (tx_y (cv c) * 16)%nat.
Definition cv_col (c : Canvas) : nat := (tx_x (cv c) * 8)%nat.

#[export] Instance Canvas_Terminal : Terminal Canvas := {|
  t_cursor c := (tx_x (cv c), tx_y (cv c));
  t_size c := (tx_w (cv c), tx_h (cv c));
  t_style c := (tx_fg (cv c), tx_bg (cv c), tx_rev (cv c));
  t_set_cursor := cv_cursor;
  t_set_style fg bg rev c := mkCanvas (in_style fg bg rev (cv c)) (cv_px c);
  t_put_byte b := modifyM (cv_byte b);
  t_refresh_cursor := retM tt;
  t_set_cursor_visible _ := retM tt;
  t_erase_line := modifyM (fun c => cv_cursor 0 (tx_y (cv c)) (cv_fill 0 (cv_row c) (tx_w (cv c)) 16 c));
  t_erase_in_line_from_cursor := modifyM (fun c => cv_fill (cv_col c) (cv_row c) (tx_w (cv c) - cv_col c) 16 c);
  t_erase_in_line_to_cursor := modifyM (fun c => cv_fill 0 (cv_row c) (cv_col c) 16 c);
  t_erase_display_from_cursor := modifyM (fun c =>
    cv_fill 0 (cv_row c + 16) (tx_w (cv c)) (tx_h (cv c) - (cv_row c + 16))
      (cv_fill (cv_col c) (cv_row c) (tx_w (cv c) - cv_col c) 16 c));
  t_erase_display_to_cursor := modifyM (fun c =>
    cv_fill 0 (cv_row c) (cv_col c) 16 (cv_fill 0 0 (tx_w (cv c)) (cv_row c) c));
  t_clear := modifyM (fun c => cv_cursor 0 0 (cv_draw (fun _ _ _ => opaque (tx_bg (cv c))) c));
|}.

(** ** The screen shows the canvas *)

Definition shows (s : Screen) (c : Canvas) : Prop :=
  inv s /\ text (term s) = cv c /\ forall x y, on_grid s x y -> under s x y = cv_px c x y.
Definition shows_bare (s : Screen) (c : Canvas) : Prop := shows s c /\ cursor_drawn (term s) = false.

(** An operation of the terminal that does what a function of the canvas does. *)
Definition sim (P Q : Screen -> Canvas -> Prop) (m : SM unit) (f : Canvas -> Canvas) : Prop :=
  forall s c, P s c -> exists s', m s = (Ok tt, s') /\ Q s' (f c).

Lemma sim_bind P Q R m m' f f' : sim P Q m f -> sim Q R m' f' -> sim P R (m >>> m') (fun c => f' (f c)).
Proof.
  intros H1 H2 s c Hs. destruct (H1 s c Hs) as (s1 & Hm & H). rewrite (bindM_ok _ _ _ _ _ Hm). by apply H2.
Qed.

Lemma sim_ext P Q m f f' : sim P Q m f -> (forall c, f c = f' c) -> sim P Q m f'.
Proof. intros H He s c Hs. destruct (H s c Hs) as (s' & ? & ?). exists s'. by rewrite <- He. Qed.

Lemma sim_erase_cursor : sim shows shows_bare erase_cursor (fun c => c).
Proof.
  intros s c (Hs & Ht & Hp). destruct (erase_cursor_ok s Hs) as (s' & Hr & Hs' & Hd & Ht' & _ & Hpx).
  exists s'. split; [done|]. split; [|done]. split_and!; [done|congruence|]. intros x y Hg. rewrite under_off by done.
  assert (Hg' : on_grid s x y) by (unfold on_grid, text in *; simplify_eq; congruence). rewrite Hpx by done. auto.
Qed.

Lemma sim_draw_cursor : sim shows shows draw_cursor (fun c => c).
Proof.
  intros s c (Hs & Ht & Hp). destruct (draw_cursor_ok s Hs) as (s' & Hr & Hs' & Ht' & Hpx).
  exists s'. split; [done|]. split_and!; [done|congruence|]. intros x y Hg.
  assert (Hg' : on_grid s x y) by (unfold on_grid, text in *; simplify_eq; congruence). rewrite Hpx by done. auto.
Qed.

(** A drawing that looks at the picture on the screen only. *)
Definition local (W H : nat) (u : (nat -> nat -> Z) -> nat -> nat -> Z) : Prop :=
  forall p q, (forall i j, (i < W)%nat -> (j < H)%nat -> p i j = q i j) ->
  forall i j, (i < W)%nat -> (j < H)%nat -> u p i j = u q i j.

Lemma paint_local W H x y w h g : local W H (paint x y w h g).
Proof. intros p q Hpq i j Hi Hj. unfold paint. case_match; auto. Qed.

Lemma scrolled_local W H c : local W H (scrolled H c).
Proof. intros p q Hpq i j Hi Hj. unfold scrolled. case_match; [|done]. apply Hpq; lia. Qed.

Lemma shows_size s c : shows s c -> tx_w (cv c) = width (term s) /\ tx_h (cv c) = height (term s) /\
  tx_x (cv c) = cursor_x (term s) /\ tx_y (cv c) = cursor_y (term s) /\ tx_bg (cv c) = bg_color (term s).
Proof. intros (_ & <- & _). done. Qed.

(** Drawing without a cursor. *)
Lemma shows_draw m u s c : shows_bare s c -> paints (width (term s)) (height (term s)) m u ->
  local (width (term s)) (height (term s)) u ->
  exists s', onFb m s = (Ok tt, s') /\ shows_bare s' (cv_draw u c) /\ term s' = term s.
Proof.
  intros [(Hs & Ht & Hp) Hd] Hm Hl. destruct (paints_onFb m u s _ _ Hm Hs eq_refl eq_refl Hd) as (s' & Hr & Hs' & Ht' & Hpx).
  exists s'. split; [done|]. split; [|done]. split; [|congruence]. split_and!; [done|cbn; congruence|].
  intros x y Hg. rewrite under_off by congruence. assert (Hg' : on_grid s x y) by (unfold on_grid in *; by rewrite Ht' in Hg).
  rewrite Hpx by done. destruct Hg' as [Hx Hy]. cbn [cv_px cv_draw]. apply Hl; [|done..].
  intros i j Hi Hj. rewrite <- under_off by done. by apply Hp.
Qed.

(** Moving the cursor without drawing it. *)
Lemma shows_move x y s c : shows s c -> (x * 8 <= width (term s))%nat -> (y * 16 + 16 <= height (term s))%nat ->
  shows (mkScreen (fb s) (set_cursor x y (term s))) (cv_cursor x y c).
Proof.
  intros (Hs & Ht & Hp) Hx Hy. split_and!.
  - destruct Hs. split; cbn; done || lia.
  - cbn. by rewrite <- Ht.
  - intros i j Hg. apply (Hp i j Hg).
Qed.

Lemma shows_cursor x y s c : shows_bare s c -> (x * 8 <= width (term s))%nat -> (y * 16 + 16 <= height (term s))%nat ->
  shows_bare (mkScreen (fb s) (set_cursor x y (term s))) (cv_cursor x y c).
Proof. intros [Hs Hd] Hx Hy. split; [by apply shows_move|done]. Qed.

Lemma shows_fill x y w h s c : shows_bare s c -> (x + w <= width (term s))%nat -> (y + h <= height (term s))%nat ->
  exists s', fill_rect x y w h (bg_color (term s)) s = (Ok tt, s') /\ shows_bare s' (cv_fill x y w h c) /\ term s' = term s.
Proof.
  intros Hs Hx Hy. unfold fill_rect, cv_fill. destruct (shows_size s c (proj1 Hs)) as (_ & _ & _ & _ & ->).
  apply shows_draw; [done|by apply fill_rect_paints|apply paint_local].
Qed.

Lemma shows_background s c : shows_bare s c ->
  exists s', apply_console_bg (bg_color (term s)) s = (Ok tt, s') /\
    shows_bare s' (cv_draw (fun _ _ _ => opaque (tx_bg (cv c))) c) /\ term s' = term s.
Proof.
  intros Hs. unfold apply_console_bg. destruct (shows_size s c (proj1 Hs)) as (_ & _ & _ & _ & ->).
  apply shows_draw; [done|apply background_paints|]. by intros p q _.
Qed.

(** ** Erasing *)

(** [erasing] a body that does what [f] does. *)
Lemma sim_erasing body f :
  (forall s c, shows_bare s c -> exists s', body (term s) s = (Ok tt, s') /\ shows_bare s' (f c)) ->
  sim shows shows (erasing body) f.
Proof.
  intros H s c Hs. unfold erasing. destruct (sim_erase_cursor s c Hs) as (s1 & Hr & H1).
  rewrite (bindM_ok _ _ _ _ _ Hr), getTerm_ok. destruct (H s1 c H1) as (s2 & Hb & H2).
  rewrite (bindM_ok _ _ _ _ _ Hb). apply (sim_draw_cursor s2 (f c)). apply H2.
Qed.

(** The bounds of the cursor, in pixels. *)
Lemma shows_bounds s c : shows s c ->
  cv_col c = (cursor_x (term s) * 8)%nat /\ cv_row c = (cursor_y (term s) * 16)%nat /\
  tx_w (cv c) = width (term s) /\ tx_h (cv c) = height (term s) /\
  (cursor_x (term s) * 8 <= width (term s))%nat /\ (cursor_y (term s) * 16 + 16 <= height (term s))%nat.
Proof.
  intros Hs. destruct (shows_size s c Hs) as (Hw & Hh & Hx & Hy & _). unfold cv_col, cv_row. rewrite Hx, Hy.
  destruct Hs as [Hi _]. pose proof (inv_x s Hi). pose proof (inv_y s Hi). split_and!; auto; lia.
Qed.

Lemma sim_erase_line : sim shows shows erase_line
  (fun c => cv_cursor 0 (tx_y (cv c)) (cv_fill 0 (cv_row c) (tx_w (cv c)) 16 c)).
Proof.
  apply sim_erasing. intros s c Hs. destruct (shows_bounds s c (proj1 Hs)) as (Hcol & Hrow & Hw & Hh & Hx & Hy).
  destruct (shows_size s c (proj1 Hs)) as (_ & _ & _ & Hcy & _).
  destruct (shows_fill 0 (cursor_y (term s) * 16) (width (term s)) 16 s c Hs) as (s' & Hr & Hs' & Ht); [lia|lia|].
  rewrite (bindM_ok _ _ _ _ _ Hr). eexists. split; [reflexivity|]. rewrite Hcy, Hrow, Hw.
  apply shows_cursor; rewrite ?Ht; [done|lia|lia].
Qed.

Lemma sim_erase_from : sim shows shows erase_in_line_from_cursor
  (fun c => cv_fill (cv_col c) (cv_row c) (tx_w (cv c) - cv_col c) 16 c).
Proof.
  apply sim_erasing. intros s c Hs. destruct (shows_bounds s c (proj1 Hs)) as (-> & -> & -> & Hh & Hx & Hy).
  destruct (shows_fill (cursor_x (term s) * 8) (cursor_y (term s) * 16) (width (term s) - cursor_x (term s) * 8) 16 s c Hs)
    as (s' & Hr & Hs' & Ht); [lia|lia|]. by exists s'.
Qed.

Lemma sim_erase_to : sim shows shows erase_in_line_to_cursor (fun c => cv_fill 0 (cv_row c) (cv_col c) 16 c).
Proof.
  apply sim_erasing. intros s c Hs. destruct (shows_bounds s c (proj1 Hs)) as (-> & -> & _ & Hh & Hx & Hy).
  destruct (shows_fill 0 (cursor_y (term s) * 16) (cursor_x (term s) * 8) 16 s c Hs) as (s' & Hr & Hs' & Ht); [lia|lia|]. by exists s'.
Qed.

Lemma cv_fill_none x y w h c : (w = 0 \/ h = 0)%nat ->
  cv (cv_fill x y w h c) = cv c /\ forall i j, cv_px (cv_fill x y w h c) i j = cv_px c i j.
Proof.
  intros H. split; [done|]. intros i j. cbn. unfold paint, within. by replace (_ && _ && (_ && _)) with false by lia.
Qed.

Lemma shows_same s c c' : shows_bare s c -> cv c' = cv c -> (forall i j, cv_px c' i j = cv_px c i j) -> shows_bare s c'.
Proof.
  intros [(Hs & Ht & Hp) Hd] H1 H2. split; [|done]. split_and!; [done|congruence|]. intros x y Hg. rewrite H2. auto.
Qed.

Lemma sim_erase_display_from : sim shows shows erase_display_from_cursor
  (fun c => cv_fill 0 (cv_row c + 16) (tx_w (cv c)) (tx_h (cv c) - (cv_row c + 16))
              (cv_fill (cv_col c) (cv_row c) (tx_w (cv c) - cv_col c) 16 c)).
Proof.
  apply sim_erasing. intros s c Hs. destruct (shows_bounds s c (proj1 Hs)) as (-> & -> & -> & -> & Hx & Hy).
  destruct (shows_fill (cursor_x (term s) * 8) (cursor_y (term s) * 16) (width (term s) - cursor_x (term s) * 8) 16 s c Hs)
    as (s' & Hr & Hs' & Ht); [lia|lia|]. rewrite (bindM_ok _ _ _ _ _ Hr). destruct (_ <? _)%nat eqn:E.
  - rewrite <- Ht in *. edestruct shows_fill as (s2 & Hr2 & Hs2 & Ht2); [exact Hs'| | |].
    3:{ exists s2. split; [exact Hr2|exact Hs2]. } all: lia.
  - exists s'. split; [done|]. eapply shows_same; [exact Hs'|apply cv_fill_none..]; lia.
Qed.

Lemma sim_erase_display_to : sim shows shows erase_display_to_cursor
  (fun c => cv_fill 0 (cv_row c) (cv_col c) 16 (cv_fill 0 0 (tx_w (cv c)) (cv_row c) c)).
Proof.
  apply sim_erasing. intros s c Hs. destruct (shows_bounds s c (proj1 Hs)) as (-> & -> & -> & _ & Hx & Hy).
  assert (H : exists s', (if (0 <? cursor_y (term s) * 16)%nat
                          then fill_rect 0 0 (width (term s)) (cursor_y (term s) * 16) (bg_color (term s)) else retM tt) s = (Ok tt, s') /\
     shows_bare s' (cv_fill 0 0 (width (term s)) (cursor_y (term s) * 16) c) /\ term s' = term s).
  { destruct (0 <? _)%nat eqn:E; [apply shows_fill; [done|lia|lia]|].
    exists s. split_and!; [done| |done]. eapply shows_same; [exact Hs|apply cv_fill_none..]; lia. }
  destruct H as (s' & Hr & Hs' & Ht). cbv zeta. rewrite (bindM_ok _ _ _ _ _ Hr). rewrite <- Ht in *.
  edestruct shows_fill as (s2 & Hr2 & Hs2 & Ht2); [exact Hs'| | |].
  3:{ exists s2. split; [exact Hr2|exact Hs2]. } all: lia.
Qed.

Lemma sim_clear : sim shows shows clear (fun c => cv_cursor 0 0 (cv_draw (fun _ _ _ => opaque (tx_bg (cv c))) c)).
Proof.
  apply sim_erasing. intros s c Hs. destruct (shows_bounds s c (proj1 Hs)) as (_ & _ & _ & _ & Hx & Hy).
  destruct (shows_background s c Hs) as (s' & Hr & Hs' & Ht). rewrite (bindM_ok _ _ _ _ _ Hr). eexists. split; [reflexivity|].
  apply shows_cursor; rewrite ?Ht; [done|lia|lia].
Qed.

(** ** Characters *)

Lemma sim_new_line : sim shows_bare shows_bare new_line cv_newline.
Proof.
  intros s c Hs. destruct (shows_size s c (proj1 Hs)) as (_ & Hh & _ & Hy & Hbg).
  pose proof (inv_y s (proj1 (proj1 Hs))). unfold new_line, cv_newline. rewrite updTerm_ok, getTerm_ok, Hy, Hh, Hbg.
  cbn [term height cursor_y set_cursor]. set (s1 := mkScreen (fb s) (set_cursor 0 (S (cursor_y (term s))) (term s))).
  destruct (height (term s) <? _)%nat eqn:E.
  - replace (_ <=? _)%nat with false by lia.
    (* the cursor is below the screen until the picture has moved *)
    destruct (shows_draw (scroll_up 16 (bg_color (term s)) >>> sync_full) (scrolled (height (term s)) (bg_color (term s))) s c Hs)
      as (s2 & Hr & Hs2 & Ht2); [apply scroll_paints; lia|apply scrolled_local|].
    assert (Hr' : scroll s1 = (Ok tt, mkScreen (fb s2) (term s1))).
    { unfold scroll. rewrite getTerm_ok. unfold onFb in *. cbn [fb s1 term bg_color set_cursor] in *.
      destruct (bindM _ _ (fb s)) as [r f]. simplify_eq. done. }
    rewrite (bindM_ok _ _ _ _ _ Hr'). eexists. split; [reflexivity|].
    replace (mkScreen _ _) with (mkScreen (fb s2) (set_cursor 0 (cursor_y (term s)) (term s2))).
    + apply shows_cursor; [done|lia|rewrite Ht2; lia].
    + rewrite Ht2. cbn. by rewrite Nat.sub_0_r.
  - replace (_ <=? _)%nat with true by lia. exists s1. split; [done|]. apply shows_cursor; [done|lia|lia].
Qed.

(** A glyph in a cell of the grid. *)
Lemma shows_glyph ch s c : shows_bare s c -> (cursor_x (term s) * 8 + 8 <= width (term s))%nat ->
  exists s', draw_char (cursor_x (term s) * CHAR_W) (cursor_y (term s) * CHAR_H) ch (color (term s)) s = (Ok tt, s') /\
    shows_bare s' (cv_glyph ch c) /\ term s' = term s.
Proof.
  intros Hs Hx. pose proof (inv_y s (proj1 (proj1 Hs))). unfold draw_char, cv_glyph. rewrite getTerm_ok.
  destruct Hs as [Hs Hd]. pose proof Hs as (_ & Ht & _). rewrite <- Ht. cbn [text tx_rev tx_bg tx_fg tx_x tx_y].
  replace (if reverse (term s) then (bg_color (term s), color (term s)) else (color (term s), bg_color (term s)))
    with (if reverse (term s) then bg_color (term s) else color (term s), if reverse (term s) then color (term s) else bg_color (term s))
    by (by destruct (reverse (term s))).
  destruct (get_glyph ch) as [g|] eqn:Hg; [|by exists s].
  apply shows_draw; [done| |apply paint_local]. apply glyph_paints; [by eapply get_glyph_length|unfold CHAR_W; lia|unfold CHAR_H; lia].
Qed.

Lemma cols_fit (w x : nat) : (x < w / 8)%nat -> (x * 8 + 8 <= w)%nat.
Proof. intros H. pose proof (Nat.Div0.mul_div_le w 8). nia. Qed.

Lemma sim_put_char ch : sim shows shows (put_char_utf32 ch) (cv_char ch).
Proof.
  intros s c Hs. unfold put_char_utf32, cv_char. destruct (ch =? 7); [by exists s|].
  destruct (sim_erase_cursor s c Hs) as (s1 & Hr & H1). rewrite (bindM_ok _ _ _ _ _ Hr).
  destruct (shows_size s1 c (proj1 H1)) as (Hw & _ & Hx & Hy & _). destruct (shows_bounds s1 c (proj1 H1)) as (_ & _ & _ & _ & Bx & By).
  destruct (ch =? 10). { destruct (sim_new_line s1 c H1) as (s2 & ? & [? _]). eauto. }
  rewrite Hw, Hx, Hy. destruct (_ || _).
  { unfold backspace. rewrite getTerm_ok. destruct (0 <? cursor_x (term s1))%nat eqn:E; [|by exists s1; destruct H1].
    rewrite updTerm_ok.
    pose proof (shows_cursor (cursor_x (term s1) - 1) (cursor_y (term s1)) s1 c H1 ltac:(lia) ltac:(lia)) as H2.
    destruct (shows_glyph 32 _ _ H2) as (s3 & Hr3 & [H3 _] & _); [cbn; lia|]. exists s3. split; [exact Hr3|exact H3]. }
  destruct (ch =? 13).
  { eexists. split; [reflexivity|]. apply (shows_cursor 0 (cursor_y (term s1)) s1 c H1); lia. }
  rewrite getTerm_ok. unfold CHAR_W at 1.
  assert (Hwrap : exists s2, (if (width (term s1) / 8 <=? cursor_x (term s1))%nat then new_line else retM tt) s1 = (Ok tt, s2) /\
    shows_bare s2 (if (width (term s1) / 8 <=? cursor_x (term s1))%nat then cv_newline c else c) /\
    (cursor_x (term s2) < width (term s2) / 8)%nat).
  { destruct (_ <=? _)%nat eqn:E; [|exists s1; split_and!; [done|done|lia]].
    destruct (sim_new_line s1 c H1) as (s2 & Hr2 & H2). exists s2. split_and!; [done|done|].
    destruct (shows_size s2 _ (proj1 H2)) as (Hw2 & _ & Hx2 & _). rewrite <- Hw2, <- Hx2.
    pose proof (inv_x s1 (proj1 (proj1 H1))) as [H8 _].
    replace (tx_w (cv (cv_newline c))) with (width (term s1)) by (unfold cv_newline; case_match; done).
    replace (tx_x (cv (cv_newline c))) with 0%nat by (unfold cv_newline; case_match; done).
    apply Nat.div_str_pos. lia. }
  destruct Hwrap as (s2 & Hr2 & H2 & Hlt). rewrite (bindM_ok _ _ _ _ _ Hr2), getTerm_ok. 
  set (c2 := if (width (term s1) / 8 <=? cursor_x (term s1))%nat then cv_newline c else c) in *.
  apply cols_fit in Hlt.
  destruct (shows_glyph (if is_control ch then 63 else ch) s2 c2 H2 Hlt) as (s3 & Hr3 & H3 & Ht3).
  rewrite (bindM_ok _ _ _ _ _ Hr3), updTerm_ok, getTerm_ok. cbn [term width cursor_x set_cursor]. rewrite Ht3.
  replace (_ <? _)%nat with false by (unfold CHAR_W; lia). eexists. split; [reflexivity|].
  destruct (shows_size s3 _ (proj1 H3)) as (_ & _ & Hx3 & Hy3 & _). rewrite Hx3, Hy3, <- ?Ht3.
  apply (shows_cursor (S (cursor_x (term s3))) (cursor_y (term s3)) s3 _ H3); [rewrite Ht3; lia|]. apply (inv_y s3), H3.
Qed.

Lemma sim_put_byte b : sim shows shows (put_byte b) (cv_byte b).
Proof.
  intros s c Hs. unfold put_byte, cv_byte. rewrite getTerm_ok. pose proof Hs as (_ & Ht & _).
  replace (tx_utf8 (cv c)) with (utf8_buf (term s)) by (by rewrite <- Ht). destruct (utf8_push _ b) as [u [ch|]].
  - destruct (sim_put_char ch s c Hs) as (s1 & Hr & (Hi & Ht1 & Hp)). rewrite (bindM_ok _ _ _ _ _ Hr).
    eexists. split; [reflexivity|]. split_and!; [destruct Hi; by split|by cbn; rewrite <- Ht1|exact Hp].
  - eexists. split; [reflexivity|]. destruct Hs as (Hi & Ht1 & Hp). split_and!; [destruct Hi; by split|by cbn; rewrite <- Ht1|exact Hp].
Qed.

Lemma sim_set_visible v : sim shows shows (set_cursor_visible v) (fun c => c).
Proof.
  intros s c Hs. unfold set_cursor_visible. destruct v.
  - rewrite updTerm_ok. apply (sim_draw_cursor (mkScreen (fb s) (set_visible true (term s))) c).
    destruct Hs as (Hi & Ht & Hp). split_and!; [destruct Hi; by split|exact Ht|exact Hp].
  - destruct (sim_erase_cursor s c Hs) as (s1 & Hr & [(Hi & Ht & Hp) Hd]). rewrite (bindM_ok _ _ _ _ _ Hr).
    eexists. split; [reflexivity|]. split_and!; [destruct Hi; by split|exact Ht|exact Hp].
Qed.

(** ** Starting *)

(** The background of a whole framebuffer makes its two copies agree. *)
Lemma background_starts f c : length (video_buf f) = (fb_width f * fb_height f)%nat ->
  length (pixels f) = (fb_width f * fb_height f)%nat ->
  exists f', (f <-- getM ;; let total := (fb_width f * fb_height f)%nat in fill_span (S total) 0 total (opaque c)) f = (Ok tt, f') /\
    coherent f' /\ same_size f f' /\
    forall i j, (i < fb_width f)%nat -> (j < fb_height f)%nat -> px_at f' i j = opaque c.
Proof.
  intros Hv Hp. unfold bindM, getM. cbv zeta. rewrite fill_span_sized by lia.
  assert (Hall : forall l, length l = (fb_width f * fb_height f)%nat ->
    store 0 (replicate (fb_width f * fb_height f) (opaque c)) l = replicate (fb_width f * fb_height f) (opaque c)).
  { intros l Hl. unfold store. rewrite length_replicate, drop_ge by lia. cbn. apply app_nil_r. }
  rewrite !Hall by done. eexists. split_and!; [done|split; [done|cbn; apply length_replicate]|done|].
  intros i j Hi Hj. unfold px_at. cbn [video_buf set_bufs fb_width]. pose proof (px_index _ _ i j Hi Hj).
  rewrite nth_lookup, lookup_replicate_2; [done|lia].
Qed.

Definition blank_canvas (w h : nat) : Canvas :=
  mkCanvas (mkText w h 0 0 0xFFFFFF 0x101010 false []) (fun _ _ => opaque 0x101010).

Lemma terminal_new_shows video w h p : (8 <= w)%nat -> (16 <= h)%nat -> length video = (w * h)%nat ->
  exists s, Terminal_new (FrameBuffer_new video w h p) = (Ok tt, s) /\ shows s (blank_canvas w h).
Proof.
  intros Hw Hh Hv. unfold Terminal_new. set (f := FrameBuffer_new video w h p). set (t0 := mkTerm _ _ _ _ _ _ _ _ _ _ _ _ _).
  destruct (background_starts f 0x101010) as (f' & Hr & Hc & [S1 S2] & Hpx); [done|apply length_replicate|].
  set (s1 := mkScreen f' t0).
  assert (H1 : shows s1 (blank_canvas w h)).
  { split_and!; [split; cbn in *; try done; try congruence; lia|done|]. intros x y [Hx Hy]. by apply Hpx. }
  assert (Hclear : clear (mkScreen f t0) = draw_cursor s1).
  { unfold clear, erasing. rewrite (bindM_ok erase_cursor _ (mkScreen f t0) tt (mkScreen f t0) eq_refl), getTerm_ok.
    rewrite (bindM_ok _ _ _ tt s1); [done|]. unfold apply_console_bg.
    rewrite (bindM_ok _ _ _ tt s1) by (apply onFb_ok; exact Hr). done. }
  unfold bindM. rewrite Hclear. destruct (sim_draw_cursor s1 _ H1) as (s2 & -> & H2).
  destruct (sim_draw_cursor s2 _ H2) as (s3 & -> & H3). eauto.
Qed.
