(* ===== verification/ConsoleSpec.v ===== *)
(** * The console shows what is written to it

    Escape sequences do the same on two terminals that are related: [TermSim] is what
    that takes, and the framebuffer terminal with its canvas has it.  On the canvas the
    output buffer is shown to be invisible, and the console becomes a function from the
    bytes written, one after the other, to a picture. *)

From Stdlib Require Import Ascii ZifyBool.
From S2P Require Import Prelude Bytes Text Utf TimeCalls LineDisc Font Framebuffer FbTerm Tty Canvas.
Open Scope twilight_scope.

(** ** Related terminals *)

(** Both operations succeed and lead to related states. *)
Definition both {A B} (R : A -> B -> Prop) (m1 : M A unit unit) (m2 : M B unit unit) (a : A) (b : B) : Prop :=
  exists a' b', m1 a = (Ok tt, a') /\ m2 b = (Ok tt, b') /\ R a' b'.

Lemma both_bind {A B} (R R' : A -> B -> Prop) m1 m2 k1 k2 a b :
  both R m1 m2 a b -> (forall a' b', R a' b' -> both R' k1 k2 a' b') -> both R' (m1 >>> k1) (m2 >>> k2) a b.
Proof.
  intros (a' & b' & H1 & H2 & HR) Hk. unfold both. rewrite (bindM_ok _ _ _ _ _ H1), (bindM_ok _ _ _ _ _ H2). by apply Hk.
Qed.

Lemma both_ret {A B} (R : A -> B -> Prop) a b : R a b -> both R (retM tt) (retM tt) a b.
Proof. intros H. by exists a, b. Qed.

Lemma both_modify {A B} (R : A -> B -> Prop) f g a b : R (f a) (g b) -> both R (modifyM f) (modifyM g) a b.
Proof. intros H. by exists (f a), (g b). Qed.

(** The operations that [tty.rs] calls, on two terminals. *)
Class TermSim {A B : Type} `{!Terminal A} `{!Terminal B} (R : A -> B -> Prop) : Prop := {
  ts_cursor a b : R a b -> t_cursor a = t_cursor b;
  ts_size a b : R a b -> t_size a = t_size b;
  ts_style a b : R a b -> t_style a = t_style b;
  ts_bounds a b : R a b -> (8 <= (t_size a).1 /\ (t_cursor a).1 * 8 <= (t_size a).1 /\ (t_cursor a).2 * 16 + 16 <= (t_size a).2)%nat;
  ts_set_cursor x y a b : R a b -> (x * 8 <= (t_size a).1)%nat -> (y * 16 + 16 <= (t_size a).2)%nat ->
    R (t_set_cursor x y a) (t_set_cursor x y b);
  ts_set_style fg bg rev a b : R a b -> R (t_set_style fg bg rev a) (t_set_style fg bg rev b);
  ts_put_byte c a b : R a b -> both R (t_put_byte c) (t_put_byte c) a b;
  ts_refresh a b : R a b -> both R t_refresh_cursor t_refresh_cursor a b;
  ts_visible v a b : R a b -> both R (t_set_cursor_visible v) (t_set_cursor_visible v) a b;
  ts_erase_line a b : R a b -> both R t_erase_line t_erase_line a b;
  ts_erase_from a b : R a b -> both R t_erase_in_line_from_cursor t_erase_in_line_from_cursor a b;
  ts_erase_to a b : R a b -> both R t_erase_in_line_to_cursor t_erase_in_line_to_cursor a b;
  ts_display_from a b : R a b -> both R t_erase_display_from_cursor t_erase_display_from_cursor a b;
  ts_display_to a b : R a b -> both R t_erase_display_to_cursor t_erase_display_to_cursor a b;
  ts_clear a b : R a b -> both R t_clear t_clear a b;
}.

Lemma sim_both m f s c : sim shows shows m f -> shows s c -> both shows m (modifyM f) s c.
Proof. intros H Hs. destruct (H s c Hs) as (s' & ? & ?). by exists s', (f c). Qed.

#[export] Instance shows_TermSim : TermSim shows.
Proof.
  split.
  - intros s c Hs. destruct (shows_size s c Hs) as (_ & _ & Hx & Hy & _). cbn. congruence.
  - intros s c Hs. destruct (shows_size s c Hs) as (Hw & Hh & _). cbn. congruence.
  - intros s c (_ & Ht & _). cbn. by rewrite <- Ht.
  - intros s c (Hi & _). cbn. pose proof (inv_x s Hi). pose proof (inv_y s Hi). lia.
  - intros x y s c Hs Hx Hy. by apply shows_move.
  - intros fg bg rev s c (Hi & Ht & Hp). split_and!; [destruct Hi; by split|cbn; by rewrite <- Ht|exact Hp].
  - intros ch s c Hs. apply sim_both; [apply sim_put_byte|done].
  - intros s c Hs. destruct (sim_draw_cursor s c Hs) as (s' & ? & ?). by exists s', c.
  - intros v s c Hs. destruct (sim_set_visible v s c Hs) as (s' & ? & ?). by exists s', c.
  - intros s c Hs. apply sim_both; [apply sim_erase_line|done].
  - intros s c Hs. apply sim_both; [apply sim_erase_from|done].
  - intros s c Hs. apply sim_both; [apply sim_erase_to|done].
  - intros s c Hs. apply sim_both; [apply sim_erase_display_from|done].
  - intros s c Hs. apply sim_both; [apply sim_erase_display_to|done].
  - intros s c Hs. apply sim_both; [apply sim_clear|done].
Qed.

(** ** Related consoles *)

Definition rel {A B} (R : A -> B -> Prop) (s : Tty A) (s' : Tty B) : Prop :=
  R (tterm s) (tterm s') /\ ldisc s = ldisc s' /\ ansi_state s = ansi_state s' /\ csi_buf s = csi_buf s' /\
  sgr_bold s = sgr_bold s' /\ output_buffer s = output_buffer s' /\ serial s = serial s'.

Ltac rel_done := repeat match goal with H : rel _ _ _ |- _ => destruct H as (? & ? & ? & ? & ? & ? & ?) end;
  unfold rel; cbn; split_and!; congruence || done.

Section related.
Context {A B : Type} `{!Terminal A} `{!Terminal B} (R : A -> B -> Prop) `{!TermSim R}.
#[local] Abbreviation rel := (rel R).

Lemma both_onTerm m1 m2 s s' : rel s s' -> both R m1 m2 (tterm s) (tterm s') -> both rel (onTerm m1) (onTerm m2) s s'.
Proof.
  intros (HR & H1 & H2 & H3 & H4 & H5 & H6) (a & b & Ha & Hb & HR'). unfold both, onTerm. rewrite Ha, Hb.
  eexists _, _. split_and!; [done..|]. unfold rel. cbn. split_and!; done.
Qed.

Lemma both_term_write l a b : R a b -> both R (term_write l) (term_write l) a b.
Proof.
  revert a b. induction l as [|c l IH]; intros a b H; cbn [term_write]; [by apply both_ret|].
  eapply both_bind; [by apply ts_put_byte|done].
Qed.

Lemma both_flush_runs fuel l a b : (length l < fuel)%nat -> R a b -> both R (flush_runs fuel l) (flush_runs fuel l) a b.
Proof.
  revert l a b. induction fuel as [|fuel IH]; intros l a b Hl H; [lia|]. cbn [flush_runs]. destruct l as [|c l]; [by apply both_ret|].
  destruct (span (c :: l)) as [run rest] eqn:E.
  assert (Hrest : (length rest <= length (c :: l))%nat).
  { revert run rest E. generalize (c :: l). clear. intros l. induction l as [|x l IH]; intros run rest E; cbn in E; simplify_eq; [done|].
    destruct (is_printable_ascii x); simplify_eq; [|done]. destruct (span l) as [p r]. simplify_eq. cbn. specialize (IH _ _ eq_refl). lia. }
  eapply both_bind; [destruct (bool_decide (run = [])); [by apply both_ret|by apply both_term_write]|]. intros a' b' H'.
  destruct rest as [|x rest]; [by apply both_ret|]. eapply both_bind; [by apply ts_put_byte|]. intros a'' b'' H''.
  apply IH; [|done]. cbn [length] in *. lia.
Qed.

Lemma rel_modify f g s s' : rel (f s) (g s') -> both rel (modifyM f) (modifyM g) s s'.
Proof. apply both_modify. Qed.

(** Reading the state: related states agree on everything but the terminal. *)
Lemma both_get (k1 : Tty A -> M (Tty A) unit unit) (k2 : Tty B -> M (Tty B) unit unit) s s' :
  both rel (k1 s) (k2 s') s s' -> both rel (s <-- getM ;; k1 s) (s <-- getM ;; k2 s) s s'.
Proof. done. Qed.

Lemma both_flush s s' : rel s s' -> both rel flush_output flush_output s s'.
Proof.
  intros H. unfold flush_output. apply both_get. pose proof H as (_ & _ & _ & _ & _ & <- & _).
  destruct (output_buffer s) as [|c l] eqn:E; [by apply both_ret|].
  eapply both_bind; [apply rel_modify; rel_done|]. intros s1 s1' H1.
  eapply both_bind; [apply both_onTerm; [done|]; apply both_flush_runs; [lia|apply H1]|]. intros s2 s2' H2.
  apply both_onTerm; [done|]. apply ts_refresh, H2.
Qed.

Lemma both_move f a b : R a b ->
  (let '(x, y) := f (t_size a) (t_cursor a) in (x * 8 <= (t_size a).1)%nat /\ (y * 16 + 16 <= (t_size a).2)%nat) ->
  both R (move_to f) (move_to f) a b.
Proof.
  intros H Hf. unfold move_to. eapply both_bind; [|intros a' b' H'; by apply ts_refresh]. apply both_modify.
  rewrite <- (ts_size a b H), <- (ts_cursor a b H). destruct (f _ _) as [x y]. destruct Hf. by apply ts_set_cursor.
Qed.

Lemma last_fits (k z n : nat) : (0 < k)%nat -> (k <= z)%nat -> ((n `min` ((z / k) `max` 1 - 1)) * k + k <= z)%nat.
Proof.
  intros Hk Hz. pose proof (Nat.Div0.mul_div_le z k) as Hd. assert (Hq : (0 < z / k)%nat) by (apply Nat.div_str_pos; lia).
  set (q := (z / k)%nat) in *. assert (Hm : (n `min` (q `max` 1 - 1) <= q - 1)%nat) by lia.
  set (m := (n `min` _)%nat) in *. transitivity ((q - 1) * k + k)%nat; [|nia]. apply Nat.add_le_mono_r, Nat.mul_le_mono_r, Hm.
Qed.

Lemma both_csi_ed nums a b : R a b -> both R (csi_ed nums) (csi_ed nums) a b.
Proof.
  intros H. unfold csi_ed. destruct (_ =? 2); [|destruct (_ =? 1); [by apply ts_display_to|by apply ts_display_from]].
  eapply both_bind; [by apply ts_clear|]. intros a' b' H'. apply both_modify. pose proof (ts_bounds a' b' H').
  apply ts_set_cursor; [done|lia|lia].
Qed.

Lemma both_csi_el nums a b : R a b -> both R (csi_el nums) (csi_el nums) a b.
Proof.
  intros H. unfold csi_el. destruct (_ =? 2); [by apply ts_erase_line|]. destruct (_ =? 1); [by apply ts_erase_to|by apply ts_erase_from].
Qed.

Lemma both_csi_moves nums a b : R a b ->
  both R (csi_cuu nums) (csi_cuu nums) a b /\ both R (csi_cud nums) (csi_cud nums) a b /\
  both R (csi_cuf nums) (csi_cuf nums) a b /\ both R (csi_cub nums) (csi_cub nums) a b /\
  both R (csi_cup nums) (csi_cup nums) a b.
Proof.
  intros H. pose proof (ts_bounds a b H) as (Hw & Hx & Hy). split_and!; (apply both_move; [done|]); (split; [|]); cbn [fst snd]; try lia.
  - apply (last_fits 16); lia.
  - pose proof (last_fits 8 _ ((t_cursor a).1 + arg nums 0) ltac:(lia) Hw). unfold max_cols. lia.
  - pose proof (last_fits 8 _ (arg nums 1 - 1) ltac:(lia) Hw). unfold max_cols. lia.
  - apply (last_fits 16); lia.
Qed.

Lemma both_csi_private v nums a b : R a b -> both R (csi_dec_private v nums) (csi_dec_private v nums) a b.
Proof.
  revert a b. induction nums as [|n nums IH]; intros a b H; cbn [csi_dec_private]; [by apply both_ret|].
  eapply both_bind; [|done]. destruct (n =? 25); [by apply ts_visible|by apply both_ret].
Qed.

Lemma both_sgr params s s' : rel s s' -> both rel (apply_sgr params) (apply_sgr params) s s'.
Proof.
  intros H. apply rel_modify. pose proof H as (HR & _ & _ & _ & <- & _). rewrite <- (ts_style _ _ HR).
  destruct (t_style (tterm s)) as [[c b] r]. destruct H as (_ & ? & ? & ? & ? & ? & ?). unfold rel. cbn.
  split_and!; [by apply ts_set_style|congruence..].
Qed.

Lemma both_handle_csi s s' : rel s s' -> both rel handle_csi_final handle_csi_final s s'.
Proof.
  intros H. unfold handle_csi_final. apply both_get. pose proof H as (_ & _ & <- & <- & _).
  eapply both_bind; [apply rel_modify; rel_done|]. intros s1 s1' H1. destruct (last (csi_buf s)) as [final|]; [|apply rel_modify; rel_done].
  destruct (csi_params _) as [private params]. eapply both_bind; [by apply both_flush|]. intros s2 s2' H2.
  eapply (both_bind rel); [|intros s3 s3' H3; apply both_get; apply rel_modify; rel_done].
  destruct (both_csi_moves (csi_nums params) _ _ (proj1 H2)) as (M1 & M2 & M3 & M4 & M5).
  destruct (final =? 109); [by apply both_sgr|].
  destruct (final =? 74); [apply both_onTerm; [done|apply both_csi_ed, H2]|].
  destruct (final =? 75); [apply both_onTerm; [done|apply both_csi_el, H2]|].
  destruct (final =? 65); [by apply both_onTerm|]. destruct (final =? 66); [by apply both_onTerm|].
  destruct (final =? 67); [by apply both_onTerm|]. destruct (final =? 68); [by apply both_onTerm|].
  destruct (_ || _); [by apply both_onTerm|].
  destruct (_ && _); [apply both_onTerm; [done|apply both_csi_private, H2]|].
  destruct (_ && _); [apply both_onTerm; [done|apply both_csi_private, H2]|]. by apply both_ret.
Qed.

Lemma both_feed b s s' : rel s s' -> both rel (ansi_feed b) (ansi_feed b) s s'.
Proof.
  intros H. unfold ansi_feed. apply both_get. pose proof H as (_ & _ & <- & <- & _ & <- & _). destruct (ansi_state s).
  - destruct (b =? 27); [apply rel_modify; rel_done|]. destruct (is_printable_ascii b); [apply rel_modify; rel_done|].
    eapply both_bind; [by apply both_flush|]. intros s1 s1' H1. apply both_onTerm; [done|]. apply ts_put_byte, H1.
  - destruct (b =? 91); [apply rel_modify; rel_done|]. eapply both_bind; [apply rel_modify; rel_done|].
    intros s1 s1' H1. apply rel_modify. rel_done.
  - destruct (in_range 64 126 b).
    + eapply both_bind; [apply rel_modify; rel_done|]. intros s1 s1' H1. eapply both_bind; [by apply both_handle_csi|].
      intros s2 s2' H2. apply both_get. apply rel_modify. rel_done.
    + destruct (_ <? 64)%nat; [apply rel_modify; rel_done|by apply both_ret].
Qed.

Lemma both_write_bytes data s s' : rel s s' -> both rel (write_bytes_ansi data) (write_bytes_ansi data) s s'.
Proof.
  intros H. unfold write_bytes_ansi. eapply (both_bind rel).
  - revert s s' H. induction data as [|b data IH]; intros s s' H; cbn [feed_all]; [by apply both_ret|].
    eapply both_bind; [by apply both_feed|done].
  - intros s1 s1' H1. apply both_get. pose proof H1 as (_ & _ & _ & _ & _ & <- & _).
    destruct (_ <=? _)%nat; [by apply both_flush|by apply both_ret].
Qed.

Lemma both_print text s s' : rel s s' -> both rel (print text) (print text) s s'.
Proof. intros H. eapply both_bind; [by apply both_write_bytes|]. apply both_flush. Qed.

Lemma both_tty_write data s s' : rel s s' -> both rel (tty_write data) (tty_write data) s s'.
Proof.
  intros H. unfold tty_write. apply both_get. pose proof H as (_ & <- & _). eapply both_bind; [by apply both_write_bytes|].
  intros s1 s1' H1. eapply both_bind; [apply rel_modify; rel_done|]. apply both_flush.
Qed.
End related.

(** ** The console as a function of the bytes *)

(** A terminal without an output buffer. *)
Record Direct := mkDirect { d_ansi : AnsiState; d_csi : list Z; d_bold : bool; d_cv : Canvas }.

Definition cv_bytes (l : list Z) (c : Canvas) : Canvas := fold_left (fun c b => cv_byte b c) l c.
Definition cv_run (m : M Canvas unit unit) (d : Direct) : Direct :=
  mkDirect (d_ansi d) (d_csi d) (d_bold d) (m (d_cv d)).2.

Definition direct_sgr (params : string) (d : Direct) : Direct :=
  let t := cv (d_cv d) in
  let st := sgr params (mkStyle (d_bold d) (tx_fg t) (tx_bg t) (tx_rev t)) in
  mkDirect (d_ansi d) (d_csi d) (bold st) (mkCanvas (in_style (fg st) (bg st) (rev st) t) (cv_px (d_cv d))).

(** A complete control sequence [b]. *)
Definition direct_csi (b : list Z) (d : Direct) : Direct :=
  match last b with
  | None => d
  | Some final =>
      let '(is_private, params) := csi_params (removelast b) in
      let nums := csi_nums params in
      if final =? 109 then direct_sgr params d
      else if final =? 74 then cv_run (csi_ed nums) d
      else if final =? 75 then cv_run (csi_el nums) d
      else if final =? 65 then cv_run (csi_cuu nums) d
      else if final =? 66 then cv_run (csi_cud nums) d
      else if final =? 67 then cv_run (csi_cuf nums) d
      else if final =? 68 then cv_run (csi_cub nums) d
      else if (final =? 72) || (final =? 102) then cv_run (csi_cup nums) d
      else d
  end.

Definition direct_feed (d : Direct) (b : Z) : Direct :=
  match d_ansi d with
  | AGround =>
      if b =? 0x1B then mkDirect AEsc [] (d_bold d) (d_cv d)
      else mkDirect AGround (d_csi d) (d_bold d) (cv_byte b (d_cv d))
  | AEsc =>
      if b =? 91 then mkDirect ACsi [] (d_bold d) (d_cv d)
      else mkDirect AGround (d_csi d) (d_bold d) (cv_bytes [0x1B; b] (d_cv d))
  | ACsi =>
      if in_range 64 126 b then
        let d := direct_csi (d_csi d ++ [b]) d in mkDirect AGround [] (d_bold d) (d_cv d)
      else if (length (d_csi d) <? 64)%nat then mkDirect ACsi (d_csi d ++ [b]) (d_bold d) (d_cv d)
      else d
  end.

Definition direct (l : list Z) (d : Direct) : Direct := fold_left direct_feed l d.

(** ** The buffer is invisible *)

Definition flat (s : Tty Canvas) : Direct :=
  mkDirect (ansi_state s) (csi_buf s) (sgr_bold s) (cv_bytes (output_buffer s) (tterm s)).

Lemma cv_bytes_app a b c : cv_bytes (a ++ b) c = cv_bytes b (cv_bytes a c).
Proof. apply fold_left_app. Qed.

Lemma term_write_cv l c : term_write l c = (Ok tt, cv_bytes l c).
Proof. revert c. induction l as [|b l IH]; intros c; [done|]. apply IH. Qed.

Lemma span_app l : (span l).1 ++ (span l).2 = l.
Proof.
  induction l as [|b l IH]; [done|]. cbn. destruct (is_printable_ascii b); [|done]. destruct (span l). cbn in *. by f_equal.
Qed.

(** The runs of [flush_output] are the bytes one by one. *)
Lemma flush_runs_cv fuel l c : (length l < fuel)%nat -> flush_runs fuel l c = (Ok tt, cv_bytes l c).
Proof.
  revert l c. induction fuel as [|fuel IH]; intros l c Hl; [lia|]. cbn [flush_runs]. destruct l as [|x l]; [done|].
  pose proof (span_app (x :: l)) as Hs. destruct (span (x :: l)) as [run rest]. cbn in Hs.
  assert (Hw : (if bool_decide (run = []) then retM tt else term_write run) c = (Ok tt, cv_bytes run c)).
  { case_bool_decide; [by subst|apply term_write_cv]. }
  rewrite (bindM_ok _ _ _ _ _ Hw), <- Hs, cv_bytes_app. apply (f_equal length) in Hs. rewrite length_app in Hs. cbn [length] in *.
  destruct rest as [|y rest]; [done|]. change (flush_runs fuel rest (cv_byte y (cv_bytes run c)) = (Ok tt, cv_bytes rest (cv_byte y (cv_bytes run c)))).
  apply IH. cbn [length] in *. lia.
Qed.

Definition flushed (s : Tty Canvas) : Tty Canvas :=
  mkTty (ldisc s) (cv_bytes (output_buffer s) (tterm s)) (ansi_state s) (csi_buf s) (sgr_bold s) [] (serial s).

Lemma flush_cv s : flush_output s = (Ok tt, flushed s).
Proof.
  unfold flush_output, flushed, bindM at 1, getM. destruct s as [l c a b k o z]. cbn [output_buffer]. destruct o as [|x o]; [done|].
    change ((onTerm (flush_runs (S (length (x :: o))) (x :: o)) >>> onTerm t_refresh_cursor) (mkTty l c a b k [] z) =
    (Ok tt, mkTty l (cv_bytes (x :: o) c) a b k [] z)).
  rewrite (bindM_ok _ _ _ tt (mkTty l (cv_bytes (x :: o) c) a b k [] z)); [done|].
  unfold onTerm. cbn [tterm]. rewrite flush_runs_cv by lia. done.
Qed.

(** An operation of the canvas never fails. *)
Definition cv_ok (m : M Canvas unit unit) : Prop := forall c, m c = (Ok tt, (m c).2).

Lemma cv_ok_bind m k : cv_ok m -> cv_ok k -> cv_ok (m >>> k).
Proof. intros Hm Hk c. rewrite !(bindM_ok _ _ _ _ _ (Hm c)). apply Hk. Qed.

Lemma cv_ok_csi nums v : cv_ok (csi_ed nums) /\ cv_ok (csi_el nums) /\ cv_ok (csi_cuu nums) /\ cv_ok (csi_cud nums) /\
  cv_ok (csi_cuf nums) /\ cv_ok (csi_cub nums) /\ cv_ok (csi_cup nums) /\ cv_ok (csi_dec_private v nums).
Proof.
  split_and!; try done; try (intros c; unfold csi_ed, csi_el; repeat case_match; done).
  induction nums as [|n nums IH]; [done|]. cbn [csi_dec_private]. apply cv_ok_bind; [|done]. by case_match.
Qed.

Lemma cv_private v nums c : csi_dec_private v nums c = (Ok tt, c).
Proof. induction nums as [|n nums IH]; [done|]. cbn [csi_dec_private]. by destruct (n =? 25). Qed.

(** The state after some bytes: what is shown, and the rest as it was. *)
Definition feeds (m : M (Tty Canvas) unit unit) (f : Direct -> Direct) : Prop :=
  forall s, exists s', m s = (Ok tt, s') /\ flat s' = f (flat s) /\ ldisc s' = ldisc s /\ serial s' = serial s.

Lemma handle_csi_cv s : csi_buf s <> [] ->
  exists s', handle_csi_final s = (Ok tt, s') /\ output_buffer s' = [] /\ ldisc s' = ldisc s /\ serial s' = serial s /\
    csi_buf s' = [] /\ ansi_state s' = AGround /\
    (sgr_bold s', tterm s') = (d_bold (direct_csi (csi_buf s) (flat s)), d_cv (direct_csi (csi_buf s) (flat s))).
Proof.
  intros Hb. destruct s as [l c0 a b k o z]. cbn in Hb. unfold handle_csi_final, direct_csi, flat. cbn [csi_buf].
  unfold bindM at 1, getM. unfold set_ansi at 1. unfold bindM at 1, modifyM. cbn [ldisc tterm ansi_state csi_buf sgr_bold output_buffer serial].
  destruct (last b) as [final|] eqn:El; [|by apply last_None in El]. destruct (csi_params (removelast b)) as [private params].
  destruct (cv_ok_csi (csi_nums params) true) as (K1 & K2 & K3 & K4 & K5 & K6 & K7 & _).
  rewrite (bindM_ok _ _ _ _ _ (flush_cv _)). unfold flushed. cbn [ldisc tterm ansi_state csi_buf sgr_bold output_buffer serial].
  set (c := cv_bytes o c0).
  assert (Hrun : forall m, cv_ok m -> exists s', (onTerm m >>> s <-- getM ;; set_ansi AGround (csi_buf s)) (mkTty l c a [] k [] z) = (Ok tt, s') /\
     output_buffer s' = [] /\ ldisc s' = l /\ serial s' = z /\ csi_buf s' = [] /\ ansi_state s' = AGround /\
     (sgr_bold s', tterm s') = (k, (m c).2)).
  { intros m Hm. unfold bindM, onTerm. cbn [tterm]. rewrite (Hm c). by eexists. }
  destruct (final =? 109); [by eexists|]. destruct (final =? 74); [by apply Hrun|]. destruct (final =? 75); [by apply Hrun|].
  destruct (final =? 65); [by apply Hrun|]. destruct (final =? 66); [by apply Hrun|]. destruct (final =? 67); [by apply Hrun|].
  destruct (final =? 68); [by apply Hrun|]. destruct (_ || _); [by apply Hrun|].
  assert (Hpriv : forall v, cv_ok (csi_dec_private v (csi_nums params))) by (intros v x; by rewrite cv_private).
  destruct (_ && _); [destruct (Hrun _ (Hpriv true)) as (s' & H); rewrite cv_private in H; eauto|].
  destruct (_ && _); [destruct (Hrun _ (Hpriv false)) as (s' & H); rewrite cv_private in H; eauto|]. by eexists.
Qed.

Lemma feed_cv b : feeds (ansi_feed b) (fun d => direct_feed d b).
Proof.
  intros s. unfold ansi_feed, direct_feed. unfold bindM at 1, getM. cbn [d_ansi d_csi d_bold d_cv flat].
  destruct (ansi_state s) eqn:Ea.
  - destruct (b =? 27); [by eexists|]. destruct (is_printable_ascii b).
    + eexists. split; [reflexivity|]. split; [|done]. unfold flat. cbn. by rewrite Ea, cv_bytes_app.
    + rewrite (bindM_ok _ _ _ _ _ (flush_cv s)). eexists. split; [reflexivity|]. split; [|done]. unfold flat, flushed. cbn. by rewrite Ea.
  - destruct (b =? 91); [by eexists|]. eexists. split; [reflexivity|]. split; [|done]. unfold flat. cbn. by rewrite cv_bytes_app.
  - destruct (in_range 64 126 b).
    + set (s1 := mkTty (ldisc s) (tterm s) ACsi (csi_buf s ++ [b]) (sgr_bold s) (output_buffer s) (serial s)).
      destruct (handle_csi_cv s1) as (s2 & Hr & Ho & Hl & Hz & Hc & Hs & Heq); [cbn; by destruct (csi_buf s)|].
      change (bindM _ _ s) with ((handle_csi_final >>> s <-- getM ;; set_ansi AGround (csi_buf s)) s1).
      rewrite (bindM_ok _ _ _ _ _ Hr). eexists. split; [reflexivity|]. split; [|done]. unfold flat. cbn. rewrite Ho, Hc. cbn.
      change (csi_buf s1) with (csi_buf s ++ [b]) in Heq. simplify_eq. assert (Hd : forall x y, d_bold x = d_bold y /\ d_cv x = d_cv y ->
        d_bold (direct_csi (csi_buf s ++ [b]) x) = d_bold (direct_csi (csi_buf s ++ [b]) y) /\
        d_cv (direct_csi (csi_buf s ++ [b]) x) = d_cv (direct_csi (csi_buf s ++ [b]) y)).
      { intros [] []. cbn. intros [-> ->]. unfold direct_csi, cv_run, direct_sgr. repeat case_match; done. }
      match goal with |- context [direct_csi _ ?d] => destruct (Hd (flat s1) d) as [Hb Hv]; [done|] end. congruence.
    + destruct (_ <? 64)%nat; [by eexists|]. exists s. split_and!; [done| |done|done]. unfold flat. by rewrite Ea.
Qed.

Lemma feed_all_cv data : feeds (feed_all data) (direct data).
Proof.
  induction data as [|b data IH]; intros s; cbn [feed_all]; [by exists s|].
  destruct (feed_cv b s) as (s1 & Hr & Hf & Hl & Hz). rewrite (bindM_ok _ _ _ _ _ Hr).
  destruct (IH s1) as (s2 & Hr2 & Hf2 & Hl2 & Hz2). exists s2. split_and!; [done|by rewrite Hf2, Hf|congruence..].
Qed.

Lemma write_bytes_cv data : feeds (write_bytes_ansi data) (direct data).
Proof.
  intros s. unfold write_bytes_ansi. destruct (feed_all_cv data s) as (s1 & Hr & Hf & Hl & Hz).
  rewrite (bindM_ok _ _ _ _ _ Hr). unfold bindM, getM. destruct (_ <=? _)%nat; [|by exists s1].
  rewrite flush_cv. eexists. split; [reflexivity|]. done.
Qed.

(** ** Calls *)

Inductive call :=
| CWrite (data : list Z) | CPrint (text : list Z) | CKey (c : Z)
| CRead (b : list Z) (now : Z) (ws : wakeups) | CIoctl (own : Z) (user : Termios) (pgid cmd arg : Z).

Section calls.
Context {T : Type} `{!Terminal T}.

Definition on_ldisc (f : Ldisc -> Ldisc) : M (Tty T) unit unit := s <-- getM ;; set_ldisc (f (ldisc s)).

Definition console_call (x : call) : M (Tty T) unit unit :=
  match x with
  | CWrite data => tty_write data
  | CPrint text => print text
  | CKey c => on_ldisc (put_input c)
  | CRead b now ws => console_read b now ws >>> retM tt
  | CIoctl own user pgid cmd arg =>
      s <-- getM ;;
      let '(w, h) := t_size (tterm s) in
      set_ldisc (tty_ioctl (Z.of_nat w) (Z.of_nat h) own user pgid cmd arg (ldisc s)).2
  end.

Fixpoint console_calls (xs : list call) : M (Tty T) unit unit :=
  match xs with [] => retM tt | x :: xs => console_call x >>> console_calls xs end.
End calls.

(** What a call does to the settings and the input, what it sends to the screen, and what
    to the serial line. *)
Definition settles (l : Ldisc) (x : call) : Ldisc :=
  match x with
  | CKey c => put_input c l
  | CRead b now ws => match tty_read l b now ws with Some r => set_input (rd_input r) l | None => l end
  | CIoctl own user pgid cmd arg => (tty_ioctl 0 0 own user pgid cmd arg l).2
  | _ => l
  end.

Definition post (l : Ldisc) (data : list Z) : list Z :=
  if o_post l && onlcr l then expand_newlines false data else data.

Definition emits (l : Ldisc) (x : call) : list Z :=
  match x with
  | CWrite data => post l data
  | CPrint text => text
  | CRead b now ws => match tty_read l b now ws with Some r => rd_echo r | None => [] end
  | _ => []
  end.

Definition mirrors (l : Ldisc) (x : call) : list Z := match x with CWrite data => post l data | _ => [] end.

Fixpoint gather (f : Ldisc -> call -> list Z) (l : Ldisc) (xs : list call) : list Z :=
  match xs with [] => [] | x :: xs => f l x ++ gather f (settles l x) xs end.

(** On the canvas. *)
Lemma print_cv text s : output_buffer s = [] ->
  exists s', print text s = (Ok tt, s') /\ flat s' = direct text (flat s) /\ output_buffer s' = [] /\
    ldisc s' = ldisc s /\ serial s' = serial s.
Proof.
  intros Ho. unfold print. destruct (write_bytes_cv text s) as (s1 & Hr & Hf & Hl & Hz).
  rewrite (bindM_ok _ _ _ _ _ Hr), flush_cv. eexists. split; [reflexivity|]. done.
Qed.

Lemma console_call_cv x s : output_buffer s = [] ->
  exists s', console_call x s = (Ok tt, s') /\ flat s' = direct (emits (ldisc s) x) (flat s) /\ output_buffer s' = [] /\
    ldisc s' = settles (ldisc s) x /\ serial s' = serial s ++ mirrors (ldisc s) x.
Proof.
  intros Ho. destruct x as [data|text|c|b now ws|own user pgid cmd arg]; cbn [console_call emits settles mirrors].
  - unfold tty_write. unfold bindM at 1, getM. fold (post (ldisc s) data).
    destruct (write_bytes_cv (post (ldisc s) data) s) as (s1 & Hr & Hf & Hl & Hz). rewrite (bindM_ok _ _ _ _ _ Hr).
    unfold mirror_to_serial. unfold bindM, modifyM. rewrite flush_cv. eexists. split; [reflexivity|].
    split_and!; [exact Hf|done|done|cbn; by rewrite Hz].
  - destruct (print_cv text s Ho) as (s' & ? & ? & ? & ? & Hz). exists s'. rewrite app_nil_r. done.
  - eexists. split; [reflexivity|]. rewrite app_nil_r. done.
  - unfold console_read. unfold bindM at 1. unfold bindM at 1, getM. destruct (tty_read (ldisc s) b now ws) as [r|].
    + destruct (print_cv (rd_echo r) s Ho) as (s' & Hr & Hf & Ho' & Hl & Hz). rewrite (bindM_ok _ _ _ _ _ Hr).
      eexists. split; [reflexivity|]. rewrite app_nil_r. split_and!; [exact Hf|exact Ho'|done|exact Hz].
    + exists s. rewrite app_nil_r. done.
  - eexists. split; [reflexivity|]. rewrite app_nil_r. split_and!; [done|done| |done]. cbn.
    unfold tty_ioctl. repeat case_match; done.
Qed.

Lemma console_calls_cv xs s : output_buffer s = [] ->
  exists s', console_calls xs s = (Ok tt, s') /\ flat s' = direct (gather emits (ldisc s) xs) (flat s) /\ output_buffer s' = [] /\
    ldisc s' = fold_left settles xs (ldisc s) /\ serial s' = serial s ++ gather mirrors (ldisc s) xs.
Proof.
  revert s. induction xs as [|x xs IH]; intros s Ho; cbn [console_calls gather fold_left].
  { exists s. rewrite app_nil_r. done. }
  destruct (console_call_cv x s Ho) as (s1 & Hr & Hf & Ho1 & Hl & Hz). rewrite (bindM_ok _ _ _ _ _ Hr).
  destruct (IH s1 Ho1) as (s2 & Hr2 & Hf2 & Ho2 & Hl2 & Hz2). exists s2. split_and!; [done| |done| |].
  - rewrite Hf2, Hf, Hl. unfold direct. by rewrite fold_left_app.
  - by rewrite Hl2, Hl.
  - by rewrite Hz2, Hz, Hl, app_assoc.
Qed.

(** On the screen and on the canvas. *)
Lemma both_console_call x s s' : rel shows s s' -> both (rel shows) (console_call x) (console_call x) s s'.
Proof.
  intros H. destruct x as [data|text|c|b now ws|own user pgid cmd arg]; cbn [console_call].
  - exact (both_tty_write shows data s s' H).
  - exact (both_print shows text s s' H).
  - apply both_get. pose proof H as (_ & <- & _). apply rel_modify. rel_done.
  - unfold both, console_read, bindM, getM. pose proof H as (_ & <- & _). destruct (tty_read (ldisc s) b now ws) as [r|]; [|by exists s, s'].
    destruct (both_print shows (rd_echo r) s s' H) as (s1 & s1' & -> & -> & H1). eexists _, _. split; [reflexivity|].
    split; [reflexivity|]. rel_done.
  - apply both_get. pose proof H as (HR & <- & _). rewrite (ts_size _ _ HR). destruct (t_size _) as [w h]. apply rel_modify. rel_done.
Qed.

Lemma both_console_calls xs s s' : rel shows s s' -> both (rel shows) (console_calls xs) (console_calls xs) s s'.
Proof.
  revert s s'. induction xs as [|x xs IH]; intros s s' H; cbn [console_calls]; [by apply both_ret|].
  eapply both_bind; [by apply both_console_call|done].
Qed.

(** The size of the canvas never changes. *)
Definition size (c : Canvas) : nat * nat := (tx_w (cv c), tx_h (cv c)).

Lemma cv_byte_size b c : size (cv_byte b c) = size c.
Proof.
  assert (Hnl : forall c, size (cv_newline c) = size c) by (intros; unfold cv_newline; case_match; done).
  assert (Hg : forall ch c, size (cv_glyph ch c) = size c) by (intros; unfold cv_glyph; repeat case_match; done).
  assert (Hc : forall ch, size (cv_char ch c) = size c).
  { intros ch. unfold cv_char. assert (Hcur : forall x y c, size (cv_cursor x y c) = size c) by done.
    repeat case_match; rewrite ?Hcur, ?Hg, ?Hcur, ?Hnl; done. }
  unfold cv_byte. destruct (utf8_push _ b) as [u [ch|]]; [exact (Hc ch)|done].
Qed.

Lemma direct_feed_size d b : size (d_cv (direct_feed d b)) = size (d_cv d).
Proof.
  unfold direct_feed. destruct (d_ansi d).
  - case_match; [done|apply cv_byte_size].
  - case_match; [done|]. unfold cv_bytes. cbn [d_cv fold_left]. by rewrite !cv_byte_size.
  - case_match; [|by case_match]. cbn [d_cv]. unfold direct_csi, csi_ed, csi_el. repeat case_match; done.
Qed.

Lemma direct_size l d : size (d_cv (direct l d)) = size (d_cv d).
Proof. revert d. induction l as [|b l IH]; intros d; [done|]. cbn. by rewrite IH, direct_feed_size. Qed.

(** ** Claims *)

(** C13. The console from boot, on any screen of at least one cell, after any sequence of writes, kernel messages, typed keys, reads that echo and settings: no call fails; the pixels under the cursor and the state of the text are those of a reference terminal that interprets the emitted bytes one at a time, with no buffer, no cursor image and no shadow memory; the video memory equals the shadow; the settings are those of the calls, and the serial port has got what the calls mirror. *)
Theorem console_shows_output (video : list Z) (w h : nat) (pitch : Z) (xs : list call) :
  (8 <= w)%nat -> (16 <= h)%nat -> length video = (w * h)%nat ->
  let out := gather emits Ldisc_new xs in
  let picture := d_cv (direct out (mkDirect AGround [] false (blank_canvas w h))) in
  exists screen s, Terminal_new (FrameBuffer_new video w h pitch) = (Ok tt, screen) /\
    console_calls xs (Tty_new screen) = (Ok tt, s) /\
    (forall x y, (x < w)%nat -> (y < h)%nat -> under (tterm s) x y = cv_px picture x y) /\
    text (term (tterm s)) = cv picture /\ pixels (fb (tterm s)) = video_buf (fb (tterm s)) /\
    ldisc s = fold_left settles xs Ldisc_new /\ serial s = gather mirrors Ldisc_new xs /\ output_buffer s = [].
Proof.
  intros Hw Hh Hv out picture. destruct (terminal_new_shows video w h pitch Hw Hh Hv) as (screen & Hnew & Hshows).
  assert (Hrel : rel shows (Tty_new screen) (Tty_new (blank_canvas w h))) by done.
  destruct (both_console_calls xs _ _ Hrel) as (s & s' & H1 & H2 & HR).
  destruct (console_calls_cv xs (Tty_new (blank_canvas w h)) eq_refl) as (s1 & H3 & Hf & Ho & Hl & Hz).
  rewrite H3 in H2. simplify_eq. destruct HR as ((Hi & Ht & Hp) & R1 & _ & _ & _ & R5 & R6).
  assert (Hpic : tterm s' = picture).
  { unfold picture, out. change (mkDirect AGround [] false (blank_canvas w h)) with (flat (Tty_new (blank_canvas w h))).
    change Ldisc_new with (ldisc (Tty_new (blank_canvas w h))). rewrite <- Hf. unfold flat. by rewrite Ho. }
  assert (Hsize : size (tterm s') = (w, h)) by (rewrite Hpic; apply direct_size).
  exists screen, s. split_and!; [done|done| |by rewrite <- Hpic|apply Hi|rewrite R1; exact Hl|rewrite R6; exact Hz|by rewrite R5].
  intros x y Hx Hy. rewrite <- Hpic. apply Hp. unfold size in Hsize. rewrite <- Ht in Hsize. cbn in Hsize. simplify_eq. done.
Qed.

(** A small screen, a coloured word typed, read and echoed. *)
Definition demo_calls : list call :=
  [CWrite (27 :: as_bytes "[31mok" ++ [10]); CKey 108; CKey 13; CRead (replicate 8 0) 0 []].

Lemma console_shows_output_witness :
  let out := gather emits Ldisc_new demo_calls in
  let picture := d_cv (direct out (mkDirect AGround [] false (blank_canvas 32 32))) in
  out = (27 :: as_bytes "[31mok") ++ [13; 10; 108; 10] /\
  exists screen s, Terminal_new (FrameBuffer_new (replicate 1024 7) 32 32 128) = (Ok tt, screen) /\
    console_calls demo_calls (Tty_new screen) = (Ok tt, s) /\
    (forall x y, (x < 32)%nat -> (y < 32)%nat -> under (tterm s) x y = cv_px picture x y) /\
    text (term (tterm s)) = cv picture /\ pixels (fb (tterm s)) = video_buf (fb (tterm s)) /\
    ldisc s = fold_left settles demo_calls Ldisc_new /\ serial s = gather mirrors Ldisc_new demo_calls /\ output_buffer s = [].
Proof.
  split; [vm_compute; reflexivity|].
  apply (console_shows_output (replicate 1024 7) 32 32 128 demo_calls); [lia|lia|vm_compute; reflexivity].
Defined.

(** ** Text in UTF-8 *)

Lemma high_bit b : 0 <= b < 256 -> (Z.land b 0x80 =? 0) = (b <? 128).
Proof.
  intros Hb. assert (H : forallb (fun n => Bool.eqb (Z.land (Z.of_nat n) 0x80 =? 0) (Z.of_nat n <? 128)) (seq 0 256) = true)
    by (vm_compute; reflexivity).
  rewrite forallb_forall in H. specialize (H (Z.to_nat b)). rewrite Z2Nat.id in H by lia.
  apply eqb_prop, H, in_seq. lia.
Qed.

(** The characters a run of bytes completes, and the bytes left waiting. *)
Fixpoint pushes (b : list Z) (l : list Z) : list Z * list Z :=
  match l with
  | [] => (b, [])
  | x :: l => let '(b, ch) := utf8_push b x in let '(b', cs) := pushes b l in
              (b', match ch with Some ch => ch :: cs | None => cs end)
  end.

Lemma pushes_app b l l' :
  pushes b (l ++ l') = let '(b1, cs) := pushes b l in let '(b2, cs') := pushes b1 l' in (b2, cs ++ cs').
Proof.
  revert b. induction l as [|x l IH]; intros b; cbn [pushes app]; [by destruct (pushes b l')|].
  destruct (utf8_push b x) as [b1 ch]. rewrite IH. destruct (pushes b1 l) as [b2 cs]. destruct (pushes b2 l') as [b3 cs'].
  by destruct ch.
Qed.

Definition hold (b : list Z) (c : Canvas) : Canvas := mkCanvas (keeping b (cv c)) (cv_px c).

Lemma cv_char_hold ch b c : cv_char ch (hold b c) = hold b (cv_char ch c).
Proof.
  assert (Hnl : forall c, cv_newline (hold b c) = hold b (cv_newline c)).
  { intros [[] px]. unfold cv_newline, hold. cbn. by case_match. }
  assert (Hg : forall ch c, cv_glyph ch (hold b c) = hold b (cv_glyph ch c)).
  { intros ch' [[] px]. unfold cv_glyph, hold. cbn. by repeat case_match. }
  assert (Hcur : forall x y c, cv_cursor x y (hold b c) = hold b (cv_cursor x y c)) by done.
  unfold cv_char. change (cv (hold b c)) with (keeping b (cv c)). cbn [keeping tx_x tx_y tx_w tx_h].
  repeat case_match; rewrite ?Hcur, ?Hnl, ?Hg, ?Hcur; done.
Qed.

Lemma cv_bytes_pushes l c :
  cv_bytes l c = let '(b, cs) := pushes (tx_utf8 (cv c)) l in hold b (fold_left (fun c ch => cv_char ch c) cs c).
Proof.
  revert c. induction l as [|x l IH]; intros c; cbn [pushes]; [by destruct c as [[] ?]|].
  change (cv_bytes (x :: l) c) with (cv_bytes l (cv_byte x c)). rewrite IH. unfold cv_byte.
  destruct (utf8_push (tx_utf8 (cv c)) x) as [b ch]. cbn [cv keeping tx_utf8]. destruct (pushes b l) as [b' cs].
  assert (Hf : forall c, hold b' (fold_left (fun c ch => cv_char ch c) cs (hold b c)) = hold b' (fold_left (fun c ch => cv_char ch c) cs c)).
  { clear. induction cs as [|ch cs IH]; intros c; [done|]. cbn [fold_left]. by rewrite cv_char_hold, IH. }
  destruct ch as [ch|]; apply Hf.
Qed.

(** A byte of a longer character waits, or completes it. *)
Lemma push_wait b x :
  128 <= x < 256 -> (length b < 3)%nat -> utf8_valid (b ++ [x]) = false -> utf8_push b x = (b ++ [x], None).
Proof.
  intros Hx Hb Hv. unfold utf8_push. rewrite high_bit by lia. replace (x <? 128) with false by lia. rewrite andb_false_r.
  replace (length b <? 4)%nat with true by lia. rewrite Hv, length_app. cbn [length].
  by replace (4 <=? length b + 1)%nat with false by lia.
Qed.

Lemma push_done b x ch :
  128 <= x < 256 -> (length b < 4)%nat -> utf8_valid (b ++ [x]) = true -> decode_utf8 (b ++ [x]) = [ch] ->
  utf8_push b x = ([], Some ch).
Proof.
  intros Hx Hb Hv Hd. unfold utf8_push. rewrite high_bit by lia. replace (x <? 128) with false by lia. rewrite andb_false_r.
  replace (length b <? 4)%nat with true by lia. by rewrite Hv, Hd.
Qed.

Ltac utf8_case :=
  cbn [app utf8_valid decode_utf8 length]; unfold is_cont, in_range;
  repeat (case_match; try lia); try reflexivity; try (f_equal; lia); try lia.

Lemma pushes_two b0 b1 ch :
  194 <= b0 <= 223 -> 128 <= b1 <= 191 -> ch = (b0 - 192) * 64 + (b1 - 128) -> pushes [] [b0; b1] = ([], [ch]).
Proof.
  intros. cbn [pushes]. rewrite push_wait by utf8_case. rewrite (push_done _ _ ch) by utf8_case. done.
Qed.

Lemma pushes_three b0 b1 b2 ch :
  224 <= b0 <= 239 -> 128 <= b1 <= 191 -> 128 <= b2 <= 191 ->
  ch = (b0 - 224) * 4096 + (b1 - 128) * 64 + (b2 - 128) -> 2048 <= ch -> is_scalar ch = true ->
  pushes [] [b0; b1; b2] = ([], [ch]).
Proof.
  unfold is_scalar, in_range. intros. cbn [pushes].
  rewrite push_wait by utf8_case. cbn [app]. rewrite push_wait by utf8_case. rewrite (push_done _ _ ch) by utf8_case. done.
Qed.

Lemma pushes_four b0 b1 b2 b3 ch :
  240 <= b0 <= 244 -> 128 <= b1 <= 191 -> 128 <= b2 <= 191 -> 128 <= b3 <= 191 ->
  ch = (b0 - 240) * 262144 + (b1 - 128) * 4096 + (b2 - 128) * 64 + (b3 - 128) -> 65536 <= ch < 1114112 ->
  pushes [] [b0; b1; b2; b3] = ([], [ch]).
Proof.
  intros. cbn [pushes]. rewrite push_wait by utf8_case. cbn [app]. rewrite push_wait by utf8_case. cbn [app].
  rewrite push_wait by utf8_case. rewrite (push_done _ _ ch) by utf8_case. done.
Qed.

(** The bytes of one character wait until the last, which completes it. *)
Lemma pushes_char ch : is_scalar ch = true -> pushes [] (encode_utf8 ch) = ([], [ch]).
Proof.
  intros Hs. assert (Hr : 0 <= ch < 1114112) by (unfold is_scalar, in_range in Hs; lia). unfold encode_utf8.
  destruct (ch <? 128) eqn:E1; [|destruct (ch <? 2048) eqn:E2; [|destruct (ch <? 65536) eqn:E3]].
  - cbn [pushes]. unfold utf8_push. rewrite high_bit, E1 by lia. done.
  - apply pushes_two; Z.to_euclidean_division_equations; lia.
  - apply pushes_three; try done; Z.to_euclidean_division_equations; lia.
  - apply pushes_four; Z.to_euclidean_division_equations; lia.
Qed.

Lemma pushes_text cs : Forall (fun ch => is_scalar ch = true) cs -> pushes [] (concat (encode_utf8 <$> cs)) = ([], cs).
Proof.
  induction 1 as [|ch cs Hc _ IH]; [done|]. rewrite fmap_cons. cbn [concat]. by rewrite pushes_app, pushes_char, IH.
Qed.

(** *)
Theorem utf8_text_shown cs c :
  Forall (fun ch => is_scalar ch = true) cs -> tx_utf8 (cv c) = [] ->
  cv_bytes (concat (encode_utf8 <$> cs)) c = fold_left (fun c ch => cv_char ch c) cs c.
Proof.
  intros Hs Hc. rewrite cv_bytes_pushes, Hc, pushes_text by done.
  assert (H : forall c, tx_utf8 (cv c) = [] -> hold [] c = c) by (intros [[] ?]; unfold hold; cbn; by intros ->).
  cut (forall c, hold [] c = c -> hold [] (fold_left (fun c ch => cv_char ch c) cs c) = fold_left (fun c ch => cv_char ch c) cs c);
    [by auto|].
  clear. induction cs as [|ch cs IH]; intros c Hc; [done|]. apply IH. by rewrite <- cv_char_hold, Hc.
Qed.

Lemma utf8_text_shown_witness :
  cv_bytes [0xE2; 0x94; 0x80; 0x61] (blank_canvas 32 32) = cv_char 0x61 (cv_char 0x2500 (blank_canvas 32 32)).
Proof. by apply (utf8_text_shown [0x2500; 0x61]); [repeat constructor|]. Defined.

(** A byte no UTF-8 text holds takes the three bytes after it with it, a newline
    among them, and all four show as one question mark. *)
Theorem invalid_byte_swallows_text : pushes [] (0xFF :: as_bytes "a" ++ 10 :: as_bytes "bc") = ([], [63; 99]).
Proof. vm_compute. reflexivity. Qed.

(** A character the font does not have moves the cursor on and leaves the cell
    showing what it showed before. *)
Theorem missing_glyph_keeps_cell c :
  (tx_x (cv c) < tx_w (cv c) / 8)%nat ->
  cv_char 0xE9 c = cv_cursor (S (tx_x (cv c))) (tx_y (cv c)) c.
Proof.
  intros Hx. unfold cv_char. cbn -[cv_glyph cv_cursor Nat.div].
  replace (tx_w (cv c) / 8 <=? tx_x (cv c))%nat with false by lia.
  unfold cv_glyph. replace (get_glyph 0xE9) with (@None (list Z)) by (vm_compute; reflexivity). by destruct (tx_rev (cv c)).
Qed.

(** A palette index above 255 is cut to eight bits, not refused: 300 selects 44. *)
Theorem palette_index_wraps st :
  sgr "38;5;300" st = sgr "38;5;44" st.
Proof. vm_compute. reflexivity. Qed.
