(* ===== verification/UserText.v ===== *)
(** * Strings of the user programs

    What twinit, twinitctl and twilogd use of Rust's [str].  A [str] is the list of its
    characters and a [char] its code point; the bytes of a [str] are those of
    [encode_utf8].  The delimiters of the programs are ASCII, so that splitting at a
    byte offset is splitting between characters. *)

From Stdlib Require Import ZifyBool.
From S2P Require Import Prelude Text Utf.

Abbreviation str := (list Z).

(** A literal of the source, which is ASCII. *)
Definition lit (s : string) : str := as_bytes s.
Definition encode (s : str) : list Z := concat (encode_utf8 <$> s).

#[export] Instance str_eq_dec : EqDecision str := list_eq_dec.
Definition str_eqb (a b : str) : bool := bool_decide (a = b).
Definition mem (c : Z) (l : list Z) : bool := existsb (Z.eqb c) l.

(** ** Classes of characters *)

(** [char::is_whitespace], the Unicode property White_Space. *)
Definition is_whitespace (c : Z) : bool :=
  in_range 9 13 c || in_range 0x2000 0x200A c ||
  mem c [0x20; 0x85; 0xA0; 0x1680; 0x2028; 0x2029; 0x202F; 0x205F; 0x3000].

(** [char::is_control], the category Cc. *)
Definition is_control_char (c : Z) : bool := in_range 0 0x1F c || in_range 0x7F 0x9F c.
Definition is_ascii_whitespace (c : Z) : bool := mem c [9; 10; 12; 13; 32].
Definition to_upper (c : Z) : Z := if in_range 97 122 c then c - 32 else c.
Definition eq_ignore_ascii_case (a b : str) : bool := str_eqb (to_upper <$> a) (to_upper <$> b).

(** ** Trimming *)

Fixpoint trim_start (p : Z -> bool) (l : str) : str :=
  match l with [] => [] | c :: l' => if p c then trim_start p l' else l end.
Definition trim_end (p : Z -> bool) (l : str) : str := reverse (trim_start p (reverse l)).
Definition trim_both (p : Z -> bool) (l : str) : str := trim_end p (trim_start p l).
Definition trim (l : str) : str := trim_both is_whitespace l.

(** ** Ends and pieces *)

Definition first_is (c : Z) (l : str) : bool := match l with x :: _ => x =? c | [] => false end.
Definition last_is (c : Z) (l : str) : bool := first_is c (reverse l).

(** [value[1..value.len() - 1]] of a value between two ASCII delimiters. *)
Definition inner (l : str) : str := match l with [] => [] | _ :: l => take (length l - 1) l end.

Fixpoint strip (prefix l : str) : option str :=
  match prefix, l with
  | [], _ => Some l
  | p :: prefix, c :: l => if p =? c then strip prefix l else None
  | _ :: _, [] => None
  end.
Definition begins (prefix l : str) : bool := match strip prefix l with Some _ => true | None => false end.

Fixpoint split_once (c : Z) (l : str) : option (str * str) :=
  match l with
  | [] => None
  | x :: l => if x =? c then Some ([], l) else
              match split_once c l with Some (a, b) => Some (x :: a, b) | None => None end
  end.

(** [split]: [n] delimiters make [n + 1] pieces. *)
Fixpoint pieces (c : Z) (l : str) : list str :=
  match l with
  | [] => [[]]
  | x :: l => if x =? c then [] :: pieces c l else
              match pieces c l with p :: ps => (x :: p) :: ps | [] => [[x]] end
  end.

(** [split_whitespace]: the pieces that are not empty. *)
Fixpoint words_from (cur : str) (l : str) : list str :=
  let flush := match cur with [] => [] | _ => [reverse cur] end in
  match l with
  | [] => flush
  | c :: l => if is_whitespace c then flush ++ words_from [] l else words_from (c :: cur) l
  end.
Definition words (l : str) : list str := words_from [] l.

(** [lines]: a line ends with a newline, which a carriage return may precede; nothing
    after the last newline is no line. *)
Definition drop_cr (l : str) : str := if last_is 13 l then take (length l - 1) l else l.
Fixpoint lines_from (cur : str) (l : str) : list str :=
  match l with
  | [] => match cur with [] => [] | _ => [reverse cur] end
  | c :: l => if c =? 10 then drop_cr (reverse cur) :: lines_from [] l else lines_from (c :: cur) l
  end.
Definition lines (l : str) : list str := lines_from [] l.

(** [find] of a string: what comes before and after its first occurrence. *)
Fixpoint find_str (pat l : str) : option (str * str) :=
  match strip pat l with
  | Some rest => Some ([], rest)
  | None => match l with
            | [] => None
            | c :: l => match find_str pat l with Some (a, b) => Some (c :: a, b) | None => None end
            end
  end.

(** [replace] of some characters by a space. *)
Definition blank_out (cs : list Z) (l : str) : str := (fun c => if mem c cs then 32 else c) <$> l.

(** ** Numbers *)

Fixpoint digits_of (fuel : nat) (n : Z) : str :=
  match fuel with
  | O => []
  | S fuel => (if n <? 10 then [] else digits_of fuel (n / 10)) ++ [48 + n mod 10]
  end.

(** [to_string] of a 64-bit integer: at most twenty digits. *)
Definition decimal (n : Z) : str := if n <? 0 then 45 :: digits_of 20 (- n) else digits_of 20 n.

Fixpoint u32_digits (l : str) (acc : Z) : option Z :=
  match l with
  | [] => Some acc
  | c :: l => if in_range 48 57 c then
                let v := acc * 10 + (c - 48) in if v <=? U32_MAX then u32_digits l v else None
              else None
  end.

(** [parse::<u32>]: an optional plus sign, then digits. *)
Definition parse_u32 (l : str) : option Z :=
  let l := if first_is 43 l then tail l else l in
  match l with [] => None | _ => u32_digits l 0 end.

(** ** Lemmas *)

Abbreviation blank := (Forall (fun c => is_whitespace c = true)).

Lemma trim_start_blank p ws l : Forall (fun c => p c = true) ws -> trim_start p (ws ++ l) = trim_start p l.
Proof. induction 1 as [|c ws Hc _ IH]; [done|]. cbn. by rewrite Hc. Qed.

Lemma trim_end_blank p ws l : Forall (fun c => p c = true) ws -> trim_end p (l ++ ws) = trim_end p l.
Proof. intros H. unfold trim_end. rewrite reverse_app, trim_start_blank; [done|]. by apply Forall_reverse. Qed.

Lemma trim_start_all p ws : Forall (fun c => p c = true) ws -> trim_start p ws = [].
Proof. intros H. rewrite <- (app_nil_r ws). by rewrite trim_start_blank. Qed.

(** A text that [trim] leaves as it is, and that is not empty. *)
Definition solid (l : str) : Prop :=
  l <> [] /\ trim_start is_whitespace l = l /\ trim_start is_whitespace (reverse l) = reverse l.

Lemma trim_start_head p c l : trim_start p (c :: l) = c :: l -> p c = false.
Proof.
  cbn. destruct (p c); [|done]. intros H. exfalso.
  assert (Hl : forall l, (length (trim_start p l) <= length l)%nat) by (induction l0 as [|x l0 IH]; cbn; [done|case_match; cbn; lia]).
  specialize (Hl l). rewrite H in Hl. cbn in Hl. lia.
Qed.

Lemma trim_start_app_solid p a r : a <> [] -> trim_start p a = a -> trim_start p (a ++ r) = a ++ r.
Proof. destruct a as [|c a]; [done|]. intros _ H. apply trim_start_head in H. cbn. by rewrite H. Qed.

Lemma solid_app a m b : solid a -> solid b -> solid (a ++ m ++ b).
Proof.
  intros (Ha & Ha1 & _) (Hb & _ & Hb2). split_and!.
  - by destruct a.
  - by apply trim_start_app_solid.
  - rewrite !reverse_app, <- app_assoc. apply trim_start_app_solid; [|done]. intros H. apply Hb. by rewrite <- (reverse_involutive b), H.
Qed.

Lemma trim_solid l : solid l -> trim l = l.
Proof. intros (_ & H1 & H2). unfold trim, trim_both, trim_end. by rewrite H1, H2, reverse_involutive. Qed.

Lemma trim_padded a l b : blank a -> solid l -> blank b -> trim (a ++ l ++ b) = l.
Proof.
  intros Ha Hl Hb. unfold trim, trim_both. rewrite trim_start_blank by done.
  rewrite trim_start_app_solid by apply Hl. rewrite trim_end_blank by done.
  destruct Hl as (_ & H1 & H2). unfold trim_end. by rewrite H2, reverse_involutive.
Qed.

Lemma trim_blank a : blank a -> trim a = [].
Proof. intros H. unfold trim, trim_both. by rewrite trim_start_all. Qed.

Lemma solid_ends c l d : is_whitespace c = false -> is_whitespace d = false -> solid (c :: l ++ [d]).
Proof.
  intros Hc Hd. split_and!; [done|cbn; by rewrite Hc|]. rewrite reverse_cons, reverse_app. cbn. by rewrite Hd.
Qed.

Lemma solid_all l : l <> [] -> Forall (fun c => is_whitespace c = false) l -> solid l.
Proof.
  intros Hl H. assert (Hs : forall l, Forall (fun c => is_whitespace c = false) l -> trim_start is_whitespace l = l).
  { intros k Hk. destruct Hk as [|c k Hc _]; [done|]. cbn. by rewrite Hc. }
  split_and!; [done|by apply Hs|]. apply Hs. by apply Forall_reverse.
Qed.

Lemma trim_start_keep p a d b : p d = false -> trim_start p (a ++ d :: b) = trim_start p a ++ d :: b.
Proof. intros H. induction a as [|c a IH]; cbn; [by rewrite H|]. by destruct (p c). Qed.

Lemma trim_end_keep p a d b : p d = false -> trim_end p (a ++ d :: b) = a ++ d :: trim_end p b.
Proof.
  intros H. unfold trim_end. rewrite reverse_app, reverse_cons, <- app_assoc. cbn [app]. rewrite trim_start_keep by done.
  rewrite reverse_app, reverse_cons, reverse_involutive, <- app_assoc. done.
Qed.

Lemma strip_app a b : strip a (a ++ b) = Some b.
Proof. induction a as [|c a IH]; [done|]. cbn. by rewrite Z.eqb_refl. Qed.

Lemma first_is_app c a b : a <> [] -> first_is c (a ++ b) = first_is c a.
Proof. by destruct a. Qed.
Lemma last_is_snoc c l d : last_is c (l ++ [d]) = (d =? c).
Proof. unfold last_is. by rewrite reverse_snoc. Qed.

Lemma inner_between c l d : inner (c :: l ++ [d]) = l.
Proof. cbn. rewrite length_app, Nat.add_sub. apply take_app_length. Qed.

Lemma split_once_at c a b : Forall (fun x => x <> c) a -> split_once c (a ++ c :: b) = Some (a, b).
Proof.
  induction 1 as [|x a Hx _ IH]; cbn; [by rewrite Z.eqb_refl|]. by rewrite (proj2 (Z.eqb_neq x c)), IH.
Qed.

Lemma pieces_at c a b : Forall (fun x => x <> c) a -> pieces c (a ++ c :: b) = a :: pieces c b.
Proof. induction 1 as [|x a Hx _ IH]; cbn; [by rewrite Z.eqb_refl|]. by rewrite (proj2 (Z.eqb_neq x c)), IH. Qed.
Lemma pieces_none c a : Forall (fun x => x <> c) a -> pieces c a = [a].
Proof. induction 1 as [|x a Hx _ IH]; cbn; [done|]. by rewrite (proj2 (Z.eqb_neq x c)), IH. Qed.

(** Lines written out are read back. *)
Lemma lines_from_one cur l r : Forall (fun c => c <> 10 /\ c <> 13) (reverse cur ++ l) ->
  lines_from cur (l ++ 10 :: r) = (reverse cur ++ l) :: lines_from [] r.
Proof.
  revert cur. induction l as [|c l IH]; intros cur H; cbn [lines_from app].
  - rewrite Z.eqb_refl, app_nil_r. f_equal. rewrite app_nil_r in H. unfold drop_cr, last_is. rewrite reverse_involutive.
    destruct cur as [|x cur]; [done|]. cbn. rewrite reverse_cons in *. apply Forall_app in H as [_ H].
    inversion H as [|? ? [_ H1] _]; subst. by rewrite (proj2 (Z.eqb_neq x 13)).
  - assert (Hc : c <> 10) by (apply Forall_app in H as [_ H]; by inversion H as [|? ? [] _]).
    rewrite (proj2 (Z.eqb_neq c 10)) by done. rewrite IH by (rewrite reverse_cons, <- app_assoc; done).
    by rewrite reverse_cons, <- app_assoc.
Qed.

Lemma lines_of_texts ls : Forall (Forall (fun c => c <> 10 /\ c <> 13)) ls -> lines (concat ((fun l => l ++ [10]) <$> ls)) = ls.
Proof.
  induction 1 as [|l ls Hl _ IH]; [done|]. rewrite fmap_cons. cbn [concat]. rewrite <- app_assoc. unfold lines in *.
  cbn [app]. rewrite (lines_from_one [] l) by done. by rewrite IH.
Qed.

(** Numbers written out are read back. *)
Lemma digits_of_range fuel n : 0 <= n -> Forall (fun c => in_range 48 57 c = true) (digits_of fuel n).
Proof.
  revert n. induction fuel as [|fuel IH]; intros n Hn; cbn; [constructor|]. apply Forall_app. split.
  - case_match; [constructor|]. apply IH. apply Z.div_pos; lia.
  - constructor; [|constructor]. unfold in_range. pose proof (Z.mod_pos_bound n 10). lia.
Qed.

Lemma u32_digits_app l d acc v : u32_digits l acc = Some v -> in_range 48 57 d = true -> v * 10 + (d - 48) <= U32_MAX ->
  u32_digits (l ++ [d]) acc = Some (v * 10 + (d - 48)).
Proof.
  revert acc. induction l as [|c l IH]; intros acc H Hd Hv; cbn in *.
  - injection H as <-. rewrite Hd. by rewrite (proj2 (Z.leb_le _ _) Hv).
  - case_match; [|done]. case_match; [|done]. by apply IH.
Qed.

Lemma u32_digits_decimal fuel n : 0 <= n < 10 ^ Z.of_nat fuel -> n <= U32_MAX -> (0 < fuel)%nat -> u32_digits (digits_of fuel n) 0 = Some n.
Proof.
  revert n. induction fuel as [|fuel IH]; intros n Hn Hm Hf; [lia|]. cbn [digits_of].
  pose proof (Z.mod_pos_bound n 10). pose proof (Z.div_mod n 10). destruct (n <? 10) eqn:E.
  - cbn [app u32_digits]. unfold in_range. replace (_ && _) with true by lia. rewrite Z.mod_small by lia.
    replace (0 * 10 + (48 + n - 48)) with n by lia. by rewrite (proj2 (Z.leb_le _ _) Hm).
  - assert (Hd : 0 <= n / 10 < 10 ^ Z.of_nat fuel).
    { split; [apply Z.div_pos; lia|]. apply Z.div_lt_upper_bound; [lia|]. rewrite Nat2Z.inj_succ, Z.pow_succ_r in Hn by lia. lia. }
    destruct fuel as [|fuel]; [cbn in Hd; lia|].
    rewrite (u32_digits_app _ _ 0 (n / 10)); [f_equal; lia|apply IH; lia|unfold in_range; lia|lia].
Qed.

Lemma decimal_shape n : 0 <= n -> exists c l, decimal n = c :: l /\ in_range 48 57 c = true.
Proof.
  intros Hn. unfold decimal. rewrite (proj2 (Z.ltb_ge n 0)) by done.
  pose proof (digits_of_range 20 n Hn) as H. destruct (digits_of 20 n) as [|c l] eqn:E.
  - apply (f_equal length) in E. cbn [digits_of] in E. rewrite length_app in E. cbn in E. lia.
  - exists c, l. split; [done|]. by inversion H.
Qed.

Lemma parse_u32_decimal n : 0 <= n <= U32_MAX -> parse_u32 (decimal n) = Some n.
Proof.
  intros Hn. destruct (decimal_shape n) as (c & l & E & Hc); [lia|]. unfold parse_u32. rewrite E. cbn [first_is tail].
  replace (c =? 43) with false by (unfold in_range in Hc; lia). rewrite <- E. unfold decimal.
  rewrite (proj2 (Z.ltb_ge n 0)) by lia. apply u32_digits_decimal; unfold U32_MAX in *; lia.
Qed.
