(* ===== verification/TwinitConfig.v ===== *)
(** * Service files (src/userspace/apps/twinit/src/config.rs and main.rs)

    The small TOML subset of /etc/twinit/services: its lines, strings and arrays, the
    fields of a service, and the services of a boot.  An error is a constructor with
    what the message names. *)

From Stdlib Require Import ZifyBool.
From S2P Require Import Prelude Text Utf UserText.

Inductive RestartPolicy := Never | OnFailure | Always.
Inductive ServiceType := Foreground.
Inductive OutputMode := Console | Null | Log.

Record TxpcPolicy := mkPolicy { allow_all : bool; allow_uids : list Z; require_cap : list str }.
Record TxpcClient := mkClient { capabilities : list str }.
Record TxpcConfig := mkTxpc {
  txpc_name : str; on_demand : bool; policy : option TxpcPolicy; client : option TxpcClient;
}.
Record ServiceConfig := mkService {
  name : str; description : str; exec : str; args : list str; enabled : bool; runlevel : str;
  restart : RestartPolicy; service_type : ServiceType; out_mode : OutputMode; err_mode : OutputMode;
  txpc : option TxpcConfig;
}.

#[export] Instance OutputMode_eq_dec : EqDecision OutputMode.
Proof. solve_decision. Defined.

Definition policy_str (p : RestartPolicy) : str :=
  match p with Never => lit "never" | OnFailure => lit "on-failure" | Always => lit "always" end.

Inductive ConfigError :=
  | ExpectedKeyValue (line : nat) | UnsupportedField (line : nat) (key : str) | DuplicateField (line : nat) (key : str)
  | MissingField (key : str) | RelativeExec | UnsupportedRunlevel (v : str) | UnsupportedRestart (v : str)
  | UnsupportedType (v : str) | UnsupportedOutput (v : str)
  | ExpectedString (v : str) | UnsupportedEscape (c : Z) | UnterminatedEscape
  | ExpectedStrings (v : str) | UnterminatedQuote | ExpectedInts (v : str) | InvalidInteger (v : str) | ExpectedBool (v : str).

Abbreviation R := (res ConfigError).
Abbreviation Fields := (gmap str str).

Definition bindR {A B} (r : R A) (k : A -> R B) : R B :=
  match r with Ok a => k a | Err e => Err e | Panic => Panic end.
Declare Scope result_scope.
Notation "'let?' x := r 'in' k" := (bindR r (fun x => k)) (at level 10, x name, r at level 200, k at level 200) : result_scope.
#[local] Open Scope result_scope.

(** ** Values *)

(** The loop of [parse_string]. *)
Fixpoint unescape (escaped : bool) (l : str) : R str :=
  match l with
  | [] => if escaped then Err UnterminatedEscape else Ok []
  | c :: l =>
      if escaped then
        match (if c =? 110 then Some 10 else if c =? 114 then Some 13 else if c =? 116 then Some 9
               else if c =? 92 then Some 92 else if c =? 34 then Some 34 else None) with
        | None => Err (UnsupportedEscape c)
        | Some x => let? r := unescape false l in Ok (x :: r)
        end
      else if c =? 92 then unescape true l
      else let? r := unescape false l in Ok (c :: r)
  end.

Definition parse_string (value : str) : R str :=
  if (length value <? 2)%nat || negb (first_is 34 value) || negb (last_is 34 value) then Err (ExpectedString value)
  else unescape false (inner value).

(** The loop of [parse_string_array]: [cur] is [body[start..index]], reversed. *)
Fixpoint array_items (quoted escaped : bool) (cur : str) (l : str) : R (list str) :=
  match l with
  | [] => if quoted then Err UnterminatedQuote else let? v := parse_string (trim (reverse cur)) in Ok [v]
  | c :: l =>
      if escaped then array_items quoted false (c :: cur) l
      else if (c =? 92) && quoted then array_items quoted true (c :: cur) l
      else if c =? 34 then array_items (negb quoted) false (c :: cur) l
      else if (c =? 44) && negb quoted then
        let? v := parse_string (trim (reverse cur)) in let? vs := array_items quoted false [] l in Ok (v :: vs)
      else array_items quoted false (c :: cur) l
  end.

Definition array_body (error : str -> ConfigError) (value : str) : R str :=
  let value := trim value in
  if negb (first_is 91 value) || negb (last_is 93 value) then Err (error value) else Ok (trim (inner value)).

Definition parse_string_array (value : str) : R (list str) :=
  let? body := array_body ExpectedStrings value in
  match body with [] => Ok [] | _ => array_items false false [] body end.

Fixpoint int_items (parts : list str) : R (list Z) :=
  match parts with
  | [] => Ok []
  | p :: parts =>
      match trim p with
      | [] => int_items parts
      | part => match parse_u32 part with
                | None => Err (InvalidInteger part)
                | Some n => let? ns := int_items parts in Ok (n :: ns)
                end
      end
  end.

Definition parse_int_array (value : str) : R (list Z) :=
  let? body := array_body ExpectedInts value in
  match body with [] => Ok [] | _ => int_items (pieces 44 body) end.

Definition parse_bool (value : str) : R bool :=
  if str_eqb value (lit "true") then Ok true else if str_eqb value (lit "false") then Ok false else Err (ExpectedBool value).

Definition parse_output_mode (value : option str) : R OutputMode :=
  let v := default (lit "console") value in
  if str_eqb v (lit "console") then Ok Console
  else if str_eqb v (lit "null") then Ok Null
  else if str_eqb v (lit "log") then Ok Log
  else Err (UnsupportedOutput v).

(** ** Lines *)

Fixpoint strip_comment_from (quoted escaped : bool) (l : str) : str :=
  match l with
  | [] => []
  | c :: l =>
      if escaped then c :: strip_comment_from quoted false l
      else if (c =? 92) && quoted then c :: strip_comment_from quoted true l
      else if c =? 34 then c :: strip_comment_from (negb quoted) false l
      else if (c =? 35) && negb quoted then []
      else c :: strip_comment_from quoted false l
  end.
Definition strip_comment (line : str) : str := strip_comment_from false false line.

Definition top_level : list str :=
  lit <$> ["name"; "description"; "exec"; "args"; "enabled"; "runlevel"; "restart"; "type"; "stdout"; "stderr"]%string.

(** The first loop of [parse_service_config]; [index] counts the lines from 0. *)
Fixpoint read_lines (ls : list str) (index : nat) (section : str) (fields : Fields) : R Fields :=
  match ls with
  | [] => Ok fields
  | original :: ls =>
      let line := trim (strip_comment original) in
      if bool_decide (line = []) then read_lines ls (S index) section fields
      else if first_is 91 line && last_is 93 line then read_lines ls (S index) (trim (inner line)) fields
      else
        match split_once 61 line with
        | None => Err (ExpectedKeyValue (S index))
        | Some (key, value) =>
            let key := trim key in
            let full_key := if bool_decide (section = []) then key else section ++ [46] ++ key in
            if bool_decide (section = []) && negb (bool_decide (key ∈ top_level)) then Err (UnsupportedField (S index) key)
            else match fields !! full_key with
                 | Some _ => Err (DuplicateField (S index) full_key)
                 | None => read_lines ls (S index) section (<[full_key := trim value]> fields)
                 end
        end
  end.

(** ** Fields *)

Definition optional_string (fields : Fields) (key : string) : R (option str) :=
  match fields !! lit key with Some value => let? v := parse_string value in Ok (Some v) | None => Ok None end.

Definition required_string (fields : Fields) (key : string) : R str :=
  let? v := optional_string fields key in match v with Some v => Ok v | None => Err (MissingField (lit key)) end.

(** [match fields.get(key) { Some(value) => parse(value)?, None => absent }]. *)
Definition field_or {A : Type} (fields : Fields) (key : string) (parse : str -> R A) (absent : A) : R A :=
  match fields !! lit key with Some value => parse value | None => Ok absent end.

Definition any_key (fields : Fields) (prefix : string) : bool :=
  existsb (fun kv => begins (lit prefix) kv.1) (map_to_list fields).

Definition txpc_policy (fields : Fields) : R (option TxpcPolicy) :=
  if any_key fields "txpc.policy." then
    let? all := field_or fields "txpc.policy.allow_all" parse_bool false in
    let? uids := field_or fields "txpc.policy.allow_uids" parse_int_array [] in
    let? caps := field_or fields "txpc.policy.require_cap" parse_string_array [] in
    Ok (Some (mkPolicy all uids caps))
  else Ok None.

Definition txpc_client (fields : Fields) : R (option TxpcClient) :=
  if any_key fields "txpc.client." then
    let? caps := field_or fields "txpc.client.capabilities" parse_string_array [] in Ok (Some (mkClient caps))
  else Ok None.

Definition txpc_config (fields : Fields) : R (option TxpcConfig) :=
  let? txpc_name := optional_string fields "txpc.name" in
  match txpc_name with
  | None => Ok None
  | Some n =>
      let? demand := field_or fields "txpc.on_demand" parse_bool false in
      let? p := txpc_policy fields in let? c := txpc_client fields in Ok (Some (mkTxpc n demand p c))
  end.

Definition runlevels : list str := lit <$> ["boot"; "default"; "single"; "shutdown"]%string.
Definition DEFAULT_RUNLEVEL : str := lit "default".

Definition parse_restart (v : str) : R RestartPolicy :=
  if str_eqb v (lit "never") then Ok Never else if str_eqb v (lit "on-failure") then Ok OnFailure
  else if str_eqb v (lit "always") then Ok Always else Err (UnsupportedRestart v).

Definition parse_type (v : str) : R ServiceType :=
  if str_eqb v (lit "foreground") then Ok Foreground else Err (UnsupportedType v).

(** The rest of [parse_service_config]. *)
Definition service_of (fields : Fields) : R ServiceConfig :=
  let? name := required_string fields "name" in
  let? exec := required_string fields "exec" in
  if negb (first_is 47 exec) then Err RelativeExec
  else
    let? description := optional_string fields "description" in
    let? args := field_or fields "args" parse_string_array [] in
    let? enabled := field_or fields "enabled" parse_bool true in
    let? level := optional_string fields "runlevel" in
    let level := default DEFAULT_RUNLEVEL level in
    if negb (bool_decide (level ∈ runlevels)) then Err (UnsupportedRunlevel level)
    else
      let? restart := optional_string fields "restart" in
      let? restart := parse_restart (default (lit "never") restart) in
      let? type := optional_string fields "type" in
      let? type := parse_type (default (lit "foreground") type) in
      let? stdout := optional_string fields "stdout" in
      let? stdout := parse_output_mode stdout in
      let? stderr := optional_string fields "stderr" in
      let? stderr := parse_output_mode stderr in
      let? txpc := txpc_config fields in
      Ok (mkService name (default [] description) exec args enabled level restart type stdout stderr txpc).

Definition parse_service_config (contents : str) : R ServiceConfig :=
  let? fields := read_lines (lines contents) 0 [] ∅ in service_of fields.

(** ** The services of a boot *)

(** A directory entry: its name, and what [read_to_string] gives. *)
Record DirEntry := mkEntry { file_name : list Z; contents : option str }.

(** [path.extension() == "toml"]: the last dot is not the first byte. *)
Definition is_toml (e : DirEntry) : bool :=
  let n := length (file_name e) in
  (5 <? n)%nat && bool_decide (drop (n - 5) (file_name e) = lit ".toml").

(** Paths of one directory are ordered by the bytes of their names. *)
Fixpoint name_leb (a b : list Z) : bool :=
  match a, b with
  | [], _ => true
  | _ :: _, [] => false
  | x :: a, y :: b => (x <? y) || ((x =? y) && name_leb a b)
  end.
Fixpoint place_entry (e : DirEntry) (l : list DirEntry) : list DirEntry :=
  match l with [] => [e] | x :: l' => if name_leb (file_name e) (file_name x) then e :: l else x :: place_entry e l' end.
Definition sort_entries (l : list DirEntry) : list DirEntry := foldr place_entry [] l.

Definition is_on_demand (c : ServiceConfig) : bool := match txpc c with Some t => on_demand t | None => false end.

(** The arms of the [match] that push the configuration. *)
Definition wanted (level : str) (c : ServiceConfig) : bool :=
  str_eqb (runlevel c) level && (enabled c || is_on_demand c).

Definition load_one (level : str) (e : DirEntry) : list ServiceConfig :=
  match contents e with
  | None => []
  | Some text => match parse_service_config text with Ok c => if wanted level c then [c] else [] | _ => [] end
  end.

(** [None] when the directory cannot be read. *)
Definition load_service_configs (directory : option (list DirEntry)) (level : str) : list ServiceConfig :=
  match directory with
  | None => []
  | Some es => concat (load_one level <$> sort_entries (List.filter is_toml es))
  end.

Definition fallback_shell (level : str) : ServiceConfig :=
  mkService (lit "fallback-shell") (lit "Built-in interactive fallback shell") (lit "/bin/oksh") [] true level
    Always Foreground Console Console None.

(** [sort_by_key(|config| config.name != "twilogd")], a stable sort. *)
Definition logger_first (cs : list ServiceConfig) : list ServiceConfig :=
  let logger c := str_eqb (name c) (lit "twilogd") in
  List.filter logger cs ++ List.filter (fun c => negb (logger c)) cs.

Definition boot_services (directory : option (list DirEntry)) (level : str) : list ServiceConfig :=
  match logger_first (load_service_configs directory level) with [] => [fallback_shell level] | cs => cs end.

(** The services [main] starts, in order. *)
Definition boot_started (directory : option (list DirEntry)) (level : str) : list ServiceConfig :=
  List.filter (fun c => negb (is_on_demand c)) (boot_services directory level).

(** * What a service file means

    The files a careful author writes: fields and sections in any order, with any
    blanks, empty lines and comments.  They are read as the service they describe. *)

#[local] Open Scope result_scope.

(** ** Values written out *)

Definition escape (c : Z) : str :=
  if c =? 10 then lit "\n" else if c =? 13 then lit "\r" else if c =? 9 then lit "\t"
  else if c =? 92 then lit "\\" else if c =? 34 then [92; 34] else [c].
Definition escapes (s : str) : str := concat (escape <$> s).
Definition quote (s : str) : str := 34 :: escapes s ++ [34].

Fixpoint commas (l : list str) : str :=
  match l with [] => [] | [x] => x | x :: l => x ++ lit ", " ++ commas l end.
Definition bracket (l : list str) : str := 91 :: commas l ++ [93].
Definition bool_str (b : bool) : str := if b then lit "true" else lit "false".

Lemma unescape_escapes s : unescape false (escapes s) = Ok s.
Proof.
  induction s as [|c s IH]; [done|]. unfold escapes in *. rewrite fmap_cons. cbn [concat]. unfold escape at 1.
  repeat (case_match; [cbn; rewrite IH; cbn; f_equal; f_equal; lia|]). cbn.
  replace (c =? 92) with false by lia. by rewrite IH.
Qed.

Lemma parse_string_quote s : parse_string (quote s) = Ok s.
Proof.
  unfold parse_string, quote. rewrite (last_is_snoc 34 (34 :: escapes s) 34 : last_is 34 (34 :: escapes s ++ [34]) = _).
  rewrite inner_between, unescape_escapes. cbn [first_is length]. rewrite length_app, Z.eqb_refl. cbn [length].
  by replace (S (length (escapes s) + 1) <? 2)%nat with false by lia.
Qed.

(** Text in which no comment starts, and after which no string is open. *)
Definition transparent (a : str) : Prop :=
  forall r, strip_comment_from false false (a ++ r) = a ++ strip_comment_from false false r.

Lemma transparent_app a b : transparent a -> transparent b -> transparent (a ++ b).
Proof. intros Ha Hb r. by rewrite <- !app_assoc, Ha, Hb. Qed.

Lemma transparent_plain a : Forall (fun c => c <> 34 /\ c <> 35) a -> transparent a.
Proof.
  induction 1 as [|c a [H1 H2] _ IH]; intros r; [done|]. cbn [app strip_comment_from].
  rewrite andb_false_r, (proj2 (Z.eqb_neq _ _) H1), (proj2 (Z.eqb_neq _ _) H2). cbn [andb]. by rewrite IH.
Qed.

Lemma strip_escape c r : strip_comment_from true false (escape c ++ r) = escape c ++ strip_comment_from true false r.
Proof.
  unfold escape. destruct (c =? 10); [done|]. destruct (c =? 13); [done|]. destruct (c =? 9); [done|].
  destruct (c =? 92) eqn:E1; [done|]. destruct (c =? 34) eqn:E2; [done|]. cbn. by rewrite E1, E2, andb_false_r.
Qed.

Lemma strip_escapes s r : strip_comment_from true false (escapes s ++ r) = escapes s ++ strip_comment_from true false r.
Proof.
  induction s as [|c s IH]; [done|]. change (escapes (c :: s)) with (escape c ++ escapes s).
  by rewrite <- !app_assoc, strip_escape, IH.
Qed.

Lemma transparent_quote s : transparent (quote s).
Proof. intros r. unfold quote. cbn [app strip_comment_from]. rewrite <- !app_assoc. cbn. by rewrite strip_escapes. Qed.

(** ** Arrays *)

Lemma solid_quote s : solid (quote s).
Proof. by apply solid_ends. Qed.

Lemma items_escape c cur r : array_items true false cur (escape c ++ r) = array_items true false (reverse (escape c) ++ cur) r.
Proof.
  unfold escape. destruct (c =? 10); [done|]. destruct (c =? 13); [done|]. destruct (c =? 9); [done|].
  destruct (c =? 92) eqn:E1; [done|]. destruct (c =? 34) eqn:E2; [done|]. cbn. by rewrite E1, E2, andb_false_r.
Qed.

Lemma items_escapes s cur r : array_items true false cur (escapes s ++ r) = array_items true false (reverse (escapes s) ++ cur) r.
Proof.
  revert cur. induction s as [|c s IH]; intros cur; [done|]. change (escapes (c :: s)) with (escape c ++ escapes s).
  by rewrite <- app_assoc, items_escape, IH, reverse_app, <- app_assoc.
Qed.

Lemma items_quote s cur r : array_items false false cur (quote s ++ r) = array_items false false (reverse (quote s) ++ cur) r.
Proof.
  unfold quote. cbn [app array_items]. rewrite <- app_assoc. cbn -[escapes reverse]. rewrite items_escapes.
  cbn -[escapes reverse]. f_equal. rewrite reverse_cons, reverse_snoc. cbn [app]. by rewrite <- app_assoc.
Qed.

Lemma array_items_commas x l cur : blank (reverse cur) ->
  array_items false false cur (commas (quote <$> x :: l)) = Ok (x :: l).
Proof.
  assert (Hp : forall x cur, blank (reverse cur) -> parse_string (trim (reverse (reverse (quote x) ++ cur))) = Ok x).
  { intros y k Hk. rewrite reverse_app, reverse_involutive.
    rewrite <- (app_nil_r (quote y)), (trim_padded _ (quote y) []), parse_string_quote; auto using solid_quote. }
  revert x cur. induction l as [|y l IH]; intros x cur Hc.
  - cbn [fmap list_fmap commas]. rewrite <- (app_nil_r (quote x)), items_quote. cbn [array_items]. by rewrite Hp.
  - change (commas (quote <$> x :: y :: l)) with (quote x ++ lit ", " ++ commas (quote <$> y :: l)).
    assert (Hr : array_items false false [32] (commas (quote <$> y :: l)) = Ok (y :: l)) by (apply IH; by repeat constructor).
    revert Hr. generalize (commas (quote <$> y :: l)) as r. intros r Hr. rewrite items_quote.
    change (lit ", " ++ r) with (44 :: 32 :: r). cbn -[trim reverse]. rewrite Hp by done. cbn. by rewrite Hr.
Qed.

Lemma solid_commas x l : Forall solid (x :: l) -> solid (commas (x :: l)).
Proof.
  revert x. induction l as [|y l IH]; intros x H; inversion H as [|? ? Hx Hl]; subst; [done|].
  change (commas (x :: y :: l)) with (x ++ lit ", " ++ commas (y :: l)). apply solid_app; auto.
Qed.

Lemma array_body_bracket e l : Forall solid l -> array_body e (bracket l) = Ok (commas l).
Proof.
  intros H. unfold array_body. rewrite trim_solid by (by apply solid_ends). unfold bracket.
  rewrite (last_is_snoc 93 (91 :: commas l) 93 : last_is 93 (91 :: commas l ++ [93]) = _), inner_between. cbn [first_is].
  rewrite !Z.eqb_refl. cbn [negb orb]. destruct l as [|x l]; [done|]. by rewrite trim_solid by (by apply solid_commas).
Qed.

Lemma quotes_solid l : Forall solid (quote <$> l).
Proof. apply Forall_fmap, Forall_true. intros x. apply solid_quote. Qed.

Lemma parse_strings l : parse_string_array (bracket (quote <$> l)) = Ok l.
Proof.
  unfold parse_string_array. rewrite array_body_bracket by apply quotes_solid. cbn [bindR].
  destruct l as [|x l]; [done|]. destruct (commas (quote <$> x :: l)) as [|c r] eqn:E.
  - destruct (solid_commas (quote x) (fmap (M := list) quote l) (quotes_solid (x :: l))) as [H _]. by destruct H.
  - rewrite <- E. by rewrite array_items_commas.
Qed.

Lemma decimal_digits n : 0 <= n -> Forall (fun c => in_range 48 57 c = true) (decimal n).
Proof. intros Hn. unfold decimal. rewrite (proj2 (Z.ltb_ge n 0)) by done. by apply digits_of_range. Qed.

Lemma digit_classes c : in_range 48 57 c = true -> is_whitespace c = false /\ c <> 44 /\ c <> 34 /\ c <> 35 /\ c <> 10 /\ c <> 13.
Proof. unfold is_whitespace, in_range, mem. cbn [existsb]. lia. Qed.

Lemma solid_decimal n : 0 <= n -> solid (decimal n).
Proof.
  intros Hn. destruct (decimal_shape n Hn) as (c & l & E & _). apply solid_all; [by rewrite E|].
  eapply Forall_impl; [by apply decimal_digits|]. intros x Hx. by apply digit_classes.
Qed.

Abbreviation uids := (Forall (fun n => 0 <= n <= U32_MAX)).

Lemma int_items_commas n l pad : uids (n :: l) -> blank pad -> Forall (fun x => x <> 44) pad ->
  int_items (pieces 44 (pad ++ commas (decimal <$> n :: l))) = Ok (n :: l).
Proof.
  assert (Hone : forall n pad ps l, 0 <= n <= U32_MAX -> blank pad -> int_items ps = Ok l -> int_items ((pad ++ decimal n) :: ps) = Ok (n :: l)).
  { intros m p ps k Hm Hp Hk. cbn [int_items]. rewrite <- (app_nil_r (decimal m)), (trim_padded p (decimal m) []); [|done|apply solid_decimal; lia|done].
    pose proof (parse_u32_decimal m Hm) as Hq. destruct (decimal_shape m) as (c & r & E & _); [lia|].
    rewrite E in Hq |- *. by rewrite Hq, Hk. }
  assert (Hno : forall n, 0 <= n -> Forall (fun x => x <> 44) (decimal n)).
  { intros m Hm. eapply Forall_impl; [by apply decimal_digits|]. intros x Hx. by apply digit_classes. }
  revert n pad. induction l as [|m l IH]; intros n pad H Hb Hp; inversion H as [|? ? Hn Hl]; subst.
  - cbn [fmap list_fmap commas]. rewrite pieces_none; [by apply Hone|]. apply Forall_app. split; [done|]. apply Hno. lia.
  - change (commas (decimal <$> n :: m :: l)) with (decimal n ++ 44 :: ([32] ++ commas (decimal <$> m :: l))).
    rewrite app_assoc, pieces_at by (apply Forall_app; split; [done|apply Hno; lia]).
    apply Hone; [done|done|]. apply IH; [done|by repeat constructor|by repeat constructor].
Qed.

Lemma decimals_solid l : uids l -> Forall solid (decimal <$> l).
Proof. intros H. apply Forall_fmap. eapply Forall_impl; [exact H|]. intros n [Hn _]. by apply solid_decimal. Qed.

Lemma parse_ints l : uids l -> parse_int_array (bracket (decimal <$> l)) = Ok l.
Proof.
  intros H. unfold parse_int_array. rewrite array_body_bracket by (by apply decimals_solid). cbn [bindR].
  destruct l as [|n l]; [done|]. destruct (commas (decimal <$> n :: l)) as [|c r] eqn:E.
  - destruct (solid_commas (decimal n) (fmap (M := list) decimal l) (decimals_solid (n :: l) H)) as [Hs _]. by destruct Hs.
  - rewrite <- E. by apply (int_items_commas n l []).
Qed.

(** ** Lines written out *)

Abbreviation oneline := (Forall (fun c => c <> 10 /\ c <> 13)).
Abbreviation spaces := (Forall (fun c => c = 32 \/ c = 9)).

Record is_value (v : str) : Prop := mkValue { value_transparent : transparent v; value_solid : solid v; value_oneline : oneline v }.

(** A key or the name of a section. *)
Definition name_ok (s : str) : Prop :=
  solid s /\ first_is 91 s = false /\ Forall (fun c => c <> 34 /\ c <> 35 /\ c <> 61 /\ c <> 10 /\ c <> 13) s.

Inductive Item := IBlank | ISection (section : str) | IField (key value : str).
Definition item_ok (it : Item) : Prop :=
  match it with IBlank => True | ISection s => name_ok s | IField k v => name_ok k /\ is_value v end.

(** The blanks of a line, and its comment. *)
Record Layout := mkLayout { lead : str; mid : str; mid' : str; trail : str; comment : option str }.
Definition layout_ok (y : Layout) : Prop :=
  spaces (lead y) /\ spaces (mid y) /\ spaces (mid' y) /\ spaces (trail y) /\ oneline (default [] (comment y)).

Definition core (y : Layout) (it : Item) : str :=
  match it with
  | IBlank => []
  | ISection s => 91 :: (mid y ++ s ++ mid' y) ++ [93]
  | IField k v => k ++ (mid y ++ 61 :: mid' y) ++ v
  end.
Definition comment_text (y : Layout) : str := match comment y with Some c => 35 :: c | None => [] end.
Definition text_of (line : Layout * Item) : str :=
  lead line.1 ++ core line.1 line.2 ++ trail line.1 ++ comment_text line.1.
Definition document (ls : list (Layout * Item)) : str := concat ((fun t => t ++ [10]) <$> (text_of <$> ls)).

Definition line_ok (line : Layout * Item) : Prop := layout_ok line.1 /\ item_ok line.2.

Lemma spaces_blank s : spaces s -> blank s.
Proof. intros H. eapply Forall_impl; [exact H|]. by intros c [-> | ->]. Qed.
Lemma spaces_not (P : Z -> Prop) s : P 32 -> P 9 -> spaces s -> Forall P s.
Proof. intros H1 H2 H. eapply Forall_impl; [exact H|]. by intros c [-> | ->]. Qed.
Lemma spaces_transparent s : spaces s -> transparent s.
Proof. intros H. apply transparent_plain. by apply spaces_not. Qed.
Lemma name_transparent s : name_ok s -> transparent s.
Proof. intros (_ & _ & H). apply transparent_plain. eapply Forall_impl; [exact H|]. intros c Hc; cbn beta in Hc; tauto. Qed.

Lemma core_transparent y it : layout_ok y -> item_ok it -> transparent (core y it).
Proof.
  intros (_ & H1 & H2 & _) Hi. destruct it as [|s|k v]; [by intros r| |].
  - apply (transparent_app [91]); [apply transparent_plain; by repeat constructor|]. apply transparent_app; [|apply transparent_plain; by repeat constructor].
    apply transparent_app; [by apply spaces_transparent|]. apply transparent_app; [by apply name_transparent|by apply spaces_transparent].
  - destruct Hi as [Hk [Hv _ _]]. apply transparent_app; [by apply name_transparent|]. apply transparent_app; [|done].
    apply transparent_app; [by apply spaces_transparent|]. apply (transparent_app [61]); [apply transparent_plain; by repeat constructor|].
    by apply spaces_transparent.
Qed.

Lemma strip_text line : line_ok line -> strip_comment (text_of line) = lead line.1 ++ core line.1 line.2 ++ trail line.1.
Proof.
  destruct line as [y it]. intros [Hy Hi]. cbn [fst snd] in *. pose proof (core_transparent y it Hy Hi) as Hc.
  destruct Hy as (H0 & _ & _ & H3 & _). unfold strip_comment, text_of. cbn [fst snd].
  rewrite (spaces_transparent _ H0), Hc, (spaces_transparent _ H3). unfold comment_text. do 2 f_equal.
  destruct (comment y); cbn; by rewrite app_nil_r.
Qed.

Lemma core_solid y it : layout_ok y -> item_ok it -> it <> IBlank -> solid (core y it).
Proof.
  intros _ Hi Hn. destruct it as [|s|k v]; [done|by apply solid_ends|]. destruct Hi as [(Hk & _) [_ Hv _]]. by apply solid_app.
Qed.

Lemma trim_text line : line_ok line -> trim (strip_comment (text_of line)) = core line.1 line.2.
Proof.
  intros Hl. rewrite strip_text by done. destruct line as [y it]. destruct Hl as [Hy Hi]. cbn [fst snd] in *.
  pose proof Hy as (H0 & _ & _ & H3 & _). apply spaces_blank in H0, H3. assert (Hb : it = IBlank \/ it <> IBlank) by (destruct it; auto).
  destruct Hb as [->|Hn].
  - cbn. apply trim_blank. by apply Forall_app.
  - apply trim_padded; auto using core_solid.
Qed.

Lemma text_oneline line : line_ok line -> oneline (text_of line).
Proof.
  destruct line as [y it]. intros [(H0 & H1 & H2 & H3 & H4) Hi]. cbn [fst snd] in *. unfold text_of. cbn [fst snd].
  assert (Hs : forall s, spaces s -> oneline s) by (intros; by apply spaces_not).
  assert (Hn : forall s, name_ok s -> oneline s) by (intros s (_ & _ & H); eapply Forall_impl; [exact H|]; intros c Hc; cbn beta in Hc; tauto).
  assert (H1c : forall c, c <> 10 -> c <> 13 -> oneline [c]) by (intros; by repeat constructor).
  rewrite !Forall_app. split_and!; [auto| |auto|].
  - destruct it as [|s|k v]; cbn; [constructor| |].
    + constructor; [done|]. rewrite !Forall_app. split_and!; auto.
    + destruct Hi as [Hk [_ _ Hv]]. rewrite !Forall_app, Forall_cons. split_and!; auto.
  - unfold comment_text. destruct (comment y); [|constructor]. constructor; [done|exact H4].
Qed.

(** ** The fields of a document *)

Definition full_key (section key : str) : str := if bool_decide (section = []) then key else section ++ [46] ++ key.

Fixpoint items_fields (section : str) (its : list Item) : list (str * str) :=
  match its with
  | [] => []
  | IBlank :: its => items_fields section its
  | ISection s :: its => items_fields s its
  | IField k v :: its => (full_key section k, v) :: items_fields section its
  end.

(** Outside the sections, only the fields of a service. *)
Fixpoint items_known (section : str) (its : list Item) : Prop :=
  match its with
  | [] => True
  | IBlank :: its => items_known section its
  | ISection s :: its => items_known s its
  | IField k v :: its => (section = [] -> k ∈ top_level) /\ items_known section its
  end.

Lemma read_field y k v ls i section fields : layout_ok y -> item_ok (IField k v) -> (section = [] -> k ∈ top_level) ->
  fields !! full_key section k = None ->
  read_lines (text_of (y, IField k v) :: ls) i section fields = read_lines ls (S i) section (<[full_key section k := v]> fields).
Proof.
  intros Hy Hi Hk Hf. cbn [read_lines]. rewrite (trim_text (y, IField k v)) by done. pose proof (core_solid y (IField k v) Hy Hi) as (Hne & _); [done|].
  cbn [fst snd] in *. rewrite bool_decide_eq_false_2 by done. destruct Hi as [(Hk1 & Hk2 & Hk3) [_ Hv _]].
  unfold core. rewrite first_is_app, Hk2 by apply Hk1. cbn [andb]. destruct Hy as (_ & H1 & H2 & _).
  replace (k ++ (mid y ++ 61 :: mid' y) ++ v) with ((k ++ mid y) ++ 61 :: mid' y ++ v) by (by rewrite <- !app_assoc).
  rewrite split_once_at.
  2: { apply Forall_app. split; [eapply Forall_impl; [exact Hk3|]; intros c Hc; cbn beta in Hc; tauto|by apply spaces_not]. }
  apply spaces_blank in H1, H2. pose proof (trim_padded [] k (mid y)) as T1. cbn [app] in T1. rewrite T1 by auto.
  pose proof (trim_padded (mid' y) v []) as T2. rewrite app_nil_r in T2. rewrite T2 by auto.
  change (if bool_decide (section = []) then k else section ++ [46] ++ k) with (full_key section k). rewrite Hf.
  destruct (decide (section = [])) as [->|Hs]; [|by rewrite (bool_decide_eq_false_2 (section = []))].
  by rewrite (bool_decide_eq_true_2 (k ∈ top_level)) by auto.
Qed.

Lemma read_section y s ls i section fields : layout_ok y -> name_ok s ->
  read_lines (text_of (y, ISection s) :: ls) i section fields = read_lines ls (S i) s fields.
Proof.
  intros Hy Hs. cbn [read_lines]. rewrite (trim_text (y, ISection s)) by done. cbn [fst snd]. unfold core.
  rewrite bool_decide_eq_false_2 by done.
  rewrite (last_is_snoc 93 (91 :: mid y ++ s ++ mid' y) 93 : last_is 93 (91 :: (mid y ++ s ++ mid' y) ++ [93]) = _).
  cbn [first_is]. rewrite !Z.eqb_refl, inner_between. cbn [andb]. destruct Hy as (_ & H1 & H2 & _), Hs as (Hs & _).
  by rewrite trim_padded by auto using spaces_blank.
Qed.

Lemma read_lines_items ls i section fields : Forall line_ok ls -> items_known section ls.*2 ->
  NoDup (items_fields section ls.*2).*1 -> Forall (fun kv => fields !! kv.1 = None) (items_fields section ls.*2) ->
  read_lines (text_of <$> ls) i section fields = Ok (list_to_map (items_fields section ls.*2) ∪ fields).
Proof.
  intros H. revert i section fields. induction H as [|[y it] ls Hl _ IH]; intros i section fields Hk Hn Hf.
  { cbn. by rewrite (left_id_L ∅ (∪)). }
  rewrite fmap_cons in *. destruct it as [|s|k v]; cbn [fst snd fmap list_fmap items_known items_fields] in *.
  - cbn [read_lines]. rewrite (trim_text (y, IBlank)) by done. cbn [fst snd core]. rewrite bool_decide_eq_true_2 by done. by apply IH.
  - destruct Hl as [Hy Hi]. rewrite read_section by done. by apply IH.
  - destruct Hl as [Hy Hi]. destruct Hk as [Hk1 Hk2]. inversion Hn as [|? ? Hn1 Hn2]; subst. inversion Hf as [|? ? Hf1 Hf2]; subst.
    rewrite read_field by done. rewrite IH; [|done|done|].
    + f_equal. cbn [list_to_map foldr fst snd curry uncurry]. rewrite <- insert_union_l. symmetry. apply insert_union_r.
      apply not_elem_of_list_to_map. exact Hn1.
    + rewrite Forall_forall in Hf2 |- *. intros [k' v'] Hin. rewrite lookup_insert_ne; [by apply (Hf2 (k', v'))|].
      intros E. apply Hn1. apply list_elem_of_fmap. exists (k', v'). by split.
Qed.

(** ** The service that fields describe *)

(** A field is there with its text, or it is left out and has its default. *)
Definition opt (f : Fields) (key : string) (text : str) (default : Prop) : Prop :=
  f !! lit key = Some text \/ (f !! lit key = None /\ default).

Definition mode_str (m : OutputMode) : str := match m with Console => lit "console" | Null => lit "null" | Log => lit "log" end.

Definition policy_encoded (f : Fields) (p : option TxpcPolicy) : Prop :=
  match p with
  | None => any_key f "txpc.policy." = false
  | Some p =>
      any_key f "txpc.policy." = true /\ opt f "txpc.policy.allow_all" (bool_str (allow_all p)) (allow_all p = false) /\
      opt f "txpc.policy.allow_uids" (bracket (decimal <$> allow_uids p)) (allow_uids p = []) /\
      opt f "txpc.policy.require_cap" (bracket (quote <$> require_cap p)) (require_cap p = []) /\ uids (allow_uids p)
  end.

Definition client_encoded (f : Fields) (c : option TxpcClient) : Prop :=
  match c with
  | None => any_key f "txpc.client." = false
  | Some c => any_key f "txpc.client." = true /\
              opt f "txpc.client.capabilities" (bracket (quote <$> capabilities c)) (capabilities c = [])
  end.

Definition txpc_encoded (f : Fields) (t : option TxpcConfig) : Prop :=
  match t with
  | None => f !! lit "txpc.name" = None
  | Some t =>
      f !! lit "txpc.name" = Some (quote (txpc_name t)) /\ opt f "txpc.on_demand" (bool_str (on_demand t)) (on_demand t = false) /\
      policy_encoded f (policy t) /\ client_encoded f (client t)
  end.

Record encodes (f : Fields) (c : ServiceConfig) : Prop := mkEncodes {
  e_name : f !! lit "name" = Some (quote (name c));
  e_exec : f !! lit "exec" = Some (quote (exec c)) /\ first_is 47 (exec c) = true;
  e_description : opt f "description" (quote (description c)) (description c = []);
  e_args : opt f "args" (bracket (quote <$> args c)) (args c = []);
  e_enabled : opt f "enabled" (bool_str (enabled c)) (enabled c = true);
  e_runlevel : opt f "runlevel" (quote (runlevel c)) (runlevel c = DEFAULT_RUNLEVEL) /\ runlevel c ∈ runlevels;
  e_restart : opt f "restart" (quote (policy_str (restart c))) (restart c = Never);
  e_type : opt f "type" (quote (lit "foreground")) True;
  e_stdout : opt f "stdout" (quote (mode_str (out_mode c))) (out_mode c = Console);
  e_stderr : opt f "stderr" (quote (mode_str (err_mode c))) (err_mode c = Console);
  e_txpc : txpc_encoded f (txpc c);
}.

Lemma opt_string f key v d : opt f key (quote v) (v = d) -> exists o, optional_string f key = Ok o /\ default d o = v.
Proof.
  intros [H|[H ->]]; unfold optional_string; rewrite H; [|by exists None]. rewrite parse_string_quote. by exists (Some v).
Qed.

Lemma opt_string_as {A} f key (show : A -> str) (x y : A) : opt f key (quote (show x)) (x = y) ->
  exists o, optional_string f key = Ok o /\ default (show y) o = show x.
Proof. intros H. apply opt_string. destruct H as [H|[H ->]]; [by left|by right]. Qed.

Lemma opt_field {A} f key text (parse : str -> R A) (v d : A) :
  opt f key text (v = d) -> parse text = Ok v -> field_or f key parse d = Ok v.
Proof. intros [H|[H ->]] Hp; unfold field_or; by rewrite H. Qed.

Lemma parse_bool_str b : parse_bool (bool_str b) = Ok b.
Proof. by destruct b. Qed.
Lemma parse_restart_str p : parse_restart (policy_str p) = Ok p.
Proof. by destruct p. Qed.
Lemma parse_mode_str m o : default (lit "console") o = mode_str m -> parse_output_mode o = Ok m.
Proof. intros H. unfold parse_output_mode. rewrite H. by destruct m. Qed.

Lemma required_ok f key v : f !! lit key = Some (quote v) -> required_string f key = Ok v.
Proof. intros H. unfold required_string, optional_string. by rewrite H, parse_string_quote. Qed.

Lemma txpc_config_ok f t : txpc_encoded f t -> txpc_config f = Ok t.
Proof.
  intros H. unfold txpc_config, optional_string. destruct t as [[n d p c]|]; cbn [txpc_encoded] in H; [|by rewrite H].
  destruct H as (Hn & Hd & Hp & Hc). rewrite Hn, parse_string_quote. cbn [bindR txpc_name on_demand policy client] in *.
  rewrite (opt_field _ _ _ _ _ _ Hd) by apply parse_bool_str. cbn [bindR].
  assert (Hp' : txpc_policy f = Ok p).
  { unfold txpc_policy. destruct p as [[a u r]|]; cbn [policy_encoded policy] in Hp; [|by rewrite Hp]. destruct Hp as (-> & Ha & Hu & Hr & Hrange).
    cbn [allow_all allow_uids require_cap] in *.
    rewrite (opt_field _ _ _ _ _ _ Ha) by apply parse_bool_str. cbn [bindR].
    rewrite (opt_field _ _ _ _ _ _ Hu) by (by apply parse_ints). cbn [bindR].
    by rewrite (opt_field _ _ _ _ _ _ Hr) by apply parse_strings. }
  assert (Hc' : txpc_client f = Ok c).
  { unfold txpc_client. destruct c as [[l]|]; cbn [client_encoded client] in Hc; [|by rewrite Hc]. destruct Hc as (-> & Hl). cbn [capabilities] in Hl.
    by rewrite (opt_field _ _ _ _ _ _ Hl) by apply parse_strings. }
  by rewrite Hp', Hc'.
Qed.

Lemma service_of_ok f c : encodes f c -> service_of f = Ok c.
Proof.
  intros [Hn [He Habs] Hd Ha Hen [Hl Hlev] Hr Ht Ho Her Hx]. unfold service_of.
  rewrite (required_ok _ _ _ Hn), (required_ok _ _ _ He). cbn [bindR]. rewrite Habs. cbn [negb].
  destruct (opt_string _ _ _ _ Hd) as (od & -> & Hod), (opt_string _ _ _ _ Hl) as (ol & -> & Hol).
  destruct (opt_string_as _ _ policy_str _ _ Hr) as (orr & -> & Hor).
  destruct (opt_string_as _ _ mode_str _ _ Ho) as (oo & -> & Hoo), (opt_string_as _ _ mode_str _ _ Her) as (oe & -> & Hoe).
  assert (Hty : exists o, optional_string f "type" = Ok o /\ default (lit "foreground") o = lit "foreground").
  { apply opt_string. destruct Ht as [Ht|[Ht _]]; [by left|by right]. }
  destruct Hty as (ot & -> & Hot). cbn [bindR].
  rewrite (opt_field _ _ _ _ _ _ Ha) by apply parse_strings. cbn [bindR].
  rewrite (opt_field _ _ _ _ _ _ Hen) by apply parse_bool_str. cbn [bindR].
  rewrite Hol, (bool_decide_eq_true_2 _ Hlev). cbn [negb].
  change (lit "never") with (policy_str Never). rewrite Hor, parse_restart_str. cbn [bindR]. rewrite Hot. cbn [bindR parse_type].
  change (parse_type (lit "foreground")) with (Ok Foreground : R ServiceType). cbn [bindR].
  rewrite (parse_mode_str _ _ Hoo), (parse_mode_str _ _ Hoe). cbn [bindR]. rewrite (txpc_config_ok _ _ Hx). cbn [bindR].
  rewrite Hod. destruct c as [? ? ? ? ? ? ? [] ? ? ?]. done.
Qed.

(** The values that [encodes] speaks of can stand on a line. *)
Lemma value_quote s : is_value (quote s).
Proof.
  split; [apply transparent_quote|apply solid_quote|]. constructor; [done|]. apply Forall_app. split; [|by repeat constructor].
  unfold escapes. apply Forall_concat, Forall_fmap, Forall_true. intros c. cbn. unfold escape.
  destruct (c =? 10) eqn:E1; [by repeat constructor|]. destruct (c =? 13) eqn:E2; [by repeat constructor|].
  destruct (c =? 9); [by repeat constructor|]. destruct (c =? 92); [by repeat constructor|]. destruct (c =? 34); [by repeat constructor|].
  constructor; [lia|constructor].
Qed.

Lemma value_bracket l : Forall is_value l -> is_value (bracket l).
Proof.
  intros H. split.
  - apply (transparent_app [91]); [apply transparent_plain; by repeat constructor|].
    apply transparent_app; [|apply transparent_plain; by repeat constructor].
    induction H as [|x [|y l] [Hx _ _] _ IH]; [by intros r|done|]. change (commas (x :: y :: l)) with (x ++ lit ", " ++ commas (y :: l)).
    apply transparent_app; [done|]. apply transparent_app; [apply transparent_plain; by repeat constructor|done].
  - by apply solid_ends.
  - constructor; [done|]. apply Forall_app. split; [|by repeat constructor].
    induction H as [|x [|y l] [_ _ Hx] _ IH]; [constructor|done|]. change (commas (x :: y :: l)) with (x ++ lit ", " ++ commas (y :: l)).
    rewrite !Forall_app. split_and!; [done|by repeat constructor|done].
Qed.

Lemma value_plain v : v <> [] -> Forall (fun c => is_whitespace c = false /\ c <> 34 /\ c <> 35 /\ c <> 10 /\ c <> 13) v -> is_value v.
Proof.
  intros Hv H. split.
  - apply transparent_plain. eapply Forall_impl; [exact H|]. intros c Hc; cbn beta in Hc; tauto.
  - apply solid_all; [done|]. eapply Forall_impl; [exact H|]. intros c Hc; cbn beta in Hc; tauto.
  - eapply Forall_impl; [exact H|]. intros c Hc; cbn beta in Hc; tauto.
Qed.

Lemma value_decimal n : 0 <= n -> is_value (decimal n).
Proof.
  intros Hn. destruct (decimal_shape n Hn) as (c & l & E & _). apply value_plain; [by rewrite E|].
  eapply Forall_impl; [by apply decimal_digits|]. intros x Hx. pose proof (digit_classes x Hx). tauto.
Qed.

Lemma value_bool b : is_value (bool_str b).
Proof. apply value_plain; [by destruct b|]. destruct b; by repeat constructor. Qed.

(** ** Claims *)

(** C23. A service file that writes the fields of a service in any order, with any blanks, empty lines and comments, and may leave out the fields that have their defaults, is read as that service: strings with their escapes, arrays of strings and numbers, and the sections of its connections. *)
Theorem service_file_means (ls : list (Layout * Item)) (c : ServiceConfig) :
  Forall line_ok ls -> items_known [] ls.*2 -> NoDup (items_fields [] ls.*2).*1 ->
  encodes (list_to_map (items_fields [] ls.*2)) c ->
  parse_service_config (document ls) = Ok c.
Proof.
  intros Hl Hk Hn He. unfold parse_service_config, document.
  rewrite lines_of_texts by (apply Forall_fmap; eapply Forall_impl; [exact Hl|apply text_oneline]).
  rewrite read_lines_items; [|done..|by apply Forall_true]. cbn [bindR]. rewrite (right_id_L ∅ (∪)). by apply service_of_ok.
Qed.

(** The file of an on-demand service, with a comment and an indented section. *)
Definition plain_layout : Layout := mkLayout [] [32] [32] [] None.
Definition demo_file : list (Layout * Item) := [
  (plain_layout, IField (lit "name") (quote (lit "txpc # test")));
  (mkLayout [] [32] [9; 32] [32] (Some (lit " the server")), IField (lit "exec") (quote (lit "/bin/txpc_echo_service")));
  (mkLayout [] [] [] [] (Some (lit " not started at boot")), IBlank);
  (mkLayout [] [] [] [] None, IField (lit "enabled") (bool_str false));
  (mkLayout [32; 32] [] [] [] None, ISection (lit "txpc"));
  (plain_layout, IField (lit "name") (quote (lit "dev.twilight.test")));
  (plain_layout, IField (lit "on_demand") (bool_str true));
  (plain_layout, ISection (lit "txpc.policy"));
  (plain_layout, IField (lit "require_cap") (bracket (quote <$> [lit "gui"; lit "a,b"])));
  (plain_layout, IField (lit "allow_uids") (bracket (decimal <$> [0; 1000])))].
Definition demo_service : ServiceConfig :=
  mkService (lit "txpc # test") [] (lit "/bin/txpc_echo_service") [] false DEFAULT_RUNLEVEL Never Foreground Console Console
    (Some (mkTxpc (lit "dev.twilight.test") true (Some (mkPolicy false [0; 1000] [lit "gui"; lit "a,b"])) None)).

#[local] Ltac decided := unfold layout_ok, name_ok, solid; apply (bool_decide_unpack _); vm_compute; exact I.

#[local] Ltac written := first [left; vm_compute; reflexivity|right; split; [vm_compute; reflexivity|done]].

Lemma demo_values : is_value (bracket (quote <$> [lit "gui"; lit "a,b"])) /\ is_value (bracket (decimal <$> [0; 1000])).
Proof.
  split; apply value_bracket; (apply Forall_cons; split; [|apply Forall_cons; split; [|constructor]]);
    auto using value_quote; by apply value_decimal.
Qed.

Lemma demo_lines_ok : Forall line_ok demo_file.
Proof.
  destruct demo_values. repeat (apply Forall_cons; split; [split; [decided|cbn [snd item_ok]]|]); [..|apply Forall_nil];
    try exact I; try decided; (split; [decided|auto using value_quote, value_bool]).
Qed.

Lemma demo_encodes : encodes (list_to_map (items_fields [] demo_file.*2)) demo_service.
Proof.
  split; [vm_compute; reflexivity|split; [vm_compute; reflexivity|done]|written|written|written|split; [written|decided]|written..|].
  split_and!; [vm_compute; reflexivity|written| |vm_compute; reflexivity].
  split_and!; [vm_compute; reflexivity|written|written|written|]. by repeat constructor.
Qed.

Lemma service_file_means_witness : parse_service_config (document demo_file) = Ok demo_service.
Proof.
  apply (service_file_means demo_file demo_service); [exact demo_lines_ok| |decided|exact demo_encodes].
  cbn [items_known demo_file snd fmap list_fmap]. split_and!; try exact I; intros Hs; try discriminate Hs; decided.
Defined.

(** Which services a boot has: those of the readable service files of the runlevel that
    are enabled or started on demand, the logger before the others; the built-in shell
    when there is none. *)
Definition configured (es : list DirEntry) (level : str) (c : ServiceConfig) : Prop :=
  exists e text, e ∈ es /\ is_toml e = true /\ contents e = Some text /\ parse_service_config text = Ok c /\ wanted level c = true.

Lemma elem_of_sort_entries e l : e ∈ sort_entries l <-> e ∈ l.
Proof.
  assert (Hi : forall x l, e ∈ place_entry x l <-> e = x \/ e ∈ l).
  { intros x k. induction k as [|y k IH]; cbn; [by rewrite list_elem_of_singleton, elem_of_nil; tauto|].
    case_match; rewrite !elem_of_cons; [tauto|]. rewrite IH. tauto. }
  induction l as [|x l IH]; cbn; [done|]. rewrite Hi, IH, elem_of_cons. tauto.
Qed.

Lemma elem_of_picked {A} (f : A -> bool) x l : x ∈ List.filter f l <-> x ∈ l /\ f x = true.
Proof. rewrite !list_elem_of_In. apply filter_In. Qed.

Lemma elem_of_load es level c : c ∈ load_service_configs (Some es) level <-> configured es level c.
Proof.
  cbn [load_service_configs]. rewrite list_elem_of_In, in_concat. setoid_rewrite <- list_elem_of_In. split.
  - intros (l & Hl & Hc). apply list_elem_of_fmap in Hl as (e & -> & He). rewrite elem_of_sort_entries in He.
    apply elem_of_picked in He as [He Ht]. unfold load_one in Hc.
    destruct (contents e) as [text|] eqn:Et; [|by apply elem_of_nil in Hc]. destruct (parse_service_config text) as [c'| |] eqn:Ep;
      [|by apply elem_of_nil in Hc..]. destruct (wanted level c') eqn:Ew; [|by apply elem_of_nil in Hc].
    apply list_elem_of_singleton in Hc as ->. by exists e, text.
  - intros (e & text & He & Ht & Et & Ep & Ew). exists (load_one level e). split.
    + apply list_elem_of_fmap. exists e. split; [done|]. rewrite elem_of_sort_entries. by apply elem_of_picked.
    + unfold load_one. rewrite Et, Ep, Ew. by apply list_elem_of_singleton.
Qed.

Lemma elem_of_logger_first c cs : c ∈ logger_first cs <-> c ∈ cs.
Proof.
  unfold logger_first. rewrite elem_of_app, !elem_of_picked. destruct (str_eqb (name c) (lit "twilogd")); cbn; intuition congruence.
Qed.

Lemma front_first {A} (f : A -> bool) xs ys pre c post : Forall (fun x => f x = true) xs -> Forall (fun x => f x = false) ys ->
  xs ++ ys = pre ++ c :: post -> f c = true -> Forall (fun x => f x = true) pre.
Proof.
  intros Hx Hy. revert xs Hx. induction pre as [|p pre IH]; intros xs Hx E Hc; [constructor|]. destruct xs as [|x xs]; cbn in E.
  - exfalso. rewrite E in Hy. inversion Hy as [|? ? _ Hy']; subst. apply Forall_app in Hy' as [_ Hy']. inversion Hy'. congruence.
  - injection E as -> E. inversion Hx; subst. constructor; [done|]. by apply (IH xs).
Qed.

Lemma logger_front cs : Forall (fun c => str_eqb (name c) (lit "twilogd") = true) (List.filter (fun c => str_eqb (name c) (lit "twilogd")) cs).
Proof. apply Forall_forall. intros c Hc. by apply elem_of_picked in Hc as [_ Hc]. Qed.
Lemma logger_back cs : Forall (fun c => str_eqb (name c) (lit "twilogd") = false) (List.filter (fun c => negb (str_eqb (name c) (lit "twilogd"))) cs).
Proof. apply Forall_forall. intros c Hc. apply elem_of_picked in Hc as [_ Hc]. by apply negb_true_iff. Qed.

(** The services of a boot. *)
Theorem boot_services_chosen (es : list DirEntry) (level : str) :
  (forall c, c ∈ boot_services (Some es) level <->
    configured es level c \/ ((forall c', ~ configured es level c') /\ c = fallback_shell level)) /\
  (forall before c after, boot_services (Some es) level = before ++ c :: after -> name c = lit "twilogd" ->
    Forall (fun c => name c = lit "twilogd") before).
Proof.
  unfold boot_services. set (cs := load_service_configs (Some es) level).
  assert (Hcs : forall c, c ∈ logger_first cs <-> configured es level c) by (intros c; by rewrite elem_of_logger_first, <- elem_of_load).
  split.
  - intros c. destruct (logger_first cs) as [|x l] eqn:E.
    + rewrite list_elem_of_singleton. assert (Hno : forall c', ~ configured es level c') by (intros c' H; apply Hcs in H; by apply elem_of_nil in H).
      specialize (Hno c) as Hc. tauto.
    + rewrite Hcs. split; [by left|]. intros [H|[H _]]; [done|]. exfalso. apply (H x), Hcs, elem_of_cons. by left.
  - intros before c after H Hc. destruct before as [|b before]; [constructor|].
    assert (HL : logger_first cs = (b :: before) ++ c :: after) by (destruct (logger_first cs); [by destruct before|done]).
    assert (H1 := front_first (fun c => str_eqb (name c) (lit "twilogd")) _ _ _ _ _ (logger_front cs) (logger_back cs) HL).
    eapply Forall_impl; [apply H1; by apply bool_decide_eq_true|]. intros x. apply bool_decide_eq_true.
Qed.

(** ** Defects *)

(** Two strings of an array without the comma between them are one string, with the
    quotes in it. *)
Theorem missing_comma_joins :
  parse_string_array (91 :: quote (lit "a") ++ [32] ++ quote (lit "b") ++ [93]) = Ok [[97; 34; 32; 34; 98]].
Proof. vm_compute. reflexivity. Qed.

(** A boot whose only service is started on demand starts nothing, not even the
    built-in shell. *)
Theorem on_demand_only_starts_nothing :
  let dir := Some [mkEntry (lit "txpc-echo.toml") (Some (document demo_file))] in
  boot_services dir DEFAULT_RUNLEVEL = [demo_service] /\ boot_started dir DEFAULT_RUNLEVEL = [].
Proof. vm_compute. split; reflexivity. Qed.
