(* ===== verification/TwinitService.v ===== *)
(** * Service supervision (src/userspace/apps/twinit/src/service.rs)

    The state of a service, its start, the forwarding of its output, and what its exit
    leads to.  What the system calls answer, a fork, a pipe, a read or the clock, is an
    argument.  Times are nanoseconds. *)

From Stdlib Require Import ZifyBool.
From S2P Require Import Prelude Text Utf UserText TwinitConfig.

Definition RESTART_LIMIT : Z := 5.
Definition RESTART_WINDOW : Z := 10000000000.
Definition LOG_READ_BUDGET : nat := 16.

Inductive RuntimeStatus := Stopped | Starting | Running | Exited (code : Z) | Failed (code : Z).

Record ServiceState := mkState {
  config : ServiceConfig; pid : option Z; status : RuntimeStatus; restart_count : Z; restart_window_started : Z;
  disabled : bool; stdout_log : option Z; stderr_log : option Z; stdout_buffer : str; stderr_buffer : str;
  registered_txpc_fd : option Z;
}.

Definition ServiceState_new (c : ServiceConfig) (now : Z) : ServiceState :=
  mkState c None Stopped 0 now false None None [] [] None.

Definition set_status (x : RuntimeStatus) (s : ServiceState) : ServiceState :=
  mkState (config s) (pid s) x (restart_count s) (restart_window_started s) (disabled s) (stdout_log s) (stderr_log s)
    (stdout_buffer s) (stderr_buffer s) (registered_txpc_fd s).
Definition set_restarts (n window : Z) (s : ServiceState) : ServiceState :=
  mkState (config s) (pid s) (status s) n window (disabled s) (stdout_log s) (stderr_log s)
    (stdout_buffer s) (stderr_buffer s) (registered_txpc_fd s).
Definition set_disabled (s : ServiceState) : ServiceState :=
  mkState (config s) (pid s) (status s) (restart_count s) (restart_window_started s) true (stdout_log s) (stderr_log s)
    (stdout_buffer s) (stderr_buffer s) (registered_txpc_fd s).
Definition set_registered (fd : option Z) (s : ServiceState) : ServiceState :=
  mkState (config s) (pid s) (status s) (restart_count s) (restart_window_started s) (disabled s) (stdout_log s) (stderr_log s)
    (stdout_buffer s) (stderr_buffer s) fd.
Definition set_logs (out err : option Z * str) (s : ServiceState) : ServiceState :=
  mkState (config s) (pid s) (status s) (restart_count s) (restart_window_started s) (disabled s) out.1 err.1 out.2 err.2
    (registered_txpc_fd s).

(** ** Starting *)

(** The reading end of each pipe, or [None] when it cannot be made; the child, or [None]
    when the fork fails. *)
Record Spawn := mkSpawn { sp_stdout : option Z; sp_stderr : option Z; sp_fork : option Z }.

Definition prepare_log_pipe (mode : OutputMode) (pipe : option Z) : option Z :=
  if bool_decide (mode = Log) then pipe else None.

Definition start_service (w : Spawn) (s : ServiceState) : ServiceState :=
  match pid s with
  | Some _ => s
  | None =>
      if disabled s then s
      else match sp_fork w with
           | Some p =>
               mkState (config s) (Some p) Running (restart_count s) (restart_window_started s) (disabled s)
                 (prepare_log_pipe (out_mode (config s)) (sp_stdout w)) (prepare_log_pipe (err_mode (config s)) (sp_stderr w))
                 [] [] (registered_txpc_fd s)
           | None => set_status (Failed (-1)) s
           end
  end.

(** ** Output *)

(** [String::from_utf8_lossy]: each longest prefix of a character that is not completed,
    and each byte that starts none, becomes U+FFFD. *)
Definition second_ok (b0 b1 : Z) : bool :=
  if b0 =? 0xE0 then in_range 0xA0 0xBF b1
  else if b0 =? 0xED then in_range 0x80 0x9F b1
  else if b0 =? 0xF0 then in_range 0x90 0xBF b1
  else if b0 =? 0xF4 then in_range 0x80 0x8F b1
  else in_range 0x80 0xBF b1.

Definition REPLACEMENT : Z := 0xFFFD.

Fixpoint from_utf8_lossy (l : list Z) : str :=
  match l with
  | [] => []
  | b0 :: l0 =>
      if in_range 0 127 b0 then b0 :: from_utf8_lossy l0
      else if negb (in_range 0xC2 0xF4 b0) then REPLACEMENT :: from_utf8_lossy l0
      else match l0 with
      | [] => [REPLACEMENT]
      | b1 :: l1 =>
          if negb (second_ok b0 b1) then REPLACEMENT :: from_utf8_lossy l0
          else if b0 <? 0xE0 then (b0 - 192) * 64 + (b1 - 128) :: from_utf8_lossy l1
          else match l1 with
          | [] => [REPLACEMENT]
          | b2 :: l2 =>
              if negb (is_cont b2) then REPLACEMENT :: from_utf8_lossy l1
              else if b0 <? 0xF0 then (b0 - 224) * 4096 + (b1 - 128) * 64 + (b2 - 128) :: from_utf8_lossy l2
              else match l2 with
              | [] => [REPLACEMENT]
              | b3 :: l3 =>
                  if negb (is_cont b3) then REPLACEMENT :: from_utf8_lossy l2
                  else (b0 - 240) * 262144 + (b1 - 128) * 4096 + (b2 - 128) * 64 + (b3 - 128) :: from_utf8_lossy l3
              end
          end
      end
  end.

(** [trim_end_matches('\r')] and the test that leaves out an empty line. *)
Definition log_line (l : str) : list str := match trim_end (Z.eqb 13) l with [] => [] | line => [line] end.

(** The loop of [forward_complete_lines]: the lines forwarded and what stays pending. *)
Fixpoint forward_from (cur : str) (l : str) : list str * str :=
  match l with
  | [] => ([], reverse cur)
  | c :: l => if c =? 10 then let '(ls, rest) := forward_from [] l in (log_line (reverse cur) ++ ls, rest)
              else forward_from (c :: cur) l
  end.
Definition forward_complete_lines (pending : str) : list str * str := forward_from [] pending.

Inductive ReadResult := RData (chunk : list Z) | REof | RWouldBlock | RInterrupted | RError.

(** The loop of [drain_log_pipe]: what the reads answer, what is pending; the lines
    forwarded, what is pending after, and whether the end was reached.  A pipe with no
    more answers would block. *)
Fixpoint read_log (budget : nat) (rs : list ReadResult) (pending : str) : list str * str * bool :=
  match budget, rs with
  | O, _ | _, [] => ([], pending, false)
  | S budget, r :: rs =>
      match r with
      | REof | RError => ([], pending, true)
      | RWouldBlock => ([], pending, false)
      | RInterrupted => read_log budget rs pending
      | RData chunk =>
          let '(ls, pending) := forward_complete_lines (pending ++ from_utf8_lossy chunk) in
          let '(ls', pending, eof) := read_log budget rs pending in (ls ++ ls', pending, eof)
      end
  end.

Definition drain_log_pipe (rs : list ReadResult) (pipe : option Z) (pending : str) : list str * (option Z * str) :=
  match pipe with
  | None => ([], (pipe, pending))
  | Some _ =>
      let '(ls, pending, eof) := read_log LOG_READ_BUDGET rs pending in
      if eof then (ls ++ match pending with [] => [] | _ => log_line pending end, (None, [])) else (ls, (pipe, pending))
  end.

(** The datagram of [forward_service_log]. *)
Definition service_datagram (service level line : str) : str :=
  lit "LEVEL=" ++ level ++ lit " SOURCE=" ++ service ++ lit " MESSAGE=" ++ blank_out [13; 10] line.

(** Both pipes of a service: its state after, and the datagrams. *)
Definition drain_service (out err : list ReadResult) (s : ServiceState) : ServiceState * list str :=
  let '(ls, out) := drain_log_pipe out (stdout_log s) (stdout_buffer s) in
  let '(ls', err) := drain_log_pipe err (stderr_log s) (stderr_buffer s) in
  (set_logs out err s,
   (service_datagram (name (config s)) (lit "INFO") <$> ls) ++ (service_datagram (name (config s)) (lit "ERROR") <$> ls')).

(** One entry per service: what its two pipes answer. *)
Fixpoint drain_service_logs (reads : list (list ReadResult * list ReadResult)) (ss : list ServiceState) : list ServiceState * list str :=
  match ss with
  | [] => ([], [])
  | s :: ss =>
      let '(out, err) := default ([], []) (head reads) in
      let '(s, d) := drain_service out err s in
      let '(ss, d') := drain_service_logs (tail reads) ss in (s :: ss, d ++ d')
  end.

(** ** Exit *)

Inductive WaitOutcome := WExited (code : Z) | WSignaled (signal : Z) | WOther (raw : Z).

Definition decode_wait_status (st : Z) : WaitOutcome :=
  let signal := Z.land st 0x7F in
  if signal =? 0 then WExited (Z.land (Z.shiftr st 8) 0xFF)
  else if negb (signal =? 0x7F) then WSignaled signal
  else WOther st.

Definition restart_required (p : RestartPolicy) (o : WaitOutcome) : bool :=
  match p with
  | Never => false
  | OnFailure => match o with WExited 0 => false | _ => true end
  | Always => true
  end.

Definition record_restart_attempt (s : ServiceState) (now : Z) : ServiceState * bool :=
  let s := if RESTART_WINDOW <? saturating_sub now (restart_window_started s) then set_restarts 0 now s else s in
  if RESTART_LIMIT <=? restart_count s then (s, false)
  else (set_restarts (restart_count s + 1) (restart_window_started s) s, true).

Definition exit_status (o : WaitOutcome) : RuntimeStatus :=
  match o with
  | WExited code => if code =? 0 then Exited code else Failed code
  | WSignaled signal => Failed (128 + signal)
  | WOther raw => Failed raw
  end.

(** The answers of the system calls of one exit. *)
Record ExitCalls := mkExit { ex_stdout : list ReadResult; ex_stderr : list ReadResult; ex_now : Z; ex_spawn : Spawn }.

Definition service_exit (st : Z) (w : ExitCalls) (s : ServiceState) : ServiceState * list str :=
  let s := mkState (config s) None (status s) (restart_count s) (restart_window_started s) (disabled s)
             (stdout_log s) (stderr_log s) (stdout_buffer s) (stderr_buffer s) None in
  let '(s, logs) := drain_service (ex_stdout w) (ex_stderr w) s in
  let o := decode_wait_status st in
  let s := set_status (exit_status o) s in
  if negb (restart_required (restart (config s)) o) then (s, logs)
  else match record_restart_attempt s (ex_now w) with
       | (s, false) => (set_disabled s, logs)
       | (s, true) => (start_service (ex_spawn w) s, logs)
       end.

Definition has_pid (p : Z) (s : ServiceState) : bool := bool_decide (pid s = Some p).

(** [handle_child_exit]: the first service with that process; other children are reaped
    and forgotten. *)
Fixpoint handle_child_exit (p st : Z) (w : ExitCalls) (ss : list ServiceState) : list ServiceState * list str :=
  match ss with
  | [] => ([], [])
  | s :: ss =>
      if has_pid p s then let '(s, logs) := service_exit st w s in (s :: ss, logs)
      else let '(ss, logs) := handle_child_exit p st w ss in (s :: ss, logs)
  end.
