(* ===== verification/Twilogd.v ===== *)
(** * The log daemon (src/userspace/apps/twilogd/src/main.rs)

    What twilogd writes for the datagrams it receives, and the way of a line from a
    service to the log. *)

From Stdlib Require Import ZifyBool.
From S2P Require Import Prelude Text Utf UserText TwinitConfig TwinitService.

Definition MAX_DATAGRAM : nat := 4096.

Record LogEntry := mkLog { log_level : str; log_source : str; log_message : str }.

(** The loop over the words before the message. *)
Fixpoint entry_fields (ws : list str) (level source : str) : str * str :=
  match ws with
  | [] => (level, source)
  | w :: ws =>
      match strip (lit "LEVEL=") w with
      | Some v => entry_fields ws (if bool_decide (v = []) then level else v) source
      | None => match strip (lit "SOURCE=") w with
                | Some v => entry_fields ws level (if bool_decide (v = []) then source else v)
                | None => entry_fields ws level source
                end
      end
  end.

(** [field_index] with the two slices it is used for: the fields and the message. *)
Definition split_message (raw : str) : option (str * str) :=
  match strip (lit "MESSAGE=") raw with
  | Some message => Some ([], message)
  | None => match find_str (lit " MESSAGE=") raw with
            | Some (before, message) => Some (before ++ [32], message)
            | None => None
            end
  end.

Definition parse_entry (datagram : str) : LogEntry :=
  let raw := trim_both (fun c => mem c [0; 13; 10]) datagram in
  match split_message raw with
  | Some (fields, message) =>
      let '(level, source) := entry_fields (words (trim_end is_whitespace fields)) (lit "INFO") (lit "unknown") in
      mkLog level source message
  | None => mkLog (lit "INFO") (lit "unknown") raw
  end.

Definition sanitize_field (v : str) : str := (fun c => if is_whitespace c || is_control_char c then 95 else c) <$> v.
Definition sanitize_message (v : str) : str :=
  (fun c => if (c =? 13) || (c =? 10) then 32 else if is_control_char c then 63 else c) <$> v.

(** [{counter:06}]. *)
Definition pad6 (n : Z) : str := replicate (6 - length (decimal n)) 48 ++ decimal n.

Definition log_record (counter : Z) (e : LogEntry) : str :=
  lit "[" ++ pad6 counter ++ lit "] level=" ++ sanitize_field (log_level e) ++ lit " source=" ++ sanitize_field (log_source e) ++
  lit " message=" ++ sanitize_message (log_message e).

(** The loop of [run]: the lines written for the datagrams received, after [counter] of
    them.  A longer datagram is cut at the size of the buffer. *)
Fixpoint log_records (counter : Z) (ds : list (list Z)) : list str :=
  match ds with
  | [] => []
  | d :: ds =>
      let counter := saturating_add counter 1 in
      log_record counter (parse_entry (from_utf8_lossy (take MAX_DATAGRAM d))) :: log_records counter ds
  end.

(** ** Decoding *)

Lemma lossy_two b0 b1 r : 194 <= b0 <= 223 -> 128 <= b1 <= 191 ->
  from_utf8_lossy (b0 :: b1 :: r) = (b0 - 192) * 64 + (b1 - 128) :: from_utf8_lossy r.
Proof.
  intros H0 H1. cbn [from_utf8_lossy]. unfold in_range. replace (_ && _) with false by lia. replace (negb _) with false by lia.
  unfold second_ok, in_range. replace (b0 =? 224) with false by lia. replace (b0 =? 237) with false by lia.
  replace (b0 =? 240) with false by lia. replace (b0 =? 244) with false by lia. replace (negb _) with false by lia.
  by replace (b0 <? 224) with true by lia.
Qed.

Lemma lossy_three b0 b1 b2 r : 224 <= b0 <= 239 -> 128 <= b1 <= 191 -> 128 <= b2 <= 191 -> second_ok b0 b1 = true ->
  from_utf8_lossy (b0 :: b1 :: b2 :: r) = (b0 - 224) * 4096 + (b1 - 128) * 64 + (b2 - 128) :: from_utf8_lossy r.
Proof.
  intros H0 H1 H2 Hs. cbn [from_utf8_lossy]. rewrite Hs. unfold is_cont, in_range. replace (_ && _) with false by lia.
  replace (negb _) with false by lia. cbn [negb]. replace (b0 <? 224) with false by lia.
  replace (negb _) with false by lia. by replace (b0 <? 240) with true by lia.
Qed.

Lemma lossy_four b0 b1 b2 b3 r : 240 <= b0 <= 244 -> 128 <= b1 <= 191 -> 128 <= b2 <= 191 -> 128 <= b3 <= 191 ->
  second_ok b0 b1 = true ->
  from_utf8_lossy (b0 :: b1 :: b2 :: b3 :: r) =
  (b0 - 240) * 262144 + (b1 - 128) * 4096 + (b2 - 128) * 64 + (b3 - 128) :: from_utf8_lossy r.
Proof.
  intros H0 H1 H2 H3 Hs. cbn [from_utf8_lossy]. rewrite Hs. unfold is_cont, in_range. replace (_ && _) with false by lia.
  replace (negb _) with false by lia. cbn [negb]. replace (b0 <? 224) with false by lia.
  replace (negb _) with false by lia. replace (b0 <? 240) with false by lia. by replace (negb _) with false by lia.
Qed.

Abbreviation scalars := (Forall (fun c => is_scalar c = true)).

Lemma lossy_char c r : is_scalar c = true -> from_utf8_lossy (encode_utf8 c ++ r) = c :: from_utf8_lossy r.
Proof.
  intros Hs. assert (Hr : 0 <= c < 1114112) by (unfold is_scalar, in_range in Hs; lia). unfold encode_utf8.
  destruct (c <? 128) eqn:E1; [|destruct (c <? 2048) eqn:E2; [|destruct (c <? 65536) eqn:E3]]; cbn [app].
  - cbn [from_utf8_lossy]. unfold in_range. by replace (_ && _) with true by lia.
  - rewrite lossy_two by (Z.to_euclidean_division_equations; lia). f_equal. Z.to_euclidean_division_equations; lia.
  - unfold is_scalar, in_range in Hs. rewrite lossy_three; [f_equal|..]; unfold second_ok, in_range; repeat case_match;
      Z.to_euclidean_division_equations; lia.
  - rewrite lossy_four; [f_equal|..]; unfold second_ok, in_range; repeat case_match; Z.to_euclidean_division_equations; lia.
Qed.

Lemma lossy_encode cs : scalars cs -> from_utf8_lossy (encode cs) = cs.
Proof. induction 1 as [|c cs Hc _ IH]; [done|]. unfold encode in *. rewrite fmap_cons. cbn [concat]. by rewrite lossy_char, IH. Qed.

Lemma lossy_prefix cs r : scalars cs -> from_utf8_lossy (encode cs ++ r) = cs ++ from_utf8_lossy r.
Proof.
  induction 1 as [|c cs Hc _ IH]; [done|]. unfold encode in *. rewrite fmap_cons. cbn [concat]. by rewrite <- app_assoc, lossy_char, IH.
Qed.

(** ** The lines of a service *)

(** The lines of a text: what stands between newlines, without carriage returns at the
    end and without the empty ones. *)
Definition text_lines (t : str) : list str := concat (log_line <$> pieces 10 t).

Lemma pieces_cons c l : exists p ps, pieces c l = p :: ps.
Proof. destruct l as [|x l]; cbn; [eauto|]. case_match; [eauto|]. destruct (pieces c l); eauto. Qed.

Lemma forward_from_lines cur l : Forall (fun c => c <> 10) cur ->
  let '(ls, rest) := forward_from cur l in text_lines (reverse cur ++ l) = ls ++ log_line rest /\ Forall (fun c => c <> 10) rest.
Proof.
  revert cur. induction l as [|c l IH]; intros cur Hc; cbn [forward_from].
  - rewrite app_nil_r. unfold text_lines. apply Forall_reverse in Hc. rewrite pieces_none by done. cbn. by rewrite app_nil_r.
  - destruct (c =? 10) eqn:E.
    + apply Z.eqb_eq in E as ->. specialize (IH [] (Forall_nil_2 _)). destruct (forward_from [] l) as [ls rest]. destruct IH as [IH1 IH2].
      split; [|done]. cbn in IH1. unfold text_lines in *. rewrite pieces_at by (by apply Forall_reverse). rewrite fmap_cons. cbn [concat].
      by rewrite IH1, <- app_assoc.
    + specialize (IH (c :: cur)). rewrite reverse_cons, <- app_assoc in IH. apply IH. constructor; [lia|done].
Qed.

Lemma forward_lines t : let '(ls, rest) := forward_complete_lines t in text_lines t = ls ++ log_line rest /\ Forall (fun c => c <> 10) rest.
Proof. apply (forward_from_lines []). constructor. Qed.

Lemma forward_from_app cur l r : forward_from cur (l ++ r) =
  let '(ls, rest) := forward_from cur l in let '(ls', rest') := forward_from (reverse rest) r in (ls ++ ls', rest').
Proof.
  revert cur. induction l as [|c l IH]; intros cur; cbn [forward_from app].
  - rewrite reverse_involutive. by destruct (forward_from cur r).
  - destruct (c =? 10); [|apply IH]. rewrite IH. destruct (forward_from [] l) as [ls rest]. destruct (forward_from (reverse rest) r) as [ls' rest'].
    by rewrite app_assoc.
Qed.

Lemma forward_from_plain cur l : Forall (fun c => c <> 10) l -> forward_from cur l = ([], reverse cur ++ l).
Proof.
  intros H. revert cur. induction H as [|c l Hc _ IH]; intros cur; cbn [forward_from]; [by rewrite app_nil_r|].
  rewrite (proj2 (Z.eqb_neq c 10)) by done. by rewrite IH, reverse_cons, <- app_assoc.
Qed.

(** Text pushed in parts is cut into the same lines. *)
Lemma forward_parts t u : forward_complete_lines (t ++ u) =
  let '(ls, rest) := forward_complete_lines t in let '(ls', rest') := forward_complete_lines (rest ++ u) in (ls ++ ls', rest').
Proof.
  unfold forward_complete_lines. rewrite forward_from_app. pose proof (forward_from_lines [] t (Forall_nil_2 _)) as H.
  destruct (forward_from [] t) as [ls rest]. destruct H as [_ H]. rewrite forward_from_app.
  replace (forward_from [] rest) with (@nil str, rest) by (symmetry; by apply (forward_from_plain [])).
  by destruct (forward_from (reverse rest) u).
Qed.

(** What a drain reads: text in whole characters, interruptions, and then nothing more
    or the end. *)
Inductive Answer := AText (t : str) | AInterrupted.
Definition answer (a : Answer) : ReadResult := match a with AText t => RData (encode t) | AInterrupted => RInterrupted end.
Definition answer_text (a : Answer) : str := match a with AText t => t | AInterrupted => [] end.
Definition said (xs : list Answer) : str := concat (answer_text <$> xs).
Abbreviation spoken := (Forall (fun a => scalars (answer_text a))).

Lemma read_log_said budget xs tail pending : spoken xs -> (length xs <= budget)%nat -> forward_complete_lines pending = ([], pending) ->
  read_log budget ((answer <$> xs) ++ tail) pending =
  let '(ls, rest) := forward_complete_lines (pending ++ said xs) in
  let '(ls', rest', eof) := read_log (budget - length xs) tail rest in (ls ++ ls', rest', eof).
Proof.
  intros H. revert budget pending. induction H as [|a xs Ha _ IH]; intros budget pending Hb Hp.
  { cbn. unfold said. cbn. rewrite app_nil_r, Hp, Nat.sub_0_r. by destruct (read_log budget tail pending) as [[??]?]. }
  cbn [length] in Hb. destruct budget as [|budget]; [lia|]. rewrite fmap_cons. cbn [app length Nat.sub]. destruct a as [t|]; cbn [answer answer_text] in *.
  - cbn [read_log]. rewrite lossy_encode by done. change (said (AText t :: xs)) with (t ++ said xs). rewrite app_assoc, (forward_parts (pending ++ t)).
    pose proof (forward_lines (pending ++ t)) as Hl.
    destruct (forward_complete_lines (pending ++ t)) as [ls rest]. destruct Hl as [_ Hl].
    rewrite IH; [|lia|by apply (forward_from_plain [])].
    destruct (forward_complete_lines (rest ++ said xs)) as [ls' rest']. destruct (read_log (budget - length xs) tail rest') as [[l2 r2] e2].
    by rewrite app_assoc.
  - cbn [read_log]. by apply IH; [lia|].
Qed.

(** The drains of a pipe, one in each turn of the supervisor. *)
Fixpoint drains (rss : list (list ReadResult)) (pipe : option Z) (pending : str) : list str * (option Z * str) :=
  match rss with
  | [] => ([], (pipe, pending))
  | rs :: rss =>
      let '(ls, (pipe, pending)) := drain_log_pipe rs pipe pending in
      let '(ls', x) := drains rss pipe pending in (ls ++ ls', x)
  end.

(** A turn reads its budget, or some text and then no more; the last one finds the end. *)
Definition turn_answers (xs : list Answer) : list ReadResult := (answer <$> xs) ++ [RWouldBlock].
Definition last_answers (xs : list Answer) : list ReadResult := (answer <$> xs) ++ [REof].
Definition turns_ok (xss : list (list Answer)) (last : list Answer) : Prop :=
  Forall (fun xs : list Answer => spoken xs /\ (length xs <= LOG_READ_BUDGET)%nat) xss /\
  spoken last /\ (length last < LOG_READ_BUDGET)%nat.

Lemma drains_said xss last p pending : turns_ok xss last -> forward_complete_lines pending = ([], pending) ->
  drains ((turn_answers <$> xss) ++ [last_answers last]) (Some p) pending =
  (text_lines (pending ++ concat (said <$> xss) ++ said last), (None, [])).
Proof.
  revert pending. induction xss as [|xs xss IH]; intros pending H Hp.
  - destruct H as (_ & Hs & Hb). cbn [fmap list_fmap app drains concat drain_log_pipe]. unfold last_answers.
    rewrite read_log_said by (done || lia). pose proof (forward_lines (pending ++ said last)) as Hl.
    destruct (forward_complete_lines (pending ++ said last)) as [ls rest]. destruct Hl as [Hl _].
    destruct (LOG_READ_BUDGET - length last)%nat as [|k] eqn:Ek; [lia|]. cbn [read_log]. rewrite !app_nil_r. f_equal.
    rewrite Hl. by destruct rest.
  - destruct H as [[[Hs Hb] H']%Forall_cons Hlast]. rewrite fmap_cons. cbn [app drains drain_log_pipe]. unfold turn_answers at 1.
    rewrite read_log_said by (done || lia). pose proof (forward_lines (pending ++ said xs)) as Hl.
    pose proof (fun u => forward_parts (pending ++ said xs) u) as Hparts.
    destruct (forward_complete_lines (pending ++ said xs)) as [ls rest]. destruct Hl as [_ Hl].
    replace (read_log (LOG_READ_BUDGET - length xs) [RWouldBlock] rest) with (@nil str, rest, false)
      by (by destruct (LOG_READ_BUDGET - length xs)%nat). rewrite app_nil_r.
    rewrite IH by (by split || by apply (forward_from_plain [])). f_equal. rewrite (fmap_cons said). cbn [concat]. rewrite <- app_assoc, (app_assoc pending).
    specialize (Hparts (concat (said <$> xss) ++ said last)).
    pose proof (forward_lines (rest ++ concat (said <$> xss) ++ said last)) as H1.
    pose proof (forward_lines ((pending ++ said xs) ++ concat (said <$> xss) ++ said last)) as H2.
    rewrite Hparts in H2. destruct (forward_complete_lines (rest ++ _)) as [l1 r1].
    destruct H1 as [-> _], H2 as [-> _]. by rewrite app_assoc.
Qed.

(** ** From a datagram to its entry *)

Definition word_ok (w : str) : Prop :=
  w <> [] /\ Forall (fun c => is_whitespace c = false /\ is_control_char c = false /\ is_scalar c = true) w.

Lemma find_skip c pat a r : Forall (fun x => x <> c) a ->
  find_str (c :: pat) (a ++ r) = match find_str (c :: pat) r with Some (x, y) => Some (a ++ x, y) | None => None end.
Proof.
  induction 1 as [|x a Hx _ IH]; cbn [app]; [by destruct (find_str (c :: pat) r) as [[]|]|].
  cbn [find_str strip]. rewrite (proj2 (Z.eqb_neq c x)) by congruence. rewrite IH. by destruct (find_str (c :: pat) r) as [[]|].
Qed.

Lemma find_step pat c l : strip pat (c :: l) = None ->
  find_str pat (c :: l) = match find_str pat l with Some (x, y) => Some (c :: x, y) | None => None end.
Proof. intros H. cbn [find_str]. by rewrite H. Qed.

Lemma find_here pat r : find_str pat (pat ++ r) = Some ([], r).
Proof. destruct (pat ++ r) as [|c l] eqn:E; cbn [find_str]; by rewrite <- E, strip_app. Qed.

Lemma words_from_word cur a r : Forall (fun c => is_whitespace c = false) a -> words_from cur (a ++ r) = words_from (reverse a ++ cur) r.
Proof.
  intros H. revert cur. induction H as [|c a Hc _ IH]; intros cur; [done|]. cbn [app words_from]. rewrite Hc, IH, reverse_cons.
  by rewrite <- app_assoc.
Qed.

Lemma words_two a b : a <> [] -> b <> [] -> Forall (fun c => is_whitespace c = false) a -> Forall (fun c => is_whitespace c = false) b ->
  words (a ++ [32] ++ b) = [a; b].
Proof.
  intros Ha Hb Ha' Hb'. assert (Hne : forall l : str, l <> [] -> exists x y, reverse l = x :: y).
  { intros l Hl. destruct (reverse l) eqn:E; [|eauto]. apply (f_equal reverse) in E. by rewrite reverse_involutive in E. }
  unfold words. rewrite words_from_word, app_nil_r by done. destruct (Hne a Ha) as (x & y & Ea). cbn [app words_from].
  rewrite <- (app_nil_r b), words_from_word, app_nil_r by done. destruct (Hne b Hb) as (x' & y' & Eb).
  change (is_whitespace 32) with true. cbn iota. rewrite Ea, Eb. cbn [words_from]. rewrite <- Ea, <- Eb, !reverse_involutive. by rewrite app_nil_r.
Qed.

Lemma word_forall (P : Z -> Prop) w : word_ok w -> (forall c, is_whitespace c = false -> P c) -> Forall P w.
Proof. intros [_ H] HP. eapply Forall_impl; [exact H|]. intros c (Hc & _). by apply HP. Qed.

Lemma sanitize_word w : word_ok w -> sanitize_field w = w.
Proof.
  intros [_ H]. unfold sanitize_field. induction H as [|c w (H1 & H2 & _) _ IH]; [done|]. rewrite fmap_cons, H1, H2. cbn [orb]. by rewrite IH.
Qed.

(** The part of a datagram before the text of the line. *)
Definition datagram_head (service level : str) : str := lit "LEVEL=" ++ level ++ lit " SOURCE=" ++ service ++ lit " MESSAGE=".

(** The text of a line as it reaches the log: carriage returns are blanks, what does not
    fit in a datagram is cut off, NULs at the end are left out, and other control
    characters are question marks. *)
Definition arrived (service level line : str) : str :=
  from_utf8_lossy (take (MAX_DATAGRAM - length (encode (datagram_head service level))) (encode (blank_out [13; 10] line))).
Definition log_entry (n : Z) (level service line : str) : str :=
  lit "[" ++ pad6 n ++ lit "] level=" ++ level ++ lit " source=" ++ service ++ lit " message=" ++
  sanitize_message (trim_end (fun c => mem c [0; 13; 10]) (arrived service level line)).

Lemma parse_service_datagram service level m : word_ok service -> word_ok level ->
  parse_entry (datagram_head service level ++ m) = mkLog level service (trim_end (fun c => mem c [0; 13; 10]) m).
Proof.
  unfold datagram_head. rewrite <- !app_assoc.
  intros Hs Hl. unfold parse_entry, trim_both.
  replace (lit "LEVEL=" ++ level ++ lit " SOURCE=" ++ service ++ lit " MESSAGE=" ++ m)
    with ((lit "LEVEL=" ++ level ++ lit " SOURCE=" ++ service ++ lit " MESSAGE") ++ 61 :: m) by (rewrite <- !app_assoc; done).
  change (trim_start _ ((lit "LEVEL=" ++ ?r) ++ ?q)) with ((lit "LEVEL=" ++ r) ++ q). rewrite trim_end_keep by done.
  replace ((lit "LEVEL=" ++ level ++ lit " SOURCE=" ++ service ++ lit " MESSAGE") ++ 61 :: trim_end (fun c => mem c [0; 13; 10]) m)
    with ((lit "LEVEL=" ++ level) ++ 32 :: (lit "SOURCE=" ++ service) ++ lit " MESSAGE=" ++ trim_end (fun c => mem c [0; 13; 10]) m) by (rewrite <- !app_assoc; done).
  assert (H1 : Forall (fun c => is_whitespace c = false) (lit "LEVEL=" ++ level)).
  { apply Forall_app. split; [by repeat constructor|]. by apply word_forall. }
  assert (H2 : Forall (fun c => is_whitespace c = false) (lit "SOURCE=" ++ service)).
  { apply Forall_app. split; [by repeat constructor|]. by apply word_forall. }
  assert (H32 : forall l, Forall (fun c => is_whitespace c = false) l -> Forall (fun x => x <> 32) l).
  { intros l Hf. eapply Forall_impl; [exact Hf|]. by intros c Hc ->. }
  unfold split_message. change (strip (lit "MESSAGE=") ((lit "LEVEL=" ++ level) ++ _)) with (@None str).
  change (lit " MESSAGE=") with (32 :: lit "MESSAGE="). rewrite find_skip, find_step, find_skip, find_here by auto. rewrite app_nil_r.
  replace (((lit "LEVEL=" ++ level) ++ 32 :: lit "SOURCE=" ++ service) ++ [32])
    with (((lit "LEVEL=" ++ level) ++ [32] ++ lit "SOURCE=" ++ service) ++ [32]) by done.
  rewrite trim_end_blank by (by repeat constructor).
  destruct (solid_app (lit "LEVEL=" ++ level) [32] (lit "SOURCE=" ++ service)) as (_ & _ & Hend); [by apply solid_all..|].
  unfold trim_end. rewrite Hend, reverse_involutive, words_two by done. cbn [entry_fields]. rewrite strip_app.
  change (strip (lit "LEVEL=") (lit "SOURCE=" ++ service)) with (@None str). cbn iota. rewrite strip_app.
  by rewrite !bool_decide_eq_false_2 by (apply Hs || apply Hl).
Qed.

Lemma trim_end_forall (P : Z -> Prop) p l : Forall P l -> Forall P (trim_end p l).
Proof.
  intros H. unfold trim_end. apply Forall_reverse. apply Forall_reverse in H. induction H as [|c k Hc Hk IH]; cbn; [constructor|].
  case_match; [done|by constructor].
Qed.

Lemma text_lines_forall (P : Z -> Prop) t : Forall P t -> Forall (Forall P) (text_lines t).
Proof.
  intros H. assert (Hp : Forall (Forall P) (pieces 10 t)).
  { induction H as [|c t Hc _ IH]; cbn; [by repeat constructor|]. case_match; [by constructor|].
    destruct (pieces 10 t); [by repeat constructor|]. inversion IH; subst. constructor; [by constructor|done]. }
  unfold text_lines. apply Forall_concat, Forall_fmap. eapply Forall_impl; [exact Hp|]. intros l Hl. cbn. unfold log_line.
  pose proof (trim_end_forall P (Z.eqb 13) l Hl) as Ht. destruct (trim_end (Z.eqb 13) l); [constructor|by constructor].
Qed.

Lemma head_scalars service level : word_ok service -> word_ok level -> scalars (datagram_head service level).
Proof.
  intros [_ Hs] [_ Hl]. unfold datagram_head. rewrite !Forall_app. split_and!; try (by repeat constructor).
  - eapply Forall_impl; [exact Hl|]. intros c Hc; cbn beta in Hc; tauto.
  - eapply Forall_impl; [exact Hs|]. intros c Hc; cbn beta in Hc; tauto.
Qed.

(** The log lines of a service, numbered after [n]. *)
Fixpoint log_of (n : Z) (level service : str) (ls : list str) : list str :=
  match ls with [] => [] | l :: ls => log_entry (n + 1) level service l :: log_of (n + 1) level service ls end.

Abbreviation sent level service ls := ((fun line => encode (service_datagram service level line)) <$> ls).
Abbreviation fits level service := ((length (encode (datagram_head service level)) <= MAX_DATAGRAM)%nat).

Lemma encode_app a b : encode (a ++ b) = encode a ++ encode b.
Proof. unfold encode. by rewrite fmap_app, concat_app. Qed.

Lemma service_datagram_head service level line :
  service_datagram service level line = datagram_head service level ++ blank_out [13; 10] line.
Proof. unfold datagram_head, service_datagram. by rewrite <- !app_assoc. Qed.

Lemma datagram_cut service level line : word_ok service -> word_ok level -> fits level service ->
  from_utf8_lossy (take MAX_DATAGRAM (encode (service_datagram service level line))) = datagram_head service level ++ arrived service level line.
Proof.
  intros Hs Hl Hf. rewrite service_datagram_head, encode_app, take_app, take_ge by done. by rewrite lossy_prefix by (by apply head_scalars).
Qed.

Lemma log_records_sent n level service ls : word_ok service -> word_ok level -> fits level service ->
  0 <= n -> n + Z.of_nat (length ls) <= U64_MAX -> log_records n (sent level service ls) = log_of n level service ls.
Proof.
  intros Hs Hl Hf. revert n. induction ls as [|line ls IH]; intros n Hn Hmax; [done|].
  rewrite fmap_cons. cbn [log_records log_of length] in *. unfold saturating_add. rewrite Z.min_r by lia. f_equal.
  - rewrite datagram_cut, parse_service_datagram by done.
    unfold log_record, log_entry. cbn [log_level log_source log_message]. by rewrite !sanitize_word.
  - apply IH; lia.
Qed.

(** A line that fits in a datagram arrives whole. *)
Lemma arrived_whole service level line : scalars line ->
  (length (encode (service_datagram service level line)) <= MAX_DATAGRAM)%nat -> arrived service level line = blank_out [13; 10] line.
Proof.
  intros Hl Hf. rewrite service_datagram_head, encode_app, length_app in Hf. unfold arrived. rewrite take_ge by lia. apply lossy_encode.
  unfold blank_out. apply Forall_fmap. eapply Forall_impl; [exact Hl|]. intros c Hc. cbn. by case_match.
Qed.

Lemma said_scalars xss last : turns_ok xss last -> scalars (concat (said <$> xss) ++ said last).
Proof.
  intros (H1 & H2 & _). assert (Hsaid : forall xs, spoken xs -> scalars (said xs)) by (intros xs H; unfold said; by apply Forall_concat, Forall_fmap).
  apply Forall_app. split; [|by apply Hsaid]. apply Forall_concat, Forall_fmap. eapply Forall_impl; [exact H1|]. intros xs [Hx _]. by apply Hsaid.
Qed.

(** ** Claims *)

(** C38. Whatever the reads, in whole characters, in which a service's output reaches the supervisor, at most sixteen in a turn and the end of the pipe found in the last: the lines forwarded are exactly the lines the service wrote, in order, without empty lines and final carriage returns. When the daemon gets these datagrams and no others, the log has one numbered line for each, with its level, source and text: carriage returns as blanks, trailing zero characters dropped, control characters replaced, and the text cut where the datagram reaches 4096 bytes; a line whose datagram is not longer arrives whole. The service and level are words without blanks or control characters, the head of the datagram fits, and the numbers stay below 2^64. *)
Theorem service_output_logged (service level : str) (xss : list (list Answer)) (last : list Answer) (pipe n : Z) :
  let text := concat (said <$> xss) ++ said last in
  word_ok service -> word_ok level -> turns_ok xss last -> fits level service ->
  0 <= n -> n + Z.of_nat (length (text_lines text)) <= U64_MAX ->
  exists ls, drains ((turn_answers <$> xss) ++ [last_answers last]) (Some pipe) [] = (ls, (None, [])) /\
    log_records n (sent level service ls) = log_of n level service (text_lines text) /\
    Forall (fun line => (length (encode (service_datagram service level line)) <= MAX_DATAGRAM)%nat ->
                        arrived service level line = blank_out [13; 10] line) (text_lines text).
Proof.
  intros text Hs Hl Ht Hf Hn Hmax. exists (text_lines text). split; [by apply drains_said|]. split; [by apply log_records_sent|].
  eapply Forall_impl; [apply (text_lines_forall (fun c => is_scalar c = true) text)|intros line; apply arrived_whole].
  by apply (said_scalars xss last).
Qed.

Lemma service_output_logged_witness : exists ls,
  drains ((turn_answers <$> [replicate 16 (AText (lit "x")); [AText (lit "listen"); AText (lit "ing" ++ [13; 10; 10] ++ lit "b")]; []]) ++
          [last_answers [AInterrupted; AText [233]]]) (Some 4) [] = (ls, (None, [])) /\
  log_records 0 (sent (lit "INFO") (lit "httpd") ls) =
    [lit "[000001] level=INFO source=httpd message=xxxxxxxxxxxxxxxxlistening"; lit "[000002] level=INFO source=httpd message=b" ++ [233]].
Proof.
  destruct (service_output_logged (lit "httpd") (lit "INFO")
    [replicate 16 (AText (lit "x")); [AText (lit "listen"); AText (lit "ing" ++ [13; 10; 10] ++ lit "b")]; []] [AInterrupted; AText [233]] 4 0)
    as (ls & H1 & H2 & _).
  - split; [done|]. by repeat constructor.
  - split; [done|]. by repeat constructor.
  - split_and!; [repeat (constructor; [split; [by repeat constructor|cbn; unfold LOG_READ_BUDGET; lia]|]); constructor|by repeat constructor|
      cbn; unfold LOG_READ_BUDGET; lia].
  - apply Nat.leb_le. vm_compute. reflexivity.
  - lia.
  - vm_compute. discriminate.
  - exists ls. split; [exact H1|exact H2].
Defined.

(** ** Defects *)

(** A character whose bytes come in two reads is lost: each part is replaced. *)
Theorem split_character_lost :
  let bytes := encode (lit "caf" ++ [233; 10]) in
  (drains [[RData bytes]; [REof]] (Some 4) []).1 = [lit "caf" ++ [233]] /\
  (drains [[RData (take 4 bytes); RData (drop 4 bytes)]; [REof]] (Some 4) []).1 = [lit "caf" ++ [REPLACEMENT; REPLACEMENT]].
Proof. vm_compute. split; reflexivity. Qed.

(** A service name may hold blanks, and the log then names another source. *)
Theorem blank_name_misattributed :
  log_source (parse_entry (service_datagram (lit "my SOURCE=kernel") (lit "INFO") (lit "hi"))) = lit "kernel".
Proof. vm_compute. reflexivity. Qed.
