(* ===== verification/TwinitCtl.v ===== *)
(** * The control protocol (src/userspace/apps/twinit/src/protocol.rs and
      src/userspace/apps/twinitctl/src/main.rs)

    The requests twinit answers on its control socket, and the program that sends them. *)

From Stdlib Require Import ZifyBool.
From S2P Require Import Prelude Text Utf UserText TwinitConfig TwinitService.

(** ** twinit *)

Inductive Request := QStatus | QList | QShow (name : str) | QPing | QHelp | QUnknown.

Definition parse_request (line : str) : Request :=
  let line := trim line in
  if eq_ignore_ascii_case line (lit "STATUS") then QStatus
  else if eq_ignore_ascii_case line (lit "LIST") then QList
  else if eq_ignore_ascii_case line (lit "PING") then QPing
  else if eq_ignore_ascii_case line (lit "HELP") then QHelp
  else match (match strip (lit "SHOW ") line with Some n => Some n | None => strip (lit "show ") line end) with
       | Some n => match trim n with [] => QUnknown | n => QShow n end
       | None => QUnknown
       end.

Definition runtime_status_name (s : RuntimeStatus) : str :=
  match s with
  | Stopped => lit "stopped" | Starting => lit "starting" | Running => lit "running"
  | Exited _ => lit "exited" | Failed _ => lit "failed"
  end.

Definition bool_name (b : bool) : str := if b then lit "true" else lit "false".

Definition format_service_status (s : ServiceState) : str :=
  let pid_str := match pid s with Some p => decimal p | None => lit "-1" end in
  let code_part := match status s with Exited c | Failed c => lit " code=" ++ decimal c | _ => [] end in
  lit "name=" ++ name (config s) ++ lit " state=" ++ runtime_status_name (status s) ++ code_part ++ lit " pid=" ++ pid_str ++
  lit " restart=" ++ policy_str (restart (config s)) ++ lit " runlevel=" ++ runlevel (config s) ++
  lit " enabled=" ++ bool_name (enabled (config s)) ++ lit " disabled=" ++ bool_name (disabled s) ++
  lit " restarts=" ++ decimal (restart_count s) ++ lit " exec=" ++ exec (config s).

Definition format_all_services (ss : list ServiceState) : str := concat ((fun s => format_service_status s ++ [10]) <$> ss).
Definition find_service (ss : list ServiceState) (n : str) : option ServiceState := List.find (fun s => str_eqb (name (config s)) n) ss.

Definition help_text : str := concat ((fun s => lit s ++ [10]) <$>
  ["OK"; "STATUS  - show all services"; "LIST    - list all services"; "SHOW N  - show service N";
   "PING    - health check"; "HELP    - this message"]%string).

Definition dispatch (request_line : str) (ss : list ServiceState) : str :=
  match parse_request request_line with
  | QStatus | QList => lit "OK" ++ [10] ++ format_all_services ss
  | QShow n => match find_service ss n with
               | Some s => lit "OK" ++ [10] ++ format_service_status s ++ [10]
               | None => lit "ERR service not found" ++ [10]
               end
  | QPing => lit "OK pong" ++ [10]
  | QHelp => help_text
  | QUnknown => lit "ERR unsupported command" ++ [10]
  end.

(** ** twinitctl *)

Inductive TwinitCommand :=
  | CStatus | CList | CStart (n : str) | CStop (n : str) | CRestart (n : str) | CReload (n : str)
  | CEnable (n : str) | CDisable (n : str) | CShow (n : str) | CPing | CHelp.

Definition require_no_service (args : list str) (c : TwinitCommand) : option TwinitCommand :=
  match args with [_] => Some c | _ => None end.

Definition service_command (args : list str) (k : str -> TwinitCommand) : option TwinitCommand :=
  match args with
  | [_; n] => if bool_decide (n = []) || existsb is_ascii_whitespace n then None else Some (k n)
  | _ => None
  end.

(** [None] is an error, reported with exit status 2. *)
Definition parse_args (args : list str) : option TwinitCommand :=
  match args with
  | [] => None
  | c :: _ =>
      let cmd s := str_eqb c (lit s) in
      if cmd "help" || cmd "--help" || cmd "-h" then require_no_service args CHelp
      else if cmd "status" then require_no_service args CStatus
      else if cmd "list" then require_no_service args CList
      else if cmd "ping" then require_no_service args CPing
      else if cmd "start" then service_command args CStart
      else if cmd "stop" then service_command args CStop
      else if cmd "restart" then service_command args CRestart
      else if cmd "reload" then service_command args CReload
      else if cmd "enable" then service_command args CEnable
      else if cmd "disable" then service_command args CDisable
      else if cmd "show" then service_command args CShow
      else None
  end%string.

Definition encode_command (c : TwinitCommand) : str :=
  match c with
  | CStatus => lit "STATUS" | CList => lit "LIST"
  | CStart n => lit "START " ++ n | CStop n => lit "STOP " ++ n | CRestart n => lit "RESTART " ++ n
  | CReload n => lit "RELOAD " ++ n | CEnable n => lit "ENABLE " ++ n | CDisable n => lit "DISABLE " ++ n
  | CShow n => lit "SHOW " ++ n
  | CPing => lit "PING" | CHelp => lit "HELP"
  end.

(** What is printed, on standard output when the command succeeds. *)
Inductive Outcome := Success (printed : str) | Failure (printed : str) | Usage.

Definition print_response (response : str) : Outcome :=
  let response := trim_end is_whitespace response in
  if str_eqb response (lit "ERR") || begins (lit "ERR ") response || begins (lit "ERR" ++ [10]) response then Failure response
  else match strip (lit "OK" ++ [10]) response with
       | Some body => Success (match body with [] => [] | _ => body ++ [10] end)
       | None => Success (response ++ [10])
       end.

Definition ctl_help : str := concat ((fun s => lit s ++ [10]) <$>
  ["usage: twinitctl <command> [service]"; ""; "commands:"; "  status              show all services";
   "  list                list services"; "  start NAME          start service"; "  stop NAME           stop service";
   "  restart NAME        restart service"; "  reload NAME         reload service"; "  enable NAME         enable service";
   "  disable NAME        disable service"; "  show NAME           show one service"; "  ping                health check";
   "  help                show help"]%string).

(** [send_command_to_twinit] with twinit at the other end of the socket: the request and
    a newline go there, and the response is read to its end. *)
Definition send_command (request : str) (ss : list ServiceState) : option str :=
  let response := dispatch (request ++ [10]) ss in
  match trim response with [] => None | _ => Some response end.

(** [main], without the option that only prints the request. *)
Definition twinitctl (args : list str) (ss : list ServiceState) : Outcome :=
  match parse_args args with
  | None => Usage
  | Some CHelp => Success ctl_help
  | Some c =>
      match send_command (encode_command c) ss with
      | Some response => print_response response
      | None => Failure (lit "twinitctl: twinit returned an empty response")
      end
  end.

(** ** Claims *)

(** What each command prints. *)
Definition ctl_spec (c : TwinitCommand) (ss : list ServiceState) : Outcome :=
  match c with
  | CHelp => Success ctl_help
  | CPing => Success (lit "OK pong" ++ [10])
  | CStatus | CList => Success (match ss with [] => lit "OK" ++ [10] | _ => format_all_services ss end)
  | CShow n => match find_service ss n with
               | Some s => Success (format_service_status s ++ [10])
               | None => Failure (lit "ERR service not found")
               end
  | _ => Failure (lit "ERR unsupported command")
  end.

Lemma trim_end_solid a b : solid b -> trim_end is_whitespace (a ++ b ++ [10]) = a ++ b.
Proof.
  intros (Hb & _ & H). rewrite app_assoc, trim_end_blank by (by repeat constructor). unfold trim_end.
  rewrite reverse_app, (trim_start_app_solid _ (reverse b)); [by rewrite reverse_app, !reverse_involutive| |done].
  intros E. apply Hb. by rewrite <- (reverse_involutive b), E.
Qed.

Lemma status_solid s : solid (exec (config s)) -> solid (format_service_status s).
Proof.
  intros H. unfold format_service_status. set (x := exec (config s)) in *. rewrite !app_assoc.
  match goal with |- solid (?a ++ x) => assert (E : exists m, a = [110] ++ m) end.
  { eexists. rewrite <- !app_assoc. reflexivity. }
  destruct E as (m & ->). rewrite <- app_assoc. apply solid_app; [by apply solid_all; [|repeat constructor]|done].
Qed.

Lemma all_services_solid s ss : Forall (fun s => solid (exec (config s))) (s :: ss) ->
  exists x, format_all_services (s :: ss) = x ++ [10] /\ solid x.
Proof.
  revert s. induction ss as [|s' ss IH]; intros s H; inversion H as [|? ? H1 H2]; subst.
  - exists (format_service_status s). split; [|by apply status_solid]. unfold format_all_services. cbn. by rewrite app_nil_r.
  - destruct (IH s' H2) as (x & E & Hx). exists (format_service_status s ++ [10] ++ x). split.
    + change (format_all_services (s :: s' :: ss)) with ((format_service_status s ++ [10]) ++ format_all_services (s' :: ss)).
      rewrite E, <- !app_assoc. done.
    + apply solid_app; [by apply status_solid|done].
Qed.

(** A response with a body is printed without its first line. *)
Lemma print_body b : solid b -> print_response (lit "OK" ++ [10] ++ b ++ [10]) = Success (b ++ [10]).
Proof.
  intros Hb. unfold print_response. rewrite app_assoc, trim_end_solid by done. cbn -[app]. 
  change ((lit "OK" ++ [10]) ++ b) with (79 :: 75 :: 10 :: b). cbn. destruct b; [by destruct Hb|done].
Qed.

Lemma other_word w x y ss : is_whitespace y = false ->
  (forall r, let l := w ++ y :: r in
    eq_ignore_ascii_case l (lit "STATUS") = false /\ eq_ignore_ascii_case l (lit "LIST") = false /\
    eq_ignore_ascii_case l (lit "PING") = false /\ eq_ignore_ascii_case l (lit "HELP") = false /\
    strip (lit "SHOW ") l = None /\ strip (lit "show ") l = None /\ trim_start is_whitespace l = l) ->
  dispatch (w ++ y :: x) ss = lit "ERR unsupported command" ++ [10].
Proof.
  intros Hy H. unfold dispatch, parse_request, trim, trim_both. destruct (H x) as (_ & _ & _ & _ & _ & _ & ->).
  rewrite trim_end_keep by done. destruct (H (trim_end is_whitespace x)) as (-> & -> & -> & -> & -> & -> & _). done.
Qed.

#[local] Ltac other_words :=
  intros r l; subst l; split_and!; reflexivity.

(** The commands that would change something. *)
Lemma mutation_unsupported c ss :
  match c with CStart _ | CStop _ | CRestart _ | CReload _ | CEnable _ | CDisable _ => True | _ => False end ->
  dispatch (encode_command c ++ [10]) ss = lit "ERR unsupported command" ++ [10].
Proof.
  destruct c as [| |n|n|n|n|n|n|n| |]; try done; intros _; cbn [encode_command]; rewrite <- app_assoc.
  - apply (other_word (lit "STAR") (32 :: n ++ [10]) 84); [done|other_words].
  - apply (other_word (lit "STO") (32 :: n ++ [10]) 80); [done|other_words].
  - apply (other_word (lit "RESTAR") (32 :: n ++ [10]) 84); [done|other_words].
  - apply (other_word (lit "RELOA") (32 :: n ++ [10]) 68); [done|other_words].
  - apply (other_word (lit "ENABL") (32 :: n ++ [10]) 69); [done|other_words].
  - apply (other_word (lit "DISABL") (32 :: n ++ [10]) 69); [done|other_words].
Qed.

Lemma parse_show n : solid n -> parse_request (lit "SHOW " ++ n ++ [10]) = QShow n.
Proof.
  intros Hn. unfold parse_request. replace (lit "SHOW " ++ n ++ [10]) with ([] ++ (lit "SHOW" ++ [32] ++ n) ++ [10]) by (rewrite <- !app_assoc; done).
  rewrite trim_padded; [|constructor|apply solid_app; [by apply solid_all; [|repeat constructor]|done]|by repeat constructor].
  replace (eq_ignore_ascii_case _ (lit "STATUS")) with false by reflexivity. replace (eq_ignore_ascii_case _ (lit "LIST")) with false by reflexivity.
  replace (eq_ignore_ascii_case _ (lit "PING")) with false by reflexivity. replace (eq_ignore_ascii_case _ (lit "HELP")) with false by reflexivity.
  change (lit "SHOW" ++ [32] ++ n) with (lit "SHOW " ++ n). rewrite strip_app, trim_solid by done. by destruct n; [destruct Hn|].
Qed.

Lemma send_ok r ss x : dispatch (r ++ [10]) ss = lit "OK" ++ x -> send_command r ss = Some (lit "OK" ++ x).
Proof.
  intros H. unfold send_command. rewrite H. unfold trim, trim_both. change (trim_start _ (lit "OK" ++ x)) with ([] ++ 79 :: 75 :: x).
  by rewrite trim_end_keep.
Qed.

(** twinitctl against twinit: what is asked, and what is printed. *)
Theorem twinitctl_shows (args : list str) (ss : list ServiceState) (c : TwinitCommand) :
  parse_args args = Some c -> (forall n, c = CShow n -> solid n) -> Forall (fun s => solid (exec (config s))) ss ->
  twinitctl args ss = ctl_spec c ss.
Proof.
  intros Hc Hn Hs. unfold twinitctl. rewrite Hc.
  assert (Hm : match c with CStart _ | CStop _ | CRestart _ | CReload _ | CEnable _ | CDisable _ => True | _ => False end ->
    match send_command (encode_command c) ss with Some r => print_response r | None => Failure (lit "twinitctl: twinit returned an empty response") end
    = Failure (lit "ERR unsupported command")).
  { intros H. unfold send_command. rewrite mutation_unsupported by exact H. vm_compute. reflexivity. }
  assert (Hall : forall r, dispatch (r ++ [10]) ss = lit "OK" ++ [10] ++ format_all_services ss ->
    match send_command r ss with Some r => print_response r | None => Failure (lit "twinitctl: twinit returned an empty response") end
    = Success (match ss with [] => lit "OK" ++ [10] | _ => format_all_services ss end)).
  { intros r Hr. rewrite (send_ok _ _ _ Hr). destruct ss as [|s ss]; [done|].
    destruct (all_services_solid s ss Hs) as (x & -> & Hx). exact (print_body x Hx). }
  destruct c; cbn [ctl_spec]; try (by apply Hm); try (by apply Hall); [|done|done].
  assert (Hd : dispatch (encode_command (CShow n) ++ [10]) ss = match find_service ss n with
    | Some s => lit "OK" ++ [10] ++ format_service_status s ++ [10] | None => lit "ERR service not found" ++ [10] end).
  { cbn [encode_command]. unfold dispatch. rewrite <- app_assoc, parse_show by auto. done. }
  destruct (find_service ss n) as [s|] eqn:E; [|unfold send_command; by rewrite Hd].
  assert (Hx : solid (format_service_status s)).
  { apply status_solid. rewrite Forall_forall in Hs. apply Hs. apply find_some in E as [E _]. by apply list_elem_of_In. }
  rewrite (send_ok _ _ _ Hd). exact (print_body _ Hx).
Qed.

Definition demo_shell : ServiceState :=
  start_service (mkSpawn None None (Some 5)) (ServiceState_new (fallback_shell DEFAULT_RUNLEVEL) 0).

Lemma twinitctl_shows_witness :
  twinitctl [lit "show"; lit "fallback-shell"] [demo_shell] =
  Success (lit "name=fallback-shell state=running pid=5 restart=always runlevel=default enabled=true disabled=false restarts=0 exec=/bin/oksh" ++ [10]).
Proof.
  apply (twinitctl_shows [lit "show"; lit "fallback-shell"] [demo_shell] (CShow (lit "fallback-shell"))).
  - reflexivity.
  - intros n [= <-]. apply (bool_decide_unpack _). vm_compute. exact I.
  - constructor; [apply (bool_decide_unpack _); vm_compute; exact I|constructor].
Defined.

(** ** Defects *)

(** The commands that start, stop, restart, reload, enable and disable a service are
    offered and sent, and always fail. *)
Theorem mutating_commands_fail n ss :
  n <> [] -> existsb is_ascii_whitespace n = false -> twinitctl [lit "start"; n] ss = Failure (lit "ERR unsupported command").
Proof.
  intros Hn Hw. unfold twinitctl. change (parse_args [lit "start"; n]) with (service_command [lit "start"; n] CStart).
  cbn [service_command]. rewrite bool_decide_eq_false_2, Hw by done. cbn [orb]. unfold send_command. rewrite mutation_unsupported by done.
  vm_compute. reflexivity.
Qed.

(** A name may hold a newline, and the status of the service then shows another one. *)
Theorem status_line_forged :
  let c := fallback_shell DEFAULT_RUNLEVEL in
  let forged := mkService (lit "a" ++ [10] ++ lit "name=b state=running") [] (exec c) [] true (runlevel c) Never Foreground Console Console None in
  length (lines (format_all_services [ServiceState_new forged 0])) = 2%nat.
Proof. vm_compute. reflexivity. Qed.
