(* ===== verification/TwinitBroker.v ===== *)
(** * The bootstrap broker and the turns of twinit
      (src/userspace/apps/twinit/src/bootstrap.rs, control.rs and service.rs)

    A client of the bootstrap socket is a record of what it sends and of what the system
    calls made for it answer.  An operation gives the messages it writes to the stream of
    the client, in order, and the connects it queues: none, one or more of each, so that a
    path that returns without a word is one that writes nothing. *)

From Stdlib Require Import ZifyBool.
From S2P Require Import Prelude Text Utf UserText TwinitConfig TwinitService TwinitCtl.

Definition ON_DEMAND_TIMEOUT : Z := 5000000000.

(** ** Requests *)

Inductive BootstrapRequest := Register (target : str) (txpc_wire : bool) | Connect (target : str) (txpc_wire : bool).

Definition parse_bootstrap_request (payload : str) : option BootstrapRequest :=
  let line := trim payload in
  match strip (lit "REGISTER ") line with
  | Some target => Some (Register (trim target) false)
  | None =>
      match strip (lit "CONNECT ") line with
      | Some target => Some (Connect (trim target) false)
      | None =>
          match lines payload with
          | [] => None
          | first :: rest =>
              let first := trim first in
              if str_eqb first (lit "TXPC_REGISTER") then
                match rest with second :: _ => Some (Register (trim second) true) | [] => None end
              else if str_eqb first (lit "TXPC_CONNECT") then
                match rest with second :: _ => Some (Connect (trim second) true) | [] => None end
              else None
          end
      end
  end.

Definition ok_response (txpc_wire : bool) : str := if txpc_wire then lit "TXPC_OK" ++ [10] else lit "OK" ++ [10].

(** ** Clients *)

Record Client := mkPeer {
  cl_id : nat;
  cl_cred : option (Z * Z);                   (* the process and the user, or an error *)
  cl_message : option (list Z * option Z);    (* the bytes and the descriptor received *)
  cl_spawn : Spawn;                           (* a service started for it *)
  cl_clone : bool; cl_pair : bool;            (* [try_clone], [socketpair] *)
  cl_to_service : bool; cl_to_client : bool;  (* the two [send_fd] *)
}.

Record PendingConnect := mkPending { pc_client : Client; pc_target : str; pc_pid : Z; pc_uid : Z; pc_wire : bool; pc_created : Z }.

(** A message to a client: a line written with [write_all], whose error is ignored, or a
    descriptor sent with a line. *)
Inductive Reply := RText (line : str) | RHandoff (line : str).
Abbreviation replies := (list (nat * Reply)).

Definition say (s : string) : Reply := RText (lit s ++ [10]).

Definition offers (target : str) (s : ServiceState) : bool :=
  match txpc (config s) with Some t => str_eqb (txpc_name t) target | None => false end.
Definition target_of (target : str) (ss : list ServiceState) : option ServiceState := List.find (offers target) ss.

Definition client_caps (p : Z) (ss : list ServiceState) : option (list str) :=
  match List.find (has_pid p) ss with
  | Some s => match txpc (config s) with
              | Some t => match client t with Some c => Some (capabilities c) | None => None end
              | None => None
              end
  | None => None
  end.

Definition allowed (p : option TxpcPolicy) (uid : Z) (caps : option (list str)) : bool :=
  match p with
  | None => false
  | Some p =>
      if allow_all p then true
      else if mem uid (allow_uids p) then true
      else match require_cap p with
           | [] => false
           | req => match caps with
                    | Some caps => forallb (fun r => existsb (str_eqb r) caps) req
                    | None => false
                    end
           end
  end.

(** What [complete_connect] writes: nothing when the descriptor cannot be sent. *)
Definition complete_connect (c : Client) (ss : list ServiceState) (p uid : Z) (target : str) (wire : bool) : list Reply :=
  match target_of target ss with
  | None => [say "NOT_FOUND"]
  | Some s =>
      let pol := match txpc (config s) with Some t => policy t | None => None end in
      if negb (allowed pol uid (client_caps p ss)) then [say "DENIED policy"]
      else if negb (cl_pair c) then [say "ERR syscall_failed"]
      else if negb (cl_to_service c) then [say "ERR dispatch_failed"]
      else if negb (cl_to_client c) then []
      else [RHandoff (ok_response wire)]
  end.

(** ** Operations *)

(** The first service that satisfies [p] is changed. *)
Fixpoint update_first (p : ServiceState -> bool) (f : ServiceState -> ServiceState) (ss : list ServiceState) : list ServiceState :=
  match ss with [] => [] | s :: ss => if p s then f s :: ss else s :: update_first p f ss end.

Definition handle_register (ss : list ServiceState) (p : Z) (target : str) (fd : option Z) (wire : bool) : list ServiceState * list Reply :=
  match fd with
  | None => (ss, [say "ERR missing_fd"])
  | Some fd =>
      match List.find (has_pid p) ss with
      | None => (ss, [say "DENIED unregistered_pid"])
      | Some s =>
          match txpc (config s) with
          | None => (ss, [say "DENIED not_a_txpc_service"])
          | Some t =>
              if negb (str_eqb (txpc_name t) target) then (ss, [say "DENIED name_mismatch"])
              else match registered_txpc_fd s with
                   | Some _ => (ss, [say "DENIED already_registered"])
                   | None => (update_first (has_pid p) (set_registered (Some fd)) ss, [RText (ok_response wire)])
                   end
          end
      end
  end.

(** The services after, the connects queued and the messages written. *)
Definition handle_connect (c : Client) (ss : list ServiceState) (p uid : Z) (target : str) (wire : bool) (now : Z)
  : list ServiceState * list PendingConnect * list Reply :=
  match target_of target ss with
  | None => (ss, [], [say "NOT_FOUND"])
  | Some s =>
      match registered_txpc_fd s with
      | Some _ => (ss, [], complete_connect c ss p uid target wire)
      | None =>
          if negb (is_on_demand (config s)) then (ss, [], [say "NOT_FOUND"])
          else
            let '(ss, down) :=
              match pid s with
              | Some _ => (ss, false)
              | None => (update_first (offers target) (start_service (cl_spawn c)) ss,
                         match pid (start_service (cl_spawn c) s) with None => true | Some _ => false end)
              end in
            if down : bool then (ss, [], [say "NOT_FOUND"])
            else if cl_clone c then (ss, [mkPending c target p uid wire now], [])
            else (ss, [], [say "ERR syscall_failed"])
      end
  end.

Definition handle_client (c : Client) (now : Z) (ss : list ServiceState) : list ServiceState * list PendingConnect * list Reply :=
  match cl_cred c with
  | None => (ss, [], [])
  | Some (p, uid) =>
      match cl_message c with
      | None => (ss, [], [])
      | Some (bytes, fd) =>
          match parse_bootstrap_request (from_utf8_lossy bytes) with
          | Some (Register target wire) => let '(ss, rs) := handle_register ss p target fd wire in (ss, [], rs)
          | Some (Connect target wire) => handle_connect c ss p uid target wire now
          | None => (ss, [], [say "ERR unknown_command"])
          end
      end
  end.

(** The messages of one client. *)
Definition to_client (c : Client) (rs : list Reply) : replies := pair (cl_id c) <$> rs.

Fixpoint handle_clients (cs : list (Client * Z)) (ss : list ServiceState) : list ServiceState * list PendingConnect * replies :=
  match cs with
  | [] => (ss, [], [])
  | (c, now) :: cs =>
      let '(ss, ps, rs) := handle_client c now ss in
      let '(ss, ps', rs') := handle_clients cs ss in
      (ss, ps ++ ps', to_client c rs ++ rs')
  end.

(** One turn of the loop of [drain_pending]: what it pushes on [still_pending] and what it
    writes. *)
Definition drain_one (pc : PendingConnect) (now : Z) (ss : list ServiceState) : list PendingConnect * list Reply :=
  if ON_DEMAND_TIMEOUT <=? saturating_sub now (pc_created pc) then ([], [say "NOT_FOUND"])
  else match target_of (pc_target pc) ss with
       | None => ([], [say "NOT_FOUND"])
       | Some s =>
           match registered_txpc_fd s, pid s with
           | None, None => ([], [say "NOT_FOUND"])
           | None, Some _ => ([pc], [])
           | Some _, _ => ([], complete_connect (pc_client pc) ss (pc_pid pc) (pc_uid pc) (pc_target pc) (pc_wire pc))
           end
       end.

Fixpoint drain_pending (ps : list PendingConnect) (now : Z) (ss : list ServiceState) : list PendingConnect * replies :=
  match ps with
  | [] => ([], [])
  | pc :: ps =>
      let '(keep, rs) := drain_one pc now ss in
      let '(still, rs') := drain_pending ps now ss in
      (keep ++ still, to_client (pc_client pc) rs ++ rs')
  end.

(** [BootstrapServer::poll_clients]. *)
Definition bootstrap_poll (accepted : list (Client * Z)) (now : Z) (ss : list ServiceState) (pending : list PendingConnect)
  : list ServiceState * list PendingConnect * replies :=
  let '(ss, new, rs) := handle_clients accepted ss in
  let '(still, rs') := drain_pending (pending ++ new) now ss in (ss, still, rs ++ rs').

(** ** A turn of [supervise] *)

Record Turn := mkTurn {
  t_exits : list (Z * Z * ExitCalls);
  t_requests : list str;
  t_accepted : list (Client * Z); t_now : Z;
  t_reads : list (list ReadResult * list ReadResult);
}.

Record Twinit := mkTwinit {
  services : list ServiceState; pending_connects : list PendingConnect;
  responses : list str; answered : replies; logged : list str;
}.

(** [ControlServer::poll_clients]: the lines of the clients that are waiting. *)
Definition control_poll (requests : list str) (ss : list ServiceState) : list str := (fun r => dispatch r ss) <$> requests.

Fixpoint reap (xs : list (Z * Z * ExitCalls)) (ss : list ServiceState) : list ServiceState * list str :=
  match xs with
  | [] => (ss, [])
  | (p, st, w) :: xs =>
      let '(ss, d) := handle_child_exit p st w ss in let '(ss, d') := reap xs ss in (ss, d ++ d')
  end.

Definition turn (t : Turn) (m : Twinit) : Twinit :=
  let '(ss, d) := reap (t_exits t) (services m) in
  let out := control_poll (t_requests t) ss in
  let '(ss, ps, rs) := bootstrap_poll (t_accepted t) (t_now t) ss (pending_connects m) in
  let '(ss, d') := drain_service_logs (t_reads t) ss in
  mkTwinit ss ps (responses m ++ out) (answered m ++ rs) (logged m ++ d ++ d').

(** [main]: the services, those not on demand started in order. *)
Fixpoint start_all (w : nat -> Spawn) (i : nat) (ss : list ServiceState) : list ServiceState :=
  match ss with
  | [] => []
  | s :: ss => (if is_on_demand (config s) then s else start_service (w i) s) :: start_all w (S i) ss
  end.
Definition boot (directory : option (list DirEntry)) (level : str) (now : nat -> Z) (w : nat -> Spawn) : Twinit :=
  mkTwinit (start_all w 0 (imap (fun i c => ServiceState_new c (now i)) (boot_services directory level))) [] [] [] [].
Definition run (ts : list Turn) (m : Twinit) : Twinit := fold_left (fun m t => turn t m) ts m.
