(* ===== verification/TwinitSpec.v ===== *)
(** * What twinit promises

    Restarts, the state of the services over a run, and the answers of the broker. *)

From Stdlib Require Import ZifyBool.
From S2P Require Import Prelude Text Utf UserText TwinitConfig TwinitService TwinitCtl TwinitBroker.

(** ** Restarts *)

(** The restarts granted at some times, each with the start of its window. *)
Fixpoint granted (ts : list Z) (s : ServiceState) : list (Z * Z) :=
  match ts with
  | [] => []
  | t :: ts => match record_restart_attempt s t with
               | (s, true) => (t, restart_window_started s) :: granted ts s
               | (s, false) => granted ts s
               end
  end.

(** The window and the count that decide. *)
Lemma record_cases s t : restart_window_started s <= t ->
  let w := restart_window_started s in let n := restart_count s in
  if RESTART_WINDOW <? t - w then record_restart_attempt s t = (set_restarts 1 t (set_restarts 0 t s), true)
  else if RESTART_LIMIT <=? n then record_restart_attempt s t = (s, false)
  else record_restart_attempt s t = (set_restarts (n + 1) w s, true).
Proof.
  intros Hw. cbv zeta. unfold record_restart_attempt, saturating_sub. rewrite Z.max_r by lia.
  destruct (RESTART_WINDOW <? _); [done|]. by destruct (RESTART_LIMIT <=? restart_count s).
Qed.

Definition times_from (w : Z) (ts : list Z) : Prop := StronglySorted Z.le (w :: ts).

Lemma times_next w t ts : times_from w (t :: ts) -> w <= t /\ times_from w ts /\ times_from t ts.
Proof.
  intros H. inversion H as [|? ? H1 H2]; subst. inversion H2 as [|? ? H3 H4]; subst. split_and!; [done| |done].
  constructor; [by inversion H1|done].
Qed.

Lemma granted_windows ts s : times_from (restart_window_started s) ts ->
  Forall (fun g => restart_window_started s <= g.2 /\ g.2 <= g.1 <= g.2 + RESTART_WINDOW) (granted ts s).
Proof.
  revert s. induction ts as [|t ts IH]; intros s H; [constructor|]. apply times_next in H as (Hw & H1 & H2).
  pose proof (record_cases s t Hw) as Hc. cbv zeta in Hc. cbn [granted]. destruct (RESTART_WINDOW <? t - restart_window_started s) eqn:E.
  - rewrite Hc. cbn [restart_window_started set_restarts]. constructor; [cbn; unfold RESTART_WINDOW; lia|].
    eapply Forall_impl; [by apply IH|]. cbn [restart_window_started set_restarts]. intros g Hg. cbn beta in Hg. lia.
  - destruct (RESTART_LIMIT <=? restart_count s); rewrite Hc; [by apply IH|]. constructor; [cbn; lia|].
    exact (IH (set_restarts (restart_count s + 1) (restart_window_started s) s) H1).
Qed.

(** Five restarts use a window up. *)
Lemma granted_beyond ts s j g : times_from (restart_window_started s) ts -> 0 <= restart_count s ->
  RESTART_LIMIT - restart_count s <= Z.of_nat j -> granted ts s !! j = Some g -> restart_window_started s + RESTART_WINDOW < g.2.
Proof.
  revert s j. induction ts as [|t ts IH]; intros s j H Hn Hj Hg; [done|]. apply times_next in H as (Hw & H1 & H2).
  pose proof (record_cases s t Hw) as Hc. cbv zeta in Hc. cbn [granted] in Hg. destruct (RESTART_WINDOW <? t - restart_window_started s) eqn:E.
  - rewrite Hc in Hg. destruct j as [|j]; [injection Hg as <-; cbn; lia|]. cbn in Hg.
    pose proof (granted_windows ts (set_restarts 1 t (set_restarts 0 t s)) H2) as Hf. rewrite Forall_lookup in Hf. specialize (Hf j g Hg).
    cbn [restart_window_started set_restarts] in Hf. lia.
  - destruct (RESTART_LIMIT <=? restart_count s) eqn:El; rewrite Hc in Hg; [by apply (IH s j)|].
    destruct j as [|j]; [lia|]. cbn in Hg. apply (IH (set_restarts (restart_count s + 1) (restart_window_started s) s) j); cbn; try done; lia.
Qed.

Lemma granted_five ts s i g g' : times_from (restart_window_started s) ts -> 0 <= restart_count s ->
  granted ts s !! i = Some g -> granted ts s !! (i + 5)%nat = Some g' -> g.2 + RESTART_WINDOW < g'.2.
Proof.
  revert s i. induction ts as [|t ts IH]; intros s i H Hn Hg Hg'; [done|]. apply times_next in H as (Hw & H1 & H2).
  pose proof (record_cases s t Hw) as Hc. cbv zeta in Hc. cbn [granted] in Hg, Hg'.
  destruct (RESTART_WINDOW <? t - restart_window_started s) eqn:E.
  - rewrite Hc in Hg, Hg'. destruct i as [|i].
    + injection Hg as <-. cbn in Hg'. eapply (granted_beyond ts (set_restarts 1 t (set_restarts 0 t s)) 4); try done; cbn; unfold RESTART_LIMIT; lia.
    + cbn in Hg, Hg'. by apply (IH (set_restarts 1 t (set_restarts 0 t s)) i).
  - destruct (RESTART_LIMIT <=? restart_count s) eqn:El; rewrite Hc in Hg, Hg'; [by apply (IH s i)|]. destruct i as [|i].
    + injection Hg as <-. cbn in Hg'. eapply (granted_beyond ts (set_restarts (restart_count s + 1) _ s) 4); cbn; try done; unfold RESTART_LIMIT; lia.
    + cbn in Hg, Hg'. apply (IH (set_restarts (restart_count s + 1) (restart_window_started s) s) i); cbn; try done; lia.
Qed.

(** ** One service over a run *)

(** Runs exactly when it has a process; a disabled one has none; registered only while
    it runs; at most five restarts counted. *)
Definition service_ok (s : ServiceState) : Prop :=
  (is_Some (pid s) <-> status s = Running) /\ (disabled s = true -> pid s = None) /\
  (is_Some (registered_txpc_fd s) -> is_Some (pid s)) /\ 0 <= restart_count s <= RESTART_LIMIT.

(** What stays: the configuration, and being disabled. *)
Definition later (s s' : ServiceState) : Prop := config s' = config s /\ (disabled s = true -> disabled s' = true).

#[export] Instance later_preorder : PreOrder later.
Proof. split; [by intros s|]. intros a b c [H1 H2] [H3 H4]. split; [congruence|auto]. Qed.

Definition sound (s s' : ServiceState) : Prop := service_ok s -> later s s' /\ service_ok s'.
Abbreviation all_sound := (Forall2 sound).

Lemma sound_refl s : sound s s.
Proof. by intros H. Qed.
Lemma all_sound_refl ss : all_sound ss ss.
Proof. induction ss; constructor; auto using sound_refl. Qed.
Lemma sound_trans a b c : sound a b -> sound b c -> sound a c.
Proof. intros H1 H2 Ha. destruct (H1 Ha) as [L1 Hb]. destruct (H2 Hb) as [L2 Hc]. split; [by transitivity b|done]. Qed.
Lemma all_sound_trans a b c : all_sound a b -> all_sound b c -> all_sound a c.
Proof. intros H. revert c. induction H as [|x y a b Hx _ IH]; intros c H2; inversion H2; subst; constructor; eauto using sound_trans. Qed.

Lemma start_sound w s : sound s (start_service w s).
Proof.
  intros H. pose proof H as (H1 & H2 & H3 & H4). unfold start_service. destruct (pid s) as [p|] eqn:Ep; [by split|].
  destruct (disabled s) eqn:Ed; [by split|].
  destruct (sp_fork w) as [p|]; (split; [split; cbn; [done|congruence]|]); unfold service_ok; cbn; rewrite ?Ep, ?Ed.
  - split_and!; [split; eauto|done|eauto|lia|lia].
  - split_and!; [|done|exact H3|lia|lia]. split; [by intros []|done].
Qed.

Lemma drain_service_sound o e s : sound s (drain_service o e s).1.
Proof.
  intros H. unfold drain_service. destruct (drain_log_pipe o _ _) as [l x], (drain_log_pipe e _ _) as [l' x']. cbn. split; [done|exact H].
Qed.

Lemma exit_status_stopped o : exit_status o <> Running.
Proof. destruct o; cbn; [by case_match|done..]. Qed.

Lemma record_keeps s now s' b : record_restart_attempt s now = (s', b) -> 0 <= restart_count s <= RESTART_LIMIT ->
  (config s' = config s /\ pid s' = pid s /\ status s' = status s /\ disabled s' = disabled s /\ registered_txpc_fd s' = registered_txpc_fd s) /\
  0 <= restart_count s' <= RESTART_LIMIT.
Proof.
  unfold record_restart_attempt, RESTART_LIMIT. intros H Hc. destruct (RESTART_WINDOW <? _); cbn [restart_count set_restarts] in H.
  - injection H as <- <-. cbn. split_and!; done || lia.
  - destruct (5 <=? restart_count s) eqn:E; injection H as <- <-; cbn; split_and!; done || lia.
Qed.

Lemma exit_sound st w s : sound s (service_exit st w s).1.
Proof.
  intros H. unfold service_exit. set (s1 := mkState _ None _ _ _ _ _ _ _ _ None).
  assert (E : exists logs s2, drain_service (ex_stdout w) (ex_stderr w) s1 = (s2, logs) /\ config s2 = config s /\ pid s2 = None /\
    disabled s2 = disabled s /\ registered_txpc_fd s2 = None /\ restart_count s2 = restart_count s).
  { unfold drain_service. destruct (drain_log_pipe (ex_stdout w) _ _) as [l x], (drain_log_pipe (ex_stderr w) _ _) as [l' x']. by eexists _, _. }
  destruct E as (logs & s2 & -> & E1 & E2 & E3 & E4 & E5). set (o := decode_wait_status st). set (s3 := set_status (exit_status o) s2).
  assert (H3 : later s s3 /\ service_ok s3).
  { split; [split; [exact E1|by rewrite <- E3]|]. unfold service_ok. cbn [s3 set_status pid status disabled registered_txpc_fd restart_count].
    rewrite E2, E4, E5. split_and!; [|done|by intros []|apply H..]. split; [by intros []|]. intros Hr. by apply exit_status_stopped in Hr. }
  destruct (negb _); [exact H3|]. destruct H3 as [HL (Ha & Hb & Hc & Hd)].
  destruct (record_restart_attempt s3 (ex_now w)) as [s4 []] eqn:Er; apply record_keeps in Er as ((R1 & R2 & R3 & R4 & R5) & R6); try exact Hd.
  - assert (H4 : service_ok s4) by (unfold service_ok; rewrite R2, R3, R4, R5; done). cbn [fst]. destruct (start_sound (ex_spawn w) s4 H4) as [HL' Hok].
    split; [|exact Hok]. transitivity s3; [done|]. transitivity s4; [|done]. split; [done|by rewrite R4].
  - cbn [fst]. split.
    + transitivity s3; [done|]. split; [done|]. done.
    + unfold service_ok, set_disabled. cbn. rewrite R2, R3, R5. split_and!; [exact Ha|by intros _|exact Hc|apply R6..].
Qed.

Lemma child_exit_sound p st w ss : all_sound ss (handle_child_exit p st w ss).1.
Proof.
  induction ss as [|s ss IH]; cbn; [constructor|]. destruct (has_pid p s).
  - pose proof (exit_sound st w s) as H. destruct (service_exit st w s) as [s' l]. constructor; [done|apply all_sound_refl].
  - destruct (handle_child_exit p st w ss) as [ss' l]. constructor; [apply sound_refl|done].
Qed.

Lemma reap_sound xs ss : all_sound ss (reap xs ss).1.
Proof.
  revert ss. induction xs as [|[[p st] w] xs IH]; intros ss; cbn; [apply all_sound_refl|].
  pose proof (child_exit_sound p st w ss) as H. destruct (handle_child_exit p st w ss) as [ss1 d]. specialize (IH ss1).
  destruct (reap xs ss1) as [ss2 d']. by apply (all_sound_trans _ ss1).
Qed.

Lemma drain_logs_sound rs ss : all_sound ss (drain_service_logs rs ss).1.
Proof.
  revert rs. induction ss as [|s ss IH]; intros rs; cbn; [constructor|]. destruct (default ([], []) (head rs)) as [o e].
  pose proof (drain_service_sound o e s) as H. destruct (drain_service o e s) as [s' d]. specialize (IH (tail rs)).
  destruct (drain_service_logs (tail rs) ss) as [ss' d']. by constructor.
Qed.

Lemma update_first_all (P : ServiceState -> ServiceState -> Prop) p f ss : (forall s, P s s) -> (forall s, p s = true -> P s (f s)) ->
  Forall2 P ss (update_first p f ss).
Proof.
  intros Hr Hf. induction ss as [|s ss IH]; cbn; [constructor|]. destruct (p s) eqn:E; constructor; auto. clear IH. induction ss; constructor; auto.
Qed.

Lemma register_service_sound p fd s : has_pid p s = true -> sound s (set_registered (Some fd) s).
Proof.
  intros Hp (H1 & H2 & H3 & H4). apply bool_decide_eq_true in Hp. split; [done|]. unfold service_ok. cbn. rewrite Hp in *. eauto 10.
Qed.

(** What one client may do to the services. *)
Inductive client_step (ss : list ServiceState) : list ServiceState -> Prop :=
  | CSame : client_step ss ss
  | CRegister p fd : client_step ss (update_first (has_pid p) (set_registered (Some fd)) ss)
  | CLaunch target w : client_step ss (update_first (offers target) (start_service w) ss).

Lemma client_steps c now ss : client_step ss (handle_client c now ss).1.1.
Proof.
  unfold handle_client. destruct (cl_cred c) as [[p uid]|]; [|constructor]. destruct (cl_message c) as [[b fd]|]; [|constructor].
  destruct (parse_bootstrap_request _) as [[target wire|target wire]|]; [| |constructor].
  - unfold handle_register. repeat (case_match; simplify_eq/=; try constructor).
  - unfold handle_connect. repeat (case_match; simplify_eq/=; try constructor).
Qed.

Lemma client_step_sound ss ss' : client_step ss ss' -> all_sound ss ss'.
Proof.
  intros [|p fd|target w]; [apply all_sound_refl|apply update_first_all; eauto using sound_refl, register_service_sound|].
  apply update_first_all; auto using sound_refl, start_sound.
Qed.

Lemma handle_clients_sound cs ss : all_sound ss (handle_clients cs ss).1.1.
Proof.
  revert ss. induction cs as [|[c now] cs IH]; intros ss; cbn; [apply all_sound_refl|].
  pose proof (client_step_sound _ _ (client_steps c now ss)) as H. destruct (handle_client c now ss) as [[ss1 ps] rs]. specialize (IH ss1).
  destruct (handle_clients cs ss1) as [[ss2 ps'] rs']. cbn in *. by apply (all_sound_trans _ ss1).
Qed.

Lemma bootstrap_poll_sound cs now ss ps : all_sound ss (bootstrap_poll cs now ss ps).1.1.
Proof.
  unfold bootstrap_poll. pose proof (handle_clients_sound cs ss) as H. destruct (handle_clients cs ss) as [[ss1 new] rs].
  by destruct (drain_pending (ps ++ new) now ss1).
Qed.

Lemma turn_sound t m : all_sound (services m) (services (turn t m)).
Proof.
  unfold turn. pose proof (reap_sound (t_exits t) (services m)) as H1. destruct (reap _ _) as [ss1 d].
  pose proof (bootstrap_poll_sound (t_accepted t) (t_now t) ss1 (pending_connects m)) as H2. destruct (bootstrap_poll _ _ _ _) as [[ss2 ps] rs].
  pose proof (drain_logs_sound (t_reads t) ss2) as H3. destruct (drain_service_logs _ _) as [ss3 d']. cbn in *.
  by apply (all_sound_trans _ ss1), (all_sound_trans _ ss2).
Qed.

Lemma run_sound ts m : all_sound (services m) (services (run ts m)).
Proof.
  revert m. induction ts as [|t ts IH]; intros m; [apply all_sound_refl|]. apply (all_sound_trans _ (services (turn t m))); [apply turn_sound|apply IH].
Qed.

Lemma boot_ok dir level now w : Forall service_ok (services (boot dir level now w)) /\
  config <$> services (boot dir level now w) = boot_services dir level.
Proof.
  unfold boot. cbn [services]. assert (H : forall i ss, Forall service_ok ss -> Forall service_ok (start_all w i ss) /\ config <$> start_all w i ss = config <$> ss).
  { intros i ss Hs. revert i. induction Hs as [|s ss Hs _ IH]; intros i; cbn; [by split|]. destruct (IH (S i)) as [I1 I2].
    destruct (is_on_demand (config s)); [by rewrite I2; split; [constructor|]|]. destruct (start_sound (w i) s Hs) as [[E _] Hok].
    split; [by constructor|]. by rewrite E, I2. }
  assert (Hnew : forall n cs, Forall service_ok (imap (fun i c => ServiceState_new c (now (n + i)%nat)) cs) /\
    config <$> imap (fun i c => ServiceState_new c (now (n + i)%nat)) cs = cs).
  { intros n cs. revert n. induction cs as [|c cs IH]; intros n; [by split|]. rewrite imap_cons. destruct (IH (S n)) as [I1 I2].
    rewrite (imap_ext (_ ∘ S) (fun i c => ServiceState_new c (now (S n + i)%nat))) by (intros i x _; cbn; by rewrite Nat.add_succ_r).
    split; [|rewrite fmap_cons, I2; done]. constructor; [|done].
    unfold service_ok, RESTART_LIMIT. cbn. split_and!; try lia; try done. }
  destruct (Hnew 0%nat (boot_services dir level)) as [N1 N2]. destruct (H 0%nat _ N1) as [H1 H2]. split; [exact H1|]. etransitivity; [exact H2|exact N2].
Qed.

(** ** Claims *)

(** C39. Whenever a service asks for restarts, of eleven restarts granted in a row the last comes more than ten seconds after the first. *)
Theorem restart_rate (s : ServiceState) (ts : list Z) (i : nat) (a b : Z) :
  times_from (restart_window_started s) ts -> 0 <= restart_count s ->
  (granted ts s).*1 !! i = Some a -> (granted ts s).*1 !! (i + 10)%nat = Some b -> RESTART_WINDOW < b - a.
Proof.
  intros Ht Hn Ha Hb. rewrite list_lookup_fmap in Ha, Hb. destruct (granted ts s !! i) as [g|] eqn:G0; [|done]. injection Ha as <-.
  destruct (granted ts s !! (i + 10)%nat) as [g2|] eqn:G2; [|done]. injection Hb as <-.
  destruct (lookup_lt_is_Some_2 (granted ts s) (i + 5)) as [g1 G1]; [apply lookup_lt_Some in G2; lia|].
  pose proof (granted_five ts s i g g1 Ht Hn G0 G1). pose proof (granted_five ts s (i + 5) g1 g2 Ht Hn G1) as H5.
  rewrite <- Nat.add_assoc in H5. specialize (H5 G2). pose proof (granted_windows ts s Ht) as Hw. rewrite Forall_lookup in Hw.
  pose proof (Hw _ _ G0). pose proof (Hw _ _ G2). lia.
Qed.

Lemma restart_rate_witness : RESTART_WINDOW < 20000000002 - 0.
Proof.
  apply (restart_rate (ServiceState_new (fallback_shell DEFAULT_RUNLEVEL) 0)
    [0; 0; 0; 1; 2; 3; 10000000001; 10000000002; 10000000002; 10000000002; 10000000002; 10000000003; 20000000002] 0).
  - unfold times_from. cbn. repeat constructor; lia.
  - cbn. lia.
  - reflexivity.
  - reflexivity.
Defined.

(** The exits of one service. *)
Definition exits (xs : list (Z * ExitCalls)) (s : ServiceState) : ServiceState := fold_left (fun s x => (service_exit x.1 x.2 s).1) xs s.

Lemma exit_counts st w s : let s' := (service_exit st w s).1 in
  restart_required (restart (config s)) (decode_wait_status st) = true -> 0 <= restart_count s <= RESTART_LIMIT ->
  restart_window_started s <= ex_now w <= restart_window_started s + RESTART_WINDOW ->
  config s' = config s /\ restart_window_started s' = restart_window_started s /\
  if RESTART_LIMIT <=? restart_count s then disabled s' = true /\ pid s' = None /\ restart_count s' = restart_count s
  else restart_count s' = restart_count s + 1.
Proof.
  intros s' Hr Hc Hw. subst s'. unfold service_exit. set (s1 := mkState _ None _ _ _ _ _ _ _ _ None).
  assert (E : exists logs s2, drain_service (ex_stdout w) (ex_stderr w) s1 = (s2, logs) /\ config s2 = config s /\ pid s2 = None /\
    restart_window_started s2 = restart_window_started s /\ restart_count s2 = restart_count s).
  { unfold drain_service. destruct (drain_log_pipe (ex_stdout w) _ _) as [l x], (drain_log_pipe (ex_stderr w) _ _) as [l' x']. by eexists _, _. }
  destruct E as (logs & s2 & -> & E1 & E2 & E3 & E4). set (s3 := set_status _ s2).
  change (config s3) with (config s2). rewrite E1, Hr. cbn [negb].
  pose proof (record_cases s3 (ex_now w)) as Hrec. cbn [s3 set_status restart_window_started restart_count] in Hrec. rewrite E3, E4 in Hrec.
  specialize (Hrec (proj1 Hw)). cbv zeta in Hrec. replace (RESTART_WINDOW <? _) with false in Hrec by lia.
  destruct (RESTART_LIMIT <=? restart_count s); rewrite Hrec; cbn [fst].
  - split_and!; done.
  - assert (Hs : forall w s, config (start_service w s) = config s /\ restart_window_started (start_service w s) = restart_window_started s /\
      restart_count (start_service w s) = restart_count s) by (intros w' s'; unfold start_service; repeat case_match; done).
    destruct (Hs (ex_spawn w) (set_restarts (restart_count s + 1) (restart_window_started s) s3)) as (-> & -> & ->). done.
Qed.

(** A service that keeps failing. *)
Theorem crash_loop_disabled (s : ServiceState) (xs : list (Z * ExitCalls)) :
  0 <= restart_count s <= RESTART_LIMIT ->
  Forall (fun x => restart_required (restart (config s)) (decode_wait_status x.1) = true /\
                   restart_window_started s <= ex_now x.2 <= restart_window_started s + RESTART_WINDOW) xs ->
  RESTART_LIMIT < restart_count s + Z.of_nat (length xs) ->
  disabled (exits xs s) = true /\ pid (exits xs s) = None.
Proof.
  intros Hc Hx Hn. assert (H : forall xs s, 0 <= restart_count s <= RESTART_LIMIT ->
    Forall (fun x => restart_required (restart (config s)) (decode_wait_status x.1) = true /\
                     restart_window_started s <= ex_now x.2 <= restart_window_started s + RESTART_WINDOW) xs ->
    RESTART_LIMIT < restart_count s + Z.of_nat (length xs) \/ (restart_count s = RESTART_LIMIT /\ disabled s = true /\ pid s = None) ->
    disabled (exits xs s) = true /\ pid (exits xs s) = None); [|by apply H; auto].
  clear. induction xs as [|[st w] xs IH]; intros s Hc Hx Hd; [destruct Hd as [Hd|Hd]; [cbn in Hd; lia|tauto]|].
  inversion Hx as [|? ? [H1 H2] Hx']; subst. cbn [fst snd] in *. pose proof (exit_counts st w s H1 Hc H2) as (E1 & E2 & E3).
  change (exits ((st, w) :: xs) s) with (exits xs (service_exit st w s).1).
  destruct (RESTART_LIMIT <=? restart_count s) eqn:El; [destruct E3 as (E3 & E4 & E5)|].
  - apply IH; [by rewrite E5|by rewrite E1, E2|right; rewrite E5; split; [lia|done]].
  - apply IH; [rewrite E3; lia|by rewrite E1, E2|]. left. rewrite E3. destruct Hd as [Hd|[Hd _]]; [cbn [length] in Hd; lia|lia].
Qed.

Definition crash (now : Z) : Z * ExitCalls := (256, mkExit [] [] now (mkSpawn None None (Some 9))).

Lemma crash_loop_disabled_witness :
  let s := start_service (mkSpawn None None (Some 5)) (ServiceState_new (fallback_shell DEFAULT_RUNLEVEL) 0) in
  pid (exits (crash <$> [1; 2; 3; 4; 5]) s) = Some 9 /\
  disabled (exits (crash <$> [1; 2; 3; 4; 5; 6]) s) = true /\ pid (exits (crash <$> [1; 2; 3; 4; 5; 6]) s) = None.
Proof.
  split; [reflexivity|]. apply (crash_loop_disabled (start_service (mkSpawn None None (Some 5)) (ServiceState_new (fallback_shell DEFAULT_RUNLEVEL) 0))
    (crash <$> [1; 2; 3; 4; 5; 6])).
  - vm_compute. split; discriminate.
  - repeat constructor; vm_compute; discriminate.
  - reflexivity.
Defined.

(** C40. Over any run from any boot the services are those of the boot; each runs exactly when it has a process, is registered only while it runs and counts at most five restarts; a disabled one stays disabled, without a process. *)
Theorem services_sound (dir : option (list DirEntry)) (level : str) (now : nat -> Z) (w : nat -> Spawn) (ts ts' : list Turn) :
  let m := run ts (boot dir level now w) in let m' := run ts' m in
  config <$> services m' = boot_services dir level /\ Forall service_ok (services m') /\
  Forall2 (fun s s' => disabled s = true -> disabled s' = true /\ pid s' = None) (services m) (services m').
Proof.
  intros m m'. destruct (boot_ok dir level now w) as [Hok Hcfg].
  assert (Hstep : forall ss ss', all_sound ss ss' -> Forall service_ok ss -> Forall service_ok ss' /\ config <$> ss' = config <$> ss /\
    Forall2 (fun s s' => disabled s = true -> disabled s' = true /\ pid s' = None) ss ss').
  { induction 1 as [|s s' ss ss' Hs _ IH]; intros H; [by split_and!|]. inversion H as [|? ? H1 H2]; subst. destruct (IH H2) as (I1 & I2 & I3).
    destruct (Hs H1) as [[E Hd] Hs']. split_and!; [by constructor|by rewrite !fmap_cons, E, I2|]. constructor; [|done].
    intros D. split; [auto|]. apply Hs'. auto. }
  destruct (Hstep _ _ (run_sound ts _) Hok) as (H1 & H2 & _). destruct (Hstep _ _ (run_sound ts' m) H1) as (H3 & H4 & H5).
  split_and!; [|done|done]. etransitivity; [exact H4|]. etransitivity; [exact H2|exact Hcfg].
Qed.

(** ** The broker *)

(** What a connect asks for. *)
Definition asks (c : Client) (p uid : Z) (target : str) : Prop :=
  exists bytes fd wire, cl_cred c = Some (p, uid) /\ cl_message c = Some (bytes, fd) /\
    parse_bootstrap_request (from_utf8_lossy bytes) = Some (Connect target wire).
Definition pending_ok (pc : PendingConnect) : Prop := asks (pc_client pc) (pc_pid pc) (pc_uid pc) (pc_target pc).


(** The clients that may be left without a word: nothing is known of the sender, nothing
    could be received, or the connection granted could not be sent to it. *)
Definition unserved (c : Client) : Prop :=
  cl_cred c = None \/ cl_message c = None \/ (cl_to_client c = false /\ exists p uid target, asks c p uid target).

(** What is done for one client at a time. *)
Inductive outcome (c : Client) : list PendingConnect -> list Reply -> Prop :=
  | OTold r : outcome c [] [r]
  | OWaits pc : pc_client pc = c -> pending_ok pc -> outcome c [pc] []
  | OSilent : unserved c -> outcome c [] [].

Lemma complete_outcome c ss p uid target wire : asks c p uid target -> outcome c [] (complete_connect c ss p uid target wire).
Proof.
  intros Ha. unfold complete_connect. destruct (target_of target ss) as [s|]; [|constructor]. destruct (negb (allowed _ _ _)); [constructor|].
  destruct (cl_pair c), (cl_to_service c), (cl_to_client c) eqn:E; cbn; constructor. right. right. eauto.
Qed.

Lemma handle_client_outcome c now ss : outcome c (handle_client c now ss).1.2 (handle_client c now ss).2.
Proof.
  unfold handle_client. destruct (cl_cred c) as [[p uid]|] eqn:Ec; [|constructor; by left].
  destruct (cl_message c) as [[b fd]|] eqn:Em; [|constructor; right; by left].
  destruct (parse_bootstrap_request _) as [[target wire|target wire]|] eqn:Ep; [| |constructor].
  - unfold handle_register. repeat (case_match; simplify_eq/=; try constructor).
  - assert (Ha : asks c p uid target) by (by exists b, fd, wire). unfold handle_connect.
    destruct (target_of target ss) as [s|]; [|constructor]. destruct (registered_txpc_fd s); [by apply complete_outcome|].
    repeat (case_match; simplify_eq/=; try by constructor).
Qed.

Lemma drain_one_outcome pc now ss : pending_ok pc ->
  outcome (pc_client pc) (drain_one pc now ss).1 (drain_one pc now ss).2 /\
  Forall (fun q => q = pc /\ saturating_sub now (pc_created q) < ON_DEMAND_TIMEOUT) (drain_one pc now ss).1.
Proof.
  intros Hok. unfold drain_one. destruct (ON_DEMAND_TIMEOUT <=? _) eqn:E; [split; constructor|].
  destruct (target_of (pc_target pc) ss) as [s|]; [|split; constructor]. destruct (registered_txpc_fd s); [split; [by apply complete_outcome|constructor]|].
  destruct (pid s); cbn; split; repeat constructor; done || lia.
Qed.

(** ** Every client is accounted for *)

(** Of the clients [cs], those of [ps] wait, those of [rs] were told, each one message, and
    the others may be left without a word. *)
Definition accounted (cs : list Client) (ps : list PendingConnect) (rs : replies) : Prop :=
  exists told silent, told ++ (pc_client <$> ps) ++ silent ≡ₚ cs /\ cl_id <$> told = rs.*1 /\ Forall unserved silent.

Lemma accounted_one c ps rs : outcome c ps rs -> accounted [c] ps (to_client c rs).
Proof. intros [r|pc <- _|H]; [by exists [c], []|by exists [], []|by exists [], [c]; split_and!; [..|constructor]]. Qed.

Lemma accounted_app c1 p1 r1 c2 p2 r2 : accounted c1 p1 r1 -> accounted c2 p2 r2 -> accounted (c1 ++ c2) (p1 ++ p2) (r1 ++ r2).
Proof.
  intros (t1 & s1 & H1 & I1 & F1) (t2 & s2 & H2 & I2 & F2). exists (t1 ++ t2), (s1 ++ s2).
  split_and!; [|by rewrite !fmap_app, I1, I2|by apply Forall_app]. rewrite fmap_app, <- H1, <- H2.
  rewrite <- !app_assoc. f_equiv. rewrite !app_assoc. f_equiv. rewrite (Permutation_app_comm t2), <- !app_assoc. f_equiv.
  rewrite (Permutation_app_comm (pc_client <$> p2) s1), !app_assoc. f_equiv. apply Permutation_app_comm.
Qed.

Lemma accounted_then cs ps rs ps' rs' : accounted cs ps rs -> accounted (pc_client <$> ps) ps' rs' -> accounted cs ps' (rs ++ rs').
Proof.
  intros (t1 & s1 & H1 & I1 & F1) (t2 & s2 & H2 & I2 & F2). exists (t1 ++ t2), (s2 ++ s1).
  split_and!; [|by rewrite !fmap_app, I1, I2|by apply Forall_app]. rewrite <- H1, <- H2. by rewrite <- !app_assoc.
Qed.

Lemma outcome_pending c ps rs : outcome c ps rs -> Forall (fun pc => pc_client pc = c /\ pending_ok pc) ps.
Proof. intros [r|pc E H|H]; repeat constructor; done. Qed.

Lemma clients_accounted cs ss : accounted cs.*1 (handle_clients cs ss).1.2 (handle_clients cs ss).2 /\
  Forall (fun pc => pc_client pc ∈ cs.*1 /\ pending_ok pc) (handle_clients cs ss).1.2.
Proof.
  revert ss. induction cs as [|[c now] cs IH]; intros ss; cbn [handle_clients]; [by split; [exists [], []|constructor]|].
  pose proof (handle_client_outcome c now ss) as Ho. destruct (handle_client c now ss) as [[ss1 ps] rs]. specialize (IH ss1).
  destruct (handle_clients cs ss1) as [[ss2 ps'] rs']. cbn [fst snd] in *. destruct IH as [I1 I2]. rewrite fmap_cons. cbn [fst]. split.
  - change (c :: cs.*1) with ([c] ++ cs.*1). by apply accounted_app; [apply accounted_one|].
  - apply Forall_app. split.
    + eapply Forall_impl; [exact (outcome_pending _ _ _ Ho)|]. intros pc [-> H]. split; [by apply elem_of_cons; left|done].
    + eapply Forall_impl; [exact I2|]. intros pc [H1 H2]. split; [by apply elem_of_cons; right|done].
Qed.

Lemma pending_accounted ps now ss : Forall pending_ok ps ->
  accounted (pc_client <$> ps) (drain_pending ps now ss).1 (drain_pending ps now ss).2 /\
  Forall (fun pc => pc ∈ ps /\ saturating_sub now (pc_created pc) < ON_DEMAND_TIMEOUT) (drain_pending ps now ss).1.
Proof.
  induction 1 as [|pc ps Hpc _ IH]; cbn [drain_pending]; [by split; [exists [], []|constructor]|].
  destruct (drain_one_outcome pc now ss Hpc) as [Ho Ht]. destruct (drain_one pc now ss) as [keep rs], (drain_pending ps now ss) as [still rs'].
  cbn [fst snd] in *. destruct IH as [I1 I2]. rewrite fmap_cons. split.
  - change (pc_client pc :: (pc_client <$> ps)) with ([pc_client pc] ++ (pc_client <$> ps)). by apply accounted_app; [apply accounted_one|].
  - apply Forall_app. split.
    + eapply Forall_impl; [exact Ht|]. intros q [-> H]. split; [by apply elem_of_cons; left|done].
    + eapply Forall_impl; [exact I2|]. intros q [H1 H2]. split; [by apply elem_of_cons; right|done].
Qed.

Lemma pending_timeout ps now ss pc : pc ∈ ps -> ON_DEMAND_TIMEOUT <= saturating_sub now (pc_created pc) ->
  (cl_id (pc_client pc), say "NOT_FOUND") ∈ (drain_pending ps now ss).2.
Proof.
  intros Hin Ht. induction ps as [|q ps IH]; [by apply elem_of_nil in Hin|]. cbn [drain_pending].
  destruct (drain_one q now ss) as [keep rs] eqn:E, (drain_pending ps now ss) as [still rs']. cbn [snd] in *. apply elem_of_app.
  apply elem_of_cons in Hin as [<-|Hin]; [left|right; auto]. unfold drain_one in E. replace (ON_DEMAND_TIMEOUT <=? _) with true in E by lia.
  injection E as <- <-. by apply elem_of_cons; left.
Qed.

Definition accepted (ts : list Turn) : list Client := concat ((fun t => (t_accepted t).*1) <$> ts).

(** The state of the broker after the turns [ts]. *)
Definition broker_ok (ts : list Turn) (m : Twinit) : Prop :=
  accounted (accepted ts) (pending_connects m) (answered m) /\ Forall pending_ok (pending_connects m).

(** A turn adds [new] to what was written. *)
Lemma turn_accounted ts t m : broker_ok ts m -> broker_ok (ts ++ [t]) (turn t m) /\
  Forall (fun pc => saturating_sub (t_now t) (pc_created pc) < ON_DEMAND_TIMEOUT) (pending_connects (turn t m)) /\
  exists new, answered (turn t m) = answered m ++ new /\
    forall pc, pc ∈ pending_connects m -> ON_DEMAND_TIMEOUT <= saturating_sub (t_now t) (pc_created pc) ->
      (cl_id (pc_client pc), say "NOT_FOUND") ∈ new.
Proof.
  intros [Ha Hok]. unfold turn, bootstrap_poll. destruct (reap _ _) as [ss1 d]. destruct (clients_accounted (t_accepted t) ss1) as [H1 H1'].
  destruct (handle_clients _ _) as [[ss2 pn] rs]. cbn [fst snd] in *.
  assert (Hall : Forall pending_ok (pending_connects m ++ pn)).
  { apply Forall_app. split; [done|]. eapply Forall_impl; [exact H1'|]. by intros pc [_ ?]. }
  destruct (pending_accounted _ (t_now t) ss2 Hall) as [H2 H2']. pose proof (pending_timeout (pending_connects m ++ pn) (t_now t) ss2) as Hto.
  destruct (drain_pending _ _ _) as [still rs']. cbn [fst snd] in *. destruct (drain_service_logs _ _) as [ss3 d']. unfold broker_ok.
  cbn [answered pending_connects]. rewrite app_assoc. split_and!.
  - unfold accepted. rewrite fmap_app, concat_app. cbn. rewrite app_nil_r.
    eapply accounted_then; [by apply accounted_app|done].
  - eapply Forall_impl; [exact H2'|]. intros pc [H _]. by eapply Forall_forall in Hall.
  - eapply Forall_impl; [exact H2'|]. by intros pc [_ ?].
  - exists (rs ++ rs'). split; [by rewrite app_assoc|]. intros pc Hpc Ht. apply elem_of_app. right. apply Hto; [|done]. apply elem_of_app. by left.
Qed.

Lemma run_app ts t m : run (ts ++ [t]) m = turn t (run ts m).
Proof. unfold run. by rewrite fold_left_app. Qed.

Lemma run_accounted ts dir level now w : broker_ok ts (run ts (boot dir level now w)).
Proof.
  induction ts as [|t ts IH] using rev_ind; [split; [by exists [], []|constructor]|]. rewrite run_app. by apply turn_accounted.
Qed.

(** C36. Over any run from any boot, every client accepted on the bootstrap socket is accounted for once: it was written exactly one message, or it waits, or it was left without a word, which happens only when its credentials or its message could not be read or a connection granted could not be sent to it. A client that has waited five seconds is told NOT_FOUND in that turn, and those that still wait after a turn have waited less. *)
Theorem clients_answered (dir : option (list DirEntry)) (level : str) (now : nat -> Z) (w : nat -> Spawn) (ts : list Turn) (t : Turn) :
  let m := run ts (boot dir level now w) in let m' := turn t m in
  (exists told silent, told ++ (pc_client <$> pending_connects m') ++ silent ≡ₚ accepted (ts ++ [t]) /\
     cl_id <$> told = (answered m').*1 /\ Forall unserved silent) /\
  (exists new, answered m' = answered m ++ new /\
     forall pc, pc ∈ pending_connects m -> ON_DEMAND_TIMEOUT <= t_now t - pc_created pc ->
       (cl_id (pc_client pc), say "NOT_FOUND") ∈ new) /\
  Forall (fun pc => t_now t - pc_created pc < ON_DEMAND_TIMEOUT) (pending_connects m').
Proof.
  intros m m'. destruct (turn_accounted ts t m (run_accounted ts dir level now w)) as ([Ha _] & Ht & new & Hnew & Hto).
  split_and!; [exact Ha| |].
  - exists new. split; [exact Hnew|]. intros pc Hpc Hd. apply Hto; [done|]. unfold saturating_sub, ON_DEMAND_TIMEOUT in *. lia.
  - eapply Forall_impl; [exact Ht|]. intros pc Hp. cbn beta in Hp. unfold saturating_sub in Hp. lia.
Qed.

(** ** Who is connected *)

Definition permits (pol : TxpcPolicy) (uid p : Z) (ss : list ServiceState) : Prop :=
  allow_all pol = true \/ uid ∈ allow_uids pol \/
  (require_cap pol <> [] /\ exists x t c, x ∈ ss /\ pid x = Some p /\ txpc (config x) = Some t /\ client t = Some c /\
    Forall (fun r => r ∈ capabilities c) (require_cap pol)).

(** The service asked for has registered, and its policy lets the client in. *)
Definition entitled (c : Client) (ss : list ServiceState) : Prop :=
  exists p uid target s t pol, asks c p uid target /\ target_of target ss = Some s /\ is_Some (registered_txpc_fd s) /\
    txpc (config s) = Some t /\ policy t = Some pol /\ permits pol uid p ss.

(** What the clients of one poll do to a service. *)
Definition grows (s s' : ServiceState) : Prop :=
  config s' = config s /\ (forall p, pid s = Some p -> pid s' = Some p) /\
  (is_Some (registered_txpc_fd s) -> is_Some (registered_txpc_fd s')).

Lemma grows_refl s : grows s s.
Proof. by split_and!. Qed.
Lemma grows_trans a b c : grows a b -> grows b c -> grows a c.
Proof. intros (H1 & H2 & H3) (H4 & H5 & H6). split_and!; [congruence|auto|auto]. Qed.
Lemma all_grow_refl ss : Forall2 grows ss ss.
Proof. induction ss; constructor; auto using grows_refl. Qed.
Lemma all_grow_trans a b c : Forall2 grows a b -> Forall2 grows b c -> Forall2 grows a c.
Proof. intros H. revert c. induction H as [|x y a b Hx _ IH]; intros c H2; inversion H2; subst; constructor; eauto using grows_trans. Qed.

Lemma client_step_grows ss ss' : client_step ss ss' -> Forall2 grows ss ss'.
Proof.
  intros [|p fd|target w]; [apply all_grow_refl|apply update_first_all; auto using grows_refl; intros s _; split_and!; cbn; eauto|].
  apply update_first_all; auto using grows_refl. intros s _. unfold start_service. destruct (pid s) as [p|] eqn:E; [apply grows_refl|].
  destruct (disabled s); [apply grows_refl|]. destruct (sp_fork w); split_and!; cbn; rewrite ?E; by eauto.
Qed.

Lemma handle_clients_grow cs ss : Forall2 grows ss (handle_clients cs ss).1.1.
Proof.
  revert ss. induction cs as [|[c now] cs IH]; intros ss; cbn; [apply all_grow_refl|].
  pose proof (client_step_grows _ _ (client_steps c now ss)) as H. destruct (handle_client c now ss) as [[ss1 ps] rs]. specialize (IH ss1).
  destruct (handle_clients cs ss1) as [[ss2 ps'] rs']. cbn in *. by apply (all_grow_trans _ ss1).
Qed.

Lemma drain_logs_grow rs ss : Forall2 grows ss (drain_service_logs rs ss).1.
Proof.
  revert rs. induction ss as [|s ss IH]; intros rs; cbn; [constructor|]. destruct (default ([], []) (head rs)) as [o e].
  assert (H : grows s (drain_service o e s).1).
  { unfold drain_service. destruct (drain_log_pipe o _ _) as [l x], (drain_log_pipe e _ _) as [l' x']. by split_and!. }
  destruct (drain_service o e s) as [s' d]. specialize (IH (tail rs)). destruct (drain_service_logs (tail rs) ss) as [ss' d']. by constructor.
Qed.

Lemma target_grows target ss ss' s : Forall2 grows ss ss' -> target_of target ss = Some s -> exists s', target_of target ss' = Some s' /\ grows s s'.
Proof.
  induction 1 as [|x y ss ss' Hx _ IH]; [done|]. unfold target_of in *. cbn [List.find].
  assert (E : offers target y = offers target x) by (unfold offers; by destruct Hx as (-> & _)). rewrite E.
  destruct (offers target x); [intros [= ->]; eauto|exact IH].
Qed.

Lemma entitled_grows c ss ss' : Forall2 grows ss ss' -> entitled c ss -> entitled c ss'.
Proof.
  intros H (p & uid & target & s & t & pol & Ha & Ht & Hr & Hx & Hp & Hperm). destruct (target_grows _ _ _ _ H Ht) as (s' & Ht' & G1 & G2 & G3).
  exists p, uid, target, s', t, pol. split_and!; [done|done|auto|by rewrite G1|done|]. destruct Hperm as [Hq|[Hq|(Hq & x & tx & cl & Hin & Hpid & H1 & H2 & H3)]];
    [by left|by right; left|right; right]. split; [done|]. apply list_elem_of_lookup in Hin as (i & Hi). destruct (Forall2_lookup_l _ _ _ _ _ H Hi) as (x' & Hi' & X1 & X2 & _).
  exists x', tx, cl. split_and!; [by eapply list_elem_of_lookup_2|auto|by rewrite X1|done|done].
Qed.

Lemma allowed_permits pol uid p ss : allowed (Some pol) uid (client_caps p ss) = true -> permits pol uid p ss.
Proof.
  unfold allowed, permits. destruct (allow_all pol); [by left|]. destruct (mem uid (allow_uids pol)) eqn:Em.
  { intros _. right. left. unfold mem in Em. apply existsb_exists in Em as (x & Hx & E). apply Z.eqb_eq in E as ->. by apply list_elem_of_In. }
  destruct (require_cap pol) as [|r rs] eqn:Er; [done|]. unfold client_caps. destruct (List.find (has_pid p) ss) as [x|] eqn:Ef; [|done].
  destruct (txpc (config x)) as [t|] eqn:Et; [|done]. destruct (client t) as [cl|] eqn:Ec; [|done]. intros Hall. right. right. split; [done|].
  apply find_some in Ef as [Hin Hp]. apply bool_decide_eq_true in Hp. exists x, t, cl. split_and!; [by apply list_elem_of_In|done..|].
  apply Forall_forall. intros y Hy. rewrite forallb_forall in Hall. apply list_elem_of_In in Hy. specialize (Hall y Hy).
  apply existsb_exists in Hall as (z & Hz & E). apply bool_decide_eq_true in E as ->. by apply list_elem_of_In.
Qed.

Lemma complete_entitled c ss p uid target wire line s : asks c p uid target -> target_of target ss = Some s -> is_Some (registered_txpc_fd s) ->
  RHandoff line ∈ complete_connect c ss p uid target wire -> entitled c ss.
Proof.
  assert (Hno : forall x, RHandoff line ∉ [say x]) by (intros x ?%list_elem_of_singleton; done).
  intros Ha Ht Hr H. unfold complete_connect in H. rewrite Ht in H. destruct (txpc (config s)) as [t|] eqn:Et; [|by apply Hno in H].
  destruct (policy t) as [pol|] eqn:Ep; [|by apply Hno in H]. destruct (allowed (Some pol) uid (client_caps p ss)) eqn:Eall; [|by apply Hno in H].
  exists p, uid, target, s, t, pol. split_and!; try done. by apply allowed_permits.
Qed.

Lemma handle_client_handoff c now ss line : RHandoff line ∈ (handle_client c now ss).2 -> entitled c (handle_client c now ss).1.1.
Proof.
  assert (Hno : forall x, RHandoff line ∉ [RText x]) by (intros x ?%list_elem_of_singleton; done).
  unfold handle_client. destruct (cl_cred c) as [[p uid]|] eqn:Ec; [|by intros ?%elem_of_nil]. destruct (cl_message c) as [[b fd]|] eqn:Em; [|by intros ?%elem_of_nil].
  destruct (parse_bootstrap_request _) as [[target wire|target wire]|] eqn:Ep; [| |by intros ?%Hno].
  - unfold handle_register. intros H. repeat (case_match; simplify_eq/=; try by apply Hno in H).
  - unfold handle_connect. destruct (target_of target ss) as [s|] eqn:Et; [|by intros ?%Hno]. destruct (registered_txpc_fd s) as [f|] eqn:Er.
    + cbn [fst snd]. intros H. eapply (complete_entitled c ss p uid target wire line s); try done. by exists b, fd, wire.
    + intros H. repeat (case_match; simplify_eq/=; try by apply Hno in H || by apply elem_of_nil in H).
Qed.

Lemma to_client_handoff id line c rs : (id, RHandoff line) ∈ to_client c rs -> cl_id c = id /\ RHandoff line ∈ rs.
Proof. intros (r & E & H)%list_elem_of_fmap. by injection E as -> ->. Qed.

Lemma handle_clients_handoff cs ss id line : (id, RHandoff line) ∈ (handle_clients cs ss).2 ->
  exists c, c ∈ cs.*1 /\ cl_id c = id /\ entitled c (handle_clients cs ss).1.1.
Proof.
  revert ss. induction cs as [|[c now] cs IH]; intros ss; cbn [handle_clients]; [by intros ?%elem_of_nil|].
  pose proof (handle_client_handoff c now ss line) as Hc. destruct (handle_client c now ss) as [[ss1 ps] rs]. specialize (IH ss1).
  pose proof (handle_clients_grow cs ss1) as Hg. destruct (handle_clients cs ss1) as [[ss2 ps'] rs']. cbn [fst snd] in *.
  rewrite fmap_cons. cbn [fst]. intros [H|H]%elem_of_app.
  - apply to_client_handoff in H as [E H]. exists c. split_and!; [by apply elem_of_cons; left|done|]. apply (entitled_grows c ss1); auto.
  - destruct (IH H) as (c' & H1 & H2 & H3). exists c'. split; [by apply elem_of_cons; right|done].
Qed.

Lemma drain_pending_handoff ps now ss id line : Forall pending_ok ps -> (id, RHandoff line) ∈ (drain_pending ps now ss).2 ->
  exists pc, pc ∈ ps /\ cl_id (pc_client pc) = id /\ entitled (pc_client pc) ss.
Proof.
  induction 1 as [|pc ps Hpc _ IH]; cbn [drain_pending]; [by intros ?%elem_of_nil|]. destruct (drain_one pc now ss) as [keep rs] eqn:E, (drain_pending ps now ss) as [still rs'].
  cbn [snd] in *. intros [H|H]%elem_of_app; [|destruct (IH H) as (q & H1 & H2); exists q; split; [by apply elem_of_cons; right|done]].
  apply to_client_handoff in H as [Ei H]. exists pc. split_and!; [by apply elem_of_cons; left|done|].
  assert (Hno : forall x, RHandoff line ∉ [say x]) by (intros x ?%list_elem_of_singleton; done).
  unfold drain_one in E. destruct (ON_DEMAND_TIMEOUT <=? _); [injection E as <- <-; by apply Hno in H|].
  destruct (target_of (pc_target pc) ss) as [s|] eqn:Et; [|injection E as <- <-; by apply Hno in H].
  destruct (registered_txpc_fd s) as [f|] eqn:Er; [|destruct (pid s); injection E as <- <-; [by apply elem_of_nil in H|by apply Hno in H]].
  injection E as <- <-. by eapply (complete_entitled (pc_client pc) ss).
Qed.

(** C26. Over any run from any boot, a connection is handed over in a turn only to a client that asked for a service which is registered then and whose policy lets it in: to all, to the user of the client, or to a running service with every capability required. *)
Theorem handoff_entitled (dir : option (list DirEntry)) (level : str) (now : nat -> Z) (w : nat -> Spawn) (ts : list Turn) (t : Turn)
    (id : nat) (line : str) :
  let m := run ts (boot dir level now w) in
  (id, RHandoff line) ∈ answered (turn t m) ->
  (id, RHandoff line) ∈ answered m \/
  exists c, cl_id c = id /\ (c ∈ (t_accepted t).*1 \/ c ∈ pc_client <$> pending_connects m) /\ entitled c (services (turn t m)).
Proof.
  intros m. destruct (run_accounted ts dir level now w) as [_ Hok]. fold m in Hok. unfold turn, bootstrap_poll.
  destruct (reap _ _) as [ss1 d]. destruct (clients_accounted (t_accepted t) ss1) as [_ Hnew]. pose proof (handle_clients_handoff (t_accepted t) ss1 id line) as H1.
  destruct (handle_clients _ _) as [[ss2 new] rs]. cbn [fst snd] in *.
  assert (Hall : Forall pending_ok (pending_connects m ++ new)).
  { apply Forall_app. split; [done|]. eapply Forall_impl; [exact Hnew|]. by intros pc [_ ?]. }
  pose proof (drain_pending_handoff (pending_connects m ++ new) (t_now t) ss2 id line Hall) as H2. destruct (drain_pending _ _ _) as [still rs']. cbn [snd] in H2.
  pose proof (drain_logs_grow (t_reads t) ss2) as Hg. destruct (drain_service_logs _ _) as [ss3 d']. cbn [answered services fst] in *.
  rewrite !elem_of_app. intros [H|[H|H]]; [by left|right..].
  - destruct (H1 H) as (c & Hc & E & He). exists c. split_and!; [done|by left|by apply (entitled_grows c ss2)].
  - destruct (H2 H) as (pc & Hpc & E & He). exists (pc_client pc). split_and!; [done| |by apply (entitled_grows _ ss2)].
    apply elem_of_app in Hpc as [Hpc|Hpc]; [right; apply list_elem_of_fmap; by exists pc|left]. rewrite Forall_forall in Hnew. by apply Hnew.
Qed.

(** A client asks for a service that is started for it, registers in the next turn, and
    lets the user of the client in. *)
Definition demo_dir : option (list DirEntry) := Some [mkEntry (lit "txpc-echo.toml") (Some (document demo_file))].
Definition demo_boot : Twinit := boot demo_dir DEFAULT_RUNLEVEL (fun _ => 0) (fun _ => mkSpawn None None None).
Definition demo_peer (id : nat) (p uid : Z) (message : str) (fd : option Z) : Client :=
  mkPeer id (Some (p, uid)) (Some (encode message, fd)) (mkSpawn None None (Some 30)) true true true true.
Definition demo_connect : Turn := mkTurn [] [] [(demo_peer 0 77 1000 (lit "CONNECT dev.twilight.test" ++ [10]) None, 1)] 1 [].
Definition demo_register : Turn := mkTurn [] [] [(demo_peer 1 30 0 (lit "REGISTER dev.twilight.test") (Some 6), 2)] 2 [].

Lemma handoff_entitled_witness :
  (0%nat, RHandoff (lit "OK" ++ [10])) ∈ answered (run [demo_connect] demo_boot) \/
  exists c, cl_id c = 0%nat /\ (c ∈ (t_accepted demo_register).*1 \/ c ∈ pc_client <$> pending_connects (run [demo_connect] demo_boot)) /\
    entitled c (services (turn demo_register (run [demo_connect] demo_boot))).
Proof.
  apply (handoff_entitled demo_dir DEFAULT_RUNLEVEL (fun _ => 0) (fun _ => mkSpawn None None None) [demo_connect] demo_register 0 (lit "OK" ++ [10])).
  change (boot demo_dir DEFAULT_RUNLEVEL (fun _ => 0) (fun _ => mkSpawn None None None)) with demo_boot.
  assert (E : answered (turn demo_register (run [demo_connect] demo_boot)) = [(1%nat, RText (lit "OK" ++ [10])); (0%nat, RHandoff (lit "OK" ++ [10]))])
    by (vm_compute; reflexivity).
  rewrite E. apply elem_of_cons. right. apply elem_of_cons. by left.
Defined.

(** ** Defects *)

Definition demo_logged : ServiceState :=
  start_service (mkSpawn (Some 4) (Some 6) (Some 5))
    (ServiceState_new (mkService (lit "d") [] (lit "/d") [] true DEFAULT_RUNLEVEL Always Foreground Log Log None) 0).

(** A fork that fails during a restart is not tried again: the service stays down,
    although its policy is to restart it always and it is not disabled. *)
Theorem failed_fork_not_retried :
  let s := (service_exit 0 (mkExit [] [] 1 (mkSpawn None None None)) demo_logged).1 in
  let m := run (replicate 50 (mkTurn [] [] [] 2 [])) (mkTwinit [s] [] [] [] []) in
  ((fun s => (pid s, status s, disabled s)) <$> services m) = [(None, Failed (-1), false)].
Proof. vm_compute. reflexivity. Qed.

(** When a child of the service still holds the pipe, what the service wrote after its
    last newline is dropped by the restart. *)
Theorem restart_drops_partial_line :
  let w := mkExit [RData (lit "one" ++ [10] ++ lit "two"); RWouldBlock] [] 1 (mkSpawn (Some 7) (Some 8) (Some 9)) in
  let '(s, logs) := service_exit 256 w demo_logged in
  logs = [service_datagram (lit "d") (lit "INFO") (lit "one")] /\ stdout_buffer s = [] /\ stdout_log s = Some 7.
Proof. vm_compute. split_and!; reflexivity. Qed.
